(* ===== verification/_CoqProject ===== *)
-Q . S2P
Prelude.v
Uint.v
Target.v
Bitcoin.v
Flags.v
Params.v
Header.v
Script.v
ScriptNum.v
Reader.v
Stack.v
SigScript.v
Interpreter.v
SigScriptProofs.v
InterpreterProofs.v
InterpreterTheorems.v
Sighash.v
SighashProofs.v
Checker.v
Verify.v
VerifyProofs.v
VerifySafety.v
VerifySpends.v
Sigops.v
Tx.v
TxProofs.v
Merkle.v
Signet.v
SignetProofs.v
Block.v
BlockProofs.v
Coins.v
CoinsProofs.v
Utxo.v
ConfirmProofs.v
ConfirmLoop.v
CoinsTheorems.v
CoinsWitness.v
SkipList.v
Queue.v
Tree.v
TreeProofs.v
TreeInv.v
TreeOps.v
TreeLife.v
Reorg.v
ReorgLive.v
TreeTheorems.v
Message.v
Wire.v
WireProofs.v
WireTheorems.v
PeerQueues.v
Channel.v
Slots.v
Handshake.v
Session.v
SessionProofs.v
Locator.v
StoreReader.v
StoreCoin.v
StoreUndo.v
UndoTheorems.v
Journal.v
JournalProofs.v
JournalLoad.v
Network.v
Window.v
Schedule.v
ScheduleProofs.v
ScheduleSafety.v
Chain.v
Net.v
DownloadWitness.v
Series.v
Store.v
Runtime.v
Lifecycle.v
Fuzz.v
Corpus.v
