(* ===== verification/Prelude.v ===== *)
(** ** Bitmigo: a Bitcoin node, verified

    bitmigo is a full archival Bitcoin node in Rust.  This library is a shallow embedding of
    its consensus crate ([src/crates/consensus/src]) and of the parts of the node
    ([src/crates/bitmigo/src]) that keep the chain, the disk and the wire, with the theorems
    that make them correct.

    ** How the code is modelled

    - A Rust function returns a value, returns [Err], or panics; the release profile aborts
      on a panic and checks overflow.  All three are values of [outcome] (below), so that
      "never panics" is a theorem.  Assertions, [expect], checked and saturating arithmetic
      are written where the code has them.
    - Integers are [Z] with their width written out; bytes are [Init.Byte.byte]; a [Vec] is a
      list with Rust's partial indexing ([get], [slice]); maps are stdpp's [gmap].
    - A method that takes [&mut self] returns the new state; a loop is a structural recursion
      on what bounds it, or on a fuel that a theorem shows to be enough.
    - The crates [bitcoin], [bitcoin_hashes] and [secp256k1] are classes ([Bitcoin.v],
      [SigScript.v]): their functions are parameters and the documented facts the theorems
      need of them are separate classes of laws, each with an instance among the witnesses.

    ** The consensus crate

    - [Uint], [Target], [Header]: [header/]: 256-bit arithmetic on limbs, compact targets, the
      work of a block, retargeting, and the two header stages.
    - [Flags], [Params]: [script/script_flags.rs], [params/]: chain tables, buried deployments,
      the rules at a height, the subsidy.
    - [Script], [ScriptNum], [Reader], [Stack], [SigScript], [Interpreter] with
      [SigScriptProofs], [InterpreterProofs], [InterpreterTheorems]: [script/]: the script
      machine; it never panics on what the node can hand it (one exception is a theorem),
      CHECKMULTISIG and FindAndDelete implement their specifications, DER is BIP66.
    - [Sighash], [SighashProofs], [Checker], [Verify], [VerifyProofs], [VerifySafety],
      [VerifySpends]: the three signature hashes against BIP preimages, the signature checker,
      input verification: totality, flags only restrict, and what the standard spends mean.
    - [Sigops], [Tx], [TxProofs], [Merkle], [Signet], [SignetProofs], [Block], [BlockProofs]:
      [tx.rs], [block/]: each check accepts exactly the rule it stands for.
    - [Coins], [CoinsProofs], [Utxo], [ConfirmProofs], [ConfirmLoop], [CoinsTheorems],
      [CoinsWitness]: [block/coins.rs]: [Utxo] is the abstract chain state (a finite map of
      coins, transactions applied one by one); [confirm] refines it, its delta is exact and
      reversible, and the supply is bounded on every reachable chain.

    ** The node: the chain

    - [SkipList], [Tree], [TreeProofs], [TreeInv], [TreeOps], [TreeLife], [TreeTheorems]:
      [chain/tree.rs]: the header tree as a state machine with its invariant, the classification
      of headers, exact refusals, and the 512-step bound of the skip-list walk.
    - [Queue], [Reorg], [ReorgLive], [Locator]: the jobs of [runtime/queue.rs],
      [chain/reorg.rs], [chain/locator.rs]: plans reach the best header, and locators and served
      headers are bounded and contiguous.
    - [Chain]: [chain/mod.rs]: one turn of the chain thread, its handlers, its commit and the
      status it publishes.

    ** The node: the wire and the peers

    - [Message], [Wire], [WireProofs], [WireTheorems]: [peer/wire.rs]: the framer over one socket
      refines a parser of the whole stream, what is encoded is decoded, the buffer is bounded,
      and the message deadline does not stop a peer that dribbles (a defect).
    - [PeerQueues], [Channel]: [peer/outbox.rs], [peer/requests.rs], [runtime/queue.rs]: the
      bounded queues, sound under every interleaving of their operations.
    - [Slots], [Network]: [peer/slots.rs], [peer/mod.rs], [peer/disconnect.rs],
      [peer/discovery.rs], [peer/network.rs], [peer/net.rs]: the table of connections with its
      invariant, the tables of the networks and the queue of candidate addresses.
    - [Handshake], [Session], [SessionProofs]: [peer/handshake.rs], [peer/session.rs]: a session
      never panics whatever its peer sends, and forwards only what was asked for and vetted.

    ** The node: block download

    - [Window]: [download/window.rs], [download/peers.rs]: the batched walk asks for exactly the
      blocks the plain rule names.
    - [Schedule], [ScheduleProofs], [ScheduleSafety]: [download/mod.rs], [download/timeouts.rs]:
      every handler of the schedule and its pass over the peers, with the invariant of its books.
    - [Net], [DownloadWitness]: the composition.  Its state is the chain thread's node, the table
      of connections and the messages the readers hold or have queued; its steps are a connection
      made or ended, a reader taking or forwarding a message, and the chain thread recording one
      or running its schedule.  A step is one call of a handler, which the code runs under the
      lock of what it touches.  No run panics in which a connection ends only when none of its
      blocks is queued, and two runs without that panic (two defects).

    ** The node: the disk

    - [StoreReader], [StoreCoin], [StoreUndo], [UndoTheorems]: [store/reader.rs], [store/coin.rs],
      [store/undo.rs]: the encodings round-trip within their bounds, and the undo record of a
      confirmed block restores the set of coins.
    - [Journal], [JournalProofs], [JournalLoad]: [store/index.rs]: what a crash leaves is a prefix
      of the records, whatever is loaded gives a sound tree whose tip is the marker, and a torn
      tail is never repaired (a defect).
    - [Series]: [store/series.rs], [store/handles.rs]: flat files whose names, cursor and open
      handles are the code's, over a directory that knows what a crash cannot take; what is
      appended reads back, and what happens after an append that failed (a defect).
    - [Store]: [store/mod.rs]: the ordering rule, over sequences of writes, commits and syncs on a
      disk that may fail: every block the index names survives a crash, given that the first
      file of a series has its name on the disk, which nothing syncs (a defect).

    ** The node: starting and stopping

    - [Runtime]: [runtime/supervisor.rs], [runtime/signal.rs], [runtime/snapshot.rs],
      [runtime/mod.rs], [main.rs], [validation.rs], [control.rs] and the loops of [peer/net.rs]:
      the table of the sixty-nine threads, one pass of each loop, the signal pipe, the command
      line, the shutdown sequence and the supervisor, whose report is exact.
    - [Lifecycle]: all the threads together.  A step is one pass of one thread, from its blocking
      call to the next; what a socket, a resolver or the clock answers is chosen by the step.  After
      a shutdown no run takes more than a fixed number of passes outside the writers, and every
      thread can return.

    ** The fuzzer

    - [Fuzz]: [differential/src/prng.rs], [generate.rs], [case.rs], [templates.rs], [oracle.rs],
      [fuzz.rs], [main.rs]: generators of spends in a state monad over the [Prng]; every signed case
      keeps the bounds and gets a verdict from both interpreters, and the report of a run is exact.
    - [Corpus]: [differential/src/json.rs], [assets.rs]: the JSON reader reads back whatever its
      grammar writes, and the corpus passes exactly when every record obeys Core's rule.

    ** Bounds and fuel

    Every fuelled loop is fed a measure of its input (the length of a script, of a file, of the
    arena) or the constant the code asserts, and the theorems that speak of its result show
    that it is reached: none is of the form "if it returns".  A number is printed with a fuel of
    ten digits, which a [u32] fits.

    ** Not modelled

    - The operating system: sockets, DNS, the creation of threads, the installation of the signal
      handler, the anchors file and clocks; [runtime/sync.rs] (what to do about a poisoned lock) and
      [store/datadir.rs] (four directories and a file lock).  What a socket returns, what a clock
      reads and whether a call to the disk succeeds are arguments of the definitions.  A blocking
      call is one attempt that returns or waits.
    - The journal's own failures: [Journal] works on the bytes of its file, and a failed write is
      the cut of [journal_crash_safe]; in [Chain] and [Store] a refused index write leaves it as
      it was.
    - [fmt::Display] implementations and the lines printed for the operator only make text.
    - [script/vectors.rs] is compiled only with the tests of the consensus crate.

    This file: outcomes, bytes, lists with Rust's indexing, fixed-width integers, and the
    tactics and lemmas that every file uses. *)
From stdpp Require Export prelude gmap.
From Stdlib Require Export ZArith Lia.
From Stdlib Require Export Init.Byte.
From Stdlib Require Strings.Byte.

#[global] Open Scope Z_scope.

(** ** Outcomes: values, errors as values, and panics

    A Rust function of the repository returns a value, returns [Err e], or
    panics on a broken [assert!], [expect] or index (the release profile aborts
    on a panic).  All three are values of [outcome]; a function with no error
    type of its own is polymorphic in [E]. *)

Inductive outcome (E A : Type) : Type :=
| Ok (a : A)
| Err (e : E)
| Panic.
Arguments Ok {E A} a.
Arguments Err {E A} e.
Arguments Panic {E A}.

#[global] Instance outcome_ret {E} : MRet (outcome E) := fun A a => Ok a.
#[global] Instance outcome_bind {E} : MBind (outcome E) := fun A B f m =>
  match m with
  | Ok a => f a
  | Err e => Err e
  | Panic => Panic
  end.
#[global] Instance outcome_fmap {E} : FMap (outcome E) := fun A B f m =>
  match m with
  | Ok a => Ok (f a)
  | Err e => Err e
  | Panic => Panic
  end.

(** [assert!(b)]. *)
Definition assert_ {E} (b : bool) : outcome E unit := if b then Ok tt else Panic.
(** [o.expect(..)] on an [Option]. *)
Definition expect {E A} (o : option A) : outcome E A :=
  match o with Some a => Ok a | None => Panic end.
(** [r.map_err(f)]. *)
Definition map_err {E F A} (f : E -> F) (m : outcome E A) : outcome F A :=
  match m with Ok a => Ok a | Err e => Err (f e) | Panic => Panic end.
(** [r.is_ok()]. *)
Definition is_ok {E A} (m : outcome E A) : bool :=
  match m with Ok _ => true | _ => false end.
(** A value computed by a function that cannot return [Err], used under any error type. *)
Definition lift {E A} (m : outcome Empty_set A) : outcome E A :=
  map_err (fun e : Empty_set => match e with end) m.

(** [for x in xs { .. }] with an accumulator, stopping at the first error or panic. *)
Fixpoint foldM {E A B} (f : A -> B -> outcome E A) (a : A) (xs : list B) : outcome E A :=
  match xs with
  | [] => Ok a
  | x :: xs => a' ← f a x; foldM f a' xs
  end.

(** The postcondition reading of an outcome: it is not a panic, and a value satisfies [Q]. *)
Definition ensures {E A} (m : outcome E A) (Q : A -> Prop) : Prop :=
  match m with Ok a => Q a | Err _ => True | Panic => False end.

Section outcome_lemmas.
Context {E A B : Type}.
Implicit Types (m : outcome E A) (f : A -> outcome E B).

Lemma bind_Ok m f b : (m ≫= f) = Ok b <-> exists a, m = Ok a /\ f a = Ok b.
Proof. destruct m; simpl; naive_solver. Qed.

Lemma bind_Err m f e :
  (m ≫= f) = Err e <-> m = Err e \/ exists a, m = Ok a /\ f a = Err e.
Proof. destruct m; simpl; naive_solver. Qed.

Lemma bind_Panic m f :
  (m ≫= f) = Panic <-> m = Panic \/ exists a, m = Ok a /\ f a = Panic.
Proof. destruct m; simpl; naive_solver. Qed.

Lemma map_err_Ok {F} (g : E -> F) m a : map_err g m = Ok a <-> m = Ok a.
Proof. destruct m; simpl; naive_solver. Qed.

Lemma expect_Ok (o : option A) a : expect (E:=E) o = Ok a <-> o = Some a.
Proof. destruct o; simpl; naive_solver. Qed.

Lemma ensures_bind m f (Q : A -> Prop) (R : B -> Prop) :
  ensures m Q -> (forall a, Q a -> ensures (f a) R) -> ensures (m ≫= f) R.
Proof. destruct m; simpl; auto. Qed.

Lemma ensures_mono m (Q R : A -> Prop) :
  ensures m Q -> (forall a, Q a -> R a) -> ensures m R.
Proof. destruct m; simpl; auto. Qed.

Lemma ensures_Ok_inv m (Q : A -> Prop) a : ensures m Q -> m = Ok a -> Q a.
Proof. intros H ->. exact H. Qed.

Lemma ensures_not_Panic m (Q : A -> Prop) : ensures m Q -> m <> Panic.
Proof. by destruct m. Qed.

Lemma ensures_true_iff m : ensures m (fun _ => True) <-> m <> Panic.
Proof. destruct m; simpl; naive_solver. Qed.
End outcome_lemmas.

Lemma assert_Ok {E} (b : bool) u : assert_ (E:=E) b = Ok u <-> b = true.
Proof. destruct b, u; simpl; naive_solver. Qed.

Lemma ensures_assert {E A} (b : bool) (k : outcome E A) Q :
  b = true -> ensures k Q -> ensures (assert_ b;; k) Q.
Proof. by intros ->. Qed.

Lemma ensures_expect {E A B} (o : option A) a (k : A -> outcome E B) Q :
  o = Some a -> ensures (k a) Q -> ensures (expect o ≫= k) Q.
Proof. by intros ->. Qed.

Lemma ensures_foldM {E A B} (f : A -> B -> outcome E A) (I : A -> Prop) xs a :
  I a -> (forall a x, x ∈ xs -> I a -> ensures (f a x) I) -> ensures (foldM f a xs) I.
Proof.
  revert a; induction xs as [|x xs IH]; intros a Ha Hf; simpl; [done|].
  apply ensures_bind with I; [apply Hf; set_solver|].
  intros a' Ha'. apply IH; [done|]. intros; apply Hf; set_solver.
Qed.

(** Decomposes [_ = Ok _] hypotheses about sequenced computations. *)
Ltac inv_ok :=
  repeat match goal with
  | H : (_ ≫= _) = Ok _ |- _ =>
      apply bind_Ok in H;
      let x := fresh "x" in let Hx := fresh "Hx" in destruct H as (x & Hx & H)
  | H : assert_ _ = Ok _ |- _ => apply assert_Ok in H
  | H : expect _ = Ok _ |- _ => apply expect_Ok in H
  | H : map_err _ _ = Ok _ |- _ => apply map_err_Ok in H
  | H : Ok _ = Ok _ |- _ => injection H; clear H; intros
  | H : Err _ = Ok _ |- _ => discriminate H
  | H : Panic = Ok _ |- _ => discriminate H
  end; simplify_eq.

(** Runs the steps of a sequenced computation that are already values. *)
Ltac run :=
  cbn [mbind outcome_bind mret outcome_ret assert_ expect negb andb orb fmap outcome_fmap
       map_err is_ok].

(** [lia] with division and modulo by their defining equations. *)
Ltac dlia := Z.div_mod_to_equations; lia.

(** Case analysis on every integer comparison of the goal. *)
Ltac case_bools :=
  repeat match goal with
  | |- context [?a <=? ?b] => destruct (Z.leb_spec a b)
  | |- context [?a <? ?b] => destruct (Z.ltb_spec a b)
  | |- context [?a =? ?b] => destruct (Z.eqb_spec a b)
  end.

(** ** Bytes *)

Notation bytes := (list byte).

#[global] Instance byte_eq_dec : EqDecision byte := Byte.byte_eq_dec.

(** [u8] as a number and back (truncating, as [as u8] or a masked [try_from]). *)
Definition bz (b : byte) : Z := Z.of_N (Byte.to_N b).
Definition zb (z : Z) : byte :=
  match Byte.of_N (Z.to_N (z mod 256)) with Some b => b | None => x00 end.

Lemma bz_range b : 0 <= bz b < 256.
Proof. unfold bz. pose proof (Byte.to_N_bounded b). lia. Qed.

Lemma bz_zb z : bz (zb z) = z mod 256.
Proof.
  pose proof (Z.mod_pos_bound z 256 ltac:(lia)).
  unfold bz, zb. destruct (Byte.of_N _) eqn:Heq.
  - apply Byte.to_of_N in Heq. lia.
  - apply Byte.of_N_None_iff in Heq. lia.
Qed.

Lemma bz_inj a b : bz a = bz b -> a = b.
Proof.
  unfold bz; intros H. apply N2Z.inj in H.
  pose proof (Byte.of_to_N a). pose proof (Byte.of_to_N b). congruence.
Qed.

Lemma bz_zb_id z : 0 <= z < 256 -> bz (zb z) = z.
Proof. intros. rewrite bz_zb. by apply Z.mod_small. Qed.

Lemma zb_bz b : zb (bz b) = b.
Proof. apply bz_inj. rewrite bz_zb_id; [done|apply bz_range]. Qed.

(** Little-endian and big-endian numbers, as [u{16,32,64}::from_le_bytes] and the like. *)
Fixpoint le_val (l : bytes) : Z :=
  match l with [] => 0 | b :: l => bz b + 256 * le_val l end.
Fixpoint le_bytes (n : nat) (z : Z) : bytes :=
  match n with O => [] | S n => zb z :: le_bytes n (z / 256) end.
Definition be_val (l : bytes) : Z := le_val (reverse l).
Definition be_bytes (n : nat) (z : Z) : bytes := reverse (le_bytes n z).

Lemma le_val_range l : 0 <= le_val l < 256 ^ Z.of_nat (length l).
Proof.
  induction l as [|b l IH]; [simpl; lia|].
  cbn [le_val length]. rewrite Nat2Z.inj_succ, Z.pow_succ_r by lia.
  pose proof (bz_range b). lia.
Qed.

Lemma length_le_bytes n z : length (le_bytes n z) = n.
Proof. revert z; induction n; simpl; auto. Qed.

Lemma le_val_bytes n z : le_val (le_bytes n z) = z mod 256 ^ Z.of_nat n.
Proof.
  revert z; induction n as [|n IH]; intros z; [simpl; by rewrite Z.mod_1_r|].
  cbn [le_bytes le_val]. rewrite IH, bz_zb, Nat2Z.inj_succ, Z.pow_succ_r by lia.
  rewrite (Z.rem_mul_r z 256) by (try lia; apply Z.pow_nonzero; lia). lia.
Qed.

Lemma le_bytes_val l : le_bytes (length l) (le_val l) = l.
Proof.
  induction l as [|b l IH]; [done|]. cbn [length le_bytes le_val].
  pose proof (bz_range b). f_equal.
  - apply bz_inj. rewrite bz_zb. rewrite (Z.mul_comm 256), Z_mod_plus_full.
    apply Z.mod_small; lia.
  - rewrite (Z.mul_comm 256), Z_div_plus_full by lia.
    rewrite (Z.div_small (bz b)) by lia. apply IH.
Qed.

Lemma le_val_app l1 l2 :
  le_val (l1 ++ l2) = le_val l1 + 256 ^ Z.of_nat (length l1) * le_val l2.
Proof.
  induction l1 as [|b l IH]; [cbn -[Z.mul]; lia|].
  cbn [le_val length app]. rewrite IH, Nat2Z.inj_succ, Z.pow_succ_r by lia. ring.
Qed.

Lemma le_val_inj l1 l2 : length l1 = length l2 -> le_val l1 = le_val l2 -> l1 = l2.
Proof.
  intros Hl Hv. rewrite <-(le_bytes_val l1), <-(le_bytes_val l2). congruence.
Qed.

Lemma length_be_bytes n z : length (be_bytes n z) = n.
Proof. unfold be_bytes. by rewrite length_reverse, length_le_bytes. Qed.

Lemma be_val_bytes n z : 0 <= z < 256 ^ Z.of_nat n -> be_val (be_bytes n z) = z.
Proof.
  intros. unfold be_val, be_bytes. rewrite reverse_involutive, le_val_bytes.
  by apply Z.mod_small.
Qed.

Lemma be_val_range l : 0 <= be_val l < 256 ^ Z.of_nat (length l).
Proof. unfold be_val. rewrite <-length_reverse. apply le_val_range. Qed.

Lemma be_bytes_val l : be_bytes (length l) (be_val l) = l.
Proof.
  unfold be_val, be_bytes. rewrite <-(length_reverse l), le_bytes_val.
  apply reverse_involutive.
Qed.

Lemma be_val_inj l1 l2 : length l1 = length l2 -> be_val l1 = be_val l2 -> l1 = l2.
Proof.
  intros Hl Hv. rewrite <-(be_bytes_val l1), <-(be_bytes_val l2). congruence.
Qed.

Lemma be_val_app l1 l2 :
  be_val (l1 ++ l2) = be_val l1 * 256 ^ Z.of_nat (length l2) + be_val l2.
Proof. unfold be_val. rewrite reverse_app, le_val_app, length_reverse. lia. Qed.

(** ** Vectors and slices, indexed by [usize] *)

(** [v.len()]. *)
Definition len {A} (l : list A) : Z := Z.of_nat (length l).
(** [v.get(i)]. *)
Definition get {A} (l : list A) (i : Z) : option A :=
  if 0 <=? i then l !! Z.to_nat i else None.
(** [v.get(a..b)]. *)
Definition slice {A} (l : list A) (a b : Z) : option (list A) :=
  if (0 <=? a) && (a <=? b) && (b <=? len l)
  then Some (take (Z.to_nat (b - a)) (drop (Z.to_nat a) l)) else None.
(** [v.get(a..)]. *)
Definition slice_from {A} (l : list A) (a : Z) : option (list A) := slice l a (len l).
(** [v.iter().enumerate()], indices counted from [i]. *)
Fixpoint enumerate_from {A} (i : Z) (l : list A) : list (Z * A) :=
  match l with [] => [] | x :: l => (i, x) :: enumerate_from (i + 1) l end.
Definition enumerate {A} : list A -> list (Z * A) := enumerate_from 0.
(** [v.starts_with(p)]. *)
Definition starts_with (l p : bytes) : bool := bool_decide (take (length p) l = p).

Lemma len_nonneg {A} (l : list A) : 0 <= len l.
Proof. unfold len; lia. Qed.
Lemma len_nil {A} : len (@nil A) = 0.
Proof. done. Qed.
Lemma len_cons {A} (x : A) l : len (x :: l) = len l + 1.
Proof. unfold len; simpl; lia. Qed.
Lemma len_app {A} (l k : list A) : len (l ++ k) = len l + len k.
Proof. unfold len. rewrite length_app. lia. Qed.

Lemma get_Some_range {A} (l : list A) i x : get l i = Some x -> 0 <= i < len l.
Proof.
  unfold get, len. destruct (Z.leb_spec 0 i); [|done].
  intros Hx. apply lookup_lt_Some in Hx. lia.
Qed.

Lemma get_in_range {A} (l : list A) i : 0 <= i < len l -> exists x, get l i = Some x.
Proof.
  unfold get, len. intros. destruct (Z.leb_spec 0 i); [|lia].
  apply lookup_lt_is_Some. lia.
Qed.

Lemma get_app_l {A} (l k : list A) i : i < len l -> get (l ++ k) i = get l i.
Proof.
  unfold get, len. intros. destruct (Z.leb_spec 0 i); [|done].
  apply lookup_app_l. lia.
Qed.

Lemma get_app_r {A} (l k : list A) i : len l <= i -> get (l ++ k) i = get k (i - len l).
Proof.
  unfold get, len. intros. destruct (Z.leb_spec 0 i); [|lia].
  destruct (Z.leb_spec 0 (i - Z.of_nat (length l))); [|lia].
  rewrite lookup_app_r by lia. f_equal. lia.
Qed.

Lemma get_elem {A} (l : list A) i x : get l i = Some x -> x ∈ l.
Proof.
  unfold get. destruct (0 <=? i); [|done]. intros. by eapply list_elem_of_lookup_2.
Qed.

Lemma get_insert {A} (l : list A) n i x : 0 <= n < len l ->
  get (<[Z.to_nat n := x]> l) i = if decide (i = n) then Some x else get l i.
Proof.
  unfold get, len. intros Hn. destruct (Z.leb_spec 0 i); [|case_decide; [lia|done]].
  case_decide as Hi; [subst; apply list_lookup_insert_eq; lia|].
  apply list_lookup_insert_ne. lia.
Qed.

Lemma len_insert {A} (l : list A) n x : len (<[n := x]> l) = len l.
Proof. unfold len. by rewrite length_insert. Qed.

Lemma slice_Some {A} (l : list A) a b s :
  slice l a b = Some s ->
  0 <= a <= b /\ b <= len l /\ s = take (Z.to_nat (b - a)) (drop (Z.to_nat a) l).
Proof.
  unfold slice. intros H.
  destruct ((0 <=? a) && (a <=? b) && (b <=? len l)) eqn:Hb; simplify_eq.
  split_and!; try lia; done.
Qed.

Lemma slice_in_range {A} (l : list A) a b :
  0 <= a <= b -> b <= len l ->
  slice l a b = Some (take (Z.to_nat (b - a)) (drop (Z.to_nat a) l)).
Proof.
  intros. unfold slice. destruct ((0 <=? a) && (a <=? b) && (b <=? len l)) eqn:Hb; [done|lia].
Qed.

Lemma len_slice {A} (l : list A) a b s : slice l a b = Some s -> len s = b - a.
Proof.
  intros (?&?&->)%slice_Some. unfold len in *. rewrite length_take, length_drop. lia.
Qed.

Lemma get_middle {A} (l k : list A) x : get (l ++ x :: k) (len l) = Some x.
Proof. rewrite get_app_r, Z.sub_diag by lia. done. Qed.

Lemma slice_middle {A} (l m k : list A) a b : a = len l -> b = len l + len m ->
  slice (l ++ m ++ k) a b = Some m.
Proof.
  intros -> ->. pose proof (len_nonneg l). pose proof (len_nonneg m). pose proof (len_nonneg k).
  rewrite slice_in_range by (rewrite ?len_app; lia). f_equal.
  replace (Z.to_nat (len l + len m - len l)) with (length m) by (unfold len; lia).
  replace (Z.to_nat (len l)) with (length l) by (unfold len; lia).
  by rewrite drop_app_length, take_app_length.
Qed.

Lemma length_enumerate_from {A} i (l : list A) : length (enumerate_from i l) = length l.
Proof. revert i; induction l; simpl; auto. Qed.

(** ** Verdicts

    A check [decides] a proposition when it never panics, succeeds where the proposition
    holds and reports an error where it does not. *)
Definition decides {E} (m : outcome E unit) (P : Prop) : Prop :=
  (P /\ m = Ok tt) \/ (~ P /\ exists e, m = Err e).

Section verdicts.
Context {E : Type}.
Implicit Types (m : outcome E unit).

Lemma decides_iff m P : decides m P <-> m <> Panic /\ (m = Ok tt <-> P).
Proof.
  unfold decides. split.
  - intros [[HP ->]|[HP [e ->]]]; split; try done; split; done.
  - intros [Hm Hiff]. destruct m as [[]|e|]; [left; tauto|right|done].
    split; [|by eexists]. intros HP. by apply Hiff in HP.
Qed.

Lemma decides_ext m P Q : decides m P -> (P <-> Q) -> decides m Q.
Proof. unfold decides. tauto. Qed.

Lemma decides_seq m (k : unit -> outcome E unit) P Q :
  decides m P -> (P -> decides (k tt) Q) -> decides (m ≫= k) (P /\ Q).
Proof.
  intros [[HP ->]|[HP [e ->]]] Hk; cbn; [|right; split; [tauto|by eexists]].
  destruct (Hk HP) as [[HQ ->]|[HQ [e ->]]]; [left|right]; (split; [tauto|]); [done|by eexists].
Qed.

Lemma decides_bool (b : bool) (e : E) : decides (if b then Err e else Ok tt) (b = false).
Proof. destruct b; [right|left]; (split; [done|]); [by eexists|done]. Qed.

Lemma decides_map_err {F} (g : E -> F) m P : decides m P -> decides (map_err g m) P.
Proof. intros [[HP ->]|[HP [e ->]]]; [by left|right]. split; [done|by eexists]. Qed.

(** A scan that stops at the first element that fails. *)
Lemma decides_scan {A} (f : Z * A -> outcome E unit) (P : A -> Prop) (l : list A) (i : Z) :
  (forall i x, x ∈ l -> decides (f (i, x)) (P x)) ->
  decides (foldM (fun _ p => f p) tt (enumerate_from i l)) (Forall P l).
Proof.
  revert i; induction l as [|x l IH]; intros i Hf; cbn [enumerate_from foldM]; [by left|].
  eapply decides_ext; [|symmetry; apply Forall_cons]. apply (decides_seq (f (i, x))); [apply Hf; set_solver|].
  intros _. apply IH. intros; apply Hf; set_solver.
Qed.
End verdicts.

Lemma starts_with_spec l p : starts_with l p = true <-> p `prefix_of` l.
Proof.
  unfold starts_with. rewrite bool_decide_eq_true. split.
  - intros Heq. exists (drop (length p) l). rewrite <-Heq at 1. by rewrite take_drop.
  - intros [k ->]. by rewrite take_app_length.
Qed.

(** ** Machine integers *)

Definition u32_max : Z := 2 ^ 32 - 1.
Definition u64_max : Z := 2 ^ 64 - 1.
(** [T::try_from(x)] for an unsigned [T] with largest value [max]. *)
Definition try_from (max x : Z) : option Z := if (0 <=? x) && (x <=? max) then Some x else None.
(** A result of [+], [-] or [*] at its width: the release profile sets [overflow-checks],
    so an out-of-range result panics. *)
Definition u32 {E} (x : Z) : outcome E Z := if (0 <=? x) && (x <=? u32_max) then Ok x else Panic.
Definition u64 {E} (x : Z) : outcome E Z := if (0 <=? x) && (x <=? u64_max) then Ok x else Panic.
Definition i32 {E} (x : Z) : outcome E Z :=
  if (- 2 ^ 31 <=? x) && (x <? 2 ^ 31) then Ok x else Panic.
Definition i64 {E} (x : Z) : outcome E Z :=
  if (- 2 ^ 63 <=? x) && (x <? 2 ^ 63) then Ok x else Panic.
(** [x.clamp(min, max)], which asserts [min <= max]. *)
Definition clamp {E} (x min max : Z) : outcome E Z :=
  assert_ (min <=? max);; Ok (if x <? min then min else if max <? x then max else x).
(** [saturating_sub] of an unsigned type, [saturating_add] and [saturating_mul] of [u32] and
    [u64], and [u32::wrapping_sub]. *)
Definition saturating_sub (a b : Z) : Z := Z.max 0 (a - b).
Definition saturating_add32 (a b : Z) : Z := Z.min u32_max (a + b).
Definition saturating_mul32 (a b : Z) : Z := Z.min u32_max (a * b).
Definition saturating_add (a b : Z) : Z := Z.min u64_max (a + b).
Definition saturating_mul (a b : Z) : Z := Z.min u64_max (a * b).
Definition wrapping_sub32 (a b : Z) : Z := (a - b) mod 2 ^ 32.

(** [a.overflowing_add(b)] and [a.overflowing_sub(b)] on [u64]. *)
Definition overflowing_add (a b : Z) : Z * bool := ((a + b) mod 2 ^ 64, 2 ^ 64 <=? a + b).
Definition overflowing_sub (a b : Z) : Z * bool := ((a - b) mod 2 ^ 64, a <? b).
(** [u64::leading_zeros]. *)
Definition leading_zeros (x : Z) : Z := if x =? 0 then 64 else 63 - Z.log2 x.
(** [i32::cast_unsigned]. *)
Definition cast_unsigned32 (x : Z) : Z := x mod 2 ^ 32.

Lemma land_pow2_testbit x k : 0 <= k -> (Z.land x (2 ^ k) =? 0) = negb (Z.testbit x k).
Proof.
  intros Hk. destruct (Z.testbit x k) eqn:Ht; simpl.
  - apply Z.eqb_neq. intros H0. apply (f_equal (fun z => Z.testbit z k)) in H0.
    by rewrite Z.land_spec, Ht, Z.pow2_bits_true, Z.bits_0 in H0.
  - apply Z.eqb_eq. apply Z.bits_inj'. intros n Hn. rewrite Z.land_spec, Z.bits_0.
    destruct (decide (n = k)) as [->|]; [by rewrite Ht|].
    rewrite (Z.pow2_bits_false k n) by lia. apply andb_false_r.
Qed.

Lemma lor_disjoint_add a b k : 0 <= k -> a mod 2 ^ k = 0 -> 0 <= b < 2 ^ k -> Z.lor a b = a + b.
Proof.
  intros Hk Ha Hb. symmetry. apply Z.add_nocarry_lor. apply Z.bits_inj'. intros n Hn.
  rewrite Z.land_spec, Z.bits_0.
  destruct (Z.lt_ge_cases n k).
  - rewrite <-(Z.mod_pow2_bits_low a k n) by lia. by rewrite Ha, Z.bits_0.
  - rewrite <-(Z.mod_small b (2 ^ k)) by lia.
    rewrite Z.mod_pow2_bits_high by lia. apply andb_false_r.
Qed.

Section widths.
Context {E : Type}.

Lemma try_from_ok max x : 0 <= x <= max -> try_from max x = Some x.
Proof. intros. unfold try_from. destruct (_ && _) eqn:Hb; [done|lia]. Qed.
Lemma try_from_Some max x y : try_from max x = Some y -> y = x /\ 0 <= x <= max.
Proof. unfold try_from. destruct (_ && _) eqn:Hb; intros; simplify_eq. lia. Qed.
Lemma u32_ok x : 0 <= x <= u32_max -> u32 (E:=E) x = Ok x.
Proof. intros. unfold u32. destruct (_ && _) eqn:Hb; [done|lia]. Qed.
Lemma u64_ok x : 0 <= x <= u64_max -> u64 (E:=E) x = Ok x.
Proof. intros. unfold u64. destruct (_ && _) eqn:Hb; [done|lia]. Qed.
Lemma i32_ok x : - 2 ^ 31 <= x < 2 ^ 31 -> i32 (E:=E) x = Ok x.
Proof. intros. unfold i32. destruct (_ && _) eqn:Hb; [done|lia]. Qed.
Lemma i64_ok x : - 2 ^ 63 <= x < 2 ^ 63 -> i64 (E:=E) x = Ok x.
Proof. intros. unfold i64. destruct (_ && _) eqn:Hb; [done|lia]. Qed.
Lemma u64_Ok x y : u64 (E:=E) x = Ok y <-> y = x /\ 0 <= x <= u64_max.
Proof. unfold u64. destruct (_ && _) eqn:Hb; (split; [intros; simplify_eq; lia|]); [naive_solver|lia]. Qed.
Lemma u32_Ok x y : u32 (E:=E) x = Ok y <-> y = x /\ 0 <= x <= u32_max.
Proof. unfold u32. destruct (_ && _) eqn:Hb; (split; [intros; simplify_eq; lia|]); [naive_solver|lia]. Qed.
Lemma i64_Ok x y : i64 (E:=E) x = Ok y <-> y = x /\ - 2 ^ 63 <= x < 2 ^ 63.
Proof. unfold i64. destruct (_ && _) eqn:Hb; (split; [intros; simplify_eq; lia|]); [naive_solver|lia]. Qed.
Lemma saturating_add_ok a b : a + b <= u64_max -> saturating_add a b = a + b.
Proof. unfold saturating_add. lia. Qed.
Lemma saturating_mul_ok a b : a * b <= u64_max -> saturating_mul a b = a * b.
Proof. unfold saturating_mul. lia. Qed.
Lemma saturating_sub_ok a b : b <= a -> saturating_sub a b = a - b.
Proof. unfold saturating_sub. lia. Qed.

Lemma clamp_ok x min max : min <= max ->
  clamp (E:=E) x min max = Ok (Z.max min (Z.min max x)).
Proof.
  intros. unfold clamp. rewrite (proj2 (Z.leb_le _ _)) by done. cbn. f_equal.
  destruct (Z.ltb_spec x min); [lia|]. destruct (Z.ltb_spec max x); lia.
Qed.
End widths.

Create HintDb bitmigo discriminated.
#[export] Hint Resolve bz_range le_val_range be_val_range len_nonneg : bitmigo.
