(* ===== verification/Uint.v ===== *)
(** * Uint: the 256-bit integer of the target rules ([consensus/src/header/uint.rs]) *)
From S2P Require Import Prelude.

Module U256.

(** [U256([u64; 4])], most significant limb first. *)
Record U256 := mkU256 { limbs : list Z }.

#[global] Instance U256_eq_dec : EqDecision U256.
Proof. solve_decision. Defined.

Definition LIMBS : Z := 4.
Definition LIMB_BITS : Z := 64.
Definition BITS : Z := 256.
Definition ZERO : U256 := mkU256 [0; 0; 0; 0].
Definition ONE : U256 := mkU256 [0; 0; 0; 1].
Definition from_u64 (value : Z) : U256 := mkU256 [0; 0; 0; value].

(** [bytes.as_chunks::<8>()]: the whole chunks, in order. *)
Fixpoint chunks8 (n : nat) (l : bytes) : list bytes :=
  match n with O => [] | S n => take 8 l :: chunks8 n (drop 8 l) end.

Definition from_be_bytes (b : bytes) : U256 := mkU256 (map be_val (chunks8 4 b)).
Definition from_le_bytes (b : bytes) : U256 := from_be_bytes (reverse b).
Definition to_be_bytes (u : U256) : bytes := concat (map (be_bytes 8) (limbs u)).

Definition is_zero (u : U256) : bool := bool_decide (u = ZERO).

(** [self.0.iter().enumerate()], from [index]. *)
Fixpoint bits_loop (index : Z) (ls : list Z) : Z :=
  match ls with
  | [] => 0
  | limb :: ls =>
      if negb (limb =? 0)
      then let limbs_below := LIMBS - 1 - index in
           limbs_below * LIMB_BITS + (LIMB_BITS - leading_zeros limb)
      else bits_loop (index + 1) ls
  end.
Definition bits (u : U256) : Z := bits_loop 0 (limbs u).

Definition low_u64 (u : U256) : Z := default 0 (get (limbs u) (LIMBS - 1)).

(** The shifts of a [u64] that keep the low or the high bits. *)
Definition shl64 (x k : Z) : Z := Z.shiftl x k mod 2 ^ 64.
Definition shr64 (x k : Z) : Z := Z.shiftr x k.

Definition shl {E} (u : U256) (shift : Z) : outcome E U256 :=
  assert_ (shift <? BITS);;
  let limb_shift := shift / LIMB_BITS in
  let bit_shift := shift mod LIMB_BITS in
  let source index := default 0 (get (limbs u) index) in
  let limb index :=
    let high := source (index + limb_shift) in
    let low := source (index + limb_shift + 1) in
    if bit_shift =? 0 then high
    else Z.lor (shl64 high bit_shift) (shr64 low (LIMB_BITS - bit_shift)) in
  Ok (mkU256 (map limb [0; 1; 2; 3])).

Definition shr {E} (u : U256) (shift : Z) : outcome E U256 :=
  assert_ (shift <? BITS);;
  let limb_shift := shift / LIMB_BITS in
  let bit_shift := shift mod LIMB_BITS in
  (* a [checked_sub] below zero is [None], read as 0: [get] at a negative index *)
  let source index := default 0 (get (limbs u) index) in
  let limb index :=
    let low := source (index - limb_shift) in
    let high := source (index - (limb_shift + 1)) in
    if bit_shift =? 0 then low
    else Z.lor (shr64 low bit_shift) (shl64 high (LIMB_BITS - bit_shift)) in
  Ok (mkU256 (map limb [0; 1; 2; 3])).

Definition not (u : U256) : U256 := mkU256 (map (fun limb => u64_max - limb) (limbs u)).

(** The carry loop, least significant limb first. *)
Fixpoint add_loop (a b : list Z) : list Z * bool :=
  match a, b with
  | x :: a, y :: b =>
      let (ls, carry) := add_loop a b in
      let (sum, overflow_a) := overflowing_add x y in
      let (sum, overflow_b) := overflowing_add sum (Z.b2z carry) in
      (sum :: ls, overflow_a || overflow_b)
  | _, _ => ([], false)
  end.
Definition checked_add (a b : U256) : option U256 :=
  let (ls, carry) := add_loop (limbs a) (limbs b) in
  if carry then None else Some (mkU256 ls).

(** The derived [Ord]: lexicographic on the limbs. *)
Fixpoint lex_lt (a b : list Z) : bool :=
  match a, b with
  | x :: a, y :: b => (x <? y) || ((x =? y) && lex_lt a b)
  | _, _ => false
  end.
Definition lt (a b : U256) : bool := lex_lt (limbs a) (limbs b).
Definition le (a b : U256) : bool := negb (lt b a).

Fixpoint sub_loop (a b : list Z) : list Z * bool :=
  match a, b with
  | x :: a, y :: b =>
      let (ls, borrow) := sub_loop a b in
      let (difference, underflow_a) := overflowing_sub x y in
      let (difference, underflow_b) := overflowing_sub difference (Z.b2z borrow) in
      (difference :: ls, underflow_a || underflow_b)
  | _, _ => ([], false)
  end.
Definition sub {E} (a b : U256) : outcome E U256 :=
  assert_ (le b a);;
  let (ls, borrow) := sub_loop (limbs a) (limbs b) in
  assert_ (negb borrow);;
  Ok (mkU256 ls).

Fixpoint mul_loop (factor : Z) (a : list Z) : list Z * Z :=
  match a with
  | x :: a =>
      let (ls, carry) := mul_loop factor a in
      let product := x * factor + carry in
      (Z.land product u64_max :: ls, Z.shiftr product LIMB_BITS)
  | [] => ([], 0)
  end.
Definition checked_mul_u64 (u : U256) (factor : Z) : option U256 :=
  let (ls, carry) := mul_loop factor (limbs u) in
  if negb (carry =? 0) then None else Some (mkU256 ls).

(** Most significant limb first, threading the remainder. *)
Fixpoint div_u64_loop {E} (divisor remainder : Z) (a : list Z) : outcome E (list Z) :=
  match a with
  | x :: a =>
      let current := Z.lor (Z.shiftl remainder LIMB_BITS) x in
      q ← expect (try_from u64_max (current / divisor));
      ls ← div_u64_loop divisor (current mod divisor) a;
      Ok (q :: ls)
  | [] => Ok []
  end.
Definition div_u64 {E} (u : U256) (divisor : Z) : outcome E U256 :=
  assert_ (0 <? divisor);;
  ls ← div_u64_loop divisor 0 (limbs u);
  Ok (mkU256 ls).

Definition set_bit {E} (u : U256) (bit : Z) : outcome E U256 :=
  assert_ (bit <? BITS);;
  let index := LIMBS - 1 - bit / LIMB_BITS in
  limb ← expect (get (limbs u) index);
  Ok (mkU256 (<[Z.to_nat index := Z.lor limb (Z.shiftl 1 (bit mod LIMB_BITS))]> (limbs u))).

(** [for shift in (0..=n).rev()]: shift-and-subtract. *)
Fixpoint div_loop {E} (divisor : U256) (n : nat) (remainder quotient : U256)
    : outcome E (U256 * U256) :=
  shifted ← shl divisor (Z.of_nat n);
  '(remainder, quotient) ←
    (if le shifted remainder then
       remainder ← sub remainder shifted;
       quotient ← set_bit quotient (Z.of_nat n);
       Ok (remainder, quotient)
     else Ok (remainder, quotient));
  match n with
  | O => Ok (remainder, quotient)
  | S n => div_loop divisor n remainder quotient
  end.
Definition div {E} (dividend divisor : U256) : outcome E U256 :=
  assert_ (negb (is_zero divisor));;
  let dividend_bits := bits dividend in
  let divisor_bits := bits divisor in
  if divisor_bits >? dividend_bits then Ok ZERO
  else
    '(remainder, quotient) ←
      div_loop divisor (Z.to_nat (dividend_bits - divisor_bits)) dividend ZERO;
    assert_ (lt remainder divisor);;
    Ok quotient.

(** ** Abstraction: the number a value stands for *)

Notation B := (2 ^ 64).

Definition limbs_Z : list Z -> Z :=
  fix go ls := match ls with [] => 0 | x :: ls => x * B ^ Z.of_nat (length ls) + go ls end.
Definition to_Z (u : U256) : Z := limbs_Z (limbs u).
(** Four limbs, each a [u64]. *)
Definition wf (u : U256) : Prop :=
  length (limbs u) = 4%nat /\ Forall (fun x => 0 <= x < B) (limbs u).
(** The limbs of a number: the other direction of the abstraction. *)
Definition of_Z (z : Z) : U256 :=
  mkU256 [z / B ^ 3 mod B; z / B ^ 2 mod B; z / B mod B; z mod B].

Lemma wf_inv u : wf u -> exists a b c d, u = mkU256 [a; b; c; d] /\
  0 <= a < B /\ 0 <= b < B /\ 0 <= c < B /\ 0 <= d < B.
Proof.
  destruct u as [l]. intros [Hl Hf]; simpl in *.
  destruct l as [|a [|b [|c [|d [|]]]]]; try discriminate Hl.
  rewrite !Forall_cons in Hf. destruct Hf as (?&?&?&?&_). by exists a, b, c, d.
Qed.

Lemma wf_intro a b c d :
  0 <= a < B -> 0 <= b < B -> 0 <= c < B -> 0 <= d < B -> wf (mkU256 [a; b; c; d]).
Proof. intros. split; [done|]. simpl. repeat constructor; lia. Qed.

Lemma to_Z_4 a b c d : to_Z (mkU256 [a; b; c; d]) = a * B ^ 3 + b * B ^ 2 + c * B + d.
Proof. unfold to_Z; simpl. lia. Qed.

Ltac limbs_of u H :=
  let a := fresh "a" in let b := fresh "b" in let c := fresh "c" in let d := fresh "d" in
  destruct (wf_inv u H) as (a & b & c & d & -> & ? & ? & ? & ?).

Lemma to_Z_range u : wf u -> 0 <= to_Z u < 2 ^ 256.
Proof. intros H. limbs_of u H. rewrite to_Z_4. lia. Qed.

Lemma to_Z_inj u v : wf u -> wf v -> to_Z u = to_Z v -> u = v.
Proof.
  intros Hu Hv. limbs_of u Hu. limbs_of v Hv. rewrite !to_Z_4. intros Heq.
  assert (a = a0 /\ b = b0 /\ c = c0 /\ d = d0) as (->&->&->&->) by lia. done.
Qed.

Lemma of_Z_wf z : wf (of_Z z).
Proof. apply wf_intro; apply Z.mod_pos_bound; lia. Qed.

Lemma to_Z_of_Z z : 0 <= z < 2 ^ 256 -> to_Z (of_Z z) = z.
Proof.
  intros Hz. unfold of_Z. rewrite to_Z_4.
  replace (B ^ 3) with (B * (B * B)) by lia. replace (B ^ 2) with (B * B) by lia.
  rewrite <-!Zdiv.Zdiv_Zdiv by lia.
  pose proof (Z.div_mod z B ltac:(lia)) as E0.
  pose proof (Z.div_mod (z / B) B ltac:(lia)) as E1.
  pose proof (Z.div_mod (z / B / B) B ltac:(lia)) as E2.
  rewrite (Z.mod_small (z / B / B / B)); [lia|].
  split; [repeat apply Z.div_pos; lia|]. repeat apply Z.div_lt_upper_bound; lia.
Qed.

(** Ordering: the derived lexicographic order is the numeric one. *)
Lemma lt_spec u v : wf u -> wf v -> lt u v = (to_Z u <? to_Z v).
Proof.
  intros Hu Hv. limbs_of u Hu. limbs_of v Hv. rewrite !to_Z_4.
  unfold lt; simpl. lia.
Qed.

Lemma le_spec u v : wf u -> wf v -> le u v = (to_Z u <=? to_Z v).
Proof. intros Hu Hv. unfold le. rewrite lt_spec by done. lia. Qed.

Lemma wf_ZERO : wf ZERO.
Proof. apply wf_intro; lia. Qed.
Lemma wf_ONE : wf ONE.
Proof. apply wf_intro; lia. Qed.
Lemma wf_from_u64 x : 0 <= x < B -> wf (from_u64 x).
Proof. intros. apply wf_intro; lia. Qed.
Lemma to_Z_from_u64 x : to_Z (from_u64 x) = x.
Proof. unfold from_u64. rewrite to_Z_4. lia. Qed.

Lemma is_zero_spec u : wf u -> is_zero u = (to_Z u =? 0).
Proof.
  intros Hu. unfold is_zero. destruct (Z.eqb_spec (to_Z u) 0) as [Hz|Hz].
  - apply bool_decide_eq_true. apply to_Z_inj; [done|apply wf_ZERO|done].
  - apply bool_decide_eq_false. by intros ->.
Qed.

Lemma not_spec u : wf u -> wf (not u) /\ to_Z (not u) = 2 ^ 256 - 1 - to_Z u.
Proof.
  intros Hu. limbs_of u Hu. unfold not, u64_max; simpl. split.
  - apply wf_intro; lia.
  - rewrite !to_Z_4. lia.
Qed.

Lemma low_u64_spec u : wf u -> low_u64 u = to_Z u mod B.
Proof.
  intros Hu. limbs_of u Hu. rewrite to_Z_4. change (low_u64 _) with d.
  apply Z.mod_unique_pos with (a * B ^ 2 + b * B + c); lia.
Qed.

(** [bits] is Core's [bits()]: the length of the binary representation. *)
Lemma log2_shift x k lo :
  0 < x -> 0 <= k -> 0 <= lo < 2 ^ k -> Z.log2 (x * 2 ^ k + lo) = Z.log2 x + k.
Proof.
  intros Hx Hk Hlo. pose proof (Z.log2_nonneg x).
  apply Z.log2_unique; [lia|]. pose proof (Z.log2_spec x Hx) as [Hl Hh].
  rewrite <-Z.add_succ_l, !Z.pow_add_r by lia. nia.
Qed.

Lemma bits_spec u : wf u -> bits u = if to_Z u =? 0 then 0 else Z.log2 (to_Z u) + 1.
Proof.
  intros Hu. limbs_of u Hu. rewrite to_Z_4.
  unfold bits; cbn [limbs bits_loop].
  destruct (Z.eqb_spec a 0) as [->|]; cbn [negb].
  2: { rewrite (proj2 (Z.eqb_neq _ 0)) by lia.
       replace (a * B ^ 3 + b * B ^ 2 + c * B + d)
         with (a * 2 ^ 192 + (b * B ^ 2 + c * B + d)) by lia.
       rewrite log2_shift by lia. unfold leading_zeros, LIMBS, LIMB_BITS. case_match; lia. }
  destruct (Z.eqb_spec b 0) as [->|]; cbn [negb].
  2: { rewrite (proj2 (Z.eqb_neq _ 0)) by lia.
       replace (0 * B ^ 3 + b * B ^ 2 + c * B + d)
         with (b * 2 ^ 128 + (c * B + d)) by lia.
       rewrite log2_shift by lia. unfold leading_zeros, LIMBS, LIMB_BITS. case_match; lia. }
  destruct (Z.eqb_spec c 0) as [->|]; cbn [negb].
  2: { rewrite (proj2 (Z.eqb_neq _ 0)) by lia.
       replace (0 * B ^ 3 + 0 * B ^ 2 + c * B + d) with (c * 2 ^ 64 + d) by lia.
       rewrite log2_shift by lia. unfold leading_zeros, LIMBS, LIMB_BITS. case_match; lia. }
  replace (0 * B ^ 3 + 0 * B ^ 2 + 0 * B + d) with d by lia.
  destruct (Z.eqb_spec d 0); cbn [negb]; [done|]. unfold leading_zeros, LIMBS, LIMB_BITS. case_match; lia.
Qed.

(** ** The limb loops *)

Notation limb_ok := (Forall (fun x => 0 <= x < B)).
Notation Bp l := (B ^ Z.of_nat (length l)).

Lemma Bp_cons {A} (x : A) l : Bp (x :: l) = B * Bp l.
Proof. cbn [length]. rewrite Nat2Z.inj_succ, Z.pow_succ_r by lia. done. Qed.
Lemma Bp_pos {A} (l : list A) : 0 < Bp l.
Proof. apply Z.pow_pos_nonneg; lia. Qed.
Lemma limbs_Z_cons x l : limbs_Z (x :: l) = x * Bp l + limbs_Z l.
Proof. done. Qed.

Lemma limbs_Z_range l : limb_ok l -> 0 <= limbs_Z l < Bp l.
Proof.
  induction 1 as [|x l Hx Hl IH]; [cbn; lia|].
  rewrite limbs_Z_cons, Bp_cons. pose proof (Bp_pos l). nia.
Qed.

Lemma add_loop_spec a b ls carry :
  length a = length b -> limb_ok a -> limb_ok b -> add_loop a b = (ls, carry) ->
  length ls = length a /\ limb_ok ls /\
  limbs_Z ls + Z.b2z carry * Bp a = limbs_Z a + limbs_Z b.
Proof.
  revert b ls carry; induction a as [|x a IH]; intros [|y b] ls carry Hlen Ha Hb Heq;
    try discriminate Hlen; [simpl in Heq; simplify_eq; by cbn|].
  inversion Ha as [|?? Hx Ha']; subst. inversion Hb as [|?? Hy Hb']; subst.
  cbn [add_loop] in Heq. destruct (add_loop a b) as [ls' c] eqn:Hrec.
  injection Hlen as Hlen. destruct (IH _ _ _ Hlen Ha' Hb' Hrec) as (Hl & Hok & Hsum).
  unfold overflowing_add in Heq. injection Heq as <- <-. split_and!.
  - cbn. by rewrite Hl.
  - constructor; [apply Z.mod_pos_bound; lia|done].
  - rewrite !limbs_Z_cons, Bp_cons, <-Hlen, Hl.
    assert (((x + y) mod B + Z.b2z c) mod B +
      Z.b2z ((B <=? x + y) || (B <=? (x + y) mod B + Z.b2z c)) * B = x + y + Z.b2z c)
      by (destruct c; case_bools; cbn [orb Z.b2z] in *; dlia).
    pose proof (Bp_pos a). nia.
Qed.

Lemma checked_add_spec a b : wf a -> wf b ->
  match checked_add a b with
  | Some r => wf r /\ to_Z r = to_Z a + to_Z b
  | None => 2 ^ 256 <= to_Z a + to_Z b
  end.
Proof.
  intros [La Ha] [Lb Hb]. unfold checked_add.
  destruct (add_loop (limbs a) (limbs b)) as [ls carry] eqn:Heq.
  apply add_loop_spec in Heq as (Hl & Hok & Hs); [|congruence|done..].
  pose proof (limbs_Z_range ls Hok) as Hr.
  unfold to_Z, wf. rewrite Hl, La in *.
  destruct carry; cbn [Z.b2z] in Hs; [|split; [split|]; simpl]; first [done|lia].
Qed.

Lemma sub_loop_spec a b ls borrow :
  length a = length b -> limb_ok a -> limb_ok b -> sub_loop a b = (ls, borrow) ->
  length ls = length a /\ limb_ok ls /\
  limbs_Z ls - Z.b2z borrow * Bp a = limbs_Z a - limbs_Z b.
Proof.
  revert b ls borrow; induction a as [|x a IH]; intros [|y b] ls borrow Hlen Ha Hb Heq;
    try discriminate Hlen; [simpl in Heq; simplify_eq; by cbn|].
  inversion Ha as [|?? Hx Ha']; subst. inversion Hb as [|?? Hy Hb']; subst.
  cbn [sub_loop] in Heq. destruct (sub_loop a b) as [ls' c] eqn:Hrec.
  injection Hlen as Hlen. destruct (IH _ _ _ Hlen Ha' Hb' Hrec) as (Hl & Hok & Hsum).
  unfold overflowing_sub in Heq. injection Heq as <- <-. split_and!.
  - cbn. by rewrite Hl.
  - constructor; [apply Z.mod_pos_bound; lia|done].
  - rewrite !limbs_Z_cons, Bp_cons, <-Hlen, Hl.
    assert (((x - y) mod B - Z.b2z c) mod B -
      Z.b2z ((x <? y) || ((x - y) mod B <? Z.b2z c)) * B = x - y - Z.b2z c)
      by (destruct c; case_bools; cbn [orb Z.b2z] in *; dlia).
    pose proof (Bp_pos a). nia.
Qed.

Lemma sub_spec {E} a b : wf a -> wf b -> to_Z b <= to_Z a ->
  exists r, sub (E:=E) a b = Ok r /\ wf r /\ to_Z r = to_Z a - to_Z b.
Proof.
  intros Wa Wb Hle. pose proof Wa as [La Ha]. pose proof Wb as [Lb Hb].
  unfold sub. rewrite le_spec by done. rewrite (proj2 (Z.leb_le _ _) Hle). simpl.
  destruct (sub_loop (limbs a) (limbs b)) as [ls borrow] eqn:Heq.
  apply sub_loop_spec in Heq as (Hl & Hok & Hs); [|congruence|done..].
  pose proof (limbs_Z_range ls Hok) as Hr. unfold to_Z in *. rewrite Hl, La in *.
  destruct borrow; cbn [Z.b2z] in Hs; [lia|].
  exists (mkU256 ls). simpl. split_and!; [done| |lia]. split; simpl; congruence.
Qed.

Lemma mul_loop_spec factor a ls carry :
  0 <= factor < B -> limb_ok a -> mul_loop factor a = (ls, carry) ->
  length ls = length a /\ limb_ok ls /\ 0 <= carry < B /\
  limbs_Z ls + carry * Bp a = limbs_Z a * factor.
Proof.
  intros Hf; revert ls carry; induction a as [|x a IH]; intros ls carry Ha Heq;
    [simpl in Heq; simplify_eq; by cbn|].
  inversion Ha as [|?? Hx Ha']; subst. cbn [mul_loop] in Heq.
  destruct (mul_loop factor a) as [ls' c] eqn:Hrec.
  destruct (IH _ _ Ha' eq_refl) as (Hl & Hok & Hc & Hs).
  unfold u64_max, LIMB_BITS in Heq.
  change (2 ^ 64 - 1) with (Z.ones 64) in Heq.
  rewrite Z.land_ones, Z.shiftr_div_pow2 in Heq by lia. injection Heq as <- <-.
  assert (Hp : 0 <= x * factor + c < B * B) by nia. split_and!.
  - cbn. by rewrite Hl.
  - constructor; [apply Z.mod_pos_bound; lia|done].
  - apply Z.div_pos; lia.
  - apply Z.div_lt_upper_bound; lia.
  - rewrite !limbs_Z_cons, Bp_cons, Hl.
    pose proof (Z.div_mod (x * factor + c) B ltac:(lia)). pose proof (Bp_pos a). nia.
Qed.

(** The product the code forms in a [u128] always fits one. *)
Lemma mul_product_fits x factor carry :
  0 <= x < B -> 0 <= factor < B -> 0 <= carry < B -> x * factor + carry < 2 ^ 128.
Proof. nia. Qed.

Lemma checked_mul_u64_spec u factor : wf u -> 0 <= factor < B ->
  match checked_mul_u64 u factor with
  | Some r => wf r /\ to_Z r = to_Z u * factor
  | None => 2 ^ 256 <= to_Z u * factor
  end.
Proof.
  intros [Lu Hu] Hf. unfold checked_mul_u64.
  destruct (mul_loop factor (limbs u)) as [ls carry] eqn:Heq.
  apply mul_loop_spec in Heq as (Hl & Hok & Hc & Hs); [|done..].
  pose proof (limbs_Z_range ls Hok) as Hr. unfold to_Z, wf. rewrite Hl, Lu in *.
  destruct (Z.eqb_spec carry 0); simpl; [split; [split|]|]; first [done|lia].
Qed.

Lemma div_u64_loop_spec {E} divisor r a :
  0 < divisor < B -> 0 <= r < divisor -> limb_ok a ->
  exists ls, div_u64_loop (E:=E) divisor r a = Ok ls /\ length ls = length a /\ limb_ok ls /\
    limbs_Z ls = (r * Bp a + limbs_Z a) / divisor.
Proof.
  intros Hd; revert r; induction a as [|x a IH]; intros r Hr Ha.
  { exists []. cbn. split_and!; try done. rewrite Z.div_small; lia. }
  inversion Ha as [|?? Hx Ha']; subst. cbn [div_u64_loop]. unfold LIMB_BITS.
  rewrite Z.shiftl_mul_pow2, (lor_disjoint_add _ _ 64) by (try apply Z_mod_mult; lia).
  set (cur := r * B + x).
  pose proof (Z.div_mod cur divisor ltac:(lia)) as Hdm.
  pose proof (Z.mod_pos_bound cur divisor ltac:(lia)) as Hm.
  assert (Hq : 0 <= cur / divisor < B)
    by (split; [apply Z.div_pos|apply Z.div_lt_upper_bound]; unfold cur; nia).
  unfold try_from, u64_max. rewrite (proj2 (Z.leb_le 0 _)) by lia.
  rewrite (proj2 (Z.leb_le _ (2 ^ 64 - 1))) by lia. cbn [andb expect mbind outcome_bind].
  destruct (IH (cur mod divisor) Hm Ha') as (ls & -> & Hl & Hok & Hs).
  exists (cur / divisor :: ls). split_and!; [done|cbn; by rewrite Hl|by constructor|].
  rewrite !limbs_Z_cons, Bp_cons, Hl, Hs. symmetry.
  pose proof (Z.div_mod (cur mod divisor * Bp a + limbs_Z a) divisor ltac:(lia)).
  pose proof (Z.mod_pos_bound (cur mod divisor * Bp a + limbs_Z a) divisor ltac:(lia)).
  symmetry. apply Z.div_unique_pos
    with ((cur mod divisor * Bp a + limbs_Z a) mod divisor); [lia|].
  replace (r * (B * Bp a) + (x * Bp a + limbs_Z a)) with (cur * Bp a + limbs_Z a)
    by (unfold cur; ring). nia.
Qed.

Lemma div_u64_spec {E} u divisor : wf u -> 0 < divisor < B ->
  exists r, div_u64 (E:=E) u divisor = Ok r /\ wf r /\ to_Z r = to_Z u / divisor.
Proof.
  intros [Lu Hu] Hd. unfold div_u64. rewrite (proj2 (Z.ltb_lt 0 _)) by lia. simpl.
  destruct (div_u64_loop_spec (E:=E) divisor 0 (limbs u) Hd ltac:(lia) Hu)
    as (ls & -> & Hl & Hok & Hs).
  exists (mkU256 ls). split_and!; [done|split; simpl; congruence|exact Hs].
Qed.

(** ** Shifts *)

(** One limb of a shift by [k] bits, as the quotients by [2 ^ (64 - k)] and [2 ^ k]. *)
Lemma shl_limb h l k : 0 < k < 64 -> 0 <= h < B -> 0 <= l < B ->
  Z.lor (shl64 h k) (shr64 l (64 - k)) = h * 2 ^ k - B * (h / 2 ^ (64 - k)) + l / 2 ^ (64 - k)
  /\ 0 <= h * 2 ^ k - B * (h / 2 ^ (64 - k)) + l / 2 ^ (64 - k) < B.
Proof.
  intros Hk Hh Hl. unfold shl64, shr64. rewrite Z.shiftl_mul_pow2, Z.shiftr_div_pow2 by lia.
  assert (HB : B = 2 ^ k * 2 ^ (64 - k)) by (rewrite <-Z.pow_add_r by lia; f_equal; lia).
  set (p := 2 ^ k) in *. set (q := 2 ^ (64 - k)) in *.
  assert (0 < p) by (apply Z.pow_pos_nonneg; lia).
  assert (0 < q) by (apply Z.pow_pos_nonneg; lia).
  assert (Hm : (h * p) mod B = (h mod q) * p)
    by (rewrite HB, (Z.mul_comm p q), Z.mul_mod_distr_r by lia; done).
  assert (Hlq : 0 <= l / q < p) by (split; [apply Z.div_pos|apply Z.div_lt_upper_bound]; lia).
  pose proof (Z.div_mod h q ltac:(lia)) as Hdm.
  pose proof (Z.mod_pos_bound h q ltac:(lia)) as Hmb.
  assert (Hsum : (h mod q) * p = h * p - B * (h / q)) by nia.
  rewrite (lor_disjoint_add _ _ k);
    [|lia|rewrite Hm; apply Z_mod_mult|exact Hlq].
  rewrite Hm, Hsum. split; [done|]. rewrite <-Hsum. nia.
Qed.

Lemma shr_limb h l k : 0 < k < 64 -> 0 <= h < B -> 0 <= l < B ->
  Z.lor (shr64 l k) (shl64 h (64 - k)) = l / 2 ^ k + (h mod 2 ^ k) * 2 ^ (64 - k)
  /\ 0 <= l / 2 ^ k + (h mod 2 ^ k) * 2 ^ (64 - k) < B.
Proof.
  intros Hk Hh Hl. rewrite Z.lor_comm.
  pose proof (shl_limb h l (64 - k) ltac:(lia) Hh Hl) as [Hv Hr].
  replace (64 - (64 - k)) with k in Hv, Hr by lia. rewrite Hv.
  assert (HB : B = 2 ^ k * 2 ^ (64 - k)) by (rewrite <-Z.pow_add_r by lia; f_equal; lia).
  assert (E : h * 2 ^ (64 - k) - B * (h / 2 ^ k) + l / 2 ^ k =
    l / 2 ^ k + h mod 2 ^ k * 2 ^ (64 - k)).
  { rewrite HB, (Z.mod_eq h (2 ^ k)) by (apply Z.pow_nonzero; lia). ring. }
  rewrite <-E. done.
Qed.

(** The four limbs of a left shift by [k] bits, reassembled. *)
Lemma shl_bits a b c d k : 0 <= k < 64 ->
  0 <= a < B -> 0 <= b < B -> 0 <= c < B -> 0 <= d < B ->
  let limb h l := if k =? 0 then h else Z.lor (shl64 h k) (shr64 l (64 - k)) in
  let u := mkU256 [limb a b; limb b c; limb c d; limb d 0] in
  wf u /\ to_Z u = ((a * B ^ 3 + b * B ^ 2 + c * B + d) * 2 ^ k) mod 2 ^ 256.
Proof.
  intros Hk Ha Hb Hc Hd. destruct (Z.eqb_spec k 0) as [->|Hk0]; cbv zeta.
  { split; [by apply wf_intro|]. rewrite to_Z_4, Z.mul_1_r, Z.mod_small; lia. }
  destruct (shl_limb a b k) as [-> ?]; [lia..|]. destruct (shl_limb b c k) as [-> ?]; [lia..|].
  destruct (shl_limb c d k) as [-> ?]; [lia..|]. destruct (shl_limb d 0 k) as [-> ?]; [lia..|].
  split; [by apply wf_intro|]. rewrite to_Z_4.
  apply Z.mod_unique_pos with (a / 2 ^ (64 - k)); [lia|].
  rewrite Z.div_0_l by (apply Z.pow_nonzero; lia).
  change (2 ^ 256) with (B * B * B * B). ring.
Qed.

Lemma shl_spec {E} u s : wf u -> 0 <= s < 256 ->
  exists v, shl (E:=E) u s = Ok v /\ wf v /\ to_Z v = (to_Z u * 2 ^ s) mod 2 ^ 256.
Proof.
  intros Hu Hs. limbs_of u Hu. rewrite to_Z_4.
  unfold shl, BITS, LIMB_BITS. rewrite (proj2 (Z.ltb_lt s 256)) by lia. simpl mbind.
  pose proof (Z.mod_pos_bound s 64 ltac:(lia)) as Hk.
  assert (Hs' : s = 64 * (s / 64) + s mod 64) by (apply Z.div_mod; lia).
  assert (Hj : 0 <= s / 64 < 4) by dlia.
  set (k := s mod 64) in *. set (j := s / 64) in *.
  rewrite Hs', Z.pow_add_r by lia.
  eexists; split; [reflexivity|].
  assert (Hshift : forall a' b' c' d' m,
    0 <= a' < B -> 0 <= b' < B -> 0 <= c' < B -> 0 <= d' < B ->
    (a * B ^ 3 + b * B ^ 2 + c * B + d) * 2 ^ (64 * j) =
      (a' * B ^ 3 + b' * B ^ 2 + c' * B + d') + m * 2 ^ 256 ->
    let limb h l := if k =? 0 then h else Z.lor (shl64 h k) (shr64 l (64 - k)) in
    let v := mkU256 [limb a' b'; limb b' c'; limb c' d'; limb d' 0] in
    wf v /\ to_Z v = ((a * B ^ 3 + b * B ^ 2 + c * B + d) * (2 ^ (64 * j) * 2 ^ k)) mod 2 ^ 256).
  { intros a' b' c' d' m ???? Heq. rewrite Z.mul_assoc, Heq, Z.mul_add_distr_r.
    replace (m * 2 ^ 256 * 2 ^ k) with (m * 2 ^ k * 2 ^ 256) by ring.
    rewrite Z_mod_plus_full. by apply shl_bits. }
  assert (Hcase : j = 0 \/ j = 1 \/ j = 2 \/ j = 3) by lia.
  destruct Hcase as [-> | [-> | [-> | ->]]].
  - apply (Hshift a b c d 0); lia.
  - apply (Hshift b c d 0 a); lia.
  - apply (Hshift c d 0 0 (a * B + b)); lia.
  - apply (Hshift d 0 0 0 (a * B ^ 2 + b * B + c)); lia.
Qed.

Lemma shr_bits x a b c d k : 0 <= k < 64 ->
  0 <= x < B -> 0 <= a < B -> 0 <= b < B -> 0 <= c < B -> 0 <= d < B ->
  let limb h l := if k =? 0 then l else Z.lor (shr64 l k) (shl64 h (64 - k)) in
  x = 0 ->
  let u := mkU256 [limb x a; limb a b; limb b c; limb c d] in
  wf u /\ to_Z u = (a * B ^ 3 + b * B ^ 2 + c * B + d) / 2 ^ k.
Proof.
  intros Hk Hx Ha Hb Hc Hd. destruct (Z.eqb_spec k 0) as [->|Hk0]; cbv zeta; intros ->.
  { split; [by apply wf_intro|]. rewrite to_Z_4, Z.div_1_r. done. }
  destruct (shr_limb 0 a k) as [-> ?]; [lia..|]. destruct (shr_limb a b k) as [-> ?]; [lia..|].
  destruct (shr_limb b c k) as [-> ?]; [lia..|]. destruct (shr_limb c d k) as [-> ?]; [lia..|].
  split; [by apply wf_intro|]. rewrite to_Z_4.
  assert (HB : B = 2 ^ k * 2 ^ (64 - k)) by (rewrite <-Z.pow_add_r by lia; f_equal; lia).
  assert (0 < 2 ^ k) by (apply Z.pow_pos_nonneg; lia).
  apply Z.div_unique_pos with (d mod 2 ^ k); [apply Z.mod_pos_bound; lia|].
  rewrite Z.mod_0_l by lia.
  rewrite (Z.div_mod a (2 ^ k)) at 1 by lia. rewrite (Z.div_mod b (2 ^ k)) at 1 by lia.
  rewrite (Z.div_mod c (2 ^ k)) at 1 by lia. rewrite (Z.div_mod d (2 ^ k)) at 1 by lia.
  set (p := 2 ^ k) in *. set (q := 2 ^ (64 - k)) in *. rewrite HB. ring.
Qed.

Lemma shr_spec {E} u s : wf u -> 0 <= s < 256 ->
  exists v, shr (E:=E) u s = Ok v /\ wf v /\ to_Z v = to_Z u / 2 ^ s.
Proof.
  intros Hu Hs. limbs_of u Hu. rewrite to_Z_4.
  unfold shr, BITS, LIMB_BITS. rewrite (proj2 (Z.ltb_lt s 256)) by lia. simpl mbind.
  pose proof (Z.mod_pos_bound s 64 ltac:(lia)) as Hk.
  assert (Hs' : s = 64 * (s / 64) + s mod 64) by (apply Z.div_mod; lia).
  assert (Hj : 0 <= s / 64 < 4) by dlia.
  set (k := s mod 64) in *. set (j := s / 64) in *.
  rewrite Hs', Z.pow_add_r, <-Z.div_div by (try apply Z.pow_nonzero; try apply Z.pow_pos_nonneg; lia).
  eexists; split; [reflexivity|].
  assert (Hshift : forall a' b' c' d' r,
    0 <= a' < B -> 0 <= b' < B -> 0 <= c' < B -> 0 <= d' < B ->
    0 <= r < 2 ^ (64 * j) ->
    a * B ^ 3 + b * B ^ 2 + c * B + d =
      2 ^ (64 * j) * (a' * B ^ 3 + b' * B ^ 2 + c' * B + d') + r ->
    let limb h l := if k =? 0 then l else Z.lor (shr64 l k) (shl64 h (64 - k)) in
    let v := mkU256 [limb 0 a'; limb a' b'; limb b' c'; limb c' d'] in
    wf v /\ to_Z v = (a * B ^ 3 + b * B ^ 2 + c * B + d) / 2 ^ (64 * j) / 2 ^ k).
  { intros a' b' c' d' r ???? Hr Heq.
    rewrite <-(Z.div_unique_pos _ _ _ r Hr Heq). by apply shr_bits. }
  assert (Hcase : j = 0 \/ j = 1 \/ j = 2 \/ j = 3) by lia.
  destruct Hcase as [-> | [-> | [-> | ->]]].
  - apply (Hshift a b c d 0); lia.
  - apply (Hshift 0 a b c d); lia.
  - apply (Hshift 0 0 a b (c * B + d)); lia.
  - apply (Hshift 0 0 0 a (b * B ^ 2 + c * B + d)); lia.
Qed.

(** ** Division *)

Lemma mod_pow2_factor x m n : 0 <= m <= n -> (x mod 2 ^ n) mod 2 ^ m = x mod 2 ^ m.
Proof.
  intros H. replace n with (m + (n - m)) by lia. rewrite Z.pow_add_r by lia.
  rewrite Z.rem_mul_r by (try apply Z.pow_nonzero; try apply Z.pow_pos_nonneg; lia).
  rewrite (Z.mul_comm (2 ^ m)), Z_mod_plus_full. apply Z.mod_mod. apply Z.pow_nonzero; lia.
Qed.

Lemma lor_bit x k : 0 <= k < 64 -> 0 <= x < B -> x mod 2 ^ (k + 1) = 0 ->
  Z.lor x (Z.shiftl 1 k) = x + 2 ^ k /\ x + 2 ^ k < B.
Proof.
  intros Hk Hx Hm. rewrite Z.shiftl_1_l.
  rewrite (lor_disjoint_add _ _ (k + 1)) by (try done; try split;
    try (apply Z.pow_nonneg; lia); try (apply Z.pow_lt_mono_r; lia); lia).
  split; [done|].
  assert (HB : B = 2 ^ (k + 1) * 2 ^ (63 - k)) by (rewrite <-Z.pow_add_r by lia; f_equal; lia).
  assert (2 ^ k < 2 ^ (k + 1)) by (apply Z.pow_lt_mono_r; lia).
  pose proof (Z.div_mod x (2 ^ (k + 1)) ltac:(apply Z.pow_nonzero; lia)) as Hdm.
  assert (0 < 2 ^ (k + 1)) by (apply Z.pow_pos_nonneg; lia).
  rewrite HB in *. set (M := 2 ^ (k + 1)) in *. set (N := 2 ^ (63 - k)) in *.
  assert (x / M < N) by (apply Z.div_lt_upper_bound; lia). nia.
Qed.

Lemma set_bit_spec {E} u n : wf u -> 0 <= n < 256 -> to_Z u mod 2 ^ (n + 1) = 0 ->
  exists v, set_bit (E:=E) u n = Ok v /\ wf v /\ to_Z v = to_Z u + 2 ^ n.
Proof.
  intros Hu Hn Hm. limbs_of u Hu. rewrite to_Z_4 in *.
  unfold set_bit, BITS, LIMB_BITS, LIMBS. rewrite (proj2 (Z.ltb_lt n 256)) by lia.
  pose proof (Z.mod_pos_bound n 64 ltac:(lia)) as Hk.
  assert (Hn' : n = 64 * (n / 64) + n mod 64) by (apply Z.div_mod; lia).
  assert (Hj : 0 <= n / 64 < 4) by dlia.
  set (k := n mod 64) in *. set (j := n / 64) in *.
  assert (Hlimb : forall lo x hi, 0 <= lo < 2 ^ (64 * j) -> 0 <= x < B ->
    a * B ^ 3 + b * B ^ 2 + c * B + d = lo + 2 ^ (64 * j) * (x + B * hi) ->
    x mod 2 ^ (k + 1) = 0).
  { intros lo x hi Hlo Hx Heq. rewrite Heq, Hn' in Hm.
    rewrite <-Z.add_assoc, (Z.pow_add_r 2 (64 * j)) in Hm by lia.
    rewrite Z.rem_mul_r in Hm by (try apply Z.pow_nonzero; try apply Z.pow_pos_nonneg; lia).
    rewrite (Z.mul_comm (2 ^ (64 * j)) (x + _)), Z_div_plus_full in Hm
      by (apply Z.pow_nonzero; lia).
    rewrite (Z.div_small lo), Z.add_0_l in Hm by lia.
    assert (Hz : (x + B * hi) mod 2 ^ (k + 1) = 0).
    { pose proof (Z.mod_pos_bound (lo + (x + B * hi) * 2 ^ (64 * j)) (2 ^ (64 * j))
        ltac:(apply Z.pow_pos_nonneg; lia)).
      pose proof (Z.mod_pos_bound (x + B * hi) (2 ^ (k + 1)) ltac:(apply Z.pow_pos_nonneg; lia)).
      assert (0 < 2 ^ (64 * j)) by (apply Z.pow_pos_nonneg; lia). nia. }
    rewrite <-(mod_pow2_factor _ (k + 1) 64), (Z.mul_comm B), Z_mod_plus_full in Hz by lia.
    rewrite (Z.mod_small x) in Hz by lia. exact Hz. }
  rewrite Hn', Z.pow_add_r by lia.
  assert (Hcase : j = 0 \/ j = 1 \/ j = 2 \/ j = 3) by lia.
  destruct Hcase as [-> | [-> | [-> | ->]]];
    match goal with
    | |- context [4 - 1 - ?x] => let v := eval vm_compute in (4 - 1 - x) in change (4 - 1 - x) with v
    end;
    cbn -[Z.lor Z.shiftl Z.pow Z.add Z.mul to_Z wf]; (eexists; split; [reflexivity|]).
  - destruct (lor_bit d k) as [-> ?]; [lia..|apply (Hlimb 0 d (a * B ^ 2 + b * B + c)); lia|].
    split; [apply wf_intro; lia|]. etransitivity; [apply to_Z_4|lia].
  - destruct (lor_bit c k) as [-> ?]; [lia..|apply (Hlimb d c (a * B + b)); lia|].
    split; [apply wf_intro; lia|]. etransitivity; [apply to_Z_4|lia].
  - destruct (lor_bit b k) as [-> ?]; [lia..|apply (Hlimb (c * B + d) b a); lia|].
    split; [apply wf_intro; lia|]. etransitivity; [apply to_Z_4|lia].
  - destruct (lor_bit a k) as [-> ?]; [lia..|apply (Hlimb (b * B ^ 2 + c * B + d) a 0); lia|].
    split; [apply wf_intro; lia|]. etransitivity; [apply to_Z_4|lia].
Qed.

Lemma shift_fits x n : 0 < x -> 0 <= n -> x * 2 ^ n < 2 ^ 256 -> n < 256.
Proof.
  intros Hx Hn Hlt. apply (Z.pow_lt_mono_r_iff 2); [lia..|].
  pose proof (Z.pow_pos_nonneg 2 n). nia.
Qed.

Lemma div_loop_spec {E} divisor n r q dividend :
  wf divisor -> wf r -> wf q -> 0 < to_Z divisor ->
  to_Z divisor * 2 ^ Z.of_nat n < 2 ^ 256 ->
  dividend = to_Z q * to_Z divisor + to_Z r ->
  to_Z q mod 2 ^ (Z.of_nat n + 1) = 0 ->
  to_Z r < to_Z divisor * 2 ^ (Z.of_nat n + 1) ->
  exists r' q', div_loop (E:=E) divisor n r q = Ok (r', q') /\ wf r' /\ wf q' /\
    dividend = to_Z q' * to_Z divisor + to_Z r' /\ to_Z r' < to_Z divisor.
Proof.
  intros Hd. revert r q; induction n as [|n IH]; intros r q Hr Hq Hpos Hfit Hinv Hmod Hrem.
  all: pose proof (shift_fits _ _ Hpos (Nat2Z.is_nonneg _) Hfit) as Hn.
  all: cbn -[Z.of_nat shl le set_bit sub to_Z wf].
  all: edestruct (shl_spec (E:=E) divisor) as (sh & -> & Hsh & Hshv); [done| |].
  1, 3: split; [lia|exact Hn].
  all: rewrite Z.mod_small in Hshv by (pose proof (to_Z_range _ Hd); nia).
  all: cbn -[Z.of_nat shl le set_bit sub div_loop to_Z wf].
  all: rewrite le_spec by done.
  all: rewrite Z.pow_add_r in Hrem by lia; rewrite Z.pow_1_r in Hrem.
  all: destruct (Z.leb_spec (to_Z sh) (to_Z r)) as [Hle|Hlt].
  1, 3: destruct (sub_spec (E:=E) r sh) as (r1 & -> & Hr1 & Hr1v); [done..|].
  1, 2: cbn -[Z.of_nat set_bit div_loop to_Z wf].
  1, 2: edestruct (set_bit_spec (E:=E) q) as (q1 & -> & Hq1 & Hq1v); [done| |exact Hmod|].
  1, 3: lia.
  all: cbn -[Z.of_nat div_loop to_Z wf].
  - exists r1, q1. split_and!; [done..| |]; lia.
  - apply IH; [done..| | | |].
    + rewrite Nat2Z.inj_succ, Z.pow_succ_r in Hfit by lia. nia.
    + nia.
    + rewrite Hq1v, <-(mod_pow2_factor _ (Z.of_nat n + 1) (Z.of_nat (S n) + 1)) by lia.
      rewrite Z.add_mod, Hmod, Z.add_0_l, Z.mod_mod by (apply Z.pow_nonzero; lia).
      rewrite mod_pow2_factor by lia.
      replace (Z.of_nat n + 1) with (Z.of_nat (S n)) by lia. apply Z_mod_same_full.
    + replace (Z.of_nat n + 1) with (Z.of_nat (S n)) by lia. lia.
  - exists r, q. split_and!; [done..|]. lia.
  - apply IH; [done..| |done| |].
    + rewrite Nat2Z.inj_succ, Z.pow_succ_r in Hfit by lia. nia.
    + rewrite <-(mod_pow2_factor _ (Z.of_nat n + 1) (Z.of_nat (S n) + 1)) by lia.
      rewrite Hmod. apply Z.mod_0_l. apply Z.pow_nonzero; lia.
    + replace (Z.of_nat n + 1) with (Z.of_nat (S n)) by lia. lia.
Qed.

Lemma bits_bounds u : wf u -> 0 < to_Z u ->
  1 <= bits u <= 256 /\ 2 ^ (bits u - 1) <= to_Z u < 2 ^ bits u.
Proof.
  intros Hu Hpos. rewrite bits_spec, (proj2 (Z.eqb_neq _ 0)) by (done || lia).
  pose proof (Z.log2_spec _ Hpos) as [Hl Hh]. pose proof (to_Z_range u Hu).
  pose proof (Z.log2_nonneg (to_Z u)).
  assert (Z.log2 (to_Z u) < 256) by (apply Z.log2_lt_pow2; lia).
  rewrite Z.add_simpl_r, Z.add_1_r. lia.
Qed.

(** The shift-and-subtract division is division. *)
Lemma div_spec {E} a b : wf a -> wf b -> 0 < to_Z b ->
  exists q, div (E:=E) a b = Ok q /\ wf q /\ to_Z q = to_Z a / to_Z b.
Proof.
  intros Ha Hb Hpos. unfold div. rewrite is_zero_spec by done.
  rewrite (proj2 (Z.eqb_neq (to_Z b) 0)) by lia. simpl mbind.
  destruct (bits_bounds b Hb Hpos) as [Hbb [Hbl Hbh]].
  pose proof (to_Z_range a Ha) as Hra.
  destruct (Z.gtb_spec (bits b) (bits a)) as [Hgt|Hle].
  - exists ZERO. split_and!; [done|apply wf_ZERO|]. symmetry. apply Z.div_small.
    split; [lia|]. rewrite bits_spec in Hgt by done.
    destruct (Z.eqb_spec (to_Z a) 0); [lia|].
    apply Z.lt_le_trans with (2 ^ (Z.log2 (to_Z a) + 1));
      [rewrite Z.add_1_r; apply Z.log2_spec; lia|].
    etransitivity; [|exact Hbl]. apply Z.pow_le_mono_r; lia.
  - assert (Hapos : 0 < to_Z a).
    { destruct (Z.eq_dec (to_Z a) 0) as [Hz|]; [|lia].
      rewrite (bits_spec a), Hz in Hle by done. simpl in Hle. lia. }
    destruct (bits_bounds a Ha Hapos) as [Hab [Hal Hah]].
    destruct (div_loop_spec (E:=E) b (Z.to_nat (bits a - bits b)) a ZERO (to_Z a))
      as (r & q & -> & Hr & Hq & Hinv & Hlt); try done; rewrite ?Z2Nat.id by lia.
    + apply wf_ZERO.
    + apply Z.lt_le_trans with (2 ^ bits b * 2 ^ (bits a - bits b)).
      * apply Z.mul_lt_mono_pos_r; [apply Z.pow_pos_nonneg|]; lia.
      * rewrite <-Z.pow_add_r by lia. apply Z.pow_le_mono_r; lia.
    + apply Z.lt_le_trans with (2 ^ (bits b - 1) * 2 ^ (bits a - bits b + 1)).
      * rewrite <-Z.pow_add_r by lia. replace (_ + _) with (bits a) by lia. done.
      * apply Z.mul_le_mono_nonneg_r; [apply Z.pow_nonneg|]; lia.
    + simpl mbind. rewrite lt_spec by done. rewrite (proj2 (Z.ltb_lt _ _) Hlt). simpl.
      exists q. split_and!; [done..|]. pose proof (to_Z_range r Hr).
      apply Z.div_unique_pos with (to_Z r); lia.
Qed.

(** ** Bytes *)

Lemma be_val_8_range b : length b = 8%nat -> 0 <= be_val b < B.
Proof. intros Hl. pose proof (be_val_range b) as H. rewrite Hl in H. exact H. Qed.

Lemma from_be_bytes_spec b : length b = 32%nat ->
  wf (from_be_bytes b) /\ to_Z (from_be_bytes b) = be_val b.
Proof.
  intros Hl. unfold from_be_bytes; cbn [chunks8 map].
  set (b0 := take 8 b). set (b1 := take 8 (drop 8 b)).
  set (b2 := take 8 (drop 8 (drop 8 b))). set (b3 := take 8 (drop 8 (drop 8 (drop 8 b)))).
  assert (length b0 = 8%nat /\ length b1 = 8%nat /\ length b2 = 8%nat /\ length b3 = 8%nat)
    as (L0 & L1 & L2 & L3)
    by (unfold b0, b1, b2, b3; rewrite !length_take, !length_drop; lia).
  assert (Hb : b = b0 ++ b1 ++ b2 ++ b3).
  { unfold b0, b1, b2, b3. rewrite !drop_drop.
    rewrite <-(take_drop 8 b) at 1. f_equal. rewrite <-(take_drop 8 (drop 8 b)) at 1. f_equal.
    rewrite drop_drop, <-(take_drop 8 (drop (8 + 8) b)) at 1. f_equal.
    rewrite drop_drop. symmetry. apply take_ge. rewrite length_drop. lia. }
  split.
  - apply wf_intro; by apply be_val_8_range.
  - rewrite to_Z_4. rewrite Hb. rewrite !be_val_app, !length_app, L1, L2, L3. lia.
Qed.

Lemma to_be_bytes_spec u : wf u ->
  length (to_be_bytes u) = 32%nat /\ be_val (to_be_bytes u) = to_Z u.
Proof.
  intros Hu. limbs_of u Hu. unfold to_be_bytes; cbn [limbs map concat].
  rewrite app_nil_r, !length_app, !length_be_bytes. split; [done|].
  rewrite !be_val_app, !length_app, !length_be_bytes, !be_val_bytes by (simpl; lia).
  rewrite to_Z_4. lia.
Qed.

Lemma to_from_be_bytes b : length b = 32%nat -> to_be_bytes (from_be_bytes b) = b.
Proof.
  intros Hl. destruct (from_be_bytes_spec b Hl) as [Hw Hv].
  destruct (to_be_bytes_spec _ Hw) as [Hl' Hv']. apply be_val_inj; congruence.
Qed.

Lemma from_to_be_bytes u : wf u -> from_be_bytes (to_be_bytes u) = u.
Proof.
  intros Hu. destruct (to_be_bytes_spec u Hu) as [Hl Hv].
  destruct (from_be_bytes_spec _ Hl) as [Hw Hv']. apply to_Z_inj; congruence.
Qed.

Lemma from_le_bytes_spec b : length b = 32%nat ->
  wf (from_le_bytes b) /\ to_Z (from_le_bytes b) = le_val b.
Proof.
  intros Hl. unfold from_le_bytes.
  destruct (from_be_bytes_spec (reverse b)) as [Hw Hv]; [by rewrite length_reverse|].
  split; [done|]. rewrite Hv. unfold be_val. by rewrite reverse_involutive.
Qed.

#[export] Hint Resolve wf_ZERO wf_ONE of_Z_wf : bitmigo.

End U256.
