(* ===== verification/Target.v ===== *)
(** * Target: the compact target encoding and block work ([consensus/src/header/target.rs]) *)
From S2P Require Import Prelude Uint.

(** [bitcoin::pow::Target] and [Work], seen through the two functions the crate
    uses of them: [from_be_bytes] and [to_be_bytes] are the constructor and the
    projection, and the derived order is the order of the numbers. *)
Record Target := mkTarget { target_be_bytes : bytes }.
Record Work := mkWork { work_be_bytes : bytes }.

#[global] Instance Target_eq_dec : EqDecision Target.
Proof. solve_decision. Defined.

Definition target_val (t : Target) : Z := be_val (target_be_bytes t).
Definition target_lt (a b : Target) : bool := target_val a <? target_val b.
Definition target_le (a b : Target) : bool := target_val a <=? target_val b.
Definition TARGET_ZERO : Target := mkTarget (replicate 32 x00).
Definition work_val (w : Work) : Z := be_val (work_be_bytes w).
Definition WORK_ZERO : Work := mkWork (replicate 32 x00).

Inductive TargetError :=
| Negative
| Overflow
| Zero
| AbovePowLimit.

Definition SIGN_BIT : Z := 0x00800000.
Definition MANTISSA_MASK : Z := 0x007fffff.

Record Compact := mkCompact {
  compact_size : Z;
  compact_word : Z;
  compact_negative : bool;
  compact_overflow : bool;
}.

Definition split (bits : Z) : Compact :=
  let size := Z.shiftr bits 24 in
  let word := Z.land bits MANTISSA_MASK in
  let word := if size <=? 3 then Z.shiftr word (8 * (3 - size)) else word in
  {| compact_size := size;
     compact_word := word;
     compact_negative := negb (word =? 0) && negb (Z.land bits SIGN_BIT =? 0);
     compact_overflow := negb (word =? 0) &&
       ((34 <? size) || ((0xff <? word) && (33 <? size)) || ((0xffff <? word) && (32 <? size))) |}.

Definition expand {E} (compact : Compact) : outcome E U256.U256 :=
  assert_ (negb (compact_overflow compact));;
  if compact_word compact =? 0 then Ok U256.ZERO
  else if compact_size compact <=? 3 then Ok (U256.from_u64 (compact_word compact))
  else
    let shift := 8 * (compact_size compact - 3) in
    assert_ (shift <=? 248);;
    U256.shl (U256.from_u64 (compact_word compact)) shift.

(** [u32::div_ceil(8)]. *)
Definition div_ceil8 (x : Z) : Z := (x + 7) / 8.

Definition compress {E} (value : U256.U256) : outcome E Z :=
  let size := div_ceil8 (U256.bits value) in
  compact ←
    (if size <=? 3 then Ok (U256.shl64 (U256.low_u64 value) (8 * (3 - size)))
     else shifted ← U256.shr value (8 * (size - 3)); Ok (U256.low_u64 shifted));
  assert_ (compact <=? 0x00ffffff);;
  (* A mantissa with the sign bit set is written one byte shorter and one size larger. *)
  let '(compact, size) :=
    if negb (Z.land compact SIGN_BIT =? 0) then (Z.shiftr compact 8, size + 1)
    else (compact, size) in
  assert_ (Z.land compact (u64_max - MANTISSA_MASK) =? 0);;
  assert_ (size <? 256);;
  compact ← expect (try_from u32_max compact);
  Ok (Z.lor compact (Z.shiftl size 24)).

Definition target_to_uint (target : Target) : U256.U256 :=
  U256.from_be_bytes (target_be_bytes target).
Definition uint_to_target (value : U256.U256) : Target := mkTarget (U256.to_be_bytes value).

Definition decode_target (bits : Z) (pow_limit : Target) : outcome TargetError Target :=
  let compact := split bits in
  if compact_negative compact then Err Negative
  else if compact_overflow compact then Err Overflow
  else
    value ← expand compact;
    if U256.is_zero value then Err Zero
    else if U256.lt (target_to_uint pow_limit) value then Err AbovePowLimit
    else
      let target := uint_to_target value in
      assert_ (target_lt TARGET_ZERO target);;
      assert_ (target_le target pow_limit);;
      Ok target.

Definition encode_target {E} (target : Target) : outcome E Z :=
  encoded ← compress (target_to_uint target);
  assert_ (compact_word (split encoded) <=? MANTISSA_MASK);;
  Ok encoded.

Definition block_work {E} (bits : Z) : outcome E Work :=
  let compact := split bits in
  if compact_negative compact || compact_overflow compact then Ok WORK_ZERO
  else
    target ← expand compact;
    if U256.is_zero target then Ok WORK_ZERO
    else
      plus_one ← expect (U256.checked_add target U256.ONE);
      quotient ← U256.div (U256.not target) plus_one;
      work ← expect (U256.checked_add quotient U256.ONE);
      assert_ (negb (U256.is_zero work));;
      Ok (mkWork (U256.to_be_bytes work)).

Definition hash_meets_target (hash : bytes) (target : Target) : bool :=
  U256.le (U256.from_le_bytes hash) (target_to_uint target).

(** ** What an [nBits] names

    The number behind a compact target, without a width: the mantissa times a
    power of 256, truncated when the size is below three bytes. *)
Definition mantissa (bits : Z) : Z := bits mod 2 ^ 23.
Definition exponent (bits : Z) : Z := bits / 2 ^ 24.
Definition compact_value (bits : Z) : Z :=
  if exponent bits <=? 3 then mantissa bits / 256 ^ (3 - exponent bits)
  else mantissa bits * 256 ^ (exponent bits - 3).
(** The sign bit, significant only over a mantissa that is not shifted out. *)
Definition compact_sign (bits : Z) : bool :=
  negb (compact_value bits =? 0) && Z.testbit bits 23.

Notation is_u32 x := (0 <= x < 2 ^ 32).

Lemma pow256 n : 0 <= n -> 256 ^ n = 2 ^ (8 * n).
Proof. intros. rewrite Z.pow_mul_r by lia. done. Qed.

Lemma exponent_range b : is_u32 b -> 0 <= exponent b < 256.
Proof. intros. unfold exponent. dlia. Qed.
Lemma mantissa_range b : 0 <= mantissa b < 2 ^ 23.
Proof. unfold mantissa. dlia. Qed.

Lemma compact_value_nonneg b : is_u32 b -> 0 <= compact_value b.
Proof.
  intros Hb. pose proof (mantissa_range b). pose proof (exponent_range b Hb).
  unfold compact_value. case_bools.
  - apply Z.div_pos; [lia|apply Z.pow_pos_nonneg; lia].
  - apply Z.mul_nonneg_nonneg; [lia|apply Z.pow_nonneg; lia].
Qed.

Lemma split_spec b : is_u32 b ->
  compact_size (split b) = exponent b /\
  compact_word (split b) =
    (if exponent b <=? 3 then mantissa b / 256 ^ (3 - exponent b) else mantissa b).
Proof.
  intros Hb. pose proof (exponent_range b Hb). unfold split; cbn [compact_size compact_word compact_negative].
  unfold MANTISSA_MASK. change 0x7fffff with (Z.ones 23).
  rewrite Z.land_ones, Z.shiftr_div_pow2 by lia.
  fold (exponent b). fold (mantissa b). split; [done|]. case_bools; [|done].
  rewrite Z.shiftr_div_pow2, pow256 by lia. done.
Qed.

Lemma compact_word_zero b : is_u32 b ->
  (compact_word (split b) =? 0) = (compact_value b =? 0).
Proof.
  intros Hb. destruct (split_spec b Hb) as [_ ->]. unfold compact_value.
  pose proof (mantissa_range b). pose proof (exponent_range b Hb).
  destruct (Z.leb_spec (exponent b) 3); [done|].
  pose proof (Z.pow_pos_nonneg 256 (exponent b - 3)). case_bools; nia.
Qed.

Lemma split_negative b : is_u32 b -> compact_negative (split b) = compact_sign b.
Proof.
  intros Hb. unfold compact_sign. rewrite <-compact_word_zero by done.
  unfold split; cbn [compact_size compact_word compact_negative]. f_equal. unfold SIGN_BIT. change 0x800000 with (2 ^ 23).
  rewrite land_pow2_testbit by lia. apply negb_involutive.
Qed.

Lemma split_overflow b : is_u32 b ->
  compact_overflow (split b) = (2 ^ 256 <=? compact_value b).
Proof.
  intros Hb. destruct (split_spec b Hb) as [Hs Hw].
  pose proof (mantissa_range b) as Hm. pose proof (exponent_range b Hb) as He.
  change (compact_overflow (split b)) with (negb (compact_word (split b) =? 0) &&
    ((34 <? compact_size (split b)) ||
     ((0xff <? compact_word (split b)) && (33 <? compact_size (split b))) ||
     ((0xffff <? compact_word (split b)) && (32 <? compact_size (split b))))).
  rewrite Hs, Hw. unfold compact_value.
  destruct (Z.leb_spec (exponent b) 3) as [Hle|Hgt].
  - assert (0 <= mantissa b / 256 ^ (3 - exponent b) <= mantissa b).
    { pose proof (Z.pow_pos_nonneg 256 (3 - exponent b)). split; [apply Z.div_pos; lia|].
      apply Z.div_le_upper_bound; nia. }
    case_bools; simpl; lia.
  - destruct (Z.ltb_spec 34 (exponent b)).
    + assert (2 ^ 256 <= 256 ^ (exponent b - 3))
        by (rewrite pow256 by lia; apply Z.pow_le_mono_r; lia).
      case_bools; simpl; nia.
    + destruct (Z.ltb_spec 32 (exponent b)).
      * assert (exponent b = 33 \/ exponent b = 34) as [-> | ->] by lia; simpl Z.sub;
          case_bools; simpl; lia.
      * assert (256 ^ (exponent b - 3) <= 2 ^ 232)
          by (rewrite pow256 by lia; apply Z.pow_le_mono_r; lia).
        case_bools; simpl; nia.
Qed.

Lemma expand_spec {E} b : is_u32 b -> compact_value b < 2 ^ 256 ->
  exists v, expand (E:=E) (split b) = Ok v /\ U256.wf v /\ U256.to_Z v = compact_value b.
Proof.
  intros Hb Hfit. pose proof (mantissa_range b) as Hm. pose proof (exponent_range b Hb) as He.
  unfold expand. rewrite split_overflow, (proj2 (Z.leb_gt _ _) Hfit), compact_word_zero by done. run.
  destruct (Z.eqb_spec (compact_value b) 0) as [H0|H0].
  { exists U256.ZERO. rewrite H0. auto using U256.wf_ZERO. }
  destruct (split_spec b Hb) as [-> ->].
  unfold compact_value in *. destruct (Z.leb_spec (exponent b) 3).
  - exists (U256.from_u64 (mantissa b / 256 ^ (3 - exponent b))).
    split_and!; [done| |apply U256.to_Z_from_u64]. apply U256.wf_from_u64.
    pose proof (Z.pow_pos_nonneg 256 (3 - exponent b)). split; [apply Z.div_pos; lia|].
    apply Z.div_lt_upper_bound; nia.
  - assert (mantissa b <> 0) by (intros Hz; rewrite Hz in H0; lia).
    assert (8 * (exponent b - 3) < 256).
    { apply (Z.pow_lt_mono_r_iff 2); [lia..|]. rewrite <-pow256 by lia.
      pose proof (Z.pow_pos_nonneg 256 (exponent b - 3)). nia. }
    rewrite (proj2 (Z.leb_le _ 248)) by lia. run.
    destruct (U256.shl_spec (E:=E) (U256.from_u64 (mantissa b)) (8 * (exponent b - 3)))
      as (v & -> & Hv & Hval); [apply U256.wf_from_u64; lia|lia|].
    exists v. split_and!; [done..|]. rewrite Hval, U256.to_Z_from_u64, <-pow256 by lia.
    apply Z.mod_small. pose proof (Z.pow_pos_nonneg 256 (exponent b - 3)). nia.
Qed.

(** ** Encoding *)

Lemma exponent_pack m s : 0 <= m < 2 ^ 24 -> exponent (m + s * 2 ^ 24) = s.
Proof. intros. unfold exponent. dlia. Qed.
Lemma mantissa_pack m s : 0 <= m < 2 ^ 23 -> mantissa (m + s * 2 ^ 24) = m.
Proof.
  intros. unfold mantissa. replace (s * 2 ^ 24) with (2 * s * 2 ^ 23) by ring.
  rewrite Z_mod_plus_full. by apply Z.mod_small.
Qed.
Lemma sign_pack m s : 0 <= m < 2 ^ 23 -> compact_sign (m + s * 2 ^ 24) = false.
Proof.
  intros Hm. unfold compact_sign. apply andb_false_iff. right.
  rewrite Z.testbit_odd, Z.shiftr_div_pow2 by lia.
  replace (m + s * 2 ^ 24) with (m + 2 * s * 2 ^ 23) by ring.
  rewrite Z.div_add, Z.div_small by lia. rewrite Z.add_0_l, Z.odd_mul. done.
Qed.

(** Bytes of a positive number, and its top three bytes: [GetCompact]'s size and word. *)
Definition byte_size (u : U256.U256) : Z := div_ceil8 (U256.bits u).
Definition top_bytes (x size : Z) : Z :=
  if size <=? 3 then x * 256 ^ (3 - size) else x / 256 ^ (size - 3).

Lemma byte_size_bounds u : U256.wf u -> 0 < U256.to_Z u ->
  1 <= byte_size u <= 32 /\ 256 ^ (byte_size u - 1) <= U256.to_Z u < 256 ^ byte_size u.
Proof.
  intros Hu Hpos. destruct (U256.bits_bounds u Hu Hpos) as [Hn [Hlo Hhi]].
  unfold byte_size. set (n := U256.bits u) in *. set (size := div_ceil8 n).
  assert (Hsize : 1 <= size <= 32 /\ 8 * (size - 1) <= n - 1 /\ n <= 8 * size)
    by (unfold size, div_ceil8; dlia).
  rewrite !pow256 by lia. split_and!; try lia.
  - etransitivity; [|exact Hlo]. apply Z.pow_le_mono_r; lia.
  - eapply Z.lt_le_trans; [exact Hhi|]. apply Z.pow_le_mono_r; lia.
Qed.

Lemma top_bytes_bounds x size : 1 <= size -> 256 ^ (size - 1) <= x < 256 ^ size ->
  2 ^ 16 <= top_bytes x size < 2 ^ 24.
Proof.
  intros Hs [Hxlo Hxhi]. unfold top_bytes. destruct (Z.leb_spec size 3).
  - assert (E1 : 256 ^ (size - 1) * 256 ^ (3 - size) = 2 ^ 16)
      by (rewrite <-Z.pow_add_r by lia; replace (_ + _) with 2 by lia; done).
    assert (E2 : 256 ^ size * 256 ^ (3 - size) = 2 ^ 24)
      by (rewrite <-Z.pow_add_r by lia; replace (_ + _) with 3 by lia; done).
    pose proof (Z.pow_pos_nonneg 256 (3 - size)). nia.
  - assert (E1 : 256 ^ (size - 1) = 256 ^ (size - 3) * 2 ^ 16)
      by (change (2 ^ 16) with (256 ^ 2); rewrite <-Z.pow_add_r by lia; f_equal; lia).
    assert (E2 : 256 ^ size = 256 ^ (size - 3) * 2 ^ 24)
      by (change (2 ^ 24) with (256 ^ 3); rewrite <-Z.pow_add_r by lia; f_equal; lia).
    pose proof (Z.pow_pos_nonneg 256 (size - 3)).
    split; [apply Z.div_le_lower_bound|apply Z.div_lt_upper_bound]; lia.
Qed.

Lemma compress_top {E} u : U256.wf u -> 0 < U256.to_Z u ->
  let size := byte_size u in
  (if size <=? 3 then Ok (U256.shl64 (U256.low_u64 u) (8 * (3 - size)))
   else shifted ← U256.shr u (8 * (size - 3)); Ok (U256.low_u64 shifted))
  = Ok (E:=E) (top_bytes (U256.to_Z u) size).
Proof.
  intros Hu Hpos size. destruct (byte_size_bounds u Hu Hpos) as [Hs Hx]. fold size in Hs, Hx.
  pose proof (top_bytes_bounds _ size ltac:(lia) Hx) as Hc. unfold top_bytes in *.
  destruct (Z.leb_spec size 3).
  - rewrite U256.low_u64_spec by done. unfold U256.shl64.
    assert (U256.to_Z u < 2 ^ 64) by (eapply Z.lt_trans; [apply Hx|];
      change (2 ^ 64) with (256 ^ 8); apply Z.pow_lt_mono_r; lia).
    rewrite (Z.mod_small (U256.to_Z u)), Z.shiftl_mul_pow2, <-pow256 by lia.
    rewrite Z.mod_small by lia. done.
  - destruct (U256.shr_spec (E:=E) u (8 * (size - 3))) as (v & -> & Hv & Hval); [done|lia|].
    run. rewrite U256.low_u64_spec, Hval, <-pow256 by (done || lia).
    rewrite Z.mod_small by lia. done.
Qed.

Lemma testbit_23 c : 0 <= c < 2 ^ 24 -> Z.testbit c 23 = (2 ^ 23 <=? c).
Proof.
  intros Hc. rewrite Z.testbit_odd, Z.shiftr_div_pow2 by lia.
  destruct (Z.leb_spec (2 ^ 23) c).
  - replace (c / 2 ^ 23) with 1 by dlia. done.
  - rewrite Z.div_small by lia. done.
Qed.

Lemma mantissa_mask m : 0 <= m < 2 ^ 23 -> Z.land m (u64_max - MANTISSA_MASK) = 0.
Proof.
  intros Hm. apply Z.bits_inj'. intros i Hi. rewrite Z.land_spec, Z.bits_0.
  destruct (Z.lt_ge_cases i 23).
  - replace (u64_max - MANTISSA_MASK) with ((2 ^ 41 - 1) * 2 ^ 23) by done.
    rewrite (Z.mul_pow2_bits_low _ 23 i) by lia. apply andb_false_r.
  - rewrite <-(Z.mod_small m (2 ^ 23)), Z.mod_pow2_bits_high by lia. done.
Qed.

(** [compress] after the top bytes are read: the sign bit is avoided by one byte less. *)
Lemma compress_eq {E} u : U256.wf u -> 0 < U256.to_Z u ->
  let c := top_bytes (U256.to_Z u) (byte_size u) in
  let m := if 2 ^ 23 <=? c then c / 256 else c in
  let s := if 2 ^ 23 <=? c then byte_size u + 1 else byte_size u in
  compress (E:=E) u = Ok (m + s * 2 ^ 24) /\ 0x8000 <= m < 2 ^ 23 /\ 1 <= s <= 33.
Proof.
  intros Hu Hpos c m s. destruct (byte_size_bounds u Hu Hpos) as [Hsz Hx].
  pose proof (top_bytes_bounds _ _ (proj1 Hsz) Hx) as Hc. fold c in Hc.
  assert (Hm : 0x8000 <= m < 2 ^ 23) by (unfold m; case_bools; dlia).
  assert (Hs : 1 <= s <= 33) by (unfold s; case_bools; lia).
  split; [|done]. unfold compress. fold (byte_size u).
  rewrite compress_top by done. fold c. run.
  rewrite (proj2 (Z.leb_le c _)) by lia. run.
  unfold SIGN_BIT. change 0x800000 with (2 ^ 23).
  rewrite land_pow2_testbit, testbit_23, negb_involutive by lia.
  assert (Hms : (if 2 ^ 23 <=? c then (Z.shiftr c 8, byte_size u + 1) else (c, byte_size u)) = (m, s)).
  { unfold m, s. case_bools; [|done]. rewrite Z.shiftr_div_pow2 by lia. done. }
  rewrite Hms, mantissa_mask by lia. cbn [Z.eqb]. run.
  rewrite (proj2 (Z.ltb_lt s 256)) by lia. run.
  unfold try_from, u32_max. rewrite (proj2 (Z.leb_le 0 m)), (proj2 (Z.leb_le m _)) by lia.
  run. f_equal. rewrite Z.lor_comm, Z.shiftl_mul_pow2 by lia.
  rewrite (lor_disjoint_add _ _ 24) by (try apply Z_mod_mult; lia). lia.
Qed.

(** Mantissa and size of the encoding of a positive number. *)
Lemma compress_shape {E} u : U256.wf u -> 0 < U256.to_Z u ->
  exists m s, compress (E:=E) u = Ok (m + s * 2 ^ 24) /\
    0x8000 <= m < 2 ^ 23 /\ 1 <= s <= 33 /\
    (s <= 3 -> m = U256.to_Z u * 256 ^ (3 - s)) /\
    (3 < s -> m = U256.to_Z u / 256 ^ (s - 3)).
Proof.
  intros Hu Hpos. destruct (compress_eq (E:=E) u Hu Hpos) as (Heq & Hm & Hs).
  destruct (byte_size_bounds u Hu Hpos) as [Hsz _].
  set (x := U256.to_Z u) in *. set (size := byte_size u) in *.
  set (c := top_bytes x size) in *.
  set (m := if 2 ^ 23 <=? c then c / 256 else c) in *.
  set (s := if 2 ^ 23 <=? c then size + 1 else size) in *.
  exists m, s. split_and!; [done|lia..| |].
  - intros Hs3. unfold m, s in *. destruct (Z.leb_spec (2 ^ 23) c); unfold c, top_bytes.
    + rewrite (proj2 (Z.leb_le size 3)) by lia.
      replace (3 - size) with (3 - (size + 1) + 1) by lia.
      rewrite Z.pow_add_r, Z.pow_1_r, Z.mul_assoc by lia. apply Z.div_mul. lia.
    + rewrite (proj2 (Z.leb_le size 3)) by lia. done.
  - intros Hs3. unfold m, s in *. destruct (Z.leb_spec (2 ^ 23) c); unfold c, top_bytes.
    + destruct (Z.leb_spec size 3).
      * replace size with 3 by lia. rewrite Z.sub_diag, Z.pow_0_r, Z.mul_1_r. done.
      * rewrite Z.div_div by (try apply Z.pow_nonzero; lia). f_equal.
        replace (size + 1 - 3) with (size - 3 + 1) by lia. rewrite Z.pow_add_r by lia. done.
    + rewrite (proj2 (Z.leb_gt size 3)) by lia. done.
Qed.

(** ** The three functions against their specification *)

Definition target_wf (t : Target) : Prop := length (target_be_bytes t) = 32%nat.

Lemma target_to_uint_spec t : target_wf t ->
  U256.wf (target_to_uint t) /\ U256.to_Z (target_to_uint t) = target_val t.
Proof. apply U256.from_be_bytes_spec. Qed.

Lemma target_val_range t : target_wf t -> 0 <= target_val t < 2 ^ 256.
Proof. intros H. pose proof (be_val_range (target_be_bytes t)) as Hr. by rewrite H in Hr. Qed.

Lemma uint_to_target_spec u : U256.wf u ->
  target_wf (uint_to_target u) /\ target_val (uint_to_target u) = U256.to_Z u /\
  uint_to_target u = mkTarget (be_bytes 32 (U256.to_Z u)).
Proof.
  intros Hu. destruct (U256.to_be_bytes_spec u Hu) as [Hl Hv]. split_and!; [done..|].
  unfold uint_to_target. f_equal. rewrite <-Hv, <-Hl. symmetry. apply be_bytes_val.
Qed.

Lemma mkTarget_val v : 0 <= v < 2 ^ 256 ->
  target_wf (mkTarget (be_bytes 32 v)) /\ target_val (mkTarget (be_bytes 32 v)) = v.
Proof. intros. split; [apply length_be_bytes|]. by apply be_val_bytes. Qed.

Lemma TARGET_ZERO_val : target_val TARGET_ZERO = 0.
Proof. done. Qed.

(** What [decode_target] computes, every branch of it; it never panics. *)
Definition decode_spec (bits : Z) (pow_limit : Target) : outcome TargetError Target :=
  let v := compact_value bits in
  if compact_sign bits then Err Negative
  else if 2 ^ 256 <=? v then Err Overflow
  else if v =? 0 then Err Zero
  else if target_val pow_limit <? v then Err AbovePowLimit
  else Ok (mkTarget (be_bytes 32 v)).

Lemma decode_target_eq bits pow_limit : is_u32 bits -> target_wf pow_limit ->
  decode_target bits pow_limit = decode_spec bits pow_limit.
Proof.
  intros Hb Hl. unfold decode_target, decode_spec.
  rewrite split_negative, split_overflow by done.
  destruct (compact_sign bits); [done|].
  destruct (Z.leb_spec (2 ^ 256) (compact_value bits)) as [|Hfit]; [done|].
  destruct (expand_spec (E:=TargetError) bits Hb Hfit) as (v & -> & Hv & Hval). run.
  rewrite U256.is_zero_spec, Hval by done.
  pose proof (compact_value_nonneg bits Hb).
  destruct (Z.eqb_spec (compact_value bits) 0); [done|].
  destruct (target_to_uint_spec _ Hl) as [Hlw Hlv].
  rewrite U256.lt_spec, Hval, Hlv by done.
  destruct (Z.ltb_spec (target_val pow_limit) (compact_value bits)); [done|].
  destruct (uint_to_target_spec v Hv) as (_ & Htv & ->).
  unfold target_lt, target_le. rewrite TARGET_ZERO_val, Hval.
  rewrite (proj2 (mkTarget_val (compact_value bits) ltac:(lia))).
  rewrite (proj2 (Z.ltb_lt 0 _)), (proj2 (Z.leb_le _ _)) by lia. done.
Qed.

Lemma decode_target_Ok bits pow_limit t : is_u32 bits -> target_wf pow_limit ->
  decode_target bits pow_limit = Ok t ->
  target_wf t /\ target_val t = compact_value bits /\ 0 < target_val t <= target_val pow_limit.
Proof.
  intros Hb Hl. rewrite decode_target_eq by done. unfold decode_spec.
  pose proof (compact_value_nonneg bits Hb). repeat case_match; intros; simplify_eq.
  destruct (mkTarget_val (compact_value bits)) as [Hw Hv]; [lia|]. rewrite Hv. split_and!; lia || done.
Qed.

Lemma compress_zero {E} u : U256.wf u -> U256.to_Z u = 0 -> compress (E:=E) u = Ok 0.
Proof. intros Hu Hz. rewrite (U256.to_Z_inj u U256.ZERO Hu U256.wf_ZERO Hz). done. Qed.

(** The encoding is a [u32] with the sign clear that rounds down to the closest
    number any [nBits] names. *)
Lemma compress_spec {E} u : U256.wf u ->
  exists c, compress (E:=E) u = Ok c /\ is_u32 c /\ compact_sign c = false /\
    compact_value c <= U256.to_Z u /\
    forall b, is_u32 b -> compact_value b <= U256.to_Z u -> compact_value b <= compact_value c.
Proof.
  intros Hu. pose proof (U256.to_Z_range u Hu) as Hr.
  destruct (Z.eq_dec (U256.to_Z u) 0) as [Hz|Hnz].
  { exists 0. rewrite compress_zero by done. split_and!; try done; try lia.
    - rewrite Hz. done.
    - intros b Hb. rewrite Hz. done. }
  destruct (compress_shape (E:=E) u Hu ltac:(lia)) as (m & s & -> & Hm & Hs & Hlo & Hhi).
  exists (m + s * 2 ^ 24). set (x := U256.to_Z u) in *.
  assert (Hval : compact_value (m + s * 2 ^ 24) =
    if s <=? 3 then x else x / 256 ^ (s - 3) * 256 ^ (s - 3)).
  { unfold compact_value. rewrite exponent_pack, mantissa_pack by lia.
    destruct (Z.leb_spec s 3); [|rewrite <-Hhi by lia; done].
    rewrite Hlo by lia. apply Z.div_mul. apply Z.pow_nonzero; lia. }
  rewrite Hval. split_and!; [done|lia|lia|apply sign_pack; lia| |].
  - destruct (Z.leb_spec s 3); [done|]. rewrite Z.mul_comm. apply Z.mul_div_le.
    apply Z.pow_pos_nonneg; lia.
  - intros b Hb Hbx. destruct (Z.leb_spec s 3) as [|Hs3]; [done|].
    rewrite <-Hhi by lia. pose proof (exponent_range b Hb) as He.
    pose proof (mantissa_range b) as Hmb. set (t := exponent b) in *.
    assert (HP : 0 < 256 ^ (s - 3)) by (apply Z.pow_pos_nonneg; lia).
    destruct (Z.lt_ge_cases t s) as [Hts|Hts].
    + assert (Hsmall : compact_value b <= mantissa b * 256 ^ (s - 4)).
      { assert (0 < 256 ^ (s - 4)) by (apply Z.pow_pos_nonneg; lia).
        unfold compact_value. fold t. destruct (Z.leb_spec t 3).
        - assert (0 < 256 ^ (3 - t)) by (apply Z.pow_pos_nonneg; lia).
          transitivity (mantissa b); [apply Z.div_le_upper_bound; nia|nia].
        - apply Z.mul_le_mono_nonneg_l; [lia|]. apply Z.pow_le_mono_r; lia. }
      assert (HS : 256 ^ (s - 3) = 256 * 256 ^ (s - 4))
        by (rewrite <-Z.pow_succ_r by lia; f_equal; lia). nia.
    + unfold compact_value in *. fold t in Hbx |- *.
      rewrite (proj2 (Z.leb_gt t 3)) in Hbx |- * by lia.
      assert (HT : 256 ^ (t - 3) = 256 ^ (t - s) * 256 ^ (s - 3))
        by (rewrite <-Z.pow_add_r by lia; f_equal; lia).
      rewrite HT, Z.mul_assoc in *. apply Z.mul_le_mono_nonneg_r; [lia|].
      rewrite Hhi by lia. apply Z.div_le_lower_bound; lia.
Qed.

(** The mantissa and the size of an encoding are determined by the number. *)
Lemma shape_unique x m s m' s' :
  0x8000 <= m < 2 ^ 23 -> 1 <= s ->
  (s <= 3 -> m = x * 256 ^ (3 - s)) -> (3 < s -> m = x / 256 ^ (s - 3)) ->
  0x8000 <= m' < 2 ^ 23 -> 1 <= s' ->
  (s' <= 3 -> m' = x * 256 ^ (3 - s')) -> (3 < s' -> m' = x / 256 ^ (s' - 3)) ->
  m = m' /\ s = s'.
Proof.
  intros Hm Hs Hlo Hhi Hm' Hs' Hlo' Hhi'.
  assert (Hscale : forall n k, 1 <= k ->
    (k <= 3 -> n = x * 256 ^ (3 - k)) -> (3 < k -> n = x / 256 ^ (k - 3)) ->
    n = x * 256 ^ 3 / 256 ^ k).
  { intros n k Hk H1 H2. destruct (Z.le_gt_cases k 3).
    - rewrite H1 by lia. replace 3 with (3 - k + k) at 2 by lia.
      rewrite Z.pow_add_r, Z.mul_assoc by lia. symmetry. apply Z.div_mul. apply Z.pow_nonzero; lia.
    - rewrite H2 by lia. replace k with (k - 3 + 3) at 2 by lia.
      rewrite (Z.pow_add_r 256 (k - 3)) by lia.
      rewrite Z.div_mul_cancel_r by (try apply Z.pow_nonzero; lia). done. }
  apply Hscale in Hlo as Em; [|lia|done]. apply Hscale in Hlo' as Em'; [|lia|done].
  clear Hscale Hlo Hhi Hlo' Hhi'.
  assert (Hstep : forall a b k l, 1 <= k -> k < l -> a = x * 256 ^ 3 / 256 ^ k ->
    b = x * 256 ^ 3 / 256 ^ l -> 0x8000 <= b -> 2 ^ 23 <= a).
  { intros a b k l Hk Hkl Ha Hb Hb8.
    replace l with (k + (l - k)) in Hb by lia.
    rewrite Z.pow_add_r, <-Z.div_div in Hb
      by (try apply Z.pow_nonzero; try apply Z.pow_pos_nonneg; lia).
    rewrite <-Ha in Hb.
    assert (256 <= 256 ^ (l - k))
      by (change 256 with (256 ^ 1) at 1; apply Z.pow_le_mono_r; lia).
    pose proof (Z.mul_div_le a (256 ^ (l - k)) ltac:(lia)). nia. }
  assert (s = s').
  { destruct (Z.lt_trichotomy s s') as [Hlt|[?|Hlt]]; [|done|].
    - pose proof (Hstep m m' s s' Hs Hlt Em Em'). lia.
    - pose proof (Hstep m' m s' s Hs' Hlt Em' Em). lia. }
  subst s'. split; congruence.
Qed.

(** Encoding is a projection: what it rounds to encodes to the same [nBits]. *)
Lemma compress_idempotent {E} u v c : U256.wf u -> U256.wf v ->
  compress (E:=E) u = Ok c -> U256.to_Z v = compact_value c -> compress (E:=E) v = Ok c.
Proof.
  intros Hu Hv Hc Hval. pose proof (U256.to_Z_range u Hu).
  destruct (Z.eq_dec (U256.to_Z u) 0) as [Hz|Hnz].
  { rewrite compress_zero in Hc by done. injection Hc as <-. by apply compress_zero. }
  destruct (compress_shape (E:=E) u Hu ltac:(lia)) as (m & s & Heq & Hm & Hs & Hlo & Hhi).
  rewrite Heq in Hc. injection Hc as <-.
  unfold compact_value in Hval. rewrite exponent_pack, mantissa_pack in Hval by lia.
  assert (Hlo2 : s <= 3 -> m = U256.to_Z v * 256 ^ (3 - s)).
  { intros. rewrite (proj2 (Z.leb_le s 3)) in Hval by lia. rewrite Hval, Hlo by lia.
    rewrite Z.div_mul by (apply Z.pow_nonzero; lia). done. }
  assert (Hhi2 : 3 < s -> m = U256.to_Z v / 256 ^ (s - 3)).
  { intros. rewrite (proj2 (Z.leb_gt s 3)) in Hval by lia. rewrite Hval.
    symmetry. apply Z.div_mul. apply Z.pow_nonzero; lia. }
  assert (Hpos : 0 < U256.to_Z v).
  { destruct (Z.le_gt_cases s 3).
    - specialize (Hlo2 ltac:(lia)). pose proof (Z.pow_pos_nonneg 256 (3 - s)). nia.
    - rewrite (proj2 (Z.leb_gt s 3)) in Hval by lia.
      pose proof (Z.pow_pos_nonneg 256 (s - 3)). nia. }
  destruct (compress_shape (E:=E) v Hv Hpos) as (m' & s' & -> & Hm' & Hs' & Hlo' & Hhi').
  destruct (shape_unique (U256.to_Z v) m s m' s') as [-> ->]; try done; lia.
Qed.

Lemma encode_target_spec {E} t : target_wf t ->
  exists c, encode_target (E:=E) t = Ok c /\ is_u32 c /\ compact_sign c = false /\
    compact_value c <= target_val t /\
    forall b, is_u32 b -> compact_value b <= target_val t -> compact_value b <= compact_value c.
Proof.
  intros Ht. destruct (target_to_uint_spec t Ht) as [Hw Hv]. unfold encode_target.
  destruct (compress_spec (E:=E) _ Hw) as (c & -> & Hc & Hrest). rewrite Hv in Hrest. run.
  assert (compact_word (split c) <= MANTISSA_MASK).
  { destruct (split_spec c Hc) as [_ ->]. pose proof (mantissa_range c).
    pose proof (exponent_range c Hc). unfold MANTISSA_MASK. case_bools; [|lia].
    pose proof (Z.pow_pos_nonneg 256 (3 - exponent c)).
    enough (mantissa c / 256 ^ (3 - exponent c) <= mantissa c) by lia.
    apply Z.div_le_upper_bound; nia. }
  rewrite (proj2 (Z.leb_le _ _)) by done. run. eauto.
Qed.

(** ** Work *)

(** No [nBits] names [2 ^ 256 - 1]: a target plus one never carries. *)
Lemma compact_value_lt_max b : is_u32 b -> compact_value b < 2 ^ 256 ->
  compact_value b < 2 ^ 256 - 1.
Proof.
  intros Hb Hfit. unfold compact_value in *.
  pose proof (mantissa_range b). pose proof (exponent_range b Hb).
  destruct (Z.leb_spec (exponent b) 3).
  - pose proof (Z.pow_pos_nonneg 256 (3 - exponent b)).
    apply Z.le_lt_trans with (mantissa b); [apply Z.div_le_upper_bound; nia|lia].
  - assert (Heven : 256 ^ (exponent b - 3) = 2 * (128 * 256 ^ (exponent b - 4))).
    { replace (exponent b - 3) with (Z.succ (exponent b - 4)) by lia.
      rewrite Z.pow_succ_r by lia. ring. }
    rewrite Heven in *. lia.
Qed.

Lemma block_work_eq {E} b : is_u32 b ->
  exists w, block_work (E:=E) b = Ok w /\ length (work_be_bytes w) = 32%nat /\
    work_val w = if compact_sign b || (2 ^ 256 <=? compact_value b) || (compact_value b =? 0)
                 then 0 else 2 ^ 256 / (compact_value b + 1).
Proof.
  intros Hb. unfold block_work. rewrite split_negative, split_overflow by done.
  destruct (compact_sign b || (2 ^ 256 <=? compact_value b)) eqn:Hbad;
    [by exists WORK_ZERO|].
  apply orb_false_iff in Hbad as [_ Hfit%Z.leb_gt].
  destruct (expand_spec (E:=E) b Hb Hfit) as (t & -> & Ht & Hval). run.
  rewrite U256.is_zero_spec, Hval by done. pose proof (compact_value_nonneg b Hb).
  destruct (Z.eqb_spec (compact_value b) 0); [by exists WORK_ZERO|].
  destruct (U256.not_spec t Ht) as [Hnw Hnv]. rewrite Hval in Hnv.
  set (v := compact_value b) in *.
  pose proof (compact_value_lt_max b Hb Hfit) as Hmax. fold v in Hmax.
  pose proof (U256.checked_add_spec t U256.ONE Ht U256.wf_ONE) as Hadd.
  change (U256.to_Z U256.ONE) with 1 in Hadd. rewrite Hval in Hadd.
  destruct (U256.checked_add t U256.ONE) as [p1|]; [|lia]. destruct Hadd as [Hp1 Hp1v]. run.
  destruct (U256.div_spec (E:=E) (U256.not t) p1) as (q & -> & Hq & Hqv); [done..|lia|]. run.
  rewrite Hnv, Hp1v in Hqv.
  assert (Hwork : (2 ^ 256 - 1 - v) / (v + 1) + 1 = 2 ^ 256 / (v + 1)).
  { replace (2 ^ 256) with (2 ^ 256 - 1 - v + 1 * (v + 1)) at 2 by ring.
    rewrite Z.div_add by lia. done. }
  assert (Hsmall : 0 <= (2 ^ 256 - 1 - v) / (v + 1) < 2 ^ 255)
    by (split; [apply Z.div_pos|apply Z.div_lt_upper_bound]; lia).
  pose proof (U256.checked_add_spec q U256.ONE Hq U256.wf_ONE) as Hadd.
  change (U256.to_Z U256.ONE) with 1 in Hadd. rewrite Hqv in Hadd.
  destruct (U256.checked_add q U256.ONE) as [w|]; [|lia]. destruct Hadd as [Hw Hwv]. run.
  rewrite U256.is_zero_spec, (proj2 (Z.eqb_neq _ 0)) by (done || lia). run.
  destruct (U256.to_be_bytes_spec w Hw) as [Hl Hv2].
  exists (mkWork (U256.to_be_bytes w)). split_and!; [done..|].
  unfold work_val; cbn [work_be_bytes]. rewrite Hv2, Hwv. done.
Qed.

Lemma hash_meets_target_eq hash t : length hash = 32%nat -> target_wf t ->
  hash_meets_target hash t = (le_val hash <=? target_val t).
Proof.
  intros Hh Ht. unfold hash_meets_target.
  destruct (U256.from_le_bytes_spec hash Hh) as [Hw Hv].
  destruct (target_to_uint_spec t Ht) as [Htw Htv].
  rewrite U256.le_spec, Hv, Htv by done. done.
Qed.

(** ** Properties *)

(** [decode_target] on every [nBits] and every limit: it never panics, refuses in the
    order negative, overflowing, zero, above the limit, and otherwise returns the target
    [mantissa * 256 ^ (exponent - 3)], in 32 big-endian bytes, at most the limit. *)
Theorem decode_target_functional bits pow_limit : is_u32 bits -> target_wf pow_limit ->
  decode_target bits pow_limit = decode_spec bits pow_limit /\
  forall t, decode_target bits pow_limit = Ok t ->
    target_val t = compact_value bits /\ 0 < target_val t <= target_val pow_limit.
Proof.
  intros Hb Hl. split; [by apply decode_target_eq|].
  intros t Ht. by destruct (decode_target_Ok bits pow_limit t Hb Hl Ht) as (_ & ? & ?).
Qed.

Lemma decode_target_functional_witness :
  decode_target 0x1d00ffff (mkTarget (be_bytes 32 (2 ^ 224 - 1)))
    = Ok (mkTarget (be_bytes 32 (0xffff * 2 ^ 208))).
Proof.
  destruct (decode_target_functional 0x1d00ffff (mkTarget (be_bytes 32 (2 ^ 224 - 1)))) as [-> _];
    [split; vm_compute; done|reflexivity|vm_compute; reflexivity].
Defined.

(** Encoding rounds a target down to the largest value any [nBits] names, never
    panics, and loses nothing on a decoded target: re-encoding the target of any accepted
    [nBits] gives an encoding that decodes to the same target. *)
Theorem encode_decode_roundtrip bits pow_limit t : is_u32 bits -> target_wf pow_limit ->
  decode_target bits pow_limit = Ok t ->
  exists c, encode_target (E:=TargetError) t = Ok c /\ is_u32 c /\
    decode_target c pow_limit = Ok t /\
    (forall u, target_wf u -> target_val t <= target_val u ->
      exists d, encode_target (E:=TargetError) u = Ok d /\
        target_val t <= compact_value d <= target_val u).
Proof.
  intros Hb Hl Ht. destruct (decode_target_Ok bits pow_limit t Hb Hl Ht) as (Hw & Hv & Hr).
  destruct (encode_target_spec (E:=TargetError) t Hw) as (c & Hc & Hcu & Hcs & Hle & Hmax).
  exists c. split; [done|]. split; [done|]. split.
  - rewrite decode_target_eq in * by done. unfold decode_spec in *.
    assert (compact_value c = compact_value bits) as Heq
      by (pose proof (Hmax bits Hb ltac:(lia)); lia).
    rewrite Hcs, Heq. by destruct (compact_sign bits).
  - intros u Hu Hle'. destruct (encode_target_spec (E:=TargetError) u Hu) as (d & Hd & _ & _ & ? & Hmd).
    exists d. pose proof (Hmd bits Hb ltac:(lia)). split; [done|lia].
Qed.

Lemma encode_decode_roundtrip_witness :
  exists c, encode_target (E:=TargetError) (mkTarget (be_bytes 32 (0x7fff00 * 2 ^ 232))) = Ok c /\
    is_u32 c /\ c = 0x207fff00.
Proof.
  destruct (encode_decode_roundtrip 0x21007fff (mkTarget (be_bytes 32 (2 ^ 255 - 1)))
    (mkTarget (be_bytes 32 (0x7fff00 * 2 ^ 232)))) as (c & Hc & Hu & _);
    [split; vm_compute; done|reflexivity|vm_compute; reflexivity|].
  exists c. split; [exact Hc|]. split; [exact Hu|]. vm_compute in Hc. congruence.
Defined.

(** [block_work] of every [nBits] is exactly the expected number of hashes
    [2^256 / (target + 1)], computed without a 257-bit integer and without a panic; it is
    zero exactly for the encodings that name no target. *)
Theorem block_work_exact bits : is_u32 bits ->
  exists w, block_work (E:=Empty_set) bits = Ok w /\
    work_val w = (if compact_sign bits || (2 ^ 256 <=? compact_value bits)
                     || (compact_value bits =? 0)
                  then 0 else 2 ^ 256 / (compact_value bits + 1)) /\
    (work_val w = 0 <-> compact_sign bits || (2 ^ 256 <=? compact_value bits)
                         || (compact_value bits =? 0) = true).
Proof.
  intros Hb. destruct (block_work_eq (E:=Empty_set) bits Hb) as (w & Hw & _ & Hv).
  exists w. split_and!; [done..|]. rewrite Hv. destruct (_ || _ || _) eqn:Hbad; [done|].
  apply orb_false_iff in Hbad as [[_ Hfit%Z.leb_gt]%orb_false_iff Hz%Z.eqb_neq].
  pose proof (compact_value_nonneg bits Hb). pose proof (compact_value_lt_max bits Hb Hfit).
  split; [|done]. intros Hq. apply Z.div_small_iff in Hq; lia.
Qed.

Lemma block_work_exact_witness : exists w, block_work (E:=Empty_set) 0x1d00ffff = Ok w /\
  work_val w = 0x100010001.
Proof.
  destruct (block_work_exact 0x1d00ffff) as (w & Hw & Hv & _); [split; vm_compute; done|].
  exists w. split; [exact Hw|]. rewrite Hv. vm_compute. reflexivity.
Defined.
