(* ===== verification/Bitcoin.v ===== *)
(** * Bitcoin: the data of the pinned [bitcoin] crate, and what is used of its functions

    The records have the public fields the repository reads; newtypes that only
    wrap a number or a byte array ([Amount], [Sequence], [CompactTarget],
    [BlockHash], [Script], ...) are that number or array.  The functions of the
    crate, of [bitcoin_hashes] and of [secp256k1] are the fields of a class: the
    development is generic in them, and a theorem that relies on documented
    behaviour of one names the law it needs. *)
From S2P Require Import Prelude.

Record OutPoint := mkOutPoint { op_txid : bytes; op_vout : Z }.

Record TxIn := mkTxIn {
  previous_output : OutPoint;
  script_sig : bytes;
  sequence : Z;
  witness : list bytes;
}.

Record TxOut := mkTxOut { txout_value : Z; script_pubkey : bytes }.

Record Transaction := mkTransaction {
  tx_version : Z;
  tx_lock_time : Z;
  tx_input : list TxIn;
  tx_output : list TxOut;
}.

Record Header := mkHeader {
  hdr_version : Z;
  hdr_prev_blockhash : bytes;
  hdr_merkle_root : bytes;
  hdr_time : Z;
  hdr_bits : Z;
  hdr_nonce : Z;
}.

Record Block := mkBlock { blk_header : Header; blk_txdata : list Transaction }.

#[global] Instance OutPoint_eq_dec : EqDecision OutPoint.
Proof. solve_decision. Defined.
#[global] Instance TxOut_eq_dec : EqDecision TxOut.
Proof. solve_decision. Defined.
#[global] Instance TxIn_eq_dec : EqDecision TxIn.
Proof. solve_decision. Defined.
#[global] Instance Transaction_eq_dec : EqDecision Transaction.
Proof. solve_decision. Defined.

#[global] Instance byte_countable : Countable byte.
Proof. refine (inj_countable' Byte.to_N (fun n => default x00 (Byte.of_N n)) _).
  intros b. by rewrite Byte.of_to_N.
Defined.
#[global] Instance OutPoint_countable : Countable OutPoint.
Proof.
  refine (inj_countable' (fun o => (op_txid o, op_vout o)) (fun p => mkOutPoint p.1 p.2) _).
  by intros [].
Defined.

(** [bitcoin_hashes]. *)
Class Hashes := {
  sha256 : bytes -> bytes;
  sha256d : bytes -> bytes;
  sha1 : bytes -> bytes;
  ripemd160 : bytes -> bytes;
  hash160 : bytes -> bytes;
}.

(** Digests have their documented lengths. *)
Class HashLengths `{Hashes} : Prop := {
  length_sha256 m : length (sha256 m) = 32%nat;
  length_sha256d m : length (sha256d m) = 32%nat;
  length_sha1 m : length (sha1 m) = 20%nat;
  length_ripemd160 m : length (ripemd160 m) = 20%nat;
  length_hash160 m : length (hash160 m) = 20%nat;
}.

(** [bitcoin]: identifiers, serialized sizes and the two structural predicates. *)
Class BitcoinCrate := {
  block_hash : Header -> bytes;
  compute_txid : Transaction -> bytes;
  compute_wtxid : Transaction -> bytes;
  base_size : Transaction -> Z;
  total_size : Transaction -> Z;
  outpoint_null : OutPoint;
  is_null : OutPoint -> bool;
  is_coinbase : Transaction -> bool;
}.

(** Identifiers are 32-byte hashes. *)
Class IdLengths `{BitcoinCrate} : Prop := {
  length_block_hash h : length (block_hash h) = 32%nat;
  length_txid tx : length (compute_txid tx) = 32%nat;
  length_wtxid tx : length (compute_wtxid tx) = 32%nat;
}.

(** [Transaction::is_coinbase] says what its documentation says: one input, and it spends
    the null outpoint. *)
Class CoinbaseLaw `{BitcoinCrate} : Prop :=
  is_coinbase_spec tx : is_coinbase tx =
    match tx_input tx with [i] => is_null (previous_output i) | _ => false end.

(** [bitcoin::consensus::Encodable]: the consensus serialization of the parts of a
    transaction, [VarInt] and [VarInt::size] included, the constant [TxOut::NULL], and the tagged hashes of
    BIP341 over a whole preimage. *)
Class Encoding := {
  enc_version : Z -> bytes;
  enc_lock_time : Z -> bytes;
  enc_sequence : Z -> bytes;
  enc_amount : Z -> bytes;
  enc_u32 : Z -> bytes;
  enc_varint : Z -> bytes;
  varint_size : Z -> Z;
  enc_outpoint : OutPoint -> bytes;
  enc_txout : TxOut -> bytes;
  enc_script : bytes -> bytes;
  txout_null : TxOut;
  tap_sighash : bytes -> bytes;
  tap_leaf_hash : bytes -> bytes;
  tap_branch_hash : bytes -> bytes;
  tap_tweak_hash : bytes -> bytes;
}.

(** Every one of these values has a serialization of at least one byte, a [VarInt] of
    at most nine, and the tagged hashes are SHA-256. *)
Class EncodingLaws `{Encoding} : Prop := {
  enc_version_nonempty x : enc_version x <> [];
  enc_lock_time_nonempty x : enc_lock_time x <> [];
  enc_sequence_nonempty x : enc_sequence x <> [];
  enc_amount_nonempty x : enc_amount x <> [];
  enc_u32_nonempty x : enc_u32 x <> [];
  enc_varint_nonempty x : enc_varint x <> [];
  enc_outpoint_nonempty x : enc_outpoint x <> [];
  enc_txout_nonempty x : enc_txout x <> [];
  enc_script_nonempty x : enc_script x <> [];
  varint_size_range x : 1 <= varint_size x <= 9;
  length_tap_sighash m : length (tap_sighash m) = 32%nat;
  length_tap_leaf_hash m : length (tap_leaf_hash m) = 32%nat;
  length_tap_branch_hash m : length (tap_branch_hash m) = 32%nat;
  length_tap_tweak_hash m : length (tap_tweak_hash m) = 32%nat;
}.

(** The crate's [Ord for OutPoint], which is documented to be a total order. *)
Class OutPointOrder := {
  outpoint_le : relation OutPoint;
  outpoint_le_dec :: RelDecision outpoint_le;
}.

Class OutPointOrderLaws `{OutPointOrder} : Prop := {
  outpoint_le_total :: Total outpoint_le;
  outpoint_le_trans :: Transitive outpoint_le;
  outpoint_le_antisymm :: AntiSymm eq outpoint_le;
}.
