(* ===== verification/Flags.v ===== *)
(** * Flags: the script verification flags ([consensus/src/script/script_flags.rs]) *)
From S2P Require Import Prelude.

Module ScriptFlags.

(** [ScriptFlags(u32)], the raw mask. *)
Record ScriptFlags := mk { bits : Z }.

#[global] Instance eq_dec : EqDecision ScriptFlags.
Proof. solve_decision. Defined.

Definition NONE := mk 0.
Definition P2SH := mk (Z.shiftl 1 0).
Definition DERSIG := mk (Z.shiftl 1 2).
Definition NULLDUMMY := mk (Z.shiftl 1 4).
Definition CHECKLOCKTIMEVERIFY := mk (Z.shiftl 1 9).
Definition CHECKSEQUENCEVERIFY := mk (Z.shiftl 1 10).
Definition WITNESS := mk (Z.shiftl 1 11).
Definition TAPROOT := mk (Z.shiftl 1 17).

Definition union (a b : ScriptFlags) := mk (Z.lor (bits a) (bits b)).
Definition intersection (a b : ScriptFlags) := mk (Z.land (bits a) (bits b)).
Definition difference (a b : ScriptFlags) := mk (Z.land (bits a) (u32_max - bits b)).
Definition contains (a b : ScriptFlags) : bool := Z.land (bits a) (bits b) =? bits b.
Definition is_subset_of (a b : ScriptFlags) : bool := contains b a.

Definition MANDATORY : ScriptFlags :=
  union (union (union (union (union (union P2SH DERSIG) NULLDUMMY)
    CHECKLOCKTIMEVERIFY) CHECKSEQUENCEVERIFY) WITNESS) TAPROOT.

(** ** Flags as sets of bits *)

Lemma contains_spec a b : contains a b = true <->
  forall n, 0 <= n -> Z.testbit (bits b) n = true -> Z.testbit (bits a) n = true.
Proof.
  unfold contains. rewrite Z.eqb_eq. split.
  - intros Heq n Hn Hb. rewrite <-Heq, Z.land_spec in Hb. by apply andb_true_iff in Hb as [? _].
  - intros Hsub. apply Z.bits_inj'. intros n Hn. rewrite Z.land_spec.
    specialize (Hsub n Hn). destruct (Z.testbit (bits b) n); [by rewrite Hsub|apply andb_false_r].
Qed.

Lemma contains_union a b f : contains a f = true \/ contains b f = true ->
  contains (union a b) f = true.
Proof.
  rewrite !contains_spec. intros Hor n Hn Hf. unfold union; cbn [bits].
  rewrite Z.lor_spec, orb_true_iff. destruct Hor as [H|H]; [left|right]; by apply H.
Qed.

(** A single-bit flag is in a union exactly when it is in one of the two sets. *)
Lemma contains_bit a k : 0 <= k -> contains a (mk (2 ^ k)) = Z.testbit (bits a) k.
Proof.
  intros Hk. unfold contains; cbn [bits].
  destruct (Z.testbit (bits a) k) eqn:Hb.
  - apply Z.eqb_eq. apply Z.bits_inj'. intros n Hn. rewrite Z.land_spec.
    destruct (decide (n = k)) as [->|]; [by rewrite Hb|].
    rewrite Z.pow2_bits_false by lia. apply andb_false_r.
  - apply Z.eqb_neq. intros Heq. apply (f_equal (fun z => Z.testbit z k)) in Heq.
    by rewrite Z.land_spec, Hb, Z.pow2_bits_true in Heq.
Qed.

Lemma contains_flag a k : 0 <= k -> contains a (mk (Z.shiftl 1 k)) = Z.testbit (bits a) k.
Proof. intros. rewrite Z.shiftl_1_l. by apply contains_bit. Qed.

Lemma testbit_union a b k : Z.testbit (bits (union a b)) k =
  Z.testbit (bits a) k || Z.testbit (bits b) k.
Proof. apply Z.lor_spec. Qed.

Lemma testbit_flag j k : 0 <= j -> 0 <= k -> Z.testbit (bits (mk (Z.shiftl 1 j))) k = (j =? k).
Proof. intros. cbn [bits]. rewrite Z.shiftl_1_l. by apply Z.pow2_bits_eqb. Qed.

Lemma subset_union a b c : is_subset_of a c = true -> is_subset_of b c = true ->
  is_subset_of (union a b) c = true.
Proof.
  unfold is_subset_of. rewrite !contains_spec. intros Ha Hb n Hn.
  unfold union; cbn [bits]. rewrite Z.lor_spec, orb_true_iff. intros [H|H]; auto.
Qed.

Lemma subset_trans a b c : is_subset_of a b = true -> is_subset_of b c = true ->
  is_subset_of a c = true.
Proof. unfold is_subset_of. rewrite !contains_spec. auto. Qed.

End ScriptFlags.
