(* ===== verification/Params.v ===== *)
(** * Params: heights, chain parameters and the rules in force for a block
    ([consensus/src/params/]) *)
From Stdlib Require Import String Ascii.
From S2P Require Import Prelude Target Bitcoin Flags.

(** ** [params/height.rs] *)
Module Height.

Definition GENESIS : Z := 0.
Definition MAX : Z := 0x7FFFFFFF.

(** [Height::new]. *)
Definition new {E} (height : Z) : outcome E Z :=
  assert_ (height <=? MAX);;
  Ok height.

Definition next {E} (height : Z) : outcome E Z :=
  assert_ (height <? MAX);;
  let next := height + 1 in
  assert_ (height <? next);;
  Ok next.

Definition is_retarget_boundary {E} (height interval : Z) : outcome E bool :=
  assert_ (0 <? interval);;
  Ok (height mod interval =? 0).

(** A value of the Rust type: a [u32] that [new] accepted. *)
Definition valid (height : Z) : Prop := 0 <= height <= MAX.

End Height.

Module BlockTime.

(** [timespan_since]: the difference in [i64], whose magnitude always fits [u32]. *)
Definition timespan_since {E} (self earlier : Z) : outcome E Z :=
  let timespan := self - earlier in
  assert_ (bool_decide (is_Some (try_from u32_max (Z.abs timespan))));;
  Ok timespan.

Definition valid (time : Z) : Prop := 0 <= time <= u32_max.

Lemma timespan_since_eq {E} a b : valid a -> valid b ->
  timespan_since (E:=E) a b = Ok (a - b).
Proof.
  intros Ha Hb. unfold timespan_since, try_from, valid in *.
  destruct ((0 <=? Z.abs (a - b)) && (Z.abs (a - b) <=? u32_max)) eqn:Hr; [done|].
  unfold u32_max in *. lia.
Qed.

End BlockTime.

(** ** [params/regtest.rs] *)

Record RegtestOverrides := mkOverrides {
  ov_bip34 : option Z;
  ov_bip66 : option Z;
  ov_bip65 : option Z;
  ov_csv : option Z;
  ov_segwit : option Z;
  ov_bip94 : bool;
}.
Definition default_overrides : RegtestOverrides := mkOverrides None None None None None false.

Inductive RegtestArgError :=
| InvalidFormat (value : string)
| InvalidHeightValue (value : string)
| InvalidName (value : string)
| UnrecognisedTestOption (option : string).

Definition VALUE_LENGTH_MAX : Z := 256.

(** [str::split_once]: at the first occurrence of the separator. *)
Fixpoint split_once (sep : ascii) (s : string) : option (string * string) :=
  match s with
  | EmptyString => None
  | String c s =>
      if Ascii.eqb c sep then Some (EmptyString, s)
      else match split_once sep s with
           | Some (before, after) => Some (String c before, after)
           | None => None
           end
  end.

Definition digit_value (c : ascii) : option Z :=
  let n := Z.of_N (N_of_ascii c) in
  if (48 <=? n) && (n <=? 57) then Some (n - 48) else None.

(** The digits of a [u32], checked for overflow at every step. *)
Fixpoint parse_digits (acc : Z) (s : string) : option Z :=
  match s with
  | EmptyString => Some acc
  | String c s =>
      match digit_value c with
      | None => None
      | Some d =>
          let acc := acc * 10 + d in
          if acc <=? u32_max then parse_digits acc s else None
      end
  end.

(** [str::parse::<u32>]: one optional [+], then at least one digit. *)
Definition parse_u32 (s : string) : option Z :=
  match s with
  | EmptyString => None
  | String "+"%char EmptyString => None
  | String "+"%char digits => parse_digits 0 digits
  | _ => parse_digits 0 s
  end.

Definition parse_height {E} (text : string) : outcome E (option Z) :=
  match parse_u32 text with
  | None => Ok None
  | Some height =>
      if Height.MAX <=? height then Ok None
      else h ← Height.new height; Ok (Some h)
  end.

Definition apply_test_activation_height (self : RegtestOverrides) (value : string)
    : outcome RegtestArgError RegtestOverrides :=
  if VALUE_LENGTH_MAX <? Z.of_nat (String.length value) then Err (InvalidFormat value)
  else match split_once "@"%char value with
  | None => Err (InvalidFormat value)
  | Some (name, height_text) =>
      parsed ← parse_height height_text;
      match parsed with
      | None => Err (InvalidHeightValue value)
      | Some height =>
          let '(mkOverrides bip34 bip66 bip65 csv segwit bip94) := self in
          let slot := Some height in
          if (name =? "segwit")%string then Ok (mkOverrides bip34 bip66 bip65 csv slot bip94)
          else if (name =? "bip34")%string then Ok (mkOverrides slot bip66 bip65 csv segwit bip94)
          else if (name =? "dersig")%string then Ok (mkOverrides bip34 slot bip65 csv segwit bip94)
          else if (name =? "cltv")%string then Ok (mkOverrides bip34 bip66 slot csv segwit bip94)
          else if (name =? "csv")%string then Ok (mkOverrides bip34 bip66 bip65 slot segwit bip94)
          else Err (InvalidName value)
      end
  end.

Definition apply_test_option (self : RegtestOverrides) (option : string)
    : outcome RegtestArgError RegtestOverrides :=
  if (option =? "bip94")%string then
    let '(mkOverrides bip34 bip66 bip65 csv segwit _) := self in
    Ok (mkOverrides bip34 bip66 bip65 csv segwit true)
  else Err (UnrecognisedTestOption option).

(** ** [params/mod.rs]: constants *)

Definition hex_digit {E} (digit : byte) : outcome E Z :=
  let d := bz digit in
  if (48 <=? d) && (d <=? 57) then Ok (d - 48)
  else if (97 <=? d) && (d <=? 102) then Ok (d - 97 + 10)
  else Panic.

Fixpoint hex_pairs {E} (digits : bytes) : outcome E bytes :=
  match digits with
  | h :: l :: digits =>
      high ← hex_digit h;
      low ← hex_digit l;
      rest ← hex_pairs digits;
      Ok (zb (Z.lor (Z.shiftl high 4) low) :: rest)
  | _ => Ok []
  end.

Definition hex_bytes {E} (n : Z) (hex : string) : outcome E bytes :=
  let digits := list_byte_of_string hex in
  assert_ (len digits =? 2 * n);;
  hex_pairs digits.

(** Written as displayed, held in [to_byte_array] order. *)
Definition hash_bytes {E} (hex : string) : outcome E bytes :=
  displayed ← hex_bytes 32 hex; Ok (reverse displayed).

(** A constant: a panic here would be a build error. *)
Definition constant (o : outcome Empty_set bytes) : bytes := match o with Ok b => b | _ => [] end.

Definition MAINNET_GENESIS_HASH : bytes := Eval vm_compute in
  constant (hash_bytes "000000000019d6689c085ae165831e934ff763ae46a2a6c172b3f1b60a8ce26f").
Definition SIGNET_GENESIS_HASH : bytes := Eval vm_compute in
  constant (hash_bytes "00000008819873e925422c1ff0f99f7cc9bbb232af63a077a480a3633bee1ef6").
Definition REGTEST_GENESIS_HASH : bytes := Eval vm_compute in
  constant (hash_bytes "0f9188f13cb7b2c71f2a335e3a4fc328bf5beb436012afca590b1a11466e2206").
Definition MAINNET_BIP34_HASH : bytes := Eval vm_compute in
  constant (hash_bytes "000000000000024b89b42a942fe0d9fea3bb44ab7bd1b19115dd6a759c0808b8").

Definition MAINNET_POW_LIMIT : bytes := Eval vm_compute in
  constant (hex_bytes 32 "00000000ffff0000000000000000000000000000000000000000000000000000").
Definition SIGNET_POW_LIMIT : bytes := Eval vm_compute in
  constant (hex_bytes 32 "00000377ae000000000000000000000000000000000000000000000000000000").
Definition REGTEST_POW_LIMIT : bytes := Eval vm_compute in
  constant (hex_bytes 32 "7fffffffffffffffffffffffffffffffffffffffffffffffffffffffffffffff").

Inductive Chain := Mainnet | Signet | Regtest.
#[global] Instance Chain_eq_dec : EqDecision Chain.
Proof. solve_decision. Defined.

Inductive BlockChallenge :=
| NoChallenge
| SignetChallenge (challenge : bytes).

Record Bip34 := mkBip34 { bip34_height : Z; bip34_hash : option bytes }.

Record BuriedHeights := mkBuried {
  buried_bip34 : Bip34;
  buried_bip66 : Z;
  buried_bip65 : Z;
  buried_csv : Z;
  buried_segwit : Z;
}.

Record ScriptFlagException := mkException {
  exception_hash : bytes;
  exception_flags : ScriptFlags.ScriptFlags;
}.

Record Bip30RepeatException := mkRepeat { repeat_height : Z; repeat_hash : bytes }.

Definition SCRIPT_FLAG_EXCEPTIONS_MAX : Z := 2.
Definition BIP30_REPEAT_EXCEPTIONS_MAX : Z := 2.

Definition MAINNET_SCRIPT_FLAG_EXCEPTIONS : list ScriptFlagException := Eval vm_compute in
  [ mkException
      (constant (hash_bytes "00000000000002dc756eebf4f49723ed8d30cc28a5f108eb94b1ba88ac4f9c22"))
      ScriptFlags.NONE;
    mkException
      (constant (hash_bytes "0000000000000000000f14c35b2d841e986ab5441de8c585d5ffe55ea1e395ad"))
      (ScriptFlags.union ScriptFlags.P2SH ScriptFlags.WITNESS) ].

Definition MAINNET_BIP30_REPEAT_EXCEPTIONS : list Bip30RepeatException := Eval vm_compute in
  [ mkRepeat 91842
      (constant (hash_bytes "00000000000a4d0a398161ffc163c503763b1f4360639393e0e4c8e300e0caec"));
    mkRepeat 91880
      (constant (hash_bytes "00000000000743f190a18c5577a3c2d2a1f610ae9601ac046a38084ccb7cd721")) ].

Record ChainParams := mkChainParams {
  chain : Chain;
  genesis : Block;
  pow_limit : Target;
  pow_target_timespan : Z;
  pow_target_spacing : Z;
  no_retargeting : bool;
  allow_min_difficulty : bool;
  enforce_bip94 : bool;
  halving_interval : Z;
  buried : BuriedHeights;
  script_flag_exceptions : list ScriptFlagException;
  bip30_repeat_exceptions : list Bip30RepeatException;
  block_challenge : BlockChallenge;
}.

(** ** [params/rules.rs]: constants and [Rules] *)

Definition BIP34_IMPLIES_BIP30_LIMIT : Z := 1983702.
Definition COIN : Z := 100000000.
Definition HALVINGS_MAX : Z := 64.

Inductive Bip30 := Enforce | Skip | Overwrite.
#[global] Instance Bip30_eq_dec : EqDecision Bip30.
Proof. solve_decision. Defined.

Definition ALWAYS_ON_SCRIPT_FLAGS : ScriptFlags.ScriptFlags :=
  ScriptFlags.union (ScriptFlags.union ScriptFlags.P2SH ScriptFlags.WITNESS) ScriptFlags.TAPROOT.

Record Rules := mkRules {
  rules_script_flags : ScriptFlags.ScriptFlags;
  version_floor : Z;
  bip34_active : bool;
  csv_active : bool;
  segwit_active : bool;
  rules_bip30 : Bip30;
  subsidy : Z;
}.

Definition bip30_check_required (self : Rules) : bool := bool_decide (rules_bip30 self = Enforce).

Definition block_subsidy {E} (height halving_interval : Z) : outcome E Z :=
  assert_ (0 <? halving_interval);;
  let halvings := height / halving_interval in
  if HALVINGS_MAX <=? halvings then Ok 0
  else
    let subsidy := Z.shiftr (50 * COIN) halvings in
    assert_ (subsidy <=? 50 * COIN);;
    Ok subsidy.

(** ** [params/mod.rs]: the constructors *)

Section constructors.
Context `{BitcoinCrate}.

(** [for exception in exceptions { assert!(..) }]. *)
Definition assert_exceptions_relax {E} (exceptions : list ScriptFlagException) : outcome E unit :=
  foldM (fun _ exception =>
    assert_ (ScriptFlags.is_subset_of (exception_flags exception) ALWAYS_ON_SCRIPT_FLAGS))
    tt exceptions.

Definition assert_invariants {E} (self : ChainParams) (genesis_hash : bytes) : outcome E unit :=
  assert_ (bool_decide (block_hash (blk_header (genesis self)) = genesis_hash));;
  assert_ (len (blk_txdata (genesis self)) =? 1);;
  assert_ (target_lt TARGET_ZERO (pow_limit self));;
  assert_ (0 <? pow_target_spacing self);;
  assert_ (pow_target_spacing self <=? pow_target_timespan self);;
  assert_ (Z.rem (pow_target_timespan self) (pow_target_spacing self) =? 0);;
  assert_ (0 <? halving_interval self);;
  assert_ (len (script_flag_exceptions self) <=? SCRIPT_FLAG_EXCEPTIONS_MAX);;
  assert_exceptions_relax (script_flag_exceptions self);;
  assert_ (len (bip30_repeat_exceptions self) <=? BIP30_REPEAT_EXCEPTIONS_MAX);;
  (if bool_decide (chain self <> Mainnet)
   then assert_ (bool_decide (bip34_hash (buried_bip34 (buried self)) = None))
   else Ok tt);;
  match block_challenge self with
  | NoChallenge => assert_ (bool_decide (chain self <> Signet))
  | SignetChallenge challenge =>
      assert_ (bool_decide (chain self = Signet));;
      assert_ (negb (bool_decide (challenge = [])))
  end.

(** [genesis_block(network)] of the crate is the argument of each constructor. *)
Definition mainnet {E} (genesis : Block) : outcome E ChainParams :=
  let params := {|
    chain := Mainnet;
    genesis := genesis;
    pow_limit := mkTarget MAINNET_POW_LIMIT;
    pow_target_timespan := 14 * 24 * 60 * 60;
    pow_target_spacing := 10 * 60;
    no_retargeting := false;
    allow_min_difficulty := false;
    enforce_bip94 := false;
    halving_interval := 210000;
    buried := {|
      buried_bip34 := mkBip34 227931 (Some MAINNET_BIP34_HASH);
      buried_bip66 := 363725;
      buried_bip65 := 388381;
      buried_csv := 419328;
      buried_segwit := 481824 |};
    script_flag_exceptions := MAINNET_SCRIPT_FLAG_EXCEPTIONS;
    bip30_repeat_exceptions := MAINNET_BIP30_REPEAT_EXCEPTIONS;
    block_challenge := NoChallenge |} in
  assert_invariants params MAINNET_GENESIS_HASH;;
  Ok params.

Definition signet {E} (genesis : Block) (challenge : bytes) : outcome E ChainParams :=
  let first := 1 in
  let params := {|
    chain := Signet;
    genesis := genesis;
    pow_limit := mkTarget SIGNET_POW_LIMIT;
    pow_target_timespan := 14 * 24 * 60 * 60;
    pow_target_spacing := 10 * 60;
    no_retargeting := false;
    allow_min_difficulty := false;
    enforce_bip94 := false;
    halving_interval := 210000;
    buried := {|
      buried_bip34 := mkBip34 first None;
      buried_bip66 := first;
      buried_bip65 := first;
      buried_csv := first;
      buried_segwit := first |};
    script_flag_exceptions := [];
    bip30_repeat_exceptions := [];
    block_challenge := SignetChallenge challenge |} in
  assert_invariants params SIGNET_GENESIS_HASH;;
  Ok params.

Definition regtest {E} (genesis : Block) (overrides : RegtestOverrides) : outcome E ChainParams :=
  let default_height := 1 in
  let params := {|
    chain := Regtest;
    genesis := genesis;
    pow_limit := mkTarget REGTEST_POW_LIMIT;
    pow_target_timespan := 24 * 60 * 60;
    pow_target_spacing := 10 * 60;
    no_retargeting := true;
    allow_min_difficulty := true;
    enforce_bip94 := ov_bip94 overrides;
    halving_interval := 150;
    buried := {|
      buried_bip34 := mkBip34 (default default_height (ov_bip34 overrides)) None;
      buried_bip66 := default default_height (ov_bip66 overrides);
      buried_bip65 := default default_height (ov_bip65 overrides);
      buried_csv := default default_height (ov_csv overrides);
      buried_segwit := default Height.GENESIS (ov_segwit overrides) |};
    script_flag_exceptions := [];
    bip30_repeat_exceptions := [];
    block_challenge := NoChallenge |} in
  assert_invariants params REGTEST_GENESIS_HASH;;
  Ok params.

End constructors.

Definition difficulty_adjustment_interval {E} (self : ChainParams) : outcome E Z :=
  let interval := Z.quot (pow_target_timespan self) (pow_target_spacing self) in
  interval ← expect (try_from u32_max interval);
  assert_ (0 <? interval);;
  Ok interval.

(** ** [params/rules.rs]: [rules_at] *)

Definition script_flags_base {E} (self : ChainParams) (hash : bytes)
    : outcome E ScriptFlags.ScriptFlags :=
  let '(base, matched) :=
    fold_left (fun '(base, matched) exception =>
      if bool_decide (exception_hash exception = hash)
      then (exception_flags exception, matched + 1) else (base, matched))
      (script_flag_exceptions self) (ALWAYS_ON_SCRIPT_FLAGS, 0) in
  assert_ (matched <=? 1);;
  Ok base.

Definition version_floor_at {E} (self : ChainParams) (height : Z) : outcome E Z :=
  let b := buried self in
  let floor := 1 in
  let floor := if bip34_height (buried_bip34 b) <=? height then 2 else floor in
  let floor := if buried_bip66 b <=? height then 3 else floor in
  let floor := if buried_bip65 b <=? height then 4 else floor in
  assert_ (1 <=? floor);;
  assert_ (floor <=? 4);;
  Ok floor.

Definition bip30_at {E} (self : ChainParams) (height : Z) (hash : bytes)
    (bip34_ancestor : option bytes) : outcome E Bip30 :=
  let is_repeat_exception :=
    existsb (fun exception => (repeat_height exception =? height) &&
      bool_decide (repeat_hash exception = hash)) (bip30_repeat_exceptions self) in
  let bip34_block_is_ancestor :=
    match bip34_hash (buried_bip34 (buried self)), bip34_ancestor with
    | Some expected, Some actual => bool_decide (expected = actual)
    | _, _ => false
    end in
  (if bip34_block_is_ancestor
   then assert_ (bip34_height (buried_bip34 (buried self)) <? height) else Ok tt);;
  if is_repeat_exception then
    assert_ (negb bip34_block_is_ancestor);;
    assert_ (height <? BIP34_IMPLIES_BIP30_LIMIT);;
    Ok Overwrite
  else if bip34_block_is_ancestor && (height <? BIP34_IMPLIES_BIP30_LIMIT) then Ok Skip
  else Ok Enforce.

Definition rules_at {E} (self : ChainParams) (height : Z) (hash : bytes)
    (bip34_ancestor : option bytes) : outcome E Rules :=
  let b := buried self in
  (if bool_decide (is_Some bip34_ancestor)
   then assert_ (bip34_height (buried_bip34 b) <? height) else Ok tt);;
  flags ← script_flags_base self hash;
  let flags := if buried_bip66 b <=? height
    then ScriptFlags.union flags ScriptFlags.DERSIG else flags in
  let flags := if buried_bip65 b <=? height
    then ScriptFlags.union flags ScriptFlags.CHECKLOCKTIMEVERIFY else flags in
  let flags := if buried_csv b <=? height
    then ScriptFlags.union flags ScriptFlags.CHECKSEQUENCEVERIFY else flags in
  let flags := if buried_segwit b <=? height
    then ScriptFlags.union flags ScriptFlags.NULLDUMMY else flags in
  floor ← version_floor_at self height;
  bip30 ← bip30_at self height hash bip34_ancestor;
  sub ← block_subsidy height (halving_interval self);
  let rules := {|
    rules_script_flags := flags;
    version_floor := floor;
    bip34_active := bip34_height (buried_bip34 b) <=? height;
    csv_active := buried_csv b <=? height;
    segwit_active := buried_segwit b <=? height;
    rules_bip30 := bip30;
    subsidy := sub |} in
  assert_ (Bool.eqb (ScriptFlags.contains flags ScriptFlags.NULLDUMMY) (segwit_active rules));;
  assert_ (Bool.eqb (ScriptFlags.contains flags ScriptFlags.CHECKSEQUENCEVERIFY) (csv_active rules));;
  (if bip34_active rules then assert_ (2 <=? version_floor rules) else Ok tt);;
  assert_ (ScriptFlags.is_subset_of flags ScriptFlags.MANDATORY);;
  Ok rules.

(** ** What the constructors establish *)

(** The pairs of flags [verify_script] insists on. *)
Definition flags_coherent (f : ScriptFlags.ScriptFlags) : Prop :=
  (ScriptFlags.contains f ScriptFlags.WITNESS = true ->
   ScriptFlags.contains f ScriptFlags.P2SH = true) /\
  (ScriptFlags.contains f ScriptFlags.TAPROOT = true ->
   ScriptFlags.contains f ScriptFlags.WITNESS = true).

Record params_ok (p : ChainParams) : Prop := {
  ok_pow_limit : target_wf (pow_limit p) /\ 0 < target_val (pow_limit p);
  ok_spacing : 0 < pow_target_spacing p;
  ok_timespan : exists n, 0 < n <= u32_max /\ pow_target_timespan p = n * pow_target_spacing p;
  ok_halving : 0 < halving_interval p;
  ok_exceptions : NoDup (map exception_hash (script_flag_exceptions p));
  ok_exception_flags : Forall (fun e =>
    ScriptFlags.is_subset_of (exception_flags e) ALWAYS_ON_SCRIPT_FLAGS = true /\
    flags_coherent (exception_flags e)) (script_flag_exceptions p);
  ok_repeats : Forall (fun e =>
    repeat_height e <= bip34_height (buried_bip34 (buried p)) /\
    repeat_height e < BIP34_IMPLIES_BIP30_LIMIT) (bip30_repeat_exceptions p);
}.

Section constructors_ok.
Context `{BitcoinCrate}.

Lemma mainnet_ok {E} g p : mainnet (E:=E) g = Ok p -> params_ok p.
Proof.
  unfold mainnet. intros Hp. inv_ok. constructor; cbn -[Z.mul].
  - split; [done|]. vm_compute. done.
  - lia.
  - exists 2016. split; vm_compute; [split; congruence|done].
  - lia.
  - apply (bool_decide_unpack _). vm_compute. done.
  - repeat constructor; vm_compute; congruence.
  - repeat constructor; vm_compute; congruence.
Qed.

Lemma signet_ok {E} g c p : signet (E:=E) g c = Ok p -> params_ok p.
Proof.
  unfold signet. intros Hp. inv_ok. constructor; cbn -[Z.mul]; try constructor; try done; try lia.
  exists 2016. split; vm_compute; [split; congruence|done].
Qed.

Lemma regtest_ok {E} g o p : regtest (E:=E) g o = Ok p -> params_ok p.
Proof.
  unfold regtest. intros Hp. inv_ok. constructor; cbn -[Z.mul]; try constructor; try done; try lia.
  exists 144. split; vm_compute; [split; congruence|done].
Qed.

End constructors_ok.

(** One of the three chains the crate tables. *)
Inductive tabled `{BitcoinCrate} : ChainParams -> Prop :=
| tabled_mainnet g p : mainnet (E:=Empty_set) g = Ok p -> tabled p
| tabled_signet g c p : signet (E:=Empty_set) g c = Ok p -> tabled p
| tabled_regtest g o p : regtest (E:=Empty_set) g o = Ok p -> tabled p.

Lemma tabled_ok `{BitcoinCrate} p : tabled p -> params_ok p.
Proof. destruct 1; eauto using mainnet_ok, signet_ok, regtest_ok. Qed.

Lemma difficulty_adjustment_interval_ok {E} p : params_ok p ->
  exists n, difficulty_adjustment_interval (E:=E) p = Ok n /\ 0 < n <= u32_max /\
    pow_target_timespan p = n * pow_target_spacing p.
Proof.
  intros [_ Hs (n & Hn & Ht) _ _ _ _]. exists n. split_and!; try lia.
  unfold difficulty_adjustment_interval. rewrite Ht, Z.quot_mul by lia.
  unfold try_from. rewrite (proj2 (Z.leb_le 0 n)), (proj2 (Z.leb_le n _)) by lia. run.
  rewrite (proj2 (Z.ltb_lt 0 n)) by lia. done.
Qed.

(** ** [rules_at] *)

Definition matching (hash : bytes) (es : list ScriptFlagException) : list ScriptFlagException :=
  filter (fun e => exception_hash e = hash) es.

Lemma script_flags_base_fold hash es base n :
  fold_left (fun '(base, matched) e =>
    if bool_decide (exception_hash e = hash) then (exception_flags e, matched + 1)
    else (base, matched)) es (base, n) =
  (default base (exception_flags <$> last (matching hash es)), n + len (matching hash es)).
Proof.
  revert base n; induction es as [|e es IH]; intros base n;
    cbn [fold_left]; [f_equal; unfold matching, len; simpl; lia|].
  unfold matching in *. rewrite filter_cons.
  destruct (decide (exception_hash e = hash)) as [He|He].
  - rewrite bool_decide_true by done. rewrite IH, len_cons.
    f_equal; [|lia]. rewrite last_cons. by destruct (last _).
  - rewrite bool_decide_false by done. apply IH.
Qed.

Lemma matching_le_1 hash es : NoDup (map exception_hash es) -> len (matching hash es) <= 1.
Proof.
  induction es as [|e es IH]; intros Hnd; [done|].
  cbn in Hnd. apply NoDup_cons in Hnd as [Hnin Hnd]. unfold matching in *.
  rewrite filter_cons. case_decide as He; [|by apply IH].
  rewrite len_cons. enough (filter (fun e => exception_hash e = hash) es = []) as -> by (rewrite len_nil; lia).
  apply elem_of_nil_inv. intros x [Hx Hin]%list_elem_of_filter. apply Hnin.
  rewrite He, <-Hx. by apply list_elem_of_fmap_2.
Qed.

Lemma always_on_coherent : flags_coherent ALWAYS_ON_SCRIPT_FLAGS.
Proof. by split. Qed.

Lemma script_flags_base_ok {E} p hash : params_ok p ->
  exists f, script_flags_base (E:=E) p hash = Ok f /\
    ScriptFlags.is_subset_of f ALWAYS_ON_SCRIPT_FLAGS = true /\ flags_coherent f /\
    ((forall e, e ∈ script_flag_exceptions p -> exception_hash e <> hash) -> f = ALWAYS_ON_SCRIPT_FLAGS).
Proof.
  intros Hok. unfold script_flags_base. rewrite script_flags_base_fold.
  rewrite (proj2 (Z.leb_le _ 1)) by (pose proof (matching_le_1 hash _ (ok_exceptions p Hok)); lia).
  run. eexists; split; [reflexivity|].
  destruct (last (matching hash (script_flag_exceptions p))) as [e|] eqn:Hl; cbn.
  - apply last_Some_elem_of, list_elem_of_filter in Hl as [He Hin].
    pose proof (ok_exception_flags p Hok) as Hf. rewrite Forall_forall in Hf.
    destruct (Hf e Hin). split_and!; try done. intros Hno. by destruct (Hno e Hin).
  - split_and!; [done|apply always_on_coherent|done].
Qed.

(** The flag of a buried deployment, added from its height on. *)
Definition gate (from height : Z) (flag f : ScriptFlags.ScriptFlags) : ScriptFlags.ScriptFlags :=
  if from <=? height then ScriptFlags.union f flag else f.

Definition block_flags (b : BuriedHeights) (height : Z) (base : ScriptFlags.ScriptFlags) :=
  gate (buried_segwit b) height ScriptFlags.NULLDUMMY
    (gate (buried_csv b) height ScriptFlags.CHECKSEQUENCEVERIFY
      (gate (buried_bip65 b) height ScriptFlags.CHECKLOCKTIMEVERIFY
        (gate (buried_bip66 b) height ScriptFlags.DERSIG base))).

Lemma gate_bit from height j f k : 0 <= j -> 0 <= k ->
  Z.testbit (ScriptFlags.bits (gate from height (ScriptFlags.mk (Z.shiftl 1 j)) f)) k =
  Z.testbit (ScriptFlags.bits f) k || ((from <=? height) && (j =? k)).
Proof.
  intros. unfold gate. destruct (from <=? height); cbn [andb]; [|by rewrite orb_false_r].
  by rewrite ScriptFlags.testbit_union, ScriptFlags.testbit_flag.
Qed.

(** Every flag of a block by bit: the base flags, or a deployment that is active. *)
Lemma block_flags_bit b height base k : 0 <= k ->
  Z.testbit (ScriptFlags.bits (block_flags b height base)) k =
  Z.testbit (ScriptFlags.bits base) k || ((buried_bip66 b <=? height) && (2 =? k)) ||
    ((buried_bip65 b <=? height) && (9 =? k)) || ((buried_csv b <=? height) && (10 =? k)) ||
    ((buried_segwit b <=? height) && (4 =? k)).
Proof.
  intros. unfold block_flags, ScriptFlags.NULLDUMMY, ScriptFlags.CHECKSEQUENCEVERIFY,
    ScriptFlags.CHECKLOCKTIMEVERIFY, ScriptFlags.DERSIG.
  by rewrite !gate_bit by lia.
Qed.

Lemma base_bit base k : 0 <= k -> ScriptFlags.is_subset_of base ALWAYS_ON_SCRIPT_FLAGS = true ->
  k <> 0 -> k <> 11 -> k <> 17 -> Z.testbit (ScriptFlags.bits base) k = false.
Proof.
  intros Hk Hsub H0 H11 H17. apply not_true_iff_false. intros Hb.
  unfold ScriptFlags.is_subset_of in Hsub. rewrite ScriptFlags.contains_spec in Hsub.
  specialize (Hsub k Hk Hb). unfold ALWAYS_ON_SCRIPT_FLAGS in Hsub.
  rewrite !ScriptFlags.testbit_union in Hsub.
  unfold ScriptFlags.P2SH, ScriptFlags.WITNESS, ScriptFlags.TAPROOT in Hsub.
  rewrite !ScriptFlags.testbit_flag in Hsub by lia. lia.
Qed.

Lemma block_flags_coherent b height base : flags_coherent base ->
  flags_coherent (block_flags b height base).
Proof.
  unfold flags_coherent, ScriptFlags.P2SH, ScriptFlags.WITNESS, ScriptFlags.TAPROOT.
  rewrite !ScriptFlags.contains_flag, !block_flags_bit by lia.
  cbn [Z.eqb Pos.eqb]. rewrite !andb_false_r, !orb_false_r. done.
Qed.

Lemma block_flags_mandatory b height base :
  ScriptFlags.is_subset_of base ALWAYS_ON_SCRIPT_FLAGS = true ->
  ScriptFlags.is_subset_of (block_flags b height base) ScriptFlags.MANDATORY = true.
Proof.
  intros Hsub. unfold block_flags, gate.
  assert (ScriptFlags.is_subset_of base ScriptFlags.MANDATORY = true)
    by (by eapply ScriptFlags.subset_trans).
  repeat case_match; repeat apply ScriptFlags.subset_union; done.
Qed.

Lemma block_subsidy_eq {E} height interval : 0 <= height -> 0 < interval ->
  block_subsidy (E:=E) height interval =
    Ok (if 64 <=? height / interval then 0 else 5000000000 / 2 ^ (height / interval)).
Proof.
  intros Hh Hi. unfold block_subsidy, HALVINGS_MAX, COIN.
  rewrite (proj2 (Z.ltb_lt 0 interval)) by lia. run.
  assert (0 <= height / interval) by (apply Z.div_pos; lia).
  destruct (Z.leb_spec 64 (height / interval)); [done|]. change (50 * 100000000) with 5000000000.
  rewrite Z.shiftr_div_pow2 by lia.
  rewrite (proj2 (Z.leb_le _ _)); [done|].
  pose proof (Z.pow_pos_nonneg 2 (height / interval)). apply Z.div_le_upper_bound; nia.
Qed.

Lemma subsidy_range height interval : 0 <= height -> 0 < interval ->
  0 <= (if 64 <=? height / interval then 0 else 5000000000 / 2 ^ (height / interval)) <= 50 * COIN.
Proof.
  intros Hh Hi. unfold COIN. destruct (64 <=? _); [lia|].
  assert (0 <= height / interval) by (apply Z.div_pos; lia).
  assert (1 <= 2 ^ (height / interval)) by (apply (Z.pow_le_mono_r 2 0); lia).
  split; [apply Z.div_pos; lia|apply Z.div_le_upper_bound; nia].
Qed.

Lemma version_floor_at_eq {E} p height : exists floor,
  version_floor_at (E:=E) p height = Ok floor /\ 1 <= floor <= 4 /\
  (bip34_height (buried_bip34 (buried p)) <= height -> 2 <= floor).
Proof.
  unfold version_floor_at.
  destruct (Z.leb_spec (buried_bip65 (buried p)) height); [exists 4; split; [done|lia]|].
  destruct (Z.leb_spec (buried_bip66 (buried p)) height); [exists 3; split; [done|lia]|].
  destruct (Z.leb_spec (bip34_height (buried_bip34 (buried p))) height);
    [exists 2|exists 1]; (split; [done|lia]).
Qed.

(** The node passes the BIP34 ancestor only for a block above the BIP34 height. *)
Definition honest_ancestor (p : ChainParams) (height : Z) (ancestor : option bytes) : Prop :=
  is_Some ancestor -> bip34_height (buried_bip34 (buried p)) < height.

Lemma bip30_at_ok {E} p height hash ancestor : params_ok p -> honest_ancestor p height ancestor ->
  exists b, bip30_at (E:=E) p height hash ancestor = Ok b.
Proof.
  intros Hok Hanc. unfold bip30_at. set (rep := existsb _ _). 
  set (anc := match bip34_hash (buried_bip34 (buried p)) with Some _ => _ | None => false end).
  assert (Ha : anc = true -> bip34_height (buried_bip34 (buried p)) < height).
  { unfold anc. repeat case_match; try done. intros _. by apply Hanc. }
  assert (Hr : rep = true -> height <= bip34_height (buried_bip34 (buried p)) /\
    height < BIP34_IMPLIES_BIP30_LIMIT).
  { unfold rep. rewrite existsb_exists. intros (e & Hin & [He%Z.eqb_eq _]%andb_true_iff).
    pose proof (ok_repeats p Hok) as Hf. rewrite List.Forall_forall in Hf. specialize (Hf e Hin). lia. }
  destruct anc.
  - rewrite (proj2 (Z.ltb_lt _ height)) by auto. run. destruct rep.
    + specialize (Ha eq_refl). specialize (Hr eq_refl). lia.
    + case_match; eauto.
  - run. destruct rep; [|eauto]. rewrite (proj2 (Z.ltb_lt height _)) by (by apply Hr). run. eauto.
Qed.

Lemma rules_at_eq {E} p height hash ancestor :
  params_ok p -> 0 <= height -> honest_ancestor p height ancestor ->
  exists base floor b sub, rules_at (E:=E) p height hash ancestor = Ok
      (mkRules (block_flags (buried p) height base) floor
        (bip34_height (buried_bip34 (buried p)) <=? height) (buried_csv (buried p) <=? height)
        (buried_segwit (buried p) <=? height) b sub) /\
    script_flags_base (E:=E) p hash = Ok base /\ version_floor_at (E:=E) p height = Ok floor /\
    bip30_at (E:=E) p height hash ancestor = Ok b /\
    block_subsidy (E:=E) height (halving_interval p) = Ok sub.
Proof.
  intros Hok Hh Hanc.
  destruct (script_flags_base_ok (E:=E) p hash Hok) as (base & Hbase & Hsub & Hcoh & _).
  destruct (version_floor_at_eq (E:=E) p height) as (floor & Hfloor & Hf & Hf2).
  destruct (bip30_at_ok (E:=E) p height hash ancestor Hok Hanc) as [b Hb].
  pose proof (block_subsidy_eq (E:=E) height _ Hh (ok_halving p Hok)) as Hs.
  exists base, floor, b. eexists. split_and!; [|done..]. unfold rules_at.
  assert (Ha : (if bool_decide (is_Some ancestor)
    then assert_ (E:=E) (bip34_height (buried_bip34 (buried p)) <? height) else Ok tt) = Ok tt).
  { case_bool_decide as Hsome; [|done]. apply Hanc in Hsome. by rewrite (proj2 (Z.ltb_lt _ _)). }
  rewrite Ha. run. rewrite Hbase. run.
  change (if buried_segwit (buried p) <=? height then _ else _) with (block_flags (buried p) height base).
  rewrite Hfloor. run. rewrite Hb. run. rewrite Hs. run.
  cbn [segwit_active csv_active bip34_active version_floor].
  unfold ScriptFlags.NULLDUMMY, ScriptFlags.CHECKSEQUENCEVERIFY.
  rewrite !ScriptFlags.contains_flag, !block_flags_bit, !base_bit by (done || lia).
  cbn [Z.eqb Pos.eqb]. rewrite !andb_false_r, !andb_true_r, !orb_false_r, !orb_false_l, !eqb_reflx. run.
  rewrite block_flags_mandatory by done.
  destruct (Z.leb_spec (bip34_height (buried_bip34 (buried p))) height); run; [|done].
  rewrite (proj2 (Z.leb_le 2 floor)) by auto. done.
Qed.

(** ** Issuance *)

(** The subsidy of a height, and the sum of the subsidies of the first [n] heights. *)
Definition subsidy_at (interval height : Z) : Z :=
  match block_subsidy (E:=Empty_set) height interval with Ok s => s | _ => 0 end.
Fixpoint issued (interval : Z) (n : nat) : Z :=
  match n with O => 0 | S n => issued interval n + subsidy_at interval (Z.of_nat n) end.

Definition period_subsidy (k : nat) : Z := if 64 <=? Z.of_nat k then 0 else 5000000000 / 2 ^ Z.of_nat k.
Fixpoint periods (m : nat) : Z :=
  match m with O => 0 | S m => periods m + period_subsidy m end.

Lemma subsidy_at_eq interval height : 0 <= height -> 0 < interval ->
  subsidy_at interval height = period_subsidy (Z.to_nat (height / interval)).
Proof.
  intros. unfold subsidy_at. rewrite block_subsidy_eq by done. unfold period_subsidy.
  rewrite Z2Nat.id by (apply Z.div_pos; lia). done.
Qed.

Lemma period_subsidy_nonneg k : 0 <= period_subsidy k.
Proof.
  unfold period_subsidy. case_match; [done|]. apply Z.div_pos; [lia|].
  apply Z.pow_pos_nonneg; lia.
Qed.

Lemma issued_mono interval n m : 0 < interval -> (n <= m)%nat ->
  issued interval n <= issued interval m.
Proof.
  intros Hi. induction 1 as [|m _ IH]; [done|]. cbn [issued].
  rewrite subsidy_at_eq by lia. pose proof (period_subsidy_nonneg (Z.to_nat (Z.of_nat m / interval))). lia.
Qed.

(** Within a period every block pays the period's subsidy. *)
Lemma issued_in_period (i k r : nat) : (r <= i)%nat -> (0 < i)%nat ->
  issued (Z.of_nat i) (k * i + r) = issued (Z.of_nat i) (k * i) + Z.of_nat r * period_subsidy k.
Proof.
  intros Hr Hi. induction r as [|r IH]; [rewrite Nat.add_0_r; lia|].
  rewrite Nat.add_succ_r. cbn [issued]. rewrite IH, subsidy_at_eq by lia.
  replace (Z.to_nat (Z.of_nat (k * i + r) / Z.of_nat i)) with k; [lia|].
  rewrite <-Nat2Z.inj_div, Nat2Z.id. rewrite Nat.div_add_l by lia. rewrite Nat.div_small by lia. lia.
Qed.

Lemma issued_periods (i m : nat) : (0 < i)%nat ->
  issued (Z.of_nat i) (m * i) = Z.of_nat i * periods m.
Proof.
  intros Hi. induction m as [|m IH]; [cbn; lia|]. cbn [periods].
  rewrite Nat.mul_succ_l, issued_in_period, IH by lia. lia.
Qed.

Lemma periods_limit m : (33 <= m)%nat -> periods m = 9999999989.
Proof.
  induction 1 as [|m Hm IH]; [done|]. cbn [periods]. rewrite IH.
  unfold period_subsidy. case_bools; [lia|].
  rewrite Z.div_small; [lia|]. split; [lia|].
  apply Z.lt_le_trans with (2 ^ 33); [done|]. apply Z.pow_le_mono_r; lia.
Qed.

Lemma issued_limit (i n : nat) : (0 < i)%nat -> issued (Z.of_nat i) n <= Z.of_nat i * 9999999989.
Proof.
  intros Hi. rewrite <-(periods_limit (33 + n)) by lia. rewrite <-issued_periods by done.
  apply issued_mono; [lia|]. nia.
Qed.

(** ** Regtest arguments *)

Lemma parse_digits_range acc s n : 0 <= acc -> parse_digits acc s = Some n -> 0 <= n.
Proof.
  revert acc; induction s as [|c s IH]; intros acc Hacc; cbn [parse_digits]; [naive_solver|].
  destruct (digit_value c) as [d|] eqn:Hd; [|done]. destruct (_ <=? u32_max); [|done].
  apply IH. unfold digit_value in Hd. repeat case_match; simplify_eq. lia.
Qed.

Lemma parse_u32_range s n : parse_u32 s = Some n -> 0 <= n.
Proof.
  unfold parse_u32. repeat case_match; intros Hp; try done;
    eapply parse_digits_range in Hp; done || lia.
Qed.

Lemma parse_height_ok {E} text : exists o, parse_height (E:=E) text = Ok o /\
  forall h, o = Some h -> 0 <= h < Height.MAX.
Proof.
  unfold parse_height. destruct (parse_u32 text) as [n|] eqn:Hp; [|eexists; split; [done|naive_solver]].
  apply parse_u32_range in Hp. destruct (Z.leb_spec Height.MAX n).
  - eexists; split; [done|naive_solver].
  - unfold Height.new. rewrite (proj2 (Z.leb_le _ _)) by lia. run.
    eexists; split; [done|]. intros h [= <-]. lia.
Qed.

(** ** Properties *)

(** For every tabled chain, every height and every ancestor the node may
    pass, [rules_at] returns (its assertions hold): the script flags are a
    coherent subset of the mandatory set, each buried flag and each activation
    is on exactly from its height, the version floor is 1 to 4, the subsidy is
    at most 50 BTC, and only mainnet ever leaves the BIP30 scan. *)
Theorem rules_at_sound `{BitcoinCrate} p height hash ancestor :
  tabled p -> Height.valid height -> honest_ancestor p height ancestor ->
  exists r, rules_at (E:=Empty_set) p height hash ancestor = Ok r /\
    flags_coherent (rules_script_flags r) /\
    ScriptFlags.is_subset_of (rules_script_flags r) ScriptFlags.MANDATORY = true /\
    ScriptFlags.contains (rules_script_flags r) ScriptFlags.DERSIG
      = (buried_bip66 (buried p) <=? height) /\
    ScriptFlags.contains (rules_script_flags r) ScriptFlags.CHECKLOCKTIMEVERIFY
      = (buried_bip65 (buried p) <=? height) /\
    ScriptFlags.contains (rules_script_flags r) ScriptFlags.CHECKSEQUENCEVERIFY = csv_active r /\
    ScriptFlags.contains (rules_script_flags r) ScriptFlags.NULLDUMMY = segwit_active r /\
    csv_active r = (buried_csv (buried p) <=? height) /\
    segwit_active r = (buried_segwit (buried p) <=? height) /\
    1 <= version_floor r <= 4 /\ 0 <= subsidy r <= 50 * COIN /\
    (rules_bip30 r <> Enforce -> chain p = Mainnet).
Proof.
  intros Htab [Hh0 _] Hanc. pose proof (tabled_ok p Htab) as Hok.
  destruct (rules_at_eq (E:=Empty_set) p height hash ancestor Hok Hh0 Hanc)
    as (base & floor & b & sub & Heq & Hbase & Hfloor & Hb & Hsub).
  eexists; split; [exact Heq|].
  cbn [rules_script_flags csv_active segwit_active version_floor subsidy rules_bip30].
  destruct (script_flags_base_ok (E:=Empty_set) p hash Hok) as (f & Hf & Hsubset & Hcoh & _).
  rewrite Hbase in Hf; injection Hf as <-.
  unfold ScriptFlags.DERSIG, ScriptFlags.CHECKLOCKTIMEVERIFY,
    ScriptFlags.CHECKSEQUENCEVERIFY, ScriptFlags.NULLDUMMY.
  rewrite !ScriptFlags.contains_flag, !block_flags_bit, !base_bit by (done || lia).
  cbn [Z.eqb Pos.eqb]. rewrite !andb_false_r, !andb_true_r, !orb_false_r, !orb_false_l.
  destruct (version_floor_at_eq (E:=Empty_set) p height) as (fl & Hfl & Hflr & _).
  rewrite Hfloor in Hfl; injection Hfl as <-.
  rewrite block_subsidy_eq in Hsub by (try apply (ok_halving p Hok); lia).
  assert (Hmain : b <> Enforce -> chain p = Mainnet).
  { clear -Htab Hb. intros Hne. destruct Htab as [g p Hp|g c p Hp|g o p Hp];
      unfold mainnet, signet, regtest in Hp; inv_ok; [done|exfalso..];
      cbn in Hb; by injection Hb as <-. }
  split_and!; auto using block_flags_coherent, block_flags_mandatory; injection Hsub as <-.
  all: pose proof (subsidy_range height (halving_interval p) Hh0 (ok_halving p Hok)); tauto.
Qed.

(** Mainnet issues at most 20999999.97690000 BTC, whatever the height: the
    subsidies of the first [n] heights sum to no more, and to exactly that from
    the thirty-third halving on. *)
Theorem mainnet_issuance (n : nat) :
  issued 210000 n <= 2099999997690000 /\
  issued 210000 (Z.to_nat (33 * 210000) + n) = 2099999997690000.
Proof.
  set (i := Z.to_nat 210000). change 210000 with (Z.of_nat i) at 1 2.
  assert (Hi : (0 < i)%nat) by (unfold i; lia).
  assert (HI : Z.of_nat i * 9999999989 = 2099999997690000) by (unfold i; rewrite Z2Nat.id by lia; done).
  pose proof (issued_limit i n Hi). split; [lia|].
  pose proof (issued_limit i (Z.to_nat (33 * 210000) + n) Hi).
  pose proof (issued_mono (Z.of_nat i) (33 * i) (Z.to_nat (33 * 210000) + n)) as Hm.
  rewrite issued_periods, (periods_limit 33), HI in Hm by lia.
  enough (2099999997690000 <= issued (Z.of_nat i) (Z.to_nat (33 * 210000) + n)) by lia.
  apply Hm; [lia|]. unfold i. lia.
Qed.

(** ** Concrete instances

    A crate whose block hash is a constant: enough to run the constructors, which only
    check the genesis hash against the table. *)

Definition constant_crate (hash : bytes) : BitcoinCrate := {|
  block_hash _ := hash;
  compute_txid _ := hash;
  compute_wtxid _ := hash;
  base_size _ := 0;
  total_size _ := 0;
  outpoint_null := mkOutPoint (repeat x00 32) u32_max;
  is_null o := op_vout o =? u32_max;
  is_coinbase tx := match tx_input tx with [i] => op_vout (previous_output i) =? u32_max | _ => false end;
|}.

Definition some_genesis : Block :=
  mkBlock (mkHeader 1 [] [] 1231006505 0x1d00ffff 2083236893) [mkTransaction 1 0 [] []].

Definition some_params (o : outcome Empty_set ChainParams) : ChainParams :=
  match o with
  | Ok p => p
  | _ => mkChainParams Mainnet some_genesis TARGET_ZERO 0 0 false false false 0
           (mkBuried (mkBip34 0 None) 0 0 0 0) [] [] NoChallenge
  end.

Definition mainnet_params : ChainParams :=
  some_params (@mainnet (constant_crate MAINNET_GENESIS_HASH) Empty_set some_genesis).

Lemma mainnet_tabled : @tabled (constant_crate MAINNET_GENESIS_HASH) mainnet_params.
Proof. eapply tabled_mainnet with (g := some_genesis). vm_compute. reflexivity. Qed.

Lemma rules_at_sound_witness :
  exists r, rules_at (E:=Empty_set) mainnet_params 840000 [] None = Ok r /\ subsidy r = 312500000.
Proof.
  destruct (@rules_at_sound (constant_crate MAINNET_GENESIS_HASH) mainnet_params 840000 [] None)
    as (r & Hr & _).
  - exact mainnet_tabled.
  - split; vm_compute; congruence.
  - intros [h Hh]. discriminate.
  - exists r. split; [exact Hr|]. vm_compute in Hr. injection Hr as <-. reflexivity.
Defined.
