(* ===== verification/Header.v ===== *)
(** * Header: retargeting, median time past and the two header stages
    ([consensus/src/header/retarget.rs], [consensus/src/header/mod.rs]) *)
From stdpp Require Import sorting.
From S2P Require Import Prelude Uint Target Bitcoin Flags Params.

(** ** [retarget.rs] *)

Definition MEDIAN_TIME_SPAN : Z := 11.

Record HeaderFacts := mkFacts { f_height : Z; f_bits : Z; f_time : Z }.

Definition from_header (height : Z) (header : Header) : HeaderFacts :=
  mkFacts height (hdr_bits header) (hdr_time header).

(** [sort_unstable] on integers: any sorting algorithm gives the same list. *)
Definition sort_unstable (l : list Z) : list Z := merge_sort (≤) l.

Definition median_time_past {E} (times : list Z) : outcome E Z :=
  assert_ (negb (bool_decide (times = [])));;
  assert_ (len times <=? MEDIAN_TIME_SPAN);;
  let window := sort_unstable times in
  expect (get window (len times / 2)).

(** [for pair in period.windows(2)]. *)
Fixpoint assert_consecutive {E} (period : list HeaderFacts) : outcome E unit :=
  match period with
  | earlier :: (later :: _) as rest =>
      n ← Height.next (f_height earlier);
      assert_ (n =? f_height later);;
      assert_consecutive rest
  | _ => Ok tt
  end.

Definition check_period {E} (period : list HeaderFacts) (interval : Z) : outcome E HeaderFacts :=
  assert_ (negb (len period =? 0));;
  assert_ (len period <=? interval);;
  first ← expect (head period);
  boundary ← Height.is_retarget_boundary (f_height first) interval;
  assert_ boundary;;
  previous ← expect (last period);
  expected_len ← u32 (f_height previous mod interval + 1);
  assert_ (len period =? expected_len);;
  assert_consecutive period;;
  Ok previous.

(** [for facts in period.iter().rev()], with the panic that follows the loop. *)
Fixpoint last_hard_bits {E} (interval pow_limit_bits : Z) (rev_period : list HeaderFacts)
    : outcome E Z :=
  match rev_period with
  | [] => Panic
  | facts :: rest =>
      is_boundary ← Height.is_retarget_boundary (f_height facts) interval;
      if is_boundary || negb (f_bits facts =? pow_limit_bits) then Ok (f_bits facts)
      else last_hard_bits interval pow_limit_bits rest
  end.

Definition min_difficulty_bits {E} (params : ChainParams) (period : list HeaderFacts)
    (new_block_time pow_limit_bits : Z) : outcome E Z :=
  previous ← expect (last period);
  timespan ← BlockTime.timespan_since new_block_time (f_time previous);
  twice ← i64 (2 * pow_target_spacing params);
  if twice <? timespan then Ok pow_limit_bits
  else
    interval ← difficulty_adjustment_interval params;
    last_hard_bits interval pow_limit_bits (reverse period).

Record Retarget := mkRetarget {
  rt_pow_limit : Target;
  rt_target_timespan : Z;
  rt_no_retargeting : bool;
  rt_enforce_bip94 : bool;
}.

Definition assert_multiply_fits {E} (self : Retarget) : outcome E unit :=
  assert_ (0 <? rt_target_timespan self);;
  if rt_no_retargeting self then Ok tt
  else
    largest ← i64 (4 * rt_target_timespan self);
    largest ← expect (try_from u64_max largest);
    let limit := target_to_uint (rt_pow_limit self) in
    assert_ (bool_decide (is_Some (U256.checked_mul_u64 limit largest))).

(** [Retarget::of]. *)
Definition retarget_of {E} (params : ChainParams) : outcome E Retarget :=
  let retarget := {|
    rt_pow_limit := pow_limit params;
    rt_target_timespan := pow_target_timespan params;
    rt_no_retargeting := no_retargeting params;
    rt_enforce_bip94 := enforce_bip94 params |} in
  assert_multiply_fits retarget;;
  Ok retarget.

(** [r.expect(..)] on a [Result]. *)
Definition unwrap {E F A} (r : outcome F A) : outcome E A :=
  match r with Ok a => Ok a | _ => Panic end.

Definition calculate_next_bits {E} (rules : Retarget) (previous first : HeaderFacts)
    : outcome E Z :=
  if rt_no_retargeting rules then Ok (f_bits previous)
  else
    assert_ (f_height first <? f_height previous);;
    let target_timespan := rt_target_timespan rules in
    span ← BlockTime.timespan_since (f_time previous) (f_time first);
    longest ← i64 (target_timespan * 4);
    actual_timespan ← clamp span (Z.quot target_timespan 4) longest;
    assert_ (0 <? actual_timespan);;
    let base := if rt_enforce_bip94 rules then f_bits first else f_bits previous in
    base ← unwrap (decode_target base (rt_pow_limit rules));
    actual ← expect (try_from u64_max actual_timespan);
    product ← expect (U256.checked_mul_u64 (target_to_uint base) actual);
    divisor ← expect (try_from u64_max target_timespan);
    scaled ← U256.div_u64 product divisor;
    let limit := target_to_uint (rt_pow_limit rules) in
    let capped := if U256.lt limit scaled then limit else scaled in
    next ← encode_target (uint_to_target capped);
    assert_ (is_ok (decode_target next (rt_pow_limit rules)));;
    Ok next.

Definition next_required_bits {E} (params : ChainParams) (period : list HeaderFacts)
    (new_block_time : Z) : outcome E Z :=
  interval ← difficulty_adjustment_interval params;
  previous ← check_period period interval;
  pow_limit_bits ← encode_target (pow_limit params);
  next ← Height.next (f_height previous);
  boundary ← Height.is_retarget_boundary next interval;
  if negb boundary then
    if allow_min_difficulty params
    then min_difficulty_bits params period new_block_time pow_limit_bits
    else Ok (f_bits previous)
  else
    assert_ (len period =? interval);;
    first ← expect (head period);
    rules ← retarget_of params;
    calculate_next_bits rules previous first.

(** ** [header/mod.rs] *)

Definition MAX_TIMEWARP : Z := 600.
Definition MAX_FUTURE_BLOCK_TIME : Z := 2 * 60 * 60.

Record Context := mkContext {
  ctx_height : Z;
  ctx_median_time_past : Z;
  ctx_previous_time : Z;
  ctx_required_bits : Z;
  ctx_rules : Rules;
}.

(** [Context::new]. *)
Definition new_context {E} (height median_time_past previous_time required_bits : Z)
    (rules : Rules) : outcome E Context :=
  assert_ (Height.GENESIS <? height);;
  Ok (mkContext height median_time_past previous_time required_bits rules).

Inductive HeaderError :=
| InvalidTarget (e : TargetError)
| HighHash
| BadDiffBits (required : Z)
| TimeTooOld (median_time_past : Z)
| Timewarp (previous_time : Z)
| BadVersion (version floor : Z).

Section stages.
Context `{BitcoinCrate}.

Definition check_header (header : Header) (params : ChainParams) : outcome HeaderError unit :=
  target ← map_err InvalidTarget (decode_target (hdr_bits header) (pow_limit params));
  if negb (hash_meets_target (block_hash header) target) then Err HighHash else Ok tt.

(** The BIP94 branch of [accept_header]. *)
Definition check_timewarp (params : ChainParams) (context : Context) (time : Z)
    : outcome HeaderError unit :=
  if enforce_bip94 params then
    interval ← difficulty_adjustment_interval params;
    boundary ← Height.is_retarget_boundary (ctx_height context) interval;
    if negb boundary then Ok tt
    else
      span ← BlockTime.timespan_since time (ctx_previous_time context);
      if span <? - MAX_TIMEWARP then Err (Timewarp (ctx_previous_time context)) else Ok tt
  else Ok tt.

Definition accept_header (header : Header) (params : ChainParams) (context : Context)
    : outcome HeaderError unit :=
  if negb (hdr_bits header =? ctx_required_bits context)
  then Err (BadDiffBits (ctx_required_bits context))
  else
    let time := hdr_time header in
    if time <=? ctx_median_time_past context
    then Err (TimeTooOld (ctx_median_time_past context))
    else
      check_timewarp params context time;;
      let version := hdr_version header in
      let floor := version_floor (ctx_rules context) in
      if version <? floor then Err (BadVersion version floor) else Ok tt.

End stages.

(** ** Median time past *)

Lemma sort_unstable_perm l : sort_unstable l ≡ₚ l.
Proof. apply merge_sort_Permutation. Qed.

Lemma sort_unstable_sorted l : StronglySorted Z.le (sort_unstable l).
Proof. apply StronglySorted_merge_sort; typeclasses eauto || (intros ???; lia). Qed.

Lemma sort_unstable_ext l k : l ≡ₚ k -> sort_unstable l = sort_unstable k.
Proof.
  intros Hp. eapply (StronglySorted_unique Z.le); eauto using sort_unstable_sorted.
  by rewrite !sort_unstable_perm.
Qed.

(** The element of a sorted list at an index has few elements below and few above it. *)
Lemma sorted_rank (l : list Z) (i : nat) (m : Z) : StronglySorted Z.le l -> l !! i = Some m ->
  (length (filter (fun x : Z => (x < m)%Z) l) <= i)%nat /\
  (length (filter (fun x : Z => (m < x)%Z) l) <= length l - i - 1)%nat.
Proof.
  intros Hs. revert i; induction Hs as [|x l Hs IH Hx]; intros i Hi; [done|].
  rewrite Forall_forall in Hx. rewrite !filter_cons. destruct i as [|i]; cbn in Hi.
  - injection Hi as ->. rewrite !decide_False by lia.
    pose proof (length_filter (fun x : Z => m < x) l).
    split; [|cbn; lia]. apply Nat.eq_le_incl, length_zero_iff_nil, elem_of_nil_inv.
    intros y [Hy Hyl%Hx]%list_elem_of_filter. lia.
  - destruct (IH i Hi) as [H1 H2].
    apply list_elem_of_lookup_2 in Hi as Hm%Hx. rewrite (decide_False (P := m < x)) by lia.
    destruct (decide (x < m)); cbn; lia.
Qed.

Lemma median_eq {E} times : times <> [] -> len times <= MEDIAN_TIME_SPAN ->
  exists m, median_time_past (E:=E) times = Ok m /\
    sort_unstable times !! (length times / 2)%nat = Some m.
Proof.
  intros Hne Hl. unfold median_time_past. rewrite bool_decide_eq_false_2 by done. run.
  rewrite (proj2 (Z.leb_le _ _)) by done. run.
  assert (Hlen : length (sort_unstable times) = length times) by (by rewrite sort_unstable_perm).
  assert (0 < length times)%nat by (destruct times; [done|cbn; lia]).
  assert (Hdiv : Z.to_nat (len times / 2) = (length times / 2)%nat)
    by (unfold len; change 2 with (Z.of_nat 2); by rewrite <-Nat2Z.inj_div, Nat2Z.id).
  destruct (get_in_range (sort_unstable times) (len times / 2)) as [m Hm].
  { unfold len in *. rewrite Hlen. split; [apply Z.div_pos; lia|apply Z.div_lt_upper_bound; lia]. }
  exists m. rewrite Hm. split; [done|]. unfold get in Hm. rewrite Hdiv in Hm.
  by destruct (0 <=? _).
Qed.

(** ** Periods *)

(** Consecutive heights from [h]. *)
Fixpoint heights_from (h : Z) (period : list HeaderFacts) : Prop :=
  match period with
  | [] => True
  | f :: rest => f_height f = h /\ heights_from (h + 1) rest
  end.

(** The slice of headers Core would have walked: consecutive heights from the [k]th
    boundary, no more than a period of them, none at the last representable height. *)
Definition period_at (interval k : Z) (period : list HeaderFacts) : Prop :=
  0 <= k /\ heights_from (k * interval) period /\ 0 < len period <= interval /\
  k * interval + len period <= Height.MAX.

Lemma boundary_eq {E} h interval : 0 < interval ->
  Height.is_retarget_boundary (E:=E) h interval = Ok (h mod interval =? 0).
Proof. intros. unfold Height.is_retarget_boundary. by rewrite (proj2 (Z.ltb_lt _ _)) by done. Qed.

Lemma next_eq {E} h : h < Height.MAX -> Height.next (E:=E) h = Ok (h + 1).
Proof.
  intros. unfold Height.next. rewrite (proj2 (Z.ltb_lt h Height.MAX)) by done. run.
  by rewrite (proj2 (Z.ltb_lt h (h + 1))) by lia.
Qed.

Lemma heights_last h period f : heights_from h period -> last period = Some f ->
  f_height f = h + len period - 1.
Proof.
  revert h; induction period as [|g rest IH]; intros h; [done|]. intros [Hg Hr] Hl.
  rewrite len_cons. destruct rest as [|g' rest]; [injection Hl as ->; rewrite len_nil; lia|].
  rewrite (IH (h + 1)) by done. lia.
Qed.

Lemma assert_consecutive_ok {E} h period : heights_from h period -> 0 <= h ->
  h + len period <= Height.MAX -> assert_consecutive (E:=E) period = Ok tt.
Proof.
  revert h; induction period as [|f rest IH]; intros h; [done|]. intros [Hf Hr] Hh Hmax.
  rewrite len_cons in Hmax. destruct rest as [|g rest]; [done|].
  rewrite len_cons in Hmax. pose proof (len_nonneg rest).
  change (assert_consecutive (E:=E) (f :: g :: rest)) with
    (n ← Height.next (E:=E) (f_height f);
     assert_ (n =? f_height g);; assert_consecutive (g :: rest)).
  rewrite Hf, next_eq by lia. run.
  destruct Hr as [Hg Hr]. rewrite Hg, Z.eqb_refl. run.
  apply (IH (h + 1)); [done|lia|]. rewrite len_cons. lia.
Qed.

Lemma period_head interval k period : period_at interval k period ->
  exists first rest, period = first :: rest /\ f_height first = k * interval.
Proof.
  intros (_ & Hh & [Hp _] & _). destruct period as [|f rest]; [done|].
  exists f, rest. by destruct Hh.
Qed.

Lemma period_last interval k period : period_at interval k period ->
  exists previous, last period = Some previous /\ previous ∈ period /\
    f_height previous = k * interval + len period - 1.
Proof.
  intros (_ & Hh & [Hp _] & _). destruct (last period) as [f|] eqn:Hl.
  - exists f. split_and!; [done|by apply last_Some_elem_of|by apply heights_last].
  - apply last_None in Hl as ->. done.
Qed.

Lemma check_period_ok {E} interval k period previous : interval <= u32_max ->
  period_at interval k period -> last period = Some previous ->
  check_period (E:=E) period interval = Ok previous.
Proof.
  intros Hu Hp Hl. destruct (period_head _ _ _ Hp) as (first & rest & Heq & Hf).
  destruct Hp as (Hk & Hh & Hlen & Hmax). pose proof (heights_last _ _ _ Hh Hl) as Hpv.
  unfold check_period. rewrite (proj2 (Z.eqb_neq _ 0)), (proj2 (Z.leb_le _ _)) by lia. run.
  replace (head period) with (Some first) by (by rewrite Heq). run. rewrite boundary_eq, Hf, Z.mod_mul by lia. run. rewrite Hl. run.
  replace (f_height previous) with (len period - 1 + k * interval) by lia.
  rewrite Z.mod_add, Z.mod_small, u32_ok by lia. run.
  replace (len period - 1 + 1) with (len period) by lia. rewrite Z.eqb_refl. run.
  by erewrite assert_consecutive_ok by (done || nia).
Qed.

(** ** Retargeting *)

Record retarget_ok (r : Retarget) : Prop := {
  rt_limit_wf : target_wf (rt_pow_limit r);
  rt_timespan_pos : 0 < rt_target_timespan r < 2 ^ 61;
  rt_timespan_4 : rt_target_timespan r mod 4 = 0;
  rt_fits : rt_no_retargeting r = false ->
    target_val (rt_pow_limit r) * (4 * rt_target_timespan r) < 2 ^ 256;
}.

(** The exact retarget: the base target scaled by the clamped timespan, at most the limit. *)
Definition clamped_span (timespan span : Z) : Z :=
  Z.max (timespan / 4) (Z.min (timespan * 4) span).
Definition exact_retarget (limit timespan base span : Z) : Z :=
  Z.min limit (base * clamped_span timespan span / timespan).

Lemma assert_multiply_fits_ok {E} r : retarget_ok r -> assert_multiply_fits (E:=E) r = Ok tt.
Proof.
  intros [Hw Hp _ Hf]. unfold assert_multiply_fits. rewrite (proj2 (Z.ltb_lt _ _)) by lia. run.
  destruct (rt_no_retargeting r); [done|]. specialize (Hf eq_refl).
  rewrite i64_ok by lia. run. rewrite try_from_ok by (unfold u64_max; lia). run.
  destruct (target_to_uint_spec _ Hw) as [Hu Hv].
  pose proof (U256.checked_mul_u64_spec (target_to_uint (rt_pow_limit r))
    (4 * rt_target_timespan r) Hu ltac:(lia)) as Hm.
  destruct (U256.checked_mul_u64 _ _); [done|lia].
Qed.

Lemma encode_exact {E} limit u : target_wf limit -> U256.wf u ->
  0 < U256.to_Z u <= target_val limit ->
  exists c t, encode_target (E:=E) (uint_to_target u) = Ok c /\ is_u32 c /\
    decode_target c limit = Ok t /\ target_val t = compact_value c /\
    0 < compact_value c <= U256.to_Z u /\
    (forall b, is_u32 b -> compact_value b <= U256.to_Z u -> compact_value b <= compact_value c).
Proof.
  intros Hl Hu Hr. destruct (uint_to_target_spec u Hu) as (Hw & Hv & _).
  destruct (encode_target_spec (E:=E) _ Hw) as (c & Hc & Hcu & Hs & Hle & Hmax).
  rewrite Hv in Hle, Hmax. pose proof (target_val_range _ Hl).
  assert (H1 : compact_value 0x01010000 = 1) by (by vm_compute).
  pose proof (Hmax 0x01010000 ltac:(lia) ltac:(lia)).
  exists c, (mkTarget (be_bytes 32 (compact_value c))).
  destruct (mkTarget_val (compact_value c)) as [_ Ht]; [lia|].
  split; [done|]. split; [done|]. split; [|split; [done|split; [lia|done]]].
  rewrite decode_target_eq by done. unfold decode_spec. rewrite Hs.
  case_bools; (lia || done).
Qed.

Lemma clamped_span_range timespan span : 0 < timespan -> timespan mod 4 = 0 ->
  0 < clamped_span timespan span <= timespan * 4 /\ timespan <= 4 * clamped_span timespan span.
Proof. intros. unfold clamped_span. dlia. Qed.

Lemma calculate_next_bits_eq {E} r previous first base t :
  retarget_ok r -> rt_no_retargeting r = false ->
  f_height first < f_height previous ->
  BlockTime.valid (f_time previous) -> BlockTime.valid (f_time first) ->
  base = (if rt_enforce_bip94 r then f_bits first else f_bits previous) ->
  is_u32 base -> decode_target base (rt_pow_limit r) = Ok t -> 4 <= target_val t ->
  let exact := exact_retarget (target_val (rt_pow_limit r)) (rt_target_timespan r)
    (compact_value base) (f_time previous - f_time first) in
  exists c t', calculate_next_bits (E:=E) r previous first = Ok c /\ is_u32 c /\
    decode_target c (rt_pow_limit r) = Ok t' /\ target_val t' = compact_value c /\
    0 < compact_value c <= exact /\
    (forall b, is_u32 b -> compact_value b <= exact -> compact_value b <= compact_value c).
Proof.
  intros [Hw Hp H4 Hf] Hn Hh Hpt Hft Hbase Hb Hdec Hbig exact. specialize (Hf Hn).
  destruct (decode_target_Ok base (rt_pow_limit r) t Hb Hw Hdec) as (Htw & Htv & Htr).
  destruct (clamped_span_range (rt_target_timespan r) (f_time previous - f_time first))
    as [Hc1 Hc2]; [lia|done|].
  unfold calculate_next_bits. rewrite Hn, (proj2 (Z.ltb_lt _ _)) by done. run.
  rewrite BlockTime.timespan_since_eq by done. run. rewrite i64_ok by lia. run.
  rewrite Z.quot_div_nonneg by lia. rewrite clamp_ok by dlia. run.
  fold (clamped_span (rt_target_timespan r) (f_time previous - f_time first)).
  unfold exact, exact_retarget. rewrite <-Htv in *.
  set (span := clamped_span _ _) in *. rewrite (proj2 (Z.ltb_lt 0 span)) by lia. run.
  rewrite <-Hbase, Hdec. cbn [unwrap]. run.
  rewrite !try_from_ok by (unfold u64_max; lia). run.
  destruct (target_to_uint_spec t Htw) as [Hu Huv].
  pose proof (U256.checked_mul_u64_spec (target_to_uint t) span Hu ltac:(lia)) as Hm.
  rewrite Huv in Hm. destruct (U256.checked_mul_u64 _ _) as [prod|]; [|nia]. run.
  destruct Hm as [Hmw Hmv].
  destruct (U256.div_u64_spec (E:=E) prod (rt_target_timespan r) Hmw ltac:(lia))
    as (q & -> & Hq & Hqv). run. rewrite Hmv in Hqv.
  destruct (target_to_uint_spec _ Hw) as [Hlu Hlv].
  assert (Hq1 : 1 <= U256.to_Z q) by (rewrite Hqv; apply Z.div_le_lower_bound; nia).
  rewrite U256.lt_spec, Hlv by done.
  destruct (encode_exact (E:=E) (rt_pow_limit r)
    (if target_val (rt_pow_limit r) <? U256.to_Z q then target_to_uint (rt_pow_limit r) else q))
    as (c & t' & Hc & Hcu & Hcd & Hrest); [done|by destruct (_ <? _)| |].
  { destruct (Z.ltb_spec (target_val (rt_pow_limit r)) (U256.to_Z q)); lia. }
  exists c, t'. rewrite Hc. run. rewrite Hcd. run. do 3 (split; [done|]).
  rewrite <-Hqv. replace (Z.min _ _) with (U256.to_Z
    (if target_val (rt_pow_limit r) <? U256.to_Z q then target_to_uint (rt_pow_limit r) else q));
    [done|].
  destruct (Z.ltb_spec (target_val (rt_pow_limit r)) (U256.to_Z q)); lia.
Qed.

(** ** [next_required_bits] on the chains the crate tables *)

Definition retarget_rules (p : ChainParams) : Retarget :=
  mkRetarget (pow_limit p) (pow_target_timespan p) (no_retargeting p) (enforce_bip94 p).

Lemma tabled_retarget `{BitcoinCrate} p : tabled p ->
  retarget_ok (retarget_rules p) /\ 2 * pow_target_spacing p <= pow_target_timespan p.
Proof.
  destruct 1 as [g p Hp|g c p Hp|g o p Hp]; unfold mainnet, signet, regtest in Hp; inv_ok;
    (split; [constructor; cbn -[Z.mul Z.pow Z.modulo]|]);
    try (vm_compute; repeat split; congruence).
Qed.

Lemma tabled_interval {E} `{BitcoinCrate} p : tabled p ->
  exists n, difficulty_adjustment_interval (E:=E) p = Ok n /\ 2 <= n <= u32_max.
Proof.
  intros Ht. destruct (difficulty_adjustment_interval_ok (E:=E) p (tabled_ok p Ht))
    as (n & Hn & Hr & Heq).
  destruct (tabled_retarget p Ht) as [_ Hs]. exists n. split; [done|].
  pose proof (ok_spacing p (tabled_ok p Ht)). nia.
Qed.

Lemma retarget_of_ok {E} p : retarget_ok (retarget_rules p) ->
  retarget_of (E:=E) p = Ok (retarget_rules p).
Proof. intros Hr. unfold retarget_of. fold (retarget_rules p). by rewrite assert_multiply_fits_ok. Qed.

(** A header the chain accepted: its [nBits] decodes under the limit, its target is not
    one of the three below which dividing by four would reach zero. *)
Definition facts_ok (limit : Target) (f : HeaderFacts) : Prop :=
  is_u32 (f_bits f) /\ BlockTime.valid (f_time f) /\
  exists t, decode_target (f_bits f) limit = Ok t /\ 4 <= target_val t.

Lemma last_hard_bits_ok {E} interval limit_bits rev h : 0 < interval ->
  last rev = Some h -> f_height h mod interval = 0 ->
  exists f, last_hard_bits (E:=E) interval limit_bits rev = Ok (f_bits f) /\ f ∈ rev.
Proof.
  intros Hi. induction rev as [|f rest IH]; [done|]. intros Hl Hb. cbn [last_hard_bits].
  rewrite boundary_eq by done. run. destruct (_ || _) eqn:Hstop.
  - exists f. split; [done|set_solver].
  - destruct rest as [|g rest].
    + injection Hl as ->. by rewrite Hb in Hstop.
    + destruct (IH Hl Hb) as (f' & -> & ?). exists f'. split; [done|set_solver].
Qed.

Lemma min_difficulty_bits_ok {E} p interval k period time limit_bits :
  difficulty_adjustment_interval (E:=E) p = Ok interval -> period_at interval k period ->
  Forall (facts_ok (pow_limit p)) period -> BlockTime.valid time ->
  0 < pow_target_spacing p < 2 ^ 61 ->
  exists c, min_difficulty_bits (E:=E) p period time limit_bits = Ok c /\
    (c = limit_bits \/ exists f, f ∈ period /\ c = f_bits f).
Proof.
  intros Hi Hp Hok Ht Hs. destruct (period_last _ _ _ Hp) as (prev & Hl & Hin & _).
  destruct (period_head _ _ _ Hp) as (first & rest & Heq & Hf). destruct Hp as (Hk & _ & Hlen & _).
  rewrite Forall_forall in Hok. destruct (Hok prev Hin) as (_ & Hpt & _).
  unfold min_difficulty_bits. rewrite Hl. run. rewrite BlockTime.timespan_since_eq by done. run.
  rewrite i64_ok by lia. run. destruct (_ <? _); [eauto|]. rewrite Hi. run.
  destruct (last_hard_bits_ok (E:=E) interval limit_bits (reverse period) first) as (f & -> & Hfin).
  - lia.
  - by rewrite Heq, reverse_cons, last_snoc.
  - by rewrite Hf, Z.mod_mul by lia.
  - exists (f_bits f). split; [done|]. right. exists f. split; [|done]. by rewrite elem_of_reverse in Hfin.
Qed.

Lemma limit_bits_ok {E} p : params_ok p -> exists c t, encode_target (E:=E) (pow_limit p) = Ok c /\
  is_u32 c /\ decode_target c (pow_limit p) = Ok t.
Proof.
  intros Hok. destruct (ok_pow_limit p Hok) as [Hw Hpos].
  destruct (target_to_uint_spec _ Hw) as [Hu Hv].
  destruct (encode_exact (E:=E) (pow_limit p) (target_to_uint (pow_limit p)) Hw Hu) as
    (c & t & Hc & Hcu & Hd & _); [lia|].
  exists c, t. split; [|done]. rewrite <-Hc. f_equal.
  unfold uint_to_target, target_to_uint. rewrite U256.to_from_be_bytes by done.
  by destruct (pow_limit p).
Qed.

Lemma next_required_bits_mid {E} p interval k period previous time : params_ok p ->
  pow_target_spacing p < 2 ^ 61 ->
  difficulty_adjustment_interval (E:=E) p = Ok interval -> interval <= u32_max ->
  period_at interval k period -> last period = Some previous -> len period < interval ->
  Forall (facts_ok (pow_limit p)) period -> BlockTime.valid time ->
  exists c t, next_required_bits (E:=E) p period time = Ok c /\ is_u32 c /\
    decode_target c (pow_limit p) = Ok t /\
    (allow_min_difficulty p = false -> c = f_bits previous).
Proof.
  intros Hok Hs Hi Hu Hp Hl Hlt Hf Ht. unfold next_required_bits. rewrite Hi. run.
  erewrite check_period_ok by done. run.
  destruct (limit_bits_ok (E:=E) p Hok) as (lb & lt & -> & Hlu & Hld). run.
  pose proof Hp as (Hk & Hh & Hlen & Hmax). pose proof (heights_last _ _ _ Hh Hl) as Hpv.
  rewrite next_eq by lia. run. rewrite boundary_eq by lia. run.
  replace (f_height previous + 1) with (len period + k * interval) by lia.
  rewrite Z.mod_add, Z.mod_small, (proj2 (Z.eqb_neq _ 0)) by lia. run.
  assert (Hbits : forall f, f ∈ period -> is_u32 (f_bits f) /\
    exists t, decode_target (f_bits f) (pow_limit p) = Ok t).
  { intros f Hin. rewrite Forall_forall in Hf. destruct (Hf f Hin) as (? & _ & t & ? & _). eauto. }
  destruct (allow_min_difficulty p).
  - destruct (min_difficulty_bits_ok (E:=E) p interval k period time lb Hi Hp Hf Ht)
      as (c & -> & Hc); [pose proof (ok_spacing p Hok); lia|].
    destruct Hc as [->|(f & Hin & ->)]; [by exists lb, lt|].
    destruct (Hbits f Hin) as (? & t & ?). by exists (f_bits f), t.
  - destruct (Hbits previous) as (? & t & ?); [by apply last_Some_elem_of|].
    by exists (f_bits previous), t.
Qed.

Lemma next_required_bits_end {E} p interval k period first previous time : params_ok p ->
  retarget_ok (retarget_rules p) ->
  difficulty_adjustment_interval (E:=E) p = Ok interval -> interval <= u32_max ->
  period_at interval k period -> head period = Some first -> last period = Some previous ->
  len period = interval ->
  next_required_bits (E:=E) p period time = calculate_next_bits (retarget_rules p) previous first.
Proof.
  intros Hok Hr Hi Hu Hp Hhd Hl Hlen. unfold next_required_bits. rewrite Hi. run.
  erewrite check_period_ok by done. run.
  destruct (limit_bits_ok (E:=E) p Hok) as (lb & lt & -> & _). run.
  destruct Hp as (Hk & Hh & ? & Hmax). pose proof (heights_last _ _ _ Hh Hl) as Hpv.
  rewrite next_eq by lia. run. rewrite boundary_eq by lia. run.
  replace (f_height previous + 1) with (0 + (k + 1) * interval) by lia.
  rewrite Z.mod_add, Z.mod_small by lia. cbn [Z.eqb negb]. run.
  rewrite Hlen, Z.eqb_refl. run. rewrite Hhd. run. by rewrite retarget_of_ok.
Qed.

Lemma next_required_bits_spec {E} `{BitcoinCrate} p interval k period first previous time :
  tabled p -> difficulty_adjustment_interval (E:=E) p = Ok interval ->
  period_at interval k period -> head period = Some first -> last period = Some previous ->
  Forall (facts_ok (pow_limit p)) period -> BlockTime.valid time ->
  let base := if enforce_bip94 p then f_bits first else f_bits previous in
  let exact := exact_retarget (target_val (pow_limit p)) (pow_target_timespan p)
    (compact_value base) (f_time previous - f_time first) in
  exists c t, next_required_bits (E:=E) p period time = Ok c /\ is_u32 c /\
    decode_target c (pow_limit p) = Ok t /\
    (len period < interval -> allow_min_difficulty p = false -> c = f_bits previous) /\
    (len period = interval -> no_retargeting p = true -> c = f_bits previous) /\
    (len period = interval -> no_retargeting p = false -> compact_value c <= exact /\
      forall b, is_u32 b -> compact_value b <= exact -> compact_value b <= compact_value c).
Proof.
  intros Ht Hi Hp Hhd Hl Hf Htime base exact. pose proof (tabled_ok p Ht) as Hok.
  destruct (tabled_interval (E:=E) p Ht) as (n & Hn & Hr). rewrite Hi in Hn.
  injection Hn as <-. destruct (tabled_retarget p Ht) as [Hrt Hs].
  pose proof (rt_timespan_pos _ Hrt) as Hspan. cbn in Hspan.
  pose proof (ok_spacing p Hok). pose proof Hp as (_ & Hh & Hlen & _).
  destruct (decide (len period < interval)) as [Hlt|Hge].
  { destruct (next_required_bits_mid (E:=E) p interval k period previous time)
      as (c & t & Hc & Hu & Hd & Hprev); try done; [lia..|].
    exists c, t. split; [done|]. split; [done|]. split; [done|]. split; [auto|]. split; lia. }
  assert (Hfp : facts_ok (pow_limit p) previous /\ facts_ok (pow_limit p) first).
  { rewrite Forall_forall in Hf. split; apply Hf; [by apply last_Some_elem_of|].
    destruct period; simplify_eq/=. set_solver. }
  destruct Hfp as [(Hpu & Hpt & tp & Hpd & Hp4) (Hfu & Hft & tf & Hfd & Hf4)].
  rewrite (next_required_bits_end p interval k period first previous time Hok Hrt Hi)
    by (done || lia).
  destruct (no_retargeting p) eqn:Hnr.
  { exists (f_bits previous), tp. unfold calculate_next_bits. cbn [retarget_rules rt_no_retargeting].
    rewrite Hnr. split; [done|]. split; [done|]. split; [done|]. split; [lia|]. by split. }
  destruct (calculate_next_bits_eq (E:=E) (retarget_rules p) previous first base
    (if enforce_bip94 p then tf else tp) Hrt) as (c & t & Hc & Hu & Hd & _ & Hle & Hmax); try done.
  - pose proof (heights_last _ _ _ Hh Hl). destruct period; [done|]. destruct Hh as [Hh _].
    simplify_eq/=. lia.
  - unfold base; cbn. by destruct (enforce_bip94 p).
  - unfold base. cbn. by destruct (enforce_bip94 p).
  - by destruct (enforce_bip94 p).
  - exists c, t. split; [done|]. split; [done|]. split; [done|]. split; [lia|]. split; [done|].
    intros _ _. split; [apply Hle|apply Hmax].
Qed.

(** ** Properties *)

(** The median time past of up to eleven timestamps never panics, is one of them, has
    at most half of them below it and at most half (rounding up, less one) above it, and
    does not depend on the order they are given in. *)
Theorem median_time_past_rank times times' : times <> [] -> len times <= MEDIAN_TIME_SPAN ->
  times' ≡ₚ times ->
  exists m, median_time_past (E:=Empty_set) times = Ok m /\
    median_time_past (E:=Empty_set) times' = Ok m /\ m ∈ times /\
    len (filter (fun x => x < m) times) <= len times / 2 /\
    len (filter (fun x => m < x) times) <= (len times - 1) / 2.
Proof.
  intros Hne Hl Hp. destruct (median_eq (E:=Empty_set) times Hne Hl) as (m & Hm & Hidx).
  exists m. split; [done|]. split; [|split].
  - rewrite <-Hm. unfold median_time_past, len. rewrite (sort_unstable_ext _ _ Hp), (Permutation_length Hp).
    rewrite !bool_decide_eq_false_2; [done|done|]. intros ->. by apply Permutation_nil_l in Hp.
  - rewrite <-sort_unstable_perm. by eapply list_elem_of_lookup_2.
  - destruct (sorted_rank _ _ _ (sort_unstable_sorted times) Hidx) as [H1 H2].
    rewrite !sort_unstable_perm in H1. rewrite !sort_unstable_perm in H2.
    unfold len. pose proof (Nat.div_mod_eq (length times) 2).
    pose proof (Nat.mod_upper_bound (length times) 2 ltac:(lia)).
    assert (length times <> 0)%nat by (by destruct times). split; dlia.
Qed.

Lemma median_time_past_rank_witness :
  exists m, median_time_past (E:=Empty_set) [5; 1; 9; 3] = Ok m /\ m ∈ [5; 1; 9; 3].
Proof.
  destruct (median_time_past_rank [5; 1; 9; 3] [3; 9; 1; 5]) as (m & Hm & _ & Hin & _).
  - discriminate.
  - vm_compute. congruence.
  - symmetry. exact (Permutation_rev [5; 1; 9; 3]).
  - exists m. split; [exact Hm|exact Hin].
Defined.


(** A mainnet period mined every ten minutes at the limit. *)
Definition steady_period : list HeaderFacts :=
  map (fun i => mkFacts i 0x1d00ffff (1231006505 + 600 * i)) (seqZ 0 2016).

Lemma heights_from_seqZ b g h n : 0 <= n ->
  heights_from h (map (fun i => mkFacts i b (g i)) (seqZ h n)).
Proof.
  intros Hn. rewrite <-(Z2Nat.id n Hn). generalize (Z.to_nat n). intros m. revert h.
  induction m as [|m IH]; intros h; [done|].
  rewrite seqZ_cons by lia. cbn [map heights_from f_height]. split; [done|].
  replace (Z.pred (Z.of_nat (S m))) with (Z.of_nat m) by lia. apply IH.
Qed.


Section stage_lemmas.
Context `{BitcoinCrate}.

Lemma check_header_eq header p : is_u32 (hdr_bits header) -> target_wf (pow_limit p) ->
  length (block_hash header) = 32%nat ->
  check_header header p =
    match decode_spec (hdr_bits header) (pow_limit p) with
    | Ok _ => if le_val (block_hash header) <=? compact_value (hdr_bits header)
              then Ok tt else Err HighHash
    | Err e => Err (InvalidTarget e)
    | Panic => Panic
    end.
Proof.
  intros Hb Hw Hh. unfold check_header. rewrite <-decode_target_eq by done.
  destruct (decode_target _ _) as [t|e|] eqn:Hd; [|done..]. run.
  destruct (decode_target_Ok _ _ _ Hb Hw Hd) as (Htw & Htv & _).
  rewrite hash_meets_target_eq, Htv by done. by destruct (_ <=? _).
Qed.

Lemma check_timewarp_eq p ctx time interval : 0 < interval ->
  difficulty_adjustment_interval (E:=HeaderError) p = Ok interval ->
  BlockTime.valid time -> BlockTime.valid (ctx_previous_time ctx) ->
  check_timewarp p ctx time =
    if enforce_bip94 p && (ctx_height ctx mod interval =? 0) &&
       (time <? ctx_previous_time ctx - MAX_TIMEWARP)
    then Err (Timewarp (ctx_previous_time ctx)) else Ok tt.
Proof.
  intros Hpos Hi Ht Hp. unfold check_timewarp. destruct (enforce_bip94 p); [|done].
  rewrite Hi. run. rewrite boundary_eq by done. run.
  destruct (_ mod _ =? 0); run; [|done]. rewrite BlockTime.timespan_since_eq by done. run.
  destruct (Z.ltb_spec (time - ctx_previous_time ctx) (- MAX_TIMEWARP)),
    (Z.ltb_spec time (ctx_previous_time ctx - MAX_TIMEWARP)); done || lia.
Qed.

End stage_lemmas.

(** C27. On every tabled chain the two header stages never panic, and together they accept
    exactly the headers whose [nBits] is the required encoding of a positive target at most
    the limit, whose hash is at most that target, whose time is after the median time past
    and, where BIP94 opens a period, not more than ten minutes before its predecessor,
    and whose version is at least the floor. *)
Theorem header_stages_iff `{BitcoinCrate} p interval header ctx : tabled p ->
  difficulty_adjustment_interval (E:=HeaderError) p = Ok interval ->
  is_u32 (hdr_bits header) -> BlockTime.valid (hdr_time header) ->
  BlockTime.valid (ctx_previous_time ctx) -> length (block_hash header) = 32%nat ->
  check_header header p <> Panic /\ accept_header header p ctx <> Panic /\
  (check_header header p = Ok tt /\ accept_header header p ctx = Ok tt <->
    compact_sign (hdr_bits header) = false /\
    0 < compact_value (hdr_bits header) <= target_val (pow_limit p) /\
    le_val (block_hash header) <= compact_value (hdr_bits header) /\
    hdr_bits header = ctx_required_bits ctx /\
    ctx_median_time_past ctx < hdr_time header /\
    (enforce_bip94 p = true -> ctx_height ctx mod interval = 0 ->
      ctx_previous_time ctx - MAX_TIMEWARP <= hdr_time header) /\
    version_floor (ctx_rules ctx) <= hdr_version header).
Proof.
  intros Ht Hi Hb Htime Hprev Hh. pose proof (tabled_ok p Ht) as Hok.
  destruct (ok_pow_limit p Hok) as [Hw _].
  destruct (tabled_interval (E:=HeaderError) p Ht) as (n & Hn & Hr). rewrite Hi in Hn.
  injection Hn as <-. rewrite check_header_eq by done.
  unfold accept_header. rewrite (check_timewarp_eq p ctx _ interval) by (done || lia).
  pose proof (target_val_range _ Hw). pose proof (compact_value_nonneg _ Hb). unfold decode_spec.
  split; [repeat case_match; done|]. split; [repeat (case_match; try done)|].
  destruct (compact_sign _); [naive_solver|].
  destruct (Z.leb_spec (2 ^ 256) (compact_value (hdr_bits header))); [intuition (done || lia)|].
  destruct (Z.eqb_spec (compact_value (hdr_bits header)) 0); [intuition (done || lia)|].
  destruct (Z.ltb_spec (target_val (pow_limit p)) (compact_value (hdr_bits header)));
    [intuition (done || lia)|].
  destruct (Z.leb_spec (le_val (block_hash header)) (compact_value (hdr_bits header)));
    [|intuition (done || lia)].
  destruct (Z.eqb_spec (hdr_bits header) (ctx_required_bits ctx)); cbn [negb];
    [|intuition (done || lia)].
  destruct (Z.leb_spec (hdr_time header) (ctx_median_time_past ctx)); [intuition (done || lia)|].
  destruct (enforce_bip94 p), (Z.eqb_spec (ctx_height ctx mod interval) 0),
    (Z.ltb_spec (hdr_time header) (ctx_previous_time ctx - MAX_TIMEWARP)),
    (Z.ltb_spec (hdr_version header) (version_floor (ctx_rules ctx))); run;
    intuition (done || lia).
Qed.

Lemma header_stages_iff_witness :
  let header := mkHeader 4 [] [] 1231006506 0x1d00ffff 0 in
  let ctx := mkContext 1 1231006505 1231006505 0x1d00ffff (mkRules ScriptFlags.NONE 1 false false false Enforce 0) in
  @check_header (constant_crate MAINNET_GENESIS_HASH) header mainnet_params = Ok tt /\
  accept_header header mainnet_params ctx = Ok tt.
Proof.
  apply (@header_stages_iff (constant_crate MAINNET_GENESIS_HASH) mainnet_params 2016
    (mkHeader 4 [] [] 1231006506 0x1d00ffff 0)
    (mkContext 1 1231006505 1231006505 0x1d00ffff (mkRules ScriptFlags.NONE 1 false false false Enforce 0))).
  - exact mainnet_tabled.
  - vm_compute. reflexivity.
  - vm_compute. split; congruence.
  - vm_compute. split; congruence.
  - vm_compute. split; congruence.
  - reflexivity.
  - vm_compute. repeat split; congruence.
Defined.
