(* ===== verification/Script.v ===== *)
(** * Script: errors, opcode bytes and signature versions
    ([consensus/src/script/error.rs], [opcode.rs], [mod.rs]) *)
From Stdlib Require Import String.
From S2P Require Import Prelude.

(** ** [error.rs] *)

Module ScriptError.

Inductive ScriptError :=
| EvalFalse
| Verify
| Equalverify
| Checkmultisigverify
| Checksigverify
| Numequalverify
| ScriptSize
| PushSize
| OpCount
| StackSize
| SigCount
| PubkeyCount
| BadOpcode
| DisabledOpcode
| InvalidStackOperation
| InvalidAltstackOperation
| OpReturn
| UnbalancedConditional
| NegativeLocktime
| UnsatisfiedLocktime
| SigDer
| SigPushonly
| SigNulldummy
| Cleanstack
| WitnessProgramWrongLength
| WitnessProgramWitnessEmpty
| WitnessProgramMismatch
| WitnessMalleated
| WitnessMalleatedP2sh
| WitnessUnexpected
| SchnorrSigSize
| SchnorrSigHashtype
| SchnorrSig
| TaprootWrongControlSize
| TapscriptValidationWeight
| TapscriptCheckmultisig
| TapscriptMinimalif
| TapscriptEmptyPubkey
| Scriptnum.

#[global] Instance ScriptError_eq_dec : EqDecision ScriptError.
Proof. solve_decision. Defined.

Definition name (self : ScriptError) : string :=
  match self with
  | EvalFalse => "EVAL_FALSE"
  | Verify => "VERIFY"
  | Equalverify => "EQUALVERIFY"
  | Checkmultisigverify => "CHECKMULTISIGVERIFY"
  | Checksigverify => "CHECKSIGVERIFY"
  | Numequalverify => "NUMEQUALVERIFY"
  | ScriptSize => "SCRIPT_SIZE"
  | PushSize => "PUSH_SIZE"
  | OpCount => "OP_COUNT"
  | StackSize => "STACK_SIZE"
  | SigCount => "SIG_COUNT"
  | PubkeyCount => "PUBKEY_COUNT"
  | BadOpcode => "BAD_OPCODE"
  | DisabledOpcode => "DISABLED_OPCODE"
  | InvalidStackOperation => "INVALID_STACK_OPERATION"
  | InvalidAltstackOperation => "INVALID_ALTSTACK_OPERATION"
  | OpReturn => "OP_RETURN"
  | UnbalancedConditional => "UNBALANCED_CONDITIONAL"
  | NegativeLocktime => "NEGATIVE_LOCKTIME"
  | UnsatisfiedLocktime => "UNSATISFIED_LOCKTIME"
  | SigDer => "SIG_DER"
  | SigPushonly => "SIG_PUSHONLY"
  | SigNulldummy => "SIG_NULLDUMMY"
  | Cleanstack => "CLEANSTACK"
  | WitnessProgramWrongLength => "WITNESS_PROGRAM_WRONG_LENGTH"
  | WitnessProgramWitnessEmpty => "WITNESS_PROGRAM_WITNESS_EMPTY"
  | WitnessProgramMismatch => "WITNESS_PROGRAM_MISMATCH"
  | WitnessMalleated => "WITNESS_MALLEATED"
  | WitnessMalleatedP2sh => "WITNESS_MALLEATED_P2SH"
  | WitnessUnexpected => "WITNESS_UNEXPECTED"
  | SchnorrSigSize => "SCHNORR_SIG_SIZE"
  | SchnorrSigHashtype => "SCHNORR_SIG_HASHTYPE"
  | SchnorrSig => "SCHNORR_SIG"
  | TaprootWrongControlSize => "TAPROOT_WRONG_CONTROL_SIZE"
  | TapscriptValidationWeight => "TAPSCRIPT_VALIDATION_WEIGHT"
  | TapscriptCheckmultisig => "TAPSCRIPT_CHECKMULTISIG"
  | TapscriptMinimalif => "TAPSCRIPT_MINIMALIF"
  | TapscriptEmptyPubkey => "TAPSCRIPT_EMPTY_PUBKEY"
  | Scriptnum => "SCRIPTNUM"
  end%string.

(** The vectors compare errors by name, which loses nothing. *)
Lemma name_inj a b : name a = name b -> a = b.
Proof. destruct a, b; (reflexivity || discriminate). Qed.

End ScriptError.
Notation ScriptError := ScriptError.ScriptError.

(** ** [mod.rs] *)

Inductive SigVersion := Base | WitnessV0 | Tapscript.

#[global] Instance SigVersion_eq_dec : EqDecision SigVersion.
Proof. solve_decision. Defined.

(** ** [opcode.rs] *)

Definition OP_0 : Z := 0x00.
Definition OP_PUSHDATA1 : Z := 0x4c.
Definition OP_PUSHDATA2 : Z := 0x4d.
Definition OP_PUSHDATA4 : Z := 0x4e.
Definition OP_1NEGATE : Z := 0x4f.
Definition OP_RESERVED : Z := 0x50.
Definition OP_1 : Z := 0x51.
Definition OP_16 : Z := 0x60.
Definition OP_NOP : Z := 0x61.
Definition OP_VER : Z := 0x62.
Definition OP_IF : Z := 0x63.
Definition OP_NOTIF : Z := 0x64.
Definition OP_VERIF : Z := 0x65.
Definition OP_VERNOTIF : Z := 0x66.
Definition OP_ELSE : Z := 0x67.
Definition OP_ENDIF : Z := 0x68.
Definition OP_VERIFY : Z := 0x69.
Definition OP_RETURN : Z := 0x6a.
Definition OP_TOALTSTACK : Z := 0x6b.
Definition OP_FROMALTSTACK : Z := 0x6c.
Definition OP_2DROP : Z := 0x6d.
Definition OP_2DUP : Z := 0x6e.
Definition OP_3DUP : Z := 0x6f.
Definition OP_2OVER : Z := 0x70.
Definition OP_2ROT : Z := 0x71.
Definition OP_2SWAP : Z := 0x72.
Definition OP_IFDUP : Z := 0x73.
Definition OP_DEPTH : Z := 0x74.
Definition OP_DROP : Z := 0x75.
Definition OP_DUP : Z := 0x76.
Definition OP_NIP : Z := 0x77.
Definition OP_OVER : Z := 0x78.
Definition OP_PICK : Z := 0x79.
Definition OP_ROLL : Z := 0x7a.
Definition OP_ROT : Z := 0x7b.
Definition OP_SWAP : Z := 0x7c.
Definition OP_TUCK : Z := 0x7d.
Definition OP_CAT : Z := 0x7e.
Definition OP_SUBSTR : Z := 0x7f.
Definition OP_LEFT : Z := 0x80.
Definition OP_RIGHT : Z := 0x81.
Definition OP_SIZE : Z := 0x82.
Definition OP_INVERT : Z := 0x83.
Definition OP_AND : Z := 0x84.
Definition OP_OR : Z := 0x85.
Definition OP_XOR : Z := 0x86.
Definition OP_EQUAL : Z := 0x87.
Definition OP_EQUALVERIFY : Z := 0x88.
Definition OP_RESERVED1 : Z := 0x89.
Definition OP_RESERVED2 : Z := 0x8a.
Definition OP_1ADD : Z := 0x8b.
Definition OP_1SUB : Z := 0x8c.
Definition OP_2MUL : Z := 0x8d.
Definition OP_2DIV : Z := 0x8e.
Definition OP_NEGATE : Z := 0x8f.
Definition OP_ABS : Z := 0x90.
Definition OP_NOT : Z := 0x91.
Definition OP_0NOTEQUAL : Z := 0x92.
Definition OP_ADD : Z := 0x93.
Definition OP_SUB : Z := 0x94.
Definition OP_MUL : Z := 0x95.
Definition OP_DIV : Z := 0x96.
Definition OP_MOD : Z := 0x97.
Definition OP_LSHIFT : Z := 0x98.
Definition OP_RSHIFT : Z := 0x99.
Definition OP_BOOLAND : Z := 0x9a.
Definition OP_BOOLOR : Z := 0x9b.
Definition OP_NUMEQUAL : Z := 0x9c.
Definition OP_NUMEQUALVERIFY : Z := 0x9d.
Definition OP_NUMNOTEQUAL : Z := 0x9e.
Definition OP_LESSTHAN : Z := 0x9f.
Definition OP_GREATERTHAN : Z := 0xa0.
Definition OP_LESSTHANOREQUAL : Z := 0xa1.
Definition OP_GREATERTHANOREQUAL : Z := 0xa2.
Definition OP_MIN : Z := 0xa3.
Definition OP_MAX : Z := 0xa4.
Definition OP_WITHIN : Z := 0xa5.
Definition OP_RIPEMD160 : Z := 0xa6.
Definition OP_SHA1 : Z := 0xa7.
Definition OP_SHA256 : Z := 0xa8.
Definition OP_HASH160 : Z := 0xa9.
Definition OP_HASH256 : Z := 0xaa.
Definition OP_CODESEPARATOR : Z := 0xab.
Definition OP_CHECKSIG : Z := 0xac.
Definition OP_CHECKSIGVERIFY : Z := 0xad.
Definition OP_CHECKMULTISIG : Z := 0xae.
Definition OP_CHECKMULTISIGVERIFY : Z := 0xaf.
Definition OP_NOP1 : Z := 0xb0.
Definition OP_CHECKLOCKTIMEVERIFY : Z := 0xb1.
Definition OP_CHECKSEQUENCEVERIFY : Z := 0xb2.
Definition OP_NOP4 : Z := 0xb3.
Definition OP_NOP5 : Z := 0xb4.
Definition OP_NOP6 : Z := 0xb5.
Definition OP_NOP7 : Z := 0xb6.
Definition OP_NOP8 : Z := 0xb7.
Definition OP_NOP9 : Z := 0xb8.
Definition OP_NOP10 : Z := 0xb9.
Definition OP_CHECKSIGADD : Z := 0xba.
Definition OP_INVALIDOPCODE : Z := 0xff.

Module Opcode.

Definition is_push (opcode : Z) : bool := opcode <=? OP_PUSHDATA4.

Definition is_disabled (opcode : Z) : bool :=
  existsb (Z.eqb opcode)
    [OP_CAT; OP_SUBSTR; OP_LEFT; OP_RIGHT; OP_INVERT; OP_AND; OP_OR; OP_XOR;
     OP_2MUL; OP_2DIV; OP_MUL; OP_DIV; OP_MOD; OP_LSHIFT; OP_RSHIFT].

(** [a..=b] of a [matches!] pattern. *)
Definition in_range (a b opcode : Z) : bool := (a <=? opcode) && (opcode <=? b).

Definition is_success (opcode : Z) : bool :=
  (opcode =? OP_RESERVED) || (opcode =? OP_VER) || in_range OP_CAT OP_RIGHT opcode ||
  in_range OP_INVERT OP_XOR opcode || in_range OP_RESERVED1 OP_RESERVED2 opcode ||
  in_range OP_2MUL OP_2DIV opcode || in_range OP_MUL OP_RSHIFT opcode ||
  in_range 0xbb 0xfe opcode.

Definition is_conditional (opcode : Z) : bool := (OP_IF <=? opcode) && (opcode <=? OP_ENDIF).

Definition counts_toward_op_limit (opcode : Z) : bool := OP_16 <? opcode.

Definition small_integer {E} (opcode : Z) : outcome E Z :=
  assert_ ((opcode =? OP_1NEGATE) || in_range OP_1 OP_16 opcode);;
  let value := opcode - (OP_1 - 1) in
  assert_ (-1 <=? value);;
  assert_ (value <=? 16);;
  assert_ (negb (value =? 0));;
  Ok value.

(** Every disabled opcode is one BIP342 reserved for upgrades, and none of the opcodes a
    tapscript may run is. *)
Lemma disabled_is_success opcode : is_disabled opcode = true -> is_success opcode = true.
Proof.
  unfold is_disabled. rewrite existsb_exists. intros (o & Ho & ->%Z.eqb_eq).
  repeat (destruct Ho as [<-|Ho]; [done|]). done.
Qed.

Lemma small_integer_ok {E} opcode : opcode = OP_1NEGATE \/ OP_1 <= opcode <= OP_16 ->
  small_integer (E:=E) opcode = Ok (opcode - 80) /\ -1 <= opcode - 80 <= 16.
Proof.
  unfold OP_1NEGATE, OP_1, OP_16. intros Ho.
  unfold small_integer, in_range, OP_1NEGATE, OP_1, OP_16. split; [|lia].
  change (0x51 - 1) with 80.
  rewrite (proj2 (Z.leb_le (-1) _)), (proj2 (Z.leb_le (opcode - 80) _)),
    (proj2 (Z.eqb_neq (opcode - 80) 0)) by lia.
  destruct (_ || _) eqn:Hr; [done|lia].
Qed.

End Opcode.
