(* ===== verification/ScriptNum.v ===== *)
(** * ScriptNum: script numbers and their truth values ([consensus/src/script/num.rs]) *)
From S2P Require Import Prelude Script.

Definition SCRIPTNUM_SIZE_MAX : Z := 4.
Definition SCRIPTNUM_LOCKTIME_SIZE_MAX : Z := 5.

Module ScriptNum.

Definition ZERO : Z := 0.
Definition ONE : Z := 1.

Definition decode (l : bytes) (size_max : Z) : outcome ScriptError Z :=
  assert_ (size_max <=? SCRIPTNUM_LOCKTIME_SIZE_MAX);;
  if size_max <? len l then Err ScriptError.Scriptnum
  else match last l with
  | None => Ok ZERO
  | Some last =>
      let magnitude := fold_left (fun magnitude '(index, byte) =>
        Z.lor magnitude (Z.shiftl (bz byte) (8 * index))) (enumerate l) 0 in
      let value :=
        if negb (Z.land (bz last) 0x80 =? 0) then
          let sign_bit := Z.shiftl 0x80 (8 * (len l - 1)) in
          - Z.land magnitude (Z.lnot sign_bit)
        else magnitude in
      assert_ (Z.abs value <? Z.shiftl 1 39);;
      Ok value
  end.

Definition from_i64 {E} (value : Z) : outcome E Z :=
  assert_ (Z.abs value <? Z.shiftl 1 40);;
  Ok value.

Definition from_usize {E} (value : Z) : outcome E Z := i64 value.

Definition from_bool (value : bool) : Z := if value then ONE else ZERO.

Definition to_clamped_i32 (self : Z) : Z :=
  if (- 2 ^ 31 <=? self) && (self <? 2 ^ 31) then self
  else if self <? 0 then - 2 ^ 31 else 2 ^ 31 - 1.

(** [while magnitude > 0]: a [u64] has eight bytes. *)
Fixpoint magnitude_bytes (fuel : nat) (magnitude : Z) : bytes :=
  match fuel with
  | O => []
  | S fuel =>
      if 0 <? magnitude
      then zb (Z.land magnitude 0xff) :: magnitude_bytes fuel (Z.shiftr magnitude 8)
      else []
  end.

Definition encode {E} (self : Z) : outcome E bytes :=
  if self =? 0 then Ok []
  else
    let negative := self <? 0 in
    let l := magnitude_bytes 8 (Z.abs self) in
    last ← expect (last l);
    let l :=
      if negb (Z.land (bz last) 0x80 =? 0)
      then l ++ [if negative then x80 else x00]
      else if negative
      then take (length l - 1) l ++ [zb (Z.lor (bz last) 0x80)]
      else l in
    assert_ (len l <=? 9);;
    Ok l.

Definition add {E} (a b : Z) : outcome E Z := i64 (a + b).
Definition sub {E} (a b : Z) : outcome E Z := i64 (a - b).
Definition neg {E} (a : Z) : outcome E Z := i64 (- a).
Definition abs {E} (a : Z) : outcome E Z := if a <? 0 then neg a else Ok a.
Definition is_zero (a : Z) : bool := a =? 0.

End ScriptNum.

(** [for (index, &byte) in bytes.iter().enumerate()], returning from inside the loop. *)
Fixpoint cast_to_bool_loop (size index : Z) (l : bytes) : bool :=
  match l with
  | [] => false
  | byte :: l =>
      if negb (bz byte =? 0) then
        let is_last := index =? size - 1 in
        if is_last && (bz byte =? 0x80) then false else true
      else cast_to_bool_loop size (index + 1) l
  end.

Definition cast_to_bool (l : bytes) : bool := cast_to_bool_loop (len l) 0 l.

(** ** Sign-magnitude numbers *)

Definition sm_val (l : bytes) : Z :=
  match last l with
  | None => 0
  | Some b =>
      if 128 <=? bz b then - (le_val l - 128 * 256 ^ (len l - 1)) else le_val l
  end.

Lemma fold_lor_le_val l i acc : 0 <= i -> 0 <= acc < 256 ^ i ->
  fold_left (fun magnitude '(index, byte) =>
    Z.lor magnitude (Z.shiftl (bz byte) (8 * index))) (enumerate_from i l) acc
  = acc + 256 ^ i * le_val l.
Proof.
  revert i acc; induction l as [|b l IH]; intros i acc Hi Hacc; cbn [enumerate_from fold_left le_val];
    [lia|].
  pose proof (bz_range b).
  assert (H256 : 256 ^ i = 2 ^ (8 * i)) by (rewrite Z.pow_mul_r by lia; done).
  assert (Hlor : Z.lor acc (Z.shiftl (bz b) (8 * i)) = acc + bz b * 256 ^ i).
  { rewrite Z.shiftl_mul_pow2, Z.lor_comm by lia.
    rewrite (lor_disjoint_add _ _ (8 * i)); [rewrite H256; lia|lia| |lia].
    apply Z.mod_mul. lia. }
  rewrite IH; rewrite ?Hlor; [|lia|]; rewrite Z.pow_add_r, Z.pow_1_r by lia; nia.
Qed.

Lemma last_le_val l b : last l = Some b ->
  exists k, l = k ++ [b] /\ le_val l = le_val k + 256 ^ len k * bz b /\ len l = len k + 1.
Proof.
  intros [k ->]%last_Some. exists k. rewrite le_val_app, len_app. split_and!; [done| |done].
  cbn [le_val]. unfold len. lia.
Qed.

Lemma land_0x80 b : (Z.land (bz b) 0x80 =? 0) = negb (128 <=? bz b).
Proof. by destruct b. Qed.

(** Clearing the sign bit subtracts it. *)
Lemma clear_bit x k : 0 <= k -> Z.testbit x k = true -> Z.land x (Z.lnot (2 ^ k)) = x - 2 ^ k.
Proof.
  intros Hk Hb. rewrite <-Z.ldiff_land. symmetry. apply Z.sub_nocarry_ldiff.
  apply Z.bits_inj'. intros n Hn. rewrite Z.ldiff_spec, Z.bits_0.
  destruct (decide (n = k)) as [->|]; [rewrite Hb; apply andb_false_r|].
  by rewrite Z.pow2_bits_false by lia.
Qed.

Lemma sm_val_bound l : Z.abs (sm_val l) < 128 * 256 ^ (len l - 1) \/ l = [].
Proof.
  destruct (last l) as [b|] eqn:Hl; [left|right; by apply last_None].
  unfold sm_val. rewrite Hl. destruct (last_le_val l b Hl) as (k & -> & -> & ->).
  pose proof (le_val_range k) as Hk. fold (len k) in Hk. pose proof (bz_range b).
  replace (len k + 1 - 1) with (len k) by lia. case_bools; nia.
Qed.

Lemma sign_testbit l b : last l = Some b -> 128 <= bz b ->
  Z.testbit (le_val l) (8 * (len l - 1) + 7) = true.
Proof.
  intros Hl Hb. destruct (last_le_val l b Hl) as (k & -> & -> & ->). pose proof (bz_range b).
  pose proof (le_val_range k) as Hk. fold (len k) in Hk. pose proof (len_nonneg k).
  replace (8 * (len k + 1 - 1) + 7) with (7 + 8 * len k) by lia.
  replace (256 ^ len k) with (2 ^ (8 * len k)) in * by (rewrite Z.pow_mul_r by lia; done).
  rewrite <-Z.div_pow2_bits by lia.
  replace (le_val k + 2 ^ (8 * len k) * bz b) with (le_val k + bz b * 2 ^ (8 * len k)) by ring.
  rewrite Z.div_add, Z.div_small by lia. clear -Hb. destruct b; try done; exfalso; revert Hb; by vm_compute.
Qed.

Lemma decode_eq l size_max : size_max <= 5 ->
  ScriptNum.decode l size_max =
    if size_max <? len l then Err ScriptError.Scriptnum else Ok (sm_val l).
Proof.
  intros Hs. unfold ScriptNum.decode, SCRIPTNUM_LOCKTIME_SIZE_MAX.
  rewrite (proj2 (Z.leb_le _ _)) by done. run.
  destruct (Z.ltb_spec size_max (len l)) as [|Hlen]; [done|].
  pose proof (sm_val_bound l) as Hb. unfold sm_val in *. destruct (last l) as [b|] eqn:Hl; [|done].
  destruct Hb as [Hb| ->]; [|done].
  unfold enumerate. rewrite fold_lor_le_val, Z.pow_0_r, Z.mul_1_l, Z.add_0_l, land_0x80,
    negb_involutive by lia.
  assert (Hpos : 1 <= len l) by (destruct l; [done|rewrite len_cons; pose proof (len_nonneg l); lia]).
  assert (Hsize : 128 * 256 ^ (len l - 1) <= 2 ^ 39).
  { change (2 ^ 39) with (128 * 256 ^ 4). apply Z.mul_le_mono_nonneg_l; [lia|].
    apply Z.pow_le_mono_r; lia. }
  revert Hb. destruct (Z.leb_spec 128 (bz b)) as [Hneg|]; intros Hb.
  - assert (Hsign : Z.shiftl 0x80 (8 * (len l - 1)) = 2 ^ (8 * (len l - 1) + 7))
      by (rewrite Z.shiftl_mul_pow2, Z.pow_add_r by lia; change (2 ^ 7) with 0x80; lia).
    assert (Hpow : 2 ^ (8 * (len l - 1) + 7) = 128 * 256 ^ (len l - 1))
      by (rewrite Z.pow_add_r, Z.pow_mul_r by lia; change (2 ^ 8) with 256; lia).
    rewrite Hsign, clear_bit by (lia || by apply sign_testbit with b). rewrite Hpow.
    change (Z.shiftl 1 39) with (2 ^ 39). rewrite (proj2 (Z.ltb_lt _ _)) by lia. done.
  - change (Z.shiftl 1 39) with (2 ^ 39). rewrite (proj2 (Z.ltb_lt _ _)) by lia. done.
Qed.

Lemma magnitude_bytes_spec fuel m : 0 < m < 256 ^ Z.of_nat fuel ->
  exists k b, ScriptNum.magnitude_bytes fuel m = k ++ [b] /\ 0 < bz b /\
    m = le_val k + 256 ^ len k * bz b /\ (length k < fuel)%nat.
Proof.
  revert m; induction fuel as [|fuel IH]; intros m Hm; [cbn in Hm; lia|].
  cbn [ScriptNum.magnitude_bytes]. rewrite (proj2 (Z.ltb_lt _ _)) by lia.
  rewrite Nat2Z.inj_succ, Z.pow_succ_r in Hm by lia.
  change 0xff with (Z.ones 8). rewrite Z.land_ones, Z.shiftr_div_pow2 by lia.
  change (2 ^ 8) with 256.
  assert (Hb : bz (zb (m mod 256)) = m mod 256) by (apply bz_zb_id, Z.mod_pos_bound; lia).
  destruct (Z.eq_dec (m / 256) 0) as [H0|Hne].
  - exists [], (zb (m mod 256)). rewrite H0, Hb.
    split_and!; [by destruct fuel|dlia|cbn [le_val]; change (len []) with 0; rewrite Z.pow_0_r; dlia|cbn; lia].
  - destruct (IH (m / 256)) as (k & b & -> & Hpos & Heq & Hlen).
    { split; [dlia|apply Z.div_lt_upper_bound; lia]. }
    exists (zb (m mod 256) :: k), b.
    split_and!; [done|done| |cbn; lia].
    cbn [le_val]. rewrite len_cons, Z.pow_add_r, Z.pow_1_r, Hb by (pose proof (len_nonneg k); lia).
    rewrite (Z.div_mod m 256) at 1 by lia. rewrite Heq at 1. ring.
Qed.

Lemma lor_0x80 b : bz b < 128 -> bz (zb (Z.lor (bz b) 0x80)) = bz b + 128.
Proof. destruct b; try (by vm_compute); intros H; exfalso; revert H; by vm_compute. Qed.

Lemma sm_val_snoc k b : sm_val (k ++ [b]) =
  if 128 <=? bz b then - (le_val k + 256 ^ len k * (bz b - 128)) else le_val k + 256 ^ len k * bz b.
Proof.
  unfold sm_val. rewrite last_snoc, le_val_app, len_app. cbn [le_val].
  change (len [b]) with 1. replace (len k + 1 - 1) with (len k) by lia. fold (len k).
  case_bools; unfold len; ring.
Qed.

(** What [encode] produces: a list whose value is the number, and no shorter one has it. *)
Lemma encode_spec {E} n : Z.abs n < 2 ^ 63 ->
  exists l, ScriptNum.encode (E:=E) n = Ok l /\ sm_val l = n /\ len l <= 9 /\
    (n = 0 -> l = []) /\ (n <> 0 -> 128 * 256 ^ (len l - 2) <= Z.abs n \/ len l = 1).
Proof.
  intros Hn. unfold ScriptNum.encode. destruct (Z.eqb_spec n 0) as [->|Hne].
  { exists []. split_and!; try done. }
  destruct (magnitude_bytes_spec 8 (Z.abs n)) as (k & b & -> & Hb & Hm & Hlen).
  { split; [lia|]. change (256 ^ Z.of_nat 8) with (2 ^ 64). lia. }
  rewrite last_snoc. run. rewrite land_0x80, negb_involutive.
  pose proof (bz_range b). pose proof (le_val_range k) as Hk. fold (len k) in Hk.
  pose proof (len_nonneg k) as Hk0.
  assert (Hp : 0 < 256 ^ len k) by (apply Z.pow_pos_nonneg; lia).
  assert (Hk7 : len k <= 7) by (unfold len; lia).
  destruct (Z.leb_spec 128 (bz b)) as [Hbig|Hsmall].
  - exists ((k ++ [b]) ++ [if n <? 0 then x80 else x00]).
    assert (Hl2 : len ((k ++ [b]) ++ [if n <? 0 then x80 else x00]) = len k + 2)
      by (rewrite !len_app; change (len [b]) with 1; change (len [_]) with 1; lia).
    rewrite Hl2, (proj2 (Z.leb_le _ _)) by lia. split; [done|].
    rewrite sm_val_snoc, le_val_app. cbn [le_val]. fold (len k).
    split_and!; [|lia|done|].
    + change (bz x80) with 128. destruct (Z.ltb_spec n 0);
        [change (128 <=? bz x80) with true|change (128 <=? bz x00) with false]; cbn iota;
        [change (bz x80) with 128|change (bz x00) with 0]; fold (len k); lia.
    + intros _. left. replace (len k + 2 - 2) with (len k) by lia. nia.
  - exists (k ++ [if n <? 0 then zb (Z.lor (bz b) 0x80) else b]).
    replace (if n <? 0 then _ else k ++ [b]) with (k ++ [if n <? 0 then zb (Z.lor (bz b) 0x80) else b]).
    2:{ destruct (n <? 0); [|done]. rewrite length_app. cbn [length].
        replace (length k + 1 - 1)%nat with (length k) by lia. by rewrite take_app_length. }
    rewrite len_app. change (len [_]) with 1. rewrite (proj2 (Z.leb_le _ _)) by lia.
    split; [done|]. rewrite sm_val_snoc.
    split_and!; [|lia|done|].
    + destruct (Z.ltb_spec n 0).
      * rewrite lor_0x80 by done. rewrite (proj2 (Z.leb_le _ _)) by lia. lia.
      * rewrite (proj2 (Z.leb_gt _ _)) by lia. lia.
    + intros _. destruct (Z.eq_dec (len k) 0) as [H0|]; [right; lia|left].
      replace (len k + 1 - 2) with (len k - 1) by lia.
      replace (len k) with (Z.succ (len k - 1)) in Hm by lia. rewrite Z.pow_succ_r in Hm by lia.
      pose proof (Z.pow_pos_nonneg 256 (len k - 1)). nia.
Qed.

Lemma encode_minimal {E} n l l' : ScriptNum.encode (E:=E) n = Ok l -> Z.abs n < 2 ^ 63 ->
  sm_val l' = n -> len l <= len l'.
Proof.
  intros He Hn Hv. destruct (encode_spec (E:=E) n Hn) as (k & Hk & _ & _ & H0 & Hlow).
  rewrite He in Hk. injection Hk as ->. pose proof (len_nonneg l').
  destruct (Z.eq_dec n 0) as [->|Hne]; [rewrite H0 by done; done|].
  destruct (sm_val_bound l') as [Hb| ->]; [|cbn in Hv; congruence]. rewrite Hv in Hb.
  assert (1 <= len l') by (destruct l'; [cbn in Hv; congruence|rewrite len_cons; pose proof (len_nonneg l'); lia]).
  destruct (Hlow Hne) as [Hl|Hl]; [|lia].
  destruct (Z.le_gt_cases (len k) (len l')); [done|exfalso].
  assert (256 ^ (len l' - 1) <= 256 ^ (len k - 2)) by (apply Z.pow_le_mono_r; lia). lia.
Qed.

Lemma encode_size {E} n l size : ScriptNum.encode (E:=E) n = Ok l -> Z.abs n < 2 ^ 63 ->
  1 <= size -> (len l <= size <-> Z.abs n < 128 * 256 ^ (size - 1)).
Proof.
  intros He Hn Hs. destruct (encode_spec (E:=E) n Hn) as (k & Hk & Hv & _ & H0 & Hlow).
  rewrite He in Hk. injection Hk as <-.
  assert (0 < 256 ^ (size - 1)) by (apply Z.pow_pos_nonneg; lia). split; intros Hsz.
  - destruct (sm_val_bound l) as [Hb| ->]; [|cbn in Hv; lia]. rewrite Hv in Hb.
    assert (256 ^ (len l - 1) <= 256 ^ (size - 1)) by (apply Z.pow_le_mono_r; lia). lia.
  - destruct (Z.eq_dec n 0) as [->|Hne]; [rewrite H0 by done; rewrite len_nil; lia|].
    destruct (Hlow Hne) as [Hl|Hl]; [|lia].
    destruct (Z.le_gt_cases (len l) size); [done|exfalso].
    assert (256 ^ (size - 1) <= 256 ^ (len l - 2)) by (apply Z.pow_le_mono_r; lia). lia.
Qed.

Lemma decode_encode n l : ScriptNum.encode (E:=ScriptError) n = Ok l -> Z.abs n < 2 ^ 31 ->
  ScriptNum.decode l SCRIPTNUM_SIZE_MAX = Ok n.
Proof.
  intros Hl Hn. destruct (encode_spec (E:=ScriptError) n) as (k & Hk & Hv & _); [lia|].
  rewrite Hl in Hk. injection Hk as <-. unfold SCRIPTNUM_SIZE_MAX. rewrite decode_eq, Hv by lia.
  pose proof (encode_size n l 4 Hl ltac:(lia) ltac:(lia)) as Hs.
  change (128 * 256 ^ (4 - 1)) with (2 ^ 31) in Hs.
  by rewrite (proj2 (Z.ltb_ge _ _)) by lia.
Qed.

(** ** Truth values *)

Lemma le_val_0 l : le_val l = 0 <-> Forall (fun b => bz b = 0) l.
Proof.
  induction l as [|b l IH]; cbn [le_val]; [split; auto|].
  pose proof (bz_range b). pose proof (le_val_range l). rewrite Forall_cons. rewrite <-IH. lia.
Qed.

Lemma cast_to_bool_loop_eq k b i size : size = i + len k + 1 ->
  cast_to_bool_loop size i (k ++ [b]) =
    negb ((le_val k =? 0) && ((bz b =? 0) || (bz b =? 128))).
Proof.
  revert i; induction k as [|c k IH]; intros i Hs; cbn [app cast_to_bool_loop le_val].
  - rewrite len_nil in Hs. rewrite (proj2 (Z.eqb_eq i (size - 1))) by lia. cbn [andb Z.eqb].
    destruct (Z.eqb_spec (bz b) 0), (Z.eqb_spec (bz b) 0x80), (Z.eqb_spec (bz b) 128); done || lia.
  - rewrite len_cons in Hs. pose proof (bz_range c). pose proof (le_val_range k).
    pose proof (len_nonneg k). rewrite IH by lia.
    destruct (Z.eqb_spec (bz c) 0) as [->|Hc]; cbn [negb].
    + by destruct (Z.eqb_spec (le_val k) 0), (Z.eqb_spec (0 + 256 * le_val k) 0); try lia.
    + rewrite (proj2 (Z.eqb_neq i _)), (proj2 (Z.eqb_neq (bz c + _) 0)) by lia. done.
Qed.

Lemma cast_to_bool_eq l : cast_to_bool l = negb (sm_val l =? 0).
Proof.
  destruct (last l) as [b|] eqn:Hl; [|apply last_None in Hl as ->; done].
  apply last_Some in Hl as [k ->]. unfold cast_to_bool.
  rewrite (cast_to_bool_loop_eq k b) by (rewrite len_app; done). rewrite sm_val_snoc. f_equal.
  pose proof (bz_range b). pose proof (le_val_range k) as Hk. fold (len k) in Hk.
  assert (0 < 256 ^ len k) by (apply Z.pow_pos_nonneg; [lia|apply len_nonneg]).
  destruct (Z.eqb_spec (le_val k) 0), (Z.eqb_spec (bz b) 0), (Z.eqb_spec (bz b) 128),
    (Z.leb_spec 128 (bz b)); cbn [andb orb]; symmetry; (apply Z.eqb_eq || apply Z.eqb_neq); nia.
Qed.

(** ** Properties *)

(** Script numbers: every number of 63 bits and a sign encodes without a panic; the
    encoding is the shortest byte string with that value; it decodes back to the number
    under an operand limit of four (five) bytes exactly when the magnitude is below
    [2^31] ([2^39]), and is [SCRIPTNUM] otherwise; and a byte string is true as a
    condition exactly when it is not a zero, negative zero included. *)
Theorem scriptnum_roundtrip n : Z.abs n < 2 ^ 63 ->
  exists l, ScriptNum.encode (E:=ScriptError) n = Ok l /\
    (forall l', sm_val l' = n -> len l <= len l') /\
    ScriptNum.decode l SCRIPTNUM_SIZE_MAX =
      (if Z.abs n <? 2 ^ 31 then Ok n else Err ScriptError.Scriptnum) /\
    ScriptNum.decode l SCRIPTNUM_LOCKTIME_SIZE_MAX =
      (if Z.abs n <? 2 ^ 39 then Ok n else Err ScriptError.Scriptnum) /\
    cast_to_bool l = negb (n =? 0) /\
    (forall l', cast_to_bool l' = negb (sm_val l' =? 0)).
Proof.
  intros Hn. destruct (encode_spec (E:=ScriptError) n Hn) as (l & He & Hv & _).
  exists l. split; [done|]. split; [intros l'; by apply (encode_minimal (E:=ScriptError) n l)|].
  unfold SCRIPTNUM_SIZE_MAX, SCRIPTNUM_LOCKTIME_SIZE_MAX. rewrite !decode_eq, Hv by lia.
  pose proof (encode_size n l 4 He Hn ltac:(lia)) as H4.
  pose proof (encode_size n l 5 He Hn ltac:(lia)) as H5.
  change (128 * 256 ^ (4 - 1)) with (2 ^ 31) in H4. change (128 * 256 ^ (5 - 1)) with (2 ^ 39) in H5.
  split_and!.
  - destruct (Z.ltb_spec 4 (len l)), (Z.ltb_spec (Z.abs n) (2 ^ 31)); done || lia.
  - destruct (Z.ltb_spec 5 (len l)), (Z.ltb_spec (Z.abs n) (2 ^ 39)); done || lia.
  - by rewrite cast_to_bool_eq, Hv.
  - apply cast_to_bool_eq.
Qed.

Lemma scriptnum_roundtrip_witness :
  exists l, ScriptNum.encode (E:=ScriptError) (-255) = Ok l /\ l = [xff; x80].
Proof.
  destruct (scriptnum_roundtrip (-255)) as (l & He & _); [vm_compute; reflexivity|].
  exists l. split; [exact He|]. vm_compute in He. congruence.
Defined.
