(* ===== verification/Reader.v ===== *)
(** * Reader: one opcode at a time ([consensus/src/script/reader.rs])

    Positions and sizes are [usize]; a script is a slice, so every position is at most
    [isize::MAX] and the additions below do not overflow. *)
From S2P Require Import Prelude Script.

Inductive OpRead :=
| ReadOp (opcode next : Z)
| Truncated (next : Z).

Definition size_field_len (opcode : Z) : Z :=
  if opcode =? OP_PUSHDATA1 then 1
  else if opcode =? OP_PUSHDATA2 then 2
  else if opcode =? OP_PUSHDATA4 then 4
  else 0.

Definition read_op {E} (script : bytes) (position : Z) : outcome E OpRead :=
  assert_ (position <? len script);;
  opcode ← expect (bz <$> get script position);
  let next := position + 1 in
  if OP_PUSHDATA4 <? opcode then Ok (ReadOp opcode next)
  else
    let field_len := size_field_len opcode in
    match slice script next (next + field_len) with
    | None => Ok (Truncated next)
    | Some size_field =>
        data_len ←
          (match size_field with
           | [] => Ok opcode
           | [_] | [_; _] | [_; _; _; _] => Ok (le_val size_field)
           | _ => Panic
           end);
        let next := next + field_len in
        assert_ (next <=? len script);;
        if len script - next <? data_len then Ok (Truncated next)
        else
          let next := next + data_len in
          assert_ (next <=? len script);;
          Ok (ReadOp opcode next)
    end.

Definition push_data {E} (script : bytes) (start next : Z) : outcome E bytes :=
  opcode ← expect (bz <$> get script start);
  let data_start := start + 1 + size_field_len opcode in
  assert_ (data_start <=? next);;
  expect (slice script data_start next).

Record Op := mkOp { op_opcode : Z; op_push : bytes; op_end : Z }.

Module Reader.

Record Reader := mkReader { script : bytes; position : Z; ops_read : Z }.

Definition new (script : bytes) : Reader := mkReader script 0 0.

(** [next_op(&mut self)]: [None] at the end of the script, [Some (inr e)] where it fails. *)
Definition next_op {E} (self : Reader) : outcome E (option (Op + ScriptError) * Reader) :=
  if len (script self) <=? position self then
    assert_ (position self =? len (script self));;
    Ok (None, self)
  else
    let start := position self in
    r ← read_op (script self) start;
    match r with
    | ReadOp opcode next =>
        assert_ (start <? next);;
        assert_ (next <=? len (script self));;
        ops ← u32 (ops_read self + 1);
        let self := mkReader (script self) next ops in
        push ← (if Opcode.is_push opcode then push_data (script self) start next else Ok []);
        Ok (Some (inl (mkOp opcode push next)), self)
    | Truncated next =>
        Ok (Some (inr ScriptError.BadOpcode), mkReader (script self) next (ops_read self))
    end.

Definition opcode_index {E} (self : Reader) : outcome E Z :=
  assert_ (0 <? ops_read self);;
  Ok (ops_read self - 1).

End Reader.

Definition push_encoding {E} (data : bytes) : outcome E bytes :=
  let n := len data in
  prefix ←
    (if n <? OP_PUSHDATA1 then Ok [zb n]
     else if n <=? 0xff then Ok [zb OP_PUSHDATA1; zb n]
     else if n <=? 0xffff then Ok (zb OP_PUSHDATA2 :: le_bytes 2 n)
     else n ← expect (try_from u32_max n); Ok (zb OP_PUSHDATA4 :: le_bytes 4 n));
  let script := prefix ++ data in
  assert_ (n <? len script);;
  Ok script.

(** ** Progress *)

Lemma slice_length {A} (l : list A) a b s : slice l a b = Some s -> length s = Z.to_nat (b - a).
Proof. intros Hs. apply len_slice in Hs. unfold len in Hs. lia. Qed.

Lemma size_field_len_cases opcode : size_field_len opcode = 0 \/ size_field_len opcode = 1 \/
  size_field_len opcode = 2 \/ size_field_len opcode = 4.
Proof. unfold size_field_len. case_bools; auto. Qed.

Lemma read_op_ok {E} script position : 0 <= position < len script ->
  exists r, read_op (E:=E) script position = Ok r /\
    match r with
    | ReadOp opcode next => 0 <= opcode < 256 /\ position < next <= len script /\
        (bz <$> get script position) = Some opcode /\
        (Opcode.is_push opcode = true -> position + 1 + size_field_len opcode <= next)
    | Truncated next => position < next <= len script
    end.
Proof.
  intros Hp. unfold read_op. rewrite (proj2 (Z.ltb_lt _ _)) by lia. run.
  destruct (get_in_range script position Hp) as [b Hb]. rewrite Hb. cbn [fmap option_fmap option_map].
  run. pose proof (bz_range b).
  destruct (Z.ltb_spec OP_PUSHDATA4 (bz b)) as [Hbig|Hsmall].
  { eexists; split; [done|]. cbv beta iota. split_and!; try lia; [done|].
    unfold Opcode.is_push. intros Hpush%Z.leb_le. lia. }
  destruct (slice script (position + 1) (position + 1 + size_field_len (bz b))) as [f|] eqn:Hf;
    [|eexists; split; [done|]; cbn; lia].
  pose proof (slice_length _ _ _ _ Hf) as Hlen. apply slice_Some in Hf as (_ & Hle & _).
  replace (Z.to_nat _) with (Z.to_nat (size_field_len (bz b))) in Hlen by lia.
  assert (Hd : exists n, 0 <= n /\ match f with
    | [] => Ok (bz b) | [_] | [_; _] | [_; _; _; _] => Ok (le_val f) | _ => Panic end = Ok (E:=E) n).
  { destruct (size_field_len_cases (bz b)) as [Hs|[Hs|[Hs|Hs]]]; rewrite Hs in Hlen; cbn in Hlen;
      destruct f as [|? [|? [|? [|? [|]]]]]; try discriminate Hlen;
      (eexists; split; [|done]); (apply le_val_range || lia). }
  destruct Hd as (n & Hn & ->). run. pose proof (size_field_len_cases (bz b)).
  rewrite (proj2 (Z.leb_le (position + 1 + size_field_len (bz b)) _)) by lia. run.
  destruct (Z.ltb_spec (len script - (position + 1 + size_field_len (bz b))) n);
    [eexists; split; [done|]; cbv beta iota; lia|].
  rewrite (proj2 (Z.leb_le (position + 1 + size_field_len (bz b) + n) _)) by lia. run.
  eexists; split; [done|]. cbv beta iota. split_and!; (lia || done).
Qed.

Lemma push_data_ok {E} script start next opcode : 0 <= start ->
  (bz <$> get script start) = Some opcode -> start + 1 + size_field_len opcode <= next <= len script ->
  exists d, push_data (E:=E) script start next = Ok d /\
    slice script (start + 1 + size_field_len opcode) next = Some d.
Proof.
  intros H0 Ho Hr. unfold push_data. rewrite Ho. run. rewrite (proj2 (Z.leb_le _ _)) by lia. run.
  pose proof (size_field_len_cases opcode). rewrite slice_in_range by lia. eauto.
Qed.

(** The cursor is inside the script, having read at least one byte per opcode. *)
Definition reader_ok (r : Reader.Reader) : Prop :=
  0 <= Reader.ops_read r <= Reader.position r /\ Reader.position r <= len (Reader.script r).

Lemma reader_new_ok s : reader_ok (Reader.new s).
Proof. unfold reader_ok; cbn. pose proof (len_nonneg s). lia. Qed.

(** One step: the cursor stays inside and moves forward, or the script is exhausted. *)
Lemma next_op_ok {E} r : reader_ok r -> len (Reader.script r) <= u32_max ->
  exists o r', Reader.next_op (E:=E) r = Ok (o, r') /\ reader_ok r' /\
    Reader.script r' = Reader.script r /\
    match o with
    | None => Reader.position r = len (Reader.script r) /\ r' = r
    | Some (inl op) => Reader.position r < Reader.position r' /\ op_end op = Reader.position r' /\
        Reader.ops_read r' = Reader.ops_read r + 1 /\ 0 <= op_opcode op < 256 /\
        (bz <$> get (Reader.script r) (Reader.position r)) = Some (op_opcode op) /\
        (if Opcode.is_push (op_opcode op)
         then slice (Reader.script r) (Reader.position r + 1 + size_field_len (op_opcode op))
                (op_end op) = Some (op_push op)
         else op_push op = [])
    | Some (inr e) => e = ScriptError.BadOpcode /\ Reader.position r < Reader.position r'
    end.
Proof.
  intros Hr Hu. unfold reader_ok in *. unfold Reader.next_op.
  destruct (Z.leb_spec (len (Reader.script r)) (Reader.position r)).
  { rewrite (proj2 (Z.eqb_eq _ _)) by lia. run. eexists _, _. split; [done|]. split_and!; lia || done. }
  destruct (read_op_ok (E:=E) (Reader.script r) (Reader.position r)) as (o & -> & Ho); [lia|]. run.
  destruct o as [opcode next|next]; cbn in Ho.
  - destruct Ho as (Hopc & Hnext & Hget & Hpush).
    rewrite (proj2 (Z.ltb_lt _ _)), (proj2 (Z.leb_le _ _)) by lia. run. rewrite u32_ok by lia. run.
    cbn [Reader.script]. destruct (Opcode.is_push opcode) eqn:Hp.
    + destruct (push_data_ok (E:=E) (Reader.script r) (Reader.position r) next opcode)
        as (d & -> & Hd); [lia|done|specialize (Hpush eq_refl); lia|]. run.
      eexists _, _. split; [done|]. cbn. rewrite Hp. split_and!; lia || done.
    + run. eexists _, _. split; [done|]. cbn. rewrite Hp. split_and!; lia || done.
  - eexists _, _. split; [done|]. cbn. split_and!; lia || done.
Qed.

(** ** Push encodings *)

(** The prefix of a push: an opcode byte and a size field that together say [n]. *)
Definition push_prefix (n op : Z) (field : bytes) : Prop :=
  0 <= op <= OP_PUSHDATA4 /\ len field = size_field_len op /\
  n = match field with [] => op | _ => le_val field end.

Lemma read_op_push {E} pre op field data rest : push_prefix (len data) op field ->
  read_op (E:=E) (pre ++ (zb op :: field ++ data) ++ rest) (len pre) =
    Ok (ReadOp op (len pre + 1 + len field + len data)) /\
  push_data (E:=E) (pre ++ (zb op :: field ++ data) ++ rest) (len pre)
    (len pre + 1 + len field + len data) = Ok data.
Proof.
  intros (Hop & Hf & Hn). pose proof (len_nonneg pre). pose proof (len_nonneg rest).
  pose proof (len_nonneg field). pose proof (len_nonneg data).
  set (script := pre ++ _). assert (Hlen : len script = len pre + 1 + len field + len data + len rest).
  { unfold script. cbn [app]. rewrite !len_app, len_cons, !len_app. lia. }
  assert (Hbz : bz (zb op) = op) by (apply bz_zb_id; unfold OP_PUSHDATA4 in *; lia).
  assert (Hget : get script (len pre) = Some (zb op)) by apply get_middle.
  assert (Hsf : slice script (len pre + 1) (len pre + 1 + len field) = Some field).
  { unfold script. replace (pre ++ (zb op :: field ++ data) ++ rest) with
      ((pre ++ [zb op]) ++ field ++ (data ++ rest)) by (cbn [app]; rewrite <-!app_assoc; reflexivity).
    apply slice_middle; rewrite !len_app; change (len [zb op]) with 1; lia. }
  assert (Hsd : slice script (len pre + 1 + len field) (len pre + 1 + len field + len data) = Some data).
  { unfold script. replace (pre ++ (zb op :: field ++ data) ++ rest) with
      ((pre ++ [zb op] ++ field) ++ data ++ rest) by (cbn [app]; rewrite <-!app_assoc; reflexivity).
    apply slice_middle; rewrite !len_app; change (len [zb op]) with 1; lia. }
  unfold read_op, push_data. rewrite Hget, (proj2 (Z.ltb_lt _ _)) by lia. run.
  cbn [option_fmap option_map]. rewrite Hbz. run. split.
  - rewrite (proj2 (Z.ltb_ge _ _)) by lia. rewrite <-Hf, Hsf.
    assert (Hd : match field with [] => Ok op | [_] | [_; _] | [_; _; _; _] => Ok (le_val field)
      | _ => Panic end = Ok (E:=E) (len data)).
    { rewrite Hn. destruct (size_field_len_cases op) as [Hs|[Hs|[Hs|Hs]]]; rewrite Hs in Hf;
        destruct field as [|? [|? [|? [|? [|]]]]]; (discriminate Hf || reflexivity || unfold len in Hf; cbn in Hf; lia). }
    rewrite Hd. run. rewrite (proj2 (Z.leb_le (_ + len field) _)), (proj2 (Z.ltb_ge _ _)) by lia. run.
    rewrite (proj2 (Z.leb_le _ _)) by lia. done.
  - rewrite <-Hf, (proj2 (Z.leb_le _ _)) by lia. run. by rewrite Hsd.
Qed.

Lemma push_encoding_eq {E} data : len data <= u32_max ->
  exists op field, push_encoding (E:=E) data = Ok (zb op :: field ++ data) /\
    push_prefix (len data) op field.
Proof.
  intros Hmax. pose proof (len_nonneg data). unfold push_encoding, push_prefix, OP_PUSHDATA1, OP_PUSHDATA4.
  assert (Hassert : forall p, p <> [] -> (len data <? len (p ++ data)) = true).
  { intros p Hp. apply Z.ltb_lt. rewrite len_app. destruct p; [done|]. rewrite len_cons.
    pose proof (len_nonneg p). lia. }
  destruct (Z.ltb_spec (len data) 0x4c); [|destruct (Z.leb_spec (len data) 0xff);
    [|destruct (Z.leb_spec (len data) 0xffff)]].
  - run. rewrite Hassert by done. exists (len data), []. split; [done|]. split_and!; try lia.
    unfold size_field_len, OP_PUSHDATA1, OP_PUSHDATA2, OP_PUSHDATA4. case_bools; (lia || done).
  - run. rewrite Hassert by done. exists 0x4c, [zb (len data)]. split; [done|].
    split_and!; try done. cbn [le_val]. rewrite bz_zb_id; lia.
  - run. rewrite Hassert by done. exists 0x4d, (le_bytes 2 (len data)). split; [done|].
    split_and!; try done. change (match le_bytes 2 _ with [] => _ | _ => le_val (le_bytes 2 (len data)) end)
      with (le_val (le_bytes 2 (len data))). rewrite le_val_bytes, Z.mod_small; [done|].
    change (256 ^ Z.of_nat 2) with 65536. lia.
  - rewrite try_from_ok by lia. run. rewrite Hassert by done.
    exists 0x4e, (le_bytes 4 (len data)). split; [done|].
    split_and!; try done. change (match le_bytes 4 _ with [] => _ | _ => le_val (le_bytes 4 (len data)) end)
      with (le_val (le_bytes 4 (len data))). rewrite le_val_bytes, Z.mod_small; [done|].
    unfold u32_max in Hmax. change (256 ^ Z.of_nat 4) with (2 ^ 32). lia.
Qed.

(** ** Properties *)

(** A push written by [push_encoding] reads back, wherever in a script it stands: the
    reader yields one opcode carrying exactly the data and leaves its cursor right after
    it.  No data of up to [2^32 - 1] bytes makes either side panic. *)
Theorem push_encoding_roundtrip data pre rest n : len data <= u32_max -> 0 <= n < u32_max ->
  exists enc op, push_encoding (E:=Empty_set) data = Ok enc /\
    Reader.next_op (E:=Empty_set) (Reader.mkReader (pre ++ enc ++ rest) (len pre) n) =
      Ok (Some (inl (mkOp op data (len pre + len enc))),
          Reader.mkReader (pre ++ enc ++ rest) (len pre + len enc) (n + 1)) /\
    Opcode.is_push op = true.
Proof.
  intros Hd Hn. destruct (push_encoding_eq (E:=Empty_set) data Hd) as (op & field & He & Hp).
  exists (zb op :: field ++ data), op. split; [done|].
  destruct (read_op_push (E:=Empty_set) pre op field data rest Hp) as [Hr Hpd].
  assert (Hpush : Opcode.is_push op = true) by (destruct Hp; apply Z.leb_le; lia).
  split; [|done]. pose proof (len_nonneg field). pose proof (len_nonneg data).
  pose proof (len_nonneg pre). pose proof (len_nonneg rest).
  replace (len pre + len (zb op :: field ++ data)) with (len pre + 1 + len field + len data)
    by (rewrite len_cons, len_app; lia).
  assert (Hlen : len (pre ++ (zb op :: field ++ data) ++ rest)
    = len pre + 1 + len field + len data + len rest)
    by (cbn [app]; rewrite !len_app, len_cons, !len_app; lia).
  unfold Reader.next_op. cbn [Reader.script Reader.position Reader.ops_read].
  rewrite (proj2 (Z.leb_gt (len (pre ++ _)) _)), Hr by lia. run.
  rewrite (proj2 (Z.ltb_lt (len pre) _)), (proj2 (Z.leb_le _ (len (pre ++ _)))) by lia. run.
  rewrite u32_ok by lia. run. cbn [Reader.script]. rewrite Hpush, Hpd. done.
Qed.

Lemma push_encoding_roundtrip_witness :
  exists enc, push_encoding (E:=Empty_set) (repeat xab 300) = Ok enc /\ len enc = 303.
Proof.
  destruct (push_encoding_roundtrip (repeat xab 300) [x00] [xac] 1) as (enc & op & He & _).
  - vm_compute. congruence.
  - vm_compute. split; congruence.
  - exists enc. split; [exact He|]. vm_compute in He. injection He as <-. reflexivity.
Defined.
