(* ===== verification/Stack.v ===== *)
(** * Stack: the interpreter's data stack ([consensus/src/script/stack.rs])

    Items are held bottom to top, as the [Vec] holds them; a depth counts from the top. *)
From S2P Require Import Prelude Script.

Definition MAX_SCRIPT_ELEMENT_SIZE : Z := 520.

Module Stack.

Definition Stack : Type := list bytes.

Definition new : Stack := [].

Definition from_items {E} (items : list bytes) : outcome E Stack :=
  foldM (fun _ item => assert_ (len item <=? MAX_SCRIPT_ELEMENT_SIZE)) tt items;;
  Ok items.

Definition is_empty (self : Stack) : bool := len self =? 0.

Definition require (self : Stack) (count : Z) : outcome ScriptError unit :=
  if len self <? count then Err ScriptError.InvalidStackOperation else Ok tt.

Definition push {E} (self : Stack) (item : bytes) : outcome E Stack :=
  assert_ (len item <=? MAX_SCRIPT_ELEMENT_SIZE);;
  Ok (self ++ [item]).

Definition push_bool {E} (self : Stack) (value : bool) : outcome E Stack :=
  push self (if value then [x01] else []).

Definition pop {E} (self : Stack) : outcome E (bytes * Stack) :=
  item ← expect (last self);
  Ok (item, take (length self - 1) self).

Definition index_at_depth {E} (self : Stack) (depth : Z) : outcome E Z :=
  assert_ (1 <=? depth);;
  assert_ (depth <=? len self);;
  Ok (len self - depth).

Definition top {E} (self : Stack) (depth : Z) : outcome E bytes :=
  index ← index_at_depth self depth;
  expect (get self index).

(** [Vec::swap], which panics on an index out of range. *)
Definition vec_swap {E} (items : list bytes) (a b : Z) : outcome E (list bytes) :=
  x ← expect (get items a);
  y ← expect (get items b);
  Ok (<[Z.to_nat b := x]> (<[Z.to_nat a := y]> items)).

Definition swap {E} (self : Stack) (a b : Z) : outcome E Stack :=
  index_a ← index_at_depth self a;
  index_b ← index_at_depth self b;
  vec_swap self index_a index_b.

(** [Vec::remove] and [Vec::insert]. *)
Definition remove {E} (self : Stack) (depth : Z) : outcome E (bytes * Stack) :=
  index ← index_at_depth self depth;
  item ← expect (get self index);
  Ok (item, take (Z.to_nat index) self ++ drop (S (Z.to_nat index)) self).

Definition insert {E} (self : Stack) (depth : Z) (item : bytes) : outcome E Stack :=
  assert_ (len item <=? MAX_SCRIPT_ELEMENT_SIZE);;
  index ← index_at_depth self depth;
  Ok (take (Z.to_nat index) self ++ item :: drop (Z.to_nat index) self).

(** ** What the operations do to the top of a stack *)

Section framing.
Context {E : Type}.
Implicit Types (s t : Stack).

Lemma index_eq s d : 1 <= d <= len s -> index_at_depth (E:=E) s d = Ok (len s - d).
Proof. intros. unfold index_at_depth. rewrite !(proj2 (Z.leb_le _ _)) by lia. done. Qed.

Lemma top_ok s d : 1 <= d <= len s ->
  exists x, top (E:=E) s d = Ok x /\ x ∈ s /\ get s (len s - d) = Some x.
Proof.
  intros Hd. unfold top. rewrite index_eq by done. run.
  destruct (get_in_range s (len s - d)) as [x Hx]; [lia|]. rewrite Hx. eauto using get_elem.
Qed.

Lemma pop_ok s : 1 <= len s -> exists x t, pop (E:=E) s = Ok (x, t) /\ s = t ++ [x].
Proof.
  intros Hl. unfold pop. destruct (last s) as [x|] eqn:Hx.
  - apply last_Some in Hx as [t ->]. run. exists x, t. split; [|done].
    rewrite length_app. cbn [length]. replace (length t + 1 - 1)%nat with (length t) by lia.
    by rewrite take_app_length.
  - apply last_None in Hx as ->. unfold len in Hl. cbn in Hl. lia.
Qed.

Lemma pop_snoc t x : pop (E:=E) (t ++ [x]) = Ok (x, t).
Proof.
  destruct (pop_ok (t ++ [x])) as (y & u & -> & Heq);
    [rewrite len_app; change (len [x]) with 1; pose proof (len_nonneg t); lia|].
  by apply app_inj_tail in Heq as [-> ->].
Qed.

Lemma push_eq s x : len x <= MAX_SCRIPT_ELEMENT_SIZE -> push (E:=E) s x = Ok (s ++ [x]).
Proof. intros. unfold push. by rewrite (proj2 (Z.leb_le _ _)). Qed.

Lemma top_app t s d : 1 <= d <= len s -> top (E:=E) (t ++ s) d = top s d.
Proof.
  intros Hd. unfold top. rewrite !index_eq by (rewrite ?len_app; pose proof (len_nonneg t); lia).
  run. rewrite len_app, get_app_r by lia. do 2 f_equal. lia.
Qed.

Lemma remove_app t s d : 1 <= d <= len s ->
  remove (E:=E) (t ++ s) d = '(x, u) ← remove s d; Ok (x, t ++ u).
Proof.
  intros Hd. unfold remove. pose proof (len_nonneg t).
  rewrite !index_eq by (rewrite ?len_app; lia). run.
  rewrite len_app, get_app_r by lia. replace (len t + len s - d - len t) with (len s - d) by lia.
  destruct (get s (len s - d)); run; [|done]. do 2 f_equal.
  replace (Z.to_nat (len t + len s - d)) with (length t + Z.to_nat (len s - d))%nat
    by (unfold len in *; lia).
  replace (S (length t + Z.to_nat (len s - d))) with (length t + S (Z.to_nat (len s - d)))%nat by lia.
  rewrite take_app_add, drop_app_add. by rewrite app_assoc.
Qed.

Lemma insert_app t s d x : 1 <= d <= len s ->
  insert (E:=E) (t ++ s) d x = u ← insert s d x; Ok (t ++ u).
Proof.
  intros Hd. unfold insert. pose proof (len_nonneg t). destruct (_ <=? _); [|done]. run.
  rewrite !index_eq by (rewrite ?len_app; lia). run. f_equal.
  replace (Z.to_nat (len (t ++ s) - d)) with (length t + Z.to_nat (len s - d))%nat
    by (rewrite len_app; unfold len in *; lia).
  rewrite take_app_add, drop_app_add. by rewrite <-app_assoc.
Qed.

Lemma swap_app t s a b : 1 <= a <= len s -> 1 <= b <= len s ->
  swap (E:=E) (t ++ s) a b = u ← swap s a b; Ok (t ++ u).
Proof.
  intros Ha Hb. unfold swap, vec_swap. pose proof (len_nonneg t).
  rewrite !index_eq by (rewrite ?len_app; lia). run. rewrite len_app, !get_app_r by lia.
  replace (len t + len s - a - len t) with (len s - a) by lia.
  replace (len t + len s - b - len t) with (len s - b) by lia.
  destruct (get s (len s - a)); run; [|done]. destruct (get s (len s - b)); run; [|done].
  f_equal.
  replace (Z.to_nat (len t + len s - a)) with (length t + Z.to_nat (len s - a))%nat
    by (unfold len in *; lia).
  replace (Z.to_nat (len t + len s - b)) with (length t + Z.to_nat (len s - b))%nat
    by (unfold len in *; lia).
  by rewrite !insert_app_r.
Qed.

(** Every item within the element limit. *)
Definition items_ok (s : Stack) : Prop := Forall (fun x => len x <= MAX_SCRIPT_ELEMENT_SIZE) s.

Lemma swap_ok s a b : items_ok s -> 1 <= a <= len s -> 1 <= b <= len s ->
  exists t, swap (E:=E) s a b = Ok t /\ items_ok t /\ len t = len s.
Proof.
  intros Hi Ha Hb. unfold swap, vec_swap. rewrite !index_eq by done. run.
  destruct (get_in_range s (len s - a)) as [x Hx]; [lia|].
  destruct (get_in_range s (len s - b)) as [y Hy]; [lia|]. rewrite Hx, Hy. run.
  eexists; split; [done|]. unfold items_ok in *. rewrite Forall_forall in Hi.
  split; [|unfold len; by rewrite !length_insert].
  apply Forall_insert; [apply Forall_insert|]; try (apply Hi; by eapply get_elem).
  by apply Forall_forall.
Qed.

Lemma remove_ok s d : items_ok s -> 1 <= d <= len s ->
  exists x t, remove (E:=E) s d = Ok (x, t) /\ items_ok t /\ len x <= MAX_SCRIPT_ELEMENT_SIZE /\
    len t = len s - 1.
Proof.
  intros Hi Hd. unfold remove. rewrite index_eq by done. run.
  destruct (get_in_range s (len s - d)) as [x Hx]; [lia|]. rewrite Hx. run.
  eexists _, _; split; [done|]. unfold items_ok in *. split_and!.
  - apply Forall_app. split; [by apply Forall_take|by apply Forall_drop].
  - rewrite Forall_forall in Hi. apply Hi. by eapply get_elem.
  - unfold len in *. rewrite length_app, length_take, length_drop. lia.
Qed.

Lemma insert_ok s d x : items_ok s -> len x <= MAX_SCRIPT_ELEMENT_SIZE -> 1 <= d <= len s ->
  exists t, insert (E:=E) s d x = Ok t /\ items_ok t.
Proof.
  intros Hi Hx Hd. unfold insert. rewrite (proj2 (Z.leb_le _ _)) by done. run.
  rewrite index_eq by done. run. eexists; split; [done|]. unfold items_ok in *.
  apply Forall_app. split; [by apply Forall_take|]. apply Forall_cons. split; [done|by apply Forall_drop].
Qed.

End framing.
End Stack.
