(* ===== verification/SigScript.v ===== *)
(** * SigScript: strict DER and [FindAndDelete] (the free functions of
    [consensus/src/script/interpreter.rs]) *)
From S2P Require Import Prelude Flags Script Reader.

(** ** [is_valid_signature_encoding] *)

(** The closure [at]: a byte, its index checked against the length. *)
Definition at_ {E} (sig : bytes) (index : Z) : outcome E Z := expect (bz <$> get sig index).

(** [b & 0x80 != 0]. *)
Definition high_bit (b : Z) : bool := negb (Z.land b 0x80 =? 0).

Definition is_valid_signature_encoding {E} (sig : bytes) : outcome E bool :=
  if (len sig <? 9) || (73 <? len sig) then Ok false else
  b0 ← at_ sig 0;
  b1 ← at_ sig 1;
  if negb (b0 =? 0x30) || negb (b1 =? len sig - 3) then Ok false else
  len_r ← at_ sig 3;
  if len sig <=? 5 + len_r then Ok false else
  len_s ← at_ sig (5 + len_r);
  if negb (len_r + len_s + 7 =? len sig) then Ok false else
  b2 ← at_ sig 2;
  b4 ← at_ sig 4;
  if negb (b2 =? 0x02) || (len_r =? 0) || high_bit b4 then Ok false else
  b5 ← at_ sig 5;
  if (1 <? len_r) && (b4 =? 0x00) && negb (high_bit b5) then Ok false else
  s2 ← at_ sig (len_r + 4);
  if negb (s2 =? 0x02) || (len_s =? 0) then Ok false else
  s6 ← at_ sig (len_r + 6);
  if high_bit s6 then Ok false else
  if 1 <? len_s then
    s7 ← at_ sig (len_r + 7);
    if (s6 =? 0x00) && negb (high_bit s7) then Ok false else Ok true
  else Ok true.

Definition check_signature_encoding (signature : bytes) (flags : ScriptFlags.ScriptFlags)
    : outcome ScriptError unit :=
  if len signature =? 0 then Ok tt
  else if ScriptFlags.contains flags ScriptFlags.DERSIG then
    valid ← is_valid_signature_encoding signature;
    if negb valid then Err ScriptError.SigDer else Ok tt
  else Ok tt.

(** ** [find_and_delete] *)

(** The inner [while]: every consecutive copy of the pattern.  The pattern is not empty, so
    a script's length of steps is enough. *)
Fixpoint skip_copies {E} (fuel : nat) (script pattern : bytes) (pc found : Z)
    : outcome E (Z * Z) :=
  match fuel with
  | O => Panic
  | S fuel =>
      if (len pattern <=? len script - pc) &&
         bool_decide (slice script pc (pc + len pattern) = Some pattern)
      then skip_copies fuel script pattern (pc + len pattern) (found + 1)
      else Ok (pc, found)
  end.

(** The outer [loop], whose fuel is the source's [assert!(iterations <= script.len() + 1)]. *)
Fixpoint delete_loop {E} (iterations : nat) (script pattern result : bytes) (found pc pc2 : Z)
    : outcome E (bytes * Z * Z) :=
  match iterations with
  | O => Panic
  | S iterations =>
      chunk ← expect (slice script pc2 pc);
      let result := result ++ chunk in
      '(pc, found) ← skip_copies (S (length script)) script pattern pc found;
      let pc2 := pc in
      if len script <=? pc then Ok (result, found, pc2)
      else
        r ← read_op script pc;
        match r with
        | ReadOp _ next => delete_loop iterations script pattern result found next pc2
        | Truncated _ => Ok (result, found, pc2)
        end
  end.

Definition find_and_delete {E} (script pattern : bytes) : outcome E (bytes * Z) :=
  if len pattern =? 0 then Ok (script, 0)
  else
    '(result, found, pc2) ← delete_loop (S (length script)) script pattern [] 0 0 0;
    if found =? 0 then Ok (script, 0)
    else
      rest ← expect (slice_from script pc2);
      let result := result ++ rest in
      assert_ (len result + found * len pattern =? len script);;
      Ok (result, found).

(** ** What the interpreter asks of the transaction spending a script

    The interface between the interpreter ([script/interpreter.rs]) and the checker
    ([script/checker.rs]): the interpreter is written and proved against it, and
    [Checker.v] discharges it. *)

(** [script/sighash.rs]: which taproot digest a Schnorr signature signs. *)
Inductive TaprootSpend :=
| KeyPath
| ScriptPath (leaf_hash : bytes) (codesep_pos : Z).

(** The tag byte of an annex ([sighash.rs]). *)
Definition ANNEX_TAG : byte := x50.

Class SigChecker := {
  check_ecdsa : forall (signature pubkey script_code : bytes) (sig_version : SigVersion),
    outcome ScriptError bool;
  check_schnorr : forall (signature pubkey : bytes) (spend : TaprootSpend) (annex : option bytes),
    outcome ScriptError unit;
  check_locktime : Z -> outcome ScriptError bool;
  check_sequence : Z -> outcome ScriptError bool;
}.

(** The largest magnitude of a five-byte script number. *)
Definition SCRIPTNUM_LOCKTIME_MAX : Z := Z.shiftl 1 39 - 1.
(** Bit 31 of a sequence: no relative lock. *)
Definition SEQUENCE_LOCKTIME_DISABLE_FLAG : Z := Z.shiftl 1 31.

Definition annex_ok (annex : option bytes) : Prop :=
  forall a, annex = Some a -> head a = Some ANNEX_TAG /\ len a <= u64_max.

(** What the checker promises: a verdict, and no panic, on everything the interpreter may
    ask.  A tapscript never asks for an ECDSA check, a lock-time operand is never negative
    and has at most five bytes, a Schnorr key has 32 bytes, an annex starts with its tag,
    and lengths are machine integers. *)
Class SigCheckerLaws `{SigChecker} : Prop := {
  check_ecdsa_total signature pubkey script_code sig_version : sig_version <> Tapscript ->
    len script_code <= u64_max ->
    exists b, check_ecdsa signature pubkey script_code sig_version = Ok b;
  check_schnorr_total signature pubkey spend annex : length pubkey = 32%nat -> annex_ok annex ->
    check_schnorr signature pubkey spend annex <> Panic;
  check_locktime_total n : 0 <= n <= SCRIPTNUM_LOCKTIME_MAX -> exists b, check_locktime n = Ok b;
  check_sequence_total n : 0 <= n <= SCRIPTNUM_LOCKTIME_MAX -> exists b, check_sequence n = Ok b;
}.
