(* ===== verification/Interpreter.v ===== *)
(** * Interpreter: [eval_script], one opcode at a time
    ([consensus/src/script/interpreter.rs])

    The locals of [eval_script] are a [Machine]; an opcode's function is a computation that
    reads the fixed inputs of the execution ([Env]), reads and replaces the machine, and
    may fail with a [ScriptError] or panic.  A failed script leaves nothing behind: every
    caller returns the error, so a failure carries no machine. *)
From S2P Require Import Prelude Bitcoin Flags Script ScriptNum Reader Stack SigScript.

Definition MAX_SCRIPT_SIZE : Z := 10000.
Definition MAX_STACK_SIZE : Z := 1000.
Definition MAX_OPS_PER_SCRIPT : Z := 201.
Definition MAX_PUBKEYS_PER_MULTISIG : Z := 20.
Definition VALIDATION_WEIGHT_PER_SIGOP_PASSED : Z := 50.
Definition CODESEPARATOR_POS_NONE : Z := 0xffffffff.
Definition OP_COUNT_MAX : Z := MAX_OPS_PER_SCRIPT + 20.

Record TapscriptExec := mkTapscriptExec {
  leaf_hash : bytes;
  annex : option bytes;
  validation_weight_left : Z;
}.

Record ExecData := mkExec {
  codesep_pos : Z;
  tapscript : option TapscriptExec;
}.

(** [ExecData::legacy] and [ExecData::tapscript]. *)
Definition legacy_exec : ExecData := mkExec CODESEPARATOR_POS_NONE None.
Definition tapscript_exec (exec : TapscriptExec) : ExecData :=
  mkExec CODESEPARATOR_POS_NONE (Some exec).

Module ConditionStack.

Record ConditionStack := mk { depth : Z; first_false : option Z }.

Definition new : ConditionStack := mk 0 None.
Definition is_empty (self : ConditionStack) : bool := depth self =? 0.
Definition all_true (self : ConditionStack) : bool := bool_decide (first_false self = None).

Definition push {E} (self : ConditionStack) (value : bool) : outcome E ConditionStack :=
  let first := match first_false self with
    | None => if negb value then Some (depth self) else None
    | Some f => Some f
    end in
  depth ← u32 (depth self + 1);
  assert_ (depth <=? 10001);;
  Ok (mk depth first).

Definition pop {E} (self : ConditionStack) : outcome E ConditionStack :=
  assert_ (0 <? depth self);;
  let depth := depth self - 1 in
  Ok (mk depth (if bool_decide (first_false self = Some depth) then None else first_false self)).

Definition toggle_top {E} (self : ConditionStack) : outcome E ConditionStack :=
  assert_ (0 <? depth self);;
  let top := depth self - 1 in
  Ok (mk (depth self) (match first_false self with
    | None => Some top
    | Some first => if first =? top then None else Some first
    end)).

End ConditionStack.

(** ** The machine *)

Record Env := mkEnv {
  env_script : bytes;
  env_flags : ScriptFlags.ScriptFlags;
  env_sig_version : SigVersion;
}.

Record Machine := mkMachine {
  stack : Stack.Stack;
  altstack : Stack.Stack;
  conditions : ConditionStack.ConditionStack;
  op_count : Z;
  codesep_start : Z;
  exec : ExecData;
}.

Definition set_stack (m : Machine) (s : Stack.Stack) : Machine :=
  mkMachine s (altstack m) (conditions m) (op_count m) (codesep_start m) (exec m).
Definition set_altstack (m : Machine) (s : Stack.Stack) : Machine :=
  mkMachine (stack m) s (conditions m) (op_count m) (codesep_start m) (exec m).
Definition set_conditions (m : Machine) (c : ConditionStack.ConditionStack) : Machine :=
  mkMachine (stack m) (altstack m) c (op_count m) (codesep_start m) (exec m).
Definition set_op_count (m : Machine) (n : Z) : Machine :=
  mkMachine (stack m) (altstack m) (conditions m) n (codesep_start m) (exec m).
Definition set_codesep_start (m : Machine) (n : Z) : Machine :=
  mkMachine (stack m) (altstack m) (conditions m) (op_count m) n (exec m).
Definition set_exec (m : Machine) (e : ExecData) : Machine :=
  mkMachine (stack m) (altstack m) (conditions m) (op_count m) (codesep_start m) e.

Definition M (A : Type) : Type := Machine -> outcome ScriptError (A * Machine).

#[global] Instance M_ret : MRet M := fun A a m => Ok (a, m).
#[global] Instance M_bind : MBind M := fun A B f x m =>
  match x m with Ok (a, m') => f a m' | Err e => Err e | Panic => Panic end.

Definition fail {A} (e : ScriptError) : M A := fun _ => Err e.
Definition panic {A} : M A := fun _ => Panic.
Definition from {A} (o : outcome ScriptError A) : M A := fun m =>
  match o with Ok a => Ok (a, m) | Err e => Err e | Panic => Panic end.
Definition get_ {A} (f : Machine -> A) : M A := fun m => Ok (f m, m).
Definition put_ (f : Machine -> Machine) : M unit := fun m => Ok (tt, f m).

(** [self.stack.<method>(..)]. *)
Definition require (count : Z) : M unit := fun m => from (Stack.require (stack m) count) m.
Definition top (depth : Z) : M bytes := fun m => from (Stack.top (stack m) depth) m.
Definition push (item : bytes) : M unit :=
  s ← get_ stack; s ← from (Stack.push s item); put_ (fun m => set_stack m s).
Definition push_bool (value : bool) : M unit :=
  s ← get_ stack; s ← from (Stack.push_bool s value); put_ (fun m => set_stack m s).
Definition pop : M bytes :=
  s ← get_ stack; '(x, s) ← from (Stack.pop s); put_ (fun m => set_stack m s);; mret x.
Definition swap (a b : Z) : M unit :=
  s ← get_ stack; s ← from (Stack.swap s a b); put_ (fun m => set_stack m s).
Definition remove (depth : Z) : M bytes :=
  s ← get_ stack; '(x, s) ← from (Stack.remove s depth); put_ (fun m => set_stack m s);; mret x.
Definition insert (depth : Z) (item : bytes) : M unit :=
  s ← get_ stack; s ← from (Stack.insert s depth item); put_ (fun m => set_stack m s).
(** [self.stack.push(n.encode())]. *)
Definition push_num (n : Z) : M unit := l ← from (ScriptNum.encode n); push l.
(** [ScriptNum::decode(self.stack.top(depth), size_max)]. *)
Definition num_at (depth size_max : Z) : M Z := l ← top depth; from (ScriptNum.decode l size_max).

Section machine.
Context `{Hashes} `{SigChecker} (env : Env).

(** ** Lock times and branches *)

Definition op_check_locktime : M unit :=
  if negb (ScriptFlags.contains (env_flags env) ScriptFlags.CHECKLOCKTIMEVERIFY) then mret tt
  else
    require 1;;
    lock_time ← num_at 1 SCRIPTNUM_LOCKTIME_SIZE_MAX;
    if lock_time <? 0 then fail ScriptError.NegativeLocktime
    else
      ok ← from (check_locktime lock_time);
      if negb ok then fail ScriptError.UnsatisfiedLocktime else mret tt.

Definition op_check_sequence : M unit :=
  if negb (ScriptFlags.contains (env_flags env) ScriptFlags.CHECKSEQUENCEVERIFY) then mret tt
  else
    require 1;;
    sequence ← num_at 1 SCRIPTNUM_LOCKTIME_SIZE_MAX;
    if sequence <? 0 then fail ScriptError.NegativeLocktime
    else if negb (Z.land sequence SEQUENCE_LOCKTIME_DISABLE_FLAG =? 0) then mret tt
    else
      ok ← from (check_sequence sequence);
      if negb ok then fail ScriptError.UnsatisfiedLocktime else mret tt.

Definition branch (opcode : Z) (executing : bool) : M unit :=
  value ←
    (if executing then
       require 1;;
       argument ← top 1;
       (if bool_decide (env_sig_version env = Tapscript) then
          let minimal := (len argument =? 0) || bool_decide (argument = [x01]) in
          if negb minimal then fail ScriptError.TapscriptMinimalif else mret tt
        else mret tt);;
       let value := cast_to_bool argument in
       let value := if opcode =? OP_NOTIF then negb value else value in
       pop;;
       mret value
     else mret false);
  c ← get_ conditions;
  c ← from (ConditionStack.push c value);
  put_ (fun m => set_conditions m c).

(** ** Stack opcodes *)

Definition stack_op_pairs (opcode : Z) : M unit :=
  if opcode =? OP_TOALTSTACK then
    require 1;;
    item ← pop;
    a ← get_ altstack; a ← from (Stack.push a item); put_ (fun m => set_altstack m a)
  else if opcode =? OP_FROMALTSTACK then
    a ← get_ altstack;
    if Stack.is_empty a then fail ScriptError.InvalidAltstackOperation
    else
      '(item, a) ← from (Stack.pop a);
      put_ (fun m => set_altstack m a);;
      push item
  else if opcode =? OP_2DROP then
    require 2;; pop;; pop;; mret tt
  else if opcode =? OP_2DUP then
    require 2;; x1 ← top 2; x2 ← top 1; push x1;; push x2
  else if opcode =? OP_3DUP then
    require 3;; x1 ← top 3; x2 ← top 2; x3 ← top 1; push x1;; push x2;; push x3
  else if opcode =? OP_2OVER then
    require 4;; x1 ← top 4; x2 ← top 3; push x1;; push x2
  else if opcode =? OP_2ROT then
    require 6;; x1 ← remove 6; x2 ← remove 5; push x1;; push x2
  else if opcode =? OP_2SWAP then
    require 4;; swap 4 2;; swap 3 1
  else panic.

Definition pick_or_roll (opcode : Z) : M unit :=
  require 2;;
  n ← num_at 1 SCRIPTNUM_SIZE_MAX;
  let n := ScriptNum.to_clamped_i32 n in
  pop;;
  if n <? 0 then fail ScriptError.InvalidStackOperation
  else
    s ← get_ stack;
    if len s <=? n then fail ScriptError.InvalidStackOperation
    else
      item ← top (n + 1);
      (if opcode =? OP_ROLL then remove (n + 1);; mret tt else mret tt);;
      push item.

Definition stack_op_singles (opcode : Z) : M unit :=
  if opcode =? OP_IFDUP then
    require 1;; x ← top 1; if cast_to_bool x then push x else mret tt
  else if opcode =? OP_DEPTH then
    s ← get_ stack; depth ← from (ScriptNum.from_usize (len s)); push_num depth
  else if opcode =? OP_DROP then
    require 1;; pop;; mret tt
  else if opcode =? OP_DUP then
    require 1;; x ← top 1; push x
  else if opcode =? OP_NIP then
    require 2;; remove 2;; mret tt
  else if opcode =? OP_OVER then
    require 2;; x1 ← top 2; push x1
  else if (opcode =? OP_PICK) || (opcode =? OP_ROLL) then pick_or_roll opcode
  else if opcode =? OP_ROT then
    require 3;; swap 3 2;; swap 2 1
  else if opcode =? OP_SWAP then
    require 2;; swap 2 1
  else if opcode =? OP_TUCK then
    require 2;; x2 ← top 1; insert 2 x2
  else panic.

Definition equal (opcode : Z) : M unit :=
  require 2;;
  x2 ← pop;
  x1 ← pop;
  let equal := bool_decide (x1 = x2) in
  push_bool equal;;
  if opcode =? OP_EQUALVERIFY then
    if negb equal then fail ScriptError.Equalverify else pop;; mret tt
  else mret tt.

(** ** Numeric opcodes *)

Definition numeric_unary (opcode : Z) : M unit :=
  require 1;;
  n ← num_at 1 SCRIPTNUM_SIZE_MAX;
  result ← from
    (if opcode =? OP_1ADD then ScriptNum.add n ScriptNum.ONE
     else if opcode =? OP_1SUB then ScriptNum.sub n ScriptNum.ONE
     else if opcode =? OP_NEGATE then ScriptNum.neg n
     else if opcode =? OP_ABS then ScriptNum.abs n
     else if opcode =? OP_NOT then Ok (ScriptNum.from_bool (ScriptNum.is_zero n))
     else if opcode =? OP_0NOTEQUAL then Ok (ScriptNum.from_bool (negb (ScriptNum.is_zero n)))
     else Panic);
  pop;;
  push_num result.

Definition numeric_binary (opcode : Z) : M unit :=
  require 2;;
  x1 ← num_at 2 SCRIPTNUM_SIZE_MAX;
  x2 ← num_at 1 SCRIPTNUM_SIZE_MAX;
  result ← from
    (if opcode =? OP_ADD then ScriptNum.add x1 x2
     else if opcode =? OP_SUB then ScriptNum.sub x1 x2
     else if opcode =? OP_BOOLAND then
       Ok (ScriptNum.from_bool (negb (ScriptNum.is_zero x1) && negb (ScriptNum.is_zero x2)))
     else if opcode =? OP_BOOLOR then
       Ok (ScriptNum.from_bool (negb (ScriptNum.is_zero x1) || negb (ScriptNum.is_zero x2)))
     else if (opcode =? OP_NUMEQUAL) || (opcode =? OP_NUMEQUALVERIFY) then
       Ok (ScriptNum.from_bool (x1 =? x2))
     else if opcode =? OP_NUMNOTEQUAL then Ok (ScriptNum.from_bool (negb (x1 =? x2)))
     else if opcode =? OP_LESSTHAN then Ok (ScriptNum.from_bool (x1 <? x2))
     else if opcode =? OP_GREATERTHAN then Ok (ScriptNum.from_bool (x2 <? x1))
     else if opcode =? OP_LESSTHANOREQUAL then Ok (ScriptNum.from_bool (x1 <=? x2))
     else if opcode =? OP_GREATERTHANOREQUAL then Ok (ScriptNum.from_bool (x2 <=? x1))
     else if opcode =? OP_MIN then Ok (Z.min x1 x2)
     else if opcode =? OP_MAX then Ok (Z.max x1 x2)
     else Panic);
  pop;; pop;;
  push_num result;;
  if opcode =? OP_NUMEQUALVERIFY then
    t ← top 1;
    if negb (cast_to_bool t) then fail ScriptError.Numequalverify else pop;; mret tt
  else mret tt.

Definition within : M unit :=
  require 3;;
  x ← num_at 3 SCRIPTNUM_SIZE_MAX;
  min ← num_at 2 SCRIPTNUM_SIZE_MAX;
  max ← num_at 1 SCRIPTNUM_SIZE_MAX;
  let inside := (min <=? x) && (x <? max) in
  pop;; pop;; pop;;
  push_bool inside.

Definition hash (opcode : Z) : M unit :=
  require 1;;
  input ← pop;
  digest ← from
    (if opcode =? OP_RIPEMD160 then Ok (ripemd160 input)
     else if opcode =? OP_SHA1 then Ok (sha1 input)
     else if opcode =? OP_SHA256 then Ok (sha256 input)
     else if opcode =? OP_HASH160 then Ok (hash160 input)
     else if opcode =? OP_HASH256 then Ok (sha256d input)
     else Panic);
  from (assert_ ((len digest =? 20) || (len digest =? 32)));;
  push digest.

(** ** Signature opcodes *)

Definition script_code (m : Machine) : outcome ScriptError bytes :=
  assert_ (codesep_start m <=? len (env_script env));;
  expect (slice_from (env_script env) (codesep_start m)).

Definition eval_checksig_pre_tapscript (signature pubkey : bytes) : M bool :=
  code ← (fun m => from (script_code m) m);
  code ←
    (if bool_decide (env_sig_version env = Base) then
       pattern ← from (push_encoding signature);
       r ← from (find_and_delete code pattern);
       mret r.1
     else mret code);
  from (check_signature_encoding signature (env_flags env));;
  from (check_ecdsa signature pubkey code (env_sig_version env)).

Definition eval_checksig_tapscript (signature pubkey : bytes) : M bool :=
  e ← get_ exec;
  ts ← from (expect (tapscript e));
  let success := negb (len signature =? 0) in
  ts ←
    (if success then
       weight ← from (i64 (validation_weight_left ts - VALIDATION_WEIGHT_PER_SIGOP_PASSED));
       let ts := mkTapscriptExec (leaf_hash ts) (annex ts) weight in
       put_ (fun m => set_exec m (mkExec (codesep_pos e) (Some ts)));;
       if weight <? 0 then fail ScriptError.TapscriptValidationWeight else mret ts
     else mret ts);
  if len pubkey =? 0 then fail ScriptError.TapscriptEmptyPubkey
  else
    (if (len pubkey =? 32) && success
     then from (check_schnorr signature pubkey (ScriptPath (leaf_hash ts) (codesep_pos e)) (annex ts))
     else mret tt);;
    mret success.

Definition eval_checksig (signature pubkey : bytes) : M bool :=
  match env_sig_version env with
  | Base | WitnessV0 => eval_checksig_pre_tapscript signature pubkey
  | Tapscript => eval_checksig_tapscript signature pubkey
  end.

Definition checksig (opcode : Z) : M unit :=
  require 2;;
  pubkey ← pop;
  signature ← pop;
  success ← eval_checksig signature pubkey;
  push_bool success;;
  if opcode =? OP_CHECKSIGVERIFY then
    if negb success then fail ScriptError.Checksigverify else pop;; mret tt
  else mret tt.

Definition checksigadd : M unit :=
  if bool_decide (env_sig_version env <> Tapscript) then fail ScriptError.BadOpcode
  else
    require 3;;
    pubkey ← pop;
    n ← num_at 1 SCRIPTNUM_SIZE_MAX;
    pop;;
    signature ← pop;
    success ← eval_checksig signature pubkey;
    n ← from (ScriptNum.add n (ScriptNum.from_bool success));
    push_num n.

(** [for k in 0..sig_count] over the signatures at depths [isig + k]. *)
Fixpoint delete_signatures (isig : Z) (sig_count : nat) (code : bytes) : M bytes :=
  match sig_count with
  | O => mret code
  | S rest =>
      signature ← top isig;
      pattern ← from (push_encoding signature);
      r ← from (find_and_delete code pattern);
      delete_signatures (isig + 1) rest r.1
  end.

Definition multisig_script_code (isig sig_count : Z) : M bytes :=
  code ← (fun m => from (script_code m) m);
  if bool_decide (env_sig_version env = Base)
  then delete_signatures isig (Z.to_nat sig_count) code
  else mret code.

(** The matching loop; its fuel is the source's [assert!(iterations <= 20)]. *)
Fixpoint checkmultisig_loop (iterations : nat) (ikey isig keys_left sigs_left : Z)
    (script_code : bytes) : M bool :=
  if 0 <? sigs_left then
    match iterations with
    | O => panic
    | S iterations =>
        signature ← top isig;
        pubkey ← top ikey;
        from (check_signature_encoding signature (env_flags env));;
        ok ← from (check_ecdsa signature pubkey script_code (env_sig_version env));
        let isig := if (ok : bool) then isig + 1 else isig in
        let sigs_left := if ok then sigs_left - 1 else sigs_left in
        keys_left ← from (u64 (keys_left - 1));
        if keys_left <? sigs_left then mret false
        else checkmultisig_loop iterations (ikey + 1) isig keys_left sigs_left script_code
    end
  else mret true.

Definition checkmultisig_verify (ikey isig keys_left sigs_left : Z) (script_code : bytes) : M bool :=
  checkmultisig_loop (Z.to_nat MAX_PUBKEYS_PER_MULTISIG) ikey isig keys_left sigs_left script_code.

Definition count_from {E} (count : Z) : outcome E Z := expect (try_from u64_max count).

(** [for _ in 1..i { self.stack.pop(); }]. *)
Fixpoint pops (n : nat) : M unit :=
  match n with O => mret tt | S n => pop;; pops n end.

Definition checkmultisig (opcode : Z) : M unit :=
  if bool_decide (env_sig_version env = Tapscript) then fail ScriptError.TapscriptCheckmultisig
  else
    let i := 1 in
    require i;;
    n ← num_at i SCRIPTNUM_SIZE_MAX;
    let key_count_i32 := ScriptNum.to_clamped_i32 n in
    if negb ((0 <=? key_count_i32) && (key_count_i32 <=? MAX_PUBKEYS_PER_MULTISIG))
    then fail ScriptError.PubkeyCount
    else
      key_count ← from (count_from key_count_i32);
      ops ← get_ op_count;
      put_ (fun m => set_op_count m (ops + key_count));;
      if MAX_OPS_PER_SCRIPT <? ops + key_count then fail ScriptError.OpCount
      else
        let ikey := i + 1 in
        let i := ikey + key_count in
        require i;;
        n ← num_at i SCRIPTNUM_SIZE_MAX;
        let sig_count_i32 := ScriptNum.to_clamped_i32 n in
        if (sig_count_i32 <? 0) || (key_count_i32 <? sig_count_i32) then fail ScriptError.SigCount
        else
          sig_count ← from (count_from sig_count_i32);
          let isig := i + 1 in
          let i := isig + sig_count in
          require i;;
          code ← multisig_script_code isig sig_count;
          success ← checkmultisig_verify ikey isig key_count sig_count code;
          pops (Z.to_nat (i - 1));;
          require 1;;
          dummy ← top 1;
          if ScriptFlags.contains (env_flags env) ScriptFlags.NULLDUMMY && negb (len dummy =? 0)
          then fail ScriptError.SigNulldummy
          else
            pop;;
            push_bool success;;
            if opcode =? OP_CHECKMULTISIGVERIFY then
              if negb success then fail ScriptError.Checkmultisigverify else pop;; mret tt
            else mret tt.

(** ** Dispatch *)

Definition is_one_of (ops : list Z) (opcode : Z) : bool := existsb (Z.eqb opcode) ops.

Definition op_verify : M unit :=
  require 1;;
  x ← top 1;
  if negb (cast_to_bool x) then fail ScriptError.Verify else pop;; mret tt.

Definition op_size : M unit :=
  require 1;;
  x ← top 1;
  size ← from (ScriptNum.from_usize (len x));
  push_num size.

(** [OP_ELSE] and [OP_ENDIF] inside [execute]. *)
Definition on_conditions
    (f : ConditionStack.ConditionStack -> outcome ScriptError ConditionStack.ConditionStack)
    : M unit :=
  c ← get_ conditions;
  if ConditionStack.is_empty c then fail ScriptError.UnbalancedConditional
  else c ← from (f c); put_ (fun m => set_conditions m c).

Definition execute (op : Op) (executing : bool) (opcode_index : Z) : M unit :=
  let opcode := op_opcode op in
  if (opcode =? OP_1NEGATE) || Opcode.in_range OP_1 OP_16 opcode then
    n ← from (Opcode.small_integer opcode);
    value ← from (ScriptNum.from_i64 n);
    push_num value
  else if is_one_of [OP_NOP; OP_NOP1] opcode || Opcode.in_range OP_NOP4 OP_NOP10 opcode then mret tt
  else if opcode =? OP_CHECKLOCKTIMEVERIFY then op_check_locktime
  else if opcode =? OP_CHECKSEQUENCEVERIFY then op_check_sequence
  else if is_one_of [OP_IF; OP_NOTIF] opcode then branch opcode executing
  else if opcode =? OP_ELSE then on_conditions ConditionStack.toggle_top
  else if opcode =? OP_ENDIF then on_conditions ConditionStack.pop
  else if opcode =? OP_VERIFY then op_verify
  else if opcode =? OP_RETURN then fail ScriptError.OpReturn
  else if Opcode.in_range OP_TOALTSTACK OP_2SWAP opcode then stack_op_pairs opcode
  else if Opcode.in_range OP_IFDUP OP_TUCK opcode then stack_op_singles opcode
  else if opcode =? OP_SIZE then op_size
  else if is_one_of [OP_EQUAL; OP_EQUALVERIFY] opcode then equal opcode
  else if is_one_of [OP_1ADD; OP_1SUB; OP_NEGATE; OP_ABS; OP_NOT; OP_0NOTEQUAL] opcode
  then numeric_unary opcode
  else if is_one_of [OP_ADD; OP_SUB] opcode || Opcode.in_range OP_BOOLAND OP_MAX opcode
  then numeric_binary opcode
  else if opcode =? OP_WITHIN then within
  else if Opcode.in_range OP_RIPEMD160 OP_HASH256 opcode then hash opcode
  else if opcode =? OP_CODESEPARATOR then
    put_ (fun m => set_codesep_start m (op_end op));;
    put_ (fun m => set_exec m (mkExec opcode_index (tapscript (exec m))))
  else if is_one_of [OP_CHECKSIG; OP_CHECKSIGVERIFY] opcode then checksig opcode
  else if opcode =? OP_CHECKSIGADD then checksigadd
  else if is_one_of [OP_CHECKMULTISIG; OP_CHECKMULTISIGVERIFY] opcode then checkmultisig opcode
  else fail ScriptError.BadOpcode.

(** ** The loop *)

(** The body of the [while let], for an opcode that was read. *)
Definition step (counts_ops : bool) (op : Op) (opcode_index : outcome ScriptError Z) : M unit :=
  if MAX_SCRIPT_ELEMENT_SIZE <? len (op_push op) then fail ScriptError.PushSize
  else
    (if counts_ops && Opcode.counts_toward_op_limit (op_opcode op) then
       ops ← get_ op_count;
       put_ (fun m => set_op_count m (ops + 1));;
       if MAX_OPS_PER_SCRIPT <? ops + 1 then fail ScriptError.OpCount else mret tt
     else mret tt);;
    if Opcode.is_disabled (op_opcode op) then fail ScriptError.DisabledOpcode
    else
      c ← get_ conditions;
      let executing := ConditionStack.all_true c in
      (if executing && Opcode.is_push (op_opcode op) then push (op_push op)
       else if executing || Opcode.is_conditional (op_opcode op) then
         index ← from opcode_index;
         execute op executing index
       else mret tt);;
      s ← get_ stack;
      a ← get_ altstack;
      if MAX_STACK_SIZE <? len s + len a then fail ScriptError.StackSize else mret tt.

(** [while let Some(step) = reader.next_op()]: every step consumes at least one byte. *)
Fixpoint run_loop (fuel : nat) (counts_ops : bool) (reader : Reader.Reader) : M unit :=
  match fuel with
  | O => panic
  | S fuel =>
      '(next, reader) ← from (Reader.next_op reader);
      match next with
      | None => mret tt
      | Some (inr e) => fail e
      | Some (inl op) =>
          step counts_ops op (Reader.opcode_index reader);;
          run_loop fuel counts_ops reader
      end
  end.

(** The stack and the execution data on return. *)
Definition eval_script (s : Stack.Stack) (e : ExecData) : outcome ScriptError (Stack.Stack * ExecData) :=
  assert_ (Bool.eqb (bool_decide (is_Some (tapscript e)))
    (bool_decide (env_sig_version env = Tapscript)));;
  let counts_ops := bool_decide (env_sig_version env <> Tapscript) in
  if counts_ops && (MAX_SCRIPT_SIZE <? len (env_script env)) then Err ScriptError.ScriptSize
  else
    let machine := {|
      stack := s;
      altstack := Stack.new;
      conditions := ConditionStack.new;
      op_count := 0;
      codesep_start := 0;
      exec := mkExec CODESEPARATOR_POS_NONE (tapscript e) |} in
    '(_, machine) ← run_loop (S (length (env_script env))) counts_ops
      (Reader.new (env_script env)) machine;
    assert_ (op_count machine <=? OP_COUNT_MAX);;
    if negb (ConditionStack.is_empty (conditions machine))
    then Err ScriptError.UnbalancedConditional
    else Ok (stack machine, exec machine).

End machine.
