(* ===== verification/SigScriptProofs.v ===== *)
(** * SigScriptProofs: strict DER and [FindAndDelete] do what BIP66 and Core say *)
From S2P Require Import Prelude Flags Script Reader SigScript.

(** ** Strict DER *)

Lemma at_ok {E} sig i : 0 <= i < len sig ->
  exists b, at_ (E:=E) sig i = Ok (bz b) /\ get sig i = Some b.
Proof.
  intros Hi. unfold at_. destruct (get_in_range sig i Hi) as [b Hb]. rewrite Hb.
  by exists b.
Qed.

Lemma high_bit_eq b : high_bit (bz b) = (128 <=? bz b).
Proof. by destruct b. Qed.

(** A positive integer of DER: not empty, not negative, no padding zero. *)
Definition der_integer (l : bytes) : Prop :=
  match l with
  | [] => False
  | [b] => bz b < 128
  | b :: c :: _ => bz b < 128 /\ (bz b = 0 -> 128 <= bz c)
  end.

(** [0x30 len 0x02 lenR R 0x02 lenS S hashtype]. *)
Definition der_signature (sig : bytes) : Prop :=
  exists r s h, der_integer r /\ der_integer s /\ len r + len s <= 66 /\
    sig = [x30; zb (len r + len s + 4); x02; zb (len r)] ++ r ++ [x02; zb (len s)] ++ s ++ [h].

Lemma get_S {A} (x : A) l i : 0 <= i -> get (x :: l) (i + 1) = get l i.
Proof.
  intros. unfold get. rewrite !(proj2 (Z.leb_le 0 _)) by lia.
  by replace (Z.to_nat (i + 1)) with (S (Z.to_nat i)) by lia.
Qed.

Lemma der_integer_eq l : der_integer l <->
  exists b, get l 0 = Some b /\ bz b < 128 /\
    (1 < len l -> bz b = 0 -> exists c, get l 1 = Some c /\ 128 <= bz c).
Proof.
  destruct l as [|b [|c l]]; cbn [der_integer].
  - split; [done|]. intros (b & Hb & _). done.
  - change (get [b] 0) with (Some b). change (len [b]) with 1. split.
    + intros. exists b. split_and!; [done..|lia].
    + intros (b' & [= <-] & ? & _). done.
  - change (get (b :: c :: l) 0) with (Some b). change (get (b :: c :: l) 1) with (Some c).
    rewrite !len_cons. pose proof (len_nonneg l). split.
    + intros [Hb Hc]. exists b. split_and!; [done..|]. intros _ Hz. eauto.
    + intros (b' & [= <-] & ? & Hc). split; [done|]. intros Hz.
      destruct (Hc ltac:(lia) Hz) as (c' & [= <-] & ?). done.
Qed.

Definition der_integer_b (l : bytes) : bool :=
  match l with
  | [] => false
  | [b] => negb (high_bit (bz b))
  | b :: c :: _ => negb (high_bit (bz b)) && negb ((bz b =? 0) && negb (high_bit (bz c)))
  end.

Lemma der_integer_b_spec l : der_integer_b l = true <-> der_integer l.
Proof.
  destruct l as [|b [|c l]]; cbn [der_integer_b der_integer]; rewrite ?high_bit_eq; [done|lia|lia].
Qed.

Lemma get_pre {A} (pre l : list A) i j : i = len pre + j -> 0 <= j -> get (pre ++ l) i = get l j.
Proof. intros -> Hj. rewrite get_app_r by lia. f_equal. lia. Qed.

(** The framed form of a signature: what the length bytes say it is. *)
Definition framed (a0 a1 a2 : byte) (r : bytes) (m0 : byte) (s : bytes) (h : byte) : bytes :=
  [a0; a1; a2; zb (len r)] ++ r ++ [m0; zb (len s)] ++ s ++ [h].

Lemma len_framed a0 a1 a2 r m0 s h : len (framed a0 a1 a2 r m0 s h) = len r + len s + 7.
Proof. unfold framed. cbn [app]. rewrite ?len_cons, ?len_app, ?len_cons, ?len_app, ?len_cons, len_nil. lia. Qed.

Section framed.
Context {E : Type} (a0 a1 a2 : byte) (r : bytes) (m0 : byte) (s : bytes) (h : byte).
Notation sig := (framed a0 a1 a2 r m0 s h).
Hypothesis Hsize : len r + len s <= 66.

Lemma framed_r i k : k = 4 + i -> 0 <= i < len r -> get sig k = get r i.
Proof.
  intros -> Hi. unfold framed. rewrite (get_pre _ _ (4 + i) i) by (reflexivity || lia).
  apply get_app_l. lia.
Qed.

Lemma framed_m i k : k = 4 + len r + i -> 0 <= i ->
  get sig k = get ([m0; zb (len s)] ++ s ++ [h]) i.
Proof.
  intros -> Hi. unfold framed. rewrite app_assoc. apply get_pre; [|done].
  rewrite len_app. change (len [a0; a1; a2; zb (len r)]) with 4. lia.
Qed.

Lemma framed_s i k : k = 6 + len r + i -> 0 <= i -> get sig k = get (s ++ [h]) i.
Proof. intros -> Hi. rewrite (framed_m (2 + i)) by lia. by apply get_pre. Qed.

Lemma at_framed i b : get sig i = Some b -> at_ (E:=E) sig i = Ok (bz b).
Proof. intros Hg. unfold at_. by rewrite Hg. Qed.

(** The bytes of [R], read at fixed offsets, say whether it is a DER integer. *)
Lemma framed_der_r b4 b5 : get sig 4 = Some b4 -> get sig 5 = Some b5 ->
  der_integer_b r = negb ((len r =? 0) || high_bit (bz b4)) &&
    negb ((1 <? len r) && (bz b4 =? 0) && negb (high_bit (bz b5))).
Proof.
  intros H4 H5. pose proof framed_r as Hr. destruct r as [|b [|c r']]; [done|..].
  - rewrite (Hr 0) in H4 by done. injection H4 as ->.
    cbn [der_integer_b]. change (len [b4]) with 1. cbn. by rewrite andb_true_r.
  - assert (1 < len (b :: c :: r')) by (rewrite !len_cons; pose proof (len_nonneg r'); lia).
    rewrite (Hr 0) in H4 by lia. rewrite (Hr 1) in H5 by lia.
    injection H4 as ->. injection H5 as ->.
    by rewrite (proj2 (Z.eqb_neq (len _) 0)), (proj2 (Z.ltb_lt 1 (len _))) by lia.
Qed.

(** The same for [S], whose offset depends on the length of [R]. *)
Lemma framed_der_s b6 : get sig (len r + 6) = Some b6 -> s <> [] ->
  (if high_bit (bz b6) then Ok false else if 1 <? len s then
     s7 ← at_ sig (len r + 7); if (bz b6 =? 0) && negb (high_bit s7) then Ok false else Ok true
   else Ok true) = Ok (E:=E) (der_integer_b s).
Proof.
  intros H6 Hne. pose proof framed_s as Hs. pose proof at_framed as Hat.
  destruct s as [|b [|c s']]; [done|..]; rewrite (Hs 0) in H6 by lia; injection H6 as ->.
  - change (1 <? len [b6]) with false. cbn [der_integer_b]. by destruct (high_bit (bz b6)).
  - rewrite (proj2 (Z.ltb_lt 1 (len _))) by (rewrite !len_cons; pose proof (len_nonneg s'); lia).
    rewrite (Hat (len r + 7) c) by (by rewrite (Hs 1) by lia).
    run. cbn [der_integer_b]. destruct (high_bit (bz b6)); cbn [negb andb]; [done|].
    by destruct ((bz b6 =? 0) && negb (high_bit (bz c))).
Qed.

Lemma valid_framed : 9 <= len sig ->
  is_valid_signature_encoding (E:=E) sig =
    Ok ((bz a0 =? 0x30) && (bz a1 =? len sig - 3) && (bz a2 =? 2) && der_integer_b r &&
        (bz m0 =? 2) && der_integer_b s).
Proof.
  intros Hlen. pose proof (len_nonneg r). pose proof (len_nonneg s).
  pose proof (len_framed a0 a1 a2 r m0 s h) as Hl.
  unfold is_valid_signature_encoding.
  rewrite (proj2 (Z.ltb_ge (len sig) 9)), (proj2 (Z.ltb_ge 73 (len sig))) by lia. cbn [orb].
  rewrite (at_framed 0 a0), (at_framed 1 a1) by done. run.
  destruct (bz a0 =? 0x30); cbn [negb orb andb]; [|done].
  destruct (bz a1 =? len sig - 3); cbn [negb orb andb]; [|done].
  rewrite (at_framed 3 (zb (len r))) by done. run. rewrite bz_zb_id by lia.
  rewrite (proj2 (Z.leb_gt (len sig) _)) by lia.
  rewrite (at_framed (5 + len r) (zb (len s)))
    by (by rewrite (framed_m 1) by lia).
  run. rewrite bz_zb_id, (proj2 (Z.eqb_eq (len r + len s + 7) _)) by lia. run.
  rewrite (at_framed 2 a2) by done. run.
  destruct (get_in_range sig 4 ltac:(lia)) as [b4 H4], (get_in_range sig 5 ltac:(lia)) as [b5 H5],
    (get_in_range sig (len r + 6) ltac:(lia)) as [b6 H6].
  rewrite (at_framed 4 b4), (at_framed 5 b5), (at_framed (len r + 6) b6) by done. run.
  rewrite (at_framed (len r + 4) m0)
    by (by rewrite (framed_m 0) by lia). run.
  rewrite (framed_der_r b4 b5) by done.
  destruct (bz a2 =? 2); cbn [negb orb andb]; [|done].
  destruct ((len r =? 0) || high_bit (bz b4)); cbn [negb andb]; [done|].
  destruct ((1 <? len r) && (bz b4 =? 0) && negb (high_bit (bz b5))); cbn [negb andb]; [done|].
  destruct (bz m0 =? 2); cbn [negb orb andb]; [|done].
  destruct (Z.eqb_spec (len s) 0) as [Hz|].
  - destruct s as [|b s']; [done|rewrite len_cons in Hz; pose proof (len_nonneg s'); lia].
  - apply framed_der_s; [done|]. intros Hs. apply (f_equal len) in Hs. by rewrite len_nil in Hs.
Qed.

End framed.

Lemma at_Ok_get {E} sig i v : at_ (E:=E) sig i = Ok v -> exists b, get sig i = Some b /\ bz b = v.
Proof. unfold at_. destruct (get sig i) as [b|]; intros [= <-]. eauto. Qed.

(** Consistent length bytes frame the signature. *)
Lemma unframe sig br bs : get sig 3 = Some br -> get sig (5 + bz br) = Some bs ->
  bz br + bz bs + 7 = len sig -> exists a0 a1 a2 r m0 s h,
    sig = framed a0 a1 a2 r m0 s h /\ len r = bz br /\ len s = bz bs.
Proof.
  intros H3 H5 Hlen. pose proof (bz_range br). pose proof (bz_range bs).
  destruct sig as [|a0 [|a1 [|a2 [|a3 rest]]]]; try discriminate H3. injection H3 as ->.
  rewrite !len_cons in Hlen. set (r := take (Z.to_nat (bz br)) rest).
  assert (Hr : len r = bz br) by (unfold r, len in *; rewrite length_take; lia).
  assert (Hd : len (drop (Z.to_nat (bz br)) rest) = bz bs + 3)
    by (unfold len in *; rewrite length_drop; lia).
  destruct (drop (Z.to_nat (bz br)) rest) as [|m0 [|m1 tail]] eqn:Hdrop;
    [rewrite ?len_cons, len_nil in Hd; lia..|]. rewrite !len_cons in Hd.
  destruct tail as [|h s _] using rev_ind; [rewrite len_nil in Hd; lia|].
  rewrite len_app in Hd. change (len [h]) with 1 in Hd.
  assert (Hrest : rest = r ++ m0 :: m1 :: s ++ [h])
    by (rewrite <-Hdrop; symmetry; apply take_drop).
  assert (m1 = bs) as ->.
  { rewrite Hrest in H5. change (a0 :: a1 :: a2 :: br :: r ++ m0 :: m1 :: s ++ [h])
      with ([a0; a1; a2; br] ++ r ++ [m0] ++ m1 :: s ++ [h]) in H5.
    rewrite !app_assoc in H5.
    rewrite (get_pre _ _ _ 0) in H5 by (rewrite ?len_app; change (len [a0; a1; a2; br]) with 4;
      change (len [m0]) with 1; lia). by injection H5. }
  exists a0, a1, a2, r, m0, s, h. split_and!; [|done|lia].
  unfold framed. rewrite Hrest, Hr. replace (len s) with (bz bs) by lia. by rewrite !zb_bz.
Qed.

Lemma valid_frame {E} sig : is_valid_signature_encoding (E:=E) sig = Ok true ->
  9 <= len sig <= 73 /\ exists a0 a1 a2 r m0 s h, sig = framed a0 a1 a2 r m0 s h.
Proof.
  unfold is_valid_signature_encoding. intros Hv.
  destruct ((len sig <? 9) || (73 <? len sig)) eqn:Hsize; [done|].
  apply bind_Ok in Hv as (b0 & _ & Hv). apply bind_Ok in Hv as (b1 & _ & Hv).
  destruct (negb (b0 =? 0x30) || _); [done|].
  apply bind_Ok in Hv as (lr & Hlr & Hv). apply at_Ok_get in Hlr as (br & Hbr & <-).
  destruct (len sig <=? 5 + bz br); [done|].
  apply bind_Ok in Hv as (ls & Hls & Hv). apply at_Ok_get in Hls as (bs & Hbs & <-).
  destruct (Z.eqb_spec (bz br + bz bs + 7) (len sig)) as [Heq|]; [|done].
  destruct (unframe sig br bs Hbr Hbs Heq) as (a0 & a1 & a2 & r & m0 & s & h & Hf & _).
  split; [lia|]. by exists a0, a1, a2, r, m0, s, h.
Qed.

(** Reads a byte whose index is in range. *)
Ltac read_at :=
  match goal with
  | |- context [at_ (E:=?E) ?sig ?i] =>
      let b := fresh "b" in let Hb := fresh "Hb" in
      destruct (at_ok (E:=E) sig i) as (b & Hb & _); [lia|]; rewrite Hb; clear Hb; run;
      pose proof (bz_range b)
  end.

Lemma valid_total {E} sig : exists b, is_valid_signature_encoding (E:=E) sig = Ok b.
Proof.
  unfold is_valid_signature_encoding.
  destruct ((len sig <? 9) || (73 <? len sig)) eqn:Hsize; [eauto|].
  apply orb_false_iff in Hsize as [?%Z.ltb_ge ?%Z.ltb_ge].
  repeat match goal with
  | |- exists b, Ok _ = Ok b => eauto
  | |- context [at_ _ _] => read_at
  | |- context [if ?b then _ else _] => destruct b eqn:?
  end.
Qed.

Lemma der_integer_nonempty l : der_integer l -> 1 <= len l.
Proof. destruct l as [|b l]; [done|]. rewrite len_cons. pose proof (len_nonneg l). lia. Qed.

Lemma valid_iff {E} sig : is_valid_signature_encoding (E:=E) sig = Ok true <-> der_signature sig.
Proof.
  split.
  - intros Hv. destruct (valid_frame sig Hv) as (Hsize & a0 & a1 & a2 & r & m0 & s & h & ->).
    rewrite len_framed in Hsize. pose proof (len_framed a0 a1 a2 r m0 s h) as Hl.
    rewrite valid_framed in Hv by lia. injection Hv as Hv.
    rewrite !andb_true_iff, !der_integer_b_spec, !Z.eqb_eq, Hl in Hv.
    destruct Hv as (((((H0 & H1) & H2) & Hr) & Hm) & Hs).
    exists r, s, h. split_and!; try done; [lia|]. unfold framed.
    repeat f_equal; apply bz_inj; rewrite ?bz_zb_id; try done; lia.
  - intros (r & s & h & Hr & Hs & Hle & ->).
    pose proof (der_integer_nonempty r Hr). pose proof (der_integer_nonempty s Hs).
    pose proof (len_framed x30 (zb (len r + len s + 4)) x02 r x02 s h) as Hl.
    change ([x30; zb (len r + len s + 4); x02; zb (len r)] ++ r ++ [x02; zb (len s)] ++ s ++ [h])
      with (framed x30 (zb (len r + len s + 4)) x02 r x02 s h).
    rewrite valid_framed by lia. rewrite Hl, bz_zb_id by lia.
    apply der_integer_b_spec in Hr, Hs. rewrite Hr, Hs.
    rewrite (proj2 (Z.eqb_eq (len r + len s + 4) _)) by lia. done.
Qed.

(** ** [FindAndDelete] *)

(** Core's walk, without positions: at an opcode boundary a copy of the pattern is dropped;
    otherwise one whole opcode is kept, or the rest when the opcode is truncated. *)
Inductive deletes (pattern : bytes) : bytes -> bytes -> nat -> Prop :=
| deletes_end : deletes pattern [] [] 0
| deletes_copy l r n : deletes pattern l r n -> deletes pattern (pattern ++ l) r (S n)
| deletes_op o op l r n : ~ pattern `prefix_of` (op ++ l) ->
    read_op (E:=Empty_set) (op ++ l) 0 = Ok (ReadOp o (len op)) ->
    deletes pattern l r n -> deletes pattern (op ++ l) (op ++ r) n
| deletes_truncated k l : ~ pattern `prefix_of` l ->
    read_op (E:=Empty_set) l 0 = Ok (Truncated k) -> deletes pattern l l 0.

Lemma deletes_length pattern l r n : deletes pattern l r n ->
  len r + Z.of_nat n * len pattern = len l.
Proof. induction 1; rewrite ?len_app in *; lia. Qed.

Lemma deletes_zero pattern l r n : deletes pattern l r n -> n = 0%nat -> r = l.
Proof. induction 1; intros; simplify_eq; auto. by rewrite IHdeletes. Qed.

Definition shift_read (k : Z) (r : OpRead) : OpRead :=
  match r with ReadOp o n => ReadOp o (k + n) | Truncated n => Truncated (k + n) end.

Lemma slice_shift {A} (pre l : list A) a b : 0 <= a -> slice (pre ++ l) (len pre + a) (len pre + b) = slice l a b.
Proof.
  intros Ha. unfold slice. rewrite len_app. pose proof (len_nonneg pre).
  replace (len pre + b - (len pre + a)) with (b - a) by lia.
  replace (Z.to_nat (len pre + a)) with (length pre + Z.to_nat a)%nat by (unfold len; lia).
  rewrite drop_app_add.
  replace (0 <=? len pre + a) with (0 <=? a) by lia.
  replace (len pre + a <=? len pre + b) with (a <=? b) by lia.
  by replace (len pre + b <=? len pre + len l) with (b <=? len l) by lia.
Qed.

(** Reading does not look behind the cursor. *)
Lemma read_op_shift {E F} pre l p : 0 <= p < len l ->
  exists r, read_op (E:=E) l p = Ok r /\ read_op (E:=F) (pre ++ l) (len pre + p) = Ok (shift_read (len pre) r).
Proof.
  intros Hp. destruct (read_op_ok (E:=E) l p Hp) as (r & Hr & _). exists r. split; [done|].
  revert Hr. unfold read_op. pose proof (len_nonneg pre).
  rewrite len_app, (proj2 (Z.ltb_lt p (len l))), (proj2 (Z.ltb_lt (_ + p) _)) by lia. run.
  rewrite get_pre with (j := p) by lia. destruct (get_in_range l p Hp) as [b ->]. cbn. run.
  destruct (OP_PUSHDATA4 <? bz b); [intros [= <-]; cbn; do 2 f_equal; lia|].
  replace (len pre + p + 1) with (len pre + (p + 1)) by lia.
  replace (len pre + (p + 1) + size_field_len (bz b)) with (len pre + (p + 1 + size_field_len (bz b))) by lia.
  rewrite slice_shift by lia.
  destruct (slice l (p + 1) (p + 1 + size_field_len (bz b))) as [f|]; [|by intros [= <-]].
  intros Hr. apply bind_Ok in Hr as (d & Hd & Hr). apply bind_Ok in Hr as (u & Hu & Hr).
  apply assert_Ok in Hu.
  assert (Hd' : match f with [] => Ok (bz b) | [_] | [_; _] | [_; _; _; _] => Ok (le_val f)
    | _ => Panic end = Ok (E:=F) d) by (destruct f as [|? [|? [|? [|? [|]]]]]; by simplify_eq).
  rewrite Hd'. run. rewrite (proj2 (Z.leb_le (len pre + _) _)) by lia. run.
  replace (len pre + len l - (len pre + (p + 1 + size_field_len (bz b))))
    with (len l - (p + 1 + size_field_len (bz b))) by lia.
  destruct (_ <? d); [by injection Hr as <-|].
  apply bind_Ok in Hr as (v & Hv & Hr). apply assert_Ok in Hv. injection Hr as <-.
  rewrite (proj2 (Z.leb_le (_ + d) _)) by lia. cbn. do 2 f_equal. lia.
Qed.

Lemma slice_prefix (l p : bytes) : slice l 0 (len p) = Some p <-> p `prefix_of` l.
Proof.
  split.
  - intros (_ & _ & Hp)%slice_Some. exists (drop (length p) l). rewrite Hp at 1.
    replace (Z.to_nat (len p - 0)) with (length p) by (unfold len; lia). by rewrite take_drop.
  - intros [k ->]. apply (slice_middle []); unfold len; cbn; lia.
Qed.

Lemma skip_copies_ok {E} pattern : pattern <> [] -> forall fuel script pre l found,
  script = pre ++ l -> (length l < fuel)%nat ->
  exists n l', skip_copies (E:=E) fuel script pattern (len pre) found =
      Ok (len pre + Z.of_nat n * len pattern, found + Z.of_nat n) /\
    l = concat (repeat pattern n) ++ l' /\ ~ pattern `prefix_of` l'.
Proof.
  intros Hne. assert (0 < length pattern)%nat by (destruct pattern; [done|cbn; lia]).
  induction fuel as [|fuel IH]; intros script pre l found -> Hf; [lia|]. cbn [skip_copies].
  replace (slice (pre ++ l) (len pre) (len pre + len pattern)) with (slice l 0 (len pattern))
    by (by rewrite <-(slice_shift pre l 0), Z.add_0_r).
  destruct (decide (pattern `prefix_of` l)) as [Hp|Hp].
  - pose proof Hp as [k ->]. rewrite bool_decide_eq_true_2 by (by apply slice_prefix).
    rewrite (proj2 (Z.leb_le _ _)) by (rewrite !len_app; pose proof (len_nonneg k); lia). cbn [andb].
    rewrite length_app in Hf.
    destruct (IH (pre ++ pattern ++ k) (pre ++ pattern) k (found + 1)) as (n & l' & Heq & Hk & Hl');
      [by rewrite app_assoc|lia|].
    rewrite len_app in Heq. rewrite Heq. exists (S n), l'. split_and!; [do 2 f_equal; lia| |done].
    cbn [repeat concat]. by rewrite <-app_assoc, <-Hk.
  - rewrite (bool_decide_eq_false_2 (slice l 0 _ = _)) by (by rewrite slice_prefix).
    rewrite andb_false_r. exists 0%nat, l. split_and!; [do 2 f_equal; lia|done|done].
Qed.

Lemma deletes_copies pattern n l r k : deletes pattern l r k ->
  deletes pattern (concat (repeat pattern n) ++ l) r (n + k).
Proof.
  intros Hd. induction n as [|n IH]; [done|]. cbn [repeat concat Nat.add].
  rewrite <-app_assoc. by constructor.
Qed.

Lemma len_concat_repeat (p : bytes) n : len (concat (repeat p n)) = Z.of_nat n * len p.
Proof. induction n as [|n IH]; [done|]. cbn [repeat concat]. rewrite len_app, IH. lia. Qed.

Lemma slice_from_app {A} (l k : list A) : slice_from (l ++ k) (len l) = Some k.
Proof.
  unfold slice_from. rewrite <-(app_nil_r k) at 1. rewrite len_app. by apply slice_middle.
Qed.

(** The loop from an opcode boundary: it returns, and what it and the tail copied at the end
    add to [result] is what Core's walk leaves of the rest. *)
Lemma delete_loop_ok {E} pattern : pattern <> [] -> forall it script pre2 chunk l result found,
  script = pre2 ++ chunk ++ l -> (length l < it)%nat ->
  exists res n r pc2 rest,
    delete_loop (E:=E) it script pattern result found (len pre2 + len chunk) (len pre2)
      = Ok (res, found + Z.of_nat n, pc2) /\
    slice_from script pc2 = Some rest /\ res ++ rest = result ++ chunk ++ r /\
    deletes pattern l r n.
Proof.
  intros Hne. induction it as [|it IH]; intros script pre2 chunk l result found -> Hit; [lia|].
  cbn [delete_loop]. rewrite slice_middle by done. run.
  destruct (skip_copies_ok (E:=E) pattern Hne (S (length (pre2 ++ chunk ++ l)))
    (pre2 ++ chunk ++ l) (pre2 ++ chunk) l found) as (n & l' & Hskip & Hl & Hnp);
    [by rewrite app_assoc|rewrite !length_app; lia|].
  rewrite len_app in Hskip. rewrite Hskip. run.
  set (pre := (pre2 ++ chunk) ++ concat (repeat pattern n)).
  assert (Hpre : len pre = len pre2 + len chunk + Z.of_nat n * len pattern)
    by (unfold pre; rewrite !len_app, len_concat_repeat; lia).
  assert (Hs : pre2 ++ chunk ++ l = pre ++ l') by (unfold pre; rewrite Hl, <-!app_assoc; done).
  rewrite <-Hpre, Hs. rewrite len_app.
  destruct (Z.leb_spec (len pre + len l') (len pre)) as [Hend|Hmore].
  { assert (l' = []) as -> by (destruct l'; [done|rewrite len_cons in Hend; pose proof (len_nonneg l'); lia]).
    exists (result ++ chunk), n, [], (len pre), []. split_and!; [done|apply slice_from_app| |].
    - by rewrite !app_nil_r.
    - rewrite Hl. pose proof (deletes_copies pattern n [] [] 0) as Hc. rewrite Nat.add_0_r in Hc.
      apply Hc. constructor. }
  destruct (read_op_shift (E:=Empty_set) (F:=E) pre l' 0) as (o & Ho & Hread); [lia|].
  rewrite Z.add_0_r in Hread. rewrite Hread. run. destruct o as [o k|k]; cbn [shift_read].
  - destruct (read_op_ok (E:=Empty_set) l' 0) as (o' & Ho' & Hk); [lia|].
    rewrite Ho in Ho'. injection Ho' as <-. destruct Hk as (_ & Hk & _).
    set (op := take (Z.to_nat k) l'). set (l'' := drop (Z.to_nat k) l').
    assert (Hop : l' = op ++ l'') by (symmetry; apply take_drop).
    assert (Hlen : len op = k) by (unfold op, len in *; rewrite length_take; lia).
    destruct (IH (pre ++ l') pre op l'' (result ++ chunk) (found + Z.of_nat n))
      as (res & m & r & pc2 & rest & Hres & Hrest & Heq & Hd); [by rewrite Hop|..].
    { apply (f_equal length) in Hl, Hop. rewrite !length_app in Hl, Hop. unfold len in Hlen. lia. }
    rewrite Hlen in Hres. rewrite Hres.
    exists res, (n + m)%nat, (op ++ r), pc2, rest. split_and!; [do 3 f_equal; lia|done| |].
    + by rewrite Heq, <-app_assoc.
    + rewrite Hl. apply deletes_copies. rewrite Hop in Hnp, Ho |- *.
      apply (deletes_op _ o); [done|by rewrite Hlen|done].
  - exists (result ++ chunk), n, l', (len pre), l'. split_and!; [done|apply slice_from_app| |].
    + by rewrite <-app_assoc.
    + rewrite Hl. pose proof (deletes_copies pattern n l' l' 0) as Hc. rewrite Nat.add_0_r in Hc.
      apply Hc. by apply (deletes_truncated _ k).
Qed.

Lemma find_and_delete_ok {E} script pattern : pattern <> [] ->
  exists r n, find_and_delete (E:=E) script pattern = Ok (r, Z.of_nat n) /\
    deletes pattern script r n.
Proof.
  intros Hne. unfold find_and_delete.
  rewrite (proj2 (Z.eqb_neq _ 0)) by (destruct pattern; [done|rewrite len_cons; pose proof (len_nonneg pattern); lia]).
  destruct (delete_loop_ok (E:=E) pattern Hne (S (length script)) script [] [] script [] 0)
    as (res & n & r & pc2 & rest & Hres & Hrest & Heq & Hd); [done|lia|].
  change (len [] + len []) with 0 in Hres. change (len []) with 0 in Hres. rewrite Hres. run.
  exists r, n. destruct (Z.eqb_spec (0 + Z.of_nat n) 0) as [H0|Hn].
  - rewrite (deletes_zero pattern script r n) by (done || lia).
    replace n with 0%nat by lia. split; [done|]. replace n with 0%nat in Hd by lia.
    by rewrite (deletes_zero pattern script r 0) in Hd by done.
  - rewrite Hrest. run. cbn [app] in Heq. rewrite Heq. pose proof (deletes_length _ _ _ _ Hd).
    rewrite (proj2 (Z.eqb_eq _ _)) by lia. run. split; [|done]. do 2 f_equal; lia.
Qed.

Lemma app_split_len {A} (a b c d : list A) : a ++ b = c ++ d -> len a = len c -> a = c /\ b = d.
Proof. intros He Hl. apply app_inj_1; [unfold len in Hl; lia|done]. Qed.

(** The walk is a function of the script. *)
Lemma deletes_det pattern l r n : pattern <> [] -> deletes pattern l r n ->
  forall r' n', deletes pattern l r' n' -> r' = r /\ n' = n.
Proof.
  intros Hne Hd. induction Hd as [|l r n Hd IH|o op l r n Hnp Ho Hd IH|k l Hnp Ho];
    intros r' n' Hd'.
  - inversion Hd' as [|? ? ? ? Heq|? ? ? ? ? ? Hr ? Heq|? ? ? Hr]; subst; try done.
    + by apply app_nil in Heq as [-> _].
    + rewrite Heq in Hr. cbn in Hr. discriminate Hr.
  - inversion Hd' as [Heq|l0 ? n0 Hd0 Heq|? ? l0 ? ? Hnp ? ? Heq|? ? Hnp]; subst.
    + by apply eq_sym, app_nil in Heq as [-> _].
    + apply app_inv_head in Heq as ->. destruct (IH _ _ Hd0) as [-> ->]. done.
    + rewrite Heq in Hnp. destruct Hnp. by exists l.
    + destruct Hnp. by exists l.
  - inversion Hd' as [Heq|l0 ? ? ? Heq|o0 op0 l0 r0 n0 ? Ho0 Hd0 Heq|? ? ? Ho0]; subst.
    + rewrite <-Heq in Ho. discriminate Ho.
    + destruct Hnp. rewrite <-Heq. by exists l0.
    + rewrite Heq, Ho in Ho0. injection Ho0 as _ Hlen.
      apply app_split_len in Heq as [-> ->]; [|lia]. destruct (IH _ _ Hd0) as [-> ->]. done.
    + rewrite Ho in Ho0. discriminate Ho0.
  - inversion Hd' as [Heq|l0 ? ? ? Heq|o0 op0 l0 r0 n0 ? Ho0 Hd0 Heq|? ? ? Ho0]; subst; try done.
    + destruct Hnp. by exists l0.
    + rewrite Ho in Ho0. discriminate Ho0.
Qed.

(** ** Properties *)

(** [is_valid_signature_encoding] accepts exactly the strict DER signatures of BIP66:
    [0x30 len 0x02 lenR R 0x02 lenS S hashtype] with consistent lengths and [R], [S]
    non-negative integers without padding; no byte string makes it read out of range. *)
Theorem strict_der_iff sig : exists b,
  is_valid_signature_encoding (E:=Empty_set) sig = Ok b /\ (b = true <-> der_signature sig).
Proof.
  destruct (valid_total (E:=Empty_set) sig) as [b Hb]. exists b. split; [done|].
  rewrite <-(valid_iff (E:=Empty_set)), Hb. split; [by intros ->|by intros [= ->]].
Qed.

(** [find_and_delete] terminates within its iteration bound and never panics; its
    result is the one Core's position-free walk defines (copies of the pattern dropped at
    opcode boundaries, whole opcodes kept, everything kept from a truncated push on), the
    walk defines only one result, and the lengths balance. *)
Theorem find_and_delete_refines script pattern : pattern <> [] ->
  exists r n, find_and_delete (E:=Empty_set) script pattern = Ok (r, Z.of_nat n) /\
    deletes pattern script r n /\
    (forall r' n', deletes pattern script r' n' -> r' = r /\ n' = n) /\
    len r + Z.of_nat n * len pattern = len script.
Proof.
  intros Hne. destruct (find_and_delete_ok (E:=Empty_set) script pattern Hne) as (r & n & Hf & Hd).
  exists r, n. split_and!; [done|done|by apply deletes_det|by apply deletes_length].
Qed.

(** Two adjacent copies go, the third is push data and stays. *)
Lemma find_and_delete_refines_witness :
  exists r n, find_and_delete (E:=Empty_set) [xac; xac; x01; xac; x51] [xac] = Ok (r, Z.of_nat n) /\
    r = [x01; xac; x51] /\ n = 2%nat.
Proof.
  destruct (find_and_delete_refines [xac; xac; x01; xac; x51] [xac]) as (r & n & Hf & _).
  - discriminate.
  - exists r, n. split; [exact Hf|].
    assert (Hc : find_and_delete (E:=Empty_set) [xac; xac; x01; xac; x51] [xac] =
      Ok ([x01; xac; x51], 2)) by (vm_compute; reflexivity).
    rewrite Hc in Hf. injection Hf as <- Hn. split; [reflexivity|lia].
Defined.
