(* ===== verification/InterpreterProofs.v ===== *)
(** * InterpreterProofs: the interpreter never panics, and its stack stays bounded

    A small Hoare logic over the machine ([holds]) with one rule per primitive; the proof
    of an opcode is then automatic ([wp]). *)
From S2P Require Import Prelude Bitcoin Flags Script ScriptNum Reader Stack SigScript Interpreter SigScriptProofs.

Definition holds {A} (x : M A) (m : Machine) (Q : A -> Machine -> Prop) : Prop :=
  ensures (x m) (fun r => Q r.1 r.2).

Section rules.
Context {A B : Type}.
Implicit Types (Q : A -> Machine -> Prop) (m : Machine).

Lemma holds_bind (x : M A) (f : A -> M B) m (Q : B -> Machine -> Prop) :
  holds x m (fun a m' => holds (f a) m' Q) -> holds (x ≫= f) m Q.
Proof.
  unfold holds, mbind, M_bind. destruct (x m) as [[a m']|e|]; intros Hx; exact Hx.
Qed.

Lemma holds_ret (a : A) m Q : Q a m -> holds (mret a) m Q.
Proof. done. Qed.

Lemma holds_fail e m Q : holds (fail e) m Q.
Proof. done. Qed.

Lemma holds_get (f : Machine -> A) m Q : Q (f m) m -> holds (get_ f) m Q.
Proof. done. Qed.

Lemma holds_put f m (Q : unit -> Machine -> Prop) : Q tt (f m) -> holds (put_ f) m Q.
Proof. done. Qed.

Lemma holds_from (o : outcome ScriptError A) m Q : ensures o (fun a => Q a m) -> holds (from o) m Q.
Proof. unfold holds, from. by destruct o. Qed.

Lemma holds_from_ok (o : outcome ScriptError A) a m Q : o = Ok a -> Q a m -> holds (from o) m Q.
Proof. intros ->. done. Qed.

Lemma holds_mono (x : M A) m (Q R : A -> Machine -> Prop) :
  holds x m Q -> (forall a m', Q a m' -> R a m') -> holds x m R.
Proof. intros Hx HQR. eapply ensures_mono; [exact Hx|]. intros [a m']. apply HQR. Qed.
End rules.

(** ** The invariant *)

(** Depth and outermost false agree, and the nest is at most [k] deep. *)
Definition cond_ok (k : Z) (c : ConditionStack.ConditionStack) : Prop :=
  0 <= ConditionStack.depth c <= k /\
  match ConditionStack.first_false c with
  | None => True
  | Some f => 0 <= f < ConditionStack.depth c
  end.

Definition exec_ok (v : SigVersion) (e : ExecData) : Prop :=
  match tapscript e with
  | None => v <> Tapscript
  | Some ts => v = Tapscript /\ 0 <= validation_weight_left ts < 2 ^ 62 /\ annex_ok (annex ts)
  end.

Section safety.
Context `{HL : HashLengths} `{SL : SigCheckerLaws} (env : Env).

Record inv (k : Z) (m : Machine) : Prop := {
  inv_stack : Stack.items_ok (stack m);
  inv_altstack : Stack.items_ok (altstack m);
  inv_conditions : cond_ok k (conditions m);
  inv_op_count : 0 <= op_count m <= MAX_OPS_PER_SCRIPT;
  inv_codesep : 0 <= codesep_start m <= len (env_script env);
  inv_script : len (env_script env) <= 10001;
  inv_exec : exec_ok (env_sig_version env) (exec m);
}.

Lemma inv_mono k k' m : k <= k' -> inv k m -> inv k' m.
Proof. intros Hk []; constructor; auto. unfold cond_ok in *. split; [lia|tauto]. Qed.

Lemma inv_set_stack k m s : inv k m -> Stack.items_ok s -> inv k (set_stack m s).
Proof. by intros [] ?. Qed.

Lemma inv_set_altstack k m s : inv k m -> Stack.items_ok s -> inv k (set_altstack m s).
Proof. by intros [] ?. Qed.

Lemma inv_set_conditions k m c : inv k m -> cond_ok k c -> inv k (set_conditions m c).
Proof. by intros [] ?. Qed.

Lemma items_ok_snoc s x : Stack.items_ok s -> len x <= 520 -> Stack.items_ok (s ++ [x]).
Proof. intros. apply Forall_app. split; [done|]. by apply Forall_singleton. Qed.

Lemma items_ok_elem s x : Stack.items_ok s -> x ∈ s -> len x <= 520.
Proof. unfold Stack.items_ok. rewrite Forall_forall. auto. Qed.

Section primitives.
Context (k : Z).
Implicit Types m : Machine.

Lemma holds_require n m (Q : unit -> Machine -> Prop) :
  (n <= len (stack m) -> Q tt m) -> holds (require n) m Q.
Proof.
  intros HQ. unfold require. apply holds_from. unfold Stack.require.
  destruct (Z.ltb_spec (len (stack m)) n); [done|]. apply HQ. lia.
Qed.

Lemma holds_top d m (Q : bytes -> Machine -> Prop) : inv k m -> 1 <= d <= len (stack m) ->
  (forall x, len x <= 520 -> Q x m) -> holds (top d) m Q.
Proof.
  intros Hi Hd HQ. unfold top. destruct (Stack.top_ok (E:=ScriptError) (stack m) d Hd) as (x & Hx & Hin & _).
  eapply holds_from_ok; [exact Hx|]. apply HQ. eapply items_ok_elem; eauto. apply Hi.
Qed.

Lemma holds_push x m (Q : unit -> Machine -> Prop) : inv k m -> len x <= 520 ->
  (forall m', inv k m' -> len (stack m') = len (stack m) + 1 -> altstack m' = altstack m ->
     Q tt m') -> holds (push x) m Q.
Proof.
  intros Hi Hx HQ. unfold push. apply holds_bind, holds_get, holds_bind.
  eapply holds_from_ok; [by apply Stack.push_eq|]. apply holds_put. apply HQ.
  - apply inv_set_stack; [done|]. apply items_ok_snoc; [apply Hi|done].
  - cbn [set_stack stack]. by rewrite len_app.
  - done.
Qed.

Lemma holds_push_bool b m (Q : unit -> Machine -> Prop) : inv k m ->
  (forall m', inv k m' -> len (stack m') = len (stack m) + 1 -> altstack m' = altstack m ->
     Q tt m') -> holds (push_bool b) m Q.
Proof.
  intros Hi HQ. change (push_bool b) with (push (if b then [x01] else [])).
  apply holds_push; [exact Hi|destruct b; vm_compute; congruence|exact HQ].
Qed.

Lemma holds_pop m (Q : bytes -> Machine -> Prop) : inv k m -> 1 <= len (stack m) ->
  (forall x m', inv k m' -> len x <= 520 -> len (stack m') = len (stack m) - 1 ->
     altstack m' = altstack m -> Q x m') -> holds pop m Q.
Proof.
  intros Hi Hl HQ. unfold pop. apply holds_bind, holds_get, holds_bind.
  destruct (Stack.pop_ok (E:=ScriptError) (stack m) Hl) as (x & t & Hp & Heq).
  pose proof (inv_stack k m Hi) as Hs. rewrite Heq in Hs.
  apply Forall_app in Hs as [Ht Hx]. rewrite Forall_singleton in Hx.
  eapply holds_from_ok; [exact Hp|]. apply holds_bind, holds_put, holds_ret. apply HQ; [|exact Hx| |done].
  - by apply inv_set_stack.
  - cbn [set_stack stack]. rewrite Heq, len_app. change (len [x]) with 1. lia.
Qed.

Lemma holds_swap a b m (Q : unit -> Machine -> Prop) : inv k m ->
  1 <= a <= len (stack m) -> 1 <= b <= len (stack m) ->
  (forall m', inv k m' -> len (stack m') = len (stack m) -> Q tt m') -> holds (swap a b) m Q.
Proof.
  intros Hi Ha Hb HQ. unfold swap. apply holds_bind, holds_get, holds_bind.
  destruct (Stack.swap_ok (E:=ScriptError) (stack m) a b) as (t & Ht & Hok & Hl); [apply Hi|done|done|].
  eapply holds_from_ok; [exact Ht|]. apply holds_put. apply HQ; [by apply inv_set_stack|done].
Qed.

Lemma holds_remove d m (Q : bytes -> Machine -> Prop) : inv k m -> 1 <= d <= len (stack m) ->
  (forall x m', inv k m' -> len x <= 520 -> len (stack m') = len (stack m) - 1 -> Q x m') ->
  holds (remove d) m Q.
Proof.
  intros Hi Hd HQ. unfold remove. apply holds_bind, holds_get, holds_bind.
  destruct (Stack.remove_ok (E:=ScriptError) (stack m) d) as (x & t & Ht & Hok & Hx & Hl); [apply Hi|done|].
  eapply holds_from_ok; [exact Ht|]. apply holds_bind, holds_put, holds_ret.
  apply HQ; [by apply inv_set_stack|exact Hx|done].
Qed.

Lemma holds_insert d x m (Q : unit -> Machine -> Prop) : inv k m -> len x <= 520 ->
  1 <= d <= len (stack m) -> (forall m', inv k m' -> Q tt m') -> holds (insert d x) m Q.
Proof.
  intros Hi Hx Hd HQ. unfold insert. apply holds_bind, holds_get, holds_bind.
  destruct (Stack.insert_ok (E:=ScriptError) (stack m) d x) as (t & Ht & Hok); [apply Hi|done|done|].
  eapply holds_from_ok; [exact Ht|]. apply holds_put. apply HQ. by apply inv_set_stack.
Qed.

Lemma holds_push_num n m (Q : unit -> Machine -> Prop) : inv k m -> Z.abs n < 2 ^ 63 ->
  (forall m', inv k m' -> len (stack m') = len (stack m) + 1 -> altstack m' = altstack m ->
     Q tt m') -> holds (push_num n) m Q.
Proof.
  intros Hi Hn HQ. unfold push_num. apply holds_bind.
  destruct (encode_spec (E:=ScriptError) n Hn) as (l & Hl & _ & Hlen & _).
  eapply holds_from_ok; [exact Hl|]. apply holds_push; [done|lia|done].
Qed.

Lemma holds_num_at d size m (Q : Z -> Machine -> Prop) : inv k m -> 1 <= d <= len (stack m) ->
  1 <= size <= 5 -> (forall n, Z.abs n < 128 * 256 ^ (size - 1) -> Q n m) -> holds (num_at d size) m Q.
Proof.
  intros Hi Hd Hs HQ. unfold num_at. apply holds_bind, holds_top; [done|done|]. intros x _.
  apply holds_from. rewrite decode_eq by lia. destruct (Z.ltb_spec size (len x)); [done|].
  apply HQ. destruct (sm_val_bound x) as [Hb| ->]; [|cbn; pose proof (Z.pow_pos_nonneg 256 (size - 1)); lia].
  assert (256 ^ (len x - 1) <= 256 ^ (size - 1)) by (apply Z.pow_le_mono_r; lia). lia.
Qed.

Lemma holds_num_at_4 d m (Q : Z -> Machine -> Prop) : inv k m -> 1 <= d <= len (stack m) ->
  (forall n, - 2147483648 < n < 2147483648 -> Q n m) -> holds (num_at d SCRIPTNUM_SIZE_MAX) m Q.
Proof.
  intros Hi Hd HQ. apply holds_num_at; [done|done|unfold SCRIPTNUM_SIZE_MAX; lia|].
  change (128 * 256 ^ (SCRIPTNUM_SIZE_MAX - 1)) with 2147483648. intros n Hn. apply HQ. lia.
Qed.

Lemma holds_num_at_5 d m (Q : Z -> Machine -> Prop) : inv k m -> 1 <= d <= len (stack m) ->
  (forall n, Z.abs n < 549755813888 -> Q n m) -> holds (num_at d SCRIPTNUM_LOCKTIME_SIZE_MAX) m Q.
Proof.
  intros Hi Hd HQ. apply holds_num_at; [done|done|unfold SCRIPTNUM_LOCKTIME_SIZE_MAX; lia|].
  change (128 * 256 ^ (SCRIPTNUM_LOCKTIME_SIZE_MAX - 1)) with 549755813888. intros n Hn. by apply HQ.
Qed.

End primitives.

(** One step of a computation: the rule of its head, the machine's invariant found in the
    context and the depths by arithmetic. *)
Ltac wp_step :=
  cbv beta zeta;
  lazymatch goal with
  | |- holds (_ ≫= _) _ _ => apply holds_bind
  | |- holds (mret _) _ _ => apply holds_ret
  | |- holds (fail _) _ _ => apply holds_fail
  | |- holds (get_ _) _ _ => apply holds_get
  | |- holds (require _) _ _ => apply holds_require; intros ?
  | |- holds (top _) _ _ => eapply holds_top; [eassumption|lia|intros ? ?]
  | |- holds (push _) _ _ => eapply holds_push; [eassumption|lia|intros ? ? ? ?]
  | |- holds (push_bool _) _ _ => eapply holds_push_bool; [eassumption|intros ? ? ? ?]
  | |- holds pop _ _ => eapply holds_pop; [eassumption|lia|intros ? ? ? ? ? ?]
  | |- holds (swap _ _) _ _ => eapply holds_swap; [eassumption|lia|lia|intros ? ? ?]
  | |- holds (remove _) _ _ => eapply holds_remove; [eassumption|lia|intros ? ? ? ? ?]
  | |- holds (insert _ _) _ _ => eapply holds_insert; [eassumption|lia|lia|intros ? ?]
  | |- holds (push_num _) _ _ => eapply holds_push_num; [eassumption|lia|intros ? ? ? ?]
  | |- holds (num_at _ SCRIPTNUM_SIZE_MAX) _ _ => let n := fresh "n" in
      eapply holds_num_at_4; [eassumption|lia|intros n ?]
  | |- holds (num_at _ SCRIPTNUM_LOCKTIME_SIZE_MAX) _ _ =>
      let n := fresh "n" in
      eapply holds_num_at_5; [eassumption|lia|intros n ?]
  | |- holds (if ?b then _ else _) _ _ => destruct b eqn:?
  | |- inv _ _ => eassumption
  end.
Ltac wp := repeat wp_step.

Section opcodes.
Context (k : Z).
Implicit Types m : Machine.

Lemma op_check_locktime_ok m : inv k m -> holds (op_check_locktime env) m (fun _ m' => inv k m').
Proof.
  intros Hi. unfold op_check_locktime. wp.
  destruct (check_locktime_total n) as [b Hb]; [change SCRIPTNUM_LOCKTIME_MAX with 549755813887; lia|].
  eapply holds_from_ok; [exact Hb|]. wp.
Qed.

Lemma op_check_sequence_ok m : inv k m -> holds (op_check_sequence env) m (fun _ m' => inv k m').
Proof.
  intros Hi. unfold op_check_sequence. wp.
  destruct (check_sequence_total n) as [b Hb]; [change SCRIPTNUM_LOCKTIME_MAX with 549755813887; lia|].
  eapply holds_from_ok; [exact Hb|]. wp.
Qed.

Lemma condition_push_ok c b : cond_ok k c -> k <= 10000 ->
  exists c', ConditionStack.push (E:=ScriptError) c b = Ok c' /\ cond_ok (k + 1) c'.
Proof.
  intros [Hd Hf] Hk. unfold ConditionStack.push. rewrite u32_ok by (unfold u32_max; lia). run.
  rewrite (proj2 (Z.leb_le _ _)) by lia. run. eexists; split; [done|]. split; cbn; [lia|].
  destruct (ConditionStack.first_false c) as [f|]; [lia|]. destruct b; cbn; [done|lia].
Qed.

Lemma holds_conditions_push value m (Q : ConditionStack.ConditionStack -> Machine -> Prop) :
  inv k m -> k <= 10000 -> (forall c, cond_ok (k + 1) c -> Q c m) ->
  holds (from (ConditionStack.push (conditions m) value)) m Q.
Proof.
  intros Hi Hk HQ. destruct (condition_push_ok (conditions m) value) as (c & Hc & Hok);
    [apply Hi|done|]. eapply holds_from_ok; [exact Hc|]. by apply HQ.
Qed.

Lemma branch_ok opcode executing m : inv k m -> k <= 10000 ->
  holds (branch env opcode executing) m (fun _ m' => inv (k + 1) m').
Proof.
  intros Hi Hk. unfold branch. wp;
    (apply holds_conditions_push; [assumption|done|]; intros c Hc; apply holds_put,
       inv_set_conditions; [|done]; eapply inv_mono; [|eassumption]; lia).
Qed.

Lemma on_conditions_ok f m : inv k m ->
  (forall c, cond_ok k c -> ConditionStack.depth c <> 0 -> exists c', f c = Ok c' /\ cond_ok k c') ->
  holds (on_conditions f) m (fun _ m' => inv k m').
Proof.
  intros Hi Hf. unfold on_conditions. wp. unfold ConditionStack.is_empty in *.
  destruct (Hf (conditions m)) as (c' & Hc & Hok); [apply Hi|lia|].
  eapply holds_from_ok; [exact Hc|]. apply holds_put. by apply inv_set_conditions.
Qed.

Lemma toggle_top_ok c : cond_ok k c -> ConditionStack.depth c <> 0 ->
  exists c', ConditionStack.toggle_top (E:=ScriptError) c = Ok c' /\ cond_ok k c'.
Proof.
  intros [Hd Hf] Hne. unfold ConditionStack.toggle_top. rewrite (proj2 (Z.ltb_lt _ _)) by lia. run.
  eexists; split; [done|]. split; cbn; [lia|].
  destruct (ConditionStack.first_false c) as [f|]; [|lia]. by destruct (f =? _).
Qed.

Lemma condition_pop_ok c : cond_ok k c -> ConditionStack.depth c <> 0 ->
  exists c', ConditionStack.pop (E:=ScriptError) c = Ok c' /\ cond_ok k c'.
Proof.
  intros [Hd Hf] Hne. unfold ConditionStack.pop. rewrite (proj2 (Z.ltb_lt _ _)) by lia. run.
  eexists; split; [done|]. split; cbn; [lia|]. case_bool_decide as Hb; [done|].
  destruct (ConditionStack.first_false c) as [f|]; [|done].
  assert (f <> ConditionStack.depth c - 1) by congruence. lia.
Qed.

Lemma stack_op_pairs_ok opcode m : inv k m -> OP_TOALTSTACK <= opcode <= OP_2SWAP ->
  holds (stack_op_pairs opcode) m (fun _ m' => inv k m').
Proof.
  intros Hi Ho. unfold stack_op_pairs. wp.
  - eapply holds_from_ok; [by apply Stack.push_eq|]. apply holds_put.
    apply inv_set_altstack; [done|]. apply items_ok_snoc; [|done]. by eapply inv_altstack.
  - destruct (Stack.pop_ok (E:=ScriptError) (altstack m)) as (x & t & Hp & Heq).
    { unfold Stack.is_empty in *. pose proof (len_nonneg (altstack m)). lia. }
    pose proof (inv_altstack k m Hi) as Hs. rewrite Heq in Hs.
    apply Forall_app in Hs as [Ht Hx]. rewrite Forall_singleton in Hx.
    eapply holds_from_ok; [exact Hp|]. apply holds_bind, holds_put.
    eapply holds_push; [by apply inv_set_altstack|exact Hx|auto].
  - exfalso. unfold OP_TOALTSTACK, OP_FROMALTSTACK, OP_2DROP, OP_2DUP, OP_3DUP, OP_2OVER,
      OP_2ROT, OP_2SWAP in *. lia.
Qed.

Lemma clamp_small n : - 2147483648 < n < 2147483648 -> ScriptNum.to_clamped_i32 n = n.
Proof.
  intros Hn. unfold ScriptNum.to_clamped_i32. change (2 ^ 31) with 2147483648.
  destruct (_ && _) eqn:Hb; [done|lia].
Qed.

Lemma pick_or_roll_ok opcode m : inv k m -> holds (pick_or_roll opcode) m (fun _ m' => inv k m').
Proof. intros Hi. unfold pick_or_roll. repeat (wp_step || rewrite clamp_small in * by lia). Qed.

Lemma stack_op_singles_ok opcode m : inv k m -> len (stack m) < 2 ^ 62 ->
  OP_IFDUP <= opcode <= OP_TUCK ->
  holds (stack_op_singles opcode) m (fun _ m' => inv k m').
Proof.
  intros Hi Hs Ho. unfold stack_op_singles, ScriptNum.from_usize. pose proof (len_nonneg (stack m)).
  wp.
  - eapply holds_from_ok; [apply i64_ok; lia|]. wp.
  - by apply pick_or_roll_ok.
  - exfalso. unfold OP_IFDUP, OP_DEPTH, OP_DROP, OP_DUP, OP_NIP, OP_OVER, OP_PICK, OP_ROLL,
      OP_ROT, OP_SWAP, OP_TUCK in *. lia.
Qed.

Lemma equal_ok opcode m : inv k m -> holds (equal opcode) m (fun _ m' => inv k m').
Proof. intros Hi. unfold equal. wp. Qed.

Lemma op_verify_ok m : inv k m -> holds op_verify m (fun _ m' => inv k m').
Proof. intros Hi. unfold op_verify. wp. Qed.

Lemma op_size_ok m : inv k m -> holds op_size m (fun _ m' => inv k m').
Proof.
  intros Hi. unfold op_size, ScriptNum.from_usize. wp. pose proof (len_nonneg x).
  eapply holds_from_ok; [apply i64_ok; lia|]. wp.
Qed.

(** The result of a numeric opcode stays within five bytes. *)
Definition small_result (o : outcome ScriptError Z) : Prop :=
  exists r, o = Ok r /\ Z.abs r < 2 ^ 33.

Lemma numeric_unary_ok opcode m : inv k m ->
  is_one_of [OP_1ADD; OP_1SUB; OP_NEGATE; OP_ABS; OP_NOT; OP_0NOTEQUAL] opcode = true ->
  holds (numeric_unary opcode) m (fun _ m' => inv k m').
Proof.
  intros Hi Ho. unfold numeric_unary. wp.
  match goal with |- holds (from ?o) _ _ => assert (Hr : small_result o) end.
  { unfold ScriptNum.add, ScriptNum.sub, ScriptNum.abs, ScriptNum.neg, ScriptNum.ONE, small_result.
    cbn [is_one_of existsb] in Ho. repeat case_match; try discriminate;
      first [rewrite i64_ok by lia|idtac]; (eexists; split; [reflexivity|]); try lia;
      unfold ScriptNum.from_bool; case_match; vm_compute; reflexivity. }
  destruct Hr as (r & -> & Hr). eapply holds_from_ok; [done|]. wp.
Qed.

Lemma numeric_binary_ok opcode m : inv k m ->
  is_one_of [OP_ADD; OP_SUB] opcode || Opcode.in_range OP_BOOLAND OP_MAX opcode = true ->
  holds (numeric_binary opcode) m (fun _ m' => inv k m').
Proof.
  intros Hi Ho. unfold numeric_binary. wp.
  match goal with |- holds (from ?o) _ _ => assert (Hr : small_result o) end.
  { unfold ScriptNum.add, ScriptNum.sub, small_result, is_one_of, Opcode.in_range in *.
    cbn [existsb] in Ho. repeat case_match; first
      [ rewrite i64_ok by lia; eexists; split; [reflexivity|lia]
      | eexists; split; [reflexivity|]; first [lia | unfold ScriptNum.from_bool; case_match; vm_compute; reflexivity]
      | exfalso; unfold OP_ADD, OP_SUB, OP_BOOLAND, OP_BOOLOR, OP_NUMEQUAL, OP_NUMEQUALVERIFY,
          OP_NUMNOTEQUAL, OP_LESSTHAN, OP_GREATERTHAN, OP_LESSTHANOREQUAL, OP_GREATERTHANOREQUAL,
          OP_MIN, OP_MAX in *; lia ]. }
  destruct Hr as (r & -> & Hr). eapply holds_from_ok; [done|]. pose proof (len_nonneg (stack m)). wp.
Qed.

Lemma within_ok m : inv k m -> holds within m (fun _ m' => inv k m').
Proof. intros Hi. unfold within. wp. Qed.

Lemma hash_ok opcode m : inv k m -> OP_RIPEMD160 <= opcode <= OP_HASH256 ->
  holds (hash opcode) m (fun _ m' => inv k m').
Proof.
  intros Hi Ho. unfold hash. wp.
  match goal with |- holds (from ?o) _ _ =>
    assert (Hd : exists d, o = Ok d /\ (len d = 20 \/ len d = 32)) end.
  { unfold len. repeat case_match; [..|unfold OP_RIPEMD160, OP_SHA1, OP_SHA256, OP_HASH160, OP_HASH256 in *; lia];
      (eexists; split; [reflexivity|]);
      rewrite ?length_ripemd160, ?length_sha1, ?length_sha256, ?length_hash160, ?length_sha256d; auto. }
  destruct Hd as (d & -> & Hd). eapply holds_from_ok; [done|]. wp.
  assert (Hb : (len d =? 20) || (len d =? 32) = true) by lia. rewrite Hb.
  eapply holds_from_ok; [done|]. wp.
Qed.

(** ** Signature opcodes *)

Lemma script_code_ok m : inv k m -> exists c, script_code env m = Ok c /\ len c <= 10001.
Proof.
  intros Hi. unfold script_code. destruct (inv_codesep k m Hi). pose proof (inv_script k m Hi).
  rewrite (proj2 (Z.leb_le _ _)) by done. run. unfold slice_from.
  rewrite slice_in_range by lia. eexists. split; [done|].
  unfold len in *. rewrite length_take, length_drop. lia.
Qed.

Lemma push_encoding_ok signature : len signature <= 520 ->
  exists p, push_encoding (E:=ScriptError) signature = Ok p /\ p <> [].
Proof.
  intros Hs. destruct (push_encoding_eq (E:=ScriptError) signature) as (op & field & Hp & _);
    [unfold u32_max; lia|]. eauto.
Qed.

Lemma delete_one_ok {A} signature code (f : bytes * Z -> M A) m Q : len signature <= 520 ->
  (forall r, len r.1 <= len code -> holds (f r) m Q) ->
  holds (pattern ← from (push_encoding signature); r ← from (find_and_delete code pattern); f r) m Q.
Proof.
  intros Hs Hf. destruct (push_encoding_ok signature Hs) as (p & Hp & Hne).
  apply holds_bind. eapply holds_from_ok; [exact Hp|]. apply holds_bind.
  destruct (find_and_delete_ok (E:=ScriptError) code p Hne) as (r & n & Hr & Hd).
  apply deletes_length in Hd. pose proof (len_nonneg p).
  eapply holds_from_ok; [exact Hr|]. apply Hf. cbn. nia.
Qed.

Lemma holds_check_encoding signature m (Q : unit -> Machine -> Prop) :
  Q tt m -> holds (from (check_signature_encoding signature (env_flags env))) m Q.
Proof.
  intros HQ. apply holds_from. unfold check_signature_encoding.
  destruct (len signature =? 0); [done|]. destruct (ScriptFlags.contains _ _); [|done].
  destruct (valid_total (E:=ScriptError) signature) as [b ->]. run. by destruct b.
Qed.

Lemma holds_check_ecdsa signature pubkey code m (Q : bool -> Machine -> Prop) :
  env_sig_version env <> Tapscript -> len code <= 10001 -> (forall b, Q b m) ->
  holds (from (check_ecdsa signature pubkey code (env_sig_version env))) m Q.
Proof.
  intros Hv Hc HQ. destruct (check_ecdsa_total signature pubkey code _ Hv) as [b Hb];
    [unfold u64_max; lia|].
  eapply holds_from_ok; [exact Hb|]. apply HQ.
Qed.

Lemma checksig_pre_ok signature pubkey m : inv k m -> len signature <= 520 ->
  env_sig_version env <> Tapscript ->
  holds (eval_checksig_pre_tapscript env signature pubkey) m (fun _ m' => m' = m).
Proof.
  intros Hi Hs Hv. unfold eval_checksig_pre_tapscript. destruct (script_code_ok m Hi) as (c & Hc & Hl).
  apply holds_bind. eapply holds_from_ok; [exact Hc|]. cbv beta.
  assert (Hrest : forall code, len code <= 10001 -> holds (from (check_signature_encoding signature (env_flags env));;
    from (check_ecdsa signature pubkey code (env_sig_version env))) m (fun _ m' => m' = m)).
  { intros code Hcode. apply holds_bind, holds_check_encoding, holds_check_ecdsa; done. }
  apply holds_bind. case_bool_decide; [|apply holds_ret; auto].
  apply delete_one_ok; [done|]. intros r Hr. apply holds_ret, Hrest. lia.
Qed.

Lemma checksig_tapscript_ok signature pubkey m : inv k m -> env_sig_version env = Tapscript ->
  holds (eval_checksig_tapscript signature pubkey) m
    (fun _ m' => inv k m' /\ stack m' = stack m).
Proof.
  intros Hi Hv. unfold eval_checksig_tapscript. pose proof (inv_exec k m Hi) as He.
  unfold exec_ok in He. apply holds_bind, holds_get, holds_bind.
  destruct (tapscript (exec m)) as [ts|] eqn:Hts; [|done]. destruct He as (_ & Hw & Ha).
  eapply holds_from_ok; [done|]. cbv beta zeta.
  assert (Hrest : forall ts' success m', annex_ok (annex ts') -> inv k m' -> stack m' = stack m ->
    holds (if len pubkey =? 0 then fail ScriptError.TapscriptEmptyPubkey
      else (if (len pubkey =? 32) && success
            then from (check_schnorr signature pubkey
              (ScriptPath (leaf_hash ts') (codesep_pos (exec m))) (annex ts')) else mret tt);;
           mret success) m' (fun _ m' => inv k m' /\ stack m' = stack m)).
  { intros ts' success m' Ha' Hi' Hst. destruct (len pubkey =? 0); [done|]. apply holds_bind.
    destruct (len pubkey =? 32) eqn:H32; cbn [andb]; [|by apply holds_ret].
    destruct success; [|by apply holds_ret]. apply holds_from.
    eapply ensures_mono; [apply ensures_true_iff, check_schnorr_total; [unfold len in H32; lia|done]|]. done. }
  apply holds_bind. destruct (negb (len signature =? 0)); [|by apply holds_ret, Hrest].
  apply holds_bind. eapply holds_from_ok; [apply i64_ok; unfold VALIDATION_WEIGHT_PER_SIGOP_PASSED; lia|].
  apply holds_bind, holds_put. destruct (_ <? 0) eqn:Hneg; [done|]. apply holds_ret, Hrest; [done| |done].
  destruct Hi; constructor; try done. cbn. split_and!; try done;
  unfold VALIDATION_WEIGHT_PER_SIGOP_PASSED in *; cbn; lia.
Qed.

Lemma eval_checksig_ok signature pubkey m : inv k m -> len signature <= 520 ->
  holds (eval_checksig env signature pubkey) m (fun _ m' => inv k m' /\ stack m' = stack m).
Proof.
  intros Hi Hs. unfold eval_checksig. destruct (env_sig_version env) eqn:Hv.
  1, 2: eapply holds_mono; [apply checksig_pre_ok; [done|done|by rewrite Hv]|]; by intros b m' ->.
  by apply checksig_tapscript_ok.
Qed.

Lemma checksig_ok opcode m : inv k m -> holds (checksig env opcode) m (fun _ m' => inv k m').
Proof.
  intros Hi. unfold checksig. wp.
  eapply holds_mono; [apply eval_checksig_ok; eassumption|]. intros b mc [Hi' _].
  pose proof (len_nonneg (stack mc)). wp.
Qed.

Lemma checksigadd_ok m : inv k m -> holds (checksigadd env) m (fun _ m' => inv k m').
Proof.
  intros Hi. unfold checksigadd. wp.
  eapply holds_mono; [apply eval_checksig_ok; eassumption|]. intros b mc [Hi' _].
  apply holds_bind. unfold ScriptNum.add.
  assert (0 <= ScriptNum.from_bool b <= 1) by (destruct b; vm_compute; split; congruence).
  eapply holds_from_ok; [apply i64_ok; lia|]. wp.
Qed.

(** ** Multisig *)

Lemma delete_signatures_ok n isig code m : inv k m -> 1 <= isig ->
  isig + Z.of_nat n - 1 <= len (stack m) ->
  holds (delete_signatures isig n code) m (fun c m' => m' = m /\ len c <= len code).
Proof.
  intros Hi. revert isig code; induction n as [|n IH]; intros isig code H1 Hl;
    cbn [delete_signatures]; [by apply holds_ret|].
  apply holds_bind. eapply holds_top; [done|lia|]. intros x Hx.
  apply delete_one_ok; [done|]. intros r Hr. eapply holds_mono; [apply IH; lia|].
  cbv beta. intros c m' [-> ?]. split; [done|lia].
Qed.

Lemma multisig_script_code_ok isig n m : inv k m -> 1 <= isig -> 0 <= n ->
  isig + n - 1 <= len (stack m) ->
  holds (multisig_script_code env isig n) m (fun c m' => m' = m /\ len c <= 10001).
Proof.
  intros Hi H1 Hn Hl. unfold multisig_script_code. destruct (script_code_ok m Hi) as (c & Hc & Hlc).
  apply holds_bind. eapply holds_from_ok; [exact Hc|]. cbv beta.
  case_bool_decide; [|by apply holds_ret].
  eapply holds_mono; [apply delete_signatures_ok; [done|done|lia]|].
  cbv beta. intros c' m' [-> ?]. split; [done|lia].
Qed.

Lemma checkmultisig_loop_ok it ikey isig keys_left sigs_left code m : inv k m ->
  env_sig_version env <> Tapscript -> len code <= 10001 ->
  0 <= sigs_left <= keys_left -> keys_left <= Z.of_nat it ->
  keys_left <= 20 -> 1 <= isig -> 1 <= ikey -> isig + sigs_left - 1 <= len (stack m) ->
  ikey + keys_left - 1 <= len (stack m) ->
  holds (checkmultisig_loop env it ikey isig keys_left sigs_left code) m (fun _ m' => m' = m).
Proof.
  intros Hi Hv Hcode. revert ikey isig keys_left sigs_left; induction it as [|it IH];
    intros ikey isig keys_left sigs_left Hs Hit H20 H1 H2 H3 H4; cbn [checkmultisig_loop].
  - rewrite (proj2 (Z.ltb_ge _ _)) by lia. by apply holds_ret.
  - destruct (Z.ltb_spec 0 sigs_left) as [Hpos|]; [|by apply holds_ret].
    apply holds_bind. eapply holds_top; [done|lia|]. intros sig _.
    apply holds_bind. eapply holds_top; [done|lia|]. intros key _.
    apply holds_bind, holds_check_encoding, holds_bind, holds_check_ecdsa; [done|done|]. intros ok.
    cbv beta zeta. apply holds_bind. eapply holds_from_ok; [apply u64_ok; unfold u64_max; lia|].
    cbv beta. destruct (Z.ltb_spec (keys_left - 1) (if ok then sigs_left - 1 else sigs_left));
      [by apply holds_ret|]. destruct ok; apply IH; lia.
Qed.

Lemma pops_ok n m : inv k m -> Z.of_nat n <= len (stack m) ->
  holds (pops n) m (fun _ m' => inv k m').
Proof.
  revert m; induction n as [|n IH]; intros m Hi Hl; cbn [pops]; [by apply holds_ret|].
  apply holds_bind. eapply holds_pop; [done|lia|]. intros x m' Hi' _ Hl' _. apply IH; [done|lia].
Qed.

Lemma count_from_ok n : 0 <= n <= 20 -> count_from (E:=ScriptError) n = Ok n.
Proof. intros. unfold count_from. by rewrite try_from_ok by (unfold u64_max; lia). Qed.

Lemma checkmultisig_ok opcode m : inv k m -> holds (checkmultisig env opcode) m (fun _ m' => inv k m').
Proof.
  intros Hi. unfold checkmultisig, MAX_PUBKEYS_PER_MULTISIG.
  case_bool_decide as Hv; [done|].
  repeat (wp_step || rewrite clamp_small in * by lia).
  eapply holds_from_ok; [apply count_from_ok; lia|]. cbv beta.
  apply holds_bind, holds_get, holds_bind, holds_put. cbv beta.
  destruct (Z.ltb_spec MAX_OPS_PER_SCRIPT (op_count m + n)) as [|Hops]; [done|].
  assert (Hi2 : inv k (set_op_count m (op_count m + n)))
    by (destruct Hi; constructor; cbn [set_op_count op_count]; done || lia).
  set (m2 := set_op_count _ _) in *. assert (Hst : stack m2 = stack m) by done. clearbody m2.
  repeat (wp_step || rewrite clamp_small in * by lia).
  eapply holds_from_ok; [apply count_from_ok; lia|]. wp_step. wp_step. wp_step.
  eapply holds_mono; [apply multisig_script_code_ok; [done|lia..]|]. intros code m3 [-> Hcode]. cbv beta.
  apply holds_bind. unfold checkmultisig_verify.
  eapply holds_mono; [apply checkmultisig_loop_ok; [done|done|done|unfold MAX_PUBKEYS_PER_MULTISIG; lia..]|].
  intros b m3 ->. apply holds_bind.
  eapply holds_mono; [apply pops_ok; [done|lia]|]. intros u m4 Hi4. cbv beta in *. wp.
Qed.

(** ** Dispatch *)

Lemma inv_codeseparator m pos index : inv k m -> 0 <= pos <= len (env_script env) ->
  inv k (set_exec (set_codesep_start m pos) (mkExec index (tapscript (exec m)))).
Proof. by intros [] ?. Qed.

(** Every opcode: no panic, and the invariant is kept; only [OP_IF] and [OP_NOTIF] nest. *)
Lemma execute_ok op executing index m : inv k m -> len (stack m) < 2 ^ 62 -> k <= 10000 ->
  0 <= op_end op <= len (env_script env) ->
  holds (execute env op executing index) m (fun _ m' => inv (k + 1) m').
Proof.
  intros Hi Hs Hk Hend.
  assert (Hmono : forall x : M unit, holds x m (fun _ m' => inv k m') ->
    holds x m (fun _ m' => inv (k + 1) m')).
  { intros x Hx. eapply holds_mono; [exact Hx|]. intros u m' Hi'. eapply inv_mono; [|exact Hi']. lia. }
  assert (Hrange : forall a b o, Opcode.in_range a b o = true -> a <= o <= b)
    by (unfold Opcode.in_range; lia).
  unfold execute. cbv zeta.
  repeat match goal with
  | |- holds (if is_one_of [OP_IF; OP_NOTIF] ?o then _ else _) _ _ =>
      destruct (is_one_of [OP_IF; OP_NOTIF] o); [by apply branch_ok|]
  | |- holds (if ?b then _ else _) _ _ => destruct b eqn:?; [apply Hmono|]
  end; eauto using op_check_locktime_ok, op_check_sequence_ok, op_verify_ok, op_size_ok, equal_ok,
    numeric_unary_ok, numeric_binary_ok, within_ok, checksig_ok, checksigadd_ok, checkmultisig_ok,
    stack_op_pairs_ok, stack_op_singles_ok, hash_ok.
  - destruct (Opcode.small_integer_ok (E:=ScriptError) (op_opcode op)) as [Hn Hr].
    { apply orb_true_iff in Heqb as [He%Z.eqb_eq|Hr%Hrange]; auto. }
    apply holds_bind. eapply holds_from_ok; [exact Hn|]. apply holds_bind. unfold ScriptNum.from_i64.
    rewrite (proj2 (Z.ltb_lt _ _)) by (change (Z.shiftl 1 40) with 1099511627776; lia).
    eapply holds_from_ok; [done|]. wp.
  - apply on_conditions_ok; [done|]. apply toggle_top_ok.
  - apply on_conditions_ok; [done|]. apply condition_pop_ok.
  - apply holds_fail.
  - apply holds_bind, holds_put, holds_put. exact (inv_codeseparator m _ index Hi Hend).
  - apply holds_fail.
Qed.

End opcodes.

(** ** The loop *)

(** One iteration for an opcode that was read: the invariant again, one level deeper at
    most, and the stack limit. *)
Lemma step_ok k counts op index m : inv k m -> len (stack m) < 2 ^ 62 -> k <= 10000 ->
  0 <= op_end op <= len (env_script env) -> (exists i, index = Ok i) ->
  holds (step env counts op index) m
    (fun _ m' => inv (k + 1) m' /\ len (stack m') + len (altstack m') <= MAX_STACK_SIZE).
Proof.
  intros Hi Hs Hk Hend [i ->]. unfold step.
  destruct (Z.ltb_spec MAX_SCRIPT_ELEMENT_SIZE (len (op_push op))) as [|Hp]; [done|].
  unfold MAX_SCRIPT_ELEMENT_SIZE in Hp.
  assert (Hlimit : forall m', inv (k + 1) m' -> holds (s ← get_ stack; a ← get_ altstack;
    if MAX_STACK_SIZE <? len s + len a then fail ScriptError.StackSize else mret tt) m'
    (fun _ m' => inv (k + 1) m' /\ len (stack m') + len (altstack m') <= MAX_STACK_SIZE)).
  { intros m' Hi'. apply holds_bind, holds_get, holds_bind, holds_get. cbv beta.
    destruct (Z.ltb_spec MAX_STACK_SIZE (len (stack m') + len (altstack m'))); [done|].
    apply holds_ret. split; [done|lia]. }
  assert (Hexec : forall m', inv k m' -> stack m' = stack m -> holds
    (if Opcode.is_disabled (op_opcode op) then fail ScriptError.DisabledOpcode else
     c ← get_ conditions;
     (if ConditionStack.all_true c && Opcode.is_push (op_opcode op) then push (op_push op)
      else if ConditionStack.all_true c || Opcode.is_conditional (op_opcode op) then
        index ← from (Ok i); execute env op (ConditionStack.all_true c) index
      else mret tt);;
     s ← get_ stack; a ← get_ altstack;
     if MAX_STACK_SIZE <? len s + len a then fail ScriptError.StackSize else mret tt) m'
    (fun _ m' => inv (k + 1) m' /\ len (stack m') + len (altstack m') <= MAX_STACK_SIZE)).
  { intros m' Hi' Hst. assert (Hi1 : inv (k + 1) m') by (eapply inv_mono; [|exact Hi']; lia).
    destruct (Opcode.is_disabled _); [done|]. apply holds_bind, holds_get, holds_bind. cbv beta.
    destruct (_ && _); [|destruct (_ || _)].
    - eapply holds_push; [exact Hi1|lia|]. intros m2 Hi2 _ _. by apply Hlimit.
    - apply holds_bind. eapply holds_from_ok; [done|].
      eapply holds_mono; [eapply execute_ok; [exact Hi'|by rewrite Hst|done|done]|].
      intros u m2 Hi2. by apply Hlimit.
    - apply holds_ret. by apply Hlimit. }
  apply holds_bind. destruct (_ && _); [|by apply holds_ret, Hexec].
  apply holds_bind, holds_get, holds_bind, holds_put. cbv beta.
  destruct (Z.ltb_spec MAX_OPS_PER_SCRIPT (op_count m + 1)); [done|]. apply holds_ret, Hexec; [|done].
  destruct Hi; constructor; cbn [set_op_count op_count]; done || lia.
Qed.

Lemma run_loop_ok N counts : MAX_STACK_SIZE <= N < 2 ^ 62 -> len (env_script env) <= 10001 ->
  forall fuel r m, reader_ok r -> Reader.script r = env_script env ->
  inv (Reader.ops_read r) m -> len (stack m) <= N ->
  (length (env_script env) - Z.to_nat (Reader.position r) < fuel)%nat ->
  holds (run_loop env fuel counts r) m (fun _ m' => (exists k, inv k m') /\ len (stack m') <= N).
Proof.
  intros HN Hlen. induction fuel as [|fuel IH]; intros r m Hr Hsc Hi Hst Hf; [lia|].
  cbn [run_loop]. apply holds_bind.
  destruct (next_op_ok (E:=ScriptError) r Hr) as (o & r' & Ho & Hr' & Hsc' & Hspec);
    [rewrite Hsc; unfold u32_max; lia|].
  eapply holds_from_ok; [exact Ho|]. cbv beta iota. destruct o as [[op|e]|]; [| |apply holds_ret; eauto].
  2:{ apply holds_fail. }
  destruct Hspec as (Hpos & Hend & Hops & _). pose proof Hr as Hb. pose proof Hr' as Hb'.
  unfold reader_ok in Hb, Hb'. rewrite Hsc in Hb. rewrite Hsc', Hsc in Hb'.
  apply holds_bind.
  eapply holds_mono; [eapply step_ok; [exact Hi|unfold MAX_STACK_SIZE in HN; lia|lia|lia|]|].
  { unfold Reader.opcode_index. rewrite (proj2 (Z.ltb_lt _ _)) by lia. run. eauto. }
  intros u m' [Hi' Hlim]. pose proof (len_nonneg (altstack m')).
  apply IH; [done|by rewrite Hsc'|by rewrite Hops|lia|].
  unfold len in *. lia.
Qed.

(** ** [eval_script] *)

Lemma eval_script_ok s e : Stack.items_ok s -> len s < 2 ^ 62 ->
  exec_ok (env_sig_version env) e ->
  (env_sig_version env = Tapscript -> len (env_script env) <= 10001) ->
  ensures (eval_script env s e) (fun r => Stack.items_ok r.1 /\
    len r.1 <= Z.max MAX_STACK_SIZE (len s) /\ exec_ok (env_sig_version env) r.2).
Proof.
  intros Hs Hn He Hts. unfold eval_script.
  assert (Heqb : Bool.eqb (bool_decide (is_Some (tapscript e)))
    (bool_decide (env_sig_version env = Tapscript)) = true).
  { unfold exec_ok in He. destruct (tapscript e) as [ts|].
    - rewrite !bool_decide_eq_true_2; [done|tauto|eauto].
    - rewrite !bool_decide_eq_false_2; [done|done|by intros []]. }
  rewrite Heqb. run. set (counts := bool_decide (env_sig_version env <> Tapscript)).
  destruct (counts && (MAX_SCRIPT_SIZE <? len (env_script env))) eqn:Hsize; [done|].
  assert (Hlen : len (env_script env) <= 10001).
  { unfold counts, MAX_SCRIPT_SIZE in Hsize. case_bool_decide as Hv; [lia|].
    apply Hts. by destruct (env_sig_version env); try (exfalso; by apply Hv). }
  set (m := mkMachine _ _ _ _ _ _).
  assert (Hi : inv 0 m).
  { pose proof (len_nonneg (env_script env)). constructor; cbn; try done; try (split; lia).
    constructor. }
  pose proof (run_loop_ok (Z.max MAX_STACK_SIZE (len s)) counts) as Hrun. unfold holds in Hrun.
  eapply ensures_bind; [apply Hrun|].
  - unfold MAX_STACK_SIZE. lia.
  - done.
  - apply reader_new_ok.
  - done.
  - exact Hi.
  - cbn. lia.
  - cbn. lia.
  - intros [u m'] [[k Hk] Hst]. cbn [fst snd] in *.
    rewrite (proj2 (Z.leb_le _ _)) by (destruct Hk; unfold OP_COUNT_MAX; lia). run.
    destruct (ConditionStack.is_empty _); [|done]. destruct Hk. done.
Qed.

End safety.
