(* ===== verification/InterpreterTheorems.v ===== *)
(** * InterpreterTheorems: what the opcodes compute *)
From S2P Require Import Prelude Bitcoin Flags Script ScriptNum Reader Stack SigScript Interpreter SigScriptProofs InterpreterProofs.

(** ** The nest of branches, as the list of booleans it stands for *)

(** The position of the first false. *)
Fixpoint first_false_of (i : Z) (bs : list bool) : option Z :=
  match bs with
  | [] => None
  | b :: bs => if b then first_false_of (i + 1) bs else Some i
  end.

Definition condition_stack_of (bs : list bool) : ConditionStack.ConditionStack :=
  ConditionStack.mk (len bs) (first_false_of 0 bs).

Lemma first_false_app i bs v : first_false_of i (bs ++ [v]) =
  match first_false_of i bs with
  | Some f => Some f
  | None => if v then None else Some (i + len bs)
  end.
Proof.
  revert i; induction bs as [|b bs IH]; intros i; cbn [app first_false_of].
  - rewrite len_nil, Z.add_0_r. by destruct v.
  - destruct b; [|done]. rewrite IH, len_cons. destruct (first_false_of _ bs); [done|].
    destruct v; [done|]. f_equal. lia.
Qed.

Lemma first_false_range i bs f : first_false_of i bs = Some f -> i <= f < i + len bs.
Proof.
  revert i; induction bs as [|b bs IH]; intros i; cbn [first_false_of]; [done|].
  rewrite len_cons. pose proof (len_nonneg bs). destruct b; [|intros [= ->]; lia].
  intros Hf%IH. lia.
Qed.

Lemma first_false_None i bs : first_false_of i bs = None <-> forallb id bs = true.
Proof.
  revert i; induction bs as [|b bs IH]; intros i; cbn [first_false_of forallb]; [done|].
  destruct b; cbn [id andb]; [apply IH|done].
Qed.

(** ** Primitives on a stack with a known top *)

Section primitives.
Context (m : Machine) (base : list bytes).
Notation on k := (set_stack m (base ++ k)).

Lemma bind_eq {A B} (x : M A) (f : A -> M B) (s s' : Machine) a :
  x s = Ok (a, s') -> (x ≫= f) s = f a s'.
Proof. intros Hx. unfold mbind, M_bind. by rewrite Hx. Qed.

Lemma bind_ret_unit (x : M unit) (s : Machine) : (x ≫= fun _ => mret tt) s = x s.
Proof. unfold mbind, M_bind. by destruct (x s) as [[[] ?]| |]. Qed.

Lemma require_on n k : n <= len k -> require n (on k) = Ok (tt, on k).
Proof.
  intros Hn. unfold require, from, Stack.require. cbn [set_stack stack].
  rewrite len_app, (proj2 (Z.ltb_ge _ _)) by (pose proof (len_nonneg base); lia). done.
Qed.

Lemma top_on d k x : 1 <= d <= len k -> Stack.top (E:=ScriptError) k d = Ok x ->
  top d (on k) = Ok (x, on k).
Proof. intros Hd Hx. unfold top, from. cbn [set_stack stack]. by rewrite Stack.top_app, Hx. Qed.

Lemma push_on k x : len x <= 520 -> push x (on k) = Ok (tt, on (k ++ [x])).
Proof.
  intros Hx. unfold push. erewrite bind_eq by done. cbn [set_stack stack].
  erewrite bind_eq by (unfold from; by rewrite Stack.push_eq). by rewrite <-app_assoc.
Qed.

Lemma pop_on k x : pop (on (k ++ [x])) = Ok (x, on k).
Proof.
  unfold pop. erewrite bind_eq by done. cbn [set_stack stack]. rewrite app_assoc.
  erewrite bind_eq by (unfold from; by rewrite Stack.pop_snoc). done.
Qed.

Lemma swap_on a b k k' : 1 <= a <= len k -> 1 <= b <= len k ->
  Stack.swap (E:=ScriptError) k a b = Ok k' -> swap a b (on k) = Ok (tt, on k').
Proof.
  intros Ha Hb Hk. unfold swap. erewrite bind_eq by done. cbn [set_stack stack].
  erewrite bind_eq by (unfold from; by rewrite Stack.swap_app, Hk by done). done.
Qed.

Lemma remove_on d k x k' : 1 <= d <= len k ->
  Stack.remove (E:=ScriptError) k d = Ok (x, k') -> remove d (on k) = Ok (x, on k').
Proof.
  intros Hd Hk. unfold remove. erewrite bind_eq by done. cbn [set_stack stack].
  erewrite bind_eq by (unfold from; by rewrite Stack.remove_app, Hk by done). done.
Qed.

Lemma insert_on d x k k' : 1 <= d <= len k ->
  Stack.insert (E:=ScriptError) k d x = Ok k' -> insert d x (on k) = Ok (tt, on k').
Proof.
  intros Hd Hk. unfold insert. erewrite bind_eq by done. cbn [set_stack stack].
  erewrite bind_eq by (unfold from; by rewrite Stack.insert_app, Hk by done). done.
Qed.
End primitives.

(** [opcode] takes the items [before] on top of any stack and leaves [after]. *)
Definition forth `{Hashes} `{SigChecker} (env : Env) (opcode : Z) (before after : list bytes)
    : Prop :=
  forall m base data stop index,
    execute env (mkOp opcode data stop) true index (set_stack m (base ++ before)) =
      Ok (tt, set_stack m (base ++ after)).

(** Resolves the dispatch on a closed opcode. *)
Ltac dispatch :=
  cbv beta zeta; cbn [op_opcode];
  repeat lazymatch goal with
  | |- (if ?b then ?x else ?y) ?s = _ =>
      let v := eval vm_compute in b in
      lazymatch v with
      | true => change ((if b then x else y) s) with (x s)
      | false => change ((if b then x else y) s) with (y s)
      end
  end.

(** Runs the primitives of an opcode on a stack whose top is an explicit list. *)
Ltac forth_step :=
  cbv beta zeta; cbn [app];
  lazymatch goal with
  | |- (require _ ≫= _) _ = _ =>
      erewrite bind_eq by (apply require_on; vm_compute; congruence)
  | |- (top _ ≫= _) _ = _ =>
      erewrite bind_eq by (apply top_on; [vm_compute; split; congruence|reflexivity])
  | |- (push _ ≫= _) _ = _ => erewrite bind_eq by (by apply push_on)
  | |- (swap _ _ ≫= _) _ = _ =>
      erewrite bind_eq by (eapply swap_on; [vm_compute; split; congruence..|reflexivity])
  | |- (remove _ ≫= _) _ = _ =>
      erewrite bind_eq by (eapply remove_on; [vm_compute; split; congruence|reflexivity])
  | |- push _ _ = _ => apply push_on; done
  | |- swap _ _ _ = _ => eapply swap_on; [vm_compute; split; congruence..|reflexivity]
  | |- mret _ _ = _ => reflexivity
  end.

Section forth.
Context `{Hashes} `{SigChecker} (env : Env) (x1 x2 x3 x4 x5 x6 : bytes).
Hypotheses (H1 : len x1 <= 520) (H2 : len x2 <= 520) (H3 : len x3 <= 520) (H4 : len x4 <= 520).

Lemma forth_pairs :
  forth env OP_2DUP [x1; x2] [x1; x2; x1; x2] /\
  forth env OP_3DUP [x1; x2; x3] [x1; x2; x3; x1; x2; x3] /\
  forth env OP_2OVER [x1; x2; x3; x4] [x1; x2; x3; x4; x1; x2] /\
  forth env OP_2ROT [x1; x2; x3; x4; x5; x6] [x3; x4; x5; x6; x1; x2] /\
  forth env OP_2SWAP [x1; x2; x3; x4] [x3; x4; x1; x2].
Proof.
  split_and!; intros m base data stop index; unfold execute; dispatch; unfold stack_op_pairs;
    dispatch; repeat forth_step.
Qed.

Lemma pop_last m base k x : pop (set_stack m (base ++ k ++ [x])) = Ok (x, set_stack m (base ++ k)).
Proof. apply pop_on. Qed.

Lemma forth_drops : forth env OP_2DROP [x1; x2] [] /\ forth env OP_DROP [x1] [].
Proof.
  split; intros m base data stop index; unfold execute; dispatch;
    (unfold stack_op_pairs || unfold stack_op_singles); dispatch; forth_step.
  - erewrite bind_eq by (apply (pop_last m base [x1] x2)).
    erewrite bind_eq by (apply (pop_last m base [] x1)). done.
  - erewrite bind_eq by (apply (pop_last m base [] x1)). done.
Qed.

Lemma forth_singles :
  forth env OP_DUP [x1] [x1; x1] /\
  forth env OP_NIP [x1; x2] [x2] /\
  forth env OP_OVER [x1; x2] [x1; x2; x1] /\
  forth env OP_ROT [x1; x2; x3] [x2; x3; x1] /\
  forth env OP_SWAP [x1; x2] [x2; x1] /\
  forth env OP_TUCK [x1; x2] [x2; x1; x2] /\
  forth env OP_IFDUP [x1] (if cast_to_bool x1 then [x1; x1] else [x1]).
Proof.
  split_and!; intros m base data stop index; unfold execute; dispatch; unfold stack_op_singles;
    dispatch; repeat forth_step.
  - eapply insert_on; [vm_compute; split; congruence|].
    unfold Stack.insert. by rewrite (proj2 (Z.leb_le _ _)).
  - destruct (cast_to_bool x1); [|done]. by apply push_on.
Qed.

(** [n] items below the top is [xn]; [OP_PICK] copies it, [OP_ROLL] moves it. *)
Lemma forth_pick_roll rest n : len rest < 2 ^ 31 -> ScriptNum.encode (E:=ScriptError) (len rest) = Ok n ->
  forth env OP_PICK (x1 :: rest ++ [n]) (x1 :: rest ++ [x1]) /\
  forth env OP_ROLL (x1 :: rest ++ [n]) (rest ++ [x1]).
Proof.
  intros Hr Hn. pose proof (len_nonneg rest) as Hr0.
  assert (Hdec : ScriptNum.decode n SCRIPTNUM_SIZE_MAX = Ok (len rest)) by (apply decode_encode; [done|lia]).
  assert (Hl2 : len (x1 :: rest ++ [n]) = len rest + 2)
    by (rewrite len_cons, len_app; change (len [n]) with 1; lia).
  assert (Htop1 : forall m base, num_at 1 SCRIPTNUM_SIZE_MAX (set_stack m (base ++ x1 :: rest ++ [n]))
    = Ok (len rest, set_stack m (base ++ x1 :: rest ++ [n]))).
  { intros m base. unfold num_at. erewrite bind_eq; [unfold from; by rewrite Hdec|].
    apply top_on; [lia|]. change (x1 :: rest ++ [n]) with ((x1 :: rest) ++ [n]).
    rewrite Stack.top_app; [done|vm_compute; split; congruence]. }
  assert (Hget : get (x1 :: rest) 0 = Some x1) by done.
  assert (Hidx : Stack.index_at_depth (E:=ScriptError) (x1 :: rest) (len rest + 1) = Ok 0).
  { rewrite Stack.index_eq by (rewrite len_cons; lia). rewrite len_cons. f_equal. lia. }
  assert (Hpre : forall opcode m base, is_one_of [OP_PICK; OP_ROLL] opcode = true ->
    pick_or_roll opcode (set_stack m (base ++ x1 :: rest ++ [n])) =
    ((if opcode =? OP_ROLL then remove (len rest + 1);; mret tt else mret tt);; push x1)
      (set_stack m (base ++ x1 :: rest))).
  { intros opcode m base Ho. unfold pick_or_roll.
    erewrite bind_eq by (apply require_on; lia). erewrite bind_eq by apply Htop1. cbv zeta.
    rewrite clamp_small by lia.
    erewrite bind_eq by (apply (pop_last m base (x1 :: rest) n)).
    rewrite (proj2 (Z.ltb_ge _ 0)) by lia. erewrite bind_eq by done. cbn [set_stack stack].
    rewrite (proj2 (Z.leb_gt _ _)) by (rewrite len_app, len_cons; pose proof (len_nonneg base); lia).
    erewrite bind_eq; [done|]. apply top_on; [rewrite len_cons; lia|].
    unfold Stack.top. rewrite Hidx. run. by rewrite Hget. }
  split; intros m base data stop index; unfold execute; dispatch; unfold stack_op_singles; dispatch;
    rewrite Hpre by done.
  - change (OP_PICK =? OP_ROLL) with false. erewrite bind_eq by done. by apply (push_on m base).
  - change (OP_ROLL =? OP_ROLL) with true. cbv iota.
    erewrite bind_eq by (erewrite bind_eq; [done|]; apply (remove_on m base _ _ x1 rest);
      [rewrite len_cons; lia|unfold Stack.remove; rewrite Hidx; run; by rewrite Hget]).
    by apply push_on.
Qed.
End forth.

(** ** Multisig as an order-preserving matching *)

Section matching.
Context {A B : Type} (f : A -> B -> bool).

(** Core's loop on lists: a failed check drops the key only. *)
Fixpoint greedy (sigs : list A) (keys : list B) : bool :=
  match sigs, keys with
  | [], _ => true
  | _, [] => false
  | s :: sigs', k :: keys' => if f s k then greedy sigs' keys' else greedy sigs keys'
  end.

(** Each signature is by a key of its own, in the same order. *)
Definition matching (sigs : list A) (keys : list B) : Prop :=
  exists ks, ks `sublist_of` keys /\ Forall2 (fun s k => f s k = true) sigs ks.

Lemma greedy_sound sigs keys : greedy sigs keys = true -> matching sigs keys.
Proof.
  revert sigs; induction keys as [|k keys IH]; intros [|s sigs]; cbn [greedy]; try done.
  - exists []. split; [constructor|constructor].
  - exists []. split; [apply sublist_nil_l|constructor].
  - destruct (f s k) eqn:Hf; intros Hg; apply IH in Hg as (ks & Hs & Hm).
    + exists (k :: ks). split; [by constructor|by constructor].
    + exists ks. split; [by constructor|done].
Qed.

(** A signature less never hurts. *)
Lemma greedy_drop_sig s sigs keys : greedy (s :: sigs) keys = true -> greedy sigs keys = true.
Proof.
  revert s sigs; induction keys as [|k keys IH]; intros s [|s' sigs]; try done.
  intros Hg. assert (Hk : greedy (s' :: sigs) keys = true).
  { cbn [greedy] in Hg. destruct (f s k); [done|]. by apply IH in Hg. }
  cbn [greedy]. destruct (f s' k); [by apply IH in Hk|done].
Qed.

Lemma greedy_complete sigs keys : matching sigs keys -> greedy sigs keys = true.
Proof.
  intros (ks & Hs & Hm). revert sigs Hm. induction Hs as [|k ks keys Hs IH|k ks keys Hs IH];
    intros sigs Hm.
  - by inversion Hm.
  - inversion Hm as [|s ? sigs' ? Hf Hm']; subst. cbn [greedy]. rewrite Hf. by apply IH.
  - destruct sigs as [|s sigs]; [done|]. cbn [greedy]. apply IH in Hm.
    destruct (f s k); [by apply greedy_drop_sig in Hm|done].
Qed.

Lemma greedy_iff sigs keys : greedy sigs keys = true <-> matching sigs keys.
Proof. split; [apply greedy_sound|apply greedy_complete]. Qed.

Lemma greedy_too_many sigs keys : (length keys < length sigs)%nat -> greedy sigs keys = false.
Proof.
  revert sigs; induction keys as [|k keys IH]; intros [|s sigs] Hl; cbn in Hl; try lia; [done|].
  cbn [greedy]. destruct (f s k); apply IH; cbn; lia.
Qed.
End matching.

Section multisig.
Context `{Hashes} `{SigChecker} (env : Env) (code : bytes) (f : bytes -> bytes -> bool).
Hypothesis Hecdsa : forall s k, check_ecdsa s k code (env_sig_version env) = Ok (f s k).

(** The items from depth [d] down. *)
Definition items_at (m : Machine) (d : Z) (l : list bytes) : Prop :=
  forall i x, get l i = Some x -> top (d + i) m = Ok (x, m).

Lemma items_at_cons m d x l : items_at m d (x :: l) -> top d m = Ok (x, m) /\ items_at m (d + 1) l.
Proof.
  intros Hi. split.
  - rewrite <-(Z.add_0_r d). by apply Hi.
  - intros i y Hy. replace (d + 1 + i) with (d + (i + 1)) by lia. apply Hi.
    pose proof (get_Some_range _ _ _ Hy). by rewrite get_S by lia.
Qed.

Lemma checkmultisig_loop_greedy it ikey isig keys sigs m :
  (length keys <= it)%nat -> len keys <= 20 -> (length sigs <= length keys)%nat ->
  items_at m ikey keys -> items_at m isig sigs ->
  Forall (fun s => check_signature_encoding s (env_flags env) = Ok tt) sigs ->
  checkmultisig_loop env it ikey isig (len keys) (len sigs) code m = Ok (greedy f sigs keys, m).
Proof.
  revert ikey isig keys sigs; induction it as [|it IH];
    intros ikey isig keys sigs Hit H20 Hle Hk Hs Henc; cbn [checkmultisig_loop].
  { destruct keys, sigs; cbn in *; try lia. done. }
  destruct sigs as [|s sigs]; [by destruct keys|].
  destruct keys as [|k keys]; [cbn in Hle; lia|]. cbn [length] in *.
  rewrite (proj2 (Z.ltb_lt _ _)) by (rewrite len_cons; pose proof (len_nonneg sigs); lia).
  destruct (items_at_cons _ _ _ _ Hk) as [Htk Hk']. destruct (items_at_cons _ _ _ _ Hs) as [Hts Hs'].
  apply Forall_cons in Henc as [He Henc'].
  erewrite bind_eq by exact Hts. erewrite bind_eq by exact Htk.
  erewrite bind_eq by (unfold from; by rewrite He).
  erewrite bind_eq by (unfold from; by rewrite Hecdsa). cbv zeta.
  rewrite !len_cons in *. pose proof (len_nonneg keys). pose proof (len_nonneg sigs).
  erewrite bind_eq by (unfold from; by rewrite u64_ok by (unfold u64_max; lia)).
  replace (len keys + 1 - 1) with (len keys) by lia. cbn [greedy].
  destruct (f s k).
  - replace (len sigs + 1 - 1) with (len sigs) by lia.
    rewrite (proj2 (Z.ltb_ge _ _)) by (unfold len; lia). apply IH; try done; lia.
  - destruct (Z.ltb_spec (len keys) (len sigs + 1)) as [Hlt|Hge].
    + rewrite greedy_too_many by (cbn; unfold len in Hlt; lia). done.
    + rewrite <-len_cons with (x := s). apply IH; try done; [lia|lia|cbn; unfold len in Hge; lia|].
      by apply Forall_cons.
Qed.

Lemma items_at_reverse m pre l tail : stack m = pre ++ l ++ tail ->
  items_at m (len tail + 1) (reverse l).
Proof.
  intros Hst i x Hx. pose proof (get_Some_range _ _ _ Hx) as Hi.
  assert (Hlr : len (reverse l) = len l) by (unfold len; by rewrite length_reverse).
  rewrite Hlr in Hi. assert (Hg : get l (len l - 1 - i) = Some x).
  { unfold get, len in *. rewrite (proj2 (Z.leb_le 0 i)) in Hx by lia.
    rewrite (proj2 (Z.leb_le 0 _)) by lia. rewrite reverse_lookup in Hx by lia.
    rewrite <-Hx. f_equal. lia. }
  unfold top, from, Stack.top. pose proof (len_nonneg pre). pose proof (len_nonneg tail).
  rewrite Hst, Stack.index_eq by (rewrite !len_app; lia). run.
  rewrite !len_app, get_app_r, get_app_l by lia.
  replace (len pre + (len l + len tail) - (len tail + 1 + i) - len pre) with (len l - 1 - i) by lia.
  by rewrite Hg.
Qed.

Lemma pops_on m base t : pops (length t) (set_stack m (base ++ t)) = Ok (tt, set_stack m base).
Proof.
  induction t as [|x t IH] using rev_ind; [cbn; by rewrite app_nil_r|].
  rewrite length_app, Nat.add_comm. cbn [length Nat.add pops].
  erewrite bind_eq by apply pop_on. apply IH.
Qed.

Lemma num_at_top m pre x tail n d : stack m = pre ++ [x] ++ tail -> d = len tail + 1 ->
  ScriptNum.encode (E:=ScriptError) n = Ok x -> 0 <= n <= 20 ->
  num_at d SCRIPTNUM_SIZE_MAX m = Ok (n, m).
Proof.
  intros Hst -> Hn Hr. unfold num_at. erewrite bind_eq; [unfold from; by erewrite decode_encode by (done || lia)|].
  pose proof (items_at_reverse m pre [x] tail Hst 0 x eq_refl) as Ht. by rewrite Z.add_0_r in Ht.
Qed.

Lemma require_len m n : n <= len (stack m) -> require n m = Ok (tt, m).
Proof. intros. unfold require, from, Stack.require. by rewrite (proj2 (Z.ltb_ge _ _)). Qed.

(** The matching loop on the arguments as [OP_CHECKMULTISIG] finds them. *)
Lemma multisig_verify_eq m base dummy sigs nsig keys nkey :
  stack m = base ++ [dummy] ++ sigs ++ [nsig] ++ keys ++ [nkey] -> len sigs <= len keys <= 20 ->
  Forall (fun s => check_signature_encoding s (env_flags env) = Ok tt) sigs ->
  checkmultisig_verify env (1 + 1) (len keys + 3) (len keys) (len sigs) code m =
    Ok (greedy f (reverse sigs) (reverse keys), m).
Proof.
  intros Hst Hle Henc. unfold checkmultisig_verify.
  assert (Hr : forall l : list bytes, len (reverse l) = len l)
    by (intros l; unfold len; by rewrite length_reverse).
  rewrite <-(Hr keys) at 2. rewrite <-(Hr sigs).
  apply checkmultisig_loop_greedy; rewrite ?length_reverse, ?Hr; unfold len in Hle;
    try (unfold len, MAX_PUBKEYS_PER_MULTISIG; lia); [| |by apply Forall_reverse].
  - apply (items_at_reverse m (base ++ [dummy] ++ sigs ++ [nsig]) keys [nkey]).
    by rewrite Hst, <-!app_assoc.
  - replace (len keys + 3) with (len ([nsig] ++ keys ++ [nkey]) + 1)
      by (rewrite !len_app; change (len [nsig]) with 1; change (len [nkey]) with 1; lia).
    apply (items_at_reverse m (base ++ [dummy]) sigs ([nsig] ++ keys ++ [nkey])).
    by rewrite Hst, <-!app_assoc.
Qed.

(** [(dummy sig .. n key .. m -- bool)]. *)
Lemma checkmultisig_eq m base dummy sigs nsig keys nkey :
  let s := base ++ [dummy] ++ sigs ++ [nsig] ++ keys ++ [nkey] in
  let m1 := set_stack (set_op_count m (op_count m + len keys)) s in
  env_sig_version env <> Tapscript ->
  ScriptNum.encode (E:=ScriptError) (len keys) = Ok nkey ->
  ScriptNum.encode (E:=ScriptError) (len sigs) = Ok nsig ->
  len sigs <= len keys <= 20 -> op_count m + len keys <= MAX_OPS_PER_SCRIPT ->
  multisig_script_code env (len keys + 3) (len sigs) m1 = Ok (code, m1) ->
  Forall (fun s => check_signature_encoding s (env_flags env) = Ok tt) sigs ->
  (ScriptFlags.contains (env_flags env) ScriptFlags.NULLDUMMY = true -> dummy = []) ->
  checkmultisig env OP_CHECKMULTISIG (set_stack m s) =
    push_bool (greedy f (reverse sigs) (reverse keys))
      (set_stack (set_op_count m (op_count m + len keys)) base).
Proof.
  intros s m1 Hv Hk Hs Hle Hops Hcode Henc Hdummy.
  pose proof (len_nonneg keys). pose proof (len_nonneg sigs). pose proof (len_nonneg base).
  assert (Hlen : len s = len base + 1 + len sigs + 1 + len keys + 1).
  { unfold s. rewrite !len_app. change (len [dummy]) with 1. change (len [nsig]) with 1.
    change (len [nkey]) with 1. lia. }
  unfold checkmultisig, MAX_PUBKEYS_PER_MULTISIG. rewrite bool_decide_eq_false_2 by done.
  erewrite bind_eq by (apply require_len; cbn [set_stack stack]; lia).
  erewrite bind_eq by (eapply (num_at_top _ (base ++ [dummy] ++ sigs ++ [nsig] ++ keys) nkey []);
    [unfold s; cbn [set_stack stack]; rewrite <-!app_assoc; done|done|done|lia]).
  cbv beta zeta. rewrite clamp_small by lia.
  rewrite (proj2 (Z.leb_le 0 _)), (proj2 (Z.leb_le _ 20)) by lia. cbn [negb andb].
  erewrite bind_eq by (unfold from; by rewrite count_from_ok by lia).
  erewrite bind_eq by done. erewrite bind_eq by done. cbn [set_stack op_count].
  rewrite (proj2 (Z.ltb_ge MAX_OPS_PER_SCRIPT _)) by lia.
  change (set_op_count (set_stack m s) (op_count m + len keys)) with m1.
  erewrite bind_eq by (apply require_len; cbn [m1 set_stack stack]; lia).
  erewrite bind_eq by (eapply (num_at_top m1 (base ++ [dummy] ++ sigs) nsig (keys ++ [nkey]));
    [unfold m1, s; cbn [set_stack stack]; rewrite <-!app_assoc; done
    |rewrite len_app; change (len [nkey]) with 1; lia|done|lia]).
  rewrite clamp_small by lia.
  rewrite (proj2 (Z.ltb_ge (len sigs) 0)), (proj2 (Z.ltb_ge (len keys) _)) by lia. cbn [orb].
  erewrite bind_eq by (unfold from; by rewrite count_from_ok by lia).
  erewrite bind_eq by (apply require_len; cbn [m1 set_stack stack]; lia).
  replace (1 + 1 + len keys + 1) with (len keys + 3) by lia.
  erewrite bind_eq by exact Hcode. cbv beta.
  erewrite bind_eq by (by eapply (multisig_verify_eq m1 base dummy sigs nsig keys nkey)).
  replace (Z.to_nat (len keys + 3 + len sigs - 1)) with (length (sigs ++ [nsig] ++ keys ++ [nkey]))
    by (rewrite !length_app; cbn [length]; unfold len in *; lia).
  change m1 with (set_stack (set_op_count m (op_count m + len keys)) s).
  replace s with ((base ++ [dummy]) ++ (sigs ++ [nsig] ++ keys ++ [nkey]))
    by (unfold s; by rewrite <-!app_assoc).
  erewrite bind_eq by apply pops_on.
  erewrite bind_eq by (apply require_on; vm_compute; congruence).
  erewrite bind_eq by (apply top_on; [vm_compute; split; congruence|reflexivity]).
  destruct (ScriptFlags.contains _ _ && _) eqn:Hnd.
  { apply andb_true_iff in Hnd as [Hc Hd]. rewrite (Hdummy Hc) in Hd. done. }
  erewrite bind_eq by (apply (pop_on _ base [] dummy)). rewrite app_nil_r.
  change (OP_CHECKMULTISIG =? OP_CHECKMULTISIGVERIFY) with false. cbv iota.
  apply bind_ret_unit.
Qed.
End multisig.

(** ** Deep nests under tapscript *)

Section nesting.
Context `{Hashes} `{SigChecker} (flags : ScriptFlags.ScriptFlags).

Lemma next_op_byte {E} pre b rest n : OP_PUSHDATA4 < bz b -> 0 <= n < u32_max ->
  Reader.next_op (E:=E) (Reader.mkReader (pre ++ b :: rest) (len pre) n) =
    Ok (Some (inl (mkOp (bz b) [] (len pre + 1))),
        Reader.mkReader ((pre ++ [b]) ++ rest) (len (pre ++ [b])) (n + 1)).
Proof.
  intros Hb Hn. pose proof (len_nonneg pre). pose proof (len_nonneg rest). unfold Reader.next_op.
  cbn [Reader.script Reader.position Reader.ops_read].
  assert (Hl : len (pre ++ b :: rest) = len pre + len rest + 1) by (rewrite len_app, len_cons; lia).
  rewrite (proj2 (Z.leb_gt (len (pre ++ _)) _)) by lia.
  unfold read_op. rewrite (proj2 (Z.ltb_lt (len pre) (len (pre ++ _)))), get_middle by lia.
  cbn. run. rewrite (proj2 (Z.ltb_lt _ (bz b))) by done. run.
  rewrite (proj2 (Z.ltb_lt (len pre) _)), (proj2 (Z.leb_le _ (len (pre ++ _)))) by lia. run.
  rewrite u32_ok by lia. run. unfold Opcode.is_push. rewrite (proj2 (Z.leb_gt _ OP_PUSHDATA4)) by done.
  run. rewrite <-app_assoc, len_app. done.
Qed.

(** Inside an unexecuted branch every [OP_IF] nests deeper, whatever the stack holds, until
    the depth assertion of [ConditionStack::push] fails. *)
Lemma nested_ifs_panic fuel pre n tail r d m script :
  (n < fuel)%nat -> 1 <= d <= 10001 -> 10002 - d <= Z.of_nat n -> 0 <= r < u32_max - Z.of_nat n ->
  len (stack m) + len (altstack m) <= MAX_STACK_SIZE ->
  conditions m = ConditionStack.mk d (Some 0) ->
  run_loop (mkEnv script flags Tapscript) fuel false
    (Reader.mkReader (pre ++ repeat x63 n ++ tail) (len pre) r) m = Panic.
Proof.
  revert pre n r d m; induction fuel as [|fuel IH]; intros pre n r d m Hf Hd Hn Hr Hlim Hc; [lia|].
  destruct n as [|n]; [lia|]. cbn [run_loop repeat app].
  pose proof (next_op_byte (E:=ScriptError) pre x63 (repeat x63 n ++ tail) r) as Hno.
  specialize (Hno ltac:(vm_compute; reflexivity) ltac:(lia)).
  erewrite bind_eq by (unfold from; rewrite Hno; reflexivity).
  cbv beta iota. unfold Reader.opcode_index. cbn [Reader.ops_read].
  rewrite (proj2 (Z.ltb_lt 0 (r + 1))) by lia. run.
  set (op := mkOp (bz x63) [] (len pre + 1)).
  set (m' := set_conditions m (ConditionStack.mk (d + 1) (Some 0))).
  assert (Hbranch : branch (mkEnv script flags Tapscript) OP_IF false m =
    if d + 1 <=? 10001 then Ok (tt, m') else Panic).
  { unfold branch. erewrite bind_eq by done. erewrite bind_eq by done. rewrite Hc.
    unfold ConditionStack.push. cbn [ConditionStack.first_false ConditionStack.depth].
    rewrite u32_ok by (unfold u32_max; lia). run. destruct (d + 1 <=? 10001); done. }
  assert (Hstep : step (mkEnv script flags Tapscript) false op (Ok (r + 1 - 1)) m =
    if d + 1 <=? 10001 then Ok (tt, m') else Panic).
  { unfold step. cbn [op_push op op_opcode].
    change (MAX_SCRIPT_ELEMENT_SIZE <? len []) with false. cbn [andb]. cbv iota.
    erewrite bind_eq by done. change (Opcode.is_disabled (bz x63)) with false. cbv iota.
    erewrite bind_eq by done. unfold ConditionStack.all_true. rewrite Hc.
    cbn [ConditionStack.first_false]. rewrite bool_decide_eq_false_2 by done. cbn [andb orb].
    change (Opcode.is_conditional (bz x63)) with true. cbv iota.
    change (execute (mkEnv script flags Tapscript) op false) with
      (fun _ : Z => branch (mkEnv script flags Tapscript) OP_IF false).
    unfold mbind at 1, M_bind at 1. erewrite bind_eq by done. rewrite Hbranch.
    destruct (d + 1 <=? 10001); [|done]. erewrite bind_eq by done. erewrite bind_eq by done.
    cbn [m' set_conditions stack altstack]. by rewrite (proj2 (Z.ltb_ge MAX_STACK_SIZE _)). }
  unfold mbind, M_bind. rewrite Hstep. destruct (Z.leb_spec (d + 1) 10001); [|done].
  apply (IH _ _ _ (d + 1)); [lia..|done|done].
Qed.

Lemma next_op_zero {E} rest n : 0 <= n < u32_max ->
  Reader.next_op (E:=E) (Reader.mkReader (x00 :: rest) 0 n) =
    Ok (Some (inl (mkOp OP_0 [] 1)), Reader.mkReader ([x00] ++ rest) (len [x00]) (n + 1)).
Proof.
  intros Hn. pose proof (len_nonneg rest). assert (Hp : push_prefix (len (@nil byte)) 0 []) by (by vm_compute).
  destruct (read_op_push (E:=E) [] 0 [] [] rest Hp) as [Hr Hd].
  change ([] ++ (zb 0 :: [] ++ []) ++ rest) with (x00 :: rest) in Hr, Hd. change (len (@nil byte)) with 0 in Hr, Hd.
  change (0 + 1 + 0 + 0) with 1 in Hr, Hd.
  unfold Reader.next_op. cbn [Reader.script Reader.position Reader.ops_read].
  rewrite (proj2 (Z.leb_gt _ 0)) by (rewrite len_cons; lia). rewrite Hr. run.
  rewrite (proj2 (Z.leb_le 1 _)) by (rewrite len_cons; lia). change (0 <? 1) with true. run.
  rewrite u32_ok by lia. run. change (Opcode.is_push 0) with true. cbn [Reader.script]. rewrite Hd. done.
Qed.

Lemma step_zero env m s index stop : conditions m = ConditionStack.new ->
  len s + len (altstack m) < MAX_STACK_SIZE ->
  step env false (mkOp OP_0 [] stop) index (set_stack m s) = Ok (tt, set_stack m (s ++ [[]])).
Proof.
  intros Hc Hs. unfold step. cbn [andb op_opcode op_push].
  change (MAX_SCRIPT_ELEMENT_SIZE <? len (@nil byte)) with false. cbv iota. erewrite bind_eq by done.
  change (Opcode.is_disabled OP_0) with false. cbv iota. erewrite bind_eq by done.
  cbn [set_stack conditions]. rewrite Hc. change (_ && Opcode.is_push OP_0) with true. cbv iota.
  erewrite bind_eq; [|rewrite <-(app_nil_r s) at 1; apply (push_on m s []); vm_compute; congruence].
  erewrite bind_eq by done. erewrite bind_eq by done. cbn [set_stack stack altstack app].
  rewrite (proj2 (Z.ltb_ge MAX_STACK_SIZE _)); [done|].
  rewrite len_app. change (len [[]]) with 1. lia.
Qed.

Lemma step_first_if script m s i stop : conditions m = ConditionStack.new ->
  len s + len (altstack m) < MAX_STACK_SIZE ->
  step (mkEnv script flags Tapscript) false (mkOp (bz x63) [] stop) (Ok i) (set_stack m (s ++ [[]]))
    = Ok (tt, set_conditions (set_stack m s) (ConditionStack.mk 1 (Some 0))).
Proof.
  intros Hc Hs. unfold step. cbn [andb op_opcode op_push].
  change (MAX_SCRIPT_ELEMENT_SIZE <? len (@nil byte)) with false. cbv iota. erewrite bind_eq by done.
  change (Opcode.is_disabled (bz x63)) with false. cbv iota. erewrite bind_eq by done.
  cbn [set_stack conditions]. rewrite Hc. change (ConditionStack.all_true ConditionStack.new) with true.
  change (Opcode.is_push (bz x63)) with false. cbn [andb orb]. cbv iota.
  set (env := mkEnv script flags Tapscript).
  rewrite (bind_eq _ _ _ (set_conditions (set_stack m s) (ConditionStack.mk 1 (Some 0))) tt).
  { erewrite bind_eq by done. erewrite bind_eq by done. cbn [set_conditions set_stack stack altstack].
    by rewrite (proj2 (Z.ltb_ge MAX_STACK_SIZE _)) by lia. }
  erewrite bind_eq by done.
  change (execute env (mkOp (bz x63) [] stop) true i) with (branch env OP_IF true). unfold branch.
  rewrite (bind_eq _ _ _ (set_stack m s) false).
  { erewrite bind_eq by done. cbn [set_stack conditions]. by rewrite Hc. }
  erewrite bind_eq by (apply (require_on m s 1 [[]]); vm_compute; congruence).
  erewrite bind_eq by (apply (top_on m s 1 [[]] []); [vm_compute; split; congruence|done]).
  erewrite bind_eq by done. erewrite bind_eq by (apply (pop_on m s [] [])). by rewrite app_nil_r.
Qed.

Definition nested_ifs (n : nat) (tail : bytes) : bytes := x00 :: repeat x63 (S n) ++ tail.

Lemma nested_ifs_eval n tail ts s : 10001 <= Z.of_nat n < u32_max - 10 -> len s < MAX_STACK_SIZE ->
  eval_script (mkEnv (nested_ifs n tail) flags Tapscript) s (tapscript_exec ts) = Panic.
Proof.
  intros Hn Hs. unfold eval_script. cbn [tapscript tapscript_exec env_sig_version env_script].
  rewrite (bool_decide_eq_true_2 (is_Some _)) by eauto.
  rewrite (bool_decide_eq_true_2 (Tapscript = _)) by done.
  rewrite (bool_decide_eq_false_2 (Tapscript <> Tapscript)) by auto. cbn [Bool.eqb andb]. run.
  set (env := mkEnv _ _ _). 
  set (m := mkMachine s _ _ _ _ _).
  change m with (set_stack m s).
  enough (Hrun : run_loop env (S (length (nested_ifs n tail))) false
    (Reader.new (nested_ifs n tail)) (set_stack m s) = Panic) by (by rewrite Hrun).
  unfold Reader.new, nested_ifs. cbn [length run_loop]. rewrite length_app, repeat_length.
  pose proof (next_op_zero (E:=ScriptError) (repeat x63 (S n) ++ tail) 0 ltac:(done)) as Hno.
  erewrite bind_eq by (unfold from; rewrite Hno; reflexivity). cbv beta iota. clear Hno.
  erewrite bind_eq by (apply step_zero; [done|change (len (altstack m)) with 0; lia]).
  cbn [repeat app Nat.add run_loop].
  pose proof (next_op_byte (E:=ScriptError) [x00] x63 (repeat x63 n ++ tail) (0 + 1)
    ltac:(vm_compute; reflexivity) ltac:(vm_compute; split; congruence)) as Hno. cbn [app] in Hno.
  erewrite bind_eq by (unfold from; rewrite Hno; reflexivity). cbv beta iota. clear Hno.
  erewrite bind_eq by (apply step_first_if; [done|change (len (altstack m)) with 0; lia]).
  apply (nested_ifs_panic (S (n + length tail)) [x00; x63] n tail (0 + 1 + 1) 1); try done; try lia.
  cbn [set_conditions set_stack stack altstack m]. change (len Stack.new) with 0. lia.
Qed.

End nesting.

(** ** Concrete instances *)

(** Digests of the documented lengths, and a checker that accepts a signature by the key of
    the same bytes. *)
Definition zero_hashes : Hashes := {|
  sha256 _ := repeat x00 32; sha256d _ := repeat x00 32; sha1 _ := repeat x00 20;
  ripemd160 _ := repeat x00 20; hash160 _ := repeat x00 20 |}.

Lemma zero_hash_lengths : @HashLengths zero_hashes.
Proof. by constructor. Qed.

Definition echo_checker : SigChecker := {|
  check_ecdsa signature pubkey _ _ := Ok (bool_decide (signature = pubkey));
  check_schnorr signature pubkey _ _ :=
    if bool_decide (signature = pubkey) then Ok tt else Err ScriptError.SchnorrSig;
  check_locktime _ := Ok true;
  check_sequence _ := Ok true |}.

Lemma echo_checker_laws : @SigCheckerLaws echo_checker.
Proof. constructor; cbn; eauto. intros. by case_bool_decide. Qed.

(** ** Properties *)

(** C28. Script execution is safe.  For every script, every stack of items within the
    element limit and every checker that keeps its promises, [eval_script] terminates
    without a panic (no stack underflow, no index out of range, no overflow, no assertion),
    under legacy and segwit rules without any bound on the script, and under tapscript
    rules for scripts of up to 10,001 bytes; and when the script succeeds the stack has at
    most 1,000 items (or its initial number), each of at most 520 bytes. *)
Theorem eval_script_safe `{HashLengths} `{SigCheckerLaws} env s e :
  Stack.items_ok s -> len s < 2 ^ 62 -> exec_ok (env_sig_version env) e ->
  (env_sig_version env = Tapscript -> len (env_script env) <= 10001) ->
  eval_script env s e <> Panic /\
  forall s' e', eval_script env s e = Ok (s', e') ->
    Stack.items_ok s' /\ len s' <= Z.max MAX_STACK_SIZE (len s) /\
    exec_ok (env_sig_version env) e'.
Proof.
  intros Hs Hn He Ht. pose proof (eval_script_ok env s e Hs Hn He Ht) as Hok.
  split; [by eapply ensures_not_Panic|]. intros s' e' Hev.
  exact (ensures_Ok_inv _ _ _ Hok Hev).
Qed.

(** [OP_1 OP_DUP OP_ADD OP_2 OP_NUMEQUAL] leaves true. *)
Lemma eval_script_safe_witness :
  let env := mkEnv [x51; x76; x93; x52; x9c] ScriptFlags.MANDATORY WitnessV0 in
  @eval_script zero_hashes echo_checker env [] legacy_exec = Ok ([[x01]], legacy_exec) /\
  Stack.items_ok [[x01]].
Proof.
  destruct (@eval_script_safe zero_hashes zero_hash_lengths echo_checker echo_checker_laws
    (mkEnv [x51; x76; x93; x52; x9c] ScriptFlags.MANDATORY WitnessV0) [] legacy_exec) as [_ Hok].
  - constructor.
  - vm_compute. reflexivity.
  - discriminate.
  - discriminate.
  - split; [vm_compute; reflexivity|].
    apply (Hok [[x01]] legacy_exec). vm_compute. reflexivity.
Defined.

(** C40. The depth assertion of [ConditionStack::push] is reachable: a tapscript leaf, which
    BIP342 exempts from the size and opcode limits, that opens 10,002 or more nested
    unexecuted [OP_IF]s aborts the evaluation with a panic, whatever follows (for instance
    the [OP_ENDIF]s and the [OP_1] that make it a valid spend), whatever the flags, the
    signatures and the budget. *)
Theorem deep_tapscript_nest_panics `{Hashes} `{SigChecker} flags n tail ts s :
  10001 <= Z.of_nat n < u32_max - 10 -> len s < MAX_STACK_SIZE ->
  eval_script (mkEnv (nested_ifs n tail) flags Tapscript) s (tapscript_exec ts) = Panic.
Proof. apply nested_ifs_eval. Qed.

Lemma deep_tapscript_nest_panics_witness :
  @eval_script zero_hashes echo_checker
    (mkEnv (nested_ifs (Z.to_nat 10001) (repeat x68 (Z.to_nat 10002) ++ [x51]))
       ScriptFlags.MANDATORY Tapscript) [] (tapscript_exec (mkTapscriptExec [] None 100)) = Panic.
Proof.
  apply (@deep_tapscript_nest_panics zero_hashes echo_checker).
  - rewrite Z2Nat.id by lia. vm_compute. split; congruence.
  - vm_compute. reflexivity.
Defined.

(** The [ConditionStack] (a depth and the position of the outermost false) implements
    the list of branch values it stands for: [push] appends (and panics past 10,001),
    [pop] removes the innermost, [toggle_top] negates it, [all_true] is their conjunction
    and [is_empty] their absence. *)
Theorem condition_stack_refines bs b v :
  ConditionStack.push (E:=Empty_set) (condition_stack_of bs) v =
    (if len bs <=? 10000 then Ok (condition_stack_of (bs ++ [v])) else Panic) /\
  ConditionStack.pop (E:=Empty_set) (condition_stack_of (bs ++ [b])) = Ok (condition_stack_of bs) /\
  ConditionStack.toggle_top (E:=Empty_set) (condition_stack_of (bs ++ [b])) =
    Ok (condition_stack_of (bs ++ [negb b])) /\
  ConditionStack.all_true (condition_stack_of bs) = forallb id bs /\
  ConditionStack.is_empty (condition_stack_of bs) = bool_decide (bs = []).
Proof.
  pose proof (len_nonneg bs) as Hbs.
  assert (Hl : forall x, len (bs ++ [x]) = len bs + 1) by (intros x; by rewrite len_app).
  split_and!.
  - unfold ConditionStack.push, condition_stack_of. cbn [ConditionStack.depth ConditionStack.first_false].
    rewrite first_false_app, Hl, Z.add_0_l. unfold u32, u32_max.
    destruct (Z.leb_spec (len bs) 10000).
    + rewrite (proj2 (Z.leb_le 0 _)), (proj2 (Z.leb_le _ (2 ^ 32 - 1))) by lia. run.
      rewrite (proj2 (Z.leb_le _ _)) by lia. run. do 2 f_equal.
      destruct (first_false_of 0 bs); [done|]. by destruct v.
    + destruct (_ && _); [|done]. run. by rewrite (proj2 (Z.leb_gt _ _)) by lia.
  - unfold ConditionStack.pop, condition_stack_of. cbn [ConditionStack.depth ConditionStack.first_false].
    rewrite Hl, (proj2 (Z.ltb_lt _ _)) by lia. run.
    replace (len bs + 1 - 1) with (len bs) by lia. rewrite first_false_app, Z.add_0_l. do 2 f_equal.
    destruct (first_false_of 0 bs) as [f|] eqn:Hf; [|destruct b; case_bool_decide; congruence].
    apply first_false_range in Hf. rewrite bool_decide_eq_false_2; [done|]. intros [= ->]. lia.
  - unfold ConditionStack.toggle_top, condition_stack_of. cbn [ConditionStack.depth ConditionStack.first_false].
    rewrite !Hl, (proj2 (Z.ltb_lt _ _)) by lia. run.
    replace (len bs + 1 - 1) with (len bs) by lia. rewrite !first_false_app, Z.add_0_l. do 2 f_equal.
    destruct (first_false_of 0 bs) as [f|] eqn:Hf.
    + apply first_false_range in Hf. by rewrite (proj2 (Z.eqb_neq _ _)) by lia.
    + destruct b; cbn [negb]; [done|]. by rewrite Z.eqb_refl.
  - unfold ConditionStack.all_true, condition_stack_of. cbn [ConditionStack.first_false].
    apply eq_bool_prop_intro. rewrite bool_decide_spec, first_false_None. by destruct (forallb id bs).
  - unfold ConditionStack.is_empty, condition_stack_of. cbn [ConditionStack.depth].
    destruct bs; [done|]. rewrite (proj2 (Z.eqb_neq _ _)); [done|]. rewrite len_cons.
    pose proof (len_nonneg bs). lia.
Qed.

(** The stack opcodes are the Forth words their comments say: on any stack with the
    named items on top, [execute] replaces exactly those items. *)
Theorem stack_opcodes_forth `{Hashes} `{SigChecker} env x1 x2 x3 x4 x5 x6 rest n :
  len x1 <= 520 -> len x2 <= 520 -> len x3 <= 520 -> len x4 <= 520 ->
  len rest < 2 ^ 31 -> ScriptNum.encode (E:=ScriptError) (len rest) = Ok n ->
  forth env OP_2DROP [x1; x2] [] /\
  forth env OP_2DUP [x1; x2] [x1; x2; x1; x2] /\
  forth env OP_3DUP [x1; x2; x3] [x1; x2; x3; x1; x2; x3] /\
  forth env OP_2OVER [x1; x2; x3; x4] [x1; x2; x3; x4; x1; x2] /\
  forth env OP_2ROT [x1; x2; x3; x4; x5; x6] [x3; x4; x5; x6; x1; x2] /\
  forth env OP_2SWAP [x1; x2; x3; x4] [x3; x4; x1; x2] /\
  forth env OP_IFDUP [x1] (if cast_to_bool x1 then [x1; x1] else [x1]) /\
  forth env OP_DROP [x1] [] /\
  forth env OP_DUP [x1] [x1; x1] /\
  forth env OP_NIP [x1; x2] [x2] /\
  forth env OP_OVER [x1; x2] [x1; x2; x1] /\
  forth env OP_ROT [x1; x2; x3] [x2; x3; x1] /\
  forth env OP_SWAP [x1; x2] [x2; x1] /\
  forth env OP_TUCK [x1; x2] [x2; x1; x2] /\
  forth env OP_PICK (x1 :: rest ++ [n]) (x1 :: rest ++ [x1]) /\
  forth env OP_ROLL (x1 :: rest ++ [n]) (rest ++ [x1]).
Proof.
  intros H1 H2 H3 H4 Hr Hn.
  pose proof (forth_pairs env x1 x2 x3 x4 x5 x6 H1 H2 H3). pose proof (forth_drops env x1 x2).
  pose proof (forth_singles env x1 x2 x3 H1 H2). pose proof (forth_pick_roll env x1 H1 rest n Hr Hn).
  tauto.
Qed.

Lemma stack_opcodes_forth_witness :
  @forth zero_hashes echo_checker (mkEnv [] ScriptFlags.NONE Base) OP_ROLL
    [[x01]; [x02]; [x03]; [x02]] [[x02]; [x03]; [x01]].
Proof.
  apply (@stack_opcodes_forth zero_hashes echo_checker (mkEnv [] ScriptFlags.NONE Base)
    [x01] [] [] [] [] [] [[x02]; [x03]] [x02]);
    try (vm_compute; congruence); vm_compute; reflexivity.
Defined.

(** C30. [OP_CHECKMULTISIG] on [dummy sig.. n key.. m] consumes its arguments and the dummy
    and pushes true exactly when every signature verifies against a key of its own with
    both in the same order; the greedy walk of the source loses no such matching. *)
Theorem checkmultisig_matching `{SigChecker} env code f m base dummy sigs nsig keys nkey :
  let s := base ++ [dummy] ++ sigs ++ [nsig] ++ keys ++ [nkey] in
  let m1 := set_op_count m (op_count m + len keys) in
  (forall sig key, check_ecdsa sig key code (env_sig_version env) = Ok (f sig key)) ->
  env_sig_version env <> Tapscript ->
  ScriptNum.encode (E:=ScriptError) (len keys) = Ok nkey ->
  ScriptNum.encode (E:=ScriptError) (len sigs) = Ok nsig ->
  len sigs <= len keys <= 20 -> op_count m + len keys <= MAX_OPS_PER_SCRIPT ->
  multisig_script_code env (len keys + 3) (len sigs) (set_stack m1 s) = Ok (code, set_stack m1 s) ->
  Forall (fun sig => check_signature_encoding sig (env_flags env) = Ok tt) sigs ->
  (ScriptFlags.contains (env_flags env) ScriptFlags.NULLDUMMY = true -> dummy = []) ->
  exists b : bool, checkmultisig env OP_CHECKMULTISIG (set_stack m s) =
      Ok (tt, set_stack m1 (base ++ [if b then [x01] else []])) /\
    (b = true <-> matching f (reverse sigs) (reverse keys)).
Proof.
  intros s m1 Hf Hv Hk Hs Hle Hops Hcode Henc Hd. exists (greedy f (reverse sigs) (reverse keys)).
  split; [|apply greedy_iff].
  etransitivity; [by apply (checkmultisig_eq env code f Hf m base dummy sigs nsig keys nkey)|].
  fold m1. rewrite <-(app_nil_r base) at 1.
  by destruct (greedy _ _ _); apply (push_on m1 base []); vm_compute.
Qed.

(** Two of three: the signatures of the first and the third key, in order. *)
Lemma checkmultisig_matching_witness :
  let m := mkMachine [] [] ConditionStack.new 0 0 legacy_exec in
  let s := [[]; [xaa]; [xcc]; [x02]; [xaa]; [xbb]; [xcc]; [x03]] in
  exists b : bool, @checkmultisig echo_checker (mkEnv [xae] ScriptFlags.NONE WitnessV0) OP_CHECKMULTISIG
      (set_stack m s) = Ok (tt, set_stack (set_op_count m 3) [if b then [x01] else []]) /\ b = true.
Proof.
  destruct (@checkmultisig_matching echo_checker (mkEnv [xae] ScriptFlags.NONE WitnessV0)
    [xae] (fun s k => bool_decide (s = k)) (mkMachine [] [] ConditionStack.new 0 0 legacy_exec)
    [] [] [[xaa]; [xcc]] [x02] [[xaa]; [xbb]; [xcc]] [x03]) as (b & Hb & Hiff).
  - reflexivity.
  - discriminate.
  - reflexivity.
  - reflexivity.
  - vm_compute. split; congruence.
  - vm_compute. congruence.
  - vm_compute. reflexivity.
  - repeat constructor.
  - reflexivity.
  - exists b. split; [exact Hb|]. apply Hiff. exists [[xcc]; [xaa]].
    split; [|repeat constructor]. change (reverse _) with [[xcc]; [xbb]; [xaa]].
    repeat constructor.
Defined.
