(* ===== verification/Sighash.v ===== *)
(** * Sighash: the digests a signature commits to ([consensus/src/script/sighash.rs])

    A hash engine is the list of bytes written to it so far; the digest is the hash of that
    list when the engine is finished.  [debug_assert_eq!] is not part of a release build. *)
From S2P Require Import Prelude Bitcoin Script Reader SigScript.

Definition SIGHASH_DEFAULT : Z := 0x00.
Definition SIGHASH_ALL : Z := 0x01.
Definition SIGHASH_NONE : Z := 0x02.
Definition SIGHASH_SINGLE : Z := 0x03.
Definition SIGHASH_ANYONECANPAY : Z := 0x80.
Definition LEGACY_OUTPUT_MASK : Z := 0x1f.
Definition TAPROOT_OUTPUT_MASK : Z := 0x03.
Definition TAPROOT_EPOCH : byte := x00.
Definition KEY_VERSION_0 : byte := x00.
Definition UINT256_ONE : bytes := x01 :: replicate 31 x00.
Definition ZERO_HASH : bytes := replicate 32 x00.

Record TxPrecomputed := mkPrecomputed {
  pre_txid : bytes;
  input_count : Z;
  output_count : Z;
  hash_prevouts : bytes;
  hash_sequence : bytes;
  hash_outputs : bytes;
  sha_prevouts : bytes;
  sha_amounts : bytes;
  sha_scriptpubkeys : bytes;
  sha_sequences : bytes;
  sha_outputs : bytes;
}.

Record EcdsaHashMode := mkMode { anyone_can_pay : bool; single : bool; none : bool }.

(** [EcdsaHashMode::from_hash_type]. *)
Definition from_hash_type {E} (hash_type : Z) : outcome E EcdsaHashMode :=
  let output_mode := Z.land hash_type LEGACY_OUTPUT_MASK in
  let mode := {|
    anyone_can_pay := negb (Z.land hash_type SIGHASH_ANYONECANPAY =? 0);
    single := output_mode =? SIGHASH_SINGLE;
    none := output_mode =? SIGHASH_NONE |} in
  assert_ (negb (single mode && none mode));;
  Ok mode.

(** [encode]: a serialized value written to an engine. *)
Definition encode {E} (engine value : bytes) : outcome E bytes :=
  assert_ (0 <? len value);;
  Ok (engine ++ value).

Definition count_to_u64 {E} (count : Z) : outcome E Z := expect (try_from u64_max count).

(** [for item in items { encode(&mut engine, item) }]. *)
Definition encode_each {E A} (enc : A -> bytes) (engine : bytes) (items : list A) : outcome E bytes :=
  foldM (fun engine item => encode engine (enc item)) engine items.

Section sighash.
Context `{Hashes} `{Encoding} `{BitcoinCrate} {E : Type}.

Definition sha256_once (b : bytes) : bytes := sha256 b.

Definition sha256_each {A} (enc : A -> bytes) (items : list A) : outcome E bytes :=
  sha256 <$> encode_each enc [] items.

Definition sha256d_each {A} (enc : A -> bytes) (items : list A) : outcome E bytes :=
  sha256_once <$> sha256_each enc items.

(** [TxPrecomputed::new]. *)
Definition new_precomputed (tx : Transaction) (prevouts : list TxOut) : outcome E TxPrecomputed :=
  assert_ (negb (len (tx_input tx) =? 0));;
  assert_ (len prevouts =? len (tx_input tx));;
  sha_prevouts ← sha256_each (fun i => enc_outpoint (previous_output i)) (tx_input tx);
  sha_sequences ← sha256_each (fun i => enc_sequence (sequence i)) (tx_input tx);
  sha_outputs ← sha256_each enc_txout (tx_output tx);
  sha_amounts ← sha256_each (fun o => enc_amount (txout_value o)) prevouts;
  sha_scriptpubkeys ← sha256_each (fun o => enc_script (script_pubkey o)) prevouts;
  Ok {|
    pre_txid := compute_txid tx;
    input_count := len (tx_input tx);
    output_count := len (tx_output tx);
    hash_prevouts := sha256_once sha_prevouts;
    hash_sequence := sha256_once sha_sequences;
    hash_outputs := sha256_once sha_outputs;
    sha_prevouts := sha_prevouts;
    sha_amounts := sha_amounts;
    sha_scriptpubkeys := sha_scriptpubkeys;
    sha_sequences := sha_sequences;
    sha_outputs := sha_outputs |}.

Definition assert_built_for (self : TxPrecomputed) (tx : Transaction) : outcome E unit :=
  assert_ (len (tx_input tx) =? input_count self);;
  assert_ (len (tx_output tx) =? output_count self).

(** ** Legacy *)

(** The first loop of [legacy_encode_script_code]: how many separators. *)
Fixpoint count_separators (fuel : nat) (b : bytes) (position count : Z) : outcome E Z :=
  match fuel with
  | O => Panic
  | S fuel =>
      if position <? len b then
        r ← read_op b position;
        match r with
        | ReadOp opcode next =>
            assert_ (position <? next);;
            count_separators fuel b next (if opcode =? OP_CODESEPARATOR then count + 1 else count)
        | Truncated _ => Ok count
        end
      else Ok count
  end.

(** The second: what is written before the last segment, where that segment starts, and
    where the cursor stopped. *)
Fixpoint write_segments (fuel : nat) (b engine : bytes) (segment_start position : Z)
    : outcome E (bytes * Z * Z) :=
  match fuel with
  | O => Panic
  | S fuel =>
      if position <? len b then
        r ← read_op b position;
        match r with
        | ReadOp opcode next =>
            assert_ (position <? next);;
            if opcode =? OP_CODESEPARATOR then
              segment ← expect (slice b segment_start (next - 1));
              write_segments fuel b (engine ++ segment) next next
            else write_segments fuel b engine segment_start next
        | Truncated next => Ok (engine, segment_start, next)
        end
      else Ok (engine, segment_start, position)
  end.

Definition legacy_encode_script_code (engine script_code : bytes) : outcome E bytes :=
  let b := script_code in
  separator_count ← count_separators (S (length b)) b 0 0;
  assert_ (separator_count <=? len b);;
  n ← count_to_u64 (len b - separator_count);
  engine ← encode engine (enc_varint n);
  '(engine, segment_start, position) ← write_segments (S (length b)) b engine 0 0;
  if negb (segment_start =? len b) then
    assert_ (segment_start <=? position);;
    segment ← expect (slice b segment_start position);
    Ok (engine ++ segment)
  else Ok engine.

Definition legacy_encode_input (engine : bytes) (tx : Transaction) (signed_index input_index : Z)
    (script_code : bytes) (mode : EcdsaHashMode) : outcome E bytes :=
  input ← expect (get (tx_input tx) input_index);
  engine ← encode engine (enc_outpoint (previous_output input));
  engine ←
    (if input_index =? signed_index then legacy_encode_script_code engine script_code
     else encode engine (enc_varint 0));
  if negb (input_index =? signed_index) && (single mode || none mode)
  then encode engine (enc_u32 0)
  else encode engine (enc_sequence (sequence input)).

Definition legacy_sighash (tx : Transaction) (index : Z) (script_code : bytes) (hash_type : Z)
    : outcome E bytes :=
  assert_ (index <? len (tx_input tx));;
  mode ← from_hash_type hash_type;
  if single mode && (len (tx_output tx) <=? index) then Ok UINT256_ONE
  else
    engine ← encode [] (enc_version (tx_version tx));
    engine ←
      (if anyone_can_pay mode then
         engine ← encode engine (enc_varint 1);
         legacy_encode_input engine tx index index script_code mode
       else
         n ← count_to_u64 (len (tx_input tx));
         engine ← encode engine (enc_varint n);
         foldM (fun engine '(input_index, _) =>
           legacy_encode_input engine tx index input_index script_code mode)
           engine (enumerate (tx_input tx)));
    let output_count :=
      if none mode then 0 else if single mode then index + 1 else len (tx_output tx) in
    assert_ (output_count <=? len (tx_output tx));;
    n ← count_to_u64 output_count;
    engine ← encode engine (enc_varint n);
    engine ← foldM (fun engine '(output_index, output) =>
        if single mode && negb (output_index =? index)
        then encode engine (enc_txout txout_null)
        else encode engine (enc_txout output))
      engine (enumerate (take (Z.to_nat output_count) (tx_output tx)));
    engine ← encode engine (enc_lock_time (tx_lock_time tx));
    engine ← encode engine (enc_u32 hash_type);
    Ok (sha256d engine).

(** ** Segwit v0 *)

Definition segwit_v0_sighash (tx : Transaction) (index : Z) (script_code : bytes) (amount hash_type : Z)
    (precomputed : TxPrecomputed) : outcome E bytes :=
  assert_ (index <? len (tx_input tx));;
  assert_built_for precomputed tx;;
  mode ← from_hash_type hash_type;
  let hash_prevouts := if anyone_can_pay mode then ZERO_HASH else hash_prevouts precomputed in
  let hash_sequence :=
    if anyone_can_pay mode || single mode || none mode then ZERO_HASH
    else hash_sequence precomputed in
  hash_outputs ←
    (if single mode then
       match get (tx_output tx) index with
       | Some output => sha256d_each enc_txout [output]
       | None => Ok ZERO_HASH
       end
     else if none mode then Ok ZERO_HASH
     else Ok (hash_outputs precomputed));
  input ← expect (get (tx_input tx) index);
  engine ← encode [] (enc_version (tx_version tx));
  let engine := engine ++ hash_prevouts ++ hash_sequence in
  engine ← encode engine (enc_outpoint (previous_output input));
  engine ← encode engine (enc_script script_code);
  engine ← encode engine (enc_amount amount);
  engine ← encode engine (enc_sequence (sequence input));
  let engine := engine ++ hash_outputs in
  engine ← encode engine (enc_lock_time (tx_lock_time tx));
  engine ← encode engine (enc_u32 hash_type);
  Ok (sha256d engine).

(** ** Taproot *)

Definition taproot_encode_input (engine : bytes) (tx : Transaction) (index : Z)
    (prevouts : list TxOut) (anyone_can_pay : bool) (spend : TaprootSpend) (annex : option bytes)
    : outcome E bytes :=
  let ext_flag := match spend with KeyPath => 0 | ScriptPath _ _ => 1 end in
  let spend_type := Z.lor (Z.shiftl ext_flag 1) (if annex then 1 else 0) in
  assert_ (spend_type <=? 3);;
  let engine := engine ++ [zb spend_type] in
  engine ←
    (if anyone_can_pay then
       input ← expect (get (tx_input tx) index);
       prevout ← expect (get prevouts index);
       engine ← encode engine (enc_outpoint (previous_output input));
       engine ← encode engine (enc_txout prevout);
       encode engine (enc_sequence (sequence input))
     else
       index ← expect (try_from u32_max index);
       encode engine (enc_u32 index));
  match annex with
  | None => Ok engine
  | Some annex =>
      n ← count_to_u64 (len annex);
      annex_engine ← encode [] (enc_varint n);
      Ok (engine ++ sha256 (annex_engine ++ annex))
  end.

End sighash.

Section taproot.
Context `{Hashes} `{Encoding}.

Definition taproot_sighash (tx : Transaction) (index : Z) (prevouts : list TxOut) (hash_type : Z)
    (spend : TaprootSpend) (annex : option bytes) (precomputed : TxPrecomputed)
    : outcome ScriptError bytes :=
  assert_ (index <? len (tx_input tx));;
  assert_ (len prevouts =? len (tx_input tx));;
  assert_built_for precomputed tx;;
  (match annex with
   | Some annex => assert_ (bool_decide (head annex = Some ANNEX_TAG))
   | None => Ok tt
   end);;
  let defined := (hash_type <=? SIGHASH_SINGLE) || ((0x81 <=? hash_type) && (hash_type <=? 0x83)) in
  if negb defined then Err ScriptError.SchnorrSigHashtype
  else
    let output_type :=
      if hash_type =? SIGHASH_DEFAULT then SIGHASH_ALL else Z.land hash_type TAPROOT_OUTPUT_MASK in
    let anyone_can_pay := negb (Z.land hash_type SIGHASH_ANYONECANPAY =? 0) in
    if (output_type =? SIGHASH_SINGLE) && (len (tx_output tx) <=? index)
    then Err ScriptError.SchnorrSigHashtype
    else
      let engine := [TAPROOT_EPOCH; zb hash_type] in
      engine ← encode engine (enc_version (tx_version tx));
      engine ← encode engine (enc_lock_time (tx_lock_time tx));
      let engine :=
        if negb anyone_can_pay then
          engine ++ sha_prevouts precomputed ++ sha_amounts precomputed ++
          sha_scriptpubkeys precomputed ++ sha_sequences precomputed
        else engine in
      let engine :=
        if output_type =? SIGHASH_ALL then engine ++ sha_outputs precomputed else engine in
      engine ← taproot_encode_input engine tx index prevouts anyone_can_pay spend annex;
      engine ←
        (if output_type =? SIGHASH_SINGLE then
           output ← expect (get (tx_output tx) index);
           h ← sha256_each enc_txout [output];
           Ok (engine ++ h)
         else Ok engine);
      engine ←
        (match spend with
         | ScriptPath leaf_hash codesep_pos =>
             encode (engine ++ leaf_hash ++ [KEY_VERSION_0]) (enc_u32 codesep_pos)
         | KeyPath => Ok engine
         end);
      Ok (tap_sighash engine).

End taproot.
