(* ===== verification/SighashProofs.v ===== *)
(** * SighashProofs: the digests as hashes of explicit preimages *)
From S2P Require Import Prelude Bitcoin Params Script Reader SigScript SigScriptProofs Sighash.

(** ** The legacy [scriptCode] *)

(** The [scriptCode] without its separators, and how many there were: whole opcodes are kept
    or dropped, and a truncated push keeps only what the reader got through. *)
Inductive strips : bytes -> bytes -> nat -> Prop :=
| strips_end : strips [] [] 0
| strips_separator l r n : strips l r n -> strips (xab :: l) r (S n)
| strips_op o op l r n : o <> OP_CODESEPARATOR ->
    read_op (E:=Empty_set) (op ++ l) 0 = Ok (ReadOp o (len op)) ->
    strips l r n -> strips (op ++ l) (op ++ r) n
| strips_truncated k l : read_op (E:=Empty_set) l 0 = Ok (Truncated k) -> strips l (take (Z.to_nat k) l) 0.

Lemma read_op_separator {E} l : read_op (E:=E) (xab :: l) 0 = Ok (ReadOp OP_CODESEPARATOR 1).
Proof.
  unfold read_op. rewrite (proj2 (Z.ltb_lt _ _)) by (rewrite len_cons; pose proof (len_nonneg l); lia).
  done.
Qed.

Lemma read_op_0 {E} l r : read_op (E:=Empty_set) l 0 = Ok r -> read_op (E:=E) l 0 = Ok r.
Proof.
  intros Hr. destruct (decide (0 < len l)) as [Hl|Hl].
  - destruct (read_op_shift (E:=Empty_set) (F:=E) [] l 0) as (r' & Hr' & Hs); [lia|].
    rewrite Hr in Hr'. injection Hr' as <-. cbn [app] in Hs. change (len [] + 0) with 0 in Hs.
    rewrite Hs. f_equal. destruct r; cbn; f_equal; lia.
  - unfold read_op in Hr. rewrite (proj2 (Z.ltb_ge _ _)) in Hr by lia. discriminate Hr.
Qed.

Lemma strips_total l : exists r n, strips l r n.
Proof.
  induction l as [l IH] using (induction_ltof1 _ (@length byte)). unfold ltof in IH.
  destruct l as [|b l]; [eexists _, _; constructor|].
  destruct (read_op_ok (E:=Empty_set) (b :: l) 0) as (o & Ho & Hspec).
  { rewrite len_cons. pose proof (len_nonneg l). lia. }
  destruct o as [o k|k]; [|eexists _, _; by eapply strips_truncated].
  destruct Hspec as (_ & Hk & Hb & _). destruct (decide (o = OP_CODESEPARATOR)) as [->|Hne].
  - cbn in Hb. injection Hb as Hb. assert (b = xab) as -> by (by apply bz_inj).
    destruct (IH l) as (r & n & Hs); [cbn; lia|]. eexists _, _. by constructor.
  - destruct (IH (drop (Z.to_nat k) (b :: l))) as (r & n & Hs); [rewrite length_drop; unfold len in Hk; lia|].
    exists (take (Z.to_nat k) (b :: l) ++ r), n. rewrite <-(take_drop (Z.to_nat k) (b :: l)) at 1.
    apply (strips_op o); [done| |done]. rewrite take_drop, Ho. do 2 f_equal.
    unfold len in *. rewrite length_take. lia.
Qed.

Lemma strips_count l r n : strips l r n -> Z.of_nat n <= len l.
Proof.
  induction 1 as [|l r n Hs IH|o op l r n Hne Ho Hs IH|k l Ho].
  - done.
  - rewrite len_cons. lia.
  - rewrite len_app. pose proof (len_nonneg op). lia.
  - apply len_nonneg.
Qed.

(** Reading at the end of a prefix is reading the rest. *)
Lemma read_op_at {E} pre l r : read_op (E:=Empty_set) l 0 = Ok r -> 0 < len l ->
  read_op (E:=E) (pre ++ l) (len pre) = Ok (shift_read (len pre) r).
Proof.
  intros Hr Hl. destruct (read_op_shift (E:=Empty_set) (F:=E) pre l 0) as (r' & Hr' & Hs); [lia|].
  rewrite Hr in Hr'. injection Hr' as <-. by rewrite Z.add_0_r in Hs.
Qed.

Lemma read_op_nonempty {E} l r : read_op (E:=E) l 0 = Ok r -> 0 < len l.
Proof. unfold read_op. destruct (Z.ltb_spec 0 (len l)); [done|]. discriminate. Qed.

Lemma count_separators_ok {E} l r n : strips l r n -> forall fuel pre count,
  (length l < fuel)%nat ->
  count_separators (E:=E) fuel (pre ++ l) (len pre) count = Ok (count + Z.of_nat n).
Proof.
  induction 1 as [|l r n Hs IH|o op l r n Hne Ho Hs IH|k l Ho]; intros fuel pre count Hf;
    (destruct fuel as [|fuel]; [lia|]); cbn [count_separators].
  - rewrite app_nil_r, Z.ltb_irrefl. f_equal. lia.
  - rewrite (proj2 (Z.ltb_lt _ _)) by (rewrite len_app, len_cons; pose proof (len_nonneg l); lia).
    rewrite (read_op_at pre _ _ (read_op_separator l)) by (rewrite len_cons; pose proof (len_nonneg l); lia).
    run. cbn [shift_read]. rewrite (proj2 (Z.ltb_lt _ _)) by lia. run. rewrite Z.eqb_refl.
    specialize (IH fuel (pre ++ [xab]) (count + 1)). rewrite <-app_assoc, len_app in IH. cbn [app] in IH.
    change (len [xab]) with 1 in IH. cbn [length] in Hf. rewrite IH by lia. f_equal. lia.
  - pose proof (read_op_nonempty _ _ Ho) as Hl.
    rewrite (proj2 (Z.ltb_lt _ _)) by (rewrite len_app; lia).
    rewrite (read_op_at pre _ _ Ho) by done. run. cbn [shift_read].
    destruct (read_op_ok (E:=Empty_set) (op ++ l) 0) as (o' & Ho' & Hk); [lia|].
    rewrite Ho in Ho'. injection Ho' as <-. destruct Hk as (_ & Hk & _).
    rewrite (proj2 (Z.ltb_lt _ _)) by lia. run. rewrite (proj2 (Z.eqb_neq _ _)) by done.
    specialize (IH fuel (pre ++ op) count). rewrite <-app_assoc, len_app in IH. apply IH.
    rewrite length_app in Hf. unfold len in Hk. lia.
  - pose proof (read_op_nonempty _ _ Ho) as Hl.
    rewrite (proj2 (Z.ltb_lt _ _)) by (rewrite len_app; lia).
    rewrite (read_op_at pre _ _ Ho) by done. run. cbn [shift_read]. f_equal. lia.
Qed.

(** The written segments and the last one, together, are the stripped script. *)
Lemma write_segments_ok {E} l r n : strips l r n -> forall fuel pre chunk engine,
  (length l < fuel)%nat ->
  exists engine' segment_start position segment,
    write_segments (E:=E) fuel (pre ++ chunk ++ l) engine (len pre) (len pre + len chunk) =
      Ok (engine', segment_start, position) /\
    slice (pre ++ chunk ++ l) segment_start position = Some segment /\
    engine' ++ segment = engine ++ chunk ++ r.
Proof.
  induction 1 as [|l r n Hs IH|o op l r n Hne Ho Hs IH|k l Ho]; intros fuel pre chunk engine Hf;
    (destruct fuel as [|fuel]; [lia|]); cbn [write_segments].
  - rewrite app_nil_r, (proj2 (Z.ltb_ge _ _)) by (rewrite len_app; lia).
    eexists _, _, _, chunk. split_and!; [done| |by rewrite ?app_nil_r].
    rewrite <-(app_nil_r chunk) at 1. by apply slice_middle.
  - assert (Hl : 0 < len (xab :: l)) by (rewrite len_cons; pose proof (len_nonneg l); lia).
    rewrite (proj2 (Z.ltb_lt _ _)) by (rewrite !len_app; lia).
    rewrite app_assoc, <-len_app. rewrite (read_op_at (pre ++ chunk) _ _ (read_op_separator l)) by done.
    run. cbn [shift_read]. rewrite (proj2 (Z.ltb_lt _ _)) by lia. run. rewrite Z.eqb_refl.
    rewrite <-app_assoc, slice_middle by (done || rewrite len_app; lia). run.
    specialize (IH fuel (pre ++ chunk ++ [xab]) [] (engine ++ chunk)).
    destruct IH as (e' & ss & pos & seg & Hw & Hseg & Heq); [cbn [length] in Hf; lia|].
    exists e', ss, pos, seg.
    replace ((pre ++ chunk ++ [xab]) ++ [] ++ l) with (pre ++ chunk ++ xab :: l) in * by (by rewrite <-!app_assoc).
    rewrite len_nil, Z.add_0_r in Hw. replace (len (pre ++ chunk) + 1) with (len (pre ++ chunk ++ [xab]))
      by (rewrite !len_app; change (len [xab]) with 1; lia).
    split_and!; [done|done|]. rewrite Heq. cbn [app]. by rewrite <-app_assoc.
  - pose proof (read_op_nonempty _ _ Ho) as Hl.
    rewrite (proj2 (Z.ltb_lt _ _)) by (rewrite !len_app in *; lia).
    rewrite app_assoc, <-len_app. rewrite (read_op_at (pre ++ chunk) _ _ Ho) by done.
    run. cbn [shift_read]. destruct (read_op_ok (E:=Empty_set) (op ++ l) 0) as (o' & Ho' & Hk); [lia|].
    rewrite Ho in Ho'. injection Ho' as <-. destruct Hk as (_ & Hk & _).
    rewrite (proj2 (Z.ltb_lt _ _)) by lia. run. rewrite (proj2 (Z.eqb_neq _ _)) by done.
    specialize (IH fuel pre (chunk ++ op) engine).
    destruct IH as (e' & ss & pos & seg & Hw & Hseg & Heq); [rewrite length_app in Hf; unfold len in Hk; lia|].
    exists e', ss, pos, seg. rewrite <-!app_assoc in *. rewrite len_app in Hw.
    rewrite len_app, <-Z.add_assoc. done.
  - pose proof (read_op_nonempty _ _ Ho) as Hl.
    rewrite (proj2 (Z.ltb_lt _ _)) by (rewrite !len_app in *; lia).
    rewrite app_assoc, <-len_app. rewrite (read_op_at (pre ++ chunk) _ _ Ho) by done.
    run. cbn [shift_read]. destruct (read_op_ok (E:=Empty_set) l 0) as (o' & Ho' & Hk); [lia|].
    rewrite Ho in Ho'. injection Ho' as <-. cbv beta iota in Hk.
    eexists _, _, _, (chunk ++ take (Z.to_nat k) l). split_and!; [done| |done].
    rewrite <-(take_drop (Z.to_nat k) l) at 1. rewrite <-app_assoc, (app_assoc chunk).
    apply slice_middle; [done|]. rewrite !len_app. unfold len in *. rewrite length_take. lia.
Qed.

Section digests.
Context `{Hashes} `{EL : EncodingLaws}.

Lemma encode_ok {E} engine v : v <> [] -> encode (E:=E) engine v = Ok (engine ++ v).
Proof.
  intros Hv. unfold encode. rewrite (proj2 (Z.ltb_lt _ _)); [done|].
  destruct v as [|b v]; [done|]. rewrite len_cons. pose proof (len_nonneg v). lia.
Qed.

Lemma foldM_append {E A} (f : bytes -> A -> outcome E bytes) (g : A -> bytes) engine xs :
  (forall e x, x ∈ xs -> f e x = Ok (e ++ g x)) ->
  foldM f engine xs = Ok (engine ++ concat (map g xs)).
Proof.
  revert engine; induction xs as [|x xs IH]; intros engine Hf; cbn [foldM map concat];
    [by rewrite app_nil_r|].
  rewrite Hf by set_solver. run. rewrite IH by set_solver. by rewrite app_assoc.
Qed.

Lemma count_to_u64_ok {E} n : 0 <= n <= u64_max -> count_to_u64 (E:=E) n = Ok n.
Proof. intros. unfold count_to_u64. by rewrite try_from_ok. Qed.

Lemma sha256_each_ok {E A} (enc : A -> bytes) items : (forall x, enc x <> []) ->
  sha256_each (E:=E) enc items = Ok (sha256 (concat (map enc items))).
Proof.
  intros He. unfold sha256_each, encode_each. rewrite (foldM_append _ enc); [done|].
  intros. by apply encode_ok.
Qed.

Lemma legacy_script_code_ok {E} engine code r n : strips code r n -> len code <= u64_max ->
  legacy_encode_script_code (E:=E) engine code =
    Ok (engine ++ enc_varint (len code - Z.of_nat n) ++ r).
Proof.
  intros Hs Hc. unfold legacy_encode_script_code. pose proof (strips_count _ _ _ Hs).
  pose proof (count_separators_ok (E:=E) code r n Hs (S (length code)) [] 0 ltac:(lia)) as Hcount.
  change (len []) with 0 in Hcount. cbn [app] in Hcount. rewrite Hcount. run.
  rewrite (proj2 (Z.leb_le _ _)) by lia. run. rewrite Z.add_0_l, count_to_u64_ok by lia. run.
  rewrite encode_ok by apply enc_varint_nonempty. run.
  set (e := engine ++ enc_varint (len code - Z.of_nat n)).
  destruct (write_segments_ok (E:=E) code r n Hs (S (length code)) [] [] e ltac:(lia))
    as (e' & ss & pos & seg & Hw & Hseg & Heq).
  change (len [] + len []) with 0 in Hw. change (len []) with 0 in Hw. cbn [app] in *.
  rewrite Hw. run. rewrite app_assoc. fold e. apply slice_Some in Hseg as Hb.
  destruct (Z.eqb_spec ss (len code)) as [->|]; cbn [negb].
  - assert (seg = []) as -> by (destruct Hb as (? & ? & ->); replace (pos - len code) with 0 by lia; done).
    by rewrite app_nil_r in Heq; rewrite Heq.
  - rewrite (proj2 (Z.leb_le _ _)) by lia. run. rewrite Hseg. run. by rewrite Heq.
Qed.

(** ** Preimages *)

Definition mode_of (hash_type : Z) : EcdsaHashMode := {|
  anyone_can_pay := negb (Z.land hash_type SIGHASH_ANYONECANPAY =? 0);
  single := Z.land hash_type LEGACY_OUTPUT_MASK =? SIGHASH_SINGLE;
  none := Z.land hash_type LEGACY_OUTPUT_MASK =? SIGHASH_NONE |}.

Lemma from_hash_type_ok {E} hash_type : from_hash_type (E:=E) hash_type = Ok (mode_of hash_type).
Proof.
  unfold from_hash_type. cbn [single none]. fold (mode_of hash_type).
  destruct (Z.eqb_spec (Z.land hash_type LEGACY_OUTPUT_MASK) SIGHASH_SINGLE) as [->|]; done.
Qed.

(** One input of the legacy preimage, [code] being the serialized [scriptCode]. *)
Definition input_bytes (code : bytes) (mode : EcdsaHashMode) (index i : Z) (input : TxIn) : bytes :=
  enc_outpoint (previous_output input) ++
  (if i =? index then code else enc_varint 0) ++
  (if negb (i =? index) && (single mode || none mode) then enc_u32 0
   else enc_sequence (sequence input)).

Definition legacy_outputs (mode : EcdsaHashMode) (index : Z) (outputs : list TxOut) : list TxOut :=
  if none mode then []
  else if single mode then
    map (fun '(i, o) => if i =? index then o else txout_null)
      (enumerate (take (Z.to_nat (index + 1)) outputs))
  else outputs.

Definition legacy_inputs (tx : Transaction) (index : Z) (code : bytes) (mode : EcdsaHashMode) : bytes :=
  if anyone_can_pay mode
  then enc_varint 1 ++ from_option (input_bytes code mode index index) [] (get (tx_input tx) index)
  else enc_varint (len (tx_input tx)) ++
       concat (map (fun '(i, input) => input_bytes code mode index i input)
         (enumerate (tx_input tx))).

Definition legacy_preimage (tx : Transaction) (index : Z) (code : bytes) (hash_type : Z) : bytes :=
  let mode := mode_of hash_type in
  let outputs := legacy_outputs mode index (tx_output tx) in
  enc_version (tx_version tx) ++
  legacy_inputs tx index code mode ++
  enc_varint (len outputs) ++ concat (map enc_txout outputs) ++
  enc_lock_time (tx_lock_time tx) ++ enc_u32 hash_type.

Lemma legacy_input_ok {E} engine tx index i input code r n mode :
  get (tx_input tx) i = Some input -> strips code r n -> len code <= u64_max ->
  legacy_encode_input (E:=E) engine tx index i code mode =
    Ok (engine ++ input_bytes (enc_varint (len code - Z.of_nat n) ++ r) mode index i input).
Proof.
  intros Hi Hs Hc. unfold legacy_encode_input, input_bytes. rewrite Hi. run.
  rewrite encode_ok by apply enc_outpoint_nonempty. run.
  destruct (i =? index); cbn [negb andb].
  - rewrite (legacy_script_code_ok _ _ r n) by done. run.
    rewrite encode_ok by apply enc_sequence_nonempty. by rewrite <-!app_assoc.
  - rewrite encode_ok by apply enc_varint_nonempty. run.
    destruct (single mode || none mode); rewrite encode_ok by
      (apply enc_u32_nonempty || apply enc_sequence_nonempty); by rewrite <-!app_assoc.
Qed.

Lemma enumerate_from_get {A} i (l : list A) j x : (j, x) ∈ enumerate_from i l -> i <= j /\ get l (j - i) = Some x.
Proof.
  revert i; induction l as [|y l IH]; intros i; cbn [enumerate_from]; [by intros ?%elem_of_nil|].
  intros [[= -> ->]|Hin]%elem_of_cons.
  - by rewrite Z.sub_diag.
  - apply IH in Hin as [Hle Hg]. split; [lia|]. replace (j - i) with (j - (i + 1) + 1) by lia.
    by rewrite get_S by lia.
Qed.

Lemma len_enumerate {A} (l : list A) : len (enumerate l) = len l.
Proof. unfold len, enumerate. by rewrite length_enumerate_from. Qed.

Lemma concat_enumerate {A} (f : A -> bytes) i l :
  concat (map (fun '(_, x) => f x) (enumerate_from i l)) = concat (map f l).
Proof. revert i; induction l as [|x l IH]; intros i; cbn; [done|]. by rewrite IH. Qed.

Lemma legacy_outputs_ok {E} mode index outputs engine : 0 <= index ->
  single mode && none mode = false -> (single mode = true -> index < len outputs) ->
  let n := if none mode then 0 else if single mode then index + 1 else len outputs in
  n <= len outputs /\ len (legacy_outputs mode index outputs) = n /\
  foldM (fun engine '(output_index, output) =>
      if single mode && negb (output_index =? index)
      then encode engine (enc_txout txout_null) else encode engine (enc_txout output))
    engine (enumerate (take (Z.to_nat n) outputs))
  = Ok (E:=E) (engine ++ concat (map enc_txout (legacy_outputs mode index outputs))).
Proof.
  intros Hi Hboth Hs. pose proof (len_nonneg outputs). unfold legacy_outputs.
  destruct (none mode) eqn:Hn; [split_and!; [lia|done|cbn; by rewrite app_nil_r]|].
  destruct (single mode) eqn:Hsg.
  - specialize (Hs eq_refl). split_and!; [lia| |].
    + unfold len in *. rewrite length_map. unfold enumerate. rewrite length_enumerate_from, length_take. lia.
    + rewrite (foldM_append _ (fun '(i, o) => enc_txout (if i =? index then o else txout_null))).
      * rewrite map_map. do 3 f_equal. apply map_ext. by intros [i o].
      * intros e [i o] _. cbn [andb]. destruct (i =? index); cbn [negb];
          by rewrite encode_ok by apply enc_txout_nonempty.
  - split_and!; [lia|done|].
    rewrite take_ge by (unfold len; lia).
    rewrite (foldM_append _ (fun '(_, o) => enc_txout o)); [unfold enumerate; by rewrite concat_enumerate|].
    intros e [i o] _. cbn [andb]. by rewrite encode_ok by apply enc_txout_nonempty.
Qed.

Lemma legacy_inputs_ok {E} tx index code r n mode e : 0 <= index < len (tx_input tx) ->
  len (tx_input tx) <= u64_max -> len code <= u64_max -> strips code r n ->
  (if anyone_can_pay mode then
     e ← encode e (enc_varint 1); legacy_encode_input e tx index index code mode
   else
     n ← count_to_u64 (len (tx_input tx)); e ← encode e (enc_varint n);
     foldM (fun e '(i, _) => legacy_encode_input e tx index i code mode) e (enumerate (tx_input tx)))
  = Ok (E:=E) (e ++ legacy_inputs tx index (enc_varint (len code - Z.of_nat n) ++ r) mode).
Proof.
  intros Hi Hin Hc Hs. unfold legacy_inputs. destruct (anyone_can_pay mode).
  - rewrite encode_ok by apply enc_varint_nonempty. run.
    destruct (get_in_range (tx_input tx) index ltac:(lia)) as [input Hinput].
    rewrite (legacy_input_ok _ _ _ _ input code r n) by done. rewrite Hinput. cbn.
    by rewrite <-app_assoc.
  - rewrite count_to_u64_ok by lia. run. rewrite encode_ok by apply enc_varint_nonempty. run.
    rewrite (foldM_append _ (fun '(i, input) =>
      input_bytes (enc_varint (len code - Z.of_nat n) ++ r) mode index i input)); [by rewrite <-app_assoc|].
    intros e' [i input] [_ Hg]%enumerate_from_get. rewrite Z.sub_0_r in Hg.
    by apply legacy_input_ok.
Qed.

Lemma legacy_sighash_eq {E} tx index code hash_type r n : 0 <= index < len (tx_input tx) ->
  len (tx_input tx) <= u64_max -> len (tx_output tx) <= u64_max -> len code <= u64_max ->
  strips code r n ->
  legacy_sighash (E:=E) tx index code hash_type =
    Ok (if single (mode_of hash_type) && (len (tx_output tx) <=? index) then UINT256_ONE
        else sha256d (legacy_preimage tx index (enc_varint (len code - Z.of_nat n) ++ r) hash_type)).
Proof.
  intros Hi Hin Hout Hc Hs. unfold legacy_sighash, legacy_preimage.
  rewrite (proj2 (Z.ltb_lt _ _)) by lia. run. rewrite from_hash_type_ok. run.
  set (mode := mode_of hash_type). destruct (single mode && _) eqn:Hbug; [done|].
  rewrite encode_ok by apply enc_version_nonempty. run.
  rewrite (legacy_inputs_ok tx index code r n mode) by done. run.
  set (e := (_ ++ _) ++ legacy_inputs _ _ _ _).
  destruct (legacy_outputs_ok (E:=E) mode index (tx_output tx)
    (e ++ enc_varint (len (legacy_outputs mode index (tx_output tx))))) as (Hle & Hlen & Hfold).
  { lia. }
  { unfold mode. cbn.
    by destruct (Z.eqb_spec (Z.land hash_type LEGACY_OUTPUT_MASK) SIGHASH_SINGLE) as [->|]. }
  { intros Hsg. rewrite Hsg in Hbug. cbn in Hbug. lia. }
  set (count := if none mode then 0 else _) in *. rewrite (proj2 (Z.leb_le _ _)) by done. run.
  pose proof (len_nonneg (legacy_outputs mode index (tx_output tx))).
  rewrite count_to_u64_ok by (rewrite <-Hlen; lia).
  run. rewrite encode_ok by apply enc_varint_nonempty. run. rewrite <-Hlen at 1.
  rewrite Hfold. run. rewrite encode_ok by apply enc_lock_time_nonempty. run.
  rewrite encode_ok by apply enc_u32_nonempty. run. unfold e. by rewrite <-!app_assoc.
Qed.

(** ** The precomputed hashes, and the two digests that use them *)

Definition precomputed_of `{BitcoinCrate} (tx : Transaction) (prevouts : list TxOut) : TxPrecomputed :=
  let sha {A} (enc : A -> bytes) (l : list A) := sha256 (concat (map enc l)) in
  let prev := sha (fun i => enc_outpoint (previous_output i)) (tx_input tx) in
  let seq := sha (fun i => enc_sequence (sequence i)) (tx_input tx) in
  let out := sha enc_txout (tx_output tx) in
  mkPrecomputed (compute_txid tx) (len (tx_input tx)) (len (tx_output tx))
    (sha256 prev) (sha256 seq) (sha256 out) prev
    (sha (fun o => enc_amount (txout_value o)) prevouts)
    (sha (fun o => enc_script (script_pubkey o)) prevouts) seq out.

Lemma new_precomputed_ok {E} `{BitcoinCrate} tx prevouts : tx_input tx <> [] ->
  len prevouts = len (tx_input tx) ->
  new_precomputed (E:=E) tx prevouts = Ok (precomputed_of tx prevouts).
Proof.
  intros Hne Hlen. unfold new_precomputed.
  rewrite (proj2 (Z.eqb_neq _ 0))
    by (destruct (tx_input tx) as [|i l]; [done|rewrite len_cons; pose proof (len_nonneg l); lia]).
  rewrite (proj2 (Z.eqb_eq _ _)) by done. run.
  do 5 (rewrite sha256_each_ok by (intros; apply enc_outpoint_nonempty || apply enc_sequence_nonempty ||
    apply enc_txout_nonempty || apply enc_amount_nonempty || apply enc_script_nonempty); run).
  done.
Qed.

Definition built_for (pre : TxPrecomputed) (tx : Transaction) : Prop :=
  input_count pre = len (tx_input tx) /\ output_count pre = len (tx_output tx).

Lemma assert_built_for_ok {E} pre tx : built_for pre tx -> assert_built_for (E:=E) pre tx = Ok tt.
Proof. intros [H1 H2]. unfold assert_built_for. by rewrite H1, H2, !Z.eqb_refl. Qed.

(** BIP143. *)
Definition segwit_preimage (tx : Transaction) (index : Z) (input : TxIn) (code : bytes)
    (amount hash_type : Z) (pre : TxPrecomputed) : bytes :=
  let mode := mode_of hash_type in
  enc_version (tx_version tx) ++
  (if anyone_can_pay mode then ZERO_HASH else hash_prevouts pre) ++
  (if anyone_can_pay mode || single mode || none mode then ZERO_HASH else hash_sequence pre) ++
  enc_outpoint (previous_output input) ++ enc_script code ++ enc_amount amount ++
  enc_sequence (sequence input) ++
  (if single mode then
     from_option (fun o => sha256 (sha256 (enc_txout o))) ZERO_HASH (get (tx_output tx) index)
   else if none mode then ZERO_HASH else hash_outputs pre) ++
  enc_lock_time (tx_lock_time tx) ++ enc_u32 hash_type.

Lemma segwit_v0_sighash_eq {E} tx index input code amount hash_type pre :
  built_for pre tx -> get (tx_input tx) index = Some input ->
  segwit_v0_sighash (E:=E) tx index code amount hash_type pre =
    Ok (sha256d (segwit_preimage tx index input code amount hash_type pre)).
Proof.
  intros Hpre Hi. unfold segwit_v0_sighash, segwit_preimage.
  rewrite (proj2 (Z.ltb_lt _ _)) by (apply get_Some_range in Hi; lia). run.
  rewrite assert_built_for_ok by done. run. rewrite from_hash_type_ok. run.
  set (mode := mode_of hash_type).
  set (ho := if single mode then from_option _ _ _ else _).
  match goal with |- (?x ≫= _) = _ => assert (Hho : x = Ok ho) end.
  { unfold ho. destruct (single mode); [|by destruct (none mode)].
    destruct (get (tx_output tx) index); [|done]. unfold sha256d_each.
    rewrite sha256_each_ok by apply enc_txout_nonempty. cbn. by rewrite app_nil_r. }
  rewrite Hho. run. rewrite Hi. run.
  rewrite encode_ok by apply enc_version_nonempty. run.
  rewrite encode_ok by apply enc_outpoint_nonempty. run.
  rewrite encode_ok by apply enc_script_nonempty. run.
  rewrite encode_ok by apply enc_amount_nonempty. run.
  rewrite encode_ok by apply enc_sequence_nonempty. run.
  rewrite encode_ok by apply enc_lock_time_nonempty. run.
  rewrite encode_ok by apply enc_u32_nonempty. run. by rewrite <-!app_assoc.
Qed.

(** BIP341, with the BIP342 extension. *)
Definition taproot_defined (hash_type : Z) : bool :=
  (hash_type <=? 3) || ((0x81 <=? hash_type) && (hash_type <=? 0x83)).
Definition taproot_output_type (hash_type : Z) : Z :=
  if hash_type =? 0 then SIGHASH_ALL else Z.land hash_type TAPROOT_OUTPUT_MASK.
Definition taproot_acp (hash_type : Z) : bool := negb (Z.land hash_type SIGHASH_ANYONECANPAY =? 0).

Definition taproot_preimage (tx : Transaction) (index : Z) (input : TxIn) (prevout : TxOut)
    (hash_type : Z) (spend : TaprootSpend) (annex : option bytes) (pre : TxPrecomputed) : bytes :=
  [x00; zb hash_type] ++ enc_version (tx_version tx) ++ enc_lock_time (tx_lock_time tx) ++
  (if taproot_acp hash_type then []
   else sha_prevouts pre ++ sha_amounts pre ++ sha_scriptpubkeys pre ++ sha_sequences pre) ++
  (if taproot_output_type hash_type =? SIGHASH_ALL then sha_outputs pre else []) ++
  [zb (2 * (match spend with KeyPath => 0 | ScriptPath _ _ => 1 end) + (if annex then 1 else 0))] ++
  (if taproot_acp hash_type
   then enc_outpoint (previous_output input) ++ enc_txout prevout ++ enc_sequence (sequence input)
   else enc_u32 index) ++
  from_option (fun a => sha256 (enc_varint (len a) ++ a)) [] annex ++
  (if taproot_output_type hash_type =? SIGHASH_SINGLE
   then from_option (fun o => sha256 (enc_txout o)) [] (get (tx_output tx) index) else []) ++
  match spend with
  | KeyPath => []
  | ScriptPath leaf_hash codesep_pos => leaf_hash ++ [x00] ++ enc_u32 codesep_pos
  end.

Lemma taproot_input_ok {E} engine tx index input prevouts prevout acp spend annex :
  get (tx_input tx) index = Some input -> get prevouts index = Some prevout -> annex_ok annex ->
  index <= u32_max ->
  taproot_encode_input (E:=E) engine tx index prevouts acp spend annex = Ok (engine ++
    [zb (2 * (match spend with KeyPath => 0 | ScriptPath _ _ => 1 end) + (if annex then 1 else 0))] ++
    (if acp then enc_outpoint (previous_output input) ++ enc_txout prevout ++ enc_sequence (sequence input)
     else enc_u32 index) ++
    from_option (fun a => sha256 (enc_varint (len a) ++ a)) [] annex).
Proof.
  intros Hi Hp Ha Hu. unfold taproot_encode_input. pose proof (get_Some_range _ _ _ Hi).
  assert (Hst : Z.lor (Z.shiftl match spend with KeyPath => 0 | ScriptPath _ _ => 1 end 1)
    (if annex then 1 else 0) =
    2 * (match spend with KeyPath => 0 | ScriptPath _ _ => 1 end) + (if annex then 1 else 0))
    by (by destruct spend, annex).
  rewrite Hst. rewrite (proj2 (Z.leb_le _ 3)) by (destruct spend, annex; lia). run.
  match goal with |- (?x ≫= _) = _ => assert (Hx : x = Ok ((engine ++ [zb (2 * (match spend with
    KeyPath => 0 | ScriptPath _ _ => 1 end) + (if annex then 1 else 0))]) ++
    (if acp then enc_outpoint (previous_output input) ++ enc_txout prevout ++ enc_sequence (sequence input)
     else enc_u32 index))) end.
  { destruct acp.
    - rewrite Hi, Hp. run. rewrite encode_ok by apply enc_outpoint_nonempty. run.
      rewrite encode_ok by apply enc_txout_nonempty. run.
      rewrite encode_ok by apply enc_sequence_nonempty. by rewrite <-!app_assoc.
    - rewrite try_from_ok by lia. run. by rewrite encode_ok by apply enc_u32_nonempty. }
  rewrite Hx. run. destruct annex as [a|]; cbn [from_option];
    [|by rewrite ?app_nil_r, <-!app_assoc].
  destruct (Ha a eq_refl) as [_ Hl]. pose proof (len_nonneg a).
  rewrite count_to_u64_ok by lia. run. rewrite encode_ok by apply enc_varint_nonempty. run.
  by rewrite <-!app_assoc.
Qed.

Lemma taproot_sighash_eq tx index input prevouts prevout hash_type spend annex pre :
  built_for pre tx -> len prevouts = len (tx_input tx) -> get (tx_input tx) index = Some input ->
  get prevouts index = Some prevout -> annex_ok annex -> index <= u32_max ->
  taproot_sighash tx index prevouts hash_type spend annex pre =
    if negb (taproot_defined hash_type) ||
       ((taproot_output_type hash_type =? SIGHASH_SINGLE) && (len (tx_output tx) <=? index))
    then Err ScriptError.SchnorrSigHashtype
    else Ok (tap_sighash (taproot_preimage tx index input prevout hash_type spend annex pre)).
Proof.
  intros Hpre Hlen Hi Hp Ha Hu. pose proof (get_Some_range _ _ _ Hi).
  unfold taproot_sighash, taproot_preimage.
  rewrite (proj2 (Z.ltb_lt index (len (tx_input tx)))) by lia. run.
  rewrite (proj2 (Z.eqb_eq (len prevouts) (len (tx_input tx)))) by done. run.
  rewrite assert_built_for_ok by done. run.
  assert (Hann : match annex with Some a => assert_ (bool_decide (head a = Some ANNEX_TAG))
    | None => Ok tt end = Ok (E:=ScriptError) tt).
  { destruct annex as [a|]; [|done]. destruct (Ha a eq_refl) as [-> _].
    by rewrite bool_decide_eq_true_2. }
  rewrite Hann. run. change SIGHASH_SINGLE with 3. change SIGHASH_DEFAULT with 0.
  fold (taproot_defined hash_type). fold (taproot_output_type hash_type). fold (taproot_acp hash_type).
  destruct (taproot_defined hash_type); cbn [negb orb]; [|done].
  destruct ((taproot_output_type hash_type =? 3) && (len (tx_output tx) <=? index)) eqn:Hsg; [done|].
  rewrite encode_ok by apply enc_version_nonempty. run.
  rewrite encode_ok by apply enc_lock_time_nonempty. run.
  rewrite (taproot_input_ok _ tx index input prevouts prevout) by done. run.
  match goal with |- ((if _ =? 3 then _ else Ok ?e) ≫= _) = _ => set (engine := e) end.
  set (so := if taproot_output_type hash_type =? 3 then _ else []).
  match goal with |- (?x ≫= _) = _ => assert (Hx : x = Ok (engine ++ so)) end.
  { unfold so. destruct (taproot_output_type hash_type =? 3); [|by rewrite app_nil_r].
    cbn [andb] in Hsg. destruct (get_in_range (tx_output tx) index ltac:(lia)) as [o Ho].
    rewrite Ho. run. rewrite sha256_each_ok by apply enc_txout_nonempty. run. cbn.
    by rewrite app_nil_r. }
  rewrite Hx. run. unfold engine, KEY_VERSION_0.
  destruct spend; [run|rewrite encode_ok by apply enc_u32_nonempty; run];
    destruct (taproot_acp hash_type), (taproot_output_type hash_type =? SIGHASH_ALL); cbn [negb];
    rewrite ?app_nil_r, <-!app_assoc; done.
Qed.
End digests.

(** A transaction whose counts are machine integers. *)
Definition counts_ok (tx : Transaction) : Prop :=
  len (tx_input tx) <= u64_max /\ len (tx_output tx) <= u64_max.

Section theorems.
Context `{Hashes} `{EL : EncodingLaws} `{BitcoinCrate}.

(** [legacy_sighash] is the original Bitcoin digest: the double SHA-256 of version,
    inputs (only the signed one under [ANYONECANPAY]; the others with an empty script, and
    with a zero sequence under [NONE] and [SINGLE]), outputs (none under [NONE], the first
    [index + 1] with all but the last nulled under [SINGLE]), lock time and hash type, the
    [scriptCode] written without its [OP_CODESEPARATOR]s; [SINGLE] past the outputs signs the
    number one. It never panics on a transaction that has the input. *)
Theorem legacy_sighash_preimage {E} tx index code hash_type :
  0 <= index < len (tx_input tx) -> counts_ok tx -> len code <= u64_max ->
  exists stripped n, strips code stripped n /\
    legacy_sighash (E:=E) tx index code hash_type =
      Ok (if single (mode_of hash_type) && (len (tx_output tx) <=? index) then UINT256_ONE
          else sha256d (legacy_preimage tx index
            (enc_varint (len code - Z.of_nat n) ++ stripped) hash_type)).
Proof.
  intros Hi [Hin Hout] Hc. destruct (strips_total code) as (r & n & Hs).
  exists r, n. split; [done|]. by apply legacy_sighash_eq.
Qed.

Lemma mode_of_single_none hash_type : single (mode_of hash_type) = true -> none (mode_of hash_type) = false.
Proof. cbn. destruct (Z.eqb_spec (Z.land hash_type LEGACY_OUTPUT_MASK) SIGHASH_SINGLE) as [->|]; done. Qed.

(** What a legacy signature does not commit to. Under [NONE] the digest is the same
    whatever the outputs; under [ANYONECANPAY] it is the same whatever the other inputs, as
    long as the signed one keeps its place. *)
Theorem legacy_sighash_uncommitted {E} tx tx' index code hash_type :
  0 <= index < len (tx_input tx) -> counts_ok tx -> counts_ok tx' -> len code <= u64_max ->
  tx_version tx' = tx_version tx -> tx_lock_time tx' = tx_lock_time tx ->
  (tx_input tx' = tx_input tx \/
   anyone_can_pay (mode_of hash_type) = true /\ get (tx_input tx') index = get (tx_input tx) index) ->
  (tx_output tx' = tx_output tx \/ none (mode_of hash_type) = true) ->
  legacy_sighash (E:=E) tx' index code hash_type = legacy_sighash (E:=E) tx index code hash_type.
Proof.
  intros Hi [Hin Hout] [Hin' Hout'] Hc Hv Hlt Hinputs Houtputs.
  destruct (strips_total code) as (r & n & Hs).
  assert (Hi' : 0 <= index < len (tx_input tx')).
  { destruct Hinputs as [->|[_ Hg]]; [done|].
    destruct (get_in_range (tx_input tx) index Hi) as [i Hgi]. rewrite Hgi in Hg.
    by apply get_Some_range in Hg. }
  rewrite !(legacy_sighash_eq _ _ _ _ r n) by done. unfold legacy_preimage. rewrite Hv, Hlt.
  assert (legacy_outputs (mode_of hash_type) index (tx_output tx') =
          legacy_outputs (mode_of hash_type) index (tx_output tx)) as ->.
  { unfold legacy_outputs. destruct Houtputs as [->| ->]; done. }
  assert (forall c, legacy_inputs tx' index c (mode_of hash_type) =
          legacy_inputs tx index c (mode_of hash_type)) as ->.
  { intros c. unfold legacy_inputs. destruct Hinputs as [->|[-> ->]]; done. }
  f_equal. destruct Houtputs as [->|Hnone]; [done|].
  destruct (single (mode_of hash_type)) eqn:Hsg; [|done].
  apply mode_of_single_none in Hsg. congruence.
Qed.

(** [segwit_v0_sighash], given the cached hashes of the same transaction, is BIP143: the
    double SHA-256 of version, hash of the outpoints, hash of the sequences, the outpoint,
    [scriptCode], amount and sequence of the signed input, hash of the outputs, lock time and
    hash type, each hash zeroed exactly when its hash type says so (a [SINGLE] past the
    outputs included). *)
Theorem segwit_v0_sighash_bip143 {E} tx prevouts index input code amount hash_type :
  len prevouts = len (tx_input tx) -> get (tx_input tx) index = Some input ->
  exists pre, new_precomputed (E:=E) tx prevouts = Ok pre /\
    hash_prevouts pre = sha256 (sha256 (concat (map (fun i => enc_outpoint (previous_output i)) (tx_input tx)))) /\
    hash_sequence pre = sha256 (sha256 (concat (map (fun i => enc_sequence (sequence i)) (tx_input tx)))) /\
    hash_outputs pre = sha256 (sha256 (concat (map enc_txout (tx_output tx)))) /\
    segwit_v0_sighash (E:=E) tx index code amount hash_type pre =
      Ok (sha256d (segwit_preimage tx index input code amount hash_type pre)).
Proof.
  intros Hlen Hi. exists (precomputed_of tx prevouts). split_and!; try done.
  - apply new_precomputed_ok; [|done]. intros Hnil. rewrite Hnil in Hi. by apply get_Some_range in Hi; change (len []) with 0 in Hi; lia.
  - by apply segwit_v0_sighash_eq.
Qed.

(** C31. [taproot_sighash], given the cached hashes of the same transaction, is BIP341 with
    the BIP342 extension: exactly the hash types 0 to 3 and 0x81 to 0x83 are accepted,
    [SINGLE] with no matching output is refused, and otherwise the digest is the tagged hash
    of the epoch, hash type, version, lock time, the shared hashes (not under
    [ANYONECANPAY]), the outputs hash, the spend type, the input, the annex hash, the one
    output of [SINGLE], and for a script path the leaf hash, key version and last separator. *)
Theorem taproot_sighash_bip341 tx prevouts index input prevout hash_type spend annex :
  len prevouts = len (tx_input tx) -> get (tx_input tx) index = Some input ->
  get prevouts index = Some prevout -> annex_ok annex -> index <= u32_max ->
  exists pre, new_precomputed (E:=ScriptError) tx prevouts = Ok pre /\
    sha_prevouts pre = sha256 (concat (map (fun i => enc_outpoint (previous_output i)) (tx_input tx))) /\
    sha_amounts pre = sha256 (concat (map (fun o => enc_amount (txout_value o)) prevouts)) /\
    sha_scriptpubkeys pre = sha256 (concat (map (fun o => enc_script (script_pubkey o)) prevouts)) /\
    sha_sequences pre = sha256 (concat (map (fun i => enc_sequence (sequence i)) (tx_input tx))) /\
    sha_outputs pre = sha256 (concat (map enc_txout (tx_output tx))) /\
    taproot_sighash tx index prevouts hash_type spend annex pre =
      if negb (taproot_defined hash_type) ||
         ((taproot_output_type hash_type =? SIGHASH_SINGLE) && (len (tx_output tx) <=? index))
      then Err ScriptError.SchnorrSigHashtype
      else Ok (tap_sighash (taproot_preimage tx index input prevout hash_type spend annex pre)).
Proof.
  intros Hlen Hi Hp Ha Hu. exists (precomputed_of tx prevouts). split_and!; try done.
  - apply new_precomputed_ok; [|done]. intros Hnil. rewrite Hnil in Hi. by apply get_Some_range in Hi; change (len []) with 0 in Hi; lia.
  - by apply taproot_sighash_eq.
Qed.
End theorems.

(** ** Concrete instances *)

(** Little-endian serializations, and "hashes" of the right length that keep the first bytes
    of the message. *)
Definition pad (n : nat) (m : bytes) : bytes := take n (m ++ repeat x00 n).

Definition prefix_hashes : Hashes := {|
  sha256 := pad 32; sha256d := pad 32; sha1 := pad 20; ripemd160 := pad 20; hash160 := pad 20 |}.

Definition simple_encoding : Encoding := {|
  enc_version := le_bytes 4;
  enc_lock_time := le_bytes 4;
  enc_sequence := le_bytes 4;
  enc_amount := le_bytes 8;
  enc_u32 := le_bytes 4;
  enc_varint n := [zb n];
  varint_size _ := 1;
  enc_outpoint o := op_txid o ++ le_bytes 4 (op_vout o);
  enc_txout o := le_bytes 8 (txout_value o) ++ zb (len (script_pubkey o)) :: script_pubkey o;
  enc_script s := zb (len s) :: s;
  txout_null := mkTxOut u64_max [];
  tap_sighash := pad 32; tap_leaf_hash := pad 32; tap_branch_hash := pad 32; tap_tweak_hash := pad 32 |}.

Lemma length_pad n m : length (pad n m) = n.
Proof. unfold pad. rewrite length_take, length_app, repeat_length. lia. Qed.

Lemma prefix_hash_lengths : @HashLengths prefix_hashes.
Proof. constructor; apply length_pad. Qed.

Lemma simple_encoding_laws : @EncodingLaws simple_encoding.
Proof.
  constructor; try (intros x; apply length_pad); try (cbn; lia); intros x Hx;
    apply (f_equal length) in Hx; cbn in Hx; rewrite ?length_app in Hx; cbn in Hx; lia.
Qed.

Definition sample_input (n : Z) : TxIn := mkTxIn (mkOutPoint [] n) [] n [].
Definition sample_tx : Transaction :=
  mkTransaction 2 9 [sample_input 4; sample_input 7] [mkTxOut 50 [x51]].

Lemma legacy_sighash_preimage_witness :
  exists stripped n, strips [x51; xab; x52] stripped n /\
    @legacy_sighash prefix_hashes simple_encoding Empty_set sample_tx 1 [x51; xab; x52] 0x82 =
      Ok (pad 32 (@legacy_preimage simple_encoding sample_tx 1 (zb (3 - Z.of_nat n) :: stripped) 0x82)).
Proof.
  apply (@legacy_sighash_preimage prefix_hashes simple_encoding simple_encoding_laws Empty_set
    sample_tx 1 [x51; xab; x52] 0x82).
  - split; vm_compute; congruence.
  - split; vm_compute; congruence.
  - vm_compute; congruence.
Defined.

Lemma legacy_sighash_uncommitted_witness :
  @legacy_sighash prefix_hashes simple_encoding Empty_set
    (mkTransaction 2 9 [sample_input 8; sample_input 7] [mkTxOut 1 [x00]; mkTxOut 2 []]) 1 [x51] 0x82 =
  @legacy_sighash prefix_hashes simple_encoding Empty_set sample_tx 1 [x51] 0x82.
Proof.
  apply (@legacy_sighash_uncommitted prefix_hashes simple_encoding simple_encoding_laws Empty_set
    sample_tx); try reflexivity; try (split; vm_compute; congruence).
  - vm_compute; congruence.
  - right. split; vm_compute; reflexivity.
  - right. vm_compute; reflexivity.
Defined.

Lemma segwit_v0_sighash_bip143_witness :
  exists pre,
    @segwit_v0_sighash prefix_hashes simple_encoding Empty_set sample_tx 1 [x51] 50 1 pre =
      Ok (pad 32 (@segwit_preimage prefix_hashes simple_encoding sample_tx 1 (sample_input 7) [x51] 50 1 pre)).
Proof.
  destruct (@segwit_v0_sighash_bip143 prefix_hashes simple_encoding simple_encoding_laws
    (constant_crate []) Empty_set sample_tx [mkTxOut 1 []; mkTxOut 50 []] 1 (sample_input 7) [x51] 50 1)
    as (pre & _ & _ & _ & _ & Hd).
  - reflexivity.
  - reflexivity.
  - exists pre. exact Hd.
Defined.

Lemma taproot_sighash_bip341_witness :
  exists pre,
    @taproot_sighash prefix_hashes simple_encoding sample_tx 0
      [mkTxOut 1 []; mkTxOut 50 []] 0x83 KeyPath (Some [x50]) pre =
    Ok (pad 32 (@taproot_preimage prefix_hashes simple_encoding sample_tx 0 (sample_input 4)
      (mkTxOut 1 []) 0x83 KeyPath (Some [x50]) pre)).
Proof.
  destruct (@taproot_sighash_bip341 prefix_hashes simple_encoding simple_encoding_laws
    (constant_crate []) sample_tx [mkTxOut 1 []; mkTxOut 50 []] 0 (sample_input 4) (mkTxOut 1 [])
    0x83 KeyPath (Some [x50])) as (pre & _ & _ & _ & _ & _ & _ & Hd).
  - reflexivity.
  - reflexivity.
  - reflexivity.
  - intros a [= <-]. split; [reflexivity|vm_compute; congruence].
  - vm_compute; congruence.
  - exists pre. exact Hd.
Defined.
