(* ===== verification/Checker.v ===== *)
(** * Checker: the transaction's answers to the interpreter ([consensus/src/script/checker.rs])

    [libsecp256k1], reached through the [secp256k1] crate, is a parameter: parsing returns an
    option and verification a verdict.  [checker_of] packs the four methods of a
    [TxSigChecker] as the interface the interpreter is proved against, and [checker_laws]
    shows that a checker built by [new] keeps that interface's promises. *)
From S2P Require Import Prelude Bitcoin Params Script SigScript SigScriptProofs Sighash SighashProofs.

Class Secp256k1 := {
  PublicKey : Type;
  EcdsaSignature : Type;
  SchnorrSignature : Type;
  XOnlyPublicKey : Type;
  Scalar : Type;
  PublicKey_from_slice : bytes -> option PublicKey;
  from_der_lax : bytes -> option EcdsaSignature;
  normalize_s : EcdsaSignature -> EcdsaSignature;
  verify_ecdsa : bytes -> EcdsaSignature -> PublicKey -> bool;
  XOnlyPublicKey_from_slice : bytes -> option XOnlyPublicKey;
  SchnorrSignature_from_slice : bytes -> option SchnorrSignature;
  verify_schnorr : SchnorrSignature -> bytes -> XOnlyPublicKey -> bool;
  Scalar_from_be_bytes : bytes -> option Scalar;
  tweak_add_check : XOnlyPublicKey -> XOnlyPublicKey -> bool -> Scalar -> bool;
}.

(** [schnorr::Signature::from_slice] only refuses a wrong length. *)
Class Secp256k1Laws `{Secp256k1} : Prop :=
  schnorr_from_slice_64 b : length b = 64%nat -> is_Some (SchnorrSignature_from_slice b).

Definition LOCKTIME_THRESHOLD : Z := 500000000.
Definition SEQUENCE_FINAL : Z := 0xffffffff.
Definition SEQUENCE_LOCKTIME_TYPE_FLAG : Z := Z.shiftl 1 22.
Definition SEQUENCE_LOCKTIME_MASK : Z := 0x0000ffff.
Definition SCHNORR_SIGNATURE_LEN : Z := 64.

Section verification.
Context `{Secp256k1}.

Definition ecdsa_verify (signature : bytes) (pubkey : PublicKey) (digest : bytes) : bool :=
  match from_der_lax signature with
  | None => false
  | Some signature => verify_ecdsa digest (normalize_s signature) pubkey
  end.

Definition schnorr_verify {E} (signature pubkey digest : bytes) : outcome E bool :=
  match XOnlyPublicKey_from_slice pubkey with
  | None => Ok false
  | Some pubkey =>
      signature ← expect (SchnorrSignature_from_slice signature);
      Ok (verify_schnorr signature digest pubkey)
  end.
End verification.

(** [slice::split_last]: the last byte and the ones before it. *)
Definition split_last {A} (l : list A) : option (A * list A) :=
  match last l with
  | None => None
  | Some x => Some (x, take (length l - 1) l)
  end.

Module TxSigChecker.

Record TxSigChecker := mkChecker {
  tx : Transaction;
  index : Z;
  prevouts : list TxOut;
  precomputed : TxPrecomputed;
}.

Definition new {E} (tx : Transaction) (index : Z) (prevouts : list TxOut) (precomputed : TxPrecomputed)
    : outcome E TxSigChecker :=
  assert_ (index <? len (tx_input tx));;
  assert_ (len prevouts =? len (tx_input tx));;
  assert_built_for precomputed tx;;
  Ok (mkChecker tx index prevouts precomputed).

Section methods.
Context `{Hashes} `{Encoding} `{Secp256k1}.

Definition check_ecdsa (self : TxSigChecker) (signature pubkey script_code : bytes)
    (sig_version : SigVersion) : outcome ScriptError bool :=
  match split_last signature with
  | None => Ok false
  | Some (hash_type, signature_body) =>
      match PublicKey_from_slice pubkey with
      | None => Ok false
      | Some pubkey =>
          digest ←
            (match sig_version with
             | Base => legacy_sighash (tx self) (index self) script_code (bz hash_type)
             | WitnessV0 =>
                 prevout ← expect (get (prevouts self) (index self));
                 segwit_v0_sighash (tx self) (index self) script_code (txout_value prevout)
                   (bz hash_type) (precomputed self)
             | Tapscript => Panic
             end);
          Ok (ecdsa_verify signature_body pubkey digest)
      end
  end.

Definition check_schnorr (self : TxSigChecker) (signature pubkey : bytes) (spend : TaprootSpend)
    (annex : option bytes) : outcome ScriptError unit :=
  hash_type ←
    (if len signature =? SCHNORR_SIGNATURE_LEN then Ok SIGHASH_DEFAULT
     else if len signature =? SCHNORR_SIGNATURE_LEN + 1 then
       match split_last signature with
       | None => Err ScriptError.SchnorrSigSize
       | Some (hash_type, _) =>
           if bz hash_type =? SIGHASH_DEFAULT then Err ScriptError.SchnorrSigHashtype
           else Ok (bz hash_type)
       end
     else Err ScriptError.SchnorrSigSize);
  match slice signature 0 SCHNORR_SIGNATURE_LEN with
  | None => Err ScriptError.SchnorrSigSize
  | Some signature_body =>
      digest ← taproot_sighash (tx self) (index self) (prevouts self) hash_type spend annex
        (precomputed self);
      ok ← schnorr_verify signature_body pubkey digest;
      if (ok : bool) then Ok tt else Err ScriptError.SchnorrSig
  end.

Definition check_locktime (self : TxSigChecker) (lock_time : Z) : outcome ScriptError bool :=
  assert_ (0 <=? lock_time);;
  assert_ (lock_time <=? SCRIPTNUM_LOCKTIME_MAX);;
  let tx_lock_time := tx_lock_time (tx self) in
  let same_kind := Bool.eqb (tx_lock_time <? LOCKTIME_THRESHOLD) (lock_time <? LOCKTIME_THRESHOLD) in
  if negb same_kind then Ok false
  else if tx_lock_time <? lock_time then Ok false
  else
    input ← expect (get (tx_input (tx self)) (index self));
    if sequence input =? SEQUENCE_FINAL then Ok false
    else Ok true.

Definition check_sequence (self : TxSigChecker) (sequence : Z) : outcome ScriptError bool :=
  assert_ (0 <=? sequence);;
  assert_ (sequence <=? SCRIPTNUM_LOCKTIME_MAX);;
  input ← expect (get (tx_input (tx self)) (index self));
  let tx_sequence := Bitcoin.sequence input in
  if cast_unsigned32 (tx_version (tx self)) <? 2 then Ok false
  else if negb (Z.land tx_sequence SEQUENCE_LOCKTIME_DISABLE_FLAG =? 0) then Ok false
  else
    let mask := Z.lor SEQUENCE_LOCKTIME_TYPE_FLAG SEQUENCE_LOCKTIME_MASK in
    let tx_sequence_masked := Z.land tx_sequence mask in
    let sequence_masked := Z.land sequence mask in
    let same_kind := Bool.eqb (tx_sequence_masked <? SEQUENCE_LOCKTIME_TYPE_FLAG)
      (sequence_masked <? SEQUENCE_LOCKTIME_TYPE_FLAG) in
    if negb same_kind then Ok false
    else if tx_sequence_masked <? sequence_masked then Ok false
    else Ok true.

(** The checker as the interpreter sees it. *)
Definition checker_of (self : TxSigChecker) : SigChecker := {|
  SigScript.check_ecdsa := check_ecdsa self;
  SigScript.check_schnorr := check_schnorr self;
  SigScript.check_locktime := check_locktime self;
  SigScript.check_sequence := check_sequence self |}.

End methods.
End TxSigChecker.

(** ** What a checker promises *)

Section promises.
Context `{Hashes} `{EL : EncodingLaws} `{SL : Secp256k1Laws}.
Import TxSigChecker.
Implicit Types c : TxSigChecker.

(** What [new] asserts, and that the lengths involved are machine integers. *)
Record checker_ok c : Prop := {
  ck_index : 0 <= index c < len (tx_input (tx c));
  ck_prevouts : len (prevouts c) = len (tx_input (tx c));
  ck_built : built_for (precomputed c) (tx c);
  ck_counts : counts_ok (tx c);
  ck_u32 : index c <= u32_max;
}.

Lemma new_Ok {E} tx index prevouts pre c : 0 <= index <= u32_max -> counts_ok tx ->
  new (E:=E) tx index prevouts pre = Ok c -> checker_ok c /\ c = mkChecker tx index prevouts pre.
Proof.
  intros Hi Hc Hn. unfold new, assert_built_for in Hn.
  destruct (Z.ltb_spec index (len (tx_input tx))); [|done]. run.
  destruct (Z.eqb_spec (len prevouts) (len (tx_input tx))); [|done].
  destruct (Z.eqb_spec (len (tx_input tx)) (input_count pre)); [|done].
  destruct (Z.eqb_spec (len (tx_output tx)) (output_count pre)); [|done].
  cbn in Hn. injection Hn as <-. split; [|done].
  constructor; cbn; done || lia || split; congruence.
Qed.

Lemma checker_input c : checker_ok c -> exists input prevout,
  get (tx_input (tx c)) (index c) = Some input /\ get (prevouts c) (index c) = Some prevout.
Proof.
  intros Hc. destruct (get_in_range (tx_input (tx c)) (index c) (ck_index c Hc)) as [i Hi].
  destruct (get_in_range (prevouts c) (index c)) as [p Hp]; [|eauto].
  pose proof (ck_index c Hc). rewrite (ck_prevouts c Hc). done.
Qed.

Lemma split_last_snoc {A} (l : list A) x : split_last (l ++ [x]) = Some (x, l).
Proof.
  unfold split_last. rewrite last_snoc, length_app. cbn [length].
  by rewrite take_app_length' by lia.
Qed.

(** The digest an ECDSA signature with this hash type signs. *)
Definition ecdsa_digest c (code : bytes) (v : SigVersion) (hash_type : byte) (digest : bytes) : Prop :=
  match v with
  | Base => legacy_sighash (E:=ScriptError) (tx c) (index c) code (bz hash_type) = Ok digest
  | WitnessV0 => exists prevout, get (prevouts c) (index c) = Some prevout /\
      segwit_v0_sighash (E:=ScriptError) (tx c) (index c) code (txout_value prevout) (bz hash_type)
        (precomputed c) = Ok digest
  | Tapscript => False
  end.

Lemma ecdsa_digest_total c code v hash_type : checker_ok c -> v <> Tapscript -> len code <= u64_max ->
  exists digest, ecdsa_digest c code v hash_type digest.
Proof.
  intros Hc Hv Hl. destruct (checker_input c Hc) as (i & p & Hi & Hp). destruct v; [| |done].
  - destruct (strips_total code) as (r & n & Hs). eexists. cbn. destruct (ck_counts c Hc).
    apply (legacy_sighash_eq _ _ _ _ r n); try done. apply ck_index, Hc.
  - eexists. exists p. split; [done|]. apply (segwit_v0_sighash_eq _ _ i); [apply ck_built, Hc|done].
Qed.

Lemma check_ecdsa_snoc c body hash_type pubkey code v digest : v <> Tapscript ->
  ecdsa_digest c code v hash_type digest ->
  check_ecdsa c (body ++ [hash_type]) pubkey code v =
    Ok (from_option (fun key => ecdsa_verify body key digest) false (PublicKey_from_slice pubkey)).
Proof.
  intros Hv Hd. unfold check_ecdsa. rewrite split_last_snoc.
  destruct (PublicKey_from_slice pubkey); [|done]. destruct v; [| |done].
  - cbn in Hd. rewrite Hd. done.
  - destruct Hd as (prevout & -> & Hd). run. rewrite Hd. done.
Qed.

(** The taproot digest is an error or a digest, never a panic. *)
Lemma taproot_digest_total c hash_type spend annex : checker_ok c -> annex_ok annex ->
  taproot_sighash (tx c) (index c) (prevouts c) hash_type spend annex (precomputed c) <> Panic.
Proof.
  intros Hc Ha. destruct (checker_input c Hc) as (i & p & Hi & Hp).
  rewrite (taproot_sighash_eq _ _ i _ p); [by case_match| | | | | |];
    try done; apply Hc.
Qed.

Lemma schnorr_verify_total {E} body pubkey digest : length body = 64%nat ->
  exists b, schnorr_verify (E:=E) body pubkey digest = Ok b.
Proof.
  intros Hl. unfold schnorr_verify. destruct (XOnlyPublicKey_from_slice pubkey); [|eauto].
  destruct (schnorr_from_slice_64 body Hl) as [s ->]. cbn. eauto.
Qed.

Lemma check_schnorr_no_panic c signature pubkey spend annex : checker_ok c -> annex_ok annex ->
  check_schnorr c signature pubkey spend annex <> Panic.
Proof.
  intros Hc Ha. unfold check_schnorr, SCHNORR_SIGNATURE_LEN.
  assert (Hrest : forall hash_type, 64 <= len signature ->
    match slice signature 0 64 with
    | None => Err ScriptError.SchnorrSigSize
    | Some body =>
        digest ← taproot_sighash (tx c) (index c) (prevouts c) hash_type spend annex (precomputed c);
        ok ← schnorr_verify body pubkey digest;
        if (ok : bool) then Ok tt else Err ScriptError.SchnorrSig
    end <> Panic).
  { intros hash_type Hl. rewrite slice_in_range by lia.
    pose proof (taproot_digest_total c hash_type spend annex Hc Ha).
    destruct (taproot_sighash _ _ _ _ _ _ _) as [d|e|]; [|done|done]. cbn [mbind outcome_bind].
    match goal with |- context [schnorr_verify ?b _ _] =>
      destruct (schnorr_verify_total (E:=ScriptError) b pubkey d) as [v ->] end.
    - unfold len in Hl. rewrite length_take, length_drop. lia.
    - by destruct v. }
  destruct (Z.eqb_spec (len signature) 64); [apply Hrest; lia|].
  destruct (Z.eqb_spec (len signature) (64 + 1)); [|done].
  destruct (split_last signature) as [[h ?]|]; [|done]. destruct (_ =? _); [done|]. apply Hrest; lia.
Qed.

(** The interface of the interpreter is discharged. *)
#[global] Instance checker_laws c : checker_ok c -> SigCheckerLaws (H:=checker_of c).
Proof.
  intros Hc. constructor; cbn.
  - intros signature pubkey code v Hv Hl. destruct signature as [|x s] using rev_ind; [by eexists|].
    destruct (ecdsa_digest_total c code v x Hc Hv Hl) as [d Hd].
    rewrite (check_ecdsa_snoc _ _ _ _ _ _ _ Hv Hd). eauto.
  - intros signature pubkey spend annex _ Ha. by apply check_schnorr_no_panic.
  - intros n Hn. unfold check_locktime. destruct (checker_input c Hc) as (i & _ & -> & _).
    rewrite !(proj2 (Z.leb_le _ _)) by lia. run. repeat case_match; eauto.
  - intros n Hn. unfold check_sequence. destruct (checker_input c Hc) as (i & _ & -> & _).
    rewrite !(proj2 (Z.leb_le _ _)) by lia. run. repeat case_match; eauto.
Qed.
End promises.

(** ** Properties *)

Section theorems.
Context `{Hashes} `{EL : EncodingLaws} `{SL : Secp256k1Laws}.
Import TxSigChecker.
Implicit Types c : TxSigChecker.

Lemma len_snoc {A} (l : list A) x : len (l ++ [x]) = len l + 1.
Proof. by rewrite len_app. Qed.

(** A 64-byte body and its hash type, as [check_schnorr] reads a signature. *)
Inductive schnorr_parts : bytes -> bytes -> Z -> Prop :=
| parts_default body : length body = 64%nat -> schnorr_parts body body SIGHASH_DEFAULT
| parts_explicit body h : length body = 64%nat -> bz h <> SIGHASH_DEFAULT ->
    schnorr_parts (body ++ [h]) body (bz h).

Lemma check_schnorr_parts c signature body hash_type pubkey spend annex :
  schnorr_parts signature body hash_type ->
  check_schnorr c signature pubkey spend annex =
    (digest ← taproot_sighash (tx c) (index c) (prevouts c) hash_type spend annex (precomputed c);
     ok ← schnorr_verify body pubkey digest;
     if (ok : bool) then Ok tt else Err ScriptError.SchnorrSig).
Proof.
  unfold check_schnorr, SCHNORR_SIGNATURE_LEN. destruct 1 as [body Hb|body h Hb Hh].
  - rewrite (proj2 (Z.eqb_eq _ _)) by (unfold len; lia). run.
    pose proof (slice_middle [] body [] 0 64 eq_refl) as Hsl. rewrite app_nil_r in Hsl. cbn [app] in Hsl.
    by rewrite Hsl by (unfold len; cbn; lia).
  - rewrite len_snoc, (proj2 (Z.eqb_neq _ 64)), (proj2 (Z.eqb_eq _ (64 + 1))) by (unfold len; lia).
    rewrite split_last_snoc, (proj2 (Z.eqb_neq _ _)) by done. run.
    pose proof (slice_middle [] body [h] 0 64 eq_refl) as Hsl. cbn [app] in Hsl.
    by rewrite Hsl by (unfold len; cbn; lia).
Qed.

Lemma schnorr_parts_dec signature :
  (exists body hash_type, schnorr_parts signature body hash_type) \/
  (exists body, length body = 64%nat /\ signature = body ++ [x00]) \/
  (len signature <> 64 /\ len signature <> 65).
Proof.
  destruct (decide (len signature = 64)) as [H64|H64].
  { left. eexists _, _. constructor. unfold len in H64. lia. }
  destruct (decide (len signature = 65)) as [H65|H65]; [|auto].
  destruct signature as [|h body _] using rev_ind; [done|]. rewrite len_snoc in H65.
  assert (length body = 64%nat) by (unfold len in H65; lia).
  destruct (decide (bz h = 0)) as [Hz|Hz].
  - right. left. exists body. split; [done|]. f_equal. f_equal. by apply bz_inj.
  - left. eexists _, _. by constructor.
Qed.

(** [check_ecdsa] says yes exactly when the signature is a body followed by one hash-type
    byte, the key parses, the body parses as lax DER, and the S-normalised signature verifies
    against the digest of that hash type (legacy or BIP143); in every other case it says no,
    without an error or a panic. *)
Theorem check_ecdsa_iff c signature pubkey code v : checker_ok c -> v <> Tapscript ->
  len code <= u64_max ->
  exists b : bool, check_ecdsa c signature pubkey code v = Ok b /\
    (b = true <-> exists body hash_type key s digest,
      signature = body ++ [hash_type] /\ PublicKey_from_slice pubkey = Some key /\
      from_der_lax body = Some s /\ ecdsa_digest c code v hash_type digest /\
      verify_ecdsa digest (normalize_s s) key = true).
Proof.
  intros Hc Hv Hl. destruct signature as [|x body] using rev_ind.
  { exists false. split; [done|]. split; [done|]. intros (b & h & _ & _ & _ & Heq & _). by destruct b. }
  destruct (ecdsa_digest_total c code v x Hc Hv Hl) as [d Hd].
  eexists. split; [by apply (check_ecdsa_snoc c body x pubkey code v d)|]. unfold ecdsa_verify.
  split.
  - intros Hb. destruct (PublicKey_from_slice pubkey) as [key|] eqn:Hk; [|done].
    cbn in Hb. destruct (from_der_lax body) as [s|] eqn:Hs; [|done]. by eexists body, x, key, s, d.
  - intros (b & h & key & s & d' & [-> [= ->]]%app_inj_2 & -> & Hs & Hd' & Hver); [|done].
    cbn. rewrite Hs. replace d with d'; [done|].
    destruct v; [| |done].
    + cbn in *. congruence.
    + destruct Hd as (p & Hp & Hd), Hd' as (p' & Hp' & Hd'). congruence.
Qed.

(** [check_schnorr] follows BIP341: any length but 64 and 65 is a size error; 65 bytes
    ending in zero is a hash-type error; otherwise the result is that of the taproot digest of
    the hash type, then success if the 64-byte body verifies for an x-only key on the curve,
    and [SchnorrSig] if not. *)
Theorem check_schnorr_iff c signature pubkey spend annex : checker_ok c -> annex_ok annex ->
  (len signature <> 64 /\ len signature <> 65 /\
    check_schnorr c signature pubkey spend annex = Err ScriptError.SchnorrSigSize) \/
  (exists body, length body = 64%nat /\ signature = body ++ [x00] /\
    check_schnorr c signature pubkey spend annex = Err ScriptError.SchnorrSigHashtype) \/
  (exists body hash_type, schnorr_parts signature body hash_type /\
    match taproot_sighash (tx c) (index c) (prevouts c) hash_type spend annex (precomputed c) with
    | Panic => False
    | Err e => check_schnorr c signature pubkey spend annex = Err e
    | Ok digest => exists s, SchnorrSignature_from_slice body = Some s /\
        check_schnorr c signature pubkey spend annex =
          if from_option (verify_schnorr s digest) false (XOnlyPublicKey_from_slice pubkey)
          then Ok tt else Err ScriptError.SchnorrSig
    end).
Proof.
  intros Hc Ha. destruct (schnorr_parts_dec signature) as [(body & h & Hp)|[(body & Hb & ->)|[H64 H65]]].
  - right. right. exists body, h. split; [done|]. rewrite (check_schnorr_parts _ _ _ _ _ _ _ Hp).
    assert (Hb : length body = 64%nat) by (by destruct Hp).
    pose proof (taproot_digest_total c h spend annex Hc Ha).
    destruct (taproot_sighash _ _ _ _ _ _ _) as [d|e|]; [|done|done].
    destruct (schnorr_from_slice_64 body Hb) as [s Hs]. exists s. split; [done|].
    run. unfold schnorr_verify. rewrite Hs. by destruct (XOnlyPublicKey_from_slice pubkey).
  - right. left. exists body. split; [done|]. split; [done|].
    unfold check_schnorr, SCHNORR_SIGNATURE_LEN.
    rewrite len_snoc, (proj2 (Z.eqb_neq _ 64)), (proj2 (Z.eqb_eq _ (64 + 1))) by (unfold len; lia).
    by rewrite split_last_snoc.
  - left. split; [done|]. split; [done|]. unfold check_schnorr, SCHNORR_SIGNATURE_LEN.
    by rewrite (proj2 (Z.eqb_neq _ 64)), (proj2 (Z.eqb_neq _ (64 + 1))) by lia.
Qed.

Lemma sequence_masked x :
  Z.land x (Z.lor SEQUENCE_LOCKTIME_TYPE_FLAG SEQUENCE_LOCKTIME_MASK) =
    (if Z.testbit x 22 then 2 ^ 22 else 0) + x mod 2 ^ 16.
Proof.
  change SEQUENCE_LOCKTIME_TYPE_FLAG with (2 ^ 22). change SEQUENCE_LOCKTIME_MASK with (Z.ones 16).
  rewrite Z.land_lor_distr_r, (Z.land_ones x 16) by lia.
  assert (Z.land x (2 ^ 22) = if Z.testbit x 22 then 2 ^ 22 else 0) as ->.
  { apply Z.bits_inj'. intros n Hn. rewrite Z.land_spec, Z.pow2_bits_eqb by lia.
    destruct (Z.eqb_spec 22 n) as [<-|Hne].
    - rewrite andb_true_r. by destruct (Z.testbit x 22).
    - rewrite andb_false_r. destruct (Z.testbit x 22); [|by rewrite Z.bits_0].
      by rewrite Z.pow2_bits_false. }
  apply (lor_disjoint_add _ _ 16); [lia|by destruct (Z.testbit x 22)|]. apply Z.mod_pos_bound. lia.
Qed.

(** The two lock-time questions are BIP65 and BIP112. [check_locktime n] holds exactly
    when the transaction's lock time is of the same kind as [n] (height or time) and at
    least [n], and the input is not final. [check_sequence n] holds exactly when the version,
    read unsigned, is at least 2, the input's sequence has bit 31 clear and the same bit 22 as
    [n], and its low sixteen bits are at least those of [n]. *)
Theorem locktime_checks_bip65_bip112 c input n : checker_ok c ->
  get (tx_input (tx c)) (index c) = Some input -> 0 <= n <= SCRIPTNUM_LOCKTIME_MAX ->
  let lock_time := tx_lock_time (tx c) in
  let seq := sequence input in
  (exists b : bool, check_locktime c n = Ok b /\
    (b = true <-> (lock_time < LOCKTIME_THRESHOLD <-> n < LOCKTIME_THRESHOLD) /\
      n <= lock_time /\ seq <> SEQUENCE_FINAL)) /\
  (exists b : bool, check_sequence c n = Ok b /\
    (b = true <-> 2 <= tx_version (tx c) mod 2 ^ 32 /\ Z.testbit seq 31 = false /\
      Z.testbit seq 22 = Z.testbit n 22 /\ n mod 2 ^ 16 <= seq mod 2 ^ 16)).
Proof.
  intros Hc Hi Hn. cbv zeta. split.
  - unfold check_locktime. rewrite Hi, !(proj2 (Z.leb_le _ _)) by lia. run.
    destruct (Z.ltb_spec (tx_lock_time (tx c)) LOCKTIME_THRESHOLD),
      (Z.ltb_spec n LOCKTIME_THRESHOLD); cbn [Bool.eqb negb]; try (eexists; split; [done|]; lia).
    all: destruct (Z.ltb_spec (tx_lock_time (tx c)) n); [eexists; split; [done|]; lia|].
    all: destruct (Z.eqb_spec (sequence input) SEQUENCE_FINAL); eexists; (split; [done|]); lia.
  - unfold check_sequence. rewrite Hi, !(proj2 (Z.leb_le _ _)) by lia. run. unfold cast_unsigned32.
    destruct (Z.ltb_spec (tx_version (tx c) mod 2 ^ 32) 2); [eexists; split; [done|]; lia|].
    change SEQUENCE_LOCKTIME_DISABLE_FLAG with (2 ^ 31). rewrite land_pow2_testbit, negb_involutive by lia.
    destruct (Z.testbit (sequence input) 31); [eexists; split; [done|]; split; [done|by intros (_ & ? & _)]|].
    rewrite !sequence_masked. change SEQUENCE_LOCKTIME_TYPE_FLAG with (2 ^ 22).
    pose proof (Z.mod_pos_bound n (2 ^ 16) eq_refl). pose proof (Z.mod_pos_bound (sequence input) (2 ^ 16) eq_refl).
    destruct (Z.testbit (sequence input) 22), (Z.testbit n 22);
      repeat match goal with |- context [?a <? ?b] => destruct (Z.ltb_spec a b) end; try lia; cbn [Bool.eqb negb];
      eexists; (split; [done|]); split; intros Hx; split_and?; try done; try lia.
Qed.
End theorems.

(** ** Concrete instances *)

(** A stand-in for the curve: a signature is its key (ECDSA) or its key and digest
    (Schnorr), and an output key is its tweak. *)
Definition toy_secp : Secp256k1 := {|
  PublicKey_from_slice b := if decide (length b = 33%nat) then Some b else None;
  from_der_lax b := Some b;
  normalize_s s := s;
  verify_ecdsa _ s k := bool_decide (s = k);
  XOnlyPublicKey_from_slice b := if decide (length b = 32%nat) then Some b else None;
  SchnorrSignature_from_slice b := if decide (length b = 64%nat) then Some b else None;
  verify_schnorr s d k := bool_decide (s = k ++ d);
  Scalar_from_be_bytes b := Some b;
  tweak_add_check _ q _ t := bool_decide (q = t) |}.

Lemma toy_secp_laws : @Secp256k1Laws toy_secp.
Proof. intros b Hb. cbn. rewrite decide_True by done. eauto. Qed.

Definition sample_prevouts : list TxOut := [mkTxOut 1 []; mkTxOut 50 []].

Definition sample_checker : TxSigChecker.TxSigChecker :=
  TxSigChecker.mkChecker sample_tx 0 sample_prevouts
    (@precomputed_of prefix_hashes simple_encoding (constant_crate []) sample_tx sample_prevouts).

Lemma sample_checker_ok : checker_ok sample_checker.
Proof. constructor; vm_compute; try split; congruence. Qed.

Lemma check_ecdsa_iff_witness :
  @TxSigChecker.check_ecdsa prefix_hashes simple_encoding toy_secp sample_checker
    (replicate 33 x02 ++ [x01]) (replicate 33 x02) [x51] Base = Ok true.
Proof.
  destruct (@check_ecdsa_iff prefix_hashes simple_encoding simple_encoding_laws toy_secp
    sample_checker (replicate 33 x02 ++ [x01]) (replicate 33 x02) [x51] Base) as (b & Hb & Hiff).
  - exact sample_checker_ok.
  - discriminate.
  - vm_compute; congruence.
  - vm_compute in Hb. injection Hb as <-. vm_compute. reflexivity.
Defined.

Lemma check_schnorr_iff_witness :
  exists body hash_type, schnorr_parts (replicate 64 x05) body hash_type /\
    @TxSigChecker.check_schnorr prefix_hashes simple_encoding toy_secp sample_checker
      (replicate 64 x05) (replicate 32 x05) KeyPath None = Err ScriptError.SchnorrSig.
Proof.
  destruct (@check_schnorr_iff prefix_hashes simple_encoding simple_encoding_laws toy_secp
    toy_secp_laws sample_checker (replicate 64 x05) (replicate 32 x05) KeyPath None)
    as [(Hl & _)|[(body & Hb & Heq & _)|(body & h & Hp & _)]].
  - exact sample_checker_ok.
  - intros a Ha. discriminate Ha.
  - exfalso. apply Hl. reflexivity.
  - exfalso. apply (f_equal length) in Heq. rewrite length_app, Hb in Heq. discriminate Heq.
  - exists body, h. split; [exact Hp|]. vm_compute. reflexivity.
Defined.

Lemma locktime_checks_bip65_bip112_witness :
  TxSigChecker.check_locktime sample_checker 9 = Ok true /\
  TxSigChecker.check_sequence sample_checker 4 = Ok true.
Proof.
  destruct (locktime_checks_bip65_bip112 sample_checker (sample_input 4) 9) as ((b & Hb & Hiff) & _).
  - exact sample_checker_ok.
  - reflexivity.
  - vm_compute. split; congruence.
  - vm_compute in Hb. injection Hb as <-. split; vm_compute; reflexivity.
Defined.
