(* ===== verification/Verify.v ===== *)
(** * Verify: one input's scripts and witness ([consensus/src/script/verify.rs] and
      [consensus/src/script/taproot.rs])

    Written against the [SigChecker] interface; [verify_input] plugs in the transaction's
    checker. *)
From S2P Require Import Prelude Bitcoin Flags Script ScriptNum Reader Stack SigScript Interpreter Sighash Checker.

(** ** [taproot.rs] *)

Definition TAPROOT_CONTROL_BASE_SIZE : Z := 33.
Definition TAPROOT_CONTROL_NODE_SIZE : Z := 32.
Definition TAPROOT_CONTROL_MAX_NODE_COUNT : Z := 128.
Definition TAPROOT_CONTROL_MAX_SIZE : Z :=
  TAPROOT_CONTROL_BASE_SIZE + TAPROOT_CONTROL_NODE_SIZE * TAPROOT_CONTROL_MAX_NODE_COUNT.
Definition TAPROOT_LEAF_MASK : Z := 0xfe.
Definition TAPROOT_LEAF_TAPSCRIPT : Z := 0xc0.
Definition VALIDATION_WEIGHT_OFFSET : Z := 50.

(** [[u8; 32]]'s order. *)
Fixpoint bytes_lt (a b : bytes) : bool :=
  match a, b with
  | [], [] => false
  | [], _ :: _ => true
  | _ :: _, [] => false
  | x :: a, y :: b => if bz x =? bz y then bytes_lt a b else bz x <? bz y
  end.

(** [slice::as_chunks]: the whole chunks, and the remainder. *)
Fixpoint as_chunks (fuel n : nat) (l : bytes) : list bytes * bytes :=
  match fuel with
  | O => ([], l)
  | S fuel =>
      if (length l <? n)%nat then ([], l)
      else let '(chunks, rest) := as_chunks fuel n (drop n l) in (take n l :: chunks, rest)
  end.

Module ControlBlock.
Record ControlBlock := mkControl {
  leaf_version : Z;
  output_parity_odd : bool;
  internal_key : bytes;
  path : bytes;
}.

Definition parse (b : bytes) : outcome ScriptError ControlBlock :=
  if len b <? TAPROOT_CONTROL_BASE_SIZE then Err ScriptError.TaprootWrongControlSize
  else if TAPROOT_CONTROL_MAX_SIZE <? len b then Err ScriptError.TaprootWrongControlSize
  else if negb ((len b - TAPROOT_CONTROL_BASE_SIZE) mod TAPROOT_CONTROL_NODE_SIZE =? 0)
  then Err ScriptError.TaprootWrongControlSize
  else
    match b with
    | [] => Panic
    | first :: rest =>
        internal_key ← expect (slice rest 0 32);
        path ← expect (slice_from rest 32);
        assert_ (len path mod TAPROOT_CONTROL_NODE_SIZE =? 0);;
        Ok {| leaf_version := Z.land (bz first) TAPROOT_LEAF_MASK;
              output_parity_odd := Z.land (bz first) 1 =? 1;
              internal_key := internal_key;
              path := path |}
    end.

Definition path_len {E} (self : ControlBlock) : outcome E Z :=
  assert_ (len (path self) mod TAPROOT_CONTROL_NODE_SIZE =? 0);;
  Ok (len (path self) / TAPROOT_CONTROL_NODE_SIZE).
End ControlBlock.

Section commitment.
Context `{Encoding} `{Secp256k1} {E : Type}.
Import ControlBlock.

Definition tapleaf_hash (leaf_version : Z) (script : bytes) : outcome E bytes :=
  assert_ (Z.land leaf_version 1 =? 0);;
  n ← count_to_u64 (len script);
  engine ← encode [zb leaf_version] (enc_varint n);
  Ok (tap_leaf_hash (engine ++ script)).

(** One step of the climb: the pair is hashed in lexicographic order. *)
Definition tap_branch (node sibling : bytes) : bytes :=
  if bytes_lt node sibling then tap_branch_hash (node ++ sibling)
  else tap_branch_hash (sibling ++ node).

Definition taproot_merkle_root (control : ControlBlock) (leaf_hash : bytes) : outcome E bytes :=
  n ← path_len control;
  assert_ (n <=? TAPROOT_CONTROL_MAX_NODE_COUNT);;
  let '(siblings, remainder) := as_chunks (length (path control)) 32 (path control) in
  assert_ (len remainder =? 0);;
  Ok (fold_left tap_branch siblings leaf_hash).

Definition tap_tweak (internal_key merkle_root : bytes) : bytes :=
  tap_tweak_hash (internal_key ++ merkle_root).

Definition verify_taproot_commitment (control : ControlBlock) (output_key leaf_hash : bytes)
    : outcome E bool :=
  match XOnlyPublicKey_from_slice (ControlBlock.internal_key control) with
  | None => Ok false
  | Some internal_key =>
      match XOnlyPublicKey_from_slice output_key with
      | None => Ok false
      | Some output_key =>
          merkle_root ← taproot_merkle_root control leaf_hash;
          match Scalar_from_be_bytes (tap_tweak (ControlBlock.internal_key control) merkle_root) with
          | None => Ok false
          | Some tweak =>
              Ok (tweak_add_check internal_key output_key (output_parity_odd control) tweak)
          end
      end
  end.

Definition witness_serialized_size (witness : list bytes) : outcome E Z :=
  n ← count_to_u64 (len witness);
  size ← foldM (fun size item =>
      k ← count_to_u64 (len item);
      size ← u64 (size + varint_size k);
      u64 (size + len item)) (varint_size n) witness;
  assert_ (1 <=? size);;
  Ok size.

Definition validation_weight (witness : list bytes) : outcome E Z :=
  size ← witness_serialized_size witness;
  size ← expect (try_from (2 ^ 63 - 1) size);
  assert_ (1 <=? size);;
  i64 (VALIDATION_WEIGHT_OFFSET + size).
End commitment.

(** ** [verify.rs] *)

Definition WITNESS_V0_KEYHASH_SIZE : Z := 20.
Definition WITNESS_V0_SCRIPTHASH_SIZE : Z := 32.
Definition WITNESS_V1_TAPROOT_SIZE : Z := 32.
Definition WITNESS_PROGRAM_SCRIPT_LEN_MIN : Z := 4.
Definition WITNESS_PROGRAM_SCRIPT_LEN_MAX : Z := 42.

Definition p2wpkh_script {E} (program : bytes) : outcome E bytes :=
  assert_ (len program =? WITNESS_V0_KEYHASH_SIZE);;
  let script := [zb OP_DUP; zb OP_HASH160; x14] ++ program ++ [zb OP_EQUALVERIFY; zb OP_CHECKSIG] in
  assert_ (len script =? 25);;
  Ok script.

Definition is_pay_to_script_hash (script : bytes) : bool :=
  bool_decide (get script 0 = Some (zb OP_HASH160)) && bool_decide (get script 1 = Some x14) &&
  bool_decide (last script = Some (zb OP_EQUAL)) && (len script =? 23).

Definition witness_program {E} (script : bytes) : outcome E (option (Z * bytes)) :=
  if (len script <? WITNESS_PROGRAM_SCRIPT_LEN_MIN) || (WITNESS_PROGRAM_SCRIPT_LEN_MAX <? len script)
  then Ok None
  else
    match script with
    | version_byte :: push_len :: program =>
        let version_byte := bz version_byte in
        let version :=
          if version_byte =? OP_0 then Some 0
          else if (OP_1 <=? version_byte) && (version_byte <=? OP_16)
          then Some (version_byte - OP_1 + 1)
          else None in
        match version with
        | None => Ok None
        | Some version =>
            if negb (bz push_len + 2 =? len script) then Ok None
            else
              assert_ (len program =? bz push_len);;
              Ok (Some (version, program))
        end
    | _ => Ok None
    end.

(** The two scans of a script by a [Reader]: every step consumes at least one byte. *)
Fixpoint is_push_only_loop {E} (fuel : nat) (reader : Reader.Reader) : outcome E bool :=
  match fuel with
  | O => Panic
  | S fuel =>
      '(next, reader) ← Reader.next_op reader;
      match next with
      | None => Ok true
      | Some (inr _) => Ok false
      | Some (inl op) => if OP_16 <? op_opcode op then Ok false else is_push_only_loop fuel reader
      end
  end.

Definition is_push_only {E} (script : bytes) : outcome E bool :=
  is_push_only_loop (S (length script)) (Reader.new script).

Fixpoint has_op_success_loop (fuel : nat) (reader : Reader.Reader) : outcome ScriptError bool :=
  match fuel with
  | O => Panic
  | S fuel =>
      '(next, reader) ← Reader.next_op reader;
      match next with
      | None => Ok false
      | Some (inr e) => Err e
      | Some (inl op) =>
          if Opcode.is_success (op_opcode op) then Ok true else has_op_success_loop fuel reader
      end
  end.

Definition has_op_success (script : bytes) : outcome ScriptError bool :=
  has_op_success_loop (S (length script)) (Reader.new script).

Section verify.
Context `{Hashes} `{Encoding} `{Secp256k1} `{SigChecker}.
Implicit Types (flags : ScriptFlags.ScriptFlags) (stack : Stack.Stack).

(** [stack.is_empty() || !cast_to_bool(stack.top(1))]. *)
Definition top_is_false stack : outcome ScriptError bool :=
  if Stack.is_empty stack then Ok true
  else t ← Stack.top stack 1; Ok (negb (cast_to_bool t)).

Definition execute_witness_script (items : list bytes) (exec_script : bytes) flags
    (sig_version : SigVersion) (exec : ExecData) : outcome ScriptError unit :=
  assert_ (bool_decide (sig_version <> Base));;
  success ←
    (if bool_decide (sig_version = Tapscript) then
       success ← has_op_success exec_script;
       if (success : bool) then Ok true
       else if MAX_STACK_SIZE <? len items then Err ScriptError.StackSize
       else Ok false
     else Ok false);
  if (success : bool) then Ok tt
  else
    foldM (fun _ item =>
      if MAX_SCRIPT_ELEMENT_SIZE <? len item then Err ScriptError.PushSize else Ok tt) tt items;;
    stack ← Stack.from_items items;
    '(stack, _) ← eval_script (mkEnv exec_script flags sig_version) stack exec;
    if negb (len stack =? 1) then Err ScriptError.Cleanstack
    else
      t ← Stack.top stack 1;
      if negb (cast_to_bool t) then Err ScriptError.EvalFalse else Ok tt.

(** The annex of [verify_taproot]: the last of two or more items, if it starts with the tag. *)
Definition strip_annex (items : list bytes) : option bytes * list bytes :=
  match split_last items with
  | Some (l, rest) =>
      if (2 <=? len items) && bool_decide (head l = Some ANNEX_TAG)
      then (Some l, rest) else (None, items)
  | None => (None, items)
  end.

(** The script path of [verify_taproot], from the two [pop]s on. *)
Definition verify_script_path (witness items : list bytes) (annex : option bytes)
    (output_key : bytes) flags : outcome ScriptError unit :=
  '(control, items) ← expect (split_last items);
  '(script, items) ← expect (split_last items);
  control ← ControlBlock.parse control;
  leaf_hash ← tapleaf_hash (ControlBlock.leaf_version control) script;
  ok ← verify_taproot_commitment control output_key leaf_hash;
  if negb ok then Err ScriptError.WitnessProgramMismatch
  else if negb (ControlBlock.leaf_version control =? TAPROOT_LEAF_TAPSCRIPT) then Ok tt
  else
    weight ← validation_weight witness;
    let exec := tapscript_exec (mkTapscriptExec leaf_hash annex weight) in
    execute_witness_script items script flags Tapscript exec.

Definition verify_taproot (witness : list bytes) (output_key : bytes) flags
    : outcome ScriptError unit :=
  assert_ (ScriptFlags.contains flags ScriptFlags.TAPROOT);;
  let items := witness in
  if len items =? 0 then Err ScriptError.WitnessProgramWitnessEmpty
  else
    let '(annex, items) := strip_annex items in
    match items with
    | [signature] => check_schnorr signature output_key KeyPath annex
    | _ => verify_script_path witness items annex output_key flags
    end.

Definition verify_witness_program (witness : list bytes) (version : Z) (program : bytes) flags
    (is_p2sh : bool) : outcome ScriptError unit :=
  assert_ (2 <=? len program);;
  assert_ (len program <=? 40);;
  if version =? 0 then
    let items := witness in
    if len program =? WITNESS_V0_SCRIPTHASH_SIZE then
      match split_last items with
      | None => Err ScriptError.WitnessProgramWitnessEmpty
      | Some (script, stack_items) =>
          if negb (bool_decide (sha256 script = program))
          then Err ScriptError.WitnessProgramMismatch
          else execute_witness_script stack_items script flags WitnessV0 legacy_exec
      end
    else if len program =? WITNESS_V0_KEYHASH_SIZE then
      if negb (len items =? 2) then Err ScriptError.WitnessProgramMismatch
      else
        exec_script ← p2wpkh_script program;
        execute_witness_script items exec_script flags WitnessV0 legacy_exec
    else Err ScriptError.WitnessProgramWrongLength
  else if (version =? 1) && negb is_p2sh && (len program =? WITNESS_V1_TAPROOT_SIZE) then
    if negb (ScriptFlags.contains flags ScriptFlags.TAPROOT) then Ok tt
    else verify_taproot witness program flags
  else Ok tt.

Definition verify_redeem_script (script_sig redeem_script : bytes) stack (witness : list bytes) flags
    : outcome ScriptError bool :=
  '(stack, _) ← eval_script (mkEnv redeem_script flags Base) stack legacy_exec;
  bad ← top_is_false stack;
  if (bad : bool) then Err ScriptError.EvalFalse
  else if negb (ScriptFlags.contains flags ScriptFlags.WITNESS) then Ok false
  else
    p ← witness_program redeem_script;
    match p with
    | None => Ok false
    | Some (version, program) =>
        push ← push_encoding redeem_script;
        if negb (bool_decide (script_sig = push)) then Err ScriptError.WitnessMalleatedP2sh
        else
          verify_witness_program witness version program flags true;;
          Ok true
    end.

Definition verify_script (script_sig script_pubkey : bytes) (witness : list bytes) flags
    : outcome ScriptError unit :=
  let has := ScriptFlags.contains flags in
  (if has ScriptFlags.WITNESS then assert_ (has ScriptFlags.P2SH) else Ok tt);;
  (if has ScriptFlags.TAPROOT then assert_ (has ScriptFlags.WITNESS) else Ok tt);;
  '(stack, exec) ← eval_script (mkEnv script_sig flags Base) Stack.new legacy_exec;
  let stack_copy := if has ScriptFlags.P2SH then Some stack else None in
  '(stack, exec) ← eval_script (mkEnv script_pubkey flags Base) stack exec;
  bad ← top_is_false stack;
  if (bad : bool) then Err ScriptError.EvalFalse
  else
    p ← (if has ScriptFlags.WITNESS then witness_program script_pubkey else Ok None);
    had_witness ←
      (match p with
       | Some (version, program) =>
           if negb (len script_sig =? 0) then Err ScriptError.WitnessMalleated
           else
             verify_witness_program witness version program flags false;;
             Ok true
       | None => Ok false
       end);
    had_witness ←
      (if has ScriptFlags.P2SH && is_pay_to_script_hash script_pubkey then
         push_only ← is_push_only script_sig;
         if negb push_only then Err ScriptError.SigPushonly
         else
           stack ← expect stack_copy;
           assert_ (negb (Stack.is_empty stack));;
           '(redeem_script, stack) ← Stack.pop stack;
           verify_redeem_script script_sig redeem_script stack witness flags
       else Ok had_witness);
    if has ScriptFlags.WITNESS && negb had_witness && negb (len witness =? 0)
    then Err ScriptError.WitnessUnexpected
    else Ok tt.
End verify.

Definition verify_input `{Hashes} `{Encoding} `{Secp256k1} (tx : Transaction) (index : Z)
    (prevouts : list TxOut) (precomputed : TxPrecomputed) (flags : ScriptFlags.ScriptFlags)
    : outcome ScriptError unit :=
  assert_ (index <? len (tx_input tx));;
  assert_ (len prevouts =? len (tx_input tx));;
  input ← expect (get (tx_input tx) index);
  prevout ← expect (get prevouts index);
  checker ← TxSigChecker.new tx index prevouts precomputed;
  verify_script (H2:=TxSigChecker.checker_of checker)
    (script_sig input) (script_pubkey prevout) (witness input) flags.
