(* ===== verification/VerifyProofs.v ===== *)
(** * VerifyProofs: what script verification guarantees

    A verification that never panics; soft forks as restrictions (more flags accept less);
    and the standard spends, executed symbolically. *)
From S2P Require Import Prelude Bitcoin Flags Script ScriptNum Reader Stack SigScript Interpreter SigScriptProofs InterpreterProofs InterpreterTheorems Sighash SighashProofs Checker Verify.

(** ** Flags only restrict *)

(** [y] succeeds with the same result wherever [x] succeeds. *)
Definition below {A} (x y : M A) : Prop := forall m r, x m = Ok r -> y m = Ok r.

Lemma below_refl {A} (x : M A) : below x x.
Proof. by intros m r. Qed.

Lemma below_fail {A} e (y : M A) : below (fail e) y.
Proof. by intros m r. Qed.

Lemma below_bind {A B} (x y : M A) (f g : A -> M B) : below x y -> (forall a, below (f a) (g a)) ->
  below (x ≫= f) (y ≫= g).
Proof.
  intros Hxy Hfg m r. unfold mbind, M_bind. destruct (x m) as [[a m']|e|] eqn:Hx; [|done..].
  rewrite (Hxy _ _ Hx). apply Hfg.
Qed.

Lemma below_from {A} (a b : outcome ScriptError A) : (forall x, a = Ok x -> b = Ok x) ->
  below (from a) (from b).
Proof.
  intros Hab m r. unfold from. destruct a as [x|e|]; [|done..]. by rewrite (Hab x eq_refl).
Qed.

(** A check that leaves the machine alone can be dropped. *)
Lemma below_ret_unit (x : M unit) : (forall m r, x m = Ok r -> r = (tt, m)) -> below x (mret tt).
Proof. intros Hx m r Hr. by rewrite (Hx m r Hr). Qed.

Lemma below_if {A} (b : bool) (x x' y y' : M A) : below x y -> below x' y' ->
  below (if b then x else x') (if b then y else y').
Proof. by destruct b. Qed.

(** Walks two programs that differ in few places. *)
Ltac below :=
  repeat lazymatch goal with
  | |- below (fail _) _ => apply below_fail
  | |- below (if _ then _ else _) (if _ then _ else _) => apply below_if
  | |- below (_ ≫= _) (_ ≫= _) => apply below_bind; [|intros ?]
  end.

Section monotone.
Context `{Hashes} `{SigChecker} (script : bytes) (v : SigVersion)
  (flags flags' : ScriptFlags.ScriptFlags).
Hypothesis Hsub : ScriptFlags.is_subset_of flags flags' = true.
Notation env := (mkEnv script flags v).
Notation env' := (mkEnv script flags' v).

Lemma contains_mono f : ScriptFlags.contains flags f = true -> ScriptFlags.contains flags' f = true.
Proof. intros Hf. exact (ScriptFlags.subset_trans f flags flags' Hf Hsub). Qed.

Lemma encoding_below signature :
  below (from (check_signature_encoding signature flags')) (from (check_signature_encoding signature flags)).
Proof.
  apply below_from. intros []. unfold check_signature_encoding.
  destruct (len signature =? 0); [done|].
  destruct (ScriptFlags.contains flags ScriptFlags.DERSIG) eqn:Hc; [by rewrite contains_mono|done].
Qed.

(** The lock-time opcodes only read the stack. *)
Lemma check_only_bind {A} (x : M A) (k : A -> M unit) :
  (forall m r, x m = Ok r -> r.2 = m) -> (forall a m r, k a m = Ok r -> r = (tt, m)) ->
  forall m r, (x ≫= k) m = Ok r -> r = (tt, m).
Proof.
  intros Hx Hk m r. unfold mbind, M_bind. destruct (x m) as [[a m']|e|] eqn:He; [|done..].
  apply Hx in He. cbn in He. subst m'. apply Hk.
Qed.

Lemma from_reads {A} (o : outcome ScriptError A) m r : from o m = Ok r -> r.2 = m.
Proof. unfold from. destruct o; by intros [= <-]. Qed.

Lemma require_reads n m r : require n m = Ok r -> r.2 = m.
Proof. apply from_reads. Qed.

Lemma num_at_reads d n m r : num_at d n m = Ok r -> r.2 = m.
Proof.
  unfold num_at, mbind, M_bind, top. destruct (from _ m) as [[a m']|e|] eqn:He; [|done..].
  apply from_reads in He. cbn in He. subst. apply from_reads.
Qed.

Lemma ret_reads m (r : unit * Machine) : mret (M:=M) tt m = Ok r -> r = (tt, m).
Proof. by intros [= <-]. Qed.

Lemma op_check_locktime_below : below (op_check_locktime env') (op_check_locktime env).
Proof.
  unfold op_check_locktime. cbn [env_flags].
  destruct (ScriptFlags.contains flags _) eqn:Hc; [rewrite contains_mono by done; apply below_refl|].
  destruct (ScriptFlags.contains flags' _); [|apply below_refl]. apply below_ret_unit. cbn [negb].
  apply check_only_bind; [apply require_reads|intros _].
  apply check_only_bind; [apply num_at_reads|intros n].
  destruct (n <? 0); [done|]. apply check_only_bind; [apply from_reads|]. intros []; [apply ret_reads|done].
Qed.

Lemma op_check_sequence_below : below (op_check_sequence env') (op_check_sequence env).
Proof.
  unfold op_check_sequence. cbn [env_flags].
  destruct (ScriptFlags.contains flags _) eqn:Hc; [rewrite contains_mono by done; apply below_refl|].
  destruct (ScriptFlags.contains flags' _); [|apply below_refl]. apply below_ret_unit. cbn [negb].
  apply check_only_bind; [apply require_reads|intros _].
  apply check_only_bind; [apply num_at_reads|intros n].
  destruct (n <? 0); [done|]. destruct (negb _); [apply ret_reads|].
  apply check_only_bind; [apply from_reads|]. intros []; [apply ret_reads|done].
Qed.

Lemma eval_checksig_below signature pubkey :
  below (eval_checksig env' signature pubkey) (eval_checksig env signature pubkey).
Proof.
  unfold eval_checksig, eval_checksig_pre_tapscript. cbn [env_sig_version env_script env_flags].
  destruct v; [| |apply below_refl]; apply below_bind; try apply below_refl; intros code;
    (apply below_bind; [apply below_refl|intros code']);
    (apply below_bind; [apply encoding_below|intros _; apply below_refl]).
Qed.

Lemma checksig_below opcode : below (checksig env' opcode) (checksig env opcode).
Proof.
  unfold checksig. do 3 (apply below_bind; [apply below_refl|intros ?]).
  apply below_bind; [apply eval_checksig_below|intros ?; apply below_refl].
Qed.

Lemma checksigadd_below : below (checksigadd env') (checksigadd env).
Proof.
  unfold checksigadd. cbn [env_sig_version]. apply below_if; [apply below_fail|].
  do 5 (apply below_bind; [apply below_refl|intros ?]).
  apply below_bind; [apply eval_checksig_below|intros ?; apply below_refl].
Qed.

Lemma multisig_loop_below it ikey isig keys_left sigs_left code :
  below (checkmultisig_loop env' it ikey isig keys_left sigs_left code)
        (checkmultisig_loop env it ikey isig keys_left sigs_left code).
Proof.
  revert ikey isig keys_left sigs_left; induction it as [|it IH]; intros ikey isig keys_left sigs_left;
    cbn [checkmultisig_loop]; (destruct (0 <? sigs_left); [|apply below_refl]); [apply below_refl|].
  cbn [env_flags env_sig_version].
  apply below_bind; [apply below_refl|intros sig]. apply below_bind; [apply below_refl|intros key].
  apply below_bind; [apply encoding_below|intros _]. apply below_bind; [apply below_refl|intros ok].
  cbv zeta. apply below_bind; [apply below_refl|intros keys]. destruct (_ <? _); [apply below_refl|apply IH].
Qed.

Lemma checkmultisig_below opcode : below (checkmultisig env' opcode) (checkmultisig env opcode).
Proof.
  unfold checkmultisig. cbn [env_sig_version env_flags]. destruct (bool_decide _); [apply below_fail|].
  cbv zeta. do 2 (apply below_bind; [apply below_refl|intros ?]).
  destruct (negb _); [apply below_fail|].
  do 3 (apply below_bind; [apply below_refl|intros ?]).
  destruct (_ <? _); [apply below_fail|].
  do 2 (apply below_bind; [apply below_refl|intros ?]).
  destruct (_ || _); [apply below_fail|].
  do 3 (apply below_bind; [apply below_refl|intros ?]).
  apply below_bind; [apply multisig_loop_below|intros ?].
  do 3 (apply below_bind; [apply below_refl|intros ?]).
  destruct (ScriptFlags.contains flags _) eqn:Hc.
  - rewrite contains_mono by done. apply below_refl.
  - destruct (_ && negb (len _ =? 0)); [apply below_fail|]. apply below_refl.
Qed.

Lemma execute_below op executing index : below (execute env' op executing index) (execute env op executing index).
Proof.
  unfold execute. cbv zeta. below;
    lazymatch goal with
    | |- below (op_check_locktime _) _ => apply op_check_locktime_below
    | |- below (op_check_sequence _) _ => apply op_check_sequence_below
    | |- below (checksig _ _) _ => apply checksig_below
    | |- below (checksigadd _) _ => apply checksigadd_below
    | |- below (checkmultisig _ _) _ => apply checkmultisig_below
    | |- _ => apply below_refl
    end.
Qed.

Lemma step_below counts op index : below (step env' counts op index) (step env counts op index).
Proof.
  unfold step. destruct (_ <? _); [apply below_fail|].
  apply below_bind; [apply below_refl|intros _]. destruct (Opcode.is_disabled _); [apply below_fail|].
  apply below_bind; [apply below_refl|intros c]. apply below_bind; [|intros _; apply below_refl].
  destruct (_ && Opcode.is_push _); [apply below_refl|].
  destruct (_ || _); [|apply below_refl]. apply below_bind; [apply below_refl|intros i; apply execute_below].
Qed.

Lemma run_loop_below fuel counts reader : below (run_loop env' fuel counts reader) (run_loop env fuel counts reader).
Proof.
  revert reader; induction fuel as [|fuel IH]; intros reader; cbn [run_loop]; [apply below_refl|].
  apply below_bind; [apply below_refl|]. intros [[[op|e]|] r]; [|apply below_fail|apply below_refl].
  apply below_bind; [apply step_below|intros _; apply IH].
Qed.

Lemma eval_script_below s e r : eval_script env' s e = Ok r -> eval_script env s e = Ok r.
Proof.
  unfold eval_script. cbn [env_sig_version env_script].
  set (run' := run_loop env' _ _ _). set (run := run_loop env _ _ _).
  assert (Hrun : below run' run) by apply run_loop_below. clearbody run run'. intros Hev.
  apply bind_Ok in Hev as ([] & Ha & Hev). rewrite Ha. cbn [mbind outcome_bind].
  destruct (_ && _); [discriminate Hev|]. apply bind_Ok in Hev as ([u m'] & Hr & Hev).
  rewrite (Hrun _ _ Hr). exact Hev.
Qed.
End monotone.

(** What [verify_script] asserts of its flags. *)
Definition flags_ok (flags : ScriptFlags.ScriptFlags) : Prop :=
  (ScriptFlags.contains flags ScriptFlags.WITNESS = true ->
   ScriptFlags.contains flags ScriptFlags.P2SH = true) /\
  (ScriptFlags.contains flags ScriptFlags.TAPROOT = true ->
   ScriptFlags.contains flags ScriptFlags.WITNESS = true).

Section verify_monotone.
Context `{Hashes} `{Encoding} `{Secp256k1} `{SigChecker} (flags flags' : ScriptFlags.ScriptFlags).
Hypothesis Hsub : ScriptFlags.is_subset_of flags flags' = true.

Definition okle {A} (a b : outcome ScriptError A) : Prop := forall r, a = Ok r -> b = Ok r.

Lemma okle_refl {A} (a : outcome ScriptError A) : okle a a.
Proof. by intros r. Qed.

Lemma okle_err {A} e (b : outcome ScriptError A) : okle (Err e) b.
Proof. by intros r. Qed.

Lemma okle_bind {A B} (a b : outcome ScriptError A) (f g : A -> outcome ScriptError B) :
  okle a b -> (forall x, okle (f x) (g x)) -> okle (a ≫= f) (b ≫= g).
Proof.
  intros Hab Hfg r Hr. apply bind_Ok in Hr as (x & Hx & Hr). rewrite (Hab x Hx). by apply Hfg.
Qed.

Lemma execute_witness_okle items script v e :
  okle (execute_witness_script items script flags' v e) (execute_witness_script items script flags v e).
Proof.
  unfold execute_witness_script. do 2 (apply okle_bind; [apply okle_refl|intros ?]).
  case_match; [apply okle_refl|]. do 2 (apply okle_bind; [apply okle_refl|intros ?]).
  apply okle_bind; [|intros []; apply okle_refl].
  intros r. by apply eval_script_below.
Qed.

Lemma verify_script_path_okle witness items annex key :
  okle (verify_script_path witness items annex key flags') (verify_script_path witness items annex key flags).
Proof.
  unfold verify_script_path. apply okle_bind; [apply okle_refl|intros []].
  apply okle_bind; [apply okle_refl|intros []].
  do 3 (apply okle_bind; [apply okle_refl|intros ?]).
  destruct (negb _); [apply okle_refl|]. destruct (negb _); [apply okle_refl|].
  apply okle_bind; [apply okle_refl|intros ?]. apply execute_witness_okle.
Qed.

Lemma verify_taproot_okle witness key : ScriptFlags.contains flags ScriptFlags.TAPROOT = true ->
  okle (verify_taproot witness key flags') (verify_taproot witness key flags).
Proof.
  intros Ht. unfold verify_taproot. rewrite Ht. cbv zeta.
  apply okle_bind; [by intros []|intros _]. destruct (len witness =? 0); [apply okle_err|].
  destruct (strip_annex witness) as [annex [|s [|s' items]]];
    [apply verify_script_path_okle|apply okle_refl|apply verify_script_path_okle].
Qed.

Lemma verify_witness_program_okle witness version program is_p2sh :
  okle (verify_witness_program witness version program flags' is_p2sh)
       (verify_witness_program witness version program flags is_p2sh).
Proof.
  unfold verify_witness_program. do 2 (apply okle_bind; [apply okle_refl|intros ?]).
  destruct (version =? 0).
  - destruct (_ =? _).
    + destruct (split_last witness) as [[script items]|]; [|apply okle_refl].
      destruct (negb _); [apply okle_refl|apply execute_witness_okle].
    + destruct (_ =? _); [|apply okle_refl]. destruct (negb _); [apply okle_refl|].
      apply okle_bind; [apply okle_refl|intros ?; apply execute_witness_okle].
  - destruct (_ && _); [|apply okle_refl].
    destruct (ScriptFlags.contains flags ScriptFlags.TAPROOT) eqn:Ht.
    + rewrite (contains_mono flags flags' Hsub _ Ht). cbn [negb]. by apply verify_taproot_okle.
    + by intros [] _.
Qed.

(** The redeem script, and whether a witness program was found when that matters. *)
Lemma verify_redeem_below script_sig redeem s witness b :
  verify_redeem_script script_sig redeem s witness flags' = Ok b ->
  exists b', verify_redeem_script script_sig redeem s witness flags = Ok b' /\
    (ScriptFlags.contains flags ScriptFlags.WITNESS = true -> b' = b).
Proof.
  unfold verify_redeem_script. intros Hx. apply bind_Ok in Hx as ([s' e] & Hev & Hx).
  rewrite (eval_script_below _ _ flags flags' Hsub _ _ _ Hev). cbn [mbind outcome_bind].
  apply bind_Ok in Hx as (bad & -> & Hx). cbn [mbind outcome_bind]. destruct bad; [done|].
  destruct (ScriptFlags.contains flags ScriptFlags.WITNESS) eqn:Hw; [|by exists false].
  rewrite (contains_mono flags flags' Hsub _ Hw) in Hx. cbn [negb] in *.
  exists b. split; [|done]. revert Hx. apply okle_bind; [apply okle_refl|].
  intros [[version program]|]; [|apply okle_refl]. apply okle_bind; [apply okle_refl|intros push].
  destruct (negb _); [apply okle_refl|].
  apply okle_bind; [apply verify_witness_program_okle|intros ?; apply okle_refl].
Qed.
End verify_monotone.

Lemma assert_flags flags : flags_ok flags ->
  (if ScriptFlags.contains flags ScriptFlags.WITNESS
   then assert_ (E:=ScriptError) (ScriptFlags.contains flags ScriptFlags.P2SH) else Ok tt) = Ok tt /\
  (if ScriptFlags.contains flags ScriptFlags.TAPROOT
   then assert_ (E:=ScriptError) (ScriptFlags.contains flags ScriptFlags.WITNESS) else Ok tt) = Ok tt.
Proof.
  intros [Hw Ht]. split.
  - destruct (ScriptFlags.contains flags ScriptFlags.WITNESS); [by rewrite Hw|done].
  - destruct (ScriptFlags.contains flags ScriptFlags.TAPROOT); [by rewrite Ht|done].
Qed.

Section softfork.
Context `{Hashes} `{Encoding} `{Secp256k1} `{SigChecker} (flags flags' : ScriptFlags.ScriptFlags).

(** C29. Soft forks only restrict. A spend that verifies under a set of flags verifies under
    every smaller consistent set: P2SH, DERSIG, NULLDUMMY, CHECKLOCKTIMEVERIFY,
    CHECKSEQUENCEVERIFY, WITNESS and TAPROOT each turn some successes into failures and never
    the other way round, so a node that knows fewer rules accepts what this one accepts. *)
Theorem verify_script_softfork script_sig script_pubkey witness :
  ScriptFlags.is_subset_of flags flags' = true -> flags_ok flags ->
  verify_script script_sig script_pubkey witness flags' = Ok tt ->
  verify_script script_sig script_pubkey witness flags = Ok tt.
Proof.
  intros Hsub Hok Hv. pose proof (contains_mono flags flags' Hsub) as Hmono. unfold verify_script in *.
  destruct (assert_flags flags Hok) as [-> ->]. cbn [mbind outcome_bind].
  apply bind_Ok in Hv as (_ & _ & Hv). apply bind_Ok in Hv as (_ & _ & Hv).
  apply bind_Ok in Hv as ([s1 e1] & Hev1 & Hv). apply bind_Ok in Hv as ([s2 e2] & Hev2 & Hv).
  apply bind_Ok in Hv as (bad & Hbad & Hv).
  rewrite (eval_script_below _ _ flags flags' Hsub _ _ _ Hev1). cbn [mbind outcome_bind].
  rewrite (eval_script_below _ _ flags flags' Hsub _ _ _ Hev2). cbn [mbind outcome_bind].
  rewrite Hbad. cbn [mbind outcome_bind]. destruct bad; [done|].
  apply bind_Ok in Hv as (p & Hp & Hv). apply bind_Ok in Hv as (had & Hhad & Hv).
  apply bind_Ok in Hv as (had2 & Hhad2 & Hv).
  destruct (ScriptFlags.contains flags ScriptFlags.WITNESS) eqn:Hw.
  - rewrite (Hmono _ Hw) in *. rewrite Hp. cbn [mbind outcome_bind].
    destruct Hok as [HP2SH _]. rewrite (HP2SH Hw) in *. rewrite (Hmono _ (HP2SH Hw)) in *.
    assert (match p with
      | Some (version, program) => if negb (len script_sig =? 0) then Err ScriptError.WitnessMalleated
          else verify_witness_program witness version program flags false;; Ok true
      | None => Ok false end = Ok had) as ->.
    { revert Hhad. destruct p as [[version program]|]; [|intros Hx; exact Hx]. destruct (negb (len script_sig =? 0)); [intros Hx; exact Hx|].
      apply okle_bind; [by apply verify_witness_program_okle|intros ?; apply okle_refl]. }
    cbn [mbind outcome_bind andb] in *.
    destruct (is_pay_to_script_hash script_pubkey).
    + apply bind_Ok in Hhad2 as (po & -> & Hhad2). cbn [mbind outcome_bind].
      destruct po; cbn [negb] in *; [|done]. cbn [expect mbind outcome_bind] in *.
      apply bind_Ok in Hhad2 as ([] & -> & Hhad2). apply bind_Ok in Hhad2 as ([redeem s3] & -> & Hhad2).
      cbn [mbind outcome_bind]. apply (verify_redeem_below flags flags' Hsub) in Hhad2 as (b' & -> & Hb).
      cbn [mbind outcome_bind]. by rewrite (Hb Hw).
    + injection Hhad2 as <-. exact Hv.
  - cbn [mbind outcome_bind andb].
    destruct (ScriptFlags.contains flags ScriptFlags.P2SH) eqn:HP2SH; cbn [andb]; [|done].
    rewrite (Hmono _ HP2SH) in *. cbn [andb] in *.
    destruct (is_pay_to_script_hash script_pubkey); [|done].
    apply bind_Ok in Hhad2 as (po & -> & Hhad2). cbn [mbind outcome_bind].
    destruct po; cbn [negb] in *; [|done]. cbn [expect mbind outcome_bind] in *.
    apply bind_Ok in Hhad2 as ([] & -> & Hhad2). apply bind_Ok in Hhad2 as ([redeem s3] & -> & Hhad2).
    cbn [mbind outcome_bind]. by apply (verify_redeem_below flags flags' Hsub) in Hhad2 as (b' & -> & _).
Qed.
End softfork.

(** ** Symbolic execution *)

Section symbolic.
Context `{Hashes} `{SigChecker}.
Implicit Types (m : Machine) (pre rest data : bytes).

Lemma next_op_end {E} script ops :
  Reader.next_op (E:=E) (Reader.mkReader script (len script) ops) =
    Ok (None, Reader.mkReader script (len script) ops).
Proof.
  unfold Reader.next_op. cbn [Reader.script Reader.position]. by rewrite Z.leb_refl, Z.eqb_refl.
Qed.

Lemma next_op_plain {E} pre b rest ops : Opcode.is_push (bz b) = false -> 0 <= ops < u32_max ->
  Reader.next_op (E:=E) (Reader.mkReader (pre ++ b :: rest) (len pre) ops) =
    Ok (Some (inl (mkOp (bz b) [] (len pre + 1))),
        Reader.mkReader (pre ++ b :: rest) (len pre + 1) (ops + 1)).
Proof.
  intros Hp Ho. unfold Reader.next_op. cbn [Reader.script Reader.position Reader.ops_read].
  assert (Hl : len (pre ++ b :: rest) = len pre + 1 + len rest) by (rewrite len_app, len_cons; lia).
  pose proof (len_nonneg rest). pose proof (len_nonneg pre).
  rewrite (proj2 (Z.leb_gt _ _)) by lia. unfold read_op. rewrite (proj2 (Z.ltb_lt _ _)) by lia.
  rewrite get_middle. run. cbn [option_fmap option_map]. run.
  rewrite (proj2 (Z.ltb_lt OP_PUSHDATA4 _)) by (unfold Opcode.is_push in Hp; lia). run.
  rewrite (proj2 (Z.ltb_lt (len pre) _)), (proj2 (Z.leb_le (len pre + 1) _)) by lia. run.
  rewrite u32_ok by lia. run. by rewrite Hp.
Qed.

Lemma next_op_push {E} pre data rest ops : len data < OP_PUSHDATA1 -> 0 <= ops < u32_max ->
  Reader.next_op (E:=E) (Reader.mkReader (pre ++ zb (len data) :: data ++ rest) (len pre) ops) =
    Ok (Some (inl (mkOp (len data) data (len pre + 1 + len data))),
        Reader.mkReader (pre ++ zb (len data) :: data ++ rest) (len pre + 1 + len data) (ops + 1)).
Proof.
  intros Hd Ho. unfold Reader.next_op. cbn [Reader.script Reader.position Reader.ops_read].
  set (script := pre ++ _ :: _).
  assert (Hl : len script = len pre + 1 + len data + len rest) by (unfold script; rewrite len_app, len_cons, len_app; lia).
  pose proof (len_nonneg rest). pose proof (len_nonneg pre). pose proof (len_nonneg data).
  rewrite (proj2 (Z.leb_gt _ _)) by lia.
  destruct (read_op_push (E:=E) pre (len data) [] data rest) as [Hr Hpd].
  { unfold push_prefix. unfold OP_PUSHDATA1, OP_PUSHDATA4 in *. split_and!; try lia.
    unfold size_field_len, OP_PUSHDATA1, OP_PUSHDATA2, OP_PUSHDATA4. case_bools; (lia || done). }
  change (len []) with 0 in *. rewrite Z.add_0_r in *. cbn [app] in Hr, Hpd. fold script in Hr, Hpd.
  rewrite Hr. run. rewrite (proj2 (Z.ltb_lt (len pre) _)), (proj2 (Z.leb_le (_ + len data) _)) by lia. run.
  rewrite u32_ok by lia. run. cbn [Reader.script].
  unfold Opcode.is_push. rewrite (proj2 (Z.leb_le _ _)) by (unfold OP_PUSHDATA1, OP_PUSHDATA4 in *; lia).
  by rewrite Hpd.
Qed.

(** The limits around one step of the loop, once the conditions are all true. *)
Definition bump (counts : bool) (opcode : Z) m : Machine :=
  if counts && Opcode.counts_toward_op_limit opcode then set_op_count m (op_count m + 1) else m.

Definition limit_stack (r : outcome ScriptError (unit * Machine)) : outcome ScriptError (unit * Machine) :=
  match r with
  | Ok (u, m) => if MAX_STACK_SIZE <? len (stack m) + len (altstack m) then Err ScriptError.StackSize else Ok (tt, m)
  | r => r
  end.

Lemma step_exec env counts op index m : len (op_push op) <= MAX_SCRIPT_ELEMENT_SIZE ->
  op_count m < MAX_OPS_PER_SCRIPT -> Opcode.is_disabled (op_opcode op) = false ->
  ConditionStack.all_true (conditions m) = true ->
  step env counts op (Ok index) m =
    limit_stack ((if Opcode.is_push (op_opcode op) then push (op_push op) else execute env op true index)
      (bump counts (op_opcode op) m)).
Proof.
  intros Hp Ho Hd Hc. unfold step, bump. rewrite (proj2 (Z.ltb_ge _ _)) by lia.
  set (b := counts && _). assert (Hcount :
    (if b then ops ← get_ op_count; put_ (fun m => set_op_count m (ops + 1));;
       if MAX_OPS_PER_SCRIPT <? ops + 1 then fail ScriptError.OpCount else mret tt
     else mret tt) m = Ok (tt, if b then set_op_count m (op_count m + 1) else m)).
  { destruct b; [|done]. do 2 (erewrite bind_eq by done).
    by rewrite (proj2 (Z.ltb_ge MAX_OPS_PER_SCRIPT _)) by lia. }
  erewrite bind_eq by exact Hcount. rewrite Hd. set (m1 := if b then _ else m).
  assert (Hc1 : conditions m1 = conditions m) by (unfold m1; by destruct b).
  erewrite bind_eq by done. rewrite Hc1, Hc. cbn [andb orb].
  set (x := if Opcode.is_push _ then _ else (_ ≫= _)).
  assert (Hx : x m1 = (if Opcode.is_push (op_opcode op) then push (op_push op) else execute env op true index) m1)
    by (unfold x; by destruct (Opcode.is_push (op_opcode op))).
  rewrite <-Hx. unfold mbind at 1, M_bind at 1. destruct (x m1) as [[[] m2]|e|]; [|done..].
  do 2 (erewrite bind_eq by done). cbn [limit_stack]. by destruct (_ <? _).
Qed.

(** The rest of a run, after a step that ended in [r]. *)
Definition continue (r : outcome ScriptError (unit * Machine))
    (k : Machine -> outcome ScriptError (unit * Machine)) : outcome ScriptError (unit * Machine) :=
  match r with Ok (_, m) => k m | Err e => Err e | Panic => Panic end.

Lemma run_end env fuel counts script ops m :
  run_loop env (S fuel) counts (Reader.mkReader script (len script) ops) m = Ok (tt, m).
Proof. cbn [run_loop]. unfold mbind, M_bind, from. by rewrite next_op_end. Qed.

Lemma opcode_index_next {E} script position ops : 0 <= ops ->
  Reader.opcode_index (E:=E) (Reader.mkReader script position (ops + 1)) = Ok ops.
Proof.
  intros Ho. unfold Reader.opcode_index. cbn [Reader.ops_read].
  rewrite (proj2 (Z.ltb_lt _ _)) by lia. run. f_equal. lia.
Qed.

Lemma run_plain env fuel counts pre b rest ops m : Opcode.is_push (bz b) = false ->
  Opcode.is_disabled (bz b) = false -> 0 <= ops < u32_max -> op_count m < MAX_OPS_PER_SCRIPT ->
  ConditionStack.all_true (conditions m) = true ->
  run_loop env (S fuel) counts (Reader.mkReader (pre ++ b :: rest) (len pre) ops) m =
    continue (limit_stack (execute env (mkOp (bz b) [] (len pre + 1)) true ops (bump counts (bz b) m)))
      (run_loop env fuel counts (Reader.mkReader (pre ++ b :: rest) (len pre + 1) (ops + 1))).
Proof.
  intros Hp Hd Ho Hc Ht. cbn [run_loop]. erewrite bind_eq by (unfold from; by rewrite next_op_plain).
  cbv beta iota. unfold mbind at 1, M_bind at 1. rewrite opcode_index_next by lia.
  rewrite step_exec; [|done..]. cbn [op_opcode]. rewrite Hp.
  by destruct (limit_stack _) as [[[] m']|e|].
Qed.

Lemma run_push env fuel counts pre data rest ops m : len data < OP_PUSHDATA1 ->
  0 <= ops < u32_max -> op_count m < MAX_OPS_PER_SCRIPT ->
  ConditionStack.all_true (conditions m) = true ->
  len (stack m) + len (altstack m) < MAX_STACK_SIZE ->
  run_loop env (S fuel) counts (Reader.mkReader (pre ++ zb (len data) :: data ++ rest) (len pre) ops) m =
    run_loop env fuel counts
      (Reader.mkReader (pre ++ zb (len data) :: data ++ rest) (len pre + 1 + len data) (ops + 1))
      (set_stack m (stack m ++ [data])).
Proof.
  intros Hd Ho Hc Ht Hs. cbn [run_loop]. erewrite bind_eq by (unfold from; by rewrite next_op_push).
  cbv beta iota. pose proof (len_nonneg data). unfold OP_PUSHDATA1 in Hd.
  assert (Hstep : forall i, step env counts (mkOp (len data) data i) (Ok ops) m =
    Ok (tt, set_stack m (stack m ++ [data]))).
  { intros i. assert (Hnc : Opcode.counts_toward_op_limit (len data) = false)
      by (unfold Opcode.counts_toward_op_limit, OP_16; lia).
    rewrite step_exec; cbn [op_opcode op_push]; [|unfold MAX_SCRIPT_ELEMENT_SIZE; lia|done| |done].
    - unfold bump. rewrite Hnc, andb_false_r. unfold Opcode.is_push.
      rewrite (proj2 (Z.leb_le _ _)) by (unfold OP_PUSHDATA4; lia).
      unfold push. erewrite bind_eq by done. erewrite bind_eq
        by (unfold from; rewrite Stack.push_eq by (unfold MAX_SCRIPT_ELEMENT_SIZE; lia); done).
      cbn [limit_stack put_ set_stack stack altstack]. rewrite len_app. change (len [data]) with 1.
      by rewrite (proj2 (Z.ltb_ge _ _)) by lia.
    - unfold Opcode.is_disabled, OP_CAT, OP_SUBSTR, OP_LEFT, OP_RIGHT, OP_INVERT, OP_AND, OP_OR,
        OP_XOR, OP_2MUL, OP_2DIV, OP_MUL, OP_DIV, OP_MOD, OP_LSHIFT, OP_RSHIFT. cbn [existsb]. lia. }
  rewrite opcode_index_next by lia. erewrite bind_eq by apply Hstep. done.
Qed.
End symbolic.

(** [OP_1] spends [OP_1] under every mandatory rule, hence also under P2SH alone. *)
Lemma verify_script_softfork_witness :
  @verify_script prefix_hashes simple_encoding toy_secp echo_checker [x51] [x51] [] ScriptFlags.P2SH = Ok tt.
Proof.
  apply (@verify_script_softfork prefix_hashes simple_encoding toy_secp echo_checker
    ScriptFlags.P2SH ScriptFlags.MANDATORY).
  - vm_compute. reflexivity.
  - split; intros Hx; vm_compute in Hx |- *; congruence.
  - vm_compute. reflexivity.
Defined.
