(* ===== verification/VerifySafety.v ===== *)
(** * VerifySafety: script verification never panics *)
From S2P Require Import Prelude Bitcoin Flags Params Script ScriptNum Reader Stack SigScript Interpreter SigScriptProofs InterpreterProofs InterpreterTheorems Sighash SighashProofs Checker Verify VerifyProofs.

(** ** The scans *)

Section scans.
Variables (script : bytes).
Hypothesis Hlen : len script <= u32_max.

Lemma push_only_loop_ok {E} fuel r : reader_ok r -> Reader.script r = script ->
  (length script - Z.to_nat (Reader.position r) < fuel)%nat ->
  exists b, is_push_only_loop (E:=E) fuel r = Ok b.
Proof.
  revert r; induction fuel as [|fuel IH]; intros r Hr Hs Hf; [lia|]. cbn [is_push_only_loop].
  destruct (next_op_ok (E:=E) r Hr) as (o & r' & -> & Hr' & Hs' & Hspec); [by rewrite Hs|]. run.
  destruct o as [[op|e]|]; [|eauto..]. destruct (_ <? _); [eauto|].
  destruct Hspec as (Hpos & _). unfold reader_ok in Hr, Hr'. rewrite Hs in Hr. rewrite Hs', Hs in Hr'.
  apply IH; [unfold reader_ok; rewrite Hs', Hs; lia|congruence|unfold len in *; lia].
Qed.

Lemma op_success_loop_ok fuel r : reader_ok r -> Reader.script r = script ->
  (length script - Z.to_nat (Reader.position r) < fuel)%nat ->
  has_op_success_loop fuel r <> Panic.
Proof.
  revert r; induction fuel as [|fuel IH]; intros r Hr Hs Hf; [lia|]. cbn [has_op_success_loop].
  destruct (next_op_ok (E:=ScriptError) r Hr) as (o & r' & -> & Hr' & Hs' & Hspec); [by rewrite Hs|]. run.
  destruct o as [[op|e]|]; [|done..]. destruct (Opcode.is_success _); [done|].
  destruct Hspec as (Hpos & _). unfold reader_ok in Hr, Hr'. rewrite Hs in Hr. rewrite Hs', Hs in Hr'.
  apply IH; [unfold reader_ok; rewrite Hs', Hs; lia|congruence|unfold len in *; lia].
Qed.

Lemma is_push_only_ok {E} : exists b, is_push_only (E:=E) script = Ok b.
Proof. apply push_only_loop_ok; [apply reader_new_ok|done|cbn; lia]. Qed.

Lemma has_op_success_ok : has_op_success script <> Panic.
Proof. apply op_success_loop_ok; [apply reader_new_ok|done|cbn; lia]. Qed.
End scans.

Lemma witness_program_ok {E} script : exists p, witness_program (E:=E) script = Ok p /\
  forall version program, p = Some (version, program) -> 2 <= len program <= 40 /\ 0 <= version <= 16 /\
    exists b, script = b :: zb (len program) :: program.
Proof.
  unfold witness_program, WITNESS_PROGRAM_SCRIPT_LEN_MIN, WITNESS_PROGRAM_SCRIPT_LEN_MAX.
  destruct (Z.ltb_spec (len script) 4); [eexists; split; [done|discriminate]|].
  destruct (Z.ltb_spec 42 (len script)); [eexists; split; [done|discriminate]|]. cbn [orb].
  destruct script as [|b [|n program]]; [by eexists; split|by eexists; split|]. rewrite !len_cons in *.
  change OP_0 with 0. change OP_1 with 0x51. change OP_16 with 0x60.
  assert (Hrest : forall version, 0 <= version <= 16 -> exists p,
    (if negb (bz n + 2 =? len program + 1 + 1) then Ok None
     else assert_ (len program =? bz n);; Ok (Some (version, program))) = Ok (E:=E) p /\
    forall v q, p = Some (v, q) -> 2 <= len q <= 40 /\ 0 <= v <= 16 /\
      exists b', b :: n :: program = b' :: zb (len q) :: q).
  { intros version Hv. destruct (Z.eqb_spec (bz n + 2) (len program + 1 + 1)) as [Hn|]; cbn [negb];
      [|eexists; split; [done|discriminate]].
    rewrite (proj2 (Z.eqb_eq _ _)) by lia. run. eexists. split; [done|].
    intros v q [= <- <-]. split_and!; try lia. exists b. do 2 f_equal. rewrite <-(zb_bz n). f_equal. lia. }
  destruct (bz b =? 0); [apply Hrest; lia|].
  destruct (Z.leb_spec 0x51 (bz b)); cbn [andb]; [|eexists; split; [done|discriminate]].
  destruct (Z.leb_spec (bz b) 0x60); [|eexists; split; [done|discriminate]]. apply Hrest; lia.
Qed.

(** ** The commitment *)

Lemma as_chunks_rest fuel n l : (0 < n)%nat -> (length l < n * S fuel)%nat ->
  (length l mod n = 0)%nat -> (as_chunks fuel n l).2 = [].
Proof.
  intros Hn. revert l; induction fuel as [|fuel IH]; intros l Hl Hm; cbn [as_chunks].
  - destruct l; [done|]. rewrite Nat.mod_small in Hm by lia. discriminate Hm.
  - destruct (Nat.ltb_spec (length l) n) as [Hlt|Hge].
    + destruct l; [done|]. rewrite Nat.mod_small in Hm by lia. discriminate Hm.
    + specialize (IH (drop n l)). rewrite length_drop in IH.
      destruct (as_chunks fuel n (drop n l)) as [c r]. cbn in *. apply IH; [lia|].
      replace (length l) with (length l - n + 1 * n)%nat in Hm by lia. by rewrite Nat.Div0.mod_add in Hm.
Qed.

Section commitment.
Context `{EL : EncodingLaws} `{Secp256k1}.

Record control_ok (c : ControlBlock.ControlBlock) : Prop := {
  co_key : length (ControlBlock.internal_key c) = 32%nat;
  co_path : len (ControlBlock.path c) mod 32 = 0;
  co_max : len (ControlBlock.path c) <= 32 * 128;
  co_even : Z.land (ControlBlock.leaf_version c) 1 = 0;
}.

Lemma parse_ok b : ensures (ControlBlock.parse b) control_ok.
Proof.
  unfold ControlBlock.parse, TAPROOT_CONTROL_MAX_SIZE, TAPROOT_CONTROL_BASE_SIZE, TAPROOT_CONTROL_NODE_SIZE,
    TAPROOT_CONTROL_MAX_NODE_COUNT.
  destruct (Z.ltb_spec (len b) 33); [done|]. destruct (Z.ltb_spec (33 + 32 * 128) (len b)); [done|].
  destruct (Z.eqb_spec ((len b - 33) mod 32) 0) as [Hm|]; [|done]. cbn [negb].
  destruct b as [|first rest]; [done|]. rewrite len_cons in *.
  rewrite slice_in_range by lia. run. unfold slice_from. rewrite slice_in_range by lia. run.
  set (path := take _ (drop (Z.to_nat 32) rest)).
  assert (Hp : len path = len rest - 32) by (unfold path, len in *; rewrite length_take, length_drop; lia).
  rewrite Hp. replace (len rest + 1 - 33) with (len rest - 32) in Hm by lia. rewrite Hm. run.
  constructor; cbn; rewrite ?Hp; try done; try lia.
  - unfold len in *. rewrite length_take, length_drop. lia.
  - rewrite <-Z.land_assoc. change (Z.land TAPROOT_LEAF_MASK 1) with 0. apply Z.land_0_r.
Qed.

Lemma tapleaf_hash_ok {E} v script : Z.land v 1 = 0 -> len script <= u64_max ->
  tapleaf_hash (E:=E) v script = Ok (tap_leaf_hash (zb v :: enc_varint (len script) ++ script)).
Proof.
  intros Hv Hl. pose proof (len_nonneg script). unfold tapleaf_hash. rewrite Hv. run.
  rewrite count_to_u64_ok by lia. run. by rewrite encode_ok by apply enc_varint_nonempty.
Qed.

Lemma merkle_root_ok {E} c leaf : control_ok c ->
  taproot_merkle_root (E:=E) c leaf =
    Ok (fold_left tap_branch (as_chunks (length (ControlBlock.path c)) 32 (ControlBlock.path c)).1 leaf).
Proof.
  intros [_ Hm Hmax _]. unfold taproot_merkle_root, ControlBlock.path_len, TAPROOT_CONTROL_NODE_SIZE,
    TAPROOT_CONTROL_MAX_NODE_COUNT. rewrite Hm, Z.eqb_refl. run.
  rewrite (proj2 (Z.leb_le _ 128)) by (apply Z.div_le_upper_bound; lia). run.
  pose proof (as_chunks_rest (length (ControlBlock.path c)) 32 (ControlBlock.path c) ltac:(lia) ltac:(lia)) as Hr.
  rewrite surjective_pairing with (p := as_chunks _ 32 _), Hr; [done|].
  unfold len in Hm. apply Nat2Z.inj. rewrite Nat2Z.inj_mod. exact Hm.
Qed.

Lemma commitment_ok {E} c key leaf : control_ok c ->
  exists b, verify_taproot_commitment (E:=E) c key leaf = Ok b.
Proof.
  intros Hc. unfold verify_taproot_commitment. repeat case_match; eauto;
    rewrite merkle_root_ok by done; run; case_match; eauto.
Qed.

(** The serialized size of a witness, with nine bytes for every count. *)
Definition witness_size (w : list bytes) : Z := 9 + foldr (fun x n => n + 9 + len x) 0 w.

Lemma witness_sum_nonneg (w : list bytes) : 0 <= foldr (fun x n => n + 9 + len x) 0 w.
Proof. induction w as [|x w IH]; cbn; [lia|]. pose proof (len_nonneg x). lia. Qed.

Lemma validation_weight_ok {E} w : witness_size w < 2 ^ 61 ->
  exists n, validation_weight (E:=E) w = Ok n /\ 51 <= n <= 50 + witness_size w.
Proof.
  intros Hw. unfold validation_weight, witness_serialized_size, VALIDATION_WEIGHT_OFFSET.
  assert (Hlen : forall w : list bytes, 9 * len w <= foldr (fun x n => n + 9 + len x) 0 w).
  { induction w0 as [|x w0 IH]; cbn [foldr]; [done|]. rewrite len_cons. pose proof (len_nonneg x). lia. }
  assert (Hfold : forall (w : list bytes) s, 1 <= s -> s + foldr (fun x n => n + 9 + len x) 0 w < 2 ^ 61 ->
    exists n, foldM (fun size item =>
      k ← count_to_u64 (len item); size ← u64 (size + varint_size k); u64 (size + len item)) s w
      = Ok (E:=E) n /\ 1 <= n <= s + foldr (fun x n => n + 9 + len x) 0 w).
  { clear w Hw Hlen. induction w as [|x w IH]; intros s Hs Hb; cbn [foldM foldr] in *; [exists s; split; [done|lia]|].
    pose proof (len_nonneg x). pose proof (witness_sum_nonneg w).
    rewrite count_to_u64_ok by (unfold u64_max; lia). run.
    pose proof (varint_size_range (len x)). rewrite u64_ok by (unfold u64_max; lia). run.
    rewrite u64_ok by (unfold u64_max; lia). run.
    destruct (IH (s + varint_size (len x) + len x)) as (n & -> & Hn); [lia|lia|].
    exists n. split; [done|lia]. }
  unfold witness_size in Hw. pose proof (Hlen w). pose proof (len_nonneg w).
  rewrite count_to_u64_ok by (unfold u64_max; lia). run.
  pose proof (varint_size_range (len w)). destruct (Hfold w (varint_size (len w))) as (n & -> & Hn); [lia|lia|].
  run. rewrite (proj2 (Z.leb_le _ _)) by lia. run. rewrite try_from_ok by lia. run.
  rewrite (proj2 (Z.leb_le _ _)) by lia. run. rewrite i64_ok by lia. eexists. split; [done|].
  unfold witness_size. lia.
Qed.
End commitment.

(** ** Verification *)

Section verify.
Context `{HL : HashLengths} `{EL : EncodingLaws} `{Secp256k1} `{SL : SigCheckerLaws}.
Implicit Types flags : ScriptFlags.ScriptFlags.

Lemma eval_base_size flags script v s e r : v <> Tapscript ->
  eval_script (mkEnv script flags v) s e = Ok r -> len script <= 10000.
Proof.
  intros Hv Hev. unfold eval_script in Hev. cbn [env_sig_version env_script] in Hev.
  apply bind_Ok in Hev as (_ & _ & Hev). rewrite bool_decide_eq_true_2 in Hev by done. cbn [andb] in Hev.
  destruct (Z.ltb_spec MAX_SCRIPT_SIZE (len script)) as [|Hl]; [discriminate Hev|].
  unfold MAX_SCRIPT_SIZE in Hl. lia.
Qed.

Lemma top_is_false_ok s : exists b, top_is_false s = Ok b /\ (b = false -> 1 <= len s).
Proof.
  unfold top_is_false, Stack.is_empty. pose proof (len_nonneg s).
  destruct (Z.eqb_spec (len s) 0); [by eexists|].
  destruct (Stack.top_ok (E:=ScriptError) s 1) as (x & -> & _); [lia|]. run. eexists. split; [done|lia].
Qed.

(** A P2SH output consumes the top of the stack it runs on. *)
Lemma p2sh_needs_item flags spk e r : is_pay_to_script_hash spk = true ->
  tapscript e = None -> eval_script (mkEnv spk flags Base) [] e <> Ok r.
Proof.
  intros Hp He. unfold is_pay_to_script_hash in Hp. apply andb_true_iff in Hp as [Hp _].
  apply andb_true_iff in Hp as [Hp _]. apply andb_true_iff in Hp as [Hp _].
  apply bool_decide_eq_true in Hp. destruct spk as [|b spk]; [done|]. cbn in Hp. injection Hp as ->.
  unfold eval_script. rewrite He. cbn [env_sig_version env_script length].
  change (Bool.eqb _ _) with true. cbn [assert_ mbind outcome_bind].
  destruct (_ && _); [done|]. intros Hev. apply bind_Ok in Hev as ([u m] & Hrun & _).
  revert Hrun. unfold Reader.new. change 0 with (len (@nil byte)) at 1.
  change (zb OP_HASH160 :: spk) with ([] ++ zb OP_HASH160 :: spk).
  rewrite run_plain by (done || vm_compute; (split; congruence || congruence)).
  match goal with |- context [execute ?env ?op true 0 ?m] =>
    assert (execute env op true 0 m = Err ScriptError.InvalidStackOperation) as -> by reflexivity end.
  discriminate.
Qed.

Lemma execute_witness_ok items script flags v e : v <> Base -> exec_ok v e -> len items < 2 ^ 62 ->
  (v = Tapscript -> len script <= 10001) ->
  execute_witness_script items script flags v e <> Panic.
Proof.
  intros Hv He Hi Hs. apply ensures_true_iff. unfold execute_witness_script.
  apply ensures_assert; [by apply bool_decide_eq_true_2|].
  eapply ensures_bind with (Q := fun _ => True).
  { case_bool_decide as Ht; [|done]. eapply ensures_bind with (Q := fun _ => True).
    - apply ensures_true_iff, has_op_success_ok. specialize (Hs Ht). unfold u32_max. lia.
    - intros [] _; [done|]. by case_match. }
  intros [] _; [done|].
  eapply ensures_bind with (Q := fun _ => Stack.items_ok items).
  { unfold Stack.items_ok, MAX_SCRIPT_ELEMENT_SIZE. clear Hi. induction items as [|x items IH]; [constructor|].
    cbn [foldM]. destruct (Z.ltb_spec 520 (len x)); [done|]. run.
    eapply ensures_mono; [exact IH|]. intros u Hx. constructor; [lia|done]. }
  intros _ Hok. eapply ensures_bind with (Q := fun s => s = items).
  { unfold Stack.from_items. eapply ensures_bind with (Q := fun _ => True); [|done].
    apply ensures_foldM; [done|]. intros [] x Hx _. unfold Stack.items_ok in Hok.
    rewrite Forall_forall in Hok. specialize (Hok x Hx). by rewrite (proj2 (Z.leb_le _ _)). }
  intros s ->. eapply ensures_bind; [apply eval_script_ok; cbn; done|].
  intros [s' e'] (_ & _ & _). cbn [fst]. destruct (Z.eqb_spec (len s') 1); [|done]. cbn [negb].
  destruct (Stack.top_ok (E:=ScriptError) s' 1) as (x & -> & _); [lia|]. run. by destruct (cast_to_bool x).
Qed.

(** What a witness must satisfy when it may hold a tapscript: items within the nest limit of
    the interpreter. *)
Definition witness_ok flags (w : list bytes) : Prop :=
  witness_size w < 2 ^ 61 /\
  (ScriptFlags.contains flags ScriptFlags.TAPROOT = true -> Forall (fun x => len x <= 10001) w).

Lemma witness_count w : witness_size w < 2 ^ 61 -> len w < 2 ^ 61.
Proof.
  intros Hw. enough (9 * len w <= witness_size w) by (pose proof (len_nonneg w); lia). clear. unfold witness_size.
  induction w as [|x w IH]; cbn [foldr]; [done|]. rewrite len_cons. pose proof (len_nonneg x). lia.
Qed.

Lemma split_last_Some {A} (l : list A) x k : split_last l = Some (x, k) -> l = k ++ [x].
Proof.
  destruct l as [|y l _] using rev_ind; [done|]. rewrite split_last_snoc. by intros [= <- <-].
Qed.

Lemma witness_item_len w x : witness_size w < 2 ^ 61 -> x ∈ w -> len x <= u64_max.
Proof.
  intros Hw Hx. enough (len x <= witness_size w) by (unfold u64_max; lia). clear Hw. unfold witness_size.
  induction w as [|y w IH]; [by apply elem_of_nil in Hx|]. cbn [foldr].
  pose proof (witness_sum_nonneg w). pose proof (len_nonneg y).
  apply elem_of_cons in Hx as [->|Hx]; [lia|]. specialize (IH Hx). lia.
Qed.

Lemma strip_annex_ok w : witness_size w < 2 ^ 61 -> w <> [] ->
  let '(annex, items) := strip_annex w in
  annex_ok annex /\ (forall x, x ∈ items -> x ∈ w) /\ items <> [] /\ len items <= len w.
Proof.
  intros Hsz Hne. unfold strip_annex. destruct (split_last w) as [[l rest]|] eqn:Hl; [|done].
  apply split_last_Some in Hl as ->. rewrite len_app. change (len [l]) with 1.
  destruct (Z.leb_spec 2 (len rest + 1)) as [Htwo|]; cbn [andb]; [case_bool_decide as Ha|];
    [|by rewrite len_app|by rewrite len_app].
  split_and!; [|set_solver|by destruct rest|lia].
  intros a [= <-]. split; [done|]. apply (witness_item_len _ _ Hsz). set_solver.
Qed.

Lemma verify_script_path_ok w items annex key flags : witness_ok flags w ->
  ScriptFlags.contains flags ScriptFlags.TAPROOT = true -> annex_ok annex ->
  (forall x, x ∈ items -> x ∈ w) -> (2 <= length items)%nat -> len items <= len w ->
  verify_script_path w items annex key flags <> Panic.
Proof.
  intros [Hsz Hlim] Ht Ha Hin Htwo Hle. specialize (Hlim Ht). apply ensures_true_iff. unfold verify_script_path.
  destruct items as [|c items _] using rev_ind; [cbn in Htwo; lia|]. rewrite split_last_snoc. run.
  rewrite length_app in Htwo. cbn in Htwo. destruct items as [|sc items _] using rev_ind; [cbn in Htwo; lia|].
  rewrite split_last_snoc. run. eapply ensures_bind; [apply parse_ok|]. intros control Hc.
  assert (Hscw : sc ∈ w) by (apply Hin; set_solver).
  rewrite tapleaf_hash_ok; [|apply Hc|by apply (witness_item_len w)]. run.
  destruct (commitment_ok (E:=ScriptError) control key
    (tap_leaf_hash (zb (ControlBlock.leaf_version control) :: enc_varint (len sc) ++ sc)) Hc) as [ok ->].
  run. destruct ok; [|done]. cbn [negb]. destruct (negb _); [done|].
  destruct (validation_weight_ok (E:=ScriptError) w Hsz) as (n & -> & Hn). run.
  apply ensures_true_iff, execute_witness_ok; [done| | |].
  - cbn. split_and!; [done|lia|lia|done].
  - rewrite !len_app in Hle. change (len [c]) with 1 in Hle. change (len [sc]) with 1 in Hle.
    pose proof (witness_count w Hsz). lia.
  - intros _. rewrite Forall_forall in Hlim. by apply Hlim.
Qed.

Lemma verify_taproot_ok w key flags : witness_ok flags w -> length key = 32%nat ->
  ScriptFlags.contains flags ScriptFlags.TAPROOT = true -> verify_taproot w key flags <> Panic.
Proof.
  intros Hw Hk Ht. unfold verify_taproot. rewrite Ht. run. cbv zeta.
  destruct (Z.eqb_spec (len w) 0) as [|Hne]; [done|].
  pose proof (strip_annex_ok w (proj1 Hw)) as Hp. destruct (strip_annex w) as [annex items].
  destruct Hp as (Ha & Hin & Hnil & Hle); [by intros ->|].
  destruct items as [|s [|s' items]]; [done|by apply check_schnorr_total|].
  apply verify_script_path_ok; try done. cbn. lia.
Qed.

Lemma verify_witness_program_ok w version program flags is_p2sh : witness_ok flags w ->
  2 <= len program <= 40 -> verify_witness_program w version program flags is_p2sh <> Panic.
Proof.
  intros Hw Hp. unfold verify_witness_program. pose proof (witness_count w (proj1 Hw)).
  rewrite !(proj2 (Z.leb_le _ _)) by lia. run.
  destruct (version =? 0).
  - destruct (_ =? _).
    + destruct (split_last w) as [[script items]|] eqn:Hl; [|done]. destruct (negb _); [done|].
      apply split_last_Some in Hl as ->. apply execute_witness_ok; try done.
      rewrite len_app in *. change (len [script]) with 1 in *. lia.
    + unfold p2wpkh_script. destruct (Z.eqb_spec (len program) WITNESS_V0_KEYHASH_SIZE) as [H20|]; [|done].
      destruct (negb _); [done|]. run.
      rewrite (proj2 (Z.eqb_eq _ 25)) by (rewrite !len_app, H20; done). run.
      apply execute_witness_ok; done || lia.
  - destruct (_ =? 1), is_p2sh; try done. cbn [andb negb].
    destruct (Z.eqb_spec (len program) WITNESS_V1_TAPROOT_SIZE) as [H32|]; [|done].
    destruct (ScriptFlags.contains flags ScriptFlags.TAPROOT) eqn:Ht; [|done]. cbn [negb].
    apply verify_taproot_ok; try done. unfold len, WITNESS_V1_TAPROOT_SIZE in H32. lia.
Qed.

Lemma verify_redeem_ok script_sig redeem s w flags : witness_ok flags w -> Stack.items_ok s ->
  len redeem <= 520 -> len s < 2 ^ 62 -> verify_redeem_script script_sig redeem s w flags <> Panic.
Proof.
  intros Hw Hs Hr Hl. apply ensures_true_iff. unfold verify_redeem_script.
  eapply ensures_bind; [apply eval_script_ok; done|]. intros [s' e] _.
  destruct (top_is_false_ok s') as (b & -> & _). run. destruct b; [done|]. destruct (negb _); [done|].
  destruct (witness_program_ok (E:=ScriptError) redeem) as (p & -> & Hp). run.
  destruct p as [[version program]|]; [|done]. destruct (Hp version program eq_refl) as (Hlp & _).
  destruct (push_encoding_eq (E:=ScriptError) redeem) as (op & field & -> & _); [unfold u32_max; lia|]. run.
  destruct (negb _); [done|]. eapply ensures_bind; [|by intros].
  apply ensures_true_iff. by apply verify_witness_program_ok.
Qed.

Lemma verify_script_ok script_sig script_pubkey w flags : flags_ok flags -> witness_ok flags w ->
  verify_script script_sig script_pubkey w flags <> Panic.
Proof.
  intros Hf Hw. apply ensures_true_iff. unfold verify_script.
  destruct (assert_flags flags Hf) as [-> ->]. run.
  assert (Hok1 : ensures (eval_script (mkEnv script_sig flags Base) Stack.new legacy_exec) (fun r =>
    Stack.items_ok r.1 /\ len r.1 <= Z.max MAX_STACK_SIZE (len Stack.new) /\ exec_ok Base r.2)).
  { apply (eval_script_ok (mkEnv script_sig flags Base)); [constructor|vm_compute; reflexivity|discriminate|discriminate]. }
  destruct (eval_script (mkEnv script_sig flags Base) Stack.new legacy_exec) as [[s1 e1]|e|] eqn:Hev1;
    [|done|done]. destruct Hok1 as (Hs1 & Hl1 & He1). cbn [fst snd] in *.
  change (len Stack.new) with 0 in Hl1. unfold MAX_STACK_SIZE in Hl1. run.
  eapply ensures_bind with (Q := fun r => eval_script (mkEnv script_pubkey flags Base) s1 e1 = Ok r).
  { pose proof (eval_script_ok (mkEnv script_pubkey flags Base) s1 e1) as Hok.
    destruct (eval_script _ s1 e1); [done|done|]. apply Hok; done || lia. }
  intros [s2 e2] Hev2. destruct (top_is_false_ok s2) as (b & -> & _). run. destruct b; [done|].
  eapply ensures_bind with (Q := fun p => forall version program, p = Some (version, program) -> 2 <= len program <= 40).
  { destruct (ScriptFlags.contains flags ScriptFlags.WITNESS); [|done].
    destruct (witness_program_ok (E:=ScriptError) script_pubkey) as (p & -> & Hp).
    intros version program Heq. by destruct (Hp version program Heq). }
  intros p Hp. eapply ensures_bind with (Q := fun _ => True).
  { destruct p as [[version program]|]; [|done]. destruct (negb _); [done|].
    eapply ensures_bind; [|by intros]. apply ensures_true_iff, verify_witness_program_ok; [done|].
    by apply (Hp version). }
  intros had _. eapply ensures_bind with (Q := fun _ => True); [|intros ? _; by case_match].
  destruct (ScriptFlags.contains flags ScriptFlags.P2SH); [|done]. cbn [andb].
  destruct (is_pay_to_script_hash script_pubkey) eqn:Hp2sh; [|done].
  apply eval_base_size in Hev1 as Hsize; [|done].
  destruct (is_push_only_ok script_sig ltac:(unfold u32_max; lia) (E:=ScriptError)) as [po ->]. run.
  destruct po; [|done]. cbn [negb]. unfold Stack.is_empty.
  destruct (Z.eqb_spec (len s1) 0) as [Hz|Hne].
  - assert (s1 = []) as -> by (destruct s1; [done|rewrite len_cons in Hz; pose proof (len_nonneg s1); lia]).
    exfalso. apply (p2sh_needs_item flags script_pubkey e1 (s2, e2)); try done.
    unfold exec_ok in He1. destruct (tapscript e1); [by destruct He1|done].
  - pose proof (len_nonneg s1). cbn [negb]. run.
    destruct (Stack.pop_ok (E:=ScriptError) s1) as (redeem & s3 & -> & ->); [lia|]. run.
    unfold Stack.items_ok in Hs1. apply Forall_app in Hs1 as [Hs3 Hred].
    rewrite Forall_singleton in Hred. rewrite len_app in Hl1. change (len [redeem]) with 1 in Hl1.
    unfold MAX_SCRIPT_ELEMENT_SIZE in Hred.
    apply ensures_true_iff, verify_redeem_ok; done || lia.
Qed.
End verify.

Section theorems.
Context `{HL : HashLengths} `{EL : EncodingLaws} `{SL : Secp256k1Laws}.

Lemma verify_input_total tx index prevouts pre flags input :
  get (tx_input tx) index = Some input -> len prevouts = len (tx_input tx) ->
  built_for pre tx -> counts_ok tx -> index <= u32_max ->
  flags_ok flags -> witness_ok flags (witness input) ->
  verify_input tx index prevouts pre flags <> Panic.
Proof.
  intros Hi Hlen Hb Hc Hu Hf Hw. pose proof (get_Some_range _ _ _ Hi) as Hr. unfold verify_input.
  rewrite (proj2 (Z.ltb_lt _ _)), (proj2 (Z.eqb_eq (len prevouts) _)), Hi by (done || lia). run.
  destruct (get_in_range prevouts index) as [prevout Hp]; [lia|]. rewrite Hp. run.
  unfold TxSigChecker.new.
  rewrite (proj2 (Z.ltb_lt _ _)), (proj2 (Z.eqb_eq (len prevouts) _)) by (done || lia). run.
  rewrite assert_built_for_ok by done. run.
  assert (checker_ok (TxSigChecker.mkChecker tx index prevouts pre)) by (constructor; done || lia).
  pose proof (checker_laws (TxSigChecker.mkChecker tx index prevouts pre)) as Hlaws.
  by apply (verify_script_ok (SL:=Hlaws ltac:(done))).
Qed.

End theorems.

