(* ===== verification/VerifySpends.v ===== *)
(** * VerifySpends: the standard witness spends, end to end

    The scripts of a pay-to-witness-public-key-hash output and of a taproot key-path spend
    run symbolically through [verify_script]. *)
From S2P Require Import Prelude Bitcoin Flags Params Script ScriptNum Reader Stack SigScript Interpreter SigScriptProofs InterpreterProofs InterpreterTheorems Sighash SighashProofs Checker Verify VerifyProofs VerifySafety.

Section spends.
Context `{HL : HashLengths} `{Encoding} `{Secp256k1} `{SigChecker}.
Implicit Types (flags : ScriptFlags.ScriptFlags) (m : Machine) (program : bytes).

(** The machine of an evaluation at its start. *)
Definition start (s : Stack.Stack) (e : ExecData) : Machine :=
  mkMachine s Stack.new ConditionStack.new 0 0 (mkExec CODESEPARATOR_POS_NONE (tapscript e)).

Lemma eval_base flags v script s m' : v <> Tapscript -> len script <= 10000 ->
  run_loop (mkEnv script flags v) (S (length script)) true (Reader.new script) (start s legacy_exec)
    = Ok (tt, m') ->
  op_count m' <= OP_COUNT_MAX -> conditions m' = ConditionStack.new ->
  eval_script (mkEnv script flags v) s legacy_exec = Ok (stack m', exec m').
Proof.
  intros Hv Hl Hrun Hop Hc. unfold eval_script. cbn [env_sig_version env_script tapscript legacy_exec].
  rewrite (bool_decide_eq_false_2 (v = Tapscript)) by done.
  rewrite (bool_decide_eq_false_2 (is_Some None)) by (by intros [? ?]).
  rewrite (bool_decide_eq_true_2 (v <> Tapscript)) by done. run.
  rewrite (proj2 (Z.ltb_ge MAX_SCRIPT_SIZE _)) by (unfold MAX_SCRIPT_SIZE; lia).
  change (mkMachine _ _ _ _ _ _) with (start s legacy_exec). rewrite Hrun. run.
  rewrite (proj2 (Z.leb_le _ _)) by done. run. by rewrite Hc.
Qed.

(** ** Witness programs on the stack *)

(** Any version opcode and a program: two pushes. *)
Lemma eval_empty flags : eval_script (mkEnv [] flags Base) [] legacy_exec = Ok ([], legacy_exec).
Proof. reflexivity. Qed.

Lemma run_program_tail flags v fuel b program s m ops : 2 <= len program <= 40 -> 
  stack m = s -> op_count m = 0 -> conditions m = ConditionStack.new -> altstack m = [] ->
  len s < 999 -> 0 <= ops < 100 ->
  run_loop (mkEnv (b :: zb (len program) :: program) flags v) (S (S fuel)) true
    (Reader.mkReader (b :: zb (len program) :: program) 1 ops) m =
    Ok (tt, set_stack m (s ++ [program])).
Proof.
  intros Hp Hs Ho Hc Ha Hl Hops.
  pose proof (run_push (mkEnv (b :: zb (len program) :: program) flags v) (S fuel) true [b] program [] ops m)
    as Hrun. rewrite app_nil_r in Hrun. cbn [app] in Hrun. change (len [b]) with 1 in Hrun.
  rewrite Hrun; [|unfold OP_PUSHDATA1; lia|unfold u32_max; lia|rewrite Ho; done|by rewrite Hc|
    rewrite Hs, Ha; unfold MAX_STACK_SIZE; change (len []) with 0; lia].
  rewrite Hs. replace (1 + 1 + len program) with (len (b :: zb (len program) :: program))
    by (rewrite !len_cons; lia).
  apply run_end.
Qed.

Lemma eval_v0_program flags program : 2 <= len program <= 40 ->
  eval_script (mkEnv (x00 :: zb (len program) :: program) flags Base) [] legacy_exec =
    Ok ([[]; program], legacy_exec).
Proof.
  intros Hp. set (script := x00 :: zb (len program) :: program).
  assert (Hl : len script = len program + 2) by (unfold script; rewrite !len_cons; lia).
  rewrite (eval_base flags Base script [] (set_stack (start [[]] legacy_exec) ([[]] ++ [program]))); try done; [lia|].
  change (S (length script)) with (S (S (S (length program)))).
  pose proof (run_push (mkEnv script flags Base) (S (S (length program))) true [] []
    (zb (len program) :: program) 0 (start [] legacy_exec)) as Hrun.
  change (len []) with 0 in Hrun. cbn [app] in Hrun. change (zb 0) with x00 in Hrun. fold script in Hrun.
  unfold Reader.new. rewrite Hrun by (vm_compute; try split; congruence).
  apply (run_program_tail flags Base (length program) x00 program [[]]); done.
Qed.

(** ** The implied P2PKH script *)

Definition mach (k : list bytes) (n : Z) : Machine := set_op_count (start k legacy_exec) n.

Lemma slice_from_0 {A} (l : list A) : slice_from l 0 = Some l.
Proof.
  pose proof (len_nonneg l). unfold slice_from. rewrite slice_in_range by lia.
  change (Z.to_nat 0) with O. rewrite Z.sub_0_r, drop_0, take_ge by (unfold len; lia). done.
Qed.

(** The rules of the loop, for a script split at the cursor. *)
Lemma run_plain_at env fuel counts script pre b rest position ops m : script = pre ++ b :: rest ->
  position = len pre -> Opcode.is_push (bz b) = false -> Opcode.is_disabled (bz b) = false ->
  0 <= ops < u32_max -> op_count m < MAX_OPS_PER_SCRIPT ->
  ConditionStack.all_true (conditions m) = true ->
  run_loop env (S fuel) counts (Reader.mkReader script position ops) m =
    continue (limit_stack (execute env (mkOp (bz b) [] (position + 1)) true ops (bump counts (bz b) m)))
      (run_loop env fuel counts (Reader.mkReader script (position + 1) (ops + 1))).
Proof. intros -> ->. apply run_plain. Qed.

Lemma run_push_at env fuel counts script pre data rest position ops m :
  script = pre ++ zb (len data) :: data ++ rest -> position = len pre ->
  len data < OP_PUSHDATA1 -> 0 <= ops < u32_max -> op_count m < MAX_OPS_PER_SCRIPT ->
  ConditionStack.all_true (conditions m) = true ->
  len (stack m) + len (altstack m) < MAX_STACK_SIZE ->
  run_loop env (S fuel) counts (Reader.mkReader script position ops) m =
    run_loop env fuel counts (Reader.mkReader script (position + 1 + len data) (ops + 1))
      (set_stack m (stack m ++ [data])).
Proof. intros -> ->. apply run_push. Qed.

Ltac sides := first [ reflexivity | vm_compute; congruence | vm_compute; split; congruence ].

Section p2pkh.
Variables (flags : ScriptFlags.ScriptFlags) (program sig key : bytes).
Hypotheses (Hp : len program = 20) (Hsig : len sig <= 520) (Hkey : len key <= 520).

Definition p2pkh : bytes := [x76; xa9; x14] ++ program ++ [x88; xac].
Notation env := (mkEnv p2pkh flags WitnessV0).

Lemma exec_dup i j n : execute env (mkOp 0x76 [] i) true j (mach [sig; key] n) = Ok (tt, mach [sig; key; key] n).
Proof.
  change (mach [sig; key] n) with (set_stack (mach [] n) ([sig] ++ [key])).
  unfold execute. dispatch. unfold stack_op_singles. dispatch.
  erewrite bind_eq by (apply require_on; vm_compute; congruence).
  erewrite bind_eq by (apply top_on; [vm_compute; split; congruence|reflexivity]).
  by rewrite push_on.
Qed.

Lemma exec_hash160 i j n :
  execute env (mkOp 0xa9 [] i) true j (mach [sig; key; key] n) = Ok (tt, mach [sig; key; hash160 key] n).
Proof.
  change (mach [sig; key; key] n) with (set_stack (mach [] n) ([sig; key] ++ [] ++ [key])).
  unfold execute. dispatch. unfold hash.
  erewrite bind_eq by (apply require_on; vm_compute; congruence).
  erewrite bind_eq by apply pop_last. cbv beta.
  change (if 0xa9 =? OP_RIPEMD160 then _ else _) with (Ok (E:=ScriptError) (hash160 key)).
  erewrite bind_eq by done.
  assert (Hh : len (hash160 key) = 20) by (unfold len; by rewrite length_hash160).
  erewrite bind_eq by (unfold from; rewrite Hh; done).
  by rewrite push_on by lia.
Qed.

Lemma exec_equalverify i j n h :
  execute env (mkOp 0x88 [] i) true j (mach [sig; key; h; program] n) =
    if bool_decide (h = program) then Ok (tt, mach [sig; key] n) else Err ScriptError.Equalverify.
Proof.
  change (mach [sig; key; h; program] n) with (set_stack (mach [] n) ([sig; key] ++ [h] ++ [program])).
  unfold execute. dispatch. unfold equal.
  erewrite bind_eq by (apply require_on; vm_compute; congruence).
  erewrite bind_eq by apply pop_last. cbv beta.
  erewrite bind_eq by (apply (pop_last (mach [] n) [sig; key] [] h)). cbv beta zeta. unfold push_bool.
  erewrite bind_eq by (erewrite bind_eq by done; erewrite bind_eq by
    (unfold from, Stack.push_bool; rewrite Stack.push_eq; [done|by case_bool_decide]); done).
  change (0x88 =? OP_EQUALVERIFY) with true. cbv iota. case_bool_decide; [|done]. reflexivity.
Qed.

Lemma exec_checksig i j n :
  execute env (mkOp 0xac [] i) true j (mach [sig; key] n) =
    match check_signature_encoding sig flags with
    | Ok _ => match check_ecdsa sig key p2pkh WitnessV0 with
              | Ok b => Ok (tt, mach [if b then [x01] else []] n)
              | Err e => Err e | Panic => Panic end
    | Err e => Err e | Panic => Panic
    end.
Proof.
  change (mach [sig; key] n) with (set_stack (mach [] n) ([] ++ [sig] ++ [key])).
  unfold execute. dispatch. unfold checksig.
  erewrite bind_eq by (apply require_on; vm_compute; congruence).
  erewrite bind_eq by apply pop_last. cbv beta.
  erewrite bind_eq by (apply (pop_last (mach [] n) [] [] sig)). cbv beta.
  unfold eval_checksig, eval_checksig_pre_tapscript. cbn [env_sig_version].
  assert (Hcode : from (script_code env (set_stack (mach [] n) ([] ++ []))) (set_stack (mach [] n) ([] ++ [])) =
    Ok (p2pkh, set_stack (mach [] n) ([] ++ []))).
  { unfold script_code. cbn [set_stack mach start codesep_start env_script set_op_count].
    rewrite (proj2 (Z.leb_le 0 _)) by apply len_nonneg. run. by rewrite slice_from_0. }
  unfold mbind at 1, M_bind at 1. erewrite bind_eq by exact Hcode. cbv beta.
  rewrite bool_decide_eq_false_2 by done. erewrite bind_eq by done. unfold mbind, M_bind, from.
  cbn [env_flags]. destruct (check_signature_encoding sig flags) as [u|e|]; [|done|done].
  destruct (check_ecdsa sig key p2pkh WitnessV0) as [b|e|]; [|done|done].
  by destruct b.
Qed.

(** The whole run. *)
Lemma run_p2pkh :
  run_loop env (S (length p2pkh)) true (Reader.new p2pkh) (start [sig; key] legacy_exec) =
    if bool_decide (hash160 key = program) then
      match check_signature_encoding sig flags with
      | Ok _ => match check_ecdsa sig key p2pkh WitnessV0 with
                | Ok b => Ok (tt, mach [if b then [x01] else []] 4)
                | Err e => Err e | Panic => Panic end
      | Err e => Err e | Panic => Panic
      end
    else Err ScriptError.Equalverify.
Proof.
  assert (Hlen : length p2pkh = 25%nat) by (unfold p2pkh; rewrite !length_app; unfold len in Hp; cbn; lia).
  assert (Hl : len p2pkh = 25) by (unfold len; lia).
  rewrite Hlen. unfold Reader.new.
  rewrite (run_plain_at env 25 true p2pkh [] x76 (xa9 :: x14 :: program ++ [x88; xac])) by sides.
  change (bump true (bz x76) _) with (mach [sig; key] 1). rewrite exec_dup. cbn [limit_stack continue].
  change (MAX_STACK_SIZE <? _) with false. cbv iota. cbn [continue].
  rewrite (run_plain_at env 24 true p2pkh [x76] xa9 (x14 :: program ++ [x88; xac])) by sides.
  change (bump true (bz xa9) _) with (mach [sig; key; key] 2). rewrite exec_hash160. cbn [limit_stack continue].
  change (MAX_STACK_SIZE <? _) with false. cbv iota. cbn [continue].
  rewrite (run_push_at env 23 true p2pkh [x76; xa9] program [x88; xac]) by (sides || rewrite Hp; done).
  change (set_stack _ _) with (mach [sig; key; hash160 key; program] 2). rewrite Hp.
  rewrite (run_plain_at env 22 true p2pkh ([x76; xa9; x14] ++ program) x88 [xac])
    by (sides || rewrite len_app, Hp; done).
  change (bump true (bz x88) _) with (mach [sig; key; hash160 key; program] 3). rewrite exec_equalverify.
  case_bool_decide; [|done]. cbn [limit_stack continue]. change (MAX_STACK_SIZE <? _) with false. cbv iota. cbn [continue].
  rewrite (run_plain_at env 21 true p2pkh ([x76; xa9; x14] ++ program ++ [x88]) xac [])
    by (sides || (unfold p2pkh; by rewrite <-!app_assoc) || rewrite !len_app, Hp; done).
  change (bump true (bz xac) _) with (mach [sig; key] 4). rewrite exec_checksig.
  destruct (check_signature_encoding sig flags) as [u|e|]; [|done|done].
  destruct (check_ecdsa sig key p2pkh WitnessV0) as [b|e|]; [|done|done].
  cbn [limit_stack continue]. change (MAX_STACK_SIZE <? _) with false. cbv iota. cbn [continue].
  change (0 + 1 + 1 + 1 + 20 + 1 + 1) with 25. rewrite <-Hl. apply run_end.
Qed.
End p2pkh.

Lemma eval_p2pkh flags program sig key : len program = 20 -> len sig <= 520 -> len key <= 520 ->
  eval_script (mkEnv (p2pkh program) flags WitnessV0) [sig; key] legacy_exec =
    if bool_decide (hash160 key = program) then
      _ ← check_signature_encoding sig flags;
      b ← check_ecdsa sig key (p2pkh program) WitnessV0;
      Ok ([if (b : bool) then [x01] else []], legacy_exec)
    else Err ScriptError.Equalverify.
Proof.
  intros Hp Hs Hk. pose proof (run_p2pkh flags program sig key Hp Hk) as Hrun.
  unfold eval_script. cbn [env_sig_version env_script]. change (Bool.eqb _ _) with true.
  change (bool_decide (WitnessV0 <> Tapscript)) with true. run.
  rewrite (proj2 (Z.ltb_ge MAX_SCRIPT_SIZE _))
    by (unfold p2pkh; rewrite !len_app, Hp; vm_compute; congruence).
  change (mkMachine _ _ _ _ _ _) with (start [sig; key] legacy_exec). rewrite Hrun.
  case_bool_decide; [|done]. destruct (check_signature_encoding sig flags); [|done|done].
  by destruct (check_ecdsa sig key (p2pkh program) WitnessV0).
Qed.

Lemma p2wpkh_script_eq {E} program : len program = 20 -> p2wpkh_script (E:=E) program = Ok (p2pkh program).
Proof.
  intros Hp. unfold p2wpkh_script, WITNESS_V0_KEYHASH_SIZE. rewrite Hp. run.
  rewrite !len_app, Hp. done.
Qed.

Lemma execute_p2pkh flags program sig key : len program = 20 -> len sig <= 520 -> len key <= 520 ->
  execute_witness_script [sig; key] (p2pkh program) flags WitnessV0 legacy_exec =
    if bool_decide (hash160 key = program) then
      _ ← check_signature_encoding sig flags;
      b ← check_ecdsa sig key (p2pkh program) WitnessV0;
      if (b : bool) then Ok tt else Err ScriptError.EvalFalse
    else Err ScriptError.Equalverify.
Proof.
  intros Hp Hs Hk. unfold execute_witness_script.
  change (bool_decide (WitnessV0 <> Base)) with true. change (bool_decide (WitnessV0 = Tapscript)) with false. run.
  cbn [foldM]. unfold MAX_SCRIPT_ELEMENT_SIZE.
  rewrite !(proj2 (Z.ltb_ge 520 _)) by done. run.
  unfold Stack.from_items, MAX_SCRIPT_ELEMENT_SIZE. cbn [foldM]. rewrite !(proj2 (Z.leb_le _ 520)) by done. run.
  rewrite eval_p2pkh by done. case_bool_decide; [|done].
  destruct (check_signature_encoding sig flags); [|done|done]. run.
  destruct (check_ecdsa sig key (p2pkh program) WitnessV0) as [[]| |]; done.
Qed.

Lemma witness_program_v0 {E} program : len program = 20 ->
  witness_program (E:=E) (x00 :: x14 :: program) = Ok (Some (0, program)).
Proof.
  intros Hp. unfold witness_program. rewrite !len_cons, Hp.
  change ((20 + 1 + 1 <? _) || _) with false. cbv iota. change (bz x00 =? OP_0) with true. cbv zeta iota.
  change (bz x14) with 20. change (20 + 2 =? 20 + 1 + 1) with true. run. done.
Qed.

Lemma witness_program_v1 {E} key : len key = 32 ->
  witness_program (E:=E) (x51 :: x20 :: key) = Ok (Some (1, key)).
Proof.
  intros Hp. unfold witness_program. rewrite !len_cons, Hp.
  change ((32 + 1 + 1 <? _) || _) with false. cbv iota. change (bz x51 =? OP_0) with false.
  change ((OP_1 <=? bz x51) && (bz x51 <=? OP_16)) with true. cbv zeta iota.
  change (bz x20) with 32. change (32 + 2 =? 32 + 1 + 1) with true. run. done.
Qed.

Lemma eval_v1_program flags key : len key = 32 ->
  eval_script (mkEnv (x51 :: x20 :: key) flags Base) [] legacy_exec = Ok ([[x01]; key], legacy_exec).
Proof.
  intros Hp. set (script := x51 :: x20 :: key).
  assert (Hl : len script = 34) by (unfold script; rewrite !len_cons; lia).
  rewrite (eval_base flags Base script [] (set_stack (mach [[x01]] 0) ([[x01]] ++ [key]))); try done; [lia|].
  change (S (length script)) with (S (S (S (length key)))). unfold Reader.new.
  rewrite (run_plain_at _ _ true script [] x51 (x20 :: key)) by sides.
  change (bump true (bz x51) _) with (mach [] 0).
  assert (Hone : forall env i, execute env (mkOp (bz x51) [] i) true 0 (mach [] 0) = Ok (tt, mach [[x01]] 0))
    by (intros env i; unfold execute; dispatch; reflexivity).
  rewrite Hone. cbn [limit_stack continue]. change (MAX_STACK_SIZE <? _) with false. cbv iota. cbn [continue].
  assert (Hz : x20 = zb (len key)) by (by rewrite Hp). unfold script. rewrite Hz.
  apply (run_program_tail flags Base (length key) x51 key [[x01]]); done || lia.
Qed.

(** Spending a pay-to-witness-public-key-hash output. With WITNESS active and an empty
    scriptSig, the witness [signature; key] verifies exactly when the program is the HASH160
    of the key, the signature passes the encoding rules in force and signs the input under
    the implied P2PKH script with the BIP143 digest; each failure has its own error, and a
    program that reads as false (all zero) can never be spent. *)
Theorem p2wpkh_spend flags program sig key : flags_ok flags ->
  ScriptFlags.contains flags ScriptFlags.WITNESS = true ->
  len program = 20 -> len sig <= 520 -> len key <= 520 ->
  verify_script [] (x00 :: x14 :: program) [sig; key] flags =
    if negb (cast_to_bool program) then Err ScriptError.EvalFalse
    else if bool_decide (hash160 key = program) then
      _ ← check_signature_encoding sig flags;
      b ← check_ecdsa sig key (p2pkh program) WitnessV0;
      if (b : bool) then Ok tt else Err ScriptError.EvalFalse
    else Err ScriptError.Equalverify.
Proof.
  intros Hf Hw Hp Hs Hk. unfold verify_script. destruct (assert_flags flags Hf) as [-> ->]. run.
  rewrite eval_empty. run. assert (Hz : x14 = zb (len program)) by (by rewrite Hp).
  rewrite Hz at 1. rewrite eval_v0_program by lia. run.
  change (top_is_false [[]; program]) with (Ok (E:=ScriptError) (negb (cast_to_bool program))). run.
  destruct (cast_to_bool program); [|done]. cbn [negb]. rewrite Hw, (proj1 Hf Hw). cbn [andb].
  rewrite witness_program_v0 by done. run. unfold verify_witness_program, WITNESS_V0_KEYHASH_SIZE.
  rewrite Hp. change (20 =? WITNESS_V0_SCRIPTHASH_SIZE) with false. run.
  rewrite p2wpkh_script_eq by done. run. change (negb (len [sig; key] =? 2)) with false. cbv iota.
  rewrite execute_p2pkh by done. change (is_pay_to_script_hash _) with false.
  case_bool_decide; [|done]. destruct (check_signature_encoding sig flags); [|done|done]. run.
  by destruct (check_ecdsa sig key (p2pkh program) WitnessV0) as [[]| |].
Qed.

(** A taproot key-path spend. A version-1 output of 32 bytes, spent with an empty
    scriptSig and one witness item, optionally followed by an annex, verifies exactly when
    the item is a Schnorr signature by the output key over the BIP341 digest with that annex;
    where TAPROOT is not yet active it is anyone-can-spend. *)
Theorem taproot_key_path_spend flags key sig annex : flags_ok flags ->
  ScriptFlags.contains flags ScriptFlags.WITNESS = true -> len key = 32 ->
  cast_to_bool key = true -> (forall a, annex = Some a -> head a = Some ANNEX_TAG) ->
  verify_script [] (x51 :: x20 :: key) (sig :: option_list annex) flags =
    if ScriptFlags.contains flags ScriptFlags.TAPROOT
    then check_schnorr sig key KeyPath annex else Ok tt.
Proof.
  intros Hf Hw Hk Hb Ha. unfold verify_script. destruct (assert_flags flags Hf) as [-> ->]. run.
  rewrite eval_empty. run. rewrite eval_v1_program by done. run.
  change (top_is_false [[x01]; key]) with (Ok (E:=ScriptError) (negb (cast_to_bool key))). rewrite Hb. run.
  rewrite Hw, (proj1 Hf Hw). cbn [andb]. rewrite witness_program_v1 by done. run.
  unfold verify_witness_program. rewrite Hk. change (1 =? 0) with false. run. cbn [andb].
  change (is_pay_to_script_hash _) with false.
  destruct (ScriptFlags.contains flags ScriptFlags.TAPROOT) eqn:Ht; [|done]. cbn [negb].
  unfold verify_taproot. rewrite Ht. run.
  assert (Hstrip : strip_annex (sig :: option_list annex) = (annex, [sig])).
  { destruct annex as [a|]; [|done].
    change (strip_annex _) with (if bool_decide (head a = Some ANNEX_TAG) then (Some a, [sig]) else (None, [sig; a])).
    by rewrite bool_decide_eq_true_2 by (by apply Ha). }
  rewrite Hstrip, (proj2 (Z.eqb_neq _ 0)) by (rewrite len_cons; pose proof (len_nonneg (option_list annex)); lia).
  by destruct (check_schnorr sig key KeyPath annex) as [[]| |].
Qed.
End spends.

Lemma p2wpkh_spend_witness :
  let key := replicate 33 x02 in
  @verify_script prefix_hashes simple_encoding toy_secp echo_checker []
    (x00 :: x14 :: pad 20 key) [key; key] ScriptFlags.WITNESS = Panic /\
  @verify_script prefix_hashes simple_encoding toy_secp echo_checker []
    (x00 :: x14 :: pad 20 key) [key; key] (ScriptFlags.union ScriptFlags.P2SH ScriptFlags.WITNESS) = Ok tt.
Proof.
  split; [vm_compute; reflexivity|].
  rewrite (@p2wpkh_spend prefix_hashes prefix_hash_lengths simple_encoding toy_secp echo_checker).
  - vm_compute. reflexivity.
  - split; intros Hx; vm_compute in Hx |- *; congruence.
  - vm_compute. reflexivity.
  - vm_compute. reflexivity.
  - vm_compute. congruence.
  - vm_compute. congruence.
Defined.

Lemma taproot_key_path_spend_witness :
  let key := replicate 32 x03 in
  @verify_script prefix_hashes simple_encoding toy_secp echo_checker []
    (x51 :: x20 :: key) [key; [x50; x00]] ScriptFlags.MANDATORY = Ok tt.
Proof.
  cbv zeta. change [replicate 32 x03; [x50; x00]] with (replicate 32 x03 :: option_list (Some [x50; x00])).
  rewrite (@taproot_key_path_spend prefix_hashes simple_encoding toy_secp).
  - vm_compute. reflexivity.
  - split; intros Hx; vm_compute in Hx |- *; congruence.
  - vm_compute. reflexivity.
  - vm_compute. reflexivity.
  - vm_compute. reflexivity.
  - intros a [= <-]. reflexivity.
Defined.
