(* ===== verification/Sigops.v ===== *)
(** * Sigops: the static signature-operation counts ([consensus/src/script/sigops.rs]) *)
From S2P Require Import Prelude Bitcoin Flags Script ScriptNum Reader SigScript Interpreter SigScriptProofs Sighash SighashProofs Checker Verify VerifySafety.

Inductive SigOpMode := Inaccurate | Accurate.

#[global] Instance SigOpMode_eq_dec : EqDecision SigOpMode.
Proof. solve_decision. Defined.

Section counts.
Context {E : Type}.

(** [for _ in 0..=script.len()], left early by [break]. *)
Fixpoint sigop_loop (iterations : nat) (mode : SigOpMode) (reader : Reader.Reader)
    (previous count : Z) : outcome E Z :=
  match iterations with
  | O => Ok count
  | S iterations =>
      '(read, reader) ← Reader.next_op reader;
      match read with
      | None => Ok count
      | Some (inr _) => Ok count
      | Some (inl op) =>
          let opcode := op_opcode op in
          count ←
            (if (opcode =? OP_CHECKSIG) || (opcode =? OP_CHECKSIGVERIFY) then u32 (count + 1)
             else if (opcode =? OP_CHECKMULTISIG) || (opcode =? OP_CHECKMULTISIGVERIFY) then
               keys_max ← expect (try_from u32_max MAX_PUBKEYS_PER_MULTISIG);
               let is_small_integer := (OP_1 <=? previous) && (previous <=? OP_16) in
               if bool_decide (mode = Accurate) && is_small_integer then
                 n ← Opcode.small_integer previous;
                 keys ← expect (try_from u32_max n);
                 assert_ (1 <=? keys);;
                 assert_ (keys <=? keys_max);;
                 u32 (count + keys)
               else u32 (count + keys_max)
             else Ok count);
          sigop_loop iterations mode reader opcode count
      end
  end.

Definition sigop_count (script : bytes) (mode : SigOpMode) : outcome E Z :=
  count ← sigop_loop (S (length script)) mode (Reader.new script) OP_INVALIDOPCODE 0;
  assert_ (count <=? 20 * len script);;
  Ok count.

(** [for _ in 0..=script_sig.len()], left early by [break] or [return None]. *)
Fixpoint last_push_loop (iterations : nat) (reader : Reader.Reader) (last : bytes)
    : outcome E (option bytes) :=
  match iterations with
  | O => Ok (Some last)
  | S iterations =>
      '(read, reader) ← Reader.next_op reader;
      match read with
      | None => Ok (Some last)
      | Some (inr _) => Ok None
      | Some (inl op) =>
          if OP_16 <? op_opcode op then Ok None else last_push_loop iterations reader (op_push op)
      end
  end.

Definition last_push (script_sig : bytes) : outcome E (option bytes) :=
  last_push_loop (S (length script_sig)) (Reader.new script_sig) [].

Definition p2sh_sigop_count (script_pubkey script_sig : bytes) : outcome E Z :=
  if negb (is_pay_to_script_hash script_pubkey) then Ok 0
  else
    l ← last_push script_sig;
    match l with
    | Some redeem_script => sigop_count redeem_script Accurate
    | None => Ok 0
    end.

Definition witness_program_sigop_count (version : Z) (program : bytes) (witness : list bytes)
    : outcome E Z :=
  assert_ (2 <=? len program);;
  assert_ (len program <=? 40);;
  if negb (version =? 0) then Ok 0
  else if len program =? WITNESS_V0_KEYHASH_SIZE then Ok 1
  else if len program =? WITNESS_V0_SCRIPTHASH_SIZE then
    match last witness with
    | Some witness_script => sigop_count witness_script Accurate
    | None => Ok 0
    end
  else Ok 0.

Definition witness_sigop_count (script_sig script_pubkey : bytes) (witness : list bytes)
    (flags : ScriptFlags.ScriptFlags) : outcome E Z :=
  if negb (ScriptFlags.contains flags ScriptFlags.WITNESS) then Ok 0
  else
    assert_ (ScriptFlags.contains flags ScriptFlags.P2SH);;
    p ← witness_program script_pubkey;
    match p with
    | Some (version, program) => witness_program_sigop_count version program witness
    | None =>
        if is_pay_to_script_hash script_pubkey then
          l ← last_push script_sig;
          match l with
          | None => Ok 0
          | Some redeem_script =>
              p ← witness_program redeem_script;
              match p with
              | Some (version, program) => witness_program_sigop_count version program witness
              | None => Ok 0
              end
          end
        else Ok 0
    end.
End counts.

(** ** The reference count *)

(** The opcodes of a script, up to the first push that runs past its end. *)
Inductive opcodes : bytes -> list Z -> Prop :=
| opcodes_end : opcodes [] []
| opcodes_op o op l os : read_op (E:=Empty_set) (op ++ l) 0 = Ok (ReadOp o (len op)) ->
    opcodes l os -> opcodes (op ++ l) (o :: os)
| opcodes_truncated k l : read_op (E:=Empty_set) l 0 = Ok (Truncated k) -> opcodes l [].

(** What one opcode costs, given the one before it. *)
Definition opcode_sigops (mode : SigOpMode) (previous opcode : Z) : Z :=
  if (opcode =? OP_CHECKSIG) || (opcode =? OP_CHECKSIGVERIFY) then 1
  else if (opcode =? OP_CHECKMULTISIG) || (opcode =? OP_CHECKMULTISIGVERIFY) then
    if bool_decide (mode = Accurate) && ((OP_1 <=? previous) && (previous <=? OP_16))
    then previous - OP_1 + 1 else 20
  else 0.

Fixpoint total_sigops (mode : SigOpMode) (previous : Z) (os : list Z) : Z :=
  match os with
  | [] => 0
  | o :: os => opcode_sigops mode previous o + total_sigops mode o os
  end.

Lemma opcodes_total l : exists os, opcodes l os.
Proof.
  induction l as [l IH] using (induction_ltof1 _ (@length byte)). unfold ltof in IH.
  destruct l as [|b l]; [eexists; constructor|].
  destruct (read_op_ok (E:=Empty_set) (b :: l) 0) as (o & Ho & Hspec).
  { rewrite len_cons. pose proof (len_nonneg l). lia. }
  destruct o as [o k|k]; [|eexists; by eapply opcodes_truncated].
  destruct Hspec as (_ & Hk & _).
  destruct (IH (drop (Z.to_nat k) (b :: l))) as (os & Hs); [rewrite length_drop; unfold len in Hk; lia|].
  exists (o :: os). rewrite <-(take_drop (Z.to_nat k) (b :: l)).
  apply opcodes_op; [|done]. rewrite take_drop, Ho. do 2 f_equal.
  unfold len in *. rewrite length_take. lia.
Qed.

Lemma opcode_sigops_range mode previous o : 0 <= opcode_sigops mode previous o <= 20.
Proof.
  unfold opcode_sigops. repeat case_match; try lia.
  match goal with H : _ && _ = true |- _ => revert H end.
  change OP_1 with 0x51. change OP_16 with 0x60. intros Hb. lia.
Qed.

Lemma total_sigops_range mode previous os : 0 <= total_sigops mode previous os <= 20 * len os.
Proof.
  revert previous; induction os as [|o os IH]; intros previous; cbn [total_sigops]; [done|].
  rewrite len_cons. pose proof (opcode_sigops_range mode previous o). specialize (IH o). lia.
Qed.

Lemma accurate_le previous os :
  total_sigops Accurate previous os <= total_sigops Inaccurate previous os.
Proof.
  revert previous; induction os as [|o os IH]; intros previous; cbn [total_sigops]; [done|].
  enough (opcode_sigops Accurate previous o <= opcode_sigops Inaccurate previous o) by (specialize (IH o); lia).
  pose proof (opcode_sigops_range Accurate previous o). unfold opcode_sigops in *. repeat case_match; try lia.
  by destruct (bool_decide_reflect (Inaccurate = Accurate)).
Qed.

Lemma opcodes_len l os : opcodes l os -> len os <= len l.
Proof.
  induction 1 as [|o op l os Ho Hos IH|k l Ho]; [done| |apply len_nonneg].
  rewrite len_cons, len_app.
  destruct (read_op_ok (E:=Empty_set) (op ++ l) 0) as (r & Hr & Hk);
    [pose proof (read_op_nonempty _ _ Ho); lia|].
  rewrite Ho in Hr. injection Hr as <-. destruct Hk as (_ & Hk & _). lia.
Qed.

(** ** The loops read the opcodes *)

Lemma next_op_at {E} pre l o k ops : read_op (E:=Empty_set) l 0 = Ok (ReadOp o k) ->
  0 <= ops <= len pre -> len (pre ++ l) <= u32_max ->
  exists push, Reader.next_op (E:=E) (Reader.mkReader (pre ++ l) (len pre) ops) =
    Ok (Some (inl (mkOp o push (len pre + k))), Reader.mkReader (pre ++ l) (len pre + k) (ops + 1)).
Proof.
  intros Ho Hops Hu. pose proof (read_op_nonempty _ _ Ho) as Hl. pose proof (len_nonneg pre).
  unfold Reader.next_op. cbn [Reader.script Reader.position Reader.ops_read].
  rewrite len_app in Hu. rewrite (proj2 (Z.leb_gt _ _)) by (rewrite len_app; lia).
  rewrite (read_op_at pre l _ Ho Hl). run. cbn [shift_read].
  destruct (read_op_ok (E:=E) (pre ++ l) (len pre)) as (r & Hr & Hspec); [rewrite len_app; lia|].
  rewrite (read_op_at pre l _ Ho Hl) in Hr. injection Hr as <-. destruct Hspec as (_ & Hk & Hb & Hp).
  rewrite len_app in Hk |- *.
  rewrite (proj2 (Z.ltb_lt _ _)), (proj2 (Z.leb_le _ _)) by lia. run. rewrite u32_ok by lia. run.
  destruct (Opcode.is_push o); [|run; eauto].
  destruct (push_data_ok (E:=E) (pre ++ l) (len pre) (len pre + k) o) as (d & Hd & _);
    [lia|done|specialize (Hp eq_refl); rewrite len_app; lia|].
  cbn [Reader.script]. rewrite Hd. run. eauto.
Qed.

Lemma next_op_truncated {E} pre l k ops : read_op (E:=Empty_set) l 0 = Ok (Truncated k) ->
  Reader.next_op (E:=E) (Reader.mkReader (pre ++ l) (len pre) ops) =
    Ok (Some (inr ScriptError.BadOpcode), Reader.mkReader (pre ++ l) (len pre + k) ops).
Proof.
  intros Ho. pose proof (read_op_nonempty _ _ Ho) as Hl.
  unfold Reader.next_op. cbn [Reader.script Reader.position Reader.ops_read].
  rewrite (proj2 (Z.leb_gt _ _)) by (rewrite len_app; lia).
  by rewrite (read_op_at pre l _ Ho Hl).
Qed.

Lemma sigop_loop_ok {E} mode l os : opcodes l os -> forall n pre ops previous count,
  (length l < n)%nat -> 0 <= ops <= len pre -> len (pre ++ l) <= u32_max ->
  0 <= count -> count + 20 * len os <= u32_max ->
  sigop_loop (E:=E) n mode (Reader.mkReader (pre ++ l) (len pre) ops) previous count =
    Ok (count + total_sigops mode previous os).
Proof.
  induction 1 as [|o op l os Ho Hos IH|k l Ho]; intros n pre ops previous count Hn Hops Hu Hc Hmax;
    (destruct n as [|n]; [lia|]); cbn [sigop_loop total_sigops].
  - unfold Reader.next_op. cbn [Reader.script Reader.position]. rewrite app_nil_r, Z.leb_refl, Z.eqb_refl.
    run. f_equal. lia.
  - destruct (next_op_at (E:=E) pre (op ++ l) o (len op) ops Ho Hops Hu) as [push ->]. run. cbn [op_opcode].
    rewrite len_cons in Hmax. pose proof (len_nonneg os).
    pose proof (opcode_sigops_range mode previous o) as Hr.
    match goal with |- (?x ≫= _) = _ =>
      assert (x = Ok (count + opcode_sigops mode previous o)) as -> end.
    { unfold opcode_sigops, MAX_PUBKEYS_PER_MULTISIG in *.
      destruct (_ || _); [by rewrite u32_ok by lia|]. destruct (_ || _); [|run; f_equal; lia].
      rewrite try_from_ok by done. run. destruct (_ && (_ && _)) eqn:Hb; [|by rewrite u32_ok by lia].
      apply andb_true_iff in Hb as [_ Hb]. revert Hb Hr. change OP_1 with 0x51. change OP_16 with 0x60. intros Hb Hr.
      destruct (Opcode.small_integer_ok (E:=E) previous) as [-> _]; [right; unfold OP_1, OP_16; lia|]. run.
      rewrite try_from_ok by (unfold u32_max; lia). run.
      rewrite !(proj2 (Z.leb_le _ _)) by lia. run. rewrite u32_ok by lia. f_equal. lia. }
    run. rewrite app_assoc, <-len_app.
    destruct (read_op_ok (E:=Empty_set) (op ++ l) 0) as (r & Hrd & Hk);
      [pose proof (read_op_nonempty _ _ Ho); lia|].
    rewrite Ho in Hrd. injection Hrd as <-. destruct Hk as (_ & Hk & _).
    rewrite IH; [f_equal; lia| | | |lia|lia].
    + rewrite length_app in Hn. unfold len in Hk. lia.
    + rewrite len_app. lia.
    + by rewrite <-app_assoc.
  - rewrite (next_op_truncated pre l k ops Ho). run. f_equal. lia.
Qed.

Lemma sigop_count_eq {E} script mode os : opcodes script os -> 20 * len script <= u32_max ->
  sigop_count (E:=E) script mode = Ok (total_sigops mode OP_INVALIDOPCODE os).
Proof.
  intros Hos Hl. pose proof (opcodes_len _ _ Hos). unfold sigop_count, Reader.new.
  pose proof (sigop_loop_ok (E:=E) mode script os Hos (S (length script)) [] 0 OP_INVALIDOPCODE 0) as Hloop.
  cbn [app] in Hloop. change (len []) with 0 in Hloop. pose proof (len_nonneg script).
  rewrite Hloop by lia. run.
  pose proof (total_sigops_range mode OP_INVALIDOPCODE os).
  rewrite (proj2 (Z.leb_le _ _)) by lia. run. f_equal.
Qed.

Lemma last_push_loop_ok {E} l os : opcodes l os -> forall n pre ops last,
  (length l < n)%nat -> 0 <= ops <= len pre -> len (pre ++ l) <= u32_max ->
  exists r, last_push_loop (E:=E) n (Reader.mkReader (pre ++ l) (len pre) ops) last = Ok r /\
    forall x, r = Some x -> len x <= Z.max (len last) (len (pre ++ l)).
Proof.
  induction 1 as [|o op l os Ho Hos IH|k l Ho]; intros n pre ops last Hn Hops Hu;
    (destruct n as [|n]; [lia|]); cbn [last_push_loop].
  - unfold Reader.next_op. cbn [Reader.script Reader.position]. rewrite app_nil_r, Z.leb_refl, Z.eqb_refl.
    run. eexists. split; [done|]. intros x [= <-]. lia.
  - pose proof (next_op_ok (E:=E) (Reader.mkReader (pre ++ op ++ l) (len pre) ops)) as Hok.
    destruct (next_op_at (E:=E) pre (op ++ l) o (len op) ops Ho Hops Hu) as [push Hnext].
    rewrite Hnext in Hok |- *. run. cbn [op_opcode op_push].
    destruct Hok as (r & r' & [= <- <-] & _ & _ & Hspec); [|done|].
    { split; cbn; [lia|]. rewrite len_app. pose proof (len_nonneg (op ++ l)). lia. }
    destruct Hspec as (_ & _ & _ & _ & _ & Hpush). cbn [op_opcode op_push op_end Reader.script Reader.position] in Hpush.
    assert (Hlp : len push <= len (pre ++ op ++ l)).
    { destruct (Opcode.is_push o); [|rewrite Hpush; apply len_nonneg].
      apply slice_Some in Hpush as Hsl. apply len_slice in Hpush. pose proof (len_nonneg pre).
      destruct (size_field_len_cases o) as [Hs|[Hs|[Hs|Hs]]]; lia. }
    destruct (OP_16 <? o); [eexists; split; [done|discriminate]|].
    destruct (read_op_ok (E:=Empty_set) (op ++ l) 0) as (r & Hrd & Hk);
      [pose proof (read_op_nonempty _ _ Ho); lia|].
    rewrite Ho in Hrd. injection Hrd as <-. destruct Hk as (_ & Hk & _).
    rewrite app_assoc, <-len_app in *. destruct (IH n (pre ++ op) (ops + 1) push) as (r & -> & Hr).
    + rewrite length_app in Hn. unfold len in Hk. lia.
    + rewrite len_app. lia.
    + done.
    + eexists. split; [done|]. intros x Hx. specialize (Hr x Hx). lia.
  - rewrite (next_op_truncated pre l k ops Ho). run. eexists. split; [done|discriminate].
Qed.

Lemma last_push_ok {E} script : len script <= u32_max ->
  exists r, last_push (E:=E) script = Ok r /\ forall x, r = Some x -> len x <= len script.
Proof.
  intros Hl. destruct (opcodes_total script) as [os Hos].
  destruct (last_push_loop_ok (E:=E) script os Hos (S (length script)) [] 0 []) as (r & Hr & Hx); [lia|done|done|].
  exists r. split; [exact Hr|]. intros x Heq. specialize (Hx x Heq). cbn [app] in Hx.
  change (len []) with 0 in Hx. pose proof (len_nonneg script). lia.
Qed.

(** ** Properties *)

(** [sigop_count] is the static count over the opcodes of the script (up to the first
    push that runs past its end): one per CHECKSIG, and for a CHECKMULTISIG twenty, or in
    accurate mode the small integer right before it. It never panics nor overflows on
    scripts of up to 214 MB, the accurate count never exceeds the inaccurate one, and either
    is at most twenty per byte. *)
Theorem sigop_count_spec {E} script : 20 * len script <= u32_max ->
  exists os, opcodes script os /\
    sigop_count (E:=E) script Inaccurate = Ok (total_sigops Inaccurate OP_INVALIDOPCODE os) /\
    sigop_count (E:=E) script Accurate = Ok (total_sigops Accurate OP_INVALIDOPCODE os) /\
    0 <= total_sigops Accurate OP_INVALIDOPCODE os <= total_sigops Inaccurate OP_INVALIDOPCODE os /\
    total_sigops Inaccurate OP_INVALIDOPCODE os <= 20 * len script.
Proof.
  intros Hl. destruct (opcodes_total script) as [os Hos]. exists os.
  pose proof (opcodes_len _ _ Hos). pose proof (total_sigops_range Inaccurate OP_INVALIDOPCODE os).
  pose proof (total_sigops_range Accurate OP_INVALIDOPCODE os). pose proof (accurate_le OP_INVALIDOPCODE os).
  split_and!; try done; try lia; by apply sigop_count_eq.
Qed.

(** [OP_2 <...> OP_CHECKMULTISIG OP_CHECKSIG]: three, or twenty-one. *)
Lemma sigop_count_spec_witness :
  sigop_count (E:=Empty_set) [x52; xae; xac] Accurate = Ok 3 /\
  sigop_count (E:=Empty_set) [x52; xae; xac] Inaccurate = Ok 21.
Proof.
  destruct (sigop_count_spec (E:=Empty_set) [x52; xae; xac]) as (os & _ & Hi & Ha & _).
  - vm_compute. congruence.
  - rewrite Hi, Ha. split; [rewrite <-Ha|rewrite <-Hi]; vm_compute; reflexivity.
Defined.
