(* ===== verification/Tx.v ===== *)
(** * Tx: the transaction rules ([consensus/src/tx.rs]) *)
From stdpp Require Import sorting.
From S2P Require Import Prelude Bitcoin Flags Params Header Script Interpreter Sigops.

Definition WITNESS_SCALE_FACTOR : Z := 4.
Definition MAX_BLOCK_WEIGHT : Z := 4000000.
Definition MAX_BLOCK_SIGOPS_COST : Z := 80000.
Definition MAX_MONEY : Z := 21000000 * 100000000.
Definition LOCKTIME_THRESHOLD : Z := 500000000.
Definition COINBASE_SCRIPT_SIG_SIZE_MIN : Z := 2.
Definition COINBASE_SCRIPT_SIG_SIZE_MAX : Z := 100.
Definition SEQUENCE_FINAL : Z := 0xffffffff.
Definition COINBASE_MATURITY : Z := 100.
Definition SEQUENCE_LOCKTIME_DISABLE_FLAG : Z := Z.shiftl 1 31.
Definition SEQUENCE_LOCKTIME_TYPE_FLAG : Z := Z.shiftl 1 22.
Definition SEQUENCE_LOCKTIME_MASK : Z := 0x0000ffff.
Definition SEQUENCE_LOCKTIME_GRANULARITY : Z := 9.

Record Coin := mkCoin {
  outpoint : OutPoint;
  output : TxOut;
  coin_height : Z;
  coinbase : bool;
}.

#[global] Instance Coin_eq_dec : EqDecision Coin.
Proof. solve_decision. Defined.

Definition is_unspendable (script_pubkey : bytes) : bool :=
  bool_decide (head script_pubkey = Some x6a) || (MAX_SCRIPT_SIZE <? len script_pubkey).

(** [Coin::hash_record]; the code is shifted in [u32]. *)
Definition hash_record {E} `{Encoding} (self : Coin) : outcome E bytes :=
  assert_ (negb (is_unspendable (script_pubkey (output self))));;
  let code := Z.lor (Z.land (Z.shiftl (coin_height self) 1) u32_max) (if coinbase self then 1 else 0) in
  assert_ (Z.shiftr code 1 =? coin_height self);;
  let outpoint := enc_outpoint (outpoint self) in
  let output := enc_txout (output self) in
  assert_ (len outpoint =? 36);;
  let record := outpoint ++ le_bytes 4 code ++ output in
  assert_ (len record =? 40 + len output);;
  Ok record.

Inductive TxInputsError :=
| PrematureCoinbaseSpend (input depth : Z)
| InputValuesOutOfRange (input : Z)
| InBelowOut (value_in value_out : Z).

Inductive TxError :=
| VinEmpty
| VoutEmpty
| Oversize (base_size : Z)
| VoutNegative (index : Z)
| VoutTooLarge (index : Z)
| TxOutTotalTooLarge (index : Z)
| InputsDuplicate (outpoint : OutPoint)
| CoinbaseLength (size : Z)
| PrevoutNull (index : Z).

Record RelativeLockBase := mkLockBase {
  base_height : Z;
  base_median_time_past : option Z;
}.

Definition value_out {E} (tx : Transaction) : outcome E Z :=
  foldM (fun total output =>
    total ← u64 (total + txout_value output);
    assert_ (total <=? MAX_MONEY);;
    Ok total) 0 (tx_output tx).

Definition bip68_applies (tx : Transaction) : bool := 2 <=? cast_unsigned32 (tx_version tx).

Section rules.
Context `{BitcoinCrate}.

(** The body of the loop of [check_tx_inputs] over [tx.input.iter().zip(coins).enumerate()]. *)
Definition check_input_value (spend_height value_in : Z) (item : Z * (TxIn * Coin))
    : outcome TxInputsError Z :=
  let '(input, (txin, coin)) := item in
  assert_ (bool_decide (outpoint coin = previous_output txin));;
  assert_ (coin_height coin <=? spend_height);;
  (if coinbase coin then
     depth ← u32 (spend_height - coin_height coin);
     if depth <? COINBASE_MATURITY then Err (PrematureCoinbaseSpend input depth) else Ok tt
   else Ok tt);;
  let value := txout_value (output coin) in
  if MAX_MONEY <? value then Err (InputValuesOutOfRange input)
  else
    value_in ← u64 (value_in + value);
    if MAX_MONEY <? value_in then Err (InputValuesOutOfRange input) else Ok value_in.

Definition check_tx_inputs (tx : Transaction) (coins : list Coin) (spend_height : Z)
    : outcome TxInputsError Z :=
  assert_ (negb (is_coinbase tx));;
  assert_ (len coins =? len (tx_input tx));;
  value_in ← foldM (check_input_value spend_height) 0 (enumerate (zip (tx_input tx) coins));
  value_out ← value_out tx;
  if value_in <? value_out then Err (InBelowOut value_in value_out)
  else
    fee ← u64 (value_in - value_out);
    assert_ (fee <=? MAX_MONEY);;
    Ok fee.

(** The body of the loop of [sequence_locks_satisfied]; [height_min] and [time_min] are
    [i64]. *)
Definition lock_step {E} : Z * Z -> TxIn * RelativeLockBase -> outcome E (Z * Z) :=
  fun '(height_min, time_min) '(input, base) =>
    let sequence := sequence input in
    if negb (Z.land sequence SEQUENCE_LOCKTIME_DISABLE_FLAG =? 0) then Ok (height_min, time_min)
    else
      let value := Z.land sequence SEQUENCE_LOCKTIME_MASK in
      assert_ (value <=? 0xffff);;
      if negb (Z.land sequence SEQUENCE_LOCKTIME_TYPE_FLAG =? 0) then
        coin_time ← expect (base_median_time_past base);
        lock ← i64 (coin_time + Z.shiftl value SEQUENCE_LOCKTIME_GRANULARITY - 1);
        Ok (height_min, Z.max time_min lock)
      else
        lock ← i64 (base_height base + value - 1);
        Ok (Z.max height_min lock, time_min).

Definition sequence_locks_satisfied {E} (tx : Transaction) (bases : list RelativeLockBase)
    (context : Context) : outcome E bool :=
  assert_ (len bases =? len (tx_input tx));;
  if negb (bip68_applies tx) || negb (csv_active (ctx_rules context)) then Ok true
  else
    '(height_min, time_min) ← foldM lock_step (-1, -1) (zip (tx_input tx) bases);
    let height := ctx_height context in
    let median_time_past := ctx_median_time_past context in
    Ok ((height_min <? height) && (time_min <? median_time_past)).

(** [base_size] of the repository: the crate's size as a [u64]. *)
Definition tx_base_size {E} (tx : Transaction) : outcome E Z := expect (try_from u64_max (base_size tx)).

Definition legacy_sigop_count {E} (tx : Transaction) : outcome E Z :=
  count ← foldM (fun count input =>
    n ← sigop_count (script_sig input) Inaccurate; u64 (count + n)) 0 (tx_input tx);
  count ← foldM (fun count output =>
    n ← sigop_count (script_pubkey output) Inaccurate; u64 (count + n)) count (tx_output tx);
  size ← tx_base_size tx;
  limit ← u64 (20 * size);
  assert_ (count <=? limit);;
  Ok count.

(** The body of the loop of [sigop_cost]. *)
Definition input_sigop_cost {E} (flags : ScriptFlags.ScriptFlags) (cost : Z) (item : TxIn * TxOut)
    : outcome E Z :=
  let '(input, prevout) := item in
  let script_sig := script_sig input in
  let script_pubkey := script_pubkey prevout in
  cost ←
    (if ScriptFlags.contains flags ScriptFlags.P2SH then
       n ← p2sh_sigop_count script_pubkey script_sig;
       n ← u64 (n * WITNESS_SCALE_FACTOR);
       u64 (cost + n)
     else Ok cost);
  n ← witness_sigop_count script_sig script_pubkey (witness input) flags;
  u64 (cost + n).

Definition sigop_cost {E} (tx : Transaction) (prevouts : list TxOut) (flags : ScriptFlags.ScriptFlags)
    : outcome E Z :=
  n ← legacy_sigop_count tx;
  cost ← u64 (n * WITNESS_SCALE_FACTOR);
  if is_coinbase tx then
    assert_ (len prevouts =? 0);;
    Ok cost
  else
    assert_ (len prevouts =? len (tx_input tx));;
    foldM (input_sigop_cost flags) cost (zip (tx_input tx) prevouts).

Definition check_output_values (tx : Transaction) : outcome TxError unit :=
  assert_ (negb (len (tx_output tx) =? 0));;
  total ← foldM (fun total '(index, output) =>
    let value := txout_value output in
    if negb (Z.land value (Z.shiftl 1 63) =? 0) then Err (VoutNegative index)
    else if MAX_MONEY <? value then Err (VoutTooLarge index)
    else
      total ← u64 (total + value);
      if MAX_MONEY <? total then Err (TxOutTotalTooLarge index) else Ok total)
    0 (enumerate (tx_output tx));
  assert_ (total <=? MAX_MONEY).

Context `{OutPointOrder}.

(** [for pair in outpoints.windows(2)]. *)
Fixpoint check_windows (outpoints : list OutPoint) : outcome TxError unit :=
  match outpoints with
  | first :: (second :: _) as rest =>
      assert_ (bool_decide (outpoint_le first second));;
      if bool_decide (first = second) then Err (InputsDuplicate first)
      else check_windows rest
  | _ => Ok tt
  end.

Definition check_inputs_distinct (tx : Transaction) : outcome TxError unit :=
  assert_ (negb (len (tx_input tx) =? 0));;
  let outpoints := merge_sort outpoint_le (map previous_output (tx_input tx)) in
  check_windows outpoints.

Definition check_tx (tx : Transaction) : outcome TxError unit :=
  if len (tx_input tx) =? 0 then Err VinEmpty
  else if len (tx_output tx) =? 0 then Err VoutEmpty
  else
    base_size ← tx_base_size tx;
    scaled ← u64 (base_size * WITNESS_SCALE_FACTOR);
    if MAX_BLOCK_WEIGHT <? scaled then Err (Oversize base_size)
    else
      check_output_values tx;;
      check_inputs_distinct tx;;
      if is_coinbase tx then
        input ← expect (head (tx_input tx));
        let size := len (script_sig input) in
        if negb ((COINBASE_SCRIPT_SIG_SIZE_MIN <=? size) && (size <=? COINBASE_SCRIPT_SIG_SIZE_MAX))
        then Err (CoinbaseLength size) else Ok tt
      else
        foldM (fun _ '(index, input) =>
          if is_null (previous_output input) then Err (PrevoutNull index) else Ok tt)
          tt (enumerate (tx_input tx)).
End rules.

Definition is_final (tx : Transaction) (height cutoff : Z) : bool :=
  let lock_time := tx_lock_time tx in
  if lock_time =? 0 then true
  else
    let bound := if lock_time <? LOCKTIME_THRESHOLD then height else cutoff in
    if lock_time <? bound then true
    else forallb (fun input => sequence input =? SEQUENCE_FINAL) (tx_input tx).
