(* ===== verification/TxProofs.v ===== *)
(** * TxProofs: what the transaction rules accept *)
From stdpp Require Import sorting.
From S2P Require Import Prelude Bitcoin Flags Params Header Script Interpreter SighashProofs Verify VerifyProofs VerifySafety Sigops Tx.

(** Amounts are [u64] and sizes are [usize]. *)
Definition amounts_ok (outputs : list TxOut) : Prop :=
  Forall (fun o => 0 <= txout_value o <= u64_max) outputs.

Fixpoint total_value (outputs : list TxOut) : Z :=
  match outputs with [] => 0 | o :: outputs => txout_value o + total_value outputs end.

Lemma total_value_nonneg outputs : amounts_ok outputs -> 0 <= total_value outputs.
Proof. induction 1 as [|o l Ho _ IH]; cbn [total_value]; [done|]. lia. Qed.

(** What the crate documents of serialized sizes: the base serialization contains every
    script, at least 41 bytes for an input (outpoint, script length, sequence) and 9 for an
    output (amount, script length) besides, and the witness items come on top of it. *)
Definition script_bytes (tx : Transaction) : Z :=
  foldr (fun i n => len (script_sig i) + n) 0 (tx_input tx) +
  foldr (fun o n => len (script_pubkey o) + n) 0 (tx_output tx).

Definition witness_bytes (tx : Transaction) : Z :=
  foldr (fun i n => len (concat (witness i)) + n) 0 (tx_input tx).

Class SizeLaws `{BitcoinCrate} : Prop := {
  base_size_parts tx : script_bytes tx + 41 * len (tx_input tx) + 9 * len (tx_output tx) <= base_size tx;
  total_size_parts tx : base_size tx + witness_bytes tx <= total_size tx;
}.

Lemma witness_bytes_nonneg tx : 0 <= witness_bytes tx.
Proof.
  unfold witness_bytes. induction (tx_input tx) as [|i l IH]; cbn; [done|].
  pose proof (len_nonneg (concat (witness i))). lia.
Qed.

Lemma base_size_total `{SizeLaws} tx : base_size tx <= total_size tx.
Proof. pose proof (total_size_parts tx). pose proof (witness_bytes_nonneg tx). lia. Qed.

Lemma base_size_scripts `{SizeLaws} tx : script_bytes tx <= base_size tx.
Proof.
  pose proof (base_size_parts tx). pose proof (len_nonneg (tx_input tx)).
  pose proof (len_nonneg (tx_output tx)). lia.
Qed.

Lemma MAX_MONEY_eq : MAX_MONEY = 2100000000000000.
Proof. reflexivity. Qed.

Lemma value_out_ok {E} tx : amounts_ok (tx_output tx) -> total_value (tx_output tx) <= MAX_MONEY ->
  value_out (E:=E) tx = Ok (total_value (tx_output tx)).
Proof.
  unfold value_out. generalize (tx_output tx) as outs. rewrite MAX_MONEY_eq. intros outs Ha.
  enough (forall t, 0 <= t -> t + total_value outs <= 2100000000000000 ->
    foldM (fun total output => total ← u64 (total + txout_value output);
      assert_ (total <=? 2100000000000000);; Ok total) t outs = Ok (E:=E) (t + total_value outs)) as Hgen.
  { intros Hm. by apply (Hgen 0). }
  induction Ha as [|o l Ho Ha IH]; intros t Ht Hm; cbn [foldM total_value] in *.
  - f_equal. lia.
  - pose proof (total_value_nonneg l Ha). rewrite u64_ok by (unfold u64_max; lia). run.
    rewrite (proj2 (Z.leb_le _ _)) by lia. run. rewrite IH by lia. f_equal. lia.
Qed.

(** ** [check_tx] *)

Lemma land_sign_bit v : 0 <= v <= u64_max -> (Z.land v (Z.shiftl 1 63) =? 0) = (v <? 2 ^ 63).
Proof.
  intros Hv. rewrite Z.shiftl_1_l, land_pow2_testbit by lia.
  destruct (Z.ltb_spec v (2 ^ 63)) as [Hlt|Hge].
  - destruct (decide (v = 0)) as [->|]; [done|].
    rewrite Z.bits_above_log2; [done|lia|]. apply Z.log2_lt_pow2; lia.
  - apply negb_false_iff. rewrite Z.testbit_true by lia.
    replace (v / 2 ^ 63) with 1; [done|]. apply (Z.div_unique _ _ 1 (v - 2 ^ 63)); unfold u64_max in *; lia.
Qed.

Lemma output_values_loop outs : amounts_ok outs -> forall i t, 0 <= t <= MAX_MONEY ->
  let r := foldM (fun total '(index, output) =>
    let value := txout_value output in
    if negb (Z.land value (Z.shiftl 1 63) =? 0) then Err (VoutNegative index)
    else if MAX_MONEY <? value then Err (VoutTooLarge index)
    else
      total ← u64 (total + value);
      if MAX_MONEY <? total then Err (TxOutTotalTooLarge index) else Ok total)
    t (enumerate_from i outs) in
  if t + total_value outs <=? MAX_MONEY then r = Ok (t + total_value outs) else exists e, r = Err e.
Proof.
  rewrite MAX_MONEY_eq. induction 1 as [|o l Ho Ha IH]; intros i t Ht; cbn [enumerate_from foldM total_value].
  - rewrite (proj2 (Z.leb_le _ _)) by lia. f_equal. lia.
  - pose proof (total_value_nonneg l Ha). cbv zeta. rewrite land_sign_bit by done.
    destruct (Z.ltb_spec (txout_value o) (2 ^ 63)); cbn [negb].
    2:{ rewrite (proj2 (Z.leb_gt _ _)) by lia. by eexists. }
    destruct (Z.ltb_spec 2100000000000000 (txout_value o)).
    { rewrite (proj2 (Z.leb_gt _ _)) by lia. by eexists. }
    rewrite u64_ok by (unfold u64_max; lia). run.
    destruct (Z.ltb_spec 2100000000000000 (t + txout_value o)).
    { rewrite (proj2 (Z.leb_gt _ _)) by lia. by eexists. }
    run. specialize (IH (i + 1) (t + txout_value o)). cbv zeta in IH.
    rewrite <-Z.add_assoc in IH. apply IH. lia.
Qed.

Lemma check_output_values_ok tx : tx_output tx <> [] -> amounts_ok (tx_output tx) ->
  if total_value (tx_output tx) <=? MAX_MONEY then check_output_values tx = Ok tt
  else exists e, check_output_values tx = Err e.
Proof.
  intros Hne Ha. unfold check_output_values.
  assert ((len (tx_output tx) =? 0) = false) as ->
    by (apply Z.eqb_neq; destruct (tx_output tx) as [|o l]; [done|rewrite len_cons; pose proof (len_nonneg l); lia]).
  run. pose proof (output_values_loop (tx_output tx) Ha 0 0) as Hloop. cbv zeta in Hloop.
  rewrite Z.add_0_l in Hloop. fold (enumerate (tx_output tx)) in Hloop.
  specialize (Hloop ltac:(rewrite MAX_MONEY_eq; lia)).
  destruct (Z.leb_spec (total_value (tx_output tx)) MAX_MONEY).
  - rewrite Hloop. run. by rewrite (proj2 (Z.leb_le _ _)).
  - destruct Hloop as [e ->]. by exists e.
Qed.

Section distinct.
Context `{OL : OutPointOrderLaws}.

Lemma check_windows_ok l : StronglySorted outpoint_le l ->
  (NoDup l /\ check_windows l = Ok tt) \/
  (exists o k, l ≡ₚ o :: o :: k /\ check_windows l = Err (InputsDuplicate o)).
Proof.
  induction 1 as [|a l Hs IH Ha]; [left; split; [constructor|done]|].
  destruct l as [|b l]; [left; split; [apply NoDup_singleton|done]|].
  cbn [check_windows]. apply Forall_cons in Ha as Ha'. destruct Ha' as [Hab _].
  rewrite (bool_decide_eq_true_2 (outpoint_le a b)) by done. run. case_bool_decide as Heq.
  { right. subst b. exists a, l. done. }
  destruct IH as [[Hnd IH]|(o & k & Hp & IH)].
  - left. split; [|done]. constructor; [|done]. intros Hin. apply Heq.
    apply (anti_symm outpoint_le); [done|].
    apply elem_of_cons in Hin as [->|Hin]; [done|].
    inversion Hs as [|? ? _ Hb]; subst. rewrite Forall_forall in Hb. by apply Hb.
  - right. exists o, (a :: k). split; [|done]. rewrite Hp. by rewrite (Permutation_swap a o), (Permutation_swap a o).
Qed.

Lemma check_inputs_distinct_ok tx : tx_input tx <> [] ->
  (NoDup (map previous_output (tx_input tx)) /\ check_inputs_distinct tx = Ok tt) \/
  (exists o k, map previous_output (tx_input tx) ≡ₚ o :: o :: k /\
    check_inputs_distinct tx = Err (InputsDuplicate o)).
Proof.
  intros Hne. unfold check_inputs_distinct.
  assert ((len (tx_input tx) =? 0) = false) as ->
    by (apply Z.eqb_neq; destruct (tx_input tx) as [|o l]; [done|rewrite len_cons; pose proof (len_nonneg l); lia]).
  run. set (ps := map _ _).
  assert (Hperm : merge_sort outpoint_le ps ≡ₚ ps) by apply merge_sort_Permutation.
  destruct (check_windows_ok (merge_sort outpoint_le ps)) as [[Hnd Hc]|(o & k & Hp & Hc)].
  - apply (StronglySorted_merge_sort outpoint_le).
  - left. split; [|done]. by rewrite Hperm in Hnd.
  - right. exists o, k. split; [|done]. by rewrite <-Hperm.
Qed.
End distinct.

(** What [CheckTransaction] requires. *)
Definition tx_valid `{BitcoinCrate} (tx : Transaction) : Prop :=
  tx_input tx <> [] /\ tx_output tx <> [] /\
  base_size tx * WITNESS_SCALE_FACTOR <= MAX_BLOCK_WEIGHT /\
  total_value (tx_output tx) <= MAX_MONEY /\
  NoDup (map previous_output (tx_input tx)) /\
  if is_coinbase tx
  then forall i, head (tx_input tx) = Some i -> 2 <= len (script_sig i) <= 100
  else Forall (fun i => is_null (previous_output i) = false) (tx_input tx).

(** A decoded transaction: amounts and sizes are machine integers. *)
Definition tx_typed `{BitcoinCrate} (tx : Transaction) : Prop :=
  amounts_ok (tx_output tx) /\ 0 <= base_size tx < 2 ^ 58.

Lemma null_scan `{BitcoinCrate} inputs i :
  decides (foldM (fun _ '(index, input) =>
    if is_null (previous_output input) then Err (PrevoutNull index) else Ok tt) tt (enumerate_from i inputs))
    (Forall (fun i => is_null (previous_output i) = false) inputs).
Proof. apply decides_scan with (f := fun '(index, input) => _). intros j x _. apply decides_bool. Qed.

Section check_tx.
Context `{BitcoinCrate} `{OL : OutPointOrderLaws}.

Lemma len_eqb_0 {A} (l : list A) : (len l =? 0) = bool_decide (l = []).
Proof.
  destruct l as [|x l]; [done|]. rewrite bool_decide_eq_false_2 by done.
  apply Z.eqb_neq. rewrite len_cons. pose proof (len_nonneg l). lia.
Qed.

Lemma check_tx_eq tx : tx_typed tx ->
  decides (check_tx tx) (tx_valid tx).
Proof.
  intros [Ha Hs]. unfold decides, check_tx, tx_valid, tx_base_size. rewrite !len_eqb_0.
  case_bool_decide as Hin; [right; split; [tauto|by eexists]|].
  case_bool_decide as Hout; [right; split; [tauto|by eexists]|].
  rewrite try_from_ok by (unfold u64_max; lia). run.
  rewrite u64_ok by (unfold u64_max, WITNESS_SCALE_FACTOR; lia). run.
  destruct (Z.ltb_spec MAX_BLOCK_WEIGHT (base_size tx * WITNESS_SCALE_FACTOR)) as [Hbig|Hbig];
    [right; split; [lia|by eexists]|].
  pose proof (check_output_values_ok tx Hout Ha) as Hv.
  destruct (Z.leb_spec (total_value (tx_output tx)) MAX_MONEY) as [Hm|Hm];
    [|right; split; [lia|destruct Hv as [e ->]; by eexists]]. rewrite Hv. run.
  destruct (check_inputs_distinct_ok tx Hin) as [[Hnd ->]|(o & k & Hp & ->)].
  2:{ right. split; [|by eexists]. intros (_ & _ & _ & _ & Hnd & _). rewrite Hp in Hnd.
      apply NoDup_cons in Hnd as [Hnd _]. set_solver. }
  run. destruct (is_coinbase tx).
  - destruct (tx_input tx) as [|i l]; [done|]. cbn [head expect]. run.
    unfold COINBASE_SCRIPT_SIG_SIZE_MIN, COINBASE_SCRIPT_SIG_SIZE_MAX.
    destruct ((2 <=? len (script_sig i)) && (len (script_sig i) <=? 100)) eqn:Hb; cbn [negb]; [left|right].
    + split; [|done]. split_and!; try done. intros ? [= <-]. lia.
    + split; [|by eexists]. intros (_ & _ & _ & _ & _ & Hlen). specialize (Hlen i eq_refl). lia.
  - pose proof (null_scan (tx_input tx) 0) as Hn.
    destruct Hn as [[Hf Hr]|[Hf Hr]]; [left|right]; (split; [tauto|exact Hr]).
Qed.

(** [check_tx] never panics, and accepts exactly the transactions [CheckTransaction]
    accepts: at least one input and output, a base size within a block's, outputs that sum to
    at most 21 million coins with no wrap-around (CVE-2010-5139), no outpoint spent twice
    (CVE-2018-17144), and a coinbase scriptSig of 2 to 100 bytes or no null outpoint. *)
Theorem check_tx_iff tx : tx_typed tx ->
  check_tx tx <> Panic /\ (check_tx tx = Ok tt <-> tx_valid tx).
Proof. intros Ht. destruct (check_tx_eq tx Ht) as [[Hv ->]|[Hv [e ->]]]; split; naive_solver. Qed.
End check_tx.

(** ** [check_tx_inputs] *)

Definition coins_value (coins : list Coin) : Z := total_value (map output coins).

(** One coin per input, from this block or an earlier one, of a machine amount. *)
Definition coins_match (tx : Transaction) (coins : list Coin) (spend_height : Z) : Prop :=
  Forall2 (fun i c => outpoint c = previous_output i /\ 0 <= coin_height c <= spend_height)
    (tx_input tx) coins /\
  amounts_ok (map output coins).

Definition mature (spend_height : Z) (c : Coin) : Prop :=
  coinbase c = true -> COINBASE_MATURITY <= spend_height - coin_height c.

Lemma check_input_value_ok spend_height i x c t : spend_height <= Height.MAX ->
  outpoint c = previous_output x -> 0 <= coin_height c <= spend_height ->
  0 <= txout_value (output c) <= u64_max -> 0 <= t <= MAX_MONEY ->
  let r := check_input_value spend_height t (i, (x, c)) in
  (mature spend_height c /\ t + txout_value (output c) <= MAX_MONEY /\ r = Ok (t + txout_value (output c))) \/
  (~ (mature spend_height c /\ t + txout_value (output c) <= MAX_MONEY) /\ exists e, r = Err e).
Proof.
  intros Hmax Ho Hh Hv Ht. unfold Height.MAX, check_input_value, mature in *. rewrite MAX_MONEY_eq in *. cbv zeta.
  rewrite bool_decide_eq_true_2 by done. rewrite (proj2 (Z.leb_le _ _)) by lia. run.
  destruct (coinbase c).
  - rewrite u32_ok by (unfold u32_max; lia). run.
    destruct (Z.ltb_spec (spend_height - coin_height c) COINBASE_MATURITY).
    { right. split; [|by eexists]. intros [Hm _]. specialize (Hm eq_refl). lia. }
    run. destruct (Z.ltb_spec 2100000000000000 (txout_value (output c))); [right; split; [lia|by eexists]|].
    rewrite u64_ok by (unfold u64_max; lia). run.
    destruct (Z.ltb_spec 2100000000000000 (t + txout_value (output c))); [right; split; [lia|by eexists]|].
    left. done.
  - run. destruct (Z.ltb_spec 2100000000000000 (txout_value (output c))); [right; split; [lia|by eexists]|].
    rewrite u64_ok by (unfold u64_max; lia). run.
    destruct (Z.ltb_spec 2100000000000000 (t + txout_value (output c))); [right; split; [lia|by eexists]|].
    left. done.
Qed.

Lemma input_values_loop spend_height inputs coins : spend_height <= Height.MAX ->
  Forall2 (fun i c => outpoint c = previous_output i /\ 0 <= coin_height c <= spend_height) inputs coins ->
  amounts_ok (map output coins) -> forall i t, 0 <= t <= MAX_MONEY ->
  let r := foldM (check_input_value spend_height) t (enumerate_from i (zip inputs coins)) in
  (Forall (mature spend_height) coins /\ t + coins_value coins <= MAX_MONEY /\ r = Ok (t + coins_value coins)) \/
  (~ (Forall (mature spend_height) coins /\ t + coins_value coins <= MAX_MONEY) /\ exists e, r = Err e).
Proof.
  intros Hmax. unfold coins_value. induction 1 as [|x c inputs coins [Ho Hh] Hf IH]; intros Ha i t Ht;
    cbn [zip zip_with enumerate_from foldM map total_value].
  - left. split_and!; [constructor|lia|f_equal; lia].
  - cbn [map] in Ha. apply Forall_cons in Ha as [Hc Ha]. pose proof (total_value_nonneg _ Ha).
    cbv zeta. destruct (check_input_value_ok spend_height i x c t Hmax Ho Hh Hc Ht) as [(Hm & Hle & ->)|[Hbad [e ->]]].
    2:{ right. split; [|by eexists]. intros [Hall Hle]. apply Hbad. split; [by inversion Hall|lia]. }
    run. destruct (IH Ha (i + 1) (t + txout_value (output c))) as [(Hf1 & Hle1 & Hr)|[Hf1 Hr]]; [lia| |].
    + left. split_and!; [by constructor|lia|]. rewrite Hr. f_equal. lia.
    + right. split; [|exact Hr]. intros [Hall Hle']. apply Hf1. split; [by inversion Hall|lia].
Qed.

Lemma check_tx_inputs_eq `{BitcoinCrate} tx coins spend_height :
  is_coinbase tx = false -> coins_match tx coins spend_height -> spend_height <= Height.MAX ->
  amounts_ok (tx_output tx) -> total_value (tx_output tx) <= MAX_MONEY ->
  check_tx_inputs tx coins spend_height <> Panic /\
  forall fee, check_tx_inputs tx coins spend_height = Ok fee <->
    Forall (mature spend_height) coins /\ coins_value coins <= MAX_MONEY /\
    total_value (tx_output tx) <= coins_value coins /\
    fee = coins_value coins - total_value (tx_output tx).
Proof.
  intros Hcb [Hf Ha] Hh Ho Hm. unfold check_tx_inputs. rewrite Hcb. cbn [negb]. run.
  rewrite (proj2 (Z.eqb_eq _ _)) by (apply Forall2_length in Hf; unfold len; lia). run.
  pose proof (total_value_nonneg _ Ho).
  destruct (input_values_loop spend_height _ _ Hh Hf Ha 0 0) as [(Hmat & Hle & Hr)|[Hbad [e Hr]]];
    [rewrite MAX_MONEY_eq; lia| |]; cbv zeta in Hr; fold (enumerate (zip (tx_input tx) coins)) in Hr; rewrite Hr; run.
  2:{ split; [done|]. intros fee. split; [done|]. intros (? & ? & _). exfalso. apply Hbad. split; [done|lia]. }
  rewrite value_out_ok by done. run. rewrite Z.add_0_l in *. rewrite MAX_MONEY_eq in *.
  destruct (Z.ltb_spec (coins_value coins) (total_value (tx_output tx))).
  - split; [done|]. intros fee. split; [done|lia].
  - rewrite u64_ok by (unfold u64_max; lia). run.
    rewrite (proj2 (Z.leb_le _ _)) by lia. run. split; [done|]. intros fee. split.
    + intros [= <-]. split_and!; done || lia.
    + intros (? & ? & ? & ->). done.
Qed.

(** [check_tx_inputs] never panics on the coins its inputs name, and returns the fee
    exactly when every coinbase coin is at least 100 blocks deep, the coins sum to at most
    21 million coins and cover the outputs; the fee is then inputs minus outputs, so no
    transaction creates value. *)
Theorem check_tx_inputs_iff `{BitcoinCrate} tx coins spend_height :
  is_coinbase tx = false -> coins_match tx coins spend_height -> spend_height <= Height.MAX ->
  amounts_ok (tx_output tx) -> total_value (tx_output tx) <= MAX_MONEY ->
  check_tx_inputs tx coins spend_height <> Panic /\
  forall fee, check_tx_inputs tx coins spend_height = Ok fee <->
    Forall (mature spend_height) coins /\ coins_value coins <= MAX_MONEY /\
    total_value (tx_output tx) <= coins_value coins /\
    fee = coins_value coins - total_value (tx_output tx).
Proof. exact (check_tx_inputs_eq tx coins spend_height). Qed.

(** ** Locks *)

(** BIP68: one input's relative lock, given what it is measured from. *)
Definition relative_lock_met (context : Context) (input : TxIn) (base : RelativeLockBase) : Prop :=
  let seq := sequence input in
  let value := seq mod 2 ^ 16 in
  Z.testbit seq 31 = false ->
  if Z.testbit seq 22
  then forall t, base_median_time_past base = Some t -> t + 512 * value <= ctx_median_time_past context
  else base_height base + value <= ctx_height context.

(** Heights and times are [u32], and a time-locked input comes with its time. *)
Definition base_ok (input : TxIn) (base : RelativeLockBase) : Prop :=
  0 <= base_height base <= u32_max /\
  (forall t, base_median_time_past base = Some t -> 0 <= t <= u32_max) /\
  (Z.testbit (sequence input) 31 = false -> Z.testbit (sequence input) 22 = true ->
    is_Some (base_median_time_past base)).

Lemma lock_step_ok {E} context hm tm input base : base_ok input base ->
  exists hm' tm', lock_step (E:=E) (hm, tm) (input, base) = Ok (hm', tm') /\
    (hm' < ctx_height context /\ tm' < ctx_median_time_past context <->
     (hm < ctx_height context /\ tm < ctx_median_time_past context) /\ relative_lock_met context input base).
Proof.
  intros (Hh & Ht & Hsome). unfold lock_step, relative_lock_met. cbv zeta.
  change SEQUENCE_LOCKTIME_DISABLE_FLAG with (2 ^ 31). change SEQUENCE_LOCKTIME_TYPE_FLAG with (2 ^ 22).
  change SEQUENCE_LOCKTIME_MASK with (Z.ones 16). rewrite !land_pow2_testbit, !negb_involutive, Z.land_ones by lia.
  pose proof (Z.mod_pos_bound (sequence input) (2 ^ 16) eq_refl) as Hv. unfold u32_max in *.
  destruct (Z.testbit (sequence input) 31) eqn:H31; [eexists _, _; split; [done|]; naive_solver|].
  rewrite (proj2 (Z.leb_le _ 0xffff)) by lia. run.
  destruct (Z.testbit (sequence input) 22) eqn:H22.
  - destruct (Hsome eq_refl eq_refl) as [t Heq]. rewrite Heq in Ht |- *. specialize (Ht t eq_refl). run.
    unfold SEQUENCE_LOCKTIME_GRANULARITY. rewrite Z.shiftl_mul_pow2 by lia. rewrite i64_ok by lia. run.
    eexists _, _. split; [done|]. split.
    + intros [? ?]. split; [lia|]. intros _ t' [= <-]. lia.
    + intros [? Hm]. specialize (Hm eq_refl t eq_refl). lia.
  - rewrite i64_ok by lia. run. eexists _, _. split; [done|]. split.
    + intros [? ?]. split; [lia|]. intros _. lia.
    + intros [? Hm]. specialize (Hm eq_refl). lia.
Qed.

Lemma lock_loop_ok {E} context inputs bases hm tm : Forall2 base_ok inputs bases ->
  exists hm' tm', foldM (lock_step (E:=E)) (hm, tm) (zip inputs bases) = Ok (hm', tm') /\
    (hm' < ctx_height context /\ tm' < ctx_median_time_past context <->
     (hm < ctx_height context /\ tm < ctx_median_time_past context) /\
     Forall2 (relative_lock_met context) inputs bases).
Proof.
  intros Hf. revert hm tm. induction Hf as [|i b inputs bases Hb Hf IH]; intros hm tm; cbn [zip zip_with foldM].
  - eexists _, _. split; [done|]. naive_solver.
  - destruct (lock_step_ok (E:=E) context hm tm i b Hb) as (hm1 & tm1 & -> & Hiff). run.
    destruct (IH hm1 tm1) as (hm2 & tm2 & -> & Hiff2). eexists _, _. split; [done|].
    rewrite Hiff2, Hiff, Forall2_cons. tauto.
Qed.

(** The relative locks of a transaction; the bases matter only where BIP68 applies. *)
Lemma sequence_locks_eq {E} tx bases context : length bases = length (tx_input tx) ->
  (bip68_applies tx = true -> Forall2 base_ok (tx_input tx) bases) ->
  0 <= ctx_height context -> 0 <= ctx_median_time_past context ->
  exists b : bool, sequence_locks_satisfied (E:=E) tx bases context = Ok b /\
    (b = true <-> (csv_active (ctx_rules context) = true -> 2 <= tx_version tx mod 2 ^ 32 ->
      Forall2 (relative_lock_met context) (tx_input tx) bases)).
Proof.
  intros Hlen Hf Hh Ht. unfold sequence_locks_satisfied, bip68_applies, cast_unsigned32 in *.
  rewrite (proj2 (Z.eqb_eq _ _)) by (unfold len; lia). run.
  destruct (Z.leb_spec 2 (tx_version tx mod 2 ^ 32)); cbn [negb orb];
    [|eexists; split; [done|]; split; [intros _ ? ?; lia|done]].
  destruct (csv_active (ctx_rules context)); cbn [negb]; [|eexists; split; [done|]; done].
  destruct (lock_loop_ok (E:=E) context _ _ (-1) (-1) (Hf eq_refl)) as (hm & tm & Hr & Hiff).
  eexists. split; [rewrite Hr; run; reflexivity|].
  rewrite andb_true_iff, !Z.ltb_lt, Hiff. split; [by intros [_ ?]|]. intros Hm. split; [lia|]. by apply Hm.
Qed.

(** The two kinds of lock. [sequence_locks_satisfied] is BIP68: once CSV is active, for
    a version of 2 or more read unsigned, every input whose bit 31 is clear must be at least
    its sixteen-bit value past its coin, in blocks, or in units of 512 seconds of median time
    past if bit 22 is set. [is_final] is the absolute lock: zero, strictly below the block's
    height or cutoff time according to its size, or every input final. *)
Theorem locks_bip68_and_final {E} tx bases context height cutoff :
  Forall2 base_ok (tx_input tx) bases ->
  0 <= ctx_height context -> 0 <= ctx_median_time_past context ->
  (exists b : bool, sequence_locks_satisfied (E:=E) tx bases context = Ok b /\
    (b = true <-> (csv_active (ctx_rules context) = true -> 2 <= tx_version tx mod 2 ^ 32 ->
      Forall2 (relative_lock_met context) (tx_input tx) bases))) /\
  (is_final tx height cutoff = true <->
    tx_lock_time tx = 0 \/
    (tx_lock_time tx < LOCKTIME_THRESHOLD /\ tx_lock_time tx < height) \/
    (LOCKTIME_THRESHOLD <= tx_lock_time tx /\ tx_lock_time tx < cutoff) \/
    Forall (fun i => sequence i = SEQUENCE_FINAL) (tx_input tx)).
Proof.
  intros Hf Hh Ht. split.
  - apply sequence_locks_eq; [symmetry; by eapply Forall2_length|done..].
  - unfold is_final. destruct (Z.eqb_spec (tx_lock_time tx) 0); [naive_solver|].
    set (bound := if tx_lock_time tx <? LOCKTIME_THRESHOLD then height else cutoff).
    destruct (Z.ltb_spec (tx_lock_time tx) bound) as [Hb|Hb].
    + split; [|done]. intros _. unfold bound in Hb.
      destruct (Z.ltb_spec (tx_lock_time tx) LOCKTIME_THRESHOLD); naive_solver.
    + rewrite forallb_forall, Forall_forall. setoid_rewrite list_elem_of_In. split.
      * intros Hall. right. right. right. intros i Hi. specialize (Hall i Hi). lia.
      * unfold bound in Hb.
        destruct (Z.ltb_spec (tx_lock_time tx) LOCKTIME_THRESHOLD); intros [?|[?|[?|Hall]]]; try lia;
          intros i Hi; specialize (Hall i Hi); lia.
Qed.

(** ** Signature operations *)

Section sigops.
Context `{BitcoinCrate} `{SZ : !SizeLaws}.

Lemma sigop_count_total {E} script mode : 20 * len script <= u32_max ->
  exists n, sigop_count (E:=E) script mode = Ok n /\ 0 <= n <= 20 * len script.
Proof.
  intros Hl. destruct (opcodes_total script) as [os Hos]. rewrite (sigop_count_eq _ _ os) by done.
  eexists. split; [done|]. pose proof (opcodes_len _ _ Hos).
  pose proof (total_sigops_range mode OP_INVALIDOPCODE os). lia.
Qed.

Lemma sum_len_nonneg {A} (f : A -> bytes) l : 0 <= foldr (fun i n => len (f i) + n) 0 l.
Proof. induction l as [|y l IH]; cbn; [done|]. pose proof (len_nonneg (f y)). lia. Qed.

Lemma sigop_fold_ok {E A} (script : A -> bytes) (l : list A) (count : Z) :
  0 <= count -> count + 20 * foldr (fun i n => len (script i) + n) 0 l <= u32_max ->
  exists n, foldM (fun count x => n ← sigop_count (script x) Inaccurate; u64 (count + n)) count l
    = Ok (E:=E) n /\ count <= n <= count + 20 * foldr (fun i n => len (script i) + n) 0 l.
Proof.
  revert count; induction l as [|x l IH]; intros count Hc Hl; cbn [foldM foldr] in *.
  - exists count. split; [done|lia].
  - pose proof (sum_len_nonneg script l). pose proof (len_nonneg (script x)).
    destruct (sigop_count_total (E:=E) (script x) Inaccurate) as (n & -> & Hn); [lia|]. run.
    rewrite u64_ok by (unfold u64_max, u32_max in *; lia). run.
    destruct (IH (count + n)) as (k & -> & Hk); [lia|lia|]. exists k. split; [done|lia].
Qed.

Lemma legacy_sigop_count_ok {E} tx : 0 <= base_size tx <= 1000000 ->
  exists n, legacy_sigop_count (E:=E) tx = Ok n /\ 0 <= n <= 20 * base_size tx.
Proof.
  intros Hb. pose proof (base_size_scripts tx) as Hs. unfold script_bytes in Hs. unfold legacy_sigop_count.
  pose proof (sum_len_nonneg script_sig (tx_input tx)). pose proof (sum_len_nonneg script_pubkey (tx_output tx)).
  destruct (sigop_fold_ok (E:=E) script_sig (tx_input tx) 0) as (n & -> & Hn); [lia|unfold u32_max; lia|]. run.
  destruct (sigop_fold_ok (E:=E) script_pubkey (tx_output tx) n) as (k & -> & Hk); [lia|unfold u32_max; lia|]. run.
  unfold tx_base_size. rewrite try_from_ok by (unfold u64_max; lia). run.
  rewrite u64_ok by (unfold u64_max; lia). run. rewrite (proj2 (Z.leb_le _ _)) by lia. run.
  exists k. split; [done|lia].
Qed.

(** A witness whose items fit in a block. *)
Definition witness_small (w : list bytes) : Prop := Forall (fun x => len x <= 4000000) w.

Lemma p2sh_sigop_count_ok {E} spk script_sig : len script_sig <= 1000000 ->
  exists n, p2sh_sigop_count (E:=E) spk script_sig = Ok n /\ 0 <= n <= 20 * 1000000.
Proof.
  intros Hl. unfold p2sh_sigop_count. destruct (negb _); [eexists; split; [done|lia]|].
  destruct (last_push_ok (E:=E) script_sig) as (r & -> & Hr); [unfold u32_max; lia|]. run.
  destruct r as [x|]; [|eexists; split; [done|lia]]. specialize (Hr x eq_refl).
  destruct (sigop_count_total (E:=E) x Accurate) as (n & -> & Hn); [unfold u32_max; lia|].
  eexists. split; [done|lia].
Qed.

Lemma witness_program_sigops_ok {E} version program w : 2 <= len program <= 40 -> witness_small w ->
  exists n, witness_program_sigop_count (E:=E) version program w = Ok n /\ 0 <= n <= 20 * 4000000.
Proof.
  intros Hp Hw. unfold witness_program_sigop_count. rewrite !(proj2 (Z.leb_le _ _)) by lia. run.
  destruct (negb _); [eexists; split; [done|lia]|]. destruct (_ =? _); [eexists; split; [done|lia]|].
  destruct (_ =? _); [|eexists; split; [done|lia]]. destruct (last w) as [x|] eqn:Hl; [|eexists; split; [done|lia]].
  apply last_Some in Hl as [w' ->]. apply Forall_app in Hw as [_ Hx]. inversion Hx as [|? ? Hx' _]; subst.
  destruct (sigop_count_total (E:=E) x Accurate) as (n & -> & Hn); [unfold u32_max; lia|].
  eexists. split; [done|lia].
Qed.

Lemma witness_sigop_count_ok {E} script_sig spk w flags : flags_ok flags -> len script_sig <= 1000000 ->
  witness_small w ->
  exists n, witness_sigop_count (E:=E) script_sig spk w flags = Ok n /\ 0 <= n <= 20 * 4000000.
Proof.
  intros Hf Hl Hw. unfold witness_sigop_count.
  destruct (ScriptFlags.contains flags ScriptFlags.WITNESS) eqn:Hc; [|eexists; split; [done|lia]].
  rewrite (proj1 Hf Hc). run. destruct (witness_program_ok (E:=E) spk) as (p & -> & Hp). run.
  destruct p as [[version program]|].
  { apply witness_program_sigops_ok; [|done]. by destruct (Hp version program eq_refl). }
  destruct (is_pay_to_script_hash spk); [|eexists; split; [done|lia]].
  destruct (last_push_ok (E:=E) script_sig) as (r & -> & _); [unfold u32_max; lia|]. run.
  destruct r as [redeem|]; [|eexists; split; [done|lia]].
  destruct (witness_program_ok (E:=E) redeem) as (p & -> & Hp2). run.
  destruct p as [[version program]|]; [|eexists; split; [done|lia]].
  apply witness_program_sigops_ok; [|done]. by destruct (Hp2 version program eq_refl).
Qed.

Lemma input_sigop_cost_ok {E} flags c x p : flags_ok flags -> witness_small (witness x) ->
  len (script_sig x) <= 1000000 -> 0 <= c < 2 ^ 62 ->
  exists c', input_sigop_cost (E:=E) flags c (x, p) = Ok c' /\ c <= c' <= c + 200000000.
Proof.
  intros Hf Hw Hs Hc. unfold input_sigop_cost, WITNESS_SCALE_FACTOR. cbv zeta.
  destruct (witness_sigop_count_ok (E:=E) (script_sig x) (script_pubkey p) (witness x) flags Hf Hs Hw) as (k & -> & Hk).
  destruct (ScriptFlags.contains flags ScriptFlags.P2SH).
  - destruct (p2sh_sigop_count_ok (E:=E) (script_pubkey p) (script_sig x) Hs) as (n & -> & Hn). run.
    do 3 (rewrite u64_ok by (unfold u64_max; lia); run). eexists. split; [done|lia].
  - run. rewrite u64_ok by (unfold u64_max; lia). eexists. split; [done|lia].
Qed.

Lemma input_sigop_costs_ok {E} flags inputs ps c : flags_ok flags -> length ps = length inputs ->
  Forall (fun i => witness_small (witness i) /\ len (script_sig i) <= 1000000) inputs ->
  0 <= c -> c + 200000000 * len inputs < 2 ^ 62 ->
  exists cost, foldM (input_sigop_cost (E:=E) flags) c (zip inputs ps) = Ok cost /\
    c <= cost <= c + 200000000 * len inputs.
Proof.
  intros Hf. revert ps c. induction inputs as [|x inputs IH]; intros [|p ps] c Hlen Hw Hc Hbig; try discriminate Hlen.
  - exists c. split; [done|]. change (len []) with 0. lia.
  - cbn [zip zip_with foldM]. rewrite len_cons in *. pose proof (len_nonneg inputs).
    apply Forall_cons in Hw as [[Hx Hsx] Hw].
    destruct (input_sigop_cost_ok (E:=E) flags c x p Hf Hx Hsx) as (c1 & -> & Hc1); [lia|]. run.
    destruct (IH ps c1) as (cost & -> & Hcost); [by injection Hlen|done|lia|lia|].
    exists cost. split; [done|lia].
Qed.

Lemma script_sigs_small inputs : foldr (fun i n => len (script_sig i) + n) 0 inputs <= 1000000 ->
  Forall (fun i => len (script_sig i) <= 1000000) inputs.
Proof.
  induction inputs as [|x l IH]; [constructor|]. cbn. intros Hle.
  pose proof (sum_len_nonneg script_sig l). pose proof (len_nonneg (script_sig x)).
  constructor; [lia|apply IH; lia].
Qed.

(** The cost of a transaction is computed without a panic, and is at least its legacy part. *)
Lemma sigop_cost_ok {E} tx prevouts flags : 0 <= base_size tx <= 1000000 -> flags_ok flags ->
  Forall (fun i => witness_small (witness i)) (tx_input tx) -> len (tx_input tx) < 2 ^ 30 ->
  (if is_coinbase tx then prevouts = [] else len prevouts = len (tx_input tx)) ->
  exists n cost, legacy_sigop_count (E:=E) tx = Ok n /\
    sigop_cost (E:=E) tx prevouts flags = Ok cost /\
    4 * n <= cost <= 4 * n + 200000000 * len (tx_input tx).
Proof.
  intros Hb Hf Hw Hl Hp. destruct (legacy_sigop_count_ok (E:=E) tx Hb) as (n & Hn & Hr). exists n.
  unfold sigop_cost. rewrite Hn. run. unfold WITNESS_SCALE_FACTOR. rewrite u64_ok by (unfold u64_max; lia). run.
  pose proof (len_nonneg (tx_input tx)).
  destruct (is_coinbase tx); [subst prevouts; eexists; split; [done|]; split; [done|lia]|].
  rewrite (proj2 (Z.eqb_eq _ _)) by done. run.
  pose proof (base_size_scripts tx) as Hs. unfold script_bytes in Hs.
  pose proof (sum_len_nonneg script_pubkey (tx_output tx)).
  assert (Hsig := script_sigs_small (tx_input tx) ltac:(lia)).
  destruct (input_sigop_costs_ok (E:=E) flags (tx_input tx) prevouts (n * 4)) as (cost & Hcost & Hle);
    [done|unfold len in Hp; lia|by apply Forall_and|lia|lia|].
  exists cost. split; [done|]. split; [exact Hcost|lia].
Qed.
End sigops.

(** ** Concrete instances *)

Definition encoded_order : OutPointOrder := {|
  outpoint_le a b := (countable.encode a <= countable.encode b)%positive;
  outpoint_le_dec a b := Pos.le_dec (countable.encode a) (countable.encode b) |}.

Lemma encoded_order_laws : @OutPointOrderLaws encoded_order.
Proof.
  constructor; cbn.
  - intros a b. lia.
  - intros a b c. cbn. lia.
  - intros a b Hab Hba. apply (inj countable.encode). cbn in *. lia.
Qed.

Lemma check_tx_iff_witness :
  @check_tx (constant_crate []) encoded_order
    (mkTransaction 2 0 [sample_input 4; sample_input 7] [mkTxOut 50 []; mkTxOut 7 []]) = Ok tt.
Proof.
  destruct (@check_tx_iff (constant_crate []) encoded_order encoded_order_laws
    (mkTransaction 2 0 [sample_input 4; sample_input 7] [mkTxOut 50 []; mkTxOut 7 []])) as [_ Hiff].
  - split; [repeat constructor; vm_compute; congruence|vm_compute; split; congruence].
  - apply Hiff. split_and!; try discriminate; try (vm_compute; congruence).
    + apply (bool_decide_unpack _). vm_compute. exact I.
    + vm_compute. repeat constructor.
Defined.

Definition sample_coin (n value height : Z) (cb : bool) : Coin :=
  mkCoin (mkOutPoint [] n) (mkTxOut value []) height cb.

Lemma check_tx_inputs_iff_witness :
  @check_tx_inputs (constant_crate []) (mkTransaction 2 0 [sample_input 4; sample_input 7] [mkTxOut 50 []])
    [sample_coin 4 30 5 true; sample_coin 7 40 105 false] 105 = Ok 20.
Proof.
  destruct (@check_tx_inputs_iff (constant_crate [])
    (mkTransaction 2 0 [sample_input 4; sample_input 7] [mkTxOut 50 []])
    [sample_coin 4 30 5 true; sample_coin 7 40 105 false] 105) as [_ Hiff].
  - reflexivity.
  - split; [repeat constructor|repeat constructor]; vm_compute; congruence.
  - vm_compute. congruence.
  - repeat constructor; vm_compute; congruence.
  - vm_compute. congruence.
  - apply Hiff. split_and!; try (vm_compute; congruence). repeat constructor; intros Hx; vm_compute in *; congruence.
Defined.

Definition sample_rules : Rules :=
  mkRules ScriptFlags.MANDATORY 1 true true true Enforce 5000000000.

Lemma locks_bip68_and_final_witness :
  sequence_locks_satisfied (E:=Empty_set) (mkTransaction 2 9 [sample_input 4] [])
    [mkLockBase 100 None] (mkContext 104 0 0 0 sample_rules) = Ok true /\
  is_final (mkTransaction 2 9 [sample_input 4] []) 10 0 = true.
Proof.
  destruct (locks_bip68_and_final (E:=Empty_set) (mkTransaction 2 9 [sample_input 4] [])
    [mkLockBase 100 None] (mkContext 104 0 0 0 sample_rules) 10 0) as [(b & Hb & _) Hfin].
  - constructor; [|constructor]. split; [vm_compute; split; congruence|].
    split; [intros t Ht; discriminate Ht|intros _ Hx; vm_compute in Hx; discriminate Hx].
  - vm_compute. congruence.
  - vm_compute. congruence.
  - split; [vm_compute in Hb; injection Hb as <-; vm_compute; reflexivity|].
    apply Hfin. right. left. vm_compute. split; reflexivity.
Defined.

(** A crate whose sizes are those of the serialization and whose ids are chosen by the lock
    time. *)
Definition sized_crate : BitcoinCrate := {|
  block_hash _ := MAINNET_GENESIS_HASH;
  compute_txid tx := le_bytes 32 (tx_lock_time tx + 1);
  compute_wtxid tx := le_bytes 32 (tx_lock_time tx + 1);
  base_size tx := 10 + script_bytes tx + 41 * len (tx_input tx) + 9 * len (tx_output tx);
  total_size tx := 12 + script_bytes tx + 41 * len (tx_input tx) + 9 * len (tx_output tx) + witness_bytes tx;
  outpoint_null := mkOutPoint (repeat x00 32) u32_max;
  is_null o := bool_decide (o = mkOutPoint (repeat x00 32) u32_max);
  is_coinbase tx := match tx_input tx with
    | [i] => bool_decide (previous_output i = mkOutPoint (repeat x00 32) u32_max) | _ => false end;
|}.

Lemma sized_crate_laws : @SizeLaws sized_crate /\ @IdLengths sized_crate /\ @CoinbaseLaw sized_crate.
Proof.
  split_and!; [constructor|constructor|]; try (intros tx; done).
  - intros tx. cbn. lia.
  - intros tx. cbn [base_size total_size sized_crate]. lia.
Qed.
