(* ===== verification/Merkle.v ===== *)
(** * Merkle: the block's merkle tree ([consensus/src/block/merkle.rs]) *)
From S2P Require Import Prelude Bitcoin SighashProofs.

Definition MERKLE_LEVELS_MAX : Z := 32.

Record MerkleRoot := mkMerkleRoot { root : bytes; mutated : bool }.

(** [as_chunks::<2>().0]: the whole pairs. *)
Fixpoint pairs {A} (l : list A) : list (A * A) :=
  match l with
  | a :: b :: l => (a, b) :: pairs l
  | _ => []
  end.

Section merkle.
Context `{Hashes} {E : Type}.

(** [for _ in 0..=MERKLE_LEVELS_MAX], left by [break] on a level of one. *)
Fixpoint merkle_loop (iterations : nat) (level : list bytes) (mutated : bool)
    : outcome E (list bytes * bool) :=
  match iterations with
  | O => Ok (level, mutated)
  | S iterations =>
      if len level <=? 1 then Ok (level, mutated)
      else
        let mutated := mutated || existsb (fun '(a, b) => bool_decide (a = b)) (pairs level) in
        level ←
          (if len level mod 2 =? 1 then l ← expect (last level); Ok (level ++ [l]) else Ok level);
        assert_ (len level mod 2 =? 0);;
        let parents := map (fun '(a, b) => sha256d (a ++ b)) (pairs level) in
        assert_ (len parents * 2 =? len level);;
        merkle_loop iterations parents mutated
  end.

Definition merkle_root (leaves : list bytes) : outcome E MerkleRoot :=
  let leaf_count := len leaves in
  '(level, mutated) ← merkle_loop (Z.to_nat (MERKLE_LEVELS_MAX + 1)) leaves false;
  assert_ (len level <=? 1);;
  (if leaf_count <=? 1 then assert_ (negb mutated) else Ok tt);;
  Ok (mkMerkleRoot (default (replicate 32 x00) (head level)) mutated).
End merkle.

(** ** The tree, level by level *)

Section tree.
Context `{Hashes}.

(** A level with its last hash repeated if there is an odd number of them. *)
Definition evened (l : list bytes) : list bytes :=
  if Nat.odd (length l) then l ++ option_list (last l) else l.

Definition parents (l : list bytes) : list bytes :=
  map (fun '(a, b) => sha256d (a ++ b)) (pairs (evened l)).

Definition twins (l : list bytes) : bool := existsb (fun '(a, b) => bool_decide (a = b)) (pairs l).

Lemma pairs_ind {A} (P : list A -> Prop) : P [] -> (forall a, P [a]) ->
  (forall a b l, P l -> P (a :: b :: l)) -> forall l, P l.
Proof.
  intros H0 H1 H2 l. enough (P l /\ forall a, P (a :: l)) by tauto.
  induction l as [|x l [IH IHc]]; [auto|]. split; [apply IHc|]. intros a. by apply H2.
Qed.

Lemma length_pairs {A} (l : list A) : length (pairs l) = (length l / 2)%nat.
Proof.
  induction l as [|a|a b l IH] using pairs_ind; [done|done|]. cbn [pairs length]. rewrite IH.
  replace (S (S (length l))) with (length l + 1 * 2)%nat by lia. rewrite Nat.div_add by lia. lia.
Qed.

Lemma pairs_inj {A} (l k : list A) : Nat.odd (length l) = false -> Nat.odd (length k) = false ->
  pairs l = pairs k -> l = k.
Proof.
  revert k; induction l as [|a|a b l IH] using pairs_ind; intros [|c [|d k]] Hl Hk Hp;
    try discriminate; [done|]. cbn in Hp. injection Hp as -> -> Hp. do 2 f_equal. by apply IH.
Qed.

Lemma length_evened l : length (evened l) = (2 * ((length l + 1) / 2))%nat.
Proof.
  unfold evened. pose proof (Nat.div_mod_eq (length l + 1) 2) as Hd.
  pose proof (Nat.mod_upper_bound (length l + 1) 2 ltac:(lia)).
  destruct (Nat.odd (length l)) eqn:Ho.
  - assert (Hex : exists n, length l = (2 * n + 1)%nat) by (apply Nat.odd_spec in Ho; exact Ho).
    destruct Hex as [n Hn]. destruct (last l) eqn:Hl; [|apply last_None in Hl as ->; discriminate].
    rewrite length_app. unfold option_list; cbn [from_option option_rect length]. lia.
  - assert (Hex : exists n, length l = (2 * n)%nat)
      by (rewrite <-Nat.negb_even in Ho; apply negb_false_iff in Ho; by apply Nat.even_spec in Ho).
    destruct Hex as [n Hn]. lia.
Qed.

Lemma length_parents l : length (parents l) = ((length l + 1) / 2)%nat.
Proof.
  unfold parents. rewrite length_map, length_pairs, length_evened, Nat.mul_comm.
  by apply Nat.div_mul.
Qed.

Lemma merkle_loop_step {E} n l m : (1 < length l)%nat ->
  merkle_loop (E:=E) (S n) l m = merkle_loop n (parents l) (m || twins l).
Proof.
  intros Hl. cbn [merkle_loop]. rewrite (proj2 (Z.leb_gt _ _)) by (unfold len; lia).
  assert (Hlevel : (if len l mod 2 =? 1 then x ← expect (last l); Ok (l ++ [x]) else Ok l) = Ok (E:=E) (evened l)).
  { unfold evened, len. destruct (Nat.odd (length l)) eqn:Ho.
    - rewrite (proj2 (Z.eqb_eq _ _)).
      + destruct (last l) eqn:Hx; [done|]. apply last_None in Hx as ->. cbn in Hl. lia.
      + apply Nat.odd_spec in Ho as [k ->]. dlia.
    - rewrite (proj2 (Z.eqb_neq _ _)); [done|].
      rewrite <-Nat.negb_even in Ho. apply negb_false_iff, Nat.even_spec in Ho as [k ->]. dlia. }
  rewrite Hlevel. run.
  assert (He : len (evened l) mod 2 = 0) by (unfold len; rewrite length_evened; dlia).
  rewrite He. run. change (map _ (pairs (evened l))) with (parents l).
  rewrite (proj2 (Z.eqb_eq (len (parents l) * 2) _)); [done|].
  unfold len. rewrite length_parents, length_evened. lia.
Qed.

Lemma merkle_loop_done {E} n l m : (length l <= 1)%nat -> merkle_loop (E:=E) n l m = Ok (l, m).
Proof. destruct n; [done|]. cbn [merkle_loop]. intros. by rewrite (proj2 (Z.leb_le _ _)) by (unfold len; lia). Qed.

(** The level of height [n] above the leaves, and whether a level below it had twins. *)
Fixpoint level_at (n : nat) (l : list bytes) : list bytes :=
  match n with O => l | S n => level_at n (parents l) end.
Fixpoint twins_below (n : nat) (l : list bytes) : bool :=
  match n with O => false | S n => twins l || twins_below n (parents l) end.

Definition depth (l : list bytes) : nat := Nat.log2_up (length l).

Lemma depth_parents l : (1 < length l)%nat -> depth l = S (depth (parents l)).
Proof.
  intros Hl. unfold depth. rewrite length_parents.
  destruct (Nat.Even_or_Odd (length l)) as [[k Hk]|[k Hk]]; rewrite Hk in *.
  - replace ((2 * k + 1) / 2)%nat with k by (apply (Nat.div_unique _ _ _ 1); lia).
    apply Nat.log2_up_double. lia.
  - replace ((2 * k + 1 + 1) / 2)%nat with (S k) by (apply (Nat.div_unique _ _ _ 0); lia).
    rewrite Nat.log2_up_succ_double by lia. rewrite (Nat.log2_up_eqn (S k)) by lia. done.
Qed.

Lemma merkle_loop_eq {E} d : forall n l m, depth l = d -> (d <= n)%nat ->
  exists top, merkle_loop (E:=E) n l m = Ok (top, m || twins_below d l) /\
    top = level_at d l /\ (length top <= 1)%nat.
Proof.
  induction d as [|d IH]; intros n l m Hd Hn.
  - assert (Hl : (length l <= 1)%nat) by (unfold depth in Hd; apply Nat.log2_up_null in Hd; lia).
    rewrite merkle_loop_done by done. exists l. split_and!; [|done|done]. by rewrite orb_false_r.
  - assert (Hl : (1 < length l)%nat) by (unfold depth in Hd; pose proof (proj2 (Nat.log2_up_null (length l))); lia).
    destruct n as [|n]; [lia|]. rewrite merkle_loop_step by done.
    destruct (IH n (parents l) (m || twins l)) as (top & -> & -> & Ht);
      [rewrite depth_parents in Hd by done; by injection Hd|lia|].
    exists (level_at d (parents l)). split_and!; [|done|done]. cbn [twins_below]. by rewrite orb_assoc.
Qed.
End tree.

(** ** What the root binds *)

Section binding.
Context `{HL : HashLengths}.

(** Two different 64-byte messages with one double SHA-256. *)
Definition collision : Prop :=
  exists a b : bytes, length a = 64%nat /\ length b = 64%nat /\ a <> b /\ sha256d a = sha256d b.

Definition hashes_ok (l : list bytes) : Prop := Forall (fun x => length x = 32%nat) l.

Lemma hashes_evened l : hashes_ok l -> hashes_ok (evened l).
Proof.
  intros Hl. unfold evened. destruct (Nat.odd _); [|done]. apply Forall_app. split; [done|].
  destruct (last l) as [x|] eqn:Hx; [|constructor]. apply last_Some in Hx as [k ->].
  apply Forall_app in Hl as [_ Hl]. done.
Qed.

Lemma hashes_parents l : hashes_ok (parents l).
Proof.
  unfold parents, hashes_ok. apply Forall_map, Forall_forall. intros [a b] _. apply length_sha256d.
Qed.

Lemma even_evened l : Nat.odd (length (evened l)) = false.
Proof.
  rewrite length_evened, <-Nat.negb_even, Nat.even_mul. done.
Qed.

Lemma parents_pairs l k : hashes_ok l -> hashes_ok k ->
  map (fun '(a, b) => sha256d (a ++ b)) (pairs l) = map (fun '(a, b) => sha256d (a ++ b)) (pairs k) ->
  pairs l = pairs k \/ collision.
Proof.
  revert k; induction l as [|a|a b l IH] using pairs_ind; intros [|c [|d k]] Hl Hk Heq; cbn in Heq;
    try discriminate; [by left..|].
  injection Heq as Hh Ht.
  apply Forall_cons in Hl as [Ha Hl]. apply Forall_cons in Hl as [Hb Hl].
  apply Forall_cons in Hk as [Hc Hk]. apply Forall_cons in Hk as [Hd Hk].
  destruct (decide (a ++ b = c ++ d)) as [Happ|Hne].
  - apply app_inj_1 in Happ as [-> ->]; [|congruence]. cbn. destruct (IH k Hl Hk Ht) as [->|]; auto.
  - right. exists (a ++ b), (c ++ d). rewrite !length_app. split_and!; [lia|lia|done|done].
Qed.

(** A level that had to be evened is never the evened form of another without twins. *)
Lemma twins_snoc l x : Nat.odd (length l) = true -> last l = Some x -> twins (l ++ [x]) = true.
Proof.
  unfold twins. induction l as [|a|a b l IH] using pairs_ind; intros Ho Hx; [done| |].
  - injection Hx as ->. cbn. by rewrite bool_decide_eq_true_2.
  - cbn [app pairs existsb]. apply orb_true_iff. right. apply IH; [done|]. by destruct l.
Qed.

Lemma evened_inj l k : evened l = evened k -> twins l = false -> twins k = false -> l = k.
Proof.
  assert (Hcase : forall l k, Nat.odd (length l) = true -> Nat.odd (length k) = false ->
    l ++ option_list (last l) = k -> twins k = false -> False).
  { intros l' k' Ho _ <- Ht. destruct (last l') as [x|] eqn:Hx.
    - unfold option_list in Ht. cbn in Ht. rewrite (twins_snoc l' x) in Ht by done. done.
    - apply last_None in Hx as ->. done. }
  unfold evened. destruct (Nat.odd (length l)) eqn:Hl, (Nat.odd (length k)) eqn:Hk; intros Heq Htl Htk.
  - destruct (last l) as [x|] eqn:Hx; [|apply last_None in Hx as ->; done].
    destruct (last k) as [y|] eqn:Hy; [|apply last_None in Hy as ->; done].
    unfold option_list in Heq. cbn in Heq. by apply app_inj_2 in Heq as [-> _].
  - exfalso. by apply (Hcase l k).
  - exfalso. apply (Hcase k l); done.
  - done.
Qed.

Lemma level_binding d : forall l k, hashes_ok l -> hashes_ok k -> depth l = d -> depth k = d ->
  level_at d l = level_at d k -> twins_below d l = false -> twins_below d k = false ->
  l = k \/ collision.
Proof.
  induction d as [|d IH]; intros l k Hl Hk Hdl Hdk Heq Htl Htk; [by left|].
  assert (H1l : (1 < length l)%nat) by (unfold depth in Hdl; pose proof (proj2 (Nat.log2_up_null (length l))); lia).
  assert (H1k : (1 < length k)%nat) by (unfold depth in Hdk; pose proof (proj2 (Nat.log2_up_null (length k))); lia).
  rewrite depth_parents in Hdl, Hdk by done. cbn in Heq, Htl, Htk.
  apply orb_false_iff in Htl as [Htl Htl'], Htk as [Htk Htk'].
  destruct (IH (parents l) (parents k)) as [Hp|]; auto using hashes_parents.
  destruct (parents_pairs (evened l) (evened k)) as [Hpairs|]; auto using hashes_evened.
  left. apply evened_inj; [|done|done]. apply pairs_inj; auto using even_evened.
Qed.

Lemma merkle_root_eq {E} l : len l <= 2 ^ 33 ->
  merkle_root (E:=E) l = Ok (mkMerkleRoot (default (replicate 32 x00) (head (level_at (depth l) l)))
    (twins_below (depth l) l)).
Proof.
  intros Hl. unfold merkle_root. change (Z.to_nat (MERKLE_LEVELS_MAX + 1)) with 33%nat.
  destruct (merkle_loop_eq (E:=E) (depth l) 33 l false eq_refl) as (top & -> & -> & Ht).
  { unfold depth. destruct (decide (length l = 0%nat)) as [->|]; [cbn; lia|].
    apply Nat.log2_up_le_pow2; [lia|]. apply Nat2Z.inj_le. rewrite Nat2Z.inj_pow. exact Hl. }
  run. rewrite (proj2 (Z.leb_le (len (level_at _ _)) 1)) by (unfold len; lia). run.
  destruct (Z.leb_spec (len l) 1) as [H1|]; [|done].
  assert (depth l = 0%nat) as -> by (unfold depth; apply Nat.log2_up_null; unfold len in H1; lia). done.
Qed.

Lemma level_at_top l : l <> [] -> exists r, level_at (depth l) l = [r].
Proof.
  intros Hne. remember (depth l) as d eqn:Hd. revert l Hne Hd; induction d as [|d IH]; intros l Hne Hd.
  - symmetry in Hd. unfold depth in Hd. apply Nat.log2_up_null in Hd. destruct l as [|r [|]]; cbn in Hd; [done|by exists r|lia].
  - assert (Hl : (1 < length l)%nat) by (unfold depth in Hd; pose proof (proj2 (Nat.log2_up_null (length l))); lia).
    cbn [level_at]. apply IH; [|rewrite depth_parents in Hd by done; by injection Hd].
    intros Hp. apply (f_equal length) in Hp. rewrite length_parents in Hp. cbn [length] in Hp.
    apply Nat.div_small_iff in Hp; lia.
Qed.

(** The merkle root is computed for every block without a panic and without running out
    of its 33 levels, and an unmutated root binds the transaction list: two lists of ids
    whose trees have the same height, with the same root and neither flagged as mutated, are
    the same list, or else they exhibit a collision of double SHA-256. This is what the
    mutation flag buys against CVE-2012-2459. *)
Theorem merkle_root_binding {E} l k : l <> [] -> k <> [] -> hashes_ok l -> hashes_ok k ->
  len l <= 2 ^ 33 -> len k <= 2 ^ 33 -> depth l = depth k ->
  exists rl rk, merkle_root (E:=E) l = Ok rl /\ merkle_root (E:=E) k = Ok rk /\
    (root rl = root rk -> mutated rl = false -> mutated rk = false -> l = k \/ collision).
Proof.
  intros Hnl Hnk Hl Hk Hll Hlk Hd. rewrite !merkle_root_eq by done. eexists _, _. split; [done|]. split; [done|].
  cbn [root mutated]. destruct (level_at_top l Hnl) as [r Hr]. destruct (level_at_top k Hnk) as [s Hs].
  rewrite Hr, Hs. cbn. intros <- Htl Htk.
  apply (level_binding (depth l)); [done|done|done|done| |done|by rewrite Hd].
  rewrite Hr, Hd. done.
Qed.

(** The malleability the flag detects: repeating the last id of a list of odd length
    (more than one) leaves the merkle root as it was, and the longer list is always flagged
    as mutated, so it is refused without condemning the header. *)
Theorem merkle_duplicate_flagged {E} l x : 1 < len l <= 2 ^ 32 -> Nat.odd (length l) = true ->
  last l = Some x ->
  exists r r', merkle_root (E:=E) l = Ok r /\ merkle_root (E:=E) (l ++ [x]) = Ok r' /\
    root r' = root r /\ mutated r' = true.
Proof.
  intros Hl Ho Hx.
  assert (He : evened (l ++ [x]) = evened l).
  { unfold evened. rewrite Ho, Hx, length_app. cbn [length].
    rewrite Nat.add_1_r, Nat.odd_succ, <-Nat.negb_odd, Ho. done. }
  assert (Hp : parents (l ++ [x]) = parents l) by (unfold parents; by rewrite He).
  assert (H0 : (1 < length l)%nat) by (unfold len in Hl; lia).
  assert (H1 : (1 < length (l ++ [x]))%nat) by (rewrite length_app; cbn; lia).
  rewrite !merkle_root_eq; [|rewrite len_app; change (len [x]) with 1; lia|lia].
  eexists _, _. split; [done|]. split; [done|]. cbn [root mutated].
  rewrite (depth_parents l), (depth_parents (l ++ [x])), Hp by (done || lia). cbn [level_at twins_below].
  rewrite Hp. split; [done|]. by rewrite (twins_snoc l x).
Qed.
End binding.

Definition leaf (b : byte) : bytes := repeat b 32.

Lemma merkle_root_binding_witness :
  exists rl rk, @merkle_root prefix_hashes Empty_set [leaf x01; leaf x02; leaf x03] = Ok rl /\
    @merkle_root prefix_hashes Empty_set [leaf x01; leaf x02; leaf x03; leaf x04] = Ok rk /\
    mutated rl = false /\ mutated rk = false.
Proof.
  destruct (@merkle_root_binding prefix_hashes prefix_hash_lengths Empty_set
    [leaf x01; leaf x02; leaf x03] [leaf x01; leaf x02; leaf x03; leaf x04]) as (rl & rk & Hl & Hk & _).
  - discriminate.
  - discriminate.
  - repeat constructor.
  - repeat constructor.
  - vm_compute. congruence.
  - vm_compute. congruence.
  - reflexivity.
  - exists rl, rk. split_and!; [exact Hl|exact Hk| |]; vm_compute in Hl, Hk; injection Hl as <-;
      injection Hk as <-; reflexivity.
Defined.

Lemma merkle_duplicate_flagged_witness :
  exists r r', @merkle_root prefix_hashes Empty_set [leaf x01; leaf x02; leaf x03] = Ok r /\
    @merkle_root prefix_hashes Empty_set [leaf x01; leaf x02; leaf x03; leaf x03] = Ok r' /\
    root r' = root r /\ mutated r' = true.
Proof.
  apply (@merkle_duplicate_flagged prefix_hashes Empty_set [leaf x01; leaf x02; leaf x03] (leaf x03)).
  - vm_compute. split; congruence.
  - reflexivity.
  - reflexivity.
Defined.
