(* ===== verification/Signet.v ===== *)
(** * Signet: the solution a signet block carries ([consensus/src/block/signet/mod.rs])

    [usize] has 64 bits, so converting a [u64] length to it never fails. *)
From Stdlib Require Import String Ascii.
From S2P Require Import Prelude Bitcoin Flags Params Script Reader SigScript Sighash Checker Verify Merkle.

(** [block/mod.rs]: where the witness commitment of a coinbase is. *)
Definition WITNESS_COMMITMENT_SIZE_MIN : Z := 38.
Definition WITNESS_COMMITMENT_HEADER : bytes := [x6a; x24; xaa; x21; xa9; xed].

Definition witness_commitment_index (coinbase : Transaction) : option Z :=
  fold_left (fun found '(index, output) =>
    let script := script_pubkey output in
    if (WITNESS_COMMITMENT_SIZE_MIN <=? len script) && starts_with script WITNESS_COMMITMENT_HEADER
    then Some index else found) (enumerate (tx_output coinbase)) None.

Definition SIGNET_HEADER : bytes := [xec; xc7; xda; xa2].

Definition BLOCK_SCRIPT_FLAGS : ScriptFlags.ScriptFlags :=
  ScriptFlags.union (ScriptFlags.union (ScriptFlags.union ScriptFlags.P2SH ScriptFlags.WITNESS)
    ScriptFlags.DERSIG) ScriptFlags.NULLDUMMY.

Definition DEFAULT_CHALLENGE_HEX : string :=
  "512103ad5e0edad18cb1f0fc0d28a3d4f1f3e445640337489abb10404f2d1e086be430210359ef5021964fe22d6f8e05b2463c9540ce96883fe3b278760f048f5189f2e6c452ae".

Definition DEFAULT_CHALLENGE : bytes := Eval vm_compute in
  constant (hex_bytes 71 DEFAULT_CHALLENGE_HEX).

Definition BLOCK_DATA_SIZE : Z := 4 + 32 + 32 + 4.
Definition MAX_SERIALIZED_SIZE : Z := 0x02000000.

Inductive SignetError :=
| SignetCoinbaseMissing
| NoWitnessCommitment
| MalformedSolution
| ExtraneousSolutionData (extra : Z)
| SignetScript (error : ScriptError).

Record SignetTxs := mkSignetTxs { to_spend : Transaction; to_sign : Transaction }.

Definition spent_output {E} (self : SignetTxs) : outcome E TxOut :=
  expect (head (tx_output (to_spend self))).

(** ** The cursor over a solution *)

Module Cursor.
Record Cursor := mkCursor { bytes_ : bytes; position : Z }.

Definition new (b : bytes) : Cursor := mkCursor b 0.

Definition remaining {E} (self : Cursor) : outcome E Z :=
  assert_ (position self <=? len (bytes_ self));;
  Ok (len (bytes_ self) - position self).

Definition take (self : Cursor) (count : Z) : outcome SignetError (bytes * Cursor) :=
  let end_ := position self + count in
  if u64_max <? end_ then Err MalformedSolution
  else
    match slice (bytes_ self) (position self) end_ with
    | None => Err MalformedSolution
    | Some taken =>
        assert_ (end_ <=? len (bytes_ self));;
        Ok (taken, mkCursor (bytes_ self) end_)
    end.

Definition read_compact_size (self : Cursor) : outcome SignetError (Z * Cursor) :=
  '(t, self) ← take self 1;
  first ← expect (bz <$> head t);
  '(value, self) ←
    (if first <=? 252 then Ok (first, self)
     else if first =? 253 then
       '(t, self) ← take self 2;
       if le_val t <? 253 then Err MalformedSolution else Ok (le_val t, self)
     else if first =? 254 then
       '(t, self) ← take self 4;
       if le_val t <? 0x10000 then Err MalformedSolution else Ok (le_val t, self)
     else
       '(t, self) ← take self 8;
       if le_val t <? 0x100000000 then Err MalformedSolution else Ok (le_val t, self));
  if MAX_SERIALIZED_SIZE <? value then Err MalformedSolution else Ok (value, self).

Definition read_bytes (self : Cursor) : outcome SignetError (bytes * Cursor) :=
  '(n, self) ← read_compact_size self;
  take self n.

(** [for _ in 0..count { items.push(cursor.read_bytes()?) }]. *)
Fixpoint read_items (count : nat) (self : Cursor) : outcome SignetError (list bytes * Cursor) :=
  match count with
  | O => Ok ([], self)
  | S count =>
      '(item, self) ← read_bytes self;
      '(items, self) ← read_items count self;
      Ok (item :: items, self)
  end.
End Cursor.

Definition parse_solution (solution : bytes) : outcome SignetError (bytes * list bytes) :=
  let cursor := Cursor.new solution in
  '(script_sig, cursor) ← Cursor.read_bytes cursor;
  '(count, cursor) ← Cursor.read_compact_size cursor;
  left_ ← Cursor.remaining cursor;
  if left_ <? count then Err MalformedSolution
  else
    '(items, cursor) ← Cursor.read_items (Z.to_nat count) cursor;
    assert_ (len items =? count);;
    extra ← Cursor.remaining cursor;
    if 0 <? extra then Err (ExtraneousSolutionData extra)
    else Ok (script_sig, items).

(** ** The transactions *)

Record Cleared := mkCleared { replacement : bytes; solution : bytes }.

(** [while let Some(op) = reader.next_op()]. *)
Fixpoint clear_loop {E} (fuel : nat) (reader : Reader.Reader) (replacement solution : bytes)
    (found : bool) : outcome E (bytes * bytes * bool) :=
  match fuel with
  | O => Panic
  | S fuel =>
      '(op, reader) ← Reader.next_op reader;
      match op with
      | None => Ok (replacement, solution, found)
      | Some (inr _) => Ok (replacement, solution, found)
      | Some (inl op) =>
          if len (op_push op) =? 0 then
            clear_loop fuel reader (replacement ++ [zb (op_opcode op)]) solution found
          else
            let push := op_push op in
            let is_section := negb found && (len SIGNET_HEADER <? len push) &&
              starts_with push SIGNET_HEADER in
            let '(push, solution, found) :=
              if is_section
              then (take (length SIGNET_HEADER) push, solution ++ drop (length SIGNET_HEADER) push, true)
              else (push, solution, found) in
            p ← push_encoding push;
            clear_loop fuel reader (replacement ++ p) solution found
      end
  end.

Definition fetch_and_clear_commitment_section {E} (commitment : bytes) : outcome E (option Cleared) :=
  '(replacement, solution, found) ←
    clear_loop (S (length commitment)) (Reader.new commitment) [] [] false;
  Ok (if (found : bool) then Some (mkCleared replacement solution) else None).

Definition to_spend_tx {E} `{BitcoinCrate} (challenge block_data : bytes) : outcome E Transaction :=
  assert_ (len block_data =? BLOCK_DATA_SIZE);;
  p ← push_encoding block_data;
  Ok {| tx_version := 0; tx_lock_time := 0;
        tx_input := [{| previous_output := outpoint_null; script_sig := zb OP_0 :: p;
                        sequence := 0; witness := [] |}];
        tx_output := [{| txout_value := 0; script_pubkey := challenge |}] |}.

Definition to_sign_tx (to_spend : bytes) (script_sig : bytes) (witness : list bytes) : Transaction :=
  {| tx_version := 0; tx_lock_time := 0;
     tx_input := [{| previous_output := mkOutPoint to_spend 0; script_sig := script_sig;
                     sequence := 0; witness := witness |}];
     tx_output := [{| txout_value := 0; script_pubkey := [zb OP_RETURN] |}] |}.

Section signet.
Context `{Hashes} `{Encoding} `{BitcoinCrate} `{Secp256k1}.

Definition modified_merkle_root {E} (modified_coinbase : Transaction) (block : Block) : outcome E bytes :=
  assert_ (negb (len (blk_txdata block) =? 0));;
  let leaves := compute_txid modified_coinbase :: map compute_txid (drop 1 (blk_txdata block)) in
  assert_ (len leaves =? len (blk_txdata block));;
  r ← merkle_root leaves;
  Ok (root r).

Definition block_data {E} (header : Header) (modified_coinbase : Transaction) (block : Block)
    : outcome E bytes :=
  merkle ← modified_merkle_root modified_coinbase block;
  let data := le_bytes 4 (hdr_version header) ++ hdr_prev_blockhash header ++ merkle ++
    le_bytes 4 (hdr_time header) in
  assert_ (len data =? BLOCK_DATA_SIZE);;
  Ok data.

(** [Vec::get_mut] and an assignment to the output's script. *)
Definition set_output_script (tx : Transaction) (index : Z) (script : bytes) : Transaction :=
  {| tx_version := tx_version tx; tx_lock_time := tx_lock_time tx; tx_input := tx_input tx;
     tx_output := alter (fun o => mkTxOut (txout_value o) script) (Z.to_nat index) (tx_output tx) |}.

Definition signet_txs (block : Block) (challenge : bytes) : outcome SignetError SignetTxs :=
  match head (blk_txdata block) with
  | None => Err SignetCoinbaseMissing
  | Some coinbase =>
      match witness_commitment_index coinbase with
      | None => Err NoWitnessCommitment
      | Some commitment_index =>
          commitment ← expect (get (tx_output coinbase) commitment_index);
          cleared ← fetch_and_clear_commitment_section (script_pubkey commitment);
          let modified := match cleared with
            | Some c => set_output_script coinbase commitment_index (replacement c)
            | None => coinbase
            end in
          data ← block_data (blk_header block) modified block;
          to_spend ← to_spend_tx challenge data;
          '(script_sig, witness) ←
            (match cleared with
             | Some c => parse_solution (solution c)
             | None => Ok ([], [])
             end);
          Ok (mkSignetTxs to_spend (to_sign_tx (compute_txid to_spend) script_sig witness))
      end
  end.

Definition check_signet_solution (block : Block) (challenge : bytes) : outcome SignetError unit :=
  assert_ (negb (len challenge =? 0));;
  txs ← signet_txs block challenge;
  o ← spent_output txs;
  let prevouts := [o] in
  precomputed ← new_precomputed (to_sign txs) prevouts;
  map_err SignetScript (verify_input (to_sign txs) 0 prevouts precomputed BLOCK_SCRIPT_FLAGS).
End signet.
