(* ===== verification/SignetProofs.v ===== *)
(** * SignetProofs: the solution format is canonical, and checking a solution never panics *)
From S2P Require Import Prelude Bitcoin Flags Params Script Reader SigScript Sighash SighashProofs Checker Verify VerifyProofs VerifySafety Merkle Signet.

(** ** The serialization a solution must have *)

Definition compact_size (v : Z) : bytes :=
  if v <=? 252 then [zb v]
  else if v <=? 0xffff then xfd :: le_bytes 2 v
  else if v <=? 0xffffffff then xfe :: le_bytes 4 v
  else xff :: le_bytes 8 v.

Definition serialize_item (x : bytes) : bytes := compact_size (len x) ++ x.

Definition serialize_solution (script_sig : bytes) (items : list bytes) : bytes :=
  serialize_item script_sig ++ compact_size (len items) ++ concat (map serialize_item items).

Definition fits {A} (l : list A) : Prop := len l <= MAX_SERIALIZED_SIZE.

(** A cursor after [pre], before [rest]. *)
Definition at_ (pre rest : bytes) : Cursor.Cursor := Cursor.mkCursor (pre ++ rest) (len pre).

(** A length the cursor can hold. *)
Definition short (l : bytes) : Prop := len l <= 2 ^ 62.

Lemma remaining_at {E} pre rest : Cursor.remaining (E:=E) (at_ pre rest) = Ok (len rest).
Proof.
  unfold Cursor.remaining, at_; cbn [Cursor.bytes_ Cursor.position]. rewrite len_app.
  pose proof (len_nonneg rest). rewrite (proj2 (Z.leb_le _ _)) by lia. run. f_equal. lia.
Qed.

Lemma take_at pre x rest : Cursor.take (at_ pre (x ++ rest)) (len x) =
  if u64_max <? len pre + len x then Err MalformedSolution else Ok (x, at_ (pre ++ x) rest).
Proof.
  unfold Cursor.take, at_; cbn [Cursor.bytes_ Cursor.position]. destruct (u64_max <? _); [done|].
  rewrite (slice_middle pre x rest) by done. rewrite !len_app. pose proof (len_nonneg rest).
  rewrite (proj2 (Z.leb_le _ _)) by lia. run. by rewrite <- app_assoc.
Qed.

Lemma take_at_short pre x rest : short (pre ++ x ++ rest) ->
  Cursor.take (at_ pre (x ++ rest)) (len x) = Ok (x, at_ (pre ++ x) rest).
Proof.
  unfold short. rewrite !len_app. intros Hs. pose proof (len_nonneg rest).
  rewrite take_at, (proj2 (Z.ltb_ge _ _)); [done|unfold u64_max; lia].
Qed.

Lemma take_past pre rest n : 0 <= n -> len rest < n -> Cursor.take (at_ pre rest) n = Err MalformedSolution.
Proof.
  intros Hn Hr. unfold Cursor.take, at_; cbn [Cursor.bytes_ Cursor.position].
  destruct (u64_max <? _); [done|]. destruct (slice _ _ _) as [s|] eqn:Hs; [|done].
  apply slice_Some in Hs. rewrite len_app in Hs. lia.
Qed.

(** Reading [n] bytes splits what is left, or fails. *)
Lemma take_cases pre rest n : 0 <= n -> short (pre ++ rest) ->
  (exists x r, rest = x ++ r /\ len x = n) \/ Cursor.take (at_ pre rest) n = Err MalformedSolution.
Proof.
  intros Hn Hs. destruct (Z.leb_spec n (len rest)) as [Hle|Hgt]; [left|right; by apply take_past].
  exists (take (Z.to_nat n) rest), (drop (Z.to_nat n) rest). rewrite take_drop. split; [done|].
  unfold len in *. rewrite length_take. lia.
Qed.

(** ** Reading back what was written *)

Lemma read_field pre (k : nat) v rest : 0 <= v < 256 ^ Z.of_nat k -> short (pre ++ le_bytes k v ++ rest) ->
  Cursor.take (at_ pre (le_bytes k v ++ rest)) (Z.of_nat k) = Ok (le_bytes k v, at_ (pre ++ le_bytes k v) rest) /\
  le_val (le_bytes k v) = v.
Proof.
  intros Hv Hs. split; [|rewrite le_val_bytes; apply Z.mod_small; lia].
  pose proof (take_at_short pre (le_bytes k v) rest Hs) as Ht. unfold len in Ht.
  by rewrite length_le_bytes in Ht.
Qed.

Lemma short_cons pre x l : short (pre ++ x :: l) -> short ((pre ++ [x]) ++ l).
Proof. by rewrite <- app_assoc. Qed.

Lemma read_first pre b rest : short (pre ++ b :: rest) ->
  Cursor.take (at_ pre (b :: rest)) 1 = Ok ([b], at_ (pre ++ [b]) rest).
Proof. intros Hs. exact (take_at_short pre [b] rest Hs). Qed.

Lemma read_compact_size_ok pre v rest : 0 <= v <= MAX_SERIALIZED_SIZE ->
  short (pre ++ compact_size v ++ rest) ->
  Cursor.read_compact_size (at_ pre (compact_size v ++ rest)) = Ok (v, at_ (pre ++ compact_size v) rest).
Proof.
  intros Hv Hs. pose proof (proj2 Hv) as Hm. unfold MAX_SERIALIZED_SIZE in Hm.
  unfold Cursor.read_compact_size, compact_size in *.
  destruct (Z.leb_spec v 252).
  { cbn [app]. rewrite read_first by done. run. cbn [head fmap option_fmap option_map expect]. run.
    rewrite bz_zb_id by lia. rewrite (proj2 (Z.leb_le _ _)) by lia. run.
    by rewrite (proj2 (Z.ltb_ge _ _)) by lia. }
  destruct (Z.leb_spec v 0xffff); [|destruct (Z.leb_spec v 0xffffffff); [|lia]];
    cbn [app] in Hs |- *; rewrite read_first by done; run;
    cbn [head fmap option_fmap option_map expect]; run.
  - change (bz xfd) with 253. cbn [Z.leb Z.eqb Z.compare Pos.compare Pos.compare_cont Pos.eqb]. 
    destruct (read_field (pre ++ [xfd]) 2 v rest) as [Ht He]; [cbn; lia|by apply short_cons|].
    change (Z.of_nat 2) with 2 in Ht. rewrite Ht. run. rewrite He.
    rewrite (proj2 (Z.ltb_ge v 253)) by lia. run. rewrite (proj2 (Z.ltb_ge _ _)) by lia.
    by rewrite <- app_assoc.
  - change (bz xfe) with 254. cbn [Z.leb Z.eqb Z.compare Pos.compare Pos.compare_cont Pos.eqb].
    destruct (read_field (pre ++ [xfe]) 4 v rest) as [Ht He]; [cbn; lia|by apply short_cons|].
    change (Z.of_nat 4) with 4 in Ht. rewrite Ht. run. rewrite He.
    rewrite (proj2 (Z.ltb_ge v 0x10000)) by lia. run. rewrite (proj2 (Z.ltb_ge _ _)) by lia.
    by rewrite <- app_assoc.
Qed.

(** A field of [k] bytes after a marker: the canonical encoding of its value, or refused. *)
Lemma field_cases pre (k : nat) rest low (K : Z * Cursor.Cursor -> outcome SignetError (Z * Cursor.Cursor)) :
  short (pre ++ rest) ->
  (exists v r, rest = le_bytes k v ++ r /\ low <= v < 256 ^ Z.of_nat k /\ 0 <= v /\
    Cursor.take (at_ pre rest) (Z.of_nat k) = Ok (le_bytes k v, at_ (pre ++ le_bytes k v) r) /\
    le_val (le_bytes k v) = v) \/
  (('(t, self) ← Cursor.take (at_ pre rest) (Z.of_nat k);
    if le_val t <? low then Err MalformedSolution else Ok (le_val t, self)) ≫= K) = Err MalformedSolution.
Proof.
  intros Hs. destruct (take_cases pre rest (Z.of_nat k)) as [(x & r & -> & Hx)|Ht]; [lia|done| |right].
  - assert (Hl : length x = k) by (unfold len in Hx; lia). rewrite <- Hx, take_at_short by done. run.
    destruct (Z.ltb_spec (le_val x) low); [by right|left].
    exists (le_val x), r. pose proof (le_val_range x) as Hr. rewrite <- Hl, le_bytes_val.
    unfold len. split_and!; done || lia.
  - by rewrite Ht.
Qed.

Lemma read_compact_size_cases pre rest : short (pre ++ rest) ->
  (exists v r, 0 <= v <= MAX_SERIALIZED_SIZE /\ rest = compact_size v ++ r) \/
  Cursor.read_compact_size (at_ pre rest) = Err MalformedSolution.
Proof.
  intros Hs. destruct rest as [|b rest]; [right; unfold Cursor.read_compact_size; by rewrite take_past|].
  unfold Cursor.read_compact_size. rewrite read_first by done. run.
  cbn [head fmap option_fmap option_map expect]. run. apply short_cons in Hs.
  pose proof (bz_range b) as Hb. unfold compact_size.
  destruct (Z.leb_spec (bz b) 252) as [Hle|Hgt].
  { left. exists (bz b), rest. rewrite (proj2 (Z.leb_le _ _)), zb_bz by done. split; [|done].
    unfold MAX_SERIALIZED_SIZE. lia. }
  assert (Hfield : forall (k : nat) low m, bz b = bz m -> (k = 2 \/ k = 4 \/ k = 8)%nat -> 
    (forall v, low <= v < 256 ^ Z.of_nat k -> compact_size v = m :: le_bytes k v) ->
    let body := '(t, self) ← Cursor.take (at_ (pre ++ [b]) rest) (Z.of_nat k);
      if le_val t <? low then Err MalformedSolution else Ok (le_val t, self) in
    let r := '(value, self) ← body;
      if MAX_SERIALIZED_SIZE <? value then Err MalformedSolution else Ok (value, self) in
    (exists v r, 0 <= v <= MAX_SERIALIZED_SIZE /\ b :: rest = compact_size v ++ r) \/ r = Err MalformedSolution).
  { intros k low m Hm Hk Hc. cbv zeta. apply bz_inj in Hm as ->.
    destruct (field_cases (pre ++ [m]) k rest low
      (fun '(value, self) => if MAX_SERIALIZED_SIZE <? value then Err MalformedSolution else Ok (value, self)))
      as [(v & r & -> & Hv & Hv0 & Ht & He)|Hr]; [done| |by right].
    rewrite Ht. run. rewrite He, (proj2 (Z.ltb_ge v low)) by lia. run.
    destruct (Z.ltb_spec MAX_SERIALIZED_SIZE v); [by right|left]. exists v, r. by rewrite Hc by done. }
  cbv zeta in Hfield. fold (compact_size).
  destruct (Z.eqb_spec (bz b) 253) as [H3|H3].
  { apply (Hfield 2%nat 253 xfd); [done|tauto|]. intros v Hv. unfold compact_size.
    change (256 ^ Z.of_nat 2) with 65536 in Hv.
    rewrite (proj2 (Z.leb_gt _ _)), (proj2 (Z.leb_le _ _)) by lia. done. }
  destruct (Z.eqb_spec (bz b) 254) as [H4|H4].
  { apply (Hfield 4%nat 0x10000 xfe); [done|tauto|]. intros v Hv. unfold compact_size.
    change (256 ^ Z.of_nat 4) with 4294967296 in Hv.
    rewrite (proj2 (Z.leb_gt _ 252)), (proj2 (Z.leb_gt _ 0xffff)), (proj2 (Z.leb_le _ _)) by lia. done. }
  apply (Hfield 8%nat 0x100000000 xff); [change (bz xff) with 255; lia|tauto|]. intros v Hv. unfold compact_size.
  rewrite (proj2 (Z.leb_gt _ 252)), (proj2 (Z.leb_gt _ 0xffff)), (proj2 (Z.leb_gt _ 0xffffffff)) by lia. done.
Qed.

Lemma short_mid pre x rest : short (pre ++ x ++ rest) -> short ((pre ++ x) ++ rest).
Proof. by rewrite <- app_assoc. Qed.

Lemma read_bytes_ok pre x rest : fits x -> short (pre ++ serialize_item x ++ rest) ->
  Cursor.read_bytes (at_ pre (serialize_item x ++ rest)) = Ok (x, at_ (pre ++ serialize_item x) rest).
Proof.
  intros Hx Hs. unfold Cursor.read_bytes, serialize_item in *. rewrite <- app_assoc in *.
  rewrite read_compact_size_ok by (done || (split; [apply len_nonneg|exact Hx])). run.
  rewrite take_at_short by by apply short_mid. by rewrite <- app_assoc.
Qed.

Lemma read_bytes_cases pre rest : short (pre ++ rest) ->
  (exists x r, fits x /\ rest = serialize_item x ++ r) \/
  Cursor.read_bytes (at_ pre rest) = Err MalformedSolution.
Proof.
  intros Hs. destruct (read_compact_size_cases pre rest Hs) as [(v & r & Hv & ->)|He];
    [|right; unfold Cursor.read_bytes; by rewrite He].
  destruct (take_cases (pre ++ compact_size v) r v) as [(x & r' & -> & <-)|Ht]; [lia|by apply short_mid|left|right].
  - exists x, r'. split; [exact (proj2 Hv)|]. unfold serialize_item. by rewrite <- app_assoc.
  - unfold Cursor.read_bytes. rewrite read_compact_size_ok by done. run. exact Ht.
Qed.

Lemma read_items_ok items : forall pre rest, Forall fits items ->
  short (pre ++ concat (map serialize_item items) ++ rest) ->
  Cursor.read_items (length items) (at_ pre (concat (map serialize_item items) ++ rest)) =
    Ok (items, at_ (pre ++ concat (map serialize_item items)) rest).
Proof.
  induction items as [|x items IH]; intros pre rest Hf Hs;
    cbn [length Cursor.read_items map concat app] in *; [by rewrite app_nil_r|].
  inversion_clear Hf. rewrite <- app_assoc in *. rewrite read_bytes_ok by done. run.
  rewrite IH by (done || by apply short_mid). run. by rewrite <- app_assoc.
Qed.

Lemma read_items_cases n : forall pre rest, short (pre ++ rest) ->
  (exists items r, length items = n /\ Forall fits items /\ rest = concat (map serialize_item items) ++ r) \/
  Cursor.read_items n (at_ pre rest) = Err MalformedSolution.
Proof.
  induction n as [|n IH]; intros pre rest Hs; [left; by exists [], rest|].
  destruct (read_bytes_cases pre rest Hs) as [(x & r & Hx & ->)|He];
    [|right; cbn [Cursor.read_items]; by rewrite He].
  destruct (IH (pre ++ serialize_item x) r) as [(items & r' & Hl & Hf & ->)|He]; [by apply short_mid|left|right].
  - exists (x :: items), r'. split_and!; [cbn; by rewrite Hl|by constructor|]. cbn [map concat].
    by rewrite <- app_assoc.
  - cbn [Cursor.read_items]. rewrite read_bytes_ok by done. run. by rewrite He.
Qed.

Lemma compact_size_pos v : 1 <= len (compact_size v).
Proof.
  unfold compact_size. repeat case_match; rewrite len_cons;
    match goal with |- _ <= len ?l + 1 => pose proof (len_nonneg l); lia end.
Qed.

Lemma serialize_item_pos x : 1 <= len (serialize_item x).
Proof.
  unfold serialize_item. rewrite len_app. pose proof (len_nonneg x). pose proof (compact_size_pos (len x)). lia.
Qed.

Lemma items_len items : len items <= len (concat (map serialize_item items)).
Proof.
  induction items as [|x items IH]; [done|]. cbn [map concat]. rewrite len_cons, len_app.
  pose proof (serialize_item_pos x). lia.
Qed.

(** What the parser does with bytes that start as a solution does. *)
Lemma parse_prefix ss items rest : fits ss -> fits items -> Forall fits items ->
  short (serialize_solution ss items ++ rest) ->
  parse_solution (serialize_solution ss items ++ rest) =
    if 0 <? len rest then Err (ExtraneousSolutionData (len rest)) else Ok (ss, items).
Proof.
  intros Hss Hn Hf Hs. unfold parse_solution, serialize_solution in *. rewrite <- !app_assoc in *.
  change (Cursor.new ?b) with (at_ [] b). rewrite read_bytes_ok by done. run.
  rewrite read_compact_size_ok by (done || (split; [apply len_nonneg|exact Hn])). run. rewrite remaining_at. run.
  pose proof (items_len items). pose proof (len_nonneg rest). rewrite len_app.
  rewrite (proj2 (Z.ltb_ge _ _)) by lia. replace (Z.to_nat (len items)) with (length items) by (unfold len; lia).
  rewrite read_items_ok by (done || (cbn [app]; rewrite <- ?app_assoc; done)). run.
  rewrite Z.eqb_refl. run. rewrite remaining_at. run. done.
Qed.

Lemma parse_solution_spec b : short b ->
  parse_solution b <> Panic /\
  (forall ss items, parse_solution b = Ok (ss, items) <->
    b = serialize_solution ss items /\ fits ss /\ fits items /\ Forall fits items).
Proof.
  intros Hs. assert (Hc : (exists ss items rest, b = serialize_solution ss items ++ rest /\
    fits ss /\ fits items /\ Forall fits items) \/ parse_solution b = Err MalformedSolution).
  { unfold parse_solution. change (Cursor.new b) with (at_ [] b).
    destruct (read_bytes_cases [] b Hs) as [(ss & r & Hss & ->)|He]; [|right; by rewrite He].
    rewrite read_bytes_ok by done. run. apply (short_mid []) in Hs.
    destruct (read_compact_size_cases _ r Hs) as [(n & r1 & Hn & ->)|He]; [|right; by rewrite He].
    rewrite read_compact_size_ok by done. run. rewrite remaining_at. run.
    destruct (Z.ltb_spec (len r1) n); [by right|]. apply short_mid in Hs.
    destruct (read_items_cases (Z.to_nat n) _ r1 Hs) as [(items & r2 & Hl & Hf & ->)|He]; [|right; by rewrite He].
    left. exists ss, items, r2. unfold serialize_solution. rewrite <- !app_assoc.
    assert (len items = n) as -> by (unfold len; lia). split_and!; try done. unfold fits, len. lia. }
  destruct Hc as [(ss & items & rest & -> & Hss & Hn & Hf)|He]; [|rewrite He].
  - rewrite parse_prefix by done. destruct (Z.ltb_spec 0 (len rest)) as [Hr|Hr].
    + split; [done|]. intros ss' items'. split; [done|]. intros (Heq & Hss' & Hn' & Hf').
      pose proof (parse_prefix ss' items' [] Hss' Hn' Hf') as Hp. rewrite app_nil_r, <- Heq in Hp.
      rewrite parse_prefix in Hp by done. rewrite (proj2 (Z.ltb_lt _ _)) in Hp by done.
      by specialize (Hp Hs).
    + assert (rest = []) as -> by (destruct rest; [done|rewrite len_cons in Hr; pose proof (len_nonneg rest); lia]).
      rewrite app_nil_r in *. split; [done|]. intros ss' items'. split; [by intros [= <- <-]|].
      intros (Heq & Hss' & Hn' & Hf'). pose proof (parse_prefix ss' items' [] Hss' Hn' Hf') as Hp.
      pose proof (parse_prefix ss items [] Hss Hn Hf) as Hp2. rewrite !app_nil_r in *.
      rewrite Heq in Hs, Hp2. rewrite Hp in Hp2 by done. symmetry. by apply Hp2.
  - split; [done|]. intros ss items. split; [done|]. intros (-> & Hss & Hn & Hf).
    pose proof (parse_prefix ss items [] Hss Hn Hf) as Hp. rewrite app_nil_r, He in Hp. by specialize (Hp Hs).
Qed.

(** The solution of a signet block has one serialization only: [parse_solution] never
    panics, accepts exactly the canonical serialization of a scriptSig and a witness whose
    parts are within Core's size limit, and returns them; anything after it is refused with
    its length. *)
Theorem parse_solution_canonical b : short b ->
  parse_solution b <> Panic /\
  (forall ss items, parse_solution b = Ok (ss, items) <->
    b = serialize_solution ss items /\ fits ss /\ fits items /\ Forall fits items).
Proof. exact (parse_solution_spec b). Qed.

Lemma parse_solution_canonical_witness :
  parse_solution [x01; x51; x02; x00; x01; xaa] = Ok ([x51], [[]; [xaa]]) /\
  parse_solution [x00; x00; x00] <> Panic.
Proof.
  split.
  - apply (proj2 (parse_solution_canonical [x01; x51; x02; x00; x01; xaa] ltac:(vm_compute; congruence))).
    split; [reflexivity|]. split; [vm_compute; congruence|]. split; [vm_compute; congruence|].
    constructor; [vm_compute; congruence|]. constructor; [vm_compute; congruence|constructor].
  - apply (parse_solution_canonical [x00; x00; x00]). vm_compute. congruence.
Defined.

(** ** Checking a solution *)

Lemma clear_loop_ok {E} n : forall r replacement solution found, reader_ok r ->
  len (Reader.script r) <= u32_max -> len (Reader.script r) - Reader.position r < Z.of_nat n ->
  exists a b f, clear_loop (E:=E) n r replacement solution found = Ok (a, b, f) /\
    len b <= len solution + (len (Reader.script r) - Reader.position r).
Proof.
  induction n as [|n IH]; intros r rep sol found Hr Hu Hn; [unfold reader_ok in Hr; lia|].
  cbn [clear_loop]. destruct (next_op_ok (E:=E) r Hr Hu) as (o & r' & -> & Hr' & Hscript & Ho). run.
  destruct o as [[op|]|].
  - destruct Ho as (Hlt & Hend & _ & Hop & _ & Hpush). pose proof (len_nonneg (op_push op)).
    assert (Hlen : len (op_push op) <= Reader.position r' - Reader.position r).
    { destruct (Opcode.is_push _); [|rewrite Hpush, len_nil; lia]. apply len_slice in Hpush.
      destruct (size_field_len_cases (op_opcode op)) as [|[|[|]]]; lia. }
    unfold reader_ok in Hr'. destruct (Z.eqb_spec (len (op_push op)) 0).
    + destruct (IH r' (rep ++ [zb (op_opcode op)]) sol found) as (a & b & f & -> & Hb); [done|by rewrite Hscript|rewrite Hscript; lia|].
      exists a, b, f. split; [done|]. rewrite Hscript in Hb. lia.
    + set (sec := negb found && _ && _).
      set (triple := if sec then _ else _). 
      assert (Ht : exists push sol' found', triple = (push, sol', found') /\ len push <= len (op_push op) /\
        len sol' <= len sol + len (op_push op)).
      { unfold triple. destruct sec; eexists _, _, _; (split; [done|]); [|lia].
        rewrite len_app. unfold len. rewrite length_take, length_drop. lia. }
      destruct Ht as (push & sol' & found' & -> & Hp & Hs').
      unfold reader_ok in Hr. rewrite Hscript in Hr'.
      destruct (push_encoding_eq (E:=E) push) as (o & field & -> & _); [lia|]. run.
      destruct (IH r' (rep ++ zb o :: field ++ push) sol' found') as (a & b & f & -> & Hb);
        [unfold reader_ok; by rewrite Hscript|by rewrite Hscript|rewrite Hscript; lia|].
      exists a, b, f. split; [done|]. rewrite Hscript in Hb. lia.
  - unfold reader_ok in Hr. eexists _, _, _. split; [done|lia].
  - unfold reader_ok in Hr. eexists _, _, _. split; [done|lia].
Qed.

Lemma fetch_and_clear_ok {E} commitment : len commitment <= u32_max ->
  exists c, fetch_and_clear_commitment_section (E:=E) commitment = Ok c /\
    forall cl, c = Some cl -> len (solution cl) <= len commitment.
Proof.
  intros Hc. unfold fetch_and_clear_commitment_section.
  destruct (clear_loop_ok (E:=E) (S (length commitment)) (Reader.new commitment) [] [] false) as (a & b & f & -> & Hb);
    [apply reader_new_ok|done|cbn; unfold len; lia|]. run. eexists. split; [done|].
  intros cl Hcl. destruct f; [|done]. injection Hcl as <-. cbn in *. rewrite len_nil in Hb. lia.
Qed.

Section check.
Context `{HL : HashLengths} `{EL : EncodingLaws} `{IL : IdLengths} `{SL : Secp256k1Laws}.

Lemma level_at_hashes n : forall l, hashes_ok l -> hashes_ok (level_at n l).
Proof. induction n as [|n IH]; intros l Hl; [done|]. cbn [level_at]. apply IH, hashes_parents. Qed.

(** The root of a tree of hashes is a hash. *)
Lemma merkle_root_hash {E} l : hashes_ok l -> len l <= 2 ^ 33 ->
  exists r, merkle_root (E:=E) l = Ok r /\ length (root r) = 32%nat.
Proof.
  intros Hl Hlen. rewrite merkle_root_eq by done. eexists. split; [done|]. cbn [root].
  pose proof (level_at_hashes (depth l) l Hl) as Hh. destruct (level_at _ l); [done|].
  by inversion Hh.
Qed.

(** A block a peer could have sent: its parts fit machine words. *)
Definition block_fits (block : Block) : Prop :=
  len (blk_txdata block) <= 2 ^ 33 /\ length (hdr_prev_blockhash (blk_header block)) = 32%nat /\
  Forall (fun tx => Forall (fun o => len (script_pubkey o) <= u32_max) (tx_output tx)) (blk_txdata block).

Lemma block_data_ok {E} block modified : block_fits block -> blk_txdata block <> [] ->
  exists d, block_data (E:=E) (blk_header block) modified block = Ok d /\ len d = BLOCK_DATA_SIZE.
Proof.
  intros (Hlen & Hprev & _) Hne. unfold block_data, modified_merkle_root.
  destruct (blk_txdata block) as [|cb txs] eqn:Hb; [done|]. rewrite (skipn_cons 0), skipn_0. rewrite !len_cons in *.
  pose proof (len_nonneg txs). rewrite (proj2 (Z.eqb_neq (len txs + 1) 0)) by lia. run.
  replace (len (map compute_txid txs)) with (len txs) by (unfold len; by rewrite length_map).
  rewrite Z.eqb_refl. run.
  destruct (merkle_root_hash (E:=E) (compute_txid modified :: map compute_txid txs)) as (r & -> & Hr).
  { constructor; [apply length_txid|]. apply Forall_map, Forall_true. intros tx. apply length_txid. }
  { rewrite len_cons. unfold len in *. rewrite length_map. exact Hlen. }
  run. unfold BLOCK_DATA_SIZE. match goal with |- context [len ?d] => assert (Hd : len d = 72) end.
  { rewrite !len_app. unfold len. rewrite !length_le_bytes, Hprev, Hr. reflexivity. }
  rewrite Hd. run. eexists. split; [done|]. exact Hd.
Qed.

Lemma commitment_index_get coinbase i : witness_commitment_index coinbase = Some i ->
  exists o, get (tx_output coinbase) i = Some o /\ WITNESS_COMMITMENT_SIZE_MIN <= len (script_pubkey o) /\
    starts_with (script_pubkey o) WITNESS_COMMITMENT_HEADER = true.
Proof.
  unfold witness_commitment_index, enumerate.
  assert (Hg : forall l pre found, tx_output coinbase = pre ++ l ->
    (forall i, found = Some i -> exists o, get (tx_output coinbase) i = Some o /\
      WITNESS_COMMITMENT_SIZE_MIN <= len (script_pubkey o) /\
      starts_with (script_pubkey o) WITNESS_COMMITMENT_HEADER = true) ->
    fold_left (fun found '(index, output) =>
      let script := script_pubkey output in
      if (WITNESS_COMMITMENT_SIZE_MIN <=? len script) && starts_with script WITNESS_COMMITMENT_HEADER
      then Some index else found) (enumerate_from (len pre) l) found = Some i ->
    exists o, get (tx_output coinbase) i = Some o /\ WITNESS_COMMITMENT_SIZE_MIN <= len (script_pubkey o) /\
      starts_with (script_pubkey o) WITNESS_COMMITMENT_HEADER = true); [|intros Hi; by apply (Hg (tx_output coinbase) [] None)].
  induction l as [|o l IH]; intros pre found Hpre Hfound Hi; [by apply Hfound|].
  cbn [enumerate_from fold_left] in Hi.
  replace (len pre + 1) with (len (pre ++ [o])) in Hi by (rewrite len_app; done).
  eapply IH; [|clear IH Hi|exact Hi]; [by rewrite <- app_assoc|]. intros j.
  destruct (_ && _) eqn:Hb; [|apply Hfound]. intros [= <-]. apply andb_true_iff in Hb as [Hb1 Hb2].
  exists o. rewrite Hpre, get_middle. split_and!; [done|lia|done].
Qed.

Lemma solution_witness_size ss items : witness_size items <= 9 + 10 * len (serialize_solution ss items).
Proof.
  unfold serialize_solution. rewrite !len_app. pose proof (len_nonneg (serialize_item ss)).
  pose proof (len_nonneg (compact_size (len items))).
  unfold witness_size.
  enough (foldr (fun x n => n + 9 + len x) 0 items <= 10 * len (concat (map serialize_item items))) by lia.
  clear. induction items as [|x items IH]; [done|]. cbn [foldr map concat]. rewrite len_app.
  pose proof (len_nonneg x). assert (len x + 1 <= len (serialize_item x)); [|lia].
  unfold serialize_item. rewrite len_app. pose proof (compact_size_pos (len x)). lia.
Qed.

Lemma block_script_flags_ok : flags_ok BLOCK_SCRIPT_FLAGS.
Proof. split; intros _; reflexivity. Qed.

Lemma signet_txs_ok block challenge : block_fits block ->
  signet_txs block challenge <> Panic /\
  forall txs, signet_txs block challenge = Ok txs ->
    head (tx_output (to_spend txs)) = Some (mkTxOut 0 challenge) /\
    exists i o, tx_input (to_sign txs) = [i] /\ tx_output (to_sign txs) = [o] /\ witness_size (witness i) < 2 ^ 61.
Proof.
  intros Hb. pose proof Hb as (_ & _ & Hout). unfold signet_txs.
  destruct (blk_txdata block) as [|cb txs] eqn:Htx; [done|]. cbn [head].
  destruct (witness_commitment_index cb) as [i|] eqn:Hi; [|done].
  apply commitment_index_get in Hi as (o & Ho & _). rewrite Ho. cbn [expect]. run.
  inversion_clear Hout as [|? ? Hcb _]. rewrite Forall_forall in Hcb. apply get_elem in Ho. specialize (Hcb o Ho).
  destruct (fetch_and_clear_ok (E:=SignetError) (script_pubkey o) Hcb) as (c & -> & Hc). run.
  set (modified := match c with Some _ => _ | None => cb end).
  destruct (block_data_ok (E:=SignetError) block modified Hb) as (d & -> & Hd); [by rewrite Htx|]. run.
  unfold to_spend_tx. rewrite Hd, Z.eqb_refl. run.
  destruct (push_encoding_eq (E:=SignetError) d) as (op & field & -> & _); [rewrite Hd; vm_compute; congruence|]. run.
  set (parsed := match c with Some _ => _ | None => Ok _ end).
  assert (Hp : parsed <> Panic /\ forall ss w, parsed = Ok (ss, w) -> witness_size w < 2 ^ 61).
  { unfold parsed. destruct c as [c|]; [|split; [done|by intros ss w [= <- <-]]].
    specialize (Hc c eq_refl). assert (Hs : short (solution c)) by (unfold short, u32_max in *; lia).
    destruct (parse_solution_spec (solution c) Hs) as [Hn Hiff]. split; [exact Hn|].
    intros ss w Hok. apply Hiff in Hok as (Heq & _). pose proof (solution_witness_size ss w) as Hsz.
    rewrite <- Heq in Hsz. unfold u32_max in *. lia. }
  destruct Hp as [Hp1 Hp2]. destruct parsed as [[ss w]|e|]; [|done|done]. run. split; [done|].
  intros ? [= <-]. cbn [to_spend to_sign to_sign_tx tx_output tx_input head]. split; [done|].
  eexists _, _. split; [done|]. split; [done|]. cbn [witness].
  by apply (Hp2 ss).
Qed.

(** Checking the solution of a block always gives a verdict. *)
Lemma check_signet_solution_total block challenge : block_fits block -> challenge <> [] ->
  check_signet_solution block challenge <> Panic.
Proof.
  intros Hb Hc. unfold check_signet_solution.
  rewrite (proj2 (Z.eqb_neq (len challenge) 0))
    by (destruct challenge as [|? l]; [done|rewrite len_cons; pose proof (len_nonneg l); lia]). run.
  destruct (signet_txs_ok block challenge Hb) as [Hn Hok].
  destruct (signet_txs block challenge) as [txs| |]; [|done|done]. run.
  destruct (Hok txs eq_refl) as (Ho & i & o & Hi & Hout & Hw). unfold spent_output. rewrite Ho. run.
  rewrite new_precomputed_ok by (rewrite Hi; done). run.
  enough (Hv : verify_input (to_sign txs) 0 [mkTxOut 0 challenge]
    (precomputed_of (to_sign txs) [mkTxOut 0 challenge]) BLOCK_SCRIPT_FLAGS <> Panic) by (by destruct (verify_input _ _ _ _ _)).
  apply (verify_input_total _ _ _ _ _ i).
  - by rewrite Hi.
  - by rewrite Hi.
  - split; [done|]. unfold precomputed_of. cbn [output_count]. done.
  - split; [rewrite Hi|rewrite Hout]; vm_compute; congruence.
  - vm_compute. congruence.
  - exact block_script_flags_ok.
  - split; [done|]. vm_compute. congruence.
Qed.
End check.
