(* ===== verification/Block.v ===== *)
(** * Block: the two context-light block stages ([consensus/src/block/mod.rs]) *)
From S2P Require Import Prelude Bitcoin Flags Params Header Script ScriptNum Reader SigScript Sighash Checker Verify Sigops Tx Merkle Signet.

Definition WITNESS_RESERVED_VALUE_SIZE : Z := 32.

Module BlockError.
Inductive BlockError :=
| Header (error : HeaderError)
| BadMerkleRoot (computed : bytes)
| DuplicateTransactions
| BadLength (tx_count base_size : Z)
| CoinbaseMissing
| CoinbaseMultiple (index : Z)
| Transaction (index : Z) (error : TxError)
| BadSigOps (count : Z)
| NonFinal (index : Z)
| BadCoinbaseHeight (expected : Z)
| WitnessNonceSize
| WitnessMerkleMismatch
| UnexpectedWitness (index : Z)
| BadWeight (weight : Z)
| Signet (error : SignetError).
End BlockError.
Notation BlockError := BlockError.BlockError.

Record BlockSizes := mkBlockSizes { sizes_tx_count : Z; sizes_base : Z; sizes_total : Z }.

(** [BlockSizes::weight]. *)
Definition weight {E} (self : BlockSizes) : outcome E Z :=
  assert_ (sizes_base self <=? sizes_total self);;
  n ← u64 (sizes_base self * (WITNESS_SCALE_FACTOR - 1));
  u64 (n + sizes_total self).

(** [Header::SIZE] of the crate. *)
Definition HEADER_SIZE : Z := 80.

Definition height_script {E} (height : Z) : outcome E bytes :=
  assert_ (Height.GENESIS <? height);;
  let value := height in
  if (1 <=? value) && (value <=? 16) then
    n ← expect (try_from 255 (value - 1));
    Ok [zb (0x51 + n)]
  else
    num ← ScriptNum.from_i64 value;
    b ← ScriptNum.encode num;
    script ← push_encoding b;
    assert_ (2 <=? len script);;
    assert_ (len script <=? 5);;
    Ok script.

Section stages.
Context `{Hashes} `{Encoding} `{BitcoinCrate} `{Secp256k1} `{OutPointOrder}.

Definition check_merkle_root (block : Block) : outcome BlockError unit :=
  let leaves := map compute_txid (blk_txdata block) in
  found ← merkle_root leaves;
  if negb (bool_decide (root found = hdr_merkle_root (blk_header block)))
  then Err (BlockError.BadMerkleRoot (root found))
  else if mutated found then Err BlockError.DuplicateTransactions
  else Ok tt.

(** The body of the loop of [block_sizes]. *)
Definition add_sizes {E} (sizes : BlockSizes) (tx : Transaction) : outcome E BlockSizes :=
  base ← expect (try_from u64_max (base_size tx));
  total ← expect (try_from u64_max (total_size tx));
  assert_ (base <=? total);;
  base ← u64 (sizes_base sizes + base);
  total ← u64 (sizes_total sizes + total);
  Ok (mkBlockSizes (sizes_tx_count sizes) base total).

Definition block_sizes {E} (block : Block) : outcome E BlockSizes :=
  let header_size := HEADER_SIZE in
  let count_size := varint_size (len (blk_txdata block)) in
  tx_count ← expect (try_from u64_max (len (blk_txdata block)));
  size ← u64 (header_size + count_size);
  foldM add_sizes (mkBlockSizes tx_count size size) (blk_txdata block).

(** [tx_count == 0 || sizes.tx_count * 4 > MAX || sizes.base * 4 > MAX], with its short
    circuits. *)
Definition bad_length {E} (tx_count : Z) (sizes : BlockSizes) : outcome E bool :=
  if tx_count =? 0 then Ok true
  else
    n ← u64 (sizes_tx_count sizes * WITNESS_SCALE_FACTOR);
    if MAX_BLOCK_WEIGHT <? n then Ok true
    else
      n ← u64 (sizes_base sizes * WITNESS_SCALE_FACTOR);
      Ok (MAX_BLOCK_WEIGHT <? n).

(** [for (index, tx) in block.txdata.iter().enumerate().skip(1)]. *)
Definition check_single_coinbase (block : Block) : outcome BlockError unit :=
  foldM (fun _ '(index, tx) =>
    if is_coinbase tx then Err (BlockError.CoinbaseMultiple index) else Ok tt)
    tt (drop 1 (enumerate (blk_txdata block))).

Definition check_txs (block : Block) : outcome BlockError unit :=
  foldM (fun _ '(index, tx) => map_err (BlockError.Transaction index) (check_tx tx))
    tt (enumerate (blk_txdata block)).

Definition count_sigops {E} (block : Block) : outcome E Z :=
  foldM (fun count tx => n ← legacy_sigop_count tx; u64 (count + n)) 0 (blk_txdata block).

Definition check_challenge (block : Block) (params : ChainParams) : outcome BlockError unit :=
  match block_challenge params with
  | SignetChallenge challenge =>
      if negb (bool_decide (block_hash (blk_header block) = block_hash (blk_header (genesis params))))
      then map_err BlockError.Signet (check_signet_solution block challenge)
      else Ok tt
  | NoChallenge => Ok tt
  end.

Definition check_block (block : Block) (params : ChainParams) : outcome BlockError unit :=
  map_err BlockError.Header (check_header (blk_header block) params);;
  check_challenge block params;;
  check_merkle_root block;;
  let tx_count := len (blk_txdata block) in
  sizes ← block_sizes block;
  bad ← bad_length tx_count sizes;
  if (bad : bool) then Err (BlockError.BadLength tx_count (sizes_base sizes))
  else
    first ← expect (head (blk_txdata block));
    if negb (is_coinbase first) then Err BlockError.CoinbaseMissing
    else
      check_single_coinbase block;;
      check_txs block;;
      count ← count_sigops block;
      scaled ← u64 (count * WITNESS_SCALE_FACTOR);
      if MAX_BLOCK_SIGOPS_COST <? scaled then Err (BlockError.BadSigOps count) else Ok tt.

Definition witness_root {E} (block : Block) : outcome E bytes :=
  assert_ (negb (len (blk_txdata block) =? 0));;
  let leaves := replicate 32 x00 :: map compute_wtxid (drop 1 (blk_txdata block)) in
  assert_ (len leaves =? len (blk_txdata block));;
  r ← merkle_root leaves;
  Ok (root r).

(** The loop that finds a transaction with a witness. *)
Definition check_no_witness (block : Block) : outcome BlockError unit :=
  foldM (fun _ '(index, tx) =>
    if existsb (fun input => negb (bool_decide (witness input = []))) (tx_input tx)
    then Err (BlockError.UnexpectedWitness index) else Ok tt)
    tt (enumerate (blk_txdata block)).

(** The commitment branch of [check_witness_malleation]. *)
Definition check_commitment (block : Block) (coinbase : Transaction) (position : Z)
    : outcome BlockError unit :=
  input ← expect (head (tx_input coinbase));
  let witness := witness input in
  let reserved := match get witness 0 with
    | Some item => if len item =? WITNESS_RESERVED_VALUE_SIZE then Some item else None
    | None => None
    end in
  match (if len witness =? 1 then reserved else None) with
  | None => Err BlockError.WitnessNonceSize
  | Some reserved =>
      root ← witness_root block;
      let preimage := root ++ reserved in
      let commitment := sha256d preimage in
      output ← expect (get (tx_output coinbase) position);
      committed ← expect (slice (script_pubkey output) (len WITNESS_COMMITMENT_HEADER)
        WITNESS_COMMITMENT_SIZE_MIN);
      if negb (bool_decide (committed = commitment)) then Err BlockError.WitnessMerkleMismatch
      else Ok tt
  end.

Definition check_witness_malleation (block : Block) (expect_commitment : bool)
    : outcome BlockError unit :=
  coinbase ← expect (head (blk_txdata block));
  match (if expect_commitment then witness_commitment_index coinbase else None) with
  | Some position => check_commitment block coinbase position
  | None => check_no_witness block
  end.

Definition check_final (block : Block) (height cutoff : Z) : outcome BlockError unit :=
  foldM (fun _ '(index, tx) =>
    if negb (is_final tx height cutoff) then Err (BlockError.NonFinal index) else Ok tt)
    tt (enumerate (blk_txdata block)).

Definition check_coinbase_height (coinbase : Transaction) (context : Context) : outcome BlockError unit :=
  if bip34_active (ctx_rules context) then
    expected ← height_script (ctx_height context);
    input ← expect (head (tx_input coinbase));
    if negb (starts_with (script_sig input) expected)
    then Err (BlockError.BadCoinbaseHeight (ctx_height context)) else Ok tt
  else Ok tt.

Definition accept_block (block : Block) (context : Context) : outcome BlockError unit :=
  coinbase ← expect (head (blk_txdata block));
  assert_ (is_coinbase coinbase);;
  let rules := ctx_rules context in
  let cutoff := if csv_active rules then ctx_median_time_past context else hdr_time (blk_header block) in
  check_final block (ctx_height context) cutoff;;
  check_coinbase_height coinbase context;;
  check_witness_malleation block (segwit_active rules);;
  sizes ← block_sizes block;
  weight ← weight sizes;
  if MAX_BLOCK_WEIGHT <? weight then Err (BlockError.BadWeight weight) else Ok tt.
End stages.
