(* ===== verification/BlockProofs.v ===== *)
(** * BlockProofs: what the two block stages accept, that they always answer, and BIP34 *)
From S2P Require Import Prelude Uint Target Bitcoin Flags Params Header Script ScriptNum Reader SigScript Sighash SighashProofs Checker Verify VerifyProofs Sigops Tx TxProofs Merkle Signet SignetProofs Block.

(** ** Sizes *)

Definition sum_of {A} (f : A -> Z) (l : list A) : Z := foldr (fun x n => f x + n) 0 l.

Lemma sum_of_nonneg {A} (f : A -> Z) l : (forall x, 0 <= f x) -> 0 <= sum_of f l.
Proof. intros Hf. induction l as [|x l IH]; cbn; [done|]. pose proof (Hf x). unfold sum_of in IH. lia. Qed.

Lemma sum_of_elem {A} (f : A -> Z) l x : (forall x, 0 <= f x) -> x ∈ l -> f x <= sum_of f l.
Proof.
  intros Hf Hx. induction l as [|y l IH]; [set_solver|]. cbn. fold (sum_of f l).
  pose proof (sum_of_nonneg f l Hf). pose proof (Hf y). apply elem_of_cons in Hx as [->|Hx]; [lia|].
  specialize (IH Hx). lia.
Qed.

Lemma sum_of_mono {A} (f g : A -> Z) l : (forall x, f x <= g x) -> sum_of f l <= sum_of g l.
Proof. intros Hfg. induction l as [|x l IH]; cbn; [done|]. pose proof (Hfg x). unfold sum_of in IH. lia. Qed.

Lemma base_size_nonneg `{SizeLaws} tx : 0 <= base_size tx.
Proof.
  pose proof (base_size_scripts tx) as Hs. unfold script_bytes in Hs.
  pose proof (sum_len_nonneg script_sig (tx_input tx)). pose proof (sum_len_nonneg script_pubkey (tx_output tx)). lia.
Qed.

Lemma total_size_nonneg `{SizeLaws} tx : 0 <= total_size tx.
Proof. pose proof (base_size_nonneg tx). pose proof (base_size_total tx). lia. Qed.

Section sizes.
Context `{BitcoinCrate} `{Encoding} `{SZ : !SizeLaws} `{EL : !EncodingLaws}.

(** The serialized sizes of a block. *)
Definition block_base (b : Block) : Z :=
  HEADER_SIZE + varint_size (len (blk_txdata b)) + sum_of base_size (blk_txdata b).
Definition block_total (b : Block) : Z :=
  HEADER_SIZE + varint_size (len (blk_txdata b)) + sum_of total_size (blk_txdata b).

Lemma add_sizes_step {E} n a b tx : 0 <= a <= b -> b + total_size tx <= 2 ^ 62 ->
  add_sizes (E:=E) (mkBlockSizes n a b) tx = Ok (mkBlockSizes n (a + base_size tx) (b + total_size tx)).
Proof.
  intros Hab Hb. pose proof (base_size_nonneg tx). pose proof (base_size_total tx).
  unfold add_sizes. cbn [sizes_base sizes_total sizes_tx_count].
  rewrite !try_from_ok by (unfold u64_max; lia). run.
  rewrite (proj2 (Z.leb_le _ _)) by lia. run. by rewrite !u64_ok by (unfold u64_max; lia).
Qed.

Lemma add_sizes_ok {E} txs : forall n a b, 0 <= a <= b -> b + sum_of total_size txs <= 2 ^ 62 ->
  foldM (add_sizes (E:=E)) (mkBlockSizes n a b) txs =
    Ok (mkBlockSizes n (a + sum_of base_size txs) (b + sum_of total_size txs)).
Proof.
  induction txs as [|tx txs IH]; intros n a b Hab Hb; cbn [foldM sum_of foldr] in *.
  { by rewrite !Z.add_0_r. }
  fold (sum_of base_size txs) (sum_of total_size txs) in *.
  pose proof (base_size_nonneg tx). pose proof (base_size_total tx).
  pose proof (sum_of_nonneg total_size txs total_size_nonneg).
  rewrite add_sizes_step by lia. run.
  rewrite IH by lia. do 2 f_equal; lia.
Qed.

Lemma block_sizes_ok {E} b : sum_of total_size (blk_txdata b) <= 2 ^ 60 -> len (blk_txdata b) <= 2 ^ 33 ->
  block_sizes (E:=E) b = Ok (mkBlockSizes (len (blk_txdata b)) (block_base b) (block_total b)).
Proof.
  intros Ht Hl. unfold block_sizes, HEADER_SIZE. pose proof (varint_size_range (len (blk_txdata b))).
  pose proof (len_nonneg (blk_txdata b)). rewrite try_from_ok by (unfold u64_max; lia). run.
  rewrite u64_ok by (unfold u64_max; lia). run. by rewrite add_sizes_ok by lia.
Qed.

Lemma block_base_total b : 81 <= block_base b <= block_total b.
Proof.
  unfold block_base, block_total, HEADER_SIZE. pose proof (varint_size_range (len (blk_txdata b))).
  pose proof (sum_of_nonneg base_size (blk_txdata b) base_size_nonneg).
  pose proof (sum_of_mono base_size total_size (blk_txdata b) base_size_total). lia.
Qed.

(** The legacy signature operations of each transaction. *)
Definition legacy_counts (txs : list Transaction) (ns : list Z) : Prop :=
  Forall2 (fun tx n => legacy_sigop_count (E:=BlockError) tx = Ok n) txs ns.

Lemma count_sigops_ok txs : Forall (fun tx => base_size tx <= 1000000) txs -> len txs <= 2 ^ 33 ->
  exists ns, legacy_counts txs ns /\ (0 <= sum_of id ns <= 20000000 * len txs) /\
  (forall c, 0 <= c -> c + sum_of id ns <= u64_max ->
    foldM (fun count tx => n ← legacy_sigop_count tx; u64 (count + n)) c txs = Ok (E:=BlockError) (c + sum_of id ns)).
Proof.
  induction txs as [|tx txs IH]; intros Hb Hl.
  { exists []. split; [constructor|]. split; [done|]. intros c _ _. cbn. by rewrite Z.add_0_r. }
  inversion_clear Hb as [|? ? Htx Htxs]. rewrite len_cons in Hl.
  destruct IH as (ns & Hns & Hs & IH); [done|lia|].
  pose proof (base_size_nonneg tx).
  destruct (legacy_sigop_count_ok (E:=BlockError) tx) as (n & Hn & Hr); [lia|].
  exists (n :: ns). split; [by constructor|]. change (sum_of id (n :: ns)) with (n + sum_of id ns).
  rewrite len_cons. split; [lia|]. intros c Hc Hu. cbn [foldM]. rewrite Hn. run.
  rewrite u64_ok by lia. run. rewrite IH by lia. f_equal. lia.
Qed.
End sizes.

(** ** BIP34 *)

Lemma height_script_eq {E} h : 0 < h <= Height.MAX ->
  exists s, height_script (E:=E) h = Ok s /\
    (h <= 16 /\ s = [zb (0x50 + h)] \/
     16 < h /\ exists b, s = zb (len b) :: b /\ sm_val b = h /\ 1 <= len b <= 4).
Proof.
  unfold Height.MAX. intros Hh. unfold height_script, Height.GENESIS.
  rewrite (proj2 (Z.ltb_lt _ _)) by lia. run. destruct (Z.leb_spec h 16) as [Hs|Hs].
  - rewrite (proj2 (Z.leb_le 1 h)) by lia. run. rewrite try_from_ok by lia. run.
    eexists. split; [done|]. left. split; [done|]. do 2 f_equal. lia.
  - rewrite andb_false_r. unfold ScriptNum.from_i64. change (Z.shiftl 1 40) with (2 ^ 40).
    rewrite (proj2 (Z.ltb_lt (Z.abs h) _)) by lia. run.
    destruct (encode_spec (E:=E) h) as (b & He & Hv & _ & _ & Hlow); [lia|]. rewrite He. run.
    assert (Hb : len b <= 4) by (apply (encode_size h b 4 He); [lia|lia|change (128 * 256 ^ (4 - 1)) with (2 ^ 31); lia]).
    assert (Hb0 : 1 <= len b).
    { destruct b; [cbn in Hv; lia|]. rewrite len_cons. pose proof (len_nonneg b0). lia. }
    unfold push_encoding, OP_PUSHDATA1. rewrite (proj2 (Z.ltb_lt (len b) _)) by lia. run. cbn [app].
    rewrite len_cons, (proj2 (Z.ltb_lt _ _)) by lia. run.
    rewrite len_cons, (proj2 (Z.leb_le 2 _)), (proj2 (Z.leb_le _ 5)) by lia. run.
    eexists. split; [done|]. right. split; [lia|]. by exists b.
Qed.

(** BIP34 makes coinbases unique: the height script exists for every height after
    genesis, and a coinbase scriptSig that starts with the scripts of two heights shows that
    they are the same height. *)
Theorem height_script_binding {E} h h' script_sig : 0 < h <= Height.MAX -> 0 < h' <= Height.MAX ->
  exists s s', height_script (E:=E) h = Ok s /\ height_script (E:=E) h' = Ok s' /\
    (starts_with script_sig s = true -> starts_with script_sig s' = true -> h = h').
Proof.
  intros Hh Hh'. destruct (height_script_eq (E:=E) h Hh) as (s & Hs & Hc).
  destruct (height_script_eq (E:=E) h' Hh') as (s' & Hs' & Hc'). exists s, s'. split; [done|]. split; [done|].
  intros [k Hk]%starts_with_spec [k' Hk']%starts_with_spec. rewrite Hk in Hk'. clear Hk Hs Hs'.
  assert (Hb : forall x y, 0 <= x < 256 -> 0 <= y < 256 -> zb x = zb y -> x = y).
  { intros x y Hx Hy Hxy%(f_equal bz). by rewrite !bz_zb_id in Hxy. }
  destruct Hc as [[Hle ->]|[Hgt (b & -> & Hv & Hl)]], Hc' as [[Hle' ->]|[Hgt' (b' & -> & Hv' & Hl')]];
    cbn [app] in Hk'; injection Hk' as Hop Hrest; apply Hb in Hop; try lia.
  rewrite <- Hv, <- Hv'. f_equal. unfold len in Hop.
  apply app_inj_1 in Hrest as [-> _]; [done|lia].
Qed.

Lemma height_script_binding_witness :
  exists s s', height_script (E:=Empty_set) 16 = Ok s /\ height_script (E:=Empty_set) 840000 = Ok s' /\
    s = [x60] /\ s' = [x03; x40; xd1; x0c].
Proof.
  destruct (height_script_binding (E:=Empty_set) 16 840000 [x60]) as (s & s' & Hs & Hs' & _);
    [vm_compute; split; congruence|vm_compute; split; congruence|].
  exists s, s'. split; [exact Hs|]. split; [exact Hs'|].
  vm_compute in Hs, Hs'. injection Hs as <-. injection Hs' as <-. done.
Defined.

(** ** What the stages accept *)

Section stages.
Context `{HL : HashLengths} `{EL : EncodingLaws} `{BC : BitcoinCrate} `{IL : !IdLengths} `{SZ : !SizeLaws}.
Context `{CL : !CoinbaseLaw} `{SL : Secp256k1Laws} `{OL : OutPointOrderLaws}.

(** A decoded block: every part of it fits the machine integers it is read into. *)
Record block_typed (b : Block) : Prop := {
  typed_bits : is_u32 (hdr_bits (blk_header b));
  typed_fits : block_fits b;
  typed_txs : Forall tx_typed (blk_txdata b);
  typed_total : sum_of total_size (blk_txdata b) <= 2 ^ 60;
}.

(** [CheckBlock]. *)
Record block_checked (p : ChainParams) (b : Block) : Prop := {
  checked_header : check_header (blk_header b) p = Ok tt;
  checked_challenge : check_challenge b p = Ok tt;
  checked_root : merkle_root (E:=BlockError) (map compute_txid (blk_txdata b)) =
    Ok (mkMerkleRoot (hdr_merkle_root (blk_header b)) false);
  checked_count : 0 < WITNESS_SCALE_FACTOR * len (blk_txdata b) <= MAX_BLOCK_WEIGHT;
  checked_base : WITNESS_SCALE_FACTOR * block_base b <= MAX_BLOCK_WEIGHT;
  checked_coinbase : exists cb txs, blk_txdata b = cb :: txs /\ is_coinbase cb = true /\
    Forall (fun tx => is_coinbase tx = false) txs;
  checked_txs : Forall tx_valid (blk_txdata b);
  checked_sigops : exists ns, legacy_counts (blk_txdata b) ns /\
    WITNESS_SCALE_FACTOR * sum_of id ns <= MAX_BLOCK_SIGOPS_COST;
}.

(** The witness rule of BIP141: the last commitment of the coinbase commits to the tree of
    witness ids under the one 32-byte item of the coinbase's witness; without segwit, or
    without a commitment, there are no witnesses. *)
Definition witness_rule (segwit : bool) (b : Block) : Prop :=
  exists cb txs, blk_txdata b = cb :: txs /\
  match (if segwit then witness_commitment_index cb else None) with
  | Some position => exists i reserved o root,
      head (tx_input cb) = Some i /\ witness i = [reserved] /\ len reserved = 32 /\
      get (tx_output cb) position = Some o /\
      merkle_root (E:=BlockError) (replicate 32 x00 :: map compute_wtxid txs) = Ok root /\
      slice (script_pubkey o) 6 38 = Some (sha256d (Merkle.root root ++ reserved))
  | None => Forall (fun tx => Forall (fun i => witness i = []) (tx_input tx)) (blk_txdata b)
  end.

(** [ContextualCheckBlock]. *)
Record block_accepted (ctx : Context) (b : Block) : Prop := {
  accepted_final : Forall (fun tx => is_final tx (ctx_height ctx)
    (if csv_active (ctx_rules ctx) then ctx_median_time_past ctx else hdr_time (blk_header b)) = true)
    (blk_txdata b);
  accepted_height : bip34_active (ctx_rules ctx) = true -> exists cb i s,
    head (blk_txdata b) = Some cb /\ head (tx_input cb) = Some i /\
    height_script (E:=BlockError) (ctx_height ctx) = Ok s /\ s `prefix_of` script_sig i;
  accepted_witness : witness_rule (segwit_active (ctx_rules ctx)) b;
  accepted_weight : 3 * block_base b + block_total b <= MAX_BLOCK_WEIGHT;
}.

Lemma check_merkle_root_decides b : len (blk_txdata b) <= 2 ^ 33 ->
  decides (check_merkle_root b) (merkle_root (E:=BlockError) (map compute_txid (blk_txdata b)) =
    Ok (mkMerkleRoot (hdr_merkle_root (blk_header b)) false)).
Proof.
  intros Hl. unfold check_merkle_root. rewrite merkle_root_eq by (unfold len in *; by rewrite length_map).
  run. cbn [root mutated]. case_bool_decide as Hr; cbn [negb]; [|right; split; [|by eexists]].
  - destruct (twins_below _ _) eqn:Ht; [right; split; [|by eexists]|left; split; [by rewrite Hr|done]].
    intros [= ? ?].
  - intros [= Hr' _]. done.
Qed.

Lemma check_header_decides h p : is_u32 (hdr_bits h) -> target_wf (pow_limit p) ->
  decides (check_header h p) (check_header h p = Ok tt).
Proof.
  intros Hb Hp. apply decides_iff. split; [|done]. rewrite check_header_eq; [|done|done|apply length_block_hash].
  unfold decode_spec. by repeat case_match.
Qed.

Lemma tabled_challenge p : tabled p -> block_challenge p <> SignetChallenge [].
Proof.
  intros Ht Hc. destruct Ht as [g p Hp|g c p Hp|g o p Hp]; unfold mainnet, signet, regtest in Hp;
    apply bind_Ok in Hp as (? & Hi & [= <-]); cbn in Hc; try discriminate.
  injection Hc as ->. unfold assert_invariants in Hi.
  do 2 (repeat apply bind_Ok in Hi as (? & _ & Hi); cbn [block_challenge] in Hi). by apply assert_Ok in Hi.
Qed.

Lemma check_challenge_decides b p : tabled p -> block_fits b ->
  decides (check_challenge b p) (check_challenge b p = Ok tt).
Proof.
  intros Hp Hb. apply decides_iff. split; [|done]. unfold check_challenge.
  destruct (block_challenge p) as [|challenge] eqn:Hc; [done|]. case_bool_decide; [done|]. cbn [negb].
  assert (Hne : challenge <> []) by (intros ->; by apply (tabled_challenge p)).
  pose proof (check_signet_solution_total b challenge Hb Hne) as Ht.
  by destruct (check_signet_solution b challenge).
Qed.

(** The loops over the transactions. *)
Lemma drop_enumerate {A} (x : A) l : drop 1 (enumerate (x :: l)) = enumerate_from 1 l.
Proof. done. Qed.

Lemma check_single_coinbase_decides b cb txs : blk_txdata b = cb :: txs ->
  decides (check_single_coinbase b) (Forall (fun tx => is_coinbase tx = false) txs).
Proof.
  intros Hb. unfold check_single_coinbase. rewrite Hb, drop_enumerate.
  apply decides_scan with (f := fun '(index, tx) => _). intros i tx _. apply decides_bool.
Qed.

Lemma check_txs_decides b : Forall tx_typed (blk_txdata b) -> decides (check_txs b) (Forall tx_valid (blk_txdata b)).
Proof.
  intros Ht. apply decides_scan with (f := fun '(index, tx) => _). intros i tx Htx.
  apply decides_map_err, check_tx_eq. by rewrite Forall_forall in Ht; apply Ht.
Qed.

Lemma check_final_decides b h c : decides (check_final b h c)
  (Forall (fun tx => is_final tx h c = true) (blk_txdata b)).
Proof.
  apply decides_scan with (f := fun '(index, tx) => _). intros i tx _.
  eapply decides_ext; [apply decides_bool|]. by rewrite negb_false_iff.
Qed.

Lemma check_no_witness_decides b : decides (check_no_witness b)
  (Forall (fun tx => Forall (fun i => witness i = []) (tx_input tx)) (blk_txdata b)).
Proof.
  apply decides_scan with (f := fun '(index, tx) => _). intros i tx _.
  eapply decides_ext; [apply decides_bool|]. induction (tx_input tx) as [|x l IH]; cbn [existsb].
  { by split. }
  rewrite orb_false_iff, negb_false_iff, bool_decide_eq_true, IH, Forall_cons. done.
Qed.

Lemma bad_length_ok {E} b : len (blk_txdata b) <= 2 ^ 33 -> block_base b <= 2 ^ 61 ->
  bad_length (E:=E) (len (blk_txdata b)) (mkBlockSizes (len (blk_txdata b)) (block_base b) (block_total b)) =
    Ok (negb (bool_decide (0 < WITNESS_SCALE_FACTOR * len (blk_txdata b) <= MAX_BLOCK_WEIGHT /\
                           WITNESS_SCALE_FACTOR * block_base b <= MAX_BLOCK_WEIGHT))).
Proof.
  intros Hl Hb. unfold bad_length, WITNESS_SCALE_FACTOR, MAX_BLOCK_WEIGHT. cbn [sizes_tx_count sizes_base].
  pose proof (len_nonneg (blk_txdata b)). pose proof (block_base_total b).
  rewrite !u64_ok by (unfold u64_max; lia). run.
  case_bool_decide; cbn [negb]; case_bools; try done; lia || (f_equal; lia).
Qed.

(** The last step of [check_block]. *)
Lemma sigops_decides b : block_base b <= 1000000 -> len (blk_txdata b) <= 1000000 ->
  decides (count ← count_sigops b; scaled ← u64 (count * WITNESS_SCALE_FACTOR);
      if MAX_BLOCK_SIGOPS_COST <? scaled then Err (BlockError.BadSigOps count) else Ok tt)
    (exists ns, legacy_counts (blk_txdata b) ns /\ WITNESS_SCALE_FACTOR * sum_of id ns <= MAX_BLOCK_SIGOPS_COST).
Proof.
  intros Hb Hl. unfold block_base, HEADER_SIZE in Hb. pose proof (varint_size_range (len (blk_txdata b))).
  pose proof (len_nonneg (blk_txdata b)).
  destruct (count_sigops_ok (blk_txdata b)) as (ns & Hns & Hs & Hloop); [|lia|].
  { apply Forall_forall. intros tx Htx. pose proof (sum_of_elem base_size _ tx base_size_nonneg Htx). lia. }
  unfold count_sigops. rewrite Hloop by (unfold u64_max; lia). run. rewrite Z.add_0_l.
  unfold WITNESS_SCALE_FACTOR, MAX_BLOCK_SIGOPS_COST. rewrite u64_ok by (unfold u64_max; lia). run.
  eapply decides_ext; [apply decides_bool|]. rewrite Z.ltb_ge. split.
  - intros Hc. exists ns. split; [done|lia].
  - intros (ns' & Hns' & Hc). replace ns with ns'; [lia|]. clear -Hns Hns'. unfold legacy_counts in *.
    revert ns Hns; induction Hns' as [|tx n txs ns' Hn _ IH]; intros ns Hns; inversion Hns; subst; [done|].
    f_equal; [congruence|by apply IH].
Qed.

Lemma check_block_decides p b : tabled p -> block_typed b -> decides (check_block b p) (block_checked p b).
Proof.
  intros Hp [Hbits Hfits Htxs Htot]. pose proof Hfits as (Hlen & _).
  destruct (ok_pow_limit p (tabled_ok p Hp)) as [Hw _].
  eapply decides_ext.
  { unfold check_block. apply decides_seq; [by apply decides_map_err, check_header_decides|intros _].
    apply decides_seq; [by apply check_challenge_decides|intros _].
    apply decides_seq; [by apply check_merkle_root_decides|intros _].
    rewrite block_sizes_ok by done. run. rewrite bad_length_ok; [|done|].
    2:{ unfold block_base, HEADER_SIZE. pose proof (varint_size_range (len (blk_txdata b))).
        pose proof (sum_of_mono base_size total_size (blk_txdata b) base_size_total). lia. }
    run. instantiate (1 := (0 < WITNESS_SCALE_FACTOR * len (blk_txdata b) <= MAX_BLOCK_WEIGHT /\
      WITNESS_SCALE_FACTOR * block_base b <= MAX_BLOCK_WEIGHT) /\
      (exists cb txs, blk_txdata b = cb :: txs /\ is_coinbase cb = true /\
        Forall (fun tx => is_coinbase tx = false) txs) /\
      Forall tx_valid (blk_txdata b) /\
      exists ns, legacy_counts (blk_txdata b) ns /\ WITNESS_SCALE_FACTOR * sum_of id ns <= MAX_BLOCK_SIGOPS_COST).
    case_bool_decide as Hsz; cbn [negb]; [|right; split; [tauto|by eexists]].
    unfold WITNESS_SCALE_FACTOR, MAX_BLOCK_WEIGHT in Hsz.
    destruct (blk_txdata b) as [|cb txs] eqn:Hb; [destruct Hsz as [[Hz _] _]; destruct (Z.lt_irrefl 0 Hz)|]. cbn [head expect]. run.
    destruct (is_coinbase cb) eqn:Hcb; cbn [negb].
    2:{ right. split; [|by eexists]. intros (_ & (cb' & txs' & [= <- <-] & Hcb' & _) & _). congruence. }
    eapply decides_ext.
    { apply decides_seq; [exact (check_single_coinbase_decides b cb txs Hb)|intros _].
      apply decides_seq; [apply check_txs_decides; by rewrite Hb|intros _].
      apply sigops_decides; rewrite ?Hb; lia. }
    rewrite Hb. unfold WITNESS_SCALE_FACTOR, MAX_BLOCK_WEIGHT in *. naive_solver. }
  split.
  - intros (H1' & H2' & H3' & [H4 H5] & H6 & H7 & H8). by constructor.
  - intros []. tauto.
Qed.

(** A coinbase that [check_block] accepted has exactly one input. *)
Lemma coinbase_input cb : is_coinbase cb = true -> exists i, tx_input cb = [i].
Proof.
  rewrite is_coinbase_spec. destruct (tx_input cb) as [|i [|]]; try done. intros _. by exists i.
Qed.

Lemma check_coinbase_height_decides b cb ctx : 0 < ctx_height ctx <= Height.MAX ->
  head (blk_txdata b) = Some cb -> is_coinbase cb = true ->
  decides (check_coinbase_height cb ctx) (bip34_active (ctx_rules ctx) = true -> exists cb i s,
    head (blk_txdata b) = Some cb /\ head (tx_input cb) = Some i /\
    height_script (E:=BlockError) (ctx_height ctx) = Ok s /\ s `prefix_of` script_sig i).
Proof.
  intros Hh Hb Hcb. destruct (coinbase_input cb Hcb) as [i Hi]. unfold check_coinbase_height.
  destruct (bip34_active _); [|by left].
  destruct (height_script_eq (E:=BlockError) (ctx_height ctx) Hh) as (s & Hs & _). rewrite Hs. run.
  rewrite Hi. cbn [head expect]. run. eapply decides_ext; [apply decides_bool|].
  rewrite negb_false_iff, starts_with_spec. split.
  - intros Hp _. exists cb, i, s. rewrite Hi. split_and!; done.
  - intros Hx. destruct (Hx eq_refl) as (cb' & i' & s' & Hb' & Hi' & Hs' & Hp).
    rewrite Hb in Hb'. injection Hb' as <-. rewrite Hi in Hi'. injection Hi' as <-.
    by injection Hs' as <-.
Qed.

Lemma check_commitment_decides b cb txs position : len (blk_txdata b) <= 2 ^ 33 ->
  blk_txdata b = cb :: txs -> is_coinbase cb = true -> witness_commitment_index cb = Some position ->
  decides (check_commitment b cb position) (exists i reserved o root,
      head (tx_input cb) = Some i /\ witness i = [reserved] /\ len reserved = 32 /\
      get (tx_output cb) position = Some o /\
      merkle_root (E:=BlockError) (replicate 32 x00 :: map compute_wtxid txs) = Ok root /\
      slice (script_pubkey o) 6 38 = Some (sha256d (Merkle.root root ++ reserved))).
Proof.
  intros Hlen Hb Hcb Hpos. destruct (coinbase_input cb Hcb) as [i Hi].
  destruct (commitment_index_get cb position Hpos) as (o & Ho & Hsz & _). unfold WITNESS_COMMITMENT_SIZE_MIN in Hsz.
  unfold check_commitment, WITNESS_RESERVED_VALUE_SIZE. rewrite Hi. cbn [head expect]. run.
  assert (Hnot : (forall r, witness i = [r] -> len r = 32 -> False) ->
    decides (Err (A:=unit) BlockError.WitnessNonceSize) (exists i' reserved o root,
      Some i = Some i' /\ witness i' = [reserved] /\ len reserved = 32 /\ get (tx_output cb) position = Some o /\
      merkle_root (E:=BlockError) (replicate 32 x00 :: map compute_wtxid txs) = Ok root /\
      slice (script_pubkey o) 6 38 = Some (sha256d (Merkle.root root ++ reserved)))).
  { intros Hno. right. split; [|by eexists]. intros (i' & r & o' & root & [= <-] & Hw & Hl & _). by apply (Hno r). }
  destruct (witness i) as [|r [|r' w]] eqn:Hw.
  - by apply Hnot.
  - change (len [r] =? 1) with true. change (get [r] 0) with (Some r). cbv beta iota.
    destruct (Z.eqb_spec (len r) 32) as [Hr|Hr]; [|apply Hnot; by intros ? [= <-] ?].
    unfold witness_root. rewrite Hb in Hlen |- *. rewrite (skipn_cons 0), skipn_0, !len_cons.
    rewrite len_cons in Hlen. pose proof (len_nonneg txs).
    rewrite (proj2 (Z.eqb_neq (len txs + 1) 0)) by lia. run.
    assert (Hlm : len (map compute_wtxid txs) = len txs) by (unfold len; by rewrite length_map).
    rewrite Hlm, Z.eqb_refl. run. rewrite merkle_root_eq by (rewrite len_cons, Hlm; done). run.
    cbn [Merkle.root]. set (root := default _ _). rewrite Ho. cbn [expect]. run.
    change (len WITNESS_COMMITMENT_HEADER) with 6. unfold WITNESS_COMMITMENT_SIZE_MIN.
    destruct (slice (script_pubkey o) 6 38) as [s|] eqn:Hs;
      [|rewrite slice_in_range in Hs by lia; done]. cbn [expect]. run.
    eapply decides_ext; [apply decides_bool|]. rewrite negb_false_iff, bool_decide_eq_true. split.
    + intros ->. eexists i, r, o, _. by split_and!.
    + intros (i' & r2 & o' & root' & [= <-] & Hw' & _ & Ho' & [= <-] & Hs'). cbn [Merkle.root] in Hs'.
      rewrite Hw in Hw'. injection Hw' as <-. injection Ho' as <-.
      rewrite Hs in Hs'. by injection Hs' as <-.
  - rewrite !len_cons. pose proof (len_nonneg w). rewrite (proj2 (Z.eqb_neq _ 1)) by lia. by apply Hnot.
Qed.

Lemma check_witness_decides b cb txs segwit : len (blk_txdata b) <= 2 ^ 33 ->
  blk_txdata b = cb :: txs -> is_coinbase cb = true ->
  decides (check_witness_malleation b segwit) (witness_rule segwit b).
Proof.
  intros Hlen Hb Hcb. unfold check_witness_malleation, witness_rule. rewrite Hb at 1. cbn [head expect]. run.
  eapply decides_ext with (P := match (if segwit then witness_commitment_index cb else None) with
    | Some position => _ | None => _ end).
  - destruct (if segwit then _ else _) as [position|] eqn:Hp.
    + destruct segwit; [|done]. by apply (check_commitment_decides b cb txs).
    + apply check_no_witness_decides.
  - split; [intros Hx; exists cb, txs; split; [done|exact Hx]|].
    intros (cb' & txs' & Heq & Hx). rewrite Hb in Heq. injection Heq as <- <-. exact Hx.
Qed.

Lemma accept_block_decides b ctx cb txs : block_typed b -> 0 < ctx_height ctx <= Height.MAX ->
  blk_txdata b = cb :: txs -> is_coinbase cb = true ->
  decides (accept_block b ctx) (block_accepted ctx b).
Proof.
  intros [Hbits (Hlen & _) Htxs Htot] Hh Hb Hcb. unfold accept_block. rewrite Hb at 1. cbn [head expect]. run.
  rewrite Hcb. run. eapply decides_ext.
  - apply decides_seq; [apply check_final_decides|intros _].
    apply decides_seq; [apply (check_coinbase_height_decides b); [done|by rewrite Hb|done]|intros _].
    apply decides_seq; [by apply (check_witness_decides b cb txs)|intros _].
    rewrite block_sizes_ok by done. run. unfold weight. cbn [sizes_base sizes_total].
    pose proof (block_base_total b). rewrite (proj2 (Z.leb_le _ _)) by lia. run.
    assert (block_total b <= 2 ^ 61).
    { unfold block_total, HEADER_SIZE. pose proof (varint_size_range (len (blk_txdata b))). lia. }
    unfold WITNESS_SCALE_FACTOR. do 2 (rewrite u64_ok by (unfold u64_max; lia); run). apply decides_bool.
  - rewrite Z.ltb_ge. split; [intros (? & ? & ? & ?)|intros []]; [constructor; done || lia|].
    split_and!; done || lia.
Qed.

(** C6. The two block stages on every tabled chain: both always answer (no assertion, no
    overflow, no index fails), [check_block] accepts exactly the blocks [CheckBlock]
    describes and [accept_block], run on those, exactly the blocks [ContextualCheckBlock]
    describes: finality under BIP113, the BIP34 height, the BIP141 commitment and weight. *)
Theorem block_stages_iff p b ctx : tabled p -> block_typed b -> 0 < ctx_height ctx <= Height.MAX ->
  check_block b p <> Panic /\ (check_block b p = Ok tt <-> block_checked p b) /\
  (block_checked p b ->
   accept_block b ctx <> Panic /\ (accept_block b ctx = Ok tt <-> block_accepted ctx b)).
Proof.
  intros Hp Hb Hh. destruct (proj1 (decides_iff _ _) (check_block_decides p b Hp Hb)) as [Hc1 Hc2].
  split_and!; [done|done|]. intros Hchk. destruct (checked_coinbase p b Hchk) as (cb & txs & Htx & Hcb & _).
  apply decides_iff. by apply (accept_block_decides b ctx cb txs).
Qed.
End stages.

(** ** A block at height 1000 *)

Definition sample_coinbase : Transaction :=
  mkTransaction 1 0 [mkTxIn (mkOutPoint (repeat x00 32) u32_max) [x02; xe8; x03] SEQUENCE_FINAL []]
    [mkTxOut 5000000000 [x51]].
Definition sample_block : Block :=
  mkBlock (mkHeader 4 (repeat x00 32) (le_bytes 32 1) 1231006506 0x1d00ffff 0) [sample_coinbase].
Definition sample_context : Context := mkContext 1000 1231006505 1231006505 0x1d00ffff sample_rules.

Lemma mainnet_tabled_sized : @tabled sized_crate mainnet_params.
Proof. apply (tabled_mainnet (H:=sized_crate) some_genesis). vm_compute. reflexivity. Qed.

Lemma sample_block_typed : @block_typed sized_crate sample_block.
Proof.
  constructor.
  - vm_compute. split; congruence.
  - split_and!; [vm_compute; congruence|reflexivity|]. repeat constructor; vm_compute; congruence.
  - repeat constructor; vm_compute; congruence.
  - vm_compute. congruence.
Qed.

Lemma block_stages_iff_witness :
  @block_checked prefix_hashes simple_encoding sized_crate toy_secp mainnet_params sample_block /\
  @accept_block prefix_hashes simple_encoding sized_crate sample_block sample_context = Ok tt.
Proof.
  destruct sized_crate_laws as (Hsize & Hid & Hcb).
  destruct (@block_stages_iff prefix_hashes prefix_hash_lengths simple_encoding simple_encoding_laws sized_crate
    Hid Hsize Hcb toy_secp toy_secp_laws encoded_order encoded_order_laws mainnet_params sample_block sample_context)
    as (_ & Hchk & Hacc).
  - exact mainnet_tabled_sized.
  - exact sample_block_typed.
  - vm_compute. split; congruence.
  - assert (Hc : @block_checked prefix_hashes simple_encoding sized_crate toy_secp
      mainnet_params sample_block) by (apply Hchk; vm_compute; reflexivity).
    split; [exact Hc|]. destruct (Hacc Hc) as [_ Hiff]. vm_compute. reflexivity.
Defined.
