(* ===== verification/Coins.v ===== *)
(** * Coins: the stages that read and change the set of unspent coins
    ([consensus/src/block/coins.rs])

    [usize] has 64 bits.  The [BTreeSet]s of outpoints are finite sets: only membership is
    observed. *)
From stdpp Require Import sorting gmap.
From S2P Require Import Prelude Bitcoin Flags Params Header Script SigScript Sighash Checker Verify Tx.

Definition BLOCK_BASE_SIZE_MAX : Z := 1000000.
Definition TX_IN_SIZE_MIN : Z := 36 + 1 + 4.
Definition TX_OUT_SIZE_MIN : Z := 8 + 1.
Definition MAX_BLOCK_INPUTS : Z := BLOCK_BASE_SIZE_MAX / TX_IN_SIZE_MIN.
Definition MAX_BLOCK_OUTPUTS : Z := BLOCK_BASE_SIZE_MAX / TX_OUT_SIZE_MIN.

Inductive InputSource :=
| InBlock (tx_index : Z)
| FromChain (time_locked : bool).

Record InputCoin := mkInputCoin { ic_coin : Coin; ic_median_time_past : option Z }.

Record Prefetch := mkPrefetch { pre_spent : list (option InputCoin); pre_existing : list Coin }.

Record BlockDelta := mkBlockDelta {
  delta_height : Z;
  delta_hash : bytes;
  delta_spent : list Coin;
  delta_overwritten : list Coin;
  delta_created : list Coin;
}.

Record Confirmed := mkConfirmed { delta : BlockDelta; prevouts : list Coin }.

Module ConfirmError.
Inductive ConfirmError :=
| Bip30 (outpoint : OutPoint)
| InputsMissingOrSpent (index input : Z)
| Inputs (index : Z) (error : TxInputsError)
| AccumulatedFeeOutOfRange (index : Z)
| SequenceLocked (index : Z)
| BadSigOps (cost : Z)
| BadCoinbaseAmount (paid allowed : Z).
End ConfirmError.
Notation ConfirmError := ConfirmError.ConfirmError.

Record ConnectError := mkConnectError { ce_index : Z; ce_input : Z; ce_error : ScriptError }.

(** The crate's [Ord for Txid]. *)
Class TxidOrder := {
  txid_le : relation bytes;
  txid_le_dec :: RelDecision txid_le;
}.

Class TxidOrderLaws `{TxidOrder} : Prop := {
  txid_le_total :: Total txid_le;
  txid_le_trans :: Transitive txid_le;
  txid_le_antisymm :: AntiSymm eq txid_le;
}.

(** The derived order of [(Txid, usize)]: lexicographic. *)
Definition entry_le `{TxidOrder} (a b : bytes * Z) : Prop :=
  a.1 = b.1 /\ a.2 <= b.2 \/ a.1 <> b.1 /\ txid_le a.1 b.1.
#[global] Instance entry_le_dec `{TxidOrder} : RelDecision entry_le.
Proof. intros a b. unfold entry_le. apply _. Defined.

(** [Vec::dedup_by_key(|entry| entry.0)]: of equal neighbours the first stays. *)
Fixpoint dedup_after (kept : bytes) (l : list (bytes * Z)) : list (bytes * Z) :=
  match l with
  | [] => []
  | (k, i) :: l => if bool_decide (k = kept) then dedup_after kept l else (k, i) :: dedup_after k l
  end.
Definition dedup_by_key (l : list (bytes * Z)) : list (bytes * Z) :=
  match l with [] => [] | (k, i) :: l => (k, i) :: dedup_after k l end.

Module TxidIndex.
Record TxidIndex := mkIndex { entries : list (bytes * Z) }.

Section index.
Context `{BitcoinCrate} `{TxidOrder}.

Definition new {E} (block : Block) : outcome E TxidIndex :=
  assert_ (negb (len (blk_txdata block) =? 0));;
  let entries := map (fun '(index, tx) => (compute_txid tx, index)) (enumerate (blk_txdata block)) in
  let entries := merge_sort entry_le entries in
  let entries := dedup_by_key entries in
  assert_ (len entries <=? len (blk_txdata block));;
  Ok (mkIndex entries).
End index.

(** The entries are sorted and their keys distinct, so the binary search finds the one entry
    of the key if there is one. *)
Definition position {E} (self : TxidIndex) (txid : bytes) : outcome E (option Z) :=
  match list_find (fun entry => entry.1 = txid) (entries self) with
  | None => Ok None
  | Some (found, _) =>
      assert_ (Z.of_nat found <? len (entries self));;
      match get (entries self) (Z.of_nat found) with
      | None => Ok None
      | Some entry =>
          assert_ (bool_decide (entry.1 = txid));;
          Ok (Some entry.2)
      end
  end.
End TxidIndex.

Definition in_block_output {E} (block : Block) (txids : TxidIndex.TxidIndex) (spender : Z)
    (outpoint : OutPoint) : outcome E (option (Z * TxOut)) :=
  creator ← TxidIndex.position txids (op_txid outpoint);
  match creator with
  | None => Ok None
  | Some creator =>
      if spender <=? creator then Ok None
      else
        assert_ (creator <? len (blk_txdata block));;
        match get (blk_txdata block) creator with
        | None => Ok None
        | Some tx =>
            match get (tx_output tx) (op_vout outpoint) with
            | None => Ok None
            | Some output =>
                if is_unspendable (script_pubkey output) then Ok None else Ok (Some (creator, output))
            end
        end
  end.

Definition input_count {E} (block : Block) : outcome E Z :=
  count ← foldM (fun n tx => u64 (n + len (tx_input tx))) 0 (drop 1 (blk_txdata block));
  assert_ (count <=? MAX_BLOCK_INPUTS);;
  Ok count.

Definition is_time_locked (sequence : Z) : bool :=
  (Z.land sequence SEQUENCE_LOCKTIME_DISABLE_FLAG =? 0) &&
  negb (Z.land sequence SEQUENCE_LOCKTIME_TYPE_FLAG =? 0).

Section coins.
Context `{BitcoinCrate} `{TxidOrder}.

(** ** [populate] *)

Definition input_source {E} (block : Block) (txids : TxidIndex.TxidIndex) (index : Z) (bip68 : bool)
    (input : TxIn) : outcome E InputSource :=
  found ← in_block_output block txids index (previous_output input);
  Ok (match found with
      | Some (tx_index, _) => InBlock tx_index
      | None => FromChain (bip68 && is_time_locked (sequence input))
      end).

Definition populate_tx {E} (block : Block) (txids : TxidIndex.TxidIndex) (sources : list InputSource)
    (item : Z * Transaction) : outcome E (list InputSource) :=
  let '(index, tx) := item in
  assert_ (negb (is_coinbase tx));;
  let bip68 := bip68_applies tx in
  foldM (fun sources input =>
    source ← input_source block txids index bip68 input;
    Ok (sources ++ [source])) sources (tx_input tx).

Definition populate {E} (block : Block) : outcome E (list InputSource) :=
  coinbase ← expect (head (blk_txdata block));
  assert_ (is_coinbase coinbase);;
  txids ← TxidIndex.new block;
  _ ← input_count block;
  sources ← foldM (populate_tx block txids) [] (drop 1 (enumerate (blk_txdata block)));
  count ← input_count block;
  assert_ (len sources =? count);;
  Ok sources.

(** ** BIP30 *)

Definition bip30_step (block : Block) (txids : TxidIndex.TxidIndex) (bip30 : Bip30)
    (seen : gset OutPoint) (coin : Coin) : outcome ConfirmError (gset OutPoint) :=
  p ← TxidIndex.position txids (op_txid (outpoint coin));
  creator ← expect p;
  tx ← expect (get (blk_txdata block) creator);
  assert_ (op_vout (outpoint coin) <? len (tx_output tx));;
  assert_ (negb (bool_decide (outpoint coin ∈ seen)));;
  let seen := {[outpoint coin]} ∪ seen in
  match bip30 with
  | Enforce => Err (ConfirmError.Bip30 (outpoint coin))
  | Overwrite => if 0 <? creator then Err (ConfirmError.Bip30 (outpoint coin)) else Ok seen
  | Skip => Panic
  end.

Definition check_bip30 (block : Block) (txids : TxidIndex.TxidIndex) (existing : list Coin)
    (bip30 : Bip30) : outcome ConfirmError (list Coin) :=
  assert_ (len existing <=? MAX_BLOCK_OUTPUTS);;
  seen ← foldM (bip30_step block txids bip30) ∅ existing;
  if bool_decide (bip30 = Overwrite) then
    assert_ (bool_decide (size seen = length existing));;
    Ok existing
  else Ok [].

(** ** The view of the block so far *)

Record BlockView := mkBlockView {
  view_block : Block;
  view_txids : TxidIndex.TxidIndex;
  view_spent : gset OutPoint;
}.

Record ResolvedInput := mkResolved {
  ri_coin : Coin;
  ri_base : RelativeLockBase;
  ri_in_block : bool;
}.

(** The coin behind one input: from the block, or from the prefetch. *)
Definition resolve_coin (self : BlockView) (index input : Z) (outpoint : OutPoint)
    (entry : option InputCoin) (context : Context)
    : outcome ConfirmError (Coin * option Z * bool) :=
  found ← in_block_output (view_block self) (view_txids self) index outpoint;
  match found with
  | Some (creator, output) =>
      assert_ (bool_decide (entry = None));;
      Ok (mkCoin outpoint output (ctx_height context) (creator =? 0),
          Some (ctx_median_time_past context), true)
  | None =>
      match entry with
      | None => Err (ConfirmError.InputsMissingOrSpent index input)
      | Some fetched =>
          assert_ (bool_decide (Tx.outpoint (ic_coin fetched) = outpoint));;
          Ok (ic_coin fetched, ic_median_time_past fetched, false)
      end
  end.

(** The body of the loop of [resolve]. *)
Definition resolve_input (index : Z) (context : Context) (st : BlockView * list ResolvedInput)
    (item : Z * (TxIn * option InputCoin)) : outcome ConfirmError (BlockView * list ResolvedInput) :=
  let '(self, resolved) := st in
  let '(input, (txin, entry)) := item in
  let outpoint := previous_output txin in
  '(coin, median_time_past, in_block) ← resolve_coin self index input outpoint entry context;
  if bool_decide (outpoint ∈ view_spent self) then Err (ConfirmError.InputsMissingOrSpent index input)
  else
    Ok (mkBlockView (view_block self) (view_txids self) ({[outpoint]} ∪ view_spent self),
        resolved ++ [mkResolved coin (mkLockBase (coin_height coin) median_time_past) in_block]).

Definition resolve (self : BlockView) (index : Z) (tx : Transaction) (entries : list (option InputCoin))
    (context : Context) : outcome ConfirmError (BlockView * list ResolvedInput) :=
  assert_ (0 <? index);;
  assert_ (len entries =? len (tx_input tx));;
  '(self, resolved) ← foldM (resolve_input index context) (self, [])
    (enumerate (zip (tx_input tx) entries));
  assert_ (len resolved =? len (tx_input tx));;
  Ok (self, resolved).

Definition confirm_inputs (index : Z) (tx : Transaction) (resolved : list ResolvedInput)
    (context : Context) (fees_so_far : Z) : outcome ConfirmError Z :=
  assert_ (0 <? index);;
  assert_ (len resolved =? len (tx_input tx));;
  let coins := map ri_coin resolved in
  fee ← map_err (ConfirmError.Inputs index) (check_tx_inputs tx coins (ctx_height context));
  assert_ (fees_so_far <=? MAX_MONEY);;
  sum ← u64 (fees_so_far + fee);
  if MAX_MONEY <? sum then Err (ConfirmError.AccumulatedFeeOutOfRange index)
  else
    let bases := map ri_base resolved in
    satisfied ← sequence_locks_satisfied tx bases context;
    if negb (satisfied : bool) then Err (ConfirmError.SequenceLocked index) else Ok fee.

(** The body of the loop of [add_created]. *)
Definition add_output {E} (txid : bytes) (height : Z) (coinbase : bool) (created : list Coin)
    (item : Z * TxOut) : outcome E (list Coin) :=
  let '(vout, output) := item in
  if is_unspendable (script_pubkey output) then Ok created
  else
    vout ← expect (try_from u32_max vout);
    Ok (created ++ [mkCoin (mkOutPoint txid vout) output height coinbase]).

Definition add_created {E} (created : list Coin) (tx : Transaction) (index height : Z)
    : outcome E (list Coin) :=
  let txid := compute_txid tx in
  let coinbase := index =? 0 in
  assert_ (Bool.eqb coinbase (is_coinbase tx));;
  foldM (add_output txid height coinbase) created (enumerate (tx_output tx)).

(** [BlockView::net]. *)
Definition net {E} (self : BlockView) (d : BlockDelta) : outcome E BlockDelta :=
  let before := len (delta_created d) in
  let created := filter (fun coin => outpoint coin ∉ view_spent self) (delta_created d) in
  assert_ (len created <=? before);;
  assert_ (len created <=? MAX_BLOCK_OUTPUTS);;
  foldM (fun _ coin =>
    p ← TxidIndex.position (view_txids self) (op_txid (outpoint coin));
    assert_ (bool_decide (p = None))) tt (delta_spent d);;
  Ok (mkBlockDelta (delta_height d) (delta_hash d) (delta_spent d) (delta_overwritten d) created).

(** The mutable state of [confirm]'s loop. *)
Record ConfirmState := mkConfirmState {
  cs_confirmed : Confirmed;
  cs_view : BlockView;
  cs_fees : Z;
  cs_sigops : Z;
  cs_next : Z;
}.

Definition push_spent (confirmed : Confirmed) (input : ResolvedInput) : Confirmed :=
  let d := delta confirmed in
  let spent := if negb (ri_in_block input) then delta_spent d ++ [ri_coin input] else delta_spent d in
  mkConfirmed (mkBlockDelta (delta_height d) (delta_hash d) spent (delta_overwritten d) (delta_created d))
    (prevouts confirmed ++ [ri_coin input]).

Definition set_created (confirmed : Confirmed) (created : list Coin) : Confirmed :=
  let d := delta confirmed in
  mkConfirmed (mkBlockDelta (delta_height d) (delta_hash d) (delta_spent d) (delta_overwritten d) created)
    (prevouts confirmed).

(** The body of the loop of [confirm]. *)
Definition confirm_tx (prefetch : Prefetch) (context : Context) (st : ConfirmState)
    (item : Z * Transaction) : outcome ConfirmError ConfirmState :=
  let '(index, tx) := item in
  width ← u64 (len (tx_input tx) * (if 0 <? index then 1 else 0));
  last ← u64 (cs_next st + width);
  entries ← expect (slice (pre_spent prefetch) (cs_next st) last);
  next ← u64 (cs_next st + len entries);
  '(confirmed, view, fees, outputs) ←
    (if 0 <? index then
       '(view, resolved) ← resolve (cs_view st) index tx entries context;
       fee ← confirm_inputs index tx resolved context (cs_fees st);
       fees ← u64 (cs_fees st + fee);
       Ok (fold_left push_spent resolved (cs_confirmed st), view, fees,
           map (fun input => output (ri_coin input)) resolved)
     else Ok (cs_confirmed st, cs_view st, cs_fees st, []));
  cost ← sigop_cost tx outputs (rules_script_flags (ctx_rules context));
  total ← u64 (cs_sigops st + cost);
  if MAX_BLOCK_SIGOPS_COST <? total then Err (ConfirmError.BadSigOps total)
  else
    created ← add_created (delta_created (delta confirmed)) tx index (ctx_height context);
    Ok (mkConfirmState (set_created confirmed created) view fees total next).

Definition confirm (block : Block) (prefetch : Prefetch) (context : Context)
    : outcome ConfirmError Confirmed :=
  coinbase ← expect (head (blk_txdata block));
  assert_ (is_coinbase coinbase);;
  count ← input_count block;
  assert_ (len (pre_spent prefetch) =? count);;
  txids ← TxidIndex.new block;
  overwritten ← check_bip30 block txids (pre_existing prefetch) (rules_bip30 (ctx_rules context));
  let confirmed := mkConfirmed
    (mkBlockDelta (ctx_height context) (block_hash (blk_header block)) [] overwritten []) [] in
  st ← foldM (confirm_tx prefetch context)
    (mkConfirmState confirmed (mkBlockView block txids ∅) 0 0 0) (enumerate (blk_txdata block));
  assert_ (cs_next st =? count);;
  assert_ (len (prevouts (cs_confirmed st)) =? count);;
  paid ← value_out coinbase;
  allowed ← u64 (cs_fees st + subsidy (ctx_rules context));
  if allowed <? paid then Err (ConfirmError.BadCoinbaseAmount paid allowed)
  else
    d ← net (cs_view st) (delta (cs_confirmed st));
    Ok (mkConfirmed d (prevouts (cs_confirmed st))).

(** ** [connect] *)

Context `{Hashes} `{Encoding} `{Secp256k1}.

(** The [zip] and [map] that pair each coin with its input. *)
Definition coin_outputs {E} (inputs : list TxIn) (coins : list Coin) : outcome E (list TxOut) :=
  foldM (fun outputs '(input, coin) =>
    assert_ (bool_decide (outpoint coin = previous_output input));;
    Ok (outputs ++ [output coin])) [] (zip inputs coins).

Definition connect_tx (prevouts : list Coin) (flags : ScriptFlags.ScriptFlags) (next_coin : Z)
    (item : Z * Transaction) : outcome ConnectError Z :=
  let '(index, tx) := item in
  assert_ (negb (is_coinbase tx));;
  last ← u64 (next_coin + len (tx_input tx));
  coins ← expect (slice prevouts next_coin last);
  next_coin ← u64 (next_coin + len coins);
  outputs ← coin_outputs (tx_input tx) coins;
  precomputed ← new_precomputed tx outputs;
  foldM (fun _ '(input, _) =>
    map_err (mkConnectError index input) (verify_input tx input outputs precomputed flags))
    tt (enumerate (tx_input tx));;
  Ok next_coin.

Definition connect (block : Block) (prevouts : list Coin) (context : Context)
    : outcome ConnectError unit :=
  coinbase ← expect (head (blk_txdata block));
  assert_ (is_coinbase coinbase);;
  count ← input_count block;
  assert_ (len prevouts =? count);;
  let flags := rules_script_flags (ctx_rules context) in
  next_coin ← foldM (connect_tx prevouts flags) 0 (drop 1 (enumerate (blk_txdata block)));
  assert_ (next_coin =? len prevouts).
End coins.
