(* ===== verification/CoinsProofs.v ===== *)
(** * CoinsProofs: the sorted index of a block's transactions, and the resolution of spends *)
From stdpp Require Import sorting gmap.
From S2P Require Import Prelude Bitcoin Flags Params Header Script VerifyProofs Sigops Tx TxProofs Block BlockProofs Coins.

(** ** The sorted, deduplicated index finds the first position of an id *)

Section index.
Context `{TL : TxidOrderLaws}.

#[global] Instance entry_le_total : Total entry_le.
Proof.
  intros [a i] [b j]. unfold entry_le; cbn. destruct (decide (a = b)) as [->|].
  - destruct (Z.le_ge_cases i j); [left|right]; left; split; done || lia.
  - destruct (total txid_le a b); [left|right]; right; done.
Qed.

#[global] Instance entry_le_trans : Transitive entry_le.
Proof.
  intros [a i] [b j] [c k]. unfold entry_le; cbn.
  intros [[-> H1]|[H1 H2]] [[-> H3]|[H3 H4]]; [left; split; [done|lia]|by right|by right|].
  right. split; [|by etrans]. intros <-. apply H1. by apply (anti_symm txid_le).
Qed.

Lemma dedup_after_spec l : forall kept i0 k i, StronglySorted entry_le ((kept, i0) :: l) ->
  (k, i) ∈ dedup_after kept l <-> k <> kept /\ (k, i) ∈ l /\ forall j, (k, j) ∈ l -> i <= j.
Proof.
  induction l as [|[k' i'] l IH]; intros kept i0 k i Hs; cbn [dedup_after]; [set_solver|].
  inversion_clear Hs as [|? ? Hs' Hf]. inversion_clear Hs' as [|? ? Hs'' Hf'].
  rewrite Forall_forall in Hf, Hf'. case_bool_decide as Hk; [subst k'|].
  - rewrite (IH kept i0); [|constructor; [done|]; apply Forall_forall; intros x Hx; apply Hf; set_solver].
    set_solver.
  - rewrite elem_of_cons, (IH k' i'); [|constructor; [done|]; by apply Forall_forall]. split.
    + intros [[= -> ->]|(Hne & Hin & Hmin)].
      * split; [done|]. split; [set_solver|]. intros j [[= ->]|Hj]%elem_of_cons; [lia|].
        destruct (Hf' _ Hj) as [[_ ?]|[? _]]; cbn in *; [lia|done].
      * split; [|set_solver]. intros ->.
        destruct (Hf (k', i')) as [[? _]|[_ H1]]; [set_solver|cbn in *; congruence|].
        destruct (Hf' _ Hin) as [[? _]|[_ H2]]; [cbn in *; congruence|]. cbn in *.
        apply Hk. by apply (anti_symm txid_le).
    + intros (Hne & [[= -> ->]|Hin]%elem_of_cons & Hmin); [by left|].
      destruct (decide (k = k')) as [->|]; [left|right; set_solver].
      assert (i <= i') by (apply Hmin; set_solver). destruct (Hf' _ Hin) as [[_ ?]|[? _]]; cbn in *; [|done].
      f_equal. lia.
Qed.

Lemma dedup_spec l k i : StronglySorted entry_le l ->
  (k, i) ∈ dedup_by_key l <-> (k, i) ∈ l /\ forall j, (k, j) ∈ l -> i <= j.
Proof.
  destruct l as [|[k' i'] l]; intros Hs; cbn [dedup_by_key]; [set_solver|].
  rewrite elem_of_cons, (dedup_after_spec l k' i') by done. inversion_clear Hs as [|? ? _ Hf].
  rewrite Forall_forall in Hf. split.
  - intros [[= -> ->]|(Hne & Hin & Hmin)]; [|set_solver]. split; [set_solver|].
    intros j [[= ->]|Hj]%elem_of_cons; [lia|]. destruct (Hf _ Hj) as [[_ ?]|[? _]]; cbn in *; [lia|done].
  - intros ([[= -> ->]|Hin]%elem_of_cons & Hmin); [by left|].
    destruct (decide (k = k')) as [->|]; [left|right; set_solver].
    assert (i <= i') by (apply Hmin; set_solver). destruct (Hf _ Hin) as [[_ ?]|[? _]]; cbn in *; [|done].
    f_equal. lia.
Qed.

Lemma length_dedup_after l : forall kept, (length (dedup_after kept l) <= length l)%nat.
Proof.
  induction l as [|[k i] l IH]; intros kept; cbn; [done|]. case_bool_decide; cbn; [|specialize (IH k)]; [specialize (IH kept)|]; lia.
Qed.

Lemma length_dedup l : (length (dedup_by_key l) <= length l)%nat.
Proof. destruct l as [|[k i] l]; cbn; [done|]. pose proof (length_dedup_after l k). lia. Qed.
End index.

Lemma elem_of_enumerate_from {A} (l : list A) : forall s i x,
  (i, x) ∈ enumerate_from s l <-> s <= i /\ get l (i - s) = Some x.
Proof.
  induction l as [|y l IH]; intros s i x; cbn [enumerate_from].
  - rewrite elem_of_nil. split; [done|]. intros [_ Hg]. apply get_Some_range in Hg. cbn in Hg. unfold len in Hg. cbn in Hg. lia.
  - rewrite elem_of_cons, IH. split.
    + intros [[= -> ->]|[Hi Hg]]; [split; [lia|]; by rewrite Z.sub_diag|]. split; [lia|].
      replace (i - s) with (len [y] + (i - (s + 1))) by (change (len [y]) with 1; lia).
      change (y :: l) with ([y] ++ l). rewrite get_app_r by (pose proof (get_Some_range _ _ _ Hg); lia).
      by replace (len [y] + (i - (s + 1)) - len [y]) with (i - (s + 1)) by lia.
    + intros [Hi Hg]. destruct (decide (i = s)) as [->|].
      * rewrite Z.sub_diag in Hg. left. cbn in Hg. by injection Hg as ->.
      * right. split; [lia|]. change (y :: l) with ([y] ++ l) in Hg.
        rewrite get_app_r in Hg by (change (len [y]) with 1; lia). change (len [y]) with 1 in Hg.
        by replace (i - (s + 1)) with (i - s - 1) by lia.
Qed.

Lemma elem_of_concat {A} (x : A) ls : x ∈ concat ls <-> exists l, x ∈ l /\ l ∈ ls.
Proof.
  rewrite list_elem_of_In, in_concat. setoid_rewrite <- list_elem_of_In. naive_solver.
Qed.

Lemma get_nat {A} (l : list A) n x : get l (Z.of_nat n) = Some x <-> l !! n = Some x.
Proof. unfold get. rewrite (proj2 (Z.leb_le _ _)) by lia. by rewrite Nat2Z.id. Qed.

Section positions.
Context `{BC : BitcoinCrate} `{TL : TxidOrderLaws}.

(** The first transaction with an id. *)
Definition first_with (txs : list Transaction) (txid : bytes) (o : option Z) : Prop :=
  match o with
  | Some i => (exists tx, get txs i = Some tx /\ compute_txid tx = txid) /\
      forall j tx, get txs j = Some tx -> compute_txid tx = txid -> i <= j
  | None => forall tx, tx ∈ txs -> compute_txid tx <> txid
  end.

Lemma txid_index_new {E} block : blk_txdata block <> [] ->
  exists idx, TxidIndex.new (E:=E) block = Ok idx /\
    forall (F : Type) txid, exists o, TxidIndex.position (E:=F) idx txid = Ok o /\ first_with (blk_txdata block) txid o.
Proof.
  intros Hne. unfold TxidIndex.new. rewrite len_eqb_0, bool_decide_eq_false_2 by done. run.
  set (l := map _ (enumerate _)). set (s := merge_sort entry_le l).
  assert (Hl : forall k i, (k, i) ∈ s <-> exists tx, get (blk_txdata block) i = Some tx /\ compute_txid tx = k).
  { intros k i. unfold s. rewrite merge_sort_Permutation. unfold l. rewrite list_elem_of_fmap. split.
    - intros ([j tx] & [= -> ->] & Hin). unfold enumerate in Hin. apply elem_of_enumerate_from in Hin as [_ Hg].
      rewrite Z.sub_0_r in Hg. by exists tx.
    - intros (tx & Hg & <-). exists (i, tx). split; [done|]. apply elem_of_enumerate_from.
      rewrite Z.sub_0_r. split; [|done]. apply get_Some_range in Hg. lia. }
  assert (Hs : StronglySorted entry_le s) by apply (StronglySorted_merge_sort entry_le).
  rewrite (proj2 (Z.leb_le _ _)).
  2:{ pose proof (length_dedup s) as Hd. unfold len. unfold s in *. rewrite merge_sort_Permutation in Hd at 2.
      unfold l, enumerate in *. rewrite length_map, length_enumerate_from in Hd. lia. }
  run. eexists. split; [done|]. intros F txid. unfold TxidIndex.position. cbn [TxidIndex.entries].
  destruct (list_find _ (dedup_by_key s)) as [[n [k i]]|] eqn:Hf.
  - apply list_find_Some in Hf as (Hn & Hk & _). cbn in Hk. subst k.
    assert (Hg : get (dedup_by_key s) (Z.of_nat n) = Some (txid, i)).
    { by apply get_nat. }
    rewrite (proj2 (Z.ltb_lt _ _)) by (apply get_Some_range in Hg; lia). run. rewrite Hg. cbn [fst snd].
    rewrite bool_decide_eq_true_2 by done. run. eexists. split; [done|]. cbn.
    apply list_elem_of_lookup_2 in Hn. apply dedup_spec in Hn as [Hin Hmin]; [|done].
    split; [by apply Hl|]. intros j tx Hj Htx. apply Hmin, Hl. by exists tx.
  - eexists. split; [done|]. cbn. intros tx Htx Hid. apply list_find_None in Hf. rewrite Forall_forall in Hf.
    destruct (list_find (fun t => compute_txid t = txid) (blk_txdata block)) as [[n t]|] eqn:Hfind.
    + apply list_find_Some in Hfind as (Hn & Ht & Hmin). apply (Hf (txid, Z.of_nat n)); [|done].
      apply dedup_spec; [done|]. split; [apply Hl; exists t; split; [by apply get_nat|done]|].
      intros j Hj. apply Hl in Hj as (t' & Hj & Ht'). destruct (Z.le_gt_cases (Z.of_nat n) j) as [|Hlt]; [done|].
      pose proof (get_Some_range _ _ _ Hj). exfalso. apply (Hmin (Z.to_nat j) t'); [|lia|done].
      apply get_nat. by rewrite Z2Nat.id by lia.
    + apply list_find_None in Hfind. rewrite Forall_forall in Hfind. by apply (Hfind tx).
Qed.
End positions.

(** ** In-block spends and [populate] *)

Section resolution.
Context `{BC : BitcoinCrate} `{TL : TxidOrderLaws}.

(** The output an outpoint names, when a transaction before [spender] created it. *)
Definition resolves (txs : list Transaction) (spender : Z) (op : OutPoint) (i : Z) (o : TxOut) : Prop :=
  first_with txs (op_txid op) (Some i) /\ i < spender /\
  exists tx, get txs i = Some tx /\ get (tx_output tx) (op_vout op) = Some o /\
    is_unspendable (script_pubkey o) = false.

(** An index that answers for the block. *)
Definition index_ok (block : Block) (idx : TxidIndex.TxidIndex) : Prop :=
  forall (F : Type) txid, exists o, TxidIndex.position (E:=F) idx txid = Ok o /\
    first_with (blk_txdata block) txid o.

Lemma first_with_unique txs txid i j : first_with txs txid (Some i) -> first_with txs txid (Some j) -> i = j.
Proof.
  intros [(tx & Hg & Ht) Hmin] [(tx' & Hg' & Ht') Hmin'].
  pose proof (Hmin _ _ Hg' Ht'). pose proof (Hmin' _ _ Hg Ht). lia.
Qed.

Lemma in_block_output_ok {E} block idx spender op : index_ok block idx ->
  exists r, in_block_output (E:=E) block idx spender op = Ok r /\
    match r with
    | Some (i, o) => resolves (blk_txdata block) spender op i o
    | None => forall i o, ~ resolves (blk_txdata block) spender op i o
    end.
Proof.
  intros Hidx. unfold in_block_output. destruct (Hidx E (op_txid op)) as (p & -> & Hp). run.
  destruct p as [i|].
  2:{ eexists. split; [done|]. intros i o ([(tx & Hg & Ht) _] & _). apply (Hp tx); [|done]. by eapply get_elem. }
  assert (Huniq : forall j o, resolves (blk_txdata block) spender op j o -> j = i).
  { intros j o [Hj _]. by eapply first_with_unique. }
  destruct (Z.leb_spec spender i).
  { eexists. split; [done|]. intros j o Hr. pose proof (Huniq j o Hr). destruct Hr as (_ & ? & _). lia. }
  pose proof Hp as [(tx & Hg & Ht) _]. pose proof (get_Some_range _ _ _ Hg).
  rewrite (proj2 (Z.ltb_lt _ _)) by lia. run. rewrite Hg.
  assert (Htx : forall j o, resolves (blk_txdata block) spender op j o ->
    get (tx_output tx) (op_vout op) = Some o /\ is_unspendable (script_pubkey o) = false).
  { intros j o Hr. pose proof (Huniq j o Hr) as ->. destruct Hr as (_ & _ & tx' & Hg' & Ho & Hu). naive_solver. }
  destruct (get (tx_output tx) (op_vout op)) as [o|] eqn:Ho.
  2:{ eexists. split; [done|]. intros j o Hr. by destruct (Htx j o Hr). }
  destruct (is_unspendable (script_pubkey o)) eqn:Hu.
  - eexists. split; [done|]. intros j o' Hr. destruct (Htx j o' Hr) as [[= <-] ?]. congruence.
  - eexists. split; [done|]. split; [done|]. split; [done|]. by exists tx.
Qed.

(** The inputs a block spends, in block order: every transaction's but the coinbase's. *)
Definition tx_spends (item : Z * Transaction) : list (Z * Transaction * TxIn) :=
  map (fun input => (item, input)) (tx_input item.2).
Definition spends (block : Block) : list (Z * Transaction * TxIn) :=
  concat (map tx_spends (drop 1 (enumerate (blk_txdata block)))).

Definition source_ok (block : Block) (x : Z * Transaction * TxIn) (s : InputSource) : Prop :=
  let '(index, tx, input) := x in
  match s with
  | InBlock i => exists o, resolves (blk_txdata block) index (previous_output input) i o
  | FromChain time_locked =>
      (forall i o, ~ resolves (blk_txdata block) index (previous_output input) i o) /\
      time_locked = bip68_applies tx && is_time_locked (sequence input)
  end.

Lemma input_source_ok {E} block idx index tx input : index_ok block idx ->
  exists s, input_source (E:=E) block idx index (bip68_applies tx) input = Ok s /\
    source_ok block (index, tx, input) s.
Proof.
  intros Hidx. unfold input_source.
  destruct (in_block_output_ok (E:=E) block idx index (previous_output input) Hidx) as (r & -> & Hr). run.
  eexists. split; [done|]. destruct r as [[i o]|]; cbn; [by exists o|done].
Qed.

Lemma populate_tx_ok {E} block idx index tx sources : index_ok block idx -> is_coinbase tx = false ->
  exists l, populate_tx (E:=E) block idx sources (index, tx) = Ok (sources ++ l) /\
    Forall2 (source_ok block) (tx_spends (index, tx)) l.
Proof.
  intros Hidx Hcb. unfold populate_tx, tx_spends. rewrite Hcb. cbn [negb snd]. run. generalize sources.
  induction (tx_input tx) as [|input inputs IH]; intros acc; cbn [foldM map].
  { exists []. rewrite app_nil_r. by split. }
  destruct (input_source_ok (E:=E) block idx index tx input Hidx) as (s & -> & Hs). run.
  destruct (IH (acc ++ [s])) as (l & -> & Hl). exists (s :: l).
  split; [by rewrite <- app_assoc|]. by constructor.
Qed.

Lemma length_concat_spends (items : list (Z * Transaction)) :
  len (concat (map tx_spends items)) = sum_of (fun it => len (tx_input it.2)) items.
Proof.
  induction items as [|it items IH]; [done|]. cbn [map concat sum_of foldr]. rewrite len_app, IH.
  unfold tx_spends, len. by rewrite length_map.
Qed.

Lemma snd_enumerate_from {A} (l : list A) : forall i, map snd (enumerate_from i l) = l.
Proof. induction l as [|x l IH]; intros i; [done|]. cbn. by rewrite IH. Qed.

Lemma input_count_ok {E} block : len (spends block) <= MAX_BLOCK_INPUTS ->
  input_count (E:=E) block = Ok (len (spends block)).
Proof.
  intros Hl. assert (Hsum : len (spends block) = sum_of (fun tx => len (tx_input tx)) (drop 1 (blk_txdata block))).
  { unfold spends. rewrite length_concat_spends. destruct (blk_txdata block) as [|cb txs]; [done|].
    rewrite drop_enumerate. change (drop 1 (cb :: txs)) with txs. generalize 1 at 1.
    induction txs as [|tx txs IH]; intros i; [done|].
    change (len (tx_input tx) + sum_of (fun it => len (tx_input it.2)) (enumerate_from (i + 1) txs) =
      len (tx_input tx) + sum_of (fun tx => len (tx_input tx)) txs). by rewrite IH. }
  rewrite Hsum in *. unfold input_count. unfold MAX_BLOCK_INPUTS, BLOCK_BASE_SIZE_MAX, TX_IN_SIZE_MIN in *.
  change (1000000 / (36 + 1 + 4)) with 24390 in *.
  assert (Hf : forall l c, 0 <= c -> c + sum_of (fun tx => len (tx_input tx)) l <= 24390 ->
    foldM (fun n tx => u64 (n + len (tx_input tx))) c l = Ok (E:=E) (c + sum_of (fun tx => len (tx_input tx)) l)).
  { induction l as [|tx l IH]; intros c Hc Hs; cbn [foldM sum_of foldr] in *; [f_equal; lia|].
    pose proof (len_nonneg (tx_input tx)).
    pose proof (sum_of_nonneg (fun tx => len (tx_input tx)) l (fun tx => len_nonneg _)). unfold sum_of in *.
    rewrite u64_ok by (unfold u64_max; lia). run. rewrite IH by lia. f_equal. lia. }
  rewrite Hf by lia. run. rewrite Z.add_0_l, (proj2 (Z.leb_le _ _)) by lia. done.
Qed.

(** The shape of a block that [check_block] accepted. *)
Definition shaped (block : Block) : Prop :=
  (exists cb txs, blk_txdata block = cb :: txs /\ is_coinbase cb = true /\
    Forall (fun tx => is_coinbase tx = false) txs) /\
  len (spends block) <= MAX_BLOCK_INPUTS.

Lemma populate_ok {E} block : shaped block ->
  exists sources, populate (E:=E) block = Ok sources /\ Forall2 (source_ok block) (spends block) sources.
Proof.
  intros [(cb & txs & Hb & Hcb & Hcbs) Hl]. unfold populate.
  destruct (txid_index_new (E:=E) block) as (idx & Hnew & Hidx); [by rewrite Hb|].
  rewrite Hnew. replace (head (blk_txdata block)) with (Some cb) by (by rewrite Hb). run. rewrite Hcb. run.
  rewrite input_count_ok by done. run.
  assert (Hloop : forall l i acc, Forall (fun tx => is_coinbase tx = false) l ->
    exists s, foldM (populate_tx (E:=E) block idx) acc (enumerate_from i l) = Ok (acc ++ s) /\
      Forall2 (source_ok block) (concat (map tx_spends (enumerate_from i l))) s).
  { induction l as [|tx l IH]; intros i acc Hf; cbn [enumerate_from foldM map concat].
    - exists []. rewrite app_nil_r. by split.
    - inversion_clear Hf as [|? ? Htx Hf'].
      destruct (populate_tx_ok (E:=E) block idx i tx acc Hidx Htx) as (s1 & -> & H1). run.
      destruct (IH (i + 1) (acc ++ s1) Hf') as (s2 & -> & H2). exists (s1 ++ s2).
      split; [by rewrite app_assoc|]. by apply Forall2_app. }
  destruct (Hloop txs 1 [] Hcbs) as (s & Hs & Hok). unfold spends in *. rewrite Hb, drop_enumerate in *.
  rewrite Hs. run. rewrite (proj2 (Z.eqb_eq _ _)) by (unfold len; f_equal; symmetry; by eapply Forall2_length).
  run. by exists s.
Qed.
End resolution.
