(* ===== verification/Utxo.v ===== *)
(** * Utxo: the set of unspent coins as a finite map, block connection as Core defines it

    The specification [confirm] is measured against: a block is applied one transaction at
    a time, each spending coins that are present and adding its spendable outputs. *)
From stdpp Require Import gmap.
From S2P Require Import Prelude Bitcoin Tx TxProofs Coins.

Notation utxo := (gmap OutPoint Coin).

Definition coins_map (cs : list Coin) : utxo := list_to_map (map (fun c => (outpoint c, c)) cs).

Definition delete_all (ops : list OutPoint) (u : utxo) : utxo := foldr delete u ops.

(** The spendable outputs of a transaction, as coins. *)
Fixpoint output_coins (txid : bytes) (height : Z) (cb : bool) (vout : Z) (outs : list TxOut) : list Coin :=
  match outs with
  | [] => []
  | o :: outs =>
      (if is_unspendable (script_pubkey o) then [] else [mkCoin (mkOutPoint txid vout) o height cb]) ++
      output_coins txid height cb (vout + 1) outs
  end.

Section spec.
Context `{BitcoinCrate}.

Definition tx_coins (height : Z) (item : Z * Transaction) : list Coin :=
  output_coins (compute_txid item.2) height (item.1 =? 0) 0 (tx_output item.2).

Definition tx_outpoints (tx : Transaction) : list OutPoint := map previous_output (tx_input tx).

(** [UpdateCoins]: the coinbase only adds; another transaction spends coins that are there,
    each once, then adds. *)
Definition update_coins (height : Z) (u : utxo) (item : Z * Transaction) : option utxo :=
  let '(index, tx) := item in
  if index =? 0 then Some (coins_map (tx_coins height item) ∪ u)
  else if bool_decide (NoDup (tx_outpoints tx) /\ Forall (fun o => is_Some (u !! o)) (tx_outpoints tx))
  then Some (coins_map (tx_coins height item) ∪ delete_all (tx_outpoints tx) u)
  else None.

Fixpoint apply_txs (height : Z) (u : utxo) (items : list (Z * Transaction)) : option utxo :=
  match items with
  | [] => Some u
  | item :: items => u' ← update_coins height u item; apply_txs height u' items
  end.

Definition apply_block (height : Z) (u : utxo) (block : Block) : option utxo :=
  apply_txs height u (enumerate (blk_txdata block)).
End spec.

(** What storage does with a delta, and with the same delta swapped. *)
Definition apply_delta (u : utxo) (d : BlockDelta) : utxo :=
  coins_map (delta_created d) ∪ delete_all (map outpoint (delta_spent d ++ delta_overwritten d)) u.
Definition undo_delta (u : utxo) (d : BlockDelta) : utxo :=
  coins_map (delta_spent d ++ delta_overwritten d) ∪ delete_all (map outpoint (delta_created d)) u.

(** The money in the set. *)
Definition total (u : utxo) : Z := map_fold (fun _ c n => txout_value (output c) + n) 0 u.

(** ** Lemmas *)

Lemma lookup_delete_all ops u o : delete_all ops u !! o = if bool_decide (o ∈ ops) then None else u !! o.
Proof.
  unfold delete_all. case_bool_decide; [by apply lookup_foldr_delete|by apply lookup_foldr_delete_not_elem_of].
Qed.

Lemma coins_map_Some cs o c : coins_map cs !! o = Some c -> c ∈ cs /\ outpoint c = o.
Proof.
  intros Hl%elem_of_list_to_map_2. apply list_elem_of_fmap in Hl as (c' & [= -> ->] & Hc). done.
Qed.

Lemma coins_map_None cs o : coins_map cs !! o = None <-> forall c, c ∈ cs -> outpoint c <> o.
Proof.
  unfold coins_map. rewrite <- not_elem_of_list_to_map. rewrite <- list_fmap_compose. rewrite list_elem_of_fmap.
  split; [|naive_solver]. intros Hn c Hc Ho. apply Hn. exists c. by split.
Qed.

Lemma coins_map_in cs c : NoDup (map outpoint cs) -> c ∈ cs -> coins_map cs !! outpoint c = Some c.
Proof.
  intros Hnd Hc. apply elem_of_list_to_map_1.
  - by rewrite <- list_fmap_compose.
  - apply list_elem_of_fmap. by exists c.
Qed.

Lemma coins_map_app l k o : coins_map (l ++ k) !! o =
  match coins_map l !! o with Some c => Some c | None => coins_map k !! o end.
Proof.
  unfold coins_map. rewrite map_app, list_to_map_app, lookup_union. by destruct (list_to_map _ !! o), (list_to_map _ !! o).
Qed.

Lemma lookup_union_coins cs u o : (coins_map cs ∪ u) !! o =
  match coins_map cs !! o with Some c => Some c | None => u !! o end.
Proof. rewrite lookup_union. by destruct (coins_map cs !! o), (u !! o). Qed.

Lemma total_delete u o c : u !! o = Some c -> total u = txout_value (output c) + total (delete o u).
Proof. intros Ho. unfold total. rewrite (map_fold_delete_L _ _ o c u); [done| |done]. intros. lia. Qed.

Definition amounts_nonneg (u : utxo) : Prop := forall o c, u !! o = Some c -> 0 <= txout_value (output c).

Lemma total_insert u o c : amounts_nonneg u -> total (<[o := c]> u) <= txout_value (output c) + total u.
Proof.
  intros Hu. rewrite (total_delete (<[o := c]> u) o c) by apply lookup_insert_eq. rewrite delete_insert_eq.
  destruct (u !! o) as [c'|] eqn:Ho.
  - rewrite (total_delete u o c') by done. specialize (Hu _ _ Ho). lia.
  - rewrite delete_id by done. lia.
Qed.

Lemma total_union cs u : amounts_nonneg u -> Forall (fun c => 0 <= txout_value (output c)) cs ->
  amounts_nonneg (coins_map cs ∪ u) /\ total (coins_map cs ∪ u) <= coins_value cs + total u.
Proof.
  intros Hu. induction cs as [|c cs IH]; intros Hf.
  - cbn. rewrite (left_id_L ∅ (∪)). split; [done|]. unfold coins_value. cbn. lia.
  - inversion_clear Hf as [|? ? Hc Hf']. destruct (IH Hf') as [Hnn Hle].
    change (coins_map (c :: cs)) with (<[outpoint c := c]> (coins_map cs)). rewrite <- insert_union_l. split.
    + intros o c' Ho. apply lookup_insert_Some in Ho as [[_ <-]|[_ Ho]]; [done|]. by apply (Hnn o).
    + pose proof (total_insert _ (outpoint c) c Hnn). unfold coins_value in *. cbn [map total_value]. lia.
Qed.

(** Spending coins takes their value out. *)
Lemma total_delete_all ops cs : forall u, NoDup ops -> Forall2 (fun o c => u !! o = Some c) ops cs ->
  total (delete_all ops u) = total u - coins_value cs.
Proof.
  revert cs; induction ops as [|o ops IH]; intros cs u Hnd Hf; inversion Hf as [|? c ? cs' Ho Hf']; subst.
  { unfold coins_value. cbn. lia. }
  apply NoDup_cons in Hnd as [Hni Hnd]. cbn [delete_all foldr]. fold (delete_all ops u).
  assert (Hlk : delete_all ops u !! o = Some c) by (rewrite lookup_delete_all, bool_decide_eq_false_2; done).
  pose proof (total_delete _ _ _ Hlk) as Ht. pose proof (IH cs' u Hnd Hf') as Hi.
  unfold coins_value in *. cbn [map total_value]. lia.
Qed.

(** The coins of a transaction: their outpoints, and that they are worth at most its outputs. *)
Lemma output_coins_elem txid h cb outs : forall v c,
  c ∈ output_coins txid h cb v outs <-> exists n o, get outs n = Some o /\ is_unspendable (script_pubkey o) = false /\
    c = mkCoin (mkOutPoint txid (v + n)) o h cb.
Proof.
  induction outs as [|o outs IH]; intros v c; cbn [output_coins].
  { split; [set_solver|]. intros (n & o & Hg & _). apply get_Some_range in Hg. unfold len in Hg. cbn in Hg. lia. }
  rewrite elem_of_app, IH. clear IH. split.
  - intros [Hc|(n & o' & Hg & Hu & ->)].
    + destruct (is_unspendable (script_pubkey o)) eqn:Hu; [set_solver|]. apply list_elem_of_singleton in Hc as ->.
      exists 0, o. by rewrite Z.add_0_r.
    + pose proof (get_Some_range _ _ _ Hg). exists (n + 1), o'. split; [|split; [done|do 2 f_equal; lia]].
      change (o :: outs) with ([o] ++ outs). rewrite get_app_r by (change (len [o]) with 1; lia).
      by replace (n + 1 - len [o]) with n by (change (len [o]) with 1; lia).
  - intros (n & o' & Hg & Hu & ->). pose proof (get_Some_range _ _ _ Hg).
    destruct (decide (n = 0)) as [->|].
    + left. cbn in Hg. injection Hg as <-. rewrite Hu, Z.add_0_r. set_solver.
    + right. exists (n - 1), o'. split; [|split; [done|do 2 f_equal; lia]].
      change (o :: outs) with ([o] ++ outs) in Hg. rewrite get_app_r in Hg by (change (len [o]) with 1; lia).
      done.
Qed.

Lemma output_coins_nodup txid h cb outs : forall v, NoDup (map outpoint (output_coins txid h cb v outs)).
Proof.
  induction outs as [|o outs IH]; intros v; cbn [output_coins]; [constructor|].
  destruct (is_unspendable _); [apply IH|]. cbn [app map outpoint]. constructor; [|apply IH].
  intros Hin. apply list_elem_of_fmap in Hin as (c & Ho & Hc). apply output_coins_elem in Hc as (n & o' & Hg & _ & ->).
  apply get_Some_range in Hg. injection Ho as Ho. lia.
Qed.

Lemma output_coins_value txid h cb outs : amounts_ok outs -> forall v,
  Forall (fun c => 0 <= txout_value (output c) <= u64_max) (output_coins txid h cb v outs) /\
  coins_value (output_coins txid h cb v outs) <= total_value outs.
Proof.
  unfold coins_value. induction outs as [|o outs IH]; intros Ha v; cbn [output_coins]; [by split|].
  inversion_clear Ha as [|? ? Ho Ha']. destruct (IH Ha' (v + 1)) as [H1 H2].
  destruct (is_unspendable _); cbn [app map total_value output]; split; try done; try lia.
  by constructor.
Qed.

Lemma add_created_ok {E} `{BitcoinCrate} created tx index height : Bool.eqb (index =? 0) (is_coinbase tx) = true ->
  len (tx_output tx) <= u32_max ->
  add_created (E:=E) created tx index height = Ok (created ++ tx_coins height (index, tx)).
Proof.
  intros Hcb Hl. unfold add_created, tx_coins, enumerate. rewrite Hcb. cbn [fst snd]. run.
  assert (Hf : forall outs v acc, 0 <= v -> v + len outs <= u32_max + 1 ->
    foldM (add_output (E:=E) (compute_txid tx) height (index =? 0)) acc (enumerate_from v outs) =
    Ok (acc ++ output_coins (compute_txid tx) height (index =? 0) v outs)); [|apply Hf; lia].
  induction outs as [|o outs IH]; intros v acc Hv Hlen; cbn [enumerate_from foldM output_coins];
    [by rewrite app_nil_r|]. rewrite len_cons in Hlen. pose proof (len_nonneg outs).
  assert (add_output (E:=E) (compute_txid tx) height (index =? 0) acc (v, o) = Ok (acc ++
    if is_unspendable (script_pubkey o) then [] else [mkCoin (mkOutPoint (compute_txid tx) v) o height (index =? 0)])) as ->.
  { unfold add_output. destruct (is_unspendable _); [by rewrite app_nil_r|]. by rewrite try_from_ok by lia. }
  run. rewrite IH by lia. by rewrite <- app_assoc.
Qed.
