(* ===== verification/ConfirmProofs.v ===== *)
(** * ConfirmProofs: [confirm] connects a block exactly as Core does, and its delta is that change *)
From stdpp Require Import gmap.
From S2P Require Import Prelude Bitcoin Flags Params Header Script VerifyProofs Sigops Tx TxProofs Block BlockProofs Coins CoinsProofs Utxo.

Section confirm.
Context `{BC : BitcoinCrate} `{SZ : !SizeLaws} `{CL : !CoinbaseLaw} `{TL : TxidOrderLaws}.

(** The outpoints a block creates. *)
Definition own_tx (tx : Transaction) : list OutPoint :=
  map (fun '(v, _) => mkOutPoint (compute_txid tx) v) (enumerate (tx_output tx)).
Definition own (block : Block) : list OutPoint := concat (map own_tx (blk_txdata block)).

Lemma own_elem block o : o ∈ own block <->
  exists tx out, tx ∈ blk_txdata block /\ compute_txid tx = op_txid o /\ get (tx_output tx) (op_vout o) = Some out.
Proof.
  unfold own. rewrite elem_of_concat. setoid_rewrite list_elem_of_fmap. unfold own_tx, enumerate. split.
  - intros (l & Hl & tx & -> & Htx). apply list_elem_of_fmap in Hl as ([v out] & -> & Hv).
    apply elem_of_enumerate_from in Hv as [_ Hv]. rewrite Z.sub_0_r in Hv. by exists tx, out.
  - intros (tx & out & Htx & Hid & Hg). eexists. split; [|by exists tx]. apply list_elem_of_fmap.
    exists (op_vout o, out). split; [destruct o; cbn in *; by subst|]. apply elem_of_enumerate_from.
    rewrite Z.sub_0_r. split; [|done]. apply get_Some_range in Hg. lia.
Qed.

Lemma len_own block : len (own block) = sum_of (fun tx => len (tx_output tx)) (blk_txdata block).
Proof.
  unfold own. induction (blk_txdata block) as [|tx txs IH]; [done|]. cbn [map concat sum_of foldr].
  rewrite len_app, IH. unfold own_tx, enumerate, len. by rewrite length_map, length_enumerate_from.
Qed.

(** ** What the node promises *)

(** A set of coins: keyed by outpoint, from earlier blocks, spendable, of a machine amount. *)
Definition utxo_ok (height : Z) (u : utxo) : Prop := forall o c, u !! o = Some c ->
  outpoint c = o /\ 0 <= coin_height c <= height /\ is_unspendable (script_pubkey (output c)) = false /\
  0 <= txout_value (output c) <= u64_max.

(** An id names one transaction: two transactions of the block with one id spend the same
    outpoints, and a coin under one of the block's ids is that transaction's output. *)
Definition ids_bind (block : Block) (u : utxo) : Prop :=
  (forall tx tx', tx ∈ blk_txdata block -> tx' ∈ blk_txdata block -> compute_txid tx = compute_txid tx' ->
    tx_outpoints tx = tx_outpoints tx') /\
  (forall o c tx, u !! o = Some c -> tx ∈ blk_txdata block -> compute_txid tx = op_txid o ->
    get (tx_output tx) (op_vout o) = Some (output c)).

(** The answer to one source of [populate]. *)
Definition answer (u : utxo) (x : Z * Transaction * TxIn) (s : InputSource) (e : option InputCoin) : Prop :=
  match s with
  | InBlock _ => e = None
  | FromChain time_locked =>
      match u !! previous_output x.2 with
      | None => e = None
      | Some c => exists m, e = Some (mkInputCoin c m) /\ (forall t, m = Some t -> 0 <= t <= u32_max) /\
          (time_locked = true -> is_Some m)
      end
  end.

(** The prefetch answers [populate] from the set, and reports the coins at the block's own
    outpoints except under [Skip], where BIP34 says there are none. *)
Record prefetch_ok (block : Block) (bip30 : Bip30) (u : utxo) (sources : list InputSource) (p : Prefetch) : Prop := {
  spent_answers : Forall2 (fun xs e => answer u xs.1 xs.2 e) (zip (spends block) sources) (pre_spent p);
  existing_nodup : NoDup (map outpoint (pre_existing p));
  existing_spec : bip30 <> Skip -> forall c, c ∈ pre_existing p <->
    outpoint c ∈ own block /\ u !! outpoint c = Some c;
  existing_skip : bip30 = Skip -> pre_existing p = [] /\ forall o, o ∈ own block -> u !! o = None;
}.

(** ** BIP30 *)

Lemma position_own {E} block idx o : index_ok block idx -> o ∈ own block ->
  exists i tx, TxidIndex.position (E:=E) idx (op_txid o) = Ok (Some i) /\
    first_with (blk_txdata block) (op_txid o) (Some i) /\ get (blk_txdata block) i = Some tx /\
    compute_txid tx = op_txid o.
Proof.
  intros Hidx (tx & out & Htx & Hid & _)%own_elem. destruct (Hidx E (op_txid o)) as ([i|] & Hp & Hf).
  - pose proof Hf as [(tx' & Hg & Hid') _]. by exists i, tx'.
  - by destruct (Hf tx Htx).
Qed.

Section bip30.
Context (block : Block) (idx : TxidIndex.TxidIndex) (Hidx : index_ok block idx).

(** Every coin reported is at an outpoint of the block within range of its creator. *)
Definition reported (c : Coin) : Prop :=
  outpoint c ∈ own block /\
  forall tx, tx ∈ blk_txdata block -> compute_txid tx = op_txid (outpoint c) ->
    op_vout (outpoint c) < len (tx_output tx).

Lemma bip30_step_ok bip30 seen c : reported c -> outpoint c ∉ seen -> bip30 <> Skip ->
  ensures (bip30_step block idx bip30 seen c) (fun seen' => bip30 = Overwrite /\
    seen' = {[outpoint c]} ∪ seen /\ first_with (blk_txdata block) (op_txid (outpoint c)) (Some 0)).
Proof.
  intros [Hown Hrange] Hns Hskip. unfold bip30_step.
  destruct (position_own (E:=ConfirmError) block idx (outpoint c) Hidx Hown) as (i & tx & -> & Hf & Hg & Hid). run.
  rewrite Hg. run. rewrite (proj2 (Z.ltb_lt (op_vout (outpoint c)) _)) by (apply Hrange; [by eapply get_elem|done]). run.
  rewrite bool_decide_eq_false_2 by done. run. destruct bip30; [done|done|].
  pose proof (get_Some_range _ _ _ Hg). destruct (Z.ltb_spec 0 i); [done|]. cbn [ensures].
  replace i with 0 in Hf by lia. done.
Qed.

Lemma bip30_loop bip30 l : forall seen, Forall reported l -> NoDup (map outpoint l) ->
  (forall c, c ∈ l -> outpoint c ∉ seen) -> (bip30 = Skip -> l = []) ->
  ensures (foldM (bip30_step block idx bip30) seen l) (fun seen' =>
    size seen' = (length l + size seen)%nat /\
    Forall (fun c => bip30 = Overwrite /\ first_with (blk_txdata block) (op_txid (outpoint c)) (Some 0)) l).
Proof.
  induction l as [|c l IH]; intros seen Hr Hnd Hd Hs; cbn [foldM]; [by cbn|].
  inversion_clear Hr as [|? ? Hc Hr']. cbn [map] in Hnd. apply NoDup_cons in Hnd as [Hni Hnd].
  eapply ensures_bind; [apply bip30_step_ok; [done|apply Hd; set_solver|intros Hsk; by apply Hs in Hsk]|].
  intros seen' (-> & -> & Hf). eapply ensures_mono; [apply IH; [done|done| |done]|].
  - intros c' Hc' [Heq%elem_of_singleton|Hin]%elem_of_union.
    + apply Hni. apply list_elem_of_fmap. by exists c'.
    + by apply (Hd c'); [set_solver|].
  - intros seen'' [Hsz Hall]. split; [|by constructor]. rewrite Hsz, size_union, size_singleton; [cbn; lia|].
    intros o Ho%elem_of_singleton Hin. subst o. by apply (Hd c); [set_solver|].
Qed.

Lemma check_bip30_ok bip30 existing : Forall reported existing -> NoDup (map outpoint existing) ->
  len existing <= MAX_BLOCK_OUTPUTS -> (bip30 = Skip -> existing = []) ->
  ensures (check_bip30 block idx existing bip30) (fun overwritten => overwritten = existing /\
    Forall (fun c => first_with (blk_txdata block) (op_txid (outpoint c)) (Some 0)) existing).
Proof.
  intros Hr Hnd Hl Hs. unfold check_bip30. rewrite (proj2 (Z.leb_le _ _)) by done. run.
  eapply ensures_bind; [apply bip30_loop; [done|done|set_solver|done]|]. intros seen [Hsz Hf]. cbv beta.
  rewrite size_empty, Nat.add_0_r in Hsz. case_bool_decide as Hb.
  - rewrite bool_decide_eq_true_2 by done. run. split; [done|]. eapply Forall_impl; [exact Hf|]. by intros c [_ ?].
  - destruct existing as [|c l]; [by split|]. inversion_clear Hf as [|? ? [? _] _]. congruence.
Qed.
End bip30.

(** ** Resolving the inputs of one transaction *)

Section resolve.
Context (block : Block) (ctx : Context) (u : utxo) (idx : TxidIndex.TxidIndex).
Context (Hidx : index_ok block idx) (Hutxo : utxo_ok (ctx_height ctx) u).
Context (Hmtp : 0 <= ctx_median_time_past ctx <= u32_max) (Hheight : 0 < ctx_height ctx <= Height.MAX).

Definition entry_ok (x : Z * Transaction * TxIn) (e : option InputCoin) : Prop :=
  exists s, source_ok block x s /\ answer u x s e.

(** The coin an input stands for: an output of the block so far, or a coin of the set. *)
Definition coin_for (index : Z) (tx : Transaction) (input : TxIn) (r : ResolvedInput) : Prop :=
  base_height (ri_base r) = coin_height (ri_coin r) /\
  ((exists i o, resolves (blk_txdata block) index (previous_output input) i o /\
      ri_coin r = mkCoin (previous_output input) o (ctx_height ctx) (i =? 0) /\
      base_median_time_past (ri_base r) = Some (ctx_median_time_past ctx) /\ ri_in_block r = true) \/
   ((forall i o, ~ resolves (blk_txdata block) index (previous_output input) i o) /\
      u !! previous_output input = Some (ri_coin r) /\
      (forall t, base_median_time_past (ri_base r) = Some t -> 0 <= t <= u32_max) /\
      (bip68_applies tx && is_time_locked (sequence input) = true -> is_Some (base_median_time_past (ri_base r))) /\
      ri_in_block r = false)).

Definition view (S : gset OutPoint) : BlockView := mkBlockView block idx S.

Lemma resolve_input_ok index tx input e n S acc : entry_ok (index, tx, input) e ->
  ensures (resolve_input index ctx (view S, acc) (n, (input, e))) (fun '(v, acc') =>
    exists r, v = view ({[previous_output input]} ∪ S) /\ acc' = acc ++ [r] /\
      coin_for index tx input r /\ previous_output input ∉ S).
Proof.
  intros (s & Hs & Ha). unfold resolve_input, resolve_coin, view. cbn [view_block view_txids view_spent].
  destruct (in_block_output_ok (E:=ConfirmError) block idx index (previous_output input) Hidx) as (r & -> & Hr). run.
  destruct r as [[i o]|].
  - assert (e = None) as ->.
    { destruct s as [j|tl]; [done|]. destruct Hs as [Hno _]. by destruct (Hno i o). }
    rewrite (bool_decide_eq_true_2 (@None InputCoin = None)) by done. run. case_bool_decide; [done|]. cbn [ensures].
    eexists. split; [done|]. split; [done|]. split; [|done]. split; [done|]. left. by exists i, o.
  - destruct s as [j|tl]; [destruct Hs as [o Ho]; by destruct (Hr j o)|]. destruct Hs as [_ ->].
    cbn in Ha. destruct (u !! previous_output input) as [c|] eqn:Hc; [|by subst e].
    destruct Ha as (m & -> & Hm & Hsome). cbn [ic_coin ic_median_time_past].
    rewrite (bool_decide_eq_true_2 (outpoint c = previous_output input)) by (by apply Hutxo). run. case_bool_decide; [done|]. cbn [ensures].
    eexists. split; [done|]. split; [done|]. split; [|done]. split; [done|]. right. done.
Qed.

Lemma resolve_loop index tx inputs es : Forall2 (fun input e => entry_ok (index, tx, input) e) inputs es ->
  forall n S acc, ensures (foldM (resolve_input index ctx) (view S, acc) (enumerate_from n (zip inputs es)))
    (fun '(v, acc') => exists rs, acc' = acc ++ rs /\ Forall2 (coin_for index tx) inputs rs /\
      v = view (list_to_set (map previous_output inputs) ∪ S) /\ NoDup (map previous_output inputs) /\
      forall o, o ∈ map previous_output inputs -> o ∉ S).
Proof.
  induction 1 as [|input e inputs es He Hes IH]; intros n S acc; cbn [zip zip_with enumerate_from foldM map].
  { cbn. exists []. rewrite app_nil_r, (left_id_L ∅ (∪)). split_and!; try done; [constructor|set_solver]. }
  eapply ensures_bind; [by apply resolve_input_ok|]. intros [v acc'] (r & -> & -> & Hr & Hns).
  eapply ensures_mono; [apply IH|]. intros [v acc''] (rs & -> & Hrs & -> & Hnd & Hd).
  exists (r :: rs). split_and!.
  - by rewrite <- app_assoc.
  - by constructor.
  - unfold view. f_equal. cbn [list_to_set]. set_solver.
  - constructor; [|done]. intros Hin. apply (Hd _ Hin). set_solver.
  - intros o [->|Ho]%elem_of_cons; [done|]. specialize (Hd o Ho). set_solver.
Qed.

Lemma resolve_ok index tx es S : 0 < index ->
  Forall2 (fun input e => entry_ok (index, tx, input) e) (tx_input tx) es ->
  ensures (resolve (view S) index tx es ctx) (fun '(v, rs) => Forall2 (coin_for index tx) (tx_input tx) rs /\
    v = view (list_to_set (tx_outpoints tx) ∪ S) /\ NoDup (tx_outpoints tx) /\
    forall o, o ∈ tx_outpoints tx -> o ∉ S).
Proof.
  intros Hi He. unfold resolve. rewrite (proj2 (Z.ltb_lt 0 index)) by done. run.
  rewrite (proj2 (Z.eqb_eq (len es) _)) by (unfold len; f_equal; symmetry; by eapply Forall2_length). run.
  eapply ensures_bind; [apply (resolve_loop index tx _ _ He)|]. intros [v rs] (rs' & Hrs' & Hrs & -> & Hnd & Hd).
  cbn [app] in Hrs'. subst rs'. rewrite (proj2 (Z.eqb_eq (len rs) _)) by (unfold len; f_equal; symmetry; by eapply Forall2_length).
  run. done.
Qed.

(** ** The per-transaction rules *)

Lemma coin_for_match index tx rs : Forall tx_typed (blk_txdata block) ->
  Forall2 (coin_for index tx) (tx_input tx) rs -> coins_match tx (map ri_coin rs) (ctx_height ctx).
Proof.
  intros Htyped Hrs. split.
  - apply Forall2_fmap_r. eapply Forall2_impl; [exact Hrs|]. intros input r [_ [(i & o & _ & Hc & _)|(_ & Hc & _)]]; unfold compose.
    + rewrite Hc. cbn. split; [done|lia].
    + destruct (Hutxo _ _ Hc) as (-> & Hh & _). done.
  - unfold amounts_ok. rewrite <- list_fmap_compose. apply Forall_fmap, Forall_forall. intros r Hr.
    apply list_elem_of_lookup in Hr as [n Hn]. destruct (Forall2_lookup_r _ _ _ _ _ Hrs Hn) as (input & _ & _ & Hc).
    cbn. destruct Hc as [(i & o & (_ & _ & t & Hg & Ho & _) & -> & _)|(_ & Hc & _)].
    + cbn. rewrite Forall_forall in Htyped. apply get_elem in Hg, Ho. destruct (Htyped t Hg) as [Ha _].
      unfold amounts_ok in Ha. rewrite Forall_forall in Ha. by apply Ha.
    + by destruct (Hutxo _ _ Hc) as (_ & _ & _ & ?).
Qed.

Lemma time_locked_bits s : is_time_locked s = negb (Z.testbit s 31) && Z.testbit s 22.
Proof.
  unfold is_time_locked. change SEQUENCE_LOCKTIME_DISABLE_FLAG with (2 ^ 31).
  change SEQUENCE_LOCKTIME_TYPE_FLAG with (2 ^ 22). by rewrite !land_pow2_testbit, negb_involutive by lia.
Qed.

Lemma coin_for_bases index tx rs : Forall2 (coin_for index tx) (tx_input tx) rs ->
  bip68_applies tx = true -> Forall2 base_ok (tx_input tx) (map ri_base rs).
Proof.
  intros Hrs Hbip. apply Forall2_fmap_r. eapply Forall2_impl; [exact Hrs|]. unfold Height.MAX in *.
  intros input r [Hbase Hc]. unfold compose, base_ok. rewrite Hbase.
  destruct Hc as [(i & o & _ & -> & -> & _)|(_ & Hc & Ht & Hsome & _)].
  - cbn. split_and!; [unfold u32_max; lia|unfold u32_max; lia|by intros t [= <-]|done].
  - destruct (Hutxo _ _ Hc) as (_ & Hh & _). split_and!; [lia|unfold u32_max; lia|done|].
    intros H31 H22. apply Hsome. by rewrite Hbip, time_locked_bits, H31, H22.
Qed.

Lemma confirm_inputs_ok index tx rs fees : Forall tx_typed (blk_txdata block) -> 0 < index ->
  tx ∈ blk_txdata block -> is_coinbase tx = false -> tx_valid tx -> 0 <= fees <= MAX_MONEY ->
  Forall2 (coin_for index tx) (tx_input tx) rs ->
  ensures (confirm_inputs index tx rs ctx fees) (fun fee =>
    fee = coins_value (map ri_coin rs) - total_value (tx_output tx) /\ 0 <= fee /\ fees + fee <= MAX_MONEY /\
    Forall (mature (ctx_height ctx)) (map ri_coin rs) /\ coins_value (map ri_coin rs) <= MAX_MONEY /\
    (csv_active (ctx_rules ctx) = true -> 2 <= tx_version tx mod 2 ^ 32 ->
      Forall2 (relative_lock_met ctx) (tx_input tx) (map ri_base rs))).
Proof.
  intros Htyped Hi Htx Hcb (_ & _ & _ & Hval & _) Hfees Hrs. unfold confirm_inputs.
  rewrite (proj2 (Z.ltb_lt 0 index)) by done. run. pose proof (Forall2_length _ _ _ Hrs) as Hlen.
  rewrite (proj2 (Z.eqb_eq (len rs) _)) by (unfold len; lia). run.
  pose proof Htyped as Ht'. rewrite Forall_forall in Ht'. destruct (Ht' tx Htx) as [Ha _].
  destruct (check_tx_inputs_eq tx (map ri_coin rs) (ctx_height ctx) Hcb (coin_for_match index tx rs Htyped Hrs)) as [Hnp Hiff];
    [lia|done|done|].
  destruct (check_tx_inputs tx (map ri_coin rs) (ctx_height ctx)) as [fee|e|]; [|done|done]. run.
  destruct (proj1 (Hiff fee) eq_refl) as (Hm & Hmax & Hle & ->). pose proof (total_value_nonneg _ Ha).
  rewrite (proj2 (Z.leb_le fees MAX_MONEY)) by lia. run. rewrite MAX_MONEY_eq in *.
  rewrite u64_ok by (unfold u64_max; lia). run. destruct (Z.ltb_spec 2100000000000000
    (fees + (coins_value (map ri_coin rs) - total_value (tx_output tx)))); [done|].
  destruct (sequence_locks_eq (E:=ConfirmError) tx (map ri_base rs) ctx) as (b & -> & Hb);
    [rewrite length_map; lia|by apply (coin_for_bases index)|lia|lia|]. run.
  destruct b; cbn [negb ensures]; [|done]. split_and!; try done; try lia. by apply Hb.
Qed.
End resolve.
End confirm.
