(* ===== verification/ConfirmLoop.v ===== *)
(** * ConfirmLoop: the invariant of [confirm]'s loop and the net delta it leaves *)
From stdpp Require Import gmap.
From S2P Require Import Prelude Bitcoin Flags Params Header Script VerifyProofs Sigops Tx TxProofs Block BlockProofs Coins CoinsProofs Utxo ConfirmProofs.

(** ** Loops with the processed prefix in the invariant *)

Lemma ensures_foldM_prefix {E A B} (f : A -> B -> outcome E A) (I : list B -> A -> Prop) xs a :
  I [] a -> (forall pre x post a, xs = pre ++ x :: post -> I pre a -> ensures (f a x) (I (pre ++ [x]))) ->
  ensures (foldM f a xs) (I xs).
Proof.
  intros H0 Hs. assert (Hg : forall post pre a, xs = pre ++ post -> I pre a -> ensures (foldM f a post) (I xs));
    [|by apply (Hg xs [])].
  induction post as [|x post IH]; intros pre b Hx Hi; cbn [foldM]; [by rewrite app_nil_r in Hx; subst|].
  eapply ensures_bind; [by eapply Hs|]. intros b' Hb'. apply (IH (pre ++ [x])); [by rewrite <- app_assoc|done].
Qed.

Lemma enumerate_from_app {A} (l k : list A) : forall i,
  enumerate_from i (l ++ k) = enumerate_from i l ++ enumerate_from (i + len l) k.
Proof.
  induction l as [|x l IH]; intros i; cbn [app enumerate_from]; [by rewrite len_nil, Z.add_0_r|].
  rewrite IH, len_cons. do 2 f_equal. f_equal. lia.
Qed.

(** A split of an enumeration is the enumeration of a split. *)
Lemma enumerate_split {A} (l : list A) pre i x post : enumerate l = pre ++ (i, x) :: post ->
  exists a b, l = a ++ x :: b /\ pre = enumerate a /\ i = len a /\ post = enumerate_from (i + 1) b.
Proof.
  unfold enumerate. assert (Hg : forall l s pre, enumerate_from s l = pre ++ (i, x) :: post ->
    exists a b, l = a ++ x :: b /\ pre = enumerate_from s a /\ i = s + len a /\ post = enumerate_from (i + 1) b).
  { clear. induction l as [|y l IH]; intros s pre Hl; [by destruct pre|].
    destruct pre as [|z pre]; cbn [enumerate_from app] in Hl.
    - injection Hl as -> -> <-. exists [], l. rewrite len_nil. split_and!; try done. lia.
    - injection Hl as <- Hl. destruct (IH _ _ Hl) as (a & b & -> & -> & -> & ->). exists (y :: a), b.
      rewrite len_cons. split_and!; try done; lia. }
  intros Hl. destruct (Hg l 0 pre Hl) as (a & b & ? & ? & ? & ?). by exists a, b.
Qed.

Lemma apply_txs_app `{BitcoinCrate} h items items' : forall u,
  apply_txs h u (items ++ items') = (v ← apply_txs h u items; apply_txs h v items').
Proof.
  induction items as [|it items IH]; intros u; [done|]. cbn [app apply_txs].
  destruct (update_coins h u it); cbn; [apply IH|done].
Qed.

Section loop.
Context `{BC : BitcoinCrate} `{SZ : !SizeLaws} `{CL : !CoinbaseLaw} `{TL : TxidOrderLaws}.
Context (block : Block) (ctx : Context) (u : utxo) (idx : TxidIndex.TxidIndex) (prefetch : Prefetch).
Context (cb : Transaction) (rest : list Transaction).

Notation txs := (blk_txdata block).
Notation h := (ctx_height ctx).
Notation ids := (map compute_txid txs).

(** What the stages before and the node have established. *)
Record setup : Prop := {
  su_idx : index_ok block idx;
  su_utxo : utxo_ok h u;
  su_mtp : 0 <= ctx_median_time_past ctx <= u32_max;
  su_height : 0 < h <= Height.MAX;
  su_txs : txs = cb :: rest;
  su_cb : is_coinbase cb = true;
  su_rest : Forall (fun tx => is_coinbase tx = false) rest;
  su_valid : Forall tx_valid txs;
  su_typed : Forall tx_typed txs;
  su_base : sum_of base_size txs <= 1000000;
  su_witness : Forall (fun tx => Forall (fun i => witness_small (witness i)) (tx_input tx)) txs;
  su_flags : flags_ok (rules_script_flags (ctx_rules ctx));
  su_bind : ids_bind block u;
  su_entries : Forall2 (entry_ok block u) (spends block) (pre_spent prefetch);
  su_own : forall o c, u !! o = Some c -> op_txid o ∈ ids -> first_with txs (op_txid o) (Some 0);
}.

(** The transactions done: what they spent and what they created. *)
Definition spent_by (done : list Transaction) : list OutPoint := concat (map tx_outpoints (drop 1 done)).
Definition created_by (done : list Transaction) : list Coin := concat (map (tx_coins h) (enumerate done)).

(** The set seen through what the block did so far. *)
Definition seen_as (created : list Coin) (spent : list OutPoint) (v : utxo) : Prop :=
  forall o, v !! o = if bool_decide (o ∈ spent) then None else (coins_map created ∪ u) !! o.

Record inv (d0 : BlockDelta) (done : list Transaction) (st : ConfirmState) : Prop := {
  inv_view : cs_view st = view block idx (list_to_set (spent_by done));
  inv_next : cs_next st = len (spent_by done);
  inv_prevouts : Forall2 (fun o c => outpoint c = o) (spent_by done) (prevouts (cs_confirmed st));
  inv_created : delta_created (delta (cs_confirmed st)) = created_by done;
  inv_spent : forall c, c ∈ delta_spent (delta (cs_confirmed st)) ->
    u !! outpoint c = Some c /\ op_txid (outpoint c) ∉ ids /\ outpoint c ∈ spent_by done;
  inv_sources : forall o, o ∈ spent_by done -> op_txid o ∈ map compute_txid done \/
    (op_txid o ∉ ids /\ o ∈ map outpoint (delta_spent (delta (cs_confirmed st))));
  inv_fixed : delta_height (delta (cs_confirmed st)) = delta_height d0 /\
    delta_hash (delta (cs_confirmed st)) = delta_hash d0 /\
    delta_overwritten (delta (cs_confirmed st)) = delta_overwritten d0;
  inv_ids : NoDup (map compute_txid done);
  inv_fees : 0 <= cs_fees st <= MAX_MONEY;
  inv_sigops : 0 <= cs_sigops st <= MAX_BLOCK_SIGOPS_COST;
  inv_apply : exists v, apply_txs h u (enumerate done) = Some v /\ seen_as (created_by done) (spent_by done) v /\
    amounts_nonneg v /\
    total v + cs_fees st <= total u + match done with [] => 0 | tx :: _ => total_value (tx_output tx) end;
  inv_order : map outpoint (delta_spent (delta (cs_confirmed st))) `sublist_of` spent_by done;
}.

(** ** Created coins *)

Lemma created_from_elem (done : list Transaction) : forall s c,
  c ∈ concat (map (tx_coins h) (enumerate_from s done)) <->
  exists i tx o n, get done i = Some tx /\ get (tx_output tx) n = Some o /\ is_unspendable (script_pubkey o) = false /\
    c = mkCoin (mkOutPoint (compute_txid tx) n) o h (s + i =? 0).
Proof.
  intros s c. rewrite elem_of_concat. setoid_rewrite list_elem_of_fmap. split.
  - intros (l & Hc & [j tx] & -> & Hj). apply elem_of_enumerate_from in Hj as [Hs Hj].
    apply output_coins_elem in Hc as (n & o & Hn & Hu & ->). exists (j - s), tx, o, n.
    split_and!; try done. cbn [fst snd]. by replace (s + (j - s)) with j by lia.
  - intros (i & tx & o & n & Hi & Hn & Hu & ->). exists (tx_coins h (s + i, tx)). split.
    + apply output_coins_elem. by exists n, o.
    + exists (s + i, tx). split; [done|]. apply elem_of_enumerate_from. pose proof (get_Some_range _ _ _ Hi).
      split; [lia|]. by replace (s + i - s) with i by lia.
Qed.

Lemma created_elem done c : c ∈ created_by done <->
  exists i tx o n, get done i = Some tx /\ get (tx_output tx) n = Some o /\ is_unspendable (script_pubkey o) = false /\
    c = mkCoin (mkOutPoint (compute_txid tx) n) o h (i =? 0).
Proof. apply created_from_elem. Qed.

Lemma created_txid done c : c ∈ created_by done -> op_txid (outpoint c) ∈ map compute_txid done.
Proof.
  intros (i & tx & o & n & Hi & _ & _ & ->)%created_elem. cbn. apply list_elem_of_fmap. exists tx.
  split; [done|by eapply get_elem].
Qed.

Lemma created_nodup done : NoDup (map compute_txid done) -> NoDup (map outpoint (created_by done)).
Proof.
  unfold created_by, enumerate. generalize 0.
  induction done as [|tx done IH]; intros s Hnd; cbn [enumerate_from map concat]; [constructor|].
  cbn [map] in Hnd. apply NoDup_cons in Hnd as [Hni Hnd]. rewrite map_app. apply NoDup_app. split_and!.
  - apply output_coins_nodup.
  - intros o Ho Ho'. apply list_elem_of_fmap in Ho as (c & -> & Hc), Ho' as (c' & Heq & Hc').
    apply output_coins_elem in Hc as (n & o & _ & _ & ->).
    apply created_from_elem in Hc' as (i & tx' & o' & n' & Hi & _ & _ & ->). cbn in Heq. injection Heq as Heq _.
    apply Hni. rewrite Heq. apply list_elem_of_fmap. exists tx'. split; [done|by eapply get_elem].
  - by apply IH.
Qed.

Lemma created_snoc done tx : created_by (done ++ [tx]) = created_by done ++ tx_coins h (len done, tx).
Proof.
  unfold created_by, enumerate. rewrite enumerate_from_app, map_app, concat_app, Z.add_0_l. cbn. by rewrite app_nil_r.
Qed.

Lemma spent_snoc done tx : done <> [] -> spent_by (done ++ [tx]) = spent_by done ++ tx_outpoints tx.
Proof.
  intros Hne. unfold spent_by. destruct done as [|t done]; [done|]. change (drop 1 ((t :: done) ++ [tx])) with (done ++ [tx]).
  change (drop 1 (t :: done)) with done. rewrite map_app, concat_app. cbn. by rewrite app_nil_r.
Qed.

Lemma len_spent_spends done : len (spent_by done) = len (concat (map tx_spends (drop 1 (enumerate done)))).
Proof.
  unfold spent_by. destruct done as [|t done]; [done|]. rewrite drop_enumerate.
  change (drop 1 (t :: done)) with done. generalize 1.
  induction done as [|x done IH]; intros i; [done|]. cbn [map enumerate_from concat]. rewrite !len_app, <- IH.
  f_equal. unfold tx_spends, tx_outpoints, len. by rewrite !length_map.
Qed.

(** ** One more transaction *)

Lemma push_spent_all rs : forall c, fold_left push_spent rs c =
  mkConfirmed (mkBlockDelta (delta_height (delta c)) (delta_hash (delta c))
    (delta_spent (delta c) ++ map ri_coin (filter (fun r => ri_in_block r = false) rs))
    (delta_overwritten (delta c)) (delta_created (delta c))) (prevouts c ++ map ri_coin rs).
Proof.
  induction rs as [|r rs IH]; intros c; cbn [fold_left map].
  { rewrite filter_nil. cbn [map]. rewrite !app_nil_r. by destruct c as [[]]. }
  rewrite IH. unfold push_spent at 1 2 3 4 5 6. cbn [delta prevouts delta_height delta_hash delta_spent delta_overwritten delta_created].
  rewrite filter_cons. destruct (ri_in_block r) eqn:Hr; cbn [negb]; case_decide; try done;
    cbn [map]; by rewrite <- !app_assoc.
Qed.

Lemma sum_of_le {A} (f g : A -> Z) k l : (forall x, k * f x <= g x) -> k * sum_of f l <= sum_of g l.
Proof. intros Hfg. induction l as [|x l IH]; cbn; [lia|]. specialize (Hfg x). unfold sum_of in IH. lia. Qed.

(** The base size bounds the inputs and the outputs. *)
Lemma spends_bound : sum_of base_size txs <= 1000000 -> len (spends block) <= MAX_BLOCK_INPUTS.
Proof.
  intros Hb. unfold spends. rewrite length_concat_spends.
  assert (Hd : sum_of (fun it => len (tx_input it.2)) (drop 1 (enumerate txs)) <= sum_of (fun tx => len (tx_input tx)) txs).
  { assert (Hall : forall l i, sum_of (fun it => len (tx_input it.2)) (enumerate_from i l) = sum_of (fun tx => len (tx_input tx)) l).
    { induction l as [|t l IH]; intros i; [done|]. cbn [enumerate_from sum_of foldr] in *. unfold sum_of in IH. by rewrite IH. }
    destruct txs as [|t l]; [done|]. rewrite drop_enumerate, Hall. cbn [sum_of foldr]. unfold sum_of.
    pose proof (len_nonneg (tx_input t)). lia. }
  assert (Hf : 41 * sum_of (fun tx => len (tx_input tx)) txs <= sum_of base_size txs).
  { apply sum_of_le. intros t. pose proof (base_size_parts t). unfold script_bytes in *.
    pose proof (sum_len_nonneg script_sig (tx_input t)). pose proof (sum_len_nonneg script_pubkey (tx_output t)).
    pose proof (len_nonneg (tx_output t)). lia. }
  unfold MAX_BLOCK_INPUTS, BLOCK_BASE_SIZE_MAX, TX_IN_SIZE_MIN. change (1000000 / (36 + 1 + 4)) with 24390. lia.
Qed.

Lemma own_bound : sum_of base_size txs <= 1000000 -> len (own block) <= MAX_BLOCK_OUTPUTS.
Proof.
  intros Hb. rewrite len_own. assert (Hf : 9 * sum_of (fun tx => len (tx_output tx)) txs <= sum_of base_size txs).
  { apply sum_of_le. intros t. pose proof (base_size_parts t). unfold script_bytes in *.
    pose proof (sum_len_nonneg script_sig (tx_input t)). pose proof (sum_len_nonneg script_pubkey (tx_output t)).
    pose proof (len_nonneg (tx_input t)). lia. }
  unfold MAX_BLOCK_OUTPUTS, BLOCK_BASE_SIZE_MAX, TX_OUT_SIZE_MIN. change (1000000 / (8 + 1)) with 111111. lia.
Qed.

(** The tail of the loop body: the signature operations, then the created coins. *)
Lemma count_and_create st confirmed v fees next tx index outputs (Q : ConfirmState -> Prop) :
  setup -> tx ∈ txs -> Bool.eqb (index =? 0) (is_coinbase tx) = true ->
  (if is_coinbase tx then outputs = [] else len outputs = len (tx_input tx)) ->
  0 <= cs_sigops st <= MAX_BLOCK_SIGOPS_COST ->
  (forall total, 0 <= total <= MAX_BLOCK_SIGOPS_COST ->
    Q (mkConfirmState (set_created confirmed (delta_created (delta confirmed) ++ tx_coins h (index, tx))) v fees total next)) ->
  ensures (cost ← sigop_cost tx outputs (rules_script_flags (ctx_rules ctx));
    total ← u64 (cs_sigops st + cost);
    if MAX_BLOCK_SIGOPS_COST <? total then Err (ConfirmError.BadSigOps total)
    else created ← add_created (delta_created (delta confirmed)) tx index h;
      Ok (mkConfirmState (set_created confirmed created) v fees total next)) Q.
Proof.
  intros Hsu Htx Hcb Hout Hsig HQ. unfold MAX_BLOCK_SIGOPS_COST in *.
  pose proof (su_base Hsu) as Hbase. pose proof (sum_of_elem base_size txs tx base_size_nonneg Htx) as Hle.
  pose proof (base_size_nonneg tx) as H0. pose proof (base_size_parts tx) as Hparts. unfold script_bytes in Hparts.
  pose proof (sum_len_nonneg script_sig (tx_input tx)). pose proof (sum_len_nonneg script_pubkey (tx_output tx)).
  pose proof (len_nonneg (tx_input tx)). pose proof (len_nonneg (tx_output tx)).
  pose proof (su_witness Hsu) as Hw. rewrite Forall_forall in Hw.
  destruct (sigop_cost_ok (E:=ConfirmError) tx outputs (rules_script_flags (ctx_rules ctx))) as (n & cost & Hn & -> & Hc);
    [lia|apply (su_flags Hsu)|by apply Hw|lia|done|]. run.
  destruct (legacy_sigop_count_ok (E:=ConfirmError) tx) as (n' & Hn' & Hr); [lia|]. rewrite Hn in Hn'. injection Hn' as <-.
  rewrite u64_ok by (unfold u64_max; lia). run. destruct (Z.ltb_spec 80000 (cs_sigops st + cost)); [done|].
  rewrite add_created_ok by (done || unfold u32_max; lia). run. apply HQ. lia.
Qed.

Section step.
Context (Hsu : setup) (done : list Transaction) (tx : Transaction) (todo : list Transaction).
Context (Hsplit : txs = done ++ tx :: todo) (Hne : done <> []).

Lemma step_in : tx ∈ txs.
Proof. rewrite Hsplit. set_solver. Qed.

Lemma done_in t : t ∈ done -> t ∈ txs.
Proof. rewrite Hsplit. set_solver. Qed.

Lemma get_done i t : get txs i = Some t -> i < len done -> get done i = Some t.
Proof. intros Hg Hi. rewrite Hsplit, get_app_l in Hg by done. exact Hg. Qed.

Lemma step_not_coinbase : is_coinbase tx = false.
Proof.
  destruct Hsu. destruct done as [|d done']; [done|]. rewrite su_txs0 in Hsplit. injection Hsplit as -> Hr.
  rewrite Forall_forall in su_rest0. apply su_rest0. rewrite Hr. set_solver.
Qed.

Lemma entries_slice : exists es,
  slice (pre_spent prefetch) (len (spent_by done)) (len (spent_by done) + len (tx_input tx)) = Some es /\
  Forall2 (fun input e => entry_ok block u (len done, tx, input) e) (tx_input tx) es.
Proof.
  pose proof (su_entries Hsu) as He. unfold spends in He. rewrite Hsplit in He. unfold enumerate in He.
  rewrite enumerate_from_app in He. cbn [enumerate_from] in He. rewrite Z.add_0_l in He.
  rewrite drop_app_le, map_app, concat_app in He.
  2:{ rewrite length_enumerate_from. destruct done; [done|]. cbn. lia. }
  fold (enumerate done) in He. cbn [map concat] in He.
  apply Forall2_app_inv_l in He as (e1 & e23 & H1 & H23 & ->). apply Forall2_app_inv_l in H23 as (e2 & e3 & H2 & H3 & ->).
  exists e2. pose proof (Forall2_length _ _ _ H1) as Hl1. pose proof (Forall2_length _ _ _ H2) as Hl2. split.
  - apply slice_middle; rewrite len_spent_spends; unfold len in *; [lia|].
    unfold tx_spends in Hl2. rewrite length_map in Hl2. cbn in Hl2. lia.
  - unfold tx_spends in H2. exact (proj1 (Forall2_fmap_l _ _ _ _) H2).
Qed.

(** A transaction that repeats an id finds its inputs already spent. *)
Lemma fresh_id : (forall o, o ∈ tx_outpoints tx -> o ∉ spent_by done) -> compute_txid tx ∉ map compute_txid done.
Proof.
  intros Hd Hin. apply list_elem_of_fmap in Hin as (t & Hid & Ht). pose proof step_not_coinbase as Hnc.
  pose proof (proj1 (su_bind Hsu) tx t step_in (done_in t Ht) Hid) as Hops.
  pose proof (su_valid Hsu) as Hv. rewrite Forall_forall in Hv. destruct (Hv tx step_in) as [Hin _].
  destruct done as [|d done'] eqn:Hdone; [done|]. apply elem_of_cons in Ht as [->|Ht].
  - assert (Hd' : d = cb) by (pose proof (su_txs Hsu) as Hx; rewrite Hsplit in Hx; cbn [app] in Hx; congruence).
    pose proof (su_cb Hsu) as Hcb. rewrite <- Hd' in Hcb.
    rewrite is_coinbase_spec in Hnc, Hcb. unfold tx_outpoints in Hops.
    destruct (tx_input d) as [|i [|]]; try done. destruct (tx_input tx) as [|j [|]]; try done.
    injection Hops as Hops. congruence.
  - destruct (tx_outpoints tx) as [|o l] eqn:Ho; [unfold tx_outpoints in Ho; by destruct (tx_input tx)|].
    apply (Hd o); [set_solver|]. unfold spent_by. change (drop 1 (d :: done')) with done'. apply elem_of_concat.
    exists (tx_outpoints t). split; [rewrite <- Hops; set_solver|]. apply list_elem_of_fmap. by exists t.
Qed.

Lemma done_pos : 0 < len done.
Proof. destruct done as [|d done']; [done|]. rewrite len_cons. pose proof (len_nonneg done'). lia. Qed.

(** Where the coin of an input comes from. *)
Lemma coin_source input r : coin_for block ctx u (len done) tx input r ->
  (op_txid (previous_output input) ∈ map compute_txid done /\ ri_in_block r = true /\ ri_coin r ∈ created_by done /\
    outpoint (ri_coin r) = previous_output input) \/
  (op_txid (previous_output input) ∉ ids /\ ri_in_block r = false /\ u !! previous_output input = Some (ri_coin r) /\
    outpoint (ri_coin r) = previous_output input).
Proof.
  intros [_ [(i & o & Hr & -> & _ & ->)|(Hno & Hc & _ & _ & ->)]].
  - left. destruct Hr as ([(t' & Hg' & Hid) _] & Hi & t & Hg & Ho & Hu). rewrite Hg in Hg'. injection Hg' as <-.
    apply get_done in Hg; [|done]. split_and!; try done.
    + rewrite <- Hid. apply list_elem_of_fmap. exists t. split; [done|by eapply get_elem].
    + apply created_elem. exists i, t, o, (op_vout (previous_output input)). rewrite Hid.
      split_and!; try done. by destruct (previous_output input).
  - right. split_and!; try done; [|by apply (su_utxo Hsu)]. intros Hin.
    pose proof (su_own Hsu _ _ Hc Hin) as Hf. pose proof Hf as [(t & Hg & Hid) _].
    apply (Hno 0 (output (ri_coin r))). split; [done|]. split; [apply done_pos|]. exists t. split; [done|].
    split; [|by apply (su_utxo Hsu _ _ Hc)]. apply (proj2 (su_bind Hsu) _ _ t Hc); [by eapply get_elem|done].
Qed.

Lemma created_not_foreign c o : c ∈ created_by done -> outpoint c = o -> op_txid o ∈ ids.
Proof.
  intros Hc%created_txid <-. apply list_elem_of_fmap in Hc as (t & -> & Ht). apply list_elem_of_fmap.
  exists t. split; [done|by apply done_in].
Qed.

(** The coin is in the set as the block so far leaves it. *)
Lemma coin_present v input r : NoDup (map compute_txid done) ->
  seen_as (created_by done) (spent_by done) v -> previous_output input ∉ spent_by done ->
  coin_for block ctx u (len done) tx input r -> v !! previous_output input = Some (ri_coin r).
Proof.
  intros Hnd Hv Hns Hr. rewrite Hv, bool_decide_eq_false_2, lookup_union_coins by done.
  destruct (coin_source input r Hr) as [(_ & _ & Hc & Ho)|(Hf & _ & Hc & Ho)].
  - rewrite <- Ho, coins_map_in; [done|by apply created_nodup|done].
  - destruct (coins_map _ !! _) as [c|] eqn:Hm; [|done]. apply coins_map_Some in Hm as [Hin Hop].
    by destruct Hf; apply (created_not_foreign c).
Qed.

(** What the transaction does to the set is what it does to the view. *)
Lemma step_seen v : compute_txid tx ∉ map compute_txid done ->
  (forall o, o ∈ spent_by done ++ tx_outpoints tx -> op_txid o ∈ map compute_txid done \/ op_txid o ∉ ids) ->
  seen_as (created_by done) (spent_by done) v ->
  seen_as (created_by (done ++ [tx])) (spent_by (done ++ [tx]))
    (coins_map (tx_coins h (len done, tx)) ∪ delete_all (tx_outpoints tx) v).
Proof.
  intros Hfresh Hsrc Hv o. rewrite created_snoc, spent_snoc by done. rewrite !lookup_union_coins, coins_map_app.
  rewrite lookup_delete_all, Hv, lookup_union_coins.
  assert (Htx : compute_txid tx ∈ ids) by (apply list_elem_of_fmap; exists tx; split; [done|apply step_in]).
  destruct (coins_map (tx_coins h (len done, tx)) !! o) as [c|] eqn:Hc.
  - apply coins_map_Some in Hc as [Hc Ho]. unfold tx_coins in Hc.
    apply output_coins_elem in Hc as (n & out & _ & _ & Hc). rewrite Hc in Ho. cbn in Ho.
    rewrite bool_decide_eq_false_2.
    2:{ intros Hin. subst o. cbn in Hsrc. destruct (Hsrc _ Hin) as [Hd|Hd]; cbn in Hd; done. }
    destruct (coins_map (created_by done) !! o) as [c'|] eqn:Hc'; [|done].
    apply coins_map_Some in Hc' as [Hc'%created_txid Ho']. rewrite Ho' in Hc'. subst o. by cbn in Hc'.
  - pose proof (elem_of_app (spent_by done) (tx_outpoints tx) o) as Happ.
    destruct (coins_map (created_by done) !! o); repeat case_bool_decide; try done; exfalso; tauto.
Qed.

(** The resolved inputs, seen from the set and from the delta. *)
Lemma resolved_facts v rs : NoDup (map compute_txid done) -> seen_as (created_by done) (spent_by done) v ->
  (forall o, o ∈ tx_outpoints tx -> o ∉ spent_by done) ->
  Forall2 (coin_for block ctx u (len done) tx) (tx_input tx) rs ->
  Forall2 (fun o c => v !! o = Some c) (tx_outpoints tx) (map ri_coin rs) /\
  Forall2 (fun o c => outpoint c = o) (tx_outpoints tx) (map ri_coin rs) /\
  (forall c, c ∈ map ri_coin (filter (fun r => ri_in_block r = false) rs) ->
    u !! outpoint c = Some c /\ op_txid (outpoint c) ∉ ids /\ outpoint c ∈ tx_outpoints tx) /\
  (forall o, o ∈ tx_outpoints tx -> op_txid o ∈ map compute_txid done \/
    (op_txid o ∉ ids /\ o ∈ map outpoint (map ri_coin (filter (fun r => ri_in_block r = false) rs)))).
Proof.
  intros Hnd Hv Hd Hrs. unfold tx_outpoints in *.
  induction Hrs as [|input r inputs rs Hr Hrs IH]; cbn [map] in *.
  { rewrite filter_nil. split_and!; try constructor; set_solver. }
  destruct IH as (H1 & H2 & H3 & H4); [intros o Ho; apply Hd; set_solver|].
  pose proof (coin_present v input r Hnd Hv (Hd (previous_output input) ltac:(apply list_elem_of_here)) Hr) as Hp.
  rewrite filter_cons. destruct (coin_source input r Hr) as [(Hin & -> & _ & Ho)|(Hout & -> & Hc & Ho)]; case_decide; try done.
  - split_and!; [by constructor|by constructor| |].
    + intros c Hc. destruct (H3 c Hc) as (? & ? & ?). split_and!; try done. set_solver.
    + intros o [->|Hop]%elem_of_cons; [by left|]. by apply H4.
  - cbn [map]. split_and!; [by constructor|by constructor| |].
    + intros c [->|Hc']%elem_of_cons; [rewrite Ho; split_and!; try done; set_solver|].
      destruct (H3 c Hc') as (? & ? & ?). split_and!; try done. set_solver.
    + intros o [->|Hop]%elem_of_cons; [right; split; [done|]; rewrite Ho; set_solver|].
      destruct (H4 o Hop) as [?|[? ?]]; [by left|right]. split; [done|]. set_solver.
Qed.

Lemma tx_is_valid : tx_valid tx.
Proof. pose proof (su_valid Hsu) as Hv. rewrite Forall_forall in Hv. apply Hv, step_in. Qed.

(** The abstract step: the transaction applies to the set, and takes its fee out of it. *)
Lemma apply_step v rs fee : NoDup (map compute_txid done) -> compute_txid tx ∉ map compute_txid done ->
  seen_as (created_by done) (spent_by done) v -> amounts_nonneg v -> NoDup (tx_outpoints tx) ->
  (forall o, o ∈ tx_outpoints tx -> o ∉ spent_by done) ->
  (forall o, o ∈ spent_by done -> op_txid o ∈ map compute_txid done \/ op_txid o ∉ ids) ->
  Forall2 (coin_for block ctx u (len done) tx) (tx_input tx) rs ->
  fee = coins_value (map ri_coin rs) - total_value (tx_output tx) ->
  exists v', update_coins h v (len done, tx) = Some v' /\
    seen_as (created_by (done ++ [tx])) (spent_by (done ++ [tx])) v' /\ amounts_nonneg v' /\ total v' + fee <= total v.
Proof.
  intros Hnd Hfresh Hv Hnn Hndo Hd Hsrc Hrs ->.
  destruct (resolved_facts v rs Hnd Hv Hd Hrs) as (Hlook & _ & _ & Hsrc').
  assert (Hall : Forall (fun o => is_Some (v !! o)) (tx_outpoints tx)).
  { clear -Hlook. induction Hlook; constructor; [by eexists|done]. }
  unfold update_coins. pose proof done_pos. rewrite (proj2 (Z.eqb_neq (len done) 0)) by lia.
  rewrite bool_decide_eq_true_2 by done. eexists. split; [done|].
  pose proof (su_typed Hsu) as Ht. rewrite Forall_forall in Ht. destruct (Ht tx step_in) as [Ha _].
  destruct (output_coins_value (compute_txid tx) h (len done =? 0) (tx_output tx) Ha 0) as [Hpos Hval].
  destruct (total_union (tx_coins h (len done, tx)) (delete_all (tx_outpoints tx) v)) as [Hnn' Htot].
  { intros o c. rewrite lookup_delete_all. case_bool_decide; [done|]. apply Hnn. }
  { eapply Forall_impl; [exact Hpos|]. intros c [? _]. done. }
  split_and!; [|done|].
  - apply step_seen; [done| |done]. intros o [Ho|Ho]%elem_of_app; [by apply Hsrc|].
    destruct (Hsrc' o Ho) as [?|[? _]]; [by left|by right].
  - rewrite (total_delete_all _ _ _ Hndo Hlook) in Htot. unfold tx_coins in *. cbn [fst snd] in *. lia.
Qed.

Lemma confirm_tx_step d0 st : inv d0 done st ->
  ensures (confirm_tx prefetch ctx st (len done, tx)) (inv d0 (done ++ [tx])).
Proof.
  intros [Hview Hnext Hpre Hcre Hspent Hsrc Hfix Hids Hfees Hsig (v & Hap & Hv & Hnn & Htot) Hord].
  pose proof done_pos. destruct entries_slice as (es & Hes & Hentries). pose proof (slice_Some _ _ _ _ Hes) as (Hr1 & Hr2 & _).
  pose proof (Forall2_length _ _ _ (su_entries Hsu)) as Hlen. pose proof (spends_bound (su_base Hsu)) as Hb.
  unfold MAX_BLOCK_INPUTS, BLOCK_BASE_SIZE_MAX, TX_IN_SIZE_MIN in Hb. change (1000000 / (36 + 1 + 4)) with 24390 in Hb.
  pose proof (len_nonneg (tx_input tx)). pose proof (len_slice _ _ _ _ Hes) as Hel.
  assert (Hpl : len (pre_spent prefetch) <= 24390) by (unfold len in *; lia).
  unfold confirm_tx. rewrite (proj2 (Z.ltb_lt 0 (len done))) by done. rewrite Z.mul_1_r, Hnext.
  do 2 (rewrite u64_ok by (unfold u64_max; lia); run). rewrite Hes. run. rewrite u64_ok by (unfold u64_max; lia). run.
  rewrite Hview. eapply (ensures_bind _ _ (fun '(confirmed, v', fees, outputs) => exists rs fee,
    Forall2 (coin_for block ctx u (len done) tx) (tx_input tx) rs /\
    confirmed = fold_left push_spent rs (cs_confirmed st) /\
    v' = view block idx (list_to_set (tx_outpoints tx) ∪ list_to_set (spent_by done)) /\
    NoDup (tx_outpoints tx) /\ (forall o, o ∈ tx_outpoints tx -> o ∉ spent_by done) /\
    fees = cs_fees st + fee /\ fee = coins_value (map ri_coin rs) - total_value (tx_output tx) /\
    0 <= fee /\ cs_fees st + fee <= MAX_MONEY /\ outputs = map (fun input => output (ri_coin input)) rs)).
  { eapply ensures_bind; [eapply resolve_ok; eauto using su_idx, su_utxo, su_mtp, su_height|].
    intros [v' rs] (Hrs & -> & Hndo & Hd).
    eapply ensures_bind; [eapply confirm_inputs_ok;
      eauto using su_utxo, su_mtp, su_height, su_typed, step_in, step_not_coinbase, tx_is_valid|].
    intros fee (Hfee & Hfee0 & Hmax & _). rewrite MAX_MONEY_eq in *. rewrite u64_ok by (unfold u64_max; lia). run.
    cbn [ensures]. exists rs, fee. split_and!; try done. intros o Ho Hs. apply (Hd o Ho). by apply elem_of_list_to_set. }
  intros [[[confirmed v'] fees] outputs] (rs & fee & Hrs & -> & -> & Hndo & Hd & -> & Hfee & Hfee0 & Hmax & ->).
  pose proof (Forall2_length _ _ _ Hrs) as Hrl. pose proof (fresh_id Hd) as Hfresh.
  destruct (resolved_facts v rs Hids Hv Hd Hrs) as (_ & Hpo & Hsp & Hso).
  destruct (apply_step v rs fee) as (v2 & Hup & Hv2 & Hnn2 & Htot2); try done.
  { intros o Ho. destruct (Hsrc o Ho) as [?|[? _]]; [by left|by right]. }
  rewrite push_spent_all. apply (count_and_create st); [done|apply step_in| | |done|].
  { rewrite step_not_coinbase, (proj2 (Z.eqb_neq (len done) 0)) by lia. done. }
  { rewrite step_not_coinbase. unfold len. rewrite length_map. lia. }
  intros total Htotal. constructor; cbn [cs_view cs_next cs_confirmed cs_fees cs_sigops set_created delta prevouts
    delta_created delta_spent delta_height delta_hash delta_overwritten].
  - unfold view. f_equal. rewrite spent_snoc by done. set_solver.
  - rewrite spent_snoc, len_app by done. unfold tx_outpoints, len in *. rewrite length_map. lia.
  - rewrite spent_snoc by done. by apply Forall2_app.
  - by rewrite created_snoc, Hcre.
  - rewrite spent_snoc by done. intros c [Hc|Hc]%elem_of_app.
    + destruct (Hspent c Hc) as (? & ? & ?). split_and!; try done. set_solver.
    + destruct (Hsp c Hc) as (? & ? & ?). split_and!; try done. set_solver.
  - rewrite spent_snoc, !map_app by done. intros o [Ho|Ho]%elem_of_app.
    + destruct (Hsrc o Ho) as [?|[? ?]]; [left; set_solver|right; split; [done|set_solver]].
    + destruct (Hso o Ho) as [?|[? ?]]; [left; set_solver|right; split; [done|set_solver]].
  - exact Hfix.
  - rewrite map_app. apply NoDup_app. split_and!; [done| |apply NoDup_singleton].
    intros x Hx Hx'. apply list_elem_of_singleton in Hx'. by subst x.
  - lia.
  - exact Htotal.
  - exists v2. split_and!; try done.
    + unfold enumerate. rewrite enumerate_from_app, apply_txs_app. fold (enumerate done). rewrite Hap, Z.add_0_l.
      cbn [enumerate_from apply_txs mbind option_bind].
      by rewrite Hup.
    + destruct done as [|d done']; [done|]. cbn [app] in *. lia.
  - rewrite spent_snoc, map_app by done. apply sublist_app; [done|].
    replace (tx_outpoints tx) with (map outpoint (map ri_coin rs)) by (clear -Hpo; induction Hpo; cbn; congruence).
    do 2 apply fmap_sublist. apply sublist_filter.
Qed.
End step.

Lemma utxo_nonneg : utxo_ok h u -> amounts_nonneg u.
Proof. intros Hu o c Hc. by destruct (Hu o c Hc) as (_ & _ & _ & ? & _). Qed.

(** The coinbase, first of all. *)
Lemma confirm_coinbase_step d0 st : setup -> inv d0 [] st ->
  ensures (confirm_tx prefetch ctx st (0, cb)) (inv d0 [cb]).
Proof.
  intros Hsu [Hview Hnext Hpre Hcre Hspent Hsrc Hfix Hids Hfees Hsig (v & Hap & Hv & Hnn & Htot) Hord].
  assert (Hcb : cb ∈ txs) by (rewrite (su_txs Hsu); set_solver).
  unfold confirm_tx. cbn [Z.ltb Z.compare]. rewrite Z.mul_0_r, Hnext. change (len (spent_by [])) with 0.
  cbn [u64]. change (u64 0) with (Ok (E:=ConfirmError) 0). run. change (u64 (0 + 0)) with (Ok (E:=ConfirmError) 0). run.
  rewrite slice_in_range by (done || apply len_nonneg). change (Z.to_nat (0 - 0)) with 0%nat. run.
  cbn [take]. change (u64 (0 + len [])) with (Ok (E:=ConfirmError) 0). run.
  apply (count_and_create st); [done|done|by rewrite (su_cb Hsu)|by rewrite (su_cb Hsu)|done|].
  intros total Htotal. injection Hap as <-.
  pose proof (su_typed Hsu) as Ht. rewrite Forall_forall in Ht. destruct (Ht cb Hcb) as [Ha _].
  destruct (output_coins_value (compute_txid cb) h true (tx_output cb) Ha 0) as [Hpos Hval].
  destruct (total_union (tx_coins h (0, cb)) u) as [Hnn' Htot']; [apply utxo_nonneg, (su_utxo Hsu)| |].
  { eapply Forall_impl; [exact Hpos|]. intros c [? _]. done. }
  constructor; cbn [cs_view cs_next cs_confirmed cs_fees cs_sigops set_created delta prevouts
    delta_created delta_spent delta_height delta_hash delta_overwritten]; try done.
  - unfold created_by, enumerate in *. cbn [enumerate_from map concat] in *. by rewrite Hcre, app_nil_r.
  - intros o Ho. by apply elem_of_nil in Ho.
  - apply NoDup_singleton.
  - exists (coins_map (tx_coins h (0, cb)) ∪ u). split_and!; try done.
    + intros o. unfold created_by, enumerate. cbn [enumerate_from map concat]. by rewrite app_nil_r.
    + unfold tx_coins in *. cbn [fst snd] in *. change (0 =? 0) with true in *. lia.
Qed.

Lemma confirm_loop_ok d0 overwritten : setup ->
  d0 = mkBlockDelta h (block_hash (blk_header block)) [] overwritten [] ->
  ensures (foldM (confirm_tx prefetch ctx) (mkConfirmState (mkConfirmed d0 []) (mkBlockView block idx ∅) 0 0 0)
    (enumerate txs)) (inv d0 txs).
Proof.
  intros Hsu Hd0. eapply ensures_mono.
  - apply (ensures_foldM_prefix _ (fun items => inv d0 (map snd items))).
    + subst d0. constructor; cbn; try done; try set_solver; try apply NoDup_nil_2; try (unfold MAX_MONEY, MAX_BLOCK_SIGOPS_COST; lia).
      exists u. split_and!; [done|intros o; by rewrite lookup_union_coins|apply utxo_nonneg, (su_utxo Hsu)|lia].
    + intros pre [i tx] post st Hx Hi. apply enumerate_split in Hx as (a & b & Hab & -> & -> & _).
      unfold enumerate in *. rewrite snd_enumerate_from in Hi. rewrite map_app, snd_enumerate_from. cbn [map snd].
      destruct a as [|t a].
      * rewrite (su_txs Hsu) in Hab. injection Hab as <- _. by apply confirm_coinbase_step.
      * by apply (confirm_tx_step Hsu (t :: a) tx b).
  - intros st Hi. unfold enumerate in Hi. by rewrite snd_enumerate_from in Hi.
Qed.

(** ** The net delta *)

Lemma len_created done : len (created_by done) <= sum_of (fun tx => len (tx_output tx)) done.
Proof.
  unfold created_by, enumerate. generalize 0. induction done as [|t done IH]; intros s; [done|].
  cbn [enumerate_from map concat sum_of foldr]. rewrite len_app. specialize (IH (s + 1)). unfold sum_of in IH.
  enough (forall outs v, len (output_coins (compute_txid t) h (s =? 0) v outs) <= len outs) as Hl
    by (pose proof (Hl (tx_output t) 0 : len (tx_coins h (s, t)) <= len (tx_output t)); lia).
  induction outs as [|o outs IHo]; intros v; cbn [output_coins]; [done|]. rewrite len_app, len_cons.
  specialize (IHo (v + 1)). destruct (is_unspendable _); unfold len in *; cbn; lia.
Qed.

Lemma position_foreign {E} o : index_ok block idx -> op_txid o ∉ ids -> TxidIndex.position (E:=E) idx (op_txid o) = Ok None.
Proof.
  intros Hidx Hni. destruct (Hidx E (op_txid o)) as ([i|] & -> & Hf); [|done].
  destruct Hf as [(t & Hg & Hid) _]. destruct Hni. rewrite <- Hid. apply list_elem_of_fmap. exists t.
  split; [done|by eapply get_elem].
Qed.

Lemma net_ok {E} d0 st : setup -> inv d0 txs st -> net (E:=E) (cs_view st) (delta (cs_confirmed st)) =
  Ok (mkBlockDelta (delta_height d0) (delta_hash d0) (delta_spent (delta (cs_confirmed st))) (delta_overwritten d0)
    (filter (fun c => outpoint c ∉ spent_by txs) (created_by txs))).
Proof.
  intros Hsu [Hview _ _ Hcre Hspent _ (Hh & Hhash & How) _ _ _ _ _]. unfold net. rewrite Hview. cbn [view view_spent view_txids].
  rewrite Hcre, Hh, Hhash, How.
  set (f := filter _ (created_by txs)). assert (Hf : f = filter (fun c => outpoint c ∉ spent_by txs) (created_by txs)).
  { unfold f. apply list_filter_iff. intros c. by rewrite elem_of_list_to_set. }
  rewrite Hf. clear f Hf. set (f := filter _ (created_by txs)).
  assert (Hle : len f <= len (created_by txs)) by (unfold len, f; pose proof (length_filter (fun c => outpoint c ∉ spent_by txs) (created_by txs)); lia).
  pose proof (len_created txs). pose proof (own_bound (su_base Hsu)) as Ho. rewrite len_own in Ho.
  rewrite (proj2 (Z.leb_le (len f) (len (created_by txs)))), (proj2 (Z.leb_le (len f) MAX_BLOCK_OUTPUTS)) by lia. run.
  assert (Hloop : forall l, (forall c, c ∈ l -> op_txid (outpoint c) ∉ ids) ->
    foldM (fun _ coin => p ← TxidIndex.position idx (op_txid (outpoint coin)); assert_ (bool_decide (p = None))) tt l = Ok (E:=E) tt).
  { induction l as [|c l IH]; intros Hl; [done|]. cbn [foldM]. rewrite position_foreign; [|apply Hsu|apply Hl; set_solver].
    run. apply IH. intros c' Hc'. apply Hl. set_solver. }
  rewrite Hloop; [done|]. intros c Hc. by apply Hspent.
Qed.

(** The delta of a finished loop is the change of the set, exactly and reversibly. *)
Lemma delta_exact d0 st : setup -> inv d0 txs st ->
  (forall c, c ∈ delta_overwritten d0 <-> outpoint c ∈ own block /\ u !! outpoint c = Some c) ->
  (forall c, c ∈ delta_overwritten d0 -> first_with txs (op_txid (outpoint c)) (Some 0)) ->
  let d := mkBlockDelta (delta_height d0) (delta_hash d0) (delta_spent (delta (cs_confirmed st))) (delta_overwritten d0)
    (filter (fun c => outpoint c ∉ spent_by txs) (created_by txs)) in
  (forall v, seen_as (created_by txs) (spent_by txs) v -> v = apply_delta u d) /\ undo_delta (apply_delta u d) d = u.
Proof.
  intros Hsu [_ _ _ _ Hspent Hsrc _ Hids _ _ _ _] How Hfirst d. set (D := delta_spent (delta (cs_confirmed st))) in *.
  assert (Hownu : forall o c, u !! o = Some c -> op_txid o ∈ ids -> c ∈ delta_overwritten d0).
  { intros o c Hc Hid. destruct (su_utxo Hsu _ _ Hc) as (Ho & _). apply How. rewrite Ho. split; [|done].
    apply list_elem_of_fmap in Hid as (t & Hid & Ht). apply own_elem. exists t, (output c). split_and!; try done.
    by apply (proj2 (su_bind Hsu) o c t). }
  assert (Hcre : forall o, coins_map (delta_created d) !! o = if bool_decide (o ∈ spent_by txs) then None else coins_map (created_by txs) !! o).
  { intros o. unfold d. cbn [delta_created]. case_bool_decide as Ho.
    - apply coins_map_None. intros c Hc. apply list_elem_of_filter in Hc as [Hns _]. by intros <-.
    - destruct (coins_map (created_by txs) !! o) as [c|] eqn:Hc.
      + apply coins_map_Some in Hc as [Hc <-]. apply coins_map_in; [|by apply list_elem_of_filter].
        eapply sublist_NoDup; [|apply fmap_sublist, sublist_filter]. apply created_nodup, Hids.
      + apply coins_map_None. intros c' Hc'. apply list_elem_of_filter in Hc' as [_ Hc'].
        by apply (proj1 (coins_map_None _ _) Hc). }
  assert (Hdel : forall o c, u !! o = Some c -> (o ∈ map outpoint (D ++ delta_overwritten d0)) <->
    (op_txid o ∈ ids \/ o ∈ spent_by txs)).
  { intros o c Hc. rewrite list_elem_of_fmap. setoid_rewrite elem_of_app. split.
    - intros (c' & -> & [Hc'|Hc']); [right; by apply Hspent|left]. apply How in Hc' as [Hown _].
      apply own_elem in Hown as (t & _ & Ht & <- & _). apply list_elem_of_fmap. by exists t.
    - intros [Hid|Hs]; [exists c; split; [symmetry; by apply (su_utxo Hsu)|right; by eapply Hownu]|].
      destruct (Hsrc o Hs) as [Hid|[_ Hd]].
      + exists c. split; [symmetry; by apply (su_utxo Hsu)|right; by eapply Hownu].
      + apply list_elem_of_fmap in Hd as (c' & -> & Hc'). exists c'. split; [done|by left]. }
  assert (Hnone : forall o, coins_map (delta_spent d ++ delta_overwritten d) !! o = None <->
    o ∉ map outpoint (D ++ delta_overwritten d0)).
  { intros o. rewrite coins_map_None, list_elem_of_fmap. unfold d. cbn [delta_spent delta_overwritten]. fold D. naive_solver. }
  split.
  - intros v Hv. apply map_eq. intros o. unfold apply_delta. rewrite Hv, !lookup_union_coins, Hcre, lookup_delete_all.
    unfold d. cbn [delta_spent delta_overwritten]. fold D.
    destruct (u !! o) as [c|] eqn:Hc; [pose proof (Hdel o c Hc) as Hiff|by repeat case_bool_decide; destruct (coins_map (created_by txs) !! o)].
    case_bool_decide as Hs; [by rewrite bool_decide_eq_true_2 by tauto|].
    destruct (coins_map (created_by txs) !! o) as [c'|] eqn:Hcc; [done|].
    rewrite bool_decide_eq_false_2; [done|]. intros [Hid|]%Hiff; [|done].
    pose proof (Hfirst c (Hownu o c Hc Hid)) as Hf. destruct (su_utxo Hsu _ _ Hc) as (Ho & _ & Hu & _). rewrite Ho in Hf.
    destruct Hf as [(t & Hg & Hid') _]. apply (proj1 (coins_map_None _ _) Hcc (mkCoin o (output c) h (0 =? 0))); [|done].
    apply created_elem. exists 0, t, (output c), (op_vout o). split_and!; try done.
    + apply (proj2 (su_bind Hsu) o c t); [done|by eapply get_elem|done].
    + rewrite Hid'. by destruct o.
  - apply map_eq. intros o. unfold undo_delta. rewrite lookup_union_coins, lookup_delete_all.
    destruct (coins_map (delta_spent d ++ delta_overwritten d) !! o) as [c|] eqn:Hm.
    { apply coins_map_Some in Hm as [[Hc|Hc]%elem_of_app <-]; symmetry; [by apply Hspent|by apply How]. }
    pose proof (proj1 (Hnone o) Hm) as Hni. case_bool_decide as Hcd.
    + destruct (u !! o) as [c|] eqn:Hc; [|done]. destruct Hni. apply (Hdel o c Hc). left.
      apply list_elem_of_fmap in Hcd as (c' & -> & Hc'). unfold d in Hc'. cbn [delta_created] in Hc'.
      apply list_elem_of_filter in Hc' as [_ Hc']. by apply created_txid.
    + unfold apply_delta. rewrite lookup_union_coins, lookup_delete_all.
      replace (coins_map (delta_created d) !! o) with (@None Coin).
      2:{ symmetry. apply coins_map_None. intros c Hc <-. apply Hcd. apply list_elem_of_fmap. by exists c. }
      rewrite bool_decide_eq_false_2; [done|]. exact Hni.
Qed.
End loop.
