(* ===== verification/CoinsTheorems.v ===== *)
(** * CoinsTheorems: [populate], [confirm] and [connect] against the set of unspent coins *)
From stdpp Require Import gmap.
From S2P Require Import Prelude Bitcoin Flags Params Header Script SigScript Sighash SighashProofs Checker Verify VerifyProofs VerifySafety Sigops Tx TxProofs Block BlockProofs Coins CoinsProofs Utxo ConfirmProofs ConfirmLoop.

(** ** [confirm] *)

Section final.
Context `{HH : Hashes} `{EN : Encoding} `{BC : BitcoinCrate} `{SZ : !SizeLaws} `{EL : !EncodingLaws} `{CL : !CoinbaseLaw}.
Context `{SP : Secp256k1} `{TL : TxidOrderLaws}.

(** What the header stages and the rules guarantee of a context. *)
Record context_ok (ctx : Context) : Prop := {
  cok_height : 0 < ctx_height ctx <= Height.MAX;
  cok_mtp : 0 <= ctx_median_time_past ctx <= u32_max;
  cok_flags : flags_ok (rules_script_flags (ctx_rules ctx));
  cok_subsidy : 0 <= subsidy (ctx_rules ctx) <= MAX_MONEY;
}.

(** A block that passed both earlier stages on some chain. *)
Record block_ready (p : ChainParams) (ctx : Context) (block : Block) : Prop := {
  ready_typed : block_typed block;
  ready_checked : block_checked p block;
  ready_accepted : block_accepted ctx block;
  ready_context : context_ok ctx;
}.

Lemma ready_base p ctx block : block_ready p ctx block -> sum_of base_size (blk_txdata block) <= 1000000.
Proof.
  intros [_ Hc _ _]. pose proof (checked_base p block Hc) as Hb. unfold block_base, WITNESS_SCALE_FACTOR, MAX_BLOCK_WEIGHT, HEADER_SIZE in Hb.
  pose proof (varint_size_range (len (blk_txdata block))). lia.
Qed.

Lemma witness_item_bytes tx i x : i ∈ tx_input tx -> x ∈ witness i -> len x <= witness_bytes tx.
Proof.
  intros Hi Hx. unfold witness_bytes.
  assert (Hle : len x <= len (concat (witness i))).
  { clear -Hx. induction (witness i) as [|y w IH]; [set_solver|]. cbn [concat]. rewrite len_app.
    pose proof (len_nonneg y). pose proof (len_nonneg (concat w)). apply elem_of_cons in Hx as [->|Hx]; [lia|].
    specialize (IH Hx). lia. }
  pose proof (sum_of_elem (fun i => len (concat (witness i))) (tx_input tx) i (fun i => len_nonneg _) Hi).
  unfold sum_of in *. lia.
Qed.

Lemma ready_witness p ctx block : block_ready p ctx block ->
  Forall (fun tx => Forall (fun i => witness_small (witness i)) (tx_input tx)) (blk_txdata block).
Proof.
  intros [_ _ Ha _]. pose proof (accepted_weight ctx block Ha) as Hw. pose proof (block_base_total block) as Hbt.
  unfold block_total, HEADER_SIZE, MAX_BLOCK_WEIGHT in *. pose proof (varint_size_range (len (blk_txdata block))).
  apply Forall_forall. intros tx Htx. apply Forall_forall. intros i Hi. apply Forall_forall. intros x Hx.
  pose proof (witness_item_bytes tx i x Hi Hx). pose proof (total_size_parts tx). pose proof (base_size_nonneg tx).
  pose proof (sum_of_elem total_size (blk_txdata block) tx total_size_nonneg Htx). lia.
Qed.

Lemma ready_shaped p ctx block : block_ready p ctx block -> shaped block.
Proof.
  intros Hr. split; [apply (checked_coinbase p block (ready_checked _ _ _ Hr))|].
  apply spends_bound, (ready_base p ctx block Hr).
Qed.

(** [populate] always answers a checked block, so the hypotheses below can be met. *)
Lemma entries_from_answers block bip30 u sources prefetch : Forall2 (source_ok block) (spends block) sources ->
  prefetch_ok block bip30 u sources prefetch -> Forall2 (entry_ok block u) (spends block) (pre_spent prefetch).
Proof.
  intros Hs [Ha _ _ _]. revert Ha. generalize (pre_spent prefetch).
  induction Hs as [|x s xs ss Hxs Hs IH]; intros es Ha; cbn [zip zip_with] in Ha; inversion_clear Ha; constructor.
  - by exists s.
  - by apply IH.
Qed.

Lemma reported_existing block bip30 u sources prefetch : ids_bind block u ->
  prefetch_ok block bip30 u sources prefetch -> Forall (reported block) (pre_existing prefetch).
Proof.
  intros [_ Hb] [_ _ He Hs]. apply Forall_forall. intros c Hc. destruct (decide (bip30 = Skip)) as [Hsk|Hsk].
  - destruct (Hs Hsk) as [Hnil _]. rewrite Hnil in Hc. set_solver.
  - apply He in Hc as [Ho Hu]; [|done]. split; [done|]. intros tx Htx Hid.
    pose proof (Hb _ _ tx Hu Htx Hid) as Hg. apply get_Some_range in Hg. lia.
Qed.

Lemma existing_bound block bip30 u sources prefetch : prefetch_ok block bip30 u sources prefetch ->
  len (pre_existing prefetch) <= len (own block).
Proof.
  intros [_ Hnd He Hs]. destruct (decide (bip30 = Skip)) as [Hsk|Hsk].
  - destruct (Hs Hsk) as [-> _]. apply len_nonneg.
  - enough (length (map outpoint (pre_existing prefetch)) <= length (own block))%nat as Hl
      by (rewrite length_map in Hl; unfold len; lia).
    apply submseteq_length, NoDup_submseteq; [done|]. intros o (c & -> & Hc)%list_elem_of_fmap. by apply He.
Qed.

(** What a successful [confirm] guarantees of the set and the delta. *)
Record connects (ctx : Context) (u : utxo) (block : Block) (c : Confirmed) : Prop := {
  con_apply : apply_block (ctx_height ctx) u block = Some (apply_delta u (delta c));
  con_undo : undo_delta (apply_delta u (delta c)) (delta c) = u;
  con_supply : total (apply_delta u (delta c)) <= total u + subsidy (ctx_rules ctx);
  con_tip : delta_height (delta c) = ctx_height ctx /\ delta_hash (delta c) = block_hash (blk_header block);
  con_prevouts : Forall2 (fun o c => outpoint c = o) (spent_by (blk_txdata block)) (prevouts c);
  con_created : forall coin, coin ∈ delta_created (delta c) -> coin_height coin = ctx_height ctx /\
    is_unspendable (script_pubkey (output coin)) = false /\ 0 <= txout_value (output coin) <= u64_max;
  con_order : map outpoint (delta_spent (delta c)) `sublist_of` spent_by (blk_txdata block);
  con_removed : forall coin, coin ∈ delta_spent (delta c) ++ delta_overwritten (delta c) -> u !! outpoint coin = Some coin;
  con_overwritten : len (delta_overwritten (delta c)) <= MAX_BLOCK_OUTPUTS /\
    forall coin, coin ∈ delta_overwritten (delta c) -> outpoint coin ∈ own block;
}.

Lemma confirm_ok p block ctx u sources prefetch : block_ready p ctx block -> utxo_ok (ctx_height ctx) u ->
  ids_bind block u -> populate (E:=Empty_set) block = Ok sources ->
  prefetch_ok block (rules_bip30 (ctx_rules ctx)) u sources prefetch ->
  ensures (confirm block prefetch ctx) (connects ctx u block).
Proof.
  intros Hready Hutxo Hbind Hpop Hpre. pose proof (ready_shaped _ _ _ Hready) as Hshape.
  destruct (populate_ok (E:=Empty_set) block Hshape) as (s' & Hpop' & Hsrc). rewrite Hpop in Hpop'. injection Hpop' as <-.
  pose proof (entries_from_answers _ _ _ _ _ Hsrc Hpre) as Hentries.
  destruct Hshape as [(cb & rest & Htxs & Hcb & Hrest) Hcount]. pose proof (ready_base _ _ _ Hready) as Hbase.
  unfold confirm. replace (head (blk_txdata block)) with (Some cb) by (by rewrite Htxs). run. rewrite Hcb. run.
  rewrite input_count_ok by done. run.
  rewrite (proj2 (Z.eqb_eq _ _)) by (unfold len; f_equal; symmetry; by eapply Forall2_length). run.
  destruct (txid_index_new (E:=ConfirmError) block) as (idx & -> & Hidx); [by rewrite Htxs|]. run.
  eapply ensures_bind; [apply check_bip30_ok; [exact Hidx|by eapply reported_existing|apply (existing_nodup _ _ _ _ _ Hpre)| |]|].
  { pose proof (existing_bound _ _ _ _ _ Hpre). pose proof (own_bound block Hbase). lia. }
  { intros Hsk. by apply (existing_skip _ _ _ _ _ Hpre). }
  intros overwritten [-> Hfirst]. rewrite Forall_forall in Hfirst.
  assert (Hover : forall c, c ∈ pre_existing prefetch <-> outpoint c ∈ own block /\ u !! outpoint c = Some c).
  { intros c. destruct (decide (rules_bip30 (ctx_rules ctx) = Skip)) as [Hsk|Hsk].
    - destruct (existing_skip _ _ _ _ _ Hpre Hsk) as [-> Hno]. split; [set_solver|]. intros [Ho Hc]. rewrite (Hno _ Ho) in Hc. done.
    - by apply (existing_spec _ _ _ _ _ Hpre). }
  set (d0 := mkBlockDelta _ _ _ _ _).
  assert (Hsu : setup block ctx u idx prefetch cb rest).
  { destruct Hready as [Hty Hchk Hacc [Hh Hm Hf Hs]] eqn:Hr. constructor; try done.
    - apply (checked_txs p block Hchk).
    - apply (typed_txs block Hty).
    - by eapply ready_witness.
    - intros o c Hc Hid. destruct (Hutxo _ _ Hc) as (Ho & _). rewrite <- Ho. apply Hfirst, Hover.
      rewrite Ho. split; [|done]. apply list_elem_of_fmap in Hid as (t & Hid & Ht). apply own_elem.
      exists t, (output c). split_and!; try done. by apply (proj2 Hbind o c t). }
  eapply ensures_bind; [by apply (confirm_loop_ok block ctx u idx prefetch cb rest d0 (pre_existing prefetch) Hsu)|].
  intros st Hinv. pose proof (net_ok (E:=ConfirmError) _ _ _ _ _ _ _ d0 st Hsu Hinv) as Hnet.
  destruct (delta_exact _ _ _ _ _ _ _ d0 st Hsu Hinv Hover Hfirst) as [Hexact Hundo].
  destruct Hinv as [_ Hnext Hprev _ Hspent _ _ _ Hfees _ (v & Hap & Hv & _ & Htot) Hord].
  pose proof (len_spent_spends (blk_txdata block)) as Hls. fold (spends block) in Hls.
  rewrite (proj2 (Z.eqb_eq (cs_next st) _)) by congruence. run.
  rewrite (proj2 (Z.eqb_eq (len (prevouts (cs_confirmed st))) _))
    by (rewrite <- Hls; unfold len; f_equal; symmetry; by eapply Forall2_length). run.
  destruct (ready_context _ _ _ Hready) as [_ _ _ Hsub]. pose proof (su_typed _ _ _ _ _ _ _ Hsu) as Hty.
  assert (Hcoins : forall coin, coin ∈ created_by ctx (blk_txdata block) -> coin_height coin = ctx_height ctx /\
    is_unspendable (script_pubkey (output coin)) = false /\ 0 <= txout_value (output coin) <= u64_max).
  { intros coin (i & t & o & n & Ht & Ho & Hu & ->)%created_elem. cbn. split_and!; try done;
      apply get_elem in Ht, Ho; rewrite Forall_forall in Hty; destruct (Hty t Ht) as [Ham _];
      unfold amounts_ok in Ham; rewrite Forall_forall in Ham; by apply Ham. }
  pose proof (su_valid _ _ _ _ _ _ _ Hsu) as Hval. rewrite Htxs in Hty, Hval, Htot.
  inversion_clear Hty as [|? ? [Ha _] _]. inversion_clear Hval as [|? ? (_ & _ & _ & Hmax & _) _].
  rewrite value_out_ok by done. run. rewrite MAX_MONEY_eq in *. rewrite u64_ok by (unfold u64_max; lia). run.
  destruct (Z.ltb_spec (cs_fees st + subsidy (ctx_rules ctx)) (total_value (tx_output cb))); [done|].
  rewrite Hnet. run. cbn [ensures]. pose proof (Hexact v Hv) as Hve.
  constructor; cbn [delta prevouts delta_height delta_hash].
  - unfold apply_block. by rewrite Hap, Hve.
  - exact Hundo.
  - rewrite <- Hve. lia.
  - done.
  - exact Hprev.
  - intros coin [_ Hc]%list_elem_of_filter. by apply Hcoins.
  - exact Hord.
  - cbn [delta_spent delta_overwritten]. intros coin [Hc|Hc]%elem_of_app; [by apply Hspent|by apply Hover].
  - cbn [delta_overwritten]. pose proof (existing_bound _ _ _ _ _ Hpre). pose proof (own_bound block Hbase). cbn. split; [lia|].
    intros coin Hc. by apply Hover.
Qed.


(** C11. Disconnecting is exact: the delta of a confirmed block, swapped, takes the set back to
    what it was before the block, the overwritten coinbases of the two BIP30 repeats
    included. *)
Theorem delta_undo_roundtrip p block ctx u sources prefetch c : block_ready p ctx block ->
  utxo_ok (ctx_height ctx) u -> ids_bind block u -> populate (E:=Empty_set) block = Ok sources ->
  prefetch_ok block (rules_bip30 (ctx_rules ctx)) u sources prefetch -> confirm block prefetch ctx = Ok c ->
  undo_delta (apply_delta u (delta c)) (delta c) = u.
Proof.
  intros Hr Hu Hb Hs Hp Hc.
  by destruct (ensures_Ok_inv _ _ _ (confirm_ok p block ctx u sources prefetch Hr Hu Hb Hs Hp) Hc).
Qed.

(** ** The chain state under arbitrary connections and disconnections *)

Record chain_state := mkChainState { st_height : Z; st_coins : utxo; st_deltas : list BlockDelta }.

(** The node connects a block that passes every stage, keeping its delta, or disconnects the
    tip with the last delta. *)
Inductive chain_step (p : ChainParams) : chain_state -> chain_state -> Prop :=
| step_connect h u ds block ctx sources prefetch c :
    ctx_height ctx = h + 1 -> block_ready p ctx block ->
    block_subsidy (E:=Empty_set) (ctx_height ctx) (halving_interval p) = Ok (subsidy (ctx_rules ctx)) ->
    ids_bind block u -> populate (E:=Empty_set) block = Ok sources ->
    prefetch_ok block (rules_bip30 (ctx_rules ctx)) u sources prefetch ->
    confirm block prefetch ctx = Ok c ->
    chain_step p (mkChainState h u ds) (mkChainState (h + 1) (apply_delta u (delta c)) (delta c :: ds))
| step_disconnect h u d ds :
    chain_step p (mkChainState h u (d :: ds)) (mkChainState (h - 1) (undo_delta u d) ds).

(** Genesis: its coinbase is not spendable, so the set is empty. *)
Definition genesis_state : chain_state := mkChainState 0 ∅ [].

Definition reachable (p : ChainParams) (s : chain_state) : Prop := rtc (chain_step p) genesis_state s.

(** The deltas unwind to genesis, and every state passed on the way is a set of coins worth
    at most what was issued by its height. *)
Fixpoint unwinds (p : ChainParams) (h : Z) (u : utxo) (ds : list BlockDelta) : Prop :=
  0 <= h /\ utxo_ok h u /\ total u <= issued (halving_interval p) (S (Z.to_nat h)) /\
  match ds with
  | [] => h = 0 /\ u = ∅
  | d :: ds => unwinds p (h - 1) (undo_delta u d) ds
  end.

Lemma issued_step interval h : 0 <= h -> 0 < interval ->
  exists n, block_subsidy (E:=Empty_set) (h + 1) interval = Ok n /\
    issued interval (S (Z.to_nat (h + 1))) = issued interval (S (Z.to_nat h)) + n.
Proof.
  intros Hh Hi. rewrite block_subsidy_eq by lia. eexists. split; [done|].
  replace (Z.to_nat (h + 1)) with (S (Z.to_nat h)) by lia.
  change (issued interval (S (S (Z.to_nat h)))) with
    (issued interval (S (Z.to_nat h)) + subsidy_at interval (Z.of_nat (S (Z.to_nat h)))). f_equal. unfold subsidy_at.
  replace (Z.of_nat (S (Z.to_nat h))) with (h + 1) by lia. by rewrite block_subsidy_eq by lia.
Qed.

Lemma step_unwinds p s s' : tabled p -> chain_step p s s' ->
  unwinds p (st_height s) (st_coins s) (st_deltas s) -> unwinds p (st_height s') (st_coins s') (st_deltas s').
Proof.
  intros Hp Hs Hun. destruct Hs as [h u ds block ctx sources prefetch c Hh Hr Hsub Hb Hpop Hpre Hc|h u d ds];
    cbn [st_height st_coins st_deltas] in *.
  2:{ cbn [unwinds] in Hun. tauto. }
  assert (Hfacts : 0 <= h /\ utxo_ok h u /\ total u <= issued (halving_interval p) (S (Z.to_nat h))).
  { destruct ds; cbn [unwinds] in Hun; tauto. }
  destruct Hfacts as (Hh0 & Hu & Htot).
  assert (Hu' : utxo_ok (ctx_height ctx) u).
  { intros o coin Hcoin. destruct (Hu o coin Hcoin) as (? & ? & ? & ?). split_and!; try done; lia. }
  destruct (ensures_Ok_inv _ _ _ (confirm_ok p block ctx u sources prefetch Hr Hu' Hb Hpop Hpre) Hc)
    as [_ Hundo Hsupply _ _ Hcre].
  destruct (issued_step (halving_interval p) h Hh0 (ok_halving p (tabled_ok p Hp))) as (n & Hn & Hissued).
  rewrite <- Hh, Hsub in Hn. injection Hn as <-. cbn [unwinds]. split_and!; [lia| |lia|].
  - intros o coin. unfold apply_delta. rewrite lookup_union_coins, lookup_delete_all.
    destruct (coins_map _ !! o) as [coin'|] eqn:Hm.
    + intros [= <-]. apply coins_map_Some in Hm as [Hm <-]. destruct (Hcre _ Hm) as (-> & ? & ?).
      split_and!; try done; lia.
    + case_bool_decide; [done|]. rewrite <- Hh. apply Hu'.
  - rewrite Hundo. by replace (h + 1 - 1) with h by lia.
Qed.

(** C10. The supply is bounded on every chain the node can be on. Whatever sequence of
    connections and disconnections led to a state, its coins are worth at most the subsidies
    of its heights, hence at most 20999999.97690000 BTC with mainnet's halving interval, and
    its deltas undo it back to genesis one height at a time. *)
Theorem supply_bounded p s : tabled p -> reachable p s ->
  unwinds p (st_height s) (st_coins s) (st_deltas s) /\
  (halving_interval p = 210000 -> total (st_coins s) <= 2099999997690000).
Proof.
  intros Hp Hr. assert (Hun : unwinds p (st_height s) (st_coins s) (st_deltas s)).
  { refine (rtc_ind_r (R:=chain_step p) (fun s => unwinds p (st_height s) (st_coins s) (st_deltas s)) genesis_state _ _ s Hr);
      [|intros y z _; by apply step_unwinds].
    cbn [unwinds genesis_state st_height st_coins st_deltas].
    split; [done|]. split; [intros o c Hc; by rewrite lookup_empty in Hc|]. split; [|done].
    unfold total. rewrite map_fold_empty. apply (issued_mono _ 0 1); [apply (ok_halving p (tabled_ok p Hp))|lia]. }
  split; [exact Hun|]. intros Hi. pose proof (issued_limit (Z.to_nat 210000) (S (Z.to_nat (st_height s)))) as Hlim.
  rewrite Z2Nat.id in Hlim by lia. assert (Ht : total (st_coins s) <= issued (halving_interval p) (S (Z.to_nat (st_height s)))).
  { destruct (st_deltas s); cbn [unwinds] in Hun; tauto. }
  rewrite Hi in Ht. specialize (Hlim ltac:(lia)). lia.
Qed.
End final.

(** ** [connect] *)

Lemma decides_scan_at {E A} (f : Z * A -> outcome E unit) (P : Z -> Prop) (l : list A) : forall s,
  (forall i x, get l (i - s) = Some x -> decides (f (i, x)) (P i)) ->
  decides (foldM (fun _ p => f p) tt (enumerate_from s l)) (forall i, s <= i < s + len l -> P i).
Proof.
  induction l as [|x l IH]; intros s Hf; cbn [enumerate_from foldM].
  { left. split; [intros i; rewrite len_nil; lia|done]. }
  pose proof (len_nonneg l). eapply decides_ext.
  - apply (decides_seq (f (s, x))); [apply Hf; by rewrite Z.sub_diag|]. intros _. apply IH.
    intros i y Hy. apply Hf. pose proof (get_Some_range _ _ _ Hy). change (x :: l) with ([x] ++ l).
    rewrite get_app_r by (change (len [x]) with 1; lia). change (len [x]) with 1.
    by replace (i - s - 1) with (i - (s + 1)) by lia.
  - rewrite len_cons. split.
    + intros [Hs Hr] i Hi. destruct (decide (i = s)) as [->|]; [done|]. apply Hr. lia.
    + intros Hall. split; [apply Hall; lia|]. intros i Hi. apply Hall. lia.
Qed.

Section scripts.
Context `{HL : HashLengths} `{EL : EncodingLaws} `{BC : BitcoinCrate} `{SZ : !SizeLaws} `{CL : !CoinbaseLaw}.
Context `{SL : Secp256k1Laws} `{TL : TxidOrderLaws}.

(** Every input of a transaction verifies against the outputs it spends. *)
Definition tx_scripts_ok (flags : ScriptFlags.ScriptFlags) (tx : Transaction) (outs : list TxOut) : Prop :=
  forall i, 0 <= i < len (tx_input tx) -> verify_input tx i outs (precomputed_of tx outs) flags = Ok tt.

Fixpoint scripts_ok (flags : ScriptFlags.ScriptFlags) (txs : list Transaction) (coins : list Coin) : Prop :=
  match txs with
  | [] => True
  | tx :: txs =>
      tx_scripts_ok flags tx (map output (take (length (tx_input tx)) coins)) /\
      scripts_ok flags txs (drop (length (tx_input tx)) coins)
  end.

Lemma coin_outputs_ok {E} inputs coins : Forall2 (fun i c => outpoint c = previous_output i) inputs coins ->
  coin_outputs (E:=E) inputs coins = Ok (map output coins).
Proof.
  intros Hf. unfold coin_outputs.
  assert (Hg : forall acc, foldM (fun outputs '(input, coin) =>
    assert_ (bool_decide (outpoint coin = previous_output input));; Ok (outputs ++ [output coin])) acc (zip inputs coins)
    = Ok (E:=E) (acc ++ map output coins)); [|apply Hg].
  induction Hf as [|i c inputs coins Hc Hf IH]; intros acc; cbn [zip zip_with foldM map]; [by rewrite app_nil_r|].
  rewrite bool_decide_eq_true_2 by done. run. rewrite IH. by rewrite <- app_assoc.
Qed.

Lemma connect_tx_ok flags pre mid post index tx : flags_ok flags ->
  Forall (fun i => witness_ok flags (witness i)) (tx_input tx) -> is_coinbase tx = false -> tx_input tx <> [] ->
  Forall2 (fun i c => outpoint c = previous_output i) (tx_input tx) mid ->
  len (pre ++ mid ++ post) <= u32_max -> len (tx_output tx) <= u32_max ->
  (tx_scripts_ok flags tx (map output mid) /\
     connect_tx (pre ++ mid ++ post) flags (len pre) (index, tx) = Ok (len (pre ++ mid))) \/
  (~ tx_scripts_ok flags tx (map output mid) /\
     exists e, connect_tx (pre ++ mid ++ post) flags (len pre) (index, tx) = Err e).
Proof.
  intros Hf Hw Hcb Hne Hmid Hlen Hout. pose proof (Forall2_length _ _ _ Hmid) as Hl. unfold connect_tx.
  rewrite Hcb. cbn [negb]. run. rewrite !len_app in Hlen. unfold u32_max in *.
  pose proof (len_nonneg pre). pose proof (len_nonneg mid). pose proof (len_nonneg post).
  assert (Hlm : len (tx_input tx) = len mid) by (unfold len; lia).
  rewrite Hlm, u64_ok by (unfold u64_max; lia). run. rewrite (slice_middle pre mid post) by done. run.
  rewrite u64_ok by (unfold u64_max; lia). run. rewrite coin_outputs_ok by done. run.
  assert (Hlo : len (map output mid) = len (tx_input tx)) by (unfold len; rewrite length_map; lia).
  rewrite new_precomputed_ok by done. run.
  assert (Hscan : decides (foldM (fun _ '(input, _) => map_err (mkConnectError index input)
    (verify_input tx input (map output mid) (precomputed_of tx (map output mid)) flags)) tt (enumerate (tx_input tx)))
    (tx_scripts_ok flags tx (map output mid))).
  { refine (decides_scan_at (fun '(input, _) => map_err (mkConnectError index input)
      (verify_input tx input (map output mid) (precomputed_of tx (map output mid)) flags))
      (fun i => verify_input tx i (map output mid) (precomputed_of tx (map output mid)) flags = Ok tt) (tx_input tx) 0 _).
    intros i x Hx. rewrite Z.sub_0_r in Hx.
    apply decides_map_err, decides_iff. split; [|done]. pose proof (get_Some_range _ _ _ Hx).
    rewrite Forall_forall in Hw. apply (verify_input_total _ _ _ _ _ x);
      [done|done|by split|split; unfold u64_max; lia|unfold u32_max; lia|done|by eapply Hw, get_elem]. }
  destruct Hscan as [[Hok ->]|[Hno [e ->]]]; run; [left|right]; (split; [done|]); [by rewrite len_app|by eexists].
Qed.

Lemma connect_loop flags txs : flags_ok flags ->
  Forall (fun tx => Forall (fun i => witness_ok flags (witness i)) (tx_input tx) /\ is_coinbase tx = false /\
    tx_input tx <> [] /\ len (tx_output tx) <= u32_max) txs ->
  forall s pre coins, Forall2 (fun o c => outpoint c = o) (concat (map tx_outpoints txs)) coins ->
  len (pre ++ coins) <= u32_max ->
  (scripts_ok flags txs coins /\
     foldM (connect_tx (pre ++ coins) flags) (len pre) (enumerate_from s txs) = Ok (len (pre ++ coins))) \/
  (~ scripts_ok flags txs coins /\
     exists e, foldM (connect_tx (pre ++ coins) flags) (len pre) (enumerate_from s txs) = Err e).
Proof.
  intros Hf. induction 1 as [|tx txs (Hw & Hcb & Hne & Hout) Hall IH]; intros s pre coins Hc Hlen;
    cbn [map concat enumerate_from foldM scripts_ok] in *.
  { inversion Hc. subst. left. by rewrite app_nil_r. }
  apply Forall2_app_inv_l in Hc as (mid & post & Hmid & Hpost & ->).
  apply (proj1 (Forall2_fmap_l _ _ _ _)) in Hmid. pose proof (Forall2_length _ _ _ Hmid) as Hl.
  rewrite Hl, take_app_length, drop_app_length.
  destruct (connect_tx_ok flags pre mid post s tx Hf Hw Hcb Hne Hmid Hlen Hout) as [[Hok ->]|[Hno [e ->]]]; run.
  2:{ right. split; [tauto|by eexists]. }
  rewrite (app_assoc pre mid post) in *. destruct (IH (s + 1) (pre ++ mid) post Hpost Hlen) as [[Ha Hb]|[Ha Hb]];
    [left|right]; (split; [tauto|exact Hb]).
Qed.

End scripts.
