(* ===== verification/CoinsWitness.v ===== *)
(** * CoinsWitness: the coins path run on concrete blocks *)
From stdpp Require Import gmap.
From S2P Require Import Prelude Bitcoin Flags Params Header Script SigScript Sighash SighashProofs Checker Verify VerifyProofs VerifySafety Sigops Tx TxProofs Block BlockProofs Coins CoinsProofs Utxo ConfirmProofs ConfirmLoop CoinsTheorems.

Definition encoded_txids : TxidOrder := {|
  txid_le a b := (countable.encode a <= countable.encode b)%positive;
  txid_le_dec a b := Pos.le_dec (countable.encode a) (countable.encode b) |}.

Lemma encoded_txids_laws : @TxidOrderLaws encoded_txids.
Proof.
  constructor; cbn.
  - intros a b. lia.
  - intros a b c. cbn. lia.
  - intros a b Hab Hba. apply (inj countable.encode). cbn in *. lia.
Qed.

(** A coin of an earlier block, a transaction that spends it, and one that spends that one's
    output in the same block. *)
Definition old_outpoint : OutPoint := mkOutPoint (le_bytes 32 77) 0.
Definition old_coin : Coin := mkCoin old_outpoint (mkTxOut 1000 [x51]) 5 false.
Definition old_coins : utxo := {[ old_outpoint := old_coin ]}.

Lemma old_coins_lookup o c : old_coins !! o = Some c -> o = old_outpoint /\ c = old_coin.
Proof. unfold old_coins. rewrite lookup_singleton_Some. by intros [<- <-]. Qed.

Definition spend_old : Transaction :=
  mkTransaction 2 1 [mkTxIn old_outpoint [] 0xfffffffe []] [mkTxOut 900 [x51]].
Definition spend_new : Transaction :=
  mkTransaction 2 2 [mkTxIn (mkOutPoint (le_bytes 32 2) 0) [] 0xfffffffe []] [mkTxOut 850 [x51]; mkTxOut 0 [x6a]].

Definition spending_block : Block :=
  mkBlock (blk_header sample_block) [sample_coinbase; spend_old; spend_new].

Definition spending_prefetch : Prefetch := mkPrefetch [Some (mkInputCoin old_coin None); None] [].

Definition first_coinbase : Transaction :=
  mkTransaction 1 0 [mkTxIn (mkOutPoint (repeat x00 32) u32_max) [x51; x00] SEQUENCE_FINAL []]
    [mkTxOut 5000000000 [x51]].
Definition first_block : Block := mkBlock (blk_header sample_block) [first_coinbase].
Definition first_context : Context := mkContext 1 1231006505 1231006505 0x1d00ffff sample_rules.

Notation ready := (@block_ready prefix_hashes simple_encoding sized_crate toy_secp).

Lemma sample_ready (ctx : Context) block : 0 < ctx_height ctx <= Height.MAX ->
  0 <= ctx_median_time_past ctx <= u32_max -> ctx_rules ctx = sample_rules ->
  @block_typed sized_crate block ->
  @check_block prefix_hashes simple_encoding sized_crate toy_secp encoded_order block mainnet_params = Ok tt ->
  @accept_block prefix_hashes simple_encoding sized_crate block ctx = Ok tt ->
  ready mainnet_params ctx block.
Proof.
  intros Hh Hm Hrules Ht Hc Ha. destruct sized_crate_laws as (Hsize & Hid & Hcb).
  pose proof (@check_block_decides prefix_hashes prefix_hash_lengths simple_encoding simple_encoding_laws sized_crate
    Hid Hsize toy_secp toy_secp_laws encoded_order encoded_order_laws mainnet_params block mainnet_tabled_sized Ht) as Hd.
  apply decides_iff in Hd as [_ Hd]. apply Hd in Hc. pose proof Hc as [_ _ _ _ _ (cb & txs & Htx & Hcbt & _) _ _].
  pose proof (@accept_block_decides prefix_hashes simple_encoding simple_encoding_laws sized_crate
    Hsize Hcb block ctx cb txs Ht Hh Htx Hcbt) as Hd2.
  apply decides_iff in Hd2 as [_ Hd2]. apply Hd2 in Ha. constructor; try done. constructor; try done.
  - rewrite Hrules. split; intros _; vm_compute; reflexivity.
  - rewrite Hrules. vm_compute. split; congruence.
Qed.

Lemma spending_typed : @block_typed sized_crate spending_block.
Proof.
  constructor.
  - vm_compute. split; congruence.
  - split_and!; [vm_compute; congruence|reflexivity|]. repeat constructor; vm_compute; congruence.
  - repeat constructor; vm_compute; congruence.
  - vm_compute. congruence.
Qed.

Lemma spending_ready : ready mainnet_params sample_context spending_block.
Proof.
  apply sample_ready; [vm_compute; split; congruence|vm_compute; split; congruence|reflexivity|exact spending_typed| |];
    vm_compute; reflexivity.
Qed.

Notation sized_txid := (@compute_txid sized_crate).

Lemma spending_ids : Forall (fun tx => Forall (fun tx' => sized_txid tx = sized_txid tx' -> tx_outpoints tx = tx_outpoints tx')
  (blk_txdata spending_block)) (blk_txdata spending_block) /\
  Forall (fun tx => sized_txid tx <> le_bytes 32 77) (blk_txdata spending_block).
Proof.
  split; repeat constructor; intros Hid; (reflexivity || (vm_compute in Hid; congruence)).
Qed.

Lemma spending_bind : @ids_bind sized_crate spending_block old_coins.
Proof.
  split.
  - intros tx tx' Htx Htx'. pose proof (proj1 spending_ids) as Hall. rewrite Forall_forall in Hall.
    specialize (Hall tx Htx). rewrite Forall_forall in Hall. by apply Hall.
  - intros o c tx [-> ->]%old_coins_lookup Htx Hid. pose proof (proj2 spending_ids) as Hall.
    rewrite Forall_forall in Hall. by destruct (Hall tx Htx).
Qed.

Lemma old_coins_ok : utxo_ok (ctx_height sample_context) old_coins.
Proof. intros o c [-> ->]%old_coins_lookup. vm_compute. repeat split; congruence. Qed.

Definition spending_sources : list InputSource := [FromChain false; InBlock 1].

Lemma spending_populate :
  @populate sized_crate encoded_txids Empty_set spending_block = Ok spending_sources.
Proof. vm_compute. reflexivity. Qed.

Lemma spending_prefetch_ok :
  @prefetch_ok sized_crate spending_block Enforce old_coins spending_sources spending_prefetch.
Proof.
  constructor.
  - repeat constructor. exists None. split; [reflexivity|]. split; [done|]. intros [=].
  - constructor.
  - intros _ c. split; [set_solver|]. intros [Ho [Hk _]%old_coins_lookup]. rewrite Hk in Ho.
    apply own_elem in Ho as (tx & out & Htx & Hid & _). 
    pose proof (proj2 spending_ids) as Hall. rewrite Forall_forall in Hall. by destruct (Hall tx Htx).
  - done.
Qed.

(** What [confirm] returns there: the old coin spent, the coinbase and the last output new. *)
Definition spending_delta : BlockDelta :=
  mkBlockDelta 1000 MAINNET_GENESIS_HASH [old_coin] []
    [mkCoin (mkOutPoint (le_bytes 32 1) 0) (mkTxOut 5000000000 [x51]) 1000 true;
     mkCoin (mkOutPoint (le_bytes 32 3) 0) (mkTxOut 850 [x51]) 1000 false].

Definition spending_prevouts : list Coin :=
  [old_coin; mkCoin (mkOutPoint (le_bytes 32 2) 0) (mkTxOut 900 [x51]) 1000 false].

Lemma spending_confirm : @confirm sized_crate encoded_txids spending_block spending_prefetch sample_context =
  Ok (mkConfirmed spending_delta spending_prevouts).
Proof. vm_compute. reflexivity. Qed.


Lemma delta_undo_roundtrip_witness : undo_delta (apply_delta old_coins spending_delta) spending_delta = old_coins.
Proof.
  destruct sized_crate_laws as (Hsize & Hid & Hcb).
  exact (@delta_undo_roundtrip prefix_hashes simple_encoding sized_crate Hsize simple_encoding_laws Hcb toy_secp
    encoded_txids encoded_txids_laws mainnet_params spending_block sample_context old_coins spending_sources
    spending_prefetch (mkConfirmed spending_delta spending_prevouts)
    spending_ready old_coins_ok spending_bind spending_populate spending_prefetch_ok spending_confirm).
Defined.


Lemma first_ready : ready mainnet_params first_context first_block.
Proof.
  apply sample_ready; [vm_compute; split; congruence|vm_compute; split; congruence|reflexivity| | |].
  - constructor.
    + vm_compute. split; congruence.
    + split_and!; [vm_compute; congruence|reflexivity|]. repeat constructor; vm_compute; congruence.
    + repeat constructor; vm_compute; congruence.
    + vm_compute. congruence.
  - vm_compute. reflexivity.
  - vm_compute. reflexivity.
Qed.

Definition first_delta : BlockDelta :=
  mkBlockDelta 1 MAINNET_GENESIS_HASH [] [] [mkCoin (mkOutPoint (le_bytes 32 1) 0) (mkTxOut 5000000000 [x51]) 1 true].

Lemma first_reachable :
  @reachable prefix_hashes simple_encoding sized_crate toy_secp encoded_txids mainnet_params
    (mkChainState 1 (apply_delta ∅ first_delta) [first_delta]).
Proof.
  apply rtc_once. change first_delta with (delta (mkConfirmed first_delta [])).
  apply (@step_connect prefix_hashes simple_encoding sized_crate toy_secp encoded_txids mainnet_params 0 ∅ [] first_block first_context [] (mkPrefetch [] [])).
  - reflexivity.
  - exact first_ready.
  - vm_compute. reflexivity.
  - split.
    + intros tx tx' Htx Htx' _. apply list_elem_of_singleton in Htx, Htx'. by subst.
    + intros o c tx Hc. by rewrite lookup_empty in Hc.
  - vm_compute. reflexivity.
  - constructor; [constructor|constructor| |done]. intros _ c. split; [set_solver|].
    intros [_ Hc]. by rewrite lookup_empty in Hc.
  - vm_compute. reflexivity.
Qed.

Lemma supply_bounded_witness : total (apply_delta ∅ first_delta) <= 2099999997690000.
Proof.
  destruct sized_crate_laws as (Hsize & Hid & Hcb).
  apply (proj2 (@supply_bounded prefix_hashes simple_encoding sized_crate Hsize simple_encoding_laws Hcb toy_secp
    encoded_txids encoded_txids_laws mainnet_params (mkChainState 1 (apply_delta ∅ first_delta) [first_delta])
    mainnet_tabled_sized first_reachable)). reflexivity.
Defined.
