(* ===== verification/SkipList.v ===== *)
(** * SkipList: where skip pointers land, and how many steps a walk takes ([chain/tree.rs])

    A walk towards an ancestor only reads heights: from each height it goes to the
    landing of the skip pointer or one down.  This file has that arithmetic and the bound
    on the number of steps that the assertion in [HeaderTree::walk_back] states. *)
From S2P Require Import Prelude.

Definition invert_lowest_one (value : Z) : Z := Z.land value (wrapping_sub32 value 1).

Definition skip_height (height : Z) : Z :=
  if height <? 2 then 0
  else if height mod 2 =? 0 then invert_lowest_one height
  else saturating_add32 (invert_lowest_one (invert_lowest_one (saturating_sub height 1))) 1.

(** The condition of [skip_toward] on the heights: whether the skip pointer is followed. *)
Definition follows_skip (from target : Z) : bool :=
  let landing := skip_height from in
  let previous_landing := skip_height (saturating_sub from 1) in
  if landing =? target then true
  else
    let overshoots_less :=
      negb ((previous_landing <? saturating_sub landing 2) && (target <=? previous_landing)) in
    (target <? landing) && overshoots_less.

(** One step of the walk, on heights. *)
Definition walk_step (from target : Z) : Z :=
  if follows_skip from target then skip_height from else saturating_sub from 1.

(** The walk is at the target after at most [n] steps. *)
Inductive walks_within : nat -> Z -> Z -> Prop :=
| walks_done n h t : h <= t -> walks_within n h t
| walks_more n h t : t < h -> walks_within n (walk_step h t) t -> walks_within (S n) h t.

(** ** Clearing the lowest one *)

Fixpoint clear_pos (p : positive) : Z :=
  match p with
  | xO p => 2 * clear_pos p
  | xI p => 2 * Z.pos p
  | xH => 0
  end.
Definition clear (z : Z) : Z := match z with Zpos p => clear_pos p | _ => 0 end.

Fixpoint ones_pos (p : positive) : Z :=
  match p with xO p => ones_pos p | xI p => 1 + ones_pos p | xH => 1 end.
(** The number of ones of a number. *)
Definition ones (z : Z) : Z := match z with Zpos p => ones_pos p | _ => 0 end.

Lemma invert_clear v : 0 <= v < 2 ^ 32 -> invert_lowest_one v = clear v.
Proof.
  intros Hv. unfold invert_lowest_one, wrapping_sub32.
  destruct (decide (v = 0)) as [->|Hne]; [done|]. rewrite Z.mod_small by lia.
  destruct v as [|p|p]; try done; [|lia]. clear Hv Hne. cbn [clear].
  assert (forall p, Z.land (Z.pos p) (Z.pos p - 1) = clear_pos p) as Hp; [|apply Hp]. clear p.
  intros p. induction p as [p IH|p IH|]; cbn [clear_pos].
  - replace (Z.pos p~1 - 1) with (2 * Z.pos p) by lia.
    replace (Z.pos p~1) with (2 * Z.pos p + 1) by lia.
    apply Z.bits_inj'. intros i Hi. rewrite Z.land_spec.
    destruct (decide (i = 0)) as [->|]; [by rewrite Z.testbit_even_0, andb_false_r|].
    replace i with (Z.succ (i - 1)) by lia.
    rewrite Z.testbit_odd_succ, Z.testbit_even_succ by lia. apply andb_diag.
  - rewrite <-IH. replace (Z.pos p~0 - 1) with (2 * (Z.pos p - 1) + 1) by lia.
    replace (Z.pos p~0) with (2 * Z.pos p) by lia.
    apply Z.bits_inj'. intros i Hi. rewrite Z.land_spec.
    destruct (decide (i = 0)) as [->|]; [by rewrite !Z.testbit_even_0|].
    replace i with (Z.succ (i - 1)) by lia.
    by rewrite Z.testbit_odd_succ, !Z.testbit_even_succ, Z.land_spec by lia.
  - done.
Qed.

Lemma clear_double z : clear (2 * z) = 2 * clear z.
Proof. by destruct z. Qed.
Lemma clear_odd z : 0 <= z -> clear (2 * z + 1) = 2 * z.
Proof. destruct z as [|p|p]; try done; lia. Qed.
Lemma ones_double z : ones (2 * z) = ones z.
Proof. by destruct z. Qed.
Lemma ones_odd z : 0 <= z -> ones (2 * z + 1) = 1 + ones z.
Proof. destruct z as [|p|p]; try done; lia. Qed.

(** Induction on the binary digits of a number. *)
Lemma bits_ind (P : Z -> Prop) : P 0 -> (forall z, 0 < z -> P z -> P (2 * z)) ->
  (forall z, 0 <= z -> P z -> P (2 * z + 1)) -> forall z, 0 <= z -> P z.
Proof.
  intros H0 He Ho z Hz. destruct z as [|p|p]; [done| |lia]. clear Hz.
  induction p as [p IH|p IH|]; [apply (Ho (Z.pos p))|apply (He (Z.pos p))|apply (Ho 0)]; done || lia.
Qed.

Lemma clear_lt z : 0 < z -> 0 <= clear z < z.
Proof.
  intros Hz. revert z Hz. enough (forall z, 0 <= z -> 0 < z -> 0 <= clear z < z) by (intros; auto with lia).
  apply (bits_ind (fun z => 0 < z -> 0 <= clear z < z)).
  - lia.
  - intros z Hp IH. rewrite clear_double. lia.
  - intros z Hp IH. rewrite clear_odd by lia. lia.
Qed.

Lemma clear_nonneg z : 0 <= z -> 0 <= clear z <= z.
Proof. intros. destruct (decide (z = 0)) as [->|]; [done|]. pose proof (clear_lt z). lia. Qed.

Lemma ones_nonneg z : 0 <= ones z.
Proof. destruct z as [|p|p]; [done| |done]. cbn. induction p; cbn; lia. Qed.

Lemma ones_pos_iff z : 0 < z -> 0 < ones z.
Proof. destruct z as [|p|p]; [lia| |lia]. intros _. cbn. induction p; cbn; lia. Qed.

Lemma ones_clear z : 0 < z -> ones (clear z) = ones z - 1.
Proof.
  revert z. enough (forall z, 0 <= z -> 0 < z -> ones (clear z) = ones z - 1) by (intros; auto with lia).
  apply (bits_ind (fun z => 0 < z -> ones (clear z) = ones z - 1)).
  - lia.
  - intros z Hp IH _. rewrite clear_double, !ones_double. auto.
  - intros z Hp IH _. rewrite clear_odd, ones_double, ones_odd by lia. lia.
Qed.

Lemma ones_bound n z : 0 <= z < 2 ^ Z.of_nat n -> ones z <= Z.of_nat n.
Proof.
  revert z. induction n as [|n IH]; intros z Hz.
  - replace z with 0 by lia. done.
  - rewrite Nat2Z.inj_succ, Z.pow_succ_r in Hz by lia.
    pose proof (Z_div_mod_eq_full z 2). pose proof (Z.mod_pos_bound z 2).
    specialize (IH (z / 2)). rewrite (Z_div_mod_eq_full z 2).
    assert (z mod 2 = 0 \/ z mod 2 = 1) as [-> | ->] by lia; [rewrite Z.add_0_r, ones_double|rewrite ones_odd by dlia]; lia.
Qed.

(** The low part of a number alone is cleared while it is not zero. *)
Lemma clear_low n m r : 0 <= m -> 0 < r < 2 ^ Z.of_nat n ->
  clear (2 ^ Z.of_nat n * m + r) = 2 ^ Z.of_nat n * m + clear r.
Proof.
  revert r. induction n as [|n IH]; intros r Hm Hr; [cbn in Hr; lia|].
  rewrite Nat2Z.inj_succ, Z.pow_succ_r in * by lia.
  pose proof (Z_div_mod_eq_full r 2). assert (r mod 2 = 0 \/ r mod 2 = 1) as [H0|H0] by dlia.
  - replace (2 * 2 ^ Z.of_nat n * m + r) with (2 * (2 ^ Z.of_nat n * m + r / 2)) by lia.
    rewrite clear_double, IH by lia. rewrite H at 2. rewrite H0, Z.add_0_r, clear_double. lia.
  - replace (2 * 2 ^ Z.of_nat n * m + r) with (2 * (2 ^ Z.of_nat n * m + r / 2) + 1) by lia.
    rewrite clear_odd by nia. rewrite H at 2. rewrite H0, clear_odd by lia. lia.
Qed.

Lemma clear_high n m : clear (2 ^ Z.of_nat n * m) = 2 ^ Z.of_nat n * clear m.
Proof.
  induction n as [|n IH]; [by rewrite !Z.mul_1_l|].
  rewrite Nat2Z.inj_succ, Z.pow_succ_r by lia.
  rewrite <-!Z.mul_assoc, clear_double, IH. done.
Qed.

(** ** The landing of a skip pointer *)

Lemma skip_even h : 2 <= h < 2 ^ 32 -> h mod 2 = 0 -> skip_height h = clear h.
Proof.
  intros Hh He. unfold skip_height. rewrite (proj2 (Z.ltb_ge h 2)), He by lia.
  by rewrite invert_clear by lia.
Qed.

Lemma skip_odd h : 2 <= h < 2 ^ 32 -> h mod 2 = 1 -> skip_height h = clear (clear (h - 1)) + 1.
Proof.
  intros Hh He. unfold skip_height. rewrite (proj2 (Z.ltb_ge h 2)), He by lia. cbn [Z.eqb].
  unfold saturating_sub. rewrite Z.max_r by lia. pose proof (clear_lt (h - 1)).
  rewrite (invert_clear (h - 1)), invert_clear by lia.
  pose proof (clear_nonneg (clear (h - 1))). unfold saturating_add32, u32_max. lia.
Qed.

Lemma skip_below h : 0 < h < 2 ^ 32 -> 0 <= skip_height h < h.
Proof.
  intros Hh. destruct (decide (h < 2)).
  { unfold skip_height. rewrite (proj2 (Z.ltb_lt h 2)); lia. }
  pose proof (Z.mod_pos_bound h 2). destruct (decide (h mod 2 = 0)).
  - rewrite skip_even by lia. apply clear_lt. lia.
  - rewrite skip_odd by lia. pose proof (clear_lt (h - 1)).
    pose proof (clear_nonneg (clear (h - 1))). lia.
Qed.

Lemma walk_step_below h t : 0 <= t < h -> h < 2 ^ 32 -> t <= walk_step h t < h.
Proof.
  intros Ht Hh. pose proof (skip_below h). unfold walk_step.
  destruct (follows_skip h t) eqn:Hf; [|unfold saturating_sub; lia].
  unfold follows_skip in Hf. destruct (Z.eqb_spec (skip_height h) t); [lia|].
  destruct (Z.ltb_spec t (skip_height h)); [lia|done].
Qed.

Lemma walks_within_mono n m h t : (n <= m)%nat -> walks_within n h t -> walks_within m h t.
Proof.
  intros Hle Hw. revert m Hle. induction Hw as [n h t Hd|n h t Hlt _ IH]; intros m Hle.
  - by constructor.
  - destruct m as [|m]; [lia|]. apply walks_more; [done|]. apply IH. lia.
Qed.

(** One above the target, the walk takes one step. *)
Lemma walk_last t : 0 <= t < 2 ^ 32 - 1 -> walks_within 1 (t + 1) t.
Proof.
  intros Ht. apply walks_more; [lia|]. apply walks_done. pose proof (walk_step_below (t + 1) t). lia.
Qed.

Lemma walk_near n h t : 0 <= t < 2 ^ 32 - 1 -> h <= t + 1 -> walks_within (S n) h t.
Proof.
  intros Ht Hh. destruct (decide (h <= t)); [by apply walks_done|].
  replace h with (t + 1) by lia. eapply walks_within_mono; [|by apply walk_last]. lia.
Qed.

(** Two different numbers part at one bit. *)
Lemma parting k h t : 0 <= t < h -> h < 2 ^ Z.of_nat k -> exists n P r s, (n < k)%nat /\ 0 <= P /\
  0 <= r < 2 ^ Z.of_nat n /\ 0 <= s < 2 ^ Z.of_nat n /\
  h = 2 ^ Z.of_nat n * (2 * P + 1) + r /\ t = 2 ^ Z.of_nat n * (2 * P) + s.
Proof.
  revert h t. induction k as [|k IH]; intros h t Ht Hh; [cbn in Hh; lia|].
  rewrite Nat2Z.inj_succ, Z.pow_succ_r in Hh by lia.
  destruct (decide (h / 2 = t / 2)) as [Heq|Hne].
  - exists O, (t / 2), 0, 0. cbn. split_and!; try lia; dlia.
  - destruct (IH (h / 2) (t / 2)) as (n & P & r & s & Hn & HP & Hr & Hs & Hh2 & Ht2); [dlia..|].
    exists (S n), P, (2 * r + h mod 2), (2 * s + t mod 2).
    rewrite Nat2Z.inj_succ, Z.pow_succ_r by lia.
    pose proof (Z_div_mod_eq_full h 2). pose proof (Z_div_mod_eq_full t 2).
    pose proof (Z.mod_pos_bound h 2). pose proof (Z.mod_pos_bound t 2).
    split_and!; lia.
Qed.

(** Above the parting bit a double clearing stays on the near side, or ends one above the
    target at most. *)
Lemma clear_twice n P q s : 0 <= P -> 0 <= q < 2 ^ Z.of_nat n -> 0 <= s ->
  let x := 2 ^ Z.of_nat n * (2 * P + 1) + q in let t := 2 ^ Z.of_nat n * (2 * P) + s in
  clear (clear x) <= t \/
  2 <= ones q /\ clear (clear x) = 2 ^ Z.of_nat n * (2 * P + 1) + clear (clear q).
Proof.
  intros HP Hq Hs x t. assert (Hpow : 0 < 2 ^ Z.of_nat n) by lia.
  assert (Hbase : clear (2 ^ Z.of_nat n * (2 * P + 1)) = 2 ^ Z.of_nat n * (2 * P))
    by (rewrite clear_high, clear_odd; lia).
  destruct (decide (q = 0)) as [->|].
  { left. unfold x. rewrite Z.add_0_r, Hbase. pose proof (clear_nonneg (2 ^ Z.of_nat n * (2 * P))). nia. }
  pose proof (clear_lt q ltac:(lia)). pose proof (ones_clear q ltac:(lia)).
  unfold x. rewrite clear_low by lia. destruct (decide (clear q = 0)) as [->|].
  { left. rewrite Z.add_0_r, Hbase. lia. }
  right. pose proof (ones_pos_iff (clear q) ltac:(lia)). split; [lia|]. apply clear_low; lia.
Qed.

(** When a parent is preferred on the near side, two clearings of the number below it do
    not gain ones. *)
Lemma ones_below q : 0 < q -> clear (2 * q) - 2 <= clear (clear (2 * q - 2)) + 1 \/ ones (2 * q - 2) <= ones (2 * q).
Proof.
  intros Hq. replace (2 * q - 2) with (2 * (q - 1)) by lia. rewrite !ones_double.
  assert (q = 2 * (q / 2) + 1 \/ q = 2 * (2 * (q / 4) + 1) \/ q = 2 * (2 * (q / 4))) as [H|[H|H]] by dlia; rewrite H; clear H.
  - right. replace (2 * (q / 2) + 1 - 1) with (2 * (q / 2)) by lia. rewrite ones_double, ones_odd; dlia.
  - right. replace (2 * (2 * (q / 4) + 1) - 1) with (2 * (2 * (q / 4)) + 1) by lia.
    rewrite ones_odd, !ones_double, ones_odd; dlia.
  - left. set (w := q / 4) in *. assert (0 <= w) by (unfold w; dlia).
    rewrite !clear_double. destruct (decide (w = 0)) as [->|]; [done|].
    replace (2 * (2 * w) - 1) with (2 * (2 * (w - 1) + 1) + 1) by lia.
    rewrite clear_odd, !clear_double, clear_odd by lia. pose proof (clear_lt w). lia.
Qed.

(** ** The number of steps

    [n] is the bit where the walk and its target part and [r] what the walk has below it:
    every step clears ones of [r] or makes [n] smaller. *)
Definition budget (n : nat) (r : Z) : nat := (n * n + 2 * Z.to_nat (ones r))%nat.

Section steps.
Context (n : nat) (P r s : Z) (HP : 0 <= P) (Hr : 0 <= r < 2 ^ Z.of_nat (S n))
  (Hs : 0 <= s < 2 ^ Z.of_nat (S n)).
Let base : Z := 2 ^ Z.of_nat (S n) * (2 * P + 1).
Let t : Z := 2 ^ Z.of_nat (S n) * (2 * P) + s.
Context (Hmax : base + r < 2 ^ 32).
(** What holds of the smaller walks. *)
Context (IH : forall r', 0 <= r' < 2 ^ Z.of_nat (S n) -> base + r' < base + r ->
  walks_within (S (budget (S n) r')) (base + r') t).

Local Lemma base_even : base mod 2 = 0 /\ 2 <= base /\ 0 <= t < base.
Proof.
  clear IH. unfold base, t in *. rewrite Nat2Z.inj_succ, Z.pow_succ_r in * by lia.
  assert (0 < 2 ^ Z.of_nat n) by lia. split; [|nia].
  by rewrite <-Z.mul_assoc, Z.mul_comm, Z.mod_mul.
Qed.

Local Lemma parity q : (base + q) mod 2 = q mod 2.
Proof. destruct base_even as [Hb _]. rewrite Z.add_mod, Hb, Z.add_0_l, Zmod_mod by lia. done. Qed.

(** A skip from an odd height leads within budget. *)
Local Lemma skip_budget q : 0 <= q < r -> q mod 2 = 0 ->
  (clear (clear (base + q)) = base + clear (clear q) -> ones q <= ones r) ->
  walks_within (budget (S n) r - 1) (clear (clear (base + q)) + 1) t.
Proof.
  intros Hq He Ho. destruct base_even as (_ & _ & Ht).
  assert (Hor : 1 <= ones r) by (pose proof (ones_pos_iff r); lia).
  assert (Hbud : (2 <= budget (S n) r)%nat) by (unfold budget; lia).
  destruct (clear_twice (S n) P q s) as [Hc|[Ho2 Hc]]; [lia..| |]; fold base t in Hc.
  { replace (budget (S n) r - 1)%nat with (S (budget (S n) r - 2)) by lia. apply walk_near; lia. }
  specialize (Ho Hc). rewrite Hc, <-Z.add_assoc. set (r' := clear (clear q) + 1).
  pose proof (ones_pos_iff q). assert (0 < q) by (destruct (decide (q = 0)) as [->|]; [done|lia]).
  pose proof (clear_lt q ltac:(lia)). pose proof (ones_clear q ltac:(lia)) as Ho1.
  assert (0 < clear q) by (destruct (decide (clear q = 0)) as [Hz0|]; [rewrite Hz0 in Ho1; cbn in Ho1; lia|lia]).
  pose proof (clear_lt (clear q) ltac:(lia)). pose proof (ones_clear (clear q) ltac:(lia)) as Ho3.
  assert (Hr' : ones r' = ones q - 1).
  { unfold r'. rewrite (Z_div_mod_eq_full q 2), He, Z.add_0_r, !clear_double.
    pose proof (clear_nonneg (q / 2)). pose proof (clear_nonneg (clear (q / 2))).
    rewrite ones_odd by dlia. rewrite <-(ones_double (clear _)), <-!clear_double.
    replace (2 * (q / 2)) with q by dlia. lia. }
  eapply walks_within_mono; [|apply IH; lia]. unfold budget. lia.
Qed.

Local Lemma odd_step : r mod 2 = 1 -> walks_within (S (budget (S n) r)) (base + r) t.
Proof.
  intros Hodd. destruct base_even as (_ & Hb & Ht).
  assert (0 < r) by (destruct (decide (r = 0)) as [->|]; [done|lia]).
  assert (Ho : ones r = ones (r - 1) + 1).
  { rewrite (Z_div_mod_eq_full r 2), Hodd, ones_odd by dlia.
    replace (2 * (r / 2) + 1 - 1) with (2 * (r / 2)) by lia. rewrite ones_double. lia. }
  assert (Hbud : (2 <= budget (S n) r)%nat) by (unfold budget; pose proof (ones_nonneg (r - 1)); lia).
  apply walks_more; [lia|]. unfold walk_step. destruct (follows_skip _ _).
  - rewrite skip_odd by (rewrite ?parity; lia).
    replace (base + r - 1) with (base + (r - 1)) by lia.
    eapply walks_within_mono; [|apply skip_budget]; try lia. dlia.
  - unfold saturating_sub. replace (Z.max 0 (base + r - 1)) with (base + (r - 1)) by lia.
    eapply walks_within_mono; [|apply IH; lia]. unfold budget. rewrite Ho.
    pose proof (ones_nonneg (r - 1)). lia.
Qed.

Local Lemma even_step : 0 < r -> r mod 2 = 0 -> walks_within (S (budget (S n) r)) (base + r) t.
Proof.
  intros Hpos Heven. destruct base_even as (_ & Hb & Ht).
  assert (2 <= r) by (destruct (decide (r = 1)) as [->|]; [done|lia]).
  pose proof (ones_pos_iff r Hpos) as Hor. pose proof (clear_lt r Hpos) as Hcl.
  assert (Hskip : skip_height (base + r) = base + clear r).
  { rewrite skip_even by (rewrite ?parity; lia). apply clear_low; lia. }
  apply walks_more; [lia|]. unfold walk_step, follows_skip. rewrite Hskip.
  rewrite (proj2 (Z.eqb_neq (base + clear r) t)), (proj2 (Z.ltb_lt t (base + clear r))) by lia.
  unfold saturating_sub. rewrite !Z.max_r by lia.
  assert (Hprev : skip_height (base + r - 1) = clear (clear (base + (r - 2))) + 1).
  { replace (base + r - 1) with (base + (r - 1)) by lia.
    rewrite skip_odd by (rewrite ?parity; dlia || lia). do 3 f_equal. lia. }
  rewrite Hprev. destruct (Z.ltb_spec (clear (clear (base + (r - 2))) + 1) (base + clear r - 2)) as [Hlt|];
    [destruct (Z.leb_spec t (clear (clear (base + (r - 2))) + 1)) as [Hle|]|]; cbn [andb negb].
  - (* the parent, whose skip pointer is followed next *)
    assert (Hstep : walk_step (base + r - 1) t = clear (clear (base + (r - 2))) + 1).
    { unfold walk_step, follows_skip. rewrite Hprev.
      destruct (Z.eqb_spec (clear (clear (base + (r - 2))) + 1) t); [done|].
      unfold saturating_sub. rewrite (Z.max_r 0 (base + r - 1 - 1)) by lia.
      replace (base + r - 1 - 1) with (base + (r - 2)) by lia.
      rewrite (skip_even (base + (r - 2))) by (rewrite ?parity; dlia || lia).
      pose proof (clear_nonneg (clear (base + (r - 2)))). pose proof (clear_nonneg (base + (r - 2))).
      rewrite (proj2 (Z.ltb_ge (clear (base + (r - 2))) _)) by lia.
      by rewrite (proj2 (Z.ltb_lt t _)) by lia. }
    assert (Hbud : (2 <= budget (S n) r)%nat) by (unfold budget; lia).
    replace (budget (S n) r) with (S (budget (S n) r - 1)) by lia.
    apply walks_more; [lia|]. rewrite Hstep. apply skip_budget; [lia|dlia|].
    intros Hc. destruct (ones_below (r / 2)) as [Hk|Ho]; [dlia|
      replace (2 * (r / 2)) with r in Hk by dlia; lia|by replace (2 * (r / 2)) with r in Ho by dlia].
  - eapply walks_within_mono; [|apply IH; lia]. unfold budget. rewrite ones_clear by lia. lia.
  - eapply walks_within_mono; [|apply IH; lia]. unfold budget. rewrite ones_clear by lia. lia.
Qed.
End steps.

(** At the parting bit itself the walk goes below it. *)
Lemma parting_step n P s : 0 <= P -> 0 <= s < 2 ^ Z.of_nat (S n) ->
  let base := 2 ^ Z.of_nat (S n) * (2 * P + 1) in let t := 2 ^ Z.of_nat (S n) * (2 * P) + s in
  base < 2 ^ 32 ->
  (forall m P' r' s', (m <= n)%nat -> 0 <= P' -> 0 <= r' < 2 ^ Z.of_nat m ->
    0 <= s' < 2 ^ Z.of_nat m -> 2 ^ Z.of_nat m * (2 * P' + 1) + r' < base ->
    walks_within (S (budget m r')) (2 ^ Z.of_nat m * (2 * P' + 1) + r')
      (2 ^ Z.of_nat m * (2 * P') + s')) ->
  walks_within (S (budget (S n) 0)) base t.
Proof.
  intros HP Hs base t Hmax IH. set (w := 2 ^ Z.of_nat (S n)) in *. assert (Hw : 0 < w) by lia.
  assert (Hpow : w = 2 * 2 ^ Z.of_nat n) by (unfold w; rewrite Nat2Z.inj_succ, Z.pow_succ_r by lia; done).
  assert (Hskip : skip_height base = w * (2 * P)).
  { rewrite skip_even; [unfold base, w; rewrite clear_high, clear_odd; lia|unfold base; nia|].
    unfold base. by rewrite Hpow, <-Z.mul_assoc, Z.mul_comm, Z.mod_mul. }
  apply walks_more; [unfold base, t; lia|]. unfold walk_step, follows_skip. rewrite Hskip.
  destruct (Z.eqb_spec (w * (2 * P)) t) as [Heq|Hne]; [apply walks_done; lia|].
  rewrite (proj2 (Z.ltb_ge t _)) by (unfold t; lia). cbn [andb].
  unfold saturating_sub. rewrite Z.max_r by (unfold base; nia).
  destruct (decide (s = w - 1)) as [->|]; [apply walks_done; unfold base, t; lia|].
  destruct (parting (S n) (w - 1) s) as (m & P' & r' & s' & Hm & HP' & Hr' & Hs' & Hh & Ht); [lia..|].
  assert (Hsplit : w * (2 * P) = 2 ^ Z.of_nat m * (2 * (2 ^ Z.of_nat (n - m) * (2 * P)))).
  { unfold w. replace (Z.of_nat (S n)) with (Z.of_nat m + (Z.of_nat (n - m) + 1)) by lia.
    rewrite !Z.pow_add_r by lia. lia. }
  assert (Hb1 : base - 1 = 2 ^ Z.of_nat m * (2 * (P' + 2 ^ Z.of_nat (n - m) * (2 * P)) + 1) + r')
    by (unfold base; lia).
  assert (Ht1 : t = 2 ^ Z.of_nat m * (2 * (P' + 2 ^ Z.of_nat (n - m) * (2 * P))) + s')
    by (unfold t; lia).
  rewrite Hb1, Ht1. eapply walks_within_mono; [|apply IH; try lia; nia].
  pose proof (ones_bound m r' ltac:(lia)). unfold budget. cbn [ones]. nia.
Qed.

Lemma walks_budget n P r s : 0 <= P -> 0 <= r < 2 ^ Z.of_nat n -> 0 <= s < 2 ^ Z.of_nat n ->
  2 ^ Z.of_nat n * (2 * P + 1) + r < 2 ^ 32 ->
  walks_within (S (budget n r)) (2 ^ Z.of_nat n * (2 * P + 1) + r) (2 ^ Z.of_nat n * (2 * P) + s).
Proof.
  remember (2 ^ Z.of_nat n * (2 * P + 1) + r) as h eqn:Hh. revert n P r s Hh.
  assert (Hind : forall k : nat, forall h, 0 <= h < Z.of_nat k -> forall n P r s,
    h = 2 ^ Z.of_nat n * (2 * P + 1) + r -> 0 <= P -> 0 <= r < 2 ^ Z.of_nat n ->
    0 <= s < 2 ^ Z.of_nat n -> h < 2 ^ 32 ->
    walks_within (S (budget n r)) h (2 ^ Z.of_nat n * (2 * P) + s)).
  { clear h. intros k. induction k as [|k IH]; [lia|].
    intros h Hhk n P r s -> HP Hr Hs Hmax. destruct n as [|n].
    { cbn in Hr, Hs. replace r with 0 by lia. replace s with 0 by lia. apply walk_near; lia. }
    destruct (decide (r = 0)) as [->|].
    { rewrite Z.add_0_r. apply parting_step; [done..|lia|].
      intros m P' r' s' Hm HP' Hr' Hs' Hlt. apply IH; nia. }
    assert (Hsub : forall r', 0 <= r' < 2 ^ Z.of_nat (S n) ->
      2 ^ Z.of_nat (S n) * (2 * P + 1) + r' < 2 ^ Z.of_nat (S n) * (2 * P + 1) + r ->
      walks_within (S (budget (S n) r')) (2 ^ Z.of_nat (S n) * (2 * P + 1) + r')
        (2 ^ Z.of_nat (S n) * (2 * P) + s)).
    { intros r' Hr' Hlt. apply IH; try done; nia. }
    pose proof (Z.mod_pos_bound r 2). destruct (decide (r mod 2 = 0)).
    - apply even_step; done || lia.
    - apply odd_step; done || lia. }
  intros n P r s Hh HP Hr Hs Hmax. apply (Hind (Z.to_nat (h + 1))); try done; nia.
Qed.

(** A walk between heights below [2^k] takes at most [k^2] steps. *)
Lemma walks_square k h t : (k <= 32)%nat -> 0 <= t < h -> h < 2 ^ Z.of_nat k -> walks_within (k * k) h t.
Proof.
  intros Hk Ht Hh. destruct (parting k h t Ht Hh) as (n & P & r & s & Hn & HP & Hr & Hs & -> & ->).
  pose proof (Z.pow_le_mono_r 2 (Z.of_nat k) 32).
  eapply walks_within_mono; [|apply walks_budget; lia].
  pose proof (ones_bound n r Hr). unfold budget. nia.
Qed.
