(* ===== verification/Queue.v ===== *)
(** * Queue: the two bounded queues between the threads ([runtime/queue.rs]) *)
From S2P Require Import Prelude Uint Target Bitcoin Flags Params Header.

Record BlockLocation := mkBlockLocation { bl_file : Z; bl_offset : Z; bl_len : Z }.

Inductive JobKind := JConnect | JDisconnect.

Record ConnectJob := mkConnectJob {
  job_kind : JobKind;
  job_hash : bytes;
  job_context : Context;
  job_location : BlockLocation;
}.

Definition job_height (self : ConnectJob) : Z := ctx_height (job_context self).
