(* ===== verification/Tree.v ===== *)
(** * Tree: the header tree ([chain/tree.rs])

    The arena is a list of entries addressed by position, as the [Vec] is; the hash index
    is a finite map.  Every method that takes [&mut self] returns the new tree. *)
From S2P Require Import Prelude Uint Target Bitcoin Flags Params Header Verify Tx Signet Block Coins SkipList Queue.

Definition MAX_TREE_HEADERS : Z := 2 * 1024 * 1024.
Definition MAX_ANCESTOR_STEPS : Z := 512.

(** [NodeId]: a [u32] position. *)
Module NodeId.
Definition GENESIS : Z := 0.

Definition at_ {E} (position : Z) : outcome E Z := expect (try_from u32_max position).
End NodeId.

Record UndoLocation := mkUndoLocation { ul_file : Z; ul_offset : Z; ul_len : Z }.

Module Stage.
Inductive Stage := AcceptHeader | CheckBlock | AcceptBlock | Confirm | Connect.

Definition tag (self : Stage) : Z :=
  match self with
  | AcceptHeader => 1
  | CheckBlock => 2
  | AcceptBlock => 3
  | Confirm => 4
  | Connect => 5
  end.

Definition of_tag (tag : Z) : option Stage :=
  if tag =? 1 then Some AcceptHeader
  else if tag =? 2 then Some CheckBlock
  else if tag =? 3 then Some AcceptBlock
  else if tag =? 4 then Some Confirm
  else if tag =? 5 then Some Connect
  else None.
End Stage.

Module Invalidity.
Inductive Invalidity :=
| AcceptHeader (e : HeaderError)
| CheckBlock (e : BlockError)
| AcceptBlock (e : BlockError)
| Confirm (e : ConfirmError)
| Connect (e : ConnectError)
| Reloaded (stage : Stage.Stage).

Definition stage (self : Invalidity) : Stage.Stage :=
  match self with
  | AcceptHeader _ => Stage.AcceptHeader
  | CheckBlock _ => Stage.CheckBlock
  | AcceptBlock _ => Stage.AcceptBlock
  | Confirm _ => Stage.Confirm
  | Connect _ => Stage.Connect
  | Reloaded stage => stage
  end.
End Invalidity.
Notation Invalidity := Invalidity.Invalidity.

Module HeaderStatus.
Inductive HeaderStatus :=
| Genesis
| HeaderAccepted
| BlockChecked (location : BlockLocation)
| Connected (location : BlockLocation) (undo : UndoLocation)
| Invalid (invalidity : Invalidity)
| InvalidAncestor (culprit : bytes).

Definition is_terminal (self : HeaderStatus) : bool :=
  match self with Invalid _ | InvalidAncestor _ => true | _ => false end.

Definition location (self : HeaderStatus) : option BlockLocation :=
  match self with
  | BlockChecked location | Connected location _ => Some location
  | _ => None
  end.

Definition is_connected (self : HeaderStatus) : bool :=
  match self with Genesis | Connected _ _ => true | _ => false end.
End HeaderStatus.
Notation HeaderStatus := HeaderStatus.HeaderStatus.

Record HeaderEntry := mkEntry {
  e_header : Header;
  e_hash : bytes;
  e_height : Z;
  e_chainwork : Work;
  e_parent : option Z;
  e_skip : option Z;
  e_status : HeaderStatus;
  e_dirty : bool;
}.

Definition with_status (status : HeaderStatus) (e : HeaderEntry) : HeaderEntry :=
  mkEntry (e_header e) (e_hash e) (e_height e) (e_chainwork e) (e_parent e) (e_skip e) status (e_dirty e).
Definition with_dirty (dirty : bool) (e : HeaderEntry) : HeaderEntry :=
  mkEntry (e_header e) (e_hash e) (e_height e) (e_chainwork e) (e_parent e) (e_skip e) (e_status e) dirty.

Module AcceptError.
Inductive AcceptError :=
| CheckHeader (e : HeaderError)
| UnknownParent (previous : bytes)
| Invalid (node : Z) (invalidity : Invalidity)
| InvalidAncestor (node : Z) (culprit : bytes)
| TooFarInFuture (time limit : Z)
| TreeFull.

Definition peer_fault (self : AcceptError) : option HeaderError :=
  match self with
  | CheckHeader error | Invalid _ (Invalidity.AcceptHeader error) => Some error
  | Invalid _ _ | UnknownParent _ | InvalidAncestor _ _ | TooFarInFuture _ _ | TreeFull => None
  end.
End AcceptError.
Notation AcceptError := AcceptError.AcceptError.

Inductive Accepted :=
| First (node : Z) (context : Context)
| Duplicate (node : Z).

Definition accepted_node (self : Accepted) : Z :=
  match self with First node _ | Duplicate node => node end.

Record HeaderTree := mkTree {
  t_entries : list HeaderEntry;
  t_index : gmap bytes Z;
  t_tip : Z;
  t_best_header : Z;
  t_dirty : list Z;
  t_period : list HeaderFacts;
  t_cap : Z;
}.

(** Updates of one field. *)
Definition with_entries (t : HeaderTree) (entries : list HeaderEntry) : HeaderTree :=
  mkTree entries (t_index t) (t_tip t) (t_best_header t) (t_dirty t) (t_period t) (t_cap t).
Definition with_tip (t : HeaderTree) (tip : Z) : HeaderTree :=
  mkTree (t_entries t) (t_index t) tip (t_best_header t) (t_dirty t) (t_period t) (t_cap t).
Definition with_best (t : HeaderTree) (best : Z) : HeaderTree :=
  mkTree (t_entries t) (t_index t) (t_tip t) best (t_dirty t) (t_period t) (t_cap t).
Definition with_dirties (t : HeaderTree) (dirty : list Z) : HeaderTree :=
  mkTree (t_entries t) (t_index t) (t_tip t) (t_best_header t) dirty (t_period t) (t_cap t).
Definition with_period (t : HeaderTree) (period : list HeaderFacts) : HeaderTree :=
  mkTree (t_entries t) (t_index t) (t_tip t) (t_best_header t) (t_dirty t) period (t_cap t).

(** The loop of [add_work] over the bytes of both numbers, last byte first. *)
Fixpoint add_le_bytes (carry : Z) (ls rs : bytes) : bytes * Z :=
  match ls, rs with
  | l :: ls, r :: rs =>
      let value := bz l + bz r + carry in
      let '(sum, carry) := add_le_bytes (Z.shiftr value 8) ls rs in
      (zb (Z.land value 0xFF) :: sum, carry)
  | _, _ => ([], carry)
  end.

Definition add_work {E} (total block : Work) : outcome E Work :=
  let '(sum, carry) := add_le_bytes 0 (reverse (work_be_bytes total)) (reverse (work_be_bytes block)) in
  assert_ (carry =? 0);;
  Ok (mkWork (reverse sum)).

(** [Work]'s [Ord]. *)
Definition work_gt (a b : Work) : bool := work_val b <? work_val a.

Definition future_limit (now : Z) : Z := saturating_add32 now MAX_FUTURE_BLOCK_TIME.

(** ** Reading the tree *)

Section tree.
Context `{BitcoinCrate} {E : Type}.

Definition with_cap (params : ChainParams) (cap : Z) : outcome E HeaderTree :=
  assert_ ((0 <? cap) && (cap <=? MAX_TREE_HEADERS));;
  let header := blk_header (genesis params) in
  let hash := block_hash header in
  assert_ (bool_decide (hash = block_hash (blk_header (genesis params))));;
  interval ← difficulty_adjustment_interval params;
  work ← block_work (hdr_bits header);
  Ok (mkTree [mkEntry header hash Height.GENESIS work None None HeaderStatus.Genesis false]
        {[hash := NodeId.GENESIS]} NodeId.GENESIS NodeId.GENESIS [] [] cap).

Definition new_tree (params : ChainParams) : outcome E HeaderTree :=
  with_cap params MAX_TREE_HEADERS.

Definition tree_len (self : HeaderTree) : Z := len (t_entries self).

Definition node_of (self : HeaderTree) (hash : bytes) : option Z := t_index self !! hash.

Definition entry (self : HeaderTree) (node : Z) : outcome E HeaderEntry :=
  expect (get (t_entries self) node).

Definition is_active (self : HeaderTree) (node : Z) : outcome E bool :=
  e ← entry self node; Ok (HeaderStatus.is_connected (e_status e)).

Definition skip_toward (e : HeaderEntry) (from target : Z) : option Z :=
  match e_skip e with
  | Some skip => if follows_skip from target then Some skip else None
  | None => None
  end.

(** The loop of [walk_back]: [steps] is what [MAX_ANCESTOR_STEPS] leaves. *)
Fixpoint walk_loop (self : HeaderTree) (steps : nat) (walk walk_height height : Z) : outcome E Z :=
  if height <? walk_height then
    match steps with
    | O => Panic
    | S steps =>
        e ← entry self walk;
        match skip_toward e walk_height height with
        | Some skip =>
            h ← Height.new (skip_height walk_height);
            walk_loop self steps skip h height
        | None =>
            parent ← expect (e_parent e);
            h ← Height.new (saturating_sub walk_height 1);
            walk_loop self steps parent h height
        end
    end
  else Ok walk.

Definition walk_back (self : HeaderTree) (node height : Z) : outcome E Z :=
  e ← entry self node;
  walk_loop self (Z.to_nat MAX_ANCESTOR_STEPS) node (e_height e) height.

Definition ancestor (self : HeaderTree) (node height : Z) : outcome E (option Z) :=
  e ← entry self node;
  if e_height e <? height then Ok None
  else walk ← walk_back self node height; Ok (Some walk).

Definition culprit (self : HeaderTree) (node : Z) : outcome E (option bytes) :=
  e ← entry self node;
  Ok (match e_status e with
      | HeaderStatus.Invalid _ => Some (e_hash e)
      | HeaderStatus.InvalidAncestor culprit => Some culprit
      | _ => None
      end).

(** ** The context of a block *)

(** The loop of [median_time_past_at]: at most [span] timestamps, walking back. *)
Fixpoint times_back (self : HeaderTree) (span : nat) (walk : option Z) : outcome E (list Z) :=
  match span, walk with
  | S span, Some current =>
      e ← entry self current;
      times ← times_back self span (e_parent e);
      Ok (hdr_time (e_header e) :: times)
  | _, _ => Ok []
  end.

Definition median_time_past_at (self : HeaderTree) (node : Z) : outcome E Z :=
  times ← times_back self (Z.to_nat MEDIAN_TIME_SPAN) (Some node);
  median_time_past times.

(** The loop of [required_bits_after]: [count] headers, walking back. *)
Fixpoint period_back (self : HeaderTree) (count : nat) (walk : Z) : outcome E (list HeaderFacts) :=
  match count with
  | O => Ok []
  | S count =>
      e ← entry self walk;
      let facts := from_header (e_height e) (e_header e) in
      match e_parent e with
      | Some above => period ← period_back self count above; Ok (facts :: period)
      | None => Ok [facts]
      end
  end.

Definition required_bits_after (self : HeaderTree) (parent new_time : Z) (params : ChainParams)
    : outcome E (HeaderTree * Z) :=
  interval ← difficulty_adjustment_interval params;
  e ← entry self parent;
  let steps := e_height e mod interval in
  walked ← period_back self (Z.to_nat (steps + 1)) parent;
  let period := reverse walked in
  bits ← next_required_bits params period new_time;
  Ok (with_period self period, bits).

Definition bip34_ancestor (self : HeaderTree) (parent height : Z) (params : ChainParams)
    : outcome E (option bytes) :=
  let bip34 := bip34_height (buried_bip34 (buried params)) in
  if height <=? bip34 then Ok None
  else
    found ← ancestor self parent bip34;
    node ← expect found;
    e ← entry self node;
    Ok (Some (e_hash e)).

Definition context_for (self : HeaderTree) (parent : Z) (hash : bytes) (header : Header)
    (params : ChainParams) : outcome E (HeaderTree * Context) :=
  e ← entry self parent;
  height ← Height.next (e_height e);
  let previous_time := hdr_time (e_header e) in
  median ← median_time_past_at self parent;
  '(self, required_bits) ← required_bits_after self parent (hdr_time header) params;
  bip34 ← bip34_ancestor self parent height params;
  rules ← rules_at params height hash bip34;
  context ← new_context height median previous_time required_bits rules;
  Ok (self, context).

Definition context_of (self : HeaderTree) (node : Z) (params : ChainParams)
    : outcome E (HeaderTree * Context) :=
  e ← entry self node;
  parent ← expect (e_parent e);
  context_for self parent (e_hash e) (e_header e) params.

(** ** Placing a header *)

Definition insert (self : HeaderTree) (header : Header) (hash : bytes) (parent : Z)
    (status : HeaderStatus) : outcome E (HeaderTree * (AcceptError + Z)) :=
  if t_cap self <=? len (t_entries self) then Ok (self, inl AcceptError.TreeFull)
  else
    above ← entry self parent;
    height ← Height.next (e_height above);
    work ← block_work (hdr_bits header);
    chainwork ← add_work (e_chainwork above) work;
    target ← Height.new (skip_height height);
    skip ← ancestor self parent target;
    assert_ (bool_decide (is_Some skip));;
    node ← NodeId.at_ (len (t_entries self));
    let entries := t_entries self ++
      [mkEntry header hash height chainwork (Some parent) skip status true] in
    assert_ (bool_decide (t_index self !! hash = None));;
    let self := mkTree entries (<[hash := node]> (t_index self)) (t_tip self) (t_best_header self)
                  (t_dirty self ++ [node]) (t_period self) (t_cap self) in
    best ← entry self (t_best_header self);
    let self := if negb (HeaderStatus.is_terminal status) && work_gt chainwork (e_chainwork best)
                then with_best self node else self in
    Ok (self, inr node).

(** [accept], from the parent on. *)
Definition accept_under (self : HeaderTree) (header : Header) (hash : bytes) (parent : Z)
    (params : ChainParams) (now : Z) : outcome E (HeaderTree * (AcceptError + Accepted)) :=
  culprit ← culprit self parent;
  match culprit with
  | Some culprit =>
      '(self, node) ← insert self header hash parent (HeaderStatus.InvalidAncestor culprit);
      Ok (self, match node with
                | inl error => inl error
                | inr node => inl (AcceptError.InvalidAncestor node culprit)
                end)
  | None =>
      '(self, context) ← context_for self parent hash header params;
      match accept_header header params context with
      | Panic => Panic
      | Err error =>
          let invalidity := Invalidity.AcceptHeader error in
          '(self, node) ← insert self header hash parent (HeaderStatus.Invalid invalidity);
          Ok (self, match node with
                    | inl error => inl error
                    | inr node => inl (AcceptError.Invalid node invalidity)
                    end)
      | Ok _ =>
          let limit := future_limit now in
          let time := hdr_time header in
          if limit <? time then Ok (self, inl (AcceptError.TooFarInFuture time limit))
          else
            '(self, node) ← insert self header hash parent HeaderStatus.HeaderAccepted;
            Ok (self, match node with
                      | inl error => inl error
                      | inr node => inr (First node context)
                      end)
      end
  end.

Definition accept (self : HeaderTree) (header : Header) (params : ChainParams) (now : Z)
    : outcome E (HeaderTree * (AcceptError + Accepted)) :=
  let hash := block_hash header in
  match node_of self hash with
  | Some node => Ok (self, inr (Duplicate node))
  | None =>
      match check_header header params with
      | Panic => Panic
      | Err e => Ok (self, inl (AcceptError.CheckHeader e))
      | Ok _ =>
          let previous := hdr_prev_blockhash header in
          match node_of self previous with
          | None => Ok (self, inl (AcceptError.UnknownParent previous))
          | Some parent => accept_under self header hash parent params now
          end
      end
  end.

(** ** The life of a block *)

(** [entry_mut] and an assignment. *)
Definition update_entry (self : HeaderTree) (node : Z) (f : HeaderEntry -> HeaderEntry)
    : outcome E HeaderTree :=
  e ← entry self node;
  Ok (with_entries self (<[Z.to_nat node := f e]> (t_entries self))).

Definition mark_dirty (self : HeaderTree) (node : Z) : outcome E HeaderTree :=
  e ← entry self node;
  if e_dirty e then Ok self
  else
    self ← update_entry self node (with_dirty true);
    let self := with_dirties self (t_dirty self ++ [node]) in
    assert_ (len (t_dirty self) <=? len (t_entries self));;
    Ok self.

Definition block_checked (self : HeaderTree) (node : Z) (location : BlockLocation)
    : outcome E HeaderTree :=
  e ← entry self node;
  assert_ (match e_status e with HeaderStatus.HeaderAccepted => true | _ => false end);;
  self ← update_entry self node (with_status (HeaderStatus.BlockChecked location));
  mark_dirty self node.

Definition connected (self : HeaderTree) (node : Z) (undo : UndoLocation) : outcome E HeaderTree :=
  e ← entry self node;
  assert_ (bool_decide (e_parent e = Some (t_tip self)));;
  match e_status e with
  | HeaderStatus.BlockChecked location =>
      self ← update_entry self node (with_status (HeaderStatus.Connected location undo));
      self ← mark_dirty self node;
      Ok (with_tip self node)
  | _ => Panic
  end.

Definition disconnected (self : HeaderTree) (node : Z) : outcome E HeaderTree :=
  assert_ (node =? t_tip self);;
  e ← entry self node;
  match e_status e with
  | HeaderStatus.Connected location _ =>
      parent ← expect (e_parent e);
      self ← update_entry self node (with_status (HeaderStatus.BlockChecked location));
      self ← mark_dirty self node;
      Ok (with_tip self parent)
  | _ => Panic
  end.

Definition inherit (self : HeaderTree) (node : Z) : outcome E HeaderTree :=
  e ← entry self node;
  if HeaderStatus.is_terminal (e_status e) then Ok self
  else
    match e_parent e with
    | None => Ok self
    | Some parent =>
        culprit ← culprit self parent;
        match culprit with
        | None => Ok self
        | Some culprit =>
            assert_ (negb (HeaderStatus.is_connected (e_status e)));;
            update_entry self node (with_status (HeaderStatus.InvalidAncestor culprit))
        end
    end.

(** The body of the pass of [propagate_and_reselect]. *)
Definition reselect_step (from : Z) (st : HeaderTree * Z * Work) (position : Z)
    : outcome E (HeaderTree * Z * Work) :=
  let '(self, best, best_work) := st in
  node ← NodeId.at_ position;
  self ← (if from <? position then inherit self node else Ok self);
  e ← entry self node;
  if negb (HeaderStatus.is_terminal (e_status e)) && work_gt (e_chainwork e) best_work
  then Ok (self, node, e_chainwork e) else Ok (self, best, best_work).

Definition propagate_and_reselect (self : HeaderTree) (from : Z) : outcome E HeaderTree :=
  assert_ (len (t_entries self) <=? t_cap self);;
  g ← entry self NodeId.GENESIS;
  '(self, best, _) ← foldM (reselect_step from) (self, NodeId.GENESIS, e_chainwork g)
                       (seqZ 0 (len (t_entries self)));
  Ok (with_best self best).

Definition invalidate (self : HeaderTree) (node : Z) (invalidity : Invalidity)
    : outcome E HeaderTree :=
  e ← entry self node;
  assert_ (negb (HeaderStatus.is_terminal (e_status e)));;
  assert_ (negb (HeaderStatus.is_connected (e_status e)));;
  self ← update_entry self node (with_status (HeaderStatus.Invalid invalidity));
  self ← mark_dirty self node;
  propagate_and_reselect self node.

Definition clear_dirty (self : HeaderTree) : outcome E HeaderTree :=
  self ← foldM (fun self node => update_entry self node (with_dirty false)) self (t_dirty self);
  Ok (with_dirties self []).

Definition nodes (self : HeaderTree) : list Z := seqZ 0 (len (t_entries self)).

End tree.
