(* ===== verification/TreeProofs.v ===== *)
(** * TreeProofs: the shape of the header tree, and walks through it

    The arena seen as a forest of parent links: what an entry says of its parent, its
    height, its work and its skip pointer, and that the skip-list walk finds the ancestor
    the parent links lead to, inside the step bound the code asserts. *)
From S2P Require Import Prelude Uint Target Bitcoin Flags Params Header Verify Tx Signet Block Coins SkipList Queue Tree.

(** [descends es n a]: following parent links from [n] reaches [a]. *)
Inductive descends (es : list HeaderEntry) : Z -> Z -> Prop :=
| descends_refl n : descends es n n
| descends_step n e p a : get es n = Some e -> e_parent e = Some p -> descends es p a ->
    descends es n a.

(** The work of a header. *)
Definition header_work (h : Header) : Z :=
  match block_work (E:=Empty_set) (hdr_bits h) with Ok w => work_val w | _ => 0 end.

(** What an entry below [i] says of its parent and its skip pointer. *)
Record linked (es : list HeaderEntry) (i : Z) (e : HeaderEntry) (p : Z) (pe : HeaderEntry) : Prop := {
  linked_parent : e_parent e = Some p;
  linked_get : get es p = Some pe;
  linked_before : p < i;
  linked_height : e_height e = e_height pe + 1;
  linked_work : work_val (e_chainwork e) = work_val (e_chainwork pe) + header_work (e_header e);
  linked_hash : hdr_prev_blockhash (e_header e) = e_hash pe;
  linked_skip : exists s se, e_skip e = Some s /\ get es s = Some se /\ descends es p s /\
    e_height se = skip_height (e_height e);
}.

(** The links of the arena: genesis at zero, every other entry linked to an earlier one. *)
Record tree_shape `{BitcoinCrate} (es : list HeaderEntry) : Prop := {
  shape_genesis : exists g, get es 0 = Some g /\ e_parent g = None /\ e_height g = 0 /\
    e_skip g = None /\ work_val (e_chainwork g) = header_work (e_header g);
  shape_linked : forall i e, get es i = Some e -> 0 < i -> exists p pe, linked es i e p pe;
  shape_hash : forall i e, get es i = Some e -> e_hash e = block_hash (e_header e);
  shape_work : forall i e, get es i = Some e -> length (work_be_bytes (e_chainwork e)) = 32%nat;
  shape_len : len es <= MAX_TREE_HEADERS;
}.

Lemma descends_trans es a b c : descends es a b -> descends es b c -> descends es a c.
Proof. induction 1; [done|]. intros. econstructor; eauto. Qed.

Lemma descends_parent es n e p a : get es n = Some e -> e_parent e = Some p ->
  descends es n a -> a <> n -> descends es p a.
Proof. intros Hn Hp Hd Hne. destruct Hd; [done|]. by simplify_eq. Qed.

Section shape.
Context `{BitcoinCrate} (es : list HeaderEntry) (Hes : tree_shape es).

Lemma entry_cases i e : get es i = Some e ->
  i = 0 /\ e_parent e = None /\ e_height e = 0 /\ e_skip e = None \/
  0 < i /\ exists p pe, linked es i e p pe.
Proof.
  intros Hi. pose proof (get_Some_range _ _ _ Hi).
  destruct (decide (i = 0)) as [->|]; [left|right; split; [lia|]; by apply (shape_linked es Hes); [|lia]].
  destruct (shape_genesis es Hes) as (g & Hg & ? & ? & ? & _). by simplify_eq.
Qed.

Lemma parent_linked i e p : get es i = Some e -> e_parent e = Some p -> exists pe, linked es i e p pe.
Proof.
  intros Hi Hp. destruct (entry_cases i e Hi) as [(_ & Hn & _)|(_ & p' & pe & Hl)]; [congruence|].
  exists pe. destruct (linked_parent _ _ _ _ _ Hl); simplify_eq.
  rewrite (linked_parent _ _ _ _ _ Hl) in Hp. by injection Hp as <-.
Qed.

Lemma height_range i e : get es i = Some e -> 0 <= e_height e <= i.
Proof.
  assert (Hn : forall n : nat, forall i e, i < Z.of_nat n -> get es i = Some e -> 0 <= e_height e <= i).
  { intros n. induction n as [|n IH]; intros j f Hj Hf; pose proof (get_Some_range _ _ _ Hf); [lia|].
    destruct (entry_cases j f Hf) as [(-> & _ & -> & _)|(Hpos & p & pe & [_ Hg Hlt Hh _ _ _])]; [lia|].
    assert (0 <= e_height pe <= p) by (apply IH; [lia|done]). lia. }
  intros Hi. apply (Hn (S (Z.to_nat i)) i e); [|done]. lia.
Qed.

Lemma height_bound i e : get es i = Some e -> 0 <= e_height e < 2 ^ 21.
Proof.
  intros Hi. pose proof (height_range i e Hi). pose proof (get_Some_range _ _ _ Hi).
  pose proof (shape_len es Hes). unfold MAX_TREE_HEADERS in *. lia.
Qed.

Lemma descends_valid n a : descends es n a -> is_Some (get es n) -> exists e, get es a = Some e.
Proof.
  induction 1 as [n|n e p a Hn Hp Hd IH]; [by intros [e ?]; eauto|]. intros _.
  destruct (parent_linked n e p Hn Hp) as [pe Hl]. apply IH. destruct Hl; eauto.
Qed.

Lemma descends_height n a e ae : descends es n a -> get es n = Some e -> get es a = Some ae ->
  a <= n /\ e_height ae <= e_height e /\ (a <> n -> a < n /\ e_height ae < e_height e).
Proof.
  intros Hd. revert e ae. induction Hd as [n|n f p a Hn Hp Hd IH]; intros e ae He Ha.
  { simplify_eq. split_and!; [lia..|done]. }
  rewrite He in Hn. injection Hn as <-. destruct (parent_linked n e p He Hp) as [pe Hl].
  destruct (IH pe ae) as (? & ? & ?); [by destruct Hl|done|]. destruct Hl. lia.
Qed.

(** The ancestors of a node are one per height. *)
Lemma descends_unique n a b ae be : descends es n a -> descends es n b -> is_Some (get es n) ->
  get es a = Some ae -> get es b = Some be -> e_height ae = e_height be -> a = b.
Proof.
  intros Hd. revert ae b be. induction Hd as [n|n f p a Hn Hp Hd IH]; intros ae b be Hb Hi Ha Hbe Hh.
  - destruct (decide (b = n)) as [|Hne]; [done|].
    destruct (descends_height n b ae be Hb Ha Hbe) as (_ & _ & Hlt). specialize (Hlt Hne). lia.
  - destruct (decide (b = n)) as [->|Hne].
    + destruct (parent_linked n f p Hn Hp) as [pe Hl].
      destruct (descends_height p a pe ae Hd) as (_ & Hle & _); [by destruct Hl|done|].
      destruct Hl. simplify_eq. lia.
    + apply (IH ae b be); try done; [|destruct (parent_linked n f p Hn Hp) as [pe []]; eauto].
      by apply (descends_parent es n f p b).
Qed.

(** Every height up to a node's has an ancestor of it. *)
Lemma descends_exists n e h : get es n = Some e -> 0 <= h <= e_height e ->
  exists a ae, descends es n a /\ get es a = Some ae /\ e_height ae = h.
Proof.
  intros Hn Hh. remember (Z.to_nat (e_height e - h)) as k eqn:Hk.
  revert n e Hn Hh Hk. induction k as [|k IH]; intros n e Hn Hh Hk.
  - exists n, e. split_and!; [constructor|done|lia].
  - destruct (entry_cases n e Hn) as [(_ & _ & ? & _)|(_ & p & pe & Hl)]; [lia|].
    pose proof (linked_height _ _ _ _ _ Hl). destruct (IH p pe) as (a & ae & Hd & Ha & Hah).
    + by destruct Hl.
    + lia.
    + lia.
    + exists a, ae. split_and!; try done. econstructor; [done| |done]. by destruct Hl.
Qed.

(** Two ancestors of one node are in line. *)
Lemma descends_linear n a b ae be : descends es n a -> descends es n b ->
  get es a = Some ae -> get es b = Some be -> is_Some (get es n) ->
  e_height be <= e_height ae -> descends es a b.
Proof.
  intros Ha Hb Hae Hbe Hn Hle.
  destruct (descends_exists a ae (e_height be)) as (c & ce & Hc & Hce & Hch); [done| |].
  { pose proof (height_range b be Hbe). lia. }
  replace b with c; [done|]. eapply (descends_unique n c b); try done. apply (descends_trans es n a c); done.
Qed.

Lemma descends_genesis n e : get es n = Some e -> descends es n 0.
Proof.
  intros Hn. pose proof (height_range n e Hn).
  destruct (descends_exists n e 0 Hn) as (a & ae & Hd & Ha & Hh); [lia|].
  destruct (entry_cases a ae Ha) as [(-> & _)|(_ & p & pe & [_ Hg _ Hah _ _ _])]; [done|].
  pose proof (height_range p pe Hg). lia.
Qed.
End shape.

(** ** Walking back *)

Section walks.
Context `{BitcoinCrate} {E : Type} (t : HeaderTree) (Hes : tree_shape (t_entries t)).
Let es : list HeaderEntry := t_entries t.

Lemma entry_Ok n e : get es n = Some e -> entry (E:=E) t n = Ok e.
Proof. intros Hn. unfold entry. fold es. by rewrite Hn. Qed.

Lemma entry_inv n e : entry (E:=E) t n = Ok e -> get es n = Some e.
Proof. unfold entry. intros Hn. by inv_ok. Qed.

Lemma new_height_ok h : h < 2 ^ 21 -> Height.new (E:=E) h = Ok h.
Proof. intros Hh. unfold Height.new, Height.MAX. rewrite (proj2 (Z.leb_le h _)) by lia. done. Qed.

Lemma walk_loop_ok steps w we height : get es w = Some we -> 0 <= height <= e_height we ->
  walks_within steps (e_height we) height ->
  exists a ae, walk_loop (E:=E) t steps w (e_height we) height = Ok a /\
    descends es w a /\ get es a = Some ae /\ e_height ae = height.
Proof.
  revert w we. induction steps as [|steps IH]; intros w we Hw Hh Hwalk.
  all: cbn [walk_loop]; destruct (Z.ltb_spec height (e_height we)) as [Hlt|];
    [|exists w, we; split_and!; [done|constructor|done|lia]].
  { inversion Hwalk. lia. }
  inversion Hwalk as [|? ? ? _ Hnext]; [lia|]. subst.
  pose proof (height_bound es Hes w we Hw) as Hb.
  pose proof (walk_step_below (e_height we) height ltac:(lia) ltac:(lia)) as Hstep.
  rewrite (entry_Ok w we Hw). run.
  destruct (entry_cases es Hes w we Hw) as [(_ & _ & ? & _)|(_ & p & pe & Hl)]; [lia|].
  destruct (linked_skip _ _ _ _ _ Hl) as (s & se & Hs & Hse & Hds & Hsh).
  unfold skip_toward. rewrite Hs. unfold walk_step in Hstep, Hnext.
  destruct (follows_skip (e_height we) height).
  - rewrite new_height_ok by lia. run. rewrite <-Hsh in *.
    destruct (IH s se Hse ltac:(lia) Hnext) as (a & ae & Ha & Hd & Hae & Hah).
    exists a, ae. split_and!; try done. eapply descends_step; [done|by destruct Hl|].
    by eapply descends_trans.
  - rewrite (linked_parent _ _ _ _ _ Hl). run. rewrite new_height_ok by (unfold saturating_sub; lia). run.
    pose proof (linked_height _ _ _ _ _ Hl). unfold saturating_sub in *.
    replace (Z.max 0 (e_height we - 1)) with (e_height pe) in * by lia.
    destruct (IH p pe ltac:(by destruct Hl) ltac:(lia) Hnext) as (a & ae & Ha & Hd & Hae & Hah).
    exists a, ae. split_and!; try done. eapply descends_step; [done|by destruct Hl|done].
Qed.

(** [ancestor] finds the one ancestor at a height, for every node and height. *)
Lemma ancestor_ok n e h : get es n = Some e -> 0 <= h <= e_height e ->
  exists a ae, ancestor (E:=E) t n h = Ok (Some a) /\ descends es n a /\
    get es a = Some ae /\ e_height ae = h.
Proof.
  intros Hn Hh. pose proof (height_bound es Hes n e Hn) as Hb.
  unfold ancestor, walk_back. rewrite (entry_Ok n e Hn). run.
  rewrite (proj2 (Z.ltb_ge (e_height e) h)) by lia.
  destruct (walk_loop_ok (Z.to_nat MAX_ANCESTOR_STEPS) n e h Hn Hh) as (a & ae & Ha & Hd & Hae & Hah).
  { destruct (decide (h = e_height e)); [apply walks_done; lia|].
    eapply walks_within_mono; [|apply (walks_square 21); lia]. unfold MAX_ANCESTOR_STEPS. lia. }
  rewrite Ha. run. by exists a, ae.
Qed.

Lemma ancestor_None n e h : get es n = Some e -> e_height e < h -> ancestor (E:=E) t n h = Ok None.
Proof.
  intros Hn Hh. unfold ancestor. rewrite (entry_Ok n e Hn). run.
  by rewrite (proj2 (Z.ltb_lt (e_height e) h)).
Qed.
End walks.
