(* ===== verification/TreeInv.v ===== *)
(** * TreeInv: the invariant of the header tree, and what each method does to it

    The links of the arena never change once written, so the invariant has two layers: the
    links ([tree_shape], with the hash index), and the statuses over them: the active
    chain, the verdicts, the most-work header, and the entries waiting to be written. *)
From S2P Require Import Prelude Uint Target Bitcoin Flags Params Header Verify Tx Signet Block Coins SkipList Queue Tree TreeProofs.

Notation terminal e := (HeaderStatus.is_terminal (e_status e)).
Notation active e := (HeaderStatus.is_connected (e_status e)).
Notation work_of e := (work_val (e_chainwork e)).

(** The verdict an entry hands to its children. *)
Definition verdict (e : HeaderEntry) : option bytes :=
  match e_status e with
  | HeaderStatus.Invalid _ => Some (e_hash e)
  | HeaderStatus.InvalidAncestor culprit => Some culprit
  | _ => None
  end.

(** The facts the difficulty rules read of an entry. *)
Definition entry_facts (e : HeaderEntry) : HeaderFacts := from_header (e_height e) (e_header e).

(** The most-work entry that is not refused, the first of equals. *)
Definition best_of (es : list HeaderEntry) (b : Z) : Prop :=
  exists be, get es b = Some be /\ terminal be = false /\
    forall i e, get es i = Some e -> terminal e = false ->
      work_of e < work_of be \/ work_of e = work_of be /\ b <= i.

(** How an entry's status follows from its parent's. *)
Definition inherits (pe e : HeaderEntry) : Prop :=
  match verdict pe with
  | Some c => e_status e = HeaderStatus.InvalidAncestor c \/
      exists v, e_status e = HeaderStatus.Invalid v
  | None => forall c, e_status e <> HeaderStatus.InvalidAncestor c
  end.

(** The entries waiting for the block index: each once, and exactly the marked ones. *)
Definition dirty_ok (t : HeaderTree) : Prop :=
  NoDup (t_dirty t) /\
  forall i, i ∈ t_dirty t <-> exists e, get (t_entries t) i = Some e /\ e_dirty e = true.

Record tree_wf `{BitcoinCrate} (p : ChainParams) (t : HeaderTree) : Prop := {
  wf_shape : tree_shape (t_entries t);
  wf_cap : len (t_entries t) <= t_cap t <= MAX_TREE_HEADERS;
  wf_index : forall h i, t_index t !! h = Some i <->
    exists e, get (t_entries t) i = Some e /\ e_hash e = h;
  wf_genesis : forall i e, get (t_entries t) i = Some e -> e_status e = HeaderStatus.Genesis <-> i = 0;
  wf_tip : is_Some (get (t_entries t) (t_tip t));
  wf_active : forall i e, get (t_entries t) i = Some e ->
    active e = true <-> descends (t_entries t) (t_tip t) i;
  wf_verdict : forall i e q qe, get (t_entries t) i = Some e -> e_parent e = Some q ->
    get (t_entries t) q = Some qe -> inherits qe e;
  wf_facts : forall i e, get (t_entries t) i = Some e -> terminal e = false ->
    facts_ok (pow_limit p) (entry_facts e);
  wf_best : best_of (t_entries t) (t_best_header t);
  wf_dirty : dirty_ok t;
}.

(** ** Chain work *)

Lemma add_le_bytes_spec carry l r : length l = length r -> 0 <= carry <= 1 ->
  let '(sum, c) := add_le_bytes carry l r in
  length sum = length l /\ 0 <= c <= 1 /\
  le_val sum + 256 ^ Z.of_nat (length l) * c = le_val l + le_val r + carry.
Proof.
  revert carry r. induction l as [|a l IH]; intros carry [|b r] Hl Hc; try done.
  { cbn. lia. }
  cbn [add_le_bytes]. pose proof (bz_range a). pose proof (bz_range b).
  rewrite (Z.land_ones _ 8) by lia. rewrite Z.shiftr_div_pow2 by lia. change (2 ^ 8) with 256.
  specialize (IH ((bz a + bz b + carry) / 256) r ltac:(by injection Hl) ltac:(dlia)).
  destruct (add_le_bytes _ l r) as [sum c]. destruct IH as (Hls & Hcr & Heq).
  cbn [length le_val]. rewrite bz_zb, Zmod_mod, Nat2Z.inj_succ, Z.pow_succ_r by lia.
  split_and!; [lia..|]. dlia.
Qed.

Lemma add_work_ok {E} a b : length (work_be_bytes a) = 32%nat -> length (work_be_bytes b) = 32%nat ->
  work_val a + work_val b < 2 ^ 256 ->
  exists w, add_work (E:=E) a b = Ok w /\ work_val w = work_val a + work_val b /\
    length (work_be_bytes w) = 32%nat.
Proof.
  intros Ha Hb Hsum. unfold add_work.
  pose proof (add_le_bytes_spec 0 (reverse (work_be_bytes a)) (reverse (work_be_bytes b))) as Hs.
  rewrite !length_reverse in Hs. specialize (Hs ltac:(lia) ltac:(lia)).
  destruct (add_le_bytes _ _ _) as [sum c]. destruct Hs as (Hl & Hc & Heq).
  unfold work_val, be_val in *. rewrite Ha in *. change (256 ^ Z.of_nat 32) with (2 ^ 256) in Heq.
  pose proof (le_val_range sum). replace c with 0 by lia. run.
  exists (mkWork (reverse sum)). cbn [work_be_bytes]. rewrite reverse_involutive, length_reverse.
  split_and!; [done|lia|done].
Qed.

Lemma add_work_inv {E} a b w : length (work_be_bytes a) = 32%nat -> length (work_be_bytes b) = 32%nat ->
  add_work (E:=E) a b = Ok w ->
  work_val w = work_val a + work_val b /\ length (work_be_bytes w) = 32%nat.
Proof.
  intros Ha Hb Hw. assert (work_val a + work_val b < 2 ^ 256) as Hlt.
  { unfold add_work in Hw.
    pose proof (add_le_bytes_spec 0 (reverse (work_be_bytes a)) (reverse (work_be_bytes b))) as Hs.
    rewrite !length_reverse in Hs. specialize (Hs ltac:(lia) ltac:(lia)).
    destruct (add_le_bytes _ _ _) as [sum c]. destruct Hs as (Hl & Hc & Heq). inv_ok.
    apply Z.eqb_eq in Hx as ->. unfold work_val, be_val. rewrite Ha in *.
    pose proof (le_val_range sum) as Hr. rewrite Hl in Hr.
    change (256 ^ Z.of_nat 32) with (2 ^ 256) in *. lia. }
  destruct (add_work_ok (E:=E) a b Ha Hb Hlt) as (w' & Hw' & Hv).
  rewrite Hw in Hw'. by injection Hw' as <-.
Qed.

(** ** Links *)

(** What never changes of an entry. *)
Definition link_of (e : HeaderEntry) : Header * bytes * Z * Work * option Z * option Z :=
  (e_header e, e_hash e, e_height e, e_chainwork e, e_parent e, e_skip e).

Definition same_links (es es' : list HeaderEntry) : Prop := map link_of es = map link_of es'.

Lemma same_links_len es es' : same_links es es' -> len es' = len es.
Proof. intros Hl. apply (f_equal length) in Hl. rewrite !length_map in Hl. unfold len. lia. Qed.

Lemma get_map {A B} (f : A -> B) (l : list A) i : get (map f l) i = f <$> get l i.
Proof. unfold get. destruct (0 <=? i); [|done]. apply list_lookup_fmap. Qed.

Lemma same_links_get es es' i e : same_links es es' -> get es i = Some e ->
  exists e', get es' i = Some e' /\ link_of e' = link_of e.
Proof.
  intros Hl Hi. apply (f_equal (fun l => get l i)) in Hl. rewrite !get_map, Hi in Hl.
  destruct (get es' i) as [e'|] eqn:He'; [|done].
  exists e'. split; [done|]. cbn in Hl. unfold link_of in *. congruence.
Qed.

Lemma same_links_sym es es' : same_links es es' -> same_links es' es.
Proof. by unfold same_links. Qed.

Lemma same_links_descends es es' n a : same_links es es' -> descends es n a <-> descends es' n a.
Proof.
  assert (Hd : forall es es', same_links es es' -> forall n, descends es n a -> descends es' n a).
  { clear. intros es es' Hl n. induction 1 as [n|n e p a Hn Hp Hd IH]; [constructor|].
    destruct (same_links_get _ _ _ _ Hl Hn) as (e' & He' & Heq). unfold link_of in Heq.
    econstructor; [done| |apply IH]. congruence. }
  intros Hl. split; apply Hd; [done|by apply same_links_sym].
Qed.

Lemma same_links_shape `{BitcoinCrate} es es' : same_links es es' -> tree_shape es -> tree_shape es'.
Proof.
  intros Hl [Hg Hi Hh Hw Hlen]. pose proof (same_links_sym _ _ Hl) as Hl'. constructor.
  - destruct Hg as (g & Hg & ? & ? & ? & ?).
    destruct (same_links_get _ _ _ _ Hl Hg) as (e' & He' & Heq). unfold link_of in Heq. simplify_eq.
    exists e'. split_and!; congruence.
  - intros i e' He' Hpos. destruct (same_links_get _ _ _ _ Hl' He') as (e & He & Heq).
    destruct (Hi i e He Hpos) as (p & pe & [Hp Hpe Hlt Hh' Hw' Hhash (s & se & Hs & Hse & Hd & Hsh)]).
    destruct (same_links_get _ _ _ _ Hl Hpe) as (pe' & Hpe' & Heq').
    destruct (same_links_get _ _ _ _ Hl Hse) as (se' & Hse' & Heq'').
    unfold link_of in *. simplify_eq. exists p, pe'. constructor; try congruence.
    exists s, se'. split_and!; try congruence. by apply (same_links_descends es es').
  - intros i e' He'. destruct (same_links_get _ _ _ _ Hl' He') as (e & He & Heq).
    unfold link_of in Heq. specialize (Hh i e He). congruence.
  - intros i e' He'. destruct (same_links_get _ _ _ _ Hl' He') as (e & He & Heq).
    unfold link_of in Heq. specialize (Hw i e He). congruence.
  - by rewrite (same_links_len es es').
Qed.

Lemma same_links_index (es es' : list HeaderEntry) (m : gmap bytes Z) : same_links es es' ->
  (forall h i, m !! h = Some i <-> exists e, get es i = Some e /\ e_hash e = h) ->
  forall h i, m !! h = Some i <-> exists e, get es' i = Some e /\ e_hash e = h.
Proof.
  intros Hl Hm h i. rewrite Hm.
  split; intros (e & He & Hh); [|apply same_links_sym in Hl];
    destruct (same_links_get _ _ _ _ Hl He) as (e' & He' & Heq); unfold link_of in Heq;
    exists e'; split; congruence.
Qed.

Lemma same_links_insert es n e e' : get es n = Some e -> link_of e' = link_of e ->
  same_links es (<[Z.to_nat n := e']> es).
Proof.
  intros He Hl. unfold same_links.
  change (map link_of (<[Z.to_nat n := e']> es)) with (link_of <$> <[Z.to_nat n := e']> es).
  rewrite list_fmap_insert, Hl. symmetry. apply list_insert_id.
  rewrite list_lookup_fmap. pose proof (get_Some_range _ _ _ He) as Hr. unfold get in He.
  destruct (0 <=? n); [|done]. by rewrite He.
Qed.

(** ** Appending an entry *)

Section append.
Context `{BitcoinCrate} (es : list HeaderEntry) (Hes : tree_shape es) (x : HeaderEntry).

Lemma get_snoc i e : get (es ++ [x]) i = Some e <-> get es i = Some e \/ i = len es /\ e = x.
Proof.
  split.
  - intros Hi. pose proof (get_Some_range _ _ _ Hi) as Hr. rewrite len_app in Hr.
    change (len [x]) with 1 in Hr. destruct (decide (i = len es)) as [->|].
    + rewrite get_middle in Hi. injection Hi as <-. auto.
    + rewrite get_app_l in Hi by lia. auto.
  - intros [Hi|[-> ->]]; [|apply get_middle].
    rewrite get_app_l; [done|]. by apply get_Some_range in Hi as [_ ?].
Qed.

Lemma get_snoc_new e : get es (len es) <> Some e.
Proof. intros Hi. apply get_Some_range in Hi. lia. Qed.

Lemma descends_snoc n a : is_Some (get es n) -> descends (es ++ [x]) n a <-> descends es n a.
Proof.
  intros Hn. split.
  - intros Hd. revert Hn. induction Hd as [n|n e p a He Hp Hd IH]; intros [e' He']; [constructor|].
    apply get_snoc in He as [He|[-> ->]]; [|by apply get_snoc_new in He'].
    econstructor; [exact He|exact Hp|]. apply IH.
    destruct (parent_linked es Hes n e p He Hp) as [pe Hl]. destruct Hl. eauto.
  - induction 1 as [n|n e p a He Hp Hd IH]; [constructor|].
    econstructor; [by apply get_snoc; left|done|]. apply IH.
    destruct (parent_linked es Hes n e p He Hp) as [pe Hl]. destruct Hl. eauto.
Qed.

Lemma linked_snoc i e p pe : linked es i e p pe -> linked (es ++ [x]) i e p pe.
Proof.
  intros [Hp Hpe Hlt Hh Hw Hhash (s & se & Hs & Hse & Hd & Hsh)].
  constructor; try done; [by apply get_snoc; left|].
  exists s, se. split_and!; try done; [by apply get_snoc; left|]. by apply descends_snoc.
Qed.

Lemma shape_snoc p pe : linked es (len es) x p pe -> e_hash x = block_hash (e_header x) ->
  length (work_be_bytes (e_chainwork x)) = 32%nat -> len es < MAX_TREE_HEADERS ->
  tree_shape (es ++ [x]).
Proof.
  intros Hl Hh Hw Hlen. pose proof Hes as [Hg Hi Hhs Hws _]. constructor.
  - destruct Hg as (g & Hg & ?). exists g. split; [by apply get_snoc; left|done].
  - intros i e [He|[-> ->]]%get_snoc Hpos.
    + destruct (Hi i e He Hpos) as (q & qe & Hq). exists q, qe. by apply linked_snoc.
    + exists p, pe. by apply linked_snoc.
  - intros i e [He|[-> ->]]%get_snoc; [by eapply Hhs|done].
  - intros i e [He|[-> ->]]%get_snoc; [by eapply Hws|done].
  - rewrite len_app. change (len [x]) with 1. lia.
Qed.
End append.

(** The tree with one more entry, as [insert] leaves it. *)
Definition inserted (t : HeaderTree) (x : HeaderEntry) : HeaderTree :=
  let node := len (t_entries t) in
  let best := match get (t_entries t) (t_best_header t) with
              | Some be => negb (terminal x) && (work_of be <? work_of x)
              | None => false
              end in
  mkTree (t_entries t ++ [x]) (<[e_hash x := node]> (t_index t)) (t_tip t)
    (if best then node else t_best_header t) (t_dirty t ++ [node]) (t_period t) (t_cap t).

(** What an entry under [parent] must be. *)
Record fits_under `{BitcoinCrate} (p : ChainParams) (t : HeaderTree) (parent : Z) (pe x : HeaderEntry) : Prop := {
  fits_linked : linked (t_entries t) (len (t_entries t)) x parent pe;
  fits_hash : e_hash x = block_hash (e_header x);
  fits_work : length (work_be_bytes (e_chainwork x)) = 32%nat;
  fits_new : t_index t !! e_hash x = None;
  fits_idle : active x = false;
  fits_verdict : inherits pe x;
  fits_facts : terminal x = false -> facts_ok (pow_limit p) (entry_facts x);
  fits_dirty : e_dirty x = true;
}.

Lemma inserted_best es x be b : best_of es b -> get es b = Some be ->
  best_of (es ++ [x]) (if negb (terminal x) && (work_of be <? work_of x) then len es else b).
Proof.
  intros (be' & Hb & Ht & Hmax) Hbe. simplify_eq.
  destruct (terminal x) eqn:Htx; cbn [negb andb];
    [|destruct (Z.ltb_spec (work_of be') (work_of x)) as [Hlt|Hge]].
  - exists be'. split_and!; [by apply get_snoc; left|done|].
    intros i e [He|[-> ->]]%get_snoc Hte; [by apply Hmax|congruence].
  - exists x. split_and!; [apply get_middle|done|].
    intros i e [He|[-> ->]]%get_snoc Hte; [|right; lia]. left. destruct (Hmax i e He Hte); lia.
  - exists be'. split_and!; [by apply get_snoc; left|done|].
    intros i e [He|[-> ->]]%get_snoc Hte; [by apply Hmax|].
    apply get_Some_range in Hb as [_ ?]. lia.
Qed.

Lemma inserted_wf `{BitcoinCrate} p t parent pe x : tree_wf p t -> fits_under p t parent pe x ->
  len (t_entries t) < t_cap t -> tree_wf p (inserted t x).
Proof.
  intros [Hs Hcap Hidx Hgen Htip Hact Hver Hfacts Hbest Hdirty] [Hl Hh Hw Hnew Hidle Hinh Hfx Hdx] Hlen.
  pose proof (shape_snoc _ Hs x parent pe Hl Hh Hw ltac:(lia)) as Hs'.
  assert (Hpos : 0 < len (t_entries t)).
  { destruct (shape_genesis _ Hs) as (g & Hg & _). by apply get_Some_range in Hg as [_ ?]. }
  unfold inserted. constructor; cbn [t_entries t_index t_tip t_best_header t_dirty t_cap].
  - done.
  - rewrite len_app. change (len [x]) with 1. lia.
  - intros h i. destruct (decide (h = e_hash x)) as [->|Hne].
    + rewrite lookup_insert_eq. split.
      * intros [= <-]. exists x. split; [apply get_middle|done].
      * intros (e & [He|[-> ->]]%get_snoc & Heq); [|done].
        assert (t_index t !! e_hash x = Some i) by (apply Hidx; eauto). congruence.
    + rewrite lookup_insert_ne, Hidx by done.
      split; intros (e & He & Heq); exists e; (split; [|done]); [by apply get_snoc; left|].
      apply get_snoc in He as [He|[-> ->]]; done.
  - intros i e [He|[-> ->]]%get_snoc; [by apply Hgen|].
    split; [|lia]. intros Hge. by rewrite Hge in Hidle.
  - destruct Htip as [te Hte]. exists te. by apply get_snoc; left.
  - intros i e [He|[-> ->]]%get_snoc.
    + rewrite descends_snoc by done. by apply Hact.
    + rewrite Hidle. split; [done|]. intros Hd. apply descends_snoc in Hd; [|done..].
      destruct (descends_valid _ Hs _ _ Hd Htip) as [e He]. by apply get_snoc_new in He.
  - intros i e q qe [He|[-> ->]]%get_snoc Hq Hqe.
    + destruct (parent_linked _ Hs i e q He Hq) as [qe' Hlq]. pose proof (linked_get _ _ _ _ _ Hlq) as Hg.
      apply get_snoc in Hqe as [Hqe|[-> ->]]; [by eapply Hver|by apply get_snoc_new in Hg].
    + rewrite (linked_parent _ _ _ _ _ Hl) in Hq. injection Hq as <-.
      pose proof (linked_get _ _ _ _ _ Hl) as Hg.
      apply get_snoc in Hqe as [Hqe|[-> ->]]; [by simplify_eq|by apply get_snoc_new in Hg].
  - intros i e [He|[-> ->]]%get_snoc; [by eapply Hfacts|done].
  - pose proof Hbest as (be & Hbe & _). rewrite Hbe. by apply inserted_best.
  - destruct Hdirty as [Hnd Hd]. split; cbn [t_dirty t_entries].
    + apply NoDup_app. split_and!; [done| |apply NoDup_singleton].
      intros i Hi ->%list_elem_of_singleton. apply Hd in Hi as (e & He & _). by apply get_snoc_new in He.
    + intros i. rewrite elem_of_app, Hd, list_elem_of_singleton. split.
      * intros [(e & He & Hde)| ->]; [exists e; split; [by apply get_snoc; left|done]|].
        exists x. split; [apply get_middle|done].
      * intros (e & [He|[-> ->]]%get_snoc & Hde); eauto.
Qed.
