(* ===== verification/TreeOps.v ===== *)
(** * TreeOps: what the methods of the header tree do to a well-formed tree

    Each method is computed on trees that satisfy [tree_wf]: its result in closed form,
    that its assertions hold, and that the new tree is well formed. *)
From S2P Require Import Prelude Uint Target Bitcoin Flags Params Header Verify Tx Signet Block Coins SkipList Queue Tree TreeProofs TreeInv.

(** ** The context of a block *)

(** The last [k] entries of the chain that ends at [n], newest first. *)
Fixpoint lineage (es : list HeaderEntry) (k : nat) (n : Z) : list HeaderEntry :=
  match k with
  | O => []
  | S k =>
      match get es n with
      | Some e => e :: match e_parent e with Some p => lineage es k p | None => [] end
      | None => []
      end
  end.

Lemma heights_from_snoc h l f : heights_from h (l ++ [f]) <-> heights_from h l /\ f_height f = h + len l.
Proof.
  revert h. induction l as [|g l IH]; intros h; cbn [app heights_from].
  - rewrite len_nil, Z.add_0_r. tauto.
  - rewrite IH, len_cons. replace (h + 1 + len l) with (h + (len l + 1)) by lia. tauto.
Qed.

Section context.
Context `{BitcoinCrate} {E : Type} (p : ChainParams) (t : HeaderTree) (Hwf : tree_wf p t).
Let es : list HeaderEntry := t_entries t.
Let Hs : tree_shape es := wf_shape p t Hwf.

Lemma terminal_verdict e : terminal e = false <-> verdict e = None.
Proof. unfold verdict. by destruct (e_status e). Qed.

(** What is not refused has only ancestors that are not refused. *)
Lemma parent_live i e q qe : get es i = Some e -> e_parent e = Some q -> get es q = Some qe ->
  terminal e = false -> terminal qe = false.
Proof.
  intros Hi Hq Hqe Ht. pose proof (wf_verdict p t Hwf i e q qe Hi Hq Hqe) as Hv.
  apply terminal_verdict. unfold inherits in Hv. destruct (verdict qe); [|done].
  destruct Hv as [Hv|[v Hv]]; by rewrite Hv in Ht.
Qed.

Lemma ancestor_live i e a ae : descends es i a -> get es i = Some e -> get es a = Some ae ->
  terminal e = false -> terminal ae = false.
Proof.
  intros Hd. revert e. induction Hd as [n|n f q a Hn Hq Hd IH]; intros e Hi Ha Ht.
  - by simplify_eq.
  - rewrite Hi in Hn. injection Hn as <-. destruct (parent_linked es Hs n e q Hi Hq) as [qe Hl].
    pose proof (linked_get _ _ _ _ _ Hl). apply (IH qe); try done. by eapply (parent_live n e q qe).
Qed.

Lemma lineage_spec k n e : get es n = Some e ->
  len (lineage es k n) = Z.min (Z.of_nat k) (e_height e + 1) /\
  (terminal e = false -> Forall (fun a => facts_ok (pow_limit p) (entry_facts a)) (lineage es k n)) /\
  (Z.of_nat k <= e_height e + 1 ->
    heights_from (e_height e + 1 - Z.of_nat k) (map entry_facts (reverse (lineage es k n)))).
Proof.
  revert n e. induction k as [|k IH]; intros n e Hn.
  { cbn [lineage]. pose proof (height_range es Hs n e Hn). rewrite len_nil. split_and!; [lia|constructor|done]. }
  cbn [lineage]. rewrite Hn, len_cons, reverse_cons, map_app. cbn [map].
  destruct (entry_cases es Hs n e Hn) as [(-> & -> & He & _)|(_ & q & qe & Hl)].
  { rewrite len_nil, He. split_and!; [lia| |].
    - intros Ht. repeat constructor; by eapply (wf_facts p t Hwf).
    - intros Hk. cbn. split; [|done]. lia. }
  rewrite (linked_parent _ _ _ _ _ Hl). pose proof (linked_get _ _ _ _ _ Hl) as Hq.
  pose proof (linked_height _ _ _ _ _ Hl) as Hh.
  destruct (IH q qe Hq) as (Hlen & Hf & Hhs). split_and!; [lia| |].
  - intros Ht. constructor; [by eapply (wf_facts p t Hwf)|]. apply Hf.
    eapply (parent_live n e q qe); try done. by destruct Hl.
  - intros Hk. apply heights_from_snoc. split.
    + replace (e_height e + 1 - Z.of_nat (S k)) with (e_height qe + 1 - Z.of_nat k) by lia. apply Hhs. lia.
    + assert (Hml : len (map entry_facts (reverse (lineage es k q))) = len (lineage es k q))
        by (unfold len; by rewrite length_map, length_reverse).
      rewrite Hml, Hlen. cbn. lia.
Qed.

Lemma times_back_eq k n : is_Some (get es n) ->
  times_back (E:=E) t k (Some n) = Ok (map (fun a => hdr_time (e_header a)) (lineage es k n)).
Proof.
  revert n. induction k as [|k IH]; intros n [e Hn]; [done|].
  cbn [times_back lineage]. rewrite (entry_Ok t n e Hn), Hn. run.
  destruct (e_parent e) as [q|] eqn:Hq; [|by destruct k].
  destruct (parent_linked es Hs n e q Hn Hq) as [qe Hl]. pose proof (linked_get _ _ _ _ _ Hl).
  rewrite IH by eauto. done.
Qed.

Lemma period_back_eq k n : is_Some (get es n) ->
  period_back (E:=E) t k n = Ok (map entry_facts (lineage es k n)).
Proof.
  revert n. induction k as [|k IH]; intros n [e Hn]; [done|].
  cbn [period_back lineage]. rewrite (entry_Ok t n e Hn), Hn. run.
  destruct (e_parent e) as [q|] eqn:Hq; [|done].
  destruct (parent_linked es Hs n e q Hn Hq) as [qe Hl]. pose proof (linked_get _ _ _ _ _ Hl).
  rewrite IH by eauto. done.
Qed.

(** What the chain contributes to a block after [n]: the median of the last eleven times,
    and the required bits over the difficulty period [n] is in. *)
Record context_after (n : Z) (e : HeaderEntry) (interval : Z) (hash : bytes) (header : Header) (ctx : Context) : Prop := {
  after_height : ctx_height ctx = e_height e + 1;
  after_time : ctx_previous_time ctx = hdr_time (e_header e);
  after_median : median_time_past (E:=E)
    (map (fun a => hdr_time (e_header a)) (lineage es 11 n)) = Ok (ctx_median_time_past ctx);
  after_bits : next_required_bits (E:=E) p
    (map entry_facts (reverse (lineage es (Z.to_nat (e_height e mod interval + 1)) n)))
    (hdr_time header) = Ok (ctx_required_bits ctx);
  after_bits_u32 : is_u32 (ctx_required_bits ctx);
  after_rules : exists bip34, rules_at (E:=E) p (e_height e + 1) hash bip34 = Ok (ctx_rules ctx) /\
    (bip34 = None /\ e_height e + 1 <= bip34_height (buried_bip34 (buried p)) \/
     exists a ae, bip34 = Some (e_hash ae) /\ descends es n a /\ get es a = Some ae /\
       e_height ae = bip34_height (buried_bip34 (buried p)));
}.

Lemma required_bits_ok n e interval time : tabled p ->
  difficulty_adjustment_interval (E:=E) p = Ok interval ->
  get es n = Some e -> terminal e = false -> BlockTime.valid time ->
  let period := map entry_facts (reverse (lineage es (Z.to_nat (e_height e mod interval + 1)) n)) in
  exists bits, next_required_bits (E:=E) p period time = Ok bits /\ is_u32 bits /\
    required_bits_after (E:=E) t n time p = Ok (with_period t period, bits).
Proof.
  intros Ht Hi Hn Hlive Htime period.
  destruct (tabled_interval (E:=E) p Ht) as (m & Hm & Hr). rewrite Hi in Hm. injection Hm as <-.
  pose proof (height_bound es Hs n e Hn) as Hb. pose proof (Z.mod_pos_bound (e_height e) interval ltac:(lia)).
  pose proof (Z_div_mod_eq_full (e_height e) interval) as Hdiv.
  assert (Hmle : e_height e mod interval <= e_height e) by (apply Z.mod_le; lia).
  set (k := Z.to_nat (e_height e mod interval + 1)) in *.
  destruct (lineage_spec k n e Hn) as (Hlen & Hf & Hh). specialize (Hf Hlive). specialize (Hh ltac:(lia)).
  assert (Hplen : len period = e_height e mod interval + 1).
  { unfold period. transitivity (len (lineage es k n)); [unfold len; by rewrite length_map, length_reverse|lia]. }
  assert (Hperiod : period_at interval (e_height e / interval) period).
  { split_and!; [apply Z.div_pos; lia| |lia..|].
    - replace (e_height e / interval * interval) with (e_height e + 1 - Z.of_nat k) by lia. exact Hh.
    - rewrite Hplen. unfold Height.MAX. lia. }
  destruct (period_head _ _ _ Hperiod) as (first & rest & Heq & _).
  destruct (period_last _ _ _ Hperiod) as (previous & Hlast & _).
  destruct (next_required_bits_spec (E:=E) p interval (e_height e / interval) period first previous time)
    as (bits & tg & Hbits & Hu & _); try done; [by rewrite Heq| |].
  { unfold period. apply List.Forall_map, Forall_reverse. done. }
  exists bits. split; [done|]. split; [done|].
  unfold required_bits_after. rewrite Hi. run. rewrite (entry_Ok t n e Hn). run.
  rewrite period_back_eq by eauto. run. fold k.
  replace (reverse (map entry_facts (lineage es k n))) with period; [by rewrite Hbits|].
  unfold period. apply (fmap_reverse entry_facts).
Qed.

(** The context of a block after an entry that is not refused exists, and is the one its
    ancestors fix. *)
Lemma context_for_ok n e interval hash header : tabled p ->
  difficulty_adjustment_interval (E:=E) p = Ok interval ->
  get es n = Some e -> terminal e = false -> BlockTime.valid (hdr_time header) ->
  0 <= bip34_height (buried_bip34 (buried p)) ->
  exists period ctx, context_for (E:=E) t n hash header p = Ok (with_period t period, ctx) /\
    context_after n e interval hash header ctx.
Proof.
  intros Ht Hi Hn Hlive Htime Hb34. pose proof (height_bound es Hs n e Hn) as Hb.
  destruct (required_bits_ok n e interval (hdr_time header) Ht Hi Hn Hlive Htime)
    as (bits & Hbits & Hbu & Hreq).
  destruct (lineage_spec 11 n e Hn) as (Hlen & _).
  destruct (median_eq (E:=E) (map (fun a => hdr_time (e_header a)) (lineage es 11 n))) as (med & Hmed & _).
  { intros Hnil. apply (f_equal length) in Hnil. rewrite length_map in Hnil. cbn [length] in Hnil. unfold len in Hlen. lia. }
  { unfold len in *. rewrite length_map. unfold MEDIAN_TIME_SPAN. lia. }
  set (period := map entry_facts _) in Hreq.
  assert (Hanc : exists bip34, bip34_ancestor (E:=E) (with_period t period) n (e_height e + 1) p = Ok bip34 /\
    (bip34 = None /\ e_height e + 1 <= bip34_height (buried_bip34 (buried p)) \/
     exists a ae, bip34 = Some (e_hash ae) /\ descends es n a /\ get es a = Some ae /\
       e_height ae = bip34_height (buried_bip34 (buried p)))).
  { unfold bip34_ancestor. destruct (Z.leb_spec (e_height e + 1) (bip34_height (buried_bip34 (buried p)))).
    { exists None. auto. }
    destruct (ancestor_ok (E:=E) (with_period t period) Hs n e (bip34_height (buried_bip34 (buried p))) Hn)
      as (a & ae & Ha & Hd & Hae & Hah); [lia|].
    exists (Some (e_hash ae)). rewrite Ha. run.
    rewrite (entry_Ok (with_period t period) a ae Hae). run. split; [done|]. right. by exists a, ae. }
  destruct Hanc as (bip34 & Hbip & Hspec).
  destruct (rules_at_eq (E:=E) p (e_height e + 1) hash bip34 (tabled_ok p Ht)) as (base & fl & b & sub & Hrules & _).
  { lia. }
  { intros [x Hx]. destruct Hspec as [[-> _]|(a & ae & _ & Hd & Hae & Hah)]; [done|].
    destruct (descends_height es Hs n a e ae Hd Hn Hae) as (_ & Hle & _). lia. }
  exists period. eexists (mkContext (e_height e + 1) med (hdr_time (e_header e)) bits _).
  split.
  - unfold context_for. rewrite (entry_Ok t n e Hn). run. rewrite next_eq by (unfold Height.MAX; lia). run.
    unfold median_time_past_at. rewrite times_back_eq by eauto. run.
    change (Z.to_nat MEDIAN_TIME_SPAN) with 11%nat. rewrite Hmed. run. rewrite Hreq. run.
    rewrite Hbip. run. rewrite Hrules. run. unfold new_context, Height.GENESIS.
    rewrite (proj2 (Z.ltb_lt 0 (e_height e + 1))) by lia. run. reflexivity.
  - constructor; cbn; try done. by exists bip34.
Qed.
End context.

(** ** Placing a header *)

Section placing.
Context `{BitcoinCrate} {E : Type} (p : ChainParams) (t : HeaderTree) (Hwf : tree_wf p t).
Let es : list HeaderEntry := t_entries t.
Let Hs : tree_shape es := wf_shape p t Hwf.

Lemma header_work_eq h : is_u32 (hdr_bits h) -> exists w, block_work (E:=E) (hdr_bits h) = Ok w /\
  length (work_be_bytes w) = 32%nat /\ work_val w = header_work h.
Proof.
  intros Hu. destruct (block_work_eq (E:=E) _ Hu) as (w & Hw & Hl & Hv).
  destruct (block_work_eq (E:=Empty_set) _ Hu) as (w' & Hw' & _ & Hv').
  exists w. split_and!; [done..|]. unfold header_work. rewrite Hw'. congruence.
Qed.

(** [insert] refuses at the cap, panics when the work leaves 256 bits, and otherwise
    appends one entry linked to its parent. *)
Lemma insert_spec header hash parent pe status : get es parent = Some pe ->
  is_u32 (hdr_bits header) -> t_index t !! hash = None -> hdr_prev_blockhash header = e_hash pe ->
  t_cap t <= len es /\ insert (E:=E) t header hash parent status = Ok (t, inl AcceptError.TreeFull) \/
  len es < t_cap t /\ 2 ^ 256 <= work_of pe + header_work header /\
    insert (E:=E) t header hash parent status = Panic \/
  len es < t_cap t /\ exists x, e_header x = header /\ e_hash x = hash /\ e_status x = status /\
    e_dirty x = true /\ linked es (len es) x parent pe /\
    length (work_be_bytes (e_chainwork x)) = 32%nat /\
    insert (E:=E) t header hash parent status = Ok (inserted t x, inr (len es)).
Proof.
  intros Hp Hu Hnew Hprev. unfold insert. fold es. destruct (Z.leb_spec (t_cap t) (len es)) as [|Hcap]; [by left|].
  right. pose proof (height_bound es Hs parent pe Hp) as Hb. pose proof (wf_cap p t Hwf) as Hmax.
  destruct (header_work_eq header Hu) as (w & Hw & Hwl & Hwv).
  rewrite (entry_Ok t parent pe Hp). run. rewrite next_eq by (unfold Height.MAX; lia). run.
  rewrite Hw. run. pose proof (shape_work es Hs parent pe Hp) as Hpl.
  destruct (Z.le_gt_cases (2 ^ 256) (work_of pe + header_work header)) as [Hover|Hfit].
  { left. split_and!; [done..|]. destruct (add_work (E:=E) _ w) as [s|e|] eqn:Hadd; run; [| |done].
    - destruct (add_work_inv (E:=E) _ w s Hpl Hwl Hadd) as [Hsv Hsl].
      pose proof (be_val_range (work_be_bytes s)) as Hr. rewrite Hsl in Hr.
      change (256 ^ Z.of_nat 32) with (2 ^ 256) in Hr. unfold work_val at 1 in Hsv. lia.
    - exfalso. unfold add_work in Hadd. destruct (add_le_bytes _ _ _). by destruct (_ =? 0). }
  right. split; [done|].
  destruct (add_work_ok (E:=E) _ w Hpl Hwl ltac:(lia)) as (cw & Hcw & Hcwv & Hcwl). rewrite Hcw. run.
  pose proof (skip_below (e_height pe + 1) ltac:(lia)) as Hsk.
  rewrite new_height_ok by lia. run.
  destruct (ancestor_ok (E:=E) t Hs parent pe (skip_height (e_height pe + 1)) Hp ltac:(lia))
    as (s & se & Hanc & Hd & Hse & Hsh).
  rewrite Hanc. run. rewrite bool_decide_eq_true_2 by done. run.
  unfold NodeId.at_. rewrite try_from_ok by (unfold MAX_TREE_HEADERS, u32_max in *; pose proof (len_nonneg es); lia). run.
  rewrite bool_decide_eq_true_2 by done. run.
  set (x := mkEntry header hash (e_height pe + 1) cw (Some parent) (Some s) status true).
  destruct (wf_best p t Hwf) as (be & Hbe & _). fold es in Hbe.
  exists x. split_and!; try done.
  - constructor; try done.
    + by apply get_Some_range in Hp as [_ ?].
    + change (e_chainwork x) with cw. change (e_header x) with header. lia.
    + by exists s, se.
  - rewrite (entry_Ok _ (t_best_header t) be); [|cbn; by apply get_snoc; left]. run.
    unfold inserted. fold es. rewrite Hbe. unfold work_gt.
    change (terminal x) with (HeaderStatus.is_terminal status). change (e_chainwork x) with cw.
    by destruct (negb _ && _).
Qed.

(** An accepted header's facts are good for the rules above it. *)
Lemma checked_facts height header : is_u32 (hdr_bits header) -> BlockTime.valid (hdr_time header) ->
  length (block_hash header) = 32%nat -> target_wf (pow_limit p) -> 4 <= le_val (block_hash header) ->
  check_header header p = Ok tt -> facts_ok (pow_limit p) (from_header height header).
Proof.
  intros Hu Ht Hl Hlim H4 Hck. unfold check_header in Hck. inv_ok.
  split; [done|]. split; [done|]. exists x. split; [done|].
  destruct (decode_target_Ok _ _ _ Hu Hlim Hx) as (Htw & _).
  rewrite hash_meets_target_eq in Hck by done.
  destruct (Z.leb_spec (le_val (block_hash header)) (target_val x)); [lia|done].
Qed.
End placing.

Lemma with_period_wf `{BitcoinCrate} p t period : tree_wf p t -> tree_wf p (with_period t period).
Proof. intros [? ? ? ? ? ? ? ? ? ?]. by constructor. Qed.

(** A header as the wire gives it: fields of their widths, a 32-byte hash that is not one of
    the four smallest numbers. *)
Record header_typed `{BitcoinCrate} (h : Header) : Prop := {
  typed_bits : is_u32 (hdr_bits h);
  typed_time : BlockTime.valid (hdr_time h);
  typed_hash : length (block_hash h) = 32%nat;
  typed_work : 4 <= le_val (block_hash h);
}.

(** The chain: one of the tabled ones, with the BIP34 height its [u32] type has. *)
Record chain_ok `{BitcoinCrate} (p : ChainParams) (interval : Z) : Prop := {
  chain_tabled : tabled p;
  chain_interval : forall E, difficulty_adjustment_interval (E:=E) p = Ok interval;
  chain_bip34 : 0 <= bip34_height (buried_bip34 (buried p));
}.

(** A new entry for [header] under [parent], with the status [s]. *)
Definition placed `{BitcoinCrate} (t : HeaderTree) (header : Header) (parent : Z) (pe : HeaderEntry)
    (s : HeaderStatus) (x : HeaderEntry) : Prop :=
  e_header x = header /\ e_hash x = block_hash header /\ e_status x = s /\
  linked (t_entries t) (len (t_entries t)) x parent pe /\ len (t_entries t) < t_cap t.

(** What [accept] promises, by cases on what is known of the header. [tried] is a header with
    valid work and a known parent. *)
Inductive accepts `{BitcoinCrate} (E : Type) (p : ChainParams) (interval : Z) (t : HeaderTree) (header : Header) (now : Z)
    : HeaderTree -> AcceptError + Accepted -> Prop :=
| acc_duplicate n e : get (t_entries t) n = Some e -> e_hash e = block_hash header ->
    accepts E p interval t header now t (inr (Duplicate n))
| acc_unchecked e : check_header header p = Err e ->
    accepts E p interval t header now t (inl (AcceptError.CheckHeader e))
| acc_orphan : (forall n e, get (t_entries t) n = Some e -> e_hash e <> hdr_prev_blockhash header) ->
    accepts E p interval t header now t (inl (AcceptError.UnknownParent (hdr_prev_blockhash header)))
| acc_full parent pe period : get (t_entries t) parent = Some pe -> e_hash pe = hdr_prev_blockhash header ->
    t_cap t <= len (t_entries t) ->
    accepts E p interval t header now (with_period t period) (inl AcceptError.TreeFull)
| acc_ancestor parent pe c x : verdict pe = Some c ->
    placed t header parent pe (HeaderStatus.InvalidAncestor c) x ->
    accepts E p interval t header now (inserted t x) (inl (AcceptError.InvalidAncestor (len (t_entries t)) c))
| acc_invalid parent pe ctx err period x : verdict pe = None ->
    context_after (E:=E) p t parent pe interval (block_hash header) header ctx ->
    accept_header header p ctx = Err err ->
    placed t header parent pe (HeaderStatus.Invalid (Invalidity.AcceptHeader err)) x ->
    accepts E p interval t header now (inserted (with_period t period) x)
      (inl (AcceptError.Invalid (len (t_entries t)) (Invalidity.AcceptHeader err)))
| acc_early parent pe ctx period : get (t_entries t) parent = Some pe -> verdict pe = None ->
    context_after (E:=E) p t parent pe interval (block_hash header) header ctx ->
    accept_header header p ctx = Ok tt ->
    Z.min u32_max (now + MAX_FUTURE_BLOCK_TIME) < hdr_time header ->
    accepts E p interval t header now (with_period t period)
      (inl (AcceptError.TooFarInFuture (hdr_time header) (Z.min u32_max (now + MAX_FUTURE_BLOCK_TIME))))
| acc_first parent pe ctx period x : verdict pe = None ->
    context_after (E:=E) p t parent pe interval (block_hash header) header ctx ->
    check_header header p = Ok tt -> accept_header header p ctx = Ok tt ->
    hdr_time header <= Z.min u32_max (now + MAX_FUTURE_BLOCK_TIME) ->
    placed t header parent pe HeaderStatus.HeaderAccepted x ->
    accepts E p interval t header now (inserted (with_period t period) x)
      (inr (First (len (t_entries t)) ctx)).

Section accepting.
Context `{BitcoinCrate} (p : ChainParams) (interval : Z) (Hp : chain_ok p interval).
Context (t : HeaderTree) (Hwf : tree_wf p t) (header : Header) (Hh : header_typed header).
Let es : list HeaderEntry := t_entries t.
Let Hs : tree_shape es := wf_shape p t Hwf.
Let hash : bytes := block_hash header.
Context (Hfresh : t_index t !! hash = None).

Lemma accept_header_total ctx n e : get es n = Some e -> terminal e = false ->
  ctx_previous_time ctx = hdr_time (e_header e) -> accept_header header p ctx <> Panic.
Proof using All.
  intros Hn Hlive Hprev. destruct (wf_facts p t Hwf n e Hn Hlive) as (_ & Htime & _).
  destruct (tabled_interval (E:=HeaderError) p (chain_tabled p interval Hp)) as (m & Hm & Hr).
  rewrite (chain_interval p interval Hp) in Hm. injection Hm as <-.
  unfold accept_header. rewrite (check_timewarp_eq p ctx _ interval);
    [repeat case_match; done|lia|apply (chain_interval p interval Hp)|by destruct Hh|by rewrite Hprev].
Qed.

Context (Hck : check_header header p = Ok tt).
Context (parent : Z) (pe : HeaderEntry) (Hpe : get es parent = Some pe)
  (Hprev : hdr_prev_blockhash header = e_hash pe).

(** Insertion under the parent, with a status its verdict allows. *)
Lemma insert_placed {E} period status :
  inherits pe (with_status status pe) -> HeaderStatus.is_connected status = false ->
  t_cap t <= len es /\ insert (E:=E) (with_period t period) header hash parent status =
    Ok (with_period t period, inl AcceptError.TreeFull) \/
  2 ^ 256 <= work_of pe + header_work header /\
    insert (E:=E) (with_period t period) header hash parent status = Panic \/
  exists x, placed t header parent pe status x /\ tree_wf p (inserted (with_period t period) x) /\
    insert (E:=E) (with_period t period) header hash parent status =
      Ok (inserted (with_period t period) x, inr (len es)).
Proof using All.
  intros Hinh Hidle. pose proof (with_period_wf p t period Hwf) as Hwf'. destruct Hh as [Hu Ht Hl H4].
  destruct (insert_spec (E:=E) p _ Hwf' header hash parent pe status Hpe Hu Hfresh Hprev)
    as [?|[(_ & Hc & ?)|(Hcap & x & Hx1 & Hx2 & Hx3 & Hx4 & Hx5 & Hx6 & Hx)]]; [by left|by right; left|].
  do 2 right. exists x. split; [by split_and!|]. split; [|done].
  eapply (inserted_wf p _ parent pe x); [done| |done]. constructor; try done.
  - by rewrite Hx2, Hx1.
  - cbn. by rewrite Hx2.
  - by rewrite Hx3.
  - unfold inherits in *. rewrite Hx3. exact Hinh.
  - intros _. unfold entry_facts. rewrite Hx1. destruct (ok_pow_limit p (tabled_ok p (chain_tabled p interval Hp))).
    by apply checked_facts.
Qed.

(** What [accept_under] may do: an answer, or the assertion on 256 bits of work. *)
Definition answers {E} (now : Z) (m : outcome E (HeaderTree * (AcceptError + Accepted))) : Prop :=
  2 ^ 256 <= work_of pe + header_work header /\ m = Panic \/
  exists t' r, m = Ok (t', r) /\ accepts E p interval t header now t' r /\ tree_wf p t'.

(** An insertion, and what is answered after it. *)
Lemma insert_answers {E} period status now (k : Z -> AcceptError + Accepted) :
  inherits pe (with_status status pe) -> HeaderStatus.is_connected status = false ->
  (forall x, placed t header parent pe status x ->
    accepts E p interval t header now (inserted (with_period t period) x) (k (len es))) ->
  answers now ('(self, node) ← insert (E:=E) (with_period t period) header hash parent status;
    Ok (self, match node with inl error => inl error | inr node => k node end)).
Proof using All.
  intros Hinh Hidle Hacc.
  destruct (insert_placed (E:=E) period status Hinh Hidle) as [[Hc Hins]|[[Hc Hins]|(x & Hx & Hwx & Hins)]]; rewrite Hins.
  - right. eexists _, _. split; [done|]. split; [by eapply acc_full|by apply with_period_wf].
  - by left.
  - right. eexists _, _. split; [done|]. split; [by apply Hacc|done].
Qed.

Lemma accept_under_spec {E} now : answers now (accept_under (E:=E) t header hash parent p now).
Proof using All.
  unfold accept_under, culprit. rewrite (entry_Ok t parent pe Hpe). run.
  change (match e_status pe with HeaderStatus.Invalid _ => _ | HeaderStatus.InvalidAncestor c => _ | _ => _ end)
    with (verdict pe).
  destruct (verdict pe) as [c|] eqn:Hver.
  { pose proof (insert_answers (E:=E) (t_period t) (HeaderStatus.InvalidAncestor c) now
      (fun node => inl (AcceptError.InvalidAncestor node c))) as Hans.
    replace (with_period t (t_period t)) with t in Hans by (by destruct t).
    apply Hans; [unfold inherits; rewrite Hver; by left|done|]. intros x Hx. by eapply acc_ancestor. }
  pose proof (proj2 (terminal_verdict pe) Hver) as Hlive.
  destruct (context_for_ok (E:=E) p t Hwf parent pe interval hash header) as (period & ctx & Hctx & Hafter);
    try done; [apply Hp|apply (chain_interval _ _ Hp)|by destruct Hh|apply Hp|].
  rewrite Hctx. run. pose proof (accept_header_total ctx parent pe Hpe Hlive (after_time _ _ _ _ _ _ _ _ Hafter)) as Htot.
  destruct (accept_header header p ctx) as [[]|err|] eqn:Hacc; [|clear Htot|done].
  - unfold future_limit, saturating_add32. destruct (Z.ltb_spec (Z.min u32_max (now + MAX_FUTURE_BLOCK_TIME)) (hdr_time header)).
    { right. eexists _, _. split; [done|]. split; [by eapply acc_early|by apply with_period_wf]. }
    apply (insert_answers (E:=E) period HeaderStatus.HeaderAccepted now (fun node => inr (First node ctx)));
      [unfold inherits; by rewrite Hver|done|]. intros x Hx. by eapply acc_first.
  - apply (insert_answers (E:=E) period (HeaderStatus.Invalid (Invalidity.AcceptHeader err)) now
      (fun node => inl (AcceptError.Invalid node (Invalidity.AcceptHeader err))));
      [unfold inherits; by rewrite Hver|done|]. intros x Hx. by eapply acc_invalid.
Qed.
End accepting.

(** [accept] answers by the cases of [accepts] and keeps the tree well formed; its only
    panic is the assertion that the work of the header's chain fits 256 bits. *)
Lemma accept_spec `{BitcoinCrate} {E} p interval t header now : chain_ok p interval -> tree_wf p t ->
  header_typed header ->
  (exists n e, get (t_entries t) n = Some e /\ e_hash e = hdr_prev_blockhash header /\
    2 ^ 256 <= work_of e + header_work header /\ accept (E:=E) t header p now = Panic) \/
  exists t' r, accept (E:=E) t header p now = Ok (t', r) /\
    accepts E p interval t header now t' r /\ tree_wf p t'.
Proof.
  intros Hp Hwf Hh. unfold accept, node_of.
  destruct (t_index t !! block_hash header) as [n|] eqn:Hidx.
  { apply (wf_index p t Hwf) in Hidx as (e & He & Heq).
    right. eexists _, _. split; [done|]. split; [by eapply acc_duplicate|done]. }
  destruct (check_header header p) as [[]|e|] eqn:Hck.
  - destruct (t_index t !! hdr_prev_blockhash header) as [parent|] eqn:Hpar.
    + apply (wf_index p t Hwf) in Hpar as (pe & Hpe & Heq).
      destruct (accept_under_spec (E:=E) p interval Hp t Hwf header Hh Hidx Hck parent pe Hpe (eq_sym Heq) now)
        as [[Hover Hpan]|Hans]; [left|right; done]. by exists parent, pe.
    + right. eexists _, _. split; [done|]. split; [|done]. apply acc_orphan. intros n e He Heq.
      assert (t_index t !! hdr_prev_blockhash header = Some n) by (apply (wf_index p t Hwf); eauto). congruence.
  - right. eexists _, _. split; [done|]. split; [by apply acc_unchecked|done].
  - exfalso. destruct Hh as [Hu _ Hl _]. destruct (ok_pow_limit p (tabled_ok p (chain_tabled _ _ Hp))) as [Hw _].
    rewrite check_header_eq in Hck by done. unfold decode_spec in Hck. by repeat case_match.
Qed.
