(* ===== verification/TreeLife.v ===== *)
(** * TreeLife: the statuses of the blocks of a well-formed tree

    [block_checked], [connected], [disconnected], [invalidate] and [clear_dirty]: when their
    assertions hold, what they change, and that the tree stays well formed. *)
From S2P Require Import Prelude Uint Target Bitcoin Flags Params Header Verify Tx Signet Block Coins SkipList Queue Tree TreeProofs TreeInv TreeOps.

(** The tree after one entry took a new status and was marked. *)
Definition touched (t : HeaderTree) (n : Z) (e : HeaderEntry) (s : HeaderStatus) : HeaderTree :=
  mkTree (<[Z.to_nat n := with_dirty true (with_status s e)]> (t_entries t)) (t_index t) (t_tip t)
    (t_best_header t) (if e_dirty e then t_dirty t else t_dirty t ++ [n]) (t_period t) (t_cap t).

Lemma nodup_bounded (l : list Z) n : NoDup l -> (forall i, i ∈ l -> 0 <= i < n) -> len l <= Z.max 0 n.
Proof.
  intros Hnd Hr. assert (Hsub : l ⊆+ seqZ 0 n).
  { apply NoDup_submseteq; [done|]. intros i Hi. apply elem_of_seqZ. specialize (Hr i Hi). lia. }
  apply submseteq_length in Hsub. rewrite length_seqZ in Hsub. unfold len. lia.
Qed.

Section touching.
Context {E : Type} (t : HeaderTree) (Hd : dirty_ok t) (n : Z) (e : HeaderEntry)
  (Hn : get (t_entries t) n = Some e) (s : HeaderStatus).
Let es : list HeaderEntry := t_entries t.
Let es' : list HeaderEntry := t_entries (touched t n e s).

Lemma touched_get i : get es' i = if decide (i = n) then Some (with_dirty true (with_status s e)) else get es i.
Proof. unfold es'. cbn. apply get_insert. by apply get_Some_range in Hn. Qed.

Lemma touched_links : same_links es es'.
Proof. apply (same_links_insert es n e); done. Qed.

Lemma touched_dirty : dirty_ok (touched t n e s).
Proof.
  destruct Hd as [Hnd Hdt]. split.
  - cbn. destruct (e_dirty e) eqn:He; [done|]. apply NoDup_app. split_and!; [done| |apply NoDup_singleton].
    intros i Hi ->%list_elem_of_singleton. apply Hdt in Hi as (e' & He' & ?). congruence.
  - intros i. fold es'. assert (i ∈ t_dirty (touched t n e s) <-> i ∈ t_dirty t \/ i = n) as ->.
    { cbn. destruct (e_dirty e) eqn:He; [|by rewrite elem_of_app, list_elem_of_singleton].
      split; [by left|]. intros [| ->]; [done|]. apply Hdt. eauto. }
    rewrite touched_get. case_decide as Hi.
    + split; [intros _|by right]. eexists. split; [done|done].
    + rewrite Hdt. split; [intros [?|?]; done|by left].
Qed.

Lemma touch_eq : (self ← update_entry (E:=E) t n (with_status s); mark_dirty self n) = Ok (touched t n e s).
Proof.
  unfold update_entry, mark_dirty. rewrite (entry_Ok t n e Hn). run.
  pose proof (get_Some_range _ _ _ Hn) as Hr.
  set (t1 := with_entries t _).
  assert (H1 : get (t_entries t1) n = Some (with_status s e))
    by (cbn; rewrite get_insert by done; by rewrite decide_True).
  rewrite (entry_Ok t1 n _ H1). run. change (e_dirty (with_status s e)) with (e_dirty e).
  destruct (e_dirty e) eqn:He.
  { f_equal. unfold t1, touched, with_entries. rewrite He. do 2 f_equal.
    unfold with_dirty, with_status. by rewrite He. }
  unfold update_entry. rewrite (entry_Ok t1 n _ H1). run. cbn [t_entries with_entries t1].
  rewrite list_insert_insert_eq. pose proof touched_dirty as [Hnd Hdt].
  assert (Hlen : len (t_dirty (touched t n e s)) <= len es).
  { pose proof (nodup_bounded (t_dirty (touched t n e s)) (len es) Hnd) as Hb.
    assert (0 <= len es) by apply len_nonneg. rewrite Z.max_r in Hb by lia. apply Hb.
    intros i Hi. apply Hdt in Hi as (e' & He' & _). fold es' in He'.
    apply get_Some_range in He'. unfold es' in He'. cbn in He'. by rewrite len_insert in He'. }
  cbn [with_dirties with_entries t_dirty t_entries]. cbn in Hlen. rewrite He in Hlen.
  rewrite len_insert, (proj2 (Z.leb_le _ _)) by exact Hlen. run.
  unfold touched, with_dirties. cbn. by rewrite He.
Qed.
End touching.

Section life.
Context `{BitcoinCrate} {E : Type} (p : ChainParams) (t : HeaderTree) (Hwf : tree_wf p t).
Let es : list HeaderEntry := t_entries t.
Let Hs : tree_shape es := wf_shape p t Hwf.

(** Replacing one status of a block that is not refused by another, and moving the tip. *)
Lemma live_change_wf n e s tip : get es n = Some e -> terminal e = false ->
  HeaderStatus.is_terminal s = false -> e_status e <> HeaderStatus.Genesis -> s <> HeaderStatus.Genesis ->
  is_Some (get es tip) ->
  (forall i ei, get es i = Some ei ->
    (if decide (i = n) then HeaderStatus.is_connected s else active ei) = true <-> descends es tip i) ->
  tree_wf p (with_tip (touched t n e s) tip).
Proof.
  intros Hn Hlive Hlive' Hng Hng' Htip Hact.
  pose proof (touched_links t n e Hn s) as Hl. pose proof (touched_get t n e Hn s) as Hget.
  pose proof (touched_dirty t (wf_dirty p t Hwf) n e Hn s) as Hdirty.
  assert (Hn0 : n <> 0) by (intros ->; by apply Hng, (wf_genesis p t Hwf 0 e)).
  assert (Hinv : forall i e', get (t_entries (touched t n e s)) i = Some e' ->
    i = n /\ e' = with_dirty true (with_status s e) \/ i <> n /\ get es i = Some e').
  { intros i e'. rewrite Hget. case_decide; [intros [= <-]|]; auto. }
  assert (Hv : forall i ei e', get es i = Some ei -> get (t_entries (touched t n e s)) i = Some e' ->
    verdict e' = verdict ei /\ terminal e' = terminal ei).
  { intros i ei e' Hi He'. apply Hinv in He' as [[-> ->]|[_ He']]; [|by simplify_eq].
    rewrite Hn in Hi. injection Hi as <-. apply terminal_verdict in Hlive as Hve. rewrite Hve. split; [|by rewrite Hlive].
    by apply terminal_verdict. }
  constructor; cbn [with_tip t_entries t_index t_tip t_best_header t_dirty t_cap].
  - by eapply same_links_shape.
  - cbn. rewrite len_insert. apply (wf_cap p t Hwf).
  - cbn. eapply same_links_index; [exact Hl|apply (wf_index p t Hwf)].
  - intros i e' [[-> ->]|[Hne He']]%Hinv; [cbn; tauto|]. by apply (wf_genesis p t Hwf).
  - destruct Htip as [te Hte]. destruct (same_links_get _ _ _ _ Hl Hte) as (te' & ? & _). eauto.
  - intros i e' He'. rewrite <-(same_links_descends es _ _ _ Hl).
    pose proof (Hinv _ _ He') as [[-> ->]|[Hne He]].
    + rewrite <-(Hact n e Hn), decide_True by done. done.
    + rewrite <-(Hact i e' He), decide_False by done. done.
  - intros i e' q qe' He' Hq Hqe'.
    destruct (same_links_get _ _ _ _ (same_links_sym _ _ Hl) He') as (ei & Hei & Heq).
    destruct (same_links_get _ _ _ _ (same_links_sym _ _ Hl) Hqe') as (qe & Hqe & _).
    assert (e_parent ei = Some q) as Hq' by (unfold link_of in Heq; congruence).
    pose proof (wf_verdict p t Hwf i ei q qe Hei Hq' Hqe) as Hold. fold es in Hei, Hqe. unfold inherits in *.
    destruct (Hv q qe qe' Hqe Hqe') as [-> _].
    apply Hinv in He' as [[-> ->]|[_ He']]; [|rewrite He' in Hei; by injection Hei as ->].
    rewrite Hn in Hei. injection Hei as <-. destruct (verdict qe).
    + destruct Hold as [Hold|[v Hold]]; by rewrite Hold in Hlive.
    + cbn. intros c Hc. by rewrite Hc in Hlive'.
  - intros i e' He' Ht'. apply Hinv in He' as [[-> ->]|[_ He']]; [|by eapply (wf_facts p t Hwf)].
    apply (wf_facts p t Hwf n e Hn Hlive).
  - destruct (wf_best p t Hwf) as (be & Hbe & Htb & Hmax).
    destruct (same_links_get _ _ _ _ Hl Hbe) as (be' & Hbe' & Heq).
    exists be'. split_and!; [done|by destruct (Hv _ _ _ Hbe Hbe') as [_ ->]|].
    intros i e' He' Hte'. destruct (same_links_get _ _ _ _ (same_links_sym _ _ Hl) He') as (ei & Hei & Heq'). fold es in Hei.
    destruct (Hv _ _ _ Hei He') as [_ Hti]. rewrite Hte' in Hti. unfold link_of in *.
    replace (e_chainwork e') with (e_chainwork ei) by congruence.
    replace (e_chainwork be') with (e_chainwork be) by congruence. by apply Hmax.
  - exact Hdirty.
Qed.

Lemma block_checked_spec n e location : get es n = Some e -> e_status e = HeaderStatus.HeaderAccepted ->
  block_checked (E:=E) t n location = Ok (touched t n e (HeaderStatus.BlockChecked location)) /\
  tree_wf p (touched t n e (HeaderStatus.BlockChecked location)).
Proof.
  intros Hn Hst. split.
  - unfold block_checked. rewrite (entry_Ok t n e Hn). run. rewrite Hst. run.
    apply (touch_eq t (wf_dirty p t Hwf) n e Hn).
  - apply (live_change_wf n e (HeaderStatus.BlockChecked location) (t_tip t)); rewrite ?Hst; try done;
      [apply (wf_tip p t Hwf)|].
    intros i ei Hi. pose proof (wf_active p t Hwf i ei Hi) as Ha. fold es in Ha. rewrite <-Ha.
    case_decide; [|done]. subst. rewrite Hi in Hn. injection Hn as ->. by rewrite Hst.
Qed.

Lemma connected_spec n e location undo : get es n = Some e -> e_status e = HeaderStatus.BlockChecked location ->
  e_parent e = Some (t_tip t) ->
  connected (E:=E) t n undo = Ok (with_tip (touched t n e (HeaderStatus.Connected location undo)) n) /\
  tree_wf p (with_tip (touched t n e (HeaderStatus.Connected location undo)) n).
Proof.
  intros Hn Hst Hp. split.
  - unfold connected. rewrite (entry_Ok t n e Hn). run. rewrite bool_decide_eq_true_2 by done. run. rewrite Hst.
    pose proof (touch_eq (E:=E) t (wf_dirty p t Hwf) n e Hn (HeaderStatus.Connected location undo)) as Ht.
    apply bind_Ok in Ht as (t1 & Ht1 & Ht2). rewrite Ht1. run. rewrite Ht2. done.
  - apply live_change_wf; rewrite ?Hst; try (done || by eexists).
    intros i ei Hi. case_decide as Hin; [subst; split; [intros _; constructor|done]|].
    rewrite (wf_active p t Hwf i ei Hi). fold es. split; intros Hd.
    + econstructor; done.
    + by apply (descends_parent es n e (t_tip t) i).
Qed.

Lemma disconnected_spec e location undo : get es (t_tip t) = Some e ->
  e_status e = HeaderStatus.Connected location undo ->
  exists q, e_parent e = Some q /\
    disconnected (E:=E) t (t_tip t) = Ok (with_tip (touched t (t_tip t) e (HeaderStatus.BlockChecked location)) q) /\
    tree_wf p (with_tip (touched t (t_tip t) e (HeaderStatus.BlockChecked location)) q).
Proof.
  intros Hn Hst. set (n := t_tip t) in *.
  destruct (entry_cases es Hs n e Hn) as [(H0 & _)|(_ & q & qe & Hl)].
  { apply (wf_genesis p t Hwf n e Hn) in H0. congruence. }
  pose proof (linked_parent _ _ _ _ _ Hl) as Hp. pose proof (linked_get _ _ _ _ _ Hl) as Hq.
  exists q. split; [done|]. split.
  - unfold disconnected. fold n. rewrite Z.eqb_refl. run. rewrite (entry_Ok t n e Hn). run. rewrite Hst, Hp. run.
    pose proof (touch_eq (E:=E) t (wf_dirty p t Hwf) n e Hn (HeaderStatus.BlockChecked location)) as Ht.
    apply bind_Ok in Ht as (t1 & Ht1 & Ht2). rewrite Ht1. run. rewrite Ht2. done.
  - apply live_change_wf; rewrite ?Hst; try (done || by eexists).
    intros i ei Hi. case_decide as Hin.
    + subst i. split; [done|]. intros Hd. destruct (descends_height es Hs q n qe e Hd Hq Hn) as (_ & Hle & _).
      pose proof (linked_height _ _ _ _ _ Hl). lia.
    + rewrite (wf_active p t Hwf i ei Hi). fold es n. split; intros Hd; [|by econstructor].
      by apply (descends_parent es n e q i).
Qed.

End life.

(** ** Clearing the marks *)

Lemma clear_fold {E} l t : (forall i, i ∈ l -> is_Some (get (t_entries t) i)) ->
  exists es1, foldM (fun self node => update_entry (E:=E) self node (with_dirty false)) t l =
      Ok (with_entries t es1) /\ len es1 = len (t_entries t) /\
    forall i, get es1 i = if decide (i ∈ l) then with_dirty false <$> get (t_entries t) i else get (t_entries t) i.
Proof.
  revert t. induction l as [|n l IH]; intros t Hl; cbn [foldM].
  { exists (t_entries t). split_and!; [by destruct t|done|].
    intros i. rewrite decide_False; [done|]. apply not_elem_of_nil. }
  destruct (Hl n) as [e He]; [set_solver|]. unfold update_entry. rewrite (entry_Ok t n e He). run.
  pose proof (get_Some_range _ _ _ He) as Hr.
  set (t1 := with_entries t (<[Z.to_nat n := with_dirty false e]> (t_entries t))).
  assert (Hg : forall i, get (t_entries t1) i = if decide (i = n) then Some (with_dirty false e) else get (t_entries t) i)
    by (intros i; by apply get_insert).
  destruct (IH t1) as (es1 & Hf & Hlen & Hget).
  { intros i Hi. rewrite Hg. case_decide; [done|]. apply Hl. set_solver. }
  exists es1. split_and!; [exact Hf|rewrite Hlen; apply len_insert|].
  intros i. rewrite Hget, Hg. destruct (decide (i = n)) as [->|Hne].
  - rewrite (decide_True (P := n ∈ n :: l)) by set_solver. rewrite He. by case_decide.
  - destruct (decide (i ∈ l)); [rewrite decide_True by set_solver; done|].
    by rewrite decide_False by set_solver.
Qed.

(** [clear_dirty] takes the marks off and changes nothing else. *)
Lemma clear_dirty_spec `{BitcoinCrate} {E} p t : tree_wf p t ->
  exists es1, clear_dirty (E:=E) t = Ok (with_dirties (with_entries t es1) []) /\
    tree_wf p (with_dirties (with_entries t es1) []) /\
    forall i, get es1 i = with_dirty false <$> get (t_entries t) i.
Proof.
  intros Hwf. destruct (wf_dirty p t Hwf) as [_ Hd].
  destruct (clear_fold (E:=E) (t_dirty t) t) as (es1 & Hf & Hlen & Hget).
  { intros i (e & He & _)%Hd. eauto. }
  assert (Hg : forall i, get es1 i = with_dirty false <$> get (t_entries t) i).
  { intros i. rewrite Hget. case_decide as Hi; [done|]. destruct (get (t_entries t) i) as [e|] eqn:He; [|done].
    cbn. f_equal. destruct (e_dirty e) eqn:Hde; [exfalso; apply Hi, Hd; eauto|].
    unfold with_dirty. by destruct e; cbn in Hde; subst. }
  exists es1. split; [unfold clear_dirty; by rewrite Hf|]. split; [|done].
  assert (Hinv : forall i e', get es1 i = Some e' -> exists e, get (t_entries t) i = Some e /\ e' = with_dirty false e).
  { intros i e'. rewrite Hg. destruct (get (t_entries t) i); [|done]. cbn. intros [= <-]. eauto. }
  assert (Hl : same_links (t_entries t) es1).
  { unfold same_links. apply list_eq. intros i. pose proof (Hg (Z.of_nat i)) as Hi. unfold get in Hi.
    rewrite (proj2 (Z.leb_le 0 (Z.of_nat i))), Nat2Z.id in Hi by lia.
    rewrite !list_lookup_fmap, Hi. by destruct (t_entries t !! i). }
  constructor; cbn [with_dirties with_entries t_entries t_index t_tip t_best_header t_dirty t_cap].
  - eapply same_links_shape; [done|apply (wf_shape p t Hwf)].
  - rewrite Hlen. apply (wf_cap p t Hwf).
  - eapply same_links_index; [done|apply (wf_index p t Hwf)].
  - intros i e' (e & He & ->)%Hinv. exact (wf_genesis p t Hwf i e He).
  - destruct (wf_tip p t Hwf) as [te Hte]. rewrite Hg, Hte. eauto.
  - intros i e' (e & He & ->)%Hinv. rewrite <-(same_links_descends (t_entries t)) by done.
    exact (wf_active p t Hwf i e He).
  - intros i e' q qe' (e & He & ->)%Hinv Hq (qe & Hqe & ->)%Hinv. by apply (wf_verdict p t Hwf i e q qe).
  - intros i e' (e & He & ->)%Hinv. by apply (wf_facts p t Hwf i e).
  - destruct (wf_best p t Hwf) as (be & Hbe & Htb & Hmax). exists (with_dirty false be).
    split_and!; [by rewrite Hg, Hbe|done|]. intros i e' (e & He & ->)%Hinv. exact (Hmax i e He).
  - split; [constructor|]. intros i. split; [by intros ?%not_elem_of_nil|].
    intros (e' & (e & He & ->)%Hinv & ?). done.
Qed.

(** ** Refusing a block, its descendants, and choosing the most-work header again

    [invalidate] marks one block and then makes one ascending pass over the arena.  The
    loop invariant of the pass says what the entries before the position have become. *)

Lemma terminal_cases e : terminal e = true ->
  (exists v, e_status e = HeaderStatus.Invalid v) \/ exists c, e_status e = HeaderStatus.InvalidAncestor c.
Proof. unfold HeaderStatus.is_terminal. destruct (e_status e); try done; eauto. Qed.

Section refuse.
Context `{BitcoinCrate} {E : Type} (p : ChainParams) (t : HeaderTree) (Hwf : tree_wf p t).
Let es : list HeaderEntry := t_entries t.
Let Hs : tree_shape es := wf_shape p t Hwf.
Context (n : Z) (e : HeaderEntry) (Hn : get es n = Some e)
  (Hlive : terminal e = false) (Hidle : active e = false) (v : Invalidity).
Let t1 : HeaderTree := touched t n e (HeaderStatus.Invalid v).
Let es1 : list HeaderEntry := t_entries t1.

(** The blocks that inherit the verdict. *)
Definition refused (i : Z) : Prop :=
  i <> n /\ descends es i n /\ exists ei, get es i = Some ei /\ terminal ei = false.

(** The entry [i] once the pass is beyond it. *)
Definition outcome_of (k i : Z) (ei e' : HeaderEntry) : Prop :=
  (i < k /\ refused i /\ e' = with_status (HeaderStatus.InvalidAncestor (e_hash e)) ei) \/
  (~ (i < k /\ refused i) /\ e' = ei).

Definition marks (k : Z) (es' : list HeaderEntry) : Prop :=
  len es' = len es1 /\
  forall i ei, get es1 i = Some ei -> exists e', get es' i = Some e' /\ outcome_of k i ei e'.

Local Lemma es1_get i : get es1 i = if decide (i = n)
  then Some (with_dirty true (with_status (HeaderStatus.Invalid v) e)) else get es i.
Proof. exact (touched_get t n e Hn _ i). Qed.

Local Lemma links1 : same_links es es1.
Proof. exact (touched_links t n e Hn _). Qed.

Local Lemma n_pos : 0 < n.
Proof.
  pose proof (get_Some_range _ _ _ Hn) as [Hr _]. destruct (decide (n = 0)) as [->|]; [|lia].
  pose proof (proj2 (wf_genesis p t Hwf 0 e Hn) eq_refl) as Hg. by rewrite Hg in Hidle.
Qed.

Local Lemma refused_after i : refused i -> n < i.
Proof.
  intros (Hne & Hd & ei & Hei & _). destruct (descends_height es Hs i n ei e Hd Hei Hn) as (_ & _ & Hlt).
  destruct Hlt; [done|lia].
Qed.

(** A block that is refused is not on the active chain. *)
Lemma refused_idle i ei : refused i -> get es i = Some ei -> active ei = false.
Proof.
  intros (_ & Hd & _) Hei. destruct (active ei) eqn:Ha; [|done].
  apply (wf_active p t Hwf i ei Hei) in Ha. rewrite <-Hidle. symmetry.
  apply (wf_active p t Hwf n e Hn). by eapply descends_trans.
Qed.

(** Whether a child is refused, from its parent. *)
Local Lemma refused_child i ei q qe : get es i = Some ei -> linked es i ei q qe ->
  i <> n -> terminal ei = false -> refused i <-> q = n \/ refused q.
Proof.
  intros Hei Hl Hne Hti. pose proof (linked_parent _ _ _ _ _ Hl) as Hq. pose proof (linked_get _ _ _ _ _ Hl) as Hqe.
  split.
  - intros (_ & Hd & _). destruct (decide (q = n)); [by left|]. right. split_and!; [done| |].
    + by apply (descends_parent es i ei q n).
    + exists qe. split; [done|]. by eapply (parent_live p t Hwf i ei q qe).
  - intros Hor. split_and!; [done| |eauto]. econstructor; [done..|].
    destruct Hor as [->|(_ & Hd & _)]; [constructor|done].
Qed.

(** The verdict of an entry, during the pass. *)
Local Lemma pass_verdict k es' q qe e' : marks k es' -> q < k -> get es q = Some qe -> get es' q = Some e' ->
  (q = n \/ refused q) /\ verdict e' = Some (e_hash e) \/
  ~ (q = n \/ refused q) /\ verdict e' = verdict qe.
Proof.
  intros [_ Hm] Hqk Hqe He'.
  assert (Hget : exists ei, get es1 q = Some ei) by (rewrite es1_get; case_decide; eauto).
  destruct Hget as [ei Hei]. destruct (Hm q ei Hei) as (e'' & He'' & Ho). simplify_eq.
  destruct Ho as [(_ & Hr & ->)|[Hnr ->]]; [left; split; [by right|done]|].
  rewrite es1_get in Hei. destruct (decide (q = n)) as [->|Hne].
  - injection Hei as <-. left. by split; [left|].
  - simplify_eq. right. split; [|done]. intros [?|?]; [done|]. apply Hnr. by split.
Qed.

(** The best of the entries the pass has seen. *)
Definition best_upto (k : Z) (es' : list HeaderEntry) (best : Z) (bw : Work) : Prop :=
  exists be, get es' best = Some be /\ terminal be = false /\ bw = e_chainwork be /\ (best < k \/ best = 0) /\
    forall i ei, i < k -> get es' i = Some ei -> terminal ei = false ->
      work_of ei < work_of be \/ work_of ei = work_of be /\ best <= i.

Definition pass_inv (k : Z) (st : HeaderTree * Z * Work) : Prop :=
  let '(t', best, bw) := st in
  exists es', t' = with_entries t1 es' /\ marks k es' /\ best_upto k es' best bw.

(** One position: the entry inherits its parent's verdict exactly when it is refused. *)
Local Lemma inherit_step k es' : 0 <= k < len es -> marks k es' ->
  exists es'', (if n <? k then inherit (E:=E) (with_entries t1 es') k else Ok (with_entries t1 es')) =
      Ok (with_entries t1 es'') /\ marks (k + 1) es'' /\
    forall i, i <> k -> get es'' i = get es' i.
Proof.
  intros Hk [Hlen Hm]. destruct (get_in_range es k Hk) as [ek Hek].
  assert (Hget1 : exists e1, get es1 k = Some e1) by (rewrite es1_get; case_decide; eauto).
  destruct Hget1 as [e1 He1]. destruct (Hm k e1 He1) as (e' & He' & [(Hlt & _)|[_ ->]]); [lia|].
  (* leaving the entry alone is right when it is not refused *)
  assert (Hsame : ~ refused k -> marks (k + 1) es').
  { intros Hnr. split; [done|]. intros i ei Hei. destruct (Hm i ei Hei) as (ei' & Hei' & Ho).
    exists ei'. split; [done|]. destruct Ho as [(Hik & Hr & ->)|[Hnk ->]]; [left|right]; split_and!; try done; [lia|].
    intros [Hik Hr]. destruct (decide (i = k)) as [->|]; [done|]. apply Hnk. split; [lia|done]. }
  destruct (Z.ltb_spec n k) as [Hnk|Hnk].
  2:{ exists es'. split_and!; [done| |done]. apply Hsame. intros Hr%refused_after. lia. }
  rewrite es1_get, decide_False in He1 by lia. rewrite Hek in He1. injection He1 as <-.
  unfold inherit. rewrite (entry_Ok (with_entries t1 es') k ek He'). run.
  destruct (terminal ek) eqn:Htk.
  { exists es'. split_and!; [done| |done]. apply Hsame. intros (_ & _ & ei & ? & ?). congruence. }
  destruct (entry_cases es Hs k ek Hek) as [(-> & _)|(_ & q & qe & Hl)]; [pose proof n_pos; lia|].
  rewrite (linked_parent _ _ _ _ _ Hl). pose proof (linked_get _ _ _ _ _ Hl) as Hqe.
  pose proof (linked_before _ _ _ _ _ Hl) as Hqk.
  assert (Hqin : exists q', get es' q = Some q').
  { apply get_in_range. rewrite Hlen, (same_links_len es es1 links1). apply get_Some_range in Hqe. lia. }
  destruct Hqin as [q' Hq']. unfold culprit. rewrite (entry_Ok (with_entries t1 es') q q' Hq'). run.
  change (match e_status q' with HeaderStatus.Invalid _ => _ | HeaderStatus.InvalidAncestor c => _ | _ => _ end)
    with (verdict q').
  pose proof (refused_child k ek q qe Hek Hl ltac:(lia) Htk) as Hchild.
  destruct (pass_verdict k es' q qe q' (conj Hlen Hm) Hqk Hqe Hq') as [[Hor ->]|[Hnor ->]].
  - apply Hchild in Hor. rewrite (refused_idle k ek Hor Hek). run. unfold update_entry.
    rewrite (entry_Ok (with_entries t1 es') k ek He'). run.
    eexists. split; [reflexivity|].
    assert (Hg : forall i, get (<[Z.to_nat k := with_status (HeaderStatus.InvalidAncestor (e_hash e)) ek]> es') i =
      if decide (i = k) then Some (with_status (HeaderStatus.InvalidAncestor (e_hash e)) ek) else get es' i)
      by (intros i; apply get_insert; by apply get_Some_range in He').
    split; [|intros i Hi; rewrite Hg; by rewrite decide_False].
    split; [by rewrite len_insert|]. intros i ei Hei. rewrite Hg. destruct (decide (i = k)) as [->|Hne].
    + rewrite es1_get, decide_False, Hek in Hei by lia. injection Hei as <-.
      eexists. split; [done|]. left. split_and!; [lia|done|done].
    + destruct (Hm i ei Hei) as (ei' & Hei' & Ho). exists ei'. split; [done|].
      destruct Ho as [(Hik & Hr & ->)|[Hnk' ->]]; [left|right]; split_and!; try done; [lia|].
      intros [Hik Hr]. apply Hnk'. split; [lia|done].
  - assert (verdict qe = None) as ->.
    { apply terminal_verdict. eapply (parent_live p t Hwf k ek q qe); try done. by destruct Hl. }
    exists es'. split_and!; [done| |done]. apply Hsame. by rewrite Hchild.
Qed.

Local Lemma pass_step k st : 0 <= k < len es -> pass_inv k st ->
  exists st', reselect_step (E:=E) n st k = Ok st' /\ pass_inv (k + 1) st'.
Proof.
  destruct st as [[t' best] bw]. intros Hk (es' & -> & Hm & be & Hbe & Htb & -> & Hb & Hmax).
  unfold reselect_step, NodeId.at_.
  pose proof (wf_cap p t Hwf) as Hcap. fold es in Hcap. unfold MAX_TREE_HEADERS in Hcap.
  rewrite try_from_ok by (unfold u32_max; lia). run.
  destruct (inherit_step k es' Hk Hm) as (es'' & -> & Hm'' & Hsame). run.
  assert (Hkin : exists ek, get es'' k = Some ek).
  { apply get_in_range. rewrite (proj1 Hm''), (same_links_len es es1 links1). lia. }
  destruct Hkin as [ek Hek]. rewrite (entry_Ok (with_entries t1 es'') k ek Hek). run.
  assert (Hbe'' : best < k -> get es'' best = Some be) by (intros; rewrite Hsame by lia; done).
  destruct (decide (best = 0 /\ k = 0)) as [[-> ->]|Hnz].
  { (* genesis against itself *)
    assert (Heq : ek = be).
    { destruct Hm as [_ Hm]. destruct Hm'' as [_ Hm'']. 
      destruct (get_in_range es1 0) as [g Hg]; [rewrite (same_links_len es es1 links1); lia|].
      destruct (Hm 0 g Hg) as (g1 & Hg1 & [(? & _)|[_ ->]]); [lia|].
      destruct (Hm'' 0 g Hg) as (g2 & Hg2 & [(_ & Hr & _)|[_ ->]]); [apply refused_after in Hr; pose proof n_pos; lia|].
      congruence. }
    subst ek. unfold work_gt. rewrite Z.ltb_irrefl, andb_false_r.
    eexists. split; [done|]. exists es''. split; [done|]. split; [done|].
    exists be. split_and!; try done; [by right|]. intros i ei Hi Hei Hti.
    pose proof (get_Some_range _ _ _ Hei). replace i with 0 in * by lia. simplify_eq. right. lia. }
  assert (Hbk : best < k) by lia. specialize (Hbe'' Hbk).
  destruct (negb (terminal ek) && work_gt (e_chainwork ek) (e_chainwork be)) eqn:Hbetter.
  - apply andb_true_iff in Hbetter as [Hte%negb_true_iff Hgt%Z.ltb_lt].
    eexists. split; [done|]. exists es''. split; [done|]. split; [done|].
    exists ek. split_and!; try done; [left; lia|]. intros i ei Hi Hei Hti.
    destruct (decide (i = k)) as [->|]; [simplify_eq; right; lia|].
    rewrite Hsame in Hei by done. destruct (Hmax i ei ltac:(lia) Hei Hti); left; lia.
  - eexists. split; [done|]. exists es''. split; [done|]. split; [done|].
    exists be. split_and!; try done; [left; lia|]. intros i ei Hi Hei Hti.
    destruct (decide (i = k)) as [->|]; [|rewrite Hsame in Hei by done; apply Hmax; done || lia].
    simplify_eq. rewrite Hti in Hbetter. cbn [negb andb] in Hbetter. apply Z.ltb_ge in Hbetter. lia.
Qed.

Local Lemma pass_loop st : pass_inv 0 st ->
  exists st', foldM (reselect_step (E:=E) n) st (seqZ 0 (len es)) = Ok st' /\ pass_inv (len es) st'.
Proof.
  assert (Hgen : forall m k st, 0 <= k -> k + Z.of_nat m <= len es -> pass_inv k st ->
    exists st', foldM (reselect_step (E:=E) n) st (seqZ k (Z.of_nat m)) = Ok st' /\ pass_inv (k + Z.of_nat m) st').
  { intros m. induction m as [|m IH]; intros k st0 Hk Hle Hinv.
    - exists st0. cbn. by rewrite Z.add_0_r.
    - rewrite seqZ_cons by lia. cbn [foldM].
      destruct (pass_step k st0 ltac:(lia) Hinv) as (st1 & -> & Hinv1). run.
      replace (Z.succ k) with (k + 1) by lia. replace (Z.pred (Z.of_nat (S m))) with (Z.of_nat m) by lia.
      destruct (IH (k + 1) st1 ltac:(lia) ltac:(lia) Hinv1) as (st' & Hst' & Hinv').
      exists st'. split; [done|]. by replace (k + Z.of_nat (S m)) with (k + 1 + Z.of_nat m) by lia. }
  intros Hinv. pose proof (len_nonneg es).
  destruct (Hgen (length es) 0 st ltac:(lia) ltac:(unfold len; lia) Hinv) as (st' & Hst' & Hinv').
  by exists st'.
Qed.

(** The entries after the pass. *)
Definition refusal (es' : list HeaderEntry) : Prop :=
  len es' = len es /\ forall i ei, get es i = Some ei -> exists e', get es' i = Some e' /\
    (i = n /\ e' = with_dirty true (with_status (HeaderStatus.Invalid v) e) \/
     refused i /\ e' = with_status (HeaderStatus.InvalidAncestor (e_hash e)) ei \/
     i <> n /\ ~ refused i /\ e' = ei).

Local Lemma marks_refusal es' : marks (len es) es' -> refusal es'.
Proof.
  intros [Hlen Hm]. split; [by rewrite Hlen, (same_links_len es es1 links1)|]. intros i ei Hei.
  assert (Hi1 : exists e1, get es1 i = Some e1) by (rewrite es1_get; case_decide; eauto).
  destruct Hi1 as [e1 He1]. destruct (Hm i e1 He1) as (e' & He' & Ho). exists e'. split; [done|].
  pose proof (get_Some_range _ _ _ Hei) as Hr. rewrite es1_get in He1. destruct (decide (i = n)) as [->|Hne].
  - injection He1 as <-. left. split; [done|]. destruct Ho as [(_ & Hx & _)|[_ ->]]; [|done].
    destruct Hx as [? _]. done.
  - rewrite Hei in He1. injection He1 as <-. right.
    destruct Ho as [(_ & Hx & ->)|[Hnx ->]]; [by left|right]. split_and!; try done.
    intros Hx. apply Hnx. split; [lia|done].
Qed.

Local Lemma refusal_inv es' i e' : refusal es' -> get es' i = Some e' -> exists ei, get es i = Some ei /\
    (i = n /\ ei = e /\ e' = with_dirty true (with_status (HeaderStatus.Invalid v) e) \/
     refused i /\ e' = with_status (HeaderStatus.InvalidAncestor (e_hash e)) ei \/
     i <> n /\ ~ refused i /\ e' = ei).
Proof.
  intros [Hlen Hf] He'. destruct (get_in_range es i) as [ei Hei].
  { rewrite <-Hlen. by apply get_Some_range in He'. }
  exists ei. split; [done|]. destruct (Hf i ei Hei) as (e'' & He'' & Ho). simplify_eq.
  destruct Ho as [[-> ->]|Ho]; [left|by right]. by rewrite Hn in Hei; injection Hei as <-.
Qed.

Local Lemma refusal_links es' : refusal es' -> same_links es es'.
Proof.
  intros Hr. apply list_eq. intros i. unfold same_links.
  change (map link_of es) with (link_of <$> es). change (map link_of es') with (link_of <$> es').
  rewrite !list_lookup_fmap. destruct (es !! i) as [ei|] eqn:Hi.
  - destruct (proj2 Hr (Z.of_nat i) ei) as (e' & He' & Ho).
    { unfold get. by rewrite (proj2 (Z.leb_le 0 (Z.of_nat i))), Nat2Z.id by lia. }
    unfold get in He'. rewrite (proj2 (Z.leb_le 0 (Z.of_nat i))), Nat2Z.id in He' by lia. rewrite He'.
    cbn. f_equal. destruct Ho as [[Hx ->]|[[_ ->]|(_ & _ & ->)]]; try done.
    assert (get es n = Some ei) as Hy.
    { rewrite <-Hx. unfold get. by rewrite (proj2 (Z.leb_le 0 (Z.of_nat i))), Nat2Z.id by lia. }
    rewrite Hn in Hy. by injection Hy as <-.
  - destruct Hr as [Hlen _]. apply lookup_ge_None in Hi. unfold len in Hlen.
    by rewrite (proj2 (lookup_ge_None es' i)) by lia.
Qed.

Local Lemma refusal_verdicts es' i e' q q' : refusal es' -> get es' i = Some e' ->
  e_parent e' = Some q -> get es' q = Some q' -> inherits q' e'.
Proof.
  intros Hr He' Hq Hq'.
  destruct (refusal_inv es' i e' Hr He') as (ei & Hei & Hi).
  destruct (refusal_inv es' q q' Hr Hq') as (qe & Hqe & Hqi).
  assert (Hpar : e_parent ei = Some q).
  { destruct Hi as [(_ & -> & ->)|[[_ ->]|(_ & _ & ->)]]; done. }
  destruct (parent_linked es Hs i ei q Hei Hpar) as [qe2 Hl].
  assert (qe2 = qe) as -> by (pose proof (linked_get _ _ _ _ _ Hl); congruence).
  pose proof (linked_before _ _ _ _ _ Hl) as Hbefore.
  pose proof (wf_verdict p t Hwf i ei q qe Hei Hpar Hqe) as Hold.
  destruct (decide (q = n)) as [Hqn|Hqn].
  - (* a child of the refused block *)
    assert (verdict q' = Some (e_hash e)) as Hv.
    { destruct Hqi as [(_ & _ & ->)|[[Hx _]|(Hx & _)]]; [done|by destruct Hx|done]. }
    assert (Hveq : verdict qe = None).
    { apply terminal_verdict. subst q. rewrite Hn in Hqe. by injection Hqe as <-. }
    unfold inherits in *. rewrite Hv. rewrite Hveq in Hold.
    destruct Hi as [(-> & _)|[[_ ->]|(Hin & Hnr & ->)]]; [lia|by left|right].
    destruct (terminal ei) eqn:Hti.
    + destruct (terminal_cases ei Hti) as [?|[c Hc]]; [done|by destruct (Hold c)].
    + exfalso. apply Hnr. rewrite (refused_child i ei q qe); auto.
  - destruct Hqi as [(? & _)|[[Hrq ->]|(_ & Hnrq & ->)]]; [done| |].
    + (* a child of a block that inherits *)
      unfold inherits in *. cbn. destruct Hrq as (Hqn' & Hdq & qe' & Hqe' & Hlq).
      rewrite Hqe in Hqe'. injection Hqe' as <-. rewrite (proj1 (terminal_verdict qe) Hlq) in Hold.
      destruct Hi as [(-> & -> & ->)|[[_ ->]|(Hin & Hnr & ->)]]; [right; eauto|by left|right].
      destruct (terminal ei) eqn:Hti.
      * destruct (terminal_cases ei Hti) as [?|[c Hc]]; [done|by destruct (Hold c)].
      * exfalso. apply Hnr. rewrite (refused_child i ei q qe); auto. right. split_and!; eauto.
    + (* the parent has not changed *)
      destruct Hi as [(-> & -> & ->)|[[Hri ->]|(_ & _ & ->)]]; [| |done].
      * unfold inherits in *. assert (verdict qe = None) as ->; [|done].
        apply terminal_verdict. eapply (parent_live p t Hwf n e q qe); done.
      * exfalso. pose proof Hri as (Hin & _ & ei' & Hei' & Hli). rewrite Hei in Hei'. injection Hei' as <-.
        apply (refused_child i ei q qe Hei Hl Hin Hli) in Hri as [?|?]; done.
Qed.

Local Lemma refusal_wf es' best : refusal es' -> best_of es' best ->
  tree_wf p (with_best (with_entries t1 es') best).
Proof.
  intros Hr Hbest. pose proof (refusal_links es' Hr) as Hl. pose proof n_pos as Hpos.
  pose proof (touched_dirty t (wf_dirty p t Hwf) n e Hn (HeaderStatus.Invalid v)) as [Hnd Hd].
  constructor; cbn [with_best with_entries t_entries t_index t_tip t_best_header t_dirty t_cap].
  - by eapply same_links_shape.
  - rewrite (proj1 Hr). apply (wf_cap p t Hwf).
  - eapply same_links_index; [exact Hl|apply (wf_index p t Hwf)].
  - intros i e' He'. destruct (refusal_inv es' i e' Hr He') as (ei & Hei & [(-> & -> & ->)|[[Hx ->]|(_ & _ & ->)]]).
    + cbn. split; [done|lia].
    + cbn. apply refused_after in Hx. split; [done|lia].
    + by apply (wf_genesis p t Hwf).
  - destruct (wf_tip p t Hwf) as [te Hte]. destruct (same_links_get _ _ _ _ Hl Hte) as (te' & ? & _). eauto.
  - intros i e' He'. rewrite <-(same_links_descends es _ _ _ Hl).
    destruct (refusal_inv es' i e' Hr He') as (ei & Hei & Hi). change (t_tip t1) with (t_tip t).
    pose proof (wf_active p t Hwf i ei Hei) as Ha. fold es in Ha. rewrite <-Ha.
    destruct Hi as [(-> & -> & ->)|[[Hx ->]|(_ & _ & ->)]]; [by rewrite Hidle|by rewrite (refused_idle i ei Hx Hei)|done].
  - intros i e' q q'. by apply refusal_verdicts.
  - intros i e' He' Ht'. destruct (refusal_inv es' i e' Hr He') as (ei & Hei & [(-> & -> & ->)|[[Hx ->]|(_ & _ & ->)]]);
      try done. by eapply (wf_facts p t Hwf).
  - done.
  - split; [exact Hnd|]. intros i. specialize (Hd i). fold t1 es1 in Hd.
    cbn [t_entries t_dirty with_best with_entries]. rewrite Hd. split; intros (e1 & He1 & Hde).
    + assert (Hin : exists ei, get es i = Some ei).
      { rewrite es1_get in He1. case_decide; [subst; eauto|eauto]. }
      destruct Hin as [ei Hei]. destruct (proj2 Hr i ei Hei) as (e' & He' & Ho). exists e'. split; [done|].
      rewrite es1_get in He1. destruct Ho as [[-> ->]|[[Hx ->]|(Hx & _ & ->)]]; [done| |].
      * rewrite decide_False in He1 by (by destruct Hx). rewrite Hei in He1. by injection He1 as <-.
      * rewrite decide_False in He1 by done. rewrite Hei in He1. by injection He1 as <-.
    + destruct (refusal_inv es' i e1 Hr He1) as (ei & Hei & Hi). rewrite es1_get.
      destruct Hi as [(-> & -> & ->)|[[Hx ->]|(Hx & _ & ->)]].
      * rewrite decide_True by done. eauto.
      * rewrite decide_False by (by destruct Hx). eauto.
      * rewrite decide_False by done. eauto.
Qed.

(** [invalidate] of a block that is neither refused nor connected: it is refused, exactly
    its descendants inherit that, and the most-work header is chosen from the rest. *)
Lemma invalidate_spec : exists es' best, invalidate (E:=E) t n v = Ok (with_best (with_entries t1 es') best) /\
  refusal es' /\ best_of es' best /\ tree_wf p (with_best (with_entries t1 es') best).
Proof.
  assert (Hinit : exists g, get es1 0 = Some g /\ terminal g = false).
  { destruct (shape_genesis es Hs) as (g & Hg & _). exists g. pose proof n_pos.
    rewrite es1_get, decide_False by lia. split; [done|].
    by rewrite (proj2 (wf_genesis p t Hwf 0 g Hg) eq_refl). }
  destruct Hinit as (g & Hg & Htg).
  destruct (pass_loop (t1, 0, e_chainwork g)) as ([[t' best] bw] & Hfold & es' & -> & Hm & be & Hbe & Htb & _ & _ & Hmax).
  { exists es1. split; [by destruct t1|]. split; [|exists g; split_and!; try done; [by right|]; intros i ei Hi Hei; apply get_Some_range in Hei; lia].
    split; [done|]. intros i ei Hei. exists ei. split; [done|]. right. split; [|done].
    intros [Hi _]. apply get_Some_range in Hei. lia. }
  pose proof (marks_refusal es' Hm) as Hr.
  assert (Hbest : best_of es' best).
  { exists be. split_and!; [done..|]. intros i ei Hei. apply Hmax; [|done].
    rewrite <-(proj1 Hr). by apply get_Some_range in Hei as [_ ?]. }
  exists es', best. split; [|split_and!; [done..|by apply refusal_wf]].
  unfold invalidate. rewrite (entry_Ok t n e Hn). run. rewrite Hlive. run. rewrite Hidle. run.
  pose proof (touch_eq (E:=E) t (wf_dirty p t Hwf) n e Hn (HeaderStatus.Invalid v)) as Ht.
  apply bind_Ok in Ht as (t0 & Ht0 & Ht1). rewrite Ht0. run. rewrite Ht1. run. fold t1.
  unfold propagate_and_reselect. fold es1. pose proof (same_links_len es es1 links1) as Hlen.
  pose proof (wf_cap p t Hwf) as Hcap. fold es in Hcap. change (t_cap t1) with (t_cap t).
  rewrite Hlen, (proj2 (Z.leb_le (len es) (t_cap t))) by lia. run.
  change NodeId.GENESIS with 0. rewrite (entry_Ok t1 0 g Hg). run. by rewrite Hfold.
Qed.
End refuse.
