(* ===== verification/Reorg.v ===== *)
(** * Reorg: the plan that moves the chainstate to the most-work chain ([chain/reorg.rs]) *)
From S2P Require Import Prelude Uint Target Bitcoin Flags Params Header Verify Tx Signet Block Coins SkipList Queue Tree TreeProofs TreeInv TreeOps TreeLife.

Definition REORG_WARNING_DEPTH : Z := 6.

Record Reorg := mkReorg {
  r_fork : Z;
  r_depth : Z;
  r_jobs : list ConnectJob;
  r_missing : option bytes;
}.

Definition reorg_is_empty (self : Reorg) : bool := bool_decide (r_jobs self = []).
Definition is_deep (self : Reorg) : bool := REORG_WARNING_DEPTH <=? r_depth self.

Section reorg.
Context `{BitcoinCrate} {E : Type}.

(** The loop of [fork_point]: [steps] is what the size of the tree leaves. *)
Fixpoint fork_loop (self : HeaderTree) (steps : nat) (walk : Z) : outcome E Z :=
  active ← is_active self walk;
  if (active : bool) then Ok walk
  else
    match steps with
    | O => Panic
    | S steps =>
        e ← entry self walk;
        parent ← expect (e_parent e);
        fork_loop self steps parent
    end.

Definition fork_point (self : HeaderTree) (target : Z) : outcome E Z :=
  tip ← entry self (t_tip self);
  found ← ancestor self target (e_height tip);
  fork_loop self (Z.to_nat (tree_len self)) (default target found).

Definition steps_between (self : HeaderTree) (node ancestor : Z) : outcome E Z :=
  above ← entry self node;
  below ← entry self ancestor;
  assert_ (e_height below <=? e_height above);;
  Ok (saturating_sub (e_height above) (e_height below)).

(** The first loop of [plan_disconnects]: every block down to the fork has an undo record.
    The loop has no bound of its own; [fuel] is one more than the tree has entries, and
    running out is a panic. *)
Fixpoint assert_undo (self : HeaderTree) (fuel : nat) (fork walk : Z) : outcome E unit :=
  if walk =? fork then Ok tt
  else
    match fuel with
    | O => Panic
    | S fuel =>
        e ← entry self walk;
        assert_ (match e_status e with HeaderStatus.Connected _ _ => true | _ => false end);;
        parent ← expect (e_parent e);
        assert_undo self fuel fork parent
    end.

(** The second loop of [plan_disconnects]: [room] is what the limit leaves. *)
Fixpoint disconnect_jobs (self : HeaderTree) (room : nat) (fork walk : Z) (jobs : list ConnectJob)
    (params : ChainParams) : outcome E (HeaderTree * list ConnectJob) :=
  match room with
  | O => Ok (self, jobs)
  | S room =>
      if walk =? fork then Ok (self, jobs)
      else
        e ← entry self walk;
        parent ← expect (e_parent e);
        location ← expect (HeaderStatus.location (e_status e));
        '(self, context) ← context_of self walk params;
        disconnect_jobs self room fork parent
          (jobs ++ [mkConnectJob JDisconnect (e_hash e) context location]) params
  end.

Definition plan_disconnects (self : HeaderTree) (fork limit : Z) (jobs : list ConnectJob)
    (params : ChainParams) : outcome E (HeaderTree * list ConnectJob) :=
  assert_undo self (S (Z.to_nat (tree_len self))) fork (t_tip self);;
  disconnect_jobs self (Z.to_nat (limit - len jobs)) fork (t_tip self) jobs params.

(** The loop of [plan_connects]: [room] is what the limit leaves. *)
Fixpoint connect_jobs (self : HeaderTree) (room : nat) (target height last : Z) (jobs : list ConnectJob)
    (params : ChainParams) : outcome E (HeaderTree * list ConnectJob * option bytes) :=
  match room with
  | O => Ok (self, jobs, None)
  | S room =>
      if height <=? last then
        h ← Height.new height;
        found ← ancestor self target h;
        node ← expect found;
        e ← entry self node;
        assert_ (negb (HeaderStatus.is_terminal (e_status e)));;
        match HeaderStatus.location (e_status e) with
        | None => Ok (self, jobs, Some (e_hash e))
        | Some location =>
            '(self, context) ← context_of self node params;
            connect_jobs self room target (saturating_add32 height 1) last
              (jobs ++ [mkConnectJob JConnect (e_hash e) context location]) params
        end
      else Ok (self, jobs, None)
  end.

Definition plan_connects (self : HeaderTree) (target fork limit : Z) (jobs : list ConnectJob)
    (params : ChainParams) : outcome E (HeaderTree * list ConnectJob * option bytes) :=
  last ← entry self target;
  first ← entry self fork;
  connect_jobs self (Z.to_nat (limit - len jobs)) target (saturating_add32 (e_height first) 1)
    (e_height last) jobs params.

Definition reorg (self : HeaderTree) (params : ChainParams) (limit : Z)
    : outcome E (HeaderTree * Reorg) :=
  assert_ (0 <? limit);;
  let target := t_best_header self in
  fork ← fork_point self target;
  depth ← steps_between self (t_tip self) fork;
  '(self, jobs) ← plan_disconnects self fork limit [] params;
  '(self, jobs, missing) ← plan_connects self target fork limit jobs params;
  assert_ (len jobs <=? limit);;
  Ok (self, mkReorg fork depth jobs missing).

End reorg.

(** ** The plan of a reorganisation, and that it can be carried out

    The plan is compared with the two paths of the tree: from the tip down to the fork, and
    from the fork up to the most-work header.  Its execution is the sequence of
    [disconnected] and [connected] calls the plan stands for. *)

(** [k] nodes from [n], walking back. *)
Fixpoint path_back (es : list HeaderEntry) (k : nat) (n : Z) : list Z :=
  match k with
  | O => []
  | S k =>
      n :: match e_parent <$> get es n with Some (Some q) => path_back es k q | _ => [] end
  end.

(** The prefix of a path whose blocks are on the disk. *)
Fixpoint ready (es : list HeaderEntry) (path : list Z) : list Z :=
  match path with
  | [] => []
  | n :: path =>
      match HeaderStatus.location ∘ e_status <$> get es n with
      | Some (Some _) => n :: ready es path
      | _ => []
      end
  end.

(** A job for a node: its hash, its location and the context its ancestors fix. *)
Definition job_for `{BitcoinCrate} (E : Type) (p : ChainParams) (interval : Z) (t : HeaderTree) (kind : JobKind)
    (n : Z) (job : ConnectJob) : Prop :=
  exists e q qe, get (t_entries t) n = Some e /\ e_parent e = Some q /\ get (t_entries t) q = Some qe /\
    job_kind job = kind /\ job_hash job = e_hash e /\
    HeaderStatus.location (e_status e) = Some (job_location job) /\
    context_after (E:=E) p t q qe interval (e_hash e) (e_header e) (job_context job).

Section paths.
Context `{BitcoinCrate} (es : list HeaderEntry) (Hes : tree_shape es).

Lemma path_back_lookup k n e (i : nat) : get es n = Some e -> Z.of_nat k <= e_height e + 1 -> (i < k)%nat ->
  exists a ae, path_back es k n !! i = Some a /\ descends es n a /\ get es a = Some ae /\
    e_height ae = e_height e - Z.of_nat i.
Proof.
  revert n e i. induction k as [|k IH]; intros n e i Hn Hk Hi; [lia|].
  cbn [path_back]. rewrite Hn. cbn. destruct i as [|i].
  { exists n, e. split_and!; [done|constructor|done|lia]. }
  destruct (entry_cases es Hes n e Hn) as [(_ & _ & ? & _)|(_ & q & qe & Hl)]; [lia|].
  pose proof (linked_height _ _ _ _ _ Hl). rewrite (linked_parent _ _ _ _ _ Hl).
  destruct (IH q qe i) as (a & ae & Ha & Hd & Hae & Hah); [by destruct Hl|lia..|].
  exists a, ae. split_and!; [done| |done|lia]. econstructor; [done|by destruct Hl|done].
Qed.

Lemma path_back_length k n e : get es n = Some e -> Z.of_nat k <= e_height e + 1 ->
  length (path_back es k n) = k.
Proof.
  revert n e. induction k as [|k IH]; intros n e Hn Hk; [done|].
  cbn [path_back length]. f_equal. rewrite Hn. cbn.
  destruct (entry_cases es Hes n e Hn) as [(_ & -> & He & _)|(_ & q & qe & Hl)].
  { rewrite He in Hk. destruct k; [done|lia]. }
  pose proof (linked_height _ _ _ _ _ Hl). rewrite (linked_parent _ _ _ _ _ Hl).
  apply (IH q qe); [by destruct Hl|lia].
Qed.

(** The path from an ancestor (excluded) up to a node. *)
Definition path_up (n : Z) (k : nat) : list Z := reverse (path_back es k n).

Lemma path_up_lookup n e (k i : nat) : get es n = Some e -> Z.of_nat k <= e_height e + 1 -> (i < k)%nat ->
  exists a ae, path_up n k !! i = Some a /\ descends es n a /\ get es a = Some ae /\
    e_height ae = e_height e - Z.of_nat k + 1 + Z.of_nat i.
Proof.
  intros Hn Hk Hi. destruct (path_back_lookup k n e (k - 1 - i) Hn Hk ltac:(lia)) as (a & ae & Ha & Hd & Hae & Hah).
  exists a, ae. split_and!; [|done..|lia]. unfold path_up.
  rewrite reverse_lookup by (rewrite (path_back_length k n e Hn Hk); lia).
  rewrite (path_back_length k n e Hn Hk). rewrite <-Ha. f_equal. lia.
Qed.
End paths.

Lemma with_period_same t : t = with_period t (t_period t).
Proof. by destruct t. Qed.

Section plan.
Context `{BitcoinCrate} {E : Type} (p : ChainParams) (interval : Z) (Hp : chain_ok p interval).
Context (t : HeaderTree) (Hwf : tree_wf p t).
Let es : list HeaderEntry := t_entries t.
Let Hs : tree_shape es := wf_shape p t Hwf.

(** The context of a block in the tree is the one [accept] handed back. *)
Lemma context_of_ok period n e q : get es n = Some e -> terminal e = false -> e_parent e = Some q ->
  exists period' qe ctx, context_of (E:=E) (with_period t period) n p = Ok (with_period t period', ctx) /\
    get es q = Some qe /\ context_after (E:=E) p t q qe interval (e_hash e) (e_header e) ctx.
Proof.
  intros Hn Hlive Hq. destruct (parent_linked es Hs n e q Hn Hq) as [qe Hl].
  pose proof (linked_get _ _ _ _ _ Hl) as Hqe.
  destruct (wf_facts p t Hwf n e Hn Hlive) as (_ & Htime & _).
  destruct (context_for_ok (E:=E) p (with_period t period) (with_period_wf p t period Hwf) q qe interval
    (e_hash e) (e_header e)) as (period' & ctx & Hctx & Hafter); try done;
    [apply Hp|apply (chain_interval _ _ Hp)|by eapply (parent_live p t Hwf n e q qe)|apply Hp|].
  exists period', qe, ctx. unfold context_of. rewrite (entry_Ok (with_period t period) n e Hn). run.
  rewrite Hq. run. rewrite Hctx. split_and!; try done.
  destruct Hafter. by constructor.
Qed.

(** ** The fork *)

Lemma active_ancestor a b ae be : get es a = Some ae -> get es b = Some be -> active ae = true ->
  descends es a b -> active be = true.
Proof.
  intros Ha Hb Hact Hd. apply (wf_active p t Hwf b be Hb). apply (wf_active p t Hwf a ae Ha) in Hact.
  by eapply descends_trans.
Qed.

Lemma genesis_active : exists g, get es 0 = Some g /\ active g = true /\ e_height g = 0.
Proof.
  destruct (shape_genesis es Hs) as (g & Hg & _ & Hh & _). exists g. split_and!; try done.
  by rewrite (proj2 (wf_genesis p t Hwf 0 g Hg) eq_refl).
Qed.

Lemma fork_loop_ok steps w we : get es w = Some we -> (Z.to_nat (e_height we) <= steps)%nat ->
  exists f fe, fork_loop (E:=E) t steps w = Ok f /\ get es f = Some fe /\ descends es w f /\
    active fe = true /\ forall a ae, get es a = Some ae -> active ae = true -> descends es w a -> descends es f a.
Proof.
  revert w we. induction steps as [|steps IH]; intros w we Hw Hst; cbn [fork_loop]; unfold is_active;
    rewrite (entry_Ok t w we Hw); run; destruct (active we) eqn:Hact.
  1,3: exists w, we; split_and!; try done; constructor.
  - exfalso. destruct (entry_cases es Hs w we Hw) as [(-> & _)|(_ & q & qe & Hl)].
    + destruct genesis_active as (g & Hg & Hga & _). congruence.
    + pose proof (linked_height _ _ _ _ _ Hl). pose proof (height_range es Hs q qe ltac:(by destruct Hl)). lia.
  - destruct (entry_cases es Hs w we Hw) as [(-> & _)|(_ & q & qe & Hl)].
    { destruct genesis_active as (g & Hg & Hga & _). congruence. }
    rewrite (linked_parent _ _ _ _ _ Hl). run. pose proof (linked_get _ _ _ _ _ Hl) as Hq.
    pose proof (linked_height _ _ _ _ _ Hl). pose proof (height_range es Hs q qe Hq).
    destruct (IH q qe Hq ltac:(lia)) as (f & fe & Hf & Hfe & Hd & Hfa & Hmax).
    exists f, fe. split_and!; try done.
    + econstructor; [done|by destruct Hl|done].
    + intros a ae Ha Haa Hda. apply (Hmax a ae Ha Haa).
      apply (descends_parent es w we q a); try done; [by destruct Hl|]. intros ->. congruence.
Qed.

(** The fork is the last block the target shares with the active chain. *)
Definition is_fork (target f : Z) : Prop :=
  exists fe, get es f = Some fe /\ active fe = true /\ descends es target f /\
    forall a ae, get es a = Some ae -> active ae = true -> descends es target a -> descends es f a.

Lemma fork_point_ok target te : get es target = Some te ->
  exists f, fork_point (E:=E) t target = Ok f /\ is_fork target f.
Proof.
  intros Ht. destruct (wf_tip p t Hwf) as [tip Htip]. fold es in Htip. unfold fork_point.
  rewrite (entry_Ok t (t_tip t) tip Htip). run.
  assert (Hstart : exists w we, (found ← ancestor (E:=E) t target (e_height tip);
      fork_loop t (Z.to_nat (tree_len t)) (default target found)) = fork_loop t (Z.to_nat (tree_len t)) w /\
    get es w = Some we /\ descends es target w /\
    forall a ae, get es a = Some ae -> active ae = true -> descends es target a -> descends es w a).
  { destruct (Z.le_gt_cases (e_height tip) (e_height te)) as [Hle|Hgt].
    - pose proof (height_range es Hs _ _ Htip).
      destruct (ancestor_ok (E:=E) t Hs target te (e_height tip) Ht ltac:(lia)) as (a & ae & Ha & Hd & Hae & Hah).
      exists a, ae. rewrite Ha. run. split_and!; try done.
      intros b be Hb Hba Hdb. eapply (descends_linear es Hs target a b ae be); try done.
      apply (wf_active p t Hwf b be Hb) in Hba.
      destruct (descends_height es Hs (t_tip t) b tip be Hba Htip Hb) as (_ & ? & _). lia.
    - exists target, te. rewrite (ancestor_None (E:=E) t target te _ Ht Hgt). run. split_and!; try done. constructor. }
  destruct Hstart as (w & we & -> & Hw & Hdw & Hmax).
  destruct (fork_loop_ok (Z.to_nat (tree_len t)) w we Hw) as (f & fe & Hf & Hfe & Hd & Hfa & Hmax').
  { pose proof (height_range es Hs w we Hw). apply get_Some_range in Hw. unfold tree_len. fold es. lia. }
  exists f. split; [done|]. exists fe. split_and!; try done; [by eapply descends_trans|].
  intros a ae Ha Haa Hda. eapply Hmax'; try done. by eapply Hmax.
Qed.

(** ** The jobs *)

(** A block of the active chain above genesis has bytes and an undo record. *)
Lemma active_connected n e : get es n = Some e -> active e = true -> n <> 0 ->
  exists location undo, e_status e = HeaderStatus.Connected location undo.
Proof.
  intros Hn Hact Hn0. destruct (e_status e) eqn:Hst; try done; [|eauto].
  by apply (wf_genesis p t Hwf n e Hn) in Hst.
Qed.

(** From a block of the active chain down to an ancestor [f] of it. *)
Section down.
Context (f : Z) (fe : HeaderEntry) (Hf : get es f = Some fe).

Lemma down_step w we k : get es w = Some we -> active we = true -> descends es w f ->
  e_height we = e_height fe + Z.of_nat (S k) ->
  exists location undo q qe, w <> f /\ e_status we = HeaderStatus.Connected location undo /\
    e_parent we = Some q /\ get es q = Some qe /\ active qe = true /\ descends es q f /\
    e_height qe = e_height fe + Z.of_nat k.
Proof.
  intros Hw Hact Hd Hh. assert (Hne : w <> f) by (intros ->; simplify_eq; lia).
  destruct (entry_cases es Hs w we Hw) as [(_ & _ & H0 & _)|(Hpos & q & qe & Hl)].
  { pose proof (height_range es Hs f fe Hf). lia. }
  destruct (active_connected w we Hw Hact ltac:(lia)) as (location & undo & Hst).
  pose proof (linked_parent _ _ _ _ _ Hl) as Hq. pose proof (linked_get _ _ _ _ _ Hl) as Hqe.
  pose proof (linked_height _ _ _ _ _ Hl). exists location, undo, q, qe. split_and!; try done; [| |lia].
  - eapply (active_ancestor w q we qe); try done. econstructor; [done..|constructor].
  - by apply (descends_parent es w we q f).
Qed.

Lemma assert_undo_ok fuel w we k : get es w = Some we -> active we = true -> descends es w f ->
  e_height we = e_height fe + Z.of_nat k -> (k <= fuel)%nat -> assert_undo (E:=E) t fuel f w = Ok tt.
Proof.
  revert fuel w we. induction k as [|k IH]; intros fuel w we Hw Hact Hd Hh Hfuel.
  - assert (w = f) as -> by (eapply (descends_unique es Hs w w f we fe); try done; [constructor|lia]).
    destruct fuel; cbn [assert_undo]; by rewrite Z.eqb_refl.
  - destruct fuel as [|fuel]; [lia|].
    destruct (down_step w we k Hw Hact Hd Hh) as (loc & undo & q & qe & Hne & Hst & Hq & Hqe & Hqa & Hqd & Hqh).
    cbn [assert_undo]. rewrite (proj2 (Z.eqb_neq w f)) by done. rewrite (entry_Ok t w we Hw). run.
    rewrite Hst, Hq. run. apply (IH fuel q qe); try done. lia.
Qed.

Lemma disconnect_jobs_ok room w we k period jobs : get es w = Some we -> active we = true -> descends es w f ->
  e_height we = e_height fe + Z.of_nat k ->
  exists period' js, disconnect_jobs (E:=E) (with_period t period) room f w jobs p =
      Ok (with_period t period', jobs ++ js) /\
    Forall2 (job_for E p interval t JDisconnect) (take room (path_back es k w)) js.
Proof.
  revert w we k period jobs. induction room as [|room IH]; intros w we k period jobs Hw Hact Hd Hh.
  { exists period, []. rewrite app_nil_r. split; [done|]. rewrite take_0. constructor. }
  cbn [disconnect_jobs]. destruct k as [|k].
  { assert (w = f) as -> by (eapply (descends_unique es Hs w w f we fe); try done; [constructor|lia]).
    rewrite Z.eqb_refl. exists period, []. rewrite app_nil_r. split; [done|constructor]. }
  destruct (down_step w we k Hw Hact Hd Hh) as (loc & undo & q & qe & Hne & Hst & Hq & Hqe & Hqa & Hqd & Hqh).
  rewrite (proj2 (Z.eqb_neq w f)) by done. rewrite (entry_Ok (with_period t period) w we Hw). run.
  rewrite Hq. run. rewrite Hst. cbn [HeaderStatus.location]. run.
  destruct (context_of_ok period w we q Hw) as (period' & qe' & ctx & Hctx & Hqe' & Hafter); [by rewrite Hst|done|].
  rewrite Hctx. run.
  destruct (IH q qe k period' (jobs ++ [mkConnectJob JDisconnect (e_hash we) ctx loc]) Hqe Hqa Hqd Hqh)
    as (period'' & js & Hjs & Hall).
  eexists period'', (_ :: js). split; [rewrite Hjs, <-app_assoc; done|].
  cbn [path_back firstn]. rewrite Hw. cbn. rewrite Hq. constructor; [|done].
  exists we, q, qe'. cbn. rewrite Hst. by split_and!.
Qed.
End down.

(** The nodes of heights [h], [h + 1], ... on the chain of [target]. *)
Definition climbs (target h : Z) (path : list Z) : Prop :=
  forall (i : nat) a, path !! i = Some a -> exists ae, get es a = Some ae /\ descends es target a /\
    e_height ae = h + Z.of_nat i.

(** What stops the plan, if it is a block whose bytes are not here. *)
Definition first_missing (room : nat) (path : list Z) (missing : option bytes) : Prop :=
  if decide (length (ready es path) < room)%nat
  then missing = (path !! length (ready es path)) ≫= (fun n => e_hash <$> get es n)
  else missing = None.

Lemma connect_jobs_ok room target te path h last period jobs : get es target = Some te ->
  terminal te = false -> climbs target h path -> 0 < h -> e_height te = last ->
  Z.of_nat (length path) = Z.max 0 (last + 1 - h) ->
  exists period' js missing, connect_jobs (E:=E) (with_period t period) room target h last jobs p =
      Ok (with_period t period', jobs ++ js, missing) /\
    Forall2 (job_for E p interval t JConnect) (take room (ready es path)) js /\ first_missing room path missing.
Proof.
  revert path h period jobs. induction room as [|room IH]; intros path h period jobs Ht Hlive Hpath Hh Hlast Hlen.
  { exists period, [], None. rewrite app_nil_r, take_0. split_and!; [done|constructor|].
    unfold first_missing. case_decide; [lia|done]. }
  cbn [connect_jobs]. destruct (Z.leb_spec h last) as [Hle|Hgt].
  2:{ exists period, [], None. rewrite app_nil_r. destruct path as [|a path]; [|cbn in Hlen; lia].
      split_and!; [done|constructor|]. unfold first_missing. by case_decide. }
  destruct path as [|a path]; [cbn in Hlen; lia|].
  destruct (Hpath 0%nat a eq_refl) as (ae & Hae & Hda & Hah). rewrite Z.add_0_r in Hah.
  pose proof (height_bound es Hs target te Ht) as Hb. rewrite new_height_ok by lia. run.
  destruct (ancestor_ok (E:=E) (with_period t period) Hs target te h Ht ltac:(lia)) as (b & be & Hb' & Hdb & Hbe & Hbh).
  assert (b = a) as -> by (eapply (descends_unique es Hs target b a be ae); try done; lia).
  rewrite Hb'. run. rewrite (entry_Ok (with_period t period) a ae Hae). run.
  pose proof (ancestor_live p t Hwf target te a ae Hda Ht Hae Hlive) as Hla. rewrite Hla. run.
  unfold first_missing. cbn [ready]. rewrite Hae. cbn [fmap option_fmap option_map compose].
  destruct (HeaderStatus.location (e_status ae)) as [loc|] eqn:Hloc.
  2:{ exists period, [], (Some (e_hash ae)). rewrite app_nil_r. split_and!; [done|constructor|].
      rewrite decide_True by (cbn; lia). cbn. by rewrite Hae. }
  destruct (entry_cases es Hs a ae Hae) as [(_ & _ & H0 & _)|(_ & q & qe & Hl)]; [lia|].
  destruct (context_of_ok period a ae q Hae Hla) as (period' & qe' & ctx & Hctx & Hqe' & Hafter); [by destruct Hl|].
  rewrite Hctx. run. unfold saturating_add32. rewrite (Z.min_r _ (h + 1)) by (unfold u32_max; lia).
  destruct (IH path (h + 1) period' (jobs ++ [mkConnectJob JConnect (e_hash ae) ctx loc])) as
    (period'' & js & missing & Hjs & Hall & Hmiss); try done; [|lia|cbn in Hlen; lia|].
  { intros i b Hb2. destruct (Hpath (S i) b Hb2) as (be2 & ? & ? & ?). exists be2. split_and!; try done. lia. }
  eexists period'', (_ :: js), missing. split_and!; [rewrite Hjs, <-app_assoc; done| |].
  - cbn [firstn]. constructor; [|done]. exists ae, q, qe'. cbn. split_and!; try done. by destruct Hl.
  - unfold first_missing in Hmiss. cbn [length]. destruct (decide (length (ready es path) < room)%nat).
    + rewrite decide_True by lia. exact Hmiss.
    + rewrite decide_False by lia. exact Hmiss.
Qed.

(** The whole plan. [down] and [up] are the two paths between the tip, the fork and the
    most-work header. *)
Record plan_spec (limit : Z) (r : Reorg) (down up : list Z) : Prop := {
  plan_fork : is_fork (t_best_header t) (r_fork r);
  plan_paths : exists tip fe be, get es (t_tip t) = Some tip /\ get es (r_fork r) = Some fe /\
    get es (t_best_header t) = Some be /\
    r_depth r = e_height tip - e_height fe /\
    down = path_back es (Z.to_nat (e_height tip - e_height fe)) (t_tip t) /\
    up = path_up es (t_best_header t) (Z.to_nat (e_height be - e_height fe));
  plan_jobs : exists ds us, r_jobs r = ds ++ us /\
    Forall2 (job_for E p interval t JDisconnect) (take (Z.to_nat limit) down) ds /\
    Forall2 (job_for E p interval t JConnect) (take (Z.to_nat limit - length ds) (ready es up)) us /\
    first_missing (Z.to_nat limit - length ds) up (r_missing r);
}.

Lemma reorg_spec limit : 0 < limit -> exists period r down up,
  reorg (E:=E) t p limit = Ok (with_period t period, r) /\ plan_spec limit r down up.
Proof.
  intros Hlim. destruct (wf_best p t Hwf) as (be & Hbe & Hlive & _). destruct (wf_tip p t Hwf) as [tip Htip].
  destruct (fork_point_ok (t_best_header t) be Hbe) as (f & Hf & Hfork). pose proof Hfork as (fe & Hfe & Hfa & Hdf & _).
  pose proof (proj1 (wf_active p t Hwf f fe Hfe) Hfa) as Htf.
  destruct (descends_height es Hs (t_tip t) f tip fe Htf Htip Hfe) as (_ & Hle & _).
  destruct (descends_height es Hs (t_best_header t) f be fe Hdf Hbe Hfe) as (_ & Hle' & _).
  pose proof (height_range es Hs f fe Hfe) as Hfr. pose proof (height_bound es Hs _ _ Htip) as Htb.
  pose proof (height_bound es Hs _ _ Hbe) as Hbb. pose proof (height_range es Hs _ _ Htip) as Htr.
  assert (Htact : active tip = true) by (apply (wf_active p t Hwf _ tip Htip); constructor).
  set (dk := Z.to_nat (e_height tip - e_height fe)). set (uk := Z.to_nat (e_height be - e_height fe)).
  assert (Hself : t = with_period t (t_period t)) by apply with_period_same.
  destruct (disconnect_jobs_ok f fe Hfe (Z.to_nat limit) (t_tip t) tip dk (t_period t) [] Htip Htact Htf ltac:(lia))
    as (period & ds & Hds & Hdall). rewrite <-Hself in Hds. cbn [app] in Hds.
  assert (Hdlen : (length ds <= Z.to_nat limit)%nat).
  { apply Forall2_length in Hdall. rewrite <-Hdall, length_take. lia. }
  destruct (connect_jobs_ok (Z.to_nat limit - length ds) (t_best_header t) be (path_up es (t_best_header t) uk)
    (e_height fe + 1) (e_height be) period ds Hbe Hlive) as (period' & us & missing & Hus & Huall & Hmiss).
  { intros i a Ha. destruct (decide (i < uk)%nat) as [Hi|Hi].
    - destruct (path_up_lookup es Hs (t_best_header t) be uk i Hbe ltac:(lia) Hi) as (a' & ae & Ha' & Hd & Hae & Hah).
      simplify_eq. exists ae. split_and!; try done. lia.
    - apply lookup_lt_Some in Ha. unfold path_up in Ha.
      rewrite length_reverse, (path_back_length es Hs uk _ be Hbe) in Ha by lia. lia. }
  { lia. }
  { done. }
  { unfold path_up. rewrite length_reverse, (path_back_length es Hs uk _ be Hbe) by lia. lia. }
  exists period', (mkReorg f (e_height tip - e_height fe) (ds ++ us) missing), (path_back es dk (t_tip t)),
    (path_up es (t_best_header t) uk). split.
  - unfold reorg. rewrite (proj2 (Z.ltb_lt 0 limit)) by lia. run. rewrite Hf. run.
    unfold steps_between. rewrite (entry_Ok t _ tip Htip), (entry_Ok t f fe Hfe). run.
    rewrite (proj2 (Z.leb_le (e_height fe) (e_height tip))) by lia. run.
    unfold saturating_sub. rewrite Z.max_r by lia. unfold plan_disconnects. rewrite len_nil, Z.sub_0_r.
    assert (Hundo : assert_undo (E:=E) t (S (Z.to_nat (tree_len t))) f (t_tip t) = Ok tt).
    { eapply (assert_undo_ok f fe Hfe _ (t_tip t) tip dk); try done; [lia|].
      apply get_Some_range in Htip. unfold tree_len. lia. }
    rewrite Hundo. run. rewrite Hds. run. unfold plan_connects.
    rewrite (entry_Ok (with_period t period) _ be Hbe), (entry_Ok (with_period t period) f fe Hfe). run.
    unfold saturating_add32. rewrite (Z.min_r _ (e_height fe + 1)) by (unfold u32_max; lia).
    replace (Z.to_nat (limit - len ds)) with (Z.to_nat limit - length ds)%nat by (unfold len; lia).
    rewrite Hus. run. assert (Hall : len (ds ++ us) <= limit).
    { apply Forall2_length in Huall. rewrite length_take in Huall. unfold len. rewrite length_app. lia. }
    by rewrite (proj2 (Z.leb_le _ _) Hall).
  - constructor; cbn [r_fork r_depth r_jobs r_missing]; [done|by exists tip, fe, be|by exists ds, us].
Qed.
End plan.
