(* ===== verification/ReorgLive.v ===== *)
(** * ReorgLive: carrying a plan out, and that repeated plans reach the most-work header *)
From S2P Require Import Prelude Uint Target Bitcoin Flags Params Header Verify Tx Signet Block Coins SkipList Queue Tree TreeProofs TreeInv TreeOps TreeLife Reorg.

(** The calls a plan stands for, one per job, in the order of the plan. *)
Definition carry_job {E} (undo : bytes -> UndoLocation) (t : HeaderTree) (job : ConnectJob) : outcome E HeaderTree :=
  node ← expect (node_of t (job_hash job));
  match job_kind job with
  | JDisconnect => disconnected t node
  | JConnect => connected t node (undo (job_hash job))
  end.
Definition carry_out {E} (undo : bytes -> UndoLocation) (t : HeaderTree) (jobs : list ConnectJob) : outcome E HeaderTree :=
  foldM (carry_job undo) t jobs.

Lemma carry_cons {E} undo t job js n : node_of t (job_hash job) = Some n ->
  carry_out (E:=E) undo t (job :: js) =
    (t' ← match job_kind job with
          | JDisconnect => disconnected t n
          | JConnect => connected t n (undo (job_hash job))
          end; carry_out undo t' js).
Proof.
  intros Hn. change (carry_out undo t (job :: js)) with (t' ← carry_job (E:=E) undo t job; carry_out undo t' js).
  unfold carry_job. by rewrite Hn.
Qed.

(** Links and locations stay. *)
Definition moves (es es' : list HeaderEntry) : Prop :=
  same_links es es' /\ forall i, (HeaderStatus.location ∘ e_status <$> get es i) = (HeaderStatus.location ∘ e_status <$> get es' i).

#[local] Instance moves_trans : Transitive moves.
Proof.
  intros a b c [H1 H2] [H3 H4]. split; [unfold same_links in *; congruence|].
  intros i. by rewrite H2, H4.
Qed.
#[local] Instance moves_refl : Reflexive moves.
Proof. by split. Qed.

Lemma foldM_app {E A B} (f : A -> B -> outcome E A) a xs ys : foldM f a (xs ++ ys) = (b ← foldM f a xs; foldM f b ys).
Proof.
  revert a. induction xs as [|x xs IH]; intros a; [done|]. cbn [app foldM].
  destruct (f a x); run; [apply IH|done..].
Qed.

Lemma moves_touched t n e s tip : get (t_entries t) n = Some e ->
  HeaderStatus.location s = HeaderStatus.location (e_status e) ->
  moves (t_entries t) (t_entries (with_tip (touched t n e s) tip)).
Proof.
  intros Hn Hloc. split; [exact (touched_links t n e Hn s)|]. intros i.
  pose proof (touched_get t n e Hn s i) as Hg. cbn in Hg |- *. rewrite Hg.
  case_decide as Hi; [subst; rewrite Hn; cbn; by rewrite Hloc|done].
Qed.

Lemma path_back_links es es' k n : same_links es es' -> path_back es' k n = path_back es k n.
Proof.
  intros Hl. revert n. induction k as [|k IH]; intros n; [done|]. cbn [path_back]. f_equal.
  assert ((e_parent <$> get es' n) = (e_parent <$> get es n)) as ->.
  { apply (f_equal (fun l => get l n)) in Hl. rewrite !get_map in Hl.
    destruct (get es n), (get es' n); try done. cbn in *. f_equal. unfold link_of in Hl. congruence. }
  destruct (e_parent <$> get es n) as [[q|]|]; [apply IH|done..].
Qed.

(** The part of a job that its execution reads. *)
Definition names (es : list HeaderEntry) (kind : JobKind) (n : Z) (job : ConnectJob) : Prop :=
  job_kind job = kind /\ exists e, get es n = Some e /\ job_hash job = e_hash e.

Lemma names_links es es' kind n job : same_links es es' -> names es kind n job -> names es' kind n job.
Proof.
  intros Hl (Hk & e & He & Hh). split; [done|]. destruct (same_links_get _ _ _ _ Hl He) as (e' & He' & Heq).
  exists e'. split; [done|]. unfold link_of in Heq. congruence.
Qed.

Lemma last_default {A} (x d : A) (l : list A) : List.last (x :: l) d = List.last l x.
Proof. revert x d. induction l as [|y l IH]; intros x d; [done|].
  change (List.last (x :: y :: l) d) with (List.last (y :: l) d). by rewrite !IH.
Qed.

Section carry.
Context `{BitcoinCrate} {E : Type} (p : ChainParams) (undo : bytes -> UndoLocation).

(** Disconnecting [k] blocks from the tip. *)
Lemma carry_down k t tip js : tree_wf p t -> get (t_entries t) (t_tip t) = Some tip ->
  Z.of_nat k <= e_height tip ->
  Forall2 (names (t_entries t) JDisconnect) (path_back (t_entries t) k (t_tip t)) js ->
  exists t' tip', carry_out (E:=E) undo t js = Ok t' /\ tree_wf p t' /\ moves (t_entries t) (t_entries t') /\
    t_best_header t' = t_best_header t /\ descends (t_entries t) (t_tip t) (t_tip t') /\
    get (t_entries t) (t_tip t') = Some tip' /\ e_height tip' = e_height tip - Z.of_nat k.
Proof.
  revert t tip js. induction k as [|k IH]; intros t tip js Hwf Htip Hk Hjs.
  { apply Forall2_nil_inv_l in Hjs as ->. exists t, tip. split_and!; try done; [constructor|lia]. }
  cbn [path_back] in Hjs. apply Forall2_cons_inv_l in Hjs as (job & js' & (Hkind & e & He & Hhash) & Hjs & ->).
  rewrite Htip in He. injection He as <-. rewrite Htip in Hjs. cbn in Hjs.
  pose proof (wf_shape p t Hwf) as Hs.
  assert (Hact : active tip = true) by (apply (wf_active p t Hwf _ tip Htip); constructor).
  destruct (active_connected p t Hwf _ tip Htip Hact) as (loc & und & Hst).
  { intros H0. rewrite H0 in Htip. destruct (shape_genesis _ Hs) as (g & Hg & _ & Hg0 & _).
    rewrite Htip in Hg. injection Hg as <-. lia. }
  destruct (disconnected_spec (E:=E) p t Hwf tip loc und Htip Hst) as (q & Hq & Hdis & Hwf').
  set (t1 := with_tip _ q) in *. rewrite Hq in Hjs.
  pose proof (moves_touched t (t_tip t) tip (HeaderStatus.BlockChecked loc) q Htip ltac:(by rewrite Hst)) as Hmv.
  destruct (parent_linked _ Hs _ tip q Htip Hq) as [qe Hl]. pose proof (linked_get _ _ _ _ _ Hl) as Hqe.
  pose proof (linked_height _ _ _ _ _ Hl) as Hh.
  destruct (same_links_get _ _ _ _ (proj1 Hmv) Hqe) as (qe' & Hqe' & Heq). fold t1 in Hqe'.
  assert (Hqh : e_height qe' = e_height qe) by (unfold link_of in Heq; congruence).
  destruct (IH t1 qe' js' Hwf' Hqe' ltac:(lia)) as (t' & tip' & Hc & Hw' & Hm' & Hb' & Hd' & Hg' & Hh').
  { change (t_tip t1) with q. rewrite (path_back_links _ _ _ _ (proj1 Hmv)).
    eapply Forall2_impl; [exact Hjs|]. intros n j. by apply names_links, Hmv. }
  destruct (same_links_get _ _ _ _ (same_links_sym _ _ (proj1 Hmv)) Hg') as (tip0 & Htip0 & Heq0).
  exists t', tip0. split_and!; try done.
  - rewrite (carry_cons _ _ _ _ (t_tip t)) by (apply (wf_index p t Hwf); exists tip; auto).
    rewrite Hkind, Hdis. run. exact Hc.
  - etransitivity; [exact Hmv|exact Hm'].
  - eapply descends_step; [done..|]. apply (same_links_descends _ _ _ _ (proj1 Hmv)). exact Hd'.
  - unfold link_of in Heq0. assert (e_height tip0 = e_height tip') by congruence. lia.
Qed.

(** A path up from [tip] whose blocks are on the disk. *)
Fixpoint chained (es : list HeaderEntry) (tip : Z) (ns : list Z) : Prop :=
  match ns with
  | [] => True
  | n :: ns => (exists e, get es n = Some e /\ e_parent e = Some tip /\
      is_Some (HeaderStatus.location (e_status e))) /\ chained es n ns
  end.

Lemma chained_moves es es' tip ns : moves es es' -> chained es tip ns -> chained es' tip ns.
Proof.
  intros [Hl Hloc]. revert tip. induction ns as [|n ns IH]; intros tip; [done|].
  intros [(e & He & Hq & Hlo) Hc]. split; [|by apply IH].
  destruct (same_links_get _ _ _ _ Hl He) as (e' & He' & Heq). exists e'. split_and!; [done| |].
  - unfold link_of in Heq. congruence.
  - specialize (Hloc n). rewrite He, He' in Hloc. cbn in Hloc. injection Hloc as <-. done.
Qed.

(** Connecting a path above the tip. *)
Lemma carry_up t ns js : tree_wf p t -> chained (t_entries t) (t_tip t) ns ->
  Forall2 (names (t_entries t) JConnect) ns js ->
  exists t', carry_out (E:=E) undo t js = Ok t' /\ tree_wf p t' /\ moves (t_entries t) (t_entries t') /\
    t_best_header t' = t_best_header t /\ t_tip t' = List.last ns (t_tip t).
Proof.
  revert t js. induction ns as [|n ns IH]; intros t js Hwf Hch Hjs.
  { apply Forall2_nil_inv_l in Hjs as ->. exists t. by split_and!. }
  apply Forall2_cons_inv_l in Hjs as (job & js' & (Hkind & e & He & Hhash) & Hjs & ->).
  destruct Hch as [(e' & He' & Hq & [loc Hloc]) Hch]. rewrite He in He'. injection He' as <-. pose proof (wf_shape p t Hwf) as Hs.
  assert (Hst : e_status e = HeaderStatus.BlockChecked loc).
  { destruct (active e) eqn:Hact; [|destruct (e_status e); simplify_eq/=; done].
    exfalso. apply (wf_active p t Hwf n e He) in Hact.
    destruct (parent_linked _ Hs n e _ He Hq) as [te Hl].
    destruct (descends_height _ Hs _ n te e Hact (linked_get _ _ _ _ _ Hl) He) as (_ & Hle & _).
    pose proof (linked_height _ _ _ _ _ Hl). lia. }
  destruct (connected_spec (E:=E) p t Hwf n e loc (undo (job_hash job)) He Hst Hq) as [Hcon Hwf'].
  set (t1 := with_tip _ n) in *.
  pose proof (moves_touched t n e (HeaderStatus.Connected loc (undo (job_hash job))) n He ltac:(by rewrite Hst)) as Hmv.
  destruct (IH t1 js' Hwf') as (t' & Hc & Hw' & Hm' & Hb' & Ht').
  { by eapply chained_moves. }
  { eapply Forall2_impl; [exact Hjs|]. intros m j. by apply names_links, Hmv. }
  exists t'. split_and!; try done.
  - rewrite (carry_cons _ _ _ _ n) by (apply (wf_index p t Hwf); exists e; auto).
    rewrite Hkind, Hcon. run. exact Hc.
  - etransitivity; [exact Hmv|exact Hm'].
  - rewrite Ht'. symmetry. apply last_default.
Qed.
End carry.

(** ** Rounds *)

(** One turn of the chain thread and the validation behind it: plan, then carry out. *)
Definition round `{BitcoinCrate} {E} (undo : bytes -> UndoLocation) (p : ChainParams) (limit : Z) (t : HeaderTree)
    : outcome E HeaderTree :=
  '(t, r) ← reorg t p limit;
  carry_out undo t (r_jobs r).

Fixpoint rounds `{BitcoinCrate} {E} (undo : bytes -> UndoLocation) (p : ChainParams) (limit : Z) (n : nat)
    (t : HeaderTree) : outcome E HeaderTree :=
  match n with
  | O => Ok t
  | S n => t ← round undo p limit t; rounds undo p limit n t
  end.

(** The blocks between the tip and the most-work header, through the fork. *)
Definition distance (t : HeaderTree) (d : Z) : Prop :=
  exists f fe tip be, is_fork t (t_best_header t) f /\ get (t_entries t) f = Some fe /\
    get (t_entries t) (t_tip t) = Some tip /\ get (t_entries t) (t_best_header t) = Some be /\
    d = (e_height tip - e_height fe) + (e_height be - e_height fe).

(** Every block of the most-work chain that is not connected is on the disk. *)
Definition all_here (t : HeaderTree) : Prop :=
  forall i e, get (t_entries t) i = Some e -> descends (t_entries t) (t_best_header t) i -> active e = false ->
    is_Some (HeaderStatus.location (e_status e)).

Lemma take_path_back es m k n : take m (path_back es k n) = path_back es (m `min` k) n.
Proof.
  revert k n. induction m as [|m IH]; intros [|k] n; try done. cbn [path_back firstn Nat.min]. f_equal.
  destruct (e_parent <$> get es n) as [[q|]|]; [apply IH|by rewrite firstn_nil..].
Qed.

Lemma job_names `{BitcoinCrate} E p interval t kind ns js :
  Forall2 (job_for E p interval t kind) ns js -> Forall2 (names (t_entries t) kind) ns js.
Proof. intros Hall. eapply Forall2_impl; [exact Hall|]. intros n j (e & q & qe & ? & _ & _ & ? & ? & _). split; eauto. Qed.

Section round.
Context `{BitcoinCrate} {E : Type} (p : ChainParams) (interval : Z) (Hp : chain_ok p interval).
Context (undo : bytes -> UndoLocation).

Lemma chained_climb t target te tip ye h path : tree_wf p t -> get (t_entries t) target = Some te ->
  get (t_entries t) tip = Some ye -> descends (t_entries t) target tip -> e_height ye = h - 1 ->
  climbs t target h path ->
  (forall a e, a ∈ path -> get (t_entries t) a = Some e -> is_Some (HeaderStatus.location (e_status e))) ->
  chained (t_entries t) tip path.
Proof.
  intros Hwf Ht. pose proof (wf_shape p t Hwf) as Hs. revert tip ye h.
  induction path as [|a path IH]; intros tip ye h Hy Hd Hh Hc Hloc; [done|].
  destruct (Hc 0%nat a eq_refl) as (ae & Hae & Hda & Hah). split.
  - pose proof (height_range _ Hs tip ye Hy).
    destruct (entry_cases _ Hs a ae Hae) as [(_ & _ & ? & _)|(_ & q & qe & Hl)]; [lia|].
    exists ae. split_and!; [done| |by apply (Hloc a); [set_solver|]].
    rewrite (linked_parent _ _ _ _ _ Hl). f_equal. pose proof (linked_height _ _ _ _ _ Hl).
    eapply (descends_unique _ Hs target q tip qe ye); try done; [|by destruct Hl|lia].
    eapply descends_trans; [done|]. econstructor; [done|by destruct Hl|constructor].
  - apply (IH a ae (h + 1)); try done; [lia| |].
    + intros i b Hb. destruct (Hc (S i) b Hb) as (be & ? & ? & ?). exists be. split_and!; try done. lia.
    + intros b e Hb. apply Hloc. set_solver.
Qed.

Lemma ready_all es path : (forall a, a ∈ path -> exists e, get es a = Some e /\
  is_Some (HeaderStatus.location (e_status e))) -> ready es path = path.
Proof.
  induction path as [|a path IH]; intros Hall; [done|]. cbn [ready].
  destruct (Hall a) as (e & He & [loc Hloc]); [set_solver|]. rewrite He. cbn. rewrite Hloc. f_equal.
  apply IH. intros b Hb. apply Hall. set_solver.
Qed.

(** Moving keeps what is on the disk. *)
Lemma moves_all_here t t' : tree_wf p t -> tree_wf p t' -> moves (t_entries t) (t_entries t') ->
  t_best_header t' = t_best_header t -> all_here t -> all_here t'.
Proof.
  intros Hwf Hwf' [Hl Hloc] Hbest Hall i e' He' Hd Hact. rewrite Hbest in Hd.
  apply (same_links_descends _ _ _ _ Hl) in Hd.
  destruct (same_links_get _ _ _ _ (same_links_sym _ _ Hl) He') as (e & He & _).
  specialize (Hloc i). rewrite He, He' in Hloc. cbn in Hloc. injection Hloc as Hloc. rewrite <-Hloc.
  destruct (active e) eqn:Ha; [|by eapply Hall].
  destruct (decide (i = 0)) as [->|Hi].
  - exfalso. rewrite (proj2 (wf_genesis p t' Hwf' 0 e' He') eq_refl) in Hact. done.
  - destruct (active_connected p t Hwf i e He Ha Hi) as (loc & und & ->). by exists loc.
Qed.

Lemma is_fork_ready t f fe path : tree_wf p t -> is_fork t (t_best_header t) f -> all_here t ->
  get (t_entries t) f = Some fe -> climbs t (t_best_header t) (e_height fe + 1) path ->
  forall a e, a ∈ path -> get (t_entries t) a = Some e -> is_Some (HeaderStatus.location (e_status e)).
Proof.
  intros Hwf (fe' & Hfe' & _ & Hdf & Hmax) Hall Hfe Hc a e Ha He.
  rewrite Hfe in Hfe'. injection Hfe' as <-.
  apply list_elem_of_lookup in Ha as [i Hi]. destruct (Hc i a Hi) as (ae & Hae & Hda & Hah).
  rewrite He in Hae. injection Hae as <-.
  eapply Hall; try done. destruct (active e) eqn:Hact; [|done]. exfalso.
  destruct (descends_height _ (wf_shape p t Hwf) f a fe e (Hmax a e He Hact Hda) Hfe He) as (_ & ? & _). lia.
Qed.

(** A plan that only disconnects: the fork stays. *)
Lemma distance_down t t' f fe tip be tip' : tree_wf p t -> tree_wf p t' -> moves (t_entries t) (t_entries t') ->
  t_best_header t' = t_best_header t -> is_fork t (t_best_header t) f ->
  get (t_entries t) f = Some fe -> get (t_entries t) (t_tip t) = Some tip ->
  get (t_entries t) (t_best_header t) = Some be -> get (t_entries t) (t_tip t') = Some tip' ->
  descends (t_entries t) (t_tip t) (t_tip t') -> e_height fe <= e_height tip' ->
  distance t' (e_height tip' - e_height fe + (e_height be - e_height fe)).
Proof.
  intros Hwf Hwf' [Hl _] Hbest Hfork Hfe Htip Hbe Htip' Hd Hle. pose proof (wf_shape p t Hwf) as Hs.
  pose proof Hfork as (fe0 & Hfe0 & Hfa & Hdf & Hmax). rewrite Hfe in Hfe0. injection Hfe0 as <-.
  destruct (same_links_get _ _ _ _ Hl Hfe) as (fe1 & Hfe1 & Hq1).
  destruct (same_links_get _ _ _ _ Hl Hbe) as (be1 & Hbe1 & Hq2).
  destruct (same_links_get _ _ _ _ Hl Htip') as (tip1 & Htip1 & Hq3). unfold link_of in Hq1, Hq2, Hq3.
  assert (Hdf' : descends (t_entries t') (t_tip t') f).
  { apply (same_links_descends _ _ _ _ Hl). eapply (descends_linear _ Hs (t_tip t) _ _ tip' fe); try done.
    by apply (wf_active p t Hwf f fe Hfe). }
  exists f, fe1, tip1, be1. rewrite Hbest. split_and!; try done.
  - exists fe1. split_and!; [done|by apply (wf_active p t' Hwf' f fe1 Hfe1)|by apply (same_links_descends _ _ _ _ Hl)|].
    intros a a1 Ha1 Hact Hda. apply (same_links_descends _ _ _ _ Hl).
    destruct (same_links_get _ _ _ _ (same_links_sym _ _ Hl) Ha1) as (ae & Hae & _).
    apply (Hmax a ae Hae); [|by apply (same_links_descends _ _ _ _ Hl)].
    apply (wf_active p t Hwf a ae Hae). eapply descends_trans; [exact Hd|].
    apply (same_links_descends _ _ _ _ Hl). by apply (wf_active p t' Hwf' a a1 Ha1).
  - replace (e_height fe1) with (e_height fe) by congruence. replace (e_height tip1) with (e_height tip') by congruence.
    by replace (e_height be1) with (e_height be) by congruence.
Qed.

(** A tip on the most-work chain is the fork. *)
Lemma distance_up t tip be : tree_wf p t -> get (t_entries t) (t_tip t) = Some tip ->
  get (t_entries t) (t_best_header t) = Some be -> descends (t_entries t) (t_best_header t) (t_tip t) ->
  distance t (e_height be - e_height tip).
Proof.
  intros Hwf Htip Hbe Hd. exists (t_tip t), tip, tip, be. split_and!; try done; [|lia].
  exists tip. split_and!; try done; [apply (wf_active p t Hwf _ tip Htip); constructor|].
  intros a ae Ha Hact _. by apply (wf_active p t Hwf a ae Ha).
Qed.

(** What a round leaves to do. *)
Lemma round_spec limit t d : 0 < limit -> tree_wf p t -> all_here t -> distance t d ->
  exists t', round (E:=E) undo p limit t = Ok t' /\ tree_wf p t' /\ all_here t' /\
    t_best_header t' = t_best_header t /\ distance t' (d - Z.min limit d).
Proof using All.
  intros Hlim Hwf Hall (f & fe & tip & be & Hfork & Hfe & Htip & Hbe & ->). pose proof (wf_shape p t Hwf) as Hs.
  destruct (reorg_spec (E:=E) p interval Hp t Hwf limit Hlim) as (period & r & down & up & Hreorg & Hplan).
  destruct Hplan as [Hfork' (tip0 & fe0 & be0 & Htip0 & Hfe0 & Hbe0 & _ & Hdown & Hup) (ds & us & Hjobs & Hds & Hus & _)].
  assert (r_fork r = f) as Hrf.
  { destruct Hfork as (x & Hx & Hxa & Hxd & Hxm), Hfork' as (y & Hy & Hya & Hyd & Hym).
    pose proof (Hxm _ y Hy Hya Hyd) as H1. pose proof (Hym _ x Hx Hxa Hxd) as H2.
    destruct (descends_height _ Hs _ _ _ _ H1 Hx Hy) as (? & _), (descends_height _ Hs _ _ _ _ H2 Hy Hx) as (? & _). lia. }
  rewrite Hrf in *. rewrite Hfe in Hfe0. injection Hfe0 as <-. rewrite Htip in Htip0. injection Htip0 as <-.
  rewrite Hbe in Hbe0. injection Hbe0 as <-.
  pose proof Hfork as (fx & Hfx & Hfa & Hdf & _). rewrite Hfe in Hfx. injection Hfx as <-.
  pose proof (proj1 (wf_active p t Hwf f fe Hfe) Hfa) as Htf.
  destruct (descends_height _ Hs _ f tip fe Htf Htip Hfe) as (_ & Hle1 & _).
  destruct (descends_height _ Hs _ f be fe Hdf Hbe Hfe) as (_ & Hle2 & _).
  pose proof (height_range _ Hs f fe Hfe) as Hfr.
  set (dk := Z.to_nat (e_height tip - e_height fe)) in *. set (uk := Z.to_nat (e_height be - e_height fe)) in *.
  assert (Hclimb : climbs t (t_best_header t) (e_height fe + 1) up).
  { intros i a Ha. destruct (decide (i < uk)%nat) as [Hi|Hi].
    - destruct (path_up_lookup _ Hs (t_best_header t) be uk i Hbe ltac:(lia) Hi) as (a' & ae & Ha' & Hd' & Hae & Hah).
      rewrite Hup, Ha' in Ha. injection Ha as ->. exists ae. split_and!; try done. lia.
    - apply lookup_lt_Some in Ha. rewrite Hup in Ha. unfold path_up in Ha.
      rewrite length_reverse, (path_back_length _ Hs uk _ be Hbe) in Ha by lia. lia. }
  assert (Hupl : length up = uk)
    by (rewrite Hup; unfold path_up; rewrite length_reverse; apply (path_back_length _ Hs uk _ be Hbe); lia).
  pose proof (is_fork_ready t f fe up Hwf Hfork Hall Hfe Hclimb) as Hloc.
  rewrite ready_all in Hus.
  2:{ intros a Ha. apply list_elem_of_lookup in Ha as Hi. destruct Hi as [i Hi].
      destruct (Hclimb i a Hi) as (ae & Hae & _). exists ae. split; [done|]. by eapply Hloc. }
  rewrite Hdown, take_path_back in Hds. set (k := (Z.to_nat limit `min` dk)%nat) in *.
  assert (Hdsl : length ds = k).
  { apply Forall2_length in Hds. rewrite <-Hds. apply (path_back_length _ Hs k _ tip Htip). lia. }
  destruct (carry_down (E:=E) p undo k (with_period t period) tip ds (with_period_wf p t period Hwf) Htip ltac:(lia)
    (job_names E p interval t _ _ _ Hds)) as (t1 & tip1 & Hc1 & Hwf1 & Hm1 & Hb1 & Hd1 & Htip1 & Hh1).
  change (t_entries (with_period t period)) with (t_entries t) in *. change (t_tip (with_period t period)) with (t_tip t) in *.
  change (t_best_header (with_period t period)) with (t_best_header t) in Hb1.
  assert (Hround : round (E:=E) undo p limit t = carry_out undo t1 us).
  { unfold round. rewrite Hreorg. run. rewrite Hjobs. unfold carry_out at 1. rewrite foldM_app.
    unfold carry_out in Hc1. by rewrite Hc1. }
  rewrite Hround, Hdsl in *. destruct (decide (Z.to_nat limit <= dk)%nat) as [Hshort|Hlong].
  - replace (Z.to_nat limit - k)%nat with 0%nat in Hus by lia. rewrite take_0 in Hus.
    apply Forall2_nil_inv_l in Hus as ->. exists t1. split_and!; try done; [by eapply (moves_all_here t t1)|].
    replace (_ - _) with (e_height tip1 - e_height fe + (e_height be - e_height fe)) by lia.
    by apply (distance_down t t1 f fe tip be tip1); try lia.
  - assert (t_tip t1 = f) as Ht1f.
    { eapply (descends_unique _ Hs (t_tip t) (t_tip t1) f tip1 fe); try done. lia. }
    set (ns := take (Z.to_nat limit - k) up) in *.
    assert (Hnsl : length ns = Z.to_nat (Z.min (limit - Z.of_nat dk) (Z.of_nat uk))) by (unfold ns; rewrite length_take; lia).
    destruct (carry_up (E:=E) p undo t1 ns us Hwf1) as (t2 & Hc2 & Hwf2 & Hm2 & Hb2 & Htip2).
    { rewrite Ht1f. eapply (chained_moves _ (t_entries t1)); [exact Hm1|].
      apply (chained_climb t (t_best_header t) be f fe (e_height fe + 1)); try done; [lia| |].
      - intros i a Ha. apply Hclimb. unfold ns in Ha. by apply lookup_take_Some in Ha as [? _].
      - intros a e Ha. apply Hloc. unfold ns in Ha. apply list_elem_of_lookup in Ha as [i Hi].
        apply lookup_take_Some in Hi as [Hi _]. by eapply list_elem_of_lookup_2. }
    { apply job_names in Hus. eapply Forall2_impl; [exact Hus|]. intros n j. by apply names_links, Hm1. }
    assert (Hm : moves (t_entries t) (t_entries t2)) by (etransitivity; [exact Hm1|exact Hm2]).
    exists t2. split_and!; try done; [by eapply (moves_all_here t t2); try done; congruence|congruence|].
    (* the new tip, on the chain of the most-work header *)
    assert (Hend : exists ye, get (t_entries t) (t_tip t2) = Some ye /\
      descends (t_entries t) (t_best_header t) (t_tip t2) /\ e_height ye = e_height fe + Z.of_nat (length ns)).
    { rewrite Htip2, Ht1f. destruct ns as [|n0 ns0] eqn:Hns; [exists fe; cbn; split_and!; try done; lia|].
      destruct (Hclimb (length ns0) (List.last (n0 :: ns0) f)) as (ye & Hye & Hyd & Hyh).
      - assert (take (Z.to_nat limit - k) up !! length ns0 = Some (List.last (n0 :: ns0) f)) as Hlk.
        { fold ns. rewrite Hns. pose proof (last_lookup (n0 :: ns0)) as Hlast. cbn [length Nat.pred] in Hlast.
          rewrite <-Hlast. clear. revert n0. induction ns0 as [|m l IH]; intros n0; [done|].
          change (last (n0 :: m :: l)) with (last (m :: l)). rewrite IH. done. }
        by apply lookup_take_Some in Hlk as [? _].
      - exists ye. split_and!; try done. cbn [length]. lia. }
    destruct Hend as (ye & Hye & Hyd & Hyh).
    destruct (same_links_get _ _ _ _ (proj1 Hm) Hye) as (ye2 & Hye2 & Hq1).
    destruct (same_links_get _ _ _ _ (proj1 Hm) Hbe) as (be2 & Hbe2 & Hq2). unfold link_of in Hq1, Hq2.
    replace (_ - _) with (e_height be2 - e_height ye2).
    2:{ replace (e_height be2) with (e_height be) by congruence. replace (e_height ye2) with (e_height ye) by congruence. lia. }
    apply distance_up; try done; rewrite Hb2, Hb1; [done|]. by apply (same_links_descends _ _ _ _ (proj1 Hm)).
Qed.

(** Rounds bring the tip to the most-work header. *)
Lemma rounds_reach limit n t d : 0 < limit -> tree_wf p t -> all_here t -> distance t d -> d <= Z.of_nat n * limit ->
  exists t', rounds (E:=E) undo p limit n t = Ok t' /\ tree_wf p t' /\ t_best_header t' = t_best_header t /\
    t_tip t' = t_best_header t.
Proof using All.
  intros Hlim. revert t d. induction n as [|n IH]; intros t d Hwf Hall Hdist Hd.
  - exists t. split_and!; try done. destruct Hdist as (f & fe & tip & be & Hfork & Hfe & Htip & Hbe & ->).
    pose proof (wf_shape p t Hwf) as Hs. destruct Hfork as (fx & Hfx & Hfa & Hdf & _). rewrite Hfe in Hfx. injection Hfx as <-.
    pose proof (proj1 (wf_active p t Hwf f fe Hfe) Hfa) as Htf.
    destruct (descends_height _ Hs _ f tip fe Htf Htip Hfe) as (_ & Hle1 & Hne1).
    destruct (descends_height _ Hs _ f be fe Hdf Hbe Hfe) as (_ & Hle2 & Hne2).
    destruct (decide (f = t_tip t)) as [->|Hx]; [|specialize (Hne1 Hx); lia].
    destruct (decide (t_tip t = t_best_header t)) as [|Hx]; [done|specialize (Hne2 Hx); lia].
  - cbn [rounds]. destruct (round_spec limit t d Hlim Hwf Hall Hdist) as (t1 & -> & Hwf1 & Hall1 & Hb1 & Hd1). run.
    destruct (IH t1 _ Hwf1 Hall1 Hd1 ltac:(lia)) as (t' & Ht' & Hwf' & Hb' & Htip'). exists t'.
    split_and!; try done; congruence.
Qed.
End round.
