(* ===== verification/TreeTheorems.v ===== *)
(** * TreeTheorems: the header tree as a state machine

    The steps are the calls the chain thread and the validation thread make; every reachable
    tree is well formed, and a block's status only moves along the documented transitions. *)
From S2P Require Import Prelude Uint Target Bitcoin Flags Params Header Verify Tx Signet Block Coins SkipList Queue Tree TreeProofs TreeInv TreeOps TreeLife Reorg ReorgLive.

(** The genesis header the chain parameters carry passes the rules of its own chain. *)
Definition genesis_ok `{BitcoinCrate} (p : ChainParams) : Prop :=
  facts_ok (pow_limit p) (from_header 0 (blk_header (genesis p))).

Lemma init_wf `{BitcoinCrate} {E} p cap t : genesis_ok p -> with_cap (E:=E) p cap = Ok t -> tree_wf p t.
Proof.
  intros Hg Ht. unfold with_cap in Ht. inv_ok. apply andb_true_iff in Hx as [Hc1%Z.ltb_lt Hc2%Z.leb_le].
  destruct Hg as (Hu & Htime & Hbits). cbn in Hu. destruct (header_work_eq (E:=E) _ Hu) as (w & Hw & Hwl & Hwv).
  rewrite Hw in Hx2. injection Hx2 as <-.
  assert (Hget : forall (y : HeaderEntry) i e, get [y] i = Some e <-> i = 0 /\ e = y).
  { intros y i e. split; [|by intros [-> ->]]. intros Hi. pose proof (get_Some_range _ _ _ Hi) as Hr.
    change (len [y]) with 1 in Hr. replace i with 0 in * by lia. injection Hi as <-. done. }
  constructor; cbn [t_entries t_index t_tip t_best_header t_dirty t_cap].
  - constructor.
    + eexists. split; [done|]. by split_and!.
    + intros i e [-> ->]%Hget. lia.
    + by intros i e [-> ->]%Hget.
    + by intros i e [-> ->]%Hget.
    + change (len [_]) with 1. unfold MAX_TREE_HEADERS. lia.
  - change (len [_]) with 1. lia.
  - intros h i. rewrite lookup_singleton_Some. split.
    + intros [<- <-]. eexists. split; [done|done].
    + intros (e & [-> ->]%Hget & <-). done.
  - by intros i e [-> ->]%Hget.
  - by eexists.
  - intros i e [-> ->]%Hget. split; [constructor|done].
  - intros i e q qe [-> ->]%Hget. done.
  - intros i e [-> ->]%Hget _. exact (conj Hu (conj Htime Hbits)).
  - eexists. split; [done|]. split; [done|]. intros i e [-> ->]%Hget _. right. split; [done|]. done.
  - split; [constructor|]. intros i. split; [by intros ?%not_elem_of_nil|].
    by intros (e & [-> ->]%Hget & ?).
Qed.

(** The calls on a tree. *)
Inductive tree_step `{BitcoinCrate} (p : ChainParams) : HeaderTree -> HeaderTree -> Prop :=
| step_accept t header now t' r : header_typed header ->
    accept (E:=Empty_set) t header p now = Ok (t', r) -> tree_step p t t'
| step_checked t n location t' : block_checked (E:=Empty_set) t n location = Ok t' -> tree_step p t t'
| step_connected t n undo t' : connected (E:=Empty_set) t n undo = Ok t' -> tree_step p t t'
| step_disconnected t n t' : disconnected (E:=Empty_set) t n = Ok t' -> tree_step p t t'
| step_invalidate t n v t' : invalidate (E:=Empty_set) t n v = Ok t' -> tree_step p t t'
| step_reorg t limit t' r : reorg (E:=Empty_set) t p limit = Ok (t', r) -> tree_step p t t'
| step_clear t t' : clear_dirty (E:=Empty_set) t = Ok t' -> tree_step p t t'.

Inductive tree_reachable `{BitcoinCrate} (p : ChainParams) : HeaderTree -> Prop :=
| reach_new cap t : with_cap (E:=Empty_set) p cap = Ok t -> tree_reachable p t
| reach_step t t' : tree_reachable p t -> tree_step p t t' -> tree_reachable p t'.

(** The documented transitions of a block's status. *)
Inductive allowed : HeaderStatus -> HeaderStatus -> Prop :=
| allowed_same s : allowed s s
| allowed_checked l : allowed HeaderStatus.HeaderAccepted (HeaderStatus.BlockChecked l)
| allowed_connect l u : allowed (HeaderStatus.BlockChecked l) (HeaderStatus.Connected l u)
| allowed_reorg l u : allowed (HeaderStatus.Connected l u) (HeaderStatus.BlockChecked l)
| allowed_refuse s v : HeaderStatus.is_terminal s = false -> HeaderStatus.is_connected s = false ->
    allowed s (HeaderStatus.Invalid v)
| allowed_inherit s c : HeaderStatus.is_terminal s = false -> HeaderStatus.is_connected s = false ->
    allowed s (HeaderStatus.InvalidAncestor c).

(** Entries are never removed or rewritten, but for their status and mark. *)
Definition evolves (es es' : list HeaderEntry) : Prop :=
  forall i e, get es i = Some e -> exists e', get es' i = Some e' /\ link_of e' = link_of e /\
    allowed (e_status e) (e_status e').

Lemma evolves_refl es : evolves es es.
Proof. intros i e He. exists e. split_and!; [done..|constructor]. Qed.

Lemma evolves_touched t n e s tip : get (t_entries t) n = Some e -> allowed (e_status e) s ->
  evolves (t_entries t) (t_entries (with_tip (touched t n e s) tip)).
Proof.
  intros Hn Ha i ei Hi. pose proof (touched_get t n e Hn s i) as Hg.
  change (t_entries (with_tip _ tip)) with (t_entries (touched t n e s)). rewrite Hg.
  case_decide as Hin; [subst; rewrite Hn in Hi; injection Hi as <-; eexists; by split_and!|].
  exists ei. split_and!; [done..|constructor].
Qed.

Lemma evolves_inserted t x : evolves (t_entries t) (t_entries (inserted t x)).
Proof. intros i e He. exists e. split_and!; [by apply get_snoc; left|done|constructor]. Qed.

Section steps.
Context `{BitcoinCrate} (p : ChainParams) (interval : Z) (Hp : chain_ok p interval).

Lemma accepts_evolves E t header now t' r : accepts E p interval t header now t' r ->
  evolves (t_entries t) (t_entries t').
Proof. destruct 1; try apply evolves_refl; apply evolves_inserted || apply (evolves_inserted (with_period t period)). Qed.

(** One step: the tree stays well formed and every block moves along the diagram. *)
Lemma tree_step_ok t t' : tree_wf p t -> tree_step p t t' -> tree_wf p t' /\ evolves (t_entries t) (t_entries t').
Proof using Hp.
  intros Hwf Hstep. destruct Hstep as [t header now t' r Hh Hacc|t n loc t' Hc|t n und t' Hc|t n t' Hc|t n v t' Hc|t limit t' r Hc|t t' Hc].
  - destruct (accept_spec (E:=Empty_set) p interval t header now Hp Hwf Hh)
      as [(n & e & _ & _ & _ & Hpan)|(t1 & r1 & Heq & Hspec & Hwf1)]; [congruence|].
    rewrite Hacc in Heq. injection Heq as <- <-. split; [done|]. by eapply accepts_evolves.
  - pose proof Hc as Hc0. unfold block_checked in Hc. apply bind_Ok in Hc as (e & He & Hc). apply entry_inv in He.
    apply bind_Ok in Hc as ([] & Hst%assert_Ok & _). destruct (e_status e) eqn:Hs; try done.
    destruct (block_checked_spec (E:=Empty_set) p t Hwf n e loc He Hs) as [Heq Hwf1].
    rewrite Hc0 in Heq. injection Heq as ->. split; [done|].
    apply (evolves_touched t n e _ (t_tip t) He). rewrite Hs. constructor.
  - pose proof Hc as Hc0. unfold connected in Hc. apply bind_Ok in Hc as (e & He & Hc). apply entry_inv in He.
    apply bind_Ok in Hc as ([] & Hpar%assert_Ok & Hc). apply bool_decide_eq_true in Hpar.
    destruct (e_status e) eqn:Hs; try done.
    destruct (connected_spec (E:=Empty_set) p t Hwf n e _ und He Hs Hpar) as [Heq Hwf1].
    rewrite Hc0 in Heq. injection Heq as ->. split; [done|].
    apply (evolves_touched t n e _ n He). rewrite Hs. constructor.
  - pose proof Hc as Hc0. unfold disconnected in Hc. apply bind_Ok in Hc as ([] & Htip%assert_Ok & Hc).
    apply Z.eqb_eq in Htip as ->. apply bind_Ok in Hc as (e & He & Hc). apply entry_inv in He.
    destruct (e_status e) eqn:Hs; try done.
    destruct (disconnected_spec (E:=Empty_set) p t Hwf e _ _ He Hs) as (q & Hq & Heq & Hwf1).
    rewrite Hc0 in Heq. injection Heq as ->. split; [done|].
    apply (evolves_touched t _ e _ q He). rewrite Hs. constructor.
  - pose proof Hc as Hc0. unfold invalidate in Hc. apply bind_Ok in Hc as (e & He & Hc). apply entry_inv in He.
    apply bind_Ok in Hc as ([] & Hlive%assert_Ok & Hc). apply bind_Ok in Hc as ([] & Hidle%assert_Ok & Hc).
    apply negb_true_iff in Hlive, Hidle.
    destruct (invalidate_spec (E:=Empty_set) p t Hwf n e He Hlive Hidle v) as (es' & best & Heq & Hr & _ & Hwf1).
    rewrite Hc0 in Heq. injection Heq as ->. split; [done|].
    intros i ei Hi. destruct (proj2 Hr i ei Hi) as (e' & He' & Ho). exists e'. split; [done|].
    destruct Ho as [[-> ->]|[[Hx ->]|(_ & _ & ->)]].
    + rewrite He in Hi. injection Hi as <-. split; [done|]. by constructor.
    + split; [done|]. pose proof Hx as (_ & _ & ei' & Hei' & Hl). rewrite Hi in Hei'. injection Hei' as <-.
      constructor; [done|]. eapply (refused_idle p t Hwf n e He Hidle i ei); done.
    + split; [done|constructor].
  - unfold reorg in Hc. pose proof Hc as Hc0. apply bind_Ok in Hc as ([] & Hlim%assert_Ok & _). apply Z.ltb_lt in Hlim.
    destruct (reorg_spec (E:=Empty_set) p interval Hp t Hwf limit Hlim) as (period & r1 & dn & up & Heq & _).
    unfold reorg in Heq. rewrite Hc0 in Heq. injection Heq as -> ->. split; [by apply with_period_wf|apply evolves_refl].
  - destruct (clear_dirty_spec (E:=Empty_set) p t Hwf) as (es1 & Heq & Hwf1 & Hg). rewrite Hc in Heq.
    injection Heq as ->. split; [done|]. intros i e He. exists (with_dirty false e). cbn. rewrite Hg, He.
    split_and!; [done..|constructor].
Qed.

Lemma reachable_wf t : genesis_ok p -> tree_reachable p t -> tree_wf p t.
Proof using Hp.
  intros Hg. induction 1 as [cap t Ht|t t' _ IH Hstep]; [by eapply init_wf|].
  by apply (tree_step_ok t t').
Qed.
End steps.

(** ** Properties *)

(** C3. The header tree is sound in every state the node can reach.  Whatever sequence of
    headers, checked blocks, connections, disconnections, refusals, plans and index writes
    led to it: entries link to earlier ones with the right height, work and skip pointer,
    the hash index names exactly the entries, [Connected] is exactly the chain from genesis
    to the tip, a block below a refused one is refused with the nearest culprit, the best
    header is the most-work one that is not refused (the first of equals), and the marked
    entries are exactly those to be written.  And a step removes nothing and moves a
    block's status only along the documented diagram. *)
Theorem tree_invariant `{BitcoinCrate} p interval t : chain_ok p interval -> genesis_ok p ->
  tree_reachable p t ->
  tree_wf p t /\ forall t', tree_step p t t' -> evolves (t_entries t) (t_entries t').
Proof.
  intros Hp Hg Hr. pose proof (reachable_wf p interval Hp t Hg Hr) as Hwf. split; [done|].
  intros t' Hstep. by apply (tree_step_ok p interval Hp t t' Hwf).
Qed.


(** C25. Ancestor lookup terminates within its bound: on every well-formed tree, at the two
    million headers of the cap included, the skip-list walk finds the one ancestor of a node
    at a height without ever reaching the assertion on [MAX_ANCESTOR_STEPS]. *)
Theorem ancestor_within_bound `{BitcoinCrate} p t n e h : tree_wf p t -> get (t_entries t) n = Some e -> 0 <= h ->
  ancestor (E:=Empty_set) t n h <> Panic /\
  (e_height e < h -> ancestor (E:=Empty_set) t n h = Ok None) /\
  (h <= e_height e -> exists a ae, ancestor (E:=Empty_set) t n h = Ok (Some a) /\
    descends (t_entries t) n a /\ get (t_entries t) a = Some ae /\ e_height ae = h /\
    forall b be, descends (t_entries t) n b -> get (t_entries t) b = Some be -> e_height be = h -> b = a).
Proof.
  intros Hwf Hn Hh. pose proof (wf_shape p t Hwf) as Hs.
  assert (Hlow : h <= e_height e -> exists a ae, ancestor (E:=Empty_set) t n h = Ok (Some a) /\
    descends (t_entries t) n a /\ get (t_entries t) a = Some ae /\ e_height ae = h /\
    forall b be, descends (t_entries t) n b -> get (t_entries t) b = Some be -> e_height be = h -> b = a).
  { intros Hle. destruct (ancestor_ok (E:=Empty_set) t Hs n e h Hn ltac:(lia)) as (a & ae & Ha & Hd & Hae & Hah).
    exists a, ae. split_and!; try done. intros b be Hb Hbe Hbh.
    eapply (descends_unique _ Hs n b a be ae); try done. congruence. }
  pose proof (ancestor_None (E:=Empty_set) t n e h Hn) as Hhigh. split_and!; [|done..].
  destruct (Z.le_gt_cases h (e_height e)) as [Hle|Hgt]; [|by rewrite Hhigh].
  destruct (Hlow Hle) as (a & ae & -> & _). done.
Qed.

(** C24. Refusing a block refuses exactly its descendants.  [invalidate] of a block that is
    neither refused nor connected always succeeds: that block is marked with the stage's
    evidence, every descendant not yet refused inherits it with that block as the culprit,
    no other entry changes, and the best header is again the most-work one left. *)
Theorem invalidate_exact `{BitcoinCrate} p t n e v : tree_wf p t -> get (t_entries t) n = Some e ->
  terminal e = false -> active e = false ->
  exists t', invalidate (E:=Empty_set) t n v = Ok t' /\ tree_wf p t' /\ t_tip t' = t_tip t /\
    (forall i ei, get (t_entries t) i = Some ei -> exists e', get (t_entries t') i = Some e' /\
      (i = n -> e_status e' = HeaderStatus.Invalid v) /\
      (i <> n -> descends (t_entries t) i n -> terminal ei = false ->
        e_status e' = HeaderStatus.InvalidAncestor (e_hash e)) /\
      (~ descends (t_entries t) i n \/ terminal ei = true -> e' = ei)) /\
    best_of (t_entries t') (t_best_header t').
Proof.
  intros Hwf Hn Hlive Hidle.
  destruct (invalidate_spec (E:=Empty_set) p t Hwf n e Hn Hlive Hidle v) as (es' & best & Hinv & Hr & Hbest & Hwf').
  eexists. split; [exact Hinv|]. split; [done|]. split; [done|]. split; [|done].
  intros i ei Hi. destruct (proj2 Hr i ei Hi) as (e' & He' & Ho). exists e'. split; [done|].
  destruct Ho as [[-> ->]|[[Hx ->]|(Hne & Hnx & ->)]].
  - rewrite Hn in Hi. injection Hi as <-. split_and!; [done|done|].
    intros [Hnd|Ht]; [by destruct Hnd; constructor|congruence].
  - pose proof Hx as (Hne & Hd & ei' & Hei' & Hl). rewrite Hi in Hei'. injection Hei' as <-.
    split_and!; [done|done|]. intros [Hnd|Ht]; [done|congruence].
  - split_and!; [done| |done]. intros _ Hd Hl. destruct Hnx. split_and!; eauto.
Qed.


(** ** A concrete tree

    A crate whose block hash is the nonce (mainnet's genesis aside), a fork of three headers on
    mainnet's genesis, and the theorems above applied to it. *)

Definition nonce_crate : BitcoinCrate := {|
  block_hash h := if hdr_nonce h =? 2083236893 then MAINNET_GENESIS_HASH else le_bytes 32 (4 + hdr_nonce h mod 1000);
  compute_txid _ := MAINNET_GENESIS_HASH;
  compute_wtxid _ := MAINNET_GENESIS_HASH;
  base_size _ := 0;
  total_size _ := 0;
  outpoint_null := mkOutPoint (repeat x00 32) u32_max;
  is_null o := op_vout o =? u32_max;
  is_coinbase tx := match tx_input tx with [i] => op_vout (previous_output i) =? u32_max | _ => false end;
|}.
#[local] Existing Instance nonce_crate.

Definition child (prev : bytes) (time nonce : Z) : Header := mkHeader 4 prev [] time 0x1d00ffff nonce.
Definition header_a : Header := child MAINNET_GENESIS_HASH 1231007000 1.
Definition header_b : Header := child (block_hash header_a) 1231007600 2.
Definition header_c : Header := child MAINNET_GENESIS_HASH 1231007100 3.

Definition run_accept (t : HeaderTree) (h : Header) : HeaderTree :=
  match accept (E:=Empty_set) t h mainnet_params 1231010000 with Ok (t', _) => t' | _ => t end.
Definition tree0 : HeaderTree := Eval vm_compute in
  match with_cap (E:=Empty_set) mainnet_params 100 with Ok t => t | _ => mkTree [] ∅ 0 0 [] [] 0 end.
Definition tree1 : HeaderTree := Eval vm_compute in run_accept tree0 header_a.
Definition tree2 : HeaderTree := Eval vm_compute in run_accept tree1 header_b.
Definition tree3 : HeaderTree := Eval vm_compute in run_accept tree2 header_c.
Definition here : BlockLocation := mkBlockLocation 0 8 285.
Definition checked (t : HeaderTree) (n : Z) : HeaderTree :=
  match block_checked (E:=Empty_set) t n here with Ok t' => t' | _ => t end.
Definition tree4 : HeaderTree := Eval vm_compute in checked (checked tree3 1) 2.

Lemma mainnet_chain : chain_ok mainnet_params 2016.
Proof.
  constructor.
  - eapply tabled_mainnet with (g := some_genesis). vm_compute. reflexivity.
  - intros E. vm_compute. reflexivity.
  - vm_compute. congruence.
Qed.

Lemma mainnet_genesis : genesis_ok mainnet_params.
Proof.
  split; [vm_compute; split; congruence|]. split; [vm_compute; split; congruence|].
  destruct (decode_target (hdr_bits (blk_header (genesis mainnet_params))) (pow_limit mainnet_params)) as [g|e|] eqn:Hg;
    vm_compute in Hg; [|discriminate..].
  exists g. split; [injection Hg as <-; vm_compute; reflexivity|]. injection Hg as <-. vm_compute. congruence.
Qed.

Ltac header_typed := constructor; vm_compute; repeat split; congruence.

Lemma typed_a : header_typed header_a.
Proof. header_typed. Qed.
Lemma typed_b : header_typed header_b.
Proof. header_typed. Qed.
Lemma typed_c : header_typed header_c.
Proof. header_typed. Qed.

Lemma reach2 : tree_reachable mainnet_params tree2.
Proof.
  eapply (reach_step _ tree1); [eapply (reach_step _ tree0); [eapply (reach_new _ 100)|]|].
  - vm_compute. reflexivity.
  - eapply (step_accept _ tree0 header_a 1231010000); [exact typed_a|vm_compute; reflexivity].
  - eapply (step_accept _ tree1 header_b 1231010000); [exact typed_b|vm_compute; reflexivity].
Qed.

Lemma reach3 : tree_reachable mainnet_params tree3.
Proof.
  eapply (reach_step _ tree2); [exact reach2|].
  eapply (step_accept _ tree2 header_c 1231010000); [exact typed_c|vm_compute; reflexivity].
Qed.

Lemma reach4 : tree_reachable mainnet_params tree4.
Proof.
  eapply (reach_step _ (checked tree3 1)); [eapply (reach_step _ tree3); [exact reach3|]|].
  - eapply (step_checked _ tree3 1 here). vm_compute. reflexivity.
  - eapply (step_checked _ (checked tree3 1) 2 here). vm_compute. reflexivity.
Qed.

Lemma wf4 : tree_wf mainnet_params tree4.
Proof. exact (reachable_wf mainnet_params 2016 mainnet_chain tree4 mainnet_genesis reach4). Qed.
Lemma wf2 : tree_wf mainnet_params tree2.
Proof. exact (reachable_wf mainnet_params 2016 mainnet_chain tree2 mainnet_genesis reach2). Qed.

Lemma tree_invariant_witness : best_of (t_entries tree4) 2 /\ tree_reachable mainnet_params tree4.
Proof.
  destruct (tree_invariant mainnet_params 2016 tree4 mainnet_chain mainnet_genesis reach4) as [Hwf _].
  split; [exact (wf_best _ _ Hwf)|exact reach4].
Defined.


Lemma ancestor_within_bound_witness : ancestor (E:=Empty_set) tree4 2 0 <> Panic.
Proof. apply (ancestor_within_bound mainnet_params tree4 2 (default (mkEntry header_a [] 0 WORK_ZERO None None HeaderStatus.Genesis false) (get (t_entries tree4) 2)) 0 wf4); [vm_compute; reflexivity|lia]. Defined.

Lemma invalidate_exact_witness : exists t', invalidate (E:=Empty_set) tree4 1 (Invalidity.Reloaded Stage.Connect) = Ok t' /\
  best_of (t_entries t') (t_best_header t').
Proof.
  destruct (invalidate_exact mainnet_params tree4 1
    (default (mkEntry header_a [] 0 WORK_ZERO None None HeaderStatus.Genesis false) (get (t_entries tree4) 1))
    (Invalidity.Reloaded Stage.Connect) wf4) as (t' & Hinv & _ & _ & _ & Hbest).
  - vm_compute. reflexivity.
  - vm_compute. reflexivity.
  - vm_compute. reflexivity.
  - exists t'. split; [exact Hinv|exact Hbest].
Defined.

Lemma here4 : all_here tree4.
Proof.
  intros i e He Hd Hact. destruct (get_Some_range _ _ _ He) as [Hlo Hhi]. change (len (t_entries tree4)) with 4 in Hhi.
  assert (i = 0 \/ i = 1 \/ i = 2 \/ i = 3) as [->|[->|[->| ->]]] by lia; vm_compute in He; injection He as <-;
    try (vm_compute in Hact; discriminate Hact); try (eexists; vm_compute; reflexivity).
  exfalso. change (t_best_header tree4) with 2 in Hd.
  destruct (descends_height (t_entries tree4) (wf_shape _ _ wf4) 2 3 _ _ Hd eq_refl eq_refl) as [Hle _]. lia.
Qed.

Lemma distance4 : distance tree4 2.
Proof.
  exact (distance_up mainnet_params tree4 _ _ wf4 eq_refl eq_refl (descends_genesis _ (wf_shape _ _ wf4) 2 _ eq_refl)).
Qed.

