(* ===== verification/Message.v ===== *)
(** * Message: the peer-to-peer messages of the pinned [bitcoin] crate

    The public data of [bitcoin::p2p] that the node reads or builds, in the crate's own
    constructors.  A payload that the node never looks into is the bytes of its encoding.
    The encoder and the decoder of a whole frame, and the translation of a socket address,
    are the fields of a class. *)
From S2P Require Import Prelude Bitcoin.

(** [ServiceFlags]: a set of bits of a [u64]. *)
Module ServiceFlags.
Definition NONE : Z := 0.
Definition NETWORK : Z := Z.shiftl 1 0.
Definition WITNESS : Z := Z.shiftl 1 3.
Definition NETWORK_LIMITED : Z := Z.shiftl 1 10.
(** [add] and [has]. *)
Definition add (self other : Z) : Z := Z.lor self other.
Definition has (self flags : Z) : bool := Z.lor self flags =? self.
End ServiceFlags.

(** [std::net::SocketAddr]. *)
Inductive IpAddr := V4 (octets : bytes) | V6 (octets : bytes).
Record SocketAddr := mkSocketAddr { sa_ip : IpAddr; sa_port : Z }.

#[global] Instance IpAddr_eq_dec : EqDecision IpAddr.
Proof. solve_decision. Defined.
#[global] Instance SocketAddr_eq_dec : EqDecision SocketAddr.
Proof. solve_decision. Defined.

Record Address := mkAddress { addr_services : Z; addr_address : list Z; addr_port : Z }.

Record VersionMessage := mkVersionMessage {
  v_version : Z;
  v_services : Z;
  v_timestamp : Z;
  v_receiver : Address;
  v_sender : Address;
  v_nonce : Z;
  v_user_agent : bytes;
  v_start_height : Z;
  v_relay : bool;
}.

(** [GetHeadersMessage] and [GetBlocksMessage] have the same fields. *)
Record GetHeadersMessage := mkGetHeaders {
  gh_version : Z;
  gh_locator_hashes : list bytes;
  gh_stop_hash : bytes;
}.

Inductive Inventory :=
| InvError
| InvTransaction (hash : bytes)
| InvBlock (hash : bytes)
| InvCompactBlock (hash : bytes)
| InvWTx (hash : bytes)
| InvWitnessTransaction (hash : bytes)
| InvWitnessBlock (hash : bytes)
| InvUnknown (inv_type : Z) (hash : bytes).

(** [NetworkMessage]; [Other] stands for the variants that no line of the node names. *)
Inductive NetworkMessage :=
| MVersion (version : VersionMessage)
| MVerack
| MAddr (addresses : list (Z * Address))
| MInv (items : list Inventory)
| MGetData (items : list Inventory)
| MNotFound (items : list Inventory)
| MGetBlocks (request : GetHeadersMessage)
| MGetHeaders (request : GetHeadersMessage)
| MMemPool
| MTx (tx : Transaction)
| MBlock (block : Block)
| MHeaders (headers : list Header)
| MSendHeaders
| MGetAddr
| MPing (nonce : Z)
| MPong (nonce : Z)
| MFilterLoad (payload : bytes)
| MFilterAdd (payload : bytes)
| MFilterClear
| MGetCFilters (payload : bytes)
| MGetCFHeaders (payload : bytes)
| MGetCFCheckpt (payload : bytes)
| MWtxidRelay
| MAddrV2 (addresses : list bytes)
| MSendAddrV2
| MUnknown (command payload : bytes)
| MOther (payload : bytes).

(** [serialize] of [RawNetworkMessage::new(magic, message)], [deserialize] followed by
    [into_payload] (no value when it fails), [NetworkMessage::cmd], and [Address::new]. *)
Class P2p := {
  serialize_raw : bytes -> NetworkMessage -> bytes;
  deserialize_raw : bytes -> option NetworkMessage;
  cmd : NetworkMessage -> bytes;
  address_new : SocketAddr -> Z -> Address;
}.

(** A message type on the wire: printable characters, then zeros up to twelve bytes. *)
Definition padded_command (command : bytes) : Prop :=
  exists name zeros, command = name ++ repeat x00 zeros /\ length command = 12%nat /\
    Forall (fun b => 32 <= bz b <= 126) name.

(** The documented v1 frame: the magic, the message type, the length of the payload, four
    bytes of checksum and the payload; and the decoder inverts the encoder on the frames the
    protocol allows. *)
Class P2pLaws `{P2p} : Prop := {
  raw_layout magic m : len (serialize_raw magic m) <= 24 + 4000000 ->
    exists command checksum payload,
    serialize_raw magic m = magic ++ command ++ le_bytes 4 (len payload) ++ checksum ++ payload /\
    padded_command command /\ length checksum = 4%nat;
  raw_roundtrip magic m : length magic = 4%nat -> len (serialize_raw magic m) <= 24 + 4000000 ->
    deserialize_raw (serialize_raw magic m) = Some m;
}.
