(* ===== verification/Wire.v ===== *)
(** * Wire: framing with the node's own bounds ([peer/wire.rs])

    The framer is a state machine over one socket.  What the socket gave to one read is an
    argument ([Incoming]), and so is the clock. *)
From S2P Require Import Prelude Bitcoin Message.

Definition HEADER_BYTES : Z := 24.
Definition MAX_MESSAGE_LEN : Z := 4000000.
Definition MAX_INV_ITEMS : Z := 50000.
Definition MAX_LOCATOR_ITEMS : Z := 101.
Definition MAX_HEADERS_ITEMS : Z := 2000.
Definition MAX_ADDR_ITEMS : Z := 1000.

Inductive WireError :=
| WrongMagic (seen : bytes)
| BadCommand
| TooLong (declared : Z)
| OverCap (declared cap : Z)
| Malformed
| TooManyItems (seen allowed : Z)
| Stalled.

#[global] Instance WireError_eq_dec : EqDecision WireError.
Proof. solve_decision. Defined.

Inductive Frame :=
| FMessage (message : NetworkMessage) (wire_len : Z)
| FIdle
| FEof.

(** What one [read] of the socket returned: bytes, the end of the stream, one of the three
    kinds of error that are ticks, or any other error. *)
Inductive Incoming :=
| InBytes (read : bytes)
| InZero
| InTick
| InFailed.

(** [is_message_type_valid]: the loop carries [padding]. *)
Fixpoint message_type_loop (padding : bool) (command : bytes) : bool :=
  match command with
  | [] => true
  | byte :: command =>
      if padding then if negb (bz byte =? 0) then false else message_type_loop padding command
      else if bz byte =? 0 then message_type_loop true command
      else if negb ((0x20 <=? bz byte) && (bz byte <=? 0x7e)) then false
      else message_type_loop padding command
  end.

Definition is_message_type_valid (command : bytes) : bool := message_type_loop false command.

Definition check_counts (message : NetworkMessage) : outcome WireError unit :=
  let check (seen allowed : Z) :=
    if allowed <? seen then Err (TooManyItems seen allowed) else Ok tt in
  match message with
  | MInv items | MGetData items | MNotFound items => check (len items) MAX_INV_ITEMS
  | MGetHeaders request => check (len (gh_locator_hashes request)) MAX_LOCATOR_ITEMS
  | MGetBlocks request => check (len (gh_locator_hashes request)) MAX_LOCATOR_ITEMS
  | MHeaders headers => check (len headers) MAX_HEADERS_ITEMS
  | MAddr addresses => check (len addresses) MAX_ADDR_ITEMS
  | MAddrV2 addresses => check (len addresses) MAX_ADDR_ITEMS
  | _ => Ok tt
  end.

Definition encode {E} `{P2p} (magic : bytes) (message : NetworkMessage) : outcome E bytes :=
  let frame := serialize_raw magic message in
  assert_ (HEADER_BYTES <=? len frame);; Ok frame.

(** [vec.resize(n, 0)] for a vector that is shorter. *)
Definition grow (v : bytes) (n : Z) : bytes := v ++ repeat x00 (Z.to_nat (n - len v)).
(** [v\[a..\]] after a read filled it with [chunk]. *)
Definition fill (v : bytes) (a : Z) (chunk : bytes) : bytes :=
  take (Z.to_nat a) v ++ chunk ++ drop (Z.to_nat a + length chunk) v.

Record Framer := mkFramer {
  fr_magic : bytes;
  fr_buffer : bytes;
  fr_got : Z;
  fr_declared : option Z;
  fr_started : option Z;
  fr_deadline : Z;
}.

Module Framer.
Section framer.
Context `{P2p}.

Definition new {E} (magic : bytes) (initial_bytes deadline : Z) : outcome E Framer :=
  assert_ (HEADER_BYTES <=? initial_bytes);;
  assert_ (negb (deadline =? 0));;
  Ok (mkFramer magic (repeat x00 (Z.to_nat initial_bytes)) 0 None None deadline).

Definition reset (self : Framer) : Framer :=
  mkFramer (fr_magic self) (fr_buffer self) 0 None None (fr_deadline self).

Definition in_progress (self : Framer) : bool := 0 <? fr_got self.

Definition want (self : Framer) : Z :=
  match fr_declared self with
  | None => HEADER_BYTES
  | Some declared => saturating_add HEADER_BYTES declared
  end.

Definition parse_header (self : Framer) (cap : Z) : outcome WireError Z :=
  header ← match slice (fr_buffer self) 0 HEADER_BYTES with Some h => Ok h | None => Err Malformed end;
  magic ← match slice header 0 4 with Some m => Ok m | None => Err Malformed end;
  if negb (bool_decide (magic = fr_magic self)) then Err (WrongMagic magic) else
  command ← match slice header 4 16 with Some c => Ok c | None => Err Malformed end;
  if negb (is_message_type_valid command) then Err BadCommand else
  length ← match slice header 16 20 with Some l => Ok l | None => Err Malformed end;
  let declared := le_val length in
  if MAX_MESSAGE_LEN <? declared then Err (TooLong declared) else
  if cap <? declared then Err (OverCap declared cap) else
  Ok declared.

Definition finish (self : Framer) (declared : Z) : Framer * outcome WireError Frame :=
  let wire_len := saturating_add HEADER_BYTES declared in
  match slice (fr_buffer self) 0 wire_len with
  | None => (self, Err Malformed)
  | Some frame =>
      match deserialize_raw frame with
      | None => (self, Err Malformed)
      | Some message =>
          (reset self, (check_counts message;; Ok (FMessage message wire_len)))
      end
  end.

(** The part of [settle] after the header. *)
Definition settle_payload (self : Framer) : Framer * outcome WireError Frame :=
  let declared := default 0 (fr_declared self) in
  if saturating_add HEADER_BYTES declared <=? fr_got self then finish self declared
  else (self, Ok FIdle).

Definition settle (self : Framer) (cap : Z) : Framer * outcome WireError Frame :=
  match fr_declared self with
  | None =>
      if fr_got self <? HEADER_BYTES then (self, Ok FIdle)
      else match parse_header self cap with
           | Ok declared =>
               let want := saturating_add HEADER_BYTES declared in
               let buffer := if len (fr_buffer self) <? want then grow (fr_buffer self) want
                             else fr_buffer self in
               settle_payload (mkFramer (fr_magic self) buffer (fr_got self) (Some declared)
                                 (fr_started self) (fr_deadline self))
           | Err e => (self, Err e)
           | Panic => (self, Panic)
           end
  | Some _ => settle_payload self
  end.

Definition after_idle (self : Framer) (now : Z) (tick : bool) : outcome WireError Frame :=
  if tick then
    match fr_started self with
    | Some started => if fr_deadline self <? now - started then Err Stalled else Ok FIdle
    | None => Ok FIdle
    end
  else Ok FEof.

Definition read (self : Framer) (now : Z) (incoming : Incoming) (cap : Z)
    : Framer * outcome WireError Frame :=
  let want := want self in
  if negb ((cap <=? MAX_MESSAGE_LEN) && (fr_got self <? want) && (want <=? len (fr_buffer self)))
  then (self, Panic)
  else match incoming with
  | InZero => (self, Ok FEof)
  | InTick => (self, after_idle self now true)
  | InFailed => (self, after_idle self now false)
  | InBytes chunk =>
      let started := match fr_started self with Some s => Some s | None => Some now end in
      settle (mkFramer (fr_magic self) (fill (fr_buffer self) (fr_got self) chunk)
                (saturating_add (fr_got self) (len chunk)) (fr_declared self) started
                (fr_deadline self)) cap
  end.
End framer.
End Framer.
