(* ===== verification/WireProofs.v ===== *)
(** * WireProofs: the framer refines a parser of the whole byte stream

    [frames] parses a stream in one piece.  The framer, fed the same bytes in any pieces, gives
    the same messages and the same error, never panics and never holds more than its cap. *)
From S2P Require Import Prelude Bitcoin Message Wire.

(** ** The abstract parser *)

(** What the four checks of a complete header say: its declared length, or the error. *)
Definition header_verdict (magic header : bytes) (cap : Z) : outcome WireError Z :=
  let declared := le_val (take 4 (drop 16 header)) in
  if negb (bool_decide (take 4 header = magic)) then Err (WrongMagic (take 4 header))
  else if negb (is_message_type_valid (take 12 (drop 4 header))) then Err BadCommand
  else if MAX_MESSAGE_LEN <? declared then Err (TooLong declared)
  else if cap <? declared then Err (OverCap declared cap)
  else Ok declared.

Inductive split :=
| More
| Bad (e : WireError)
| Whole (message : NetworkMessage) (wire_len : Z) (rest : bytes).

Section spec.
Context `{P2p}.

Definition decode_frame (frame : bytes) : outcome WireError NetworkMessage :=
  match deserialize_raw frame with
  | None => Err Malformed
  | Some message => check_counts message;; Ok message
  end.

(** The first frame of a stream. *)
Definition split_frame (magic : bytes) (cap : Z) (s : bytes) : split :=
  if len s <? HEADER_BYTES then More
  else match header_verdict magic (take 24 s) cap with
  | Ok declared =>
      let n := HEADER_BYTES + declared in
      if len s <? n then More
      else match decode_frame (take (Z.to_nat n) s) with
           | Ok message => Whole message n (drop (Z.to_nat n) s)
           | Err e => Bad e
           | Panic => More
           end
  | Err e => Bad e
  | Panic => More
  end.

(** All the frames of a stream, up to the first error; a frame is at least a header long, so
    the length of the stream is fuel enough. *)
Fixpoint frames_fuel (fuel : nat) (magic : bytes) (cap : Z) (s : bytes)
    : list (NetworkMessage * Z) * option WireError :=
  match fuel with
  | O => ([], None)
  | S fuel =>
      match split_frame magic cap s with
      | More => ([], None)
      | Bad e => ([], Some e)
      | Whole message n rest =>
          let (ms, e) := frames_fuel fuel magic cap rest in ((message, n) :: ms, e)
      end
  end.
Definition frames (magic : bytes) (cap : Z) (s : bytes) : list (NetworkMessage * Z) * option WireError :=
  frames_fuel (S (length s)) magic cap s.

Lemma check_counts_no_panic m : check_counts m <> Panic.
Proof. destruct m; cbn [check_counts]; try done; by destruct (_ <? _). Qed.

Lemma decode_frame_no_panic f : decode_frame f <> Panic.
Proof.
  unfold decode_frame. destruct (deserialize_raw f) as [m|]; [|done].
  pose proof (check_counts_no_panic m). by destruct (check_counts m) as [[]| |].
Qed.

Lemma header_verdict_Ok magic h cap d : header_verdict magic h cap = Ok d ->
  d = le_val (take 4 (drop 16 h)) /\ 0 <= d <= cap /\ d <= MAX_MESSAGE_LEN.
Proof.
  unfold header_verdict. pose proof (le_val_range (take 4 (drop 16 h))).
  destruct (negb _); [done|]. destruct (negb _); [done|].
  destruct (Z.ltb_spec MAX_MESSAGE_LEN (le_val (take 4 (drop 16 h)))); [done|].
  destruct (Z.ltb_spec cap (le_val (take 4 (drop 16 h)))); [done|]. intros; simplify_eq. lia.
Qed.

Lemma header_verdict_no_panic magic h cap : header_verdict magic h cap <> Panic.
Proof. unfold header_verdict. repeat case_match; done. Qed.

(** A stream that has a verdict keeps it when more bytes arrive. *)
Lemma split_frame_app magic cap s t : split_frame magic cap s <> More ->
  split_frame magic cap (s ++ t) =
    match split_frame magic cap s with Whole m n rest => Whole m n (rest ++ t) | r => r end.
Proof.
  unfold split_frame. rewrite len_app. pose proof (len_nonneg t). change HEADER_BYTES with 24.
  destruct (Z.ltb_spec (len s) 24) as [|Hs]; [done|]. rewrite (proj2 (Z.ltb_ge (len s + len t) 24)) by lia.
  rewrite take_app_le by (unfold len in Hs; lia).
  destruct (header_verdict _ _ _) as [d|e|] eqn:Hd; [|done|done].
  apply header_verdict_Ok in Hd as (_ & ? & _).
  destruct (Z.ltb_spec (len s) (24 + d)) as [|Hn]; [done|].
  rewrite (proj2 (Z.ltb_ge (len s + len t) (24 + d))) by lia. unfold len in Hn.
  rewrite take_app_le by lia. destruct (decode_frame _) eqn:Hf; [|done|by apply decode_frame_no_panic in Hf].
  intros _. rewrite drop_app_le by lia. done.
Qed.

Lemma split_frame_shorter magic cap s m n rest :
  split_frame magic cap s = Whole m n rest -> (length rest < length s)%nat.
Proof.
  unfold split_frame. change HEADER_BYTES with 24. destruct (Z.ltb_spec (len s) 24); [done|].
  destruct (header_verdict _ _ _) as [d| |] eqn:Hd; [|done|done].
  apply header_verdict_Ok in Hd as (_ & ? & _).
  destruct (Z.ltb_spec (len s) (24 + d)); [done|]. destruct (decode_frame _); [|done|done].
  intros; simplify_eq. rewrite length_drop. unfold len in *. lia.
Qed.

Lemma frames_fuel_enough magic cap fuel1 fuel2 s :
  (length s < fuel1)%nat -> (length s < fuel2)%nat ->
  frames_fuel fuel1 magic cap s = frames_fuel fuel2 magic cap s.
Proof.
  revert fuel2 s; induction fuel1 as [|f1 IH]; intros [|f2] s H1 H2; try lia. cbn [frames_fuel].
  destruct (split_frame magic cap s) as [| |m n rest] eqn:Hs; [done|done|].
  apply split_frame_shorter in Hs. by rewrite (IH f2) by lia.
Qed.

(** [frames] by its equation. *)
Lemma frames_eq magic cap s : frames magic cap s =
  match split_frame magic cap s with
  | More => ([], None)
  | Bad e => ([], Some e)
  | Whole m n rest => let (ms, e) := frames magic cap rest in ((m, n) :: ms, e)
  end.
Proof.
  unfold frames. cbn [frames_fuel]. destruct (split_frame magic cap s) as [| |m n rest] eqn:Hs; [done|done|].
  apply split_frame_shorter in Hs. by rewrite (frames_fuel_enough _ _ (length s) (S (length rest))) by lia.
Qed.

(** ** The framer's state *)

(** A framer between two reads: it wants more than it has, its buffer has the room, and the
    buffer is no longer than it started or than the largest frame allowed. *)
Record framer_ok (initial most : Z) (self : Framer) : Prop := mkFramerOk {
  ok_got : 0 <= fr_got self;
  ok_want : fr_got self < Framer.want self <= len (fr_buffer self);
  ok_declared d : fr_declared self = Some d -> 0 <= d <= most /\ HEADER_BYTES <= fr_got self;
  ok_buffer : len (fr_buffer self) <= Z.max initial (HEADER_BYTES + most);
  ok_most : most <= MAX_MESSAGE_LEN;
  ok_started : fr_started self = None <-> fr_got self = 0;
}.

(** The bytes of the message in progress. *)
Definition pending (self : Framer) : bytes := take (Z.to_nat (fr_got self)) (fr_buffer self).

(** The [Read] contract: at most the room offered, and no bytes is the end of the stream. *)
Definition socket_ok (self : Framer) (incoming : Incoming) : bool :=
  match incoming with
  | InBytes chunk => (0 <? len chunk) && (len chunk <=? Framer.want self - fr_got self)
  | _ => true
  end.

Lemma want_small self initial most : framer_ok initial most self ->
  Framer.want self = HEADER_BYTES + default 0 (fr_declared self).
Proof.
  intros [_ _ Hd _ Hm _]. unfold Framer.want. destruct (fr_declared self) as [d|]; [|done].
  destruct (Hd d eq_refl) as [? _]. apply saturating_add_ok.
  unfold MAX_MESSAGE_LEN, HEADER_BYTES, u64_max in *. simpl. lia.
Qed.

Lemma len_fill v a chunk : 0 <= a -> a + len chunk <= len v -> len (fill v a chunk) = len v.
Proof.
  intros. unfold fill. rewrite !len_app. unfold len in *.
  rewrite length_take, length_drop. lia.
Qed.

Lemma take_fill v a chunk : 0 <= a -> a + len chunk <= len v ->
  take (Z.to_nat (a + len chunk)) (fill v a chunk) = take (Z.to_nat a) v ++ chunk.
Proof.
  intros. unfold fill. rewrite app_assoc.
  assert (Hl : Z.to_nat (a + len chunk) = length (take (Z.to_nat a) v ++ chunk)).
  { rewrite length_app, length_take. unfold len in *. lia. }
  rewrite Hl. apply take_app_length.
Qed.

Lemma len_grow v n : len v <= n -> len (grow v n) = n.
Proof. intros. unfold grow. rewrite len_app. unfold len in *. rewrite repeat_length. lia. Qed.

Lemma slice_front (v : bytes) n : 0 <= n <= len v -> slice v 0 n = Some (take (Z.to_nat n) v).
Proof. intros. rewrite slice_in_range by lia. by rewrite Z.sub_0_r, drop_0. Qed.

Lemma parse_header_spec self cap : HEADER_BYTES <= len (fr_buffer self) ->
  Framer.parse_header self cap = header_verdict (fr_magic self) (take 24 (fr_buffer self)) cap.
Proof.
  intros Hl. unfold HEADER_BYTES in *. unfold Framer.parse_header, header_verdict.
  change HEADER_BYTES with 24. rewrite slice_front by lia. change (Z.to_nat 24) with 24%nat. run.
  assert (Hh : len (take 24 (fr_buffer self)) = 24) by (unfold len in *; rewrite length_take; lia).
  rewrite slice_front by lia. change (Z.to_nat 4) with 4%nat. run.
  destruct (bool_decide _); [|done]. run.
  rewrite (slice_in_range _ 4 16) by lia. change (Z.to_nat (16 - 4)) with 12%nat. change (Z.to_nat 4) with 4%nat. run.
  destruct (is_message_type_valid _); [|done]. run.
  rewrite slice_in_range by lia. change (Z.to_nat (20 - 16)) with 4%nat. by change (Z.to_nat 16) with 16%nat.
Qed.

Lemma finish_spec self d : 0 <= d <= MAX_MESSAGE_LEN -> HEADER_BYTES + d <= len (fr_buffer self) ->
  match decode_frame (take (Z.to_nat (HEADER_BYTES + d)) (fr_buffer self)) with
  | Ok m => Framer.finish self d = (Framer.reset self, Ok (FMessage m (HEADER_BYTES + d)))
  | Err e => snd (Framer.finish self d) = Err e
  | Panic => False
  end.
Proof.
  intros Hd Hl. unfold Framer.finish, decode_frame. unfold MAX_MESSAGE_LEN in *.
  rewrite saturating_add_ok by (unfold HEADER_BYTES, u64_max; lia).
  rewrite slice_front by (unfold HEADER_BYTES in *; lia).
  destruct (deserialize_raw _) as [m|]; [|done]. pose proof (check_counts_no_panic m).
  by destruct (check_counts m) as [[]| |].
Qed.

(** What one read of bytes does, on the bytes received so far. *)
Definition read_verdict (self self' : Framer) (r : outcome WireError Frame) (cap : Z) (got : bytes) : Prop :=
  match split_frame (fr_magic self) cap got with
  | More => r = Ok FIdle /\ pending self' = got
  | Bad e => r = Err e
  | Whole m n rest => r = Ok (FMessage m n) /\ rest = [] /\ pending self' = []
  end.

Lemma settle_payload_spec initial most self d : fr_declared self = Some d ->
  0 <= d <= most -> most <= MAX_MESSAGE_LEN -> HEADER_BYTES <= fr_got self <= HEADER_BYTES + d ->
  HEADER_BYTES + d <= len (fr_buffer self) -> len (fr_buffer self) <= Z.max initial (HEADER_BYTES + most) ->
  fr_started self <> None ->
  let (self', r) := Framer.settle_payload self in
  (self' = self \/ self' = Framer.reset self) /\ r <> Panic /\
  (forall f, r = Ok f -> framer_ok initial most self') /\
  (forall cap, header_verdict (fr_magic self) (take 24 (pending self)) cap = Ok d ->
     read_verdict self self' r cap (pending self)).
Proof.
  intros Hd Hr Hm Hg Hb Hbm Hst. pose proof (len_nonneg (fr_buffer self)) as Hlb.
  assert (Hlp : len (pending self) = fr_got self).
  { unfold pending, len in *. rewrite length_take. unfold HEADER_BYTES in *. lia. }
  unfold Framer.settle_payload. rewrite Hd. change (default 0 (Some d)) with d.
  rewrite saturating_add_ok by (unfold MAX_MESSAGE_LEN, HEADER_BYTES, u64_max in *; lia).
  destruct (Z.leb_spec (HEADER_BYTES + d) (fr_got self)) as [Hge|Hlt].
  - pose proof (finish_spec self d ltac:(lia) Hb) as Hf.
    assert (Hgot : fr_got self = HEADER_BYTES + d) by lia. unfold read_verdict, split_frame.
    rewrite Hlp, Hgot, (proj2 (Z.ltb_ge (HEADER_BYTES + d) HEADER_BYTES)) by lia.
    assert (Hpend : pending self = take (Z.to_nat (HEADER_BYTES + d)) (fr_buffer self))
      by (unfold pending; by rewrite Hgot).
    assert (Hall : take (Z.to_nat (HEADER_BYTES + d)) (pending self) = pending self)
      by (rewrite Hpend, take_take; f_equal; lia).
    destruct (decode_frame (take _ (fr_buffer self))) as [m|e|] eqn:Hdec; [|destruct (Framer.finish self d) as [s' r'] eqn:Hfin|done].
    + rewrite Hf. split; [by right|]. split; [done|]. split.
      * intros _ _. split; cbn; unfold Framer.want, HEADER_BYTES in *; cbn; try done; lia.
      * intros cap Hv. rewrite Hv, Z.ltb_irrefl, Hall, Hpend, Hdec. split; [done|]. split; [|done].
        rewrite drop_ge; [done|]. rewrite length_take. lia.
    + cbn in Hf. subst r'. split; [|split; [done|split; [done|]]].
      * unfold Framer.finish in Hfin. repeat case_match; simplify_eq; auto.
      * intros cap Hv. by rewrite Hv, Z.ltb_irrefl, Hall, Hpend, Hdec.
  - split; [by left|]. split; [done|]. split.
    + intros _ _. split; cbn; try done; try (unfold HEADER_BYTES in *; lia).
      * unfold Framer.want. rewrite Hd, saturating_add_ok by (unfold MAX_MESSAGE_LEN, HEADER_BYTES, u64_max in *; lia). lia.
      * intros d'. rewrite Hd. intros; simplify_eq. lia.
      * unfold HEADER_BYTES in *. split; [done|lia].
    + intros cap Hv. unfold read_verdict, split_frame.
      rewrite Hlp, (proj2 (Z.ltb_ge (fr_got self) HEADER_BYTES)), Hv, (proj2 (Z.ltb_lt (fr_got self) (HEADER_BYTES + d))) by lia.
      done.
Qed.

(** A header that was accepted is accepted under the cap of the stream. *)
Definition consistent (self : Framer) (cap : Z) : Prop :=
  forall d, fr_declared self = Some d -> header_verdict (fr_magic self) (take 24 (pending self)) cap = Ok d.

(** One read of bytes: never a panic, the invariant kept, and the verdict of the abstract
    parser on the bytes received. *)
Definition read_ok (initial most : Z) (self self' : Framer) (r : outcome WireError Frame) (cap : Z)
    (got : bytes) : Prop :=
  fr_magic self' = fr_magic self /\ r <> Panic /\ (forall f, r = Ok f -> framer_ok initial most self') /\
  (consistent self cap -> read_verdict self self' r cap got /\ (forall f, r = Ok f -> consistent self' cap)).

Lemma len_pending self : 0 <= fr_got self <= len (fr_buffer self) -> len (pending self) = fr_got self.
Proof. intros. unfold pending, len in *. rewrite length_take. lia. Qed.

(** The framer after the bytes of one read went in, before [settle]. *)
Definition filled (self : Framer) (now : Z) (chunk : bytes) : Framer :=
  mkFramer (fr_magic self) (fill (fr_buffer self) (fr_got self) chunk) (fr_got self + len chunk)
    (fr_declared self) (match fr_started self with Some s => Some s | None => Some now end)
    (fr_deadline self).

Lemma pending_filled self now chunk initial most : framer_ok initial most self ->
  socket_ok self (InBytes chunk) = true -> pending (filled self now chunk) = pending self ++ chunk.
Proof.
  intros [] Hs. unfold pending. cbn [filled fr_got fr_buffer]. apply take_fill; [done|].
  cbn in Hs. lia.
Qed.

Lemma read_filled self now chunk cap initial most : framer_ok initial most self -> cap <= most ->
  socket_ok self (InBytes chunk) = true ->
  Framer.read self now (InBytes chunk) cap = Framer.settle (filled self now chunk) cap.
Proof.
  intros [? [Hg Hw] _ Hb Hm _] Hc Hs. unfold Framer.read.
  rewrite (proj2 (Z.leb_le cap MAX_MESSAGE_LEN)) by lia.
  rewrite (proj2 (Z.ltb_lt (fr_got self) (Framer.want self))) by lia.
  rewrite (proj2 (Z.leb_le (Framer.want self) (len (fr_buffer self)))) by lia. cbn [negb andb].
  cbn in Hs. unfold filled. rewrite saturating_add_ok; [done|].
  unfold Framer.want, saturating_add in *. destruct (fr_declared self); unfold HEADER_BYTES, u64_max in *; lia.
Qed.

Lemma take_pending_app self chunk n : (n <= Z.to_nat (fr_got self))%nat -> 0 <= fr_got self <= len (fr_buffer self) ->
  take n (pending self ++ chunk) = take n (pending self).
Proof. intros. apply take_app_le. pose proof (len_pending self). unfold len in *. lia. Qed.

(** Reading more of a payload whose header was accepted. *)
Lemma read_payload initial most self now chunk cap d : framer_ok initial most self -> cap <= most ->
  socket_ok self (InBytes chunk) = true -> fr_declared self = Some d ->
  let (self', r) := Framer.read self now (InBytes chunk) cap in
  read_ok initial most self self' r cap (pending self ++ chunk).
Proof.
  intros Hok Hc Hs Hd. rewrite (read_filled _ _ _ _ initial most) by done.
  pose proof (pending_filled self now chunk _ _ Hok Hs) as Hp. pose proof (want_small _ _ _ Hok) as Hw.
  rewrite Hd in Hw. cbn in Hw. destruct Hok as [Hg0 Hg Hdec Hb Hm Hst]. destruct (Hdec d Hd) as [Hdr Hgh].
  cbn in Hs. unfold Framer.settle. cbn [filled fr_declared]. rewrite Hd. fold (filled self now chunk).
  pose proof (settle_payload_spec initial most (filled self now chunk) d Hd Hdr Hm) as Hspec.
  cbn [filled fr_got fr_buffer fr_started] in Hspec. rewrite len_fill in Hspec by lia.
  specialize (Hspec ltac:(lia) ltac:(lia) ltac:(lia) ltac:(by destruct (fr_started self))).
  fold (filled self now chunk) in Hspec.
  destruct (Framer.settle_payload _) as [self' r] eqn:Heq. destruct Hspec as (Hself & Hnp & Hinv & Hv).
  split; [by destruct Hself as [->| ->]|]. split; [done|]. split; [done|]. intros Hcons.
  assert (Hh : header_verdict (fr_magic self) (take 24 (pending self ++ chunk)) cap = Ok d).
  { rewrite take_pending_app by (unfold HEADER_BYTES in *; lia). by apply Hcons. }
  rewrite Hp in Hv. split; [by apply Hv|]. intros f Hf d' Hd'.
  destruct Hself as [->| ->]; [|done]. rewrite Hp. cbn in Hd'. rewrite Hd in Hd'. by simplify_eq.
Qed.

(** Reading the header. *)
Lemma read_header initial most self now chunk cap : framer_ok initial most self -> 0 <= cap <= most ->
  socket_ok self (InBytes chunk) = true -> fr_declared self = None ->
  let (self', r) := Framer.read self now (InBytes chunk) cap in
  read_ok initial most self self' r cap (pending self ++ chunk).
Proof.
  intros Hok Hc Hs Hd. rewrite (read_filled _ _ _ _ initial most) by (done || lia).
  pose proof (pending_filled self now chunk _ _ Hok Hs) as Hp. pose proof (want_small _ _ _ Hok) as Hw.
  rewrite Hd in Hw. cbn in Hw. destruct Hok as [Hg0 Hg Hdec Hb Hm Hst].
  cbn in Hs. pose proof (len_fill (fr_buffer self) (fr_got self) chunk ltac:(lia) ltac:(lia)) as Hlf.
  assert (Hlp : len (pending self ++ chunk) = fr_got self + len chunk)
    by (rewrite len_app, len_pending by lia; done).
  unfold Framer.settle. cbn [filled fr_declared fr_got]. rewrite Hd.
  destruct (Z.ltb_spec (fr_got self + len chunk) HEADER_BYTES) as [Hlt|Hge].
  - split; [done|]. split; [done|]. split.
    + intros _ _. split; cbn; rewrite ?Hlf; unfold Framer.want; cbn; rewrite ?Hd; cbn; try done; try lia.
      split; [by destruct (fr_started self)|lia].
    + intros _. fold (filled self now chunk). unfold read_verdict, split_frame.
      rewrite Hlp, (proj2 (Z.ltb_lt (fr_got self + len chunk) HEADER_BYTES)), Hp by lia.
      split; [done|]. intros _ _ d Hd'. cbn in Hd'. congruence.
  - fold (filled self now chunk). rewrite parse_header_spec by (cbn [filled fr_buffer]; lia).
    assert (Heq24 : fr_got self + len chunk = 24) by (unfold HEADER_BYTES in *; lia).
    assert (Ht : take 24 (fr_buffer (filled self now chunk)) = pending self ++ chunk).
    { rewrite <-Hp. unfold pending. cbn [filled fr_got]. by rewrite Heq24. }
    assert (Htp : take 24 (pending self ++ chunk) = pending self ++ chunk)
      by (apply take_ge; unfold len in *; lia).
    cbn [filled fr_magic fr_buffer] in Ht |- *. rewrite Ht.
    destruct (header_verdict (fr_magic self) (pending self ++ chunk) cap) as [d|e|] eqn:Hv;
      [|split; [done|]; split; [done|]; split; [done|]; intros _; split; [|done];
        unfold read_verdict, split_frame;
        rewrite Hlp, (proj2 (Z.ltb_ge (fr_got self + len chunk) HEADER_BYTES)), Htp, Hv by lia; done
       |by apply header_verdict_no_panic in Hv].
    pose proof (header_verdict_Ok _ _ _ _ Hv) as (_ & Hdr & Hdm).
    rewrite saturating_add_ok by (unfold MAX_MESSAGE_LEN, HEADER_BYTES, u64_max in *; lia).
    set (b := if _ <? _ then _ else _).
    assert (Hb' : HEADER_BYTES + d <= len b <= Z.max initial (HEADER_BYTES + most) /\
                  take 24 b = pending self ++ chunk).
    { unfold b. rewrite Hlf. destruct (Z.ltb_spec (len (fr_buffer self)) (HEADER_BYTES + d)).
      - rewrite len_grow by lia. split; [lia|]. unfold grow. rewrite take_app_le; [done|].
        unfold len, HEADER_BYTES in *. lia.
      - split; [lia|done]. }
    clearbody b. destruct Hb' as [Hbl Hbt].
    set (self1 := mkFramer _ b _ _ _ _).
    assert (Hp1 : pending self1 = pending self ++ chunk).
    { unfold pending at 1, self1. cbn [fr_got fr_buffer]. by rewrite Heq24. }
    pose proof (settle_payload_spec initial most self1 d eq_refl ltac:(lia) Hm) as Hspec.
    cbn [self1 fr_got fr_buffer fr_started fr_magic] in Hspec.
    specialize (Hspec ltac:(unfold HEADER_BYTES in *; lia) ltac:(lia) ltac:(lia) ltac:(cbn; by destruct (fr_started self))).
    fold self1 in Hspec. rewrite Hp1 in Hspec.
    destruct (Framer.settle_payload self1) as [self' r]. destruct Hspec as (Hself & Hnp & Hinv & Hvd).
    split; [by destruct Hself as [->| ->]|]. split; [done|]. split; [done|]. intros _.
    rewrite Htp in Hvd. split; [by apply Hvd|]. intros f Hf d' Hd'.
    destruct Hself as [->| ->]; [|done]. rewrite Hp1, Htp. cbn in Hd' |- *. by simplify_eq.
Qed.
End spec.
