(* ===== verification/WireTheorems.v ===== *)
(** * WireTheorems: what the framer promises its connection

    A connection is a list of reads; [run] makes them one after the other, as the reader
    thread does, until the framer reports an error or the end of the stream. *)
From S2P Require Import Prelude Bitcoin Message Wire WireProofs.

Record Read1 := mkRead { rd_now : Z; rd_in : Incoming; rd_cap : Z }.

Section run.
Context `{P2p}.

Fixpoint run (self : Framer) (reads : list Read1)
    : list (NetworkMessage * Z) * (Framer * outcome WireError unit) :=
  match reads with
  | [] => ([], (self, Ok tt))
  | r :: reads =>
      match Framer.read self (rd_now r) (rd_in r) (rd_cap r) with
      | (self, Ok (FMessage m n)) => let (ms, e) := run self reads in ((m, n) :: ms, e)
      | (self, Ok FIdle) => run self reads
      | (self, Ok FEof) => ([], (self, Ok tt))
      | (self, Err e) => ([], (self, Err e))
      | (self, Panic) => ([], (self, Panic))
      end
  end.

(** The socket keeps the contract of [Read] on every read that is made. *)
Fixpoint reads_ok (self : Framer) (reads : list Read1) : bool :=
  match reads with
  | [] => true
  | r :: reads =>
      socket_ok self (rd_in r) &&
      match Framer.read self (rd_now r) (rd_in r) (rd_cap r) with
      | (self, Ok (FMessage _ _)) | (self, Ok FIdle) => reads_ok self reads
      | _ => true
      end
  end.

(** The bytes of the reads. *)
Definition chunk_of (r : Read1) : bytes := match rd_in r with InBytes chunk => chunk | _ => [] end.
Definition stream (reads : list Read1) : bytes := concat (chunk_of <$> reads).

(** Reads that carry bytes, or ticks that come in time, under one cap. *)
Fixpoint timely (self : Framer) (cap : Z) (reads : list Read1) : bool :=
  match reads with
  | [] => true
  | r :: reads =>
      (rd_cap r =? cap) &&
      match rd_in r with
      | InBytes _ => true
      | InTick => match fr_started self with
                  | Some started => rd_now r - started <=? fr_deadline self
                  | None => true
                  end
      | _ => false
      end &&
      match Framer.read self (rd_now r) (rd_in r) (rd_cap r) with
      | (self, Ok (FMessage _ _)) | (self, Ok FIdle) => timely self cap reads
      | _ => true
      end
  end.

Lemma read_idle self now cap incoming initial most : framer_ok initial most self -> cap <= most ->
  (forall chunk, incoming <> InBytes chunk) ->
  Framer.read self now incoming cap =
    (self, match incoming with InZero => Ok FEof | InTick => Framer.after_idle self now true
           | _ => Framer.after_idle self now false end).
Proof.
  intros [? [? ?] _ _ ? _] Hc Hin. unfold Framer.read.
  rewrite (proj2 (Z.leb_le cap MAX_MESSAGE_LEN)) by lia.
  rewrite (proj2 (Z.ltb_lt (fr_got self) (Framer.want self))) by lia.
  rewrite (proj2 (Z.leb_le (Framer.want self) (len (fr_buffer self)))) by lia. cbn [negb andb].
  destruct incoming; try done. by edestruct Hin.
Qed.

Lemma read_bytes initial most self now chunk cap : framer_ok initial most self -> 0 <= cap <= most ->
  socket_ok self (InBytes chunk) = true ->
  let (self', r) := Framer.read self now (InBytes chunk) cap in
  read_ok initial most self self' r cap (pending self ++ chunk).
Proof.
  intros Hok Hc Hs. destruct (fr_declared self) as [d|] eqn:Hd.
  - eapply read_payload; eauto; lia.
  - by eapply read_header.
Qed.

(** Any read keeps the invariant and does not panic. *)
Lemma read_safe initial most self now incoming cap : framer_ok initial most self -> 0 <= cap <= most ->
  socket_ok self incoming = true ->
  snd (Framer.read self now incoming cap) <> Panic /\
  (forall f, snd (Framer.read self now incoming cap) = Ok f ->
     framer_ok initial most (fst (Framer.read self now incoming cap))).
Proof.
  intros Hok Hc Hs. destruct incoming as [chunk| | |].
  - pose proof (read_bytes _ _ _ now chunk cap Hok Hc Hs) as Hr.
    destruct (Framer.read _ _ _ _) as [self' r]. destruct Hr as (_ & ? & ? & _). done.
  - rewrite (read_idle _ _ _ _ _ _ Hok) by (done || lia). by split.
  - rewrite (read_idle _ _ _ _ _ _ Hok) by (done || lia). split; [|done]. cbn.
    destruct (fr_started self); [by destruct (_ <? _)|done].
  - rewrite (read_idle _ _ _ _ _ _ Hok) by (done || lia). by split.
Qed.

Lemma run_safe initial most self reads : framer_ok initial most self -> reads_ok self reads = true ->
  Forall (fun r => 0 <= rd_cap r <= most) reads ->
  (snd (snd (run self reads))) <> Panic /\
  (snd (snd (run self reads)) = Ok tt -> framer_ok initial most (fst (snd (run self reads)))).
Proof.
  revert self; induction reads as [|r reads IH]; intros self Hok Hs Hc; [by split|].
  inversion Hc; subst. cbn [reads_ok run] in *. apply andb_prop in Hs as [Hs1 Hs2].
  pose proof (read_safe _ _ _ (rd_now r) _ _ Hok ltac:(eassumption) Hs1) as [Hnp Hinv].
  destruct (Framer.read _ _ _ _) as [self' [[m n| | ]|e|]]; cbn in Hnp, Hinv; try done.
  - specialize (IH self' ltac:(by eapply Hinv) Hs2 ltac:(done)). by destruct (run self' reads).
  - apply IH; [by eapply Hinv|done|done].
  - split; [done|]. intros _. by eapply Hinv.
Qed.

Lemma new_framer_ok {E} magic initial most deadline self : most <= MAX_MESSAGE_LEN ->
  Framer.new (E:=E) magic initial deadline = Ok self ->
  framer_ok initial most self /\ fr_magic self = magic /\ pending self = [] /\ fr_declared self = None.
Proof.
  unfold Framer.new. intros Hm Hn. inv_ok. split; [|done].
  assert (Hl : len (repeat x00 (Z.to_nat initial)) = initial)
    by (unfold len, HEADER_BYTES in *; rewrite repeat_length; lia).
  split; cbn; rewrite ?Hl; unfold Framer.want, HEADER_BYTES in *; cbn; try done; lia.
Qed.

(** The simulation: from a state that holds the bytes [pending], the reads give what the
    parser gives on those bytes and the bytes still to come. *)
Lemma run_refines initial most cap self reads : framer_ok initial most self -> 0 <= cap <= most ->
  consistent self cap -> split_frame (fr_magic self) cap (pending self) = More ->
  reads_ok self reads = true -> timely self cap reads = true ->
  let (ms, e) := frames (fr_magic self) cap (pending self ++ stream reads) in
  run self reads = (ms, (fst (snd (run self reads)), match e with None => Ok tt | Some e => Err e end)).
Proof.
  intros Hok Hc. revert self Hok. induction reads as [|r reads IH]; intros self Hok Hcons Hmore Hs Ht.
  { change (stream []) with (@nil byte). rewrite app_nil_r, frames_eq, Hmore. done. }
  cbn [reads_ok timely run] in *. apply andb_prop in Hs as [Hs1 Hs2].
  apply andb_prop in Ht as [[Hcap Ht1]%andb_prop Ht2]. apply Z.eqb_eq in Hcap. rewrite Hcap in *.
  unfold stream. cbn [fmap list_fmap concat]. fold (stream reads). unfold chunk_of at 1.
  destruct (rd_in r) as [chunk| | |]; try done.
  - rewrite app_assoc. pose proof (read_bytes _ _ _ (rd_now r) chunk cap Hok Hc Hs1) as Hr.
    destruct (Framer.read _ _ _ _) as [self' res]. destruct Hr as (Hmg & Hnp & Hinv & Hv).
    destruct (Hv Hcons) as [Hrv Hcons']. unfold read_verdict in Hrv.
    pose proof (split_frame_app (fr_magic self) cap (pending self ++ chunk) (stream reads)) as Happ.
    destruct (split_frame (fr_magic self) cap (pending self ++ chunk)) as [|e|m n rest] eqn:Hsp.
    + destruct Hrv as [-> Hp]. specialize (IH self' ltac:(by eapply Hinv) ltac:(by eapply Hcons')).
      rewrite Hmg, Hp in IH. by specialize (IH Hsp Hs2 Ht2).
    + subst res. by rewrite frames_eq, Happ.
    + destruct Hrv as (-> & -> & Hp). rewrite frames_eq, Happ by done. cbn [app].
      specialize (IH self' ltac:(by eapply Hinv) ltac:(by eapply Hcons')).
      rewrite Hmg, Hp in IH. specialize (IH eq_refl Hs2 Ht2). cbn [app] in IH.
      destruct (frames (fr_magic self) cap (stream reads)) as [ms e]. rewrite IH. done.
  - rewrite (read_idle _ _ _ _ _ _ Hok) in * by (done || lia). cbn [app].
    assert (Hi : Framer.after_idle self (rd_now r) true = Ok FIdle).
    { unfold Framer.after_idle. destruct (fr_started self) as [st|]; [|done].
      apply Z.leb_le in Ht1. by rewrite (proj2 (Z.ltb_ge (fr_deadline self) (rd_now r - st))) by lia. }
    rewrite Hi in *. by apply IH.
Qed.

(** C5.  Framing refines the parser of the whole stream: whatever pieces the socket cuts the
    bytes into, and whatever ticks come between them inside the deadline, the framer delivers
    exactly the messages, and stops at exactly the error, of [frames] on the concatenated
    bytes. *)
Theorem framing_refines {E} magic initial deadline cap self reads :
  Framer.new (E:=E) magic initial deadline = Ok self -> 0 <= cap <= MAX_MESSAGE_LEN ->
  reads_ok self reads = true -> timely self cap reads = true ->
  (fst (run self reads), snd (snd (run self reads))) =
    (fst (frames magic cap (stream reads)),
     match snd (frames magic cap (stream reads)) with None => Ok tt | Some e => Err e end).
Proof.
  intros Hn Hc Hs Ht. destruct (new_framer_ok _ _ cap _ _ (proj2 Hc) Hn) as (Hok & Hm & Hp & Hd).
  pose proof (run_refines initial cap cap self reads Hok ltac:(lia)) as Hr.
  rewrite Hp, Hm in Hr. specialize (Hr ltac:(intros d; by rewrite Hd) eq_refl Hs Ht). cbn [app] in Hr.
  destruct (frames magic cap (stream reads)) as [ms e]. by rewrite Hr.
Qed.

(**  A peer cannot make the node hold more than the cap or panic: on any sequence of reads a
    socket can make, at any times and under caps that never exceed [most], no assertion of the
    framer fails, and the buffer stays within its initial size or one frame of [most]. *)
Theorem framer_bounded {E} magic initial deadline most self reads :
  Framer.new (E:=E) magic initial deadline = Ok self -> most <= MAX_MESSAGE_LEN ->
  reads_ok self reads = true -> Forall (fun r => 0 <= rd_cap r <= most) reads ->
  snd (snd (run self reads)) <> Panic /\
  (snd (snd (run self reads)) = Ok tt ->
     len (fr_buffer (fst (snd (run self reads)))) <= Z.max initial (HEADER_BYTES + most)).
Proof.
  intros Hn Hm Hs Hc. destruct (new_framer_ok _ _ most _ _ Hm Hn) as (Hok & _).
  destruct (run_safe _ _ _ _ Hok Hs Hc) as [Hnp Hf]. split; [done|]. intros He. by destruct (Hf He).
Qed.

(** ** A peer that dribbles *)

(** One byte per read, each at its own time. *)
Definition drip (cap : Z) (l : list (Z * byte)) : list Read1 :=
  (fun p => mkRead p.1 (InBytes [p.2]) cap) <$> l.

Lemma stream_drip cap l : stream (drip cap l) = l.*2.
Proof. induction l as [|[t b] l IH]; [done|]. cbn. f_equal. apply IH. Qed.

(** A framer between two reads always has room for a byte. *)
Lemma drip_reads_ok initial most cap self l : framer_ok initial most self -> 0 <= cap <= most ->
  reads_ok self (drip cap l) = true.
Proof.
  intros Hok Hc. revert self Hok; induction l as [|[t b] l IH]; intros self Hok; [done|].
  cbn [drip fmap list_fmap reads_ok rd_in rd_now rd_cap fst snd].
  assert (Hs : socket_ok self (InBytes [b]) = true).
  { destruct Hok as [? [? ?]]. cbn [socket_ok]. change (len [b]) with 1. lia. }
  rewrite Hs. destruct (read_safe _ _ _ t _ _ Hok Hc Hs) as [_ Hinv].
  destruct (Framer.read _ _ _ _) as [self' [[m n| | ]|e|]]; try done; cbn [andb]; apply IH; by eapply Hinv.
Qed.

Lemma timely_bytes cap self reads :
  Forall (fun r => (exists chunk, rd_in r = InBytes chunk) /\ rd_cap r = cap) reads -> timely self cap reads = true.
Proof.
  intros HF. revert self; induction HF as [|r reads [[chunk Hin] Hcap] HF IH]; intros self; [done|].
  cbn [timely]. rewrite Hin, Hcap, Z.eqb_refl. cbn [andb].
  destruct (Framer.read _ _ _ _) as [self' [[m n| | ]|e|]]; auto.
Qed.

(** Reads that completed nothing left all their bytes in the buffer. *)
Lemma run_pending initial most cap self reads : framer_ok initial most self -> 0 <= cap <= most ->
  consistent self cap -> reads_ok self reads = true ->
  Forall (fun r => (exists chunk, rd_in r = InBytes chunk) /\ rd_cap r = cap) reads ->
  fst (run self reads) = [] -> snd (snd (run self reads)) = Ok tt ->
  pending (fst (snd (run self reads))) = pending self ++ stream reads.
Proof.
  intros Hok Hc Hcons Hs HF. revert self Hok Hcons Hs.
  induction HF as [|r reads [[chunk Hin] Hcap] HF IH]; intros self Hok Hcons Hs; [cbn; by rewrite app_nil_r|].
  cbn [reads_ok run] in *. apply andb_prop in Hs as [Hs1 Hs2].
  unfold stream. cbn [fmap list_fmap concat]. fold (stream reads). unfold chunk_of at 1.
  rewrite Hin, Hcap in *. pose proof (read_bytes _ _ _ (rd_now r) chunk cap Hok Hc Hs1) as Hr.
  destruct (Framer.read _ _ _ _) as [self' res]. destruct Hr as (_ & _ & Hinv & Hv).
  destruct (Hv Hcons) as [Hrv Hcons']. unfold read_verdict in Hrv.
  destruct (split_frame (fr_magic self) cap (pending self ++ chunk)) as [|e|m n rest] eqn:Hsp.
  - destruct Hrv as [-> Hp]. intros H1 H2. rewrite app_assoc, <-Hp. apply IH; eauto.
  - by subst res.
  - destruct Hrv as [-> _]. by destruct (run self' reads).
Qed.

(** C38.  The message deadline does not bound a peer that dribbles: after a header that declares
    [declared] bytes, the peer may send its payload one byte per read at any times whatever, and
    as long as the message is not complete the framer reports no error and keeps it in progress.
    The deadline is looked at only by a read that returned nothing. *)
Theorem dribbler_never_stalls {E} magic initial deadline cap self header declared t0 l :
  Framer.new (E:=E) magic initial deadline = Ok self -> 0 <= cap <= MAX_MESSAGE_LEN ->
  len header = HEADER_BYTES -> header_verdict magic header cap = Ok declared -> len l < declared ->
  let reads := mkRead t0 (InBytes header) cap :: drip cap l in
  fst (run self reads) = [] /\ snd (snd (run self reads)) = Ok tt /\
  Framer.in_progress (fst (snd (run self reads))) = true /\
  pending (fst (snd (run self reads))) = header ++ l.*2.
Proof.
  intros Hn Hc Hl Hv Hd reads. destruct (new_framer_ok _ _ cap _ _ (proj2 Hc) Hn) as (Hok & Hm & Hp & Hdec).
  assert (Hcons : consistent self cap) by (intros d; by rewrite Hdec).
  assert (HF : Forall (fun r => (exists chunk, rd_in r = InBytes chunk) /\ rd_cap r = cap) reads).
  { constructor; [by eexists; eauto|]. apply Forall_fmap, Forall_true. intros [t b]. cbn. eauto. }
  assert (Hg : fr_got self = 0) by (unfold Framer.new in Hn; by inv_ok).
  assert (Hs1 : socket_ok self (InBytes header) = true).
  { cbn [socket_ok]. unfold Framer.want. rewrite Hdec, Hg, Hl. done. }
  assert (Hs : reads_ok self reads = true).
  { cbn [reads reads_ok rd_in rd_now rd_cap]. rewrite Hs1.
    destruct (read_safe _ _ _ t0 _ cap Hok ltac:(lia) Hs1) as [_ Hinv].
    destruct (Framer.read _ _ _ _) as [self' [[m n| | ]|e|]]; try done; cbn [andb];
      eapply drip_reads_ok; [by eapply Hinv|lia|by eapply Hinv|lia]. }
  pose proof (run_refines initial cap cap self reads Hok ltac:(lia) Hcons) as Hr. rewrite Hp, Hm in Hr.
  specialize (Hr eq_refl Hs ltac:(by apply timely_bytes)). cbn [app] in Hr.
  assert (Hst : stream reads = header ++ l.*2).
  { unfold reads, stream. cbn [fmap list_fmap concat chunk_of rd_in]. f_equal. apply stream_drip. }
  rewrite Hst, frames_eq in Hr.
  assert (Hmore : split_frame magic cap (header ++ l.*2) = More).
  { unfold split_frame. rewrite len_app, Hl. pose proof (len_nonneg l.*2).
    rewrite (proj2 (Z.ltb_ge (HEADER_BYTES + len l.*2) HEADER_BYTES)) by lia.
    unfold HEADER_BYTES, len in Hl. rewrite take_app_le, take_ge, Hv by lia.
    rewrite (proj2 (Z.ltb_lt (HEADER_BYTES + len l.*2) (HEADER_BYTES + declared))); [done|].
    unfold len in *. rewrite length_fmap. lia. }
  rewrite Hmore in Hr. rewrite Hr. cbn [fst snd]. split; [done|]. split; [done|].
  pose proof (run_pending initial cap cap self reads Hok ltac:(lia) Hcons Hs HF) as Hpend.
  rewrite Hr in Hpend. cbn [fst snd] in Hpend. specialize (Hpend eq_refl eq_refl).
  rewrite Hp, Hst in Hpend. rewrite Hr in *. cbn [fst snd] in *. split; [|done].
  unfold Framer.in_progress. apply Z.ltb_lt. destruct (Z.lt_ge_cases 0 (fr_got (fst (snd (run self reads))))); [done|].
  unfold pending in Hpend. replace (Z.to_nat (fr_got _)) with 0%nat in Hpend by lia.
  destruct header; [unfold HEADER_BYTES, len in Hl; cbn in Hl; lia|done].
Qed.
End run.

(** ** Encoding, and reading it back *)
Section roundtrip.
Context `{P2pLaws}.

Lemma message_type_name padding name rest : Forall (fun b => 32 <= bz b <= 126) name ->
  padding = false -> message_type_loop padding (name ++ rest) = message_type_loop false rest.
Proof.
  intros HF ->. induction HF as [|b name Hb HF IH]; [done|]. cbn [app message_type_loop].
  destruct (Z.eqb_spec (bz b) 0); [lia|].
  by rewrite (proj2 (Z.leb_le 32 (bz b))), (proj2 (Z.leb_le (bz b) 126)) by lia.
Qed.

Lemma message_type_zeros n : message_type_loop true (repeat x00 n) = true.
Proof. by induction n. Qed.

Lemma padded_valid command : padded_command command -> is_message_type_valid command = true.
Proof.
  intros (name & zeros & -> & _ & HF). unfold is_message_type_valid. rewrite message_type_name by done.
  destruct zeros; [done|]. apply message_type_zeros.
Qed.

(** A message that the other side may send: its frame fits under the cap, and its counts are
    within the protocol's. *)
Definition sendable (magic : bytes) (cap : Z) (m : NetworkMessage) : Prop :=
  len (serialize_raw magic m) <= HEADER_BYTES + cap /\ check_counts m = Ok tt.

Lemma split_encoded magic cap m rest : length magic = 4%nat -> 0 <= cap <= MAX_MESSAGE_LEN ->
  sendable magic cap m ->
  split_frame magic cap (serialize_raw magic m ++ rest) = Whole m (len (serialize_raw magic m)) rest.
Proof.
  intros Hm Hc [Hl Hcnt]. unfold MAX_MESSAGE_LEN, HEADER_BYTES in *.
  assert (Hl4 : len (serialize_raw magic m) <= 24 + 4000000) by lia.
  pose proof (raw_roundtrip magic m Hm Hl4) as Hrt. destruct (raw_layout magic m Hl4) as (command & checksum & payload & Hs & Hcmd & Hck).
  assert (Hc12 : length command = 12%nat) by (by destruct Hcmd as (? & ? & _ & ? & _)).
  pose proof (len_nonneg payload). pose proof (len_nonneg rest).
  assert (Hlen : len (serialize_raw magic m) = 24 + len payload).
  { rewrite Hs, !len_app. unfold len. rewrite Hm, Hc12, Hck, length_le_bytes. lia. }
  assert (Ht : take 24 (serialize_raw magic m ++ rest) = magic ++ command ++ le_bytes 4 (len payload) ++ checksum).
  { rewrite Hs, !app_assoc, <-!(app_assoc _ payload). apply take_app_length'.
    rewrite !length_app, length_le_bytes. lia. }
  assert (Hle : le_val (le_bytes 4 (len payload)) = len payload).
  { rewrite le_val_bytes. apply Z.mod_small. change (256 ^ Z.of_nat 4) with 4294967296. lia. }
  unfold split_frame. rewrite len_app. unfold HEADER_BYTES.
  rewrite (proj2 (Z.ltb_ge (len (serialize_raw magic m) + len rest) 24)), Ht by lia.
  assert (Hv : header_verdict magic (magic ++ command ++ le_bytes 4 (len payload) ++ checksum) cap = Ok (len payload)).
  { unfold header_verdict. rewrite take_app_length' by done. rewrite bool_decide_true by done. cbn [negb].
    rewrite drop_app_length' by done. rewrite take_app_length' by done. rewrite padded_valid by done. cbn [negb].
    rewrite (drop_app_ge magic) by lia. replace (16 - length magic)%nat with 12%nat by lia.
    rewrite drop_app_length' by done. rewrite take_app_length' by (by rewrite length_le_bytes). rewrite Hle.
    unfold MAX_MESSAGE_LEN. by rewrite (proj2 (Z.ltb_ge 4000000 (len payload))), (proj2 (Z.ltb_ge cap (len payload))) by lia. }
  rewrite Hv, <-Hlen. rewrite (proj2 (Z.ltb_ge (len (serialize_raw magic m) + len rest) (len (serialize_raw magic m)))) by lia.
  assert (Hn : Z.to_nat (len (serialize_raw magic m)) = length (serialize_raw magic m)) by (unfold len; lia).
  rewrite Hn, take_app_length, drop_app_length. unfold decode_frame. by rewrite Hrt, Hcnt.
Qed.

Lemma frames_encoded magic cap ms : length magic = 4%nat -> 0 <= cap <= MAX_MESSAGE_LEN ->
  Forall (sendable magic cap) ms ->
  frames magic cap (concat (serialize_raw magic <$> ms)) =
    ((fun m => (m, len (serialize_raw magic m))) <$> ms, None).
Proof.
  intros Hm Hc HF. induction HF as [|m ms Hsm HF IH]; [done|].
  cbn [fmap list_fmap concat]. rewrite frames_eq, split_encoded by done. by rewrite IH.
Qed.

Lemma encode_Ok {E} magic m f : encode (E:=E) magic m = Ok f -> f = serialize_raw magic m.
Proof. unfold encode. intros. by inv_ok. Qed.

End roundtrip.

(** ** A concrete codec, and the theorems on the wire at concrete connections *)

(** ** A codec: a message as the number of its code, in bytes *)

Section countable.
#[local] Instance Address_eq_dec : EqDecision Address.
Proof. solve_decision. Defined.
#[local] Instance Address_countable : Countable Address.
Proof.
  refine (inj_countable' (fun a => (addr_services a, addr_address a, addr_port a))
    (fun p => mkAddress p.1.1 p.1.2 p.2) _). by intros [].
Defined.
#[local] Instance Version_eq_dec : EqDecision VersionMessage.
Proof. solve_decision. Defined.
#[local] Instance Version_countable : Countable VersionMessage.
Proof.
  refine (inj_countable' (fun v => (v_version v, v_services v, v_timestamp v, v_receiver v, v_sender v,
      v_nonce v, v_user_agent v, v_start_height v, v_relay v))
    (fun '(a, b, c, d, e, f, g, h, i) => mkVersionMessage a b c d e f g h i) _). by intros [].
Defined.
#[local] Instance Locator_eq_dec : EqDecision GetHeadersMessage.
Proof. solve_decision. Defined.
#[local] Instance Locator_countable : Countable GetHeadersMessage.
Proof.
  refine (inj_countable' (fun v => (gh_version v, gh_locator_hashes v, gh_stop_hash v))
    (fun '(a, b, c) => mkGetHeaders a b c) _). by intros [].
Defined.
#[local] Instance Inventory_eq_dec : EqDecision Inventory.
Proof. solve_decision. Defined.
#[local] Instance Inventory_countable : Countable Inventory.
Proof.
  refine (inj_countable (fun i => match i with
    | InvError => (0, 0, []) | InvTransaction h => (1, 0, h) | InvBlock h => (2, 0, h)
    | InvCompactBlock h => (3, 0, h) | InvWTx h => (4, 0, h) | InvWitnessTransaction h => (5, 0, h)
    | InvWitnessBlock h => (6, 0, h) | InvUnknown t h => (7, t, h) end)
    (fun '(k, t, h) => match k with
    | 0 => Some InvError | 1 => Some (InvTransaction h) | 2 => Some (InvBlock h)
    | 3 => Some (InvCompactBlock h) | 4 => Some (InvWTx h) | 5 => Some (InvWitnessTransaction h)
    | 6 => Some (InvWitnessBlock h) | _ => Some (InvUnknown t h) end) _). by intros [].
Defined.
#[local] Instance TxIn_countable : Countable TxIn.
Proof.
  refine (inj_countable' (fun i => (previous_output i, script_sig i, sequence i, witness i))
    (fun '(a, b, c, d) => mkTxIn a b c d) _). by intros [].
Defined.
#[local] Instance TxOut_countable : Countable TxOut.
Proof. refine (inj_countable' (fun o => (txout_value o, script_pubkey o)) (fun '(a, b) => mkTxOut a b) _). by intros []. Defined.
#[local] Instance Transaction_countable : Countable Transaction.
Proof.
  refine (inj_countable' (fun t => (tx_version t, tx_lock_time t, tx_input t, tx_output t))
    (fun '(a, b, c, d) => mkTransaction a b c d) _). by intros [].
Defined.
#[local] Instance Header_eq_dec : EqDecision Header.
Proof. solve_decision. Defined.
#[local] Instance Header_countable : Countable Header.
Proof.
  refine (inj_countable' (fun h => (hdr_version h, hdr_prev_blockhash h, hdr_merkle_root h, hdr_time h, hdr_bits h, hdr_nonce h))
    (fun '(a, b, c, d, e, f) => mkHeader a b c d e f) _). by intros [].
Defined.
#[local] Instance Block_eq_dec : EqDecision Block.
Proof. solve_decision. Defined.
#[local] Instance Block_countable : Countable Block.
Proof. refine (inj_countable' (fun b => (blk_header b, blk_txdata b)) (fun '(a, b) => mkBlock a b) _). by intros []. Defined.
#[local] Instance Message_eq_dec : EqDecision NetworkMessage.
Proof. solve_decision. Defined.

(** The payload of a message by its type, and a tag among the messages of that type. *)
Definition code : Type :=
  VersionMessage + (Z + (list (Z * Address) + (Z * list Inventory + (Z * GetHeadersMessage +
  (Transaction + (Block + (list Header + (Z * Z + (Z * bytes + (list bytes + bytes * bytes)))))))))).

Definition to_code (m : NetworkMessage) : code :=
  let nullary (z : Z) : code := inr (inl z) in
  let inventory z l : code := inr (inr (inr (inl (z, l)))) in
  let locator z l : code := inr (inr (inr (inr (inl (z, l))))) in
  let number z n : code := inr (inr (inr (inr (inr (inr (inr (inr (inl (z, n))))))))) in
  let opaque z l : code := inr (inr (inr (inr (inr (inr (inr (inr (inr (inl (z, l)))))))))) in
  match m with
  | MVersion v => inl v
  | MVerack => nullary 0 | MMemPool => nullary 1 | MSendHeaders => nullary 2 | MGetAddr => nullary 3
  | MFilterClear => nullary 4 | MWtxidRelay => nullary 5 | MSendAddrV2 => nullary 6
  | MAddr l => inr (inr (inl l))
  | MInv l => inventory 0 l | MGetData l => inventory 1 l | MNotFound l => inventory 2 l
  | MGetBlocks r => locator 0 r | MGetHeaders r => locator 1 r
  | MTx t => inr (inr (inr (inr (inr (inl t)))))
  | MBlock b => inr (inr (inr (inr (inr (inr (inl b))))))
  | MHeaders l => inr (inr (inr (inr (inr (inr (inr (inl l)))))))
  | MPing n => number 0 n | MPong n => number 1 n
  | MFilterLoad p => opaque 0 p | MFilterAdd p => opaque 1 p | MGetCFilters p => opaque 2 p
  | MGetCFHeaders p => opaque 3 p | MGetCFCheckpt p => opaque 4 p | MOther p => opaque 5 p
  | MAddrV2 l => inr (inr (inr (inr (inr (inr (inr (inr (inr (inr (inl l))))))))))
  | MUnknown c p => inr (inr (inr (inr (inr (inr (inr (inr (inr (inr (inr (c, p)))))))))))
  end.

Definition of_code (c : code) : NetworkMessage :=
  match c with
  | inl v => MVersion v
  | inr (inl z) => match z with 0 => MVerack | 1 => MMemPool | 2 => MSendHeaders | 3 => MGetAddr
                   | 4 => MFilterClear | 5 => MWtxidRelay | _ => MSendAddrV2 end
  | inr (inr (inl l)) => MAddr l
  | inr (inr (inr (inl (z, l)))) => match z with 0 => MInv l | 1 => MGetData l | _ => MNotFound l end
  | inr (inr (inr (inr (inl (z, r))))) => match z with 0 => MGetBlocks r | _ => MGetHeaders r end
  | inr (inr (inr (inr (inr (inl t))))) => MTx t
  | inr (inr (inr (inr (inr (inr (inl b)))))) => MBlock b
  | inr (inr (inr (inr (inr (inr (inr (inl l))))))) => MHeaders l
  | inr (inr (inr (inr (inr (inr (inr (inr (inl (z, n))))))))) => match z with 0 => MPing n | _ => MPong n end
  | inr (inr (inr (inr (inr (inr (inr (inr (inr (inl (z, p)))))))))) =>
      match z with 0 => MFilterLoad p | 1 => MFilterAdd p | 2 => MGetCFilters p
      | 3 => MGetCFHeaders p | 4 => MGetCFCheckpt p | _ => MOther p end
  | inr (inr (inr (inr (inr (inr (inr (inr (inr (inr (inl l)))))))))) => MAddrV2 l
  | inr (inr (inr (inr (inr (inr (inr (inr (inr (inr (inr (c, p))))))))))) => MUnknown c p
  end.

#[local] Instance Message_countable : Countable NetworkMessage.
Proof. refine (inj_countable' to_code of_code _). by intros []. Defined.

Definition pos_bytes (p : positive) : bytes := le_bytes (Z.to_nat (Z.log2 (Zpos p) / 8 + 1)) (Zpos p).

Lemma pos_bytes_val p : le_val (pos_bytes p) = Zpos p.
Proof.
  unfold pos_bytes. rewrite le_val_bytes. apply Z.mod_small. split; [lia|].
  pose proof (Z.log2_nonneg (Zpos p)). rewrite Z2Nat.id by dlia.
  change 256 with (2 ^ 8). rewrite <-Z.pow_mul_r by dlia.
  eapply Z.lt_le_trans; [apply (Z.log2_spec (Zpos p)); lia|]. apply Z.pow_le_mono_r; dlia.
Qed.

Definition witness_command : bytes := [x6d; x73; x67] ++ repeat x00 9.

#[local] Instance witness_p2p : P2p := {|
  serialize_raw magic m := let payload := pos_bytes (countable.encode m) in
    magic ++ witness_command ++ le_bytes 4 (len payload) ++ repeat x00 4 ++ payload;
  deserialize_raw frame := countable.decode (Z.to_pos (le_val (drop 24 frame)));
  cmd _ := [x6d; x73; x67];
  address_new a services := mkAddress services [] (sa_port a);
|}.

#[local] Instance witness_p2p_laws : P2pLaws.
Proof.
  split.
  - intros magic m _. exists witness_command, (repeat x00 4), (pos_bytes (countable.encode m)).
    split; [done|]. split; [|done]. exists [x6d; x73; x67], 9%nat. split; [done|]. split; [done|].
    repeat constructor; cbn; lia.
  - intros magic m Hm _. cbn [serialize_raw deserialize_raw witness_p2p].
    rewrite !app_assoc. rewrite drop_app_length'
      by (rewrite !length_app, length_le_bytes, repeat_length, Hm; done).
    rewrite pos_bytes_val. cbn [Z.to_pos]. apply decode_encode.
Qed.

(** ** Two messages in three pieces, with a tick between *)

Definition wire_magic : bytes := [xf9; xbe; xb4; xd9].
Definition wire_framer : Framer := mkFramer wire_magic (repeat x00 64) 0 None None 120.
Definition wire_bytes : bytes := serialize_raw wire_magic (MPing 7) ++ serialize_raw wire_magic MVerack.
Definition wire_ping : nat := length (serialize_raw wire_magic (MPing 7)).
Definition wire_reads : list Read1 :=
  [ mkRead 1 (InBytes (take 10 wire_bytes)) 1000;
    mkRead 2 InTick 1000;
    mkRead 3 (InBytes (take 14 (drop 10 wire_bytes))) 1000;
    mkRead 4 (InBytes (take (wire_ping - 24) (drop 24 wire_bytes))) 1000;
    mkRead 5 (InBytes (take 24 (drop wire_ping wire_bytes))) 1000;
    mkRead 6 (InBytes (drop (wire_ping + 24) wire_bytes)) 1000 ].

Lemma framing_refines_witness :
  (fst (run wire_framer wire_reads), snd (snd (run wire_framer wire_reads))) =
    (fst (frames wire_magic 1000 (stream wire_reads)),
     match snd (frames wire_magic 1000 (stream wire_reads)) with None => Ok tt | Some e => Err e end).
Proof.
  apply (framing_refines (E:=unit) wire_magic 64 120 1000 wire_framer wire_reads);
    [reflexivity|unfold MAX_MESSAGE_LEN; lia|vm_compute; reflexivity|vm_compute; reflexivity].
Defined.

Lemma framer_bounded_witness : snd (snd (run wire_framer wire_reads)) <> Panic /\
  (snd (snd (run wire_framer wire_reads)) = Ok tt ->
     len (fr_buffer (fst (snd (run wire_framer wire_reads)))) <= Z.max 64 (HEADER_BYTES + 1000)).
Proof.
  apply (framer_bounded (E:=unit) wire_magic 64 120 1000 wire_framer wire_reads);
    [reflexivity|unfold MAX_MESSAGE_LEN; lia|vm_compute; reflexivity|repeat constructor; cbn; lia].
Defined.


(** A block is announced as half a megabyte and then sent at a byte a second for ten minutes,
    against a deadline of two. *)
Definition dribble_header : bytes :=
  wire_magic ++ witness_command ++ le_bytes 4 500000 ++ repeat x00 4.
Definition dribble : list (Z * byte) := (fun n => (Z.of_nat n, x00)) <$> seq 1 600.

Lemma dribbler_never_stalls_witness :
  let reads := mkRead 0 (InBytes dribble_header) 524288 :: drip 524288 dribble in
  120 < 600 /\ (600, x00) ∈ dribble /\
  fst (run wire_framer reads) = [] /\ snd (snd (run wire_framer reads)) = Ok tt /\
  Framer.in_progress (fst (snd (run wire_framer reads))) = true /\
  pending (fst (snd (run wire_framer reads))) = dribble_header ++ dribble.*2.
Proof.
  intros reads. split; [lia|]. split.
  { apply list_elem_of_lookup. exists 599%nat. vm_compute. reflexivity. }
  apply (dribbler_never_stalls (E:=unit) wire_magic 64 120 524288 wire_framer dribble_header 500000 0 dribble);
    [reflexivity|unfold MAX_MESSAGE_LEN; lia|reflexivity|vm_compute; reflexivity|vm_compute; reflexivity].
Defined.
End countable.
