(* ===== verification/PeerQueues.v ===== *)
(** * PeerQueues: what one peer owes, and what waits to be written to it
    ([peer/requests.rs], [peer/outbox.rs])

    Each operation is what happens under the lock; a wait on a condition variable ends with
    the lock held again, so that an operation that waits is the operation on the state it
    finds when it wakes. *)
From S2P Require Import Prelude Bitcoin Flags Params Header.

(** ** Outstanding requests *)

Definition MAX_BLOCKS_IN_FLIGHT : Z := 16.

Record BlockRequest := mkRequest {
  req_hash : bytes;
  req_context : Context;
  req_requested_at : Z;
}.

Record Requests := mkRequests { rq_outstanding : list BlockRequest; rq_max : Z }.

Module Requests.
Definition with_bound {E} (max : Z) : outcome E Requests :=
  assert_ ((0 <? max) && (max <=? MAX_BLOCKS_IN_FLIGHT));; Ok (mkRequests [] max).
Definition new {E} : outcome E Requests := with_bound MAX_BLOCKS_IN_FLIGHT.

Definition record (self : Requests) (request : BlockRequest) : Requests * bool :=
  if rq_max self <=? len (rq_outstanding self) then (self, false)
  else if existsb (fun held => bool_decide (req_hash held = req_hash request)) (rq_outstanding self)
  then (self, false)
  else (mkRequests (rq_outstanding self ++ [request]) (rq_max self), true).

(** [iter().position(..)] and then [remove]. *)
Fixpoint take_first (hash : bytes) (l : list BlockRequest) : option (BlockRequest * list BlockRequest) :=
  match l with
  | [] => None
  | held :: l =>
      if bool_decide (req_hash held = hash) then Some (held, l)
      else '(found, l) ← take_first hash l; Some (found, held :: l)
  end.
Definition take (self : Requests) (hash : bytes) : Requests * option BlockRequest :=
  match take_first hash (rq_outstanding self) with
  | Some (found, l) => (mkRequests l (rq_max self), Some found)
  | None => (self, None)
  end.

Definition outstanding (self : Requests) : Z := len (rq_outstanding self).
Definition clear (self : Requests) : Requests * Z :=
  (mkRequests [] (rq_max self), len (rq_outstanding self)).

(** The table is a map of at most [max] hashes, in the order they were asked. *)
Record ok (self : Requests) : Prop := mkOk {
  ok_bound : 0 < rq_max self <= MAX_BLOCKS_IN_FLIGHT;
  ok_len : len (rq_outstanding self) <= rq_max self;
  ok_unique : NoDup (req_hash <$> rq_outstanding self);
}.

Definition owed (self : Requests) : gmap bytes BlockRequest :=
  list_to_map ((fun r => (req_hash r, r)) <$> rq_outstanding self).

Lemma requests_new_ok {E} self : new (E:=E) = Ok self -> ok self /\ rq_outstanding self = [].
Proof. unfold new, with_bound. intros. inv_ok. by repeat split; try constructor. Qed.

Lemma existsb_hash l hash : existsb (fun held => bool_decide (req_hash held = hash)) l = true <->
  hash ∈ req_hash <$> l.
Proof.
  rewrite existsb_exists, list_elem_of_fmap. split.
  - intros (r & Hr & Hb). apply bool_decide_eq_true in Hb. exists r. by rewrite list_elem_of_In.
  - intros (r & -> & Hr). exists r. rewrite <-list_elem_of_In. by rewrite bool_decide_true.
Qed.

Lemma record_ok self r : ok self ->
  let (self', b) := record self r in
  ok self' /\ rq_max self' = rq_max self /\
  (b = true <-> len (rq_outstanding self) < rq_max self /\ req_hash r ∉ req_hash <$> rq_outstanding self) /\
  rq_outstanding self' = if b then rq_outstanding self ++ [r] else rq_outstanding self.
Proof.
  intros [Hb Hl Hu]. unfold record.
  destruct (Z.leb_spec (rq_max self) (len (rq_outstanding self))); [split; [done|]; repeat split; (done || lia)|].
  destruct (existsb _ _) eqn:He.
  - apply existsb_hash in He. split; [done|]. repeat split; (done || naive_solver).
  - assert (Hn : req_hash r ∉ req_hash <$> rq_outstanding self).
    { intros Hin. apply existsb_hash in Hin. congruence. }
    split; [|done]. split; cbn; [done|rewrite len_app; change (len [r]) with 1; lia|].
    rewrite fmap_app. apply NoDup_app. split; [done|]. split; [|apply NoDup_singleton].
    intros h Hh Hin. cbn in Hin. apply list_elem_of_singleton in Hin. by subst.
Qed.

Lemma take_first_spec hash l :
  match take_first hash l with
  | Some (found, rest) => exists l1 l2, l = l1 ++ found :: l2 /\ rest = l1 ++ l2 /\ req_hash found = hash /\
      hash ∉ req_hash <$> l1
  | None => hash ∉ req_hash <$> l
  end.
Proof.
  induction l as [|held l IH]; [apply not_elem_of_nil|]. cbn [take_first].
  case_bool_decide as Hh; [exists [], l; split; [done|]; split; [done|]; split; [done|apply not_elem_of_nil]|].
  destruct (take_first hash l) as [[found rest]|]; cbn.
  - destruct IH as (l1 & l2 & -> & -> & Hf & Hn). exists (held :: l1), l2. cbn.
    split; [done|]. split; [done|]. split; [done|]. rewrite not_elem_of_cons. by split.
  - rewrite not_elem_of_cons. by split.
Qed.

(** [take] answers exactly the requests outstanding, and the answer is owed no more. *)
Lemma take_ok self hash : ok self ->
  let (self', o) := take self hash in
  ok self' /\ rq_max self' = rq_max self /\ o = owed self !! hash /\ owed self' = delete hash (owed self) /\
  (is_Some o -> len (rq_outstanding self') = len (rq_outstanding self) - 1) /\
  (o = None -> self' = self).
Proof.
  intros [Hb Hl Hu]. unfold take. pose proof (take_first_spec hash (rq_outstanding self)) as Hs.
  destruct (take_first hash (rq_outstanding self)) as [[found rest]|].
  - destruct Hs as (l1 & l2 & Heq & -> & <- & Hn). unfold owed. cbn [rq_outstanding]. rewrite Heq in *.
    rewrite fmap_app, fmap_cons in Hu. apply NoDup_app in Hu as (Hu1 & Hd & [Hn2 Hu2]%NoDup_cons).
    assert (H1 : list_to_map (M:=gmap bytes BlockRequest) ((fun r => (req_hash r, r)) <$> l1) !! req_hash found = None).
    { apply not_elem_of_list_to_map_1. by rewrite <-list_fmap_compose. }
    assert (H2 : list_to_map (M:=gmap bytes BlockRequest) ((fun r => (req_hash r, r)) <$> l2) !! req_hash found = None).
    { apply not_elem_of_list_to_map_1. by rewrite <-list_fmap_compose. }
    split; [split; cbn; [done| |]|].
    + rewrite len_app, len_cons in Hl. rewrite len_app. lia.
    + rewrite fmap_app. apply NoDup_app. split; [done|]. split; [|done].
      intros h Hh Hin. apply (Hd h Hh). rewrite elem_of_cons. by right.
    + rewrite !fmap_app, !fmap_cons, !list_to_map_app, list_to_map_cons.
      split; [done|]. split; [|split; [|split; [|done]]].
      * rewrite lookup_union_r by done. by rewrite lookup_insert_eq.
      * rewrite delete_union, (delete_id _ _ H1). f_equal. rewrite delete_insert_eq. symmetry. by apply delete_id.
      * intros _. cbn [rq_outstanding]. rewrite !len_app, len_cons. lia.
  - assert (Hno : owed self !! hash = None).
    { apply not_elem_of_list_to_map_1. by rewrite <-list_fmap_compose. }
    split; [done|]. split; [done|]. split; [done|]. split; [symmetry; by apply delete_id|].
    split; [by intros []|done].
Qed.
End Requests.

(** ** The outbound queue *)

Record Outbox := mkOutbox { ob_frames : list bytes; ob_bytes : Z; ob_closed : bool; ob_max_bytes : Z }.

Inductive OutboxFull := mkOutboxFull.

Module Outbox.
Definition with_bound {E} (max_bytes : Z) : outcome E Outbox :=
  assert_ (0 <? max_bytes);; Ok (mkOutbox [] 0 false max_bytes).

Definition push (self : Outbox) (frame : bytes) : Outbox * outcome OutboxFull unit :=
  if negb (negb (len frame =? 0) && (len frame <=? ob_max_bytes self)) then (self, Panic)
  else if ob_closed self then (self, Err mkOutboxFull)
  else
    let after := saturating_add (ob_bytes self) (len frame) in
    if ob_max_bytes self <? after
    then (mkOutbox (ob_frames self) (ob_bytes self) true (ob_max_bytes self), Err mkOutboxFull)
    else (mkOutbox (ob_frames self ++ [frame]) after (ob_closed self) (ob_max_bytes self), Ok tt).

Definition pop (self : Outbox) : Outbox * option bytes :=
  match ob_frames self with
  | [] => (self, None)
  | frame :: frames =>
      (mkOutbox frames (saturating_sub (ob_bytes self) (len frame)) (ob_closed self) (ob_max_bytes self),
       Some frame)
  end.

Definition close (self : Outbox) : Outbox :=
  mkOutbox (ob_frames self) (ob_bytes self) true (ob_max_bytes self).
Definition is_closed (self : Outbox) : bool := ob_closed self.
Definition bytes_waiting (self : Outbox) : Z := ob_bytes self.
Definition frames_waiting (self : Outbox) : Z := len (ob_frames self).

(** What the threads do to an outbox, and what it did: the frames it accepted and the frames
    the writer took, oldest first. *)
Inductive op := Push (frame : bytes) | Pop | Close.
Record history := mkHistory { accepted : list bytes; written : list bytes }.

Definition apply_op (s : Outbox * history) (o : op) : outcome OutboxFull (Outbox * history) :=
  let (self, h) := s in
  match o with
  | Push frame =>
      match push self frame with
      | (self, Ok _) => Ok (self, mkHistory (accepted h ++ [frame]) (written h))
      | (self, Err _) => Ok (self, h)
      | (_, Panic) => Panic
      end
  | Pop => match pop self with
           | (self, Some frame) => Ok (self, mkHistory (accepted h) (written h ++ [frame]))
           | (self, None) => Ok (self, h)
           end
  | Close => Ok (close self, h)
  end.

Definition total (l : list bytes) : Z := foldr (fun f n => len f + n) 0 l.

Lemma frames_total_app l k : total (l ++ k) = total l + total k.
Proof.
  induction l as [|f l IH]; [done|]. change (total ((f :: l) ++ k)) with (len f + total (l ++ k)).
  change (total (f :: l)) with (len f + total l). lia.
Qed.
Lemma frames_total_nonneg l : 0 <= total l.
Proof. induction l as [|f l IH]; [done|]. cbn. pose proof (len_nonneg f). unfold total in IH. lia. Qed.

Record ok (max : Z) (s : Outbox * history) : Prop := mkOk {
  ok_max : ob_max_bytes (fst s) = max;
  ok_bytes : ob_bytes (fst s) = total (ob_frames (fst s));
  ok_bound : ob_bytes (fst s) <= max;
  ok_fifo : accepted (snd s) = written (snd s) ++ ob_frames (fst s);
}.

(** Frames the node may queue: not empty, and smaller than the outbox. *)
Definition frame_ok (max : Z) (o : op) : bool :=
  match o with Push f => negb (len f =? 0) && (len f <=? max) | _ => true end.

Lemma outbox_op_ok max s o : max < u64_max -> ok max s -> frame_ok max o = true ->
  exists s', apply_op s o = Ok s' /\ ok max s' /\
    (ob_closed (fst s) = true -> ob_closed (fst s') = true /\ accepted (snd s') = accepted (snd s)).
Proof.
  intros Hu [Hm Hb Hbd Hf] Hfo. destruct s as [self h]. cbn [fst snd] in *. destruct o as [frame| |]; cbn [apply_op].
  - unfold push. cbn [frame_ok] in Hfo. rewrite Hm, Hfo. cbn [negb].
    destruct (ob_closed self) eqn:Hc; [eexists; split; [done|]; split; [by split|by intros _]|].
    unfold saturating_add. case_bools.
    + eexists; split; [done|]. split; [by split|done].
    + eexists; split; [done|]. split; [|done]. pose proof (len_nonneg frame).
      split; cbn; try done; try lia.
      * rewrite frames_total_app. change (total [frame]) with (len frame + 0). lia.
      * by rewrite Hf, app_assoc.
  - unfold pop. destruct (ob_frames self) as [|frame frames] eqn:Hfr.
    + eexists; split; [done|]. split; [split; cbn; rewrite ?Hfr; done|done].
    + change (total (frame :: frames)) with (len frame + total frames) in Hb.
      pose proof (len_nonneg frame). pose proof (frames_total_nonneg frames).
      eexists; split; [done|]. split; [|done].
      split; cbn [fst snd ob_max_bytes ob_bytes ob_frames accepted written]; unfold saturating_sub; try lia; try done.
      by rewrite Hf, <-app_assoc.
  - eexists; split; [done|]. split; [by split|done].
Qed.

Lemma outbox_ops_ok max ops s : max < u64_max -> ok max s -> forallb (frame_ok max) ops = true ->
  exists s', foldM apply_op s ops = Ok s' /\ ok max s' /\
    (ob_closed (fst s) = true -> accepted (snd s') = accepted (snd s)).
Proof.
  intros Hu. revert s; induction ops as [|o ops IH]; intros s Hs Hf; [by exists s|].
  cbn [forallb] in Hf. apply andb_prop in Hf as [Ho Hf].
  destruct (outbox_op_ok max s o Hu Hs Ho) as (s1 & Hs1 & Hok1 & Hc1).
  destruct (IH s1 Hok1 Hf) as (s2 & Hs2 & Hok2 & Hc2). exists s2. cbn [foldM]. rewrite Hs1. split; [done|].
  split; [done|]. intros Hc. destruct (Hc1 Hc) as [Hc' <-]. by apply Hc2.
Qed.

(**  An outbox under any interleaving of its threads: pushes, pops and closes in any order
    never panic on frames the node may queue; the bytes waiting are exactly the bytes of the
    frames waiting and never exceed the bound; the frames written are the frames accepted, in
    order, none lost or doubled; and once it is closed nothing more is accepted. *)
Theorem outbox_fifo_bounded max self ops : max < u64_max ->
  with_bound (E:=OutboxFull) max = Ok self -> forallb (frame_ok max) ops = true ->
  exists self' h, foldM apply_op (self, mkHistory [] []) ops = Ok (self', h) /\
    accepted h = written h ++ ob_frames self' /\ ob_bytes self' = total (ob_frames self') /\
    ob_bytes self' <= max /\
    (ob_closed self' = true -> forall more, forallb (frame_ok max) more = true ->
       exists self2 h2, foldM apply_op (self', h) more = Ok (self2, h2) /\ accepted h2 = accepted h).
Proof.
  intros Hu Hn Hops. unfold with_bound in Hn. inv_ok.
  destruct (outbox_ops_ok max ops (mkOutbox [] 0 false max, mkHistory [] [])) as ([self' h] & Hrun & [Hm Hb Hbd Hf] & _); [done|by split; cbn; try lia|done|].
  exists self', h. split; [done|]. split; [done|]. split; [done|]. split; [done|].
  intros Hc more Hmore. destruct (outbox_ops_ok max more (self', h)) as ([self2 h2] & Hr2 & _ & Hacc); [done|by split|done|].
  exists self2, h2. split; [done|]. by apply Hacc.
Qed.

Lemma outbox_fifo_bounded_witness : exists self' h,
  foldM apply_op (mkOutbox [] 0 false 4, mkHistory [] []) [Push [x01]; Push [x02; x03]; Pop; Push [x04; x05; x06]; Pop] = Ok (self', h) /\
    accepted h = written h ++ ob_frames self' /\ ob_bytes self' = total (ob_frames self') /\
    ob_bytes self' <= 4 /\
    (ob_closed self' = true -> forall more, forallb (frame_ok 4) more = true ->
       exists self2 h2, foldM apply_op (self', h) more = Ok (self2, h2) /\ accepted h2 = accepted h).
Proof.
  apply (outbox_fifo_bounded 4 (mkOutbox [] 0 false 4)); [reflexivity|reflexivity|reflexivity].
Defined.
End Outbox.
