(* ===== verification/Channel.v ===== *)
(** * Channel: the two bounded queues between the threads ([runtime/queue.rs])

    The state is what the mutex protects and each operation is one critical section.  A
    blocking send is a loop of critical sections: [send] is one turn of it, which either
    returns or waits to be woken and tried again. *)
From S2P Require Import Prelude Bitcoin Flags Params Header Queue Message.

Definition PEER_TO_CHAIN_MAX_BYTES : Z := 32 * 1024 * 1024.
Definition PEER_TO_CHAIN_MAX_ITEMS : Z := 1024.
Definition CHAIN_TO_VALIDATION_MAX_JOBS : Z := 64.

(** [size_of] of the types a message holds, which the compiler decides, and [Witness::size]. *)
Class Sizes := {
  size_of_Block : Z;
  size_of_Transaction : Z;
  size_of_TxIn : Z;
  size_of_TxOut : Z;
  size_of_PeerMessage : Z;
  witness_size : list bytes -> Z;
}.

Record PeerMessage := mkPeerMessage { pm_peer : Z; pm_message : NetworkMessage; pm_footprint : Z }.

Section weight.
Context `{Sizes}.

Definition block_footprint (block : Block) : Z :=
  foldl (fun bytes transaction =>
    let bytes := saturating_add bytes size_of_Transaction in
    let bytes := foldl (fun bytes input =>
      saturating_add (saturating_add (saturating_add bytes size_of_TxIn) (len (script_sig input)))
        (witness_size (witness input))) bytes (tx_input transaction) in
    foldl (fun bytes output =>
      saturating_add (saturating_add bytes size_of_TxOut) (len (script_pubkey output)))
      bytes (tx_output transaction)) size_of_Block (blk_txdata block).

(** [PeerMessage::new]. *)
Definition new_peer_message (peer : Z) (message : NetworkMessage) (wire_len : Z) : PeerMessage :=
  let footprint := match message with MBlock block => block_footprint block | _ => wire_len end in
  mkPeerMessage peer message footprint.

(** [Weighed]. *)
Definition byte_len (self : PeerMessage) : Z := saturating_add size_of_PeerMessage (pm_footprint self).
End weight.

Inductive Closed := mkClosed.
Inductive Received (T : Type) := Item (item : T) | Empty | ReceivedClosed.
Arguments Item {T} item.
Arguments Empty {T}.
Arguments ReceivedClosed {T}.

(** One turn of a blocking send. *)
Inductive turn := Returns (r : outcome Closed unit) | Waits.

Record PeerToChain (T : Type) := mkPeerToChain {
  pc_items : list T;
  pc_bytes : Z;
  pc_closed : bool;
  pc_max_bytes : Z;
  pc_max_items : Z;
}.
Arguments mkPeerToChain {T} _ _ _ _ _.
Arguments pc_items {T} _.
Arguments pc_bytes {T} _.
Arguments pc_closed {T} _.
Arguments pc_max_bytes {T} _.
Arguments pc_max_items {T} _.

Module PeerToChain.
Section queue.
Context {T : Type} (weight : T -> Z).
Implicit Types (self : PeerToChain T) (item : T).

Definition with_bounds {E} (max_bytes max_items : Z) : outcome E (PeerToChain T) :=
  assert_ ((0 <? max_bytes) && (0 <? max_items));; Ok (mkPeerToChain [] 0 false max_bytes max_items).
Definition new {E} : outcome E (PeerToChain T) := with_bounds PEER_TO_CHAIN_MAX_BYTES PEER_TO_CHAIN_MAX_ITEMS.

Definition fits self (w : Z) : bool :=
  if pc_max_items self <=? len (pc_items self) then false
  else (len (pc_items self) =? 0) || (saturating_add (pc_bytes self) w <=? pc_max_bytes self).

Definition push_back self item : PeerToChain T :=
  mkPeerToChain (pc_items self ++ [item]) (saturating_add (pc_bytes self) (weight item)) (pc_closed self)
    (pc_max_bytes self) (pc_max_items self).

(** [reader] is whether the calling thread is a peer reader. *)
Definition send self item (reader : bool) : PeerToChain T * turn :=
  let w := weight item in
  if negb ((0 <? w) && (w <=? pc_max_bytes self)) then (self, Returns Panic)
  else if negb (pc_closed self) && negb (fits self w)
  then if reader then (self, Waits) else (self, Returns Panic)
  else if pc_closed self then (self, Returns (Err mkClosed))
  else (push_back self item, Returns (Ok tt)).

Definition try_send self item : PeerToChain T * outcome T unit :=
  if pc_closed self || negb (fits self (weight item)) then (self, Err item)
  else (push_back self item, Ok tt).

Definition recv self : PeerToChain T * Received T :=
  match pc_items self with
  | item :: items =>
      (mkPeerToChain items (saturating_sub (pc_bytes self) (weight item)) (pc_closed self)
         (pc_max_bytes self) (pc_max_items self), Item item)
  | [] => (self, if pc_closed self then ReceivedClosed else Empty)
  end.

Definition close self : PeerToChain T :=
  mkPeerToChain (pc_items self) (pc_bytes self) true (pc_max_bytes self) (pc_max_items self).
Definition items_waiting self : Z := len (pc_items self).
Definition bytes_waiting self : Z := pc_bytes self.

(** ** Every interleaving of the threads *)

Inductive op := Send (item : T) | Recv | Close.
Record history := mkHistory { accepted : list T; taken : list T }.

(** A send that waits is tried again by a later [Send]. *)
Definition apply_op (s : PeerToChain T * history) (o : op) : outcome Closed (PeerToChain T * history) :=
  let (self, h) := s in
  match o with
  | Send item =>
      match send self item true with
      | (self, Returns (Ok _)) => Ok (self, mkHistory (accepted h ++ [item]) (taken h))
      | (self, Returns (Err _)) | (self, Waits) => Ok (self, h)
      | (_, Returns Panic) => Panic
      end
  | Recv => match recv self with
            | (self, Item item) => Ok (self, mkHistory (accepted h) (taken h ++ [item]))
            | (self, _) => Ok (self, h)
            end
  | Close => Ok (close self, h)
  end.

Definition total (l : list T) : Z := foldr (fun x n => weight x + n) 0 l.

Lemma total_app l k : total (l ++ k) = total l + total k.
Proof.
  induction l as [|f l IH]; [done|]. change (total ((f :: l) ++ k)) with (weight f + total (l ++ k)).
  change (total (f :: l)) with (weight f + total l). lia.
Qed.

Definition sendable (max_bytes : Z) (o : op) : bool :=
  match o with Send item => (0 <? weight item) && (weight item <=? max_bytes) | _ => true end.

Record ok (max_bytes max_items : Z) (s : PeerToChain T * history) : Prop := mkOk {
  ok_max : pc_max_bytes (fst s) = max_bytes /\ pc_max_items (fst s) = max_items;
  ok_bytes : pc_bytes (fst s) = total (pc_items (fst s));
  ok_bound : pc_bytes (fst s) <= max_bytes /\ len (pc_items (fst s)) <= max_items;
  ok_weights : Forall (fun x => 0 < weight x) (pc_items (fst s));
  ok_fifo : accepted (snd s) = taken (snd s) ++ pc_items (fst s);
}.

Lemma total_nonneg l : Forall (fun x => 0 < weight x) l -> 0 <= total l.
Proof.
  induction 1 as [|x l Hx _ IH]; [done|]. change (total (x :: l)) with (weight x + total l). lia.
Qed.

Section bounds.
Context (max_bytes max_items : Z) (Hb : 0 < max_bytes < u64_max) (Hi : 0 < max_items).

Lemma apply_op_ok s o : ok max_bytes max_items s -> sendable max_bytes o = true ->
  exists s', apply_op s o = Ok s' /\ ok max_bytes max_items s' /\
    (pc_closed (fst s) = true -> pc_closed (fst s') = true /\ accepted (snd s') = accepted (snd s)).
Proof.
  intros [[Hm1 Hm2] Hby [Hbd1 Hbd2] Hw Hf] Ho. destruct s as [self h]. cbn [fst snd] in *.
  destruct o as [item| |]; cbn [apply_op].
  - unfold send. cbn [sendable] in Ho. rewrite Hm1, Ho. cbn [negb].
    destruct (pc_closed self) eqn:Hc; cbn [negb andb]; [eexists; split; [done|]; split; [by split|by intros _]|].
    destruct (fits self (weight item)) eqn:Hfit; cbn [negb];
      [|eexists; split; [done|]; split; [by split|done]].
    eexists; split; [done|]. split; [|done]. unfold push_back, fits in *. rewrite Hm1, Hm2 in *.
    destruct (Z.leb_spec max_items (len (pc_items self))); [done|].
    pose proof (total_nonneg _ Hw). assert (Hsum : pc_bytes self + weight item <= max_bytes).
    { apply orb_prop in Hfit as [Hz|Hle].
      - assert (pc_items self = []) as Hnil by (destruct (pc_items self); [done|rewrite len_cons in Hz; pose proof (len_nonneg l); lia]).
        rewrite Hnil in Hby. cbn in Hby. lia.
      - unfold saturating_add in Hle. lia. }
    rewrite saturating_add_ok by lia.
    split; cbn [fst snd pc_max_bytes pc_max_items pc_bytes pc_items accepted taken].
    + done.
    + rewrite total_app. change (total [item]) with (weight item + 0). lia.
    + rewrite len_app. change (len [item]) with 1. lia.
    + apply Forall_app. split; [done|]. constructor; [lia|done].
    + by rewrite Hf, app_assoc.
  - unfold recv. destruct (pc_items self) as [|item items] eqn:Hit.
    + eexists; split; [by destruct (pc_closed self)|]. split; [split; cbn; rewrite ?Hit; done|done].
    + change (total (item :: items)) with (weight item + total items) in Hby.
      inversion Hw; subst. pose proof (total_nonneg _ ltac:(eassumption)). rewrite len_cons in Hbd2.
      eexists; split; [done|]. split; [|done].
      split; cbn [fst snd pc_max_bytes pc_max_items pc_bytes pc_items accepted taken]; try done;
        try (unfold saturating_sub; lia). by rewrite Hf, <-app_assoc.
  - eexists; split; [done|]. split; [by split|done].
Qed.

Lemma apply_ops_ok s ops : ok max_bytes max_items s -> forallb (sendable max_bytes) ops = true ->
  exists s', foldM apply_op s ops = Ok s' /\ ok max_bytes max_items s' /\
    (pc_closed (fst s) = true -> accepted (snd s') = accepted (snd s)).
Proof.
  revert s; induction ops as [|o ops IH]; intros s Hs Hf; [by exists s|].
  cbn [forallb] in Hf. apply andb_prop in Hf as [Ho Hf].
  destruct (apply_op_ok s o Hs Ho) as (s1 & Hs1 & Hok1 & Hc1).
  destruct (IH s1 Hok1 Hf) as (s2 & Hs2 & Hok2 & Hc2). exists s2. cbn [foldM]. rewrite Hs1. split; [done|].
  split; [done|]. intros Hc. destruct (Hc1 Hc) as [Hc' <-]. by apply Hc2.
Qed.

Lemma start_ok self : with_bounds (E:=Closed) max_bytes max_items = Ok self ->
  ok max_bytes max_items (self, mkHistory [] []).
Proof.
  unfold with_bounds. intros. inv_ok. split; [done|done|cbn; unfold len; cbn; lia|constructor|done].
Qed.

(** C19.  The inbound queue under every interleaving of the peer readers and the chain thread:
    no assertion fails, the bytes counted are the bytes of the items waiting, both bounds hold
    at every moment, and what the chain thread takes is what the readers sent, in order, with
    nothing lost or doubled. *)
Theorem inbound_queue_sound self ops :
  with_bounds (E:=Closed) max_bytes max_items = Ok self -> forallb (sendable max_bytes) ops = true ->
  exists self' h, foldM apply_op (self, mkHistory [] []) ops = Ok (self', h) /\
    accepted h = taken h ++ pc_items self' /\ pc_bytes self' = total (pc_items self') /\
    pc_bytes self' <= max_bytes /\ len (pc_items self') <= max_items /\
    (pc_closed self' = true -> forall more, forallb (sendable max_bytes) more = true ->
       exists self2 h2, foldM apply_op (self', h) more = Ok (self2, h2) /\ accepted h2 = accepted h).
Proof.
  intros Hn Hops. destruct (apply_ops_ok _ _ (start_ok _ Hn) Hops) as ([self' h] & Hr & [? ? [? ?] ? ?] & _).
  exists self', h. do 5 (split; [done|]). intros Hc more Hmore.
  destruct (apply_ops_ok (self', h) more) as ([self2 h2] & Hr2 & _ & Ha); [by split|done|].
  exists self2, h2. split; [done|]. by apply Ha.
Qed.

(** [n] receives in a row. *)
Fixpoint drain (n : nat) self : PeerToChain T :=
  match n with O => self | S n => drain n (fst (recv self)) end.

Lemma drain_all self : pc_items (drain (length (pc_items self)) self) = [] /\
  pc_closed (drain (length (pc_items self)) self) = pc_closed self /\
  pc_max_bytes (drain (length (pc_items self)) self) = pc_max_bytes self /\
  pc_max_items (drain (length (pc_items self)) self) = pc_max_items self.
Proof.
  remember (length (pc_items self)) as n eqn:Hn. revert self Hn; induction n as [|n IH]; intros self Hn.
  - cbn. by destruct (pc_items self).
  - cbn [drain]. destruct (pc_items self) as [|x l] eqn:Hl; [done|].
    assert (Hr : fst (recv self) = mkPeerToChain l (saturating_sub (pc_bytes self) (weight x)) (pc_closed self)
         (pc_max_bytes self) (pc_max_items self)) by (unfold recv; by rewrite Hl).
    rewrite Hr. edestruct IH as (H1 & H2 & H3 & H4); [|by rewrite H1, H2, H3, H4]. cbn in *. lia.
Qed.

End bounds.
End queue.

Lemma inbound_queue_sound_witness : exists self' h,
  foldM (apply_op Z.of_nat) (mkPeerToChain [] 0 false 8 2, mkHistory [] [])
    [Send 5; Send 3; Send 1; Recv; Send 4; Close; Send 1; Recv]%nat = Ok (self', h) /\
    accepted h = taken h ++ pc_items self' /\ pc_bytes self' = total Z.of_nat (pc_items self') /\
    pc_bytes self' <= 8 /\ len (pc_items self') <= 2 /\
    (pc_closed self' = true -> forall more, forallb (sendable Z.of_nat 8) more = true ->
       exists self2 h2, foldM (apply_op Z.of_nat) (self', h) more = Ok (self2, h2) /\ accepted h2 = accepted h).
Proof.
  apply (inbound_queue_sound Z.of_nat 8 2 ltac:(vm_compute; done) ltac:(lia)); reflexivity.
Defined.

End PeerToChain.

(** ** The chain thread to the validation thread *)

Record ChainToValidation := mkChainToValidation {
  cv_queue : list ConnectJob;
  cv_closed : bool;
  cv_max_jobs : Z;
}.

Module ChainToValidation.
Implicit Types (self : ChainToValidation) (job : ConnectJob).

Definition with_bound {E} (max_jobs : Z) : outcome E ChainToValidation :=
  assert_ (0 <? max_jobs);; Ok (mkChainToValidation [] false max_jobs).
Definition new {E} : outcome E ChainToValidation := with_bound CHAIN_TO_VALIDATION_MAX_JOBS.

Definition try_push self job : ChainToValidation * outcome ConnectJob unit :=
  if cv_closed self || (cv_max_jobs self <=? len (cv_queue self)) then (self, Err job)
  else (mkChainToValidation (cv_queue self ++ [job]) (cv_closed self) (cv_max_jobs self), Ok tt).

Definition room self : Z := saturating_sub (cv_max_jobs self) (len (cv_queue self)).

Definition pop self : ChainToValidation * Received ConnectJob :=
  match cv_queue self with
  | job :: queue => (mkChainToValidation queue (cv_closed self) (cv_max_jobs self), Item job)
  | [] => (self, if cv_closed self then ReceivedClosed else Empty)
  end.

Definition discard self : ChainToValidation * Z :=
  (mkChainToValidation [] (cv_closed self) (cv_max_jobs self), len (cv_queue self)).
Definition jobs_waiting self : Z := len (cv_queue self).
Definition close self : ChainToValidation := mkChainToValidation (cv_queue self) true (cv_max_jobs self).

(** Pushing a plan, as the chain thread would: until a job is handed back. *)
Fixpoint top_up self (jobs : list ConnectJob) : ChainToValidation * list ConnectJob :=
  match jobs with
  | [] => (self, [])
  | job :: jobs => match try_push self job with
                   | (self, Ok _) => top_up self jobs
                   | (self, _) => (self, job :: jobs)
                   end
  end.

(** [room] is exactly the number of jobs that fit, and a plan of that size is queued whole and
    in order. *)
Lemma top_up_room self jobs : cv_closed self = false -> len (cv_queue self) <= cv_max_jobs self ->
  top_up self jobs =
    (mkChainToValidation (cv_queue self ++ take (Z.to_nat (room self)) jobs) false (cv_max_jobs self),
     drop (Z.to_nat (room self)) jobs).
Proof.
  revert self; induction jobs as [|job jobs IH]; intros self Hc Hl; unfold room, saturating_sub in *; cbn [top_up].
  - rewrite take_nil, drop_nil, app_nil_r. destruct self; cbn in *. by subst.
  - unfold try_push. rewrite Hc. cbn [orb]. destruct (Z.leb_spec (cv_max_jobs self) (len (cv_queue self))).
    + replace (Z.to_nat _) with 0%nat by lia. cbn. rewrite app_nil_r. destruct self; cbn in *. by subst.
    + rewrite IH; cbn [cv_closed cv_queue cv_max_jobs]; [|done|rewrite len_app; change (len [job]) with 1; lia].
      rewrite len_app. change (len [job]) with 1.
      replace (Z.to_nat (Z.max 0 (cv_max_jobs self - len (cv_queue self))))
        with (S (Z.to_nat (Z.max 0 (cv_max_jobs self - (len (cv_queue self) + 1))))) by lia.
      cbn [take drop]. by rewrite <-app_assoc.
Qed.
End ChainToValidation.
