(* ===== verification/Slots.v ===== *)
(** * Slots: the table of connections ([peer/slots.rs], [peer/mod.rs], [peer/disconnect.rs],
    [peer/discovery.rs])

    A connection is shared by the threads that serve it: it lives in its slot, and every
    operation on it is an update of the slot.  Each operation is one critical section. *)
From S2P Require Import Prelude Bitcoin Flags Params Header Tx Block Message Wire PeerQueues.

(** ** [peer/mod.rs].  Times are in nanoseconds. *)

Definition secs (n : Z) : Z := n * 1000000000.
Definition PEER_SLOTS : Z := 32.
Definition OUTBOUND_SLOTS : Z := 10.
Definition INBOUND_SLOTS : Z := 22.
Definition BLOCK_RELAY_SLOTS : Z := 2.
Definition READ_BUFFER_INITIAL_BYTES : Z := 64 * 1024.
Definition READ_CAP_IDLE : Z := 512 * 1024.
Definition MESSAGE_DEADLINE : Z := secs 120.
Definition PING_INTERVAL : Z := secs 120.
Definition PEER_TIMEOUT : Z := secs (20 * 60).
Definition HANDSHAKE_TIMEOUT : Z := secs 60.
Definition OUTBOX_MAX_BYTES : Z := 1024 * 1024.
Definition PROTOCOL_VERSION : Z := 70016.
Definition MIN_PEER_PROTO_VERSION : Z := 31800.

(** ** [peer/disconnect.rs] *)

Inductive Disconnect :=
| DWire (error : WireError)
| ObsoleteVersion (version : Z)
| ConnectedToSelf
| MissingServices (offered wanted : Z)
| NegotiationAfterVerack (command : bytes)
| HandshakeTimeout
| PingTimeout
| Silent
| TransactionRelay
| BloomFilter
| CompactFilter
| DMempool
| UnrequestedBlock (hash : bytes)
| InvalidHeader (error : HeaderError)
| InvalidBlock (error : BlockError)
| BlockDownloadTimeout
| BlockStalling
| HeadersTimeout
| StaleTip
| DOutboxFull
| WriteFailed
| PeerClosed
| NodeStopping.

Definition misbehaving (self : Disconnect) : bool :=
  match self with
  | DWire (WrongMagic _)
  | ConnectedToSelf | MissingServices _ _ | HandshakeTimeout | PingTimeout | Silent
  | BlockDownloadTimeout | BlockStalling | HeadersTimeout | StaleTip | DOutboxFull | WriteFailed
  | PeerClosed | NodeStopping => false
  | DWire _ | ObsoleteVersion _ | NegotiationAfterVerack _ | TransactionRelay | BloomFilter
  | CompactFilter | DMempool | UnrequestedBlock _ | InvalidHeader _ | InvalidBlock _ => true
  end.

(** ** [peer/slots.rs]: indices *)

Inductive SlotKind := Outbound | Inbound.
Inductive SlotRole := FullRelay | BlockRelayOnly | RInbound.

#[global] Instance SlotKind_eq_dec : EqDecision SlotKind.
Proof. solve_decision. Defined.
#[global] Instance SlotRole_eq_dec : EqDecision SlotRole.
Proof. solve_decision. Defined.

(** A [SlotIndex] is its number. *)
Module SlotIndex.
Definition new {E} (index : Z) : outcome E Z := assert_ (index <? PEER_SLOTS);; Ok index.
Definition from_position {E} (position : Z) : outcome E Z :=
  assert_ (position <? PEER_SLOTS);; new (default 255 (try_from 255 position)).
Definition kind (self : Z) : SlotKind := if self <? OUTBOUND_SLOTS then Outbound else Inbound.
Definition role (self : Z) : SlotRole :=
  match kind self with
  | Inbound => RInbound
  | Outbound => if self <? saturating_sub OUTBOUND_SLOTS BLOCK_RELAY_SLOTS then FullRelay else BlockRelayOnly
  end.
End SlotIndex.

(** ** [peer/discovery.rs]: the network group of an address *)

Definition netgroup (address : SocketAddr) : bytes :=
  match sa_ip address with
  | V4 octets => [default x00 (get octets 0); default x00 (get octets 1); x00; x00]
  | V6 octets => [default x00 (get octets 0); default x00 (get octets 1);
                  default x00 (get octets 2); default x00 (get octets 3)]
  end.

(** ** [peer/slots.rs]: connections *)

(** [cn_shut] is whether [shutdown(Both)] was called on the socket. *)
Record Connection := mkConnection {
  cn_address : SocketAddr;
  cn_since : Z;
  cn_index : Z;
  cn_outbox : Outbox;
  cn_requests : Requests;
  cn_ready : bool;
  cn_services : Z;
  cn_ended : option Disconnect;
  cn_shut : bool;
}.

Module Connection.
Definition with_outbox (self : Connection) (outbox : Outbox) : Connection :=
  mkConnection (cn_address self) (cn_since self) (cn_index self) outbox (cn_requests self) (cn_ready self)
    (cn_services self) (cn_ended self) (cn_shut self).
Definition with_requests (self : Connection) (requests : Requests) : Connection :=
  mkConnection (cn_address self) (cn_since self) (cn_index self) (cn_outbox self) requests (cn_ready self)
    (cn_services self) (cn_ended self) (cn_shut self).
Definition is_ready (self : Connection) : bool := cn_ready self.
Definition mark_ready (self : Connection) : Connection :=
  mkConnection (cn_address self) (cn_since self) (cn_index self) (cn_outbox self) (cn_requests self) true
    (cn_services self) (cn_ended self) (cn_shut self).
Definition services (self : Connection) : Z := cn_services self.
Definition set_services (self : Connection) (services : Z) : Connection :=
  mkConnection (cn_address self) (cn_since self) (cn_index self) (cn_outbox self) (cn_requests self)
    (cn_ready self) services (cn_ended self) (cn_shut self).
Definition disconnect (self : Connection) (reason : Disconnect) : Connection :=
  mkConnection (cn_address self) (cn_since self) (cn_index self) (Outbox.close (cn_outbox self))
    (cn_requests self) (cn_ready self) (cn_services self)
    (match cn_ended self with None => Some reason | ended => ended end) true.
Definition ended (self : Connection) : option Disconnect := cn_ended self.
End Connection.

(** ** [peer/slots.rs]: the table *)

Record PeerSlots := mkSlots {
  ps_slots : list (option Connection);
  ps_outbound : Z;
  ps_inbound : Z;
  ps_closing : bool;
}.

Module PeerSlots.
Implicit Types (self : PeerSlots).

Definition new : PeerSlots := mkSlots (repeat None (Z.to_nat PEER_SLOTS)) 0 0 false.

Definition occupied self (kind : SlotKind) : Z :=
  match kind with Outbound => ps_outbound self | Inbound => ps_inbound self end.
Definition capacity (kind : SlotKind) : Z :=
  match kind with Outbound => OUTBOUND_SLOTS | Inbound => INBOUND_SLOTS end.
Definition has_room self (kind : SlotKind) : bool := occupied self kind <? capacity kind.
Definition is_closing self : bool := ps_closing self.

(** The first free slot of a kind; slots are numbered by their position. *)
Fixpoint first_free (kind : SlotKind) (i : Z) (slots : list (option Connection)) : option Z :=
  match slots with
  | [] => None
  | slot :: slots =>
      if bool_decide (SlotIndex.kind i = kind) && negb (bool_decide (is_Some slot)) then Some i
      else first_free kind (i + 1) slots
  end.

(** A fresh connection. *)
Definition connect {E} (address : SocketAddr) (now index : Z) : outcome E Connection :=
  outbox ← Outbox.with_bound OUTBOX_MAX_BYTES;
  requests ← Requests.new;
  Ok (mkConnection address now index outbox requests false ServiceFlags.NONE None false).

Definition set_slot self (index : Z) (slot : option Connection) : PeerSlots :=
  mkSlots (<[Z.to_nat index := slot]> (ps_slots self)) (ps_outbound self) (ps_inbound self) (ps_closing self).
(** [fetch_add] and [fetch_sub] on the counter of a kind, which wrap. *)
Definition count self (kind : SlotKind) (by_ : Z) : PeerSlots :=
  match kind with
  | Outbound => mkSlots (ps_slots self) ((ps_outbound self + by_) mod 2 ^ 64) (ps_inbound self) (ps_closing self)
  | Inbound => mkSlots (ps_slots self) (ps_outbound self) ((ps_inbound self + by_) mod 2 ^ 64) (ps_closing self)
  end.

Definition claim {E} self (kind : SlotKind) (address : SocketAddr) (now : Z)
    : outcome E (PeerSlots * option Z) :=
  if ps_closing self then Ok (self, None)
  else match first_free kind 0 (ps_slots self) with
  | None => Ok (self, None)
  | Some index =>
      connection ← connect address now index;
      Ok (count (set_slot self index (Some connection)) kind 1, Some index)
  end.

(** The connection in a slot. *)
Definition connection self (index : Z) : option Connection := mjoin (get (ps_slots self) index).

Definition release self (index : Z) : PeerSlots :=
  match get (ps_slots self) index with
  | None => self
  | Some slot =>
      let self := set_slot self index None in
      if bool_decide (is_Some slot) then count self (SlotIndex.kind index) (-1) else self
  end.

(** What [wait_for_connection] returns when it wakes: [None] is that it waits again. *)
Definition wait_for_connection self (index : Z) : option (option Connection) :=
  match get (ps_slots self) index with
  | None => Some None
  | Some (Some connection) => Some (Some connection)
  | Some None => if ps_closing self then Some None else None
  end.
(** Whether [wait_until_vacant] returns when it wakes. *)
Definition wait_until_vacant self (index : Z) : bool :=
  match get (ps_slots self) index with
  | Some (Some _) => ps_closing self
  | _ => true
  end.

Definition shutdown_all self : PeerSlots * Z :=
  (mkSlots ((fun slot : option Connection => (fun c => Connection.disconnect c NodeStopping) <$> slot) <$> ps_slots self)
     (ps_outbound self) (ps_inbound self) true,
   len (omap (M:=list) (fun slot : option Connection => slot) (ps_slots self))).

Definition outbound_netgroups self : list bytes :=
  omap (M:=list) (fun '(i, slot) => if bool_decide (SlotIndex.kind i = Outbound)
                          then (fun c => netgroup (cn_address c)) <$> slot else None) (enumerate (ps_slots self)).
Definition anchor_addresses {E} self : outcome E (list SocketAddr) :=
  let addresses := omap (M:=list) (fun '(i, slot) => if bool_decide (SlotIndex.role i = BlockRelayOnly)
                                           then cn_address <$> slot else None) (enumerate (ps_slots self)) in
  assert_ (len addresses <=? BLOCK_RELAY_SLOTS);; Ok addresses.

(** A thread acting on the connection in a slot. *)
Definition update self (index : Z) (f : Connection -> Connection) : PeerSlots :=
  match connection self index with
  | Some c => set_slot self index (Some (f c))
  | None => self
  end.
End PeerSlots.

(** ** [peer/discovery.rs]: addresses to dial *)

Definition MAX_ANCHORS : Z := 2.
Definition MAX_CANDIDATES : Z := 1024.
Definition MAX_RECENT : Z := 256.
Definition RETRY_INTERVAL : Z := secs 600.

(** The two deques; the seeds, the port and the path of the anchors do not change. *)
Record Candidates := mkCandidates {
  ca_queue : list SocketAddr;
  ca_recent : list (SocketAddr * Z);
}.

Module Candidates.
Implicit Types (self : Candidates).

Definition new : Candidates := mkCandidates [] [].

(** [load_anchors] on the addresses its file's lines parse to. *)
Definition load_anchors self (lines : list (option SocketAddr)) : Candidates * Z :=
  let anchors := omap (M:=list) (fun line : option SocketAddr => line) (take (Z.to_nat MAX_ANCHORS) lines) in
  (mkCandidates (reverse anchors ++ ca_queue self) (ca_recent self), len anchors).

Definition offer self (address : SocketAddr) : Candidates * bool :=
  if (MAX_CANDIDATES <=? len (ca_queue self)) || bool_decide (address ∈ ca_queue self) then (self, false)
  else (mkCandidates (ca_queue self ++ [address]) (ca_recent self), true).

Definition recently_tried self (address : SocketAddr) (now : Z) : bool :=
  existsb (fun '(tried, at_) => bool_decide (tried = address) && (now - at_ <? RETRY_INTERVAL)) (ca_recent self).

(** The loop of [remember]. *)
Fixpoint forget_old (recent : list (SocketAddr * Z)) (now : Z) : list (SocketAddr * Z) :=
  match recent with
  | [] => []
  | (_, at_) :: rest =>
      if (RETRY_INTERVAL <=? now - at_) || (MAX_RECENT <=? len recent) then forget_old rest now else recent
  end.
Definition remember self (address : SocketAddr) (now : Z) : Candidates :=
  mkCandidates (ca_queue self) (forget_old (ca_recent self) now ++ [(address, now)]).

(** The loop of [next], with the passes left. *)
Fixpoint next_loop (passes : nat) self (now : Z) : Candidates * option SocketAddr :=
  match passes with
  | O => (self, None)
  | S passes =>
      match ca_queue self with
      | [] => (self, None)
      | address :: queue =>
          let self := mkCandidates (queue ++ [address]) (ca_recent self) in
          if recently_tried self address now then next_loop passes self now
          else (remember self address now, Some address)
      end
  end.
Definition next self (now : Z) : Candidates * option SocketAddr := next_loop (length (ca_queue self)) self now.
End Candidates.

(** ** [peer/net.rs]: what the listener and the connector do to the table *)

(** [accept_one] on a connection that arrived; [configured] is whether the socket took its
    options. *)
Definition accept_one {E} (slots : PeerSlots) (address : SocketAddr) (now : Z) (configured : bool)
    : outcome E PeerSlots :=
  if negb (PeerSlots.has_room slots Inbound) then Ok slots
  else if negb configured then Ok slots
  else '(slots, _) ← PeerSlots.claim slots Inbound address now; Ok slots.

(** [dial]; [connected] is whether the connection was made and configured. *)
Definition dial {E} (slots : PeerSlots) (address : SocketAddr) (now : Z) (connected : bool)
    : outcome E PeerSlots :=
  if bool_decide (netgroup address ∈ PeerSlots.outbound_netgroups slots) then Ok slots
  else if negb connected then Ok slots
  else '(slots, _) ← PeerSlots.claim slots Outbound address now; Ok slots.

(** ** The table of connections keeps its books, its sides and its diversity *)

Section table.
Context {E : Type}.
Implicit Types (self : PeerSlots) (l : list (option Connection)) (kind : SlotKind).

Lemma insert_middle {A} (pre post : list A) x y : <[length pre := y]> (pre ++ x :: post) = pre ++ y :: post.
Proof. rewrite insert_app_r_alt by lia. by rewrite Nat.sub_diag. Qed.

(** Live connections of a kind, and positions of a kind, in a stretch of the table that starts
    at position [i]. *)
Fixpoint live kind (i : Z) l : Z :=
  match l with
  | [] => 0
  | slot :: l => (if bool_decide (SlotIndex.kind i = kind) && bool_decide (is_Some slot) then 1 else 0)
                 + live kind (i + 1) l
  end.
Fixpoint spots kind (i : Z) (n : nat) : Z :=
  match n with
  | O => 0
  | S n => (if bool_decide (SlotIndex.kind i = kind) then 1 else 0) + spots kind (i + 1) n
  end.

Lemma live_app kind i l1 l2 : live kind i (l1 ++ l2) = live kind i l1 + live kind (i + len l1) l2.
Proof.
  revert i; induction l1 as [|s l1 IH]; intros i; [change (len []) with 0; by rewrite Z.add_0_r|].
  cbn [app live]. rewrite IH, len_cons. replace (i + 1 + len l1) with (i + (len l1 + 1)) by lia. lia.
Qed.

Lemma live_range kind i l : 0 <= live kind i l <= spots kind i (length l).
Proof.
  revert i; induction l as [|s l IH]; intros i; cbn [live spots length]; [lia|].
  specialize (IH (i + 1)). destruct (bool_decide (SlotIndex.kind i = kind)), (bool_decide (is_Some s)); cbn; lia.
Qed.

Lemma first_free_spec kind i l :
  match PeerSlots.first_free kind i l with
  | Some j => exists l1 l2, l = l1 ++ None :: l2 /\ j = i + len l1 /\ SlotIndex.kind j = kind
  | None => live kind i l = spots kind i (length l)
  end.
Proof.
  revert i; induction l as [|s l IH]; intros i; cbn [PeerSlots.first_free live spots length]; [done|].
  specialize (IH (i + 1)). case_bool_decide as Hk; cbn [andb].
  - destruct s as [c|]; cbn [negb].
    + rewrite bool_decide_true by done. cbn [negb andb].
      destruct (PeerSlots.first_free kind (i + 1) l) as [j|]; [|lia].
      destruct IH as (l1 & l2 & -> & -> & Hj). exists (Some c :: l1), l2. rewrite len_cons.
      split; [done|]. split; [lia|done].
    + rewrite bool_decide_false by (by intros []). cbn [negb]. exists [], l. split; [done|]. split; [unfold len; cbn; lia|done].
  - destruct (PeerSlots.first_free kind (i + 1) l) as [j|]; [|lia].
    destruct IH as (l1 & l2 & -> & -> & Hj). exists (s :: l1), l2. rewrite len_cons. split; [done|]. split; [lia|done].
Qed.

Lemma get_split {A} (l : list A) j x : get l j = Some x ->
  exists pre post, l = pre ++ x :: post /\ j = len pre /\ forall y, <[Z.to_nat j := y]> l = pre ++ y :: post.
Proof.
  intros Hg. pose proof (get_Some_range _ _ _ Hg). unfold get in Hg. destruct (Z.leb_spec 0 j); [|done].
  apply list_elem_of_split_length in Hg as (l1 & l2 & -> & Hl). exists l1, l2. split; [done|].
  split; [unfold len; lia|]. intros y. rewrite Hl. by rewrite insert_middle.
Qed.

(** ** The invariant *)

Record connection_ok (i : Z) (c : Connection) : Prop := mkConnectionOk {
  cok_index : cn_index c = i;
  cok_requests : Requests.ok (cn_requests c);
  cok_outbox : ob_max_bytes (cn_outbox c) = OUTBOX_MAX_BYTES;
}.

Record slots_ok self : Prop := mkSlotsOk {
  sok_len : len (ps_slots self) = PEER_SLOTS;
  sok_count kind : PeerSlots.occupied self kind = live kind 0 (ps_slots self);
  sok_connections i c : PeerSlots.connection self i = Some c -> connection_ok i c;
  sok_groups : NoDup (PeerSlots.outbound_netgroups self);
}.

(** The groups of a stretch of the table. *)
Definition groups (i : Z) l : list bytes :=
  omap (M:=list) (fun '(i, slot) => if bool_decide (SlotIndex.kind i = Outbound)
    then (fun c => netgroup (cn_address c)) <$> slot else None) (enumerate_from i l).

Lemma groups_app i l1 l2 : groups i (l1 ++ l2) = groups i l1 ++ groups (i + len l1) l2.
Proof.
  revert i; induction l1 as [|s l1 IH]; intros i; [unfold groups; cbn; by rewrite Z.add_0_r|].
  rewrite len_cons. replace (i + (len l1 + 1)) with (i + 1 + len l1) by lia.
  unfold groups in *. cbn [app enumerate_from omap list_omap]. rewrite IH.
  by destruct (if bool_decide _ then _ else _).
Qed.

(** The group of one slot. *)
Definition group_at (i : Z) (slot : option Connection) : list bytes :=
  match slot with
  | Some c => if bool_decide (SlotIndex.kind i = Outbound) then [netgroup (cn_address c)] else []
  | None => []
  end.

Lemma groups_middle i l1 s l2 : groups i (l1 ++ s :: l2) =
  groups i l1 ++ group_at (i + len l1) s ++ groups (i + len l1 + 1) l2.
Proof.
  rewrite groups_app. f_equal. unfold groups, group_at. cbn [enumerate_from omap list_omap].
  destruct s; cbn [fmap option_fmap option_map]; by destruct (bool_decide _).
Qed.

Lemma spots_capacity kind : spots kind 0 (Z.to_nat PEER_SLOTS) = PeerSlots.capacity kind.
Proof. by destruct kind; vm_compute. Qed.

(** A full side is what the counter says: [has_room] is exact. *)
Lemma occupied_bound self kind : slots_ok self -> 0 <= PeerSlots.occupied self kind <= PeerSlots.capacity kind.
Proof.
  intros Hok. rewrite (sok_count _ Hok). rewrite <-spots_capacity.
  replace (Z.to_nat PEER_SLOTS) with (length (ps_slots self)); [apply live_range|].
  pose proof (sok_len _ Hok). unfold len in *. lia.
Qed.

Lemma new_slots_ok : slots_ok PeerSlots.new.
Proof.
  split; [done|by intros []| |constructor].
  intros i c. unfold PeerSlots.connection. destruct (get (ps_slots PeerSlots.new) i) as [[c'|]|] eqn:Hg; [|done|done].
  apply get_elem in Hg. cbn [ps_slots PeerSlots.new] in Hg. apply list_elem_of_In, repeat_spec in Hg. done.
Qed.

(** Replacing one slot. *)
Lemma set_slot_ok self l1 old new l2 j : slots_ok self -> ps_slots self = l1 ++ old :: l2 -> j = len l1 ->
  (forall c, new = Some c -> connection_ok j c) ->
  let self' := PeerSlots.set_slot self j new in
  ps_slots self' = l1 ++ new :: l2 /\ len (ps_slots self') = PEER_SLOTS /\
  (forall i c, PeerSlots.connection self' i = Some c -> connection_ok i c) /\
  (forall i, PeerSlots.connection self' i = if decide (i = j) then new else PeerSlots.connection self i).
Proof.
  intros Hok Hs -> Hnew self'. pose proof (sok_len _ Hok) as Hlen. pose proof (len_nonneg l1). pose proof (len_nonneg l2).
  assert (Hin : 0 <= len l1 < len (ps_slots self)) by (rewrite Hs, len_app, len_cons; lia).
  assert (Hs' : ps_slots self' = l1 ++ new :: l2).
  { unfold self', PeerSlots.set_slot. cbn [ps_slots]. rewrite Hs. replace (Z.to_nat (len l1)) with (length l1) by (unfold len; lia).
    by rewrite insert_middle. }
  assert (Hconn : forall i, PeerSlots.connection self' i = if decide (i = len l1) then new else PeerSlots.connection self i).
  { intros i. unfold PeerSlots.connection, self', PeerSlots.set_slot. cbn [ps_slots]. rewrite get_insert by done.
    by case_decide. }
  split; [done|]. split; [by unfold self', PeerSlots.set_slot; cbn [ps_slots]; rewrite len_insert|]. split; [|done].
  intros i c. rewrite Hconn. case_decide as Hi; [subst; auto|]. apply (sok_connections _ Hok).
Qed.

Lemma fresh_connection_ok address now i : exists c, PeerSlots.connect (E:=E) address now i = Ok c /\ connection_ok i c /\
  cn_address c = address /\ cn_ready c = false /\ cn_ended c = None /\ cn_since c = now.
Proof.
  unfold PeerSlots.connect, Requests.new, Requests.with_bound, Outbox.with_bound. cbn. eexists. split; [done|].
  split; [|done]. split; [done| |done]. split; cbn; [done|done|constructor].
Qed.

(** [claim] gives the first free slot of the right side, and only says no when that side is
    full or the table is closing. *)
Lemma claim_ok self kind address now : slots_ok self ->
  (kind = Outbound -> netgroup address ∉ PeerSlots.outbound_netgroups self) ->
  exists self' o, PeerSlots.claim (E:=E) self kind address now = Ok (self', o) /\ slots_ok self' /\
    ps_closing self' = ps_closing self /\
    match o with
    | None => self' = self /\ (ps_closing self = true \/ PeerSlots.has_room self kind = false)
    | Some j => SlotIndex.kind j = kind /\ PeerSlots.has_room self kind = true /\
        PeerSlots.connection self j = None /\
        (exists c, PeerSlots.connection self' j = Some c /\ cn_address c = address /\ cn_since c = now) /\
        forall i, i <> j -> PeerSlots.connection self' i = PeerSlots.connection self i
    end.
Proof.
  intros Hok Hg. unfold PeerSlots.claim. destruct (ps_closing self) eqn:Hc.
  { exists self, None. split; [done|]. split; [done|]. split; [done|]. by auto. }
  pose proof (first_free_spec kind 0 (ps_slots self)) as Hff. pose proof (sok_len _ Hok) as Hlen.
  pose proof (occupied_bound self kind Hok) as Hob.
  assert (Hl32 : length (ps_slots self) = Z.to_nat PEER_SLOTS) by (unfold len in Hlen; lia).
  destruct (PeerSlots.first_free kind 0 (ps_slots self)) as [j|].
  2:{ exists self, None. split; [done|]. split; [done|]. split; [done|]. split; [done|]. right.
      unfold PeerSlots.has_room. rewrite (sok_count _ Hok), Hff, Hl32, spots_capacity. apply Z.ltb_irrefl. }
  destruct Hff as (l1 & l2 & Hs & Hj & Hkj). rewrite Z.add_0_l in Hj.
  destruct (fresh_connection_ok address now j) as (c & Hcn & Hcok & Hca & _ & _ & Hcs). rewrite Hcn. run.
  destruct (set_slot_ok self l1 None (Some c) l2 j Hok Hs Hj) as (Hs' & Hlen' & Hcs' & Hconn); [by intros ? [= <-]|].
  assert (Hlive : forall k, live k 0 (l1 ++ Some c :: l2) = live k 0 (ps_slots self) + (if decide (k = kind) then 1 else 0)).
  { intros k. rewrite Hs, !live_app. cbn [live]. rewrite Z.add_0_l, <-Hj.
    rewrite (bool_decide_true (is_Some (Some c))), (bool_decide_false (is_Some None)) by (done || by intros []).
    rewrite andb_true_r, andb_false_r, Hkj. case_decide; [rewrite bool_decide_true by done; lia|].
    rewrite bool_decide_false by done. lia. }
  assert (Hroom : PeerSlots.occupied self kind < PeerSlots.capacity kind).
  { rewrite <-spots_capacity, (sok_count _ Hok). pose proof (live_range kind 0 (l1 ++ Some c :: l2)) as Hr.
    rewrite Hlive, decide_True in Hr by done.
    replace (length (l1 ++ Some c :: l2)) with (Z.to_nat PEER_SLOTS) in Hr; [lia|].
    rewrite <-Hs'. unfold len in Hlen'. lia. }
  assert (Hcap : PeerSlots.capacity kind < 2 ^ 64) by (by destruct kind).
  exists (PeerSlots.count (PeerSlots.set_slot self j (Some c)) kind 1), (Some j).
  assert (Hcnt : ps_slots (PeerSlots.count (PeerSlots.set_slot self j (Some c)) kind 1) = l1 ++ Some c :: l2)
    by (by destruct kind).
  assert (Hcc : forall i, PeerSlots.connection (PeerSlots.count (PeerSlots.set_slot self j (Some c)) kind 1) i
      = PeerSlots.connection (PeerSlots.set_slot self j (Some c)) i) by (by destruct kind).
  split; [done|]. split; [split|].
  - rewrite Hcnt, <-Hs'. done.
  - intros k. rewrite Hcnt, Hlive, <-(sok_count _ Hok).
    destruct kind, k; cbn [PeerSlots.occupied PeerSlots.count ps_outbound ps_inbound PeerSlots.set_slot] in *;
      rewrite ?decide_True, ?decide_False by done; rewrite ?Z.mod_small by lia; lia.
  - intros i c'. rewrite Hcc. apply Hcs'.
  - change (NoDup (groups 0 (ps_slots (PeerSlots.count (PeerSlots.set_slot self j (Some c)) kind 1)))).
    pose proof (sok_groups _ Hok) as Hnd. change (NoDup (groups 0 (ps_slots self))) in Hnd.
    rewrite Hcnt, groups_middle, Z.add_0_l, <-Hj. rewrite Hs, groups_middle, Z.add_0_l, <-Hj in Hnd.
    cbn [group_at app] in *. rewrite Hkj. destruct kind; cbn [app]; [|done]. rewrite bool_decide_true by done.
    rewrite Hca. cbn [app]. rewrite <-Permutation_middle. apply NoDup_cons. split; [|done].
    intros Hin. apply (Hg eq_refl). change (netgroup address ∈ groups 0 (ps_slots self)).
    by rewrite Hs, groups_middle, Z.add_0_l, <-Hj.
  - split; [by destruct kind|]. split; [done|]. split; [by apply Z.ltb_lt|]. split.
    { unfold PeerSlots.connection. rewrite Hs, Hj, get_middle. done. }
    split; [exists c; rewrite Hcc, Hconn, decide_True by done; done|].
    intros i Hi. by rewrite Hcc, Hconn, decide_False by done.
Qed.

(** A thread that acts on the connection in a slot keeps its place and its address. *)
Definition keeps (f : Connection -> Connection) : Prop := forall i c, connection_ok i c ->
  connection_ok i (f c) /\ cn_address (f c) = cn_address c.

Lemma update_ok self j f : keeps f -> slots_ok self -> slots_ok (PeerSlots.update self j f).
Proof.
  intros Hf Hok. unfold PeerSlots.update. destruct (PeerSlots.connection self j) as [c|] eqn:Hc; [|done].
  pose proof (sok_connections _ Hok _ _ Hc) as Hcok. destruct (Hf _ _ Hcok) as [Hcok' Haddr].
  unfold PeerSlots.connection in Hc. destruct (get (ps_slots self) j) as [s|] eqn:Hg; [|done]. cbn in Hc. subst s.
  destruct (get_split _ _ _ Hg) as (l1 & l2 & Hs & Hj & _).
  destruct (set_slot_ok self l1 (Some c) (Some (f c)) l2 j Hok Hs Hj) as (Hs' & Hlen' & Hcs' & _); [by intros ? [= <-]|].
  split; [done| |done|].
  - intros k. rewrite Hs'. pose proof (sok_count _ Hok k) as Hk. rewrite Hs in Hk.
    assert (Heq : live k 0 (l1 ++ Some (f c) :: l2) = live k 0 (l1 ++ Some c :: l2)).
    { rewrite !live_app. cbn [live]. by rewrite !(bool_decide_true (is_Some (Some _))) by done. }
    rewrite Heq. by destruct k.
  - change (NoDup (groups 0 (ps_slots (PeerSlots.set_slot self j (Some (f c)))))).
    pose proof (sok_groups _ Hok) as Hnd. change (NoDup (groups 0 (ps_slots self))) in Hnd.
    rewrite Hs', groups_middle. rewrite Hs, groups_middle in Hnd. cbn [group_at] in *. by rewrite Haddr.
Qed.

Lemma release_ok self j : slots_ok self -> slots_ok (PeerSlots.release self j) /\
  PeerSlots.connection (PeerSlots.release self j) j = None.
Proof.
  intros Hok. unfold PeerSlots.release. destruct (get (ps_slots self) j) as [s|] eqn:Hg.
  2:{ split; [done|]. unfold PeerSlots.connection. by rewrite Hg. }
  destruct (get_split _ _ _ Hg) as (l1 & l2 & Hs & Hj & _).
  destruct (set_slot_ok self l1 s None l2 j Hok Hs Hj) as (Hs' & Hlen' & Hcs' & Hconn); [done|].
  set (self1 := PeerSlots.set_slot self j None) in *.
  set (self2 := if bool_decide (is_Some s) then PeerSlots.count self1 (SlotIndex.kind j) (-1) else self1).
  assert (Hs2 : ps_slots self2 = l1 ++ None :: l2).
  { rewrite <-Hs'. unfold self2. destruct (bool_decide _); [by destruct (SlotIndex.kind j)|done]. }
  assert (Hc2 : forall i, PeerSlots.connection self2 i = PeerSlots.connection self1 i).
  { intros i. unfold PeerSlots.connection. by rewrite Hs2, Hs'. }
  split; [split|rewrite Hc2, Hconn, decide_True by done; done].
  - rewrite Hs2, <-Hs'. done.
  - intros k. rewrite Hs2. pose proof (sok_count _ Hok k) as Hk. pose proof (occupied_bound self k Hok).
    assert (Hcap : PeerSlots.capacity k < 2 ^ 64) by (by destruct k).
    rewrite Hs in Hk. rewrite live_app in *. cbn [live] in *. rewrite Z.add_0_l, <-Hj in *.
    rewrite (bool_decide_false (is_Some None)), andb_false_r by (by intros []).
    pose proof (live_range k 0 l1). pose proof (live_range k (j + 1) l2).
    unfold self2. destruct s as [c|].
    + rewrite (bool_decide_true (is_Some (Some c))) in * by done. rewrite andb_true_r in Hk.
      destruct (SlotIndex.kind j), k; cbn [PeerSlots.occupied PeerSlots.count ps_outbound ps_inbound self1 PeerSlots.set_slot] in *;
        rewrite ?bool_decide_true, ?bool_decide_false in Hk by done; rewrite ?Z.mod_small by lia; lia.
    + rewrite (bool_decide_false (is_Some None)) in * by (by intros []). rewrite andb_false_r in Hk.
      destruct k; cbn [PeerSlots.occupied self1 PeerSlots.set_slot ps_outbound ps_inbound] in *; lia.
  - intros i c. rewrite Hc2. apply Hcs'.
  - change (NoDup (groups 0 (ps_slots self2))). pose proof (sok_groups _ Hok) as Hnd.
    change (NoDup (groups 0 (ps_slots self))) in Hnd. rewrite Hs2, groups_middle. rewrite Hs, groups_middle in Hnd.
    cbn [group_at app]. apply NoDup_app in Hnd as (Hn1 & Hn2 & (_ & _ & Hn3)%NoDup_app).
    apply NoDup_app. split; [done|]. split; [|done]. intros g Hg1 Hg2. apply (Hn2 g Hg1), elem_of_app. by right.
Qed.

Lemma live_fmap (f : Connection -> Connection) kind i l :
  live kind i ((fun slot : option Connection => f <$> slot) <$> l) = live kind i l.
Proof.
  revert i; induction l as [|s l IH]; intros i; [done|]. cbn [fmap list_fmap live]. rewrite IH. by destruct s.
Qed.

Lemma groups_fmap (f : Connection -> Connection) i l : (forall c, cn_address (f c) = cn_address c) ->
  groups i ((fun slot : option Connection => f <$> slot) <$> l) = groups i l.
Proof.
  intros Hf. revert i; induction l as [|s l IH]; intros i; [done|]. cbn [fmap list_fmap].
  rewrite !(groups_middle i [] _ _ : groups i (_ :: _) = _). rewrite IH. destruct s; [|done]. cbn. by rewrite Hf.
Qed.

Lemma disconnect_keeps reason : keeps (fun c => Connection.disconnect c reason).
Proof. intros i c [? ? ?]. split; [|done]. by split. Qed.

Lemma shutdown_ok self : slots_ok self -> slots_ok (fst (PeerSlots.shutdown_all self)).
Proof.
  intros [Hl Hc Hk Hg]. unfold PeerSlots.shutdown_all. split; cbn [fst ps_slots].
  - unfold len in *. by rewrite length_fmap.
  - intros kind. cbn [ps_slots]. rewrite live_fmap, <-Hc. by destruct kind.
  - intros i c. specialize (Hk i). unfold PeerSlots.connection, get in *. cbn [ps_slots].
    destruct (0 <=? i); [|done]. rewrite list_lookup_fmap.
    destruct (ps_slots self !! Z.to_nat i) as [[c'|]|]; cbn; intros; simplify_eq.
    apply disconnect_keeps. by apply Hk.
  - change (NoDup (groups 0 ((fun slot : option Connection => (fun c => Connection.disconnect c NodeStopping) <$> slot) <$> ps_slots self))).
    by rewrite groups_fmap.
Qed.

(** ** Every step of the threads *)

Inductive slot_step : PeerSlots -> PeerSlots -> Prop :=
| step_accept self self' address now configured :
    accept_one (E:=E) self address now configured = Ok self' -> slot_step self self'
| step_dial self self' address now connected :
    dial (E:=E) self address now connected = Ok self' -> slot_step self self'
| step_release self i : slot_step self (PeerSlots.release self i)
| step_act self i f : keeps f -> slot_step self (PeerSlots.update self i f)
| step_shutdown self : slot_step self (fst (PeerSlots.shutdown_all self)).

Lemma slot_step_ok self self' : slot_step self self' -> slots_ok self -> slots_ok self'.
Proof.
  destruct 1 as [self self' address now configured Ha|self self' address now connected Hd|self i|self i f Hf|self];
    intros Hok.
  - unfold accept_one in Ha. destruct (negb (PeerSlots.has_room self Inbound)); [by simplify_eq|].
    destruct (negb configured); [by simplify_eq|].
    destruct (claim_ok self Inbound address now Hok) as (s & o & Hc & Hs & _); [done|].
    rewrite Hc in Ha. cbn in Ha. by simplify_eq.
  - unfold dial in Hd. case_bool_decide as Hg; [by simplify_eq|]. destruct (negb connected); [by simplify_eq|].
    destruct (claim_ok self Outbound address now Hok) as (s & o & Hc & Hs & _); [done|].
    rewrite Hc in Hd. cbn in Hd. by simplify_eq.
  - by apply release_ok.
  - by apply update_ok.
  - by apply shutdown_ok.
Qed.

Lemma reachable_ok self : rtc slot_step PeerSlots.new self -> slots_ok self.
Proof.
  revert self. apply (rtc_ind_r slots_ok PeerSlots.new); [apply new_slots_ok|].
  intros y z _ Hs Hy. by eapply slot_step_ok.
Qed.


(**  A claim in any reachable table takes a free slot of the right side, leaves every other
    slot alone, and answers no exactly when the table is closing or that side is full: the
    counter that [has_room] reads is never wrong, and nobody is evicted. *)
Theorem claim_exact self address now : rtc slot_step PeerSlots.new self ->
  exists self' o, PeerSlots.claim (E:=E) self Inbound address now = Ok (self', o) /\
    match o with
    | None => self' = self /\ (ps_closing self = true \/ PeerSlots.has_room self Inbound = false)
    | Some j => SlotIndex.kind j = Inbound /\ PeerSlots.has_room self Inbound = true /\
        PeerSlots.connection self j = None /\ is_Some (PeerSlots.connection self' j) /\
        forall i, i <> j -> PeerSlots.connection self' i = PeerSlots.connection self i
    end.
Proof.
  intros Hr. destruct (claim_ok self Inbound address now (reachable_ok _ Hr)) as (self' & o & Hc & _ & _ & Ho); [done|].
  exists self', o. split; [done|]. destruct o as [j|]; [|done].
  destruct Ho as (? & ? & ? & (c & -> & _) & ?). by repeat split.
Qed.
End table.

(** ** Witness: two addresses of one group, dialled one after the other *)

Definition slots_address (a b c d : byte) : SocketAddr := mkSocketAddr (V4 [a; b; c; d]) 8333.
Definition slots_run : outcome Empty_set PeerSlots :=
  s ← dial PeerSlots.new (slots_address x01 x02 x03 x04) 1 true;
  s ← dial s (slots_address x01 x02 x09 x09) 2 true;
  s ← dial s (slots_address x05 x06 x07 x08) 3 true;
  accept_one s (slots_address x01 x02 x03 x05) 4 true.
Definition slots_after : PeerSlots := match slots_run with Ok s => s | _ => PeerSlots.new end.

Lemma slots_reachable : rtc (slot_step (E:=Empty_set)) PeerSlots.new slots_after.
Proof.
  eapply rtc_l; [eapply (step_dial _ _ (slots_address x01 x02 x03 x04) 1 true); vm_compute; reflexivity|].
  eapply rtc_l; [eapply (step_dial _ _ (slots_address x01 x02 x09 x09) 2 true); vm_compute; reflexivity|].
  eapply rtc_l; [eapply (step_dial _ _ (slots_address x05 x06 x07 x08) 3 true); vm_compute; reflexivity|].
  eapply rtc_l; [eapply (step_accept _ _ (slots_address x01 x02 x03 x05) 4 true); vm_compute; reflexivity|].
  apply rtc_refl.
Qed.


Lemma claim_exact_witness : exists self' o,
  PeerSlots.claim (E:=Empty_set) slots_after Inbound (slots_address x07 x07 x07 x07) 5 = Ok (self', o) /\
    match o with
    | None => self' = slots_after /\ (ps_closing slots_after = true \/ PeerSlots.has_room slots_after Inbound = false)
    | Some j => SlotIndex.kind j = Inbound /\ PeerSlots.has_room slots_after Inbound = true /\
        PeerSlots.connection slots_after j = None /\ is_Some (PeerSlots.connection self' j) /\
        forall i, i <> j -> PeerSlots.connection self' i = PeerSlots.connection slots_after i
    end.
Proof. apply (claim_exact (E:=Empty_set) slots_after (slots_address x07 x07 x07 x07) 5 slots_reachable). Defined.
