(* ===== verification/Handshake.v ===== *)
(** * Handshake: the [version]/[verack] exchange ([peer/handshake.rs])

    The clock is an argument: [now] is the monotonic clock of [Instant], and [unix] the
    nanoseconds since the epoch of [SystemTime]. *)
From Stdlib Require Import Strings.String.
From S2P Require Import Prelude Bitcoin Flags Params Header Tx Block Message Wire PeerQueues Slots.

(** [peer/mod.rs]: the crate's version is the workspace's. *)
Definition USER_AGENT : bytes := String.list_byte_of_string "/bitmigo:0.1.0/"%string.

Definition local_services : Z :=
  ServiceFlags.add (ServiceFlags.add ServiceFlags.NETWORK ServiceFlags.WITNESS) ServiceFlags.NETWORK_LIMITED.
Definition desirable_services : Z := ServiceFlags.add ServiceFlags.NETWORK ServiceFlags.WITNESS.

Definition unix_seconds (unix : Z) : Z := Z.min (Z.max 0 unix / 1000000000) (2 ^ 63 - 1).
Definition unroutable : SocketAddr := mkSocketAddr (V4 [x00; x00; x00; x00]) 0.

Definition nonce (unix : Z) : Z :=
  let low := Z.max 0 unix mod 2 ^ 64 in
  let state := (low + 0x9e3779b97f4a7c15) mod 2 ^ 64 in
  let mixed := Z.lxor state (Z.shiftr state 30) in
  let mixed := (mixed * 0xbf58476d1ce4e5b9) mod 2 ^ 64 in
  let mixed := Z.lxor mixed (Z.shiftr mixed 27) in
  let mixed := (mixed * 0x94d049bb133111eb) mod 2 ^ 64 in
  Z.lxor mixed (Z.shiftr mixed 31).

Module HStage.
Inductive Stage := AwaitingVersion | AwaitingVerack | Ready.
End HStage.

Record Handshake := mkHandshake {
  hs_kind : SlotKind;
  hs_stage : HStage.Stage;
  hs_nonce : Z;
  hs_peer : SocketAddr;
  hs_start_height : Z;
  hs_started : Z;
  hs_peer_version : Z;
  hs_peer_services : Z;
  hs_peer_user_agent : bytes;
}.

Module Handshake.
Section exchange.
Context `{P2p}.
Implicit Types (self : Handshake).

Definition new (kind : SlotKind) (nonce : Z) (peer : SocketAddr) (start_height now : Z) : Handshake :=
  mkHandshake kind HStage.AwaitingVersion nonce peer start_height now 0 ServiceFlags.NONE [].

Definition our_version self (unix : Z) : NetworkMessage :=
  let services := local_services in
  MVersion (mkVersionMessage PROTOCOL_VERSION services (unix_seconds unix)
    (address_new (hs_peer self) ServiceFlags.NONE) (address_new unroutable services)
    (hs_nonce self) USER_AGENT (hs_start_height self) false).

Definition with_stage self (stage : HStage.Stage) : Handshake :=
  mkHandshake (hs_kind self) stage (hs_nonce self) (hs_peer self) (hs_start_height self) (hs_started self)
    (hs_peer_version self) (hs_peer_services self) (hs_peer_user_agent self).

(** The rules of [version]: the three refusals, then the reply. *)
Definition version self (version : VersionMessage) (unix : Z)
    : Handshake * outcome Disconnect (list NetworkMessage) :=
  if v_version version <? MIN_PEER_PROTO_VERSION then (self, Err (ObsoleteVersion (v_version version)))
  else if bool_decide (hs_kind self = Inbound) && (v_nonce version =? hs_nonce self) && negb (hs_nonce self =? 0)
  then (self, Err ConnectedToSelf)
  else
    let wanted := desirable_services in
    if bool_decide (hs_kind self = Outbound) && negb (ServiceFlags.has (v_services version) wanted)
    then (self, Err (MissingServices (v_services version) wanted))
    else
      let self := mkHandshake (hs_kind self) HStage.AwaitingVerack (hs_nonce self) (hs_peer self)
        (hs_start_height self) (hs_started self) (v_version version) (v_services version) (v_user_agent version) in
      let replies := if bool_decide (hs_kind self = Inbound) then [our_version self unix] else [] in
      (self, Ok (replies ++ [MVerack])).

Definition receive self (message : NetworkMessage) (unix : Z)
    : Handshake * outcome Disconnect (list NetworkMessage) :=
  match hs_stage self, message with
  | HStage.AwaitingVersion, MVersion v => version self v unix
  | HStage.AwaitingVerack, MVerack => (with_stage self HStage.Ready, Ok [])
  | HStage.Ready, (MWtxidRelay | MSendAddrV2) => (self, Err (NegotiationAfterVerack (cmd message)))
  | _, MUnknown command _ =>
      if bool_decide (command = String.list_byte_of_string "sendtxrcncl"%string) then (self, Err TransactionRelay)
      else (self, Ok [])
  | _, _ => (self, Ok [])
  end.

Definition is_ready self : bool := match hs_stage self with HStage.Ready => true | _ => false end.
Definition timed_out self (now : Z) : bool := negb (is_ready self) && (HANDSHAKE_TIMEOUT <? now - hs_started self).

(** ** What the exchange admits *)

(** Feeding the messages one by one, until a refusal. *)
Fixpoint feed self (unix : Z) (messages : list NetworkMessage) : outcome Disconnect (Handshake * list NetworkMessage) :=
  match messages with
  | [] => Ok (self, [])
  | m :: messages =>
      let (self, r) := receive self m unix in
      replies ← r;
      '(self, rest) ← feed self unix messages;
      Ok (self, replies ++ rest)
  end.

(** The peer's [version] is one this connection takes. *)
Definition acceptable (kind : SlotKind) (our_nonce : Z) (v : VersionMessage) : Prop :=
  MIN_PEER_PROTO_VERSION <= v_version v /\
  (kind = Inbound -> our_nonce <> 0 -> v_nonce v <> our_nonce) /\
  (kind = Outbound -> ServiceFlags.has (v_services v) desirable_services = true).

Definition is_version (m : NetworkMessage) : bool := match m with MVersion _ => true | _ => false end.
Definition is_verack (m : NetworkMessage) : bool := match m with MVerack => true | _ => false end.

Lemma version_Ok self v unix self' replies : version self v unix = (self', Ok replies) ->
  acceptable (hs_kind self) (hs_nonce self) v /\ hs_stage self' = HStage.AwaitingVerack /\
  hs_kind self' = hs_kind self /\ hs_peer_services self' = v_services v /\ hs_peer_version self' = v_version v /\
  replies = (if decide (hs_kind self = Inbound) then [our_version self' unix] else []) ++ [MVerack].
Proof.
  unfold version. destruct (Z.ltb_spec (v_version v) MIN_PEER_PROTO_VERSION); [by intros [= <-]|].
  destruct (bool_decide (hs_kind self = Inbound) && _ && _) eqn:Hself; [by intros [= <-]|].
  destruct (bool_decide (hs_kind self = Outbound) && _) eqn:Hserv; [by intros [= <-]|].
  intros [= <- <-]. split; [|split; [done|split; [done|split; [done|split; [done|]]]]].
  - split; [done|]. split.
    + intros Hk Hn Heq. rewrite bool_decide_true in Hself by done.
      rewrite Heq, Z.eqb_refl, (proj2 (Z.eqb_neq (hs_nonce self) 0)) in Hself by done. done.
    + intros Hk. rewrite bool_decide_true in Hserv by done. by destruct (ServiceFlags.has _ _).
  - cbn [hs_kind]. destruct (decide (hs_kind self = Inbound));
      [by rewrite (bool_decide_true (hs_kind self = Inbound))|by rewrite (bool_decide_false (hs_kind self = Inbound))].
Qed.

(** Each stage, and what one message does to it. *)
Lemma receive_stage self m unix self' replies : receive self m unix = (self', Ok replies) ->
  hs_kind self' = hs_kind self /\ hs_nonce self' = hs_nonce self /\
  match hs_stage self, m with
  | HStage.AwaitingVersion, MVersion v => acceptable (hs_kind self) (hs_nonce self) v /\
      hs_stage self' = HStage.AwaitingVerack /\ hs_peer_services self' = v_services v
  | HStage.AwaitingVerack, MVerack => hs_stage self' = HStage.Ready /\ hs_peer_services self' = hs_peer_services self /\ replies = []
  | _, _ => self' = self /\ replies = []
  end.
Proof.
  unfold receive. intros Hr.
  assert (Hv : forall v, version self v unix = (self', Ok replies) -> hs_kind self' = hs_kind self /\ hs_nonce self' = hs_nonce self /\
    acceptable (hs_kind self) (hs_nonce self) v /\ hs_stage self' = HStage.AwaitingVerack /\ hs_peer_services self' = v_services v).
  { intros v Hv. pose proof (version_Ok _ _ _ _ _ Hv) as (? & ? & ? & ? & _). split; [done|]. split; [|done].
    unfold version in Hv. repeat case_match; by simplify_eq. }
  destruct (hs_stage self), m; try (apply Hv in Hr; naive_solver); repeat case_match; by simplify_eq.
Qed.

Lemma feed_cons self unix m ms self' replies : feed self unix (m :: ms) = Ok (self', replies) ->
  exists self1 r1 r2, receive self m unix = (self1, Ok r1) /\ feed self1 unix ms = Ok (self', r2) /\ replies = r1 ++ r2.
Proof.
  cbn [feed]. destruct (receive self m unix) as [self1 r] eqn:Hrec. intros Hf. inv_ok. destruct x0 as [s2 r2].
  cbn in Hf. inv_ok. by exists self1, x, r2.
Qed.

Lemma feed_ready self unix ms self' replies : hs_stage self = HStage.Ready ->
  feed self unix ms = Ok (self', replies) -> self' = self.
Proof.
  revert self replies; induction ms as [|m ms IH]; intros self replies Hs Hf; [by injection Hf as <- <-|].
  apply feed_cons in Hf as (self1 & r1 & r2 & (_ & _ & Hrec)%receive_stage & Hf & ->).
  rewrite Hs in Hrec. destruct Hrec as [-> _]. by eapply IH.
Qed.

Lemma feed_verack self unix ms self' replies : hs_stage self = HStage.AwaitingVerack ->
  feed self unix ms = Ok (self', replies) -> is_ready self' = true ->
  exists between after, ms = between ++ MVerack :: after /\
    Forall (fun m => is_verack m = false) between /\ hs_peer_services self' = hs_peer_services self.
Proof.
  revert self replies; induction ms as [|m ms IH]; intros self replies Hs Hf Hr.
  { injection Hf as <- <-. unfold is_ready in Hr. by rewrite Hs in Hr. }
  apply feed_cons in Hf as (self1 & r1 & r2 & (_ & _ & Hrec)%receive_stage & Hf & ->). rewrite Hs in Hrec.
  destruct (is_verack m) eqn:Hm.
  - destruct m; try done. destruct Hrec as (Hst & Hsv & _). exists [], ms. split; [done|]. split; [constructor|].
    by rewrite (feed_ready _ _ _ _ _ Hst Hf).
  - assert (self1 = self) as -> by (destruct m; try done; by destruct Hrec).
    destruct (IH self r2 Hs Hf Hr) as (between & after & -> & HF & Hsv).
    exists (m :: between), after. split; [done|]. split; [by constructor|done].
Qed.

(**  The handshake admits exactly the peers it should: after any messages that did not end
    the connection, it is ready only if an acceptable [version] (recent enough, not this node's
    own nonce on a connection it accepted, with the services it needs on one it dialled) was
    followed, later, by a [verack]; and the services it reports are that [version]'s. *)
Theorem handshake_sound self unix messages self' replies :
  hs_stage self = HStage.AwaitingVersion -> feed self unix messages = Ok (self', replies) ->
  is_ready self' = true ->
  exists before v between after, messages = before ++ MVersion v :: between ++ MVerack :: after /\
    Forall (fun m => is_version m = false) before /\ Forall (fun m => is_verack m = false) between /\
    acceptable (hs_kind self) (hs_nonce self) v /\ hs_peer_services self' = v_services v.
Proof.
  revert self replies; induction messages as [|m ms IH]; intros self replies Hs Hf Hr.
  { injection Hf as <- <-. unfold is_ready in Hr. by rewrite Hs in Hr. }
  apply feed_cons in Hf as (self1 & r1 & r2 & (_ & _ & Hrec)%receive_stage & Hf & ->). rewrite Hs in Hrec.
  destruct (is_version m) eqn:Hm.
  - destruct m as [v| | | | | | | | | | | | | | | | | | | | | | | | | | ]; try done. destruct Hrec as (Hacc & Hst & Hsv).
    destruct (feed_verack _ _ _ _ _ Hst Hf Hr) as (between & after & -> & HF & Hsv').
    exists [], v, between, after. split; [done|]. split; [constructor|]. split; [done|]. split; [done|congruence].
  - assert (self1 = self) as -> by (destruct m; try done; by destruct Hrec).
    destruct (IH self r2 Hs Hf Hr) as (before & v & between & after & -> & HF & ?).
    exists (m :: before), v, between, after. split; [done|]. split; [by constructor|done].
Qed.
End exchange.

(** A peer that dialled this node, sends [sendaddrv2] early and its [verack] after it. *)
#[local] Instance hs_p2p : P2p := {|
  serialize_raw _ _ := [];
  deserialize_raw _ := None;
  cmd _ := [];
  address_new a services := mkAddress services [] (sa_port a);
|}.
Definition hs_self : Handshake := new Inbound 7 unroutable 0 0.
Definition hs_version : VersionMessage :=
  mkVersionMessage 70016 1033 0 (mkAddress 0 [] 0) (mkAddress 0 [] 0) 8 [] 100 true.
Definition hs_messages : list NetworkMessage := [MVerack; MVersion hs_version; MSendAddrV2; MVerack; MGetAddr].

Lemma handshake_sound_witness : exists self' replies,
  feed hs_self 0 hs_messages = Ok (self', replies) /\ is_ready self' = true /\
  exists before v between after, hs_messages = before ++ MVersion v :: between ++ MVerack :: after /\
    Forall (fun m => is_version m = false) before /\ Forall (fun m => is_verack m = false) between /\
    acceptable Inbound 7 v /\ hs_peer_services self' = v_services v.
Proof.
  eexists _, _. split; [vm_compute; reflexivity|]. split; [reflexivity|].
  eapply (handshake_sound hs_self 0 hs_messages); [reflexivity|vm_compute; reflexivity|reflexivity].
Defined.
End Handshake.
