(* ===== verification/Session.v ===== *)
(** * Session: one connection, from its first message to the reason it ended
    ([peer/session.rs], and the reader's loop in [peer/net.rs])

    The session owns its connection.  What it hands to the chain thread is the list
    [ss_forwarded]; the blocking send returns when there is room or when the queue was closed
    ([Channel.v]), so that all the session sees of the queue is whether it was closed. *)
From S2P Require Import Prelude Bitcoin Flags Params Header SigScript Checker Tx Block Message Wire PeerQueues Channel Slots Handshake.

(** What the environment gives one call: the clocks, and whether the queue to the chain thread
    was closed. *)
Record Env := mkEnv { env_now : Z; env_unix : Z; env_closed : bool }.

(** The parts of [Shared] that a session reads. *)
Record SharedView := mkShared { sh_magic : bytes; sh_params : ChainParams; sh_tip_height : Z }.

Record Session := mkSession {
  ss_connection : Connection;
  ss_handshake : Handshake;
  ss_last_received : Z;
  ss_last_ping_sent : Z;
  ss_outstanding_ping : option (Z * Z);
  ss_received : Z;
  ss_forwarded : list PeerMessage;
}.

Module Session.
Section session.
Context `{Hashes} `{Encoding} `{BitcoinCrate} `{Secp256k1} `{OutPointOrder} `{P2p} `{Sizes}.
Context (shared : SharedView).
Implicit Types (self : Session) (env : Env).

Definition result : Type := Session * outcome Disconnect unit.
(** [?]: go on from the state a call left, unless it failed. *)
Definition andthen (r : result) (k : Session -> result) : result :=
  match r with (self, Ok _) => k self | (self, e) => (self, e) end.

Definition with_connection self (c : Connection) : Session :=
  mkSession c (ss_handshake self) (ss_last_received self) (ss_last_ping_sent self) (ss_outstanding_ping self)
    (ss_received self) (ss_forwarded self).
Definition with_handshake self (h : Handshake) : Session :=
  mkSession (ss_connection self) h (ss_last_received self) (ss_last_ping_sent self) (ss_outstanding_ping self)
    (ss_received self) (ss_forwarded self).
Definition with_ping self (sent : Z) (ping : option (Z * Z)) : Session :=
  mkSession (ss_connection self) (ss_handshake self) (ss_last_received self) sent ping (ss_received self)
    (ss_forwarded self).

(** [i32::try_from(height).unwrap_or(i32::MAX)]. *)
Definition start_height : Z := Z.min (sh_tip_height shared) (2 ^ 31 - 1).

Definition new (connection : Connection) env : Session :=
  mkSession connection
    (Handshake.new (SlotIndex.kind (cn_index connection)) (nonce (env_unix env)) (cn_address connection)
       start_height (env_now env))
    (env_now env) (env_now env) None 0 [].

Definition send self (message : NetworkMessage) : result :=
  match encode (E:=Disconnect) (sh_magic shared) message with
  | Ok frame =>
      let (outbox, r) := Outbox.push (cn_outbox (ss_connection self)) frame in
      (with_connection self (Connection.with_outbox (ss_connection self) outbox), map_err (fun _ => DOutboxFull) r)
  | Err e => (self, Err e)
  | Panic => (self, Panic)
  end.

Definition open self env : result :=
  if negb (bool_decide (SlotIndex.kind (cn_index (ss_connection self)) = Outbound)) then (self, Ok tt)
  else send self (Handshake.our_version (ss_handshake self) (env_unix env)).

Definition cap self : Z :=
  if 0 <? Requests.outstanding (cn_requests (ss_connection self)) then MAX_MESSAGE_LEN else READ_CAP_IDLE.

Definition tick self env : result :=
  if Handshake.timed_out (ss_handshake self) (env_now env) then (self, Err HandshakeTimeout)
  else if negb (Handshake.is_ready (ss_handshake self)) then (self, Ok tt)
  else
    andthen
      match ss_outstanding_ping self with
      | Some (_, sent) => if PEER_TIMEOUT <? env_now env - sent then (self, Err PingTimeout) else (self, Ok tt)
      | None =>
          if PING_INTERVAL <? env_now env - ss_last_ping_sent self then
            let n := nonce (env_unix env) in
            andthen (send self (MPing n)) (fun self =>
              (with_ping self (env_now env) (Some (n, env_now env)), Ok tt))
          else (self, Ok tt)
      end (fun self =>
      if PEER_TIMEOUT <? env_now env - ss_last_received self then (self, Err Silent) else (self, Ok tt)).

Definition forward self env (message : NetworkMessage) (wire_len : Z) : result :=
  if env_closed env then (self, Err NodeStopping)
  else
    let queued := new_peer_message (cn_index (ss_connection self)) message wire_len in
    (mkSession (ss_connection self) (ss_handshake self) (ss_last_received self) (ss_last_ping_sent self)
       (ss_outstanding_ping self) (ss_received self) (ss_forwarded self ++ [queued]), Ok tt).

Definition block self env (block : Block) (wire_len : Z) : result :=
  let hash := block_hash (blk_header block) in
  match Requests.take (cn_requests (ss_connection self)) hash with
  | (_, None) => (self, Err (UnrequestedBlock hash))
  | (requests, Some request) =>
      let self := with_connection self (Connection.with_requests (ss_connection self) requests) in
      match (assert_ (bool_decide (req_hash request = hash));;
             map_err InvalidBlock (check_block block (sh_params shared));;
             map_err InvalidBlock (accept_block block (req_context request))) with
      | Ok _ => forward self env (MBlock block) wire_len
      | e => (self, e)
      end
  end.

Definition headers self env (headers : list Header) (wire_len : Z) : result :=
  match foldM (fun _ header => map_err InvalidHeader (check_header header (sh_params shared))) tt headers with
  | Ok _ => forward self env (MHeaders headers) wire_len
  | e => (self, e)
  end.

Definition is_transaction (item : Inventory) : bool :=
  match item with InvTransaction _ | InvWitnessTransaction _ | InvWTx _ => true | _ => false end.

Definition inventory self env (items : list Inventory) (wire_len : Z) : result :=
  if existsb is_transaction items then (self, Err TransactionRelay)
  else forward self env (MInv items) wire_len.

Definition dispatch self env (message : NetworkMessage) (wire_len : Z) : result :=
  match message with
  | MPing n => send self (MPong n)
  | MPong n =>
      (match ss_outstanding_ping self with
       | Some (sent, _) => if sent =? n then with_ping self (ss_last_ping_sent self) None else self
       | None => self
       end, Ok tt)
  | MBlock b => block self env b wire_len
  | MHeaders hs => headers self env hs wire_len
  | MInv items => inventory self env items wire_len
  | MGetHeaders _ | MGetData _ | MNotFound _ | MGetAddr | MAddr _ | MAddrV2 _ => forward self env message wire_len
  | MTx _ => (self, Err TransactionRelay)
  | MMemPool => (self, Err DMempool)
  | MFilterLoad _ | MFilterAdd _ | MFilterClear => (self, Err BloomFilter)
  | MGetCFilters _ | MGetCFHeaders _ | MGetCFCheckpt _ => (self, Err CompactFilter)
  | _ => (self, Ok tt)
  end.

(** [for reply in replies { self.send(reply)?; }] *)
Fixpoint send_all self (replies : list NetworkMessage) : result :=
  match replies with
  | [] => (self, Ok tt)
  | reply :: replies => andthen (send self reply) (fun self => send_all self replies)
  end.

Definition receive self env (message : NetworkMessage) (wire_len : Z) : result :=
  let self := mkSession (ss_connection self) (ss_handshake self) (env_now env) (ss_last_ping_sent self)
    (ss_outstanding_ping self) (saturating_add (ss_received self) 1) (ss_forwarded self) in
  let was_ready := Handshake.is_ready (ss_handshake self) in
  let (handshake, replies) := Handshake.receive (ss_handshake self) message (env_unix env) in
  let self := with_handshake self handshake in
  match replies with
  | Err e => (self, Err e)
  | Panic => (self, Panic)
  | Ok replies =>
      andthen (send_all self replies) (fun self =>
      if negb (Handshake.is_ready (ss_handshake self)) then (self, Ok tt)
      else
        let self :=
          if was_ready then self
          else with_connection self (Connection.mark_ready
                 (Connection.set_services (ss_connection self) (hs_peer_services (ss_handshake self)))) in
        dispatch self env message wire_len)
  end.

(** ** The reader's loop *)

(** One turn of [serve]: [stopping] is the shutdown flag or the closing table, [incoming] what
    the socket gave and [stopped] the flag again after a read that gave nothing; the result is
    the reason the connection ends, if it does. *)
Definition serve_turn self (framer : Framer) env (stopping : bool) (incoming : Incoming) (stopped : bool)
    : Session * Framer * outcome Empty_set (option Disconnect) :=
  if stopping then (self, framer, Ok (Some NodeStopping))
  else if Outbox.is_closed (cn_outbox (ss_connection self)) then (self, framer, Ok (Some DOutboxFull))
  else match tick self env with
  | (self, Err reason) => (self, framer, Ok (Some reason))
  | (self, Panic) => (self, framer, Panic)
  | (self, Ok _) =>
      match Framer.read framer (env_now env) incoming (cap self) with
      | (framer, Ok (FMessage message wire_len)) =>
          match receive self env message wire_len with
          | (self, Err reason) => (self, framer, Ok (Some reason))
          | (self, Ok _) => (self, framer, Ok None)
          | (self, Panic) => (self, framer, Panic)
          end
      | (framer, Ok FIdle) => (self, framer, Ok None)
      | (framer, Ok FEof) => (self, framer, Ok (Some (if stopped then NodeStopping else PeerClosed)))
      | (framer, Err error) => (self, framer, Ok (Some (DWire error)))
      | (framer, Panic) => (self, framer, Panic)
      end
  end.

(** [end]: the first reason recorded is the one that stands, and what the peer owed is given
    up. *)
Definition end_ self (reason : Disconnect) : Session * Disconnect * Z :=
  let reason := default reason (Connection.ended (ss_connection self)) in
  let connection := Connection.disconnect (ss_connection self) reason in
  let (requests, given_up) := Requests.clear (cn_requests connection) in
  (with_connection self (Connection.with_requests connection requests), reason, given_up).
End session.
End Session.
