(* ===== verification/SessionProofs.v ===== *)
(** * SessionProofs: what a session lets through, when it gives up, and that it never panics *)
From S2P Require Import Prelude Uint Target Bitcoin Flags Params Header Script SigScript Interpreter Sighash SighashProofs Checker Verify Sigops Tx TxProofs Merkle Signet SignetProofs Block BlockProofs Message Wire WireProofs WireTheorems PeerQueues Channel Slots Handshake Session.

(** ** Frame lemmas: what each operation leaves alone *)
Section frames.
Context `{Hashes} `{Encoding} `{BitcoinCrate} `{Secp256k1} `{OutPointOrder} `{P2p} `{Sizes}.
Context (shared : SharedView).
Implicit Types (self : Session) (env : Env).

(** A step that touches neither the requests nor what was forwarded. *)
Definition keeps_ledger self self' : Prop :=
  cn_requests (ss_connection self') = cn_requests (ss_connection self) /\
  ss_forwarded self' = ss_forwarded self.

Lemma keeps_trans a b c : keeps_ledger a b -> keeps_ledger b c -> keeps_ledger a c.
Proof. intros [? ?] [? ?]. split; congruence. Qed.

Lemma send_keeps self m : keeps_ledger self (fst (Session.send shared self m)) /\
  ss_handshake (fst (Session.send shared self m)) = ss_handshake self /\
  ss_last_received (fst (Session.send shared self m)) = ss_last_received self.
Proof. unfold Session.send. destruct (encode _ _); [destruct (Outbox.push _ _)| |]; done. Qed.

Lemma send_all_keeps self ms : keeps_ledger self (fst (Session.send_all shared self ms)) /\
  ss_handshake (fst (Session.send_all shared self ms)) = ss_handshake self.
Proof.
  revert self; induction ms as [|m ms IH]; intros self; [done|]. cbn [Session.send_all]. unfold Session.andthen.
  destruct (Session.send shared self m) as [self1 r] eqn:Hs.
  pose proof (send_keeps self m) as (Hk & Hh & _). rewrite Hs in *. cbn [fst] in *.
  destruct r; [|done|done]. destruct (IH self1) as [Hk' Hh']. split; [by eapply keeps_trans|congruence].
Qed.

Lemma tick_keeps self env : keeps_ledger self (fst (Session.tick shared self env)).
Proof.
  unfold Session.tick, Session.andthen. destruct (Handshake.timed_out _ _); [done|].
  destruct (negb _); [done|]. destruct (ss_outstanding_ping self) as [[n sent]|].
  - destruct (_ <? _); [done|]. by destruct (_ <? _).
  - destruct (_ <? _); [|by destruct (_ <? _)].
    destruct (Session.send shared self (MPing (nonce (env_unix env)))) as [self1 r] eqn:Hs.
    pose proof (send_keeps self (MPing (nonce (env_unix env)))) as (Hk & _ & _). rewrite Hs in Hk. cbn [fst] in Hk.
    destruct r; [|done|done]. by destruct (_ <? _).
Qed.

(** ** Timeouts *)

(**  The clocks of a connection, as its reader checks them once a turn: a turn that goes on
    means that an unfinished handshake is at most a minute old, that an unanswered ping is at most
    twenty minutes old, and that a whole message arrived within the last twenty minutes; and a
    connection past one of these is ended by that very turn. *)
Theorem tick_bounds self env self' r : Session.tick shared self env = (self', r) ->
  (r = Ok tt ->
     if Handshake.is_ready (ss_handshake self)
     then (forall n sent, ss_outstanding_ping self = Some (n, sent) -> env_now env - sent <= PEER_TIMEOUT) /\
          env_now env - ss_last_received self <= PEER_TIMEOUT
     else env_now env - hs_started (ss_handshake self) <= HANDSHAKE_TIMEOUT) /\
  (Handshake.is_ready (ss_handshake self) = false -> HANDSHAKE_TIMEOUT < env_now env - hs_started (ss_handshake self) ->
     r = Err HandshakeTimeout) /\
  (Handshake.is_ready (ss_handshake self) = true -> PEER_TIMEOUT < env_now env - ss_last_received self -> r <> Ok tt).
Proof.
  unfold Session.tick, Handshake.timed_out, Session.andthen.
  assert (Hlast : forall s r0, (if PEER_TIMEOUT <? env_now env - ss_last_received self then (s, Err Silent) else (s, Ok tt)) = (self', r0) ->
    (r0 = Ok tt -> env_now env - ss_last_received self <= PEER_TIMEOUT) /\ (PEER_TIMEOUT < env_now env - ss_last_received self -> r0 <> Ok tt)).
  { intros s r0. destruct (Z.ltb_spec PEER_TIMEOUT (env_now env - ss_last_received self)); intros [= <- <-]; split; intros; (done || lia). }
  destruct (Handshake.is_ready (ss_handshake self)); cbn [negb andb].
  2:{ destruct (Z.ltb_spec HANDSHAKE_TIMEOUT (env_now env - hs_started (ss_handshake self))); intros [= <- <-];
      split; [done|by split|done|split; intros; [lia|done]]. }
  destruct (ss_outstanding_ping self) as [[n sent]|].
  - destruct (Z.ltb_spec PEER_TIMEOUT (env_now env - sent)); [by intros [= <- <-]|].
    intros [Hl1 Hl2]%Hlast. split; [|done]. intros Hr. split; [|by apply Hl1]. intros; by simplify_eq.
  - destruct (PING_INTERVAL <? _).
    + destruct (Session.send shared self (MPing (nonce (env_unix env)))) as [self1 r1] eqn:Hs.
      pose proof (send_keeps self (MPing (nonce (env_unix env)))) as (_ & _ & Hl). rewrite Hs in Hl. cbn [fst] in Hl.
      destruct r1; [|by intros [= <- <-]|by intros [= <- <-]]. cbn [ss_last_received Session.with_ping]. rewrite Hl.
      intros [Hl1 Hl2]%Hlast. split; [|done]. intros Hr. split; [done|by apply Hl1].
    + intros [Hl1 Hl2]%Hlast. split; [|done]. intros Hr. split; [done|by apply Hl1].
Qed.

(** ** What reaches the chain thread *)

(** The hashes of the blocks that were forwarded. *)
Definition block_hash_of (pm : PeerMessage) : option bytes :=
  match pm_message pm with MBlock b => Some (block_hash (blk_header b)) | _ => None end.
Definition forwarded_blocks self : list bytes := omap block_hash_of (ss_forwarded self).

(** The receipt-time checks that a forwarded message has passed, against the requests made. *)
Definition vetted (asked : list BlockRequest) (pm : PeerMessage) : Prop :=
  match pm_message pm with
  | MBlock b => exists r, r ∈ asked /\ req_hash r = block_hash (blk_header b) /\
      check_block b (sh_params shared) = Ok tt /\ accept_block b (req_context r) = Ok tt
  | MHeaders hs => Forall (fun h => check_header h (sh_params shared) = Ok tt) hs
  | MInv items => Forall (fun item => Session.is_transaction item = false) items
  | MGetHeaders _ | MGetData _ | MNotFound _ | MGetAddr | MAddr _ | MAddrV2 _ => True
  | _ => False
  end.

Record ledger self (asked : list BlockRequest) : Prop := mkLedger {
  lg_requests : Requests.ok (cn_requests (ss_connection self));
  lg_books : forwarded_blocks self ++ (req_hash <$> rq_outstanding (cn_requests (ss_connection self)))
               ⊆+ (req_hash <$> asked);
  lg_asked : forall r, r ∈ rq_outstanding (cn_requests (ss_connection self)) -> r ∈ asked;
  lg_vetted : Forall (vetted asked) (ss_forwarded self);
  lg_ready : ss_forwarded self <> [] -> Handshake.is_ready (ss_handshake self) = true;
}.

Lemma ledger_keeps self self' asked : keeps_ledger self self' ->
  (Handshake.is_ready (ss_handshake self) = true -> Handshake.is_ready (ss_handshake self') = true) ->
  ledger self asked -> ledger self' asked.
Proof.
  intros [Hr Hf] Hh [L1 L2 L3 L4 L5]. unfold forwarded_blocks in *. split; unfold forwarded_blocks; rewrite ?Hr, ?Hf; auto.
Qed.

Lemma forward_ledger self env m n self' asked : ledger self asked ->
  Handshake.is_ready (ss_handshake self) = true ->
  vetted asked (new_peer_message (cn_index (ss_connection self)) m n) ->
  (forall b, m <> MBlock b) -> Session.forward self env m n = (self', Ok tt) -> ledger self' asked.
Proof.
  intros [L1 L2 L3 L4 L5] Hr Hv Hnb. unfold Session.forward. destruct (env_closed env); [done|]. intros [= <-].
  split; cbn [ss_connection ss_forwarded ss_handshake]; try done.
  - unfold forwarded_blocks in *. cbn [ss_forwarded]. rewrite omap_app. cbn [omap list_omap block_hash_of].
    unfold block_hash_of at 2. cbn [pm_message new_peer_message]. destruct m; try (by rewrite app_nil_r). by edestruct Hnb.
  - apply Forall_app. split; [done|]. by constructor.
Qed.

Lemma headers_checked hs : foldM (fun _ header => map_err InvalidHeader (check_header header (sh_params shared))) tt hs = Ok tt ->
  Forall (fun h => check_header h (sh_params shared) = Ok tt) hs.
Proof.
  induction hs as [|h hs IH]; [constructor|]. cbn [foldM]. intros Hf. inv_ok. destruct x. constructor; [done|by apply IH].
Qed.

Lemma block_ledger self env b n self' asked : ledger self asked ->
  Handshake.is_ready (ss_handshake self) = true ->
  Session.block shared self env b n = (self', Ok tt) -> ledger self' asked.
Proof.
  intros [L1 L2 L3 L4 L5] Hr. unfold Session.block. set (hash := block_hash (blk_header b)).
  pose proof (Requests.take_ok (cn_requests (ss_connection self)) hash L1) as Hok.
  pose proof (Requests.take_first_spec hash (rq_outstanding (cn_requests (ss_connection self)))) as Hsp.
  unfold Requests.take in *.
  destruct (Requests.take_first hash (rq_outstanding (cn_requests (ss_connection self)))) as [[found rest]|]; [|done].
  destruct Hok as (Hrok & _). destruct Hsp as (l1 & l2 & Hl & -> & Hh & _).
  destruct (_ ≫= _) as [[]|e|] eqn:Hchk; [|done|done]. inv_ok.
  unfold Session.forward. destruct (env_closed env); [done|]. intros [= <-].
  split; cbn [ss_connection ss_forwarded ss_handshake Session.with_connection cn_requests Connection.with_requests rq_outstanding].
  - done.
  - unfold forwarded_blocks in *. cbn [ss_forwarded Session.with_connection]. rewrite omap_app.
    change (omap block_hash_of [new_peer_message (cn_index (Connection.with_requests (ss_connection self) (mkRequests (l1 ++ l2)
      (rq_max (cn_requests (ss_connection self)))))) (MBlock b) n]) with [hash].
    rewrite Hl in L2. rewrite <-L2. rewrite !fmap_app, fmap_cons, Hh.
    rewrite <-!app_assoc. cbn [app]. by rewrite <-(Permutation_middle (req_hash <$> l1)).
  - intros r Hin. apply L3. rewrite Hl. apply elem_of_app in Hin. apply elem_of_app. rewrite elem_of_cons. tauto.
  - apply Forall_app. split; [done|]. constructor; [|constructor]. exists found. split; [|split; [done|]].
    + apply L3. rewrite Hl. apply elem_of_app. rewrite elem_of_cons. auto.
    + by destruct x0.
  - done.
Qed.

Lemma dispatch_ledger self env m n self' asked : ledger self asked ->
  Handshake.is_ready (ss_handshake self) = true ->
  Session.dispatch shared self env m n = (self', Ok tt) -> ledger self' asked.
Proof.
  intros Hl Hr Hd. pose proof Hl as [_ _ _ _ _].
  assert (Hfwd : forall m', vetted asked (new_peer_message (cn_index (ss_connection self)) m' n) ->
    (forall b, m' <> MBlock b) -> Session.forward self env m' n = (self', Ok tt) -> ledger self' asked).
  { intros m' Hv Hnb Hf. by eapply forward_ledger. }
  destruct m; cbn [Session.dispatch] in Hd; try done; try (by refine (Hfwd _ _ _ Hd); [exact I|]); try (by injection Hd as <-).
  - unfold Session.inventory in Hd. destruct (existsb _ _) eqn:He; [done|]. refine (Hfwd _ _ _ Hd); [|done].
    apply Forall_forall. intros item Hin. destruct (Session.is_transaction item) eqn:Ht; [|done].
    assert (existsb Session.is_transaction items = true); [|congruence].
    apply existsb_exists. exists item. by rewrite <-list_elem_of_In.
  - by eapply block_ledger.
  - unfold Session.headers in Hd. destruct (foldM _ _ _) as [[]|e|] eqn:Hf; [|done|done].
    refine (Hfwd _ _ _ Hd); [|done]. by apply headers_checked.
  - pose proof (send_keeps self (MPong nonce)) as (Hk & Hh & _). rewrite Hd in Hk, Hh. cbn [fst] in *.
    eapply ledger_keeps; [done| |done]. by rewrite Hh.
  - injection Hd as <-. destruct (ss_outstanding_ping self) as [[sent t]|]; [|done].
    destruct (sent =? nonce); [|done]. by apply (ledger_keeps self).
Qed.

Lemma handshake_stays_ready h m unix h' r : Handshake.receive h m unix = (h', Ok r) ->
  Handshake.is_ready h = true -> Handshake.is_ready h' = true.
Proof.
  intros (_ & _ & Hs)%Handshake.receive_stage Hr. unfold Handshake.is_ready in Hr.
  destruct (hs_stage h) eqn:Hst; try done. destruct Hs as [-> _]. unfold Handshake.is_ready. by rewrite Hst.
Qed.

Lemma receive_ledger self env m n self' asked : ledger self asked ->
  Session.receive shared self env m n = (self', Ok tt) -> ledger self' asked.
Proof.
  intros Hl. unfold Session.receive, Session.andthen. cbn [ss_handshake].
  destruct (Handshake.receive (ss_handshake self) m (env_unix env)) as [h [replies|e|]] eqn:Hrec; [|done|done].
  set (self1 := Session.with_handshake _ h).
  assert (Hl1 : ledger self1 asked).
  { apply (ledger_keeps self); [done| |done]. cbn. by eapply handshake_stays_ready. }
  pose proof (send_all_keeps self1 replies) as [Hk Hh].
  destruct (Session.send_all shared self1 replies) as [self2 [[]|e|]]; [|done|done]. cbn [fst] in *.
  assert (Hl2 : ledger self2 asked).
  { eapply ledger_keeps; [exact Hk| |exact Hl1]. by rewrite Hh. }
  destruct (Handshake.is_ready (ss_handshake self2)) eqn:Hr; cbn [negb]; [|by intros [= <-]].
  apply dispatch_ledger.
  - destruct (Handshake.is_ready (ss_handshake self)); [done|].
    by apply (ledger_keeps self2).
  - by destruct (Handshake.is_ready (ss_handshake self)).
Qed.

(** The life of a connection, as its reader and the chain thread drive it: the chain thread asks
    for a block, a message arrives, the clocks are checked. *)
Inductive event :=
| Ask (request : BlockRequest)
| Arrives (env : Env) (message : NetworkMessage) (wire_len : Z)
| Tick (env : Env).

Definition apply_event (s : Session * list BlockRequest) (e : event) : outcome Disconnect (Session * list BlockRequest) :=
  let (self, asked) := s in
  match e with
  | Ask request =>
      let (requests, recorded) := Requests.record (cn_requests (ss_connection self)) request in
      Ok (Session.with_connection self (Connection.with_requests (ss_connection self) requests),
          if recorded then asked ++ [request] else asked)
  | Arrives env message wire_len =>
      match Session.receive shared self env message wire_len with
      | (self, Ok _) => Ok (self, asked)
      | (_, Err e) => Err e
      | (_, Panic) => Panic
      end
  | Tick env =>
      match Session.tick shared self env with
      | (self, Ok _) => Ok (self, asked)
      | (_, Err e) => Err e
      | (_, Panic) => Panic
      end
  end.

Lemma vetted_more asked more pm : vetted asked pm -> vetted (asked ++ more) pm.
Proof.
  unfold vetted. destruct (pm_message pm); try done. intros (r & Hin & ?). exists r. split; [|done].
  apply elem_of_app. by left.
Qed.

Lemma ask_ledger self asked request : ledger self asked ->
  let (requests, recorded) := Requests.record (cn_requests (ss_connection self)) request in
  ledger (Session.with_connection self (Connection.with_requests (ss_connection self) requests))
    (if recorded then asked ++ [request] else asked).
Proof.
  intros [L1 L2 L3 L4 L5]. pose proof (Requests.record_ok (cn_requests (ss_connection self)) request L1) as Hrec.
  destruct (Requests.record (cn_requests (ss_connection self)) request) as [requests recorded].
  destruct Hrec as (Hok & _ & _ & Hout).
  split; cbn [ss_connection ss_forwarded ss_handshake Session.with_connection cn_requests Connection.with_requests];
    unfold forwarded_blocks in *; cbn [ss_forwarded Session.with_connection]; rewrite ?Hout; try done.
  - destruct recorded; [|done]. rewrite !fmap_app, app_assoc. by apply submseteq_app.
  - destruct recorded; [|done]. intros r [Hin|Hin]%elem_of_app; apply elem_of_app; auto.
  - destruct recorded; [|done]. eapply Forall_impl; [exact L4|]. intros pm. apply vetted_more.
Qed.

Lemma event_ledger self asked e self' asked' : ledger self asked ->
  apply_event (self, asked) e = Ok (self', asked') -> ledger self' asked'.
Proof.
  intros Hl He. destruct e as [request|env m n|env]; cbn [apply_event] in He.
  - pose proof (ask_ledger self asked request Hl) as Ha.
    destruct (Requests.record _ request) as [requests recorded]. by simplify_eq.
  - destruct (Session.receive shared self env m n) as [s [[]|e|]] eqn:Hr; [|done|done]. simplify_eq.
    by eapply receive_ledger.
  - destruct (Session.tick shared self env) as [s [[]|e|]] eqn:Ht; [|done|done]. simplify_eq.
    pose proof (tick_keeps self env) as Hk. rewrite Ht in Hk. eapply ledger_keeps; [exact Hk| |exact Hl].
    clear Hk. unfold Session.tick, Session.andthen in Ht. intros Hready.
    destruct (Handshake.timed_out _ _); [done|]. rewrite Hready in Ht. cbn [negb] in Ht.
    destruct (ss_outstanding_ping self) as [[x sent]|]; [by repeat case_match; simplify_eq|].
    destruct (_ <? _); [|by repeat case_match; simplify_eq].
    pose proof (send_keeps self (MPing (nonce (env_unix env)))) as (_ & Hh & _).
    destruct (Session.send shared self _) as [s1 [[]|e|]]; [|done|done]. cbn [fst] in Hh.
    case_match; [done|]. simplify_eq. cbn. by rewrite Hh.
Qed.

Lemma events_ledger es s a self asked : ledger s a -> foldM apply_event (s, a) es = Ok (self, asked) -> ledger self asked.
Proof.
  revert s a; induction es as [|e es IH]; intros s a Hl Hf; [by simplify_eq/=|]. cbn [foldM] in Hf. inv_ok.
  destruct x as [s1 a1]. eapply IH; [|done]. by eapply event_ledger.
Qed.

Lemma new_ledger connection env : cn_requests connection = mkRequests [] MAX_BLOCKS_IN_FLIGHT ->
  ledger (Session.new shared connection env) [].
Proof.
  intros Hc. split; cbn; rewrite ?Hc; cbn; try done.
  split; cbn; [done|done|constructor].
Qed.

End frames.

(** ** No peer can make its reader panic *)

Section safety.
Context `{HL : HashLengths} `{EL : EncodingLaws} `{BC : BitcoinCrate} `{IL : !IdLengths} `{SZ : !SizeLaws}.
Context `{CL : !CoinbaseLaw} `{SL : Secp256k1Laws} `{OL : OutPointOrderLaws} `{PP : P2p} `{SS : Sizes}.
Context (shared : SharedView) (Htab : tabled (sh_params shared)).
Implicit Types (self : Session) (env : Env).

(** What the Rust types say of a decoded message. *)
Definition message_typed (m : NetworkMessage) : Prop :=
  match m with
  | MBlock b => block_typed b
  | MHeaders hs => Forall (fun h => is_u32 (hdr_bits h)) hs
  | _ => True
  end.

(** The messages a session answers with: the handshake's and the pings'. *)
Definition control (m : NetworkMessage) : Prop :=
  match m with
  | MVersion v => v_user_agent v = USER_AGENT
  | MVerack | MPing _ | MPong _ => True
  | _ => False
  end.

(** The decoder builds values of the crate's types, and a control message is a small frame. *)
Context (Hdecoded : forall frame m, deserialize_raw frame = Some m -> message_typed m).
Context (Hcontrol : forall m, control m ->
  HEADER_BYTES <= len (serialize_raw (sh_magic shared) m) <= OUTBOX_MAX_BYTES).

Record session_ok self : Prop := mkSessionOk {
  so_requests : Requests.ok (cn_requests (ss_connection self));
  so_contexts : Forall (fun r => 0 < ctx_height (req_context r) <= Height.MAX)
                  (rq_outstanding (cn_requests (ss_connection self)));
  so_outbox : ob_max_bytes (cn_outbox (ss_connection self)) = OUTBOX_MAX_BYTES;
}.

(** A call that does not panic and leaves a session in order. *)
Definition safe (r : Session.result) : Prop := snd r <> Panic /\ session_ok (fst r).

Lemma safe_andthen r k : safe r -> (forall self, session_ok self -> safe (k self)) -> safe (Session.andthen r k).
Proof. intros [Hp Hs] Hk. destruct r as [self [[]|e|]]; cbn in *; [by apply Hk|by split|done]. Qed.

Lemma send_safe self m : session_ok self -> control m -> safe (Session.send shared self m).
Proof.
  intros [S1 S2 S3] Hc. destruct (Hcontrol m Hc) as [Hlo Hhi]. unfold Session.send, encode.
  rewrite (proj2 (Z.leb_le HEADER_BYTES (len (serialize_raw (sh_magic shared) m)))) by done. run.
  unfold Outbox.push. rewrite S3.
  destruct (Z.eqb_spec (len (serialize_raw (sh_magic shared) m)) 0); [unfold HEADER_BYTES in *; lia|].
  rewrite (proj2 (Z.leb_le _ OUTBOX_MAX_BYTES)) by done. cbn [negb andb].
  destruct (ob_closed _); [|destruct (_ <? _)]; by split.
Qed.

Lemma send_all_safe self ms : session_ok self -> Forall control ms -> safe (Session.send_all shared self ms).
Proof.
  intros Hs HF. revert self Hs; induction HF as [|m ms Hm HF IH]; intros self Hs; [by split|].
  cbn [Session.send_all]. apply safe_andthen; [by apply send_safe|]. intros self' Hs'. by apply IH.
Qed.

Lemma tick_safe self env : session_ok self -> safe (Session.tick shared self env).
Proof.
  intros Hs. unfold Session.tick. destruct (Handshake.timed_out _ _); [by split|]. destruct (negb _); [by split|].
  apply safe_andthen; [|intros self' Hs'; destruct (_ <? _); by split].
  destruct (ss_outstanding_ping self) as [[x sent]|]; [destruct (_ <? _); by split|].
  destruct (_ <? _); [|by split]. apply safe_andthen; [by apply send_safe|].
  intros self' [? ? ?]. split; [done|by split].
Qed.

Lemma forward_safe self env m n : session_ok self -> safe (Session.forward self env m n).
Proof. intros [? ? ?]. unfold Session.forward. destruct (env_closed env); (split; [done|by split]). Qed.

Lemma block_safe self env b n : session_ok self -> block_typed b -> safe (Session.block shared self env b n).
Proof.
  intros [S1 S2 S3] Hb. unfold Session.block. set (hash := block_hash (blk_header b)).
  pose proof (Requests.take_ok (cn_requests (ss_connection self)) hash S1) as Hok.
  pose proof (Requests.take_first_spec hash (rq_outstanding (cn_requests (ss_connection self)))) as Hsp.
  unfold Requests.take in *.
  destruct (Requests.take_first hash (rq_outstanding (cn_requests (ss_connection self)))) as [[found rest]|]; [|by split].
  destruct Hok as (Hrok & _). destruct Hsp as (l1 & l2 & Hl & -> & Hh & _).
  rewrite Hl in S2. apply Forall_app in S2 as [S21 [Hctx S22]%Forall_cons].
  rewrite bool_decide_true by done. run.
  set (self1 := Session.with_connection _ _).
  assert (Hs1 : session_ok self1) by (split; cbn; [done|by apply Forall_app|done]).
  destruct (check_block_decides _ b Htab Hb) as [[Hchk ->]|[_ [e ->]]]; [|by split]. run.
  destruct (checked_coinbase _ b Hchk) as (cb & txs & Htx & Hcb & _).
  destruct (accept_block_decides b (req_context found) cb txs Hb Hctx Htx Hcb) as [[_ ->]|[_ [e ->]]]; run; [|by split].
  by apply forward_safe.
Qed.

Lemma headers_safe self env hs n : session_ok self -> Forall (fun h => is_u32 (hdr_bits h)) hs ->
  safe (Session.headers shared self env hs n).
Proof.
  intros Hs HF. unfold Session.headers.
  assert (Hnp : foldM (fun _ header => map_err InvalidHeader (check_header header (sh_params shared))) tt hs <> Panic).
  { destruct (ok_pow_limit _ (tabled_ok _ Htab)) as [Hw _].
    induction HF as [|h hs Hh HF IH]; [done|]. cbn [foldM].
    destruct (check_header_decides h _ Hh Hw) as [[_ ->]|[_ [e ->]]]; done. }
  destruct (foldM _ _ _) as [[]|e|]; [by apply forward_safe|by split|done].
Qed.

Lemma dispatch_safe self env m n : session_ok self -> message_typed m -> safe (Session.dispatch shared self env m n).
Proof.
  intros Hs Hm. destruct m; cbn [Session.dispatch]; try (by split); try (by apply forward_safe).
  - unfold Session.inventory. destruct (existsb _ _); [by split|by apply forward_safe].
  - by apply block_safe.
  - by apply headers_safe.
  - by apply send_safe.
  - destruct (ss_outstanding_ping self) as [[sent t]|]; [destruct (_ =? _)|]; split; try done; destruct Hs; by split.
Qed.

(** What the handshake replies is its own. *)
Lemma replies_control h m unix h' r : Handshake.receive h m unix = (h', Ok r) -> Forall control r.
Proof.
  intros Hr. unfold Handshake.receive in Hr.
  destruct (hs_stage h), m; try (repeat case_match; simplify_eq; by constructor).
  apply Handshake.version_Ok in Hr as (_ & _ & _ & _ & _ & ->). destruct (decide _); repeat constructor.
Qed.

Lemma receive_safe self env m n : session_ok self -> message_typed m -> safe (Session.receive shared self env m n).
Proof.
  intros [S1 S2 S3] Hm. unfold Session.receive. cbn [ss_handshake].
  destruct (Handshake.receive (ss_handshake self) m (env_unix env)) as [h [r|e|]] eqn:Hr; cycle 1.
  { split; [done|by split]. }
  { exfalso. unfold Handshake.receive, Handshake.version in Hr. repeat case_match; by simplify_eq. }
  apply safe_andthen; [apply send_all_safe; [by split|by eapply replies_control]|].
  intros self' [? ? ?]. destruct (negb _); [split; [done|by split]|].
  apply dispatch_safe; [|done]. by destruct (Handshake.is_ready (ss_handshake self)).
Qed.

(** A message that the framer delivered was decoded from the wire. *)
Lemma finish_message framer d framer' m n : Framer.finish framer d = (framer', Ok (FMessage m n)) ->
  exists frame, deserialize_raw frame = Some m.
Proof.
  unfold Framer.finish. destruct (slice _ _ _) as [frame|]; [|done].
  destruct (deserialize_raw frame) as [m'|] eqn:Hd; [|done]. intros Hf.
  assert (Hc : (check_counts m';; Ok (FMessage m' (saturating_add HEADER_BYTES d))) = Ok (FMessage m n)) by congruence.
  inv_ok. eauto.
Qed.

Lemma read_message framer now incoming cap framer' m n :
  Framer.read framer now incoming cap = (framer', Ok (FMessage m n)) -> message_typed m.
Proof.
  assert (Hp : forall f f', Framer.settle_payload f = (f', Ok (FMessage m n)) -> message_typed m).
  { intros f f'. unfold Framer.settle_payload. destruct (_ <=? _); [|done].
    intros [frame Hf]%finish_message. by eapply Hdecoded. }
  unfold Framer.read. destruct (negb _); [done|]. destruct incoming as [chunk| | |]; try done.
  - unfold Framer.settle. cbn [fr_declared]. destruct (fr_declared framer); [apply Hp|].
    destruct (_ <? _); [done|]. destruct (Framer.parse_header _ _); [apply Hp|done|done].
  - unfold Framer.after_idle. destruct (fr_started framer); [destruct (_ <? _)|]; done.
Qed.

Lemma cap_range self : 0 <= Session.cap self <= MAX_MESSAGE_LEN.
Proof. unfold Session.cap. destruct (_ <? _); unfold MAX_MESSAGE_LEN, READ_CAP_IDLE; lia. Qed.

(** C16.  Whatever its peer sends, a turn of the reader's loop never panics: no assertion of the
    framer, the session, the outbox, the requests or the two block stages can be reached, for any
    bytes, at any time, in any order; and a turn that does not end the connection leaves the
    session and the framer well formed, so that the next one does not either. *)
Theorem reader_turn_well_formed initial self framer env stopping incoming stopped self' framer' r :
  session_ok self -> framer_ok initial MAX_MESSAGE_LEN framer -> socket_ok framer incoming = true ->
  Session.serve_turn shared self framer env stopping incoming stopped = (self', framer', r) ->
  r <> Panic /\ (r = Ok None -> session_ok self' /\ framer_ok initial MAX_MESSAGE_LEN framer').
Proof.
  intros Hs Hf Hsock. unfold Session.serve_turn. destruct stopping; [by intros [= <- <- <-]|].
  destruct (Outbox.is_closed _); [by intros [= <- <- <-]|].
  pose proof (tick_safe self env Hs) as Ht. destruct (Session.tick shared self env) as [self1 [[]|e|]];
    [|by intros [= <- <- <-]|by destruct Ht]. destruct Ht as [_ Hs1]. cbn [fst] in Hs1.
  pose proof (read_safe initial MAX_MESSAGE_LEN framer (env_now env) incoming (Session.cap self1) Hf (cap_range self1) Hsock) as [Hnp Hinv].
  destruct (Framer.read framer (env_now env) incoming (Session.cap self1)) as [f1 [[m n| |]|e|]] eqn:Hr; cbn [fst snd] in *.
  - pose proof (receive_safe self1 env m n Hs1 (read_message _ _ _ _ _ _ _ Hr)) as [Hp Hs2].
    destruct (Session.receive shared self1 env m n) as [self2 [[]|e|]]; cbn [fst snd] in *; intros [= <- <- <-];
      [split; [done|]; intros _; split; [done|by eapply Hinv]|done|done].
  - intros [= <- <- <-]. split; [done|]. intros _. split; [done|by eapply Hinv].
  - by intros [= <- <- <-].
  - by intros [= <- <- <-].
  - done.
Qed.
End safety.

(** ** The theorems on sessions at concrete connections *)

(** A wire that carries a [version], a [verack], two headers or a block, told apart by the length
    of the frame. *)
Definition sw_version : VersionMessage :=
  mkVersionMessage 70016 1033 0 (mkAddress 0 [] 0) (mkAddress 0 [] 0) 8 [] 100 true.
#[local] Instance sw_p2p : P2p := {|
  serialize_raw _ _ := repeat x00 24;
  deserialize_raw frame :=
    if len frame =? 24 then Some MVerack
    else if len frame =? 25 then Some (MVersion sw_version)
    else if len frame =? 26 then Some (MBlock sample_block) else None;
  cmd _ := [];
  address_new a services := mkAddress services [] (sa_port a);
|}.
#[local] Instance sw_sizes : Sizes := {|
  size_of_Block := 104; size_of_Transaction := 64; size_of_TxIn := 104; size_of_TxOut := 32;
  size_of_PeerMessage := 232; witness_size l := len l;
|}.
#[local] Existing Instances prefix_hashes simple_encoding sized_crate toy_secp encoded_order.

Definition sw_shared : SharedView := mkShared [xf9; xbe; xb4; xd9] mainnet_params 100.
Definition sw_connection : Connection :=
  mkConnection (mkSocketAddr (V4 [x01; x02; x03; x04]) 8333) 0 12 (mkOutbox [] 0 false OUTBOX_MAX_BYTES)
    (mkRequests [] MAX_BLOCKS_IN_FLIGHT) false 0 None false.
Definition sw_env (t : Z) : Env := mkEnv (secs t) (secs (1600000000 + t)) false.
Definition sw_request : BlockRequest := mkRequest (block_hash (blk_header sample_block)) sample_context (secs 3).
Definition sw_events : list event :=
  [ Arrives (sw_env 1) (MVersion sw_version) 100; Arrives (sw_env 2) MVerack 24;
    Ask sw_request; Tick (sw_env 150); Arrives (sw_env 151) (MBlock sample_block) 300 ].
Definition sw_run : outcome Disconnect (Session * list BlockRequest) :=
  foldM (apply_event sw_shared) (Session.new sw_shared sw_connection (sw_env 0), []) sw_events.
Definition sw_end : Session * list BlockRequest :=
  match sw_run with Ok s => s | _ => (Session.new sw_shared sw_connection (sw_env 0), []) end.


(** An unanswered session is ended by the first turn after its minute. *)
Lemma tick_bounds_witness :
  snd (Session.tick sw_shared (Session.new sw_shared sw_connection (sw_env 0)) (sw_env 61)) = Err HandshakeTimeout.
Proof.
  eapply (tick_bounds sw_shared (Session.new sw_shared sw_connection (sw_env 0)) (sw_env 61));
    [apply surjective_pairing|reflexivity|vm_compute; reflexivity].
Defined.

Definition sw_framer : Framer := mkFramer [xf9; xbe; xb4; xd9] (repeat x00 64) 0 None None MESSAGE_DEADLINE.
Definition sw_header : bytes := [xf9; xbe; xb4; xd9] ++ repeat x00 20.
Definition sw_turn : Session * Framer * outcome Empty_set (option Disconnect) :=
  Session.serve_turn sw_shared (Session.new sw_shared sw_connection (sw_env 0)) sw_framer (sw_env 1) false
    (InBytes sw_header) false.

Lemma sw_decoded frame m : deserialize_raw frame = Some m -> message_typed m.
Proof.
  cbn [deserialize_raw sw_p2p]. destruct (len frame =? 24); [intros [= <-]; exact I|].
  destruct (len frame =? 25); [intros [= <-]; exact I|].
  destruct (len frame =? 26); [intros [= <-]; exact sample_block_typed|discriminate].
Qed.

Lemma reader_turn_well_formed_witness :
  snd sw_turn = Ok None /\ session_ok (fst (fst sw_turn)) /\ framer_ok 64 MAX_MESSAGE_LEN (snd (fst sw_turn)).
Proof.
  split; [vm_compute; reflexivity|]. destruct sized_crate_laws as (Hsize & Hid & Hcb).
  eapply (@reader_turn_well_formed prefix_hashes prefix_hash_lengths simple_encoding simple_encoding_laws sized_crate
    Hid Hsize Hcb toy_secp toy_secp_laws encoded_order encoded_order_laws sw_p2p sw_sizes sw_shared
    mainnet_tabled_sized) with (self := Session.new sw_shared sw_connection (sw_env 0)) (framer := sw_framer)
      (env := sw_env 1) (stopping := false) (incoming := InBytes sw_header) (stopped := false).
  - exact sw_decoded.
  - intros m _. split; vm_compute; discriminate.
  - split; cbn; [|constructor|done]. split; cbn; [done|done|constructor].
  - split; [discriminate|split; [reflexivity|vm_compute; discriminate]|discriminate|vm_compute; discriminate|discriminate|done].
  - reflexivity.
  - fold sw_turn. rewrite <-surjective_pairing. apply surjective_pairing.
  - vm_compute; reflexivity.
Defined.
