(* ===== verification/Locator.v ===== *)
(** * Locator: locators and the answer to [getheaders] ([chain/locator.rs]) *)
From S2P Require Import Prelude Uint Target Bitcoin Flags Params Header Verify Tx Signet Block Coins SkipList Queue Tree TreeProofs TreeInv TreeOps TreeLife Reorg TreeTheorems Message Wire.

Definition MAX_LOCATOR_ENTRIES : Z := 40.

Section locator.
Context {E : Type}.

(** The loop of [locator]: the assertion on the number of entries bounds it. *)
Fixpoint locator_loop (self : HeaderTree) (remaining : nat) (have : list bytes) (step walk : Z)
    : outcome E (list bytes) :=
  e ← entry self walk;
  let have := have ++ [e_hash e] in
  match remaining with
  | O => Panic
  | S remaining =>
      if e_height e =? Height.GENESIS then Ok have
      else
        back ← Height.new (saturating_sub (e_height e) step);
        found ← ancestor self walk back;
        walk ← expect found;
        let step := if 10 <? len have then saturating_mul32 step 2 else step in
        locator_loop self remaining have step walk
  end.

Definition locator (self : HeaderTree) (from : Z) : outcome E (list bytes) :=
  locator_loop self (Z.to_nat MAX_LOCATOR_ENTRIES) [] 1 from.

(** The loop of [fork_in_active_chain]. *)
Fixpoint first_active (self : HeaderTree) (locator : list bytes) : outcome E Z :=
  match locator with
  | [] => Ok NodeId.GENESIS
  | hash :: locator =>
      match node_of self hash with
      | Some node =>
          active ← is_active self node;
          if (active : bool) then Ok node else first_active self locator
      | None => first_active self locator
      end
  end.

Definition fork_in_active_chain (self : HeaderTree) (locator : list bytes) : outcome E Z :=
  assert_ (len locator <=? MAX_LOCATOR_ITEMS);;
  first_active self (take (Z.to_nat MAX_LOCATOR_ITEMS) locator).

(** The last height served: the tip, [max] headers, or the stop block. *)
Definition last_served (self : HeaderTree) (stop : bytes) (first tip_height max : Z) : outcome E Z :=
  span ← expect (try_from u32_max max);
  let last := Z.min tip_height (saturating_sub (saturating_add32 first span) 1) in
  match node_of self stop with
  | Some node =>
      e ← entry self node;
      active ← is_active self node;
      Ok (if active && (first <=? e_height e) && (e_height e <? last) then e_height e else last)
  | None => Ok last
  end.

(** The loop of [headers_after], walking back.  The loop has no bound of its own; [fuel] is
    one more than the tree has entries, and running out is a panic. *)
Fixpoint headers_back (self : HeaderTree) (fuel : nat) (walk first : Z) : outcome E (list Header) :=
  match fuel with
  | O => Panic
  | S fuel =>
      e ← entry self walk;
      if e_height e <=? first then Ok [e_header e]
      else
        parent ← expect (e_parent e);
        headers ← headers_back self fuel parent first;
        Ok (e_header e :: headers)
  end.

Definition headers_after (self : HeaderTree) (locator : list bytes) (stop : bytes) (max : Z)
    : outcome E (list Header) :=
  assert_ ((0 <? max) && (max <=? MAX_HEADERS_ITEMS));;
  fork ← fork_in_active_chain self locator;
  f ← entry self fork;
  let first := saturating_add32 (e_height f) 1 in
  tip ← entry self (t_tip self);
  let tip_height := e_height tip in
  if tip_height <? first then Ok []
  else
    last ← last_served self stop first tip_height max;
    last ← Height.new last;
    found ← ancestor self (t_tip self) last;
    walk ← expect found;
    back ← headers_back self (S (Z.to_nat (tree_len self))) walk first;
    let headers := reverse back in
    assert_ (len headers <=? max);;
    Ok headers.

End locator.

(** ** Locators end, and [getheaders] is answered from the active chain *)

(** The hashes of a path of ancestors that starts at [n] and ends at genesis. *)
Inductive trail (es : list HeaderEntry) : Z -> list bytes -> Prop :=
| trail_end e : get es 0 = Some e -> trail es 0 [e_hash e]
| trail_next n e a l : get es n = Some e -> descends es n a -> a <> n -> trail es a l ->
    trail es n (e_hash e :: l).

Section locators.
Context `{BitcoinCrate} {E : Type} (t : HeaderTree) (Hs : tree_shape (t_entries t)).
Let es : list HeaderEntry := t_entries t.

Lemma locator_step remaining have step w we : get es w = Some we -> 1 <= step ->
  0 < e_height we ->
  exists a ae, locator_loop (E:=E) t (S remaining) have step w =
      locator_loop t remaining (have ++ [e_hash we])
        (if 10 <? len have + 1 then saturating_mul32 step 2 else step) a /\
    descends es w a /\ a <> w /\ get es a = Some ae /\ e_height ae = Z.max 0 (e_height we - step).
Proof.
  intros Hw Hstep Hpos. pose proof (height_bound es Hs w we Hw) as Hb.
  cbn [locator_loop]. rewrite (entry_Ok t w we Hw). run.
  unfold Height.GENESIS. rewrite (proj2 (Z.eqb_neq (e_height we) 0)) by lia.
  unfold saturating_sub. rewrite new_height_ok by lia. run.
  destruct (ancestor_ok (E:=E) t Hs w we (Z.max 0 (e_height we - step)) Hw ltac:(lia)) as (a & ae & Ha & Hd & Hae & Hah).
  rewrite Ha. run. rewrite len_app. change (len [e_hash we]) with 1.
  exists a, ae. split_and!; try done. intros ->. fold es in Hae. rewrite Hw in Hae. injection Hae as <-. lia.
Qed.

Lemma locator_last remaining have step w we : get es w = Some we -> e_height we = 0 ->
  locator_loop (E:=E) t (S remaining) have step w = Ok (have ++ [e_hash we]) /\ trail es w [e_hash we].
Proof.
  intros Hw H0. cbn [locator_loop]. rewrite (entry_Ok t w we Hw). run. rewrite H0. split; [done|].
  destruct (entry_cases es Hs w we Hw) as [(-> & _)|(_ & q & qe & Hl)]; [by constructor|].
  pose proof (linked_height _ _ _ _ _ Hl). pose proof (height_range es Hs q qe (linked_get _ _ _ _ _ Hl)). lia.
Qed.

(** Past the first ten the step doubles: [k] doublings from [2^s] cover [(2^k - 1) 2^s]. *)
Lemma locator_late k s remaining have w we : get es w = Some we -> 10 < len have + 1 ->
  0 <= s -> s + Z.of_nat k <= 30 -> e_height we <= (2 ^ Z.of_nat k - 1) * 2 ^ s -> (k < remaining)%nat ->
  exists l, locator_loop (E:=E) t remaining have (2 ^ s) w = Ok (have ++ l) /\ trail es w l /\ (length l <= k + 1)%nat.
Proof.
  revert s remaining have w we. induction k as [|k IH]; intros s remaining have w we Hw Hlen Hs0 Hsk Hh Hrem;
    (destruct remaining as [|remaining]; [lia|]); pose proof (height_range es Hs w we Hw) as Hr.
  all: destruct (decide (e_height we = 0)) as [H0|H0];
    [destruct (locator_last remaining have (2 ^ s) w we Hw H0); eexists; split_and!; [done..|cbn; lia]|].
  { cbn in Hh. lia. }
  assert (Hp1 : 1 <= 2 ^ s) by (pose proof (Z.pow_pos_nonneg 2 s); lia).
  destruct (locator_step remaining have (2 ^ s) w we Hw Hp1 ltac:(lia)) as (a & ae & -> & Hd & Hne & Hae & Hah).
  rewrite (proj2 (Z.ltb_lt 10 (len have + 1))) by lia.
  assert (Hmul : saturating_mul32 (2 ^ s) 2 = 2 ^ (s + 1)).
  { rewrite Z.pow_add_r by lia. unfold saturating_mul32, u32_max. pose proof (Z.pow_le_mono_r 2 s 30 ltac:(lia) ltac:(lia)). lia. }
  rewrite Hmul.
  destruct (IH (s + 1) remaining (have ++ [e_hash we]) a ae Hae) as (l & Hl & Htr & Hll); try lia.
  { rewrite len_app. change (len [e_hash we]) with 1. lia. }
  { rewrite Hah, Z.pow_add_r by lia. rewrite Nat2Z.inj_succ, Z.pow_succ_r in Hh by lia.
    assert (1 <= 2 ^ Z.of_nat k) by (pose proof (Z.pow_pos_nonneg 2 (Z.of_nat k)); lia). nia. }
  exists (e_hash we :: l). rewrite Hl, <-app_assoc. split_and!; [done| |cbn; lia]. by eapply trail_next.
Qed.

(** The first ten go one by one. *)
Lemma locator_early j remaining have w we : get es w = Some we -> len have = 10 - Z.of_nat j -> (j <= 10)%nat ->
  (j + 22 <= remaining)%nat ->
  exists l, locator_loop (E:=E) t remaining have 1 w = Ok (have ++ l) /\ trail es w l /\ (length l <= j + 22)%nat.
Proof.
  revert remaining have w we. induction j as [|j IH]; intros remaining have w we Hw Hlen Hj Hrem;
    pose proof (height_bound es Hs w we Hw) as Hb.
  { destruct (locator_late 21 0 remaining have w we Hw) as (l & Hl & Htr & Hll); try lia.
    change (2 ^ 0) with 1 in Hl. exists l. split_and!; [done..|lia]. }
  destruct remaining as [|remaining]; [lia|]. destruct (decide (e_height we = 0)) as [H0|H0].
  { destruct (locator_last remaining have 1 w we Hw H0). eexists; split_and!; [done..|cbn; lia]. }
  destruct (locator_step remaining have 1 w we Hw ltac:(lia) ltac:(lia)) as (a & ae & -> & Hd & Hne & Hae & Hah).
  rewrite (proj2 (Z.ltb_ge 10 (len have + 1))) by lia.
  destruct (IH remaining (have ++ [e_hash we]) a ae Hae) as (l & Hl & Htr & Hll); try lia.
  { rewrite len_app. change (len [e_hash we]) with 1. lia. }
  exists (e_hash we :: l). rewrite Hl, <-app_assoc. split_and!; [done| |cbn; lia]. by eapply trail_next.
Qed.

Lemma locator_ok n e : get es n = Some e -> exists l, locator (E:=E) t n = Ok l /\ trail es n l /\ len l <= 32.
Proof.
  intros Hn. destruct (locator_early 10 (Z.to_nat MAX_LOCATOR_ENTRIES) [] n e Hn) as (l & Hl & Htr & Hll).
  - done.
  - done.
  - unfold MAX_LOCATOR_ENTRIES. lia.
  - exists l. split_and!; [done..|]. unfold len. lia.
Qed.

(** Every hash of a trail is an ancestor's, the first the node's, the last genesis's. *)
Lemma trail_spec n l : trail es n l -> is_Some (get es n) ->
  (exists e, get es n = Some e /\ head l = Some (e_hash e)) /\
  (exists g, get es 0 = Some g /\ last l = Some (e_hash g)) /\
  Forall (fun h => exists a ae, get es a = Some ae /\ descends es n a /\ e_hash ae = h) l.
Proof.
  induction 1 as [e He|n e a l He Hd Hne Htr IH]; intros Hsome.
  - split_and!; [by exists e..|]. constructor; [|constructor]. exists 0, e. split_and!; [done|constructor|done].
  - destruct IH as ((ae & Hae & Hhd) & (g & Hg & Hlast) & Hall); [by eapply descends_valid|].
    split_and!; [by exists e|exists g; split; [done|]|].
    + destruct l; [done|]. exact Hlast.
    + constructor; [exists n, e; split_and!; [done|constructor|done]|].
      eapply Forall_impl; [exact Hall|]. intros h (b & be & ? & ? & ?). exists b, be. split_and!; try done.
      by eapply descends_trans.
Qed.
End locators.

(** ** Answering [getheaders] *)

(** Headers that follow the block [prev], each on the one before. *)
Fixpoint follows `{BitcoinCrate} (prev : bytes) (hs : list Header) : Prop :=
  match hs with
  | [] => True
  | h :: hs => hdr_prev_blockhash h = prev /\ follows (block_hash h) hs
  end.

(** The headers of the active chain above [f], up to the height [last]. *)
Definition serves (t : HeaderTree) (f : Z) (fe : HeaderEntry) (last : Z) (hs : list Header) : Prop :=
  len hs = Z.max 0 (last - e_height fe) /\
  forall (i : nat) h, hs !! i = Some h -> exists a ae, get (t_entries t) a = Some ae /\ active ae = true /\
    e_height ae = e_height fe + 1 + Z.of_nat i /\ e_header ae = h.

Section answers.
Context `{BitcoinCrate} {E : Type} (p : ChainParams) (t : HeaderTree) (Hwf : tree_wf p t).
Let es : list HeaderEntry := t_entries t.
Let Hs : tree_shape es := wf_shape p t Hwf.

Lemma first_active_ok l : exists f fe, first_active (E:=E) t l = Ok f /\ get es f = Some fe /\ active fe = true /\
  (f = 0 \/ e_hash fe ∈ l).
Proof.
  induction l as [|h l IH]; cbn [first_active].
  { destruct (genesis_active p t Hwf) as (g & Hg & Hga & _). exists 0, g. split_and!; try done. by left. }
  destruct IH as (f & fe & Hf & Hfe & Hfa & Hor).
  assert (Hrest : exists f fe, first_active (E:=E) t l = Ok f /\ get es f = Some fe /\ active fe = true /\ (f = 0 \/ e_hash fe ∈ h :: l))
    by (exists f, fe; split_and!; try done; destruct Hor; [by left|right; set_solver]).
  unfold node_of. destruct (t_index t !! h) as [n|] eqn:Hn; [|done].
  apply (wf_index p t Hwf) in Hn as (e & He & Hh). unfold is_active. rewrite (entry_Ok t n e He). run.
  destruct (active e) eqn:Hact; [|done]. exists n, e. split_and!; try done. right. rewrite Hh. set_solver.
Qed.

Lemma headers_back_ok fuel w we first : get es w = Some we -> 1 <= first <= e_height we ->
  e_height we < first + Z.of_nat fuel ->
  headers_back (E:=E) t fuel w first = Ok (default [] (mapM (fun a => e_header <$> get es a)
    (path_back es (Z.to_nat (e_height we - first + 1)) w))) /\
  is_Some (mapM (fun a => e_header <$> get es a) (path_back es (Z.to_nat (e_height we - first + 1)) w)).
Proof.
  revert w we. induction fuel as [|fuel IH]; intros w we Hw Hf Hfuel; [lia|].
  cbn [headers_back]. rewrite (entry_Ok t w we Hw). run.
  replace (Z.to_nat (e_height we - first + 1)) with (S (Z.to_nat (e_height we - first))) by lia.
  cbn [path_back mapM]. rewrite Hw. cbn [fmap option_fmap option_map mbind option_bind].
  destruct (Z.leb_spec (e_height we) first) as [Hle|Hgt].
  { replace (Z.to_nat (e_height we - first)) with 0%nat by lia. cbn [path_back].
    destruct (e_parent we); cbn; done. }
  destruct (entry_cases es Hs w we Hw) as [(_ & _ & ? & _)|(_ & q & qe & Hl)]; [lia|].
  pose proof (linked_height _ _ _ _ _ Hl). pose proof (linked_get _ _ _ _ _ Hl) as Hq. rewrite (linked_parent _ _ _ _ _ Hl). run.
  destruct (IH q qe Hq ltac:(lia) ltac:(lia)) as [-> [hs Hhs]].
  replace (Z.to_nat (e_height qe - first + 1)) with (Z.to_nat (e_height we - first)) in * by lia.
  rewrite Hhs. run. cbn. done.
Qed.

Lemma headers_range w we first : get es w = Some we -> active we = true -> 1 <= first <= e_height we ->
  forall hs fe f, mapM (fun a => e_header <$> get es a) (path_back es (Z.to_nat (e_height we - first + 1)) w) = Some hs ->
  get es f = Some fe -> e_height fe = first - 1 -> serves t f fe (e_height we) (reverse hs).
Proof.
  intros Hw Hact Hf hs fe f Hhs Hfe Hh. apply mapM_Some in Hhs as Hall.
  assert (Hlen : length hs = Z.to_nat (e_height we - first + 1)).
  { apply Forall2_length in Hall. rewrite <-Hall. apply (path_back_length es Hs _ w we Hw). lia. }
  split; [unfold len; rewrite length_reverse; lia|].
  intros i h Hi. apply reverse_lookup_Some in Hi as [Hi Hlt].
  destruct (Forall2_lookup_r _ _ _ _ _ Hall Hi) as (a & Ha & Hah).
  destruct (path_back_lookup es Hs (Z.to_nat (e_height we - first + 1)) w we (length hs - S i)) as (a' & ae & Ha' & Hd & Hae & Haeh);
    [done|lia|lia|].
  rewrite Ha in Ha'. injection Ha' as <-. exists a, ae. rewrite Hae in Hah. cbn in Hah. split_and!; [done| |lia|congruence].
  by eapply (active_ancestor p t Hwf w a we ae).
Qed.

(** The height the answer stops at. *)
Definition stops_at (stop : bytes) (first max last : Z) : Prop :=
  exists tip, get es (t_tip t) = Some tip /\
    (last = Z.min (e_height tip) (first + max - 1) \/
     exists n e, get es n = Some e /\ e_hash e = stop /\ active e = true /\ last = e_height e) /\
    first <= last <= Z.min (e_height tip) (first + max - 1).

Lemma last_served_ok stop first tip max : get es (t_tip t) = Some tip -> 1 <= first <= e_height tip ->
  0 < max <= MAX_HEADERS_ITEMS -> exists last, last_served (E:=E) t stop first (e_height tip) max = Ok last /\
    stops_at stop first max last.
Proof.
  intros Htip Hf Hmax. unfold MAX_HEADERS_ITEMS in *. pose proof (height_bound es Hs _ tip Htip).
  unfold last_served. rewrite try_from_ok by (unfold u32_max; lia). run.
  unfold saturating_sub, saturating_add32. rewrite (Z.min_r u32_max) by (unfold u32_max; lia).
  rewrite Z.max_r by lia. set (last := Z.min (e_height tip) (first + max - 1)).
  assert (Hbase : stops_at stop first max last) by (exists tip; split_and!; [done|by left|lia..]).
  unfold node_of. destruct (t_index t !! stop) as [n|] eqn:Hn; [|by eauto].
  apply (wf_index p t Hwf) in Hn as (e & He & Hh). unfold is_active. rewrite (entry_Ok t n e He). run.
  destruct (active e && (first <=? e_height e) && (e_height e <? last)) eqn:Hb; [|by eauto].
  apply andb_true_iff in Hb as [[Hact H1%Z.leb_le]%andb_true_iff H2%Z.ltb_lt].
  eexists. split; [done|]. exists tip. split_and!; [done| |lia..]. right. by exists n, e.
Qed.

(** The whole answer. *)
Lemma headers_after_ok loc stop max : len loc <= MAX_LOCATOR_ITEMS -> 0 < max <= MAX_HEADERS_ITEMS ->
  exists f fe tip hs, headers_after (E:=E) t loc stop max = Ok hs /\ get es f = Some fe /\ active fe = true /\
    (f = 0 \/ e_hash fe ∈ loc) /\ get es (t_tip t) = Some tip /\ len hs <= max /\
    (e_height tip = e_height fe /\ hs = [] \/
     exists last, stops_at stop (e_height fe + 1) max last /\ serves t f fe last hs).
Proof.
  intros Hloc Hmax. destruct (wf_tip p t Hwf) as [tip Htip]. fold es in Htip.
  destruct (first_active_ok (take (Z.to_nat MAX_LOCATOR_ITEMS) loc)) as (f & fe & Hf & Hfe & Hfa & Hor).
  assert (Hor' : f = 0 \/ e_hash fe ∈ loc).
  { destruct Hor as [|Hin]; [by left|right]. apply list_elem_of_lookup in Hin as [i Hi].
    apply lookup_take_Some in Hi as [Hi _]. by eapply list_elem_of_lookup_2. }
  pose proof (proj1 (wf_active p t Hwf f fe Hfe) Hfa) as Htf.
  destruct (descends_height es Hs (t_tip t) f tip fe Htf Htip Hfe) as (_ & Hle & _).
  pose proof (height_bound es Hs _ tip Htip). pose proof (height_range es Hs f fe Hfe) as Hfr.
  assert (Htact : active tip = true) by (apply (wf_active p t Hwf _ tip Htip); constructor).
  unfold headers_after. rewrite (proj2 (Z.ltb_lt 0 max)), (proj2 (Z.leb_le max MAX_HEADERS_ITEMS)) by lia. run.
  unfold fork_in_active_chain. rewrite (proj2 (Z.leb_le (len loc) MAX_LOCATOR_ITEMS)) by lia. run.
  rewrite Hf. run. rewrite (entry_Ok t f fe Hfe), (entry_Ok t _ tip Htip). run.
  unfold saturating_add32. rewrite (Z.min_r u32_max) by (unfold u32_max; lia).
  destruct (Z.ltb_spec (e_height tip) (e_height fe + 1)).
  { exists f, fe, tip, []. split_and!; try done; [change (len (@nil Header)) with 0; lia|]. left. split; [lia|done]. }
  destruct (last_served_ok stop (e_height fe + 1) tip max Htip ltac:(lia) ltac:(lia)) as (last & -> & Hstop). run.
  pose proof Hstop as (tip' & Htip' & _ & Hlast). rewrite Htip in Htip'. injection Htip' as <-.
  rewrite new_height_ok by lia. run.
  destruct (ancestor_ok (E:=E) t Hs (t_tip t) tip last Htip ltac:(lia)) as (w & we & Hw & Hdw & Hwe & Hwh).
  rewrite Hw. run. pose proof (active_ancestor p t Hwf _ w tip we Htip Hwe Htact Hdw) as Hwa.
  destruct (headers_back_ok (S (Z.to_nat (tree_len t))) w we (e_height fe + 1) Hwe ltac:(lia)) as [Hback [hs Hhs]].
  { pose proof (height_range es Hs w we Hwe). apply get_Some_range in Hwe. unfold tree_len. lia. }
  pose proof (headers_range w we (e_height fe + 1) Hwe Hwa ltac:(lia) hs fe f Hhs Hfe ltac:(lia)) as Hserves.
  rewrite Hback. run. rewrite Hhs. change (default [] (Some hs)) with hs. rewrite Hwh in Hserves. pose proof Hserves as [Hlen _].
  rewrite (proj2 (Z.leb_le (len (reverse hs)) max)) by lia. run.
  exists f, fe, tip, (reverse hs). split_and!; try done; [lia|]. right. by exists last.
Qed.

(** Served headers connect to the fork and to each other. *)
Lemma serves_follows f fe last hs : get es f = Some fe -> active fe = true -> serves t f fe last hs ->
  follows (e_hash fe) hs.
Proof.
  intros Hf Hfa [_ Hall]. revert f fe Hf Hfa Hall. induction hs as [|h hs IH]; intros f fe Hf Hfa Hall; [done|].
  destruct (Hall 0%nat h eq_refl) as (a & ae & Ha & Haa & Hah & <-). cbn [follows].
  destruct (wf_tip p t Hwf) as [tip Htip].
  destruct (entry_cases es Hs a ae Ha) as [(_ & _ & ? & _)|(_ & q & qe & Hl)]; [pose proof (height_range es Hs f fe Hf); lia|].
  pose proof (linked_get _ _ _ _ _ Hl) as Hq. pose proof (linked_height _ _ _ _ _ Hl) as Hqh.
  assert (q = f) as ->.
  { apply (descends_unique es Hs (t_tip t) q f qe fe); try done; [| |lia].
    - eapply descends_trans; [by apply (wf_active p t Hwf a ae Ha)|]. econstructor; [done|by destruct Hl|constructor].
    - by apply (wf_active p t Hwf f fe Hf). }
  rewrite Hf in Hq. injection Hq as <-. split; [by destruct Hl|].
  rewrite <-(shape_hash es Hs a ae Ha). apply (IH a ae Ha Haa).
  intros i h' Hi. destruct (Hall (S i) h' Hi) as (b & be & ? & ? & ? & ?). exists b, be. split_and!; try done. lia.
Qed.
End answers.

(** ** Properties *)

(** A locator always ends, within Core's shape: for every node of a well-formed tree
    [locator] returns at most thirty-two hashes (its own assertion allows forty), the first
    the node's, the last genesis's, each an ancestor's.  And [headers_after] answers every
    bounded request from the active chain only: at most [max] headers, consecutive from just
    above a block of the peer's locator (or genesis) up to the tip, [max] or the stop block,
    each connecting to the one before, so the peer can accept them as they come. *)
Theorem locator_and_headers `{BitcoinCrate} p t n e loc stop max : tree_wf p t -> get (t_entries t) n = Some e ->
  len loc <= MAX_LOCATOR_ITEMS -> 0 < max <= MAX_HEADERS_ITEMS ->
  (exists l g, locator (E:=Empty_set) t n = Ok l /\ len l <= 32 /\ head l = Some (e_hash e) /\
    get (t_entries t) 0 = Some g /\ last l = Some (e_hash g) /\
    Forall (fun h => exists a ae, get (t_entries t) a = Some ae /\ descends (t_entries t) n a /\ e_hash ae = h) l) /\
  (exists f fe tip hs, headers_after (E:=Empty_set) t loc stop max = Ok hs /\
    get (t_entries t) f = Some fe /\ active fe = true /\ (f = 0 \/ e_hash fe ∈ loc) /\
    get (t_entries t) (t_tip t) = Some tip /\ len hs <= max /\ follows (e_hash fe) hs /\
    (e_height tip = e_height fe /\ hs = [] \/
     exists last, stops_at t stop (e_height fe + 1) max last /\ serves t f fe last hs)).
Proof.
  intros Hwf Hn Hloc Hmax. pose proof (wf_shape p t Hwf) as Hs. split.
  - destruct (locator_ok (E:=Empty_set) t Hs n e Hn) as (l & Hl & Htr & Hlen).
    destruct (trail_spec t Hs n l Htr ltac:(by eauto)) as ((e' & He' & Hhd) & (g & Hg & Hlast) & Hall).
    rewrite Hn in He'. injection He' as <-. by exists l, g.
  - destruct (headers_after_ok (E:=Empty_set) p t Hwf loc stop max Hloc Hmax) as (f & fe & tip & hs & Hhs & Hf & Hfa & Hor & Htip & Hlen & Hres).
    exists f, fe, tip, hs. split_and!; try done. destruct Hres as [[_ ->]|(last & _ & Hserves)]; [done|].
    by eapply (serves_follows p t Hwf f fe last).
Qed.

#[local] Existing Instance nonce_crate.

Lemma locator_and_headers_witness : (exists l, locator (E:=Empty_set) tree4 2 = Ok l /\ len l <= 32) /\
  exists hs, headers_after (E:=Empty_set) tree4 [block_hash header_c] [] 5 = Ok hs /\ len hs <= 5.
Proof.
  destruct (locator_and_headers mainnet_params tree4 2
    (default (mkEntry header_a [] 0 WORK_ZERO None None HeaderStatus.Genesis false) (get (t_entries tree4) 2))
    [block_hash header_c] [] 5 wf4) as [(l & g & Hl & Hlen & _) (f & fe & tip & hs & Hhs & _ & _ & _ & _ & Hmax & _)].
  - vm_compute. reflexivity.
  - vm_compute. congruence.
  - vm_compute. split; congruence.
  - split; [exists l; split; [exact Hl|exact Hlen]|exists hs; split; [exact Hhs|exact Hmax]].
Defined.
