(* ===== verification/StoreReader.v ===== *)
(** * StoreReader: reading bytes back off a disk, and Core's varint ([store/reader.rs])

    A [Reader] is the bytes it has left; every method returns them with its value. *)
From S2P Require Import Prelude.

Module DecodeError.
Inductive DecodeError :=
| Truncated (wanted left : Z)
| Trailing (left : Z)
| BadMagic (seen : bytes)
| BadChecksum
| BadVarint
| TooLong (declared limit : Z)
| NotAscending (input : Z)
| BadTag (tag : Z).
End DecodeError.
Notation DecodeError := DecodeError.DecodeError.

(** A method of [Reader]. *)
Definition reads (A : Type) : Type := bytes -> outcome DecodeError (A * bytes).

Module StoreReader.
Definition take (count : Z) : reads bytes := fun bs =>
  if count <=? len bs then Ok (firstn (Z.to_nat count) bs, skipn (Z.to_nat count) bs)
  else Err (DecodeError.Truncated count (len bs)).

Definition u8 : reads Z := fun bs =>
  '(taken, rest) ← take 1 bs;
  match taken with b :: _ => Ok (bz b, rest) | [] => Err DecodeError.BadVarint end.

Definition u32_le : reads Z := fun bs =>
  '(taken, rest) ← take 4 bs; Ok (le_val taken, rest).

Definition hash : reads bytes := fun bs => take 32 bs.

(** The loop of [varint], over the groups it may still read. *)
Fixpoint varint_loop (groups : nat) (value : Z) : reads Z := fun bs =>
  match groups with
  | O => Err DecodeError.BadVarint
  | S groups =>
      '(byte, rest) ← u8 bs;
      if Z.shiftr u64_max 7 <? value then Err DecodeError.BadVarint
      else
        let value := Z.lor (Z.shiftl value 7) (Z.land byte 0x7f) in
        if Z.land byte 0x80 =? 0 then Ok (value, rest)
        else if value =? u64_max then Err DecodeError.BadVarint
        else varint_loop groups (value + 1) rest
  end.
Definition varint : reads Z := varint_loop 10 0.

Definition count (limit : Z) : reads Z := fun bs =>
  '(declared, rest) ← varint bs;
  if limit <? declared then Err (DecodeError.TooLong declared limit) else Ok (declared, rest).

Definition finish (bs : bytes) : outcome DecodeError unit :=
  if bool_decide (bs = []) then Ok tt else Err (DecodeError.Trailing (len bs)).
End StoreReader.

(** The loop of [put_varint]: the groups least significant first.  The array of ten groups
    is the fuel, and the assertion after the loop says it was enough. *)
Fixpoint varint_groups {E} (room : nat) (flag left : Z) : outcome E bytes :=
  match room with
  | O => Panic
  | S room =>
      let group := zb (Z.lor (Z.land left 0x7f) flag) in
      if left <=? 0x7f then Ok [group]
      else
        rest ← varint_groups room 0x80 (Z.max 0 (Z.shiftr left 7 - 1));
        Ok (group :: rest)
  end.

Definition put_varint {E} (bs : bytes) (value : Z) : outcome E bytes :=
  groups ← varint_groups 10 0 value;
  Ok (bs ++ reverse groups).

(** ** Reading what was written *)

Lemma take_app (a b : bytes) : StoreReader.take (len a) (a ++ b) = Ok (a, b).
Proof.
  unfold StoreReader.take, len. rewrite (proj2 (Z.leb_le _ _)) by (rewrite length_app; lia).
  rewrite Nat2Z.id. change firstn with (@take byte). change skipn with (@drop byte).
  by rewrite take_app_length, drop_app_length.
Qed.

Lemma take_eq n (a b : bytes) : len a = n -> StoreReader.take n (a ++ b) = Ok (a, b).
Proof. intros <-. apply take_app. Qed.

Lemma u8_cons b bs : StoreReader.u8 (b :: bs) = Ok (bz b, bs).
Proof. unfold StoreReader.u8. change (b :: bs) with ([b] ++ bs). by rewrite (take_eq 1). Qed.

Lemma u32_le_app z bs : 0 <= z < 2 ^ 32 -> StoreReader.u32_le (le_bytes 4 z ++ bs) = Ok (z, bs).
Proof.
  intros Hz. unfold StoreReader.u32_le. rewrite take_eq by (unfold len; by rewrite length_le_bytes). run.
  rewrite le_val_bytes. change (256 ^ Z.of_nat 4) with (2 ^ 32). by rewrite Z.mod_small.
Qed.

(** The value of one group, and its flag. *)
Lemma group_bits left flag : 0 <= left -> flag = 0 \/ flag = 128 ->
  Z.land (bz (zb (Z.lor (Z.land left 0x7f) flag))) 0x7f = left mod 128 /\
  (Z.land (bz (zb (Z.lor (Z.land left 0x7f) flag))) 0x80 =? 0) = (flag =? 0).
Proof.
  intros Hl Hf. change 0x7f with (Z.ones 7). rewrite !Z.land_ones by lia. change (2 ^ 7) with 128.
  pose proof (Z.mod_pos_bound left 128 ltac:(lia)) as Hr.
  assert (Hlor : Z.lor (left mod 128) flag = left mod 128 + flag).
  { rewrite Z.lor_comm, Z.add_comm. apply (lor_disjoint_add flag (left mod 128) 7); [lia| |exact Hr].
    destruct Hf as [-> | ->]; done. }
  rewrite Hlor, bz_zb, (Z.mod_small (left mod 128 + flag) 256) by lia. split.
  - destruct Hf as [-> | ->]; [rewrite Z.add_0_r, Z.mod_mod by lia; done|].
    rewrite <-Z.add_mod_idemp_r by lia. change (128 mod 128) with 0. rewrite Z.add_0_r, Z.mod_mod by lia. done.
  - change 0x80 with (2 ^ 7). rewrite land_pow2_testbit by lia.
    rewrite Z.testbit_eqb by lia. change (2 ^ 7) with 128.
    destruct Hf as [-> | ->]; [rewrite Z.add_0_r, (Z.div_small (left mod 128)) by lia; done|].
    replace (left mod 128 + 128) with (left mod 128 + 1 * 128) by lia.
    rewrite Z.div_add, (Z.div_small (left mod 128)) by lia. done.
Qed.

(** Reading one group. *)
Lemma varint_step groups value left flag bs : 0 <= left -> flag = 0 \/ flag = 128 -> 0 <= value <= 2 ^ 57 - 1 ->
  StoreReader.varint_loop (S groups) value (zb (Z.lor (Z.land left 0x7f) flag) :: bs) =
    let v := 128 * value + left mod 128 in
    if flag =? 0 then Ok (v, bs)
    else if v =? u64_max then Err DecodeError.BadVarint else StoreReader.varint_loop groups (v + 1) bs.
Proof.
  intros Hl Hf Hv. cbn [StoreReader.varint_loop]. rewrite u8_cons. run.
  change (Z.shiftr u64_max 7) with (2 ^ 57 - 1). rewrite (proj2 (Z.ltb_ge (2 ^ 57 - 1) value)) by lia.
  destruct (group_bits left flag Hl Hf) as [-> ->]. pose proof (Z.mod_pos_bound left 128 ltac:(lia)).
  rewrite Z.shiftl_mul_pow2 by lia. change (2 ^ 7) with 128.
  rewrite (lor_disjoint_add (value * 128) (left mod 128) 7); [|lia|by rewrite Z.mod_mul|exact H].
  by replace (value * 128 + left mod 128) with (128 * value + left mod 128) by lia.
Qed.

(** The flagged groups of [u] read as [u + 1]. *)
Lemma flagged_read {E} n u gs groups bs : varint_groups (E:=E) n 0x80 u = Ok gs -> 0 <= u < 2 ^ 57 - 1 ->
  StoreReader.varint_loop (length gs + groups) 0 (reverse gs ++ bs) = StoreReader.varint_loop groups (u + 1) bs.
Proof.
  revert u gs groups bs. induction n as [|n IH]; intros u gs groups bs Hg Hu; [done|].
  cbn [varint_groups] in Hg. destruct (Z.leb_spec u 0x7f).
  - injection Hg as <-. cbn [length Nat.add]. change (reverse [_] ++ bs) with (zb (Z.lor (Z.land u 0x7f) 0x80) :: bs).
    rewrite varint_step by (lia || auto). cbn zeta. rewrite Z.mod_small by lia.
    rewrite (proj2 (Z.eqb_neq _ u64_max)) by (unfold u64_max; lia). done.
  - apply bind_Ok in Hg as (rest & Hrest & [= <-]).
    rewrite Z.shiftr_div_pow2 in Hrest by lia. change (2 ^ 7) with 128 in Hrest.
    rewrite Z.max_r in Hrest by dlia. cbn [length]. rewrite reverse_cons, <-app_assoc.
    replace (S (length rest) + groups)%nat with (length rest + S groups)%nat by lia.
    rewrite (IH _ _ (S groups) _ Hrest) by dlia. change ([?x] ++ bs) with (x :: bs).
    rewrite varint_step by (auto || dlia). cbn zeta.
    replace (128 * (u / 128 - 1 + 1) + u mod 128) with u by dlia.
    by rewrite (proj2 (Z.eqb_neq u u64_max)) by (unfold u64_max; lia).
Qed.

Lemma varint_groups_S {E} room flag left : varint_groups (E:=E) (S room) flag left =
  if left <=? 0x7f then Ok [zb (Z.lor (Z.land left 0x7f) flag)]
  else rest ← varint_groups room 0x80 (Z.max 0 (Z.shiftr left 7 - 1));
       Ok (zb (Z.lor (Z.land left 0x7f) flag) :: rest).
Proof. reflexivity. Qed.

Lemma groups_total {E} n flag v : 0 <= v < 2 ^ (7 * Z.of_nat n) -> (0 < n)%nat ->
  exists gs, varint_groups (E:=E) n flag v = Ok gs /\ (length gs <= n)%nat /\ gs <> [].
Proof.
  revert flag v. induction n as [|n IH]; intros flag v Hv Hn; [lia|]. cbn [varint_groups].
  destruct (Z.leb_spec v 0x7f); [eexists; split_and!; [done|cbn; lia|done]|].
  destruct n as [|n]; [cbn in Hv; lia|].
  replace (7 * Z.of_nat (S (S n))) with (7 + 7 * Z.of_nat (S n)) in Hv by lia. rewrite Z.pow_add_r in Hv by lia.
  rewrite Z.shiftr_div_pow2 by lia. change (2 ^ 7) with 128 in *.
  destruct (IH 0x80 (Z.max 0 (v / 128 - 1))) as (gs & -> & Hlen & _); [dlia|lia|].
  run. eexists. split_and!; [done|cbn; lia|done].
Qed.

(** A varint reads back as the value it was written from, and is at most ten bytes. *)
Lemma varint_roundtrip {E} v : 0 <= v <= u64_max -> exists gs, put_varint (E:=E) [] v = Ok gs /\
  1 <= len gs <= 10 /\ (forall bs, put_varint (E:=E) bs v = Ok (bs ++ gs)) /\
  forall bs, StoreReader.varint (gs ++ bs) = Ok (v, bs).
Proof.
  intros Hv. unfold u64_max in Hv.
  destruct (groups_total (E:=E) 10 0 v) as (gs & Hgs & Hlen & Hne); [cbn; lia|lia|].
  exists (reverse gs). unfold put_varint. rewrite Hgs. run. split; [done|]. split.
  { unfold len. rewrite length_reverse. destruct gs; [done|]. cbn [length] in *. lia. }
  split; [done|]. intros bs. unfold StoreReader.varint.
  rewrite varint_groups_S in Hgs. destruct (Z.leb_spec v 0x7f).
  - injection Hgs as <-. change (reverse [_] ++ bs) with (zb (Z.lor (Z.land v 0x7f) 0) :: bs).
    rewrite varint_step by (lia || auto). cbn zeta. by rewrite Z.mod_small by lia.
  - apply bind_Ok in Hgs as (rest & Hrest & [= <-]). cbn [length] in Hlen.
    rewrite Z.shiftr_div_pow2 in Hrest by lia. change (2 ^ 7) with 128 in Hrest. rewrite Z.max_r in Hrest by dlia.
    rewrite reverse_cons, <-app_assoc. replace 10%nat with (length rest + S (9 - length rest))%nat by lia.
    rewrite (flagged_read _ _ _ _ _ Hrest) by dlia. change ([?x] ++ bs) with (x :: bs).
    rewrite varint_step by (auto || dlia). cbn zeta. f_equal. f_equal. dlia.
Qed.

(** More room changes nothing, so a small value is a short varint. *)
Lemma groups_room {E} n m flag v gs : (n <= m)%nat -> varint_groups (E:=E) n flag v = Ok gs ->
  varint_groups (E:=E) m flag v = Ok gs.
Proof.
  revert m flag v gs. induction n as [|n IH]; intros m flag v gs Hm Hg; [done|].
  destruct m as [|m]; [lia|]. rewrite varint_groups_S in Hg |- *. destruct (v <=? 0x7f); [done|].
  apply bind_Ok in Hg as (rest & Hrest & Hg). by rewrite (IH m _ _ _ ltac:(lia) Hrest).
Qed.

Lemma varint_len {E} n v gs : 0 <= v < 2 ^ (7 * Z.of_nat n) -> (0 < n <= 10)%nat ->
  put_varint (E:=E) [] v = Ok gs -> len gs <= Z.of_nat n.
Proof.
  intros Hv Hn Hp. destruct (groups_total (E:=E) n 0 v Hv) as (gs' & Hgs & Hlen & _); [lia|].
  unfold put_varint in Hp. rewrite (groups_room n 10 _ _ _ ltac:(lia) Hgs) in Hp. injection Hp as <-.
  unfold len. cbn [app]. rewrite length_reverse. lia.
Qed.

Lemma varint_range groups value bs v rest : 0 <= value <= u64_max ->
  StoreReader.varint_loop groups value bs = Ok (v, rest) -> 0 <= v <= u64_max.
Proof.
  revert value bs. induction groups as [|groups IH]; intros value bs Hv H; [done|]. cbn [StoreReader.varint_loop] in H.
  apply bind_Ok in H as ([b bs'] & _ & H). change (Z.shiftr u64_max 7) with (2 ^ 57 - 1) in H.
  destruct (Z.ltb_spec (2 ^ 57 - 1) value); [done|]. rewrite Z.shiftl_mul_pow2 in H by lia.
  change 0x7f with (Z.ones 7) in H. rewrite Z.land_ones in H by lia. pose proof (Z.mod_pos_bound b (2 ^ 7) ltac:(lia)).
  rewrite (lor_disjoint_add (value * 2 ^ 7) _ 7) in H by (lia || by apply Z.mod_mul). unfold u64_max in *.
  destruct (Z.land b 0x80 =? 0); [injection H as <- <-; lia|]. destruct (Z.eqb_spec (value * 2 ^ 7 + b mod 2 ^ 7) (2 ^ 64 - 1)); [done|].
  apply IH in H; lia.
Qed.
