(* ===== verification/StoreCoin.v ===== *)
(** * StoreCoin: how a coin is written down ([store/coin.rs])

    Core's amount and script compression, and the round trip of a coin through it. *)
From S2P Require Import Prelude Bitcoin Params Interpreter Tx StoreReader.

Module StoreCoin.
Definition SPECIAL_SCRIPTS : Z := 6.
Definition P2PKH_LEN : Z := 25.
Definition P2SH_LEN : Z := 23.
Definition P2PK_COMPRESSED_LEN : Z := 35.

Record StoredCoin := mkStored { sc_height : Z; sc_coinbase : bool; sc_output : TxOut }.

#[global] Instance StoredCoin_eq_dec : EqDecision StoredCoin.
Proof. solve_decision. Defined.

(** The loop of [compress_amount] over the zeros it may still strip. *)
Fixpoint strip_zeros (room : nat) (left exponent : Z) : Z * Z :=
  match room with
  | O => (left, exponent)
  | S room => if left mod 10 =? 0 then strip_zeros room (left / 10) (saturating_add exponent 1)
              else (left, exponent)
  end.

Definition compress_amount {E} (value : Z) : outcome E Z :=
  if value =? 0 then Ok 0
  else
    let '(remaining, exponent) := strip_zeros 9 value 0 in
    if exponent <? 9 then
      let digit := remaining mod 10 in
      assert_ ((1 <=? digit) && (digit <=? 9));;
      let left := remaining / 10 in
      Ok (saturating_add (saturating_add (saturating_mul (saturating_sub (saturating_add
            (saturating_mul left 9) digit) 1) 10) exponent) 1)
    else Ok (saturating_add (saturating_add (saturating_mul (saturating_sub remaining 1) 10) 9) 1).

Definition too_long {A} (value : Z) : outcome DecodeError A :=
  Err (DecodeError.TooLong value MAX_MONEY).

(** [checked.ok_or_else(|| too_long(encoded))]. *)
Definition checked (encoded x : Z) : outcome DecodeError Z :=
  match try_from u64_max x with Some x => Ok x | None => too_long encoded end.

(** The loop of [decompress_amount]: the zeros put back. *)
Fixpoint restore_zeros (encoded : Z) (exponent : nat) (value : Z) : outcome DecodeError Z :=
  match exponent with
  | O => Ok value
  | S exponent => value ← checked encoded (value * 10); restore_zeros encoded exponent value
  end.

Definition decompress_amount (encoded : Z) : outcome DecodeError Z :=
  if encoded =? 0 then Ok 0
  else
    let left := saturating_sub encoded 1 in
    let exponent := left mod 10 in
    let left := left / 10 in
    value ←
      (if exponent <? 9 then
         let digit := saturating_add (left mod 9) 1 in
         let left := left / 9 in
         shifted ← checked encoded (left * 10);
         checked encoded (shifted + digit)
       else checked encoded (left + 1));
    value ← restore_zeros encoded (Z.to_nat exponent) value;
    if MAX_MONEY <? value then too_long value else Ok value.

Definition ends_with (l p : bytes) : bool := bool_decide (drop (length l - length p) l = p).

Definition p2pkh_hash (script : bytes) : option bytes :=
  if negb (len script =? P2PKH_LEN) then None
  else
    let opens := starts_with script [x76; xa9; x14] in
    let closes := ends_with script [x88; xac] in
    if opens && closes then slice script 3 23 else None.

Definition p2sh_hash (script : bytes) : option bytes :=
  if negb (len script =? P2SH_LEN) then None
  else if starts_with script [xa9; x14] && ends_with script [x87] then slice script 2 22
  else None.

Definition p2pk_compressed (script : bytes) : option (Z * bytes) :=
  if negb (len script =? P2PK_COMPRESSED_LEN) then None
  else if negb (bool_decide (head script = Some x21)) || negb (bool_decide (last script = Some xac)) then None
  else
    parity ← get script 1;
    if negb (bz parity =? 2) && negb (bz parity =? 3) then None
    else key ← slice script 2 34; Some (bz parity, key).

Definition put_script {E} (bs : bytes) (script : bytes) : outcome E bytes :=
  assert_ (len script <=? MAX_SCRIPT_SIZE);;
  match p2pkh_hash script with
  | Some hash => bs ← put_varint bs 0; Ok (bs ++ hash)
  | None =>
      match p2sh_hash script with
      | Some hash => bs ← put_varint bs 1; Ok (bs ++ hash)
      | None =>
          match p2pk_compressed script with
          | Some (parity, key) => bs ← put_varint bs parity; Ok (bs ++ key)
          | None => bs ← put_varint bs (saturating_add (len script) SPECIAL_SCRIPTS); Ok (bs ++ script)
          end
      end
  end.

Definition read_script : reads bytes := fun bs =>
  '(template, bs) ← StoreReader.varint bs;
  if template =? 0 then
    '(hash, bs) ← StoreReader.take 20 bs; Ok ([x76; xa9; x14] ++ hash ++ [x88; xac], bs)
  else if template =? 1 then
    '(hash, bs) ← StoreReader.take 20 bs; Ok ([xa9; x14] ++ hash ++ [x87], bs)
  else if (template =? 2) || (template =? 3) then
    '(key, bs) ← StoreReader.take 32 bs; Ok ([x21; zb template] ++ key ++ [xac], bs)
  else if (template =? 4) || (template =? 5) then Err (DecodeError.BadTag 4)
  else
    let length := saturating_sub template SPECIAL_SCRIPTS in
    if MAX_SCRIPT_SIZE <? length then Err (DecodeError.TooLong length MAX_SCRIPT_SIZE)
    else StoreReader.take length bs.

Definition put {E} (bs : bytes) (coin : StoredCoin) : outcome E bytes :=
  let code := saturating_add (saturating_mul (sc_height coin) 2) (if sc_coinbase coin then 1 else 0) in
  assert_ (Z.shiftr code 1 =? sc_height coin);;
  bs ← put_varint bs code;
  amount ← compress_amount (txout_value (sc_output coin));
  bs ← put_varint bs amount;
  put_script bs (script_pubkey (sc_output coin)).

Definition read : reads StoredCoin := fun bs =>
  '(code, bs) ← StoreReader.varint bs;
  let coinbase := Z.land code 1 =? 1 in
  height ← match try_from u32_max (Z.shiftr code 1) with
           | Some height => Ok height
           | None => Err (DecodeError.TooLong (Z.shiftr code 1) u32_max)
           end;
  '(encoded, bs) ← StoreReader.varint bs;
  value ← decompress_amount encoded;
  '(script, bs) ← read_script bs;
  height ← Height.new height;
  Ok (mkStored height coinbase (mkTxOut value script), bs).
End StoreCoin.
Notation StoredCoin := StoreCoin.StoredCoin.

Import StoreCoin.

(** ** Amounts *)

(** The code of [m] tens-free units and [e] stripped zeros. *)
Definition amount_code (m e : Z) : Z :=
  if e <? 9 then 1 + (m / 10 * 9 + m mod 10 - 1) * 10 + e else 10 * m.

Definition stripped (m : Z) (e : nat) : Prop := 0 < m /\ (e <= 9)%nat /\ (m mod 10 <> 0 \/ e = 9%nat).

Lemma strip_zeros_eq room m e x : 0 < m -> (e <= room)%nat -> m mod 10 <> 0 \/ e = room ->
  0 <= x -> x + Z.of_nat room <= 20 -> strip_zeros room (m * 10 ^ Z.of_nat e) x = (m, x + Z.of_nat e).
Proof.
  revert m e x. induction room as [|room IH]; intros m e x Hm He Hc Hx Hr.
  { replace e with O by lia. cbn. f_equal; lia. }
  destruct e as [|e]; cbn [strip_zeros].
  { rewrite (proj2 (Z.eqb_neq _ 0)) by (rewrite Z.mul_1_r; lia). f_equal; lia. }
  rewrite Nat2Z.inj_succ, Z.pow_succ_r by lia.
  replace (m * (10 * 10 ^ Z.of_nat e)) with (m * 10 ^ Z.of_nat e * 10) by lia.
  rewrite Z.mod_mul, Z.div_mul by lia. cbn [Z.eqb]. rewrite saturating_add_ok by (unfold u64_max; lia).
  rewrite IH by lia. f_equal. lia.
Qed.

Lemma stripped_exists v : 0 < v -> exists m e, v = m * 10 ^ Z.of_nat e /\ stripped m e.
Proof.
  intros Hv. assert (H : forall n, exists m e, v = m * 10 ^ Z.of_nat e /\ 0 < m /\ (e <= n)%nat /\ (m mod 10 <> 0 \/ e = n));
    [|destruct (H 9%nat) as (m & e & ? & ?); exists m, e; done].
  induction n as [|n (m & e & -> & Hm & He & Hc)].
  { exists v, O. split_and!; try lia. }
  destruct (decide (m mod 10 = 0)) as [H0|]; [|exists m, e; split_and!; auto].
  exists (m / 10), (S e). rewrite Nat2Z.inj_succ, Z.pow_succ_r by lia.
  assert (Hd : m = 10 * (m / 10)) by dlia. split_and!; [rewrite Hd at 1; lia|dlia|lia|right; lia].
Qed.

Lemma pow10_ge e : 1 <= 10 ^ Z.of_nat e.
Proof. apply (Z.pow_le_mono_r 10 0); lia. Qed.

Lemma compress_code {E} m e : stripped m e -> m * 10 ^ Z.of_nat e <= MAX_MONEY ->
  compress_amount (E:=E) (m * 10 ^ Z.of_nat e) = Ok (amount_code m (Z.of_nat e)) /\
  0 < amount_code m (Z.of_nat e) <= 10 * MAX_MONEY.
Proof.
  intros (Hm & He & Hc) Hv. pose proof (pow10_ge e). assert (Hmv : m <= MAX_MONEY) by nia.
  unfold MAX_MONEY in *. unfold compress_amount, amount_code. rewrite (proj2 (Z.eqb_neq _ 0)) by nia.
  rewrite strip_zeros_eq by lia. rewrite Z.add_0_l. destruct (Z.ltb_spec (Z.of_nat e) 9).
  - assert (Hd : 1 <= m mod 10 <= 9) by dlia.
    rewrite (proj2 (Z.leb_le 1 (m mod 10))), (proj2 (Z.leb_le (m mod 10) 9)) by lia. run.
    assert (0 <= m / 10 <= m) by dlia.
    split; [f_equal; unfold saturating_add, saturating_mul, saturating_sub, u64_max; lia|dlia].
  - split; [f_equal; unfold saturating_add, saturating_mul, saturating_sub, u64_max; lia|lia].
Qed.

Lemma checked_ok encoded x : 0 <= x <= u64_max -> checked encoded x = Ok x.
Proof. intros Hx. unfold checked. by rewrite try_from_ok. Qed.

Lemma checked_Ok encoded x y : checked encoded x = Ok y -> y = x.
Proof. unfold checked. destruct (try_from u64_max x) eqn:Ht; [|done]. intros [= <-]. by apply try_from_Some in Ht as []. Qed.

Lemma restore_zeros_eq encoded e v : 0 <= v -> v * 10 ^ Z.of_nat e <= MAX_MONEY ->
  restore_zeros encoded e v = Ok (v * 10 ^ Z.of_nat e).
Proof.
  revert v. induction e as [|e IH]; intros v Hv Hm; cbn [restore_zeros]; [f_equal; lia|].
  rewrite Nat2Z.inj_succ, Z.pow_succ_r in * by lia. pose proof (pow10_ge e).
  rewrite checked_ok by (unfold MAX_MONEY, u64_max in *; nia). run. rewrite IH by lia. f_equal. lia.
Qed.

Lemma restore_zeros_Ok encoded e v w : restore_zeros encoded e v = Ok w -> w = v * 10 ^ Z.of_nat e.
Proof.
  revert v. induction e as [|e IH]; intros v; cbn [restore_zeros]; [intros [= <-]; cbn; lia|].
  intros H. apply bind_Ok in H as (y & Hy & H). apply checked_Ok in Hy as ->. apply IH in H as ->.
  rewrite Nat2Z.inj_succ, Z.pow_succ_r by lia. lia.
Qed.

Lemma decompress_code m e : stripped m e -> m * 10 ^ Z.of_nat e <= MAX_MONEY ->
  decompress_amount (amount_code m (Z.of_nat e)) = Ok (m * 10 ^ Z.of_nat e).
Proof.
  intros Hs Hv. destruct (compress_code (E:=Empty_set) m e Hs Hv) as [_ Hr]. destruct Hs as (Hm & He & Hc).
  pose proof (pow10_ge e). assert (Hmv : m <= MAX_MONEY) by nia.
  unfold decompress_amount. rewrite (proj2 (Z.eqb_neq _ 0)) by lia. rewrite saturating_sub_ok by lia.
  assert (Hc' : amount_code m (Z.of_nat e) - 1 = (if Z.of_nat e <? 9 then m / 10 * 9 + m mod 10 - 1 else m - 1) * 10 + Z.of_nat e).
  { unfold amount_code. destruct (Z.ltb_spec (Z.of_nat e) 9); lia. }
  cbn zeta. rewrite Hc'. clear Hc' Hr. set (q := if Z.of_nat e <? 9 then _ else _).
  replace ((q * 10 + Z.of_nat e) mod 10) with (Z.of_nat e) by dlia.
  replace ((q * 10 + Z.of_nat e) / 10) with q by dlia. rewrite Nat2Z.id.
  match goal with |- context [if Z.of_nat e <? 9 then ?x else ?y] =>
    assert (Hq : (if Z.of_nat e <? 9 then x else y) = Ok m); [|rewrite Hq; run] end.
  - unfold q. unfold MAX_MONEY in Hmv. destruct (Z.ltb_spec (Z.of_nat e) 9); [|rewrite checked_ok by (unfold u64_max; lia); f_equal; lia].
    assert (Hd : 1 <= m mod 10 <= 9) by dlia. assert (0 <= m / 10 <= m) by dlia.
    replace ((m / 10 * 9 + m mod 10 - 1) mod 9) with (m mod 10 - 1) by dlia.
    replace ((m / 10 * 9 + m mod 10 - 1) / 9) with (m / 10) by dlia. cbn zeta.
    rewrite saturating_add_ok by (unfold u64_max; lia). rewrite checked_ok by (unfold u64_max; dlia). run.
    rewrite checked_ok by (unfold u64_max; dlia). f_equal. dlia.
  - rewrite restore_zeros_eq by lia. run. by rewrite (proj2 (Z.ltb_ge MAX_MONEY _)) by lia.
Qed.

(** Every amount compresses, and reads back. *)
Lemma amount_roundtrip {E} v : 0 <= v <= MAX_MONEY -> exists code, compress_amount (E:=E) v = Ok code /\
  0 <= code <= 10 * MAX_MONEY /\ decompress_amount code = Ok v.
Proof.
  intros Hv. destruct (decide (v = 0)) as [->|]; [by exists 0|].
  destruct (stripped_exists v ltac:(lia)) as (m & e & -> & Hs).
  destruct (compress_code (E:=E) m e Hs (proj2 Hv)) as [Hc Hr]. exists (amount_code m (Z.of_nat e)).
  split; [done|]. split; [lia|]. apply decompress_code; [done|lia].
Qed.

(** And nothing else reads back: a code that decompresses is the one its amount compresses to. *)
Lemma amount_canonical {E} code v : 0 <= code -> decompress_amount code = Ok v ->
  0 <= v <= MAX_MONEY /\ compress_amount (E:=E) v = Ok code.
Proof.
  intros Hc Hd. unfold decompress_amount in Hd. destruct (Z.eqb_spec code 0) as [->|H0].
  { injection Hd as <-. by vm_compute. }
  cbn zeta in Hd. rewrite saturating_sub_ok in Hd by lia. set (q := (code - 1) / 10) in *. set (e := (code - 1) mod 10) in *.
  assert (He : 0 <= e < 10) by (unfold e; dlia). assert (Hq : 0 <= q) by (unfold q; dlia).
  assert (Hqe : code = q * 10 + e + 1) by (unfold q, e; dlia). clearbody q e.
  apply bind_Ok in Hd as (m & Hm & Hd). apply bind_Ok in Hd as (w & Hw & Hd). apply restore_zeros_Ok in Hw as ->.
  destruct (Z.ltb_spec MAX_MONEY (m * 10 ^ Z.of_nat (Z.to_nat e))) as [|Hv]; [done|]. injection Hd as <-.
  assert (Hs : stripped m (Z.to_nat e) /\ amount_code m e = code).
  { unfold amount_code, stripped. destruct (Z.ltb_spec e 9); [|apply checked_Ok in Hm as ->; split; [|lia]; split_and!; [lia|lia|right; lia]].
    cbn zeta in Hm. apply bind_Ok in Hm as (s & Hs & Hm). apply checked_Ok in Hs as ->. apply checked_Ok in Hm as ->.
    rewrite saturating_add_ok by (unfold u64_max; dlia). split; [split_and!; [dlia|lia|left; dlia]|dlia]. }
  destruct Hs as [Hs <-]. pose proof (pow10_ge (Z.to_nat e)). pose proof (proj1 Hs).
  split; [split; [apply Z.mul_nonneg_nonneg; lia|done]|].
  destruct (compress_code (E:=E) m (Z.to_nat e) Hs Hv) as [Hcode _]. by rewrite Z2Nat.id in Hcode |- * by lia.
Qed.

(** ** Scripts *)

Lemma slice_around (s h : bytes) a b : slice s a b = Some h ->
  s = take (Z.to_nat a) s ++ h ++ drop (Z.to_nat b) s /\ len h = b - a.
Proof.
  intros Hs. split; [|by apply len_slice in Hs]. apply slice_Some in Hs as (Ha & Hb & ->).
  rewrite <-(take_drop (Z.to_nat a) s) at 1. f_equal. rewrite <-(take_drop (Z.to_nat (b - a)) (drop (Z.to_nat a) s)) at 1.
  f_equal. rewrite drop_drop. f_equal. lia.
Qed.

Lemma opening (s p : bytes) : starts_with s p = true -> take (length p) s = p.
Proof. unfold starts_with. by case_bool_decide. Qed.

Lemma closing (s p : bytes) : ends_with s p = true -> drop (length s - length p) s = p.
Proof. unfold ends_with. by case_bool_decide. Qed.

Lemma p2pkh_hash_Some s h : p2pkh_hash s = Some h -> s = [x76; xa9; x14] ++ h ++ [x88; xac] /\ len h = 20.
Proof.
  unfold p2pkh_hash, P2PKH_LEN. intros H. destruct (Z.eqb_spec (len s) 25) as [Hl|]; [|done]. cbn in H.
  destruct (starts_with s _) eqn:Ho; [|done]. destruct (ends_with s _) eqn:Hc; [|done]. cbn in H.
  apply opening in Ho. apply closing in Hc. apply slice_around in H as [Hs Hh]. split; [|done].
  replace (length s) with 25%nat in Hc by (unfold len in Hl; lia). rewrite Hs at 1. f_equal; [exact Ho|]. f_equal. exact Hc.
Qed.

Lemma p2sh_hash_Some s h : p2sh_hash s = Some h -> s = [xa9; x14] ++ h ++ [x87] /\ len h = 20.
Proof.
  unfold p2sh_hash, P2SH_LEN. intros H. destruct (Z.eqb_spec (len s) 23) as [Hl|]; [|done]. cbn in H.
  destruct (starts_with s _) eqn:Ho; [|done]. destruct (ends_with s _) eqn:Hc; [|done]. cbn in H.
  apply opening in Ho. apply closing in Hc. apply slice_around in H as [Hs Hh]. split; [|done].
  replace (length s) with 23%nat in Hc by (unfold len in Hl; lia). rewrite Hs at 1. f_equal; [exact Ho|]. f_equal. exact Hc.
Qed.

Lemma p2pk_compressed_Some s p k : p2pk_compressed s = Some (p, k) ->
  s = [x21; zb p] ++ k ++ [xac] /\ len k = 32 /\ (p = 2 \/ p = 3).
Proof.
  unfold p2pk_compressed, P2PK_COMPRESSED_LEN. intros H. destruct (Z.eqb_spec (len s) 35) as [Hl|]; [|done]. cbn in H.
  case_bool_decide as Ho; [|done]. case_bool_decide as Hc; [|done]. cbn [negb orb] in H.
  apply bind_Some in H as (b & Hg & H). destruct (Z.eqb_spec (bz b) 2), (Z.eqb_spec (bz b) 3); cbn [negb andb] in H; try done.
  all: apply bind_Some in H as (key & Hk & [= <- <-]).
  all: apply slice_around in Hk as [Hs Hh]; split_and!; auto; rewrite zb_bz; rewrite Hs at 1.
  all: unfold get in Hg; cbn in Hg; destruct s as [|x [|y s]]; try done; cbn in Ho, Hg; injection Ho as ->; injection Hg as ->.
  all: change (take (Z.to_nat 2) (x21 :: b :: s)) with [x21; b]; f_equal; f_equal.
  all: rewrite last_lookup in Hc; unfold len in Hl; replace (pred (length (x21 :: b :: s))) with 34%nat in Hc by lia.
  all: apply drop_S in Hc; change (Z.to_nat 34) with 34%nat; rewrite Hc; f_equal; apply drop_ge; lia.
Qed.

Lemma put_script_spec {E} s : len s <= MAX_SCRIPT_SIZE -> exists bs, put_script (E:=E) [] s = Ok bs /\
  len bs <= 3 + MAX_SCRIPT_SIZE /\
  (forall pre, put_script (E:=E) pre s = Ok (pre ++ bs)) /\ forall rest, read_script (bs ++ rest) = Ok (s, rest).
Proof.
  intros Hs. pose proof (len_nonneg s). unfold MAX_SCRIPT_SIZE in Hs. unfold put_script, MAX_SCRIPT_SIZE.
  rewrite (proj2 (Z.leb_le (len s) 10000)) by lia. run.
  assert (Hwrite : forall v (tail : bytes), 0 <= v < 16384 -> len tail <= 10000 -> exists gs,
    put_varint (E:=E) [] v = Ok gs /\ len (gs ++ tail) <= 3 + 10000 /\
    (forall pre, (pre' ← put_varint (E:=E) pre v; Ok (pre' ++ tail)) = Ok (pre ++ gs ++ tail)) /\
    forall rest, StoreReader.varint ((gs ++ tail) ++ rest) = Ok (v, tail ++ rest)).
  { intros v tail Hv Ht. destruct (varint_roundtrip (E:=E) v) as (gs & Hgs & _ & Hpre & Hread); [unfold u64_max; lia|].
    exists gs. split; [done|]. split; [rewrite len_app; pose proof (varint_len 2 v gs ltac:(cbn; lia) ltac:(lia) Hgs); lia|].
    split; [intros pre; rewrite Hpre; run; by rewrite <-app_assoc|]. intros rest. rewrite <-app_assoc. apply Hread. }
  destruct (p2pkh_hash s) as [h|] eqn:H1; [|destruct (p2sh_hash s) as [h|] eqn:H2;
    [|destruct (p2pk_compressed s) as [[p k]|] eqn:H3]].
  - apply p2pkh_hash_Some in H1 as [-> Hh]. destruct (Hwrite 0 h) as (gs & -> & Hl & Hpre & Hr); [lia|lia|].
    exists (gs ++ h). run. split_and!; auto. intros rest. unfold read_script. rewrite Hr. run. cbn [Z.eqb].
    by rewrite take_eq.
  - apply p2sh_hash_Some in H2 as [-> Hh]. destruct (Hwrite 1 h) as (gs & -> & Hl & Hpre & Hr); [lia|lia|].
    exists (gs ++ h). run. split_and!; auto. intros rest. unfold read_script. rewrite Hr. run. cbn [Z.eqb].
    by rewrite take_eq.
  - apply p2pk_compressed_Some in H3 as (-> & Hk & Hp). destruct (Hwrite p k) as (gs & -> & Hl & Hpre & Hr); [lia|lia|].
    exists (gs ++ k). run. split_and!; auto. intros rest. unfold read_script. rewrite Hr. run.
    destruct Hp as [-> | ->]; cbn [Z.eqb Pos.eqb orb]; by rewrite take_eq.
  - unfold SPECIAL_SCRIPTS. rewrite saturating_add_ok by (unfold u64_max; lia).
    destruct (Hwrite (len s + 6) s) as (gs & -> & Hl & Hpre & Hr); [lia|lia|].
    exists (gs ++ s). run. split_and!; auto. intros rest. unfold read_script, SPECIAL_SCRIPTS, MAX_SCRIPT_SIZE. rewrite Hr. run.
    rewrite !(proj2 (Z.eqb_neq (len s + 6) _)) by lia. cbn [orb]. rewrite saturating_sub_ok by lia.
    rewrite (proj2 (Z.ltb_ge 10000 _)) by lia. apply take_eq. lia.
Qed.

(** ** Coins *)

Record coin_typed (c : StoredCoin) : Prop := {
  ct_height : Height.valid (sc_height c);
  ct_value : 0 <= txout_value (sc_output c) <= MAX_MONEY;
  ct_script : len (script_pubkey (sc_output c)) <= MAX_SCRIPT_SIZE;
}.

(** One coin at its largest: [MAX_COIN_BYTES] of [store/undo.rs]. *)
Definition MAX_COIN_BYTES : Z := 5 + 9 + 3 + MAX_SCRIPT_SIZE.

(** A coin is written without panic, within its bound, and reads back as itself with what
    followed it untouched. *)
Lemma coin_spec {E} c : coin_typed c -> exists bs, put (E:=E) [] c = Ok bs /\ len bs <= MAX_COIN_BYTES /\
  (forall pre, put (E:=E) pre c = Ok (pre ++ bs)) /\ forall rest, read (bs ++ rest) = Ok (c, rest).
Proof.
  intros [Hh Hv Hs]. destruct c as [height cb [value script]]. cbn [sc_height sc_output txout_value script_pubkey] in *.
  unfold Height.valid, Height.MAX in Hh. set (bit := if cb then 1 else 0). assert (Hbit : 0 <= bit <= 1) by (unfold bit; destruct cb; lia).
  destruct (varint_roundtrip (E:=E) (height * 2 + bit)) as (g1 & Hg1 & _ & Hp1 & Hr1); [unfold u64_max; lia|].
  destruct (amount_roundtrip (E:=E) value Hv) as (code & Hcode & Hcr & Hdec). unfold MAX_MONEY in Hcr.
  destruct (varint_roundtrip (E:=E) code) as (g2 & Hg2 & _ & Hp2 & Hr2); [unfold u64_max; lia|].
  destruct (put_script_spec (E:=E) script Hs) as (g3 & Hg3 & Hl3 & Hp3 & Hr3).
  pose proof (varint_len 5 (height * 2 + bit) g1 ltac:(cbn; lia) ltac:(lia) Hg1). pose proof (varint_len 9 code g2 ltac:(cbn; lia) ltac:(lia) Hg2).
  assert (Hput : forall pre, put (E:=E) pre (mkStored height cb (mkTxOut value script)) = Ok (pre ++ g1 ++ g2 ++ g3)).
  { intros pre. unfold put. cbn [sc_height sc_coinbase sc_output txout_value script_pubkey]. fold bit.
    rewrite (saturating_mul_ok height) by (unfold u64_max; lia). rewrite saturating_add_ok by (unfold u64_max; lia).
    rewrite Z.shiftr_div_pow2 by lia. rewrite (proj2 (Z.eqb_eq ((height * 2 + bit) / 2 ^ 1) height)) by (change (2 ^ 1) with 2; dlia).
    run. rewrite Hp1. run. rewrite Hcode. run. rewrite Hp2. run. rewrite Hp3. by rewrite <-!app_assoc. }
  exists (g1 ++ g2 ++ g3). split; [apply (Hput [])|]. split; [rewrite !len_app; unfold MAX_COIN_BYTES in *; lia|].
  split; [exact Hput|]. intros rest. unfold read. rewrite <-!app_assoc, Hr1. run.
  rewrite Z.shiftr_div_pow2 by lia. change (2 ^ 1) with 2. replace ((height * 2 + bit) / 2) with height by dlia.
  rewrite try_from_ok by (unfold u32_max; lia). run. rewrite Hr2. run. rewrite Hdec. run. rewrite Hr3. run.
  unfold Height.new, Height.MAX. rewrite (proj2 (Z.leb_le height _)) by lia. run. do 3 f_equal.
  change 1 with (Z.ones 1) at 1. rewrite Z.land_ones by lia. change (2 ^ 1) with 2.
  replace ((height * 2 + bit) mod 2) with bit by dlia. unfold bit. by destruct cb.
Qed.
