(* ===== verification/StoreUndo.v ===== *)
(** * StoreUndo: the undo record ([store/undo.rs])

    What connecting a block destroyed: building it from a delta, writing it down, reading
    it back and pairing it with the block again. *)
From Stdlib Require Import Sorting.Sorted.
From S2P Require Import Prelude Bitcoin Params Interpreter Tx StoreReader StoreCoin.

Module Undo.
Definition TRAILER_BYTES : Z := 32.
Definition MIN_INPUT_BYTES : Z := 41.
Definition MIN_OUTPUT_BYTES : Z := 9.
Definition MAX_BLOCK_INPUTS : Z := MAX_BLOCK_WEIGHT / WITNESS_SCALE_FACTOR / MIN_INPUT_BYTES.
Definition MAX_BLOCK_OUTPUTS : Z := MAX_BLOCK_WEIGHT / WITNESS_SCALE_FACTOR / MIN_OUTPUT_BYTES.
Definition MAX_UNDO_RECORD_BYTES : Z :=
  5 + MAX_BLOCK_INPUTS * (3 + MAX_COIN_BYTES) + 5 + MAX_BLOCK_OUTPUTS * (36 + MAX_COIN_BYTES).

Record UndoCoin := mkUndoCoin { input : Z; coin : StoredCoin }.
Record UndoRecord := mkUndo { spent : list UndoCoin; overwritten : list (OutPoint * StoredCoin) }.

Definition spends (block : Block) : list OutPoint :=
  concat (map (fun tx => map previous_output (tx_input tx)) (drop 1 (blk_txdata block))).

Definition stored (c : Coin) : StoredCoin := StoreCoin.mkStored (coin_height c) (coinbase c) (output c).

(** The inner loop of [UndoRecord::of], over what the outpoints hold from [index] on. *)
Fixpoint seek (rest : list OutPoint) (index : Z) (o : OutPoint) : Z :=
  match rest with
  | [] => index
  | x :: rest => if decide (x = o) then index else seek rest (saturating_add index 1) o
  end.

Definition of_step {E} (outpoints : list OutPoint) (st : list UndoCoin * Z) (c : Coin)
    : outcome E (list UndoCoin * Z) :=
  let '(coins, cursor) := st in
  let index := seek (drop (Z.to_nat cursor) outpoints) cursor (outpoint c) in
  assert_ (index <? len outpoints);;
  let coin := mkUndoCoin (default u32_max (try_from u32_max index)) (stored c) in
  Ok (coins ++ [coin], saturating_add index 1).

(** [UndoRecord::of]. *)
Definition of_ {E} (spent overwritten : list Coin) (block : Block) : outcome E UndoRecord :=
  let outpoints := spends block in
  assert_ (len spent <=? len outpoints);;
  '(coins, _) ← foldM (of_step outpoints) ([], 0) spent;
  Ok (mkUndo coins (map (fun c => (outpoint c, stored c)) overwritten)).

Section encode.
Context `{Encoding}.

Definition encode_spent {E} (bs : bytes) (entry : UndoCoin) : outcome E bytes :=
  bs ← put_varint bs (input entry);
  StoreCoin.put bs (coin entry).

Definition encode_overwritten {E} (bs : bytes) (entry : OutPoint * StoredCoin) : outcome E bytes :=
  StoreCoin.put (bs ++ enc_outpoint entry.1) entry.2.

Definition encode {E} (self : UndoRecord) : outcome E bytes :=
  bs ← put_varint [] (len (spent self));
  bs ← foldM encode_spent bs (spent self);
  bs ← put_varint bs (len (overwritten self));
  foldM encode_overwritten bs (overwritten self).
End encode.

(** The two loops of [decode], over what is left to read. *)
Fixpoint decode_spent (count : nat) (previous : option Z) (coins : list UndoCoin) : reads (list UndoCoin) := fun bs =>
  match count with
  | O => Ok (coins, bs)
  | S count =>
      '(input, bs) ← StoreReader.count MAX_BLOCK_INPUTS bs;
      let input := default u32_max (try_from u32_max input) in
      if match previous with Some last => input <=? last | None => false end
      then Err (DecodeError.NotAscending input)
      else
        '(coin, bs) ← StoreCoin.read bs;
        decode_spent count (Some input) (coins ++ [mkUndoCoin input coin]) bs
  end.

Fixpoint decode_overwritten (count : nat) (coins : list (OutPoint * StoredCoin))
    : reads (list (OutPoint * StoredCoin)) := fun bs =>
  match count with
  | O => Ok (coins, bs)
  | S count =>
      '(txid, bs) ← StoreReader.hash bs;
      '(vout, bs) ← StoreReader.u32_le bs;
      '(coin, bs) ← StoreCoin.read bs;
      decode_overwritten count (coins ++ [(mkOutPoint txid vout, coin)]) bs
  end.

Definition decode (bs : bytes) : outcome DecodeError UndoRecord :=
  '(count, bs) ← StoreReader.count MAX_BLOCK_INPUTS bs;
  '(spent, bs) ← decode_spent (Z.to_nat count) None [] bs;
  '(count, bs) ← StoreReader.count MAX_BLOCK_OUTPUTS bs;
  '(overwritten, bs) ← decode_overwritten (Z.to_nat count) [] bs;
  StoreReader.finish bs;;
  Ok (mkUndo spent overwritten).

Definition resolve_step (outpoints : list OutPoint) (restored : list (OutPoint * StoredCoin)) (entry : UndoCoin)
    : outcome DecodeError (list (OutPoint * StoredCoin)) :=
  match get outpoints (input entry) with
  | None => Err (DecodeError.TooLong (input entry) (len outpoints))
  | Some o => Ok (restored ++ [(o, coin entry)])
  end.

Definition resolve (self : UndoRecord) (block : Block) : outcome DecodeError (list (OutPoint * StoredCoin)) :=
  let outpoints := spends block in
  restored ← foldM (resolve_step outpoints) [] (spent self);
  Ok (restored ++ overwritten self).

Definition trailer `{Hashes} (record previous : bytes) : bytes := sha256d (previous ++ record).
End Undo.
Notation UndoRecord := Undo.UndoRecord.

(** [consensus_encode] of an [OutPoint] is the id and the index, little-endian. *)
Class OutPointEncoding `{Encoding} : Prop :=
  enc_outpoint_spec o : length (op_txid o) = 32%nat -> enc_outpoint o = op_txid o ++ le_bytes 4 (op_vout o).

Import Undo.

(** ** Writing and reading back *)

Definition outpoint_typed (o : OutPoint) : Prop := length (op_txid o) = 32%nat /\ 0 <= op_vout o <= u32_max.

(** A record this node may write. *)
Record undo_typed (r : UndoRecord) : Prop := {
  ut_spent_count : len (spent r) <= MAX_BLOCK_INPUTS;
  ut_spent : Forall (fun e => 0 <= input e <= MAX_BLOCK_INPUTS /\ coin_typed (coin e)) (spent r);
  ut_ascending : StronglySorted Z.lt (map input (spent r));
  ut_overwritten_count : len (overwritten r) <= MAX_BLOCK_OUTPUTS;
  ut_overwritten : Forall (fun e => outpoint_typed e.1 /\ coin_typed e.2) (overwritten r);
}.

Lemma count_roundtrip {E} v limit : 0 <= v <= limit -> limit < 2 ^ 21 -> exists gs, put_varint (E:=E) [] v = Ok gs /\
  len gs <= 3 /\ (forall bs, put_varint (E:=E) bs v = Ok (bs ++ gs)) /\
  forall bs, StoreReader.count limit (gs ++ bs) = Ok (v, bs).
Proof.
  intros Hv Hl. destruct (varint_roundtrip (E:=E) v) as (gs & Hgs & _ & Hpre & Hread); [unfold u64_max; lia|].
  exists gs. split; [done|]. split; [apply (varint_len (E:=E) 3 v gs); [cbn; lia|lia|done]|]. split; [done|].
  intros bs. unfold StoreReader.count. rewrite Hread. run. by rewrite (proj2 (Z.ltb_ge limit v)) by lia.
Qed.

Section roundtrip.
Context `{OE : OutPointEncoding}.

Lemma encode_spent_spec {E} e : 0 <= input e <= MAX_BLOCK_INPUTS /\ coin_typed (coin e) ->
  exists g, len g <= 3 + MAX_COIN_BYTES /\ (forall pre, encode_spent (E:=E) pre e = Ok (pre ++ g)) /\
    forall n previous acc rest, match previous with Some last => last < input e | None => True end ->
      decode_spent (S n) previous acc (g ++ rest) = decode_spent n (Some (input e)) (acc ++ [e]) rest.
Proof.
  intros [Hi Hc]. destruct (count_roundtrip (E:=E) _ _ Hi) as (g1 & _ & Hl1 & Hp1 & Hr1); [done|].
  destruct (coin_spec (E:=E) _ Hc) as (g2 & _ & Hl2 & Hp2 & Hr2). exists (g1 ++ g2). rewrite len_app. split; [lia|]. split.
  - intros pre. unfold encode_spent. rewrite Hp1. run. by rewrite Hp2, <-app_assoc.
  - intros n previous acc rest Hlast. cbn [decode_spent]. rewrite <-app_assoc, Hr1. run.
    rewrite try_from_ok by (change MAX_BLOCK_INPUTS with 24390 in Hi; unfold u32_max; lia). cbn [default].
    assert (Hn : match previous with Some last => input e <=? last | None => false end = false).
    { destruct previous; [|done]. apply Z.leb_gt. lia. }
    cbn [from_option]. unfold id. rewrite Hn, Hr2. run. by destruct e.
Qed.

Lemma encode_overwritten_spec {E} e : outpoint_typed e.1 /\ coin_typed e.2 ->
  exists g, len g <= 36 + MAX_COIN_BYTES /\ (forall pre, encode_overwritten (E:=E) pre e = Ok (pre ++ g)) /\
    forall n acc rest, decode_overwritten (S n) acc (g ++ rest) = decode_overwritten n (acc ++ [e]) rest.
Proof.
  destruct e as [[txid vout] c]. cbn [fst snd]. intros [[Hlen Hv] Hc]. cbn [op_txid op_vout] in *.
  destruct (coin_spec (E:=E) _ Hc) as (g2 & _ & Hl2 & Hp2 & Hr2).
  pose proof (enc_outpoint_spec (mkOutPoint txid vout) Hlen) as He. cbn [op_txid op_vout] in He.
  exists ((txid ++ le_bytes 4 vout) ++ g2). rewrite !len_app. split; [unfold len in *; rewrite length_le_bytes; lia|]. split.
  - intros pre. unfold encode_overwritten. cbn [fst snd]. by rewrite He, Hp2, <-app_assoc.
  - intros n acc rest. cbn [decode_overwritten]. unfold StoreReader.hash. rewrite <-!app_assoc.
    rewrite take_eq by (unfold len; lia). run. rewrite u32_le_app by (unfold u32_max in Hv; lia). run. by rewrite Hr2.
Qed.

Definition follows (previous : option Z) (e : UndoCoin) : Prop :=
  match previous with Some last => last < input e | None => True end.

Lemma spent_list {E} l : Forall (fun e => 0 <= input e <= MAX_BLOCK_INPUTS /\ coin_typed (coin e)) l ->
  StronglySorted Z.lt (map input l) ->
  exists bs, len bs <= (3 + MAX_COIN_BYTES) * len l /\ (forall pre, foldM (encode_spent (E:=E)) pre l = Ok (pre ++ bs)) /\
    forall previous acc rest, Forall (follows previous) l ->
      decode_spent (length l) previous acc (bs ++ rest) = Ok (acc ++ l, rest).
Proof.
  intros Hl Hsort. induction Hl as [|e l He Hl IH].
  { exists []. split; [done|]. split; intros; cbn; by rewrite ?app_nil_r. }
  cbn [map] in Hsort. apply StronglySorted_inv in Hsort as [Hsort Hlt]. destruct (IH Hsort) as (bs & Hlen & Henc & Hdec).
  destruct (encode_spent_spec (E:=E) e He) as (g & Hg & Hge & Hgd). exists (g ++ bs). rewrite len_app, len_cons. split; [lia|].
  split; [intros pre; cbn [foldM]; rewrite Hge; run; by rewrite Henc, <-app_assoc|].
  intros previous acc rest Hf. apply Forall_cons in Hf as [Hfe Hf]. cbn [length]. rewrite <-app_assoc, Hgd by exact Hfe.
  rewrite Hdec, <-app_assoc; [done|]. rewrite Forall_map in Hlt. exact Hlt.
Qed.

Lemma overwritten_list {E} l : Forall (fun e => outpoint_typed e.1 /\ coin_typed e.2) l ->
  exists bs, len bs <= (36 + MAX_COIN_BYTES) * len l /\ (forall pre, foldM (encode_overwritten (E:=E)) pre l = Ok (pre ++ bs)) /\
    forall acc rest, decode_overwritten (length l) acc (bs ++ rest) = Ok (acc ++ l, rest).
Proof.
  intros Hl. induction Hl as [|e l He Hl (bs & Hlen & Henc & Hdec)].
  { exists []. split; [done|]. split; intros; cbn; by rewrite ?app_nil_r. }
  destruct (encode_overwritten_spec (E:=E) e He) as (g & Hg & Hge & Hgd). exists (g ++ bs). rewrite len_app, len_cons. split; [lia|].
  split; [intros pre; cbn [foldM]; rewrite Hge; run; by rewrite Henc, <-app_assoc|].
  intros acc rest. cbn [length]. by rewrite <-app_assoc, Hgd, Hdec, <-app_assoc.
Qed.

(** A record is written without panic, within the bound the series asserts, and read back
    as itself. *)
Lemma undo_spec {E} r : undo_typed r -> exists bs, encode (E:=E) r = Ok bs /\ len bs <= MAX_UNDO_RECORD_BYTES /\
  decode bs = Ok r.
Proof.
  intros [Hc1 Hs Hsort Hc2 Ho]. pose proof (len_nonneg (spent r)). pose proof (len_nonneg (overwritten r)).
  destruct (count_roundtrip (E:=E) (len (spent r)) MAX_BLOCK_INPUTS) as (g1 & _ & Hl1 & Hp1 & Hr1); [lia|done|].
  destruct (count_roundtrip (E:=E) (len (overwritten r)) MAX_BLOCK_OUTPUTS) as (g2 & _ & Hl2 & Hp2 & Hr2); [lia|done|].
  destruct (spent_list (E:=E) _ Hs Hsort) as (bs & Hlb & Heb & Hdb).
  destruct (overwritten_list (E:=E) _ Ho) as (os & Hlo & Heo & Hdo).
  exists (((g1 ++ bs) ++ g2) ++ os). unfold encode. rewrite Hp1. run. rewrite Heb. run. rewrite Hp2. run. rewrite Heo. cbn [app]. split; [done|].
  split.
  { rewrite !len_app. change MAX_COIN_BYTES with 10017 in *. change MAX_BLOCK_INPUTS with 24390 in *.
    change MAX_BLOCK_OUTPUTS with 111111 in *. change MAX_UNDO_RECORD_BYTES with 1361386693. lia. }
  unfold decode. rewrite <-!app_assoc, Hr1. run. unfold len at 1. rewrite Nat2Z.id, Hdb by (apply Forall_true; done). run.
  rewrite Hr2. run. unfold len at 1. rewrite Nat2Z.id. rewrite <-(app_nil_r os), Hdo. run. by destruct r.
Qed.
End roundtrip.

(** ** Pairing the record with the block *)

Lemma seek_found rest index o : o ∈ rest -> 0 <= index -> index + len rest <= u32_max ->
  exists before after, rest = before ++ o :: after /\ o ∉ before /\ seek rest index o = index + len before.
Proof.
  revert index. induction rest as [|x rest IH]; intros index Ho Hi Hr; [set_solver|]. rewrite len_cons in Hr. cbn [seek].
  pose proof (len_nonneg rest). case_decide as Hx.
  { subst x. exists [], rest. split_and!; [done|set_solver|rewrite len_nil; lia]. }
  rewrite saturating_add_ok by (unfold u32_max, u64_max in *; lia).
  destruct (IH (index + 1)) as (before & after & -> & Hb & Hs); [set_solver|lia|lia|].
  exists (x :: before), after. split_and!; [done|set_solver|rewrite Hs, len_cons; lia].
Qed.

Lemma sublist_cut (o : OutPoint) os before after : o :: os `sublist_of` before ++ o :: after -> o ∉ before ->
  os `sublist_of` after.
Proof.
  induction before as [|x before IH]; cbn; intros Hs Ho; inversion Hs; subst; try done.
  - etrans; [|done]. by apply sublist_cons.
  - set_solver.
  - apply IH; [done|set_solver].
Qed.

(** An entry of the record names the input that spends its coin. *)
Definition pairs (os : list OutPoint) (c : Coin) (e : UndoCoin) : Prop :=
  get os (input e) = Some (outpoint c) /\ coin e = stored c.

Lemma of_step_found {E} os acc k c i : seek (drop (Z.to_nat k) os) k (outpoint c) = i -> 0 <= i < len os -> len os <= 24390 ->
  of_step (E:=E) os (acc, k) c = Ok (acc ++ [mkUndoCoin i (stored c)], i + 1).
Proof.
  intros Hs Hi Hl. unfold of_step. rewrite Hs, (proj2 (Z.ltb_lt i (len os))) by lia. run.
  rewrite try_from_ok by (unfold u32_max; lia). by rewrite saturating_add_ok by (unfold u64_max; lia).
Qed.

Lemma of_loop {E} os cs : len os <= MAX_BLOCK_INPUTS -> forall k acc, 0 <= k <= len os ->
  map outpoint cs `sublist_of` drop (Z.to_nat k) os ->
  exists l k', foldM (of_step (E:=E) os) (acc, k) cs = Ok (acc ++ l, k') /\ Forall2 (pairs os) cs l /\
    StronglySorted Z.lt (map input l) /\ Forall (fun e => k <= input e < len os) l.
Proof.
  change MAX_BLOCK_INPUTS with 24390. intros Hos. induction cs as [|c cs IH]; intros k acc Hk Hs.
  { exists [], k. cbn. rewrite app_nil_r. split_and!; constructor. }
  cbn [map] in Hs. cbn [foldM].
  assert (Hlen : k + len (drop (Z.to_nat k) os) = len os) by (unfold len in *; rewrite length_drop; lia).
  assert (Hin : outpoint c ∈ drop (Z.to_nat k) os) by (apply (elem_of_submseteq (outpoint c :: map outpoint cs)); [set_solver|by apply sublist_submseteq]).
  destruct (seek_found _ k _ Hin) as (before & after & Hd & Hb & Hseek); [lia|unfold u32_max; lia|].
  rewrite Hd in Hlen, Hs. apply sublist_cut in Hs; [|done]. rewrite len_app, len_cons in Hlen.
  pose proof (len_nonneg before). pose proof (len_nonneg after).
  rewrite (of_step_found os acc k c (k + len before)) by (exact Hseek || lia). run.
  destruct (IH (k + len before + 1) (acc ++ [mkUndoCoin (k + len before) (stored c)])) as (l & k' & Hf & Hp & Hsort & Hr); [lia| |].
  { replace (drop (Z.to_nat (k + len before + 1)) os) with after; [done|].
    replace (Z.to_nat (k + len before + 1)) with (Z.to_nat k + (length before + 1))%nat by (unfold len; lia).
    rewrite <-drop_drop, Hd, <-drop_drop, drop_app_length. done. }
  rewrite Hf. eexists (_ :: l), k'. rewrite <-app_assoc. split; [done|]. split_and!.
  - constructor; [|done]. split; [|done]. cbn [input]. unfold get. rewrite (proj2 (Z.leb_le 0 _)) by lia.
    replace (Z.to_nat (k + len before)) with (Z.to_nat k + length before)%nat by (unfold len; lia).
    rewrite <-lookup_drop, Hd. by apply list_lookup_middle.
  - cbn [map]. constructor; [done|]. apply Forall_map. eapply Forall_impl; [exact Hr|]. cbn. lia.
  - constructor; [cbn; lia|]. eapply Forall_impl; [exact Hr|]. cbn. lia.
Qed.

Lemma undo_resolve_loop os cs l acc : Forall2 (pairs os) cs l ->
  foldM (resolve_step os) acc l = Ok (acc ++ map (fun c => (outpoint c, stored c)) cs).
Proof.
  intros H. revert acc. induction H as [|c e cs l [Hg Hc] Hl IH]; intros acc; cbn [foldM map]; [by rewrite app_nil_r|].
  assert (Hstep : resolve_step os acc e = Ok (acc ++ [(outpoint c, stored c)])) by (unfold resolve_step; by rewrite Hg, Hc).
  rewrite Hstep. run. by rewrite IH, <-app_assoc.
Qed.

Lemma typed_from os cs l : Forall2 (pairs os) cs l -> Forall (fun c => coin_typed (stored c)) cs ->
  Forall (fun e => coin_typed (coin e)) l.
Proof. induction 1 as [|c e cs l [_ He] _ IH]; intros Hc; inversion_clear Hc; constructor; [by rewrite He|auto]. Qed.

(** A delta whose spent coins are behind the block's inputs, in order, becomes a record
    that is sound to write and pairs with the block to the same coins. *)
Lemma of_spec {E} cs ows block : len (spends block) <= MAX_BLOCK_INPUTS ->
  map outpoint cs `sublist_of` spends block -> Forall (fun c => coin_typed (stored c)) (cs ++ ows) ->
  len ows <= MAX_BLOCK_OUTPUTS -> Forall (fun c => outpoint_typed (outpoint c)) ows ->
  exists r, of_ (E:=E) cs ows block = Ok r /\ undo_typed r /\
    resolve r block = Ok (map (fun c => (outpoint c, stored c)) (cs ++ ows)).
Proof.
  intros Hn Hs [Hc1 Hc2]%Forall_app Hm Ho. pose proof (len_nonneg (spends block)).
  destruct (of_loop (E:=E) (spends block) cs Hn 0 []) as (l & k & Hf & Hp & Hsort & Hr); [lia|done|].
  assert (Hlen : len cs <= len (spends block)) by (unfold len; apply sublist_length in Hs; rewrite length_map in Hs; lia).
  unfold of_. rewrite (proj2 (Z.leb_le _ _)) by lia. run. rewrite Hf. run. eexists. split; [done|]. split.
  - pose proof (typed_from _ _ _ Hp Hc1) as Ht. constructor; cbn [spent overwritten app]; try done.
    + apply Forall2_length in Hp. unfold len in *. lia.
    + rewrite Forall_forall in Ht, Hr. apply Forall_forall. intros e He. specialize (Hr e He). cbn in Hr. split; [lia|auto].
    + unfold len in *. by rewrite length_map.
    + apply Forall_map, Forall_forall. intros c Hc. rewrite Forall_forall in Ho, Hc2. split; [by apply Ho|by apply Hc2].
  - unfold resolve. cbn [spent overwritten app]. rewrite (undo_resolve_loop _ _ _ _ Hp). run. by rewrite map_app.
Qed.

(** What decodes claims each input once, in order. *)
Lemma decode_spent_ascends n : forall previous acc bs l rest, decode_spent n previous acc bs = Ok (l, rest) ->
  exists l', l = acc ++ l' /\ StronglySorted Z.lt (map input l') /\ Forall (follows previous) l' /\
    Forall (fun e => input e <= MAX_BLOCK_INPUTS) l' /\ length l' = n.
Proof.
  induction n as [|n IH]; intros previous acc bs l rest; cbn [decode_spent].
  { intros [= <- <-]. exists []. rewrite app_nil_r. split_and!; done || constructor. }
  intros Hd. apply bind_Ok in Hd as ([i bs1] & Hi & Hd). set (i' := default u32_max (try_from u32_max i)) in *.
  assert (Hi' : i' <= MAX_BLOCK_INPUTS).
  { unfold StoreReader.count in Hi. apply bind_Ok in Hi as ([v r] & Hv & Hi). destruct (Z.ltb_spec MAX_BLOCK_INPUTS v); [done|].
    injection Hi as <- <-. apply varint_range in Hv; [|done]. change MAX_BLOCK_INPUTS with 24390 in *.
    unfold i'. rewrite try_from_ok by (unfold u32_max; lia). cbn. unfold id. lia. }
  destruct (match previous with Some last => i' <=? last | None => false end) eqn:Hf; [done|].
  apply bind_Ok in Hd as ([c bs2] & _ & Hd). apply IH in Hd as (l' & -> & Hs & Hfl & Hle & Hn).
  exists (mkUndoCoin i' c :: l'). rewrite <-app_assoc. split_and!; [done| | |by constructor|cbn; lia].
  - cbn [map]. constructor; [done|]. by apply Forall_map.
  - destruct previous as [last|]; [|by apply Forall_true]. apply Z.leb_gt in Hf. constructor; [done|].
    eapply Forall_impl; [exact Hfl|]. cbn. lia.
Qed.
