(* ===== verification/UndoTheorems.v ===== *)
(** * UndoTheorems: the undo record takes a block back off the chain

    The composition of [confirm] with [store/undo.rs]: the record built from a confirmed
    block's delta, written to the disk, read back and paired with the block again, restores
    the set of unspent coins. *)
From stdpp Require Import gmap.
From Stdlib Require Import Sorting.Sorted.
From S2P Require Import Prelude Bitcoin Flags Params Header Script SigScript Interpreter Sighash SighashProofs Checker Verify VerifyProofs VerifySafety Sigops Tx TxProofs Block BlockProofs Coins CoinsProofs Utxo ConfirmProofs ConfirmLoop CoinsTheorems CoinsWitness StoreReader StoreCoin StoreUndo.

(** A restored coin, at the outpoint the record was paired with. *)
Definition restored_coin (e : OutPoint * StoredCoin) : Coin :=
  mkCoin e.1 (StoreCoin.sc_output e.2) (StoreCoin.sc_height e.2) (StoreCoin.sc_coinbase e.2).

Lemma restored_stored cs : map restored_coin (map (fun c => (outpoint c, Undo.stored c)) cs) = cs.
Proof. induction cs as [|[] cs IH]; [done|]. cbn [map]. by rewrite IH. Qed.

Section restore.
Context `{HH : Hashes} `{EN : Encoding} `{BC : BitcoinCrate} `{SZ : !SizeLaws} `{EL : !EncodingLaws} `{CL : !CoinbaseLaw}.
Context `{SP : Secp256k1} `{TL : TxidOrderLaws} `{OE : !OutPointEncoding} `{IL : !IdLengths}.

(** C13. A connected block can be taken back off the chain from the disk. The undo record of a
    block that [confirm] accepted is built and encoded without panic and within the bound the
    series asserts; the bytes decode to the same record; paired with the block's inputs it
    names exactly the coins the block removed; and putting those back after removing what the
    block created gives the set of unspent coins from before the block. *)
Theorem undo_record_restores p block ctx u sources prefetch c : block_ready p ctx block ->
  utxo_ok (ctx_height ctx) u -> ids_bind block u -> populate (E:=Empty_set) block = Ok sources ->
  prefetch_ok block (rules_bip30 (ctx_rules ctx)) u sources prefetch -> confirm block prefetch ctx = Ok c ->
  (forall o coin, u !! o = Some coin -> txout_value (output coin) <= MAX_MONEY) ->
  exists r bs restored,
    Undo.of_ (E:=Empty_set) (delta_spent (delta c)) (delta_overwritten (delta c)) block = Ok r /\
    Undo.encode (E:=Empty_set) r = Ok bs /\ len bs <= Undo.MAX_UNDO_RECORD_BYTES /\ Undo.decode bs = Ok r /\
    Undo.resolve r block = Ok restored /\
    map restored_coin restored = delta_spent (delta c) ++ delta_overwritten (delta c) /\
    coins_map (map restored_coin restored) ∪
      delete_all (map outpoint (delta_created (delta c))) (apply_delta u (delta c)) = u.
Proof.
  intros Hr Hu Hb Hs Hp Hc Hmoney.
  destruct (ensures_Ok_inv _ _ _ (confirm_ok p block ctx u sources prefetch Hr Hu Hb Hs Hp) Hc)
    as [_ Hundo _ _ _ _ Hord Hrem [How Hown]].
  pose proof (ready_base _ _ _ Hr) as Hbase. destruct (ready_context _ _ _ Hr) as [[_ Hh] _ _ _].
  destruct (of_spec (E:=Empty_set) (delta_spent (delta c)) (delta_overwritten (delta c)) block) as (r & Hof & Ht & Hres).
  - change (Undo.spends block) with (spent_by (blk_txdata block)). rewrite len_spent_spends.
    apply (spends_bound block Hbase).
  - exact Hord.
  - apply Forall_forall. intros coin Hcoin. apply Hrem in Hcoin. pose proof (Hmoney _ _ Hcoin).
    destruct (Hu _ _ Hcoin) as (_ & Hch & Hsp & Hv). apply orb_false_iff in Hsp as [_ Hsp]. apply Z.ltb_ge in Hsp.
    constructor; cbn; [unfold Height.valid; lia|lia|done].
  - exact How.
  - apply Forall_forall. intros coin Hcoin. apply Hown, own_elem in Hcoin as (tx & out & Htx & Hid & Hg).
    split; [by rewrite <-Hid, length_txid|]. apply get_Some_range in Hg.
    assert (Hl : len (tx_output tx) <= len (own block)).
    { rewrite len_own. apply (sum_of_elem (fun t => len (tx_output t))); [intros; apply len_nonneg|done]. }
    pose proof (own_bound block Hbase) as Ho. change MAX_BLOCK_OUTPUTS with 111111 in Ho. unfold u32_max. lia.
  - destruct (undo_spec (E:=Empty_set) r Ht) as (bs & Henc & Hlen & Hdec). exists r, bs, (map (fun c => (outpoint c, Undo.stored c))
      (delta_spent (delta c) ++ delta_overwritten (delta c))). rewrite restored_stored. split_and!; done.
Qed.
End restore.

Lemma simple_outpoint_encoding : @OutPointEncoding simple_encoding.
Proof. by intros o _. Qed.

Lemma undo_record_restores_witness : exists r bs,
  Undo.of_ (E:=Empty_set) (delta_spent spending_delta) (delta_overwritten spending_delta) spending_block = Ok r /\
  @Undo.encode simple_encoding Empty_set r = Ok bs /\ Undo.decode bs = Ok r /\ len bs = 7.
Proof.
  destruct sized_crate_laws as (Hsize & Hid & Hcb).
  destruct (@undo_record_restores prefix_hashes simple_encoding sized_crate Hsize simple_encoding_laws Hcb toy_secp
    encoded_txids encoded_txids_laws simple_outpoint_encoding Hid mainnet_params spending_block sample_context old_coins spending_sources
    spending_prefetch (mkConfirmed spending_delta spending_prevouts)
    spending_ready old_coins_ok spending_bind spending_populate spending_prefetch_ok spending_confirm)
    as (r & bs & restored & Hof & He & _ & Hd & _).
  - intros o coin [_ ->]%old_coins_lookup. vm_compute. discriminate.
  - exists r, bs. split_and!; try assumption. clear -Hof He. vm_compute in Hof. injection Hof as <-.
    vm_compute in He. injection He as <-. vm_compute. reflexivity.
Defined.

(** ** What decodes *)

(** Whatever bytes decode, the record claims each input at most once, in block order and
    within the counts consensus permits, and nothing follows it. *)
Lemma undo_decode_ascends bs r : Undo.decode bs = Ok r ->
  StronglySorted Z.lt (map Undo.input (Undo.spent r)) /\
  Forall (fun e => Undo.input e <= Undo.MAX_BLOCK_INPUTS) (Undo.spent r) /\
  len (Undo.spent r) <= Undo.MAX_BLOCK_INPUTS.
Proof.
  unfold Undo.decode. intros H. apply bind_Ok in H as ([n bs1] & Hn & H). apply bind_Ok in H as ([l bs2] & Hl & H).
  apply bind_Ok in H as ([m bs3] & _ & H). apply bind_Ok in H as ([os bs4] & _ & H). apply bind_Ok in H as ([] & _ & [= <-]).
  apply decode_spent_ascends in Hl as (l' & -> & Hs & _ & Hle & Hlen). cbn [Undo.spent app]. split_and!; [done|done|].
  unfold StoreReader.count in Hn. apply bind_Ok in Hn as ([v r] & Hv & Hn). apply varint_range in Hv; [|done].
  destruct (Z.ltb_spec Undo.MAX_BLOCK_INPUTS v); [done|]. injection Hn as <- <-. unfold len. lia.
Qed.

(** A corrupt height aborts the node. [reader.rs] promises that no decoder can panic, but
    [StoreCoin::read] hands any [u32] it finds to [Height::new], which asserts that it is at
    most [2^31 - 1]: a coin whose height word names one past that panics, whatever its amount
    and script, and so does the undo record it is in. *)
Theorem corrupt_height_panics height value script rest :
  Height.MAX < height <= u32_max -> 0 <= value <= MAX_MONEY -> len script <= MAX_SCRIPT_SIZE ->
  exists code amount bs, put_varint (E:=Empty_set) [] (2 * height) = Ok code /\
    StoreCoin.compress_amount (E:=Empty_set) value = Ok amount /\
    (bs' ← put_varint (E:=Empty_set) code amount; StoreCoin.put_script bs' script) = Ok bs /\
    StoreCoin.read (bs ++ rest) = Panic /\ Undo.decode (x01 :: x00 :: bs ++ rest) = Panic.
Proof.
  unfold Height.MAX, u32_max. intros Hh Hv Hs.
  destruct (varint_roundtrip (E:=Empty_set) (2 * height)) as (g1 & Hg1 & _ & _ & Hr1); [unfold u64_max; lia|].
  destruct (amount_roundtrip (E:=Empty_set) value Hv) as (amount & Ha & Har & Hd). unfold MAX_MONEY in Har.
  destruct (varint_roundtrip (E:=Empty_set) amount) as (g2 & _ & _ & Hp2 & Hr2); [unfold u64_max; lia|].
  destruct (put_script_spec (E:=Empty_set) script Hs) as (g3 & _ & _ & Hp3 & Hr3).
  exists g1, amount, ((g1 ++ g2) ++ g3). split; [done|]. split; [done|]. rewrite Hp2. run. rewrite Hp3. split; [done|].
  assert (Hread : StoreCoin.read (((g1 ++ g2) ++ g3) ++ rest) = Panic).
  { unfold StoreCoin.read. rewrite <-!app_assoc, Hr1. run. rewrite Z.shiftr_div_pow2 by lia.
    replace (2 * height / 2 ^ 1) with height by (change (2 ^ 1) with 2; dlia).
    rewrite try_from_ok by (unfold u32_max; lia). run. rewrite Hr2. run. rewrite Hd. run. rewrite Hr3. run.
    unfold Height.new, Height.MAX. by rewrite (proj2 (Z.leb_gt height _)) by lia. }
  destruct (count_roundtrip (E:=Empty_set) 1 Undo.MAX_BLOCK_INPUTS) as (c1 & Hc1 & _ & _ & Hr4); [done|done|].
  destruct (count_roundtrip (E:=Empty_set) 0 Undo.MAX_BLOCK_INPUTS) as (c0 & Hc0 & _ & _ & Hr5); [done|done|].
  injection Hc1 as <-. injection Hc0 as <-. split; [exact Hread|]. unfold Undo.decode.
  change (x01 :: x00 :: ?l) with ([x01] ++ [x00] ++ l). rewrite Hr4. run. change (Z.to_nat 1) with 1%nat.
  cbn [Undo.decode_spent]. rewrite Hr5. run. by rewrite Hread.
Qed.

Lemma corrupt_height_panics_witness : exists bs, StoreCoin.read bs = Panic /\ Undo.decode (x01 :: x00 :: bs) = Panic.
Proof.
  destruct (corrupt_height_panics (2 ^ 31) 5000 [x51] []) as (code & amount & bs & _ & _ & _ & H);
    [unfold Height.MAX, u32_max; lia|vm_compute; split; discriminate|vm_compute; discriminate|].
  exists (bs ++ []). exact H.
Defined.
