(* ===== verification/Journal.v ===== *)
(** * Journal: the block index on disk ([store/index.rs])

    The journal file is its bytes; an append is durable when it returns, and a crash during
    one leaves a prefix of the batch.  Failures of the operating system are not modelled. *)
From S2P Require Import Prelude Uint Target Bitcoin Flags Params Header Verify Tx Signet Block Coins SkipList Queue Tree StoreReader.

(** [consensus_encode] and [deserialize] of a block header. *)
Class HeaderCodec := {
  serialize_header : Header -> bytes;
  deserialize_header : bytes -> option Header;
}.

(** A header whose fields have the width of their types. *)
Record header_wire (h : Header) : Prop := {
  wire_version : - 2 ^ 31 <= hdr_version h < 2 ^ 31;
  wire_prev : length (hdr_prev_blockhash h) = 32%nat;
  wire_root : length (hdr_merkle_root h) = 32%nat;
  wire_time : 0 <= hdr_time h <= u32_max;
  wire_bits : 0 <= hdr_bits h <= u32_max;
  wire_nonce : 0 <= hdr_nonce h <= u32_max;
}.

(** A header is eighty bytes, reads back as itself, and what reads back has its widths. *)
Class HeaderCodecLaws `{HeaderCodec} : Prop := {
  length_serialize_header h : header_wire h -> length (serialize_header h) = 80%nat;
  deserialize_serialize h : header_wire h -> deserialize_header (serialize_header h) = Some h;
  deserialize_wire bs h : deserialize_header bs = Some h -> header_wire h;
}.

Module Journal.
Definition JOURNAL_MAGIC : bytes := [x62; x6d; x67; x6f; x49; x44; x58; x01].
Definition JOURNAL_VERSION : Z := 1.
Definition FILE_HEADER_BYTES : Z := 8 + 4 + 32.
Definition BLOCK_HEADER_BYTES : Z := 80.
Definition CHECKSUM_BYTES : Z := 4.
Definition MAX_RECORD_BYTES : Z := BLOCK_HEADER_BYTES + 1 + 24 + CHECKSUM_BYTES.
Definition MIN_LIVE_RECORDS : Z := 1024.

(** The [io::Error]s this module makes. *)
Inductive JournalError :=
| Decode (e : DecodeError)
| NoHeader
| NotAnIndex
| BadVersion (version : Z)
| WrongChain (seen : bytes)
| NoMarker (marker : bytes)
| NoUndo (hash : bytes).

Inductive Persisted :=
| PAccepted
| PChecked (location : BlockLocation)
| PConnected (location : BlockLocation) (undo : UndoLocation)
| PRefused (stage : Stage.Stage).

(** [Persisted::of]. *)
Definition persisted_of (status : HeaderStatus) : option Persisted :=
  match status with
  | HeaderStatus.Genesis => None
  | HeaderStatus.HeaderAccepted
  | HeaderStatus.InvalidAncestor _
  | HeaderStatus.Invalid (Invalidity.AcceptHeader _) => Some PAccepted
  | HeaderStatus.BlockChecked location => Some (PChecked location)
  | HeaderStatus.Connected location undo => Some (PConnected location undo)
  | HeaderStatus.Invalid invalidity => Some (PRefused (Invalidity.stage invalidity))
  end.

Definition put_location (bs : bytes) (file offset len : Z) : bytes :=
  bs ++ le_bytes 4 file ++ le_bytes 4 offset ++ le_bytes 4 len.

(** [Persisted::encode]. *)
Definition encode (self : Persisted) (bs : bytes) : bytes :=
  match self with
  | PAccepted => bs ++ [x00]
  | PChecked location => put_location (bs ++ [x01]) (bl_file location) (bl_offset location) (bl_len location)
  | PConnected location undo =>
      let bs := put_location (bs ++ [x02]) (bl_file location) (bl_offset location) (bl_len location) in
      put_location bs (ul_file undo) (ul_offset undo) (ul_len undo)
  | PRefused stage => (bs ++ [x03]) ++ [zb (Stage.tag stage)]
  end.

Definition triple : reads (Z * Z * Z) := fun bs =>
  '(file, bs) ← StoreReader.u32_le bs;
  '(offset, bs) ← StoreReader.u32_le bs;
  '(len, bs) ← StoreReader.u32_le bs;
  Ok (file, offset, len, bs).

Definition block_location : reads BlockLocation := fun bs =>
  '(file, offset, len, bs) ← triple bs; Ok (mkBlockLocation file offset len, bs).

(** [Persisted::decode]. *)
Definition decode : reads Persisted := fun bs =>
  '(tag, bs) ← StoreReader.u8 bs;
  if tag =? 0 then Ok (PAccepted, bs)
  else if tag =? 1 then '(location, bs) ← block_location bs; Ok (PChecked location, bs)
  else if tag =? 2 then
    '(location, bs) ← block_location bs;
    '(file, offset, len, bs) ← triple bs;
    Ok (PConnected location (mkUndoLocation file offset len), bs)
  else if tag =? 3 then
    '(tag, bs) ← StoreReader.u8 bs;
    match Stage.of_tag tag with
    | Some stage => Ok (PRefused stage, bs)
    | None => Err (DecodeError.BadTag tag)
    end
  else Err (DecodeError.BadTag tag).

Record Loaded := mkLoaded {
  ld_records : Z;
  ld_headers : Z;
  ld_connected : Z;
  ld_torn : Z;
  ld_rejected : Z;
}.

Record Journal := mkJournal { j_file : bytes; j_records : Z }.

Definition file_header (genesis : bytes) : bytes := JOURNAL_MAGIC ++ le_bytes 4 JOURNAL_VERSION ++ genesis.

Definition verify_file_header (file genesis : bytes) : outcome JournalError unit :=
  if len file <? FILE_HEADER_BYTES then Err NoHeader
  else
    let bs := take (Z.to_nat FILE_HEADER_BYTES) file in
    '(magic, bs) ← map_err Decode (StoreReader.take 8 bs);
    if negb (bool_decide (magic = JOURNAL_MAGIC)) then Err NotAnIndex
    else
      '(version, bs) ← map_err Decode (StoreReader.u32_le bs);
      if negb (version =? JOURNAL_VERSION) then Err (BadVersion version)
      else
        '(seen, _) ← map_err Decode (StoreReader.hash bs);
        if negb (bool_decide (seen = genesis)) then Err (WrongChain seen) else Ok tt.

(** [Journal::open], on the file that is there, if any. *)
Definition open (file : option bytes) (genesis : bytes) : outcome JournalError Journal :=
  match file with
  | Some file => verify_file_header file genesis;; Ok (mkJournal file 0)
  | None => Ok (mkJournal (file_header genesis) 0)
  end.

Section journal.
Context `{HH : Hashes} `{HC : HeaderCodec} `{BC : BitcoinCrate}.

Definition checksum (payload : bytes) : bytes :=
  match slice (sha256d payload) 0 4 with Some four => four | None => [x00; x00; x00; x00] end.

Definition put_record {E} (bs : bytes) (header : Header) (status : Persisted) : outcome E bytes :=
  let payload := serialize_header header in
  assert_ (len payload =? BLOCK_HEADER_BYTES);;
  let payload := encode status payload in
  let length := default u32_max (try_from u32_max (len payload)) in
  assert_ (length <? MAX_RECORD_BYTES);;
  Ok (bs ++ le_bytes 4 length ++ payload ++ checksum payload).

(** The body of the loops of [append] and [rewrite]: one more entry, if it is written. *)
Definition put_entry {E} (tree : HeaderTree) (st : bytes * Z) (node : Z) : outcome E (bytes * Z) :=
  let '(bs, written) := st in
  entry ← entry tree node;
  match persisted_of (e_status entry) with
  | None => Ok (bs, written)
  | Some status =>
      bs ← put_record bs (e_header entry) status;
      Ok (bs, saturating_add written 1)
  end.

(** The loop of [rewrite]: what reached the temporary file, the buffer, and the count. *)
Definition rewrite_step {E} (tree : HeaderTree) (st : bytes * bytes * Z) (node : Z) : outcome E (bytes * bytes * Z) :=
  let '(file, bs, written) := st in
  entry ← entry tree node;
  match persisted_of (e_status entry) with
  | None => Ok (file, bs, written)
  | Some status =>
      bs ← put_record bs (e_header entry) status;
      let written := saturating_add written 1 in
      if 1024 * 1024 <=? len bs then Ok (file ++ bs, [], written) else Ok (file, bs, written)
  end.

Definition rewrite {E} (self : Journal) (tree : HeaderTree) : outcome E Journal :=
  genesis ← entry tree NodeId.GENESIS;
  '(file, bs, written) ← foldM (rewrite_step tree) ([], file_header (e_hash genesis), 0) (nodes tree);
  Ok (mkJournal (file ++ bs) written).

Definition rewrite_if_stale {E} (self : Journal) (tree : HeaderTree) : outcome E Journal :=
  let live := tree_len tree in
  if j_records self <=? saturating_mul (Z.max live MIN_LIVE_RECORDS) 2 then Ok self
  else rewrite self tree.

Definition append {E} (self : Journal) (dirty : list Z) (tree : HeaderTree) : outcome E (Journal * Z) :=
  '(bs, written) ← foldM (put_entry tree) ([], 0) dirty;
  if written =? 0 then Ok (self, 0)
  else
    let self := mkJournal (j_file self ++ bs) (saturating_add (j_records self) written) in
    self ← rewrite_if_stale self tree;
    Ok (self, written).

Inductive Read1 :=
| Record_ (header : Header) (status : Persisted)
| End_
| Torn (torn : Z).

Definition parse_record (payload : bytes) : outcome DecodeError Read1 :=
  '(bs, rest) ← StoreReader.take BLOCK_HEADER_BYTES payload;
  header ← match deserialize_header bs with
           | Some header => Ok header
           | None => Err (DecodeError.Truncated BLOCK_HEADER_BYTES (len bs))
           end;
  '(status, rest) ← decode rest;
  StoreReader.finish rest;;
  Ok (Record_ header status).

(** [read_exact] of so many bytes: [None] is [UnexpectedEof]. *)
Definition read_exact (count : Z) (file : bytes) : option (bytes * bytes) :=
  if count <=? len file then Some (take (Z.to_nat count) file, drop (Z.to_nat count) file) else None.

Definition read_record (file : bytes) : outcome JournalError (Read1 * bytes) :=
  match read_exact 4 file with
  | None => Ok (End_, [])
  | Some (length, file) =>
      let declared := le_val length in
      if MAX_RECORD_BYTES <=? declared then Ok (Torn declared, file)
      else
        match read_exact declared file with
        | None => Ok (Torn declared, [])
        | Some (payload, file) =>
            match read_exact CHECKSUM_BYTES file with
            | None => Ok (Torn declared, [])
            | Some (four, file) =>
                if negb (bool_decide (four = checksum payload)) then Ok (Torn declared, file)
                else
                  read ← map_err Decode (parse_record payload);
                  Ok (read, file)
            end
        end
  end.

Definition accepted {E} (tree : HeaderTree) (params : ChainParams) (now : Z) (header : Header)
    : outcome E (HeaderTree * option Z) :=
  '(tree, answer) ← accept tree header params now;
  Ok (tree, match answer with
            | inr accepted => Some (accepted_node accepted)
            | inl (AcceptError.Invalid node _) | inl (AcceptError.InvalidAncestor node _) => Some node
            | inl (AcceptError.CheckHeader _) | inl (AcceptError.UnknownParent _)
            | inl (AcceptError.TooFarInFuture _ _) | inl AcceptError.TreeFull => None
            end).

Notation Statuses := (list (option Persisted)).

Definition status_of (statuses : Statuses) (node : Z) : option Persisted :=
  match get statuses node with Some (Some status) => Some status | _ => None end.

(** [resize(len, None)] when shorter, and the assignment. *)
Definition note_status (statuses : Statuses) (node : Z) (status : Persisted) : Statuses :=
  let statuses :=
    if len statuses <=? node then statuses ++ replicate (Z.to_nat (node + 1 - len statuses)) None else statuses in
  <[Z.to_nat node := Some status]> statuses.

(** The loop of [replay].  A record is at least eight bytes, so the file's length is room
    enough. *)
Fixpoint replay_loop (room : nat) (file : bytes) (tree : HeaderTree) (params : ChainParams) (now : Z)
    (statuses : Statuses) (records : Z) : outcome JournalError (HeaderTree * Statuses * (Z * Z * Z)) :=
  match room with
  | O => Panic
  | S room =>
      '(read, file) ← read_record file;
      match read with
      | End_ => Ok (tree, statuses, (records, 0, 0))
      | Torn torn => Ok (tree, statuses, (records, torn, 0))
      | Record_ header status =>
          let records := saturating_add records 1 in
          '(tree, node) ← accepted tree params now header;
          match node with
          | None => Ok (tree, statuses, (records, 0, 1))
          | Some node => replay_loop room file tree params now (note_status statuses node status) records
          end
      end
  end.

Definition replay (self : Journal) (tree : HeaderTree) (params : ChainParams) (now : Z)
    : outcome JournalError (Journal * HeaderTree * Statuses * (Z * Z * Z)) :=
  match read_exact FILE_HEADER_BYTES (j_file self) with
  | None => Err NoHeader
  | Some (_, file) =>
      '(tree, statuses, report) ← replay_loop (S (length file)) file tree params now [] 0;
      assert_ (len statuses <=? tree_len tree);;
      Ok (mkJournal (j_file self) report.1.1, tree, statuses, report)
  end.

Definition apply_step {E} (statuses : Statuses) (tree : HeaderTree) (node : Z) : outcome E HeaderTree :=
  match status_of statuses node with
  | None => Ok tree
  | Some status =>
      e ← entry tree node;
      if HeaderStatus.is_terminal (e_status e) || match e_status e with HeaderStatus.Genesis => true | _ => false end
      then Ok tree
      else
        match status with
        | PAccepted => Ok tree
        | PChecked location | PConnected location _ => block_checked tree node location
        | PRefused stage => invalidate tree node (Invalidity.Reloaded stage)
        end
  end.

(** [apply]. *)
Definition apply_statuses {E} (tree : HeaderTree) (statuses : Statuses) : outcome E HeaderTree :=
  foldM (apply_step statuses) tree (nodes tree).

(** The walk of [connect_to_marker] from the marker to genesis; parents come first in the
    arena, so its length is room enough. *)
Fixpoint path_to {E} (room : nat) (tree : HeaderTree) (walk : Z) (path : list Z) : outcome E (list Z) :=
  match room with
  | O => Panic
  | S room =>
      if walk =? NodeId.GENESIS then Ok path
      else
        e ← entry tree walk;
        match e_parent e with
        | Some parent => path_to room tree parent (walk :: path)
        | None => Ok (walk :: path)
        end
  end.

Definition connect_step (statuses : Statuses) (tree : HeaderTree) (node : Z) : outcome JournalError HeaderTree :=
  e ← entry tree node;
  match status_of statuses node with
  | Some (PConnected _ undo) => connected tree node undo
  | _ => Err (NoUndo (e_hash e))
  end.

Definition connect_to_marker (tree : HeaderTree) (statuses : Statuses) (marker : bytes)
    : outcome JournalError (HeaderTree * Z) :=
  match node_of tree marker with
  | None => Err (NoMarker marker)
  | Some target =>
      path ← path_to (S (length (t_entries tree))) tree target [];
      tree ← foldM (connect_step statuses) tree path;
      Ok (tree, len path)
  end.

Definition load (self : Journal) (tree : HeaderTree) (params : ChainParams) (now : Z) (marker : bytes)
    : outcome JournalError (Journal * HeaderTree * Loaded) :=
  '(self, tree, statuses, report) ← replay self tree params now;
  tree ← apply_statuses tree statuses;
  '(tree, connected) ← connect_to_marker tree statuses marker;
  let headers := tree_len tree in
  tree ← clear_dirty tree;
  Ok (self, tree, mkLoaded report.1.1 headers connected report.1.2 report.2).

End journal.
End Journal.
