(* ===== verification/JournalProofs.v ===== *)
(** * JournalProofs: what the journal reads back, and what a crash leaves of it *)
From S2P Require Import Prelude Uint Target Bitcoin Flags Params Header Verify Tx Signet Block Coins SkipList Queue Tree TreeProofs StoreReader Journal.
Import Journal.

(** ** One record *)

Definition location_typed (l : BlockLocation) : Prop :=
  0 <= bl_file l <= u32_max /\ 0 <= bl_offset l <= u32_max /\ 0 <= bl_len l <= u32_max.
Definition undo_location_typed (l : UndoLocation) : Prop :=
  0 <= ul_file l <= u32_max /\ 0 <= ul_offset l <= u32_max /\ 0 <= ul_len l <= u32_max.
Definition persisted_typed (s : Persisted) : Prop :=
  match s with
  | PAccepted | PRefused _ => True
  | PChecked l => location_typed l
  | PConnected l u => location_typed l /\ undo_location_typed u
  end.

Lemma triple_app a b c bs : 0 <= a <= u32_max -> 0 <= b <= u32_max -> 0 <= c <= u32_max ->
  triple (le_bytes 4 a ++ le_bytes 4 b ++ le_bytes 4 c ++ bs) = Ok (a, b, c, bs).
Proof.
  unfold u32_max. intros Ha Hb Hc. unfold triple. rewrite u32_le_app by lia. run. rewrite u32_le_app by lia. run.
  by rewrite u32_le_app by lia.
Qed.

Lemma stage_roundtrip s : Stage.of_tag (Stage.tag s) = Some s.
Proof. by destruct s. Qed.

(** A status is appended to what precedes it, in at most 25 bytes, and decodes. *)
Lemma status_roundtrip s : persisted_typed s -> exists bs, len bs <= 25 /\ (forall pre, encode s pre = pre ++ bs) /\
  forall rest, decode (bs ++ rest) = Ok (s, rest).
Proof.
  intros Hs. destruct s as [|l|l u|st]; cbn [persisted_typed] in Hs.
  - exists [x00]. split; [done|]. split; [done|]. intros rest. unfold decode. cbn [app]. by rewrite u8_cons.
  - destruct Hs as (H1 & H2 & H3). exists ([x01] ++ le_bytes 4 (bl_file l) ++ le_bytes 4 (bl_offset l) ++ le_bytes 4 (bl_len l)).
    split; [unfold len; rewrite !length_app, !length_le_bytes; done|].
    split; [intros pre; cbn [encode]; unfold put_location; by rewrite <-!app_assoc|]. intros rest.
    rewrite <-!app_assoc. unfold decode. cbn [app]. rewrite u8_cons. run. change (bz x01) with 1. cbn [Z.eqb Pos.eqb].
    unfold block_location. rewrite triple_app by done. run. by destruct l.
  - destruct Hs as ((H1 & H2 & H3) & H4 & H5 & H6).
    exists ([x02] ++ le_bytes 4 (bl_file l) ++ le_bytes 4 (bl_offset l) ++ le_bytes 4 (bl_len l) ++
      le_bytes 4 (ul_file u) ++ le_bytes 4 (ul_offset u) ++ le_bytes 4 (ul_len u)).
    split; [unfold len; rewrite !length_app, !length_le_bytes; done|].
    split; [intros pre; cbn [encode]; unfold put_location; by rewrite <-!app_assoc|]. intros rest.
    rewrite <-!app_assoc. unfold decode. cbn [app]. rewrite u8_cons. run. change (bz x02) with 2. cbn [Z.eqb Pos.eqb].
    unfold block_location. rewrite triple_app by done. run. rewrite triple_app by done. run. by destruct l, u.
  - exists [x03; zb (Stage.tag st)]. split; [done|]. split; [intros pre; cbn [encode]; by rewrite <-app_assoc|].
    intros rest. unfold decode. cbn [app]. rewrite u8_cons. run. change (bz x03) with 3. cbn [Z.eqb Pos.eqb].
    rewrite u8_cons. run. rewrite bz_zb_id by (destruct st; cbn; lia). by rewrite stage_roundtrip.
Qed.

Lemma read_exact_app a b : read_exact (len a) (a ++ b) = Some (a, b).
Proof.
  unfold read_exact, len. rewrite (proj2 (Z.leb_le _ _)) by (rewrite length_app; lia).
  rewrite Nat2Z.id. by rewrite take_app_length, drop_app_length.
Qed.

Lemma read_exact_eq n a b : len a = n -> read_exact n (a ++ b) = Some (a, b).
Proof. intros <-. apply read_exact_app. Qed.

Lemma read_exact_short n (a : bytes) : len a < n -> read_exact n a = None.
Proof. intros H. unfold read_exact. by rewrite (proj2 (Z.leb_gt n (len a))). Qed.

Section records.
Context `{HL : HashLengths} `{CL : HeaderCodecLaws} `{BC : BitcoinCrate}.

Definition record_typed (r : Header * Persisted) : Prop := header_wire r.1 /\ persisted_typed r.2.

Definition payload_of (r : Header * Persisted) : bytes := encode r.2 (serialize_header r.1).

(** The bytes of one record. *)
Definition record_bytes (r : Header * Persisted) : bytes :=
  le_bytes 4 (len (payload_of r)) ++ payload_of r ++ checksum (payload_of r).

Lemma len_checksum payload : len (checksum payload) = 4.
Proof.
  unfold checksum. destruct (slice (sha256d payload) 0 4) as [four|] eqn:Hs; [|done]. by apply len_slice in Hs.
Qed.

Lemma payload_range r : record_typed r -> 80 <= len (payload_of r) <= 105.
Proof.
  intros [Hh Hs]. unfold payload_of. destruct (status_roundtrip _ Hs) as (bs & Hl & -> & _).
  pose proof (len_nonneg bs). rewrite len_app.
  assert (Hh80 : len (serialize_header r.1) = 80) by (unfold len; by rewrite length_serialize_header). rewrite Hh80. lia.
Qed.

Lemma put_record_ok {E} bs r : record_typed r -> put_record (E:=E) bs r.1 r.2 = Ok (bs ++ record_bytes r).
Proof.
  intros Hr. pose proof (payload_range r Hr) as Hp. unfold put_record. change BLOCK_HEADER_BYTES with 80. change MAX_RECORD_BYTES with 109.
  destruct Hr as [Hh _]. rewrite (proj2 (Z.eqb_eq (len (serialize_header r.1)) 80)) by (unfold len; by rewrite length_serialize_header). run.
  fold (payload_of r). rewrite try_from_ok by (unfold u32_max; lia). cbn [default from_option]. unfold id.
  by rewrite (proj2 (Z.ltb_lt (len (payload_of r)) 109)) by lia.
Qed.

Lemma parse_payload r : record_typed r -> parse_record (payload_of r) = Ok (Record_ r.1 r.2).
Proof.
  intros [Hh Hs]. unfold parse_record, payload_of. destruct (status_roundtrip _ Hs) as (bs & _ & -> & Hd).
  rewrite take_eq by (unfold len, BLOCK_HEADER_BYTES; by rewrite length_serialize_header). run.
  rewrite deserialize_serialize by done. run. rewrite <-(app_nil_r bs), Hd. run. done.
Qed.

Lemma le_length r : record_typed r -> le_val (le_bytes 4 (len (payload_of r))) = len (payload_of r).
Proof.
  intros Hr. pose proof (payload_range r Hr). rewrite le_val_bytes. change (256 ^ Z.of_nat 4) with (2 ^ 32).
  by rewrite Z.mod_small by lia.
Qed.

Lemma read_record_ok r rest : record_typed r -> read_record (record_bytes r ++ rest) = Ok (Record_ r.1 r.2, rest).
Proof.
  intros Hr. pose proof (payload_range r Hr) as Hp. unfold read_record, record_bytes. rewrite <-!app_assoc.
  rewrite (read_exact_eq 4) by (unfold len; by rewrite length_le_bytes). rewrite le_length by done.
  change MAX_RECORD_BYTES with 109. rewrite (proj2 (Z.leb_gt 109 (len (payload_of r)))) by lia. rewrite read_exact_app.
  rewrite (read_exact_eq CHECKSUM_BYTES) by apply len_checksum. rewrite bool_decide_true by done. cbn [negb].
  by rewrite parse_payload.
Qed.

(** What a crash leaves of a record is not taken for one. *)
Lemma read_record_torn r t : record_typed r -> t `prefix_of` record_bytes r -> t <> record_bytes r ->
  read_record t = Ok (if len t <? 4 then End_ else Torn (len (payload_of r)), []).
Proof.
  intros Hr [k Hk] Hne. pose proof (payload_range r Hr) as Hp. pose proof (len_nonneg k).
  assert (Hk0 : 0 < len k). { destruct k; [|unfold len; cbn; lia]. rewrite app_nil_r in Hk. congruence. }
  unfold read_record. destruct (Z.ltb_spec (len t) 4) as [Hl|Hl]; [by rewrite read_exact_short|].
  assert (Ht : exists t', t = le_bytes 4 (len (payload_of r)) ++ t' /\ t' ++ k = payload_of r ++ checksum (payload_of r)).
  { exists (drop 4 t). unfold record_bytes in Hk. rewrite <-(take_drop 4 t) in Hk. rewrite <-app_assoc in Hk.
    apply app_inj_1 in Hk as [Hk1 Hk2]; [|rewrite length_le_bytes, length_take; unfold len in Hl; lia].
    split; [|done]. by rewrite Hk1, take_drop. }
  destruct Ht as (t' & -> & Ht'). rewrite (read_exact_eq 4) by (unfold len; by rewrite length_le_bytes). rewrite le_length by done.
  change MAX_RECORD_BYTES with 109. rewrite (proj2 (Z.leb_gt 109 (len (payload_of r)))) by lia. apply (f_equal len) in Ht'. rewrite !len_app, len_checksum in Ht'.
  destruct (read_exact (len (payload_of r)) t') as [[a b]|] eqn:Hre; [|done].
  unfold read_exact in Hre. destruct (Z.leb_spec (len (payload_of r)) (len t')); [|done]. injection Hre as <- <-.
  rewrite read_exact_short; [done|]. unfold CHECKSUM_BYTES, len in *. rewrite length_drop. lia.
Qed.

(** ** Replaying the file is replaying its records *)

Fixpoint replay_list (rs : list (Header * Persisted)) (tree : HeaderTree) (params : ChainParams) (now : Z)
    (statuses : list (option Persisted)) (records torn : Z)
    : outcome JournalError (HeaderTree * list (option Persisted) * (Z * Z * Z)) :=
  match rs with
  | [] => Ok (tree, statuses, (records, torn, 0))
  | r :: rs =>
      '(tree, node) ← accepted tree params now r.1;
      match node with
      | None => Ok (tree, statuses, (saturating_add records 1, 0, 1))
      | Some node => replay_list rs tree params now (note_status statuses node r.2) (saturating_add records 1) torn
      end
  end.

(** The tail of a journal that ends the replay: nothing, or something that is no record. *)
Definition tail_reads (tail : bytes) (torn : Z) : Prop :=
  exists rest, read_record tail = Ok (End_, rest) /\ torn = 0 \/ read_record tail = Ok (Torn torn, rest).

Lemma replay_loop_list rs params now tail torn : Forall record_typed rs -> tail_reads tail torn ->
  forall room tree statuses records, (length rs < room)%nat ->
  replay_loop room (concat (map record_bytes rs) ++ tail) tree params now statuses records =
    replay_list rs tree params now statuses records torn.
Proof.
  intros Hrs Htail. induction Hrs as [|r rs Hr Hrs IH]; intros room tree statuses records Hroom;
    (destruct room as [|room]; [cbn in Hroom; lia|]); cbn [map concat replay_loop replay_list app].
  - destruct Htail as (rest & [[-> ->]| ->]); done.
  - rewrite <-app_assoc, read_record_ok by done. run.
    destruct (accepted tree params now r.1) as [[tree' [node|]]|e|]; run; try done. apply IH. cbn in Hroom. lia.
Qed.

Lemma records_length rs : (length rs <= length (concat (map record_bytes rs)))%nat.
Proof.
  induction rs as [|r rs IH]; [done|]. cbn [map concat length]. rewrite length_app. unfold record_bytes at 1.
  rewrite !length_app, length_le_bytes. lia.
Qed.

Lemma replay_file genesis rs tail torn records tree params now : length genesis = 32%nat -> Forall record_typed rs ->
  tail_reads tail torn ->
  replay (mkJournal (file_header genesis ++ concat (map record_bytes rs) ++ tail) records) tree params now =
    '(tree, statuses, report) ← replay_list rs tree params now [] 0 torn;
    assert_ (len statuses <=? tree_len tree);;
    Ok (mkJournal (file_header genesis ++ concat (map record_bytes rs) ++ tail) report.1.1, tree, statuses, report).
Proof.
  intros Hg Hrs Ht. unfold replay. cbn [j_file].
  rewrite (read_exact_eq FILE_HEADER_BYTES) by (unfold len, file_header; rewrite !length_app, length_le_bytes, Hg; done).
  rewrite (replay_loop_list rs params now tail torn) by (done || (rewrite length_app; pose proof (records_length rs); lia)).
  by destruct (replay_list rs tree params now [] 0 torn) as [[[]]|e|].
Qed.

(** A torn prefix with more bytes after it: what read as the length of the torn record now
    takes the bytes of the next batch for its payload. *)
Lemma read_record_past r t more : record_typed r -> t `prefix_of` record_bytes r -> t <> record_bytes r -> 4 <= len t ->
  (forall payload four rest, drop 4 t ++ more = payload ++ four ++ rest -> len payload = len (payload_of r) -> len four = 4 ->
    checksum payload <> four) ->
  exists rest, read_record (t ++ more) = Ok (Torn (len (payload_of r)), rest).
Proof.
  intros Hr [k Hk] Hne Hl Hsum. pose proof (payload_range r Hr) as Hp. unfold read_record.
  assert (Ht : take 4 t = le_bytes 4 (len (payload_of r))).
  { unfold record_bytes in Hk. rewrite <-(take_drop 4 t) in Hk. rewrite <-app_assoc in Hk.
    apply app_inj_1 in Hk as [Hk1 Hk2]; [done|rewrite length_le_bytes, length_take; unfold len in Hl; lia]. }
  rewrite <-(take_drop 4 t), Ht, <-app_assoc.
  rewrite (read_exact_eq 4) by (unfold len; by rewrite length_le_bytes). rewrite le_length by done.
  change MAX_RECORD_BYTES with 109. rewrite (proj2 (Z.leb_gt 109 (len (payload_of r)))) by lia. set (n := len (payload_of r)) in *. clearbody n.
  unfold read_exact at 1. destruct (Z.leb_spec n (len (drop 4 t ++ more))) as [Hn|]; [|by eexists].
  unfold read_exact at 1, CHECKSUM_BYTES. set (w := drop 4 t ++ more) in *. clearbody w.
  destruct (Z.leb_spec 4 (len (drop (Z.to_nat n) w))) as [H4|]; [|by eexists].
  rewrite bool_decide_false; [by eexists|]. intros Heq.
  apply (Hsum (take (Z.to_nat n) w) (take (Z.to_nat 4) (drop (Z.to_nat n) w)) (drop (Z.to_nat 4) (drop (Z.to_nat n) w))).
  - by rewrite !take_drop.
  - unfold len in *. rewrite length_take. lia.
  - unfold len in *. rewrite length_take. lia.
  - done.
Qed.
End records.

(** ** Crashes and the journal *)
Import Journal.

Section crash.
Context `{HL : HashLengths} `{CL : HeaderCodecLaws} `{BC : BitcoinCrate}.

(** The records that a batch of entries writes. *)
Definition record_at (tree : HeaderTree) (n : Z) : option (Header * Persisted) :=
  e ← get (t_entries tree) n; s ← persisted_of (e_status e); Some (e_header e, s).
Definition records_of (tree : HeaderTree) (ns : list Z) : list (Header * Persisted) := omap (record_at tree) ns.

Definition entry_writable (e : HeaderEntry) : Prop :=
  forall s, persisted_of (e_status e) = Some s -> header_wire (e_header e) /\ persisted_typed s.

Definition writable (tree : HeaderTree) : Prop := forall n e, get (t_entries tree) n = Some e -> entry_writable e.

Lemma records_typed tree ns : writable tree -> Forall record_typed (records_of tree ns).
Proof.
  intros Hw. apply Forall_forall. intros r (n & _ & Hr)%list_elem_of_omap.
  apply bind_Some in Hr as (e & He & Hr). apply bind_Some in Hr as (s & Hs & [= <-]).
  exact (Hw n e He s Hs).
Qed.

Lemma records_of_cons tree n ns : records_of tree (n :: ns) = records_of tree [n] ++ records_of tree ns.
Proof. unfold records_of. cbn [omap list_omap]. by destruct (record_at tree n). Qed.

Lemma len_records tree ns : len (records_of tree ns) <= len ns.
Proof.
  induction ns as [|n ns IH]; [done|]. rewrite (records_of_cons tree n ns), len_app, len_cons. unfold records_of at 1. cbn [omap list_omap].
  destruct (record_at tree n); rewrite ?len_cons, len_nil; lia.
Qed.

Lemma put_entry_spec {E} tree bs written n : writable tree -> 0 <= n < len (t_entries tree) -> 0 <= written < u64_max ->
  put_entry (E:=E) tree (bs, written) n =
    Ok (bs ++ concat (map record_bytes (records_of tree [n])), written + len (records_of tree [n])).
Proof.
  intros Hw Hn Hwr. destruct (get_in_range _ _ Hn) as (e & He). unfold put_entry. rewrite (entry_Ok tree n e He). run.
  unfold records_of. cbn [omap list_omap]. unfold record_at. rewrite He. cbn [mbind option_bind].
  pose proof (Hw n e He) as Hp. unfold entry_writable in Hp. destruct (persisted_of (e_status e)) as [s|]; cbn [mbind option_bind map concat].
  - rewrite (put_record_ok bs (e_header e, s)) by (by apply Hp). run. rewrite saturating_add_ok by lia.
    by rewrite app_nil_r.
  - rewrite app_nil_r, len_nil. do 2 f_equal. lia.
Qed.

Lemma put_entries {E} tree : writable tree -> forall ns bs written, Forall (fun n => 0 <= n < len (t_entries tree)) ns ->
  0 <= written -> written + len ns < u64_max ->
  foldM (put_entry (E:=E) tree) (bs, written) ns =
    Ok (bs ++ concat (map record_bytes (records_of tree ns)), written + len (records_of tree ns)).
Proof.
  intros Hw. induction ns as [|n ns IH]; intros bs written Hns Hw0 Hlen; cbn [foldM].
  { cbn. rewrite app_nil_r, len_nil. do 2 f_equal. lia. }
  apply Forall_cons in Hns as [Hn Hns]. rewrite len_cons in Hlen. pose proof (len_nonneg ns).
  rewrite put_entry_spec by (done || lia). run. pose proof (len_records tree [n]) as Hr1. change (len [n]) with 1 in Hr1.
  pose proof (len_nonneg (records_of tree [n])). rewrite IH by (done || lia).
  rewrite (records_of_cons tree n ns), map_app, concat_app, len_app. f_equal. f_equal; [by rewrite <-!app_assoc|lia].
Qed.

Lemma rewrite_entries {E} tree : writable tree -> forall ns file bs written, Forall (fun n => 0 <= n < len (t_entries tree)) ns ->
  0 <= written -> written + len ns < u64_max ->
  exists file' bs', foldM (rewrite_step (E:=E) tree) (file, bs, written) ns =
    Ok (file', bs', written + len (records_of tree ns)) /\
    file' ++ bs' = file ++ bs ++ concat (map record_bytes (records_of tree ns)).
Proof.
  intros Hw. induction ns as [|n ns IH]; intros file bs written Hns Hw0 Hlen; cbn [foldM].
  { exists file, bs. cbn. rewrite app_nil_r, len_nil. split; [|done]. do 2 f_equal. lia. }
  apply Forall_cons in Hns as [Hn Hns]. rewrite len_cons in Hlen. pose proof (len_nonneg ns).
  destruct (get_in_range _ _ Hn) as (e & He).
  assert (Hstep : exists file1 bs1, rewrite_step (E:=E) tree (file, bs, written) n = Ok (file1, bs1, written + len (records_of tree [n])) /\
    file1 ++ bs1 = file ++ bs ++ concat (map record_bytes (records_of tree [n]))).
  { pose proof (put_entry_spec (E:=E) tree bs written n Hw Hn ltac:(lia)) as Hput. unfold put_entry in Hput. unfold rewrite_step.
    rewrite (entry_Ok tree n e He) in Hput |- *. revert Hput. run. destruct (persisted_of (e_status e)).
    - destruct (put_record bs (e_header e) p) as [bs1|er|]; run; try done. intros [= -> ->].
      destruct (1024 * 1024 <=? _); eexists _, _; (split; [done|]); by rewrite ?app_nil_r.
    - intros Hput. assert (Hb : bs = bs ++ concat (map record_bytes (records_of tree [n]))) by congruence.
      assert (Hn' : written = written + len (records_of tree [n])) by congruence.
      exists file, bs. rewrite <-Hb, <-Hn'. done. }
  destruct Hstep as (file1 & bs1 & -> & Hfb). run. pose proof (len_records tree [n]) as Hr1. change (len [n]) with 1 in Hr1.
  pose proof (len_nonneg (records_of tree [n])).
  destruct (IH file1 bs1 (written + len (records_of tree [n]))) as (file' & bs' & -> & Hfb'); [done|lia|lia|].
  exists file', bs'. rewrite (records_of_cons tree n ns), map_app, concat_app, len_app. split; [do 2 f_equal; lia|].
  rewrite Hfb'. rewrite !app_assoc. f_equal. rewrite <-!app_assoc. exact Hfb.
Qed.

Definition in_arena (tree : HeaderTree) (ns : list Z) : Prop := Forall (fun n => 0 <= n < len (t_entries tree)) ns.

Lemma nodes_in_arena tree : in_arena tree (nodes tree).
Proof. apply Forall_forall. intros n Hn. unfold nodes in Hn. rewrite elem_of_seqZ in Hn. lia. Qed.

(** What [rewrite] puts in the file. *)
Lemma rewrite_spec {E} j tree g : writable tree -> get (t_entries tree) 0 = Some g -> len (t_entries tree) < u64_max ->
  rewrite (E:=E) j tree = Ok (mkJournal (file_header (e_hash g) ++ concat (map record_bytes (records_of tree (nodes tree))))
    (len (records_of tree (nodes tree)))).
Proof.
  intros Hw Hg Hl. unfold rewrite. rewrite (entry_Ok tree _ g Hg). run.
  destruct (rewrite_entries (E:=E) tree Hw (nodes tree) [] (file_header (e_hash g)) 0) as (file & bs & -> & Hfb).
  - apply nodes_in_arena.
  - done.
  - unfold nodes, len in *. rewrite length_seqZ. lia.
  - run. by rewrite Hfb.
Qed.

(** What [append] puts in the file: the batch after what was there, or the whole tree. *)
Lemma append_spec {E} j tree g dirty : writable tree -> in_arena tree dirty -> get (t_entries tree) 0 = Some g ->
  len (t_entries tree) < u64_max -> len dirty < u64_max ->
  exists j', append (E:=E) j dirty tree = Ok (j', len (records_of tree dirty)) /\
    (j_file j' = j_file j ++ concat (map record_bytes (records_of tree dirty)) \/
     j_file j' = file_header (e_hash g) ++ concat (map record_bytes (records_of tree (nodes tree))) /\
     j_records j' = len (records_of tree (nodes tree))).
Proof.
  intros Hw Hd Hg Hl Hld. unfold append. rewrite (put_entries tree Hw dirty [] 0 Hd) by (done || lia). run. rewrite Z.add_0_l. cbn [app].
  destruct (Z.eqb_spec (len (records_of tree dirty)) 0) as [Hz|Hz].
  - exists j. rewrite Hz. split; [done|left]. destruct (records_of tree dirty); [by rewrite app_nil_r|].
    rewrite len_cons in Hz. pose proof (len_nonneg l). lia.
  - unfold rewrite_if_stale. cbn [j_records j_file]. destruct (_ <=? _); run.
    + eexists. split; [done|]. by left.
    + rewrite (rewrite_spec _ tree g) by done. run. eexists. split; [done|]. by right.
Qed.

(** A prefix of a batch is some of its records, and a part of one more. *)
Lemma cut_records rs cut : Forall record_typed rs -> cut `prefix_of` concat (map record_bytes rs) ->
  exists kept tail torn, kept `prefix_of` rs /\ cut = concat (map record_bytes kept) ++ tail /\ tail_reads tail torn.
Proof.
  intros Hrs. revert cut. induction Hrs as [|r rs Hr Hrs IH]; intros cut Hcut.
  { apply prefix_nil_inv in Hcut as ->. exists [], [], 0. split_and!; [done..|]. exists []. by left. }
  cbn [map concat] in Hcut. destruct (decide (record_bytes r `prefix_of` cut)) as [[rest ->]|Hno].
  - apply prefix_app_inv in Hcut. destruct (IH rest Hcut) as (kept & tail & torn & Hk & -> & Ht).
    exists (r :: kept), tail, torn. split_and!; [by apply prefix_cons|cbn [map concat]; by rewrite app_assoc|done].
  - assert (Hpre : cut `prefix_of` record_bytes r).
    { destruct (prefix_weak_total cut (record_bytes r) (record_bytes r ++ concat (map record_bytes rs))); [done|by eexists|done|done]. }
    exists [], cut, (if len cut <? 4 then 0 else len (payload_of r)). split; [apply prefix_nil|]. split; [done|].
    pose proof (read_record_torn r cut Hr Hpre ltac:(intros ->; by apply Hno)) as Hread. exists [].
    destruct (len cut <? 4); [left|right]; done.
Qed.

(** What replaying the records [rs] gives, the file being [file]. *)
Definition replays (rs : list (Header * Persisted)) (file : bytes) (tree : HeaderTree) (params : ChainParams) (now torn : Z)
    : outcome JournalError (Journal * HeaderTree * list (option Persisted) * (Z * Z * Z)) :=
  '(tree, statuses, report) ← replay_list rs tree params now [] 0 torn;
  assert_ (len statuses <=? tree_len tree);;
  Ok (mkJournal file report.1.1, tree, statuses, report).


End crash.
