(* ===== verification/JournalLoad.v ===== *)
(** * JournalLoad: whatever the journal holds, the coin store's marker decides

    Loading any file at all into a new tree: the tree is well formed, its active chain is
    exactly the chain of the marker, and the only panic is a marker whose chain goes through
    a refused block. *)
From S2P Require Import Prelude Uint Target Bitcoin Flags Params Header Sighash SighashProofs Verify Tx Signet Block Coins SkipList Queue Tree TreeProofs TreeInv TreeOps TreeLife Reorg ReorgLive TreeTheorems StoreReader Journal JournalProofs.
Import Journal.

Section load.
Context `{HH : Hashes} `{CL : HeaderCodecLaws} `{BC : BitcoinCrate} (p : ChainParams) (interval : Z) (Hp : chain_ok p interval).

(** No header hashes to a number below [2^22], so that the work of a full arena stays inside
    256 bits. *)
Definition hashes_sane : Prop := forall h, header_wire h ->
  length (block_hash h) = 32%nat /\ 2 ^ 22 <= le_val (block_hash h).

Context (Hsane : hashes_sane).

Lemma wire_typed h : header_wire h -> header_typed h.
Proof using Hsane.
  intros Hw. destruct (Hsane h Hw) as [Hl Hv]. destruct Hw. unfold u32_max in *. constructor; [lia| |done|lia].
  unfold BlockTime.valid, u32_max. lia.
Qed.

Lemma checked_work h : header_wire h -> check_header h p = Ok tt -> header_work h <= 2 ^ 234.
Proof using Hp Hsane.
  intros Hw Hc. destruct (Hsane h Hw) as [Hl Hv]. pose proof (wire_typed h Hw) as [Hu _ _ _].
  pose proof (proj1 (ok_pow_limit p (tabled_ok p (chain_tabled p interval Hp)))) as Hlim.
  rewrite check_header_eq in Hc by done.
  destruct (decode_spec (hdr_bits h) (pow_limit p)); try done.
  destruct (Z.leb_spec (le_val (block_hash h)) (compact_value (hdr_bits h))) as [Hle|]; [|done].
  destruct (block_work_eq (E:=Empty_set) _ Hu) as (w & Hw' & _ & Hval). unfold header_work. rewrite Hw', Hval.
  destruct (_ || _ || _); [done|]. transitivity (2 ^ 256 / 2 ^ 22); [apply Z.div_le_compat_l; lia|done].
Qed.

Lemma accept_checked {E} t h now : check_header h p <> Panic ->
  (exists n, accept (E:=E) t h p now = Ok (t, inr (Duplicate n))) \/
  (exists e, accept (E:=E) t h p now = Ok (t, inl e)) \/ check_header h p = Ok tt.
Proof.
  intros Hc. unfold accept. destruct (node_of t (block_hash h)) as [n|]; [left; by exists n|].
  destruct (check_header h p) as [[]|e|]; [by right; right|right; left; by eexists|done].
Qed.

(** A tree while the journal is replayed into it. *)
Record loading (t : HeaderTree) : Prop := {
  lo_wf : tree_wf p t;
  lo_tip : t_tip t = 0;
  lo_light : forall i e, get (t_entries t) i = Some e -> work_of e <= (i + 1) * 2 ^ 234;
  lo_fresh : forall i e l, get (t_entries t) i = Some e -> e_status e <> HeaderStatus.BlockChecked l;
}.

Lemma loading_period t period : loading t -> loading (with_period t period).
Proof. intros [Hwf Ht Hl Hf]. constructor; [by apply with_period_wf|done..]. Qed.

Lemma loading_inserted t header parent pe s x : loading t -> placed t header parent pe s x ->
  (forall l, s <> HeaderStatus.BlockChecked l) -> header_work header <= 2 ^ 234 -> tree_wf p (inserted t x) ->
  loading (inserted t x).
Proof.
  intros [Hwf Ht Hl Hf] (Hh & _ & Hst & Hlink & _) Hs Hw Hwf'. constructor; [done|done| |].
  - intros i e [Hi|[-> <-]]%get_snoc; [by apply Hl|]. destruct Hlink as [_ Hg Hb _ Hwk _ _].
    rewrite Hwk, Hh. pose proof (Hl _ _ Hg). pose proof (get_Some_range _ _ _ Hg). nia.
  - intros i e l [Hi|[-> <-]]%get_snoc; [by apply (Hf i)|]. rewrite Hst. apply Hs.
Qed.

Lemma check_header_total h : header_wire h -> check_header h p <> Panic.
Proof using Hp Hsane.
  intros Hw. destruct (wire_typed h Hw) as [Hu _ Hl _].
  rewrite check_header_eq by (done || apply (ok_pow_limit p (tabled_ok p (chain_tabled p interval Hp)))).
  unfold decode_spec. repeat case_match; done.
Qed.

Lemma light_room t n e h : loading t -> get (t_entries t) n = Some e -> header_work h <= 2 ^ 234 ->
  work_of e + header_work h < 2 ^ 256.
Proof.
  intros [Hwf _ Hl _] Hn Hw. pose proof (Hl _ _ Hn). pose proof (get_Some_range _ _ _ Hn).
  pose proof (shape_len _ (wf_shape p t Hwf)) as Hlen. unfold MAX_TREE_HEADERS in Hlen. lia.
Qed.

(** Replaying one header: the tree stays sound, and the answer names an entry of it. *)
Lemma accepted_ok {E} t now h : loading t -> header_wire h ->
  ensures (accepted (E:=E) t p now h) (fun '(t', node) => loading t' /\ len (t_entries t) <= len (t_entries t') /\
    forall n, node = Some n -> 0 <= n < len (t_entries t')).
Proof using Hp Hsane.
  intros Hlo Hw. pose proof (lo_wf t Hlo) as Hwf. unfold accepted.
  pose proof (accept_checked (E:=E) t h now (check_header_total h Hw)) as Hck.
  destruct (accept_spec (E:=E) p interval t h now Hp Hwf (wire_typed h Hw)) as [(n & e & Hn & _ & Hover & Hpan)|(t' & r & Hacc & Hspec & Hwf')].
  { rewrite Hpan in Hck. destruct Hck as [[? ?]|[[? ?]|Hck]]; [done..|].
    pose proof (light_room t n e h Hlo Hn (checked_work h Hw Hck)). lia. }
  rewrite Hacc in Hck |- *. run. cbn [ensures].
  assert (Hnew : forall t1 x parent pe s, loading t1 -> placed t1 h parent pe s x -> (forall l, s <> HeaderStatus.BlockChecked l) ->
    check_header h p = Ok tt -> tree_wf p (inserted t1 x) -> loading (inserted t1 x) /\ len (t_entries t1) <= len (t_entries (inserted t1 x)) /\
      0 <= len (t_entries t1) < len (t_entries (inserted t1 x))).
  { intros t1 x parent pe s Hlo1 Hpl Hs Hc Hwf1. split; [by eapply loading_inserted; eauto using checked_work|].
    cbn [t_entries inserted]. rewrite len_app. change (len [x]) with 1. pose proof (len_nonneg (t_entries t1)). lia. }
  assert (Hc : (forall n, r <> inr (Duplicate n)) -> t' <> t -> check_header h p = Ok tt).
  { intros Hd Ht. destruct Hck as [[? [= -> ->]]|[[? [= -> ->]]|?]]; done. }
  assert (Hgrow : forall x, inserted t x <> t).
  { intros x Hx. apply (f_equal (fun t => len (t_entries t))) in Hx. cbn in Hx. rewrite len_app in Hx. change (len [x]) with 1 in Hx. lia. }
  assert (Hgrow' : forall period x, inserted (with_period t period) x <> t).
  { intros period x Hx. apply (f_equal (fun t => len (t_entries t))) in Hx. cbn in Hx. rewrite len_app in Hx. change (len [x]) with 1 in Hx. lia. }
  destruct Hspec as [n e Hn _|e _|_|? ? ? _ _ _|parent pe c x _ Hpl|parent pe ctx err period x _ _ _ Hpl|? ? ? ? _ _ _ _ _|parent pe ctx period x _ _ Hck' _ _ Hpl];
    cbn [accepted_node].
  - split; [done|]. split; [done|]. intros ? [= <-]. by apply get_Some_range in Hn.
  - done.
  - done.
  - split; [by apply loading_period|]. done.
  - destruct (Hnew t x parent pe _ Hlo Hpl ltac:(done) (Hc ltac:(done) (Hgrow x)) Hwf') as (H1 & H2 & H3).
    split; [done|]. split; [done|]. by intros ? [= <-].
  - destruct (Hnew (with_period t period) x parent pe _ (loading_period t period Hlo) Hpl ltac:(done) (Hc ltac:(done) (Hgrow' period x)) Hwf') as (H1 & H2 & H3).
    split; [done|]. split; [done|]. by intros ? [= <-].
  - split; [by apply loading_period|]. done.
  - destruct (Hnew (with_period t period) x parent pe _ (loading_period t period Hlo) Hpl ltac:(done) Hck' Hwf') as (H1 & H2 & H3).
    split; [done|]. split; [done|]. by intros ? [= <-].
Qed.

Lemma read_record_wire file h s rest : read_record file = Ok (Record_ h s, rest) ->
  header_wire h /\ (length rest < length file)%nat.
Proof using CL.
  unfold read_record. destruct (read_exact 4 file) as [[l f1]|] eqn:H1; [|done].
  destruct (MAX_RECORD_BYTES <=? le_val l); [done|]. destruct (read_exact (le_val l) f1) as [[payload f2]|] eqn:H2; [|done].
  destruct (read_exact CHECKSUM_BYTES f2) as [[four f3]|] eqn:H3; [|done]. destruct (negb _); [done|].
  intros Hr. apply bind_Ok in Hr as (read & Hread & [= -> ->]). apply map_err_Ok in Hread. unfold parse_record in Hread.
  apply bind_Ok in Hread as ([hb hr] & _ & Hread). destruct (deserialize_header hb) as [h'|] eqn:Hd; [|done].
  apply bind_Ok in Hread as (h'' & [= <-] & Hread). apply bind_Ok in Hread as ([st rest'] & _ & Hread).
  apply bind_Ok in Hread as ([] & _ & [= -> ->]). split; [by eapply deserialize_wire|].
  unfold read_exact in H1, H2, H3. destruct (Z.leb_spec 4 (len file)) as [Hl|]; [|done]. injection H1 as <- <-.
  destruct (_ <=? _); [|done]. injection H2 as <- <-. destruct (_ <=? _); [|done]. injection H3 as <- <-.
  unfold len in Hl. rewrite !length_drop. lia.
Qed.

Lemma total_bind {E A B} (m : outcome E A) (f : A -> outcome E B) : m <> Panic -> (forall a, f a <> Panic) -> (m ≫= f) <> Panic.
Proof. intros Hm Hf. by destruct m; cbn. Qed.

Lemma take_total n bs : StoreReader.take n bs <> Panic.
Proof. unfold StoreReader.take. by destruct (_ <=? _). Qed.

Lemma u8_total bs : StoreReader.u8 bs <> Panic.
Proof. apply total_bind; [apply take_total|]. intros [[] ?]; done. Qed.

Lemma triple_total bs : triple bs <> Panic.
Proof.
  repeat (apply total_bind; [apply total_bind; [apply take_total|by intros []]|intros []]). done.
Qed.

Lemma decode_total bs : decode bs <> Panic.
Proof.
  unfold decode, block_location. apply total_bind; [apply u8_total|]. intros [tag bs'].
  destruct (tag =? 0); [done|]. destruct (tag =? 1).
  { apply total_bind; [apply total_bind; [apply triple_total|by intros [[[] ?] ?]]|by intros []]. }
  destruct (tag =? 2).
  { apply total_bind; [apply total_bind; [apply triple_total|by intros [[[] ?] ?]]|intros []].
    apply total_bind; [apply triple_total|by intros [[[] ?] ?]]. }
  destruct (tag =? 3); [|done]. apply total_bind; [apply u8_total|]. intros [tag' ?]. by destruct (Stage.of_tag tag').
Qed.

Lemma read_record_total file : read_record file <> Panic.
Proof.
  unfold read_record. destruct (read_exact 4 file) as [[l f1]|]; [|done].
  destruct (MAX_RECORD_BYTES <=? le_val l); [done|]. destruct (read_exact (le_val l) f1) as [[payload f2]|]; [|done].
  destruct (read_exact CHECKSUM_BYTES f2) as [[four f3]|]; [|done]. destruct (negb _); [done|].
  apply total_bind; [|done]. intros Hm. assert (Hpr : parse_record payload = Panic) by (by destruct (parse_record payload)).
  revert Hpr. apply total_bind; [apply take_total|]. intros [hb hr]. destruct (deserialize_header hb); [|done].
  apply total_bind; [done|]. intros ?. apply total_bind; [apply decode_total|]. intros [st rest].
  apply total_bind; [|done]. unfold StoreReader.finish. by case_bool_decide.
Qed.

Lemma note_status_len statuses n s : 0 <= n -> len (note_status statuses n s) = Z.max (len statuses) (n + 1).
Proof.
  intros Hn. unfold note_status. rewrite len_insert. pose proof (len_nonneg statuses).
  destruct (Z.leb_spec (len statuses) n); [|lia]. rewrite len_app. unfold len at 2. rewrite length_replicate. lia.
Qed.

Lemma replay_loop_ok now : forall room file t statuses records, (length file < room)%nat -> loading t ->
  len statuses <= len (t_entries t) ->
  ensures (replay_loop room file t p now statuses records) (fun '(t', statuses', _) => loading t' /\ len statuses' <= len (t_entries t')).
Proof using Hp Hsane CL.
  induction room as [|room IH]; intros file t statuses records Hroom Hlo Hlen; [lia|]. cbn [replay_loop].
  destruct (read_record file) as [[read rest]|e|] eqn:Hread; [|done|by apply read_record_total in Hread]. run.
  destruct read as [h s| |torn]; [|done|done]. destruct (read_record_wire _ _ _ _ Hread) as [Hw Hrest].
  eapply ensures_bind; [apply (accepted_ok t now h Hlo Hw)|]. intros [t' [n|]] (Hlo' & Hgrow & Hn).
  - apply IH; [lia|done|]. specialize (Hn n eq_refl). rewrite note_status_len by lia. lia.
  - cbn [ensures]. split; [done|lia].
Qed.

(** ** Giving the entries back what the journal says of them *)

Context (statuses : list (option Persisted)).

Record applied (es0 : list HeaderEntry) (k : Z) (t : HeaderTree) : Prop := {
  ap_wf : tree_wf p t;
  ap_tip : t_tip t = 0;
  ap_links : same_links es0 (t_entries t);
  ap_ahead : forall i e l, k <= i -> get (t_entries t) i = Some e -> e_status e <> HeaderStatus.BlockChecked l;
  ap_behind : forall i e l u, 0 < i < k -> get (t_entries t) i = Some e -> terminal e = false ->
    status_of statuses i = Some (PConnected l u) -> exists l', e_status e = HeaderStatus.BlockChecked l';
}.

Lemma idle t i e : tree_wf p t -> t_tip t = 0 -> get (t_entries t) i = Some e -> 0 < i -> active e = false.
Proof.
  intros Hwf Htip Hi Hpos. destruct (active e) eqn:Ha; [|done]. apply (wf_active p t Hwf i e Hi) in Ha. rewrite Htip in Ha.
  destruct (shape_genesis _ (wf_shape p t Hwf)) as (g & Hg & Hpar & _). inversion Ha; simplify_eq; lia.
Qed.

Lemma applied_next es0 k t : applied es0 k t -> (forall i e l u, i = k -> 0 < i -> get (t_entries t) i = Some e -> terminal e = false ->
    status_of statuses i = Some (PConnected l u) -> exists l', e_status e = HeaderStatus.BlockChecked l') -> applied es0 (k + 1) t.
Proof.
  intros [Hwf Ht Hl Ha Hb] Hk. constructor; try done.
  - intros i e l Hi. apply Ha. lia.
  - intros i e l u Hi He Hte Hs. destruct (decide (i = k)) as [->|]; [apply (Hk k e l u); [done|lia|done..]|apply (Hb i e l u); [lia|done..]].
Qed.

Lemma applied_touched es0 k t e s : applied es0 k t -> get (t_entries t) k = Some e -> 0 < k ->
  (HeaderStatus.is_terminal s = false -> exists l, s = HeaderStatus.BlockChecked l) ->
  tree_wf p (touched t k e s) -> applied es0 (k + 1) (touched t k e s).
Proof.
  intros [Hwf Ht Hl Ha Hb] Hk Hpos Hs Hwf'. pose proof (touched_get t k e Hk s) as Hg. constructor; [done|done| | |].
  - unfold same_links. rewrite Hl. apply (touched_links t k e Hk s).
  - intros i ei l Hi. rewrite Hg. case_decide; [lia|]. apply Ha. lia.
  - intros i ei l u Hi. rewrite Hg. case_decide as Hik.
    + intros [= <-] Hte _. cbn in Hte |- *. by apply Hs.
    + apply Hb. lia.
Qed.

Lemma applied_refused es0 k t e v es' best : applied es0 k t -> get (t_entries t) k = Some e -> 0 < k ->
  refusal t k e v es' -> tree_wf p (with_best (with_entries (touched t k e (HeaderStatus.Invalid v)) es') best) ->
  applied es0 (k + 1) (with_best (with_entries (touched t k e (HeaderStatus.Invalid v)) es') best).
Proof.
  intros [Hwf Ht Hl Ha Hb] Hk Hpos [Hlen Hr] Hwf'.
  assert (Hget : forall i ei, get es' i = Some ei -> exists e0, get (t_entries t) i = Some e0 /\
    (terminal ei = true \/ ei = e0 /\ i <> k)).
  { intros i ei Hi. pose proof (get_Some_range _ _ _ Hi) as Hrange. rewrite Hlen in Hrange. destruct (get_in_range _ _ Hrange) as (e0 & He0).
    destruct (Hr i e0 He0) as (e' & He' & Hcase). rewrite Hi in He'. injection He' as <-. exists e0. split; [done|].
    destruct Hcase as [[-> ->]|[[_ ->]|(Hne & _ & ->)]]; [by left|by left|by right]. }
  constructor; [done|done| | |].
  - unfold same_links. rewrite Hl. apply (TreeLife.refusal_links t k e Hk v es'). by split.
  - intros i ei l Hi He Hst. destruct (Hget i ei He) as (e0 & He0 & [Hte|[-> _]]); [by rewrite Hst in Hte|].
    by apply (Ha i e0 l ltac:(lia) He0).
  - intros i ei l u Hi He Hte Hs. destruct (Hget i ei He) as (e0 & He0 & [Hte'|[-> Hne]]); [congruence|].
    apply (Hb i e0 l u); [lia|done..].
Qed.

Lemma apply_step_ok {E} es0 k t : applied es0 k t -> 0 <= k < len (t_entries t) ->
  ensures (apply_step (E:=E) statuses t k) (applied es0 (k + 1)).
Proof.
  intros Hap Hk. pose proof (ap_wf _ _ _ Hap) as Hwf. unfold apply_step.
  destruct (get_in_range _ _ Hk) as (e & He). destruct (status_of statuses k) as [s|] eqn:Hst.
  2: { apply applied_next; [done|]. intros i e' l u -> _ _ _ Hs. congruence. }
  rewrite (entry_Ok t k e He). run. pose proof (wf_genesis p t Hwf k e He) as Hgen.
  destruct (HeaderStatus.is_terminal (e_status e)) eqn:Hte; cbn [orb].
  { apply applied_next; [done|]. intros i e' l u -> _ He' Hl _. rewrite He in He'. injection He' as <-. congruence. }
  destruct (decide (k = 0)) as [->|Hne].
  { rewrite (proj2 Hgen eq_refl). apply applied_next; [done|]. intros; lia. }
  pose proof (idle t k e Hwf (ap_tip _ _ _ Hap) He ltac:(lia)) as Hid. pose proof (fun l => ap_ahead _ _ _ Hap k e l ltac:(lia) He) as Hnc.
  destruct (e_status e) eqn:Hse; try done; [|by destruct (Hnc location)].
  destruct s as [|loc|loc u|stage]; cbn [orb].
  - apply applied_next; [done|]. intros i e' l u -> _ _ _ Hs. congruence.
  - destruct (block_checked_spec (E:=E) p t Hwf k e loc He Hse) as [-> Hwf']. apply applied_touched; [done..|lia| |done]. by eexists.
  - destruct (block_checked_spec (E:=E) p t Hwf k e loc He Hse) as [-> Hwf']. apply applied_touched; [done..|lia| |done]. by eexists.
  - destruct (invalidate_spec (E:=E) p t Hwf k e He ltac:(by rewrite Hse) ltac:(by rewrite Hse) (Invalidity.Reloaded stage)) as (es' & best & -> & Hr & _ & Hwf').
    apply applied_refused; [done..|lia|done|done].
Qed.

Lemma apply_loop {E} es0 : forall (n : nat) k t, applied es0 k t -> 0 <= k -> k + Z.of_nat n = len es0 ->
  ensures (foldM (apply_step (E:=E) statuses) t (seqZ k (Z.of_nat n))) (applied es0 (k + Z.of_nat n)).
Proof.
  induction n as [|n IH]; intros k t Hap Hk Hn. { cbn. by rewrite Z.add_0_r. }
  pose proof (same_links_len _ _ (ap_links _ _ _ Hap)) as Hlen.
  rewrite seqZ_cons by lia. cbn [foldM]. eapply ensures_bind; [apply apply_step_ok; [done|lia]|].
  intros t1 Hap1. replace (Z.pred (Z.of_nat (S n))) with (Z.of_nat n) by lia. replace (k + Z.of_nat (S n)) with (k + 1 + Z.of_nat n) by lia.
  apply IH; [done|lia|lia].
Qed.

Lemma apply_statuses_ok {E} t : loading t ->
  ensures (apply_statuses (E:=E) t statuses) (applied (t_entries t) (len (t_entries t))).
Proof.
  intros [Hwf Ht _ Hf]. unfold apply_statuses, nodes. pose proof (len_nonneg (t_entries t)).
  pose proof (apply_loop (E:=E) (t_entries t) (length (t_entries t)) 0 t) as Hloop. rewrite Z.add_0_l in Hloop. apply Hloop; [|lia|done].
  constructor; [done|done|done| |lia]. intros i e l _. apply Hf.
Qed.

(** ** Connecting up to the marker *)

(** [climbs es a path m]: the nodes from below [a] up to [m], each the child of the one before. *)
Fixpoint climbs (es : list HeaderEntry) (a : Z) (path : list Z) (m : Z) : Prop :=
  match path with
  | [] => a = m
  | n :: path => (exists e, get es n = Some e /\ e_parent e = Some a) /\ climbs es n path m
  end.

Lemma climbs_snoc es a path n m e : climbs es a path n -> get es m = Some e -> e_parent e = Some n -> climbs es a (path ++ [m]) m.
Proof.
  revert a. induction path as [|x path IH]; intros a Hc He Hpar; cbn in *; [subst; split; [by exists e|done]|].
  destruct Hc as [Hx Hc]. split; [done|]. by apply IH.
Qed.

Lemma path_to_ok {E} t : tree_wf p t -> forall room n e acc, get (t_entries t) n = Some e -> (Z.to_nat n < room)%nat ->
  exists path, path_to (E:=E) room t n acc = Ok (path ++ acc) /\ climbs (t_entries t) 0 path n /\ len path = e_height e /\
    forall i, i ∈ path -> descends (t_entries t) n i.
Proof.
  intros Hwf. pose proof (wf_shape p t Hwf) as Hs. induction room as [|room IH]; intros n e acc Hn Hroom; [lia|].
  cbn [path_to]. unfold NodeId.GENESIS. destruct (Z.eqb_spec n 0) as [->|Hne].
  { exists []. split; [done|]. split; [done|]. split; [|set_solver].
    destruct (entry_cases _ Hs 0 e Hn) as [(_ & _ & -> & _)|[? _]]; [done|lia]. }
  rewrite (entry_Ok t n e Hn). run. pose proof (get_Some_range _ _ _ Hn).
  destruct (shape_linked _ Hs n e Hn ltac:(lia)) as (q & qe & [Hpar Hq Hlt Hh _ _ _]). rewrite Hpar.
  pose proof (get_Some_range _ _ _ Hq).
  destruct (IH q qe (n :: acc) Hq ltac:(lia)) as (path & -> & Hc & Hl & Hd). exists (path ++ [n]). rewrite <-app_assoc.
  split; [done|]. split; [by eapply climbs_snoc|]. rewrite len_app, Hl, Hh. split; [done|].
  intros i [Hi|Hi]%elem_of_app; [|apply list_elem_of_singleton in Hi as ->; constructor].
  econstructor; [done..|]. by apply Hd.
Qed.

Lemma climbs_after t a path m : tree_shape (t_entries t) -> climbs (t_entries t) a path m -> forall i, i ∈ path -> a < i.
Proof.
  intros Hs. revert a. induction path as [|n path IH]; intros a Hc i Hi; [set_solver|]. destruct Hc as [(e & He & Hpar) Hc].
  destruct (parent_linked _ Hs n e a He Hpar) as (pe & [_ _ Hlt _ _ _ _]).
  apply elem_of_cons in Hi as [->|Hi]; [done|]. pose proof (IH n Hc i Hi). lia.
Qed.

Lemma climbs_links es es' : same_links es es' -> forall path a m, climbs es a path m -> climbs es' a path m.
Proof.
  intros Hl. induction path as [|n path IH]; intros a m; cbn; [done|]. intros [(e & He & Hpar) Hc]. split; [|by apply IH].
  destruct (same_links_get _ _ _ _ Hl He) as (e' & He' & Heq). exists e'. split; [done|]. unfold link_of in Heq. congruence.
Qed.

(** The blocks of the path that the journal calls connected are ready to be. *)
Definition ready (t : HeaderTree) (path : list Z) : Prop := forall i e l u, i ∈ path -> get (t_entries t) i = Some e ->
  terminal e = false -> status_of statuses i = Some (PConnected l u) -> exists l', e_status e = HeaderStatus.BlockChecked l'.

Lemma connect_step_eq t n e : get (t_entries t) n = Some e -> connect_step statuses t n =
  match status_of statuses n with Some (PConnected _ undo) => connected t n undo | _ => Err (NoUndo (e_hash e)) end.
Proof. intros He. unfold connect_step. by rewrite (entry_Ok t n e He). Qed.

Lemma connect_ok : forall path a m t, tree_wf p t -> t_tip t = a -> climbs (t_entries t) a path m -> ready t path ->
  match foldM (connect_step statuses) t path with
  | Ok t' => tree_wf p t' /\ t_tip t' = m /\ same_links (t_entries t) (t_entries t')
  | Err e => exists h, e = NoUndo h
  | Panic => exists i e, i ∈ path /\ get (t_entries t) i = Some e /\ terminal e = true
  end.
Proof.
  induction path as [|n path IH]; intros a m t Hwf Htip Hc Hrd; cbn [foldM]. { cbn in Hc. subst. by split_and!. }
  pose proof Hc as Hc0. destruct Hc as [(e & He & Hpar) Hc]. rewrite (connect_step_eq t n e He).
  destruct (status_of statuses n) as [[| | l u|]|] eqn:Hst; run; try by eexists.
  assert (Hn : n ∈ n :: path) by apply list_elem_of_here.
  destruct (HeaderStatus.is_terminal (e_status e)) eqn:Hte.
  { unfold connected. rewrite (entry_Ok t n e He). run. rewrite bool_decide_eq_true_2 by congruence. run.
    destruct (e_status e) eqn:Hse; try done; exists n, e; by rewrite Hse. }
  destruct (Hrd n e l u Hn He Hte Hst) as (l' & Hse).
  destruct (connected_spec (E:=JournalError) p t Hwf n e l' u He Hse ltac:(congruence)) as [-> Hwf1]. run.
  set (t1 := with_tip _ n). pose proof (touched_links t n e He (HeaderStatus.Connected l' u)) as Hlk.
  pose proof (touched_get t n e He (HeaderStatus.Connected l' u)) as Hg.
  pose proof (climbs_after t n path m (wf_shape p t Hwf) Hc) as Hafter.
  specialize (IH n m t1 Hwf1 eq_refl (climbs_links _ _ Hlk _ _ _ Hc)).
  destruct (foldM (connect_step statuses) t1 path) as [t'|er|].
  - destruct IH as (H1 & H2 & H3); [|split_and!; [done..|]; unfold same_links in *; rewrite Hlk; exact H3].
    intros i ei li ui Hi. change (t_entries t1) with (t_entries (touched t n e (HeaderStatus.Connected l' u))). rewrite Hg.
    specialize (Hafter i Hi). case_decide; [lia|]. apply (Hrd i ei li ui); set_solver.
  - apply IH. intros i ei li ui Hi. change (t_entries t1) with (t_entries (touched t n e (HeaderStatus.Connected l' u))). rewrite Hg.
    specialize (Hafter i Hi). case_decide; [lia|]. apply (Hrd i ei li ui); set_solver.
  - destruct IH as (i & ei & Hi & Hei & Hti).
    { intros i ei li ui Hi. change (t_entries t1) with (t_entries (touched t n e (HeaderStatus.Connected l' u))). rewrite Hg.
      specialize (Hafter i Hi). case_decide; [lia|]. apply (Hrd i ei li ui); set_solver. }
    change (t_entries t1) with (t_entries (touched t n e (HeaderStatus.Connected l' u))) in Hei. rewrite Hg in Hei.
    specialize (Hafter i Hi). case_decide; [lia|]. exists i, ei. split_and!; [set_solver|done|done].
Qed.
End load.

Section marker.
Context `{HH : Hashes} `{CL : HeaderCodecLaws} `{BC : BitcoinCrate} (p : ChainParams) (interval : Z) (Hp : chain_ok p interval).

Lemma new_loading {E} cap t : genesis_ok p -> header_work (blk_header (genesis p)) <= 2 ^ 234 ->
  with_cap (E:=E) p cap = Ok t -> loading p t.
Proof.
  intros Hg Hw Ht. pose proof (init_wf p cap t Hg Ht) as Hwf. unfold with_cap in Ht. inv_ok.
  assert (Hget : forall (y : HeaderEntry) i e, get [y] i = Some e -> i = 0 /\ e = y).
  { intros y i e Hi. pose proof (get_Some_range _ _ _ Hi) as Hr. change (len [y]) with 1 in Hr.
    replace i with 0 in * by lia. by injection Hi as <-. }
  constructor; [done|done| |].
  - intros i e [-> ->]%Hget. destruct (shape_genesis _ (wf_shape p _ Hwf)) as (g & Hg0 & _ & _ & _ & Hwk).
    cbn in Hg0. injection Hg0 as <-. cbn in Hwk |- *. lia.
  - intros i e l [-> ->]%Hget. done.
Qed.

End marker.

(** ** A concrete journal

    The consensus encoding of a header, a crate whose block hash is the nonce, a journal with
    one connected block, and the theorems on the journal applied to it. *)
Import Journal.

Definition signed32 (z : Z) : Z := if z <? 2 ^ 31 then z else z - 2 ^ 32.

Definition field (bs : bytes) (a n : nat) : bytes := take n (drop a bs).

Definition simple_codec : HeaderCodec := {|
  serialize_header h := le_bytes 4 (hdr_version h) ++ hdr_prev_blockhash h ++ hdr_merkle_root h ++
    le_bytes 4 (hdr_time h) ++ le_bytes 4 (hdr_bits h) ++ le_bytes 4 (hdr_nonce h);
  deserialize_header bs :=
    if decide (length bs = 80%nat) then
      Some (mkHeader (signed32 (le_val (field bs 0 4))) (field bs 4 32) (field bs 36 32)
        (le_val (field bs 68 4)) (le_val (field bs 72 4)) (le_val (field bs 76 4)))
    else None |}.

Lemma field_app a b c n m : length a = n -> length b = m -> field (a ++ b ++ c) n m = b.
Proof. intros <- <-. unfold field. by rewrite drop_app_length, take_app_length. Qed.

Lemma length_field bs a n : (a + n <= length bs)%nat -> length (field bs a n) = n.
Proof. intros H. unfold field. rewrite length_take, length_drop. lia. Qed.

Lemma le_val_field bs a : (a + 4 <= length bs)%nat -> 0 <= le_val (field bs a 4) < 2 ^ 32.
Proof. intros H. pose proof (le_val_range (field bs a 4)) as Hr. by rewrite length_field in Hr. Qed.

Lemma simple_codec_laws : @HeaderCodecLaws simple_codec.
Proof.
  constructor.
  - intros h [_ Hp Hr _ _ _]. cbn [serialize_header simple_codec]. rewrite !length_app, !length_le_bytes, Hp, Hr. done.
  - intros [v prev root time bits nonce] [Hv Hp Hr Ht Hb Hn]. cbn [hdr_version hdr_prev_blockhash hdr_merkle_root hdr_time hdr_bits hdr_nonce] in *.
    cbn [deserialize_header serialize_header simple_codec hdr_version hdr_prev_blockhash hdr_merkle_root hdr_time hdr_bits hdr_nonce].
    rewrite decide_True by (rewrite !length_app, !length_le_bytes, Hp, Hr; done). unfold u32_max in *. do 2 f_equal.
    + pose proof (field_app [] (le_bytes 4 v) (prev ++ root ++ le_bytes 4 time ++ le_bytes 4 bits ++ le_bytes 4 nonce) 0 4 eq_refl (length_le_bytes 4 v)) as Hf.
      cbn [app] in Hf. rewrite Hf, le_val_bytes. change (256 ^ Z.of_nat 4) with (2 ^ 32).
      unfold signed32. destruct (Z.ltb_spec (v mod 2 ^ 32) (2 ^ 31)); dlia.
    + by rewrite (field_app (le_bytes 4 v) prev) by (done || apply length_le_bytes).
    + rewrite (app_assoc (le_bytes 4 v)), field_app by (done || (rewrite length_app, length_le_bytes, Hp; done)). done.
    + rewrite (app_assoc (le_bytes 4 v)), (app_assoc _ root), field_app by (apply length_le_bytes || (rewrite !length_app, length_le_bytes, Hp, Hr; done)).
      rewrite le_val_bytes. change (256 ^ Z.of_nat 4) with (2 ^ 32). apply Z.mod_small. lia.
    + rewrite (app_assoc (le_bytes 4 v)), (app_assoc _ root), (app_assoc _ (le_bytes 4 time)), field_app
        by (apply length_le_bytes || (rewrite !length_app, !length_le_bytes, Hp, Hr; done)).
      rewrite le_val_bytes. change (256 ^ Z.of_nat 4) with (2 ^ 32). apply Z.mod_small. lia.
    + rewrite (app_assoc (le_bytes 4 v)), (app_assoc _ root), (app_assoc _ (le_bytes 4 time)), (app_assoc _ (le_bytes 4 bits)).
      rewrite <-(app_nil_r (le_bytes 4 nonce)), field_app by (apply length_le_bytes || (rewrite !length_app, !length_le_bytes, Hp, Hr; done)).
      rewrite le_val_bytes. change (256 ^ Z.of_nat 4) with (2 ^ 32). apply Z.mod_small. lia.
  - intros bs h Hd. cbn in Hd. case_decide as Hl; [|done]. injection Hd as <-.
    pose proof (le_val_field bs 0 ltac:(lia)). pose proof (le_val_field bs 68 ltac:(lia)).
    pose proof (le_val_field bs 72 ltac:(lia)). pose proof (le_val_field bs 76 ltac:(lia)).
    constructor; cbn [hdr_version hdr_prev_blockhash hdr_merkle_root hdr_time hdr_bits hdr_nonce]; unfold u32_max, signed32;
      try (rewrite length_field; lia); try lia.
    destruct (Z.ltb_spec (le_val (field bs 0 4)) (2 ^ 31)); lia.
Qed.

Definition sane_crate : BitcoinCrate := {|
  block_hash h := if hdr_nonce h =? 2083236893 then MAINNET_GENESIS_HASH else le_bytes 32 (2 ^ 22 + hdr_nonce h mod 1000);
  compute_txid _ := MAINNET_GENESIS_HASH;
  compute_wtxid _ := MAINNET_GENESIS_HASH;
  base_size _ := 0;
  total_size _ := 0;
  outpoint_null := mkOutPoint (repeat x00 32) u32_max;
  is_null o := op_vout o =? u32_max;
  is_coinbase tx := match tx_input tx with [i] => op_vout (previous_output i) =? u32_max | _ => false end;
|}.
#[local] Existing Instance sane_crate.
#[local] Existing Instance simple_codec.
#[local] Existing Instance simple_codec_laws.
#[local] Existing Instance prefix_hashes.
#[local] Existing Instance prefix_hash_lengths.

Lemma sane_hashes : hashes_sane.
Proof.
  intros h _. cbn [block_hash sane_crate]. destruct (hdr_nonce h =? 2083236893); [by vm_compute|].
  split; [apply length_le_bytes|]. rewrite le_val_bytes, Z.mod_small by dlia. dlia.
Qed.

Definition journaled : Header := mkHeader 4 MAINNET_GENESIS_HASH (repeat x07 32) 1231007000 0x1d00ffff 1.
Definition block_at : BlockLocation := mkBlockLocation 0 8 285.
Definition undo_at : UndoLocation := mkUndoLocation 0 8 3.
Definition one_record : Header * Persisted := (journaled, PConnected block_at undo_at).
Definition one_file : bytes := file_header MAINNET_GENESIS_HASH ++ concat (map record_bytes [one_record]).

Lemma one_record_typed : record_typed one_record.
Proof. split; [constructor|split]; vm_compute; repeat split; congruence. Qed.

Lemma sane_chain : chain_ok mainnet_params 2016.
Proof.
  constructor.
  - eapply tabled_mainnet with (g := some_genesis). vm_compute. reflexivity.
  - intros E. vm_compute. reflexivity.
  - vm_compute. congruence.
Qed.

Lemma sane_genesis : genesis_ok mainnet_params.
Proof.
  split; [vm_compute; split; congruence|]. split; [vm_compute; split; congruence|].
  destruct (decode_target (hdr_bits (blk_header (genesis mainnet_params))) (pow_limit mainnet_params)) as [g|e|] eqn:Hg;
    vm_compute in Hg; [|discriminate..].
  exists g. split; [injection Hg as <-; vm_compute; reflexivity|]. injection Hg as <-. vm_compute. congruence.
Qed.

Definition start : HeaderTree := Eval vm_compute in
  match with_cap (E:=Empty_set) mainnet_params 100 with Ok t => t | _ => mkTree [] ∅ 0 0 [] [] 0 end.
Definition loaded : HeaderTree := Eval vm_compute in
  match load (mkJournal one_file 0) start mainnet_params 1231010000 (block_hash journaled) with Ok (_, t, _) => t | _ => start end.

Lemma loaded_eq : load (mkJournal one_file 0) start mainnet_params 1231010000 (block_hash journaled) =
  Ok (mkJournal one_file 1, loaded, mkLoaded 1 2 1 0 0).
Proof. vm_compute. reflexivity. Qed.


Lemma loaded_writable : writable loaded.
Proof.
  intros n e He s Hs. destruct (get_Some_range _ _ _ He) as [Hlo Hhi]. change (len (t_entries loaded)) with 2 in Hhi.
  assert (n = 0 \/ n = 1) as [->| ->] by lia; vm_compute in He; injection He as <-; vm_compute in Hs; [discriminate Hs|].
  injection Hs as <-. split; [constructor|split]; vm_compute; repeat split; congruence.
Qed.


