(* ===== verification/Network.v ===== *)
(** * Network: what the node knows of a chain that consensus does not ([peer/network.rs]) *)
From Stdlib Require Import String.
From S2P Require Import Prelude Bitcoin Flags Params Signet.

Local Open Scope string_scope.
Local Open Scope Z_scope.
Local Open Scope list_scope.

(** [default_challenge] ([block/signet/mod.rs]). *)
Definition default_challenge : bytes := DEFAULT_CHALLENGE.

Definition MAINNET_SEEDS : list string :=
  ["seed.bitcoin.sipa.be."; "dnsseed.bluematt.me."; "seed.bitcoin.jonasschnelli.ch."; "seed.btc.petertodd.net.";
   "seed.bitcoin.sprovoost.nl."; "dnsseed.emzy.de."; "seed.bitcoin.wiz.biz."; "seed.mainnet.achownodes.xyz."].
Definition SIGNET_SEEDS : list string := ["seed.signet.bitcoin.sprovoost.nl."; "seed.signet.achownodes.xyz."].
Definition MAINNET_MINIMUM_CHAIN_WORK : Z := 0x0001128750f82f4c366153a3a030.
Definition SIGNET_MINIMUM_CHAIN_WORK : Z := 0x00000b463ea0a4b8.

(** The magics of the crate: [Magic::BITCOIN] and [Magic::REGTEST]. *)
Class Magics := { MAGIC_BITCOIN : bytes; MAGIC_REGTEST : bytes }.

Record Network := mkNetwork {
  nw_chain : Chain;
  nw_magic : bytes;
  nw_default_port : Z;
  nw_seeds : list string;
  nw_minimum_chain_work : Z;
  nw_directory : string;
}.

Module Network.
Section network.
Context `{Hashes} `{Encoding} `{Magics}.

Definition mainnet : Network :=
  mkNetwork Mainnet MAGIC_BITCOIN 8333 MAINNET_SEEDS MAINNET_MINIMUM_CHAIN_WORK "mainnet".

(** [digest.get(..4)] copied over four zeros. *)
Definition signet_magic (challenge : bytes) : bytes :=
  match slice (sha256d (enc_script challenge)) 0 4 with Some head => head | None => repeat x00 4 end.
Definition signet_challenge (params : ChainParams) : bytes :=
  match block_challenge params with SignetChallenge script => script | NoChallenge => default_challenge end.

Definition signet (challenge : bytes) : Network :=
  let default := bool_decide (challenge = default_challenge) in
  mkNetwork Signet (signet_magic challenge) 38333 (if default then SIGNET_SEEDS else [])
    (if default then SIGNET_MINIMUM_CHAIN_WORK else 0) "signet".
Definition regtest : Network := mkNetwork Regtest MAGIC_REGTEST 18444 [] 0 "regtest".

Definition of_params {E} (params : ChainParams) : outcome E Network :=
  let network := match chain params with
                 | Mainnet => mainnet
                 | Signet => signet (signet_challenge params)
                 | Regtest => regtest
                 end in
  assert_ (bool_decide (nw_chain network = chain params));; Ok network.

(** [self.minimum_chain_work.to_be_bytes()] in the last sixteen of thirty-two zeros. *)
Definition minimum_chain_work (self : Network) : bytes :=
  repeat x00 16 ++ be_bytes 16 (nw_minimum_chain_work self).

(** The row of a chain is that chain's, and its bound on the work is compared as the number it is. *)
Lemma of_row {E} params : exists network, of_params (E:=E) params = Ok network /\ nw_chain network = chain params /\
  List.length (minimum_chain_work network) = 32%nat /\
  be_val (minimum_chain_work network) = nw_minimum_chain_work network.
Proof.
  unfold of_params. destruct (chain params) eqn:Hc.
  - exists mainnet. rewrite bool_decide_true by done. by repeat split.
  - exists (signet (signet_challenge params)). rewrite bool_decide_true by done. split; [done|]. split; [done|].
    unfold signet. by destruct (bool_decide _).
  - exists regtest. rewrite bool_decide_true by done. by repeat split.
Qed.
End network.
End Network.
