(* ===== verification/Window.v ===== *)
(** * Window: which blocks to ask one peer for next ([download/window.rs], [download/peers.rs]) *)
From S2P Require Import Prelude Uint Target Bitcoin Flags Params Header Verify Tx Signet Block Coins SkipList Queue Tree TreeProofs TreeInv TreeOps Message PeerQueues Slots.

Definition BLOCK_DOWNLOAD_WINDOW : Z := 1024.
Definition WALK_BATCH : Z := 128.
Definition LIMITED_PEER_DEPTH : Z := 288 - 2.
Definition HEADERS_TIMEOUT_BASE : Z := secs (15 * 60).
Definition HEADERS_TIMEOUT_PER_HEADER : Z := 1000000.

(** ** [download/peers.rs] *)

Record PeerDownload := mkPeerDownload {
  pd_connection : option Z;
  pd_best_known : option Z;
  pd_last_common : option Z;
  pd_downloading_since : option Z;
  pd_stalling_since : option Z;
  pd_getheaders_at : option Z;
  pd_sync_started : bool;
  pd_sync_deadline : option Z;
  pd_sendheaders_sent : bool;
}.

Module PeerDownload.
Definition default : PeerDownload := mkPeerDownload None None None None None None false None false.
Definition reset (connection : option Z) : PeerDownload :=
  mkPeerDownload connection None None None None None false None false.
Definition describes (self : PeerDownload) (connection : option Z) : bool :=
  bool_decide (pd_connection self = connection).
Definition with_best_known (self : PeerDownload) (v : option Z) : PeerDownload :=
  mkPeerDownload (pd_connection self) v (pd_last_common self) (pd_downloading_since self) (pd_stalling_since self)
    (pd_getheaders_at self) (pd_sync_started self) (pd_sync_deadline self) (pd_sendheaders_sent self).
Definition with_last_common (self : PeerDownload) (v : option Z) : PeerDownload :=
  mkPeerDownload (pd_connection self) (pd_best_known self) v (pd_downloading_since self) (pd_stalling_since self)
    (pd_getheaders_at self) (pd_sync_started self) (pd_sync_deadline self) (pd_sendheaders_sent self).
Definition with_downloading (self : PeerDownload) (v : option Z) : PeerDownload :=
  mkPeerDownload (pd_connection self) (pd_best_known self) (pd_last_common self) v (pd_stalling_since self)
    (pd_getheaders_at self) (pd_sync_started self) (pd_sync_deadline self) (pd_sendheaders_sent self).
Definition with_stalling (self : PeerDownload) (v : option Z) : PeerDownload :=
  mkPeerDownload (pd_connection self) (pd_best_known self) (pd_last_common self) (pd_downloading_since self) v
    (pd_getheaders_at self) (pd_sync_started self) (pd_sync_deadline self) (pd_sendheaders_sent self).
Definition with_getheaders (self : PeerDownload) (v : option Z) : PeerDownload :=
  mkPeerDownload (pd_connection self) (pd_best_known self) (pd_last_common self) (pd_downloading_since self)
    (pd_stalling_since self) v (pd_sync_started self) (pd_sync_deadline self) (pd_sendheaders_sent self).
Definition with_sync (self : PeerDownload) (started : bool) (deadline : option Z) : PeerDownload :=
  mkPeerDownload (pd_connection self) (pd_best_known self) (pd_last_common self) (pd_downloading_since self)
    (pd_stalling_since self) (pd_getheaders_at self) started deadline (pd_sendheaders_sent self).
Definition with_sendheaders (self : PeerDownload) (v : bool) : PeerDownload :=
  mkPeerDownload (pd_connection self) (pd_best_known self) (pd_last_common self) (pd_downloading_since self)
    (pd_stalling_since self) (pd_getheaders_at self) (pd_sync_started self) (pd_sync_deadline self) v.
End PeerDownload.

Definition can_serve_blocks (services : Z) : bool :=
  ServiceFlags.has services ServiceFlags.NETWORK || ServiceFlags.has services ServiceFlags.NETWORK_LIMITED.
Definition is_limited (services : Z) : bool :=
  negb (ServiceFlags.has services ServiceFlags.NETWORK) && ServiceFlags.has services ServiceFlags.NETWORK_LIMITED.
Definition can_serve_witnesses (services : Z) : bool := ServiceFlags.has services ServiceFlags.WITNESS.

(** [spacing] and the result are durations in nanoseconds; the two times are in seconds. *)
Definition headers_timeout {E} (best_header now spacing : Z) : outcome E Z :=
  assert_ (negb (spacing =? 0));;
  let behind := saturating_sub now best_header in
  let headers := behind / Z.max (spacing / secs 1) 1 in
  Ok (HEADERS_TIMEOUT_BASE + HEADERS_TIMEOUT_PER_HEADER * default u32_max (try_from u32_max headers)).

(** ** [download/window.rs] *)

Record InFlight := mkInFlight { if_peer : Z; if_requested_at : Z }.

Record Walk := mkWalk { walk_blocks : list Z; walk_staller : option Z }.

Record Window := mkWindow {
  w_tree : HeaderTree;
  w_in_flight : gmap bytes InFlight;
  w_delivered : gset bytes;
  w_minimum_chain_work : bytes;
}.

(** The variables of the walk's loop. *)
Record Progress := mkProgress { pr_blocks : list Z; pr_common : Z; pr_waiting : option Z }.

Section window.
Context {E : Type}.

Definition have (self : Window) (node : Z) : outcome E bool :=
  e ← entry (w_tree self) node;
  Ok (bool_decide (is_Some (HeaderStatus.location (e_status e))) || bool_decide (e_hash e ∈ w_delivered self)).

(** The loop of [last_common_ancestor]: [steps] is what the size of the tree leaves. *)
Fixpoint meet_loop (tree : HeaderTree) (steps : nat) (left right : Z) : outcome E Z :=
  if left =? right then Ok left
  else match steps with
  | O => Panic
  | S steps =>
      l ← entry tree left;
      left ← expect (e_parent l);
      r ← entry tree right;
      right ← expect (e_parent r);
      meet_loop tree steps left right
  end.

Definition last_common_ancestor (tree : HeaderTree) (left right : Z) : outcome E Z :=
  l ← entry tree left;
  r ← entry tree right;
  let height := Z.min (e_height l) (e_height r) in
  left ← ancestor tree left height;
  left ← expect left;
  right ← ancestor tree right height;
  right ← expect right;
  meet_loop tree (Z.to_nat (tree_len tree)) left right.

Definition common_block (tree : HeaderTree) (state : PeerDownload) (best : Z) : outcome E Z :=
  known ← match pd_last_common state with
          | Some known => Ok known
          | None =>
              tip ← entry tree (t_tip tree);
              b ← entry tree best;
              found ← ancestor tree (t_tip tree) (Z.min (e_height tip) (e_height b));
              expect found
          end;
  last_common_ancestor tree known best.

(** The loop of [batch], from the top of the range down. *)
Fixpoint batch_back (tree : HeaderTree) (fuel : nat) (node first : Z) : outcome E (list Z) :=
  match fuel with
  | O => Panic
  | S fuel =>
      e ← entry tree node;
      if e_height e <=? first then Ok [node]
      else
        parent ← expect (e_parent e);
        nodes ← batch_back tree fuel parent first;
        Ok (node :: nodes)
  end.

Definition batch (tree : HeaderTree) (best first last : Z) : outcome E (list Z) :=
  assert_ (first <=? last);;
  let span := saturating_add32 (saturating_sub last first) 1 in
  last ← Height.new last;
  found ← ancestor tree best last;
  node ← expect found;
  back ← batch_back tree (S (Z.to_nat (tree_len tree))) node first;
  assert_ (len back =? span);;
  Ok (reverse back).

(** What the [for] loop does with one header: whether the walk returns there, or the batch ends
    there because enough was collected, and the variables after it. *)
Inductive next := Goes | Enough | Returns.

Definition scan_one (window : Window) (want : Z) (limited : bool) (best_height : Z) (st : Progress) (node : Z)
    : outcome E (next * Progress) :=
  let tree := w_tree window in
  e ← entry tree node;
  if HeaderStatus.is_terminal (e_status e) then Ok (Returns, st)
  else
    held ← have window node;
    if (held : bool) then
      c ← entry tree (pr_common st);
      Ok (Goes, if e_height e =? saturating_add32 (e_height c) 1
                then mkProgress (pr_blocks st) node (pr_waiting st) else st)
    else match w_in_flight window !! e_hash e with
    | Some held =>
        Ok (Goes, mkProgress (pr_blocks st) (pr_common st)
                    (match pr_waiting st with Some w => Some w | None => Some (if_peer held) end))
    | None =>
        if limited && (saturating_add32 (e_height e) LIMITED_PEER_DEPTH <? best_height) then Ok (Goes, st)
        else
          let st := mkProgress (pr_blocks st ++ [node]) (pr_common st) (pr_waiting st) in
          Ok (if want <=? len (pr_blocks st) then Enough else Goes, st)
    end.

Fixpoint scan_batch (window : Window) (want : Z) (limited : bool) (best_height : Z) (st : Progress) (nodes : list Z)
    : outcome E (bool * Progress) :=
  match nodes with
  | [] => Ok (false, st)
  | node :: nodes =>
      '(n, st) ← scan_one window want limited best_height st node;
      match n with
      | Returns => Ok (true, st)
      | Enough => Ok (false, st)
      | Goes => scan_batch window want limited best_height st nodes
      end
  end.

(** The [while] loop; a turn moves [height] up, so that the heights left are fuel enough. *)
Fixpoint walk_window (window : Window) (want : Z) (limited : bool) (best best_height last : Z)
    (fuel : nat) (height : Z) (st : Progress) : outcome E (bool * Progress) :=
  if (len (pr_blocks st) <? want) && (height <=? last) then
    match fuel with
    | O => Panic
    | S fuel =>
        let span := default u32_max (try_from u32_max (Z.max WALK_BATCH want)) in
        let batch_end := Z.min last (saturating_sub (saturating_add32 height span) 1) in
        nodes ← batch (w_tree window) best height batch_end;
        '(returned, st) ← scan_batch window want limited best_height st nodes;
        if (returned : bool) then Ok (true, st)
        else walk_window window want limited best best_height last fuel (saturating_add32 batch_end 1) st
    end
  else Ok (false, st).

Definition next_blocks (window : Window) (state : PeerDownload) (peer want : Z) (limited : bool)
    : outcome E (PeerDownload * Walk) :=
  assert_ ((0 <? want) && (want <=? MAX_BLOCKS_IN_FLIGHT));;
  let tree := w_tree window in
  match pd_best_known state with
  | None => Ok (state, mkWalk [] None)
  | Some best =>
      b ← entry tree best;
      tip ← entry tree (t_tip tree);
      if work_val (e_chainwork b) <? work_val (e_chainwork tip) then Ok (state, mkWalk [] None)
      else if work_val (e_chainwork b) <? be_val (w_minimum_chain_work window) then Ok (state, mkWalk [] None)
      else
        common ← common_block tree state best;
        if common =? best then Ok (PeerDownload.with_last_common state (Some common), mkWalk [] None)
        else
          let best_height := e_height b in
          c ← entry tree common;
          let window_end := saturating_add32 (e_height c) BLOCK_DOWNLOAD_WINDOW in
          let last := Z.min best_height window_end in
          let height := saturating_add32 (e_height c) 1 in
          '(returned, st) ← walk_window window want limited best best_height last
            (Z.to_nat (last - e_height c)) height (mkProgress [] common None);
          let state := PeerDownload.with_last_common state (Some (pr_common st)) in
          if (returned : bool) then Ok (state, mkWalk (pr_blocks st) None)
          else
            let staller :=
              if (len (pr_blocks st) =? 0) && match pr_waiting st with Some held => negb (held =? peer) | None => false end
              then pr_waiting st else None in
            Ok (state, mkWalk (pr_blocks st) staller)
  end.
End window.

(** ** The batched walk of the download window is the plain one

    The reference walks the peer's chain from the last common block upwards, stops at the first
    refused block, and keeps the first [want] blocks that this node neither has nor is waiting
    for.  [next_blocks] computes exactly that, a batch of skip-list walks at a time. *)

(** ** The reference *)

(** The ancestor of a node at a height. *)
Definition ancestor_at (t : HeaderTree) (n h : Z) : option Z :=
  match ancestor (E:=Empty_set) t n h with Ok found => found | _ => None end.
(** The ancestors of [n] at the [k] heights from [first] on, lowest first. *)
Definition lineage (t : HeaderTree) (n first k : Z) : list Z := omap (ancestor_at t n) (seqZ first k).

(** The leading elements that satisfy [f]. *)
Fixpoint take_while {A} (f : A -> bool) (l : list A) : list A :=
  match l with [] => [] | x :: l => if f x then x :: take_while f l else [] end.

Definition entry_at (t : HeaderTree) (n : Z) (f : HeaderEntry -> bool) : bool :=
  match get (t_entries t) n with Some e => f e | None => false end.
Definition not_refused (t : HeaderTree) (n : Z) : bool :=
  entry_at t n (fun e => negb (HeaderStatus.is_terminal (e_status e))).
(** A block worth asking for: not here, not on its way, and not too deep for a limited peer. *)
Definition wanted (w : Window) (limited : bool) (best_height n : Z) : bool :=
  entry_at (w_tree w) n (fun e =>
    negb (bool_decide (is_Some (HeaderStatus.location (e_status e)))) &&
    negb (bool_decide (e_hash e ∈ w_delivered w)) &&
    negb (bool_decide (is_Some (w_in_flight w !! e_hash e))) &&
    negb (limited && (e_height e + LIMITED_PEER_DEPTH <? best_height))).

Definition wanted_blocks (w : Window) (limited : bool) (best_height want : Z) (path : list Z) : list Z :=
  take (Z.to_nat want) (List.filter (wanted w limited best_height) (take_while (not_refused (w_tree w)) path)).

Lemma take_while_app {A} (f : A -> bool) l k : forallb f l = true -> take_while f (l ++ k) = l ++ take_while f k.
Proof.
  induction l as [|x l IH]; [done|]. cbn [forallb app take_while]. intros [-> H]%andb_prop. by rewrite IH.
Qed.

Lemma take_while_stop {A} (f : A -> bool) l k : forallb f l = false -> take_while f (l ++ k) = take_while f l.
Proof.
  induction l as [|x l IH]; [done|]. cbn [forallb app take_while]. destruct (f x); [|done]. cbn. intros H. by rewrite IH.
Qed.

Lemma take_while_all {A} (f : A -> bool) l : forallb f l = true -> take_while f l = l.
Proof. intros H. pose proof (take_while_app f l [] H) as Ha. by rewrite !app_nil_r in Ha. Qed.

Section proofs.
Context `{BitcoinCrate} {E : Type} (w : Window) (Hes : tree_shape (t_entries (w_tree w))).
Let t : HeaderTree := w_tree w.
Let es : list HeaderEntry := t_entries t.

Lemma ancestor_at_ok n e h : get es n = Some e -> 0 <= h <= e_height e ->
  exists a ae, ancestor_at t n h = Some a /\ ancestor (E:=E) t n h = Ok (Some a) /\ descends es n a /\
    get es a = Some ae /\ e_height ae = h.
Proof.
  intros Hn Hh. destruct (ancestor_ok (E:=Empty_set) t Hes n e h Hn Hh) as (a & ae & Ha & Hd & Hae & Hah).
  destruct (ancestor_ok (E:=E) t Hes n e h Hn Hh) as (b & be & Hb & Hdb & Hbe & Hbh).
  exists a, ae. unfold ancestor_at. rewrite Ha, Hb. split; [done|]. split; [|done]. do 2 f_equal.
  eapply (descends_unique es Hes n b a); eauto. congruence.
Qed.

Lemma lineage_snoc n first k a : 0 <= k -> ancestor_at t n (first + k) = Some a ->
  lineage t n first (k + 1) = lineage t n first k ++ [a].
Proof.
  intros Hk Ha. unfold lineage. replace (k + 1) with (Z.succ k) by lia.
  rewrite <-(Z2Nat.id k) at 1 by lia. replace (Z.succ (Z.of_nat (Z.to_nat k))) with (Z.of_nat (S (Z.to_nat k))) by lia.
  rewrite seqZ_S, omap_app, Z2Nat.id by lia. cbn [omap list_omap]. by rewrite Ha.
Qed.

Lemma lineage_app n first k1 k2 : 0 <= k1 -> 0 <= k2 ->
  lineage t n first (k1 + k2) = lineage t n first k1 ++ lineage t n (first + k1) k2.
Proof. intros H1 H2. unfold lineage. by rewrite seqZ_app, omap_app. Qed.

Lemma lineage_elem n e first k x : get es n = Some e -> 0 <= first -> first + k <= e_height e + 1 ->
  x ∈ lineage t n first k <-> exists xe, descends es n x /\ get es x = Some xe /\ first <= e_height xe < first + k.
Proof.
  intros Hn Hf Hk. unfold lineage. rewrite list_elem_of_omap. split.
  - intros (h & Hh%elem_of_seqZ & Hx). destruct (ancestor_at_ok n e h Hn) as (a & ae & Ha & _ & Hd & Hae & Hah); [lia|].
    rewrite Ha in Hx. injection Hx as <-. exists ae. split; [done|]. split; [done|lia].
  - intros (xe & Hd & Hx & Hxh). exists (e_height xe). split; [apply elem_of_seqZ; lia|].
    destruct (ancestor_at_ok n e (e_height xe) Hn) as (a & ae & Ha & _ & Hda & Hae & Hah); [lia|].
    rewrite Ha. f_equal. by eapply (descends_unique es Hes n a x).
Qed.

(** ** A batch is a stretch of the lineage *)

Lemma batch_back_ok fuel best b k first node ne : get es best = Some b -> 0 <= first ->
  descends es best node -> get es node = Some ne -> e_height ne = first + Z.of_nat k -> (k < fuel)%nat ->
  batch_back (E:=E) t fuel node first = Ok (reverse (lineage t best first (Z.of_nat k + 1))).
Proof.
  revert fuel node ne; induction k as [|k IH]; intros fuel node ne Hb Hf Hd Hn Hh Hfuel;
    (destruct fuel as [|fuel]; [lia|]); cbn [batch_back]; rewrite (entry_Ok t node ne Hn); run;
    pose proof (descends_height es Hes best node b ne Hd Hb Hn) as (_ & Hle & _).
  - rewrite (proj2 (Z.leb_le (e_height ne) first)) by lia.
    destruct (ancestor_at_ok best b first Hb) as (a & ae & Ha & _ & Hda & Hae & Hah); [lia|].
    assert (a = node) as -> by (eapply (descends_unique es Hes best a node); eauto; lia).
    change (Z.of_nat 0 + 1) with (0 + 1). rewrite (lineage_snoc best first 0 node) by (rewrite ?Z.add_0_r; done || lia). done.
  - rewrite (proj2 (Z.leb_gt (e_height ne) first)) by lia.
    destruct (entry_cases es Hes node ne Hn) as [(_ & _ & H0 & _)|(_ & p & pe & Hl)]; [lia|].
    rewrite (linked_parent _ _ _ _ _ Hl). run. pose proof (linked_height _ _ _ _ _ Hl).
    assert (Hdp : descends es best p).
    { eapply descends_trans; [exact Hd|]. eapply descends_step; [exact Hn|by destruct Hl|constructor]. }
    rewrite (IH fuel p pe) by (try done; try (by destruct Hl); lia). run.
    rewrite (lineage_snoc best first (Z.of_nat (S k)) node).
    + replace (Z.of_nat k + 1) with (Z.of_nat (S k)) by lia. by rewrite reverse_snoc.
    + lia.
    + destruct (ancestor_at_ok best b (first + Z.of_nat (S k)) Hb) as (a & ae & Ha & _ & Hda & Hae & Hah); [lia|].
      rewrite Ha. f_equal. eapply (descends_unique es Hes best a node); eauto; lia.
Qed.

Lemma length_lineage n e first k : get es n = Some e -> 0 <= first -> 0 <= k -> first + k <= e_height e + 1 ->
  len (lineage t n first k) = k.
Proof.
  intros Hn Hf Hk. rewrite <-(Z2Nat.id k) by lia. generalize (Z.to_nat k). clear Hk. intros m; induction m as [|m IH]; [done|].
  intros Hle. destruct (ancestor_at_ok n e (first + Z.of_nat m) Hn) as (a & ae & Ha & _); [lia|].
  replace (Z.of_nat (S m)) with (Z.of_nat m + 1) by lia. rewrite (lineage_snoc n first (Z.of_nat m) a), len_app, IH by (done || lia).
  done.
Qed.

Lemma batch_ok best b first last : get es best = Some b -> 0 <= first <= last -> last <= e_height b ->
  batch (E:=E) t best first last = Ok (lineage t best first (last - first + 1)).
Proof.
  intros Hb Hf Hl. pose proof (height_bound es Hes best b Hb) as Hbb. unfold batch.
  rewrite (proj2 (Z.leb_le first last)) by lia. run. rewrite new_height_ok by lia. run.
  destruct (ancestor_at_ok best b last Hb) as (a & ae & _ & Ha & Hd & Hae & Hah); [lia|]. rewrite Ha. run.
  pose proof (height_range es Hes a ae Hae). pose proof (get_Some_range _ _ _ Hae).
  rewrite (batch_back_ok _ best b (Z.to_nat (last - first)) first a ae) by (try done; change (tree_len t) with (len es); lia).
  run. replace (Z.of_nat (Z.to_nat (last - first)) + 1) with (last - first + 1) by lia.
  assert (Hlen : len (reverse (lineage t best first (last - first + 1))) = last - first + 1).
  { unfold len. rewrite length_reverse. by apply (length_lineage best b); try done; lia. }
  rewrite Hlen. unfold saturating_sub, saturating_add32, u32_max.
  rewrite (proj2 (Z.eqb_eq (last - first + 1) _)) by lia. run. by rewrite reverse_involutive.
Qed.

(** ** The scan of a batch *)

Section scan.
Context (want : Z) (limited : bool) (best_height : Z).

(** Whom the walk waits for is a peer with a block in flight. *)
Definition waits_for (o : option Z) : Prop :=
  forall s, o = Some s -> exists h f, w_in_flight w !! h = Some f /\ if_peer f = s.

Lemma take_enough {A} (l k : list A) n : len l = n -> take (Z.to_nat n) (l ++ k) = l.
Proof. intros <-. unfold len. by rewrite Nat2Z.id, take_app_length. Qed.

Lemma take_short {A} (l : list A) n : len l <= n -> take (Z.to_nat n) l = l.
Proof. intros. apply take_ge. unfold len in *. lia. Qed.

(** One header of the walk. *)
Lemma scan_one_ok st x e : get es x = Some e -> is_Some (get es (pr_common st)) -> len (pr_blocks st) < want ->
  exists n st', scan_one (E:=E) w want limited best_height st x = Ok (n, st') /\
    n = (if not_refused t x then if wanted w limited best_height x && (want <=? len (pr_blocks st) + 1) then Enough else Goes else Returns) /\
    pr_blocks st' = (if not_refused t x && wanted w limited best_height x then pr_blocks st ++ [x] else pr_blocks st) /\
    (pr_common st' = pr_common st \/ pr_common st' = x) /\
    (waits_for (pr_waiting st) -> waits_for (pr_waiting st')).
Proof.
  intros Hx [c Hc] Hl. pose proof (height_bound es Hes x e Hx) as Hb. pose proof (height_bound es Hes _ c Hc) as Hcb.
  unfold scan_one, have. fold t. rewrite (entry_Ok t x e Hx). run.
  assert (Hnr : not_refused t x = negb (HeaderStatus.is_terminal (e_status e))).
  { unfold not_refused, entry_at. change (t_entries t) with es. by rewrite Hx. }
  rewrite Hnr. destruct (HeaderStatus.is_terminal (e_status e)); cbn [negb andb].
  { eexists _, _. split; [done|]. split; [done|]. split; [done|]. split; [by left|done]. }
  rewrite (entry_Ok t _ c Hc). unfold wanted, entry_at. fold t. change (t_entries t) with es. rewrite Hx.
  destruct (bool_decide (is_Some (HeaderStatus.location (e_status e)))), (bool_decide (e_hash e ∈ w_delivered w)); cbn [orb negb andb]; run.
  1-3: eexists _, _; split; [done|]; split; [done|]; destruct (_ =? _); (split; [done|]); split; [by right|done|by left|done].
  destruct (w_in_flight w !! e_hash e) as [f|] eqn:Hf.
  - rewrite bool_decide_true by done. cbn [negb andb].
    eexists _, _. split; [done|]. split; [done|]. split; [done|]. split; [by left|].
    intros Hw s'. cbn. destruct (pr_waiting st); [apply Hw|]. intros [= <-]. eauto.
  - rewrite bool_decide_false by (by intros []). cbn [negb andb].
    assert (Hsat : saturating_add32 (e_height e) LIMITED_PEER_DEPTH = e_height e + LIMITED_PEER_DEPTH)
      by (unfold saturating_add32, LIMITED_PEER_DEPTH, u32_max; lia).
    rewrite Hsat. destruct (limited && _); cbn [negb andb].
    + eexists _, _. split; [done|]. split; [done|]. split; [done|]. split; [by left|done].
    + eexists _, _. split; [done|]. cbn [pr_blocks]. rewrite len_app. change (len [x]) with 1.
      split; [done|]. split; [done|]. split; [by left|done].
Qed.

Lemma scan_batch_ok st nodes : Forall (fun x => is_Some (get es x)) nodes -> is_Some (get es (pr_common st)) ->
  len (pr_blocks st) < want -> waits_for (pr_waiting st) ->
  exists returned st', scan_batch (E:=E) w want limited best_height st nodes = Ok (returned, st') /\
    pr_blocks st' = take (Z.to_nat want) (pr_blocks st ++ List.filter (wanted w limited best_height) (take_while (not_refused t) nodes)) /\
    (returned = true -> forallb (not_refused t) nodes = false) /\
    (returned = false -> len (pr_blocks st') < want -> forallb (not_refused t) nodes = true) /\
    (pr_common st' = pr_common st \/ pr_common st' ∈ nodes) /\ waits_for (pr_waiting st').
Proof.
  intros HF. revert st. induction HF as [|x nodes [e Hx] HF IH]; intros st Hc Hl Hw.
  { exists false, st. cbn. rewrite app_nil_r. split; [done|]. split; [symmetry; apply take_short; lia|]. auto. }
  cbn [scan_batch]. destruct (scan_one_ok st x e Hx Hc Hl) as (n & st1 & -> & -> & Hb1 & Hc1 & Hw1). run.
  cbn [forallb take_while]. destruct (not_refused t x); cbn [andb] in *.
  2:{ exists true, st1. split; [done|]. split; [|split; [done|split; [done|split; [|by apply Hw1]]]].
      - rewrite Hb1. cbn. rewrite app_nil_r. symmetry. apply take_short. lia.
      - destruct Hc1 as [Hc1|Hc1]; [by left|right; rewrite Hc1; apply list_elem_of_here]. }
  cbn [List.filter]. destruct (wanted w limited best_height x) eqn:Hwx; cbn [andb] in *.
  - destruct (Z.leb_spec want (len (pr_blocks st) + 1)) as [Hge|Hlt].
    + exists false, st1. split; [done|]. rewrite Hb1. split; [|split; [done|split; [|split; [|by apply Hw1]]]].
      * rewrite <-(take_enough (pr_blocks st ++ [x]) (List.filter (wanted w limited best_height) (take_while (not_refused t) nodes)) want)
          at 1 by (rewrite len_app; change (len [x]) with 1; lia). by rewrite <-app_assoc.
      * rewrite len_app. change (len [x]) with 1. lia.
      * destruct Hc1 as [Hc1|Hc1]; [by left|right; rewrite Hc1; apply list_elem_of_here].
    + destruct (IH st1) as (r & st' & -> & Hb' & Hr1 & Hr2 & Hc' & Hw').
      { destruct Hc1 as [-> | ->]; [done|by eexists]. } { rewrite Hb1, len_app. change (len [x]) with 1. lia. } { by apply Hw1. }
      exists r, st'. split; [done|]. split; [by rewrite Hb', Hb1, <-app_assoc|]. split; [done|]. split; [done|]. split; [|done].
      destruct Hc' as [Hc'|Hc']; [|right; by apply list_elem_of_further].
      destruct Hc1 as [Hc1|Hc1]; [left; congruence|right; rewrite Hc', Hc1; apply list_elem_of_here].
  - destruct (IH st1) as (r & st' & -> & Hb' & Hr1 & Hr2 & Hc' & Hw').
    { destruct Hc1 as [-> | ->]; [done|by eexists]. } { by rewrite Hb1. } { by apply Hw1. }
    exists r, st'. split; [done|]. split; [by rewrite Hb', Hb1|]. split; [done|]. split; [done|]. split; [|done].
    destruct Hc' as [Hc'|Hc']; [|right; by apply list_elem_of_further].
    destruct Hc1 as [Hc1|Hc1]; [left; congruence|right; rewrite Hc', Hc1; apply list_elem_of_here].
Qed.

(** The whole walk, batch by batch. *)
Lemma walk_window_ok best b last fuel height st : get es best = Some b -> 0 < want <= MAX_BLOCKS_IN_FLIGHT ->
  0 <= height -> height <= last + 1 -> last <= e_height b -> last - height < Z.of_nat fuel ->
  is_Some (get es (pr_common st)) -> descends es best (pr_common st) -> len (pr_blocks st) <= want -> waits_for (pr_waiting st) ->
  exists returned st', walk_window (E:=E) w want limited best best_height last fuel height st = Ok (returned, st') /\
    pr_blocks st' = take (Z.to_nat want) (pr_blocks st ++
      List.filter (wanted w limited best_height) (take_while (not_refused t) (lineage t best height (last - height + 1)))) /\
    is_Some (get es (pr_common st')) /\ descends es best (pr_common st') /\ waits_for (pr_waiting st').
Proof.
  intros Hb Hwant. revert height st; induction fuel as [|fuel IH]; intros height st Hh0 Hh Hl Hf Hc Hd Hlen Hw; cbn [walk_window].
  all: destruct (Z.ltb_spec (len (pr_blocks st)) want) as [Hlt|Hge]; cbn [andb];
    [|exists false, st; split; [done|]; split; [symmetry; apply take_enough; lia|done]].
  all: destruct (Z.leb_spec height last) as [Hle|Hgt];
    [|exists false, st; replace (last - height + 1) with 0 by lia; split; [done|]; split; [|done];
      cbn; rewrite app_nil_r; symmetry; apply take_short; lia].
  { lia. }
  pose proof (height_bound es Hes best b Hb) as Hbb. unfold MAX_BLOCKS_IN_FLIGHT in *.
  assert (Hspan : default u32_max (try_from u32_max (Z.max WALK_BATCH want)) = 128).
  { rewrite try_from_ok by (unfold WALK_BATCH, u32_max; lia). unfold WALK_BATCH. cbn. lia. }
  rewrite Hspan. assert (Hend : saturating_sub (saturating_add32 height 128) 1 = height + 127)
    by (unfold saturating_sub, saturating_add32, u32_max; lia).
  rewrite Hend. set (batch_end := Z.min last (height + 127)). fold t.
  rewrite (batch_ok best b) by (done || unfold batch_end; lia). run.
  assert (HF : Forall (fun x => is_Some (get es x)) (lineage t best height (batch_end - height + 1))).
  { apply Forall_forall. intros x Hx. apply (lineage_elem best b) in Hx as (xe & _ & Hx & _); [by eexists|done|done|unfold batch_end; lia]. }
  destruct (scan_batch_ok st _ HF Hc Hlt Hw) as (r & st1 & -> & Hb1 & Hr1 & Hr2 & Hc1 & Hw1). run.
  assert (Hd1 : is_Some (get es (pr_common st1)) /\ descends es best (pr_common st1)).
  { destruct Hc1 as [-> |Hin]; [done|]. apply (lineage_elem best b) in Hin as (xe & ? & Hx & _); [by split; [eexists|]|done|done|unfold batch_end; lia]. }
  assert (Hsplit : lineage t best height (last - height + 1) =
    lineage t best height (batch_end - height + 1) ++ lineage t best (batch_end + 1) (last - batch_end)).
  { replace (last - height + 1) with ((batch_end - height + 1) + (last - batch_end)) by lia.
    rewrite lineage_app by (unfold batch_end; lia). do 2 f_equal. lia. }
  destruct Hd1 as [Hd1 Hd2]. destruct r.
  { exists true, st1. split; [done|]. split; [|done]. rewrite Hsplit, take_while_stop by (by apply Hr1). done. }
  assert (Hsat : saturating_add32 batch_end 1 = batch_end + 1) by (unfold batch_end, saturating_add32, u32_max; lia).
  rewrite Hsat.
  assert (Hlen1 : len (pr_blocks st1) <= want) by (rewrite Hb1; unfold len; rewrite length_take; lia).
  destruct (IH (batch_end + 1) st1) as (r & st' & -> & Hb' & Hrest); try done; try (unfold batch_end; lia).
  exists r, st'. split; [done|]. split; [|done]. rewrite Hb', Hsplit.
  destruct (Z.lt_ge_cases (len (pr_blocks st1)) want) as [Hlt1|Hge1].
  - specialize (Hr2 eq_refl Hlt1). rewrite take_while_app by done. rewrite List.filter_app, app_assoc.
    replace (last - (batch_end + 1) + 1) with (last - batch_end) by lia. do 2 f_equal.
    rewrite Hb1, take_while_all by done. apply take_ge.
    rewrite Hb1, take_while_all in Hlt1 by done. unfold len in Hlt1. rewrite length_take in Hlt1. lia.
  - rewrite take_enough by lia. rewrite Hb1.
    destruct (forallb (not_refused t) (lineage t best height (batch_end - height + 1))) eqn:Hall.
    + rewrite take_while_app by done. rewrite take_while_all, List.filter_app, app_assoc by done. symmetry.
      apply take_app_le. rewrite Hb1 in Hge1. rewrite take_while_all in Hge1 by done. unfold len in Hge1. rewrite length_take in Hge1. lia.
    + by rewrite take_while_stop.
Qed.
End scan.

(** ** The last common block *)

(** The deepest block two nodes share. *)
Definition meets (a b m : Z) : Prop :=
  descends es a m /\ descends es b m /\ forall x, descends es a x -> descends es b x -> descends es m x.

Lemma meet_loop_ok steps left right le re : get es left = Some le -> get es right = Some re ->
  e_height le = e_height re -> e_height le <= Z.of_nat steps ->
  exists m me, meet_loop (E:=E) t steps left right = Ok m /\ get es m = Some me /\ meets left right m.
Proof.
  revert left right le re; induction steps as [|steps IH]; intros left right le re Hle Hre Hh Hs; cbn [meet_loop];
    (destruct (Z.eqb_spec left right) as [->|Hne];
      [exists right, re; split; [done|]; split; [done|]; split; [constructor|split; [constructor|done]]|]).
  - exfalso. apply Hne. pose proof (height_range es Hes left le Hle).
    destruct (entry_cases es Hes left le Hle) as [(-> & _)|(_ & p & pe & Hl)];
      [|pose proof (linked_height _ _ _ _ _ Hl); pose proof (height_range es Hes p pe (linked_get _ _ _ _ _ Hl)); lia].
    destruct (entry_cases es Hes right re Hre) as [(-> & _)|(_ & p & pe & Hl)]; [done|].
    pose proof (linked_height _ _ _ _ _ Hl); pose proof (height_range es Hes p pe (linked_get _ _ _ _ _ Hl)); lia.
  - rewrite (entry_Ok t left le Hle), (entry_Ok t right re Hre). run.
    destruct (entry_cases es Hes left le Hle) as [(-> & _ & Hl0 & _)|(_ & p & pe & Hl)].
    { exfalso. apply Hne. destruct (entry_cases es Hes right re Hre) as [(-> & _)|(_ & p & pe & Hl)]; [done|].
      pose proof (linked_height _ _ _ _ _ Hl); pose proof (height_range es Hes p pe (linked_get _ _ _ _ _ Hl)); lia. }
    destruct (entry_cases es Hes right re Hre) as [(-> & _ & Hr0 & _)|(_ & q & qe & Hr)].
    { exfalso. pose proof (linked_height _ _ _ _ _ Hl); pose proof (height_range es Hes p pe (linked_get _ _ _ _ _ Hl)); lia. }
    rewrite (linked_parent _ _ _ _ _ Hl), (linked_parent _ _ _ _ _ Hr). run.
    pose proof (linked_height _ _ _ _ _ Hl) as Hhl. pose proof (linked_height _ _ _ _ _ Hr) as Hhr.
    destruct (IH p q pe qe (linked_get _ _ _ _ _ Hl) (linked_get _ _ _ _ _ Hr)) as (m & me & Hm & Hme & Hd1 & Hd2 & Hmax); [lia|lia|].
    exists m, me. split; [done|]. split; [done|].
    split; [eapply descends_step; [exact Hle|by destruct Hl|done]|]. split; [eapply descends_step; [exact Hre|by destruct Hr|done]|].
    intros x Hx1 Hx2. assert (Hxl : x <> left).
    { intros ->. destruct (descends_height es Hes right left re le Hx2 Hre Hle) as (_ & _ & Hlt). specialize (Hlt Hne). lia. }
    assert (Hxr : x <> right).
    { intros ->. destruct (descends_height es Hes left right le re Hx1 Hle Hre) as (_ & _ & Hlt). specialize (Hlt (not_eq_sym Hne)). lia. }
    apply Hmax; [eapply (descends_parent es left le p); try done; by destruct Hl|eapply (descends_parent es right re q); try done; by destruct Hr].
Qed.

Lemma last_common_ok left right le re : get es left = Some le -> get es right = Some re ->
  exists m me, last_common_ancestor (E:=E) t left right = Ok m /\ get es m = Some me /\ meets left right m.
Proof.
  intros Hl Hr. unfold last_common_ancestor. rewrite (entry_Ok t left le Hl), (entry_Ok t right re Hr). run.
  pose proof (height_range es Hes left le Hl). pose proof (height_range es Hes right re Hr).
  destruct (ancestor_at_ok left le (Z.min (e_height le) (e_height re)) Hl) as (a & ae & _ & Ha & Hda & Hae & Hah); [lia|].
  destruct (ancestor_at_ok right re (Z.min (e_height le) (e_height re)) Hr) as (b & be & _ & Hb & Hdb & Hbe & Hbh); [lia|].
  rewrite Ha, Hb. run. pose proof (get_Some_range _ _ _ Hae). pose proof (height_range es Hes a ae Hae).
  destruct (meet_loop_ok (Z.to_nat (tree_len t)) a b ae be Hae Hbe) as (m & me & Hm & Hme & Hd1 & Hd2 & Hmax);
    [congruence|change (tree_len t) with (len es); lia|].
  exists m, me. split; [done|]. split; [done|]. split; [by eapply descends_trans|]. split; [by eapply descends_trans|].
  intros x Hx1 Hx2.
  destruct (descends_valid es Hes left x Hx1 ltac:(by eexists)) as [xe Hxe].
  pose proof (descends_height es Hes left x le xe Hx1 Hl Hxe) as (_ & ? & _).
  pose proof (descends_height es Hes right x re xe Hx2 Hr Hxe) as (_ & ? & _).
  apply Hmax; [apply (descends_linear es Hes left a x ae xe)|apply (descends_linear es Hes right b x be xe)]; try done; try (by eexists); lia.
Qed.

(** ** The window *)

(** The left edge the walk starts from: the last common block it remembers, or the active chain
    at the peer's height. *)
Definition left_edge (state : PeerDownload) (best known : Z) : Prop :=
  match pd_last_common state with
  | Some k => known = k
  | None => exists tip be, get es (t_tip t) = Some tip /\ get es best = Some be /\
      ancestor_at t (t_tip t) (Z.min (e_height tip) (e_height be)) = Some known
  end.

Lemma common_block_ok state best be : get es best = Some be -> is_Some (get es (t_tip t)) ->
  (forall k, pd_last_common state = Some k -> is_Some (get es k)) ->
  exists known m me, left_edge state best known /\ common_block (E:=E) t state best = Ok m /\
    get es m = Some me /\ meets known best m.
Proof.
  intros Hb [tip Ht] Hk. unfold common_block, left_edge. destruct (pd_last_common state) as [k|].
  - run. destruct (Hk k eq_refl) as [ke Hke]. destruct (last_common_ok k best ke be Hke Hb) as (m & me & Hm & Hme & Hmeet).
    by exists k, m, me.
  - rewrite (entry_Ok t _ tip Ht), (entry_Ok t best be Hb). run.
    pose proof (height_range es Hes _ tip Ht). pose proof (height_range es Hes best be Hb).
    destruct (ancestor_at_ok (t_tip t) tip (Z.min (e_height tip) (e_height be)) Ht) as (a & ae & Ha' & Ha & Hd & Hae & Hah); [lia|].
    rewrite Ha. run. destruct (last_common_ok a best ae be Hae Hb) as (m & me & Hm & Hme & Hmeet).
    exists a, m, me. split; [|done]. by exists tip, be.
Qed.

(** What a walk reads of a peer is in the tree. *)
Record known_nodes (state : PeerDownload) : Prop := mkKnown {
  kn_tip : is_Some (get es (t_tip t));
  kn_best n : pd_best_known state = Some n -> is_Some (get es n);
  kn_common n : pd_last_common state = Some n -> is_Some (get es n);
}.

(** What the walk finds for a peer whose best block is [best]. *)
Definition walk_found (state : PeerDownload) (want : Z) (limited : bool) (best : Z) (blocks : list Z) : Prop :=
  exists b tip, get es best = Some b /\ get es (t_tip t) = Some tip /\
    if (work_of b <? work_of tip) || (work_of b <? be_val (w_minimum_chain_work w)) then blocks = []
    else exists known m me, left_edge state best known /\ meets known best m /\ get es m = Some me /\
      blocks = wanted_blocks w limited (e_height b) want
        (lineage t best (e_height me + 1) (Z.min (e_height b - e_height me) BLOCK_DOWNLOAD_WINDOW)).

Lemma next_blocks_ok state peer want limited : 0 < want <= MAX_BLOCKS_IN_FLIGHT -> known_nodes state ->
  exists state' walk, next_blocks (E:=E) w state peer want limited = Ok (state', walk) /\
    known_nodes state' /\ pd_connection state' = pd_connection state /\ pd_best_known state' = pd_best_known state /\
    match pd_best_known state with
    | None => walk_blocks walk = []
    | Some best => walk_found state want limited best (walk_blocks walk)
    end /\
    (forall s, walk_staller walk = Some s -> walk_blocks walk = [] /\ s <> peer /\
       exists h f, w_in_flight w !! h = Some f /\ if_peer f = s).
Proof.
  intros Hw [[tip Ht] Hbest Hcom]. unfold next_blocks. fold t.
  rewrite (proj2 (Z.ltb_lt 0 want)), (proj2 (Z.leb_le want MAX_BLOCKS_IN_FLIGHT)) by lia. run.
  assert (Hks : known_nodes state) by (by split; [eexists|..]).
  destruct (pd_best_known state) as [best|] eqn:Hbk; [|by exists state, (mkWalk [] None)].
  destruct (Hbest best eq_refl) as [b Hb]. rewrite (entry_Ok t best b Hb), (entry_Ok t _ tip Ht). run.
  destruct (work_of b <? work_of tip) eqn:Hw1; [exists state, (mkWalk [] None); split; [done|]; split; [done|]; split; [done|]; split; [done|]; split; [exists b, tip; split; [done|]; split; [done|]; by rewrite Hw1|done]|].
  destruct (work_of b <? be_val (w_minimum_chain_work w)) eqn:Hw2; [exists state, (mkWalk [] None); split; [done|]; split; [done|]; split; [done|]; split; [done|]; split; [exists b, tip; split; [done|]; split; [done|]; by rewrite Hw1, Hw2|done]|].
  destruct (common_block_ok state best b Hb ltac:(by eexists) Hcom) as (known & m & me & Hedge & -> & Hme & Hmeet). run.
  assert (Hd : descends es best m) by apply Hmeet.
  pose proof (descends_height es Hes best m b me Hd Hb Hme) as (_ & Hle & _).
  pose proof (height_bound es Hes best b Hb) as Hbb. pose proof (height_bound es Hes m me Hme) as Hmb.
  assert (Hkc : forall c, is_Some (get es c) -> known_nodes (PeerDownload.with_last_common state (Some c))).
  { intros c Hc. split; cbn; [by eexists|intros n; rewrite Hbk; apply Hbest|by intros n [= <-]]. }
  assert (Hend : saturating_add32 (e_height me) BLOCK_DOWNLOAD_WINDOW = e_height me + 1024)
    by (unfold saturating_add32, BLOCK_DOWNLOAD_WINDOW, u32_max; lia).
  assert (Hone : saturating_add32 (e_height me) 1 = e_height me + 1) by (unfold saturating_add32, u32_max; lia).
  destruct (Z.eqb_spec m best) as [->|Hne].
  { exists (PeerDownload.with_last_common state (Some best)), (mkWalk [] None). split; [done|]. split; [by apply Hkc; eexists|].
    split; [done|]. split; [by cbn|]. split; [|done]. exists b, tip. rewrite Hw1, Hw2. split; [done|]. split; [done|].
    exists known, best, me. rewrite Hb in Hme. injection Hme as <-. rewrite Z.sub_diag.
    split; [done|]. split; [done|]. split; [done|]. unfold wanted_blocks, lineage.
    change (Z.min 0 BLOCK_DOWNLOAD_WINDOW) with 0. change (seqZ (e_height b + 1) 0) with (@nil Z). cbn. by rewrite take_nil. }
  rewrite (entry_Ok t m me Hme). run. rewrite Hend, Hone.
  destruct (walk_window_ok want limited (e_height b) best b (Z.min (e_height b) (e_height me + 1024))
    (Z.to_nat (Z.min (e_height b) (e_height me + 1024) - e_height me)) (e_height me + 1) (mkProgress [] m None))
    as (r & st & Hwalk & Hblocks & Hc & Hdc & Hwf); [done|done|lia|lia|lia|lia|by eexists|done|unfold len; cbn; lia|done|].
  rewrite Hwalk. run. cbn [pr_blocks app] in Hblocks.
  replace (Z.min (e_height b) (e_height me + 1024) - (e_height me + 1) + 1)
    with (Z.min (e_height b - e_height me) BLOCK_DOWNLOAD_WINDOW) in Hblocks by (unfold BLOCK_DOWNLOAD_WINDOW; lia).
  destruct r; (eexists _, _; split; [done|]; split; [by apply Hkc|]; split; [done|]; split; [by cbn|]; split;
    [exists b, tip; rewrite Hw1, Hw2; split; [done|]; split; [done|]; by exists known, m, me|]); [done|].
  cbn [walk_staller walk_blocks]. intros s.
  destruct (Z.eqb_spec (len (pr_blocks st)) 0) as [Hz|]; cbn [andb]; [|done].
  destruct (pr_waiting st) as [held|] eqn:Hwt; [|done]. destruct (Z.eqb_spec held peer); cbn [negb]; [done|].
  intros [= <-]. split; [by destruct (pr_blocks st); [|rewrite len_cons in Hz; pose proof (len_nonneg l); lia]|]. split; [done|].
  by apply Hwf.
Qed.

(** A block that the walk asks for is in the peer's chain, is a header this node accepted, and is
    neither here nor on its way. *)
Lemma wanted_block_ok (p : ChainParams) limited best b want first k x : tree_wf p t -> get es best = Some b -> 0 < first ->
  first + k <= e_height b + 1 -> x ∈ wanted_blocks w limited (e_height b) want (lineage t best first k) ->
  exists e, get es x = Some e /\ descends es best x /\ e_status e = HeaderStatus.HeaderAccepted /\
    first <= e_height e < first + k /\ w_in_flight w !! e_hash e = None /\ e_hash e ∉ w_delivered w.
Proof.
  intros Hwf Hb Hf Hk Hx. unfold wanted_blocks in Hx. apply elem_of_take in Hx as (i & Hx & _).
  apply list_elem_of_lookup_2, list_elem_of_In, List.filter_In in Hx as [Hx Hwant].
  assert (Hl : x ∈ lineage t best first k /\ not_refused t x = true).
  { apply list_elem_of_In in Hx. fold t in Hx. revert Hx. generalize (lineage t best first k). intros l.
    induction l as [|y l IH]; cbn [take_while]; [by intros ?%not_elem_of_nil|]. destruct (not_refused t y) eqn:Hy; [|by intros ?%not_elem_of_nil].
    intros [->|Hin]%elem_of_cons; [split; [apply list_elem_of_here|done]|]. destruct (IH Hin). split; [by apply list_elem_of_further|done]. }
  destruct Hl as [Hl Hnr]. apply (lineage_elem best b) in Hl as (e & Hd & He & Hh); [|done|lia|done].
  exists e. unfold wanted, entry_at in Hwant. fold t in Hwant. change (t_entries t) with es in Hwant. rewrite He in Hwant.
  unfold not_refused, entry_at in Hnr. change (t_entries t) with es in Hnr. rewrite He in Hnr.
  apply andb_prop in Hwant as [[[H1 H2]%andb_prop H3]%andb_prop _].
  apply negb_true_iff, bool_decide_eq_false in H1. apply negb_true_iff, bool_decide_eq_false in H2.
  apply negb_true_iff, bool_decide_eq_false in H3. split; [done|]. split; [done|]. split; [|split; [done|split; [|done]]].
  - destruct (e_status e) eqn:Hst; cbn in *; try done; try (by destruct H1; eexists).
    exfalso. apply (wf_genesis p t Hwf x e He) in Hst. subst x.
    destruct (shape_genesis es Hes) as (g & Hg & _ & Hg0 & _). rewrite He in Hg. injection Hg as <-. lia.
  - by apply eq_None_not_Some.
Qed.

(** Ancestors at different heights are different. *)
Lemma lineage_NoDup n e first k : get es n = Some e -> 0 <= first -> first + k <= e_height e + 1 ->
  NoDup (lineage t n first k).
Proof.
  intros Hn Hf Hk. set (height x := match get es x with Some xe => e_height xe | None => 0 end).
  assert (Hl : forall l, Forall (fun h => 0 <= h <= e_height e) l -> height <$> omap (M:=list) (ancestor_at t n) l = l).
  { induction 1 as [|h l Hh HF IH]; [done|].
    destruct (ancestor_at_ok n e h Hn) as (a & ae & Ha & _ & _ & Hae & Hah); [lia|].
    cbn [omap list_omap]. rewrite Ha. cbn [fmap list_fmap]. f_equal; [|exact IH]. unfold height. rewrite Hae. exact Hah. }
  apply (NoDup_fmap_1 height). unfold lineage. rewrite Hl; [apply NoDup_seqZ|].
  apply Forall_forall. intros h Hh%elem_of_seqZ. lia.
Qed.

Lemma wanted_NoDup limited best_height want path : NoDup path -> NoDup (wanted_blocks w limited best_height want path).
Proof.
  intros Hn. unfold wanted_blocks. eapply sublist_NoDup; [|apply sublist_take].
  apply NoDup_ListNoDup, List.NoDup_filter, NoDup_ListNoDup.
  eapply sublist_NoDup; [exact Hn|]. fold t. clear Hn. induction path as [|x path IH]; cbn [take_while]; [done|].
  destruct (not_refused t x); [by constructor|apply sublist_nil_l].
Qed.

(** What a walk asks for: different blocks, that this node accepted and nobody was asked for. *)
Lemma walk_blocks_fresh (p : ChainParams) state want limited best blocks : tree_wf p t -> 0 < want ->
  walk_found state want limited best blocks ->
  NoDup blocks /\ len blocks <= want /\
  forall x, x ∈ blocks -> exists e, get es x = Some e /\ e_status e = HeaderStatus.HeaderAccepted /\
    w_in_flight w !! e_hash e = None /\ e_hash e ∉ w_delivered w.
Proof.
  intros Hwf Hw (b & tip & Hb & Htip & Hf). destruct (_ || _).
  { subst. split; [constructor|]. split; [unfold len; cbn; lia|]. by intros x Hx%not_elem_of_nil. }
  destruct Hf as (known & m & me & _ & Hmeet & Hme & ->).
  assert (Hd : descends es best m) by apply Hmeet.
  pose proof (descends_height es Hes best m b me Hd Hb Hme) as (_ & Hle & _).
  pose proof (height_range es Hes m me Hme). set (k := Z.min _ _).
  split; [apply wanted_NoDup; apply (lineage_NoDup best b); [done|lia|lia]|]. split.
  - unfold wanted_blocks, len. rewrite length_take. lia.
  - intros x Hx. apply (wanted_block_ok p) in Hx; [|done|done|lia|lia].
    destruct Hx as (e & He & _ & Hst & _ & Hin & Hdel). by exists e.
Qed.

(** C15.  The blocks a peer is asked for are exactly those the plain rule names.  For a peer whose
    best known chain carries at least the tip's work and the chain's minimum, the batched walk
    collects, lowest first, the first [want] blocks of that chain above the last block shared with
    it and within 1024 of it, up to the first refused one, that this node does not have, is not
    waiting for and (for a pruned peer) are recent enough; it asks for nothing otherwise; it never
    panics; and the peer it names as stalling is another one, with a block in flight, and only when
    there is nothing to ask. *)
Theorem next_blocks_exact state peer want limited : 0 < want <= MAX_BLOCKS_IN_FLIGHT -> known_nodes state ->
  exists state' walk, next_blocks (E:=E) w state peer want limited = Ok (state', walk) /\
    match pd_best_known state with
    | None => walk_blocks walk = []
    | Some best => walk_found state want limited best (walk_blocks walk)
    end /\
    (forall s, walk_staller walk = Some s -> walk_blocks walk = [] /\ s <> peer /\
       exists h f, w_in_flight w !! h = Some f /\ if_peer f = s).
Proof.
  intros Hw Hk. destruct (next_blocks_ok state peer want limited Hw Hk) as (state' & walk & ? & _ & _ & _ & ? & ?).
  by exists state', walk.
Qed.
End proofs.
