(* ===== verification/Schedule.v ===== *)
(** * Schedule: what is asked of whom, and what happens when no answer comes
    ([download/mod.rs], [download/timeouts.rs])

    The schedule runs on the chain thread and acts on the table of connections it shares with
    the readers; [Node] is what it sees of both.  One call is one step: the readers' steps come
    between calls.  Instants and durations are in nanoseconds. *)
From S2P Require Import Prelude Uint Target Bitcoin Flags Params Header Verify Tx Signet Block Coins SkipList Queue Tree Message Wire PeerQueues Slots Locator Window.

Definition HEADERS_RESPONSE_TIME : Z := secs 120.
Definition MAX_TIP_AGE : Z := secs (24 * 3600).
Definition STALE_CHECK_INTERVAL : Z := secs (10 * 60).
Definition MINIMUM_CONNECT_TIME : Z := secs 30.
Definition STALE_TIP_SPACINGS : Z := 3.
Definition MAX_UNSTORED_BLOCKS : Z := 1024.
Definition MAX_DELIVERED_BLOCKS : Z := MAX_UNSTORED_BLOCKS + PEER_SLOTS * MAX_BLOCKS_IN_FLIGHT.

(** [Duration::MAX] and the last instant of a signed 64-bit clock. *)
Definition duration_max : Z := secs u64_max + 999999999.
Definition duration_mul (d by_ : Z) : Z := Z.min duration_max (d * by_).
(** [d * by], which panics when it overflows. *)
Definition duration_times {E} (d by_ : Z) : outcome E Z := if d * by_ <=? duration_max then Ok (d * by_) else Panic.
Definition instant_max : Z := secs (2 ^ 63 - 1) + 999999999.
(** [now.checked_add(d).unwrap_or(now)]. *)
Definition instant_add (now d : Z) : Z := if now + d <=? instant_max then now + d else now.
(** [later.duration_since(earlier)] saturates at zero. *)
Definition duration_since (later earlier : Z) : Z := saturating_sub later earlier.

(** ** [download/timeouts.rs] *)

Definition STALLING_TIMEOUT_DEFAULT : Z := secs 2.
Definition STALLING_TIMEOUT_MAX : Z := secs 64.
Definition DECAY_NUMERATOR : Z := 85.
Definition DECAY_DENOMINATOR : Z := 100.
Definition DOWNLOAD_TIMEOUT_BASE : Z := 1.
Definition DOWNLOAD_TIMEOUT_PER_PEER_HALVES : Z := 1.

(** A [StallTimeout] is its current duration. *)
Module StallTimeout.
Definition new : Z := STALLING_TIMEOUT_DEFAULT.
Definition get {E} (self : Z) : outcome E Z :=
  assert_ (STALLING_TIMEOUT_DEFAULT <=? self);;
  assert_ (self <=? STALLING_TIMEOUT_MAX);;
  Ok self.
Definition doubled (self : Z) : Z :=
  Z.max (Z.min (duration_mul self 2) STALLING_TIMEOUT_MAX) STALLING_TIMEOUT_DEFAULT.
Definition decay (self : Z) : Z :=
  let millis := default u32_max (try_from u32_max (self / 1000000)) in
  let decayed := saturating_mul32 millis DECAY_NUMERATOR / DECAY_DENOMINATOR in
  Z.max (decayed * 1000000) STALLING_TIMEOUT_DEFAULT.
End StallTimeout.

Definition download_timeout {E} (spacing others_downloading : Z) : outcome E Z :=
  assert_ (negb (spacing =? 0));;
  let others := default u32_max (try_from u32_max others_downloading) in
  let halves := saturating_add32 (saturating_mul32 DOWNLOAD_TIMEOUT_BASE 2)
                  (saturating_mul32 others DOWNLOAD_TIMEOUT_PER_PEER_HALVES) in
  Ok (duration_mul spacing halves / 2).

(** ** The schedule *)

Record Schedule := mkSchedule {
  sc_peers : list PeerDownload;
  sc_in_flight : gmap bytes InFlight;
  sc_delivered : gset bytes;
  sc_stalling : Z;
  sc_spacing : Z;
  sc_minimum_chain_work : bytes;
  sc_initial_block_download : bool;
  sc_tip_height : Z;
  sc_tip_advanced_at : Z;
  sc_stale_checked_at : Z;
  sc_requested : Z;
  sc_received : Z;
}.

(** What the chain thread sees: the shared table, its schedule and its tree. *)
Record Node := mkNode { nd_slots : PeerSlots; nd_schedule : Schedule; nd_tree : HeaderTree }.
(** What the clocks read: [Instant::now()] and [node_time()]. *)
Record Clock := mkClock { ck_now : Z; ck_time : Z }.

Definition with_slots (n : Node) (slots : PeerSlots) : Node := mkNode slots (nd_schedule n) (nd_tree n).
Definition with_schedule (n : Node) (schedule : Schedule) : Node := mkNode (nd_slots n) schedule (nd_tree n).
Definition with_tree (n : Node) (tree : HeaderTree) : Node := mkNode (nd_slots n) (nd_schedule n) tree.

Record HeadersReceived := mkHeadersReceived { hr_count : Z; hr_last : option Z; hr_unconnecting : bool }.

Definition best_header_is_recent {E} (tree : HeaderTree) (time : Z) : outcome E bool :=
  best ← entry tree (t_best_header tree);
  let age := saturating_sub time (hdr_time (e_header best)) in
  Ok (age <=? MAX_TIP_AGE / secs 1).

Definition preferred_download_peers (slots : PeerSlots) : Z := PeerSlots.occupied slots Outbound.

Module Schedule.
Implicit Types (self : Schedule).

Definition with_peers self (peers : list PeerDownload) : Schedule :=
  mkSchedule peers (sc_in_flight self) (sc_delivered self) (sc_stalling self) (sc_spacing self)
    (sc_minimum_chain_work self) (sc_initial_block_download self) (sc_tip_height self) (sc_tip_advanced_at self)
    (sc_stale_checked_at self) (sc_requested self) (sc_received self).
Definition with_in_flight self (in_flight : gmap bytes InFlight) : Schedule :=
  mkSchedule (sc_peers self) in_flight (sc_delivered self) (sc_stalling self) (sc_spacing self)
    (sc_minimum_chain_work self) (sc_initial_block_download self) (sc_tip_height self) (sc_tip_advanced_at self)
    (sc_stale_checked_at self) (sc_requested self) (sc_received self).
Definition with_stalling self (stalling : Z) : Schedule :=
  mkSchedule (sc_peers self) (sc_in_flight self) (sc_delivered self) stalling (sc_spacing self)
    (sc_minimum_chain_work self) (sc_initial_block_download self) (sc_tip_height self) (sc_tip_advanced_at self)
    (sc_stale_checked_at self) (sc_requested self) (sc_received self).
Definition caught_up self : Schedule :=
  mkSchedule (sc_peers self) (sc_in_flight self) (sc_delivered self) (sc_stalling self) (sc_spacing self)
    (sc_minimum_chain_work self) false (sc_tip_height self) (sc_tip_advanced_at self)
    (sc_stale_checked_at self) (sc_requested self) (sc_received self).
Definition with_tip self (height now : Z) : Schedule :=
  mkSchedule (sc_peers self) (sc_in_flight self) (sc_delivered self) (sc_stalling self) (sc_spacing self)
    (sc_minimum_chain_work self) (sc_initial_block_download self) height now
    (sc_stale_checked_at self) (sc_requested self) (sc_received self).
Definition with_stale_checked self (now : Z) : Schedule :=
  mkSchedule (sc_peers self) (sc_in_flight self) (sc_delivered self) (sc_stalling self) (sc_spacing self)
    (sc_minimum_chain_work self) (sc_initial_block_download self) (sc_tip_height self) (sc_tip_advanced_at self)
    now (sc_requested self) (sc_received self).
Definition with_requested self (requested : Z) : Schedule :=
  mkSchedule (sc_peers self) (sc_in_flight self) (sc_delivered self) (sc_stalling self) (sc_spacing self)
    (sc_minimum_chain_work self) (sc_initial_block_download self) (sc_tip_height self) (sc_tip_advanced_at self)
    (sc_stale_checked_at self) requested (sc_received self).
(** One more block received, that has nowhere yet to be kept. *)
Definition with_delivered self (hash : bytes) : Schedule :=
  mkSchedule (sc_peers self) (sc_in_flight self) ({[hash]} ∪ sc_delivered self) (sc_stalling self) (sc_spacing self)
    (sc_minimum_chain_work self) (sc_initial_block_download self) (sc_tip_height self) (sc_tip_advanced_at self)
    (sc_stale_checked_at self) (sc_requested self) (saturating_add (sc_received self) 1).

Section schedule.
Context {E : Type} `{P2p}.
Context (magic : bytes) (params : ChainParams) (minimum_chain_work : bytes).

Definition new (now : Z) : Schedule :=
  let spacing := default 600 (try_from u64_max (pow_target_spacing params)) in
  mkSchedule (repeat PeerDownload.default (Z.to_nat PEER_SLOTS)) ∅ ∅ StallTimeout.new (secs (Z.max spacing 1))
    minimum_chain_work true Height.GENESIS now now 0 0.

Definition blocks_in_flight self : Z := Z.of_nat (size (sc_in_flight self)).
Definition is_initial_block_download self : bool := sc_initial_block_download self.

Definition peer_row self (index : Z) : outcome E PeerDownload := expect (get (sc_peers self) index).
Definition set_row self (index : Z) (row : PeerDownload) : Schedule :=
  with_peers self (<[Z.to_nat index := row]> (sc_peers self)).

Definition describes self (index : Z) (since : option Z) : outcome E bool :=
  row ← peer_row self index; Ok (PeerDownload.describes row since).

Definition forget self (index : Z) (since : option Z) : outcome E Schedule :=
  _ ← peer_row self index;
  Ok (with_in_flight (set_row self index (PeerDownload.reset since))
        (filter (fun p : bytes * InFlight => if_peer p.2 <> index) (sc_in_flight self))).

(** Forget a slot that changed hands. *)
Definition refresh (slots : PeerSlots) self (index : Z) : outcome E Schedule :=
  let since := cn_since <$> PeerSlots.connection slots index in
  known ← describes self index since;
  if (known : bool) then Ok self else forget self index since.

(** The row of a slot, to read or to write back with [set_row]. *)
Definition row (slots : PeerSlots) self (index : Z) : outcome E (Schedule * PeerDownload) :=
  self ← refresh slots self index;
  row ← peer_row self index;
  Ok (self, row).

(** [f] on a row of the node. *)
Definition on_row (n : Node) (index : Z) (f : PeerDownload -> PeerDownload) : outcome E Node :=
  '(self, r) ← row (nd_slots n) (nd_schedule n) index;
  Ok (with_schedule n (set_row self index (f r))).

Definition reconcile (slots : PeerSlots) self : outcome E Schedule :=
  foldM (fun self position => index ← SlotIndex.from_position position; refresh slots self index)
    self (seqZ 0 PEER_SLOTS).

Definition note_tip (tree : HeaderTree) (now : Z) self : outcome E Schedule :=
  tip ← entry tree (t_tip tree);
  Ok (if sc_tip_height self <? e_height tip then with_tip self (e_height tip) now else self).

Definition update_initial_block_download (tree : HeaderTree) (time : Z) self : outcome E Schedule :=
  if negb (sc_initial_block_download self) then Ok self
  else
    tip ← entry tree (t_tip tree);
    if work_val (e_chainwork tip) <? be_val (sc_minimum_chain_work self) then Ok self
    else
      let age := saturating_sub time (hdr_time (e_header tip)) in
      if MAX_TIP_AGE / secs 1 <? age then Ok self else Ok (caught_up self).

(** [self.in_flight.values()]: what is done with them does not depend on their order. *)
Definition held_blocks self : list InFlight := (map_to_list (sc_in_flight self)).*2.

Definition peers_downloading self : outcome E Z :=
  '(_, count) ← foldM (fun '(seen, count) held =>
    flag ← expect (get seen (if_peer held));
    Ok (if (flag : bool) then (seen, count)
        else (<[Z.to_nat (if_peer held) := true]> seen, saturating_add count 1)))
    (repeat false (Z.to_nat PEER_SLOTS), 0) (held_blocks self);
  Ok count.
Definition is_downloading self (index : Z) : bool := existsb (fun held => if_peer held =? index) (held_blocks self).
Definition in_flight_for self (index : Z) : Z :=
  len (filter (fun held => if_peer held = index) (held_blocks self)).
Definition oldest_request self (index : Z) : option Z :=
  foldr (fun held oldest => if if_peer held =? index
                            then Some (match oldest with Some at_ => Z.min (if_requested_at held) at_
                                                       | None => if_requested_at held end)
                            else oldest) None (held_blocks self).

(** *** Sending *)

Definition send (slots : PeerSlots) (connection : Z) (message : NetworkMessage) : outcome E PeerSlots :=
  frame ← encode magic message;
  match PeerSlots.connection slots connection with
  | None => Ok slots
  | Some c =>
      match Outbox.push (cn_outbox c) frame with
      | (outbox, Ok _) => Ok (PeerSlots.update slots connection (fun c => Connection.with_outbox c outbox))
      | (outbox, Err _) =>
          Ok (PeerSlots.update slots connection
                (fun c => Connection.disconnect (Connection.with_outbox c outbox) DOutboxFull))
      | (_, Panic) => Panic
      end
  end.

Definition disconnect (n : Node) (connection : Z) (reason : Disconnect) : Node :=
  with_slots n (PeerSlots.update (nd_slots n) connection (fun c => Connection.disconnect c reason)).

(** *** Asking for headers *)

Definition syncs_started self : Z := len (filter (fun row => pd_sync_started row = true) (sc_peers self)).

Definition headers_deadline self (tree : HeaderTree) (time : Z) : outcome E Z :=
  best ← entry tree (t_best_header tree);
  headers_timeout (hdr_time (e_header best)) time (sc_spacing self).

Definition ask_for_announcements (n : Node) (index : Z) : outcome E Node :=
  '(self, r) ← row (nd_slots n) (nd_schedule n) index;
  let n := with_schedule n self in
  if pd_sendheaders_sent r then Ok n
  else
    n ← on_row n index (fun r => PeerDownload.with_sendheaders r true);
    slots ← send (nd_slots n) index MSendHeaders;
    Ok (with_slots n slots).

Definition send_getheaders (n : Node) (index from now : Z) : outcome E (Node * bool) :=
  '(self, r) ← row (nd_slots n) (nd_schedule n) index;
  let n := with_schedule n self in
  let outstanding := match pd_getheaders_at r with
                     | Some at_ => duration_since now at_ <? HEADERS_RESPONSE_TIME
                     | None => false
                     end in
  if (outstanding : bool) then Ok (n, false)
  else match PeerSlots.connection (nd_slots n) index with
  | None => Ok (n, false)
  | Some _ =>
      locator ← locator (nd_tree n) from;
      assert_ (negb (len locator =? 0) && (len locator <=? MAX_LOCATOR_ENTRIES));;
      slots ← send (nd_slots n) index (MGetHeaders (mkGetHeaders PROTOCOL_VERSION locator (repeat x00 32)));
      n ← on_row (with_slots n slots) index (fun r => PeerDownload.with_getheaders r (Some now));
      Ok (n, true)
  end.

Definition start_headers_sync (n : Node) (index : Z) (clock : Clock) : outcome E (Node * bool) :=
  let tree := nd_tree n in
  let best := t_best_header tree in
  e ← entry tree best;
  let from := default best (e_parent e) in
  '(n, sent) ← send_getheaders n index from (ck_now clock);
  if negb sent then Ok (n, false)
  else
    timeout ← headers_deadline (nd_schedule n) tree (ck_time clock);
    let deadline := instant_add (ck_now clock) timeout in
    n ← on_row n index (fun r => PeerDownload.with_sync r true (Some deadline));
    Ok (n, true).

Definition ask_for_headers (n : Node) (clock : Clock) : outcome E Node :=
  let preferred := preferred_download_peers (nd_slots n) in
  recent ← best_header_is_recent (nd_tree n) (ck_time clock);
  '(n, _) ← foldM (fun '(n, syncing) position =>
    index ← SlotIndex.from_position position;
    match PeerSlots.connection (nd_slots n) index with
    | None => Ok (n, syncing)
    | Some connection =>
        if negb (Connection.is_ready connection) || negb (can_serve_blocks (Connection.services connection))
        then Ok (n, syncing)
        else
          n ← ask_for_announcements n index;
          '(self, r) ← row (nd_slots n) (nd_schedule n) index;
          let n := with_schedule n self in
          if pd_sync_started r then Ok (n, syncing)
          else if bool_decide (SlotIndex.kind index = Inbound) && (0 <? preferred) then Ok (n, syncing)
          else if (0 <? syncing) && negb recent then Ok (n, syncing)
          else
            '(n, started) ← start_headers_sync n index clock;
            Ok (n, if (started : bool) then saturating_add syncing 1 else syncing)
    end) (n, syncs_started (nd_schedule n)) (seqZ 0 PEER_SLOTS);
  Ok n.

Definition note_best_known (n : Node) (peer node : Z) : outcome E Node :=
  e ← entry (nd_tree n) node;
  '(self, r) ← row (nd_slots n) (nd_schedule n) peer;
  better ← match pd_best_known r with
           | None => Ok true
           | Some known => k ← entry (nd_tree n) known; Ok (work_val (e_chainwork k) <? work_val (e_chainwork e))
           end;
  Ok (with_schedule n (if (better : bool) then set_row self peer (PeerDownload.with_best_known r (Some node)) else self)).

Definition headers_answered (n : Node) (peer : Z) (received : HeadersReceived) (clock : Clock) : outcome E Node :=
  assert_ (hr_count received <=? MAX_HEADERS_ITEMS);;
  let now := ck_now clock in
  if hr_unconnecting received then
    '(n, _) ← send_getheaders n peer (t_best_header (nd_tree n)) now; Ok n
  else
    n ← on_row n peer (fun r => PeerDownload.with_getheaders r None);
    match hr_last received with
    | None => on_row n peer (fun r => PeerDownload.with_sync r (pd_sync_started r) None)
    | Some last =>
        n ← note_best_known n peer last;
        if hr_count received <? MAX_HEADERS_ITEMS
        then on_row n peer (fun r => PeerDownload.with_sync r (pd_sync_started r) None)
        else
          '(n, _) ← send_getheaders n peer last now;
          '(self, r) ← row (nd_slots n) (nd_schedule n) peer;
          let n := with_schedule n self in
          if pd_sync_started r then
            timeout ← headers_deadline (nd_schedule n) (nd_tree n) (ck_time clock);
            let deadline := instant_add now timeout in
            on_row n peer (fun r => PeerDownload.with_sync r (pd_sync_started r) (Some deadline))
          else Ok n
    end.

Definition announced (n : Node) (peer : Z) (items : list Inventory) (now : Z) : outcome E Node :=
  assert_ (len items <=? MAX_INV_ITEMS);;
  '(n, unknown) ← foldM (fun '(n, unknown) item =>
    match item with
    | InvBlock hash | InvWitnessBlock hash | InvCompactBlock hash =>
        match node_of (nd_tree n) hash with
        | Some node => n ← note_best_known n peer node; Ok (n, unknown)
        | None => Ok (n, true)
        end
    | _ => Ok (n, unknown)
    end) (n, false) (take (Z.to_nat MAX_INV_ITEMS) items);
  if (unknown : bool) then '(n, _) ← send_getheaders n peer (t_best_header (nd_tree n)) now; Ok n
  else Ok n.

(** *** Asking for blocks *)

Definition may_ask self (connection : Connection) (preferred : Z) : bool :=
  let services := Connection.services connection in
  if negb (can_serve_blocks services) || negb (can_serve_witnesses services) then false
  else if negb (sc_initial_block_download self) then true
  else bool_decide (SlotIndex.kind (cn_index connection) = Outbound) || (preferred =? 0).

(** One block of [request]; the connection is the one in its slot, which the caller holds. *)
Definition request_one (connection now : Z) (n : Node) (node : Z) : outcome E (Node * bytes) :=
  e ← entry (nd_tree n) node;
  assert_ match e_status e with HeaderStatus.HeaderAccepted => true | _ => false end;;
  '(tree, context) ← context_of (nd_tree n) node params;
  assert_ (ctx_height context =? e_height e);;
  let request := mkRequest (e_hash e) context now in
  c ← expect (PeerSlots.connection (nd_slots n) connection);
  let (requests, recorded) := Requests.record (cn_requests c) request in
  let slots := PeerSlots.update (nd_slots n) connection (fun c => Connection.with_requests c requests) in
  assert_ recorded;;
  let held := mkInFlight connection now in
  assert_ (negb (bool_decide (is_Some (sc_in_flight (nd_schedule n) !! e_hash e))));;
  let self := with_in_flight (nd_schedule n) (<[e_hash e := held]> (sc_in_flight (nd_schedule n))) in
  Ok (mkNode slots self tree, e_hash e).

Definition request (n : Node) (connection : Z) (blocks : list Z) (now : Z) : outcome E Node :=
  assert_ (negb (len blocks =? 0) && (len blocks <=? MAX_BLOCKS_IN_FLIGHT));;
  '(n, items) ← foldM (fun '(n, items) node =>
    '(n, hash) ← request_one connection now n node;
    Ok (n, items ++ [InvWitnessBlock hash])) (n, []) blocks;
  assert_ (in_flight_for (nd_schedule n) connection <=? MAX_BLOCKS_IN_FLIGHT);;
  assert_ (blocks_in_flight (nd_schedule n) <=? PEER_SLOTS * MAX_BLOCKS_IN_FLIGHT);;
  let n := with_schedule n (with_requested (nd_schedule n)
             (saturating_add (sc_requested (nd_schedule n)) (len items))) in
  n ← on_row n connection (fun r => match pd_downloading_since r with
                                   | None => PeerDownload.with_downloading r (Some now)
                                   | Some _ => r
                                   end);
  slots ← send (nd_slots n) connection (MGetData items);
  Ok (with_slots n slots).

Definition ask_for_blocks (n : Node) (now : Z) : outcome E Node :=
  if MAX_UNSTORED_BLOCKS <=? Z.of_nat (size (sc_delivered (nd_schedule n))) then Ok n
  else
    let preferred := preferred_download_peers (nd_slots n) in
    foldM (fun n position =>
      index ← SlotIndex.from_position position;
      match PeerSlots.connection (nd_slots n) index with
      | None => Ok n
      | Some connection =>
          let self := nd_schedule n in
          if negb (Connection.is_ready connection) || negb (may_ask self connection preferred) then Ok n
          else
            let outstanding := in_flight_for self index in
            let want := MAX_BLOCKS_IN_FLIGHT - outstanding in
            if want <=? 0 then Ok n
            else
              let limited := is_limited (Connection.services connection) in
              let window := mkWindow (nd_tree n) (sc_in_flight self) (sc_delivered self) (sc_minimum_chain_work self) in
              r ← peer_row self position;
              '(r, walk) ← next_blocks window r index want limited;
              let n := with_schedule n (set_row self position r) in
              n ← match walk_staller walk with
                  | Some staller =>
                      if outstanding =? 0 then
                        on_row n staller (fun r => match pd_stalling_since r with
                                                   | None => PeerDownload.with_stalling r (Some now)
                                                   | Some _ => r
                                                   end)
                      else Ok n
                  | None => Ok n
                  end;
              if len (walk_blocks walk) =? 0 then Ok n else request n index (walk_blocks walk) now
      end) n (seqZ 0 PEER_SLOTS).

Definition block_received (n : Node) (peer : Z) (hash : bytes) (now : Z) : outcome E Node :=
  let self := nd_schedule n in
  match sc_in_flight self !! hash with
  | None => Ok n
  | Some held =>
      let self := with_in_flight self (delete hash (sc_in_flight self)) in
      assert_ (if_peer held =? peer);;
      let self := with_delivered self hash in
      assert_ (Z.of_nat (size (sc_delivered self)) <=? MAX_DELIVERED_BLOCKS);;
      let self := with_stalling self (StallTimeout.decay (sc_stalling self)) in
      let next := oldest_request self peer in
      let was_head := match next with None => true | Some oldest => if_requested_at held <=? oldest end in
      '(self, r) ← row (nd_slots n) self peer;
      let r := PeerDownload.with_stalling r None in
      let r := match next with
               | None => PeerDownload.with_downloading r None
               | Some _ => if (was_head : bool) then PeerDownload.with_downloading r (Some now) else r
               end in
      Ok (with_schedule n (set_row self peer r))
  end.

(** *** The clocks *)

Definition check_headers_timeout (n : Node) (index : Z) (r : PeerDownload) (preferred now : Z) : outcome E Node :=
  match pd_sync_deadline r with
  | None => Ok n
  | Some deadline =>
      if now <=? deadline then Ok n
      else
        let mine := if bool_decide (SlotIndex.kind index = Outbound) then 1 else 0 in
        if saturating_sub preferred mine =? 0
        then on_row n index (fun r => PeerDownload.with_sync r (pd_sync_started r) None)
        else Ok (disconnect n index HeadersTimeout)
  end.

Definition check_timeouts (n : Node) (now : Z) : outcome E Node :=
  downloading ← peers_downloading (nd_schedule n);
  let preferred := preferred_download_peers (nd_slots n) in
  stalling ← StallTimeout.get (sc_stalling (nd_schedule n));
  foldM (fun n position =>
    index ← SlotIndex.from_position position;
    match PeerSlots.connection (nd_slots n) index with
    | None => Ok n
    | Some _ =>
        let self := nd_schedule n in
        r ← peer_row self position;
        if match pd_stalling_since r with Some since => stalling <? duration_since now since | None => false end then
          let n := disconnect n index BlockStalling in
          let n := with_schedule n (with_stalling (nd_schedule n) (StallTimeout.doubled (sc_stalling (nd_schedule n)))) in
          on_row n index (fun r => PeerDownload.with_stalling r None)
        else
          late ← match pd_downloading_since r with
                 | Some since =>
                     let others := saturating_sub downloading (if is_downloading self index then 1 else 0) in
                     timeout ← download_timeout (sc_spacing self) others;
                     Ok (timeout <? duration_since now since)
                 | None => Ok false
                 end;
          if (late : bool) then Ok (disconnect n index BlockDownloadTimeout)
          else check_headers_timeout n index r preferred now
    end) n (seqZ 0 PEER_SLOTS).

Definition least_useful_outbound (n : Node) (now : Z) : outcome E (option Z) :=
  worst ← foldM (fun worst position =>
    index ← SlotIndex.from_position position;
    if negb (bool_decide (SlotIndex.role index = FullRelay)) then Ok worst
    else match PeerSlots.connection (nd_slots n) index with
    | None => Ok worst
    | Some connection =>
        if duration_since now (cn_since connection) <? MINIMUM_CONNECT_TIME then Ok worst
        else match get (sc_peers (nd_schedule n)) position with
        | None => Ok worst
        | Some r =>
            height ← match pd_best_known r with
                     | None => Ok 0
                     | Some node => e ← entry (nd_tree n) node; Ok (e_height e)
                     end;
            Ok (match worst with
                | Some (_, lowest) => if height <? lowest then Some (index, height) else worst
                | None => Some (index, height)
                end)
        end
    end) None (seqZ 0 OUTBOUND_SLOTS);
  Ok (fst <$> (worst : option (Z * Z))).

Definition check_stale_tip (n : Node) (now : Z) : outcome E Node :=
  let self := nd_schedule n in
  if duration_since now (sc_stale_checked_at self) <? STALE_CHECK_INTERVAL then Ok n
  else
    let self := with_stale_checked self now in
    let n := with_schedule n self in
    if negb (bool_decide (sc_in_flight self = ∅)) then Ok n
    else
      limit ← duration_times (sc_spacing self) STALE_TIP_SPACINGS;
      if duration_since now (sc_tip_advanced_at self) <? limit then Ok n
      else if PeerSlots.occupied (nd_slots n) Outbound <? OUTBOUND_SLOTS then Ok n
      else
        found ← least_useful_outbound n now;
        match found with
        | None => Ok n
        | Some index =>
            match PeerSlots.connection (nd_slots n) index with
            | None => Ok n
            | Some _ => Ok (disconnect n index StaleTip)
            end
        end.

Definition tick (n : Node) (clock : Clock) : outcome E Node :=
  let now := ck_now clock in
  self ← reconcile (nd_slots n) (nd_schedule n);
  self ← note_tip (nd_tree n) now self;
  self ← update_initial_block_download (nd_tree n) (ck_time clock) self;
  n ← ask_for_headers (with_schedule n self) clock;
  n ← ask_for_blocks n now;
  n ← check_timeouts n now;
  check_stale_tip n now.
End schedule.
End Schedule.
