(* ===== verification/ScheduleProofs.v ===== *)
(** * ScheduleProofs: the schedule's books

    What the schedule remembers of the blocks in flight agrees with the tables of the connections
    and with the blocks that are on their way through the queue; every operation keeps it so, and
    while it is so none of the schedule's assertions fails. *)
From S2P Require Import Prelude Uint Target Bitcoin Flags Params Header Verify Tx Signet Block Coins SkipList Queue Tree TreeProofs TreeInv TreeOps TreeLife Reorg Message Wire PeerQueues Slots Locator Window Schedule.

(** ** Counting blocks in flight *)

Definition owes (m : gmap bytes InFlight) (i : Z) : nat :=
  length (filter (fun held => if_peer held = i) (map_to_list m).*2).

Lemma owes_insert m h f i : m !! h = None ->
  owes (<[h := f]> m) i = ((if decide (if_peer f = i) then 1 else 0) + owes m i)%nat.
Proof.
  intros Hm. unfold owes. rewrite (map_to_list_insert m h f Hm). cbn [fmap list_fmap]. rewrite filter_cons. cbn [snd].
  by destruct (decide (if_peer f = i)).
Qed.

Lemma owes_delete m h f i : m !! h = Some f ->
  owes m i = ((if decide (if_peer f = i) then 1 else 0) + owes (delete h m) i)%nat.
Proof.
  intros Hm. rewrite <-(insert_delete_id m h f Hm) at 1. apply owes_insert. by rewrite lookup_delete_eq.
Qed.

Lemma owes_forget m j i :
  owes (filter (fun q : bytes * InFlight => if_peer q.2 <> j) m) i = if decide (i = j) then 0%nat else owes m i.
Proof.
  induction m as [|h f m Hm IH] using map_ind.
  - rewrite map_filter_empty. by destruct (decide (i = j)).
  - rewrite owes_insert by done. destruct (decide (if_peer f = j)) as [Hf|Hf].
    + rewrite map_filter_insert_False by (cbn; tauto). rewrite delete_id, IH by done. repeat case_decide; done || congruence.
    + rewrite map_filter_insert_True, owes_insert, IH by (done || by rewrite map_lookup_filter_None; left).
      repeat case_decide; done || congruence.
Qed.

Lemma owes_at_least m i l : NoDup l -> Forall (fun h => exists f, m !! h = Some f /\ if_peer f = i) l ->
  (length l <= owes m i)%nat.
Proof.
  intros Hn HF. revert m HF. induction Hn as [|h l Hh Hn IH]; intros m HF; [cbn; lia|].
  apply Forall_cons in HF as [(f & Hf & Hi) HF]. rewrite (owes_delete m h f i Hf), decide_True by done.
  cbn [length]. specialize (IH (delete h m)). apply le_n_S, IH. rewrite Forall_forall in *.
  intros h' Hin. destruct (HF h' Hin) as (f' & Hf' & Hi'). exists f'. split; [|done]. rewrite lookup_delete_ne by (by intros ->). done.
Qed.

Lemma sum_indicator (g : Z -> nat) j l : NoDup l -> j ∈ l ->
  foldr (fun i s => (if decide (j = i) then 1 else 0) + g i + s)%nat 0%nat l = S (foldr (fun i s => g i + s)%nat 0%nat l).
Proof.
  intros Hn Hj. assert (Hno : forall k, j ∉ k ->
    foldr (fun i s => (if decide (j = i) then 1 else 0) + g i + s)%nat 0%nat k = foldr (fun i s => g i + s)%nat 0%nat k).
  { induction k as [|x k IHk]; [done|]. intros [? ?]%not_elem_of_cons. cbn. rewrite IHk by done. by rewrite decide_False. }
  induction Hn as [|x l Hx Hn IH]; [by apply not_elem_of_nil in Hj|]. cbn [foldr].
  apply elem_of_cons in Hj as [->|Hj].
  - rewrite Hno, decide_True by done. lia.
  - rewrite IH by done. rewrite decide_False by (by intros ->). lia.
Qed.

Lemma size_owes m : (forall h f, m !! h = Some f -> 0 <= if_peer f < PEER_SLOTS) ->
  size m = foldr (fun i s => owes m i + s)%nat 0%nat (seqZ 0 PEER_SLOTS).
Proof.
  induction m as [|h f m Hm IH] using map_ind; intros Hr; [by vm_compute|].
  rewrite map_size_insert_None by done. rewrite IH.
  2:{ intros h' f' Hf'. apply (Hr h'). rewrite lookup_insert_ne; [done|]. intros ->. congruence. }
  rewrite <-(sum_indicator (owes m) (if_peer f)).
  - generalize (seqZ 0 PEER_SLOTS). intros l. induction l as [|x l IHl]; [done|]. cbn [foldr]. rewrite IHl.
    rewrite owes_insert by done. done.
  - apply NoDup_seqZ.
  - apply elem_of_seqZ. pose proof (Hr h f ltac:(by rewrite lookup_insert_eq)). lia.
Qed.

Lemma size_bound m : (forall h f, m !! h = Some f -> 0 <= if_peer f < PEER_SLOTS) ->
  (forall i, (owes m i <= 16)%nat) -> Z.of_nat (size m) <= PEER_SLOTS * MAX_BLOCKS_IN_FLIGHT.
Proof.
  intros Hr Hq. rewrite (size_owes m Hr).
  assert (Hl : forall l, (foldr (fun i s => owes m i + s)%nat 0%nat l <= 16 * length l)%nat).
  { induction l as [|x l IH]; [done|]. cbn [foldr length]. specialize (Hq x). lia. }
  specialize (Hl (seqZ 0 PEER_SLOTS)). rewrite length_seqZ in Hl. unfold PEER_SLOTS, MAX_BLOCKS_IN_FLIGHT in *. lia.
Qed.

(** ** The table, up to what a message or a disconnect changes in it *)

Lemma connection_update s j f i : PeerSlots.connection (PeerSlots.update s j f) i =
  if decide (i = j) then f <$> PeerSlots.connection s j else PeerSlots.connection s i.
Proof.
  unfold PeerSlots.update. destruct (PeerSlots.connection s j) as [c|] eqn:Hc.
  - unfold PeerSlots.connection in Hc. destruct (get (ps_slots s) j) as [o|] eqn:Hg; [|done]. cbn in Hc. subst o.
    unfold PeerSlots.connection, PeerSlots.set_slot. cbn [ps_slots].
    rewrite get_insert by (by eapply get_Some_range). by case_decide.
  - case_decide as Hij; [by subst|done].
Qed.

Lemma slots_len_update s j f : len (ps_slots (PeerSlots.update s j f)) = len (ps_slots s).
Proof.
  unfold PeerSlots.update. destruct (PeerSlots.connection s j); [|done]. unfold PeerSlots.set_slot. cbn [ps_slots].
  apply len_insert.
Qed.

Lemma connection_range s i c : PeerSlots.connection s i = Some c -> 0 <= i < len (ps_slots s).
Proof.
  unfold PeerSlots.connection. destruct (get (ps_slots s) i) as [o|] eqn:Hg; [|done]. intros _. by eapply get_Some_range.
Qed.

(** What the schedule reads of a connection. *)
Definition like (c c' : Connection) : Prop :=
  cn_since c' = cn_since c /\ cn_index c' = cn_index c /\ cn_requests c' = cn_requests c /\
  ob_max_bytes (cn_outbox c') = ob_max_bytes (cn_outbox c).
Definition slots_like (s s' : PeerSlots) : Prop :=
  len (ps_slots s') = len (ps_slots s) /\
  forall i, option_Forall2 like (PeerSlots.connection s i) (PeerSlots.connection s' i).

Lemma like_refl c : like c c.
Proof. done. Qed.
Lemma slots_like_refl s : slots_like s s.
Proof. split; [done|]. intros i. destruct (PeerSlots.connection s i); constructor. apply like_refl. Qed.
Lemma slots_like_trans s1 s2 s3 : slots_like s1 s2 -> slots_like s2 s3 -> slots_like s1 s3.
Proof.
  intros [L1 L2] [L3 L4]. split; [congruence|]. intros i. specialize (L2 i). specialize (L4 i).
  destruct L2 as [c1 c2 H2|]; inversion L4 as [? c3 H4|]; subst; constructor.
  destruct H2 as (?&?&?&?), H4 as (?&?&?&?). repeat split; congruence.
Qed.
Lemma update_like s j f : (forall c, PeerSlots.connection s j = Some c -> like c (f c)) ->
  slots_like s (PeerSlots.update s j f).
Proof.
  intros Hf. split; [apply slots_len_update|]. intros i. rewrite connection_update.
  case_decide as Hij; [subst i|by apply slots_like_refl].
  destruct (PeerSlots.connection s j) as [c|] eqn:Hc; constructor. by apply Hf.
Qed.
Lemma like_since s s' i : slots_like s s' ->
  cn_since <$> PeerSlots.connection s' i = cn_since <$> PeerSlots.connection s i.
Proof. intros [_ Hl]. specialize (Hl i). destruct Hl as [c c' (H1 & _)|]; cbn; congruence. Qed.

(** ** The books *)

(** A row names nodes of the tree. *)
Definition known (t : HeaderTree) (r : PeerDownload) : Prop :=
  (forall n, pd_best_known r = Some n -> is_Some (get (t_entries t) n)) /\
  (forall n, pd_last_common r = Some n -> is_Some (get (t_entries t) n)).

Record slots_wf (s : PeerSlots) : Prop := mkSlotsWf {
  sw_len : len (ps_slots s) = PEER_SLOTS;
  sw_connections i c : PeerSlots.connection s i = Some c ->
    connection_ok i c /\ rq_max (cn_requests c) = MAX_BLOCKS_IN_FLIGHT;
}.

Record sched_ok (self : Schedule) (t : HeaderTree) : Prop := mkSchedOk {
  so_len : len (sc_peers self) = PEER_SLOTS;
  so_known i r : get (sc_peers self) i = Some r -> known t r;
  so_peer h f : sc_in_flight self !! h = Some f -> 0 <= if_peer f < PEER_SLOTS;
  so_quota i : (owes (sc_in_flight self) i <= 16)%nat;
  so_stalling : STALLING_TIMEOUT_DEFAULT <= sc_stalling self <= STALLING_TIMEOUT_MAX;
  so_spacing : 0 < sc_spacing self /\ sc_spacing self * STALE_TIP_SPACINGS <= duration_max;
  so_room : Z.of_nat (size (sc_delivered self)) + Z.of_nat (size (sc_in_flight self)) <= MAX_DELIVERED_BLOCKS;
}.

(** The blocks a connection still owes. *)
Definition owed_by (c : Connection) : list bytes := req_hash <$> rq_outstanding (cn_requests c).
Definition from_slot (self : Schedule) (i : Z) (h : bytes) : Prop :=
  exists f, sc_in_flight self !! h = Some f /\ if_peer f = i.
(** The row of a slot is about the connection in it. *)
Definition describes (s : PeerSlots) (self : Schedule) (i : Z) : Prop :=
  exists r, get (sc_peers self) i = Some r /\ pd_connection r = cn_since <$> PeerSlots.connection s i.

(** [tr] is the blocks between a table and [block_received], with their slots. *)
Record books (s : PeerSlots) (self : Schedule) (tr : list (Z * bytes)) : Prop := mkBooks {
  bk_owed i c h : PeerSlots.connection s i = Some c -> h ∈ owed_by c -> from_slot self i h;
  bk_transit i h : (i, h) ∈ tr -> from_slot self i h /\
    exists c, PeerSlots.connection s i = Some c /\ h ∉ owed_by c;
  bk_nodup : NoDup tr.*2;
  bk_row i c : PeerSlots.connection s i = Some c -> owed_by c <> [] \/ (exists h, (i, h) ∈ tr) -> describes s self i;
}.

Record node_ok `{BitcoinCrate} (p : ChainParams) (n : Node) (tr : list (Z * bytes)) : Prop := mkNodeOk {
  no_slots : slots_wf (nd_slots n);
  no_tree : tree_wf p (nd_tree n);
  no_sched : sched_ok (nd_schedule n) (nd_tree n);
  no_books : books (nd_slots n) (nd_schedule n) tr;
}.

(** Within one pass every row is about the connection in its slot. *)
Definition described (n : Node) : Prop := forall i, 0 <= i < PEER_SLOTS -> describes (nd_slots n) (nd_schedule n) i.

Lemma slots_wf_like s s' : slots_like s s' -> slots_wf s -> slots_wf s'.
Proof.
  intros [Hlen Hl] [W1 W2]. split; [congruence|]. intros i c' Hc'. specialize (Hl i). rewrite Hc' in Hl.
  inversion Hl as [c c'' (L1 & L2 & L3 & L4) Heq|]; subst. destruct (W2 i c ltac:(congruence)) as [[C1 C2 C3] Hm].
  rewrite L3. split; [|done]. split; [congruence|by rewrite L3|congruence].
Qed.

Lemma describes_like s s' self i : slots_like s s' -> describes s self i -> describes s' self i.
Proof. intros Hl (r & Hr & Hc). exists r. split; [done|]. by rewrite (like_since s s' i Hl). Qed.

Lemma books_like s s' self tr : slots_like s s' -> books s self tr -> books s' self tr.
Proof.
  intros Hl [B1 B2 B3 B4].
  assert (Hback : forall i c', PeerSlots.connection s' i = Some c' ->
    exists c, PeerSlots.connection s i = Some c /\ owed_by c' = owed_by c).
  { intros i c' Hc'. destruct Hl as [_ Hl]. specialize (Hl i). rewrite Hc' in Hl.
    inversion Hl as [c c'' (_ & _ & L3 & _) Heq|]; subst. exists c. split; [congruence|]. unfold owed_by. by rewrite L3. }
  split; [| |done|].
  - intros i c' h Hc' Hh. destruct (Hback i c' Hc') as (c & Hc & Ho). rewrite Ho in Hh. eauto.
  - intros i h Hh. destruct (B2 i h Hh) as (Hf & c & Hc & Hn). split; [done|].
    destruct Hl as [_ Hl]. specialize (Hl i). rewrite Hc in Hl. inversion Hl as [? c' (_ & _ & L3 & _)|]; subst.
    exists c'. split; [done|]. unfold owed_by. by rewrite L3.
  - intros i c' Hc' Hor. destruct (Hback i c' Hc') as (c & Hc & Ho). rewrite Ho in Hor.
    eapply describes_like; eauto.
Qed.

Section ok.
Context `{BC : BitcoinCrate} {E : Type} (p : ChainParams).
Implicit Types (n : Node) (self : Schedule) (s : PeerSlots).

Lemma node_ok_like n tr s' : slots_like (nd_slots n) s' -> node_ok p n tr -> node_ok p (with_slots n s') tr.
Proof. intros Hl [N1 N2 N3 N4]. split; cbn; [by eapply slots_wf_like|done|done|by eapply books_like]. Qed.
Lemma described_like n s' : slots_like (nd_slots n) s' -> described n -> described (with_slots n s').
Proof. intros Hl Hd i Hi. eapply describes_like; [exact Hl|by apply Hd]. Qed.

Lemma set_row_ok self t i r r' : sched_ok self t -> get (sc_peers self) i = Some r -> known t r' ->
  sched_ok (Schedule.set_row self i r') t.
Proof.
  intros [S1 S2 S3 S4 S5 S6 S7] Hr Hk. split; cbn; try done; [by rewrite len_insert|].
  intros j rj. rewrite get_insert by (by eapply get_Some_range). case_decide; [by intros [= <-]|apply S2].
Qed.

Lemma set_row_describes s self i r r' j : get (sc_peers self) i = Some r -> pd_connection r' = pd_connection r ->
  describes s self j -> describes s (Schedule.set_row self i r') j.
Proof.
  intros Hr Hc (rj & Hrj & Hcj). unfold describes. cbn. rewrite get_insert by (by eapply get_Some_range).
  case_decide; [subst j|by eauto]. rewrite Hr in Hrj. injection Hrj as <-. exists r'. split; [done|congruence].
Qed.

Lemma set_row_books s self tr i r r' : get (sc_peers self) i = Some r -> pd_connection r' = pd_connection r ->
  books s self tr -> books s (Schedule.set_row self i r') tr.
Proof.
  intros Hr Hc [B1 B2 B3 B4]. split; [done|done|done|]. intros j c Hj Hor. by eapply set_row_describes, B4.
Qed.

(** A slot that changed hands owes nothing, so that forgetting it loses nothing. *)
Lemma refresh_ok n tr i : node_ok p n tr -> 0 <= i < PEER_SLOTS ->
  exists self, Schedule.refresh (E:=E) (nd_slots n) (nd_schedule n) i = Ok self /\
    node_ok p (with_schedule n self) tr /\ describes (nd_slots n) self i /\
    (forall j, describes (nd_slots n) (nd_schedule n) j -> describes (nd_slots n) self j) /\
    (describes (nd_slots n) (nd_schedule n) i -> self = nd_schedule n).
Proof.
  intros [N1 N2 N3 N4] Hi. set (s := nd_slots n) in *. set (self := nd_schedule n) in *.
  destruct (get_in_range (sc_peers self) i) as [r Hr]; [by rewrite (so_len _ _ N3)|].
  unfold Schedule.refresh, Schedule.describes, Schedule.peer_row. rewrite Hr. run. unfold PeerDownload.describes.
  case_bool_decide as Hd.
  { exists self. split; [done|]. split; [by split|]. split; [by exists r|]. done. }
  unfold Schedule.forget, Schedule.peer_row. rewrite Hr. run.
  set (since := cn_since <$> PeerSlots.connection s i) in *. set (r' := PeerDownload.reset since).
  set (self' := Schedule.with_in_flight _ _). exists self'. split; [done|].
  assert (Hno : forall c, PeerSlots.connection s i = Some c -> owed_by c = [] /\ forall h, (i, h) ∉ tr).
  { intros c Hc. assert (Hnd : ~ describes s self i) by (intros (r2 & Hr2 & Hc2); rewrite Hr in Hr2; by injection Hr2 as <-).
    split; [destruct (owed_by c) eqn:Ho; [done|]|intros h Hh]; exfalso; apply Hnd, (bk_row _ _ _ N4 i c Hc); [left; by rewrite Ho|eauto]. }
  assert (Hrow : forall j, get (sc_peers self') j = if decide (j = i) then Some r' else get (sc_peers self) j).
  { intros j. cbn. apply get_insert. by rewrite (so_len _ _ N3). }
  assert (Hdi : describes s self' i) by (exists r'; rewrite Hrow, decide_True by done; done).
  assert (Hdj : forall j, describes s self j -> describes s self' j).
  { intros j (rj & Hrj & Hcj). destruct (decide (j = i)) as [->|]; [done|]. exists rj. by rewrite Hrow, decide_False. }
  assert (Hfl : forall j h, j <> i -> from_slot self j h -> from_slot self' j h).
  { intros j h Hj (f & Hf & Hp). exists f. split; [|done]. cbn. apply map_lookup_filter_Some. split; [done|]. cbn. congruence. }
  split; [split; cbn; [done|done| |]|].
  - destruct N3 as [S1 S2 S3 S4 S5 S6 S7]. split; cbn; try done.
    + by rewrite len_insert.
    + intros j rj. change (get (sc_peers self') j = Some rj -> known (nd_tree n) rj). rewrite Hrow.
      case_decide; [by intros [= <-]|apply S2].
    + intros h f [Hf _]%map_lookup_filter_Some. eauto.
    + intros j. rewrite owes_forget. case_decide; [lia|apply S4].
    + assert (Hle : (size (filter (fun q : bytes * InFlight => if_peer q.2 <> i) (sc_in_flight self)) <= size (sc_in_flight self))%nat)
        by apply map_subseteq_size, map_filter_subseteq. lia.
  - destruct N4 as [B1 B2 B3 B4]. split; [| |done|].
    + intros j c h Hc Hh. destruct (decide (j = i)) as [->|Hj]; [|by eapply Hfl, B1].
      destruct (Hno c Hc) as [Ho _]. rewrite Ho in Hh. by apply not_elem_of_nil in Hh.
    + intros j h Hh. destruct (B2 j h Hh) as (Hf & c & Hc & Hn). split; [|by exists c].
      apply Hfl; [|done]. intros ->. by destruct (Hno c Hc) as [_ []%(fun H => H h Hh)].
    + intros j c Hc Hor. destruct (decide (j = i)) as [->|]; [done|]. by eapply Hdj, B4.
  - split; [done|]. split; [done|]. intros (r2 & Hr2 & Hc2). rewrite Hr in Hr2. by injection Hr2 as <-.
Qed.

(** ** Steps that touch rows and outboxes only *)

Record keeps n (tr : list (Z * bytes)) n' : Prop := mkKeeps {
  kp_ok : node_ok p n' tr;
  kp_like : slots_like (nd_slots n) (nd_slots n');
  kp_tree : nd_tree n' = nd_tree n;
  kp_describes j : describes (nd_slots n) (nd_schedule n) j -> describes (nd_slots n') (nd_schedule n') j;
}.

Lemma keeps_refl n tr : node_ok p n tr -> keeps n tr n.
Proof. intros. by split; [|apply slots_like_refl|..]. Qed.
Lemma kept_trans n1 n2 n3 tr : keeps n1 tr n2 -> keeps n2 tr n3 -> keeps n1 tr n3.
Proof. intros [K1 K2 K3 K4] [K5 K6 K7 K8]. split; [done|by eapply slots_like_trans|congruence|auto]. Qed.
Lemma keeps_described n n' tr : keeps n tr n' -> described n -> described n'.
Proof. intros [_ _ _ K] Hd i Hi. by apply K, Hd. Qed.

Lemma keeps_slots n tr s' : node_ok p n tr -> slots_like (nd_slots n) s' -> keeps n tr (with_slots n s').
Proof.
  intros Hn Hl. split; [by apply node_ok_like|done|done|]. intros j. by apply describes_like.
Qed.

Lemma ensures_keeps {A} n1 n2 tr (m : outcome E A) (out : A -> Node) : keeps n1 tr n2 ->
  ensures m (fun a => keeps n2 tr (out a)) -> ensures m (fun a => keeps n1 tr (out a)).
Proof. intros Hk Hm. eapply ensures_mono; [exact Hm|]. intros a. by apply kept_trans. Qed.

Lemma row_ok n tr i : node_ok p n tr -> 0 <= i < PEER_SLOTS ->
  exists self r, Schedule.row (E:=E) (nd_slots n) (nd_schedule n) i = Ok (self, r) /\
    keeps n tr (with_schedule n self) /\ get (sc_peers self) i = Some r /\ known (nd_tree n) r /\
    (describes (nd_slots n) (nd_schedule n) i -> self = nd_schedule n).
Proof.
  intros Hn Hi. destruct (refresh_ok n tr i Hn Hi) as (self & Href & Hok & (r & Hr & Hc) & Hj & Hid).
  exists self, r. unfold Schedule.row, Schedule.peer_row. rewrite Href. run. rewrite Hr. run.
  split; [done|]. split; [|split; [done|split; [by eapply (so_known _ _ (no_sched _ _ _ Hok))|done]]].
  split; [done|apply slots_like_refl|done|done].
Qed.

(** A change of a row that leaves its connection and names nodes of the tree. *)
Definition row_step (t : HeaderTree) (f : PeerDownload -> PeerDownload) : Prop := forall r, known t r ->
  known t (f r) /\ pd_connection (f r) = pd_connection r.

Lemma keeps_set_row n tr i r r' : node_ok p n tr -> get (sc_peers (nd_schedule n)) i = Some r -> known (nd_tree n) r' ->
  pd_connection r' = pd_connection r -> keeps n tr (with_schedule n (Schedule.set_row (nd_schedule n) i r')).
Proof.
  intros [N1 N2 N3 N4] Hr Hk Hc. split; [|apply slots_like_refl|done|].
  - split; cbn; [done|done|by eapply set_row_ok|by eapply set_row_books].
  - intros j. by eapply set_row_describes.
Qed.

Lemma on_row_ok n tr i f : node_ok p n tr -> 0 <= i < PEER_SLOTS -> row_step (nd_tree n) f ->
  ensures (Schedule.on_row (E:=E) n i f) (keeps n tr).
Proof.
  intros Hn Hi Hf. destruct (row_ok n tr i Hn Hi) as (self & r & Hrow & Hk & Hr & Hkn & _).
  unfold Schedule.on_row. rewrite Hrow. run. destruct (Hf r Hkn) as [Hkn' Hc].
  eapply kept_trans; [exact Hk|]. by apply (keeps_set_row (with_schedule n self) tr i r (f r) (kp_ok _ _ _ Hk)).
Qed.

(** On a row that is about its connection, a write is all there is. *)
Lemma on_row_described n tr i f : node_ok p n tr -> 0 <= i < PEER_SLOTS -> describes (nd_slots n) (nd_schedule n) i ->
  exists r, get (sc_peers (nd_schedule n)) i = Some r /\ known (nd_tree n) r /\
    Schedule.on_row (E:=E) n i f = Ok (with_schedule n (Schedule.set_row (nd_schedule n) i (f r))).
Proof.
  intros Hn Hi Hd. destruct (row_ok n tr i Hn Hi) as (self & r & Hrow & _ & Hr & Hkn & Hid).
  rewrite (Hid Hd) in *. exists r. split; [done|]. split; [done|]. unfold Schedule.on_row. by rewrite Hrow.
Qed.

Lemma from_position_ok i : 0 <= i < PEER_SLOTS -> SlotIndex.from_position (E:=E) i = Ok i.
Proof.
  intros Hi. unfold SlotIndex.from_position, SlotIndex.new.
  rewrite (proj2 (Z.ltb_lt i PEER_SLOTS)) by lia. run. unfold try_from, PEER_SLOTS in *.
  rewrite (proj2 (Z.leb_le 0 i)), (proj2 (Z.leb_le i 255)) by lia. cbn.
  unfold id. by rewrite (proj2 (Z.ltb_lt i 32)) by lia.
Qed.

Lemma elem_of_slots i : i ∈ seqZ 0 PEER_SLOTS <-> 0 <= i < PEER_SLOTS.
Proof. rewrite elem_of_seqZ. lia. Qed.

(** The loops over the slots. *)
Lemma slots_loop {A} (f : A -> Z -> outcome E A) (I : A -> Prop) (a : A) k : k <= PEER_SLOTS -> I a ->
  (forall a i, 0 <= i < PEER_SLOTS -> I a -> ensures (f a i) I) -> ensures (foldM f a (seqZ 0 k)) I.
Proof. intros Hk Ha Hf. apply ensures_foldM; [done|]. intros a' i Hi. apply Hf. apply elem_of_seqZ in Hi. lia. Qed.

Lemma reconcile_ok n tr : node_ok p n tr ->
  ensures (Schedule.reconcile (E:=E) (nd_slots n) (nd_schedule n)) (fun self =>
    keeps n tr (with_schedule n self) /\ described (with_schedule n self)).
Proof.
  intros Hn. unfold Schedule.reconcile.
  assert (Hl : forall l, (forall i, i ∈ l -> 0 <= i < PEER_SLOTS) -> forall self, keeps n tr (with_schedule n self) ->
    ensures (foldM (fun self position => index ← SlotIndex.from_position position;
        Schedule.refresh (E:=E) (nd_slots n) self index) self l)
      (fun self' => keeps n tr (with_schedule n self') /\
         (forall j, describes (nd_slots n) self j -> describes (nd_slots n) self' j) /\
         forall i, i ∈ l -> describes (nd_slots n) self' i)).
  { induction l as [|x l IH]; intros Hrange self Hk; cbn [foldM].
    { split; [done|]. split; [done|]. by intros i Hi%not_elem_of_nil. }
    rewrite from_position_ok by (apply Hrange, list_elem_of_here). run.
    destruct (refresh_ok (with_schedule n self) tr x (kp_ok _ _ _ Hk)) as (self1 & Hr1 & Hok & Hx & Hj & _);
      [apply Hrange, list_elem_of_here|]. cbn [nd_slots nd_schedule with_schedule] in Hr1. rewrite Hr1. run.
    eapply ensures_mono; [apply IH|].
    - intros i Hi. by apply Hrange, list_elem_of_further.
    - eapply kept_trans; [exact Hk|]. by split; [exact Hok|apply slots_like_refl|done|exact Hj].
    - cbn beta. intros self2 (Hk2 & Hj2 & Hl2). split; [done|]. split; [by intros j Hd; apply Hj2, Hj|].
      intros i [->|Hi]%elem_of_cons; [by apply Hj2|by apply Hl2]. }
  eapply ensures_mono.
  - apply Hl; [by intros i Hi%elem_of_slots|]. destruct n. by apply keeps_refl.
  - cbn beta. intros self (Hk & _ & Hd). split; [done|]. intros i Hi. by apply Hd, elem_of_slots.
Qed.
End ok.
