(* ===== verification/ScheduleSafety.v ===== *)
(** * ScheduleSafety: no assertion of the schedule fails while its books are in order *)
From S2P Require Import Prelude Uint Target Bitcoin Flags Params Header Verify Tx Signet Block Coins SkipList Queue Tree TreeProofs TreeInv TreeOps TreeLife Reorg Message Wire PeerQueues Slots Locator Window Schedule ScheduleProofs.

(** What the schedule sends. *)
Definition request_message (m : NetworkMessage) : Prop :=
  match m with
  | MSendHeaders => True
  | MGetHeaders g => len (gh_locator_hashes g) <= MAX_LOCATOR_ENTRIES
  | MGetData items => len items <= MAX_BLOCKS_IN_FLIGHT
  | _ => False
  end.

Section safety.
Context `{BC : BitcoinCrate} `{PP : P2p} {E : Type} (p : ChainParams) (interval : Z) (Hp : chain_ok p interval).
Context (magic : bytes).
(** Forty hashes make a small frame. *)
Context (Hframe : forall m, request_message m -> HEADER_BYTES <= len (serialize_raw magic m) <= OUTBOX_MAX_BYTES).
Implicit Types (n : Node) (self : Schedule) (s : PeerSlots).

Lemma push_max o frame : ob_max_bytes (fst (Outbox.push o frame)) = ob_max_bytes o.
Proof.
  unfold Outbox.push. destruct (negb _); [done|]. destruct (ob_closed o); [done|]. by destruct (_ <? _).
Qed.

Lemma send_ok s i m : slots_wf s -> request_message m ->
  ensures (Schedule.send (E:=E) magic s i m) (slots_like s).
Proof.
  intros Hs Hm. destruct (Hframe m Hm) as [Hlo Hhi]. unfold Schedule.send, encode.
  rewrite (proj2 (Z.leb_le HEADER_BYTES (len (serialize_raw magic m)))) by done. run.
  destruct (PeerSlots.connection s i) as [c|] eqn:Hc; [|apply slots_like_refl].
  destruct (sw_connections _ Hs i c Hc) as [[_ _ Hmax] _].
  pose proof (push_max (cn_outbox c) (serialize_raw magic m)) as Hpm.
  destruct (Outbox.push (cn_outbox c) (serialize_raw magic m)) as [outbox r] eqn:Hpush. cbn in Hpm.
  destruct r as [u|e|].
  - apply update_like. intros c' Hc'. repeat split. cbn. congruence.
  - apply update_like. intros c' Hc'. repeat split. cbn. congruence.
  - exfalso. unfold Outbox.push in Hpush. rewrite Hmax in Hpush.
    destruct (Z.eqb_spec (len (serialize_raw magic m)) 0); [unfold HEADER_BYTES in *; lia|].
    rewrite (proj2 (Z.leb_le _ OUTBOX_MAX_BYTES)) in Hpush by done. cbn [negb andb] in Hpush.
    destruct (ob_closed (cn_outbox c)); [done|]. by destruct (_ <? _).
Qed.

Lemma disconnect_ok n tr i reason : node_ok p n tr -> keeps p n tr (Schedule.disconnect n i reason).
Proof. intros Hn. apply keeps_slots; [done|]. apply update_like. intros c _. by repeat split. Qed.

Lemma best_in_tree t : tree_wf p t -> exists e, get (t_entries t) (t_best_header t) = Some e.
Proof. intros Hwf. destruct (wf_best p t Hwf) as (e & He & _). eauto. Qed.

Lemma send_getheaders_ok n tr i from now : node_ok p n tr -> 0 <= i < PEER_SLOTS ->
  is_Some (get (t_entries (nd_tree n)) from) ->
  ensures (Schedule.send_getheaders (E:=E) magic n i from now) (fun r => keeps p n tr (fst r)).
Proof.
  intros Hn Hi [e He]. unfold Schedule.send_getheaders.
  destruct (row_ok (E:=E) p n tr i Hn Hi) as (self & r & -> & Hk & _). run.
  destruct (match pd_getheaders_at r with Some at_ => _ | None => false end); [done|].
  destruct (PeerSlots.connection _ i) as [c|] eqn:Hc; [|done].
  destruct (locator_ok (E:=E) (nd_tree n) (wf_shape _ _ (no_tree _ _ _ Hn)) from e He) as (l & Hl & Htr & Hll).
  cbn [nd_tree with_schedule]. rewrite Hl. run.
  assert (Hne : 0 < len l) by (destruct Htr; rewrite len_cons; pose proof (len_nonneg (@nil bytes)); try pose proof (len_nonneg l); lia).
  destruct (Z.eqb_spec (len l) 0); [lia|]. rewrite (proj2 (Z.leb_le (len l) MAX_LOCATOR_ENTRIES)) by (unfold MAX_LOCATOR_ENTRIES; lia).
  run. set (n1 := with_schedule n self). change (nd_slots n) with (nd_slots n1).
  eapply ensures_bind; [apply send_ok; [apply (no_slots _ _ _ (kp_ok _ _ _ _ Hk))|cbn; unfold MAX_LOCATOR_ENTRIES; lia]|].
  intros slots Hsl. pose proof (keeps_slots p n1 tr slots (kp_ok _ _ _ _ Hk) Hsl) as Hk1.
  eapply ensures_bind; [apply (on_row_ok p _ tr i _ (kp_ok _ _ _ _ Hk1) Hi); intros r' ?; by split|].
  intros n2 Hk2. run. cbn. eapply kept_trans; [exact Hk|]. by eapply kept_trans.
Qed.

Lemma headers_deadline_ok n tr time : node_ok p n tr ->
  exists d, Schedule.headers_deadline (E:=E) (nd_schedule n) (nd_tree n) time = Ok d.
Proof.
  intros [_ N2 N3 _]. destruct (best_in_tree _ N2) as [e He]. unfold Schedule.headers_deadline.
  rewrite (entry_Ok _ _ e He). run. unfold headers_timeout. destruct (so_spacing _ _ N3).
  destruct (Z.eqb_spec (sc_spacing (nd_schedule n)) 0); [lia|]. run. eauto.
Qed.

Lemma ask_for_announcements_ok n tr i : node_ok p n tr -> 0 <= i < PEER_SLOTS ->
  ensures (Schedule.ask_for_announcements (E:=E) magic n i) (keeps p n tr).
Proof.
  intros Hn Hi. unfold Schedule.ask_for_announcements.
  destruct (row_ok (E:=E) p n tr i Hn Hi) as (self & r & -> & Hk & _). run.
  destruct (pd_sendheaders_sent r); [done|].
  eapply ensures_bind; [apply (on_row_ok p _ tr i _ (kp_ok _ _ _ _ Hk) Hi); intros r' ?; by split|].
  intros n1 Hk1. eapply ensures_bind; [by apply send_ok; [apply (no_slots _ _ _ (kp_ok _ _ _ _ Hk1))|]|].
  intros slots Hsl. run. eapply kept_trans; [exact Hk|]. eapply kept_trans; [exact Hk1|].
  by apply keeps_slots; [apply Hk1|].
Qed.

Lemma start_headers_sync_ok n tr i clock : node_ok p n tr -> 0 <= i < PEER_SLOTS ->
  ensures (Schedule.start_headers_sync (E:=E) magic n i clock) (fun r => keeps p n tr (fst r)).
Proof.
  intros Hn Hi. unfold Schedule.start_headers_sync. pose proof (wf_shape _ _ (no_tree _ _ _ Hn)) as Hs.
  destruct (best_in_tree _ (no_tree _ _ _ Hn)) as [e He]. rewrite (entry_Ok _ _ e He). run.
  eapply ensures_bind; [apply (send_getheaders_ok n tr i _ _ Hn Hi)|].
  { destruct (e_parent e) as [q|] eqn:Hq; cbn; [|eauto].
    destruct (parent_linked _ Hs _ _ _ He Hq) as [qe Hl]. exists qe. apply (linked_get _ _ _ _ _ Hl). }
  intros [n1 sent] Hk. cbn in Hk. destruct sent; cbn [negb]; [|done].
  rewrite <-(kp_tree _ _ _ _ Hk). destruct (headers_deadline_ok n1 tr (ck_time clock) (kp_ok _ _ _ _ Hk)) as [d ->]. run.
  eapply ensures_bind; [apply (on_row_ok p _ tr i _ (kp_ok _ _ _ _ Hk) Hi); intros r' ?; by split|].
  intros n2 Hk2. run. cbn. by eapply kept_trans.
Qed.

Lemma ask_for_headers_ok n tr clock : node_ok p n tr ->
  ensures (Schedule.ask_for_headers (E:=E) magic n clock) (keeps p n tr).
Proof.
  intros Hn. unfold Schedule.ask_for_headers, best_header_is_recent.
  destruct (best_in_tree _ (no_tree _ _ _ Hn)) as [e He]. rewrite (entry_Ok _ _ e He). run.
  eapply ensures_bind; [eapply (slots_loop _ (fun a => keeps p n tr (fst a))); [done|by apply keeps_refl|]|].
  2:{ by intros [n1 syncing]. }
  intros [n1 syncing] i Hi Hk. cbn in Hk. rewrite from_position_ok by done. run.
  destruct (PeerSlots.connection _ i) as [c|]; [|done]. destruct (_ || _); [done|].
  eapply ensures_bind; [apply ask_for_announcements_ok; [apply Hk|done]|].
  intros n2 Hk2. pose proof (kept_trans _ _ _ _ _ Hk Hk2) as Hk2'.
  destruct (row_ok (E:=E) p n2 tr i (kp_ok _ _ _ _ Hk2) Hi) as (self & r & -> & Hk3 & _). run.
  pose proof (kept_trans _ _ _ _ _ Hk2' Hk3) as Hk3'.
  destruct (pd_sync_started r); [done|]. destruct (_ && _); [done|]. destruct (_ && _); [done|].
  eapply ensures_bind; [apply start_headers_sync_ok; [apply Hk3|done]|].
  intros [n4 started] Hk4. cbn in Hk4. run. cbn. by eapply kept_trans.
Qed.

Lemma note_best_known_ok n tr i node : node_ok p n tr -> 0 <= i < PEER_SLOTS ->
  is_Some (get (t_entries (nd_tree n)) node) ->
  ensures (Schedule.note_best_known (E:=E) n i node) (keeps p n tr).
Proof.
  intros Hn Hi [e He]. unfold Schedule.note_best_known. rewrite (entry_Ok _ _ e He). run.
  destruct (row_ok (E:=E) p n tr i Hn Hi) as (self & r & -> & Hk & Hr & Hkn & _). run.
  assert (Hset : keeps p n tr (with_schedule n (Schedule.set_row self i (PeerDownload.with_best_known r (Some node))))).
  { eapply kept_trans; [exact Hk|]. eapply (keeps_set_row p (with_schedule n self)); [apply Hk|exact Hr| |done].
    destruct Hkn as [_ Hcm]. split; [by intros m [= <-]; exists e|exact Hcm]. }
  destruct (pd_best_known r) as [k|] eqn:Hbk; run; [|done].
  destruct (proj1 Hkn k Hbk) as [ke Hke]. rewrite (entry_Ok _ _ ke Hke). run. by destruct (_ <? _).
Qed.

Lemma headers_answered_ok n tr i received clock : node_ok p n tr -> 0 <= i < PEER_SLOTS ->
  hr_count received <= MAX_HEADERS_ITEMS ->
  (forall last, hr_last received = Some last -> is_Some (get (t_entries (nd_tree n)) last)) ->
  ensures (Schedule.headers_answered (E:=E) magic n i received clock) (keeps p n tr).
Proof.
  intros Hn Hi Hc Hlast. unfold Schedule.headers_answered. rewrite (proj2 (Z.leb_le _ MAX_HEADERS_ITEMS)) by done. run.
  destruct (hr_unconnecting received).
  { eapply ensures_bind; [apply (send_getheaders_ok n tr i _ _ Hn Hi)|by intros [n1 sent]].
    destruct (best_in_tree _ (no_tree _ _ _ Hn)) as [e He]. eauto. }
  eapply ensures_bind; [apply (on_row_ok p n tr i _ Hn Hi); intros r ?; by split|].
  intros n1 Hk1. assert (Hshort : forall n2, keeps p n tr n2 -> ensures (Schedule.on_row (E:=E) n2 i
      (fun r => PeerDownload.with_sync r (pd_sync_started r) None)) (keeps p n tr)).
  { intros n2 Hk2. apply (ensures_keeps p n n2 tr _ id Hk2).
    apply (on_row_ok p n2 tr i _ (kp_ok _ _ _ _ Hk2) Hi); intros r ?; by split. }
  destruct (hr_last received) as [last|] eqn:Hl; [|by apply Hshort].
  eapply ensures_bind; [apply (note_best_known_ok n1 tr i last (kp_ok _ _ _ _ Hk1) Hi); rewrite (kp_tree _ _ _ _ Hk1); auto|].
  intros n2 Hk2. pose proof (kept_trans _ _ _ _ _ Hk1 Hk2) as Hk2'. destruct (_ <? _); [by apply Hshort|].
  eapply ensures_bind; [apply (send_getheaders_ok n2 tr i last _ (kp_ok _ _ _ _ Hk2) Hi); rewrite (kp_tree _ _ _ _ Hk2'); auto|].
  intros [n3 sent] Hk3. cbn in Hk3. pose proof (kept_trans _ _ _ _ _ Hk2' Hk3) as Hk3'.
  destruct (row_ok (E:=E) p n3 tr i (kp_ok _ _ _ _ Hk3) Hi) as (self & r & -> & Hk4 & _). run.
  pose proof (kept_trans _ _ _ _ _ Hk3' Hk4) as Hk4'. destruct (pd_sync_started r); [|done].
  destruct (headers_deadline_ok (with_schedule n3 self) tr (ck_time clock) (kp_ok _ _ _ _ Hk4)) as [d ->]. run.
  apply (ensures_keeps p n _ tr _ id Hk4').
  apply (on_row_ok p (with_schedule n3 self) tr i _ (kp_ok _ _ _ _ Hk4) Hi); intros r' ?; by split.
Qed.

Lemma announced_ok n tr i items now : node_ok p n tr -> 0 <= i < PEER_SLOTS -> len items <= MAX_INV_ITEMS ->
  ensures (Schedule.announced (E:=E) magic n i items now) (keeps p n tr).
Proof.
  intros Hn Hi Hlen. unfold Schedule.announced. rewrite (proj2 (Z.leb_le _ MAX_INV_ITEMS)) by done. run.
  eapply ensures_bind.
  - apply (ensures_foldM _ (fun a => keeps p n tr (fst a))); [by apply keeps_refl|].
    intros [n1 unknown] item _ Hk. cbn in Hk.
    assert (Hone : forall hash, ensures (E:=E)
      match node_of (nd_tree n1) hash with
      | Some node => n1 ← Schedule.note_best_known n1 i node; Ok (n1, unknown)
      | None => Ok (n1, true)
      end (fun a => keeps p n tr (fst a))).
    { intros hash. destruct (node_of (nd_tree n1) hash) as [node|] eqn:Hnode; [|done].
      eapply ensures_bind; [apply (note_best_known_ok n1 tr i node (kp_ok _ _ _ _ Hk) Hi)|].
      - apply (wf_index _ _ (no_tree _ _ _ (kp_ok _ _ _ _ Hk))) in Hnode as (e & He & _). eauto.
      - intros n2 Hk2. run. cbn. by eapply kept_trans. }
    destruct item; (done || apply Hone).
  - intros [n1 unknown] Hk. cbn in Hk. destruct unknown; [|done].
    eapply ensures_bind; [apply (send_getheaders_ok n1 tr i _ _ (kp_ok _ _ _ _ Hk) Hi)|].
    + destruct (best_in_tree _ (no_tree _ _ _ (kp_ok _ _ _ _ Hk))) as [e He]. eauto.
    + intros [n2 sent] Hk2. cbn in Hk2. run. by eapply kept_trans.
Qed.
End safety.

(** ** Asking for blocks, receiving them, and the clocks *)

(** ** The stalling timeout *)

Lemma doubled_range d : STALLING_TIMEOUT_DEFAULT <= StallTimeout.doubled d <= STALLING_TIMEOUT_MAX.
Proof. unfold StallTimeout.doubled, STALLING_TIMEOUT_DEFAULT, STALLING_TIMEOUT_MAX, secs. lia. Qed.

Lemma decay_range d : STALLING_TIMEOUT_DEFAULT <= d <= STALLING_TIMEOUT_MAX ->
  STALLING_TIMEOUT_DEFAULT <= StallTimeout.decay d <= STALLING_TIMEOUT_MAX.
Proof.
  unfold StallTimeout.decay, STALLING_TIMEOUT_DEFAULT, STALLING_TIMEOUT_MAX, secs, saturating_mul32, DECAY_NUMERATOR, DECAY_DENOMINATOR.
  intros Hd. assert (Hm : 0 <= d / 1000000 <= 64000) by dlia.
  unfold try_from. rewrite (proj2 (Z.leb_le 0 (d / 1000000))), (proj2 (Z.leb_le (d / 1000000) u32_max)) by (unfold u32_max; lia).
  cbn [andb default from_option]. unfold id, u32_max. dlia.
Qed.

(** A change of one block in flight. *)
Lemma in_flight_describes s self m j : describes s self j -> describes s (Schedule.with_in_flight self m) j.
Proof. done. Qed.

Section blocks.
Context `{BC : BitcoinCrate} `{PP : P2p} {E : Type} (p : ChainParams) (interval : Z) (Hp : chain_ok p interval).
Context (magic : bytes).
Context (Hframe : forall m, request_message m -> HEADER_BYTES <= len (serialize_raw magic m) <= OUTBOX_MAX_BYTES).
Implicit Types (n : Node) (self : Schedule) (s : PeerSlots).

(** ** Asking for a block *)


Lemma owed_bound s self tr i c : books s self tr -> slots_wf s -> PeerSlots.connection s i = Some c ->
  len (rq_outstanding (cn_requests c)) <= Z.of_nat (owes (sc_in_flight self) i).
Proof.
  intros Hb Hs Hc. destruct (sw_connections _ Hs i c Hc) as [[_ [_ _ Hu] _] _].
  pose proof (owes_at_least (sc_in_flight self) i (owed_by c) Hu) as Ho.
  unfold len. unfold owed_by in Ho. rewrite length_fmap in Ho. apply Nat2Z.inj_le, Ho.
  apply Forall_forall. intros h Hh. by apply (bk_owed _ _ _ Hb i c).
Qed.

Lemma in_flight_sched self t h f : sched_ok self t -> sc_in_flight self !! h = None -> 0 <= if_peer f < PEER_SLOTS ->
  (owes (sc_in_flight self) (if_peer f) < 16)%nat -> Z.of_nat (size (sc_delivered self)) < MAX_UNSTORED_BLOCKS ->
  sched_ok (Schedule.with_in_flight self (<[h := f]> (sc_in_flight self))) t.
Proof.
  intros [S1 S2 S3 S4 S5 S6 S7] Hh Hf Hq Hd.
  assert (Hpeer : forall h' f', <[h := f]> (sc_in_flight self) !! h' = Some f' -> 0 <= if_peer f' < PEER_SLOTS).
  { intros h' f' [[-> <-]|[_ Hf']]%lookup_insert_Some; [done|eauto]. }
  assert (Hquota : forall i, (owes (<[h := f]> (sc_in_flight self)) i <= 16)%nat).
  { intros i. rewrite owes_insert by done. specialize (S4 i). case_decide; [subst; lia|lia]. }
  pose proof (size_bound _ Hpeer Hquota). split; cbn; try done.
  unfold MAX_DELIVERED_BLOCKS, MAX_UNSTORED_BLOCKS in *. lia.
Qed.

Lemma in_flight_books s self tr i c requests h r : books s self tr -> PeerSlots.connection s i = Some c ->
  sc_in_flight self !! h = None -> describes s self i -> r = mkInFlight i (if_requested_at r) ->
  req_hash <$> rq_outstanding requests = owed_by c ++ [h] ->
  books (PeerSlots.update s i (fun c => Connection.with_requests c requests))
    (Schedule.with_in_flight self (<[h := r]> (sc_in_flight self))) tr.
Proof.
  intros [B1 B2 B3 B4] Hc Hh Hd Hr Ho. set (s' := PeerSlots.update _ _ _). set (self' := Schedule.with_in_flight _ _).
  assert (Hconn : forall j, PeerSlots.connection s' j =
    if decide (j = i) then Some (Connection.with_requests c requests) else PeerSlots.connection s j).
  { intros j. unfold s'. rewrite connection_update, Hc. done. }
  assert (Hsince : forall j, cn_since <$> PeerSlots.connection s' j = cn_since <$> PeerSlots.connection s j).
  { intros j. rewrite Hconn. case_decide; [subst; by rewrite Hc|done]. }
  assert (Hfrom : forall j h', from_slot self j h' -> from_slot self' j h' /\ h' <> h).
  { intros j h' (f & Hf & Hp'). assert (h' <> h) by congruence. split; [|done].
    exists f. split; [|done]. cbn. by rewrite lookup_insert_ne by done. }
  assert (Hdesc : forall j, describes s self j -> describes s' self' j).
  { intros j (rj & Hrj & Hcj). exists rj. split; [done|]. by rewrite Hsince. }
  split; [| |done|].
  - intros j c' h'. rewrite Hconn. case_decide as Hj; [|intros Hc' Hh'; apply Hfrom; by eapply B1].
    intros [= <-]. unfold owed_by. cbn. rewrite Ho. subst j. intros [Hin| ->%list_elem_of_singleton]%elem_of_app.
    + apply Hfrom. by eapply B1.
    + exists r. cbn. rewrite lookup_insert_eq. split; [done|by rewrite Hr].
  - intros j h' Hin. destruct (B2 j h' Hin) as (Hf & c' & Hc' & Hn). destruct (Hfrom j h' Hf) as [Hf' Hne].
    split; [done|]. rewrite Hconn. case_decide as Hj; [|by exists c'].
    exists (Connection.with_requests c requests). split; [done|]. unfold owed_by. cbn. rewrite Ho. subst j.
    rewrite Hc in Hc'. injection Hc' as <-. rewrite elem_of_app, list_elem_of_singleton. tauto.
  - intros j c'. rewrite Hconn. case_decide as Hj; [subst; intros; by apply Hdesc|].
    intros Hc' Hor. apply Hdesc. by eapply B4.
Qed.

Lemma request_one_ok n tr i c now x e : node_ok p n tr -> describes (nd_slots n) (nd_schedule n) i ->
  PeerSlots.connection (nd_slots n) i = Some c -> get (t_entries (nd_tree n)) x = Some e ->
  e_status e = HeaderStatus.HeaderAccepted -> sc_in_flight (nd_schedule n) !! e_hash e = None ->
  (owes (sc_in_flight (nd_schedule n)) i < 16)%nat -> Z.of_nat (size (sc_delivered (nd_schedule n))) < MAX_UNSTORED_BLOCKS ->
  exists n', Schedule.request_one (E:=E) p i now n x = Ok (n', e_hash e) /\ node_ok p n' tr /\
    (forall j, describes (nd_slots n) (nd_schedule n) j -> describes (nd_slots n') (nd_schedule n') j) /\
    t_entries (nd_tree n') = t_entries (nd_tree n) /\
    nd_schedule n' = Schedule.with_in_flight (nd_schedule n)
      (<[e_hash e := mkInFlight i now]> (sc_in_flight (nd_schedule n))) /\
    exists c', PeerSlots.connection (nd_slots n') i = Some c'.
Proof.
  intros [N1 N2 N3 N4] Hd Hc Hx Hst Hfl Hq Hdel. pose proof (wf_shape _ _ N2) as Hs.
  unfold Schedule.request_one. rewrite (entry_Ok _ _ e Hx). run. rewrite Hst. run.
  assert (Hlive : terminal e = false) by (unfold terminal; by rewrite Hst).
  destruct (entry_cases _ Hs x e Hx) as [(-> & _)|(_ & q & qe0 & Hl)].
  { pose proof (proj2 (wf_genesis _ _ N2 0 e Hx) eq_refl). congruence. }
  destruct (context_of_ok (E:=E) p interval Hp (nd_tree n) N2 (t_period (nd_tree n)) x e q Hx Hlive (linked_parent _ _ _ _ _ Hl))
    as (period' & qe & ctx & Hctx & Hqe & Hafter). rewrite <-with_period_same in Hctx. rewrite Hctx. run.
  assert (Hh : ctx_height ctx = e_height e).
  { rewrite (after_height _ _ _ _ _ _ _ _ Hafter), (linked_height _ _ _ _ _ Hl).
    pose proof (linked_get _ _ _ _ _ Hl) as Hg. change (get (t_entries (nd_tree n)) q = Some qe) in Hqe. congruence. }
  rewrite (proj2 (Z.eqb_eq (ctx_height ctx) (e_height e))) by done. run. rewrite Hc. run.
  destruct (sw_connections _ N1 i c Hc) as [[Ci Cr Co] Cm].
  pose proof (Requests.record_ok (cn_requests c) (mkRequest (e_hash e) ctx now) Cr) as Hrec.
  destruct (Requests.record (cn_requests c) (mkRequest (e_hash e) ctx now)) as [requests b].
  destruct Hrec as (Hrok & Hrm & Hb & Hout). cbn [req_hash] in Hb.
  pose proof (owed_bound _ _ _ i c N4 N1 Hc) as Hob.
  assert (b = true) as ->.
  { apply Hb. rewrite Cm. split; [unfold MAX_BLOCKS_IN_FLIGHT; lia|].
    intros Hin. destruct (bk_owed _ _ _ N4 i c _ Hc Hin) as (f & Hf & _). congruence. }
  run. rewrite bool_decide_false by (intros [f Hf]; congruence). run.
  eexists. split; [done|]. pose proof (connection_range _ _ _ Hc) as Hi. rewrite (sw_len _ N1) in Hi.
  assert (Hsince : forall j, cn_since <$> PeerSlots.connection (PeerSlots.update (nd_slots n) i
      (fun c0 => Connection.with_requests c0 requests)) j = cn_since <$> PeerSlots.connection (nd_slots n) j).
  { intros j. rewrite connection_update, Hc. case_decide; [subst; by rewrite Hc|done]. }
  split; [split; cbn|split; [|split; [done|split; [done|]]]].
  - split; [by rewrite slots_len_update, (sw_len _ N1)|]. intros j c'. rewrite connection_update, Hc.
    case_decide; [|apply (sw_connections _ N1)]. intros [= <-]. subst j. cbn. split; [by split|congruence].
  - by apply with_period_wf.
  - eapply in_flight_sched; [|done|done|done|done]. destruct N3 as [S1 S2 S3 S4 S5 S6 S7]. by split.
  - eapply in_flight_books; try done. rewrite Hout, fmap_app. done.
  - intros j (rj & Hrj & Hcj). exists rj. split; [done|]. cbn. by rewrite Hsince.
  - cbn. rewrite connection_update, decide_True, Hc by done. cbn. eauto.
Qed.

(** ** Asking for blocks *)

(** Within [ask_for_blocks]: the books are in order, every row is current, and what has arrived
    leaves room. *)
Definition asking (tr : list (Z * bytes)) n : Prop :=
  node_ok p n tr /\ described n /\ Z.of_nat (size (sc_delivered (nd_schedule n))) < MAX_UNSTORED_BLOCKS.

Lemma same_hash t x y e f : tree_wf p t -> get (t_entries t) x = Some e -> get (t_entries t) y = Some f ->
  e_hash e = e_hash f -> x = y.
Proof.
  intros Hwf Hx Hy Hh. assert (H1 : t_index t !! e_hash e = Some x) by (apply (wf_index _ _ Hwf); eauto).
  assert (H2 : t_index t !! e_hash e = Some y) by (apply (wf_index _ _ Hwf); eauto). congruence.
Qed.

Definition askable n (x : Z) : Prop := exists e, get (t_entries (nd_tree n)) x = Some e /\
  e_status e = HeaderStatus.HeaderAccepted /\ sc_in_flight (nd_schedule n) !! e_hash e = None.

Lemma request_loop tr i now xs : NoDup xs -> forall n c items, asking tr n -> PeerSlots.connection (nd_slots n) i = Some c ->
  (owes (sc_in_flight (nd_schedule n)) i + length xs <= 16)%nat -> (forall x, x ∈ xs -> askable n x) ->
  ensures (foldM (fun '(n, items) node => '(n, hash) ← Schedule.request_one (E:=E) p i now n node;
      Ok (n, items ++ [InvWitnessBlock hash])) (n, items) xs)
    (fun r => asking tr (fst r) /\ len (snd r) = len items + len xs).
Proof.
  induction 1 as [|x xs Hx Hnd IH]; intros n c items (Hn & Hd & Hdel) Hc Hq Hask; cbn [foldM].
  { split; [done|]. change (len []) with 0. cbn. lia. }
  destruct (Hask x) as (e & He & Hst & Hfl); [apply list_elem_of_here|]. cbn [length] in Hq.
  pose proof (connection_range _ _ _ Hc) as Hi. rewrite (sw_len _ (no_slots _ _ _ Hn)) in Hi.
  destruct (request_one_ok n tr i c now x e Hn (Hd i Hi) Hc He Hst Hfl) as (n1 & -> & Hn1 & Hd1 & Ht1 & Hs1 & c1 & Hc1);
    [lia|done|]. run.
  eapply ensures_mono; [eapply (IH n1 c1); [|exact Hc1| |]|].
  - split; [done|]. split; [intros j Hj; by apply Hd1, Hd|]. by rewrite Hs1.
  - rewrite Hs1. cbn [sc_in_flight Schedule.with_in_flight]. rewrite owes_insert by done. cbn [if_peer]. case_decide; lia.
  - intros y Hy. destruct (Hask y) as (f & Hf & Hfst & Hff); [by apply list_elem_of_further|].
    exists f. rewrite Ht1, Hs1. split; [done|]. split; [done|]. cbn [sc_in_flight Schedule.with_in_flight].
    rewrite lookup_insert_ne; [done|]. intros Heq. apply Hx.
    by rewrite (same_hash (nd_tree n) x y e f (no_tree _ _ _ Hn) He Hf Heq).
  - cbn beta. intros [n2 items2] [Ha Hl]. cbn in Hl |- *. split; [done|]. rewrite Hl, len_app, !len_cons, len_nil. lia.
Qed.

Lemma request_ok n tr i c now xs : asking tr n -> PeerSlots.connection (nd_slots n) i = Some c ->
  NoDup xs -> xs <> [] -> (owes (sc_in_flight (nd_schedule n)) i + length xs <= 16)%nat ->
  (forall x, x ∈ xs -> askable n x) ->
  ensures (Schedule.request (E:=E) magic p n i xs now) (asking tr).
Proof.
  intros Ha Hc Hnd Hne Hq Hask. unfold Schedule.request. pose proof (connection_range _ _ _ Hc) as Hi.
  rewrite (sw_len _ (no_slots _ _ _ (proj1 Ha))) in Hi.
  destruct (Z.eqb_spec (len xs) 0) as [H0|]; [by destruct xs; [|rewrite len_cons in H0; pose proof (len_nonneg xs); lia]|].
  rewrite (proj2 (Z.leb_le (len xs) MAX_BLOCKS_IN_FLIGHT)) by (unfold len, MAX_BLOCKS_IN_FLIGHT; lia). run.
  eapply ensures_bind; [by eapply (request_loop tr i now xs Hnd n c [])|].
  intros [n1 items] [(Hn & Hd & Hdel) Hlen]. cbn in Hn, Hd, Hdel, Hlen. change (len []) with 0 in Hlen.
  pose proof (no_sched _ _ _ Hn) as Hs. pose proof (so_quota _ _ Hs i) as Hq1.
  rewrite (proj2 (Z.leb_le (Schedule.in_flight_for (nd_schedule n1) i) MAX_BLOCKS_IN_FLIGHT)).
  2:{ change (Schedule.in_flight_for (nd_schedule n1) i) with (Z.of_nat (owes (sc_in_flight (nd_schedule n1)) i)).
      unfold MAX_BLOCKS_IN_FLIGHT. lia. }
  run. rewrite (proj2 (Z.leb_le (Schedule.blocks_in_flight (nd_schedule n1)) (PEER_SLOTS * MAX_BLOCKS_IN_FLIGHT))).
  2:{ apply size_bound; [apply (so_peer _ _ Hs)|apply (so_quota _ _ Hs)]. }
  run. set (n2 := with_schedule n1 _).
  assert (Hn2 : node_ok p n2 tr).
  { destruct Hn as [N1 N2 [S1 S2 S3 S4 S5 S6 S7] [B1 B2 B3 B4]]. by split; [|..|split]. }
  set (f := fun r : PeerDownload => _).
  destruct (on_row_described (E:=E) p n2 tr i f Hn2 Hi (Hd i Hi)) as (r & Hr & Hkn & ->). run.
  assert (Hk : keeps p n2 tr (with_schedule n2 (Schedule.set_row (nd_schedule n2) i (f r)))).
  { eapply keeps_set_row; [done|exact Hr| |]; unfold f; by destruct (pd_downloading_since r). }
  eapply ensures_bind; [apply (send_ok magic Hframe); [apply (no_slots _ _ _ (kp_ok _ _ _ _ Hk))|]|].
  { cbn. rewrite Hlen. unfold len, MAX_BLOCKS_IN_FLIGHT. lia. }
  intros slots Hsl. run. pose proof (keeps_slots p _ tr slots (kp_ok _ _ _ _ Hk) Hsl) as Hk2.
  split; [apply Hk2|]. split; [|done]. eapply keeps_described; [exact Hk2|]. by eapply keeps_described.
Qed.

Lemma ask_for_blocks_ok n tr now : node_ok p n tr -> described n ->
  ensures (Schedule.ask_for_blocks (E:=E) magic p n now) (fun n' => node_ok p n' tr /\ described n').
Proof.
  intros Hn Hd. unfold Schedule.ask_for_blocks.
  destruct (Z.leb_spec MAX_UNSTORED_BLOCKS (Z.of_nat (size (sc_delivered (nd_schedule n))))) as [|Hdel]; [done|].
  apply (ensures_mono _ (asking tr)); [|by intros n' (? & ? & _)].
  generalize (preferred_download_peers (nd_slots n)). intros preferred.
  apply slots_loop; [done|by split|]. clear n Hn Hd Hdel. intros n i Hi Ha. pose proof Ha as (Hn & Hd & Hdel).
  rewrite from_position_ok by done. run. destruct (PeerSlots.connection (nd_slots n) i) as [c|] eqn:Hc; [|done].
  destruct (_ || _); [done|]. change (Schedule.in_flight_for (nd_schedule n) i) with (Z.of_nat (owes (sc_in_flight (nd_schedule n)) i)).
  set (outstanding := Z.of_nat (owes (sc_in_flight (nd_schedule n)) i)).
  destruct (Z.leb_spec (MAX_BLOCKS_IN_FLIGHT - outstanding) 0) as [|Hw]; [done|].
  destruct (Hd i Hi) as (r & Hr & Hrc). unfold Schedule.peer_row. rewrite Hr. run.
  set (limited := is_limited _). set (w := mkWindow _ _ _ _). set (want := MAX_BLOCKS_IN_FLIGHT - outstanding) in *.
  pose proof (so_known _ _ (no_sched _ _ _ Hn) i r Hr) as Hkn.
  assert (Hkw : known_nodes w r) by (split; [apply (wf_tip _ _ (no_tree _ _ _ Hn))|apply Hkn|apply Hkn]).
  assert (Hwt : 0 < want <= MAX_BLOCKS_IN_FLIGHT) by (unfold want, outstanding in *; lia).
  destruct (next_blocks_ok (E:=E) w (wf_shape _ _ (no_tree _ _ _ Hn)) r i want limited Hwt Hkw)
    as (r' & walk & -> & Hk' & Hc' & _ & Hfound & Hstall). run.
  set (n1 := with_schedule n (Schedule.set_row (nd_schedule n) i r')).
  assert (Hk1 : keeps p n tr n1).
  { eapply keeps_set_row; [done|exact Hr|split; [apply Hk'|apply Hk']|done]. }
  assert (Hblocks : NoDup (walk_blocks walk) /\ len (walk_blocks walk) <= want /\
    forall x, x ∈ walk_blocks walk -> askable n x).
  { destruct (pd_best_known r) as [best|].
    - destruct (walk_blocks_fresh (E:=E) w (wf_shape _ _ (no_tree _ _ _ Hn)) p r want limited best (walk_blocks walk) (no_tree _ _ _ Hn)
        ltac:(lia) Hfound) as (? & ? & Hx). split; [done|]. split; [done|]. intros x Hin.
      destruct (Hx x Hin) as (e & He & Hst & Hfl & _). by exists e.
    - rewrite Hfound. split; [constructor|]. split; [unfold len; cbn; lia|]. by intros x ?%not_elem_of_nil. }
  destruct Hblocks as (Hnd & Hlen & Hask).
  apply (ensures_bind _ _ (fun n2 => asking tr n2 /\ nd_slots n2 = nd_slots n /\ nd_tree n2 = nd_tree n /\
    sc_in_flight (nd_schedule n2) = sc_in_flight (nd_schedule n))).
  - assert (Hsame : asking tr n1) by (split; [apply Hk1|split; [by eapply keeps_described|done]]).
    destruct (walk_staller walk) as [staller|] eqn:Hst; [|done]. destruct (outstanding =? 0); [|done].
    destruct (Hstall staller eq_refl) as (_ & _ & h & f & Hf & Hfp).
    assert (Hsi : 0 <= staller < PEER_SLOTS) by (rewrite <-Hfp; apply (so_peer _ _ (no_sched _ _ _ Hn) h f Hf)).
    destruct Hsame as (Hn1 & Hd1 & _).
    destruct (on_row_described (E:=E) p n1 tr staller (fun r => match pd_stalling_since r with
      | None => PeerDownload.with_stalling r (Some now) | Some _ => r end) Hn1 Hsi (Hd1 staller Hsi)) as (rs & Hrs & Hks & ->).
    assert (Hk2 : keeps p n1 tr (with_schedule n1 (Schedule.set_row (nd_schedule n1) staller
      (match pd_stalling_since rs with None => PeerDownload.with_stalling rs (Some now) | Some _ => rs end)))).
    { eapply keeps_set_row; [done|exact Hrs| |]; by destruct (pd_stalling_since rs). }
    cbn [ensures]. split; [|done]. split; [apply Hk2|]. split; [by eapply keeps_described|done].
  - intros n2 (Ha2 & Hs2 & Ht2 & Hf2). destruct (Z.eqb_spec (len (walk_blocks walk)) 0) as [|Hne]; [done|].
    eapply (request_ok n2 tr i c); [done|by rewrite Hs2|done|by intros Hnil; rewrite Hnil in Hne| |].
    + rewrite Hf2. unfold want, outstanding, len, MAX_BLOCKS_IN_FLIGHT in *. lia.
    + intros x Hx. destruct (Hask x Hx) as (e & He & Hst & Hfl). exists e. by rewrite Ht2, Hf2.
Qed.
End blocks.

(** ** A block received, the clocks, and the whole pass *)

Section tick.
Context `{BC : BitcoinCrate} `{PP : P2p} {E : Type} (p : ChainParams) (interval : Z) (Hp : chain_ok p interval).
Context (magic : bytes).
Context (Hframe : forall m, request_message m -> HEADER_BYTES <= len (serialize_raw magic m) <= OUTBOX_MAX_BYTES).
Implicit Types (n : Node) (self : Schedule) (s : PeerSlots).

(** ** A block arrives *)

Lemma delivered_books s self tr i h self' : books s self ((i, h) :: tr) ->
  sc_in_flight self' = delete h (sc_in_flight self) -> sc_peers self' = sc_peers self -> books s self' tr.
Proof.
  intros [B1 B2 B3 B4] Hf Hr. cbn [fmap list_fmap snd] in B3. apply NoDup_cons in B3 as [Hh B3].
  destruct (B2 i h (list_elem_of_here _ _)) as ((f & Hfh & Hfi) & c0 & Hc0 & Hno).
  assert (Hfrom : forall j h', h' <> h -> from_slot self j h' -> from_slot self' j h').
  { intros j h' Hne (g & Hg & Hgj). exists g. split; [|done]. by rewrite Hf, lookup_delete_ne. }
  assert (Hdesc : forall j, describes s self j -> describes s self' j) by (intros j; unfold describes; by rewrite Hr).
  split; [| |done|].
  - intros j c h' Hc Hin. pose proof (B1 j c h' Hc Hin) as Hfr. apply Hfrom; [|done]. intros ->.
    destruct Hfr as (g & Hg & Hgj). assert (j = i) as -> by congruence.
    rewrite Hc0 in Hc. injection Hc as <-. done.
  - intros j h' Hin. destruct (B2 j h') as (Hfr & c & Hc & Hn); [by apply list_elem_of_further|].
    split; [|by exists c]. apply Hfrom; [|done]. intros ->. apply Hh. apply list_elem_of_fmap. by exists (j, h).
  - intros j c Hc Hor. apply Hdesc, (B4 j c Hc). destruct Hor as [|[h' Hh']]; [by left|right].
    exists h'. by apply list_elem_of_further.
Qed.

Lemma block_received_ok n tr i h now : node_ok p n ((i, h) :: tr) ->
  ensures (Schedule.block_received (E:=E) n i h now) (fun n' => node_ok p n' tr /\ nd_tree n' = nd_tree n).
Proof.
  intros [N1 N2 N3 N4]. destruct (bk_transit _ _ _ N4 i h (list_elem_of_here _ _)) as ((f & Hf & Hfi) & c & Hc & _).
  pose proof (connection_range _ _ _ Hc) as Hi. rewrite (sw_len _ N1) in Hi.
  unfold Schedule.block_received. rewrite Hf, Hfi, Z.eqb_refl. run.
  pose proof (map_size_delete_Some h (sc_in_flight (nd_schedule n)) (mk_is_Some _ _ Hf)) as Hsz.
  pose proof (so_room _ _ N3) as Hroom.
  assert (Hpos : (0 < size (sc_in_flight (nd_schedule n)))%nat).
  { destruct (size (sc_in_flight (nd_schedule n))) eqn:Hz; [|lia]. apply map_size_empty_inv in Hz. rewrite Hz in Hf.
    by rewrite lookup_empty in Hf. }
  assert (Hdel : (size ({[h]} ∪ sc_delivered (nd_schedule n)) <= S (size (sc_delivered (nd_schedule n))))%nat).
  { transitivity (size ({[h]} : gset bytes) + size (sc_delivered (nd_schedule n)))%nat; [|by rewrite size_singleton].
    rewrite size_union_alt. pose proof (subseteq_size (sc_delivered (nd_schedule n) ∖ {[h]}) (sc_delivered (nd_schedule n))
      (subseteq_difference_l _ _ _ (reflexivity _))). lia. }
  cbn [sc_delivered Schedule.with_delivered Schedule.with_in_flight].
  rewrite (proj2 (Z.leb_le _ MAX_DELIVERED_BLOCKS)) by lia. run.
  set (self1 := Schedule.with_stalling _ _). set (n1 := with_schedule n self1).
  assert (Hn1 : node_ok p n1 tr).
  { split; cbn; [done|done| |by eapply delivered_books].
    destruct N3 as [S1 S2 S3 S4 S5 S6 S7]. split; cbn; try done.
    - intros h' g [_ Hg]%lookup_delete_Some. eauto.
    - intros j. specialize (S4 j). rewrite (owes_delete _ h f j Hf) in S4. lia.
    - by apply decay_range.
    - rewrite Hsz. lia. }
  destruct (row_ok (E:=E) p n1 tr i Hn1 Hi) as (self2 & r & Hrow & Hk & Hr & Hkn & _).
  change (nd_slots n) with (nd_slots n1). change self1 with (nd_schedule n1). rewrite Hrow. run. cbn [ensures].
  assert (Hk2 : forall r', known (nd_tree n) r' -> pd_connection r' = pd_connection r ->
    node_ok p (with_schedule n (Schedule.set_row self2 i r')) tr /\ nd_tree n = nd_tree n).
  { intros r' Hkr Hcr. split; [|done].
    apply (kp_ok _ _ _ _ (keeps_set_row p (with_schedule n1 self2) tr i r r' (kp_ok _ _ _ _ Hk) Hr Hkr Hcr)). }
  apply Hk2; (destruct (Schedule.oldest_request _ i); [destruct (_ <=? _)|]); done.
Qed.

(** ** The clocks *)

Lemma peers_downloading_ok self t : sched_ok self t -> exists count, Schedule.peers_downloading (E:=E) self = Ok count.
Proof.
  intros Hs. unfold Schedule.peers_downloading.
  assert (Hl : forall l, Forall (fun held => 0 <= if_peer held < PEER_SLOTS) l -> forall seen count, len seen = PEER_SLOTS ->
    exists r, foldM (E:=E) (fun '(seen, count) held => flag ← expect (get seen (if_peer held));
      Ok (if (flag : bool) then (seen, count) else (<[Z.to_nat (if_peer held) := true]> seen, saturating_add count 1)))
      (seen, count) l = Ok r).
  { induction 1 as [|held l Hh HF IH]; intros seen count Hlen; cbn [foldM]; [eauto|].
    destruct (get_in_range seen (if_peer held)) as [flag Hg]; [by rewrite Hlen|]. rewrite Hg. run.
    destruct flag; apply IH; [done|by rewrite len_insert]. }
  destruct (Hl (Schedule.held_blocks self)) with (seen := repeat false (Z.to_nat PEER_SLOTS)) (count := 0) as [[seen count] ->];
    [|by vm_compute|run; eauto].
  apply Forall_forall. intros held Hin. unfold Schedule.held_blocks in Hin.
  apply list_elem_of_fmap in Hin as ([h f] & -> & Hin). apply elem_of_map_to_list in Hin. by eapply (so_peer _ _ Hs).
Qed.

Lemma stalling_ok n tr d : node_ok p n tr -> STALLING_TIMEOUT_DEFAULT <= d <= STALLING_TIMEOUT_MAX ->
  keeps p n tr (with_schedule n (Schedule.with_stalling (nd_schedule n) d)).
Proof.
  intros [N1 N2 [S1 S2 S3 S4 S5 S6 S7] [B1 B2 B3 B4]] Hd. split; [|apply slots_like_refl|done|done].
  by split; [|..|split].
Qed.

Lemma check_headers_timeout_ok n tr i r preferred now : node_ok p n tr -> 0 <= i < PEER_SLOTS ->
  ensures (Schedule.check_headers_timeout (E:=E) n i r preferred now) (keeps p n tr).
Proof.
  intros Hn Hi. unfold Schedule.check_headers_timeout. destruct (pd_sync_deadline r) as [deadline|]; [|by apply keeps_refl].
  destruct (_ <=? _); [by apply keeps_refl|]. destruct (_ =? 0); [|by apply disconnect_ok].
  apply on_row_ok; [done|done|]. intros r' ?. by split.
Qed.

Lemma check_timeouts_ok n tr now : node_ok p n tr -> ensures (Schedule.check_timeouts (E:=E) n now) (keeps p n tr).
Proof.
  intros Hn. unfold Schedule.check_timeouts. pose proof (no_sched _ _ _ Hn) as Hs.
  destruct (peers_downloading_ok _ _ Hs) as [count ->]. run. unfold StallTimeout.get.
  destruct (so_stalling _ _ Hs) as [Hlo Hhi].
  rewrite (proj2 (Z.leb_le STALLING_TIMEOUT_DEFAULT (sc_stalling (nd_schedule n)))),
    (proj2 (Z.leb_le (sc_stalling (nd_schedule n)) STALLING_TIMEOUT_MAX)) by done. run.
  apply slots_loop; [done|by apply keeps_refl|]. intros n1 i Hi Hk. pose proof (kp_ok _ _ _ _ Hk) as Hn1.
  rewrite from_position_ok by done. run. destruct (PeerSlots.connection (nd_slots n1) i) as [c|]; [|done].
  pose proof (no_sched _ _ _ Hn1) as Hs1.
  destruct (get_in_range (sc_peers (nd_schedule n1)) i) as [r Hr]; [by rewrite (so_len _ _ Hs1)|].
  unfold Schedule.peer_row. rewrite Hr. run. apply (ensures_keeps p n n1 tr _ id Hk).
  destruct (match pd_stalling_since r with Some _ => _ | None => false end).
  - pose proof (disconnect_ok p n1 tr i BlockStalling Hn1) as Hk1.
    pose proof (stalling_ok _ tr (StallTimeout.doubled (sc_stalling (nd_schedule (Schedule.disconnect n1 i BlockStalling))))
      (kp_ok _ _ _ _ Hk1) (doubled_range _)) as Hk2.
    eapply (ensures_keeps p n1 _ tr _ id (kept_trans _ _ _ _ _ Hk1 Hk2)).
    apply on_row_ok; [apply Hk2|done|]. intros r' ?. by split.
  - assert (Hlate : ensures (E:=E) (match pd_downloading_since r with
                 | Some since =>
                     let others := saturating_sub count (if Schedule.is_downloading (nd_schedule n1) i then 1 else 0) in
                     timeout ← download_timeout (sc_spacing (nd_schedule n1)) others;
                     Ok (timeout <? duration_since now since)
                 | None => Ok false
                 end) (fun _ => True)).
    { destruct (pd_downloading_since r); [|done]. unfold download_timeout. destruct (so_spacing _ _ Hs1).
      destruct (Z.eqb_spec (sc_spacing (nd_schedule n1)) 0); [lia|]. by run. }
    eapply ensures_bind; [exact Hlate|]. intros late _. destruct late; [by apply disconnect_ok|].
    by apply check_headers_timeout_ok.
Qed.

Lemma least_useful_ok n tr now : node_ok p n tr ->
  ensures (Schedule.least_useful_outbound (E:=E) n now) (fun _ => True).
Proof.
  intros Hn. unfold Schedule.least_useful_outbound.
  apply (ensures_bind _ _ (fun _ => True)); [|done].
  apply slots_loop; [done|done|]. intros worst i Hi _. rewrite from_position_ok by done. run.
  destruct (negb _); [done|]. destruct (PeerSlots.connection _ i); [|done]. destruct (_ <? _); [done|].
  destruct (get (sc_peers (nd_schedule n)) i) as [r|] eqn:Hr; [|done].
  destruct (pd_best_known r) as [k|] eqn:Hk; run; [|done].
  destruct (proj1 (so_known _ _ (no_sched _ _ _ Hn) i r Hr) k Hk) as [e He]. rewrite (entry_Ok _ _ e He). by run.
Qed.

Lemma check_stale_tip_ok n tr now : node_ok p n tr -> ensures (Schedule.check_stale_tip (E:=E) n now) (keeps p n tr).
Proof.
  intros Hn. unfold Schedule.check_stale_tip. destruct (_ <? _); [by apply keeps_refl|].
  set (n1 := with_schedule n _). assert (Hk : keeps p n tr n1).
  { destruct Hn as [N1 N2 [S1 S2 S3 S4 S5 S6 S7] [B1 B2 B3 B4]]. split; [|apply slots_like_refl|done|done].
    by split; [|..|split]. }
  destruct (negb _); [done|]. unfold duration_times. destruct (so_spacing _ _ (no_sched _ _ _ Hn)) as [_ Hsp].
  cbn [sc_spacing Schedule.with_stale_checked]. rewrite (proj2 (Z.leb_le _ duration_max)) by done. run.
  destruct (_ <? _); [done|]. destruct (_ <? _); [done|].
  eapply ensures_bind; [apply (least_useful_ok n1 tr now), Hk|]. intros [i|] _; [|done].
  destruct (PeerSlots.connection _ i); [|done]. eapply kept_trans; [exact Hk|]. apply disconnect_ok, Hk.
Qed.

(** ** One pass *)

Lemma note_tip_ok n tr now : node_ok p n tr ->
  ensures (Schedule.note_tip (E:=E) (nd_tree n) now (nd_schedule n)) (fun self => keeps p n tr (with_schedule n self)).
Proof.
  intros Hn. unfold Schedule.note_tip. destruct (wf_tip _ _ (no_tree _ _ _ Hn)) as [tip Ht].
  rewrite (entry_Ok _ _ tip Ht). run. destruct (_ <? _).
  - destruct Hn as [N1 N2 [S1 S2 S3 S4 S5 S6 S7] [B1 B2 B3 B4]]. split; [|apply slots_like_refl|done|done].
    by split; [|..|split].
  - destruct n. by apply keeps_refl.
Qed.

Lemma update_ibd_ok n tr time : node_ok p n tr ->
  ensures (Schedule.update_initial_block_download (E:=E) (nd_tree n) time (nd_schedule n))
    (fun self => keeps p n tr (with_schedule n self)).
Proof.
  intros Hn. assert (Hsame : keeps p n tr (with_schedule n (nd_schedule n))) by (destruct n; by apply keeps_refl).
  unfold Schedule.update_initial_block_download. destruct (negb _); [done|].
  destruct (wf_tip _ _ (no_tree _ _ _ Hn)) as [tip Ht]. rewrite (entry_Ok _ _ tip Ht). run.
  destruct (_ <? _); [done|]. destruct (_ <? _); [done|].
  destruct Hn as [N1 N2 [S1 S2 S3 S4 S5 S6 S7] [B1 B2 B3 B4]]. split; [|apply slots_like_refl|done|done].
  by split; [|..|split].
Qed.

Lemma tick_ok n tr clock : node_ok p n tr ->
  ensures (Schedule.tick (E:=E) magic p n clock) (fun n' => node_ok p n' tr).
Proof.
  intros Hn. unfold Schedule.tick. eapply ensures_bind; [by apply (reconcile_ok p n tr)|].
  intros self1 [Hk1 Hd1]. set (n1 := with_schedule n self1) in *.
  eapply ensures_bind; [apply (note_tip_ok n1 tr), Hk1|]. intros self2 Hk2. set (n2 := with_schedule n1 self2) in *.
  eapply ensures_bind; [apply (update_ibd_ok n2 tr), Hk2|]. intros self3 Hk3.
  change (with_schedule n self3) with (with_schedule n2 self3). set (n3 := with_schedule n2 self3) in *.
  eapply ensures_bind; [apply (ask_for_headers_ok p magic Hframe n3 tr), Hk3|]. intros n4 Hk4.
  eapply ensures_bind; [apply (ask_for_blocks_ok p interval Hp magic Hframe n4 tr); [apply Hk4|]|].
  { eapply keeps_described; [exact Hk4|]. eapply keeps_described; [exact Hk3|]. eapply keeps_described; [exact Hk2|exact Hd1]. }
  intros n5 [Hn5 _]. eapply ensures_bind; [by apply (check_timeouts_ok n5 tr)|]. intros n6 Hk6.
  eapply ensures_mono; [apply (check_stale_tip_ok n6 tr), Hk6|]. intros n7 Hk7. apply Hk7.
Qed.
End tick.
