(* ===== verification/Chain.v ===== *)
(** * Chain: the chain thread ([chain/mod.rs]), and what it publishes ([runtime/snapshot.rs])

    One turn of the loop takes at most one message from the queue, runs the schedule, looks at the
    plan for validation and commits the index.  The disk is a parameter of a turn: whether it
    took what was written to it. *)
From S2P Require Import Prelude Uint Target Bitcoin Flags Params Header Verify Tx Signet Block Coins SkipList Queue Tree Reorg Message Wire PeerQueues Channel Slots Locator StoreReader Journal Window Schedule.

Definition CHAIN_TICK : Z := 250000000.
Definition COMMIT_BATCH : Z := 1024.
Definition COMMIT_INTERVAL : Z := secs 60.

(** [node_time], of a clock that reads [unix] nanoseconds after the epoch. *)
Definition node_time (unix : Z) : Z := Z.min u32_max (if unix <? 0 then 0 else unix / secs 1).

Record StatusSnapshot := mkStatus {
  st_chain : Chain;
  st_tip : option bytes;
  st_tip_height : Z;
  st_header_height : Z;
  st_header_tip : option bytes;
  st_header_work : Work;
  st_last_reorg_depth : Z;
  st_blocks_in_flight : Z;
  st_peers : Z;
  st_initial_block_download : bool;
  st_queued_messages : Z;
  st_queued_bytes : Z;
}.
Definition starting (chain : Chain) : StatusSnapshot :=
  mkStatus chain None Height.GENESIS Height.GENESIS None WORK_ZERO 0 0 0 true 0 0.

(** The chain thread's own state and what it shares: the queue to it, the room for validation's
    jobs, the published status and whether a shutdown has begun. *)
Record ChainThread := mkChainThread {
  ct_node : Node;
  ct_journal : Journal.Journal;
  ct_committed : Z;
  ct_received : Z;
  ct_reorg_depth : Z;
  ct_to_chain : PeerToChain PeerMessage;
  ct_to_validation : ChainToValidation;
  ct_status : StatusSnapshot;
  ct_shutdown : bool;
}.

Section chain.
Context {E : Type} `{Hashes} `{Encoding} `{BitcoinCrate} `{P2p} `{Sizes} `{Journal.HeaderCodec}.
Context (magic : bytes) (params : ChainParams).

(** The loop of [headers_received]. *)
Fixpoint headers_loop (n : Node) (peer : Z) (headers : list Header) (time : Z) (received : HeadersReceived)
    : outcome E (Node * HeadersReceived) :=
  match headers with
  | [] => Ok (n, received)
  | header :: headers =>
      '(tree, answer) ← accept (nd_tree n) header params time;
      let n := with_tree n tree in
      match answer with
      | inr accepted =>
          headers_loop n peer headers time
            (mkHeadersReceived (hr_count received) (Some (accepted_node accepted)) (hr_unconnecting received))
      | inl error =>
          let unconnecting := negb (bool_decide (is_Some (hr_last received)))
                              && match error with AcceptError.UnknownParent _ => true | _ => false end in
          let n := match AcceptError.peer_fault error with
                   | Some fault => Schedule.disconnect n peer (InvalidHeader fault)
                   | None => n
                   end in
          Ok (n, mkHeadersReceived (hr_count received) (hr_last received) unconnecting)
      end
  end.

Definition headers_received (n : Node) (peer : Z) (headers : list Header) (time : Z)
    : outcome E (Node * HeadersReceived) :=
  assert_ (len headers <=? MAX_HEADERS_ITEMS);;
  headers_loop n peer headers time (mkHeadersReceived (len headers) None false).

Definition record (n : Node) (message : PeerMessage) (clock : Clock) : outcome E Node :=
  let peer := pm_peer message in
  match pm_message message with
  | MHeaders headers =>
      '(n, received) ← headers_received n peer headers (ck_time clock);
      Schedule.headers_answered magic n peer received clock
  | MBlock block => Schedule.block_received n peer (block_hash (blk_header block)) (ck_now clock)
  | MInv items => Schedule.announced magic n peer items (ck_now clock)
  | _ => Ok n
  end.

(** The depth of the reorg, and the tree whose scratch space the plan used. *)
Definition plan (tree : HeaderTree) (to_validation : ChainToValidation) : outcome E (HeaderTree * Z) :=
  let room := ChainToValidation.room to_validation in
  if room =? 0 then Ok (tree, 0)
  else
    '(tree, plan) ← reorg tree params room;
    Ok (tree, if reorg_is_empty plan then 0 else r_depth plan).

(** [ChainStore::commit]; [disk] is whether the disk took it. *)
Definition store_commit (journal : Journal.Journal) (tree : HeaderTree) (disk : bool)
    : outcome E (option (Journal.Journal * HeaderTree * Z)) :=
  if len (t_dirty tree) =? 0 then Ok (Some (journal, tree, 0))
  else if negb disk then Ok None
  else
    '(journal, written) ← Journal.append journal (t_dirty tree) tree;
    tree ← clear_dirty tree;
    Ok (Some (journal, tree, written)).

Definition commit (c : ChainThread) (now : Z) (disk : bool) : outcome E ChainThread :=
  let tree := nd_tree (ct_node c) in
  let dirty := len (t_dirty tree) in
  if (dirty =? 0) || ((dirty <? COMMIT_BATCH) && (duration_since now (ct_committed c) <? COMMIT_INTERVAL)) then Ok c
  else
    done ← store_commit (ct_journal c) tree disk;
    match done with
    | Some (journal, tree, _) =>
        Ok (mkChainThread (with_tree (ct_node c) tree) journal now (ct_received c) (ct_reorg_depth c)
              (ct_to_chain c) (ct_to_validation c) (ct_status c) (ct_shutdown c))
    | None =>
        Ok (mkChainThread (ct_node c) (ct_journal c) (ct_committed c) (ct_received c) (ct_reorg_depth c)
              (ct_to_chain c) (ct_to_validation c) (ct_status c) true)
    end.

Definition publish (c : ChainThread) : outcome E ChainThread :=
  let n := ct_node c in
  tip ← entry (nd_tree n) (t_tip (nd_tree n));
  best ← entry (nd_tree n) (t_best_header (nd_tree n));
  let status := mkStatus (st_chain (ct_status c)) (Some (e_hash tip)) (e_height tip) (e_height best) (Some (e_hash best))
    (e_chainwork best) (ct_reorg_depth c) (Schedule.blocks_in_flight (nd_schedule n))
    (saturating_add (PeerSlots.occupied (nd_slots n) Outbound) (PeerSlots.occupied (nd_slots n) Inbound))
    (Schedule.is_initial_block_download (nd_schedule n))
    (PeerToChain.items_waiting (ct_to_chain c)) (PeerToChain.bytes_waiting (ct_to_chain c)) in
  Ok (mkChainThread n (ct_journal c) (ct_committed c) (ct_received c) (ct_reorg_depth c)
        (ct_to_chain c) (ct_to_validation c) status (ct_shutdown c)).

Definition with_node (c : ChainThread) (n : Node) : ChainThread :=
  mkChainThread n (ct_journal c) (ct_committed c) (ct_received c) (ct_reorg_depth c)
    (ct_to_chain c) (ct_to_validation c) (ct_status c) (ct_shutdown c).

(** One pass of the [while] loop of [run], given what its [recv] took. *)
Definition turn (c : ChainThread) (clock : Clock) (disk : bool) : outcome E (ChainThread * bool) :=
  let (queue, got) := PeerToChain.recv byte_len (ct_to_chain c) in
  let c := mkChainThread (ct_node c) (ct_journal c) (ct_committed c) (ct_received c) (ct_reorg_depth c)
             queue (ct_to_validation c) (ct_status c) (ct_shutdown c) in
  match got with
  | ReceivedClosed => Ok (c, false)
  | _ =>
      c ← match got with
          | Item message =>
              n ← record (ct_node c) message clock;
              Ok (mkChainThread n (ct_journal c) (ct_committed c) (saturating_add (ct_received c) 1) (ct_reorg_depth c)
                    (ct_to_chain c) (ct_to_validation c) (ct_status c) (ct_shutdown c))
          | _ => Ok c
          end;
      n ← Schedule.tick magic params (ct_node c) clock;
      '(tree, depth) ← plan (nd_tree n) (ct_to_validation c);
      let c := mkChainThread (with_tree n tree) (ct_journal c) (ct_committed c) (ct_received c) depth
                 (ct_to_chain c) (ct_to_validation c) (ct_status c) (ct_shutdown c) in
      c ← commit c (ck_now clock) disk;
      c ← publish c;
      Ok (c, true)
  end.

(** [flush]: the last commit; what the disk refuses is only reported. *)
Definition flush (c : ChainThread) (disk : bool) : outcome E ChainThread :=
  done ← store_commit (ct_journal c) (nd_tree (ct_node c)) disk;
  match done with
  | Some (journal, tree, _) =>
      Ok (mkChainThread (with_tree (ct_node c) tree) journal (ct_committed c) (ct_received c) (ct_reorg_depth c)
            (ct_to_chain c) (ct_to_validation c) (ct_status c) (ct_shutdown c))
  | None => Ok c
  end.

(** After the loop: [flush], and the queue to validation closes. *)
Definition stop (c : ChainThread) (disk : bool) : outcome E ChainThread :=
  c ← flush c disk;
  Ok (mkChainThread (ct_node c) (ct_journal c) (ct_committed c) (ct_received c) (ct_reorg_depth c)
        (ct_to_chain c) (ChainToValidation.close (ct_to_validation c)) (ct_status c) (ct_shutdown c)).

(** What [run] starts from. *)
Definition start (minimum_chain_work : bytes) (slots : PeerSlots) (journal : Journal.Journal) (tree : HeaderTree) (now : Z)
    (to_chain : PeerToChain PeerMessage) (to_validation : ChainToValidation) : outcome E ChainThread :=
  publish (mkChainThread (mkNode slots (Schedule.new params minimum_chain_work now) tree) journal now 0 0
    to_chain to_validation (starting (chain params)) false).
End chain.
