(* ===== verification/Net.v ===== *)
(** * Net: the chain thread, its readers and the messages between them

    The steps of the threads that share the table of connections, as the events of one run:
    connections come, finish their handshake and end; a reader takes a message off its peer and
    hands it over when the queue lets it; the chain thread takes a message, records it and runs
    its schedule.  [PeerMessage]s in hand are those a blocked reader is waiting to send. *)
From S2P Require Import Prelude Uint Target Bitcoin Flags Params Header Verify Tx Signet Block Coins SkipList Queue Tree TreeProofs TreeInv TreeOps TreeLife Reorg Message Wire PeerQueues Channel Slots Locator StoreReader Journal Window Schedule ScheduleProofs ScheduleSafety Chain.

Record Net := mkNet { nt_node : Node; nt_in_hand : list PeerMessage; nt_queue : list PeerMessage }.

Inductive event :=
| Accepts (address : SocketAddr) (now : Z)
| Dials (address : SocketAddr) (now : Z)
| Handshakes (index services : Z)
| Takes (index : Z) (message : NetworkMessage) (wire_len : Z)
| Forwards (index : Z)
| Ends (index : Z)
| Turn (clock : Clock).

Section net.
Context {E : Type} `{BitcoinCrate} `{P2p} `{Sizes}.
Context (magic : bytes) (params : ChainParams).
Implicit Types (net : Net).

Definition with_net_slots net (slots : PeerSlots) : Net :=
  mkNet (with_slots (nt_node net) slots) (nt_in_hand net) (nt_queue net).

(** The reader of a slot has a message that passed its checks; a block answers a request. *)
Definition takes net (index : Z) (message : NetworkMessage) (wire_len : Z) : Net :=
  let slots := nd_slots (nt_node net) in
  let hand := mkNet (nt_node net) (nt_in_hand net ++ [new_peer_message index message wire_len]) (nt_queue net) in
  match PeerSlots.connection slots index, message with
  | None, _ => net
  | Some c, MBlock block =>
      match Requests.take (cn_requests c) (block_hash (blk_header block)) with
      | (_, None) => net
      | (requests, Some _) =>
          with_net_slots hand (PeerSlots.update slots index (fun c => Connection.with_requests c requests))
      end
  | Some _, _ => hand
  end.

(** The first message of a reader, and the others. *)
Fixpoint of_reader (index : Z) (hand : list PeerMessage) : option (PeerMessage * list PeerMessage) :=
  match hand with
  | [] => None
  | m :: hand => if pm_peer m =? index then Some (m, hand)
                 else '(found, hand) ← of_reader index hand; Some (found, m :: hand)
  end.

Definition turn_node (n : Node) (queue : list PeerMessage) (clock : Clock) : outcome E (Node * list PeerMessage) :=
  '(n, queue) ← match queue with
               | [] => Ok (n, [])
               | m :: queue => n ← record magic params n m clock; Ok (n, queue)
               end;
  n ← Schedule.tick magic params n clock;
  Ok (n, queue).

Definition apply_event net (e : event) : outcome E Net :=
  let slots := nd_slots (nt_node net) in
  match e with
  | Accepts address now => slots ← accept_one slots address now true; Ok (with_net_slots net slots)
  | Dials address now => slots ← dial slots address now true; Ok (with_net_slots net slots)
  | Handshakes index services =>
      Ok (with_net_slots net (PeerSlots.update slots index
            (fun c => Connection.mark_ready (Connection.set_services c services))))
  | Takes index message wire_len => Ok (takes net index message wire_len)
  | Forwards index =>
      Ok match of_reader index (nt_in_hand net) with
         | Some (m, hand) => mkNet (nt_node net) hand (nt_queue net ++ [m])
         | None => net
         end
  | Ends index =>
      let slots := PeerSlots.update slots index (fun c => Connection.with_requests c (fst (Requests.clear (cn_requests c)))) in
      Ok (with_net_slots net (PeerSlots.release slots index))
  | Turn clock =>
      '(n, queue) ← turn_node (nt_node net) (nt_queue net) clock;
      Ok (mkNet n (nt_in_hand net) queue)
  end.

Definition run_events net (events : list event) : outcome E Net := foldM apply_event net events.

Definition start_net (minimum_chain_work : bytes) (tree : HeaderTree) (now : Z) : Net :=
  mkNet (mkNode PeerSlots.new (Schedule.new params minimum_chain_work now) tree) [] [].
End net.

(** ** A run in which no slot changes hands while its blocks are queued never panics *)

Section net.
Context `{BC : BitcoinCrate} `{PP : P2p} `{SS : Sizes}.
Context (magic : bytes) (p : ChainParams).
Implicit Types (net : Net) (n : Node) (s : PeerSlots).

(** ** Runs *)

(** A decoded header, as far as the tree relies on its type and on the cost of a small hash. *)
Definition typed_header (h : Header) : bool :=
  (0 <=? hdr_bits h) && (hdr_bits h <=? u32_max) && (0 <=? hdr_time h) && (hdr_time h <=? u32_max) &&
  bool_decide (length (block_hash h) = 32%nat) && (4 <=? le_val (block_hash h)).

(** What the framer and the session let through. *)
Definition vetted (m : NetworkMessage) : bool :=
  match m with
  | MHeaders headers => (len headers <=? MAX_HEADERS_ITEMS) && forallb typed_header headers
  | MInv items => len items <=? MAX_INV_ITEMS
  | _ => true
  end.

(** The blocks on their way to [block_received], with the slots they came from. *)
Definition block_of (m : PeerMessage) : option (Z * bytes) :=
  match pm_message m with MBlock b => Some (pm_peer m, block_hash (blk_header b)) | _ => None end.
Definition transit net : list (Z * bytes) := omap (M:=list) block_of (nt_queue net ++ nt_in_hand net).

(** An event that the threads can make: messages are vetted, a reader that waits for room in the
    queue does not end, and no chain's work passes 256 bits. *)
Definition possible net (e : event) : bool :=
  match e with
  | Takes _ message _ => vetted message
  | Ends index => negb (existsb (fun m => pm_peer m =? index) (nt_in_hand net))
  | Turn clock =>
      match nt_queue net with
      | mkPeerMessage peer (MHeaders headers) _ :: _ =>
          is_ok (headers_received (E:=Empty_set) p (nt_node net) peer headers (ck_time clock))
      | _ => true
      end
  | _ => true
  end.

(** A connection ends with none of its blocks queued. *)
Definition settled net (e : event) : bool :=
  match e with
  | Ends index => negb (existsb (fun q => q.1 =? index) (transit net))
  | _ => true
  end.

Fixpoint all_along (ok : Net -> event -> bool) net (events : list event) : bool :=
  match events with
  | [] => true
  | e :: events =>
      ok net e && match apply_event (E:=Empty_set) magic p net e with
                  | Ok net => all_along ok net events
                  | _ => true
                  end
  end.

Lemma typed_header_ok h : typed_header h = true -> header_typed h.
Proof.
  unfold typed_header. intros (((((H1 & H2)%andb_prop & H3)%andb_prop & H4)%andb_prop & H5)%andb_prop & H6)%andb_prop.
  apply Z.leb_le in H1, H2, H3, H4, H6. apply bool_decide_eq_true in H5. unfold u32_max in *. split; [lia|split; unfold u32_max; lia|done|done].
Qed.

(** ** The table *)

Lemma claim_connection {E} s kind address now : slots_wf s ->
  exists s' o, PeerSlots.claim (E:=E) s kind address now = Ok (s', o) /\
    (s' = s \/ exists j c, PeerSlots.connection s j = None /\ len (ps_slots s') = len (ps_slots s) /\ connection_ok j c /\
       rq_max (cn_requests c) = MAX_BLOCKS_IN_FLIGHT /\ owed_by c = [] /\
       forall i, PeerSlots.connection s' i = if decide (i = j) then Some c else PeerSlots.connection s i).
Proof.
  intros Hs. unfold PeerSlots.claim. destruct (ps_closing s); [eauto|].
  pose proof (first_free_spec kind 0 (ps_slots s)) as Hff.
  destruct (PeerSlots.first_free kind 0 (ps_slots s)) as [j|]; [|eauto].
  destruct Hff as (l1 & l2 & Hl & -> & _). rewrite Z.add_0_l.
  unfold PeerSlots.connect, Requests.new, Requests.with_bound, Outbox.with_bound. cbn [assert_ mbind outcome_bind].
  change ((0 <? MAX_BLOCKS_IN_FLIGHT) && (MAX_BLOCKS_IN_FLIGHT <=? MAX_BLOCKS_IN_FLIGHT)) with true.
  change (0 <? OUTBOX_MAX_BYTES) with true. run. eexists _, _. split; [done|]. right.
  set (c := mkConnection _ _ _ _ _ _ _ _ _). exists (len l1), c.
  assert (Hj : 0 <= len l1 < len (ps_slots s)).
  { rewrite Hl, len_app, len_cons. pose proof (len_nonneg l1). pose proof (len_nonneg l2). lia. }
  split; [unfold PeerSlots.connection; by rewrite Hl, get_middle|].
  split; [destruct kind; apply len_insert|].
  split; [split; [done|split; cbn; [done|done|constructor]|done]|]. split; [done|]. split; [done|].
  intros i. assert (Hc : PeerSlots.connection (PeerSlots.count (PeerSlots.set_slot s (len l1) (Some c)) kind 1) i
      = mjoin (get (<[Z.to_nat (len l1) := Some c]> (ps_slots s)) i)) by (by destruct kind).
  rewrite Hc, get_insert by done. by case_decide.
Qed.

Lemma release_connection s j i : PeerSlots.connection (PeerSlots.release s j) i =
  if decide (i = j) then None else PeerSlots.connection s i.
Proof.
  unfold PeerSlots.release. destruct (get (ps_slots s) j) as [slot|] eqn:Hg.
  - pose proof (get_Some_range _ _ _ Hg) as Hr.
    assert (Hset : forall i, PeerSlots.connection (PeerSlots.set_slot s j None) i = if decide (i = j) then None else PeerSlots.connection s i).
    { intros i'. unfold PeerSlots.connection, PeerSlots.set_slot. cbn [ps_slots]. rewrite get_insert by done. by case_decide. }
    destruct (bool_decide _); [|apply Hset]. rewrite <-Hset. by destruct (SlotIndex.kind j).
  - case_decide as Hij; [|done]. subst. unfold PeerSlots.connection. by rewrite Hg.
Qed.

Lemma release_len s j : len (ps_slots (PeerSlots.release s j)) = len (ps_slots s).
Proof.
  unfold PeerSlots.release. destruct (get (ps_slots s) j) as [slot|]; [|done].
  destruct (bool_decide _); [destruct (SlotIndex.kind j)|]; apply len_insert.
Qed.

(** ** Recording a message *)

Context (interval : Z) (Hp : chain_ok p interval).

(** A header the tree answered leaves every node where it was. *)
Lemma accepts_extends {E} t header now t' r : accepts E p interval t header now t' r ->
  (forall i, is_Some (get (t_entries t) i) -> is_Some (get (t_entries t') i)) /\
  (forall a, r = inr a -> is_Some (get (t_entries t') (accepted_node a))).
Proof.
  assert (Hext : forall t0 x i, t_entries t0 = t_entries t -> is_Some (get (t_entries t) i) ->
    is_Some (get (t_entries (inserted t0 x)) i)).
  { intros t0 x i Ht0 [e He]. cbn. rewrite Ht0. rewrite get_app_l; [eauto|]. pose proof (get_Some_range _ _ _ He). lia. }
  intros Hacc. destruct Hacc; (split; [intros i Hi; first [exact Hi|by apply Hext]|intros a Ha; try done]).
  - injection Ha as <-. cbn. eauto.
  - injection Ha as <-. cbn. rewrite get_middle. eauto.
Qed.

Lemma with_tree_ok n tr t' : node_ok p n tr -> tree_wf p t' ->
  (forall i, is_Some (get (t_entries (nd_tree n)) i) -> is_Some (get (t_entries t') i)) -> node_ok p (with_tree n t') tr.
Proof.
  intros [N1 N2 [S1 S2 S3 S4 S5 S6 S7] N4] Hwf He. split; cbn; [done|done| |done].
  split; try done. intros i r Hr. destruct (S2 i r Hr) as [K1 K2]. split; auto.
Qed.

Lemma headers_loop_ok {E} peer headers time : Forall header_typed headers -> forall n tr received n' received',
  node_ok p n tr -> (forall last, hr_last received = Some last -> is_Some (get (t_entries (nd_tree n)) last)) ->
  headers_loop (E:=E) p n peer headers time received = Ok (n', received') ->
  node_ok p n' tr /\ hr_count received' = hr_count received /\
  (forall last, hr_last received' = Some last -> is_Some (get (t_entries (nd_tree n')) last)).
Proof.
  induction 1 as [|header headers Hh HF IH]; intros n tr received n' received' Hn Hlast Hrun; cbn [headers_loop] in Hrun.
  { by injection Hrun as <- <-. }
  destruct (accept_spec (E:=E) p interval (nd_tree n) header time Hp (no_tree _ _ _ Hn) Hh)
    as [(? & ? & _ & _ & _ & Hpan)|(t' & r & Hacc & Hcase & Hwf)]; [by rewrite Hpan in Hrun|].
  rewrite Hacc in Hrun. cbn [mbind outcome_bind] in Hrun. destruct (accepts_extends _ _ _ _ _ Hcase) as [Hext Hnode].
  pose proof (with_tree_ok n tr t' Hn Hwf Hext) as Hn1. destruct r as [error|accepted].
  - injection Hrun as <- <-. destruct (AcceptError.peer_fault error) as [fault|].
    + pose proof (disconnect_ok p (with_tree n t') tr peer (InvalidHeader fault) Hn1) as Hk.
      split; [apply Hk|]. split; [done|]. intros last Hl. cbn in Hl |- *. auto.
    + split; [done|]. split; [done|]. intros last Hl. cbn in Hl |- *. auto.
  - eapply IH in Hrun; [exact Hrun|exact Hn1|]. cbn. intros last [= <-]. by apply Hnode.
Qed.

Context (Hframe : forall m, request_message m -> HEADER_BYTES <= len (serialize_raw magic m) <= OUTBOX_MAX_BYTES).

Lemma record_message_ok n m queue clock tr : node_ok p n (omap (M:=list) block_of [m] ++ tr) -> 0 <= pm_peer m < PEER_SLOTS ->
  vetted (pm_message m) = true -> possible (mkNet n [] (m :: queue)) (Turn clock) = true ->
  ensures (record (E:=Empty_set) magic p n m clock) (fun n' => node_ok p n' tr).
Proof.
  intros Hn Hi Hv Hposs. destruct m as [peer message fp]. unfold record. cbn [pm_peer pm_message] in *.
  destruct message; cbn in Hn; try done.
  - eapply ensures_mono; [apply (announced_ok p magic Hframe n tr); [done|done|by apply Z.leb_le]|]. intros n' Hk. apply Hk.
  - eapply ensures_mono; [by apply (block_received_ok p n tr)|]. by intros n' [? _].
  - cbn in Hv. apply andb_prop in Hv as [Hlen Hall]. cbn in Hposs. unfold headers_received in *. rewrite Hlen in *. cbn [mbind outcome_bind assert_] in *.
    destruct (headers_loop p n peer headers (ck_time clock) (mkHeadersReceived (len headers) None false)) as [[n1 received]| |] eqn:Hrun; [|done..].
    run. apply (headers_loop_ok peer headers) with (tr := tr) in Hrun as (Hn1 & Hc & Hlast); [|  |done|done].
    + eapply ensures_mono; [apply (headers_answered_ok p magic Hframe n1 tr); [done|done| |done]|].
      * rewrite Hc. by apply Z.leb_le.
      * intros n2 Hk. apply Hk.
    + apply Forall_forall. intros h Hh. apply typed_header_ok. rewrite forallb_forall in Hall. by apply Hall, list_elem_of_In.
Qed.

(** ** The events *)

Record net_ok net : Prop := mkNetOk {
  nt_ok : node_ok p (nt_node net) (transit net);
  nt_messages : Forall (fun m => 0 <= pm_peer m < PEER_SLOTS /\ vetted (pm_message m) = true) (nt_queue net ++ nt_in_hand net);
}.

Lemma books_perm s self tr tr' : tr ≡ₚ tr' -> books s self tr -> books s self tr'.
Proof.
  intros Hperm [B1 B2 B3 B4]. split; [done| |by rewrite <-Hperm|].
  - intros i h. rewrite <-Hperm. apply B2.
  - intros i c Hc Hor. apply (B4 i c Hc). destruct Hor as [|[h Hh]]; [by left|right]. exists h. by rewrite Hperm.
Qed.

Lemma node_ok_perm n tr tr' : tr ≡ₚ tr' -> node_ok p n tr -> node_ok p n tr'.
Proof. intros Hperm [N1 N2 N3 N4]. split; [done..|by eapply books_perm]. Qed.

(** A connection that comes owes nothing. *)
Lemma fresh_ok n tr s' : node_ok p n tr -> (s' = nd_slots n \/ exists j c, PeerSlots.connection (nd_slots n) j = None /\
    len (ps_slots s') = len (ps_slots (nd_slots n)) /\ connection_ok j c /\ rq_max (cn_requests c) = MAX_BLOCKS_IN_FLIGHT /\
    owed_by c = [] /\
    forall i, PeerSlots.connection s' i = if decide (i = j) then Some c else PeerSlots.connection (nd_slots n) i) ->
  node_ok p (with_slots n s') tr.
Proof.
  intros Hn [->|(j & c & Hnone & Hlen & Hcok & Hmax & Howed & Hconn)]; [by destruct n|].
  destruct Hn as [N1 N2 N3 N4]. split; cbn; [|done|done|].
  - split; [rewrite Hlen; apply N1|]. intros i c'. rewrite Hconn. case_decide; [intros [= <-]; by subst|apply (sw_connections _ N1)].
  - destruct N4 as [B1 B2 B3 B4]. split; [| |done|].
    + intros i c' h. rewrite Hconn. case_decide; [|apply B1]. intros [= <-]. rewrite Howed. by intros ?%not_elem_of_nil.
    + intros i h Hin. destruct (B2 i h Hin) as (Hf & c' & Hc' & Hno). split; [done|]. exists c'. rewrite Hconn.
      case_decide; [congruence|done].
    + intros i c'. rewrite Hconn. case_decide as Hij.
      * subst j. intros [= <-] [Ho|[h Hh]]; [by rewrite Howed in Ho|]. destruct (B2 i h Hh) as (_ & c' & Hc' & _). congruence.
      * intros Hc' Hor. destruct (B4 i c' Hc' Hor) as (r & Hr & Hrc). exists r. by rewrite Hconn, decide_False.
Qed.

(** A connection that ends with nothing queued is forgotten by all. *)
Lemma gone_ok n tr j f : node_ok p n tr -> (forall h, (j, h) ∉ tr) ->
  node_ok p (with_slots n (PeerSlots.release (PeerSlots.update (nd_slots n) j f) j)) tr.
Proof.
  intros [N1 N2 N3 N4] Hno. set (s' := PeerSlots.release _ _).
  assert (Hconn : forall i, PeerSlots.connection s' i = if decide (i = j) then None else PeerSlots.connection (nd_slots n) i).
  { intros i. unfold s'. rewrite release_connection, connection_update. by case_decide. }
  split; cbn; [|done|done|].
  - split; [unfold s'; rewrite release_len, slots_len_update; apply N1|]. intros i c. rewrite Hconn.
    case_decide; [done|apply (sw_connections _ N1)].
  - destruct N4 as [B1 B2 B3 B4]. split; [| |done|].
    + intros i c h. rewrite Hconn. case_decide; [done|apply B1].
    + intros i h Hin. destruct (B2 i h Hin) as (Hf & c & Hc & Hn). split; [done|]. exists c. rewrite Hconn.
      case_decide; [subst; by destruct (Hno h)|done].
    + intros i c. rewrite Hconn. case_decide; [done|]. intros Hc Hor. destruct (B4 i c Hc Hor) as (r & Hr & Hrc).
      exists r. by rewrite Hconn, decide_False.
Qed.

(** A block leaves its table for the queue. *)
Lemma taken_ok n tr i c h requests : node_ok p n tr -> PeerSlots.connection (nd_slots n) i = Some c ->
  Requests.ok requests -> rq_max requests = rq_max (cn_requests c) ->
  owed_by c ≡ₚ h :: (req_hash <$> rq_outstanding requests) ->
  node_ok p (with_slots n (PeerSlots.update (nd_slots n) i (fun c => Connection.with_requests c requests))) (tr ++ [(i, h)]).
Proof.
  intros [N1 N2 N3 N4] Hc Hrok Hmax Hperm. set (s' := PeerSlots.update _ _ _).
  destruct (sw_connections _ N1 i c Hc) as [[C1 C2 C3] Cm].
  assert (Hnd : h ∉ (req_hash <$> rq_outstanding requests)).
  { pose proof (Requests.ok_unique _ C2) as Hu. fold (owed_by c) in Hu. rewrite Hperm in Hu. by apply NoDup_cons in Hu as [? _]. }
  assert (Hconn : forall j, PeerSlots.connection s' j =
    if decide (j = i) then Some (Connection.with_requests c requests) else PeerSlots.connection (nd_slots n) j).
  { intros j. unfold s'. rewrite connection_update, Hc. done. }
  assert (Hdesc : forall j, describes (nd_slots n) (nd_schedule n) j -> describes s' (nd_schedule n) j).
  { intros j (r & Hr & Hrc). exists r. split; [done|]. rewrite Hconn. case_decide; [subst; by rewrite Hrc, Hc|done]. }
  assert (Hin : h ∈ owed_by c) by (rewrite Hperm; apply list_elem_of_here).
  split; cbn; [|done|done|].
  - split; [unfold s'; rewrite slots_len_update; apply N1|]. intros j c'. rewrite Hconn.
    case_decide; [|apply (sw_connections _ N1)]. intros [= <-]. subst j. cbn. split; [by split|congruence].
  - destruct N4 as [B1 B2 B3 B4].
    assert (Htr : forall j, (j, h) ∉ tr).
    { intros j Hj. destruct (B2 j h Hj) as ((f & Hf & Hfj) & c' & Hc' & Hno).
      destruct (B1 i c h Hc Hin) as (f' & Hf' & Hfi). assert (j = i) as -> by congruence.
      rewrite Hc in Hc'. by injection Hc' as <-. }
    split.
    + intros j c' h'. rewrite Hconn. case_decide; [|apply B1]. subst j. intros [= <-] Hh'. apply (B1 i c h' Hc).
      rewrite Hperm. by apply list_elem_of_further.
    + intros j h' [Hj|[= -> ->]%list_elem_of_singleton]%elem_of_app.
      * destruct (B2 j h' Hj) as (Hf & c' & Hc' & Hno). split; [done|]. rewrite Hconn. case_decide; [|by exists c'].
        subst j. rewrite Hc in Hc'. injection Hc' as <-. eexists. split; [done|]. intros Hh'. apply Hno.
        rewrite Hperm. by apply list_elem_of_further.
      * split; [by eapply B1|]. exists (Connection.with_requests c requests). by rewrite Hconn, decide_True.
    + rewrite fmap_app. apply NoDup_app. split; [done|]. split; [|apply NoDup_singleton].
      intros h' Hh' ->%list_elem_of_singleton. apply list_elem_of_fmap in Hh' as ([j h'] & Heq & Hj). cbn in Heq. subst. by eapply Htr.
    + intros j c'. rewrite Hconn. case_decide as Hji.
      * subst j. intros _ _. apply Hdesc, (B4 i c Hc). left. intros Hnil. rewrite Hnil in Hin. by apply not_elem_of_nil in Hin.
      * intros Hc' Hor. apply Hdesc, (B4 j c' Hc'). destruct Hor as [|[h' [Hj|[= -> ->]%list_elem_of_singleton]%elem_of_app]]; [by left|eauto|done].
Qed.

Lemma of_reader_perm i hand m hand' : of_reader i hand = Some (m, hand') -> hand ≡ₚ m :: hand'.
Proof.
  revert hand'; induction hand as [|x hand IH]; intros hand'; cbn [of_reader]; [done|].
  destruct (pm_peer x =? i); [by intros [= <- <-]|]. destruct (of_reader i hand) as [[found rest]|]; [|done].
  cbn. intros [= <- <-]. rewrite (IH rest eq_refl). apply Permutation_swap.
Qed.

Lemma take_owed c h requests r : Requests.ok (cn_requests c) -> Requests.take (cn_requests c) h = (requests, Some r) ->
  Requests.ok requests /\ rq_max requests = rq_max (cn_requests c) /\
  owed_by c ≡ₚ h :: (req_hash <$> rq_outstanding requests).
Proof.
  intros Hok Ht. pose proof (Requests.take_ok _ h Hok) as Hs. rewrite Ht in Hs. destruct Hs as (Hrok & Hrm & _).
  split; [done|]. split; [done|]. unfold Requests.take in Ht.
  pose proof (Requests.take_first_spec h (rq_outstanding (cn_requests c))) as Hf.
  destruct (Requests.take_first h (rq_outstanding (cn_requests c))) as [[found rest]|]; [|done].
  injection Ht as <- <-. destruct Hf as (l1 & l2 & Hl & -> & <- & _). unfold owed_by. rewrite Hl. cbn.
  rewrite !fmap_app. cbn. by rewrite Permutation_middle.
Qed.

Lemma transit_hand n hand queue m : transit (mkNet n (hand ++ [m]) queue) = transit (mkNet n hand queue) ++ omap (M:=list) block_of [m].
Proof. unfold transit. cbn [nt_queue nt_in_hand]. by rewrite app_assoc, omap_app. Qed.

Lemma takes_ok net i m wire_len : net_ok net -> vetted m = true -> net_ok (takes net i m wire_len).
Proof.
  intros [Hn Hm] Hv. unfold takes. destruct net as [n hand queue]. cbn [nt_node nt_in_hand nt_queue] in *.
  destruct (PeerSlots.connection (nd_slots n) i) as [c|] eqn:Hc; [|by split].
  pose proof (connection_range _ _ _ Hc) as Hi. rewrite (sw_len _ (no_slots _ _ _ Hn)) in Hi.
  assert (Hms : Forall (fun m => 0 <= pm_peer m < PEER_SLOTS /\ vetted (pm_message m) = true)
    (queue ++ hand ++ [new_peer_message i m wire_len])).
  { rewrite app_assoc. apply Forall_app. split; [done|]. by apply Forall_singleton. }
  assert (Hother : (forall b, m <> MBlock b) -> net_ok (mkNet n (hand ++ [new_peer_message i m wire_len]) queue)).
  { intros Hb. split; [|done]. rewrite transit_hand. cbn [omap list_omap block_of pm_message new_peer_message].
    destruct m; try (by rewrite app_nil_r). by destruct (Hb block). }
  destruct m as [| | | | | | | | | |b| | | | | | | | | | | | | | | |]; try (by apply Hother).
  destruct (Requests.take (cn_requests c) (block_hash (blk_header b))) as [requests [r|]] eqn:Ht; [|by split].
  destruct (sw_connections _ (no_slots _ _ _ Hn) i c Hc) as [[_ C2 _] _].
  destruct (take_owed c _ requests r C2 Ht) as (Hrok & Hrm & Hperm). split; [|done].
  unfold with_net_slots. cbn [nt_node nt_in_hand nt_queue]. rewrite transit_hand. by eapply taken_ok.
Qed.

Lemma turn_ok net clock : net_ok net -> possible net (Turn clock) = true ->
  ensures (apply_event (E:=Empty_set) magic p net (Turn clock)) net_ok.
Proof.
  intros [Hn Hm] Hposs. destruct net as [n hand queue]. cbn [apply_event nt_node nt_in_hand nt_queue] in *. unfold turn_node.
  assert (Htick : forall n1 queue, node_ok p n1 (transit (mkNet n1 hand queue)) ->
    Forall (fun m => 0 <= pm_peer m < PEER_SLOTS /\ vetted (pm_message m) = true) (queue ++ hand) ->
    ensures (E:=Empty_set) ('(n, queue) ← (n ← Schedule.tick magic p n1 clock; Ok (n, queue)); Ok (mkNet n hand queue)) net_ok).
  { intros n1 q Hn1 Hq. pose proof (tick_ok (E:=Empty_set) p interval Hp magic Hframe n1 _ clock Hn1) as Ht.
    destruct (Schedule.tick magic p n1 clock) as [n2|[]|]; [|done]. run. split; [exact Ht|exact Hq]. }
  destruct queue as [|m queue]; cbn [mbind outcome_bind]; [by apply Htick|].
  apply Forall_cons in Hm as [[Hi Hv] Hm].
  pose proof (record_message_ok n m queue clock (transit (mkNet n hand queue))) as Hrec.
  destruct (record magic p n m clock) as [n1|[]|] eqn:Hr; cbn [ensures] in Hrec; [|exfalso; apply Hrec; try done..].
  cbn [mbind outcome_bind]. apply Htick; [apply Hrec; try done|done].
  all: unfold transit in Hn |- *; cbn [nt_queue nt_in_hand] in *; change ((m :: queue) ++ hand) with ([m] ++ (queue ++ hand)) in Hn; by rewrite omap_app in Hn.
Qed.

Lemma event_ok net e : net_ok net -> possible net e = true -> settled net e = true ->
  ensures (apply_event (E:=Empty_set) magic p net e) net_ok.
Proof.
  intros Hok Hposs Hset. pose proof Hok as [Hn Hm]. destruct e as [address now|address now|i services|i m wire_len|i|i|clock].
  - cbn [apply_event]. unfold accept_one. destruct (negb _); [by destruct net as [[] ? ?]|]. cbn [negb].
    destruct (claim_connection (E:=Empty_set) (nd_slots (nt_node net)) Inbound address now (no_slots _ _ _ Hn)) as (s' & o & -> & Hs').
    run. split; [by apply fresh_ok|done].
  - cbn [apply_event]. unfold dial. destruct (bool_decide _); [by destruct net as [[] ? ?]|]. cbn [negb].
    destruct (claim_connection (E:=Empty_set) (nd_slots (nt_node net)) Outbound address now (no_slots _ _ _ Hn)) as (s' & o & -> & Hs').
    run. split; [by apply fresh_ok|done].
  - split; [|done]. eapply node_ok_like; [|exact Hn]. apply update_like. intros c _. by repeat split.
  - by apply takes_ok.
  - cbn [apply_event]. destruct (of_reader i (nt_in_hand net)) as [[m hand]|] eqn:Ho; [|done].
    apply of_reader_perm in Ho. assert (Hperm : nt_queue net ++ nt_in_hand net ≡ₚ (nt_queue net ++ [m]) ++ hand).
    { rewrite Ho, <-app_assoc. done. }
    split; [|by cbn [nt_queue nt_in_hand]; rewrite <-Hperm]. eapply node_ok_perm; [|exact Hn]. unfold transit. cbn [nt_queue nt_in_hand].
    by rewrite Hperm.
  - split; [|done]. apply gone_ok; [done|]. intros h Hh. cbn [settled] in Hset. apply negb_true_iff in Hset.
    apply not_true_iff_false in Hset. apply Hset, existsb_exists. exists (i, h). split; [by apply list_elem_of_In|apply Z.eqb_refl].
  - by apply turn_ok.
Qed.

Lemma runs_ok events : forall net, net_ok net -> all_along possible net events = true ->
  all_along settled net events = true -> exists net', run_events (E:=Empty_set) magic p net events = Ok net' /\ net_ok net'.
Proof.
  induction events as [|e events IH]; intros net Hok Hposs Hset; [by exists net|].
  cbn [all_along] in Hposs, Hset. apply andb_prop in Hposs as [Hp1 Hp2]. apply andb_prop in Hset as [Hs1 Hs2].
  pose proof (event_ok net e Hok Hp1 Hs1) as He. unfold run_events. cbn [foldM].
  destruct (apply_event magic p net e) as [net1|[]|]; [|done]. run. by apply IH.
Qed.

Lemma tabled_spacing : pow_target_spacing p = 600.
Proof.
  destruct (chain_tabled _ _ Hp) as [g q Hq|g c q Hq|g o q Hq]; unfold mainnet, signet, regtest in Hq; by inv_ok.
Qed.

Lemma start_net_ok minimum tree now : tree_wf p tree -> net_ok (start_net p minimum tree now).
Proof.
  intros Hwf. assert (Hnone : forall i, PeerSlots.connection PeerSlots.new i = None).
  { intros i. unfold PeerSlots.connection. destruct (get (ps_slots PeerSlots.new) i) as [s|] eqn:Hg; [|done].
    apply get_elem, list_elem_of_In, repeat_spec in Hg. by subst. }
  split; [|constructor]. split; cbn.
  - split; [done|]. intros i c. by rewrite Hnone.
  - done.
  - split; try done; cbn.
    + intros i r Hr. apply get_elem, list_elem_of_In, repeat_spec in Hr. by subst.
    + intros i. vm_compute. lia.
    + rewrite tabled_spacing. by vm_compute.
  - split; [by intros i c h; rewrite Hnone|by intros i h Hin%not_elem_of_nil|constructor|by intros i c; rewrite Hnone].
Qed.

End net.
