(* ===== verification/DownloadWitness.v ===== *)
(** * DownloadWitness: a small chain to download

    The theorems on the schedule at a concrete node, and two runs in which a connection ends while
    a block of its is queued. *)
From S2P Require Import Prelude Uint Target Bitcoin Flags Params Header Verify Tx Signet Block Coins SkipList Queue Tree TreeProofs TreeInv TreeOps TreeLife Reorg TreeTheorems Message Wire PeerQueues Channel Slots Locator StoreReader Journal Window Schedule ScheduleProofs ScheduleSafety Chain Net.

(** Regtest, with a crate whose block hash is the nonce. *)
#[local] Instance dw_crate : BitcoinCrate := {|
  block_hash h := if hdr_nonce h =? 2 then REGTEST_GENESIS_HASH else le_bytes 32 (4 + hdr_nonce h mod 1000);
  compute_txid _ := REGTEST_GENESIS_HASH;
  compute_wtxid _ := REGTEST_GENESIS_HASH;
  base_size _ := 0;
  total_size _ := 0;
  outpoint_null := mkOutPoint (repeat x00 32) u32_max;
  is_null o := op_vout o =? u32_max;
  is_coinbase tx := match tx_input tx with [i] => op_vout (previous_output i) =? u32_max | _ => false end;
|}.
#[local] Instance dw_p2p : P2p := {|
  serialize_raw magic _ := magic ++ repeat x00 20;
  deserialize_raw _ := None;
  cmd _ := [];
  address_new a services := mkAddress services [] (sa_port a);
|}.
#[local] Instance dw_sizes : Sizes := {|
  size_of_Block := 104; size_of_Transaction := 64; size_of_TxIn := 104; size_of_TxOut := 32;
  size_of_PeerMessage := 232; witness_size l := len l;
|}.
Definition dw_magic : bytes := [xfa; xbf; xb5; xda].
Definition dw_genesis : Block :=
  mkBlock (mkHeader 1 (repeat x00 32) [] 1296688602 0x207fffff 2) [mkTransaction 1 0 [] []].
Definition dw_params : ChainParams := some_params (regtest dw_genesis default_overrides).
Definition dw_hash (i : Z) : bytes := if i =? 0 then REGTEST_GENESIS_HASH else le_bytes 32 (104 + i).
(** Block [i] of the chain: only its header matters here. *)
Definition dw_header (i : Z) : Header := mkHeader 4 (dw_hash (i - 1)) [] (1296688602 + 600 * i) 0x207fffff (100 + i).
Definition dw_headers : list Header := dw_header <$> seqZ 1 20.
Definition dw_block (i : Z) : Block := mkBlock (dw_header i) [].

Definition dw_tree : HeaderTree := Eval vm_compute in
  match with_cap (E:=Empty_set) dw_params 100 with Ok t => t | _ => mkTree [] ∅ 0 0 [] [] 0 end.
Definition dw_start : Net := start_net dw_params (repeat x00 32) dw_tree 0.
Definition dw_clock (t : Z) : Clock := mkClock (secs t) (1296700000 + t).
Definition dw_address (a : byte) : SocketAddr := mkSocketAddr (V4 [a; x02; x03; x04]) 18444.
Definition dw_says (index : Z) (message : NetworkMessage) : list event := [Takes index message 100; Forwards index].
Definition dw_dialled (index : Z) (a : byte) (t : Z) : list event := [Dials (dw_address a) (secs t); Handshakes index 1033].

(** A peer in slot 0 gives its headers and is asked for sixteen blocks; one in slot 1 has them too. *)
Definition dw_two_peers : list event :=
  dw_dialled 0 x01 1 ++ dw_dialled 1 x05 2 ++ dw_says 0 (MHeaders dw_headers) ++
  dw_says 1 (MInv [InvBlock (dw_hash 20)]) ++ [Turn (dw_clock 3); Turn (dw_clock 4)].
Definition dw_run (events : list event) : outcome Empty_set Net := run_events dw_magic dw_params dw_start events.

Lemma dw_chain : chain_ok dw_params 144.
Proof.
  constructor.
  - eapply tabled_regtest with (g := dw_genesis) (o := default_overrides). vm_compute. reflexivity.
  - intros E. vm_compute. reflexivity.
  - vm_compute. congruence.
Qed.

Lemma dw_genesis_ok : genesis_ok dw_params.
Proof.
  split; [vm_compute; split; congruence|]. split; [vm_compute; split; congruence|].
  destruct (decode_target (hdr_bits (blk_header (genesis dw_params))) (pow_limit dw_params)) as [g|e|] eqn:Hg;
    vm_compute in Hg; [|discriminate..].
  exists g. split; [injection Hg as <-; vm_compute; reflexivity|]. injection Hg as <-. vm_compute. congruence.
Qed.

Lemma dw_wf : tree_wf dw_params dw_tree.
Proof.
  apply (reachable_wf dw_params 144 dw_chain dw_tree dw_genesis_ok). eapply (reach_new _ 100). vm_compute. reflexivity.
Qed.

(** Both peers answer, the first ends with nothing queued, and another takes its slot. *)
Definition dw_settled : list event :=
  dw_two_peers ++ dw_says 0 (MBlock (dw_block 1)) ++ dw_says 1 (MBlock (dw_block 17)) ++
  [Turn (dw_clock 5); Turn (dw_clock 6); Ends 0] ++ dw_dialled 0 x07 7 ++ [Turn (dw_clock 8)].


(** ** A block that is late *)

(** Something of the second peer's is ahead of the first peer's block in the queue when the first
    peer hangs up; the next pass asks the second for the blocks the first owed. *)
Definition late_block : list event :=
  dw_two_peers ++ dw_says 1 (MInv []) ++ dw_says 0 (MBlock (dw_block 1)) ++ [Ends 0; Turn (dw_clock 5); Turn (dw_clock 6)].


(** The first peer announces a block, sends one it was asked for, hangs up, and another takes its
    slot before either message is recorded. *)
Definition reused_slot : list event :=
  dw_dialled 0 x01 1 ++ dw_says 0 (MHeaders dw_headers) ++ [Turn (dw_clock 3)] ++
  dw_says 0 (MInv [InvBlock (dw_hash 20)]) ++ dw_says 0 (MBlock (dw_block 1)) ++ [Ends 0] ++
  dw_dialled 0 x05 4 ++ [Turn (dw_clock 5); Turn (dw_clock 6)].

(** What the schedule knows of the peer in a slot. *)
Definition best_known_of (index : Z) (o : outcome Empty_set Net) : option Z :=
  match o with Ok net => r ← get (sc_peers (nd_schedule (nt_node net))) index; pd_best_known r | _ => None end.


(** ** The window *)

(** The first peer was asked for sixteen of the twenty blocks. *)
Definition dw_one_peer : list event := dw_dialled 0 x01 1 ++ dw_says 0 (MHeaders dw_headers) ++ [Turn (dw_clock 3)].
Definition dw_net : Net := match dw_run dw_one_peer with Ok net => net | _ => dw_start end.
Definition dw_window : Window :=
  mkWindow (nd_tree (nt_node dw_net)) (sc_in_flight (nd_schedule (nt_node dw_net))) ∅ (repeat x00 32).
Definition dw_peer : PeerDownload := PeerDownload.with_best_known PeerDownload.default (Some 20).

Lemma dw_net_wf : tree_wf dw_params (nd_tree (nt_node dw_net)).
Proof.
  destruct (runs_ok dw_magic dw_params 144 dw_chain) with (events := dw_one_peer) (net := dw_start) as (net & Hrun & [Hn _]).
  - intros m _. split; vm_compute; discriminate.
  - exact (start_net_ok dw_params 144 dw_chain _ dw_tree 0 dw_wf).
  - vm_compute. reflexivity.
  - vm_compute. reflexivity.
  - unfold dw_net, dw_run. rewrite Hrun. exact (no_tree _ _ _ Hn).
Qed.

Lemma next_blocks_exact_witness : exists state walk,
  next_blocks (E:=Empty_set) dw_window dw_peer 1 16 false = Ok (state, walk) /\ walk_blocks walk = [17; 18; 19; 20] /\
  walk_found dw_window dw_peer 16 false 20 (walk_blocks walk).
Proof.
  destruct (next_blocks_exact (E:=Empty_set) dw_window (wf_shape _ _ dw_net_wf) dw_peer 1 16 false) as (state & walk & Hn & Hf & _).
  - vm_compute. split; congruence.
  - split; [vm_compute; eauto|intros n [= <-]; vm_compute; eauto|discriminate].
  - exists state, walk. split; [exact Hn|]. split; [|exact Hf]. vm_compute in Hn. by injection Hn as <- <-.
Defined.
