(* ===== verification/Series.v ===== *)
(** * Series: append-only flat files and the table of open ones ([store/series.rs],
    [store/handles.rs], and the framing constants of [store/mod.rs])

    A directory is a map from names to files, and a file knows how much of it a crash cannot
    take: the length at its last sync, and whether the directory was synced with its name in it.
    What the disk answers to one call is a parameter of it ([Disk]); an operation that fails
    returns the state it leaves behind. *)
From Stdlib Require Import String.
From S2P Require Import Prelude Bitcoin Tx Queue Tree StoreReader StoreCoin StoreUndo.

Definition FRAME_BYTES : Z := 8.
Definition MAX_FILE_BYTES : Z := 128 * 1024 * 1024.
Definition MAX_OPEN_FILES : Z := 40.
Definition BLOCK_PREFIX : bytes := list_byte_of_string "blk".
Definition UNDO_PREFIX : bytes := list_byte_of_string "undo".
Definition BLOCK_RECORD_MAGIC : bytes := list_byte_of_string "BMGB".
Definition UNDO_RECORD_MAGIC : bytes := list_byte_of_string "BMGU".

(** A file: its bytes, how many of them are durable, and whether its name is. *)
Record File := mkFile { f_bytes : bytes; f_safe : Z; f_entry : bool }.
Definition empty_file : File := mkFile [] 0 false.
(** A directory, by file name. *)
Notation Directory := (gmap bytes File).

(** [sync_all] on a file, and on the directory. *)
Definition fsync (directory : Directory) (name : bytes) : Directory :=
  alter (fun f => mkFile (f_bytes f) (len (f_bytes f)) (f_entry f)) name directory.
Definition fsync_dir (directory : Directory) : Directory :=
  (fun f => mkFile (f_bytes f) (f_safe f) true) <$> directory.

Inductive IoError :=
| OsError
| LongerThanU32
| StorageFull
| InsideFrame
| WrongLength (declared len : Z)
| UnexpectedEof
| NotFound
| ChecksumMismatch
| Decode (error : DecodeError).

(** Whether each call to the operating system succeeds; [d_written] is how much of a write that
    fails reached the file. *)
Record Disk := mkDisk {
  d_sync : bool;
  d_create : bool;
  d_dir_sync : bool;
  d_written : option Z;
}.
Definition good_disk : Disk := mkDisk true true true None.

Record Placed := mkPlaced { pl_file : Z; pl_offset : Z; pl_len : Z }.

(** ** Names *)

(** [{number:05}]: the decimal digits, least significant first, and the zeros that pad them. *)
Fixpoint digits_back (fuel : nat) (n : Z) : bytes :=
  match fuel with
  | O => []
  | S fuel => zb (48 + n mod 10) :: (if n <? 10 then [] else digits_back fuel (n / 10))
  end.
Definition pad5 (number : Z) : bytes :=
  let back := digits_back 10 number in reverse (back ++ repeat x30 (5 - length back)).
Definition DAT : bytes := list_byte_of_string ".dat".
Definition file_name (prefix : bytes) (number : Z) : bytes := prefix ++ pad5 number ++ DAT.

Definition strip_prefix (prefix name : bytes) : option bytes :=
  if starts_with name prefix then Some (drop (length prefix) name) else None.
Definition strip_suffix (suffix name : bytes) : option bytes :=
  if bool_decide (length suffix <= length name)%nat && bool_decide (drop (length name - length suffix) name = suffix)
  then Some (take (length name - length suffix) name) else None.

(** [digits.parse::<u32>()]. *)
Fixpoint parse_digits (value : Z) (digits : bytes) : option Z :=
  match digits with
  | [] => Some value
  | d :: digits =>
      if (48 <=? bz d) && (bz d <=? 57) then
        value ← try_from u32_max (value * 10 + (bz d - 48));
        parse_digits value digits
      else None
  end.
Definition parse_u32 (digits : bytes) : option Z :=
  let digits := match digits with x2b :: rest => rest | _ => digits end in
  if bool_decide (digits = []) then None else parse_digits 0 digits.

(** The number a name gives its file. *)
Definition number_of (prefix name : bytes) : option Z :=
  rest ← strip_prefix prefix name;
  digits ← strip_suffix DAT rest;
  if negb (len digits =? 5) then None else parse_u32 digits.

Definition highest (directory : Directory) (prefix : bytes) : Z :=
  foldr (fun name highest => match number_of prefix name with Some number => Z.max highest number | None => highest end)
    0 (map_to_list directory).*1.

(** ** The writer *)

(** [sw_handle] is the name of the file the handle is open on. *)
Record SeriesWriter := mkWriter {
  sw_prefix : bytes;
  sw_magic : bytes;
  sw_trailer_bytes : Z;
  sw_max_record : Z;
  sw_max_file : Z;
  sw_file : Z;
  sw_offset : Z;
  sw_handle : bytes;
  sw_unsynced : bool;
}.

Module SeriesWriter.
Implicit Types (self : SeriesWriter) (directory : Directory).

Definition at_ self (file offset : Z) (handle : bytes) (unsynced : bool) : SeriesWriter :=
  mkWriter (sw_prefix self) (sw_magic self) (sw_trailer_bytes self) (sw_max_record self) (sw_max_file self)
    file offset handle unsynced.

Definition sync directory self (disk : Disk) : Directory * SeriesWriter * outcome IoError unit :=
  if negb (sw_unsynced self) then (directory, self, Ok tt)
  else if negb (d_sync disk) then (directory, self, Err OsError)
  else (fsync directory (sw_handle self), at_ self (sw_file self) (sw_offset self) (sw_handle self) false, Ok tt).

Definition place directory self (record : Z) (disk : Disk) : Directory * SeriesWriter * outcome IoError unit :=
  if (sw_offset self =? 0) || (saturating_add32 (sw_offset self) record <=? sw_max_file self) then (directory, self, Ok tt)
  else match sync directory self disk with
  | (directory, self, Ok _) =>
      if u32_max <? sw_file self + 1 then (directory, self, Err StorageFull)
      else
        let next := sw_file self + 1 in
        let path := file_name (sw_prefix self) next in
        if bool_decide (is_Some (directory !! path)) || negb (d_create disk) then (directory, self, Err OsError)
        else
          let directory := <[path := empty_file]> directory in
          let self := at_ self (sw_file self) (sw_offset self) path (sw_unsynced self) in
          if negb (d_dir_sync disk) then (directory, self, Err OsError)
          else (fsync_dir directory, at_ self next 0 path (sw_unsynced self), Ok tt)
  | (directory, self, e) => (directory, self, e)
  end.

(** The bytes of a record. *)
Definition frame (magic body : bytes) (len_ : Z) (trailer : option bytes) : bytes :=
  magic ++ le_bytes 4 len_ ++ body ++ default [] trailer.

(** [write_all] on a file opened to append. *)
Definition write_all directory (handle bs : bytes) : Directory :=
  let f := default empty_file (directory !! handle) in
  <[handle := mkFile (f_bytes f ++ bs) (f_safe f) (f_entry f)]> directory.

Definition append directory self (body : bytes) (trailer : option bytes) (disk : Disk)
    : Directory * SeriesWriter * outcome IoError Placed :=
  if negb ((if bool_decide (is_Some trailer) then 32 else 0) =? sw_trailer_bytes self) then (directory, self, Panic)
  else
    let len_ := default u32_max (try_from u32_max (len body)) in
    if negb (len_ <=? sw_max_record self) then (directory, self, Panic)
    else
      let record := saturating_add32 (saturating_add32 FRAME_BYTES len_) (sw_trailer_bytes self) in
      match place directory self record disk with
      | (directory, self, Ok _) =>
          let bs := frame (sw_magic self) body len_ trailer in
          match d_written disk with
          | Some written => (write_all directory (sw_handle self) (take (Z.to_nat written) bs), self, Err OsError)
          | None =>
              let directory := write_all directory (sw_handle self) bs in
              let start := sw_offset self in
              let self := at_ self (sw_file self) (saturating_add32 start record) (sw_handle self) true in
              if negb (start <? sw_offset self) then (directory, self, Panic)
              else (directory, self, Ok (mkPlaced (sw_file self) (saturating_add32 start FRAME_BYTES) len_))
          end
      | (directory, self, Err e) => (directory, self, Err e)
      | (directory, self, Panic) => (directory, self, Panic)
      end.

Definition cursor self : Z * Z := (sw_file self, sw_offset self).
End SeriesWriter.

(** ** Open files *)

(** A handle is the file it is open on: a file of a series is never renamed or truncated. *)
Module Handles.
Definition new : list Z := [].

(** [position], [remove] and [insert(0, ..)]; [opened] is whether [File::open] succeeds. *)
Definition get (open : list Z) (file : Z) (opened : bool) : list Z * outcome IoError Z :=
  if existsb (Z.eqb file) open then
    match list_find (fun f => f = file) open with
    | Some (position, f) => (f :: delete position open, Ok f)
    | None => (open, Panic)
    end
  else if negb opened then (open, Err NotFound)
  else
    let open := if MAX_OPEN_FILES <=? len open then removelast open else open in
    let open := file :: open in
    (open, if len open <=? MAX_OPEN_FILES then Ok file else Panic).
End Handles.

(** ** The reader *)

Record SeriesReader := mkReader {
  sr_prefix : bytes;
  sr_magic : bytes;
  sr_trailer_bytes : Z;
  sr_max_record : Z;
  sr_handles : list Z;
}.

Module SeriesReader.
Implicit Types (self : SeriesReader) (directory : Directory).

Definition with_handles self (handles : list Z) : SeriesReader :=
  mkReader (sr_prefix self) (sr_magic self) (sr_trailer_bytes self) (sr_max_record self) handles.

Definition decode {A} (m : outcome DecodeError A) : outcome IoError A := map_err Decode m.

Definition split self (bs : bytes) (len_ : Z) : outcome IoError (bytes * bytes) :=
  '(seen, rest) ← decode (StoreReader.take 4 bs);
  if negb (bool_decide (seen = sr_magic self)) then Err (Decode (DecodeError.BadMagic seen))
  else
    '(declared, rest) ← decode (StoreReader.u32_le rest);
    if negb (declared =? len_) then Err (WrongLength declared len_)
    else
      '(body, rest) ← decode (StoreReader.take len_ rest);
      '(trailer, rest) ← (if sr_trailer_bytes self =? 0 then Ok (repeat x00 32, rest) else decode (StoreReader.hash rest));
      decode (StoreReader.finish rest);;
      Ok (body, trailer).

(** [read_exact_at]. *)
Definition read_exact_at (contents : bytes) (start count : Z) : outcome IoError bytes :=
  match slice contents start (start + count) with Some bs => Ok bs | None => Err UnexpectedEof end.

Definition read directory self (file offset len_ : Z) : SeriesReader * outcome IoError (bytes * bytes) :=
  if sr_max_record self <? len_ then (self, Err (Decode (DecodeError.TooLong len_ (sr_max_record self))))
  else if offset <? FRAME_BYTES then (self, Err InsideFrame)
  else
    let start := offset - FRAME_BYTES in
    let whole := saturating_add32 (saturating_add32 FRAME_BYTES len_) (sr_trailer_bytes self) in
    let path := file_name (sr_prefix self) file in
    match Handles.get (sr_handles self) file (bool_decide (is_Some (directory !! path))) with
    | (handles, Ok f) =>
        (with_handles self handles,
         bs ← read_exact_at (f_bytes (default empty_file (directory !! file_name (sr_prefix self) f))) start whole;
         split self bs len_)
    | (handles, Err e) => (with_handles self handles, Err e)
    | (handles, Panic) => (with_handles self handles, Panic)
    end.
End SeriesReader.

(** ** Opening a series *)

Definition open_with_bound (directory : Directory) (prefix magic : bytes) (trailer_bytes max_record max_file : Z)
    : outcome IoError (Directory * SeriesWriter * SeriesReader) :=
  assert_ ((trailer_bytes =? 0) || (trailer_bytes =? 32));;
  assert_ ((0 <? max_file) && (max_file <=? MAX_FILE_BYTES));;
  let file := highest directory prefix in
  let path := file_name prefix file in
  let handle := default empty_file (directory !! path) in
  if u32_max <? len (f_bytes handle) then Err LongerThanU32
  else Ok (<[path := handle]> directory,
           mkWriter prefix magic trailer_bytes max_record max_file file (len (f_bytes handle)) path false,
           mkReader prefix magic trailer_bytes max_record Handles.new).
Definition open_series (directory : Directory) (prefix magic : bytes) (trailer_bytes max_record : Z) :=
  open_with_bound directory prefix magic trailer_bytes max_record MAX_FILE_BYTES.

(** ** Names are numbers *)

Definition is_digit (d : byte) : Prop := 48 <= bz d <= 57.
Definition back_val (l : bytes) : Z := foldr (fun d v => bz d - 48 + 10 * v) 0 l.

Lemma digit_bz k : 0 <= k < 10 -> bz (zb (48 + k)) = 48 + k.
Proof. intros Hk. rewrite bz_zb, Z.mod_small by lia. done. Qed.

Lemma digits_back_ok fuel n : 0 <= n < 10 ^ Z.of_nat fuel -> (0 < fuel)%nat ->
  back_val (digits_back fuel n) = n /\ Forall is_digit (digits_back fuel n) /\ (0 < length (digits_back fuel n))%nat.
Proof.
  revert n; induction fuel as [|fuel IH]; intros n Hn Hf; [lia|]. cbn [digits_back].
  assert (Hd : 0 <= n mod 10 < 10) by (apply Z.mod_pos_bound; lia).
  assert (Hdig : is_digit (zb (48 + n mod 10))) by (unfold is_digit; rewrite digit_bz by done; lia).
  destruct (Z.ltb_spec n 10) as [Hlt|Hge].
  - split; [|split; [by constructor|cbn; lia]]. unfold back_val. cbn [foldr]. rewrite digit_bz by done. rewrite Z.mod_small by lia. lia.
  - destruct fuel as [|fuel]; [change (10 ^ Z.of_nat 1) with 10 in Hn; lia|].
    destruct (IH (n / 10)) as (Hv & HF & Hl); [|lia|].
    + split; [apply Z.div_pos; lia|]. apply Z.div_lt_upper_bound; [lia|].
      rewrite Nat2Z.inj_succ, Z.pow_succ_r in Hn by lia. lia.
    + split; [|split; [by constructor|cbn; lia]]. unfold back_val in *. cbn [foldr]. rewrite Hv, digit_bz by done.
      pose proof (Z.div_mod n 10 ltac:(lia)). lia.
Qed.

Lemma digits_back_length fuel k n : 0 <= n < 10 ^ Z.of_nat k -> (0 < k)%nat -> (length (digits_back fuel n) <= k)%nat.
Proof.
  revert k n; induction fuel as [|fuel IH]; intros k n Hn Hk; cbn [digits_back length]; [lia|].
  destruct (Z.ltb_spec n 10) as [Hlt|Hge]; [cbn; lia|]. destruct k as [|[|k]]; [lia|change (10 ^ Z.of_nat 1) with 10 in Hn; lia|].
  specialize (IH (S k) (n / 10)). apply le_n_S, IH; [|lia].
  split; [apply Z.div_pos; lia|]. apply Z.div_lt_upper_bound; [lia|].
  rewrite (Nat2Z.inj_succ (S k)), Z.pow_succ_r in Hn by lia. lia.
Qed.

Lemma back_val_zeros l k : back_val (l ++ repeat x30 k) = back_val l.
Proof.
  unfold back_val. rewrite foldr_app. f_equal. induction k as [|k IH]; [done|]. cbn [repeat foldr]. rewrite IH. done.
Qed.

Definition pad_back (n : Z) : bytes := digits_back 10 n ++ repeat x30 (5 - length (digits_back 10 n)).

Lemma pad_back_ok n : 0 <= n < 10 ^ 10 -> back_val (pad_back n) = n /\ Forall is_digit (pad_back n) /\ (0 < length (pad_back n))%nat.
Proof.
  intros Hn. destruct (digits_back_ok 10 n) as (Hv & HF & Hl); [done|lia|]. unfold pad_back.
  split; [by rewrite back_val_zeros|]. split; [|rewrite length_app; lia].
  apply Forall_app. split; [done|]. apply Forall_forall. intros d Hd%list_elem_of_In%repeat_spec. subst. done.
Qed.

Lemma parse_digits_app v a b : parse_digits v (a ++ b) = (v' ← parse_digits v a; parse_digits v' b).
Proof.
  revert v; induction a as [|d a IH]; intros v; [done|]. cbn [app parse_digits].
  destruct ((48 <=? bz d) && (bz d <=? 57)); [|done]. destruct (try_from u32_max (v * 10 + (bz d - 48))); [apply IH|done].
Qed.

Lemma parse_back l : Forall is_digit l -> back_val l <= u32_max -> parse_digits 0 (reverse l) = Some (back_val l).
Proof.
  assert (Hpos : forall l, Forall is_digit l -> 0 <= back_val l).
  { induction 1 as [|d k Hd HF IH]; [done|]. unfold back_val in *. cbn [foldr]. unfold is_digit in Hd. lia. }
  induction 1 as [|d l Hd HF IH]; intros Hm; [done|]. pose proof (Hpos l HF). rewrite reverse_cons, parse_digits_app.
  change (back_val (d :: l)) with (bz d - 48 + 10 * back_val l) in *. unfold is_digit in Hd. rewrite IH by lia.
  cbn [mbind option_bind parse_digits]. rewrite (proj2 (Z.leb_le 48 (bz d))), (proj2 (Z.leb_le (bz d) 57)) by lia. cbn [andb].
  unfold try_from. rewrite (proj2 (Z.leb_le 0 (back_val l * 10 + (bz d - 48)))), (proj2 (Z.leb_le (back_val l * 10 + (bz d - 48)) u32_max)) by lia.
  cbn. f_equal. lia.
Qed.

Lemma parse_u32_digits l : Forall is_digit l -> l <> [] -> parse_u32 l = parse_digits 0 l.
Proof.
  intros HF Hne. destruct l as [|d l]; [done|]. apply Forall_cons in HF as [Hd _].
  unfold parse_u32. assert (Hplus : (match d :: l with x2b :: rest => rest | _ => d :: l end) = d :: l).
  { destruct d; try reflexivity. exfalso. unfold is_digit in Hd. vm_compute in Hd. destruct Hd as [Hd _]. by apply Hd. }
  rewrite Hplus. by rewrite bool_decide_false.
Qed.

Lemma strip_prefix_app prefix rest : strip_prefix prefix (prefix ++ rest) = Some rest.
Proof.
  unfold strip_prefix, starts_with. rewrite take_app_length, bool_decide_true by done. by rewrite drop_app_length.
Qed.
Lemma strip_suffix_app suffix front : strip_suffix suffix (front ++ suffix) = Some front.
Proof.
  unfold strip_suffix. rewrite length_app. replace (length front + length suffix - length suffix)%nat with (length front) by lia.
  rewrite drop_app_length, take_app_length, !bool_decide_true by (done || lia). done.
Qed.

(** A name below a hundred thousand reads back as its number; above, it has six digits. *)
Lemma number_of_name prefix n : 0 <= n < 100000 -> number_of prefix (file_name prefix n) = Some n.
Proof.
  intros Hn. destruct (pad_back_ok n) as (Hv & HF & Hl); [lia|].
  assert (Hlen : length (pad_back n) = 5%nat).
  { unfold pad_back. pose proof (digits_back_length 10 5 n ltac:(done) ltac:(lia)). rewrite length_app, repeat_length. lia. }
  unfold number_of, file_name. rewrite strip_prefix_app. cbn [mbind option_bind]. rewrite strip_suffix_app. cbn [mbind option_bind].
  change (pad5 n) with (reverse (pad_back n)). unfold len. rewrite length_reverse, Hlen. cbn [negb Z.eqb Z.of_nat].
  change (negb (Z.of_nat 5 =? 5)) with false. cbn iota.
  rewrite parse_u32_digits; [|by apply Forall_reverse|intros Hnil; apply (f_equal length) in Hnil; rewrite length_reverse in Hnil; cbn in Hnil; lia].
  rewrite parse_back by (done || unfold u32_max; lia). by rewrite Hv.
Qed.

Lemma file_name_inj prefix n m : 0 <= n < 10 ^ 10 -> 0 <= m < 10 ^ 10 -> file_name prefix n = file_name prefix m -> n = m.
Proof.
  intros Hn Hm Heq. unfold file_name in Heq. apply app_inv_head, app_inv_tail in Heq.
  change (reverse (pad_back n) = reverse (pad_back m)) in Heq. apply (f_equal reverse) in Heq. rewrite !reverse_involutive in Heq.
  destruct (pad_back_ok n Hn) as [Hvn _]. destruct (pad_back_ok m Hm) as [Hvm _]. congruence.
Qed.

Lemma parse_bound v l n : 0 <= v -> parse_digits v l = Some n -> 0 <= n < (v + 1) * 10 ^ len l.
Proof.
  revert v; induction l as [|d l IH]; intros v Hv; cbn [parse_digits].
  { intros [= <-]. change (10 ^ len []) with 1. lia. }
  destruct (Z.leb_spec 48 (bz d)); [|done]. destruct (Z.leb_spec (bz d) 57); [|done]. cbn [andb]. unfold try_from.
  destruct ((0 <=? v * 10 + (bz d - 48)) && (v * 10 + (bz d - 48) <=? u32_max)); [|done]. cbn [mbind option_bind].
  intros Hp. apply IH in Hp; [|lia]. rewrite len_cons, Z.pow_add_r by (pose proof (len_nonneg l); lia).
  assert (0 < 10 ^ len l) by (apply Z.pow_pos_nonneg; [lia|apply len_nonneg]). nia.
Qed.

(** Five digits make less than a hundred thousand. *)
Lemma number_bound prefix name n : number_of prefix name = Some n -> 0 <= n < 100000.
Proof.
  unfold number_of. destruct (strip_prefix prefix name) as [rest|]; [|done]. cbn [mbind option_bind].
  destruct (strip_suffix DAT rest) as [digits|]; [|done]. cbn [mbind option_bind].
  destruct (Z.eqb_spec (len digits) 5) as [Hl|]; [|done]. cbn [negb]. unfold parse_u32.
  set (ds := match digits with x2b :: r => r | _ => digits end).
  assert (Hds : len ds <= 5).
  { unfold ds. destruct digits as [|d digits]; [rewrite len_nil; lia|]. rewrite len_cons in Hl.
    destruct d; rewrite ?len_cons; lia. }
  destruct (bool_decide (ds = [])); [done|]. intros Hp. apply parse_bound in Hp; [|lia].
  assert (10 ^ len ds <= 10 ^ 5) by (apply Z.pow_le_mono_r; lia). lia.
Qed.

Lemma highest_bound directory prefix : 0 <= highest directory prefix < 100000.
Proof.
  unfold highest. induction (map_to_list directory).*1 as [|x l IH]; cbn [foldr]; [lia|].
  destruct (number_of prefix x) as [n|] eqn:Hn; [|done]. apply number_bound in Hn. lia.
Qed.

Lemma highest_ge directory prefix name n : is_Some (directory !! name) -> number_of prefix name = Some n ->
  n <= highest directory prefix.
Proof.
  intros [c Hc] Hn. unfold highest.
  assert (Hin : name ∈ (map_to_list directory).*1) by (apply list_elem_of_fmap; exists (name, c); split; [done|by apply elem_of_map_to_list]).
  induction (map_to_list directory).*1 as [|x l IH]; [by apply not_elem_of_nil in Hin|]. cbn [foldr].
  apply elem_of_cons in Hin as [<-|Hin]; [rewrite Hn; lia|]. specialize (IH Hin). destruct (number_of prefix x); lia.
Qed.

Lemma highest_attained directory prefix k : 0 <= k -> (forall name n, is_Some (directory !! name) -> number_of prefix name = Some n -> n <= k) ->
  0 <= highest directory prefix <= k.
Proof.
  intros Hk Hb. unfold highest.
  assert (HF : Forall (fun name => is_Some (directory !! name)) (map_to_list directory).*1).
  { apply Forall_forall. intros x Hx. apply list_elem_of_fmap in Hx as ([y c] & -> & Hy). apply elem_of_map_to_list in Hy. eauto. }
  induction HF as [|x l Hx HF IH]; cbn [foldr]; [lia|]. destruct (number_of prefix x) as [n|] eqn:Hn; [|lia].
  specialize (Hb x n Hx Hn). lia.
Qed.

(** ** What was appended reads back *)

(** Files only grow, and what is durable stays so. *)
Definition grows (directory directory' : Directory) : Prop :=
  forall name f, directory !! name = Some f -> exists f', directory' !! name = Some f' /\
    f_bytes f `prefix_of` f_bytes f' /\ Z.min (f_safe f) (len (f_bytes f)) <= f_safe f' /\ (f_entry f = true -> f_entry f' = true).

Lemma grows_refl directory : grows directory directory.
Proof. intros name f Hf. exists f. split; [done|]. split; [done|]. split; [lia|done]. Qed.
Lemma prefix_len (a b : bytes) : a `prefix_of` b -> len a <= len b.
Proof. intros Hp%prefix_length. unfold len. lia. Qed.
Lemma grows_trans d1 d2 d3 : grows d1 d2 -> grows d2 d3 -> grows d1 d3.
Proof.
  intros H1 H2 name f Hf. destruct (H1 _ _ Hf) as (f1 & Hf1 & Hp1 & Hs1 & He1). destruct (H2 _ _ Hf1) as (f2 & Hf2 & Hp2 & Hs2 & He2).
  exists f2. split; [done|]. split; [by etrans|]. pose proof (prefix_len _ _ Hp1). split; [lia|auto].
Qed.
Lemma write_grows directory handle bs : grows directory (SeriesWriter.write_all directory handle bs).
Proof.
  intros name f Hf. unfold SeriesWriter.write_all. destruct (decide (name = handle)) as [->|Hne].
  - rewrite lookup_insert_eq, Hf. eexists. split; [done|]. cbn. split; [by apply prefix_app_r|]. split; [lia|done].
  - rewrite lookup_insert_ne by done. by apply grows_refl.
Qed.
Lemma fsync_grows directory name : grows directory (fsync directory name).
Proof.
  intros other f Hf. unfold fsync. destruct (decide (other = name)) as [->|Hne].
  - rewrite lookup_alter_eq, Hf. eexists. split; [done|]. cbn. split; [done|]. split; [lia|done].
  - rewrite lookup_alter_ne by done. by apply grows_refl.
Qed.
Lemma fsync_dir_grows directory : grows directory (fsync_dir directory).
Proof.
  intros name f Hf. unfold fsync_dir. rewrite lookup_fmap, Hf. eexists. split; [done|]. cbn. split; [done|]. split; [lia|done].
Qed.
Lemma create_grows directory name : directory !! name = None -> grows directory (<[name := empty_file]> directory).
Proof.
  intros Hn other f Hf. destruct (decide (other = name)) as [->|Hne]; [congruence|]. rewrite lookup_insert_ne by done. by apply grows_refl.
Qed.
Lemma sync_grows directory w disk : grows directory (SeriesWriter.sync directory w disk).1.1.
Proof.
  unfold SeriesWriter.sync. destruct (sw_unsynced w), (d_sync disk); cbn; apply grows_refl || apply fsync_grows.
Qed.

Section series.
Context (prefix magic : bytes) (trailer_bytes max_record max_file : Z).
Context (Hmagic : length magic = 4%nat) (Htrailer : trailer_bytes = 0 \/ trailer_bytes = 32).
Context (Hrecord : 0 <= max_record /\ max_record + 40 <= u32_max) (Hfile : 0 < max_file <= MAX_FILE_BYTES).
Implicit Types (directory : Directory) (w : SeriesWriter).

(** The cursor is at the end of the highest file. *)
Record writer_ok directory w : Prop := mkWriterOk {
  wk_config : sw_prefix w = prefix /\ sw_magic w = magic /\ sw_trailer_bytes w = trailer_bytes /\
    sw_max_record w = max_record /\ sw_max_file w = max_file;
  wk_handle : sw_handle w = file_name prefix (sw_file w);
  wk_end : exists f, directory !! sw_handle w = Some f /\ len (f_bytes f) = sw_offset w;
  wk_offset : sw_offset w <= u32_max;
  wk_file : 0 <= sw_file w;
  wk_highest name n : is_Some (directory !! name) -> number_of prefix name = Some n -> n <= sw_file w;
}.

Definition fits (record : bytes * option bytes) : Prop :=
  len record.1 <= max_record /\
  match record.2 with Some trailer => trailer_bytes = 32 /\ length trailer = 32%nat | None => trailer_bytes = 0 end.

(** The record at a location. *)
Definition holds directory (placed : Placed) (record : bytes * option bytes) : Prop :=
  exists f pre post, directory !! file_name prefix (pl_file placed) = Some f /\
    f_bytes f = pre ++ SeriesWriter.frame magic record.1 (len record.1) record.2 ++ post /\
    pl_offset placed = len pre + FRAME_BYTES /\ pl_len placed = len record.1.

Lemma grows_holds d1 d2 placed record : grows d1 d2 -> holds d1 placed record -> holds d2 placed record.
Proof.
  intros Hg (f & pre & post & Hd & Hb & Ho & Hl). destruct (Hg _ _ Hd) as (f' & Hf' & [more Hm] & _).
  exists f', pre, (post ++ more). split; [done|]. split; [|done]. by rewrite Hm, Hb, <-!app_assoc.
Qed.

Definition record_len (record : bytes * option bytes) : Z := FRAME_BYTES + len record.1 + trailer_bytes.

Lemma frame_len record : fits record ->
  len (SeriesWriter.frame magic record.1 (len record.1) record.2) = record_len record /\ 0 <= len record.1 <= max_record.
Proof.
  intros [Hb Ht]. pose proof (len_nonneg record.1). split; [|lia].
  assert (Hm : len magic = 4) by (unfold len; by rewrite Hmagic).
  assert (Hl : len (le_bytes 4 (len record.1)) = 4) by (unfold len; by rewrite length_le_bytes).
  assert (Htl : len (default [] record.2) = trailer_bytes).
  { destruct record.2 as [trailer|]; [destruct Ht as [-> Ht]; unfold len; cbn; by rewrite Ht|by subst]. }
  unfold SeriesWriter.frame, record_len, FRAME_BYTES. rewrite !len_app, Hm, Hl, Htl. lia.
Qed.

Lemma sync_good directory w : exists d,
  SeriesWriter.sync directory w good_disk = (d, SeriesWriter.at_ w (sw_file w) (sw_offset w) (sw_handle w) false, Ok tt) /\
  forall name, is_Some (d !! name) <-> is_Some (directory !! name).
Proof.
  unfold SeriesWriter.sync. destruct w as [? ? ? ? ? ? ? ? []]; cbn; eexists; (split; [done|]); intros name; [|done].
  unfold fsync. by rewrite lookup_alter_is_Some.
Qed.

(** [place] leaves room for the record at the cursor. *)
Lemma place_ok directory w record : writer_ok directory w -> 0 < record -> sw_file w < 99999 ->
  exists directory' w', SeriesWriter.place directory w record good_disk = (directory', w', Ok tt) /\
    writer_ok directory' w' /\ grows directory directory' /\ sw_file w <= sw_file w' <= sw_file w + 1 /\
    (sw_offset w' = 0 \/ sw_offset w' + record <= max_file).
Proof.
  intros Hw Hrec Hf. pose proof Hw as [(C1 & C2 & C3 & C4 & C5) Hh (contents & Hc & Hl) Ho Hfl Hmax].
  pose proof (len_nonneg (f_bytes contents)). unfold SeriesWriter.place.
  destruct (Z.eqb_spec (sw_offset w) 0) as [H0|H0].
  { exists directory, w. split; [done|]. split; [done|]. split; [apply grows_refl|]. split; [lia|by left]. }
  cbn [orb]. rewrite C5. destruct (Z.leb_spec (saturating_add32 (sw_offset w) record) max_file) as [Hle|Hgt].
  { exists directory, w. split; [done|]. split; [done|]. split; [apply grows_refl|]. split; [lia|right].
    unfold saturating_add32, MAX_FILE_BYTES, u32_max in *. lia. }
  destruct (sync_good directory w) as (d & Hs & Hdom). rewrite Hs.
  cbn [sw_file SeriesWriter.at_ sw_prefix sw_unsynced]. rewrite C1.
  rewrite (proj2 (Z.ltb_ge u32_max (sw_file w + 1))) by (unfold u32_max; lia).
  assert (Hnone : d !! file_name prefix (sw_file w + 1) = None).
  { apply eq_None_not_Some. intros He%Hdom.
    pose proof (Hmax _ _ He (number_of_name prefix (sw_file w + 1) ltac:(lia))). lia. }
  rewrite bool_decide_false by (rewrite Hnone; by intros []). cbn [orb negb d_create good_disk d_dir_sync].
  eexists _, _. split; [done|]. cbn. split; [|split; [|split; [lia|by left]]].
  - split; cbn; [by rewrite C2|done| |unfold u32_max; lia|lia|].
    { eexists. split; [unfold fsync_dir; by rewrite lookup_fmap, lookup_insert_eq|done]. }
    intros name n Hname Hn. destruct (decide (name = file_name prefix (sw_file w + 1))) as [->|Hne].
    + rewrite number_of_name in Hn by lia. injection Hn as <-. lia.
    + unfold fsync_dir in Hname. rewrite lookup_fmap, fmap_is_Some, lookup_insert_ne in Hname by done.
      pose proof (Hmax name n (proj1 (Hdom _) Hname) Hn). lia.
  - pose proof (sync_grows directory w good_disk) as Hg. rewrite Hs in Hg.
    eapply grows_trans; [exact Hg|]. eapply grows_trans; [by apply create_grows|apply fsync_dir_grows].
Qed.

Lemma append_ok directory w record : writer_ok directory w -> fits record -> sw_file w < 99999 ->
  exists directory' w' placed,
    SeriesWriter.append directory w record.1 record.2 good_disk = (directory', w', Ok placed) /\
    writer_ok directory' w' /\ grows directory directory' /\ holds directory' placed record /\
    sw_file w <= sw_file w' <= sw_file w + 1.
Proof.
  intros Hw Hfit Hf. destruct (frame_len record Hfit) as [Hfl Hbl]. pose proof Hfit as [_ Ht].
  pose proof Hw as [(C1 & C2 & C3 & C4 & C5) _ _ _ _ _]. unfold SeriesWriter.append. rewrite C3, C4.
  assert (Htr : (if bool_decide (is_Some record.2) then 32 else 0) = trailer_bytes).
  { destruct record.2; [rewrite bool_decide_true by eauto; lia|rewrite bool_decide_false by (by intros []); lia]. }
  rewrite Htr, Z.eqb_refl. cbn [negb]. unfold try_from.
  rewrite (proj2 (Z.leb_le 0 (len record.1))), (proj2 (Z.leb_le (len record.1) u32_max)) by lia. cbn [andb default from_option]. unfold id.
  rewrite (proj2 (Z.leb_le (len record.1) max_record)) by lia. cbn [negb].
  assert (Hrec : saturating_add32 (saturating_add32 FRAME_BYTES (len record.1)) trailer_bytes = record_len record).
  { unfold saturating_add32, record_len, FRAME_BYTES. lia. }
  rewrite Hrec. assert (Hpos : FRAME_BYTES <= record_len record <= u32_max) by (unfold record_len, FRAME_BYTES; lia).
  destruct (place_ok directory w (record_len record) Hw) as (d1 & w1 & -> & Hw1 & Hg1 & Hf1 & Hroom); [unfold FRAME_BYTES in *; lia|done|].
  cbn [d_written good_disk]. pose proof Hw1 as [(D1 & D2 & D3 & D4 & D5) Hh1 (contents & Hc1 & Hl1) Ho1 Hfl1 Hmax1].
  pose proof (len_nonneg (f_bytes contents)). rewrite D2.
  assert (Hend : saturating_add32 (sw_offset w1) (record_len record) = sw_offset w1 + record_len record).
  { unfold saturating_add32. destruct Hroom; unfold MAX_FILE_BYTES, u32_max in *; lia. }
  rewrite Hend. cbn [sw_offset SeriesWriter.at_]. rewrite (proj2 (Z.ltb_lt (sw_offset w1) (sw_offset w1 + record_len record))) by (unfold FRAME_BYTES in *; lia).
  cbn [negb]. eexists _, _, _. split; [done|]. unfold SeriesWriter.write_all. rewrite Hc1. cbn [default from_option]. unfold id.
  split; [|split; [|split; [|done]]].
  - split; cbn; [done|done| | |done|].
    + eexists. split; [apply lookup_insert_eq|]. cbn. rewrite len_app, Hfl. lia.
    + destruct Hroom; unfold MAX_FILE_BYTES, u32_max in *; lia.
    + intros name n Hname Hn. apply (Hmax1 name n); [|done]. destruct (decide (name = sw_handle w1)) as [->|Hne]; [eauto|].
      by rewrite lookup_insert_ne in Hname.
  - eapply grows_trans; [exact Hg1|]. pose proof (write_grows d1 (sw_handle w1) (SeriesWriter.frame magic record.1 (len record.1) record.2)) as Hg.
    unfold SeriesWriter.write_all in Hg. by rewrite Hc1 in Hg.
  - eexists _, (f_bytes contents), []. cbn. rewrite <-Hh1, lookup_insert_eq. split; [done|]. cbn. rewrite app_nil_r. split; [done|]. split; [|done].
    unfold saturating_add32, FRAME_BYTES in *. destruct Hroom; unfold MAX_FILE_BYTES, u32_max in *; lia.
Qed.

(** ** Reading *)

Lemma handles_get_ok open file : len open <= MAX_OPEN_FILES ->
  exists open', Handles.get open file true = (open', Ok file) /\ len open' <= MAX_OPEN_FILES.
Proof.
  intros Hlen. unfold Handles.get. destruct (existsb (Z.eqb file) open) eqn:He.
  - apply existsb_exists in He as (f & Hin & ->%Z.eqb_eq). apply list_elem_of_In in Hin.
    destruct (list_find (fun g => g = f) open) as [[position g]|] eqn:Hf.
    + apply list_find_Some in Hf as (Hp & -> & _). eexists. split; [done|]. rewrite len_cons. unfold len in *.
      pose proof (lookup_lt_Some _ _ _ Hp). rewrite length_delete by done. lia.
    + apply list_find_None in Hf. rewrite Forall_forall in Hf. by destruct (Hf f Hin).
  - cbn [negb]. destruct (Z.leb_spec MAX_OPEN_FILES (len open)) as [Hge|Hlt]; eexists.
    + assert (Hr : len (removelast open) = len open - 1).
      { destruct open as [|x open _] using rev_ind; [unfold len, MAX_OPEN_FILES in *; cbn in *; lia|].
        rewrite removelast_last, len_app. unfold len. cbn. lia. }
      rewrite len_cons, Hr. rewrite (proj2 (Z.leb_le (len open - 1 + 1) MAX_OPEN_FILES)) by lia. split; [done|].
      rewrite len_cons, Hr. lia.
    + rewrite len_cons. rewrite (proj2 (Z.leb_le (len open + 1) MAX_OPEN_FILES)) by lia. split; [done|]. rewrite len_cons. lia.
Qed.

Definition zeros32 : bytes := repeat x00 32.

Lemma split_frame handles record : fits record ->
  SeriesReader.split (mkReader prefix magic trailer_bytes max_record handles)
    (SeriesWriter.frame magic record.1 (len record.1) record.2) (len record.1) = Ok (record.1, default zeros32 record.2).
Proof.
  intros Hfit. destruct (frame_len record Hfit) as [_ Hbl]. pose proof Hfit as [_ Ht]. unfold SeriesReader.split, SeriesReader.decode, SeriesWriter.frame.
  rewrite take_eq by (unfold len; by rewrite Hmagic). run. cbn [sr_magic sr_trailer_bytes]. rewrite bool_decide_true by done. cbn [negb].
  rewrite u32_le_app by (unfold u32_max in *; lia). run. rewrite Z.eqb_refl. cbn [negb]. rewrite take_app. run.
  destruct record.2 as [trailer|]; cbn [default from_option].
  - destruct Ht as [-> Hl]. cbn [Z.eqb]. unfold StoreReader.hash, id. rewrite <-(app_nil_r trailer) at 1.
    rewrite take_eq by (unfold len; by rewrite Hl). run. done.
  - rewrite Ht. done.
Qed.

Lemma read_ok directory handles placed record : fits record -> holds directory placed record ->
  len handles <= MAX_OPEN_FILES ->
  exists handles', SeriesReader.read directory (mkReader prefix magic trailer_bytes max_record handles)
      (pl_file placed) (pl_offset placed) (pl_len placed) =
    (mkReader prefix magic trailer_bytes max_record handles', Ok (record.1, default zeros32 record.2)) /\
    len handles' <= MAX_OPEN_FILES.
Proof.
  intros Hfit (f & pre & post & Hd & Hb & Ho & Hl) Hh. destruct (frame_len record Hfit) as [Hfl Hbl]. pose proof (len_nonneg pre).
  unfold SeriesReader.read. cbn [sr_max_record sr_prefix sr_handles sr_trailer_bytes]. rewrite Hl, Ho.
  rewrite (proj2 (Z.ltb_ge max_record (len record.1))) by lia. rewrite (proj2 (Z.ltb_ge (len pre + FRAME_BYTES) FRAME_BYTES)) by lia.
  rewrite bool_decide_true by (rewrite Hd; eauto).
  destruct (handles_get_ok handles (pl_file placed) Hh) as (handles' & -> & Hh'). exists handles'. split; [|done].
  f_equal. rewrite Hd. cbn [default from_option]. unfold id, SeriesReader.read_exact_at. rewrite Hb.
  rewrite slice_middle; [run; by apply split_frame|lia|]. rewrite Hfl. unfold record_len, saturating_add32, FRAME_BYTES in *. lia.
Qed.

(** ** Runs of appends *)

Fixpoint append_all directory w (records : list (bytes * option bytes))
    : outcome IoError (Directory * SeriesWriter * list Placed) :=
  match records with
  | [] => Ok (directory, w, [])
  | record :: records =>
      match SeriesWriter.append directory w record.1 record.2 good_disk with
      | (directory, w, Ok placed) =>
          '(directory, w, rest) ← append_all directory w records; Ok (directory, w, placed :: rest)
      | (_, _, Err e) => Err e
      | (_, _, Panic) => Panic
      end
  end.

Lemma append_all_ok records : Forall fits records -> forall directory w, writer_ok directory w ->
  sw_file w + len records < 100000 ->
  exists directory' w' placed, append_all directory w records = Ok (directory', w', placed) /\
    writer_ok directory' w' /\ grows directory directory' /\ Forall2 (fun record pl => holds directory' pl record) records placed /\
    sw_file w' < 100000.
Proof.
  induction 1 as [|record records Hfit HF IH]; intros directory w Hw Hn; cbn [append_all].
  { exists directory, w, []. rewrite len_nil in Hn. split; [done|]. split; [done|]. split; [apply grows_refl|]. split; [constructor|lia]. }
  rewrite len_cons in Hn. pose proof (len_nonneg records).
  destruct (append_ok directory w record Hw Hfit ltac:(lia)) as (d1 & w1 & pl & -> & Hw1 & Hg1 & Hh & Hf1).
  destruct (IH d1 w1 Hw1 ltac:(lia)) as (d2 & w2 & pls & -> & Hw2 & Hg2 & Hhs & Hf2). run.
  exists d2, w2, (pl :: pls). split; [done|]. split; [done|]. split; [by eapply grows_trans|]. split; [|done].
  constructor; [by eapply grows_holds|done].
Qed.

Lemma open_ok directory d0 w0 r0 : open_with_bound directory prefix magic trailer_bytes max_record max_file = Ok (d0, w0, r0) ->
  writer_ok d0 w0 /\ sw_file w0 = highest directory prefix.
Proof.
  unfold open_with_bound. intros Ho. inv_ok.
  destruct (Z.ltb_spec u32_max (len (f_bytes (default empty_file (directory !! file_name prefix (highest directory prefix)))))) as [|Hle]; [done|].
  inv_ok. split; [|done]. split; cbn; [done|done|eexists; split; [apply lookup_insert_eq|done]|done| |].
  - apply highest_bound.
  - intros name n [c Hc] Hn. destruct (decide (name = file_name prefix (highest directory prefix))) as [->|Hne].
    + rewrite number_of_name in Hn by apply highest_bound. injection Hn as <-. lia.
    + rewrite lookup_insert_ne in Hc by done. eapply highest_ge; eauto.
Qed.

Lemma reopen_ok directory w : writer_ok directory w -> sw_file w < 100000 ->
  open_with_bound directory prefix magic trailer_bytes max_record max_file =
    Ok (directory, SeriesWriter.at_ w (sw_file w) (sw_offset w) (sw_handle w) false,
        mkReader prefix magic trailer_bytes max_record Handles.new).
Proof.
  intros [(C1 & C2 & C3 & C4 & C5) Hh (contents & Hc & Hl) Ho Hf Hmax] Hlt. unfold open_with_bound.
  assert (Htb : (trailer_bytes =? 0) || (trailer_bytes =? 32) = true) by (destruct Htrailer as [-> | ->]; done).
  rewrite Htb, (proj2 (Z.ltb_lt 0 max_file)), (proj2 (Z.leb_le max_file MAX_FILE_BYTES)) by lia. run.
  assert (Hhigh : highest directory prefix = sw_file w).
  { pose proof (highest_attained directory prefix (sw_file w) Hf Hmax).
    pose proof (highest_ge directory prefix (sw_handle w) (sw_file w) (mk_is_Some _ _ Hc)) as Hge.
    rewrite Hh, number_of_name in Hge by lia. specialize (Hge eq_refl). lia. }
  rewrite Hhigh, <-Hh, Hc. cbn [default from_option]. unfold id. rewrite (proj2 (Z.ltb_ge u32_max (len (f_bytes contents)))) by lia.
  rewrite insert_id by done. unfold SeriesWriter.at_. by rewrite C1, C2, C3, C4, C5, Hl.
Qed.

End series.

Definition se_body (n : nat) : bytes := repeat x61 n.
Definition se_open : Directory * SeriesWriter * SeriesReader :=
  match open_with_bound ∅ BLOCK_PREFIX BLOCK_RECORD_MAGIC 0 1000 64 with
  | Ok opened => opened
  | _ => (∅, mkWriter [] [] 0 0 0 0 0 [] false, mkReader [] [] 0 0 [])
  end.

Lemma se_opened : open_with_bound ∅ BLOCK_PREFIX BLOCK_RECORD_MAGIC 0 1000 64 = Ok (se_open.1.1, se_open.1.2, se_open.2).
Proof.
  assert (Hok : is_ok (open_with_bound ∅ BLOCK_PREFIX BLOCK_RECORD_MAGIC 0 1000 64) = true) by (vm_compute; reflexivity).
  unfold se_open. destruct (open_with_bound _ _ _ _ _ _) as [[[d w] r]|e|]; [reflexivity|discriminate..].
Qed.
Definition se_records : list (bytes * option bytes) := [(se_body 30, None); (se_body 40, None); (se_body 3, None)].


(** ** An append that fails *)

(** Append a record on a disk that fails, and then one on a disk that does not. *)
Definition retried (disk : Disk) (first second : bytes) : outcome IoError (Directory * Placed) :=
  let '(directory, writer, _) := se_open in
  let '(directory, writer, _) := SeriesWriter.append directory writer (se_body 20) None good_disk in
  match SeriesWriter.append directory writer first None disk with
  | (_, _, Ok _) | (_, _, Panic) => Panic
  | (directory, writer, Err _) =>
      match SeriesWriter.append directory writer second None good_disk with
      | (directory, _, Ok placed) => Ok (directory, placed)
      | (_, _, Err e) => Err e
      | (_, _, Panic) => Panic
      end
  end.
Definition read_back (o : outcome IoError (Directory * Placed)) : outcome IoError (bytes * bytes) :=
  match o with
  | Ok (directory, placed) => snd (SeriesReader.read directory se_open.2 (pl_file placed) (pl_offset placed) (pl_len placed))
  | Err e => Err e
  | Panic => Panic
  end.

(**  After an append that failed, the next one can succeed and answer with a location where its
    record is not.  A write that reaches the file in part leaves the cursor behind the end of the
    file; and a roll whose directory cannot be synced has already moved the handle to the new file,
    so that a record which still fits the old one is written to the new one and named in the old.
    Either way the record cannot be read back. *)
Theorem failed_append_misplaces :
  let torn := retried (mkDisk true true true (Some 5)) (se_body 10) (se_body 10) in
  let rolled := retried (mkDisk true true false None) (se_body 50) (se_body 10) in
  is_ok torn = true /\ is_ok (read_back torn) = false /\ is_ok rolled = true /\ is_ok (read_back rolled) = false.
Proof. vm_compute. repeat split; reflexivity. Qed.
