(* ===== verification/Store.v ===== *)
(** * Store: the two series and the index as one store ([store/mod.rs])

    [open], the writes and reads of blocks and undo records, and [commit].  The data directory is
    the directory of the two series and the file of the index; its lock is not modelled.

    The ordering rule of the module is proved on sequences of operations whose calls to the disk
    may fail: whatever a crash takes, every block the index can name is there. *)
From S2P Require Import Prelude Bitcoin Params Sighash SighashProofs Tx Queue Tree StoreReader StoreCoin StoreUndo Journal JournalLoad Chain Series.

Definition MAX_BLOCK_RECORD_BYTES : Z := MAX_BLOCK_WEIGHT.

Record Store := mkStore { s_blocks : SeriesReader; s_undo : SeriesReader }.
Record ChainStore := mkChainStore { cs_blocks : SeriesWriter; cs_index : Journal.Journal }.
Record UndoStore := mkUndoStore { us_undo : SeriesWriter }.

Inductive StoreError :=
| Io (error : IoError)
| Index (error : Journal.JournalError).

Module Store.
Definition open (blocks : Directory) (index : option bytes) (genesis : bytes)
    : outcome StoreError (Directory * (Store * ChainStore * UndoStore)) :=
  '(blocks, block_writer, block_reader) ←
    map_err Io (open_series blocks BLOCK_PREFIX BLOCK_RECORD_MAGIC 0 MAX_BLOCK_RECORD_BYTES);
  '(blocks, undo_writer, undo_reader) ←
    map_err Io (open_series blocks UNDO_PREFIX UNDO_RECORD_MAGIC Undo.TRAILER_BYTES Undo.MAX_UNDO_RECORD_BYTES);
  journal ← map_err Index (Journal.open index genesis);
  Ok (blocks, (mkStore block_reader undo_reader, mkChainStore block_writer journal, mkUndoStore undo_writer)).

Definition read_block (directory : Directory) (self : Store) (at_ : BlockLocation) : Store * outcome IoError bytes :=
  let (blocks, r) := SeriesReader.read directory (s_blocks self) (bl_file at_) (bl_offset at_) (bl_len at_) in
  (mkStore blocks (s_undo self), '(bs, _) ← r; Ok bs).

Definition read_undo `{Hashes} (directory : Directory) (self : Store) (at_ : UndoLocation) (previous : bytes)
    : Store * outcome IoError bytes :=
  let (undo, r) := SeriesReader.read directory (s_undo self) (ul_file at_) (ul_offset at_) (ul_len at_) in
  (mkStore (s_blocks self) undo,
   '(bs, trailer) ← r;
   if negb (bool_decide (trailer = Undo.trailer bs previous)) then Err ChecksumMismatch else Ok bs).
End Store.

Module UndoStore.
Definition write_undo `{Hashes} (directory : Directory) (self : UndoStore) (bs previous : bytes) (disk : Disk)
    : Directory * UndoStore * outcome IoError UndoLocation :=
  let '(directory, undo, r) := SeriesWriter.append directory (us_undo self) bs (Some (Undo.trailer bs previous)) disk in
  (directory, mkUndoStore undo, placed ← r; Ok (mkUndoLocation (pl_file placed) (pl_offset placed) (pl_len placed))).
End UndoStore.

Module ChainStore.
Definition write_block (directory : Directory) (self : ChainStore) (bs : bytes) (disk : Disk)
    : Directory * ChainStore * outcome IoError BlockLocation :=
  let '(directory, blocks, r) := SeriesWriter.append directory (cs_blocks self) bs None disk in
  (directory, mkChainStore blocks (cs_index self),
   placed ← r; Ok (mkBlockLocation (pl_file placed) (pl_offset placed) (pl_len placed))).

(** [index] is whether the disk took the records of the index. *)
Definition commit `{Hashes} `{Journal.HeaderCodec} (directory : Directory) (self : ChainStore) (tree : HeaderTree)
    (disk : Disk) (index : bool) : Directory * ChainStore * HeaderTree * outcome IoError Z :=
  if len (t_dirty tree) =? 0 then (directory, self, tree, Ok 0)
  else match SeriesWriter.sync directory (cs_blocks self) disk with
  | (directory, blocks, Ok _) =>
      match store_commit (cs_index self) tree index with
      | Ok (Some (journal, tree, written)) => (directory, mkChainStore blocks journal, tree, Ok written)
      | Ok None => (directory, mkChainStore blocks (cs_index self), tree, Err OsError)
      | Err e => (directory, mkChainStore blocks (cs_index self), tree, Err e)
      | Panic => (directory, mkChainStore blocks (cs_index self), tree, Panic)
      end
  | (directory, blocks, Err e) => (directory, mkChainStore blocks (cs_index self), tree, Err e)
  | (directory, blocks, Panic) => (directory, mkChainStore blocks (cs_index self), tree, Panic)
  end.
End ChainStore.

(** ** What a crash leaves *)

(** A file whose name was synced is still there, with at least the bytes that were. *)
Definition crash (before after : Directory) : Prop :=
  forall name f, before !! name = Some f -> f_entry f = true ->
    exists f', after !! name = Some f' /\ take (Z.to_nat (f_safe f)) (f_bytes f) `prefix_of` f_bytes f'.

Section durable.
Context (prefix magic : bytes).
Implicit Types (directory : Directory) (w : SeriesWriter) (placed : Placed) (record : bytes * option bytes).

(** The record at a location that a crash cannot take, or that the next sync makes so. *)
Definition covered directory placed record (pending : bytes -> Prop) : Prop :=
  exists f pre post, directory !! file_name prefix (pl_file placed) = Some f /\
    f_bytes f = pre ++ SeriesWriter.frame magic record.1 (len record.1) record.2 ++ post /\
    pl_offset placed = len pre + FRAME_BYTES /\ pl_len placed = len record.1 /\ f_entry f = true /\
    (len pre + len (SeriesWriter.frame magic record.1 (len record.1) record.2) <= f_safe f \/
     pending (file_name prefix (pl_file placed))).
Definition unsynced_file w (name : bytes) : Prop := sw_handle w = name /\ sw_unsynced w = true.
Definition safe directory placed record : Prop := covered directory placed record (fun _ => False).
Definition safe_or_pending directory w placed record : Prop := covered directory placed record (unsynced_file w).

Lemma covered_grows d d' placed record (P Q : bytes -> Prop) : grows d d' -> (forall name, P name -> Q name) ->
  covered d placed record P -> covered d' placed record Q.
Proof.
  intros Hg HPQ (f & pre & post & Hd & Hb & Ho & Hl & He & Hs). destruct (Hg _ _ Hd) as (f' & Hf' & [more Hm] & Hsafe & He').
  exists f', pre, (post ++ more). split; [done|]. split; [by rewrite Hm, Hb, <-!app_assoc|]. do 3 (split; [auto|]).
  destruct Hs as [Hs|Hs]; [left|right; auto]. rewrite Hb, !len_app in Hsafe. pose proof (len_nonneg post). lia.
Qed.

Lemma safe_crash d d' placed record : safe d placed record -> crash d d' -> holds prefix magic d' placed record.
Proof.
  intros (f & pre & post & Hd & Hb & Ho & Hl & He & [Hs|[]]) Hc. destruct (Hc _ _ Hd He) as (f' & Hf' & [more Hm]).
  set (fr := SeriesWriter.frame magic record.1 (len record.1) record.2) in *.
  assert (Ht : exists post', take (Z.to_nat (f_safe f)) (f_bytes f) = pre ++ fr ++ post').
  { rewrite Hb, app_assoc, take_app_ge by (rewrite length_app; unfold len in Hs; lia). eexists. by rewrite <-app_assoc. }
  destruct Ht as [post' Ht]. exists f', pre, (post' ++ more). split; [done|]. split; [by rewrite Hm, Ht, <-!app_assoc|done].
Qed.

(** A sync makes everything that was pending safe. *)
Lemma sync_safe directory w disk d' w' : SeriesWriter.sync directory w disk = (d', w', Ok tt) ->
  forall placed record, safe_or_pending directory w placed record -> safe d' placed record.
Proof.
  unfold SeriesWriter.sync. intros Hs placed record Hc. destruct (sw_unsynced w) eqn:Hu; cbn in Hs.
  - destruct (d_sync disk); [|discriminate]. cbn in Hs. injection Hs as <- <-. pose proof (fsync_grows directory (sw_handle w)) as Hg.
    destruct Hc as (f & pre & post & Hd & Hb & Ho & Hl & He & [Hsafe|[Hh _]]).
    + apply (covered_grows _ _ _ _ (fun _ => False) _ Hg); [done|]. exists f, pre, post. repeat (split; [done|]). by left.
    + eexists _, pre, post. unfold fsync. rewrite Hh, lookup_alter_eq, Hd. split; [done|]. cbn. repeat (split; [done|]).
      left. rewrite Hb, !len_app. pose proof (len_nonneg post). lia.
  - injection Hs as <- <-. apply (covered_grows directory directory _ _ (unsynced_file w)); [apply grows_refl| |exact Hc]. intros name [_ Hp]. congruence.
Qed.

Lemma sync_keeps directory w disk d' w' r : SeriesWriter.sync directory w disk = (d', w', r) ->
  grows directory d' /\ sw_handle w' = sw_handle w /\ sw_prefix w' = sw_prefix w /\
  forall placed record, safe_or_pending directory w placed record -> safe_or_pending d' w' placed record.
Proof.
  intros Hs. pose proof (sync_grows directory w disk) as Hg. rewrite Hs in Hg. split; [done|].
  assert (Hw : sw_handle w' = sw_handle w /\ sw_prefix w' = sw_prefix w /\ (r = Ok tt \/ w' = w /\ d' = directory)).
  { unfold SeriesWriter.sync in Hs. destruct (sw_unsynced w), (d_sync disk); cbn in Hs; injection Hs as <- <- <-; auto. }
  destruct Hw as (Hh & Hp & [->|[-> ->]]); (split; [done|]); (split; [done|]); [|done].
  intros placed record Hc. apply (covered_grows d' d' _ _ (fun _ => False)); [apply grows_refl|done|]. eapply sync_safe; eauto.
Qed.

Definition named directory w : Prop := exists f, directory !! sw_handle w = Some f /\ f_entry f = true.

Lemma named_grows d d' w w' : grows d d' -> sw_handle w' = sw_handle w -> named d w -> named d' w'.
Proof. intros Hg Hh (f & Hf & He). destruct (Hg _ _ Hf) as (f' & Hf' & _ & _ & He'). exists f'. rewrite Hh. auto. Qed.

(** Rolling to the next file syncs the one before it first. *)
Lemma place_keeps directory w size disk d' w' r : SeriesWriter.place directory w size disk = (d', w', r) ->
  grows directory d' /\ sw_prefix w' = sw_prefix w /\ (r = Ok tt -> named directory w -> named d' w') /\
  forall placed record, safe_or_pending directory w placed record -> safe_or_pending d' w' placed record.
Proof.
  unfold SeriesWriter.place. destruct (_ || _).
  { intros [= <- <- <-]. split; [apply grows_refl|]. auto. }
  destruct (SeriesWriter.sync directory w disk) as [[d1 w1] [[]|e|]] eqn:Hs;
    destruct (sync_keeps directory w disk _ _ _ Hs) as (Hg & Hh & Hp & Hc);
    [|intros [= <- <- <-]; repeat (split; [done|]); done..].
  destruct (Z.ltb_spec u32_max (sw_file w1 + 1)); [intros [= <- <- <-]; repeat (split; [done|]); done|].
  set (path := file_name (sw_prefix w1) (sw_file w1 + 1)). destruct (bool_decide_reflect (is_Some (d1 !! path))) as [Hin|Hn]; cbn [orb].
  { intros [= <- <- <-]. repeat (split; [done|]). done. }
  apply eq_None_not_Some in Hn. destruct (d_create disk); cbn [negb]; [|intros [= <- <- <-]; repeat (split; [done|]); done].
  pose proof (grows_trans _ _ _ Hg (create_grows _ _ Hn)) as Hg1.
  assert (Hsafe : forall d2 w2, grows d1 d2 -> forall placed record, safe_or_pending directory w placed record -> safe_or_pending d2 w2 placed record).
  { intros d2 w2 Hg2 placed record Hpend. apply (covered_grows d1 d2 _ _ (fun _ => False)); [done|done|]. eapply sync_safe; eauto. }
  destruct (d_dir_sync disk); cbn [negb]; intros [= <- <- <-].
  - split; [by eapply grows_trans; [exact Hg1|apply fsync_dir_grows]|]. split; [done|]. split.
    + intros _ _. eexists. cbn. unfold fsync_dir. rewrite lookup_fmap, lookup_insert_eq. done.
    + apply Hsafe. by eapply grows_trans; [apply create_grows|apply fsync_dir_grows].
  - split; [done|]. split; [done|]. split; [done|]. apply Hsafe. by apply create_grows.
Qed.

(** An append that succeeds on any disk is one on a good disk. *)
Lemma sync_disk directory w disk d' w' : SeriesWriter.sync directory w disk = (d', w', Ok tt) ->
  SeriesWriter.sync directory w good_disk = (d', w', Ok tt).
Proof. unfold SeriesWriter.sync. destruct (sw_unsynced w), (d_sync disk); cbn; done. Qed.
Lemma place_disk directory w size disk d' w' : SeriesWriter.place directory w size disk = (d', w', Ok tt) ->
  SeriesWriter.place directory w size good_disk = (d', w', Ok tt).
Proof.
  unfold SeriesWriter.place. destruct (_ || _); [done|].
  destruct (SeriesWriter.sync directory w disk) as [[d1 w1] [[]|e|]] eqn:Hs; [|done..]. apply sync_disk in Hs. rewrite Hs.
  destruct (u32_max <? sw_file w1 + 1); [done|]. destruct (bool_decide _); [done|]. cbn.
  destruct (d_create disk); [|done]. cbn. by destruct (d_dir_sync disk).
Qed.
Lemma append_disk directory w body trailer disk d' w' placed :
  SeriesWriter.append directory w body trailer disk = (d', w', Ok placed) ->
  SeriesWriter.append directory w body trailer good_disk = (d', w', Ok placed).
Proof.
  unfold SeriesWriter.append. destruct (negb (_ =? _)); [done|]. destruct (negb (_ <=? _)); [done|].
  destruct (SeriesWriter.place directory w _ disk) as [[d1 w1] [[]|e|]] eqn:Hp; [|done..].
  apply place_disk in Hp. rewrite Hp. by destruct (d_written disk).
Qed.

(** Whether an append succeeds or fails, what was safe or pending stays so. *)
Lemma append_keeps directory w body trailer disk d' w' r :
  SeriesWriter.append directory w body trailer disk = (d', w', r) ->
  grows directory d' /\ sw_prefix w' = sw_prefix w /\ (is_ok r = true -> named directory w -> named d' w' /\ sw_unsynced w' = true) /\
  forall placed record, safe_or_pending directory w placed record -> safe_or_pending d' w' placed record.
Proof.
  unfold SeriesWriter.append.
  destruct (negb (_ =? _)); [intros [= <- <- <-]; split; [apply grows_refl|by repeat split]|].
  destruct (negb (_ <=? _)); [intros [= <- <- <-]; split; [apply grows_refl|by repeat split]|].
  destruct (SeriesWriter.place directory w _ disk) as [[d1 w1] [[]|e|]] eqn:Hp;
    destruct (place_keeps directory w _ disk _ _ _ Hp) as (Hg & Hpre & Hn & Hc);
    [|intros [= <- <- <-]; by repeat (split; [done|])..].
  destruct (d_written disk) as [written|].
  { intros [= <- <- <-]. pose proof (grows_trans _ _ _ Hg (write_grows d1 (sw_handle w1) (take (Z.to_nat written)
      (SeriesWriter.frame (sw_magic w1) body (default u32_max (try_from u32_max (len body))) trailer)))) as Hg1.
    split; [done|]. split; [done|]. split; [done|]. intros placed record Hs. eapply covered_grows; [apply write_grows| |by apply Hc]. done. }
  set (d2 := SeriesWriter.write_all _ _ _). assert (Hg2 : grows d1 d2) by apply write_grows.
  set (w2 := SeriesWriter.at_ _ _ _ _ true).
  assert (Hgoal : grows directory d2 /\ sw_prefix w2 = sw_prefix w /\ (named directory w -> named d2 w2 /\ sw_unsynced w2 = true) /\
    forall placed record, safe_or_pending directory w placed record -> safe_or_pending d2 w2 placed record).
  { split; [by eapply grows_trans|]. split; [done|]. split.
    - intros Hnm. split; [|done]. eapply named_grows; [exact Hg2|done|auto].
    - intros placed record Hs. eapply covered_grows; [exact Hg2| |by apply Hc]. intros name [<- Hu]. by split. }
  destruct Hgoal as (G1 & G2 & G3 & G4). destruct (negb _); intros [= <- <- <-]; repeat (split; [done|]); auto.
Qed.
End durable.

(** ** Two series in one directory *)

(** Nothing changed in the files of a series. *)
Definition apart (prefix : bytes) (directory directory' : Directory) : Prop :=
  forall name, prefix `prefix_of` name -> f_bytes <$> directory' !! name = f_bytes <$> directory !! name.

Lemma fsync_apart prefix directory name : apart prefix directory (fsync directory name).
Proof.
  intros other _. unfold fsync. destruct (decide (other = name)) as [->|Hne].
  - rewrite lookup_alter_eq. by destruct (directory !! name).
  - by rewrite lookup_alter_ne.
Qed.
Lemma fsync_dir_apart prefix directory : apart prefix directory (fsync_dir directory).
Proof. intros name _. unfold fsync_dir. rewrite lookup_fmap. by destruct (directory !! name). Qed.
Lemma insert_apart prefix directory name f : ~ prefix `prefix_of` name -> apart prefix directory (<[name := f]> directory).
Proof. intros Hn other Ho. rewrite lookup_insert_ne; [done|by intros ->]. Qed.
Lemma apart_trans prefix d1 d2 d3 : apart prefix d1 d2 -> apart prefix d2 d3 -> apart prefix d1 d3.
Proof. intros H1 H2 name Hn. by rewrite H2, H1. Qed.
Lemma sync_apart prefix directory w disk d' w' r : SeriesWriter.sync directory w disk = (d', w', r) -> apart prefix directory d'.
Proof.
  unfold SeriesWriter.sync. destruct (sw_unsynced w), (d_sync disk); cbn; intros [= <- <- <-]; apply fsync_apart || done.
Qed.

(** A series writes only to files of its own name. *)
Lemma append_apart prefix directory w body trailer disk d' w' r :
  (forall n, ~ prefix `prefix_of` file_name (sw_prefix w) n) -> ~ prefix `prefix_of` sw_handle w ->
  SeriesWriter.append directory w body trailer disk = (d', w', r) -> apart prefix directory d'.
Proof.
  intros Hnames Hh. unfold SeriesWriter.append. destruct (negb (_ =? _)); [by intros [= <- <- <-]|].
  destruct (negb (_ <=? _)); [by intros [= <- <- <-]|].
  set (size := saturating_add32 _ _).
  assert (Hp : exists d1 w1 r1, SeriesWriter.place directory w size disk = (d1, w1, r1) /\
    apart prefix directory d1 /\ ~ prefix `prefix_of` sw_handle w1).
  { unfold SeriesWriter.place. destruct (_ || _); [by eexists _, _, _|].
    destruct (SeriesWriter.sync directory w disk) as [[d1 w1] r1] eqn:Hs. pose proof (sync_apart prefix _ _ _ _ _ _ Hs) as Ha.
    destruct (sync_keeps [] [] directory w disk _ _ _ Hs) as (_ & Hh1 & Hp1 & _). rewrite <-Hh1 in Hh.
    destruct r1 as [[]|e|]; [|by eexists _, _, _..]. destruct (u32_max <? _); [by eexists _, _, _|].
    destruct (bool_decide _); [by eexists _, _, _|]. cbn [orb]. destruct (d_create disk); [|by eexists _, _, _]. cbn [negb].
    rewrite Hp1. pose proof (apart_trans _ _ _ _ Ha (insert_apart prefix d1 _ empty_file (Hnames (sw_file w1 + 1)))) as Ha1.
    destruct (d_dir_sync disk); eexists _, _, _; (split; [done|]); cbn; (split; [|auto]); [|done].
    eapply apart_trans; [exact Ha1|apply fsync_dir_apart]. }
  destruct Hp as (d1 & w1 & r1 & -> & Ha & Hh1). destruct r1 as [[]|e|]; [|by intros [= <- <- <-]..].
  assert (Hw : forall bs, apart prefix directory (SeriesWriter.write_all d1 (sw_handle w1) bs)).
  { intros bs. eapply apart_trans; [exact Ha|by apply insert_apart]. }
  destruct (d_written disk); [by intros [= <- <- <-]|]. destruct (negb _); by intros [= <- <- <-].
Qed.

(** ** One series with what was written to it *)

Record Leg := mkLeg {
  l_writer : SeriesWriter;
  l_alive : bool;
  l_written : list (Placed * (bytes * option bytes));
  l_named : list (Placed * (bytes * option bytes));
}.

Section leg.
Context (prefix magic : bytes) (trailer_bytes max_record max_file : Z).
Context (Hmagic : length magic = 4%nat) (Htrailer : trailer_bytes = 0 \/ trailer_bytes = 32).
Context (Hrecord : 0 <= max_record /\ max_record + 40 <= u32_max) (Hfile : 0 < max_file <= MAX_FILE_BYTES).
Local Notation writer_ok := (writer_ok prefix magic trailer_bytes max_record max_file).
Local Notation fits := (fits trailer_bytes max_record).
Local Notation safe := (safe prefix magic).
Local Notation safe_or_pending := (safe_or_pending prefix magic).

(** A series that has not failed can be written; what was written can be made safe; what was
    named is. *)
Record leg_ok (directory : Directory) (leg : Leg) : Prop := mkLegOk {
  lk_alive : l_alive leg = true -> writer_ok directory (l_writer leg) /\ named directory (l_writer leg);
  lk_written : Forall (fun x => fits x.2 /\ safe_or_pending directory (l_writer leg) x.1 x.2) (l_written leg);
  lk_named : Forall (fun x => fits x.2 /\ safe directory x.1 x.2) (l_named leg);
}.

Lemma writer_apart directory d' w : writer_ok directory w -> apart prefix directory d' -> writer_ok d' w.
Proof.
  intros [C Hh (f & Hf & Hl) Ho Hfl Hmax] Ha. split; [done|done| |done|done|].
  - assert (Hpre : prefix `prefix_of` sw_handle w) by (rewrite Hh; by apply prefix_app_r).
    specialize (Ha _ Hpre). rewrite Hf in Ha. apply fmap_Some in Ha as (f' & Hf' & Hb). exists f'. split; [done|]. by rewrite <-Hb.
  - intros name n Hname Hn. apply (Hmax name n); [|done].
    assert (Hpre : prefix `prefix_of` name).
    { unfold number_of, strip_prefix in Hn. apply starts_with_spec. by destruct (starts_with name prefix). }
    specialize (Ha _ Hpre). destruct Hname as [f' Hf']. rewrite Hf' in Ha. symmetry in Ha. apply fmap_Some in Ha as (f0 & Hf0 & _). eauto.
Qed.

Lemma leg_other directory d' leg : leg_ok directory leg -> grows directory d' -> apart prefix directory d' -> leg_ok d' leg.
Proof.
  intros [Ha Hw Hn] Hg Hap. split.
  - intros Hal. destruct (Ha Hal) as [H1 H2]. split; [by eapply writer_apart|by eapply named_grows].
  - eapply Forall_impl; [exact Hw|]. intros x [Hf Hc]. split; [done|]. by eapply covered_grows; [exact Hg| |exact Hc].
  - eapply Forall_impl; [exact Hn|]. intros x [Hf Hc]. split; [done|]. by eapply covered_grows; [exact Hg| |exact Hc].
Qed.

Lemma leg_sync directory leg disk d' w' r : leg_ok directory leg ->
  SeriesWriter.sync directory (l_writer leg) disk = (d', w', r) ->
  leg_ok d' (mkLeg w' (l_alive leg) (l_written leg) (if is_ok r then l_written leg else l_named leg)).
Proof.
  intros Hleg Hs. destruct (sync_keeps prefix magic _ _ _ _ _ _ Hs) as (Hg & Hh & _ & Hc).
  pose proof (leg_other _ _ _ Hleg Hg (sync_apart _ _ _ _ _ _ _ Hs)) as [Ha _ Hn]. destruct Hleg as [_ Hw _].
  split; cbn [l_alive l_writer l_written l_named].
  - intros Hal. destruct (Ha Hal) as [Hwo Hnm]. split.
    + unfold SeriesWriter.sync in Hs. destruct (sw_unsynced (l_writer leg)), (d_sync disk); cbn in Hs; injection Hs as <- <- <-; try done.
      destruct Hwo as [C H1 H2 H3 H4 H5]. by split.
    + by eapply named_grows; [apply grows_refl| |exact Hnm].
  - eapply Forall_impl; [exact Hw|]. intros x [Hf Hx]. auto.
  - destruct r as [[]|e|]; cbn; [|done..]. eapply Forall_impl; [exact Hw|]. intros x [Hf Hx]. split; [done|]. eapply sync_safe; eauto.
Qed.

Lemma append_fits directory w body trailer disk d' w' placed : sw_trailer_bytes w = trailer_bytes -> sw_max_record w = max_record ->
  (forall t, trailer = Some t -> length t = 32%nat) ->
  SeriesWriter.append directory w body trailer disk = (d', w', Ok placed) -> fits (body, trailer).
Proof.
  intros C3 C4 Ht. unfold SeriesWriter.append. rewrite C3, C4. destruct (Z.eqb_spec (if bool_decide (is_Some trailer) then 32 else 0) trailer_bytes) as [He|]; [|done].
  cbn [negb]. destruct (Z.leb_spec (default u32_max (try_from u32_max (len body))) max_record) as [Hle|]; [|done]. intros _. split; cbn [fst snd].
  - unfold try_from in Hle. pose proof (len_nonneg body). destruct (Z.leb_spec 0 (len body)), (Z.leb_spec (len body) u32_max); cbn in Hle; lia.
  - destruct trailer as [t|]; [rewrite bool_decide_true in He by eauto; by split; [|apply Ht]|by rewrite bool_decide_false in He by (by intros [])].
Qed.

Lemma leg_write directory leg body trailer disk d' w' r : leg_ok directory leg -> l_alive leg = true ->
  sw_file (l_writer leg) < 99999 -> (forall t, trailer = Some t -> length t = 32%nat) ->
  SeriesWriter.append directory (l_writer leg) body trailer disk = (d', w', r) ->
  leg_ok d' (mkLeg w' (is_ok r) (match r with Ok placed => (placed, (body, trailer)) :: l_written leg | _ => l_written leg end) (l_named leg)).
Proof.
  intros Hleg Hal Hf Ht Ha. destruct (append_keeps prefix magic _ _ _ _ _ _ _ _ Ha) as (Hg & _ & Hnm & Hc).
  destruct Hleg as [Halive Hw Hn]. destruct (Halive Hal) as [Hwo Hnamed].
  assert (Hold : Forall (fun x => fits x.2 /\ safe_or_pending d' w' x.1 x.2) (l_written leg)).
  { eapply Forall_impl; [exact Hw|]. intros x [Hfx Hx]. auto. }
  assert (Hsafe : Forall (fun x => fits x.2 /\ safe d' x.1 x.2) (l_named leg)).
  { eapply Forall_impl; [exact Hn|]. intros x [Hfx Hx]. split; [done|]. by eapply covered_grows; [exact Hg| |exact Hx]. }
  destruct r as [placed|e|]; [|by split..].
  destruct Hnm as [Hnm Hu]; [done|done|]. pose proof Hwo as [(_ & _ & C3 & C4 & _) _ _ _ _ _].
  pose proof (append_fits _ _ _ _ _ _ _ _ C3 C4 Ht Ha) as Hfit. pose proof (append_disk _ _ _ _ _ _ _ _ Ha) as Hgood.
  destruct (append_ok prefix magic _ _ _ Hmagic Htrailer Hrecord Hfile _ _ (body, trailer) Hwo Hfit Hf)
    as (d1 & w1 & p1 & Ha1 & Hwo1 & _ & (f & pre & post & Hd & Hb & Ho & Hl) & _). cbn [fst snd] in Ha1, Hb, Hl.
  rewrite Hgood in Ha1. injection Ha1 as <- <- <-. split; cbn [l_alive l_writer l_written l_named]; [done| |done].
  constructor; [|done]. split; [done|]. exists f, pre, post. repeat (split; [done|]).
  assert (Hfile_eq : sw_handle w' = file_name prefix (pl_file placed)).
  { destruct Hwo1 as [_ -> _ _ _ _]. f_equal. clear -Ha. unfold SeriesWriter.append in Ha. destruct (negb (_ =? _)); [done|].
    destruct (negb (_ <=? _)); [done|]. destruct (SeriesWriter.place _ _ _ _) as [[d1 w1] [[]|e|]]; [|done..].
    destruct (d_written disk); [done|]. destruct (negb _); [done|]. by injection Ha as <- <- <-. }
  split; [|by right; split]. destruct Hnm as (f0 & Hf0 & He0). rewrite Hfile_eq, Hd in Hf0. by injection Hf0 as ->.
Qed.
End leg.

(** ** The ordering rule *)

Section ordering.
Context `{HH : Hashes} {HL : HashLengths} `{HC : Journal.HeaderCodec}.

(** The store in use: what was written to each series, and what may be named outside it.  An
    index record names any block written before the commit that wrote it; an undo record is
    reported once its series has been synced. *)
Record Life := mkLife {
  lf_directory : Directory;
  lf_chain : ChainStore;
  lf_undo : UndoStore;
  lf_alive : bool * bool;
  lf_blocks : list (BlockLocation * bytes);
  lf_named : list (BlockLocation * bytes);
  lf_undos : list (UndoLocation * (bytes * bytes));
  lf_reported : list (UndoLocation * (bytes * bytes));
}.

(** Whether a commit reaches the index. *)
Definition names_blocks (directory : Directory) (chain : ChainStore) (tree : HeaderTree) (disk : Disk) : bool :=
  negb (len (t_dirty tree) =? 0) && is_ok (SeriesWriter.sync directory (cs_blocks chain) disk).2.

(** One operation on a disk that may fail; a series whose append failed is not appended to again,
    and a series holds fewer than a hundred thousand files. *)
Inductive lives : Life -> Life -> Prop :=
| lives_block d c u undo_ok bl nm ul rp bs disk d' c' r :
    sw_file (cs_blocks c) < 99999 -> ChainStore.write_block d c bs disk = (d', c', r) ->
    lives (mkLife d c u (true, undo_ok) bl nm ul rp)
      (mkLife d' c' u (is_ok r, undo_ok) (match r with Ok at_ => (at_, bs) :: bl | _ => bl end) nm ul rp)
| lives_undo d c u blocks_ok bl nm ul rp bs previous disk d' u' r :
    sw_file (us_undo u) < 99999 -> UndoStore.write_undo d u bs previous disk = (d', u', r) ->
    lives (mkLife d c u (blocks_ok, true) bl nm ul rp)
      (mkLife d' c u' (blocks_ok, is_ok r) bl nm (match r with Ok at_ => (at_, (bs, previous)) :: ul | _ => ul end) rp)
| lives_commit d c u alive bl nm ul rp tree disk index d' c' tree' r :
    ChainStore.commit d c tree disk index = (d', c', tree', r) ->
    lives (mkLife d c u alive bl nm ul rp)
      (mkLife d' c' u alive bl (if names_blocks d c tree disk then bl else nm) ul rp)
| lives_report d c u alive bl nm ul rp disk d' w' r :
    SeriesWriter.sync d (us_undo u) disk = (d', w', r) ->
    lives (mkLife d c u alive bl nm ul rp) (mkLife d' c (mkUndoStore w') alive bl nm ul (if is_ok r then ul else rp)).

Definition block_record (x : BlockLocation * bytes) : Placed * (bytes * option bytes) :=
  (mkPlaced (bl_file x.1) (bl_offset x.1) (bl_len x.1), (x.2, None)).
Definition undo_record (x : UndoLocation * (bytes * bytes)) : Placed * (bytes * option bytes) :=
  (mkPlaced (ul_file x.1) (ul_offset x.1) (ul_len x.1), (x.2.1, Some (Undo.trailer x.2.1 x.2.2))).

Definition block_leg (s : Life) : Leg :=
  mkLeg (cs_blocks (lf_chain s)) (lf_alive s).1 (map block_record (lf_blocks s)) (map block_record (lf_named s)).
Definition undo_leg (s : Life) : Leg :=
  mkLeg (us_undo (lf_undo s)) (lf_alive s).2 (map undo_record (lf_undos s)) (map undo_record (lf_reported s)).
Definition blocks_ok := leg_ok BLOCK_PREFIX BLOCK_RECORD_MAGIC 0 MAX_BLOCK_RECORD_BYTES MAX_FILE_BYTES.
Definition undo_ok := leg_ok UNDO_PREFIX UNDO_RECORD_MAGIC Undo.TRAILER_BYTES Undo.MAX_UNDO_RECORD_BYTES MAX_FILE_BYTES.

Lemma block_bounds : 0 <= MAX_BLOCK_RECORD_BYTES /\ MAX_BLOCK_RECORD_BYTES + 40 <= u32_max.
Proof. vm_compute. split; discriminate. Qed.
Lemma undo_bounds : 0 <= Undo.MAX_UNDO_RECORD_BYTES /\ Undo.MAX_UNDO_RECORD_BYTES + 40 <= u32_max.
Proof. vm_compute. split; discriminate. Qed.
Lemma file_bounds : 0 < MAX_FILE_BYTES <= MAX_FILE_BYTES.
Proof. done. Qed.

Lemma no_trailer (t : bytes) : None = Some t -> length t = 32%nat.
Proof. done. Qed.
Lemma undo_trailer bs previous (t : bytes) : Some (Undo.trailer bs previous) = Some t -> length t = 32%nat.
Proof. intros [= <-]. apply length_sha256d. Qed.

Lemma names_apart n : ~ BLOCK_PREFIX `prefix_of` file_name UNDO_PREFIX n /\ ~ UNDO_PREFIX `prefix_of` file_name BLOCK_PREFIX n.
Proof. split; intros [k Hk]; cbv [file_name BLOCK_PREFIX UNDO_PREFIX] in Hk; cbn in Hk; discriminate. Qed.

Lemma lives_ok s s' : lives s s' -> blocks_ok (lf_directory s) (block_leg s) /\ undo_ok (lf_directory s) (undo_leg s) ->
  blocks_ok (lf_directory s') (block_leg s') /\ undo_ok (lf_directory s') (undo_leg s').
Proof.
  intros Hs [Hb Hu]. destruct Hs as [d c u uok bl nm ul rp bs disk d' c' r Hf Hw|d c u bok bl nm ul rp bs previous disk d' u' r Hf Hw
    |d c u alive bl nm ul rp tree disk index d' c' tree' r Hc|d c u alive bl nm ul rp disk d' w' r Hs]; cbn [lf_directory] in *.
  - unfold ChainStore.write_block in Hw. destruct (SeriesWriter.append d (cs_blocks c) bs None disk) as [[d1 w1] r1] eqn:Ha.
    injection Hw as <- <- <-. split.
    + pose proof (leg_write BLOCK_PREFIX BLOCK_RECORD_MAGIC 0 _ _ eq_refl (or_introl eq_refl) block_bounds file_bounds _ _ _ _ _ _ _ _ Hb eq_refl Hf no_trailer Ha) as H.
      destruct r1 as [[]|e|]; exact H.
    + destruct (append_keeps [] [] _ _ _ _ _ _ _ _ Ha) as (Hg & _). eapply (leg_other _ _ _ _ _ _ _ _ Hu Hg).
      destruct (lk_alive _ _ _ _ _ _ _ Hb eq_refl) as [[(C1 & _) Hh _ _ _ _] _]. cbn in C1, Hh.
      eapply append_apart; [| |exact Ha]; [rewrite C1|rewrite Hh]; intros; apply names_apart.
  - unfold UndoStore.write_undo in Hw. destruct (SeriesWriter.append d (us_undo u) bs _ disk) as [[d1 w1] r1] eqn:Ha.
    injection Hw as <- <- <-. split.
    + destruct (append_keeps [] [] _ _ _ _ _ _ _ _ Ha) as (Hg & _). eapply (leg_other _ _ _ _ _ _ _ _ Hb Hg).
      destruct (lk_alive _ _ _ _ _ _ _ Hu eq_refl) as [[(C1 & _) Hh _ _ _ _] _]. cbn in C1, Hh.
      eapply append_apart; [| |exact Ha]; [rewrite C1|rewrite Hh]; intros; apply names_apart.
    + pose proof (leg_write UNDO_PREFIX UNDO_RECORD_MAGIC Undo.TRAILER_BYTES _ _ eq_refl (or_intror eq_refl) undo_bounds file_bounds _ _ _ _ _ _ _ _ Hu eq_refl Hf
        (undo_trailer bs previous) Ha) as H.
      destruct r1 as [[]|e|]; exact H.
  - assert (Hsync : d' = d /\ c' = c /\ names_blocks d c tree disk = false \/
      exists w1 r1, SeriesWriter.sync d (cs_blocks c) disk = (d', w1, r1) /\ cs_blocks c' = w1 /\ names_blocks d c tree disk = is_ok r1).
    { unfold ChainStore.commit, names_blocks in *. destruct (len (t_dirty tree) =? 0); [injection Hc as <- <- <- <-; by left|]. right.
      destruct (SeriesWriter.sync d (cs_blocks c) disk) as [[d1 w1] r1]. exists w1, r1.
      destruct r1 as [[]|e|]; [|by injection Hc as <- <- <- <-..].
      destruct (store_commit (cs_index c) tree index) as [[[[journal t] n]|]|e|]; by injection Hc as <- <- <- <-. }
    destruct Hsync as [(-> & -> & ->)|(w1 & r1 & Hs & Hw1 & ->)]; [done|]. split.
    + pose proof (leg_sync _ _ _ _ _ _ _ _ _ _ _ Hb Hs) as H. unfold block_leg. cbn [lf_chain lf_alive lf_blocks lf_named]. rewrite Hw1.
      by destruct r1.
    + destruct (sync_keeps [] [] _ _ _ _ _ _ Hs) as (Hg & _). eapply (leg_other _ _ _ _ _ _ _ _ Hu Hg). by eapply sync_apart.
  - split.
    + destruct (sync_keeps [] [] _ _ _ _ _ _ Hs) as (Hg & _). eapply (leg_other _ _ _ _ _ _ _ _ Hb Hg). by eapply sync_apart.
    + pose proof (leg_sync _ _ _ _ _ _ _ _ _ _ _ Hu Hs) as H. by destruct r.
Qed.

Lemma open_readers directory index genesis d store chain undo :
  Store.open directory index genesis = Ok (d, (store, chain, undo)) ->
  exists d1, open_series directory BLOCK_PREFIX BLOCK_RECORD_MAGIC 0 MAX_BLOCK_RECORD_BYTES = Ok (d1, cs_blocks chain, s_blocks store) /\
    open_series d1 UNDO_PREFIX UNDO_RECORD_MAGIC Undo.TRAILER_BYTES Undo.MAX_UNDO_RECORD_BYTES = Ok (d, us_undo undo, s_undo store) /\
    s_blocks store = mkReader BLOCK_PREFIX BLOCK_RECORD_MAGIC 0 MAX_BLOCK_RECORD_BYTES [] /\
    s_undo store = mkReader UNDO_PREFIX UNDO_RECORD_MAGIC Undo.TRAILER_BYTES Undo.MAX_UNDO_RECORD_BYTES [].
Proof.
  unfold Store.open. intros Ho. inv_ok. destruct x as [[d1 bw] br]. inv_ok. destruct x as [[d2 uw] ur]. inv_ok. subst.
  exists d1. split; [done|]. split; [done|]. unfold open_series, open_with_bound in *. inv_ok.
  destruct (u32_max <? _); [done|]. destruct (u32_max <? _); [done|]. inv_ok. by subst.
Qed.

Lemma open_life directory index genesis d store chain undo :
  Store.open directory index genesis = Ok (d, (store, chain, undo)) -> named d (cs_blocks chain) -> named d (us_undo undo) ->
  let s := mkLife d chain undo (true, true) [] [] [] [] in blocks_ok d (block_leg s) /\ undo_ok d (undo_leg s).
Proof.
  intros Ho Hnb Hnu. destruct (open_readers _ _ _ _ _ _ _ Ho) as (d1 & Hb & Hu & _).
  destruct (open_ok BLOCK_PREFIX BLOCK_RECORD_MAGIC _ _ _ eq_refl _ _ _ _ Hb) as [Hwb _]. destruct (open_ok UNDO_PREFIX UNDO_RECORD_MAGIC _ _ _ eq_refl _ _ _ _ Hu) as [Hwu _].
  split; split; cbn; [|done|done| |done|done]; intros _; (split; [|done]); [|done].
  eapply writer_apart; [exact Hwb|]. unfold open_series, open_with_bound in Hu. inv_ok. destruct (u32_max <? _); [done|]. inv_ok.
  subst. apply insert_apart, names_apart.
Qed.


(** ** The first file *)

Definition unnamed (directory : Directory) : Prop := forall name f, directory !! name = Some f -> f_entry f = false.

Lemma unnamed_crash directory : unnamed directory -> crash directory ∅.
Proof. intros Hu name f Hf He. rewrite (Hu _ _ Hf) in He. discriminate. Qed.
Lemma insert_unnamed directory name f : unnamed directory -> f_entry f = false -> unnamed (<[name := f]> directory).
Proof. intros Hu Hf other g Hg. apply lookup_insert_Some in Hg as [[<- <-]|[_ Hg]]; eauto. Qed.
Lemma found_unnamed directory name : unnamed directory -> f_entry (default empty_file (directory !! name)) = false.
Proof. intros Hu. destruct (directory !! name) as [f|] eqn:Hf; [by apply (Hu name)|done]. Qed.
Lemma sync_unnamed directory w disk d' w' r : SeriesWriter.sync directory w disk = (d', w', r) -> unnamed directory -> unnamed d'.
Proof.
  unfold SeriesWriter.sync. destruct (sw_unsynced w), (d_sync disk); cbn; intros [= <- <- <-] Hu; try done.
  intros name f Hf. unfold fsync in Hf. apply lookup_alter_Some in Hf as [(_ & g & Hg & ->)|[_ Hf]]; cbn; eauto.
Qed.

Lemma open_unnamed directory prefix magic trailer_bytes max_record d w r :
  open_series directory prefix magic trailer_bytes max_record = Ok (d, w, r) -> unnamed directory ->
  unnamed d /\ (directory !! file_name prefix (highest directory prefix) = None -> sw_offset w = 0).
Proof.
  unfold open_series, open_with_bound. intros Ho Hu. inv_ok. destruct (u32_max <? _); [done|]. inv_ok. subst.
  split; [apply insert_unnamed; [done|by apply found_unnamed]|]. by intros ->.
Qed.

Lemma append_unnamed directory w body trailer disk d' w' placed : unnamed directory -> sw_offset w = 0 ->
  SeriesWriter.append directory w body trailer disk = (d', w', Ok placed) ->
  unnamed d' /\ pl_offset placed = FRAME_BYTES /\ pl_len placed <= sw_max_record w.
Proof.
  intros Hu H0. unfold SeriesWriter.append. destruct (negb (_ =? _)); [done|].
  destruct (Z.leb_spec (default u32_max (try_from u32_max (len body))) (sw_max_record w)) as [Hle|]; [|done]. cbn [negb].
  unfold SeriesWriter.place. rewrite H0. cbn [Z.eqb orb]. destruct (d_written disk); [done|]. destruct (negb _); [done|].
  intros [= <- <- <-]. rewrite H0. split; [|done]. apply insert_unnamed; [done|]. cbn. by apply found_unnamed.
Qed.

(** C37.  The first file of a series is not made durable.  A file the series rolls to has its
    directory entry synced, because an index record would otherwise point at a file a crash did not
    leave behind; the file that [open] creates has not.  On a new data directory a block can be
    written and committed, every call to the disk succeeding, and a crash can still leave no file
    at all: the index names a block that cannot be read. *)
Theorem first_file_is_lost index genesis d store chain undo bs disk d1 chain1 at_ tree disk' d2 chain2 tree' written :
  Store.open ∅ index genesis = Ok (d, (store, chain, undo)) ->
  ChainStore.write_block d chain bs disk = (d1, chain1, Ok at_) ->
  ChainStore.commit d1 chain1 tree disk' true = (d2, chain2, tree', Ok written) ->
  crash d2 ∅ /\ (Store.read_block ∅ store at_).2 = Err NotFound.
Proof.
  intros Ho Hw Hc. destruct (open_readers _ _ _ _ _ _ _ Ho) as (d0 & Hb & Hu & Hr & _).
  destruct (open_unnamed _ _ _ _ _ _ _ _ Hb) as [Hd0 Hoff]; [by intros name f Hf|]. specialize (Hoff (lookup_empty _)).
  destruct (open_unnamed _ _ _ _ _ _ _ _ Hu Hd0) as [Hd _].
  destruct (open_ok BLOCK_PREFIX BLOCK_RECORD_MAGIC _ _ _ eq_refl _ _ _ _ Hb) as [[(_ & _ & _ & Hmax & _) _ _ _ _ _] _].
  unfold ChainStore.write_block in Hw. destruct (SeriesWriter.append d (cs_blocks chain) bs None disk) as [[d3 w3] r3] eqn:Ha.
  destruct r3 as [placed|e|]; [|done..]. injection Hw as <- <- <-.
  destruct (append_unnamed _ _ _ _ _ _ _ _ Hd Hoff Ha) as (Hd3 & Hpo & Hpl). split.
  - apply unnamed_crash. unfold ChainStore.commit in Hc. destruct (len (t_dirty tree) =? 0); [by inversion Hc; subst|].
    destruct (SeriesWriter.sync _ _ disk') as [[d4 w4] r4] eqn:Hs. apply sync_unnamed in Hs; [|done].
    destruct r4 as [[]|e|]; [|done..]. destruct (store_commit _ _ _) as [[[[journal t] n]|]|e|]; by inversion Hc; subst.
  - unfold Store.read_block. rewrite Hr. unfold SeriesReader.read. cbn [bl_file bl_offset bl_len sr_max_record sr_handles sr_prefix].
    rewrite Hmax in Hpl. rewrite (proj2 (Z.ltb_ge MAX_BLOCK_RECORD_BYTES (pl_len placed))) by done. rewrite Hpo.
    cbn [Z.ltb]. rewrite lookup_empty, bool_decide_false by (by intros []). done.
Qed.
End ordering.

(** ** A concrete store *)

#[local] Existing Instance simple_codec.
#[local] Existing Instance prefix_hashes.
#[local] Existing Instance prefix_hash_lengths.

Definition changed : HeaderTree :=
  mkTree (t_entries loaded) (t_index loaded) (t_tip loaded) (t_best_header loaded) [1] (t_period loaded) (t_cap loaded).
Definition raw : bytes := repeat x61 40.

(** A store that is opened on a directory, a block written, and the index committed. *)
Definition no_life : Life * Store :=
  (mkLife ∅ (mkChainStore (mkWriter [] [] 0 0 0 0 0 [] false) (Journal.mkJournal [] 0))
     (mkUndoStore (mkWriter [] [] 0 0 0 0 0 [] false)) (false, false) [] [] [] [],
   mkStore (mkReader [] [] 0 0 []) (mkReader [] [] 0 0 [])).
Definition opened (directory : Directory) : Life * Store :=
  match Store.open directory None MAINNET_GENESIS_HASH with
  | Ok (d, (store, chain, undo)) => (mkLife d chain undo (true, true) [] [] [] [], store)
  | _ => no_life
  end.
Lemma opened_eq directory : is_ok (Store.open directory None MAINNET_GENESIS_HASH) = true ->
  Store.open directory None MAINNET_GENESIS_HASH =
    Ok (lf_directory (opened directory).1, ((opened directory).2, lf_chain (opened directory).1, lf_undo (opened directory).1)).
Proof. unfold opened. by destruct (Store.open directory None MAINNET_GENESIS_HASH) as [[d [[store chain] undo]]|e|]. Qed.

Definition named_b (directory : Directory) (w : SeriesWriter) : bool :=
  match directory !! sw_handle w with Some f => f_entry f | None => false end.
Lemma named_b_ok directory w : named_b directory w = true -> named directory w.
Proof. unfold named_b, named. destruct (directory !! sw_handle w) as [f|]; [eauto|done]. Qed.

Definition written (s : Life) := ChainStore.write_block (lf_directory s) (lf_chain s) raw good_disk.
Definition where_ (s : Life) : BlockLocation := match (written s).2 with Ok at_ => at_ | _ => mkBlockLocation 9 9 9 end.
Definition committed (s : Life) := ChainStore.commit (written s).1.1 (written s).1.2 changed good_disk true.
Lemma written_eq s : is_ok (written s).2 = true ->
  ChainStore.write_block (lf_directory s) (lf_chain s) raw good_disk = ((written s).1.1, (written s).1.2, Ok (where_ s)).
Proof. unfold where_. fold (written s). by destruct (written s) as [[d c] [at_|e|]]. Qed.
Lemma committed_eq s : is_ok (committed s).2 = true ->
  exists n, ChainStore.commit (written s).1.1 (written s).1.2 changed good_disk true =
    ((committed s).1.1.1, (committed s).1.1.2, (committed s).1.2, Ok n).
Proof. fold (committed s). destruct (committed s) as [[[d c] t] [n|e|]]; [eauto|done..]. Qed.

Lemma first_file_is_lost_witness : exists d2, crash d2 ∅ /\
  (Store.read_block ∅ (opened ∅).2 (where_ (opened ∅).1)).2 = Err NotFound.
Proof.
  destruct (committed_eq (opened ∅).1) as [n Hn]; [vm_compute; reflexivity|].
  exists (committed (opened ∅).1).1.1.1.
  apply (first_file_is_lost None MAINNET_GENESIS_HASH (lf_directory (opened ∅).1) (opened ∅).2 (lf_chain (opened ∅).1) (lf_undo (opened ∅).1)
    raw good_disk (written (opened ∅).1).1.1 (written (opened ∅).1).1.2 (where_ (opened ∅).1) changed good_disk
    (committed (opened ∅).1).1.1.1 (committed (opened ∅).1).1.1.2 (committed (opened ∅).1).1.2 n).
  - apply opened_eq. vm_compute. reflexivity.
  - apply written_eq. vm_compute. reflexivity.
  - exact Hn.
Defined.

(** A directory that has been synced with both first files in it. *)
Definition settled : Directory :=
  fsync_dir (<[file_name UNDO_PREFIX 0 := empty_file]> (<[file_name BLOCK_PREFIX 0 := empty_file]> ∅)).
Definition used : Life :=
  let s := (opened settled).1 in
  mkLife (committed s).1.1.1 (committed s).1.1.2 (lf_undo s) (true, true) [(where_ s, raw)] [(where_ s, raw)] [] [].

Lemma opened_start : is_ok (Store.open settled None MAINNET_GENESIS_HASH) = true -> (opened settled).1 =
  mkLife (lf_directory (opened settled).1) (lf_chain (opened settled).1) (lf_undo (opened settled).1) (true, true) [] [] [] [].
Proof. unfold opened. by destruct (Store.open settled None MAINNET_GENESIS_HASH) as [[d [[store chain] undo]]|e|]. Qed.

Lemma used_lives : rtc lives (opened settled).1 used.
Proof.
  assert (Ho : is_ok (Store.open settled None MAINNET_GENESIS_HASH) = true) by (vm_compute; reflexivity).
  assert (Hw : is_ok (written (opened settled).1).2 = true) by (vm_compute; reflexivity).
  assert (Hc : is_ok (committed (opened settled).1).2 = true) by (vm_compute; reflexivity).
  assert (Hn : names_blocks (written (opened settled).1).1.1 (written (opened settled).1).1.2 changed good_disk = true) by (vm_compute; reflexivity).
  assert (Hf : (sw_file (cs_blocks (lf_chain (opened settled).1)) <? 99999) = true) by (vm_compute; reflexivity).
  apply opened_start in Ho. apply written_eq in Hw. apply committed_eq in Hc as [n Hc]. apply Z.ltb_lt in Hf.
  eapply rtc_l; [rewrite Ho at 1; eapply lives_block; [exact Hf|exact Hw]|]. cbn [is_ok].
  apply rtc_once. unfold used. cbv zeta. pose proof (lives_commit (written (opened settled).1).1.1 (written (opened settled).1).1.2
    (lf_undo (opened settled).1) (true, true) [(where_ (opened settled).1, raw)] [] [] [] changed good_disk true _ _ _ _ Hc) as H.
  rewrite Hn in H. exact H.
Qed.

