(* ===== verification/Runtime.v ===== *)
(** * Runtime: the threads of the node and how they stop ([runtime/], [validation.rs],
    [control.rs], the loops of [peer/net.rs], and the arguments of [main.rs])

    The first part is the supervisor: the table of threads, who has returned, and the report of a
    shutdown.  The second is the process: the state the threads share and, for each thread, one
    pass of its loop.  What a pass does with a message is the matter of the other files; here it
    is an update of the connection and a message that may be sent. *)
From Stdlib Require Import String.
From S2P Require Import Prelude Bitcoin Flags Params Header Tx Block Message Wire PeerQueues Channel Slots Queue Network.

Local Open Scope list_scope.

(** ** [runtime/signal.rs] *)

Definition EXIT_SECOND_SIGNAL : Z := 2.

Inductive Cause :=
| Signal (signum : Z)
| Internal (reason : string).

(** The statics, the bytes waiting in the self-pipe, and the status of [_exit]. *)
Record Signals := mkSignals {
  sg_signalled : Z;
  sg_pipe_write : Z;
  sg_bytes : Z;
  sg_exit : option Z;
}.
Definition no_signals (write : Z) : Signals := mkSignals 0 write 0 None.

Definition signalled (sg : Signals) : option Z := if sg_signalled sg =? 0 then None else Some (sg_signalled sg).

Definition handle_signal (sg : Signals) (signum : Z) : Signals :=
  let before := sg_signalled sg in
  let sg := mkSignals signum (sg_pipe_write sg) (sg_bytes sg) (sg_exit sg) in
  if negb (before =? 0) then mkSignals (sg_signalled sg) (sg_pipe_write sg) (sg_bytes sg) (Some EXIT_SECOND_SIGNAL)
  else if 0 <=? sg_pipe_write sg then mkSignals (sg_signalled sg) (sg_pipe_write sg) (sg_bytes sg + 1) (sg_exit sg)
  else sg.

(** What [poll] says: it failed, it was interrupted, or which of the two are ready. *)
Inductive Poll := PollError | PollInterrupted | PollReady (pipe socket : bool).
Record Woken := mkWoken { wk_signalled : bool; wk_socket_ready : bool }.

(** [SignalPipe::wait], with its [drain] of at most sixteen bytes. *)
Definition pipe_wait (sg : Signals) (poll : Poll) : Signals * option Woken :=
  let some := bool_decide (is_Some (signalled sg)) in
  match poll with
  | PollError => (sg, None)
  | PollInterrupted => (sg, Some (mkWoken some false))
  | PollReady pipe socket =>
      (if pipe then mkSignals (sg_signalled sg) (sg_pipe_write sg) (saturating_sub (sg_bytes sg) 16) (sg_exit sg) else sg,
       Some (mkWoken (pipe || some) socket))
  end.

Module Shutdown.
Definition new : option Cause := None.
Definition begin (begun : option Cause) (cause : Cause) : option Cause * bool :=
  match begun with
  | None => (Some cause, true)
  | Some _ => (begun, false)
  end.
Definition is_begun (begun : option Cause) : bool := bool_decide (is_Some begun).
End Shutdown.

(** ** [runtime/snapshot.rs] *)

Record UtxoSetSnapshot := mkUtxoSet {
  us_best_block : option bytes;
  us_height : Z;
  us_txouts : Z;
  us_total_amount : Z;
  us_muhash : bytes;
}.
Definition empty_utxoset : UtxoSetSnapshot := mkUtxoSet None Height.GENESIS 0 0 (repeat x00 32).

(** A published value is its last publication. *)
Module Published.
Definition new {T} (initial : T) : T := initial.
Definition publish {T} (self value : T) : T := value.
Definition read {T} (self : T) : T := self.
End Published.

(** ** [runtime/supervisor.rs] *)

Definition DEFAULT_STACK_BYTES : Z := 2 * 1024 * 1024.
Definition JOIN_DEADLINE : Z := secs 5.
Definition EXIT_TICK : Z := 50000000.

Record Thread := mkThread { th_index : Z; th_name : string }.

(** [sv_returned] is the vector behind [Exits]. *)
Record Supervisor := mkSupervisor {
  sv_threads : list Thread;
  sv_returned : list bool;
  sv_capacity : Z;
  sv_started : bool;
}.

Record ShutdownReport := mkReport { sr_joined : Z; sr_outstanding : list string; sr_elapsed : Z }.

Module Exits.
Definition mark {E} (returned : list bool) (index : Z) : outcome E (list bool) :=
  slot ← expect (get returned index);
  assert_ (negb slot);;
  Ok (<[Z.to_nat index := true]> returned).

Definition outstanding (returned : list bool) : list Z :=
  omap (M:=list) (fun '(index, done) => if (done : bool) then None else Some index) (enumerate returned).
End Exits.

Module Supervisor.
Definition with_capacity {E} (capacity : Z) : outcome E Supervisor :=
  assert_ (0 <? capacity);; Ok (mkSupervisor [] [] capacity false).

(** [spawned] is whether the operating system made the thread. *)
Definition spawn (self : Supervisor) (name : string) (stack_bytes : Z) (spawned : bool) : outcome unit Supervisor :=
  assert_ (negb (bool_decide (name = EmptyString)));;
  assert_ (64 * 1024 <=? stack_bytes);;
  assert_ (len (sv_threads self) <? sv_capacity self);;
  let index := len (sv_threads self) in
  if negb spawned then Err tt
  else Ok (mkSupervisor (sv_threads self ++ [mkThread index name]) (sv_returned self ++ [false]) (sv_capacity self) true).

Definition spawned (self : Supervisor) : Z := len (sv_threads self).

Definition waits_for (returned : list bool) (skip : option Z) : bool :=
  existsb (fun '(index, done) => negb done && negb (bool_decide (Some index = skip))) (enumerate returned).

(** [wait_for_exits] on what it sees each time it wakes, and when: where it stops, if it does. *)
Fixpoint wait_for_exits (deadline : Z) (skip : option Z) (seen : list (Z * list bool)) : option (Z * list bool) :=
  match seen with
  | [] => None
  | (elapsed, returned) :: seen =>
      if negb (waits_for returned skip) then Some (elapsed, returned)
      else if saturating_sub deadline elapsed =? 0 then Some (elapsed, returned)
      else wait_for_exits deadline skip seen
  end.

Definition position (threads : list Thread) (name : string) : option nat :=
  fst <$> list_find (fun thread => th_name thread = name) threads.

(** The loop over the threads that are left; [joined] and the names so far. *)
Definition reap (outstanding : list Z) (st : Z * list string) (thread : Thread) : Z * list string :=
  if bool_decide (th_index thread ∈ outstanding) then (st.1, st.2 ++ [th_name thread])
  else (saturating_add st.1 1, st.2).

(** [finish]: [seen] is what the wait sees, [after] who has returned once the unbounded thread has
    been joined, and [elapsed] the clock at the end; [None] is that it is still waiting. *)
Definition finish {E} (self : Supervisor) (unbounded : string) (deadline : Z) (seen : list (Z * list bool))
    (after : list bool) (elapsed : Z) : outcome E (option ShutdownReport) :=
  assert_ (sv_started self);;
  let flushing := position (sv_threads self) unbounded in
  let skip := (fun p => match sv_threads self !! p with Some thread => th_index thread | None => u64_max end) <$> flushing in
  match wait_for_exits deadline skip seen with
  | None => Ok None
  | Some _ =>
      let (threads, joined) := match flushing with
                               | Some p => (delete p (sv_threads self), saturating_add 0 1)
                               | None => (sv_threads self, 0)
                               end in
      let (joined, names) := foldl (reap (Exits.outstanding after)) (joined, []) threads in
      Ok (Some (mkReport joined names elapsed))
  end.
End Supervisor.

(** ** [runtime/mod.rs]: the table of threads *)

Definition PEER_THREAD_STACK_BYTES : Z := 512 * 1024.
Definition READER_THREAD_PREFIX : string := "peer-reader-".
Definition WRITER_THREAD_PREFIX : string := "peer-writer-".
Definition LISTENER_THREAD : string := "listener".
Definition CONNECTOR_THREAD : string := "connector".
Definition CHAIN_THREAD : string := "chain".
Definition VALIDATION_THREAD : string := "validation".
Definition CONTROL_THREAD : string := "control".

Record ThreadRow := mkRow { tr_name : string; tr_count : Z; tr_stack_bytes : Z }.
Definition THREAD_TABLE : list ThreadRow :=
  [mkRow LISTENER_THREAD 1 DEFAULT_STACK_BYTES;
   mkRow CONNECTOR_THREAD 1 DEFAULT_STACK_BYTES;
   mkRow READER_THREAD_PREFIX PEER_SLOTS PEER_THREAD_STACK_BYTES;
   mkRow WRITER_THREAD_PREFIX PEER_SLOTS PEER_THREAD_STACK_BYTES;
   mkRow CHAIN_THREAD 1 DEFAULT_STACK_BYTES;
   mkRow VALIDATION_THREAD 1 DEFAULT_STACK_BYTES;
   mkRow CONTROL_THREAD 1 DEFAULT_STACK_BYTES].
Definition THREAD_COUNT : Z := 5 + PEER_SLOTS + PEER_SLOTS.

(** [Display] of a slot: two digits. *)
Definition digit (n : Z) : string := String (Ascii.ascii_of_nat (Z.to_nat (48 + n))) EmptyString.
Definition slot_name (slot : Z) : string := append (digit (slot / 10)) (digit (slot mod 10)).

(** The spawns of [Runtime::start], in order; each may fail. *)
Definition start_rows : list (string * Z) :=
  [(LISTENER_THREAD, DEFAULT_STACK_BYTES); (CONNECTOR_THREAD, DEFAULT_STACK_BYTES)]
  ++ map (fun index => (append READER_THREAD_PREFIX (slot_name index), PEER_THREAD_STACK_BYTES)) (seqZ 0 PEER_SLOTS)
  ++ map (fun index => (append WRITER_THREAD_PREFIX (slot_name index), PEER_THREAD_STACK_BYTES)) (seqZ 0 PEER_SLOTS)
  ++ [(CHAIN_THREAD, DEFAULT_STACK_BYTES); (VALIDATION_THREAD, DEFAULT_STACK_BYTES); (CONTROL_THREAD, DEFAULT_STACK_BYTES)].
Definition start_threads (os : string -> bool) : outcome unit Supervisor :=
  assert_ (foldr (fun row n => tr_count row + n) 0 THREAD_TABLE =? THREAD_COUNT);;
  supervisor ← Supervisor.with_capacity THREAD_COUNT;
  supervisor ← foldM (fun supervisor '(name, stack) => Supervisor.spawn supervisor name stack (os name)) supervisor start_rows;
  assert_ (Supervisor.spawned supervisor =? THREAD_COUNT);;
  Ok supervisor.

(** ** [main.rs]: the arguments, and what [Runtime::start] does with the peers *)

Record Config := mkConfig { cf_listen : SocketAddr; cf_peers : list SocketAddr }.
Inductive ArgumentError := NotAnAddress (argument : string) | NotAPeer (argument : string) | NamedTwice (argument : string).

(** [parse] is the standard library's [SocketAddr::from_str]. *)
Definition add_peer (parse : string -> option SocketAddr) (config : Config) (peer : string) : outcome ArgumentError Config :=
  match parse peer with
  | None => Err (NotAPeer peer)
  | Some address =>
      if bool_decide (address ∈ cf_peers config) then Err (NamedTwice peer)
      else Ok (mkConfig (cf_listen config) (cf_peers config ++ [address]))
  end.
Definition configure (parse : string -> option SocketAddr) (default : SocketAddr) (arguments : list string)
    : outcome ArgumentError Config :=
  let config := mkConfig default [] in
  match arguments with
  | [] => Ok config
  | listen :: peers =>
      match parse listen with
      | None => Err (NotAnAddress listen)
      | Some address => foldM (add_peer parse) (mkConfig address (cf_peers config)) peers
      end
  end.
Definition offer_peers {E} (peers : list SocketAddr) : outcome E Candidates :=
  foldM (fun candidates peer =>
    let (candidates, offered) := Candidates.offer candidates peer in
    assert_ offered;; Ok candidates) Candidates.new peers.

(** ** What the threads share *)

Section process.
Context {T : Type} (weight : T -> Z).

(** [Shared], without what never changes. *)
Record World := mkWorld {
  w_signals : Signals;
  w_shutdown : option Cause;
  w_slots : PeerSlots;
  w_candidates : Candidates;
  w_to_chain : PeerToChain T;
  w_to_validation : ChainToValidation;
  w_utxoset : UtxoSetSnapshot;
}.
Implicit Types (w : World).

Definition with_signals w (x : Signals) : World :=
  mkWorld x (w_shutdown w) (w_slots w) (w_candidates w) (w_to_chain w) (w_to_validation w) (w_utxoset w).
Definition with_shutdown w (x : option Cause) : World :=
  mkWorld (w_signals w) x (w_slots w) (w_candidates w) (w_to_chain w) (w_to_validation w) (w_utxoset w).
Definition with_table w (x : PeerSlots) : World :=
  mkWorld (w_signals w) (w_shutdown w) x (w_candidates w) (w_to_chain w) (w_to_validation w) (w_utxoset w).
Definition with_candidates w (x : Candidates) : World :=
  mkWorld (w_signals w) (w_shutdown w) (w_slots w) x (w_to_chain w) (w_to_validation w) (w_utxoset w).
Definition with_to_chain w (x : PeerToChain T) : World :=
  mkWorld (w_signals w) (w_shutdown w) (w_slots w) (w_candidates w) x (w_to_validation w) (w_utxoset w).
Definition with_to_validation w (x : ChainToValidation) : World :=
  mkWorld (w_signals w) (w_shutdown w) (w_slots w) (w_candidates w) (w_to_chain w) x (w_utxoset w).
Definition with_utxoset w (x : UtxoSetSnapshot) : World :=
  mkWorld (w_signals w) (w_shutdown w) (w_slots w) (w_candidates w) (w_to_chain w) (w_to_validation w) x.

Definition begun w : bool := Shutdown.is_begun (w_shutdown w).
Definition begin w (cause : Cause) : World := with_shutdown w (Shutdown.begin (w_shutdown w) cause).1.

(** ** [peer/net.rs]: one pass of the listener and of the connector *)

Definition MAX_CONSECUTIVE_ACCEPT_ERRORS : Z := 16.
Definition SEED_INTERVAL : Z := secs 60.
Definition SEED_OUTBOUND_THRESHOLD : Z := 2.
Definition MAX_ADDRESSES_PER_SEED : Z := 32.

Inductive Accept := Accepted (address : SocketAddr) (configured : bool) | WouldBlock | AcceptError.

(** [accept_one], with the count of errors in a row. *)
Definition accept {E} w (errors now : Z) (incoming : Accept) : outcome E (World * Z) :=
  match incoming with
  | Accepted address configured =>
      slots ← accept_one (w_slots w) address now configured;
      Ok (with_table w slots, 0)
  | WouldBlock => Ok (w, 0)
  | AcceptError => Ok (w, saturating_add errors 1)
  end.

(** The listener's local state is the count of errors; [None] is that it has returned. *)
Definition listener_pass {E} w (errors now : Z) (poll : Poll) (incoming : Accept) : outcome E (World * option Z) :=
  if begun w then Ok (w, None)
  else
    let (signals, woken) := pipe_wait (w_signals w) poll in
    let w := with_signals w signals in
    match woken with
    | None => Ok (begin w (Internal "listener cannot wait"), None)
    | Some woken =>
        if wk_signalled woken then
          let cause := match signalled signals with Some signum => Signal signum | None => Internal "shutdown requested" end in
          Ok (begin w cause, None)
        else if wk_socket_ready woken then
          '(w, errors) ← accept w errors now incoming;
          if MAX_CONSECUTIVE_ACCEPT_ERRORS <=? errors then Ok (begin w (Internal "listening socket failing"), None)
          else Ok (w, Some errors)
        else Ok (w, Some errors)
    end.

(** [query_seeds], on what each seed answers. *)
Definition query_seeds (candidates : Candidates) (answers : list (option (list SocketAddr))) : Candidates * Z :=
  foldl (fun st answer => match answer with
    | None => st
    | Some addresses =>
        foldl (fun '(candidates, found) address =>
          let (candidates, offered) := Candidates.offer candidates address in
          (candidates, if (offered : bool) then saturating_add found 1 else found))
          st (take (Z.to_nat MAX_ADDRESSES_PER_SEED) addresses)
    end) (candidates, 0) answers.

Definition seed w (seeded_at : option Z) (now : Z) (answers : list (option (list SocketAddr))) : World * option Z :=
  if SEED_OUTBOUND_THRESHOLD <=? PeerSlots.occupied (w_slots w) Outbound then (w, seeded_at)
  else if match seeded_at with Some at_ => now - at_ <? SEED_INTERVAL | None => false end then (w, seeded_at)
  else (with_candidates w (query_seeds (w_candidates w) answers).1, Some now).

(** The connector: it loads the anchors, and then passes; [connected] is whether a dial went
    through, and a flag that is set during the sleep is seen by the next pass. *)
Inductive ConnectorState := Loading | Dialling (seeded_at : option Z) | ConnectorReturned.
Definition connector_pass {E} w (st : ConnectorState) (now : Z) (anchors : list (option SocketAddr)) (connected : bool)
    (answers : list (option (list SocketAddr))) : outcome E (World * ConnectorState) :=
  match st with
  | Loading => Ok (with_candidates w (Candidates.load_anchors (w_candidates w) anchors).1, Dialling None)
  | Dialling seeded_at =>
      if begun w then Ok (w, ConnectorReturned)
      else if PeerSlots.has_room (w_slots w) Outbound then
        let (candidates, next) := Candidates.next (w_candidates w) now in
        let w := with_candidates w candidates in
        match next with
        | Some address => slots ← dial (w_slots w) address now connected; Ok (with_table w slots, st)
        | None => let (w, seeded_at) := seed w seeded_at now answers in Ok (w, Dialling seeded_at)
        end
      else Ok (w, st)
  | ConnectorReturned => Ok (w, st)
  end.

(** ** [peer/net.rs]: one pass of a reader and of a writer

    [None] is that the thread is blocked. *)

Inductive ReaderState := RWaiting | RServing | RReturned.

(** What a turn of [serve] comes to: the connection is updated and a message may be sent, or the
    connection ends. *)
Inductive Serves := Goes (f : Connection -> Connection) (message : option T) | Ends (reason : Disconnect).

Definition end_connection w (i : Z) (reason : Disconnect) : World :=
  let slots := PeerSlots.update (w_slots w) i (fun c =>
    let c := Connection.disconnect c (default reason (Connection.ended c)) in
    Connection.with_requests c (Requests.clear (cn_requests c)).1) in
  with_table w (PeerSlots.release slots i).

Definition reader_pass w (i : Z) (st : ReaderState) (serves : Serves) : option (World * ReaderState) :=
  match st with
  | RWaiting =>
      match PeerSlots.wait_for_connection (w_slots w) i with
      | None => None
      | Some None => Some (w, RReturned)
      | Some (Some _) => Some (w, RServing)
      end
  | RServing =>
      if begun w || PeerSlots.is_closing (w_slots w) then Some (end_connection w i NodeStopping, RWaiting)
      else match serves with
      | Ends reason => Some (end_connection w i reason, RWaiting)
      | Goes f None => Some (with_table w (PeerSlots.update (w_slots w) i f), RServing)
      | Goes f (Some message) =>
          let w := with_table w (PeerSlots.update (w_slots w) i f) in
          match PeerToChain.send weight (w_to_chain w) message true with
          | (queue, Returns (Ok _)) => Some (with_to_chain w queue, RServing)
          | (_, Returns (Err _)) => Some (end_connection w i NodeStopping, RWaiting)
          | (_, Returns Panic) | (_, Waits) => None
          end
      end
  | RReturned => None
  end.

Inductive WriterState := WWaiting | WDraining | WVacating | WReturned.

(** [wrote] is whether the socket took the frame.  A connection that has left its slot was
    disconnected, and its socket takes nothing. *)
Definition writer_pass w (i : Z) (st : WriterState) (wrote : bool) : option (World * WriterState) :=
  match st with
  | WWaiting =>
      match PeerSlots.wait_for_connection (w_slots w) i with
      | None => None
      | Some None => Some (w, WReturned)
      | Some (Some _) => Some (w, WDraining)
      end
  | WDraining =>
      if begun w then Some (w, WVacating)
      else match PeerSlots.connection (w_slots w) i with
      | None => Some (w, WVacating)
      | Some c =>
          let (outbox, frame) := Outbox.pop (cn_outbox c) in
          match frame with
          | Some _ =>
              let slots := PeerSlots.update (w_slots w) i (fun c => Connection.with_outbox c outbox) in
              if (wrote : bool) then Some (with_table w slots, WDraining)
              else Some (with_table w (PeerSlots.update slots i (fun c => Connection.disconnect c WriteFailed)), WVacating)
          | None => Some (w, if Outbox.is_closed outbox then WVacating else WDraining)
          end
      end
  | WVacating => if PeerSlots.wait_until_vacant (w_slots w) i then Some (w, WWaiting) else None
  | WReturned => None
  end.

(** ** [chain/mod.rs], [validation.rs] and [control.rs]: one pass of each loop

    [updates] is what the chain thread does to connections and [fatal] whether the index could not
    be written; the chain thread returns through [flush] and the closing of its queue. *)
Definition chain_pass w (updates : list (Z * (Connection -> Connection))) (fatal : bool) : World * bool :=
  let stop := with_to_validation w (ChainToValidation.close (w_to_validation w)) in
  if begun w then (stop, false)
  else match PeerToChain.recv weight (w_to_chain w) with
  | (_, ReceivedClosed) => (stop, false)
  | (queue, _) =>
      let w := with_to_chain w queue in
      let w := with_table w (foldl (fun slots '(i, f) => PeerSlots.update slots i f) (w_slots w) updates) in
      (if fatal then begin w (Internal "the block index cannot be written") else w, true)
  end.

(** [apply]. *)
Definition apply_job w (job : ConnectJob) : World :=
  let utxoset := Published.read (w_utxoset w) in
  let utxoset := mkUtxoSet (Some (job_hash job)) (job_height job) (us_txouts utxoset) (us_total_amount utxoset) (us_muhash utxoset) in
  with_utxoset w (Published.publish (w_utxoset w) utxoset).

(** The local state of validation is the count of blocks; it returns through [discard] and the
    sync of its series ([Series.v]). *)
Definition validation_pass w (connected : Z) : World * option Z :=
  let stop := with_to_validation w (ChainToValidation.discard (w_to_validation w)).1 in
  if begun w then (stop, None)
  else match ChainToValidation.pop (w_to_validation w) with
  | (queue, Item job) => (apply_job (with_to_validation w queue) job, Some (saturating_add connected 1))
  | (_, Empty) => (w, Some connected)
  | (_, ReceivedClosed) => (stop, None)
  end.

Definition control_pass w : bool := negb (begun w).

(** ** [Runtime::shutdown] *)

(** The anchors are what is left for the file, which may fail to be written. *)
Definition stop_world {E} w : outcome E (World * list SocketAddr) :=
  assert_ (begun w);;
  anchors ← PeerSlots.anchor_addresses (w_slots w);
  assert_ (len anchors <=? MAX_ANCHORS);;
  let w := with_table w (PeerSlots.shutdown_all (w_slots w)).1 in
  Ok (with_to_chain w (PeerToChain.close (w_to_chain w)), anchors).
End process.

(** ** The supervisor *)

(** Threads are numbered in the order they were spawned, and every one has its row. *)
Record supervised (self : Supervisor) : Prop := mkSupervised {
  su_index k thread : sv_threads self !! k = Some thread -> th_index thread = Z.of_nat k;
  su_returned : length (sv_returned self) = length (sv_threads self);
  su_capacity : len (sv_threads self) <= sv_capacity self <= u64_max;
  su_started : sv_started self = negb (len (sv_threads self) =? 0);
}.

Lemma spawn_supervised self name stack os : supervised self -> name <> EmptyString -> 64 * 1024 <= stack ->
  len (sv_threads self) < sv_capacity self ->
  Supervisor.spawn self name stack os = Err tt \/
  exists self', Supervisor.spawn self name stack os = Ok self' /\ supervised self' /\ sv_capacity self' = sv_capacity self /\
    th_name <$> sv_threads self' = (th_name <$> sv_threads self) ++ [name].
Proof.
  intros [H1 H2 H3 H4] Hname Hstack Hroom. unfold Supervisor.spawn. rewrite bool_decide_false by done.
  rewrite (proj2 (Z.leb_le (64 * 1024) stack)), (proj2 (Z.ltb_lt (len (sv_threads self)) (sv_capacity self))) by done. run.
  destruct os; cbn [negb]; [right|by left]. eexists. split; [done|]. split; [|split; [done|cbn [sv_threads]; by rewrite fmap_app]].
  split; cbn; [|rewrite !length_app; cbn; lia|rewrite len_app; change (len [mkThread (len (sv_threads self)) name]) with 1; lia|].
  - intros k thread Hk. destruct (decide (k < length (sv_threads self))%nat) as [Hlt|Hge].
    + rewrite lookup_app_l in Hk by done. by apply H1.
    + rewrite lookup_app_r in Hk by lia. destruct (k - length (sv_threads self))%nat eqn:Hd; [|done]. injection Hk as <-. cbn. unfold len. lia.
  - rewrite len_app. change (len [mkThread (len (sv_threads self)) name]) with 1. pose proof (len_nonneg (sv_threads self)).
    destruct (Z.eqb_spec (len (sv_threads self) + 1) 0); [lia|done].
Qed.

Lemma spawns_supervised os rows : Forall (fun row : string * Z => row.1 <> EmptyString /\ 64 * 1024 <= row.2) rows ->
  forall self, supervised self -> len (sv_threads self) + len rows <= sv_capacity self ->
  let r := foldM (fun self '(name, stack) => Supervisor.spawn self name stack (os name)) self rows in
  r = Err tt \/ exists self', r = Ok self' /\ supervised self' /\ th_name <$> sv_threads self' = (th_name <$> sv_threads self) ++ rows.*1.
Proof.
  induction 1 as [|[name stack] rows [Hn Hs] HF IH]; intros self Hsu Hroom; cbn [foldM].
  { right. exists self. split; [done|]. split; [done|]. cbn. by rewrite app_nil_r. }
  rewrite len_cons in Hroom. pose proof (len_nonneg rows).
  destruct (spawn_supervised self name stack (os name) Hsu Hn Hs ltac:(lia)) as [->|(s1 & -> & Hs1 & Hc1 & Hn1)]; [by left|]. run.
  assert (Hlen : len (sv_threads s1) = len (sv_threads self) + 1).
  { apply (f_equal length) in Hn1. rewrite length_app, !length_fmap in Hn1. cbn in Hn1. unfold len. lia. }
  destruct (IH s1 Hs1 ltac:(lia)) as [->|(s2 & -> & Hs2 & Hn2)]; [by left|]. right. exists s2. split; [done|]. split; [done|].
  by rewrite Hn2, Hn1, <-app_assoc.
Qed.

(** Every thread of the table is spawned under a name of its own, or the operating system refused
    one and the node does not start. *)
Lemma start_threads_ok os : start_threads os = Err tt \/
  exists self, start_threads os = Ok self /\ supervised self /\ th_name <$> sv_threads self = start_rows.*1 /\ NoDup (start_rows.*1).
Proof.
  unfold start_threads. change (foldr _ 0 THREAD_TABLE =? THREAD_COUNT) with true. run.
  unfold Supervisor.with_capacity. change (0 <? THREAD_COUNT) with true. run.
  assert (H0 : supervised (mkSupervisor [] [] THREAD_COUNT false)) by by split.
  assert (HF : Forall (fun row : string * Z => row.1 <> EmptyString /\ 64 * 1024 <= row.2) start_rows).
  { apply (bool_decide_unpack (Forall (fun row : string * Z => row.1 <> EmptyString /\ 64 * 1024 <= row.2) start_rows)). by vm_compute. }
  destruct (spawns_supervised os start_rows HF _ H0) as [->|(self & -> & Hs & Hn)]; [by vm_compute|by left|]. right. run. exists self.
  assert (Hlen : len (sv_threads self) = THREAD_COUNT).
  { apply (f_equal length) in Hn. rewrite length_fmap in Hn. unfold len. rewrite Hn. by vm_compute. }
  unfold Supervisor.spawned. rewrite Hlen. split; [done|]. split; [done|]. split; [done|].
  apply (bool_decide_unpack (NoDup start_rows.*1)). by vm_compute.
Qed.

Lemma elem_enumerate_from {A} k (l : list A) i x : (i, x) ∈ enumerate_from k l <-> k <= i /\ l !! Z.to_nat (i - k) = Some x.
Proof.
  revert k; induction l as [|y l IH]; intros k; cbn [enumerate_from].
  { split; [by intros ?%not_elem_of_nil|]. intros [_ H]. by rewrite lookup_nil in H. }
  rewrite elem_of_cons, IH. split.
  - intros [[= -> ->]|[Hk Hl]]; [rewrite Z.sub_diag; split; [lia|done]|]. split; [lia|].
    replace (Z.to_nat (i - k)) with (S (Z.to_nat (i - (k + 1)))) by lia. done.
  - intros [Hk Hl]. destruct (decide (i = k)) as [->|Hne]; [rewrite Z.sub_diag in Hl; injection Hl as ->; by left|right].
    split; [lia|]. replace (Z.to_nat (i - k)) with (S (Z.to_nat (i - (k + 1)))) in Hl by lia. done.
Qed.
Lemma elem_outstanding returned i : i ∈ Exits.outstanding returned <-> 0 <= i /\ returned !! Z.to_nat i = Some false.
Proof.
  unfold Exits.outstanding, enumerate. rewrite list_elem_of_omap. split.
  - intros ([j done] & Hj & Hi). apply elem_enumerate_from in Hj as [H0 Hl]. rewrite Z.sub_0_r in Hl. destruct done; [done|]. injection Hi as ->. done.
  - intros [H0 Hl]. exists (i, false). split; [|done]. apply elem_enumerate_from. by rewrite Z.sub_0_r.
Qed.

(** The names of the threads that have not returned, in the order of the table. *)
Definition still_running (after : list bool) (threads : list Thread) : list string :=
  omap (M:=list) (fun thread => if bool_decide (after !! Z.to_nat (th_index thread) = Some false) then Some (th_name thread) else None) threads.

Lemma reap_all after threads joined names : Forall (fun thread => 0 <= th_index thread) threads ->
  0 <= joined -> joined + len threads <= u64_max ->
  foldl (Supervisor.reap (Exits.outstanding after)) (joined, names) threads =
    (joined + len threads - len (still_running after threads), names ++ still_running after threads).
Proof.
  intros HF. revert joined names; induction HF as [|thread threads H0 HF IH]; intros joined names Hj Hb; cbn [foldl].
  { rewrite len_nil. cbn. rewrite app_nil_r. f_equal. change (len ([] : list string)) with 0. lia. }
  rewrite len_cons in Hb |- *. pose proof (len_nonneg threads). unfold still_running. cbn [omap list_omap]. fold (still_running after threads).
  unfold Supervisor.reap at 2. cbn [fst snd]. rewrite (bool_decide_ext _ (after !! Z.to_nat (th_index thread) = Some false)).
  2: { rewrite elem_outstanding. naive_solver. }
  destruct (bool_decide _).
  - rewrite IH by lia. rewrite len_cons, <-app_assoc. cbn [app]. f_equal. lia.
  - unfold saturating_add. rewrite Z.min_r by lia. rewrite IH by lia. f_equal. lia.
Qed.

Lemma wait_for_exits_spec deadline skip seen :
  match Supervisor.wait_for_exits deadline skip seen with
  | None => Forall (fun x => Supervisor.waits_for x.2 skip = true /\ x.1 < deadline) seen
  | Some x => exists before later, seen = before ++ x :: later /\
      Forall (fun x => Supervisor.waits_for x.2 skip = true /\ x.1 < deadline) before /\
      (Supervisor.waits_for x.2 skip = false \/ deadline <= x.1)
  end.
Proof.
  induction seen as [|[elapsed returned] seen IH]; cbn [Supervisor.wait_for_exits]; [done|].
  destruct (Supervisor.waits_for returned skip) eqn:Hw; cbn [negb]; [|exists [], seen; split; [done|]; split; [done|by left]].
  unfold saturating_sub. destruct (Z.eqb_spec (Z.max 0 (deadline - elapsed)) 0) as [Hd|Hd].
  { exists [], seen. split; [done|]. split; [done|]. right. cbn. lia. }
  destruct (Supervisor.wait_for_exits deadline skip seen) as [x|].
  - destruct IH as (before & later & -> & HF & Hx). exists ((elapsed, returned) :: before), later. split; [done|].
    split; [constructor; [cbn; split; [done|lia]|done]|done].
  - constructor; [cbn; split; [done|lia]|done].
Qed.

Lemma omap_delete {A B} (f : A -> option B) (l : list A) p x : l !! p = Some x -> f x = None -> omap (M:=list) f (delete p l) = omap (M:=list) f l.
Proof.
  revert p; induction l as [|y l IH]; intros [|p] Hx Hf; cbn in *; [done|done|simplify_eq; by rewrite Hf|].
  specialize (IH p Hx Hf). destruct (f y) as [b|]; [exact (f_equal (cons b) IH)|exact IH].
Qed.

(**  What a stopping node reports is what happened.  The wait for the threads ends exactly at
    the first moment at which all of them but the one whose flush is waited for have returned, or
    at which the deadline has passed; the flush is waited for however long it takes; and the
    report then names exactly the threads that have not returned, in the order of the table, and
    counts every other one as joined. *)
Theorem shutdown_report_exact {E} self unbounded p deadline seen after elapsed :
  supervised self -> Supervisor.position (sv_threads self) unbounded = Some p ->
  length after = length (sv_threads self) -> after !! p = Some true ->
  match Supervisor.finish (E:=E) self unbounded deadline seen after elapsed with
  | Ok None => Forall (fun x => Supervisor.waits_for x.2 (Some (Z.of_nat p)) = true /\ x.1 < deadline) seen
  | Ok (Some report) =>
      (exists before x later, seen = before ++ x :: later /\
         Forall (fun x => Supervisor.waits_for x.2 (Some (Z.of_nat p)) = true /\ x.1 < deadline) before /\
         (Supervisor.waits_for x.2 (Some (Z.of_nat p)) = false \/ deadline <= x.1)) /\
      sr_outstanding report = still_running after (sv_threads self) /\
      sr_joined report = len (sv_threads self) - len (sr_outstanding report)
  | _ => False
  end.
Proof.
  intros [H1 H2 H3 H4] Hp Hlen Hafter. unfold Supervisor.finish. rewrite Hp. cbn [fmap option_fmap option_map].
  assert (Hth : exists thread, sv_threads self !! p = Some thread).
  { unfold Supervisor.position in Hp. destruct (list_find _ _) as [[q thread]|] eqn:Hf; [|done]. injection Hp as ->.
    apply list_find_Some in Hf as (Hq & _). eauto. }
  destruct Hth as [thread Hth]. pose proof (H1 _ _ Hth) as Hix. pose proof (lookup_lt_Some _ _ _ Hth) as Hlt. rewrite Hth, Hix.
  rewrite H4. destruct (Z.eqb_spec (len (sv_threads self)) 0) as [H0|H0]; [unfold len in H0; lia|]. run.
  pose proof (wait_for_exits_spec deadline (Some (Z.of_nat p)) seen) as Hw.
  destruct (Supervisor.wait_for_exits deadline (Some (Z.of_nat p)) seen) as [x|]; [|done].
  destruct Hw as (before & later & Hseen & HF & Hx). unfold saturating_add. rewrite Z.min_r by (unfold u64_max; lia).
  assert (Hdel : len (delete p (sv_threads self)) = len (sv_threads self) - 1) by (unfold len; rewrite length_delete by done; lia).
  rewrite reap_all; [|apply Forall_forall; intros t Ht|lia|lia].
  2: { apply list_elem_of_delete_inv, list_elem_of_lookup in Ht as [j Hj]. rewrite (H1 _ _ Hj). lia. }
  assert (Hdo : still_running after (delete p (sv_threads self)) = still_running after (sv_threads self)).
  { unfold still_running. eapply omap_delete; [exact Hth|]. rewrite Hix, Nat2Z.id, Hafter. by rewrite bool_decide_false. }
  rewrite Hdo, Hdel. cbn [app]. split; [by exists before, x, later|]. cbn. split; [done|]. lia.
Qed.

(** ** The peers of the command line *)

Lemma configure_distinct parse default arguments config : configure parse default arguments = Ok config -> NoDup (cf_peers config).
Proof.
  unfold configure. destruct arguments as [|listen peers]; [intros [= <-]; constructor|].
  destruct (parse listen) as [address|]; [|done]. cbn [cf_peers].
  assert (H0 : NoDup (cf_peers (mkConfig address []))) by constructor. revert H0. generalize (mkConfig address []).
  induction peers as [|peer peers IH]; intros c Hc; cbn [foldM]; [by intros [= <-]|].
  intros H. apply bind_Ok in H as (c1 & Ha & H). unfold add_peer in Ha. destruct (parse peer) as [a|]; [|discriminate].
  destruct (bool_decide_reflect (a ∈ cf_peers c)) as [|Hn]; [discriminate|]. injection Ha as <-. revert H.
  apply IH. cbn. apply NoDup_app. split; [done|]. split; [|apply NoDup_singleton]. intros x Hx Hy. apply list_elem_of_singleton in Hy. subst x. by apply Hn.
Qed.

Lemma offer_loop {E} peers : forall candidates, NoDup (ca_queue candidates ++ peers) ->
  foldM (E:=E) (fun candidates peer =>
    let (candidates, offered) := Candidates.offer candidates peer in
    assert_ offered;; Ok candidates) candidates peers =
  if (len (ca_queue candidates) + len peers <=? MAX_CANDIDATES) || (len peers =? 0)
  then Ok (mkCandidates (ca_queue candidates ++ peers) (ca_recent candidates)) else Panic.
Proof.
  induction peers as [|peer peers IH]; intros candidates Hd; cbn [foldM].
  { change (len ([] : list SocketAddr)) with 0. rewrite orb_true_r, app_nil_r. by destruct candidates. }
  rewrite len_cons. pose proof (len_nonneg peers). unfold Candidates.offer.
  assert (Hn : peer ∉ ca_queue candidates).
  { apply NoDup_app in Hd as (_ & Hx & _). intros Hin. apply (Hx peer Hin). by left. }
  rewrite bool_decide_false by done. rewrite orb_false_r. destruct (Z.leb_spec MAX_CANDIDATES (len (ca_queue candidates))) as [Hf|Hr]; run.
  { rewrite (proj2 (Z.leb_gt _ _)) by lia. rewrite (proj2 (Z.eqb_neq _ _)) by lia. done. }
  rewrite IH; cbn [ca_queue ca_recent]; [|by rewrite <-app_assoc]. rewrite len_app, <-app_assoc. change (len [peer]) with 1. cbn [app].
  rewrite (proj2 (Z.eqb_neq (len peers + 1) 0)), orb_false_r by lia.
  replace (len (ca_queue candidates) + 1 + len peers) with (len (ca_queue candidates) + (len peers + 1)) by lia.
  destruct (Z.leb_spec (len (ca_queue candidates) + (len peers + 1)) MAX_CANDIDATES); [done|].
  destruct (Z.eqb_spec (len peers) 0) as [Hz|]; [|done]. unfold MAX_CANDIDATES in *. lia.
Qed.

(** The assertion on the peers named on the command line holds exactly for as many as the queue of
    candidates takes. *)
Lemma named_peers_offered {E} parse default arguments config : configure parse default arguments = Ok config ->
  offer_peers (E:=E) (cf_peers config) =
    if len (cf_peers config) <=? MAX_CANDIDATES then Ok (mkCandidates (cf_peers config) []) else Panic.
Proof.
  intros Hc. apply configure_distinct in Hc. unfold offer_peers. rewrite offer_loop by done. cbn [ca_queue Candidates.new app ca_recent].
  change (len ([] : list SocketAddr)) with 0. rewrite Z.add_0_l. destruct (Z.leb_spec (len (cf_peers config)) MAX_CANDIDATES); [done|].
  rewrite (proj2 (Z.eqb_neq _ _)); [done|]. unfold MAX_CANDIDATES in *. lia.
Qed.

(** ** A concrete shutdown: the table of the node, one writer still in its socket *)

Definition node_threads : Supervisor := match start_threads (fun _ => true) with Ok self => self | _ => mkSupervisor [] [] 1 false end.
Lemma node_supervised : supervised node_threads.
Proof.
  unfold node_threads. destruct (start_threads_ok (fun _ => true)) as [He|(self & -> & Hs & _)]; [|done]. vm_compute in He. discriminate.
Qed.
Definition all_but_one : list bool := <[34%nat := false]> (repeat true 69).

Lemma shutdown_report_exact_witness :
  Supervisor.finish (E:=Empty_set) node_threads VALIDATION_THREAD JOIN_DEADLINE
    [(0, repeat false 69); (secs 5, all_but_one)] all_but_one (secs 6) = Ok (Some (mkReport 68 ["peer-writer-00"%string] (secs 6))) /\
  len (sv_threads node_threads) - 1 = 68.
Proof.
  pose proof (shutdown_report_exact (E:=Empty_set) node_threads VALIDATION_THREAD 67 JOIN_DEADLINE
    [(0, repeat false 69); (secs 5, all_but_one)] all_but_one (secs 6) node_supervised) as H.
  assert (H1 : Supervisor.position (sv_threads node_threads) VALIDATION_THREAD = Some 67%nat) by (vm_compute; reflexivity).
  assert (H2 : length all_but_one = length (sv_threads node_threads)) by (vm_compute; reflexivity).
  assert (H3 : all_but_one !! 67%nat = Some true) by (vm_compute; reflexivity).
  assert (Hf : Supervisor.finish (E:=Empty_set) node_threads VALIDATION_THREAD JOIN_DEADLINE
    [(0, repeat false 69); (secs 5, all_but_one)] all_but_one (secs 6) = Ok (Some (mkReport 68 ["peer-writer-00"%string] (secs 6))))
    by (vm_compute; reflexivity).
  specialize (H H1 H2 H3). rewrite Hf in H. destruct H as (_ & _ & Hj). split; [exact Hf|]. symmetry. exact Hj.
Defined.
