(* ===== verification/Lifecycle.v ===== *)
(** * Lifecycle: the node's threads together, and how a shutdown ends them

    A process is the shared world, the main thread and the sixty-nine threads of the table; a step
    is one pass of one of them ([Runtime.v]), or a signal.  A pass is atomic: what it does between
    two of its blocking calls touches the shared state under the locks of that state. *)
From S2P Require Import Prelude Bitcoin Flags Params Header Tx Block Message Wire PeerQueues Channel Slots Queue Network Window ScheduleProofs Net Runtime.

Section lifecycle.
Context {T : Type} (weight : T -> Z).

Record Process := mkProcess {
  p_world : World (T:=T);
  p_main : bool;
  p_listener : option Z;
  p_connector : ConnectorState;
  p_readers : list ReaderState;
  p_writers : list WriterState;
  p_chain : bool;
  p_validation : option Z;
  p_control : bool;
}.
Implicit Types (p : Process) (w : World (T:=T)).

Inductive Who := Main | Kernel | Listener | Connector | Reader (i : nat) | Writer (i : nat) | ChainLoop | Validation | Control.

(** A process that [_exit] has not ended. *)
Definition alive p : bool := bool_decide (sg_exit (w_signals (p_world p)) = None).

Inductive step : Process -> Who -> Process -> Prop :=
| step_signal w m li co rs ws ch va ct signum :
    step (mkProcess w m li co rs ws ch va ct) Kernel
      (mkProcess (with_signals w (handle_signal (w_signals w) signum)) m li co rs ws ch va ct)
| step_main w w' anchors li co rs ws ch va ct :
    stop_world (E:=Empty_set) w = Ok (w', anchors) ->
    step (mkProcess w true li co rs ws ch va ct) Main (mkProcess w' false li co rs ws ch va ct)
| step_listener w w' m errors li co rs ws ch va ct now poll incoming :
    listener_pass (E:=Empty_set) w errors now poll incoming = Ok (w', li) ->
    step (mkProcess w m (Some errors) co rs ws ch va ct) Listener (mkProcess w' m li co rs ws ch va ct)
| step_connector w w' m li co co' rs ws ch va ct now anchors connected answers :
    co <> ConnectorReturned -> connector_pass (E:=Empty_set) w co now anchors connected answers = Ok (w', co') ->
    step (mkProcess w m li co rs ws ch va ct) Connector (mkProcess w' m li co' rs ws ch va ct)
| step_reader w w' m li co rs ws ch va ct i st st' serves :
    rs !! i = Some st -> reader_pass weight w (Z.of_nat i) st serves = Some (w', st') ->
    step (mkProcess w m li co rs ws ch va ct) (Reader i) (mkProcess w' m li co (<[i := st']> rs) ws ch va ct)
| step_writer w w' m li co rs ws ch va ct i st st' wrote :
    ws !! i = Some st -> writer_pass w (Z.of_nat i) st wrote = Some (w', st') ->
    step (mkProcess w m li co rs ws ch va ct) (Writer i) (mkProcess w' m li co rs (<[i := st']> ws) ch va ct)
| step_chain w w' m li co rs ws ch' va ct updates fatal :
    chain_pass weight w updates fatal = (w', ch') ->
    step (mkProcess w m li co rs ws true va ct) ChainLoop (mkProcess w' m li co rs ws ch' va ct)
| step_validation w w' m li co rs ws ch connected va' ct :
    validation_pass w connected = (w', va') ->
    step (mkProcess w m li co rs ws ch (Some connected) ct) Validation (mkProcess w' m li co rs ws ch va' ct)
| step_control w m li co rs ws ch va :
    step (mkProcess w m li co rs ws ch va true) Control (mkProcess w m li co rs ws ch va (control_pass w)).

(** A run of a process that has not exited, and who took its steps. *)
Inductive run : Process -> list Who -> Process -> Prop :=
| run_done p : run p [] p
| run_step p who p1 l p2 : alive p = true -> step p who p1 -> run p1 l p2 -> run p (who :: l) p2.

(** A process that has started its threads. *)
Definition started p : Prop :=
  p_world p = mkWorld (w_signals (p_world p)) None PeerSlots.new (w_candidates (p_world p))
    (w_to_chain (p_world p)) (w_to_validation (p_world p)) empty_utxoset /\
  pc_closed (w_to_chain (p_world p)) = false /\
  p_main p = true /\ p_readers p = repeat RWaiting 32 /\ p_writers p = repeat WWaiting 32.

(** Who has returned, in the order of the table. *)
Definition returned p : list bool :=
  [bool_decide (p_listener p = None); match p_connector p with ConnectorReturned => true | _ => false end]
  ++ map (fun st => match st with RReturned => true | _ => false end) (p_readers p)
  ++ map (fun st => match st with WReturned => true | _ => false end) (p_writers p)
  ++ [negb (p_chain p); bool_decide (p_validation p = None); negb (p_control p)].

(** ** How much is left to do once the node is stopping *)

Definition occ (slots : PeerSlots) (i : nat) : nat :=
  match PeerSlots.connection slots (Z.of_nat i) with Some _ => 1%nat | None => 0%nat end.
Definition reader_rank (slots : PeerSlots) (rs : list ReaderState) (i : nat) : nat :=
  match rs !! i with
  | Some RWaiting => 1 + 2 * occ slots i
  | Some RServing => 2
  | _ => 0
  end%nat.
Definition writer_rank (slots : PeerSlots) (ws : list WriterState) (i : nat) : nat :=
  match ws !! i with
  | Some WWaiting => 1 + 3 * occ slots i
  | Some WVacating => 2
  | Some WDraining => 3
  | _ => 0
  end%nat.
Definition total (f : nat -> nat) : nat := sum_list_with f (seq 0 32).
Definition rank p : nat :=
  ((match p_listener p with Some _ => 1 | None => 0 end)
   + (match p_connector p with Loading => 2 | Dialling _ => 1 | ConnectorReturned => 0 end)
   + total (reader_rank (w_slots (p_world p)) (p_readers p))
   + (if p_chain p then 1 else 0) + (match p_validation p with Some _ => 1 | None => 0 end)
   + (if p_control p then 1 else 0))%nat.
Definition writers_rank p : nat := total (writer_rank (w_slots (p_world p)) (p_writers p)).
Definition worker (who : Who) : bool := match who with Kernel | Writer _ => false | _ => true end.

Lemma sum_le (f g : nat -> nat) l : (forall i, (f i <= g i)%nat) -> (sum_list_with f l <= sum_list_with g l)%nat.
Proof. intros H. induction l as [|x l IH]; cbn; [lia|]. specialize (H x). lia. Qed.
Lemma sum_lt (f g : nat -> nat) l i : (forall j, (f j <= g j)%nat) -> (f i < g i)%nat -> i ∈ l ->
  (sum_list_with f l < sum_list_with g l)%nat.
Proof.
  intros H Hi. induction l as [|x l IH]; intros Hin; [by apply not_elem_of_nil in Hin|]. cbn.
  apply elem_of_cons in Hin as [<-|Hin]; [pose proof (sum_le f g l H); lia|]. specialize (H x). specialize (IH Hin). lia.
Qed.
Lemma total_le f g : (forall i, (f i <= g i)%nat) -> (total f <= total g)%nat.
Proof. apply sum_le. Qed.
Lemma total_lt f g i : (forall j, (f j <= g j)%nat) -> (f i < g i)%nat -> (i < 32)%nat -> (total f < total g)%nat.
Proof. intros H Hi Hlt. apply (sum_lt f g _ i H Hi). apply elem_of_seq. lia. Qed.
Lemma total_zero f : total f = 0%nat -> forall i, (i < 32)%nat -> f i = 0%nat.
Proof.
  unfold total. intros H i Hi. assert (Hin : i ∈ seq 0 32) by (apply elem_of_seq; lia). revert H Hin.
  induction (seq 0 32) as [|x l IH]; cbn; intros H Hin; [by apply not_elem_of_nil in Hin|].
  apply elem_of_cons in Hin as [->|Hin]; [lia|]. apply IH; [lia|done].
Qed.

(** ** What every pass keeps *)

Record moves w w' : Prop := mkMoves {
  mv_len : len (ps_slots (w_slots w')) = len (ps_slots (w_slots w));
  mv_closing : ps_closing (w_slots w') = ps_closing (w_slots w);
  mv_occ : ps_closing (w_slots w) = true -> forall i, (occ (w_slots w') i <= occ (w_slots w) i)%nat;
  mv_begun : begun w = true -> begun w' = true;
  mv_closed : pc_closed (w_to_chain w') = pc_closed (w_to_chain w);
  mv_items : begun w = true -> pc_items (w_to_chain w') = pc_items (w_to_chain w);
}.

Lemma moves_refl w : moves w w.
Proof. by split. Qed.
Lemma moves_trans w1 w2 w3 : moves w1 w2 -> moves w2 w3 -> moves w1 w3.
Proof.
  intros [L1 C1 O1 B1 Q1 I1] [L2 C2 O2 B2 Q2 I2]. split; [congruence|congruence| |auto|congruence|].
  - intros Hc i. rewrite C1 in O2. specialize (O1 Hc i). specialize (O2 Hc i). lia.
  - intros Hb. rewrite I2 by auto. auto.
Qed.

(** Passes that leave the table and the queue alone. *)
Lemma moves_same w w' : w_slots w' = w_slots w -> w_to_chain w' = w_to_chain w -> (begun w = true -> begun w' = true) -> moves w w'.
Proof. intros Hs Hq Hb. by split; rewrite ?Hs, ?Hq. Qed.
Lemma begin_begun w cause : begun (begin w cause) = true.
Proof. unfold begun, begin, with_shutdown, Shutdown.begin, Shutdown.is_begun. by destruct (w_shutdown w). Qed.
Lemma moves_begin w cause : moves w (begin w cause).
Proof. apply moves_same; [done|done|]. intros _. apply begin_begun. Qed.

Lemma update_closing slots i f : ps_closing (PeerSlots.update slots i f) = ps_closing slots.
Proof. unfold PeerSlots.update. by destruct (PeerSlots.connection slots i). Qed.
Lemma update_occ slots i f j : occ (PeerSlots.update slots i f) j = occ slots j.
Proof.
  unfold occ. rewrite connection_update. destruct (decide (Z.of_nat j = i)) as [->|]; [|done]. by destruct (PeerSlots.connection slots i).
Qed.
Lemma moves_update w i f : moves w (with_table w (PeerSlots.update (w_slots w) i f)).
Proof.
  split; cbn; [apply slots_len_update|apply update_closing| |done|done|done]. intros _ j. rewrite update_occ. lia.
Qed.
Lemma moves_updates updates w :
  moves w (with_table w (foldl (fun slots '(i, f) => PeerSlots.update slots i f) (w_slots w) updates)).
Proof.
  revert w; induction updates as [|[i f] updates IH]; intros w; cbn [foldl]; [by destruct w; apply moves_same|].
  eapply moves_trans; [apply (moves_update w i f)|]. apply (IH (with_table w (PeerSlots.update (w_slots w) i f))).
Qed.

Lemma release_closing slots i : ps_closing (PeerSlots.release slots i) = ps_closing slots.
Proof.
  unfold PeerSlots.release. destruct (get (ps_slots slots) i) as [[c|]|]; [|done..].
  rewrite bool_decide_true by eauto. by destruct (SlotIndex.kind i).
Qed.
Lemma release_occ slots i j : occ (PeerSlots.release slots (Z.of_nat i)) j = if decide (j = i) then 0%nat else occ slots j.
Proof.
  unfold occ. rewrite release_connection. destruct (decide (Z.of_nat j = Z.of_nat i)), (decide (j = i)); [done|lia|lia|done].
Qed.
Lemma moves_end w i reason : moves w (end_connection w (Z.of_nat i) reason) /\ occ (w_slots (end_connection w (Z.of_nat i) reason)) i = 0%nat.
Proof.
  unfold end_connection. split; [|cbn; rewrite release_occ; by rewrite decide_True].
  split; cbn; [by rewrite release_len, slots_len_update|by rewrite release_closing, update_closing| |done|done|done].
  intros _ j. rewrite release_occ, update_occ. destruct (decide (j = i)); lia.
Qed.

(** Only a table that is not closing takes a connection. *)
Lemma claim_moves {E} slots kind address now slots' o : PeerSlots.claim (E:=E) slots kind address now = Ok (slots', o) ->
  len (ps_slots slots') = len (ps_slots slots) /\ ps_closing slots' = ps_closing slots /\ (ps_closing slots = true -> slots' = slots).
Proof.
  unfold PeerSlots.claim. destruct (ps_closing slots) eqn:Hc; [by intros [= <- <-]|].
  destruct (PeerSlots.first_free kind 0 (ps_slots slots)) as [index|]; [|by intros [= <- <-]].
  intros H. inv_ok. subst. unfold len. destruct kind; cbn; by rewrite length_insert.
Qed.
Lemma moves_table w slots' : len (ps_slots slots') = len (ps_slots (w_slots w)) -> ps_closing slots' = ps_closing (w_slots w) ->
  (ps_closing (w_slots w) = true -> slots' = w_slots w) -> moves w (with_table w slots').
Proof. intros Hl Hc Hs. split; cbn; [done|done| |done|done|done]. intros Hcl i. by rewrite (Hs Hcl). Qed.
Lemma accept_one_moves {E} w address now configured slots' : accept_one (E:=E) (w_slots w) address now configured = Ok slots' ->
  moves w (with_table w slots').
Proof.
  unfold accept_one. destruct (negb _); [intros [= <-]; by apply moves_table|]. destruct (negb configured); [intros [= <-]; by apply moves_table|].
  intros H. apply bind_Ok in H as ([s o] & Hc & [= <-]). apply claim_moves in Hc as (? & ? & ?). by apply moves_table.
Qed.
Lemma dial_moves {E} w address now connected slots' : dial (E:=E) (w_slots w) address now connected = Ok slots' ->
  moves w (with_table w slots').
Proof.
  unfold dial. destruct (bool_decide _); [intros [= <-]; by apply moves_table|]. destruct (negb connected); [intros [= <-]; by apply moves_table|].
  intros H. apply bind_Ok in H as ([s o] & Hc & [= <-]). apply claim_moves in Hc as (? & ? & ?). by apply moves_table.
Qed.

Lemma listener_moves {E} w errors now poll incoming w' li : listener_pass (E:=E) w errors now poll incoming = Ok (w', li) ->
  moves w w' /\ (begun w = true -> li = None).
Proof.
  unfold listener_pass. destruct (begun w) eqn:Hb; [intros [= <- <-]; split; [apply moves_refl|done]|].
  destruct (pipe_wait (w_signals w) poll) as [sg woken]. assert (Hs : moves w (with_signals w sg)) by by apply moves_same.
  intros H. split; [|done]. destruct woken as [woken|]; [|injection H as <- <-; eapply moves_trans; [exact Hs|apply moves_begin]].
  destruct (wk_signalled woken); [injection H as <- <-; eapply moves_trans; [exact Hs|apply moves_begin]|].
  destruct (wk_socket_ready woken); [|by injection H as <- <-]. apply bind_Ok in H as ([w1 e1] & Ha & H).
  assert (Hm : moves w w1).
  { unfold accept in Ha. destruct incoming as [address configured| |]; [|by injection Ha as <- <-..].
    apply bind_Ok in Ha as (slots & Ha & [= <- <-]). eapply moves_trans; [exact Hs|]. eapply accept_one_moves, Ha. }
  destruct (_ <=? e1); injection H as <- <-; [eapply moves_trans; [exact Hm|apply moves_begin]|done].
Qed.

Lemma seed_moves w seeded now answers : moves w (seed w seeded now answers).1.
Proof. unfold seed. destruct (_ <=? _); [apply moves_refl|]. destruct seeded as [at_|]; [destruct (_ <? _); [apply moves_refl|]|]; by apply moves_same. Qed.

Lemma connector_moves {E} w co now anchors connected answers w' co' :
  connector_pass (E:=E) w co now anchors connected answers = Ok (w', co') ->
  moves w w' /\ (begun w = true -> match co with Loading => co' = Dialling None | _ => co' = ConnectorReturned end).
Proof.
  destruct co as [|seeded|]; cbn [connector_pass]; [intros [= <- <-]; split; [by apply moves_same|done]| |intros [= <- <-]; split; [apply moves_refl|done]].
  destruct (begun w) eqn:Hb; [intros [= <- <-]; split; [apply moves_refl|done]|]. intros H. split; [|done].
  destruct (PeerSlots.has_room _ _); [|injection H as <- <-; apply moves_refl].
  destruct (Candidates.next _ _) as [candidates next]. assert (Hc : moves w (with_candidates w candidates)) by by apply moves_same.
  destruct next as [address|].
  - apply bind_Ok in H as (slots & Hd & [= <- <-]). eapply moves_trans; [exact Hc|]. eapply dial_moves, Hd.
  - pose proof (seed_moves (with_candidates w candidates) seeded now answers) as Hs. destruct (seed _ _ _ _) as [w1 s1].
    injection H as <- <-. by eapply moves_trans.
Qed.

Lemma reader_moves w i st serves w' st' : reader_pass weight w (Z.of_nat i) st serves = Some (w', st') ->
  moves w w' /\
  (begun w = true -> match st with
   | RWaiting => (st' = RReturned /\ occ (w_slots w) i = 0%nat) \/ (st' = RServing /\ occ (w_slots w) i = 1%nat)
   | RServing => st' = RWaiting /\ occ (w_slots w') i = 0%nat
   | RReturned => False
   end) /\
  (st' = RReturned -> 0 <= Z.of_nat i < len (ps_slots (w_slots w)) -> ps_closing (w_slots w') = true /\ occ (w_slots w') i = 0%nat).
Proof.
  unfold reader_pass. destruct st; [| |done].
  - unfold PeerSlots.wait_for_connection, occ, PeerSlots.connection.
    destruct (get (ps_slots (w_slots w)) (Z.of_nat i)) as [[c|]|] eqn:Hg; cbn [mjoin option_join].
    + intros [= <- <-]. split; [apply moves_refl|]. split; [by right|done].
    + destruct (ps_closing (w_slots w)) eqn:Hc; [|done]. intros [= <- <-]. split; [apply moves_refl|]. split; [by left|].
      intros _ _. by rewrite Hg.
    + intros [= <- <-]. split; [apply moves_refl|]. split; [by left|]. intros _ Hr. exfalso. unfold get in Hg.
      rewrite (proj2 (Z.leb_le 0 (Z.of_nat i))) in Hg by lia. apply lookup_ge_None in Hg. unfold len in Hr. lia.
  - destruct (begun w || PeerSlots.is_closing (w_slots w)) eqn:Hb.
    { intros [= <- <-]. destruct (moves_end w i NodeStopping) as [Hm Ho]. split; [done|]. by split; [|done]. }
    apply orb_false_elim in Hb as [Hb _]. rewrite Hb. destruct serves as [f [message|]|reason].
    + set (w1 := with_table w _). assert (Hu : moves w w1) by apply moves_update.
      destruct (PeerToChain.send weight (w_to_chain w1) message true) as [queue [[u|e|]|]] eqn:Hs; [|intros [= <- <-]|done|done].
      * intros [= <- <-]. split; [|by split]. eapply moves_trans; [exact Hu|]. unfold PeerToChain.send in Hs.
        destruct (negb _); [done|]. destruct (_ && _); [done|]. destruct (pc_closed _) eqn:Hcl; [done|]. injection Hs as <- _.
        split; [done|done|intros; cbn; lia|done|done|]. intros Hx. change (begun w = true) in Hx. congruence.
      * split; [|by split]. eapply moves_trans; [exact Hu|]. apply moves_end.
    + intros [= <- <-]. split; [apply moves_update|by split].
    + intros [= <- <-]. split; [apply moves_end|by split].
Qed.

Lemma writer_moves w i st wrote w' st' : writer_pass w (Z.of_nat i) st wrote = Some (w', st') ->
  moves w w' /\
  (begun w = true -> w' = w /\ match st with
   | WWaiting => (st' = WReturned /\ occ (w_slots w) i = 0%nat) \/ (st' = WDraining /\ occ (w_slots w) i = 1%nat)
   | WDraining => st' = WVacating
   | WVacating => st' = WWaiting
   | WReturned => False
   end).
Proof.
  unfold writer_pass. destruct st; [| | |done].
  - unfold PeerSlots.wait_for_connection, occ, PeerSlots.connection.
    destruct (get (ps_slots (w_slots w)) (Z.of_nat i)) as [[c|]|]; cbn [mjoin option_join];
      [|destruct (ps_closing (w_slots w)); [|done]|]; intros [= <- <-]; (split; [apply moves_refl|auto]).
  - destruct (begun w) eqn:Hb; [intros [= <- <-]; split; [apply moves_refl|done]|]. intros H. split; [|done].
    destruct (PeerSlots.connection (w_slots w) (Z.of_nat i)) as [c|]; [|injection H as <- <-; apply moves_refl].
    destruct (Outbox.pop (cn_outbox c)) as [outbox [frame|]]; [|injection H as <- <-; apply moves_refl].
    destruct wrote; injection H as <- <-; [apply moves_update|].
    pose proof (moves_update w (Z.of_nat i) (fun c => Connection.with_outbox c outbox)) as H1. eapply moves_trans; [exact H1|].
    apply (moves_update (with_table w (PeerSlots.update (w_slots w) (Z.of_nat i) (fun c => Connection.with_outbox c outbox)))).
  - destruct (PeerSlots.wait_until_vacant _ _); [|done]. intros [= <- <-]. split; [apply moves_refl|done].
Qed.

Lemma chain_moves w updates fatal w' ch : chain_pass weight w updates fatal = (w', ch) ->
  moves w w' /\ (begun w = true -> ch = false).
Proof.
  unfold chain_pass. destruct (begun w) eqn:Hb; [intros [= <- <-]; split; [by apply moves_same|done]|]. intros H. split; [|done].
  destruct (PeerToChain.recv weight (w_to_chain w)) as [queue got] eqn:Hr.
  assert (Hq : moves w (with_to_chain w queue)).
  { split; cbn; [done|done|lia|done| |by rewrite Hb]. unfold PeerToChain.recv in Hr.
    by destruct (pc_items (w_to_chain w)); injection Hr as <- <-. }
  pose proof (moves_trans _ _ _ Hq (moves_updates updates _)) as Hu.
  destruct got; injection H as <- <-; [| |by apply moves_same]; (destruct fatal; [eapply moves_trans; [exact Hu|apply moves_begin]|exact Hu]).
Qed.

Lemma validation_moves w connected w' va : validation_pass w connected = (w', va) -> moves w w' /\ (begun w = true -> va = None).
Proof.
  unfold validation_pass. destruct (begun w); [intros [= <- <-]; split; [by apply moves_same|done]|]. intros H. split; [|done].
  destruct (ChainToValidation.pop (w_to_validation w)) as [queue [job| |]]; injection H as <- <-; by apply moves_same.
Qed.

(** ** The invariant of the process *)

Record sound p : Prop := mkSound {
  so_slots : len (ps_slots (w_slots (p_world p))) = 32;
  so_readers : length (p_readers p) = 32%nat;
  so_writers : length (p_writers p) = 32%nat;
  so_stopped : p_main p = false ->
    begun (p_world p) = true /\ ps_closing (w_slots (p_world p)) = true /\ pc_closed (w_to_chain (p_world p)) = true;
  so_closing : ps_closing (w_slots (p_world p)) = true -> p_main p = false;
  so_returned i : p_readers p !! i = Some RReturned ->
    ps_closing (w_slots (p_world p)) = true /\ occ (w_slots (p_world p)) i = 0%nat;
}.

(** A step that is not the main thread's moves the world, and at most one reader. *)
Lemma sound_moves p p' : sound p -> moves (p_world p) (p_world p') -> p_main p' = p_main p ->
  length (p_readers p') = length (p_readers p) -> length (p_writers p') = length (p_writers p) ->
  (forall i, p_readers p' !! i = Some RReturned -> p_readers p !! i = Some RReturned \/
     (ps_closing (w_slots (p_world p')) = true /\ occ (w_slots (p_world p')) i = 0%nat)) -> sound p'.
Proof.
  intros [S1 S2 S3 S4 S5 S6] [L C O B Q I] Hm Hr Hw Hret. split; [congruence|congruence|congruence| | |].
  - rewrite Hm, C, Q. intros Hs. destruct (S4 Hs) as (? & ? & ?). auto.
  - rewrite Hm, C. done.
  - intros i Hi. destruct (Hret i Hi) as [Hold|?]; [|done]. destruct (S6 i Hold) as [Hc Ho]. rewrite C. split; [done|].
    specialize (O Hc i). lia.
Qed.

Lemma step_sound p who p' : sound p -> step p who p' -> sound p'.
Proof.
  intros Hs H. destruct H as [w m li co rs ws ch va ct signum|w w' anchors li co rs ws ch va ct Hst|w w' m errors li co rs ws ch va ct now poll incoming Hl
    |w w' m li co co' rs ws ch va ct now anchors connected answers Hne Hc|w w' m li co rs ws ch va ct i st st' serves Hi Hr
    |w w' m li co rs ws ch va ct i st st' wrote Hi Hw|w w' m li co rs ws ch' va ct updates fatal Hc|w w' m li co rs ws ch connected va' ct Hv|w m li co rs ws ch va].
  - apply (sound_moves _ _ Hs); [by apply moves_same|done|done|done|by left].
  - destruct Hs as [S1 S2 S3 S4 S5 S6]. unfold stop_world in Hst. inv_ok. subst. split; cbn in *; [|done|done|done|done|].
    + unfold len. rewrite length_fmap. exact S1.
    + intros i Hi. destruct (S6 i Hi) as [Hc _]. discriminate (S5 Hc).
  - destruct (listener_moves _ _ _ _ _ _ _ Hl) as [Hm _]. by apply (sound_moves _ _ Hs); [..|left].
  - destruct (connector_moves _ _ _ _ _ _ _ _ Hc) as [Hm _]. by apply (sound_moves _ _ Hs); [..|left].
  - destruct (reader_moves _ _ _ _ _ _ Hr) as (Hm & _ & Hret). apply (sound_moves _ _ Hs); cbn; [done|done|by rewrite length_insert|done|].
    intros j Hj. destruct (decide (j = i)) as [->|Hne]; [|rewrite list_lookup_insert_ne in Hj by done; by left].
    right. pose proof (lookup_lt_Some _ _ _ Hi) as Hlt. rewrite list_lookup_insert_eq in Hj by done. injection Hj as ->.
    apply Hret; [done|]. destruct Hs as [S1 S2 _ _ _ _]. cbn in S1, S2. lia.
  - destruct (writer_moves _ _ _ _ _ _ Hw) as [Hm _]. apply (sound_moves _ _ Hs); cbn; [done|done|done|by rewrite length_insert|by left].
  - destruct (chain_moves _ _ _ _ _ Hc) as [Hm _]. by apply (sound_moves _ _ Hs); [..|left].
  - destruct (validation_moves _ _ _ _ Hv) as [Hm _]. by apply (sound_moves _ _ Hs); [..|left].
  - apply (sound_moves _ _ Hs); [apply moves_refl|done|done|done|by left].
Qed.

Lemma run_sound p l p' : run p l p' -> sound p -> sound p'.
Proof. induction 1 as [|p who p1 l p2 _ Hstep _ IH]; [done|]. intros Hs. apply IH. by eapply step_sound. Qed.

Lemma started_sound p : started p -> sound p.
Proof.
  intros (Hw & Hq & Hm & Hr & Hwr). split; rewrite ?Hm, ?Hr, ?Hwr; [by rewrite Hw|done|done|done|by rewrite Hw|].
  intros i Hi. apply list_elem_of_lookup_2, list_elem_of_In, repeat_spec in Hi. done.
Qed.

(** ** Every step of a node that is stopping brings it closer to the end *)

Lemma reader_rank_moves w w' rs j : moves w w' -> ps_closing (w_slots w) = true ->
  (reader_rank (w_slots w') rs j <= reader_rank (w_slots w) rs j)%nat.
Proof. intros [_ _ O _ _ _] Hc. specialize (O Hc j). unfold reader_rank. destruct (rs !! j) as [[]|]; lia. Qed.
Lemma writer_rank_moves w w' ws j : moves w w' -> ps_closing (w_slots w) = true ->
  (writer_rank (w_slots w') ws j <= writer_rank (w_slots w) ws j)%nat.
Proof. intros [_ _ O _ _ _] Hc. specialize (O Hc j). unfold writer_rank. destruct (ws !! j) as [[]|]; lia. Qed.

Lemma reader_step_rank w w' rs i st st' serves : begun w = true -> ps_closing (w_slots w) = true -> (length rs = 32)%nat ->
  rs !! i = Some st -> reader_pass weight w (Z.of_nat i) st serves = Some (w', st') ->
  (total (reader_rank (w_slots w') (<[i := st']> rs)) < total (reader_rank (w_slots w) rs))%nat.
Proof.
  intros Hb Hc Hlen Hi Hr. destruct (reader_moves _ _ _ _ _ _ Hr) as (Hm & Hst & _). specialize (Hst Hb).
  pose proof (lookup_lt_Some _ _ _ Hi) as Hlt. pose proof (mv_occ _ _ Hm Hc i) as Ho.
  assert (Hat : (reader_rank (w_slots w') (<[i := st']> rs) i < reader_rank (w_slots w) rs i)%nat).
  { unfold reader_rank. rewrite Hi, list_lookup_insert_eq by done. destruct st; [|destruct Hst as [-> ->]; lia|done].
    destruct Hst as [[-> _]|[-> ->]]; lia. }
  apply (total_lt _ _ i); [|done|lia]. intros j. destruct (decide (j = i)) as [->|Hne]; [lia|].
  pose proof (reader_rank_moves _ _ rs j Hm Hc). unfold reader_rank in *. by rewrite list_lookup_insert_ne by done.
Qed.

Lemma closer (m : bool) w w' (a b c d : nat) (P : Prop) : moves w w' -> m = false -> (a < b)%nat -> (c <= d)%nat ->
  m = false /\ moves w w' /\ (a <= b)%nat /\ (P -> (a < b)%nat /\ (c <= d)%nat).
Proof. intros Hm -> Hab Hcd. split; [done|]. split; [done|]. split; [lia|]. done. Qed.

Lemma step_rank p who p' : sound p -> p_main p = false -> step p who p' ->
  p_main p' = false /\ moves (p_world p) (p_world p') /\ (rank p' <= rank p)%nat /\
  (worker who = true -> (rank p' < rank p)%nat /\ (writers_rank p' <= writers_rank p)%nat).
Proof.
  intros Hs Hm H. destruct (so_stopped _ Hs Hm) as (Hb & Hc & _). pose proof (so_readers _ Hs) as Hlen.
  assert (Hle : forall w', moves (p_world p) w' ->
    (total (reader_rank (w_slots w') (p_readers p)) <= total (reader_rank (w_slots (p_world p)) (p_readers p)))%nat /\
    (total (writer_rank (w_slots w') (p_writers p)) <= total (writer_rank (w_slots (p_world p)) (p_writers p)))%nat).
  { intros w' Hmv. split; apply total_le; intros j; [by apply reader_rank_moves|by apply writer_rank_moves]. }
  destruct H as [w m li co rs ws ch va ct signum|w w' anchors li co rs ws ch va ct Hst|w w' m errors li co rs ws ch va ct now poll incoming Hl
    |w w' m li co co' rs ws ch va ct now anchors connected answers Hne Hco|w w' m li co rs ws ch va ct i st st' serves Hi Hr
    |w w' m li co rs ws ch va ct i st st' wrote Hi Hw|w w' m li co rs ws ch' va ct updates fatal Hch|w w' m li co rs ws ch connected va' ct Hv|w m li co rs ws ch va];
    cbn [p_main p_world p_readers p_writers] in Hm, Hb, Hc, Hlen, Hle; unfold rank, writers_rank; cbn [p_main p_world p_listener p_connector p_readers p_writers p_chain p_validation p_control].
  - split; [done|]. split; [by apply moves_same|]. split; [cbn; lia|done].
  - done.
  - destruct (listener_moves _ _ _ _ _ _ _ Hl) as [Hmv Hli]. rewrite (Hli Hb). destruct (Hle _ Hmv). apply closer; [done|done|cbn iota; lia|lia].
  - destruct (connector_moves _ _ _ _ _ _ _ _ Hco) as [Hmv Hst]. specialize (Hst Hb). destruct (Hle _ Hmv).
    assert (Hdec : (match co' with Loading => 2 | Dialling _ => 1 | ConnectorReturned => 0 end
      < match co with Loading => 2 | Dialling _ => 1 | ConnectorReturned => 0 end)%nat) by (destruct co; [subst; lia|subst; lia|done]).
    apply closer; [done|done|cbn iota; lia|lia].
  - pose proof (reader_step_rank _ _ _ _ _ _ _ Hb Hc Hlen Hi Hr) as Hlt. destruct (reader_moves _ _ _ _ _ _ Hr) as [Hmv _].
    destruct (Hle _ Hmv). apply closer; [done|done|cbn iota; lia|lia].
  - destruct (writer_moves _ _ _ _ _ _ Hw) as [Hmv Hst]. destruct (Hst Hb) as [-> _]. split; [done|]. split; [done|]. split; [lia|done].
  - destruct (chain_moves _ _ _ _ _ Hch) as [Hmv Hf]. rewrite (Hf Hb). destruct (Hle _ Hmv). apply closer; [done|done|cbn iota; lia|lia].
  - destruct (validation_moves _ _ _ _ Hv) as [Hmv Hf]. rewrite (Hf Hb). destruct (Hle _ Hmv). apply closer; [done|done|cbn iota; lia|lia].
  - unfold control_pass. rewrite Hb. split; [done|]. split; [apply moves_refl|]. cbn [negb]. split; [lia|]. intros _. split; lia.
Qed.

(** ** Somebody can always go on *)

Lemma reader_can_step w i st : begun w = true -> ps_closing (w_slots w) = true -> st <> RReturned ->
  exists w' st', reader_pass weight w (Z.of_nat i) st (Ends NodeStopping) = Some (w', st') /\ w_signals w' = w_signals w.
Proof.
  intros Hb Hc Hne. unfold reader_pass. destruct st; [| |done].
  - unfold PeerSlots.wait_for_connection. rewrite Hc. destruct (get _ _) as [[c|]|]; eauto.
  - rewrite Hb. cbn [orb]. eexists _, _. split; [done|done].
Qed.

Lemma writer_step_rank w w' ws i st st' wrote : begun w = true -> (length ws = 32)%nat -> occ (w_slots w) i = 0%nat ->
  ws !! i = Some st -> writer_pass w (Z.of_nat i) st wrote = Some (w', st') ->
  w' = w /\ (total (writer_rank (w_slots w) (<[i := st']> ws)) < total (writer_rank (w_slots w) ws))%nat.
Proof.
  intros Hb Hlen Ho Hi Hw. destruct (writer_moves _ _ _ _ _ _ Hw) as [_ Hst]. destruct (Hst Hb) as [-> Hs]. split; [done|].
  pose proof (lookup_lt_Some _ _ _ Hi) as Hlt. apply (total_lt _ _ i); [|unfold writer_rank; rewrite Hi, list_lookup_insert_eq, Ho by done|lia].
  - intros j. destruct (decide (j = i)) as [->|Hne]; [|unfold writer_rank; by rewrite list_lookup_insert_ne].
    unfold writer_rank. rewrite Hi, list_lookup_insert_eq, Ho by done. destruct st; [destruct Hs as [[-> _]|[-> ?]]|subst..|done]; lia.
  - destruct st; [destruct Hs as [[-> _]|[-> ?]]|subst..|done]; lia.
Qed.
Lemma writer_can_step w i st wrote : begun w = true -> ps_closing (w_slots w) = true -> st <> WReturned ->
  exists w' st', writer_pass w (Z.of_nat i) st wrote = Some (w', st').
Proof.
  intros Hb Hc Hne. unfold writer_pass. destruct st; [| | |done].
  - unfold PeerSlots.wait_for_connection. rewrite Hc. destruct (get _ _) as [[c|]|]; eauto.
  - rewrite Hb. eauto.
  - unfold PeerSlots.wait_until_vacant. rewrite Hc. destruct (get _ _) as [[c|]|]; eauto.
Qed.

Lemma total_pos f : total f <> 0%nat -> exists i, (i < 32)%nat /\ f i <> 0%nat.
Proof.
  unfold total. intros H. assert (Hex : exists i, i ∈ seq 0 32 /\ f i <> 0%nat).
  { induction (seq 0 32) as [|x l IH]; cbn in H; [done|]. destruct (decide (f x = 0%nat)) as [Hx|Hx].
    - destruct IH as (i & Hi & Hf); [lia|]. exists i. split; [by right|done].
    - exists x. split; [by left|done]. }
  destruct Hex as (i & Hi & Hf). exists i. split; [|done]. apply elem_of_seq in Hi. lia.
Qed.
Lemma total_bound f k : (forall i, (f i <= k)%nat) -> (total f <= 32 * k)%nat.
Proof.
  intros H. pose proof (total_le f (fun _ => k) H) as Hle. assert (Hk : total (fun _ => k) = (32 * k)%nat) by (unfold total; cbn; lia). lia.
Qed.
Lemma occ_bound slots i : (occ slots i <= 1)%nat.
Proof. unfold occ. destruct (PeerSlots.connection slots (Z.of_nat i)); lia. Qed.
Lemma rank_bound p : (rank p <= 102)%nat /\ (writers_rank p <= 128)%nat.
Proof.
  pose proof (total_bound (reader_rank (w_slots (p_world p)) (p_readers p)) 3) as Hr.
  pose proof (total_bound (writer_rank (w_slots (p_world p)) (p_writers p)) 4) as Hw. unfold rank, writers_rank. split.
  - assert (total (reader_rank (w_slots (p_world p)) (p_readers p)) <= 32 * 3)%nat.
    { apply Hr. intros i. pose proof (occ_bound (w_slots (p_world p)) i). unfold reader_rank. destruct (p_readers p !! i) as [[]|]; lia. }
    destruct (p_listener p), (p_connector p), (p_chain p), (p_validation p), (p_control p); lia.
  - apply Hw. intros i. pose proof (occ_bound (w_slots (p_world p)) i). unfold writer_rank. destruct (p_writers p !! i) as [[]|]; lia.
Qed.

Definition goes_on p : Prop := exists who p', step p who p' /\ alive p' = true /\
  (rank p' + writers_rank p' < rank p + writers_rank p)%nat.

Lemma worker_goes_on p who p' : sound p -> p_main p = false -> alive p = true -> step p who p' -> worker who = true ->
  w_signals (p_world p') = w_signals (p_world p) -> goes_on p.
Proof.
  intros Hs Hm Ha Hst Hw Hsig. destruct (step_rank _ _ _ Hs Hm Hst) as (_ & _ & _ & Hlt). destruct (Hlt Hw).
  exists who, p'. split; [done|]. split; [unfold alive in *; by rewrite Hsig|lia].
Qed.

(** The threads that are not peer threads, and the readers. *)
Lemma workers_go_on p : sound p -> p_main p = false -> alive p = true -> rank p <> 0%nat -> goes_on p.
Proof.
  intros Hs Hm Ha Hr. destruct (so_stopped _ Hs Hm) as (Hb & Hc & _). pose proof (so_readers _ Hs) as Hlen.
  destruct p as [w m [errors|] co rs ws ch va ct]; cbn [p_main p_world p_readers] in *.
  { refine (worker_goes_on _ Listener (mkProcess w m None co rs ws ch va ct) Hs Hm Ha _ eq_refl eq_refl).
    apply (step_listener w w m errors None co rs ws ch va ct 0 PollError WouldBlock). unfold listener_pass. by rewrite Hb. }
  destruct co as [|seeded|].
  { refine (worker_goes_on _ Connector (mkProcess (with_candidates w (Candidates.load_anchors (w_candidates w) []).1) m None (Dialling None)
      rs ws ch va ct) Hs Hm Ha _ eq_refl eq_refl).
    by apply (step_connector w _ m None Loading _ rs ws ch va ct 0 [] false []). }
  { refine (worker_goes_on _ Connector (mkProcess w m None ConnectorReturned rs ws ch va ct) Hs Hm Ha _ eq_refl eq_refl).
    apply (step_connector w _ m None (Dialling seeded) _ rs ws ch va ct 0 [] false []); [done|]. cbn [connector_pass]. by rewrite Hb. }
  destruct ch.
  { refine (worker_goes_on _ ChainLoop (mkProcess (with_to_validation w (ChainToValidation.close (w_to_validation w))) m None ConnectorReturned
      rs ws false va ct) Hs Hm Ha _ eq_refl eq_refl).
    apply (step_chain w _ m None ConnectorReturned rs ws false va ct [] false). unfold chain_pass. by rewrite Hb. }
  destruct va as [connected|].
  { refine (worker_goes_on _ Validation (mkProcess (with_to_validation w (ChainToValidation.discard (w_to_validation w)).1) m None ConnectorReturned
      rs ws false None ct) Hs Hm Ha _ eq_refl eq_refl).
    apply step_validation. unfold validation_pass. by rewrite Hb. }
  destruct ct; [exact (worker_goes_on _ Control _ Hs Hm Ha (step_control w m None ConnectorReturned rs ws false None) eq_refl eq_refl)|].
  unfold rank in Hr. cbn [p_listener p_connector p_world p_readers p_chain p_validation p_control] in Hr.
  destruct (total_pos (reader_rank (w_slots w) rs)) as (i & Hi & Hf); [lia|]. unfold reader_rank in Hf.
  destruct (rs !! i) as [st|] eqn:Hst; [|done]. destruct (reader_can_step w i st Hb Hc) as (w' & st' & Hp & Hsig); [by intros ->|].
  exact (worker_goes_on _ (Reader i) _ Hs Hm Ha (step_reader _ _ _ _ _ _ _ _ _ _ _ _ _ _ Hst Hp) eq_refl Hsig).
Qed.

Lemma idle_readers p : sound p -> rank p = 0%nat -> forall i, (i < 32)%nat ->
  p_readers p !! i = Some RReturned /\ occ (w_slots (p_world p)) i = 0%nat.
Proof.
  intros Hs Hr i Hi. unfold rank in Hr. pose proof (total_zero (reader_rank (w_slots (p_world p)) (p_readers p)) ltac:(lia) i Hi) as Hz.
  unfold reader_rank in Hz. destruct (p_readers p !! i) as [st|] eqn:Hst.
  - destruct st; [lia|lia|]. split; [done|]. by apply (so_returned _ Hs).
  - apply lookup_ge_None in Hst. rewrite (so_readers _ Hs) in Hst. lia.
Qed.

Lemma writers_go_on p : sound p -> p_main p = false -> alive p = true -> rank p = 0%nat -> writers_rank p <> 0%nat -> goes_on p.
Proof.
  intros Hs Hm Ha Hr Hw. destruct (so_stopped _ Hs Hm) as (Hb & Hc & _). destruct (total_pos _ Hw) as (i & Hi & Hf).
  destruct (idle_readers p Hs Hr i Hi) as [_ Ho]. pose proof (so_writers _ Hs) as Hlen. unfold writer_rank in Hf.
  destruct (p_writers p !! i) as [st|] eqn:Hst; [|done].
  destruct (writer_can_step (p_world p) i st true Hb Hc) as (w' & st' & Hp); [by intros ->|].
  destruct (writer_step_rank _ _ _ _ _ _ _ Hb Hlen Ho Hst Hp) as [-> Hlt].
  destruct p as [w m li co rs ws ch va ct]; cbn [p_world p_writers] in *.
  eexists (Writer i), _. split; [eapply step_writer; [exact Hst|exact Hp]|]. split; [exact Ha|]. unfold rank, writers_rank in *. cbn in *. lia.
Qed.

Lemma map_all {A} (f : A -> bool) (l : list A) (n : nat) : length l = n -> (forall i x, l !! i = Some x -> f x = true) -> map f l = repeat true n.
Proof.
  revert n; induction l as [|x l IH]; intros n <- H; [done|]. cbn. f_equal; [apply (H 0%nat); done|].
  apply IH; [done|]. intros i y Hy. apply (H (S i) y Hy).
Qed.
Lemma idle_returned p : sound p -> rank p = 0%nat -> writers_rank p = 0%nat -> returned p = repeat true 69.
Proof.
  intros Hs Hr Hw. pose proof (idle_readers p Hs Hr) as Hre. unfold returned.
  rewrite (map_all _ (p_readers p) 32); [|apply (so_readers _ Hs)|].
  2: { intros i st Hst. pose proof (lookup_lt_Some _ _ _ Hst) as Hlt. rewrite (so_readers _ Hs) in Hlt. destruct (Hre i Hlt) as [Hx _].
       rewrite Hst in Hx. by injection Hx as ->. }
  rewrite (map_all _ (p_writers p) 32); [|apply (so_writers _ Hs)|].
  2: { intros i st Hst. pose proof (lookup_lt_Some _ _ _ Hst) as Hlt. rewrite (so_writers _ Hs) in Hlt.
       pose proof (total_zero _ Hw i Hlt) as Hz. unfold writer_rank in Hz. rewrite Hst in Hz. destruct st; [lia|lia|lia|done]. }
  unfold rank in Hr. destruct (p_listener p), (p_connector p), (p_chain p), (p_validation p), (p_control p); try lia. done.
Qed.

Lemma run_bounded p l p' : run p l p' -> sound p -> p_main p = false ->
  (length (filter (fun who => worker who = true) l) + rank p' <= rank p)%nat /\
  pc_items (w_to_chain (p_world p')) = pc_items (w_to_chain (p_world p)).
Proof.
  induction 1 as [|p who p1 l p2 _ Hst _ IH]; intros Hs Hm; [cbn; split; [lia|done]|].
  destruct (step_rank _ _ _ Hs Hm Hst) as (Hm1 & Hmv & Hle & Hlt). destruct (IH (step_sound _ _ _ Hs Hst) Hm1) as [IHl IHq].
  destruct (so_stopped _ Hs Hm) as (Hb & _). rewrite IHq, (mv_items _ _ Hmv Hb). split; [|done].
  rewrite filter_cons. destruct (decide (worker who = true)) as [Hw|]; [destruct (Hlt Hw); cbn; lia|lia].
Qed.

Lemma run_to_end n : forall p, sound p -> p_main p = false -> alive p = true -> (rank p + writers_rank p <= n)%nat ->
  exists l p', run p l p' /\ returned p' = repeat true 69 /\ (length l <= n)%nat.
Proof.
  induction n as [|n IH]; intros p Hs Hm Ha Hn.
  { exists [], p. split; [constructor|]. split; [apply idle_returned; [done|lia|lia]|done]. }
  destruct (decide (rank p = 0%nat /\ writers_rank p = 0%nat)) as [[Hr Hw]|Hne].
  { exists [], p. split; [constructor|]. split; [by apply idle_returned|cbn; lia]. }
  assert (Hgo : goes_on p).
  { destruct (decide (rank p = 0%nat)) as [Hr|Hr]; [|by apply workers_go_on]. apply writers_go_on; try done. naive_solver. }
  destruct Hgo as (who & p1 & Hst & Ha1 & Hlt). destruct (step_rank _ _ _ Hs Hm Hst) as (Hm1 & _).
  destruct (IH p1 (step_sound _ _ _ Hs Hst) Hm1 Ha1 ltac:(lia)) as (l & p' & Hrun & Hret & Hl).
  exists (who :: l), p'. split; [by econstructor|]. split; [done|cbn; lia].
Qed.


(** The bound leaves the writers out because it has to: while its connection is still in its slot,
    a writer of a node that is stopping goes round its loop without waiting, since a closing table
    is what [wait_until_vacant] does not wait for. *)
Lemma writer_spins p i : sound p -> p_main p = false -> alive p = true -> p_writers p !! i = Some WWaiting ->
  occ (w_slots (p_world p)) i = 1%nat -> run p [Writer i; Writer i; Writer i] p.
Proof.
  intros Hs Hm Ha Hi Ho. destruct (so_stopped _ Hs Hm) as (Hb & Hc & _). destruct p as [w m li co rs ws ch va ct]. cbn in *.
  pose proof (lookup_lt_Some _ _ _ Hi) as Hlt.
  assert (Hg : exists c, get (ps_slots (w_slots w)) (Z.of_nat i) = Some (Some c)).
  { unfold occ, PeerSlots.connection in Ho. destruct (get (ps_slots (w_slots w)) (Z.of_nat i)) as [[c|]|]; [eauto|done|done]. }
  destruct Hg as [c Hg].
  eapply run_step; [exact Ha|apply (step_writer w w _ _ _ _ ws _ _ _ i WWaiting WDraining true Hi)|].
  { cbn. unfold PeerSlots.wait_for_connection. by rewrite Hg. }
  eapply run_step; [exact Ha|apply (step_writer w w _ _ _ _ _ _ _ _ i WDraining WVacating true); [by apply list_lookup_insert_eq|cbn; by rewrite Hb]|].
  eapply run_step; [exact Ha|apply (step_writer w w _ _ _ _ _ _ _ _ i WVacating WWaiting true); [apply list_lookup_insert_eq; by rewrite length_insert|]|].
  { cbn. unfold PeerSlots.wait_until_vacant. by rewrite Hg, Hc. }
  rewrite !list_insert_insert_eq, list_insert_id by done. constructor.
Qed.
End lifecycle.

(** ** A concrete shutdown: a signal, the listener that sees it, and the main thread *)

Definition weigh (_ : unit) : Z := 1.
Definition launched : Process (T:=unit) :=
  mkProcess (mkWorld (no_signals 7) None PeerSlots.new Candidates.new (mkPeerToChain [tt] 1 false 10 10)
      (mkChainToValidation [] false 64) empty_utxoset)
    true (Some 0) Loading (repeat RWaiting 32) (repeat WWaiting 32) true (Some 0) true.
Definition signalled_process : Process (T:=unit) :=
  mkProcess (with_signals (p_world launched) (handle_signal (no_signals 7) 15))
    true (Some 0) Loading (repeat RWaiting 32) (repeat WWaiting 32) true (Some 0) true.
Definition announced : World (T:=unit) :=
  begin (with_signals (p_world launched) (mkSignals 15 7 0 None)) (Signal 15).
Definition announced_process : Process (T:=unit) :=
  mkProcess announced true None Loading (repeat RWaiting 32) (repeat WWaiting 32) true (Some 0) true.
Definition stopping : Process (T:=unit) :=
  mkProcess (with_to_chain (with_table announced (PeerSlots.shutdown_all (w_slots announced)).1)
      (PeerToChain.close (w_to_chain announced)))
    false None Loading (repeat RWaiting 32) (repeat WWaiting 32) true (Some 0) true.

Lemma launched_stops : run weigh launched [Kernel; Listener; Main] stopping.
Proof.
  apply (run_step _ _ _ signalled_process); [reflexivity|apply step_signal|].
  apply (run_step _ _ _ announced_process); [reflexivity| |].
  - apply (step_listener weigh _ announced true 0 None _ _ _ _ _ _ 0 (PollReady true false) WouldBlock). reflexivity.
  - eapply run_step; [reflexivity|eapply (step_main weigh announced _ []); reflexivity|constructor].
Qed.

