(* ===== verification/Fuzz.v ===== *)
(** * Fuzz: the differential fuzzer ([crates/differential])

    [differential/src/prng.rs], [generate.rs], [case.rs], [templates.rs], [oracle.rs], [fuzz.rs]
    and the arguments of [main.rs]: a generator of spends, each a function of one word, which are
    put to [verify_input] and to Bitcoin Core's own library, and the report of a run.

    A generator is a function of the state of the [Prng], written in a state monad over
    outcomes.  The signing half of [secp256k1] and [rust-bitcoin] and Core's library are fields of
    two classes. *)
From Stdlib Require Import String Ascii.
From S2P Require Import Prelude Bitcoin Flags Params Sighash SighashProofs Checker Verify VerifyProofs VerifySafety.

(** ** Generators

    [Err k] stands for the one panic that is a matter of luck: [Key::random] has drawn thirty-two
    bytes [k] that are not a secret key. *)
Definition Gen (A : Type) : Type := Z -> outcome bytes (A * Z).

#[global] Instance gen_ret : MRet Gen := fun A a state => Ok (a, state).
#[global] Instance gen_bind : MBind Gen := fun A B f m state => '(a, state) ← m state; f a state.

Definition pure {A} (m : outcome bytes A) : Gen A := fun state => a ← m; Ok (a, state).
Definition ensure (b : bool) : Gen unit := pure (assert_ b).

(** [(0..n).map(|_| ..).collect()]. *)
Fixpoint repeatG {A} (n : nat) (m : Gen A) : Gen (list A) :=
  match n with
  | O => mret []
  | S n => a ← m; l ← repeatG n m; mret (a :: l)
  end.

(** [for _ in 0..n { .. }] over an accumulator. *)
Fixpoint iterG {A} (n : nat) (f : A -> Gen A) (a : A) : Gen A :=
  match n with O => mret a | S n => a ← f a; iterG n f a end.

(** [for x in xs { .. }] over an accumulator. *)
Fixpoint foldG {A B} (f : A -> B -> Gen A) (a : A) (xs : list B) : Gen A :=
  match xs with [] => mret a | x :: xs => a ← f a x; foldG f a xs end.

Module Prng.
Definition new (seed : Z) : Z := seed.

Definition next_u64 : Gen Z := fun state =>
  let state := (state + 0x9E3779B97F4A7C15) mod 2 ^ 64 in
  let z := state in
  let z := (Z.lxor z (Z.shiftr z 30) * 0xBF58476D1CE4E5B9) mod 2 ^ 64 in
  let z := (Z.lxor z (Z.shiftr z 27) * 0x94D049BB133111EB) mod 2 ^ 64 in
  Ok (Z.lxor z (Z.shiftr z 31), state).

Definition next_u32 : Gen Z := word ← next_u64; pure (expect (try_from u32_max (Z.shiftr word 32))).

Definition next_u8 : Gen byte :=
  word ← next_u64; value ← pure (expect (try_from 255 (Z.shiftr word 56))); mret (zb value).

Definition below (bound : Z) : Gen Z :=
  ensure (0 <? bound);;
  word ← next_u64;
  let value := word mod bound in
  ensure (value <? bound);;
  mret value.

(** A [usize] has sixty-four bits. *)
Definition below_usize (bound : Z) : Gen Z := below bound.

Definition chance (numerator denominator : Z) : Gen bool :=
  ensure (numerator <=? denominator);;
  value ← below denominator;
  mret (value <? numerator).

Definition pick {A} (items : list A) : Gen A :=
  ensure (negb (len items =? 0));;
  index ← below_usize (len items);
  pure (expect (get items index)).

(** [bytes]; a [Vec] of [n] bytes. *)
Definition draw_bytes (n : Z) : Gen bytes :=
  drawn ← repeatG (Z.to_nat n) next_u8;
  ensure (len drawn =? n);;
  mret drawn.

Definition bytes_32 : Gen bytes := draw_bytes 32.
End Prng.

(** ** Cases ([case.rs]) *)

Definition SCRIPT_LEN_MAX : Z := 12000.
Definition WITNESS_ITEMS_MAX : Z := 64.
Definition MAX_MONEY : Z := 21000000 * 100000000.

Record Case := mkCase {
  case_flags : ScriptFlags.ScriptFlags;
  case_script_pubkey : bytes;
  case_amount : Z;
  case_script_sig : bytes;
  case_witness : list bytes;
}.

(** ** Unstructured cases ([generate.rs]) *)

Section generate.
Context `{Hashes}.

Definition OPS_MAX : Z := 48.
Definition PUSH_LEN_MAX : Z := 600.

Definition FLAGS : list ScriptFlags.ScriptFlags :=
  [ScriptFlags.P2SH; ScriptFlags.DERSIG; ScriptFlags.NULLDUMMY; ScriptFlags.CHECKLOCKTIMEVERIFY;
   ScriptFlags.CHECKSEQUENCEVERIFY; ScriptFlags.WITNESS; ScriptFlags.TAPROOT].

Definition FLOW_OPCODES : list Z := [0x63; 0x64; 0x67; 0x68; 0x69; 0x63; 0x64; 0x68].
Definition HASH_OPCODES : list Z := [0xa6; 0xa7; 0xa8; 0xa9; 0xaa].
Definition SIGNATURE_OPCODES : list Z := [0xac; 0xad; 0xae; 0xaf; 0xab; 0xba; 0xb1; 0xb2].
Definition PLAIN_OPCODES : list Z :=
  [0x61; 0x6b; 0x6c; 0x6d; 0x6e; 0x6f; 0x70; 0x71; 0x72; 0x73; 0x74; 0x75; 0x76; 0x77; 0x78; 0x79;
   0x7a; 0x7b; 0x7c; 0x7d; 0x82; 0x87; 0x88; 0x8b; 0x8c; 0x8f; 0x90; 0x91; 0x92; 0x93; 0x94; 0x9a;
   0x9b; 0x9c; 0x9d; 0x9e; 0x9f; 0xa0; 0xa1; 0xa2; 0xa3; 0xa4; 0xa5; 0xb0; 0xb3; 0xb4; 0xb5; 0xb6;
   0xb7; 0xb8; 0xb9; 0x87; 0x88; 0x76; 0x75].

Definition honour_implications {E} (flags : ScriptFlags.ScriptFlags) : outcome E ScriptFlags.ScriptFlags :=
  let trimmed := flags in
  let trimmed := if negb (ScriptFlags.contains trimmed ScriptFlags.P2SH)
                 then ScriptFlags.difference trimmed ScriptFlags.WITNESS else trimmed in
  let trimmed := if negb (ScriptFlags.contains trimmed ScriptFlags.WITNESS)
                 then ScriptFlags.difference trimmed ScriptFlags.TAPROOT else trimmed in
  assert_ (ScriptFlags.is_subset_of trimmed flags);;
  Ok trimmed.

Definition random_flags : Gen ScriptFlags.ScriptFlags :=
  all ← Prng.chance 1 4;
  if (all : bool) then mret ScriptFlags.MANDATORY
  else
    flags ← foldG (fun flags flag =>
      take ← Prng.chance 1 2; mret (if (take : bool) then ScriptFlags.union flags flag else flags))
      ScriptFlags.NONE FLAGS;
    pure (honour_implications flags).

Definition push_data {E} (script data : bytes) : outcome E bytes :=
  assert_ (len data <=? 65535);;
  let n := len data in
  if n =? 0 then Ok (script ++ [x00] ++ data)
  else if n <=? 75 then Ok (script ++ [zb n] ++ data)
  else if n <=? 255 then Ok (script ++ [x4c; zb n] ++ data)
  else Ok (script ++ [x4d] ++ le_bytes 2 n ++ data).

Definition random_op (pool : list bytes) (script : bytes) : Gen bytes :=
  class ← Prng.below 32;
  if class <=? 6 then
    n ← Prng.below_usize 76;
    data ← Prng.draw_bytes n;
    pure (push_data script data)
  else if class =? 7 then
    edge ← Prng.chance 1 4;
    n ← if (edge : bool) then Prng.pick [519; 520; 521; PUSH_LEN_MAX] else Prng.below_usize (PUSH_LEN_MAX + 1);
    data ← Prng.draw_bytes n;
    pure (push_data script data)
  else if class <=? 9 then
    if len pool =? 0 then mret (script ++ [x51])
    else item ← Prng.pick pool; pure (push_data script item)
  else if class <=? 12 then op ← Prng.pick [0x00; 0x4f; 0x51; 0x52; 0x53; 0x60]; mret (script ++ [zb op])
  else if class <=? 16 then op ← Prng.pick FLOW_OPCODES; mret (script ++ [zb op])
  else if class <=? 19 then op ← Prng.pick HASH_OPCODES; mret (script ++ [zb op])
  else if class <=? 23 then op ← Prng.pick SIGNATURE_OPCODES; mret (script ++ [zb op])
  else if class <=? 28 then op ← Prng.pick PLAIN_OPCODES; mret (script ++ [zb op])
  else op ← Prng.next_u8; mret (script ++ [op]).

Definition random_script (ops_max : Z) (pool : list bytes) : Gen bytes :=
  ensure (ops_max <=? OPS_MAX);;
  op_count ← Prng.below_usize (ops_max + 1);
  iterG (Z.to_nat op_count) (random_op pool) [].

(** The length and the header of the operation at [position]; [None] ends the walk. *)
Definition push_header (script : bytes) (position : Z) (opcode : byte) : option (Z * Z) :=
  let byte_at i := match get script i with Some b => bz b | None => 0 end in
  let op := bz opcode in
  if (0x01 <=? op) && (op <=? 0x4b) then Some (op, 1)
  else if op =? 0x4c then Some (byte_at (position + 1), 2)
  else if op =? 0x4d then Some (byte_at (position + 1) + 256 * byte_at (position + 2), 3)
  else if op =? 0x4e then None
  else Some (0, 1).

Fixpoint pushed_loop {E} (room : nat) (script : bytes) (items : list bytes) (position : Z) : outcome E (list bytes * Z) :=
  match room with
  | O => Ok (items, position)
  | S room =>
      match get script position with
      | None => Ok (items, position)
      | Some opcode =>
          match push_header script position opcode with
          | None => Ok (items, position)
          | Some (n, header) =>
              let start := position + header in
              let end_ := start + n in
              if len script <? end_ then Ok (items, position)
              else if 0 <? n then
                item ← expect (slice script start end_);
                pushed_loop room script (items ++ [item]) end_
              else pushed_loop room script items end_
          end
      end
  end.

Definition pushed_items {E} (script : bytes) : outcome E (list bytes) :=
  '(items, position) ← pushed_loop (length script) script [] 0;
  assert_ (position <=? len script);;
  Ok items.

Definition random_item (pool : list bytes) : Gen bytes :=
  class ← Prng.below 8;
  if class <=? 2 then n ← Prng.below_usize 81; Prng.draw_bytes n
  else if class =? 3 then n ← Prng.pick [0; 1; 32; 33; 64; 65; 520; 521]; Prng.draw_bytes n
  else if class =? 4 then b ← Prng.pick [0x00; 0x01; 0x50; 0x51; 0x80; 0xc0; 0xc1]; mret [zb b]
  else if negb (len pool =? 0) then Prng.pick pool
  else n ← Prng.below_usize 20; Prng.draw_bytes n.

Definition random_witness (pool : list bytes) : Gen (list bytes) :=
  item_count ← Prng.below_usize 9;
  witness ← repeatG (Z.to_nat item_count) (random_item pool);
  ensure (len witness <=? WITNESS_ITEMS_MAX);;
  mret witness.

Inductive Shape := SBare | SP2sh | SP2wsh | SWitnessProgram.

Definition p2sh {E} (redeem : bytes) : outcome E bytes :=
  let script := [xa9; x14] ++ hash160 redeem ++ [x87] in
  assert_ (len script =? 23);;
  Ok script.

(** The output and what is added to the input for a shape. *)
Definition dress (shape : Shape) (inner script_sig : bytes) (witness : list bytes) : Gen (bytes * bytes * list bytes) :=
  match shape with
  | SBare => mret (inner, script_sig, witness)
  | SP2sh =>
      script_sig ← pure (push_data script_sig inner);
      script_pubkey ← pure (p2sh inner);
      mret (script_pubkey, script_sig, witness)
  | SP2wsh => mret ([x00; x20] ++ sha256 inner, script_sig, witness ++ [inner])
  | SWitnessProgram =>
      version ← Prng.pick [0x51; 0x51; 0x52; 0x60; 0x00];
      n ← Prng.pick [32; 32; 20; 2; 40; 41; 1];
      data ← Prng.draw_bytes n;
      program ← pure (push_data [zb version] data);
      mret (program, script_sig, witness)
  end.

Definition random_case : Gen Case :=
  draw ← Prng.below 8;
  let shape := if draw <=? 3 then SBare else if draw <=? 5 then SP2sh else if draw =? 6 then SP2wsh else SWitnessProgram in
  inner ← random_script OPS_MAX [];
  pool ← pure (pushed_items inner);
  solve_ops ← Prng.below_usize 9;
  script_sig ← random_script solve_ops pool;
  bare ← Prng.chance 1 3;
  witness ← if (bare : bool) then mret [] else random_witness pool;
  '(script_pubkey, script_sig, witness) ← dress shape inner script_sig witness;
  round ← Prng.chance 1 8;
  amount ← if (round : bool) then Prng.pick [0; 1; MAX_MONEY] else Prng.below (MAX_MONEY + 1);
  flags ← random_flags;
  mret (mkCase flags script_pubkey amount script_sig witness).
End generate.

(** ** The two verdicts ([case.rs], [oracle.rs]) *)

(** [bitcoinconsensus::Utxo]: the script is a pointer and a length. *)
Record Utxo := mkUtxo { utxo_script : bytes; utxo_script_len : Z; utxo_value : Z }.

(** [bitcoinconsensus::Error], what is told apart of it. *)
Inductive OracleError := ERR_SCRIPT | ERR_OTHER (code : Z).

(** [bitcoin::consensus::serialize] of a transaction and [bitcoinconsensus::verify_with_flags]. *)
Class CoreLibrary := {
  serialize_tx : Transaction -> bytes;
  verify_with_flags : bytes -> Z -> bytes -> list Utxo -> Z -> Z -> OracleError + unit;
}.

(** [Transaction::serialize] is decoded by the library, the flags that are passed are its own and
    there is one spent output per input: then it answers with a verdict. *)
Class CoreLibraryLaws `{CoreLibrary} : Prop :=
  oracle_answers tx script amount utxos index flags :
    0 <= index < len (tx_input tx) -> len utxos = len (tx_input tx) ->
    ScriptFlags.is_subset_of flags ScriptFlags.MANDATORY = true ->
    verify_with_flags script amount (serialize_tx tx) utxos index (ScriptFlags.bits flags) = inr tt \/
    verify_with_flags script amount (serialize_tx tx) utxos index (ScriptFlags.bits flags) = inl ERR_SCRIPT.

Section verdicts.
Context `{CoreLibrary}.

Definition utxo {E} (output : TxOut) : outcome E Utxo :=
  script_pubkey_len ← expect (try_from u32_max (len (script_pubkey output)));
  value ← expect (try_from (2 ^ 63 - 1) (txout_value output));
  Ok (mkUtxo (script_pubkey output) script_pubkey_len value).

Definition oracle_verify {E} (tx_bytes : bytes) (index : Z) (prevouts : list TxOut) (flags : ScriptFlags.ScriptFlags) : outcome E bool :=
  assert_ (index <? len prevouts);;
  assert_ (ScriptFlags.is_subset_of flags ScriptFlags.MANDATORY);;
  spent ← expect (get prevouts index);
  utxos ← foldM (fun utxos output => u ← utxo output; Ok (utxos ++ [u])) [] prevouts;
  assert_ (len utxos =? len prevouts);;
  match verify_with_flags (script_pubkey spent) (txout_value spent) tx_bytes utxos index (ScriptFlags.bits flags) with
  | inr _ => Ok true
  | inl ERR_SCRIPT => Ok false
  | inl (ERR_OTHER _) => Panic
  end.
End verdicts.

Module Case.
Definition assert_bounded {E} (self : Case) : outcome E unit :=
  let flags := case_flags self in
  assert_ (ScriptFlags.is_subset_of flags ScriptFlags.MANDATORY);;
  (if ScriptFlags.contains flags ScriptFlags.WITNESS then assert_ (ScriptFlags.contains flags ScriptFlags.P2SH) else Ok tt);;
  (if ScriptFlags.contains flags ScriptFlags.TAPROOT then assert_ (ScriptFlags.contains flags ScriptFlags.WITNESS) else Ok tt);;
  assert_ (len (case_script_pubkey self) <=? SCRIPT_LEN_MAX);;
  assert_ (len (case_script_sig self) <=? SCRIPT_LEN_MAX);;
  assert_ (len (case_witness self) <=? WITNESS_ITEMS_MAX);;
  assert_ (case_amount self <=? MAX_MONEY).

Definition prevout (self : Case) : TxOut := mkTxOut (case_amount self) (case_script_pubkey self).

Section transactions.
Context `{BitcoinCrate}.

Definition crediting_transaction (self : Case) : Transaction :=
  mkTransaction 1 0 [mkTxIn outpoint_null [x00; x00] u32_max []] [prevout self].

Definition spending_transaction {E} (self : Case) : outcome E Transaction :=
  let credit := crediting_transaction self in
  let spend := mkTransaction 1 0
    [mkTxIn (mkOutPoint (compute_txid credit) 0) (case_script_sig self) u32_max (case_witness self)]
    [mkTxOut (case_amount self) []] in
  assert_ (len (tx_input spend) =? 1);;
  input ← expect (head (tx_input spend));
  assert_ (len (witness input) =? len (case_witness self));;
  Ok spend.

Context `{Hashes} `{Encoding} `{Secp256k1}.

Definition bitmigo_verdict {E} (self : Case) : outcome E bool :=
  assert_bounded self;;
  tx ← spending_transaction self;
  let prevouts := [prevout self] in
  precomputed ← new_precomputed tx prevouts;
  match verify_input tx 0 prevouts precomputed (case_flags self) with
  | Ok _ => Ok true
  | Err _ => Ok false
  | Panic => Panic
  end.

Context `{CoreLibrary}.

Definition oracle_verdict {E} (self : Case) : outcome E bool :=
  assert_bounded self;;
  tx ← spending_transaction self;
  oracle_verify (serialize_tx tx) 0 [prevout self] (case_flags self).
End transactions.
End Case.

(** ** Signed cases ([templates.rs]) *)

(** The signing half of [secp256k1] and of [rust-bitcoin]: keys, signatures, the digests a
    signature commits to and taproot outputs with one leaf or none.  A public key and an x-only
    key are their serialization. *)
Class Signing := {
  SecretKey : Type;
  Keypair : Type;
  Signature : Type;
  TaprootSpendInfo : Type;
  SecretKey_from_slice : bytes -> option SecretKey;
  keypair_of : SecretKey -> Keypair;
  public_key : SecretKey -> bool -> bytes;
  x_only_public_key : Keypair -> bytes;
  tap_tweak_keypair : Keypair -> Keypair;
  sign_ecdsa : bytes -> SecretKey -> Signature;
  serialize_compact : Signature -> bytes;
  from_compact : bytes -> option Signature;
  serialize_der : Signature -> bytes;
  sign_schnorr : bytes -> Keypair -> bytes;
  EcdsaSighashType_from_consensus : Z -> Z;
  TapSighashType_from_consensus : Z -> option Z;
  legacy_signature_hash : Transaction -> Z -> bytes -> Z -> option bytes;
  p2wsh_signature_hash : Transaction -> Z -> bytes -> Z -> Z -> option bytes;
  p2wpkh_signature_hash : Transaction -> Z -> bytes -> Z -> Z -> option bytes;
  taproot_script_spend_signature_hash : Transaction -> Z -> list TxOut -> bytes -> Z -> option bytes;
  taproot_signature_hash : Transaction -> Z -> list TxOut -> option bytes -> Z -> option bytes;
  tap_leaf_of_script : bytes -> bytes;
  Annex_new : bytes -> option bytes;
  one_leaf_tree : bytes -> bytes -> option TaprootSpendInfo;
  output_script : TaprootSpendInfo -> bytes;
  key_path_script : bytes -> bytes;
  control_block : TaprootSpendInfo -> bytes -> option bytes;
}.

Definition ECDSA_HASH_TYPES : list Z := [0x01; 0x02; 0x03; 0x81; 0x82; 0x83].
Definition ECDSA_ODD_HASH_TYPES : list Z := [0x00; 0x04; 0x7f; 0xff].
Definition SCHNORR_HASH_TYPES : list Z := [0x00; 0x01; 0x02; 0x03; 0x81; 0x82; 0x83].
Definition CURVE_ORDER : bytes :=
  [xff; xff; xff; xff; xff; xff; xff; xff; xff; xff; xff; xff; xff; xff; xff; xfe;
   xba; xae; xdc; xe6; xaf; x48; xa0; x3b; xbf; xd2; x5e; x8c; xd0; x36; x41; x41].

(** One byte of [curve_order_minus], from the last to the first: the bytes written so far and the
    borrow. *)
Definition minus_step {E} (st : bytes * Z) (ns : byte * byte) : outcome E (bytes * Z) :=
  let '(result, borrow) := st in
  let difference := bz ns.1 - bz ns.2 - borrow in
  if difference <? 0 then
    out ← expect (try_from 255 (difference + 256)); Ok (zb out :: result, 1)
  else out ← expect (try_from 255 difference); Ok (zb out :: result, 0).

Definition curve_order_minus {E} (s : bytes) : outcome E bytes :=
  '(result, borrow) ← foldM minus_step ([], 0) (reverse (zip CURVE_ORDER s));
  assert_ (borrow =? 0);;
  Ok result.

Section templates.
Context `{Hashes} `{BitcoinCrate} `{Signing}.

Record Key := mkKey { secret : SecretKey; keypair : Keypair; public : bytes }.

Definition random_key : Gen Key :=
  k ← Prng.bytes_32;
  secret ← (fun state => match SecretKey_from_slice k with Some secret => Ok (secret, state) | None => Err k end);
  let keypair := keypair_of secret in
  compressed ← Prng.chance 3 4;
  mret (mkKey secret keypair (public_key secret compressed)).

Inductive Wrapper := Bare | P2sh | P2wsh | P2shP2wsh | P2wpkh | P2shP2wpkh | Tapscript.

Definition random_script_wrapper : Gen Wrapper := Prng.pick [Bare; P2sh; P2wsh; P2shP2wsh; Tapscript].

Definition is_tapscript (wrapper : Wrapper) : bool := match wrapper with Tapscript => true | _ => false end.

Definition p2wsh {E} (script : bytes) : outcome E bytes :=
  let program := [x00; x20] ++ sha256 script in assert_ (len program =? 34);; Ok program.

Definition p2wpkh {E} (key : bytes) : outcome E bytes :=
  let program := [x00; x14] ++ hash160 key in assert_ (len program =? 22);; Ok program.

Definition p2pkh {E} (key : bytes) : outcome E bytes :=
  let script := [x76; xa9; x14] ++ hash160 key ++ [x88; xac] in assert_ (len script =? 25);; Ok script.

Definition ecdsa_type {E} (hash_type : Z) : outcome E Z :=
  assert_ (bool_decide (hash_type ∈ ECDSA_HASH_TYPES));; Ok (EcdsaSighashType_from_consensus hash_type).

Definition schnorr_type {E} (hash_type : Z) : outcome E Z := expect (TapSighashType_from_consensus hash_type).

Record Spend := mkSpend {
  spend_wrapper : Wrapper;
  spend_inner : bytes;
  spend_script_pubkey : bytes;
  spend_taproot : option TaprootSpendInfo;
}.

Definition new_spend (wrapper : Wrapper) (inner : bytes) : Gen Spend :=
  '(script_pubkey, taproot) ←
    match wrapper with
    | Bare | P2wpkh => mret (inner, None)
    | P2sh | P2shP2wpkh => script ← pure (p2sh inner); mret (script, None)
    | P2wsh => script ← pure (p2wsh inner); mret (script, None)
    | P2shP2wsh => program ← pure (p2wsh inner); script ← pure (p2sh program); mret (script, None)
    | Tapscript =>
        key ← random_key;
        let internal := x_only_public_key (keypair key) in
        info ← pure (expect (one_leaf_tree internal inner));
        mret (output_script info, Some info)
    end;
  mret (mkSpend wrapper inner script_pubkey taproot).

Definition unsigned_case (self : Spend) : Gen Case :=
  all ← Prng.chance 3 4;
  flags ← if (all : bool) then mret ScriptFlags.MANDATORY else random_flags;
  amount ← Prng.below (MAX_MONEY + 1);
  mret (mkCase flags (spend_script_pubkey self) amount [] []).

Definition spend_sighash {E} (self : Spend) (case : Case) (hash_type : Z) : outcome E bytes :=
  tx ← Case.spending_transaction case;
  let inner := spend_inner self in
  let amount := case_amount case in
  match spend_wrapper self with
  | Bare | P2sh => expect (legacy_signature_hash tx 0 inner hash_type)
  | P2wsh | P2shP2wsh => t ← ecdsa_type hash_type; expect (p2wsh_signature_hash tx 0 inner amount t)
  | P2wpkh | P2shP2wpkh => t ← ecdsa_type hash_type; expect (p2wpkh_signature_hash tx 0 inner amount t)
  | Tapscript =>
      let leaf := tap_leaf_of_script inner in
      t ← schnorr_type hash_type;
      expect (taproot_script_spend_signature_hash tx 0 [Case.prevout case] leaf t)
  end.

Definition with_solution (case : Case) (script_sig : bytes) (witness : list bytes) : Case :=
  mkCase (case_flags case) (case_script_pubkey case) (case_amount case) script_sig witness.

Definition solve {E} (self : Spend) (case : Case) (items : list bytes) : outcome E Case :=
  assert_ (len (case_script_sig case) =? 0);;
  assert_ (len (case_witness case) =? 0);;
  let inner := spend_inner self in
  match spend_wrapper self with
  | Bare =>
      script_sig ← foldM push_data (case_script_sig case) items;
      Ok (with_solution case script_sig (case_witness case))
  | P2sh =>
      script_sig ← foldM push_data (case_script_sig case) items;
      script_sig ← push_data script_sig inner;
      Ok (with_solution case script_sig (case_witness case))
  | P2wsh => Ok (with_solution case (case_script_sig case) (items ++ [inner]))
  | P2shP2wsh =>
      program ← p2wsh inner;
      script_sig ← push_data (case_script_sig case) program;
      Ok (with_solution case script_sig (items ++ [inner]))
  | P2wpkh => Ok (with_solution case (case_script_sig case) items)
  | P2shP2wpkh =>
      script_sig ← push_data (case_script_sig case) inner;
      Ok (with_solution case script_sig items)
  | Tapscript =>
      info ← expect (spend_taproot self);
      control ← expect (control_block info inner);
      Ok (with_solution case (case_script_sig case) (items ++ [inner; control]))
  end.

Definition ecdsa_signature (key : Key) (digest : bytes) (hash_type : Z) : Gen bytes :=
  let signature := sign_ecdsa digest (secret key) in
  high ← Prng.chance 1 8;
  signature ← if (high : bool) then
      let compact := serialize_compact signature in
      high_s ← pure (curve_order_minus (drop 32 compact));
      pure (expect (from_compact (take 32 compact ++ high_s)))
    else mret signature;
  let signed := serialize_der signature ++ [zb hash_type] in
  ensure (9 <=? len signed);;
  ensure (len signed <=? 74);;
  mret signed.

Definition schnorr_signature {E} (keypair : Keypair) (digest : bytes) (hash_type : Z) : outcome E bytes :=
  let signature := sign_schnorr digest keypair in
  let signed := if negb (hash_type =? 0x00) then signature ++ [zb hash_type] else signature in
  assert_ ((len signed =? 64) || (len signed =? 65));;
  Ok signed.

Definition random_hash_type (wrapper : Wrapper) : Gen Z :=
  match wrapper with
  | Tapscript => Prng.pick SCHNORR_HASH_TYPES
  | Bare | P2sh =>
      odd ← Prng.chance 1 8;
      if (odd : bool) then Prng.pick ECDSA_ODD_HASH_TYPES else Prng.pick ECDSA_HASH_TYPES
  | _ => Prng.pick ECDSA_HASH_TYPES
  end.

Definition sign (spend : Spend) (case : Case) (key : Key) : Gen bytes :=
  hash_type ← random_hash_type (spend_wrapper spend);
  digest ← pure (spend_sighash spend case hash_type);
  if is_tapscript (spend_wrapper spend) then pure (schnorr_signature (keypair key) digest hash_type)
  else ecdsa_signature key digest hash_type.

Definition hash_puzzle : Gen Case :=
  wrapper ← random_script_wrapper;
  preimage_len ← Prng.below_usize 81;
  preimage ← Prng.draw_bytes preimage_len;
  draw ← Prng.below 5;
  let '(opcode, digest) :=
    if draw =? 0 then (xa6, ripemd160 preimage)
    else if draw =? 1 then (xa7, sha1 preimage)
    else if draw =? 2 then (xa8, sha256 preimage)
    else if draw =? 3 then (xa9, hash160 preimage)
    else (xaa, sha256d preimage) in
  inner ← pure (push_data [opcode] digest);
  let inner := inner ++ (if (match wrapper with Bare => true | _ => false end) && bool_decide (opcode = xa9)
                         then [x88; x51] else [x87]) in
  spend ← new_spend wrapper inner;
  case ← unsigned_case spend;
  pure (solve spend case [preimage]).

Definition check_sig : Gen Case :=
  wrapper ← random_script_wrapper;
  key ← random_key;
  inner ← pure (push_data [] (if is_tapscript wrapper then x_only_public_key (keypair key) else public key));
  verifying ← Prng.chance 1 4;
  let inner := inner ++ (if (verifying : bool) then [xad] else [xac]) in
  let inner := if bool_decide (last inner = Some xad) then inner ++ [x51] else inner in
  spend ← new_spend wrapper inner;
  case ← unsigned_case spend;
  signature ← sign spend case key;
  pure (solve spend case [signature]).

(** [0x50 + u8::try_from(n)]. *)
Definition small_int {E} (n : Z) : outcome E byte := n ← expect (try_from 255 n); assert_ (0x50 + n <=? 255);; Ok (zb (0x50 + n)).

Definition multisig_script {E} (wrapper : Wrapper) (keys : list Key) (required : Z) : outcome E bytes :=
  let key_count := len keys in
  if is_tapscript wrapper then
    inner ← foldM (fun inner ik =>
        let '(index, key) := ik in
        inner ← push_data inner (x_only_public_key (keypair key));
        Ok (inner ++ [if index =? 0 then xac else xba])) [] (enumerate keys);
    n ← small_int key_count;
    Ok (inner ++ [n; x9c])
  else
    k ← small_int required;
    inner ← foldM (fun inner key => push_data inner (public key)) [k] keys;
    n ← small_int key_count;
    Ok (inner ++ [n; xae]).

Definition multisig : Gen Case :=
  wrapper ← random_script_wrapper;
  draw ← Prng.below_usize 3;
  let key_count := draw + 1 in
  keys ← repeatG (Z.to_nat key_count) random_key;
  draw ← Prng.below_usize key_count;
  let required := draw + 1 in
  inner ← pure (multisig_script wrapper keys required);
  spend ← new_spend wrapper inner;
  case ← unsigned_case spend;
  items ← if is_tapscript wrapper then
      foldG (fun items key => signature ← sign spend case key; mret (items ++ [signature])) [] (reverse keys)
    else
      odd ← Prng.chance 1 8;
      foldG (fun items key => signature ← sign spend case key; mret (items ++ [signature]))
        [if (odd : bool) then [x01] else []] (take (Z.to_nat required) keys);
  pure (solve spend case items).

Definition pay_to_pubkey_hash : Gen Case :=
  key ← random_key;
  draw ← Prng.below 3;
  '(wrapper, inner) ←
    if draw =? 0 then inner ← pure (p2pkh (public key)); mret (Bare, inner)
    else if draw =? 1 then inner ← pure (p2wpkh (public key)); mret (P2wpkh, inner)
    else inner ← pure (p2wpkh (public key)); mret (P2shP2wpkh, inner);
  spend ← new_spend wrapper inner;
  case ← unsigned_case spend;
  signature ← sign spend case key;
  pure (solve spend case [signature; public key]).

Definition taproot_key_path : Gen Case :=
  key ← random_key;
  let tweaked := tap_tweak_keypair (keypair key) in
  let script_pubkey := key_path_script (x_only_public_key (keypair key)) in
  ensure (len script_pubkey =? 34);;
  let spend := mkSpend Tapscript [] script_pubkey None in
  case ← unsigned_case spend;
  annexed ← Prng.chance 1 4;
  annex ← if (annexed : bool) then
      n ← Prng.below_usize 40;
      drawn ← Prng.draw_bytes n;
      mret (Some ([x50] ++ drawn))
    else mret None;
  hash_type ← Prng.pick SCHNORR_HASH_TYPES;
  tx ← pure (Case.spending_transaction case);
  committed ← match annex with Some annex => a ← pure (expect (Annex_new annex)); mret (Some a) | None => mret None end;
  t ← pure (schnorr_type hash_type);
  digest ← pure (expect (taproot_signature_hash tx 0 [Case.prevout case] committed t));
  signature ← pure (schnorr_signature tweaked digest hash_type);
  mret (with_solution case (case_script_sig case)
    (case_witness case ++ [signature] ++ match annex with Some annex => [annex] | None => [] end)).

(** [bytes[index] ^= 1 << bit]. *)
Definition flip {E} (data : bytes) (index bit : Z) : outcome E bytes :=
  b ← expect (get data index);
  Ok (<[Z.to_nat index := zb (Z.lxor (bz b) (Z.shiftl 1 bit))]> data).

Definition mutate (case : Case) : Gen Case :=
  let script_sig := case_script_sig case in
  let witness := case_witness case in
  let solved := negb (len witness =? 0) in
  let '(mkCase flags script_pubkey amount _ _) := case in
  draw ← Prng.below 8;
  if (draw <=? 1) && negb (len script_sig =? 0) then
    index ← Prng.below_usize (len script_sig);
    bit ← Prng.below 8;
    script_sig ← pure (flip script_sig index bit);
    mret (with_solution case script_sig witness)
  else if ((draw =? 2) || (draw =? 3)) && solved then
    item ← Prng.below_usize (len witness);
    data ← pure (expect (get witness item));
    data ← if len data =? 0 then b ← Prng.next_u8; mret (data ++ [b])
           else
             index ← Prng.below_usize (len data);
             bit ← Prng.below 8;
             pure (flip data index bit);
    mret (with_solution case script_sig (<[Z.to_nat item := data]> witness))
  else if (draw =? 4) && solved then
    item ← Prng.below_usize (len witness);
    data ← pure (expect (get witness item));
    shorter ← Prng.chance 1 2;
    data ← if (shorter : bool) then mret (take (pred (length data)) data) else b ← Prng.next_u8; mret (data ++ [b]);
    mret (with_solution case script_sig (<[Z.to_nat item := data]> witness))
  else if (draw =? 5) && solved then
    item ← Prng.below_usize (len witness);
    ensure (item <? len witness);;
    mret (with_solution case script_sig (delete (Z.to_nat item) witness))
  else if draw =? 6 then
    amount ← Prng.below (MAX_MONEY + 1);
    mret (mkCase flags script_pubkey amount script_sig witness)
  else
    flags ← random_flags;
    mret (mkCase flags script_pubkey amount script_sig witness).

Definition signed_case : Gen Case :=
  draw ← Prng.below 6;
  case ← if draw =? 0 then hash_puzzle
         else if draw <=? 2 then check_sig
         else if draw =? 3 then multisig
         else if draw =? 4 then pay_to_pubkey_hash
         else taproot_key_path;
  damaged ← Prng.chance 1 3;
  case ← if (damaged : bool) then mutate case else mret case;
  pure (Case.assert_bounded case);;
  mret case.
End templates.

(** ** The loop ([fuzz.rs]) *)

Definition MISMATCHES_MAX : Z := 16.

Record Mismatch := mkMismatch {
  mm_case_seed : Z;
  mm_case : Case;
  mm_bitmigo : bool;
  mm_oracle : bool;
}.

Record Report := mkReport {
  rp_compared : Z;
  rp_agreed_valid : Z;
  rp_agreed_invalid : Z;
  rp_mismatches : list Mismatch;
}.

Definition default_report : Report := mkReport 0 0 0 [].

Section fuzz.
Context `{Hashes} `{BitcoinCrate} `{Encoding} `{Secp256k1} `{CoreLibrary} `{Signing}.

Definition case_for_seed (case_seed : Z) : outcome bytes Case :=
  '(case, _) ← (signed ← Prng.chance 2 3; if (signed : bool) then signed_case else random_case : Gen Case) (Prng.new case_seed);
  Ok case.

(** One iteration: the report with the case of [case_seed] in it. *)
Definition compare (report : Report) (case_seed : Z) : outcome bytes Report :=
  case ← case_for_seed case_seed;
  bitmigo ← Case.bitmigo_verdict case;
  oracle ← Case.oracle_verdict case;
  compared ← u64 (rp_compared report + 1);
  let '(mkReport _ agreed_valid agreed_invalid mismatches) := report in
  match (bitmigo, oracle) with
  | (true, true) => agreed_valid ← u64 (agreed_valid + 1); Ok (mkReport compared agreed_valid agreed_invalid mismatches)
  | (false, false) => agreed_invalid ← u64 (agreed_invalid + 1); Ok (mkReport compared agreed_valid agreed_invalid mismatches)
  | _ => Ok (mkReport compared agreed_valid agreed_invalid (mismatches ++ [mkMismatch case_seed case bitmigo oracle]))
  end.

Fixpoint compare_loop (room : nat) (seed iteration : Z) (report : Report) : outcome bytes Report :=
  match room with
  | O => Ok report
  | S room =>
      report ← compare report ((seed + iteration) mod 2 ^ 64);
      if MISMATCHES_MAX <=? len (rp_mismatches report) then Ok report
      else compare_loop room seed (iteration + 1) report
  end.

Definition fuzz_run (seed iterations : Z) : outcome bytes Report :=
  report ← compare_loop (Z.to_nat iterations) seed 0 default_report;
  assert_ (rp_compared report <=? iterations);;
  sum ← u64 (rp_agreed_valid report + rp_agreed_invalid report);
  count ← expect (try_from u64_max (len (rp_mismatches report)));
  sum ← u64 (sum + count);
  assert_ (rp_compared report =? sum);;
  Ok report.
End fuzz.

(** ** The command line ([main.rs]) *)

Definition ITERATIONS_DEFAULT : Z := 50000.
Definition SEED_DEFAULT : Z := 1.

(** [str::parse::<u64>]: an optional plus sign and decimal digits. *)
Fixpoint parse_digits64 (acc : Z) (s : string) : option Z :=
  match s with
  | EmptyString => Some acc
  | String c s =>
      let d := Z.of_N (Ascii.N_of_ascii c) - 48 in
      if (0 <=? d) && (d <=? 9) && (acc * 10 + d <=? u64_max) then parse_digits64 (acc * 10 + d) s else None
  end.
Definition parse_u64 (s : string) : option Z :=
  match s with
  | EmptyString => None
  | String "+"%char EmptyString => None
  | String "+"%char digits => parse_digits64 0 digits
  | _ => parse_digits64 0 s
  end.

Inductive FuzzArgError := NeedsValue (flag : string) | NotANumber (flag value : string) | UnknownOption (flag : string).

(** The arguments are read two by two. *)
Fixpoint parse_fuzz_pairs (args : list string) (seed iterations : Z) : outcome FuzzArgError (Z * Z) :=
  match args with
  | [] => Ok (seed, iterations)
  | [flag] => Err (NeedsValue flag)
  | flag :: value :: rest =>
      match parse_u64 value with
      | None => Err (NotANumber flag value)
      | Some parsed =>
          if (flag =? "--seed")%string then parse_fuzz_pairs rest parsed iterations
          else if (flag =? "--iterations")%string then parse_fuzz_pairs rest seed parsed
          else Err (UnknownOption flag)
      end
  end.

Definition parse_fuzz_args (args : list string) : outcome FuzzArgError (Z * Z) :=
  parse_fuzz_pairs args SEED_DEFAULT ITERATIONS_DEFAULT.

(** ** What a generator yields *)

(** From every state the generator returns a value of [Q], or fails on bytes of [bad]. *)
Definition yields {A} (bad : bytes -> Prop) (m : Gen A) (Q : A -> Prop) : Prop :=
  forall state, match m state with Ok (a, _) => Q a | Err k => bad k | Panic => False end.

Section yields.
Context {bad : bytes -> Prop}.
Implicit Types A B : Type.

Lemma y_ret {A} (a : A) (Q : A -> Prop) : Q a -> yields bad (mret a) Q.
Proof. by intros ? state. Qed.

Lemma y_bind {A B} (Q : A -> Prop) (m : Gen A) (f : A -> Gen B) R :
  yields bad m Q -> (forall a, Q a -> yields bad (f a) R) -> yields bad (m ≫= f) R.
Proof.
  intros Hm Hf state. specialize (Hm state). unfold mbind, gen_bind. destruct (m state) as [[a state']|k|]; [|done..].
  exact (Hf a Hm state').
Qed.

Lemma y_mono {A} (m : Gen A) (Q R : A -> Prop) : yields bad m Q -> (forall a, Q a -> R a) -> yields bad m R.
Proof. intros Hm HR state. specialize (Hm state). destruct (m state) as [[a state']|k|]; auto. Qed.

Lemma y_pure {A} (m : outcome bytes A) a (Q : A -> Prop) : m = Ok a -> Q a -> yields bad (pure m) Q.
Proof. by intros -> ? state. Qed.

Lemma y_pure_bind {A B} (m : outcome bytes A) a (f : A -> Gen B) R :
  m = Ok a -> yields bad (f a) R -> yields bad (pure m ≫= f) R.
Proof. intros -> Hf state. exact (Hf state). Qed.

Lemma y_ensure {B} (b : bool) (f : unit -> Gen B) R : b = true -> yields bad (f tt) R -> yields bad (ensure b ≫= f) R.
Proof. intros -> Hf state. exact (Hf state). Qed.

Lemma y_repeat {A} n (m : Gen A) (Q : A -> Prop) : yields bad m Q ->
  yields bad (repeatG n m) (fun l => length l = n /\ Forall Q l).
Proof.
  intros Hm. induction n as [|n IH]; cbn [repeatG]; [by apply y_ret|].
  eapply y_bind; [exact Hm|]. intros a Ha. eapply y_bind; [exact IH|]. intros l [Hl HF]. apply y_ret.
  split; [by rewrite <-Hl|by constructor].
Qed.

Lemma y_iter {A} (I : nat -> A -> Prop) (f : A -> Gen A) n : forall k a, I k a ->
  (forall k a, I k a -> yields bad (f a) (I (S k))) -> yields bad (iterG n f a) (I (n + k)%nat).
Proof.
  induction n as [|n IH]; intros k a Ha Hf; cbn [iterG]; [by apply y_ret|].
  eapply y_bind; [by apply Hf|]. intros a' Ha'. replace (S n + k)%nat with (n + S k)%nat by lia. by apply IH.
Qed.

Lemma y_fold {A B} (I : nat -> A -> Prop) (f : A -> B -> Gen A) xs : forall k a, I k a ->
  (forall k a x, x ∈ xs -> I k a -> yields bad (f a x) (I (S k))) -> yields bad (foldG f a xs) (I (length xs + k)%nat).
Proof.
  induction xs as [|x xs IH]; intros k a Ha Hf; cbn [foldG]; [by apply y_ret|].
  eapply y_bind; [apply Hf; [left|done]|]. intros a' Ha'. cbn [length]. replace (S (length xs) + k)%nat with (length xs + S k)%nat by lia.
  apply IH; [done|]. intros k' b y Hy. apply Hf. by right.
Qed.

Lemma lxor_range a b n : 0 <= n -> 0 <= a < 2 ^ n -> 0 <= b < 2 ^ n -> 0 <= Z.lxor a b < 2 ^ n.
Proof.
  intros Hn Ha Hb. split; [apply Z.lxor_nonneg; lia|].
  destruct (decide (Z.lxor a b = 0)) as [->|Hne]; [lia|].
  assert (H0 : 0 < Z.lxor a b) by (enough (0 <= Z.lxor a b) by lia; apply Z.lxor_nonneg; lia).
  apply Z.log2_lt_pow2; [done|].
  destruct (decide (n = 0)) as [->|]; [assert (a = 0) as -> by lia; assert (b = 0) as -> by lia; done|].
  assert (Hlt : forall x, 0 <= x < 2 ^ n -> Z.log2 x < n).
  { intros x Hx. destruct (decide (x = 0)) as [->|]; [cbn; lia|]. apply Z.log2_lt_pow2; lia. }
  pose proof (Z.log2_lxor a b ltac:(lia) ltac:(lia)). pose proof (Hlt a Ha). pose proof (Hlt b Hb). lia.
Qed.

Lemma y_word : yields bad Prng.next_u64 (fun word => 0 <= word < 2 ^ 64).
Proof.
  intros state. unfold Prng.next_u64. apply lxor_range; [lia|apply Z.mod_pos_bound; lia|].
  rewrite Z.shiftr_div_pow2 by lia. match goal with |- context [?a mod 2 ^ 64 / _] => pose proof (Z.mod_pos_bound a (2 ^ 64) ltac:(lia)) end.
  split; [apply Z.div_pos; lia|]. apply Z.div_lt_upper_bound; lia.
Qed.

Lemma y_u8 : yields bad Prng.next_u8 (fun _ => True).
Proof.
  eapply y_bind; [exact y_word|]; cbv beta; intros word Hw. eapply y_pure_bind; [|by apply y_ret].
  rewrite Z.shiftr_div_pow2 by lia. unfold try_from.
  assert (0 <= word / 2 ^ 56 <= 255). { split; [apply Z.div_pos; lia|]. enough (word / 2 ^ 56 < 256) by lia. apply Z.div_lt_upper_bound; lia. }
  rewrite (proj2 (Z.leb_le 0 _)), (proj2 (Z.leb_le _ 255)) by lia. reflexivity.
Qed.

Lemma y_below bound : 0 < bound -> yields bad (Prng.below bound) (fun v => 0 <= v < bound).
Proof.
  intros Hb. eapply y_ensure; [by apply Z.ltb_lt|]. eapply y_bind; [exact y_word|]; cbv beta; intros word _.
  pose proof (Z.mod_pos_bound word bound Hb). eapply y_ensure; [apply Z.ltb_lt; lia|]. by apply y_ret.
Qed.

Lemma y_chance a b : a <= b -> 0 < b -> yields bad (Prng.chance a b) (fun _ => True).
Proof. intros Ha Hb. eapply y_ensure; [by apply Z.leb_le|]. eapply y_bind; [by apply y_below|]; cbv beta; intros v _. by apply y_ret. Qed.

Lemma y_pick {A} (items : list A) : items <> [] -> yields bad (Prng.pick items) (fun x => x ∈ items).
Proof.
  intros Hne. assert (Hl : 0 < len items) by (destruct items; [done|unfold len; cbn; lia]).
  eapply y_ensure; [by rewrite (proj2 (Z.eqb_neq _ _)) by lia|].
  eapply y_bind; [by apply y_below|]; cbv beta; intros i Hi. destruct (get_in_range items i Hi) as [x Hx]. eapply y_pure; [by rewrite Hx|].
  unfold get in Hx. rewrite (proj2 (Z.leb_le _ _)) in Hx by lia. by eapply list_elem_of_lookup_2.
Qed.

Lemma y_bytes n : 0 <= n -> yields bad (Prng.draw_bytes n) (fun l => len l = n).
Proof.
  intros Hn. eapply y_bind; [apply y_repeat, y_u8|]; cbv beta; intros l [Hl _].
  assert (Hlen : len l = n) by (unfold len; lia). eapply y_ensure; [by apply Z.eqb_eq|]. by apply y_ret.
Qed.
End yields.

(** Steps through a generator whose next draw satisfies the lemma [H]. *)
Tactic Notation "draw" tactic3(H) "as" simple_intropattern_list(pats) :=
  eapply y_bind; [solve [H]|cbv beta; intros pats].

(** ** Unstructured cases *)

(** What [assert_bounded] asks of flags. *)
Definition lattice (flags : ScriptFlags.ScriptFlags) : Prop :=
  ScriptFlags.is_subset_of flags ScriptFlags.MANDATORY = true /\ flags_ok flags.
Definition in_lattice (flags : ScriptFlags.ScriptFlags) : bool :=
  ScriptFlags.is_subset_of flags ScriptFlags.MANDATORY &&
  implb (ScriptFlags.contains flags ScriptFlags.WITNESS) (ScriptFlags.contains flags ScriptFlags.P2SH) &&
  implb (ScriptFlags.contains flags ScriptFlags.TAPROOT) (ScriptFlags.contains flags ScriptFlags.WITNESS).

Lemma in_lattice_ok flags : in_lattice flags = true -> lattice flags.
Proof.
  unfold in_lattice, lattice, flags_ok. intros Hl. apply andb_true_iff in Hl as [Hl H3]. apply andb_true_iff in Hl as [H1 H2].
  destruct (ScriptFlags.contains flags ScriptFlags.WITNESS), (ScriptFlags.contains flags ScriptFlags.P2SH),
    (ScriptFlags.contains flags ScriptFlags.TAPROOT); naive_solver.
Qed.

Lemma y_flags bad : yields bad random_flags lattice.
Proof.
  draw (by apply y_chance) as [] _; [apply y_ret, in_lattice_ok; by vm_compute|].
  set (step := fun flags flag => _).
  assert (Hfold : forall xs a, yields bad (foldG step a xs) (fun r => exists bs, length bs = length xs /\
    r = foldl (fun a (bf : bool * _) => if bf.1 then ScriptFlags.union a bf.2 else a) a (zip bs xs))).
  { induction xs as [|x xs IH]; intros a; [apply y_ret; by exists []|]. cbn [foldG]. unfold step at 1.
    eapply y_bind with (Q := fun r => exists b : bool, r = if b then ScriptFlags.union a x else a).
    { draw (by apply y_chance) as b _. apply y_ret. by exists b. }
    intros r [b ->]. eapply y_mono; [apply IH|]. intros r (bs & Hl & ->). exists (b :: bs). split; [by cbn; rewrite Hl|done]. }
  eapply y_bind; [apply Hfold|cbv beta; intros flags (bs & Hl & ->)].
  do 7 (destruct bs as [|? bs]; [done|]). destruct bs; [|done].
  match goal with |- context [honour_implications ?flags] =>
    assert (Hh : match honour_implications (E:=bytes) flags with Ok trimmed => in_lattice trimmed | _ => false end = true)
      by (clear; repeat match goal with b : bool |- _ => destruct b end; vm_compute; reflexivity);
    destruct (honour_implications (E:=bytes) flags) as [trimmed| |] eqn:Ho; [|done..] end.
  eapply y_pure; [reflexivity|]. by apply in_lattice_ok.
Qed.

Lemma push_data_shape {E} script data : len data <= 65535 ->
  exists header, push_data (E:=E) script data = Ok (script ++ header ++ data) /\ 1 <= len header <= 3.
Proof.
  intros Hd. unfold push_data. rewrite (proj2 (Z.leb_le (len data) 65535)) by done. run.
  pose proof (len_nonneg data). 
  destruct (Z.eqb_spec (len data) 0); [|destruct (Z.leb_spec (len data) 75); [|destruct (Z.leb_spec (len data) 255)]];
    [exists [x00]|exists [zb (len data)]|exists [x4c; zb (len data)]|exists (x4d :: le_bytes 2 (len data))];
    (split; [reflexivity|unfold len; cbn; lia]).
Qed.

Lemma push_data_len {E} script data : len data <= 65535 ->
  exists out, push_data (E:=E) script data = Ok out /\ len out <= len script + len data + 3.
Proof.
  intros Hd. destruct (push_data_shape (E:=E) script data Hd) as (header & -> & Hh). eexists. split; [done|]. rewrite !len_app. lia.
Qed.

Lemma push_header_pos script position opcode n header :
  push_header script position opcode = Some (n, header) -> 0 <= n /\ 1 <= header.
Proof.
  pose proof (bz_range opcode). assert (Hb : forall o : option byte, 0 <= match o with Some b => bz b | None => 0 end).
  { intros [b|]; [pose proof (bz_range b); lia|done]. }
  unfold push_header. pose proof (Hb (get script (position + 1))). pose proof (Hb (get script (position + 2))).
  repeat case_match; naive_solver lia.
Qed.

Lemma slice_len {A} (l : list A) a b : 0 <= a <= b -> b <= len l -> exists k, slice l a b = Some k /\ len k = b - a.
Proof.
  intros Ha Hb. unfold slice. rewrite (proj2 (Z.leb_le 0 a)), (proj2 (Z.leb_le a b)), (proj2 (Z.leb_le b _)) by lia. eexists. split; [done|].
  unfold len in *. rewrite length_take, length_drop. lia.
Qed.

Lemma pushed_loop_ok {E} room script : forall items position, 0 <= position <= len script ->
  Forall (fun x => len x <= len script) items ->
  exists items' position', pushed_loop (E:=E) room script items position = Ok (items', position') /\
    0 <= position' <= len script /\ Forall (fun x => len x <= len script) items'.
Proof.
  induction room as [|room IH]; intros items position Hp HF; cbn [pushed_loop]; [by eauto|].
  destruct (get script position) as [opcode|]; [|by eauto].
  destruct (push_header script position opcode) as [[n header]|] eqn:Hh; [|by eauto].
  apply push_header_pos in Hh. destruct (Z.ltb_spec (len script) (position + header + n)); [by eauto|].
  destruct (Z.ltb_spec 0 n); [|apply IH; [lia|done]].
  destruct (slice_len script (position + header) (position + header + n)) as (k & -> & Hk); [lia|lia|]. run.
  apply IH; [lia|]. apply Forall_app. split; [done|]. repeat constructor. lia.
Qed.

Lemma pushed_items_ok {E} script : exists items, pushed_items (E:=E) script = Ok items /\
  Forall (fun x => len x <= len script) items.
Proof.
  unfold pushed_items. pose proof (len_nonneg script).
  destruct (pushed_loop_ok (E:=E) (length script) script [] 0) as (items & position & -> & Hp & HF); [lia|constructor|]. run.
  rewrite (proj2 (Z.leb_le _ _)) by lia. run. by eauto.
Qed.

Section unstructured.
Context {bad : bytes -> Prop} `{HL : HashLengths}.

(** The longest operation drawn with a pool of items of at most [most] bytes. *)
Lemma y_op pool most script : Forall (fun x => len x <= most) pool -> PUSH_LEN_MAX <= most <= 65535 ->
  yields bad (random_op pool script) (fun out => len out <= len script + (most + 3)).
Proof.
  intros HF Hm. unfold PUSH_LEN_MAX in Hm.
  assert (Hpush : forall data, len data <= most -> yields bad (pure (push_data script data)) (fun out => len out <= len script + (most + 3))).
  { intros data Hd. destruct (push_data_len (E:=bytes) script data) as (out & Ho & Hl); [lia|]. eapply y_pure; [done|]. lia. }
  assert (Hone : forall b, len (script ++ [b]) <= len script + (most + 3)) by (intros b; rewrite len_app; unfold len at 2; cbn; lia).
  assert (Hcode : forall ops : list Z, ops <> [] -> yields bad (op ← Prng.pick ops; mret (script ++ [zb op])) (fun out => len out <= len script + (most + 3))).
  { intros ops Hne. draw (by apply y_pick) as op _. by apply y_ret. }
  unfold random_op. draw (by apply y_below) as class Hc.
  destruct (class <=? 6).
  { draw (by apply y_below) as n Hn. draw (apply y_bytes; lia) as data Hd. apply Hpush. lia. }
  destruct (class =? 7).
  { draw (by apply y_chance) as edge _. eapply y_bind with (Q := fun n => 0 <= n <= 600).
    - destruct edge; [|eapply y_mono; [by apply y_below|]; unfold PUSH_LEN_MAX; cbv beta; lia].
      eapply y_mono; [by apply y_pick|]. cbv beta. unfold PUSH_LEN_MAX. intros n Hn. set_unfold in Hn. lia.
    - intros n Hn. draw (apply y_bytes; lia) as data Hd. apply Hpush. lia. }
  destruct (class <=? 9).
  { destruct (Z.eqb_spec (len pool) 0); [by apply y_ret|]. draw (by apply y_pick; destruct pool) as item Hi.
    apply Hpush. by apply (proj1 (Forall_forall _ _) HF). }
  do 5 (case_match; [by apply Hcode|]). draw (apply y_u8) as op _. by apply y_ret.
Qed.

Lemma y_script ops_max pool most : Forall (fun x => len x <= most) pool -> PUSH_LEN_MAX <= most <= 65535 -> 0 <= ops_max <= OPS_MAX ->
  yields bad (random_script ops_max pool) (fun script => len script <= ops_max * (most + 3)).
Proof.
  intros HF Hm Ho. unfold random_script. eapply y_ensure; [apply Z.leb_le; lia|].
  draw (apply y_below; lia) as n Hn.
  eapply y_mono; [apply (y_iter (fun k s => len s <= Z.of_nat k * (most + 3))) with (k := 0%nat); [unfold len; cbn; lia|]|].
  - intros k s Hs. eapply y_mono; [by apply y_op|]. cbv beta. intros out Hout. lia.
  - cbv beta. unfold PUSH_LEN_MAX in Hm. intros s Hs. nia.
Qed.

Lemma y_item pool most : Forall (fun x => len x <= most) pool -> PUSH_LEN_MAX <= most ->
  yields bad (random_item pool) (fun x => len x <= most).
Proof.
  intros HF Hm. unfold PUSH_LEN_MAX in Hm. unfold random_item. draw (by apply y_below) as class Hc.
  assert (Hb : forall n, 0 <= n <= 521 -> yields bad (Prng.draw_bytes n) (fun x => len x <= most)).
  { intros n Hn. eapply y_mono; [apply y_bytes; lia|]. cbv beta. lia. }
  repeat case_match.
  - draw (by apply y_below) as n Hn. apply Hb. lia.
  - draw (by apply y_pick) as n Hn. apply Hb. set_unfold in Hn. lia.
  - draw (by apply y_pick) as b _. apply y_ret. unfold len; cbn. lia.
  - eapply y_mono; [apply y_pick; by destruct pool|]. cbv beta. intros x Hx. by apply (proj1 (Forall_forall _ _) HF).
  - draw (by apply y_below) as n Hn. apply Hb. lia.
Qed.

Lemma y_witness pool most : Forall (fun x => len x <= most) pool -> PUSH_LEN_MAX <= most ->
  yields bad (random_witness pool) (fun w => len w <= 8 /\ Forall (fun x => len x <= most) w).
Proof.
  intros HF Hm. unfold random_witness. draw (by apply y_below) as n Hn.
  eapply y_bind; [by eapply y_repeat, y_item|]. intros w [Hl HFw].
  eapply y_ensure; [apply Z.leb_le; unfold len, WITNESS_ITEMS_MAX; lia|]. apply y_ret. split; [unfold len; lia|done].
Qed.

Lemma p2sh_ok {E} redeem : exists script, p2sh (E:=E) redeem = Ok script /\ len script = 23.
Proof.
  unfold p2sh. eexists. rewrite (proj2 (Z.eqb_eq _ 23)); [by split; [reflexivity|]; unfold len; rewrite !length_app, length_hash160|].
  unfold len. by rewrite !length_app, length_hash160.
Qed.
End unstructured.

(** Unstructured cases.  Nothing holds the scripts to [SCRIPT_LEN_MAX]: forty-eight operations of
    603 bytes are longer, and a pool item may be most of a script. *)
Lemma y_random_case `{HashLengths} bad : yields bad random_case (fun case =>
  lattice (case_flags case) /\ 0 <= case_amount case <= MAX_MONEY /\ len (case_script_pubkey case) <= 28944 /\
  len (case_script_sig case) <= 9 * 28947 /\ len (case_witness case) <= 9).
Proof.
  unfold random_case. draw (by apply y_below) as d Hd. set (shape := if d <=? 3 then _ else _). clearbody shape.
  draw (apply (y_script OPS_MAX [] PUSH_LEN_MAX); [constructor|unfold PUSH_LEN_MAX; lia|unfold OPS_MAX; lia]) as inner Hi.
  unfold OPS_MAX, PUSH_LEN_MAX in Hi. pose proof (len_nonneg inner).
  destruct (pushed_items_ok (E:=bytes) inner) as (pool & Hpool & HF). eapply y_pure_bind; [exact Hpool|].
  assert (HF' : Forall (fun x => len x <= 28944) pool) by (eapply Forall_impl; [exact HF|]; cbv beta; lia).
  draw (by apply y_below) as ops Hops.
  draw (apply (y_script ops pool 28944); [done|unfold PUSH_LEN_MAX; lia|unfold OPS_MAX; lia]) as sig Hsig.
  draw (by apply y_chance) as bare _. eapply y_bind with (Q := fun w => len w <= 8).
  { destruct bare; [by apply y_ret|]. eapply y_mono; [apply (y_witness pool 28944 HF'); unfold PUSH_LEN_MAX; lia|]. by intros w [? _]. }
  intros w Hw. eapply y_bind with (Q := fun r => len r.1.1 <= 28944 /\ len r.1.2 <= 9 * 28947 /\ len r.2 <= 9).
  { destruct shape; cbn [dress].
    - apply y_ret. cbn. lia.
    - destruct (push_data_len (E:=bytes) sig inner) as (out & Ho & Hl); [lia|]. eapply y_pure_bind; [exact Ho|].
      destruct (p2sh_ok (E:=bytes) inner) as (spk & Hspk & Hls). eapply y_pure_bind; [exact Hspk|]. apply y_ret. cbn. lia.
    - apply y_ret. cbn [fst snd]. rewrite !len_app. change (len [inner]) with 1. change (len [x00; x20]) with 2. unfold len at 1.
      rewrite length_sha256. lia.
    - draw (by apply y_pick) as version _. draw (by apply y_pick) as n Hn. draw (apply y_bytes; set_unfold in Hn; lia) as data Hdata.
      destruct (push_data_len (E:=bytes) [zb version] data) as (out & Ho & Hl); [set_unfold in Hn; lia|]. eapply y_pure_bind; [exact Ho|].
      apply y_ret. change (len [zb version]) with 1 in Hl. set_unfold in Hn. cbn. lia. }
  intros [[spk sig'] w'] (Hk1 & Hk2 & Hk3). cbn in Hk1, Hk2, Hk3.
  draw (by apply y_chance) as round _. eapply y_bind with (Q := fun v => 0 <= v <= MAX_MONEY).
  { destruct round; [|eapply y_mono; [apply y_below; unfold MAX_MONEY; lia|]; cbv beta; lia].
    eapply y_mono; [by apply y_pick|]. cbv beta. unfold MAX_MONEY. intros v Hv. set_unfold in Hv. lia. }
  intros amount Ha. draw (apply y_flags) as flags Hf. by apply y_ret.
Qed.

(** ** [curve_order_minus] is subtraction *)

Lemma minus_fold {E} a : forall b acc borrow, length a = length b -> 0 <= borrow <= 1 ->
  exists r borrow', foldM (minus_step (E:=E)) (acc, borrow) (zip a b) = Ok (reverse r ++ acc, borrow') /\
    length r = length a /\ 0 <= borrow' <= 1 /\
    le_val r - borrow' * 256 ^ Z.of_nat (length a) = le_val a - le_val b - borrow.
Proof.
  induction a as [|x a IH]; intros [|y b] acc borrow Hl Hb; try done.
  { exists [], borrow. cbn. split_and!; (done || lia). }
  cbn [zip zip_with foldM minus_step fst snd]. injection Hl as Hl. pose proof (bz_range x). pose proof (bz_range y).
  assert (Hstep : exists out borrow1, minus_step (E:=E) (acc, borrow) (x, y) = Ok (zb out :: acc, borrow1) /\
    0 <= out <= 255 /\ 0 <= borrow1 <= 1 /\ out - 256 * borrow1 = bz x - bz y - borrow).
  { unfold minus_step. cbn [fst snd]. unfold try_from. destruct (Z.ltb_spec (bz x - bz y - borrow) 0).
    - exists (bz x - bz y - borrow + 256), 1. rewrite (proj2 (Z.leb_le 0 _)), (proj2 (Z.leb_le _ 255)) by lia. split_and!; (done || lia).
    - exists (bz x - bz y - borrow), 0. rewrite (proj2 (Z.leb_le 0 _)), (proj2 (Z.leb_le _ 255)) by lia. split_and!; (done || lia). }
  destruct Hstep as (out & b1 & Hs & Ho & Hb1 & Heq). unfold minus_step in Hs. cbn [fst snd] in Hs. rewrite Hs. run.
  destruct (IH b (zb out :: acc) b1 Hl Hb1) as (r & b2 & Hf & Hlr & Hb2 & Hv). rewrite Hf.
  exists (zb out :: r), b2. split_and!; [by rewrite reverse_cons, <-(assoc_L (++))|by cbn; rewrite Hlr|lia|lia|].
  cbn [le_val length]. rewrite bz_zb_id, Nat2Z.inj_succ, Z.pow_succ_r by lia. lia.
Qed.

Definition order : Z := be_val CURVE_ORDER.

Lemma curve_order_minus_ok {E} s : length s = 32%nat -> be_val s <= order ->
  exists r, curve_order_minus (E:=E) s = Ok r /\ length r = 32%nat /\ be_val r = order - be_val s.
Proof.
  intros Hl Hs. unfold curve_order_minus.
  assert (Hz : reverse (zip CURVE_ORDER s) = zip (reverse CURVE_ORDER) (reverse s)).
  { do 32 (destruct s as [|? s]; [done|]). destruct s; [|done]. reflexivity. }
  rewrite Hz. destruct (minus_fold (E:=E) (reverse CURVE_ORDER) (reverse s) [] 0) as (r & b & Hf & Hlr & Hb & Hv).
  { by rewrite !length_reverse, Hl. } { lia. }
  rewrite Hf. run. rewrite app_nil_r. fold (be_val CURVE_ORDER) in Hv. fold (be_val s) in Hv. fold order in Hv.
  rewrite length_reverse in Hlr, Hv. change (length CURVE_ORDER) with 32%nat in *. pose proof (le_val_range r) as Hr. rewrite Hlr in Hr.
  assert (b = 0) as -> by nia. exists (reverse r). split; [done|]. rewrite length_reverse. split; [done|].
  unfold be_val at 1. rewrite reverse_involutive. lia.
Qed.

(** ** Signed cases *)

(** What the libraries document: the lengths of keys, signatures and taproot outputs, a signature
    whose halves are below the order, and digests that are defined for an input that exists. *)
Class SigningLaws `{Signing} : Prop := {
  length_public_key k (compressed : bool) : length (public_key k compressed) = if compressed then 33%nat else 65%nat;
  length_x_only kp : length (x_only_public_key kp) = 32%nat;
  length_compact s : length (serialize_compact s) = 64%nat;
  compact_range digest k : let c := serialize_compact (sign_ecdsa digest k) in
    0 < be_val (take 32 c) < order /\ 0 < be_val (drop 32 c) < order;
  from_compact_valid c : length c = 64%nat -> 0 < be_val (take 32 c) < order -> 0 < be_val (drop 32 c) < order ->
    is_Some (from_compact c);
  length_der s : (8 <= length (serialize_der s) <= 72)%nat;
  length_schnorr digest kp : length (sign_schnorr digest kp) = 64%nat;
  schnorr_types t : t ∈ SCHNORR_HASH_TYPES -> is_Some (TapSighashType_from_consensus t);
  legacy_defined tx i script t : 0 <= i < len (tx_input tx) -> is_Some (legacy_signature_hash tx i script t);
  p2wsh_defined tx i script amount t : 0 <= i < len (tx_input tx) -> is_Some (p2wsh_signature_hash tx i script amount t);
  p2wpkh_defined tx i h amount t : 0 <= i < len (tx_input tx) -> length h = 20%nat ->
    is_Some (p2wpkh_signature_hash tx i ([x00; x14] ++ h) amount t);
  taproot_script_defined tx i prevouts leaf t : 0 <= i < len (tx_input tx) -> len prevouts = len (tx_input tx) ->
    is_Some (taproot_script_spend_signature_hash tx i prevouts leaf t);
  taproot_defined tx i prevouts annex t : 0 <= i < len (tx_input tx) -> len prevouts = len (tx_input tx) ->
    is_Some (taproot_signature_hash tx i prevouts annex t);
  annex_defined b : is_Some (Annex_new ([x50] ++ b));
  one_leaf_defined internal inner : exists info control, one_leaf_tree internal inner = Some info /\
    length (output_script info) = 34%nat /\ control_block info inner = Some control /\ length control = 33%nat;
  length_key_path x : length (key_path_script x) = 34%nat;
}.

(** A case within all the bounds, with witness items of at most [most] bytes. *)
Record sized (most : Z) (case : Case) : Prop := mkSized {
  sz_flags : lattice (case_flags case);
  sz_amount : 0 <= case_amount case <= MAX_MONEY;
  sz_script_pubkey : len (case_script_pubkey case) <= 300;
  sz_script_sig : len (case_script_sig case) <= 800;
  sz_witness : len (case_witness case) <= 6;
  sz_items : Forall (fun x => len x <= most) (case_witness case);
}.

Lemma assert_bounded_ok {E} most case : sized most case -> Case.assert_bounded (E:=E) case = Ok tt.
Proof.
  intros [[Hs [Hw Ht]] Ha Hk Hg Hn _]. unfold Case.assert_bounded, SCRIPT_LEN_MAX, WITNESS_ITEMS_MAX. rewrite Hs.
  rewrite (proj2 (Z.leb_le (len (case_script_pubkey case)) _)), (proj2 (Z.leb_le (len (case_script_sig case)) _)),
    (proj2 (Z.leb_le (len (case_witness case)) _)), (proj2 (Z.leb_le (case_amount case) _)) by lia. run.
  destruct (ScriptFlags.contains (case_flags case) ScriptFlags.WITNESS); [rewrite (Hw eq_refl); run|];
    (destruct (ScriptFlags.contains (case_flags case) ScriptFlags.TAPROOT); [|reflexivity]).
  - reflexivity.
  - by specialize (Ht eq_refl).
Qed.

Lemma spending_ok {E} `{BitcoinCrate} case : exists input output,
  Case.spending_transaction (E:=E) case = Ok (mkTransaction 1 0 [input] [output]) /\ witness input = case_witness case.
Proof. unfold Case.spending_transaction. cbn. rewrite Z.eqb_refl. run. by eauto. Qed.

Section signed.
Context `{HL : HashLengths} `{BitcoinCrate} `{SL : SigningLaws}.

(** The only failure of a template: thirty-two drawn bytes that are no secret key. *)
Definition no_key (k : bytes) : Prop := length k = 32%nat /\ SecretKey_from_slice k = None.

Lemma y_key : yields no_key random_key (fun key => len (public key) <= 65).
Proof.
  unfold random_key. draw (by apply y_bytes) as k Hk. eapply y_bind with (Q := fun _ => True).
  { intros state. destruct (SecretKey_from_slice k) eqn:Hs; [done|]. split; [unfold len in Hk; lia|done]. }
  intros sec _. draw (by apply y_chance) as compressed _. apply y_ret. cbn. unfold len. rewrite length_public_key. by destruct compressed.
Qed.

Record spend_ok (spend : Spend) : Prop := mkSpendOk {
  so_inner : len (spend_inner spend) <= 210;
  so_script_pubkey : len (spend_script_pubkey spend) <= 210;
  so_p2wpkh : spend_wrapper spend = P2wpkh \/ spend_wrapper spend = P2shP2wpkh ->
    exists h, spend_inner spend = [x00; x14] ++ h /\ length h = 20%nat;
  so_taproot : spend_wrapper spend = Tapscript -> exists info control, spend_taproot spend = Some info /\
    control_block info (spend_inner spend) = Some control /\ length control = 33%nat;
}.

Lemma p2wsh_ok {E} script : exists program, p2wsh (E:=E) script = Ok program /\ len program = 34.
Proof.
  unfold p2wsh. assert (Hl : len ([x00; x20] ++ sha256 script) = 34) by (unfold len; by rewrite length_app, length_sha256).
  rewrite Hl. run. by eauto.
Qed.

Lemma p2wpkh_ok {E} key : exists h, p2wpkh (E:=E) key = Ok ([x00; x14] ++ h) /\ length h = 20%nat.
Proof.
  unfold p2wpkh. assert (Hl : len ([x00; x14] ++ hash160 key) = 22) by (unfold len; by rewrite length_app, length_hash160).
  rewrite Hl. run. eexists. split; [done|apply length_hash160].
Qed.

Lemma p2pkh_ok {E} key : exists script, p2pkh (E:=E) key = Ok script /\ len script = 25.
Proof.
  unfold p2pkh. assert (Hl : len ([x76; xa9; x14] ++ hash160 key ++ [x88; xac]) = 25) by (unfold len; by rewrite !length_app, length_hash160).
  rewrite Hl. run. by eauto.
Qed.

Lemma y_spend wrapper inner : len inner <= 210 ->
  (wrapper = P2wpkh \/ wrapper = P2shP2wpkh -> exists h, inner = [x00; x14] ++ h /\ length h = 20%nat) ->
  yields no_key (new_spend wrapper inner) (fun spend => spend_ok spend /\ spend_wrapper spend = wrapper).
Proof.
  intros Hi Hw. unfold new_spend.
  eapply y_bind with (Q := fun r => len r.1 <= 210 /\ (wrapper = Tapscript -> exists info control, r.2 = Some info /\
    control_block info inner = Some control /\ length control = 33%nat)).
  - destruct (p2sh_ok (E:=bytes) inner) as (spk & Hspk & Hl). destruct (p2wsh_ok (E:=bytes) inner) as (program & Hp & Hlp).
    destruct (p2sh_ok (E:=bytes) program) as (spk' & Hspk' & Hl').
    destruct wrapper; try by apply y_ret.
    1, 4: eapply y_pure_bind; [exact Hspk|]; apply y_ret; cbn; split; [lia|done].
    + eapply y_pure_bind; [exact Hp|]. apply y_ret. cbn; split; [lia|done].
    + eapply y_pure_bind; [exact Hp|]. eapply y_pure_bind; [exact Hspk'|]. apply y_ret. cbn; split; [lia|done].
    + draw (apply y_key) as key _.
      destruct (one_leaf_defined (x_only_public_key (keypair key)) inner) as (info & control & Hinfo & Ho & Hc & Hlc).
      eapply y_pure_bind; [by rewrite Hinfo|]. apply y_ret. cbn. unfold len. rewrite Ho. split; [lia|]. by eauto.
  - intros [spk taproot] [Hl Ht]. apply y_ret. split; [|done]. by constructor.
Qed.

(** The case a spend starts from. *)
Record blank (spend : Spend) (case : Case) : Prop := mkBlank {
  bl_flags : lattice (case_flags case);
  bl_amount : 0 <= case_amount case <= MAX_MONEY;
  bl_script_pubkey : case_script_pubkey case = spend_script_pubkey spend;
  bl_script_sig : case_script_sig case = [];
  bl_witness : case_witness case = [];
}.

Lemma y_unsigned spend : yields no_key (unsigned_case spend) (blank spend).
Proof.
  unfold unsigned_case. draw (by apply y_chance) as all _. eapply y_bind with (Q := lattice).
  { destruct all; [apply y_ret, in_lattice_ok; by vm_compute|apply y_flags]. }
  intros flags Hf. draw (apply y_below; unfold MAX_MONEY; lia) as amount Ha. apply y_ret. constructor; cbn; (done || lia).
Qed.

(** The hash types a wrapper signs with. *)
Definition types_of (wrapper : Wrapper) (t : Z) : Prop :=
  match wrapper with
  | Tapscript => t ∈ SCHNORR_HASH_TYPES
  | Bare | P2sh => True
  | _ => t ∈ ECDSA_HASH_TYPES
  end.

Lemma y_hash_type wrapper : yields no_key (random_hash_type wrapper) (types_of wrapper).
Proof.
  destruct wrapper; cbn [random_hash_type types_of]; try (eapply y_mono; [by apply y_pick|]; by cbv beta);
    (draw (by apply y_chance) as odd _; destruct odd; (eapply y_mono; [by apply y_pick|done])).
Qed.

Lemma sighash_ok {E} spend case t : spend_ok spend -> types_of (spend_wrapper spend) t ->
  exists digest, spend_sighash (E:=E) spend case t = Ok digest.
Proof.
  intros [_ _ Hw Ht] Hty. unfold spend_sighash. destruct (spending_ok (E:=E) case) as (input & output & -> & _). run.
  set (tx := mkTransaction _ _ _ _). assert (Htx : 0 <= 0 < len (tx_input tx)) by (split; [done|reflexivity]).
  assert (He : forall o : option bytes, is_Some o -> exists digest, expect (E:=E) o = Ok digest) by (intros o [d ->]; by exists d).
  destruct (spend_wrapper spend); cbn [types_of] in Hty; unfold ecdsa_type, schnorr_type;
    try (rewrite bool_decide_eq_true_2 by done; run); try (by apply He, legacy_defined); try (by apply He, p2wsh_defined).
  1, 2: destruct Hw as (h & -> & Hh); [by auto|]; by apply He, p2wpkh_defined.
  destruct (schnorr_types t Hty) as [ty ->]. run. by apply He, taproot_script_defined.
Qed.

Lemma schnorr_ok {E} kp digest t : exists s, schnorr_signature (E:=E) kp digest t = Ok s /\ len s <= 65.
Proof.
  unfold schnorr_signature. pose proof (length_schnorr digest kp) as Hl.
  destruct (t =? 0); cbn [negb]; unfold len; rewrite ?length_app, Hl; cbn; eexists; (split; [done|]); rewrite ?length_app, Hl; cbn; lia.
Qed.

Lemma y_ecdsa key digest t : yields no_key (ecdsa_signature key digest t) (fun s => len s <= 74).
Proof.
  unfold ecdsa_signature. draw (by apply y_chance) as high _. eapply y_bind with (Q := fun _ => True).
  - destruct high; [|by apply y_ret]. destruct (compact_range digest (secret key)) as [Hr Hs].
    pose proof (length_compact (sign_ecdsa digest (secret key))) as Hl. set (c := serialize_compact _) in *.
    destruct (curve_order_minus_ok (E:=bytes) (drop 32 c)) as (s & Hm & Hls & Hv); [rewrite length_drop; lia|lia|].
    eapply y_pure_bind; [exact Hm|]. destruct (from_compact_valid (take 32 c ++ s)) as [sg Hsg].
    + rewrite length_app, length_take. lia.
    + rewrite take_app_le, take_take by (rewrite length_take; lia). by rewrite Nat.min_id.
    + rewrite drop_app_ge, length_take, Hl by (rewrite length_take; lia). change (32 - 32 `min` 64)%nat with 0%nat. rewrite drop_0, Hv. lia.
    + eapply y_pure; [by rewrite Hsg|done].
  - intros sg _. pose proof (length_der sg). assert (Hl : len (serialize_der sg ++ [zb t]) = Z.of_nat (length (serialize_der sg)) + 1).
    { unfold len. rewrite length_app. cbn. lia. }
    eapply y_ensure; [apply Z.leb_le; lia|]. eapply y_ensure; [apply Z.leb_le; lia|]. apply y_ret. lia.
Qed.

Lemma y_sign spend case key : spend_ok spend -> yields no_key (sign spend case key) (fun s => len s <= 74).
Proof.
  intros Hs. unfold sign. draw (apply y_hash_type) as t Ht. destruct (sighash_ok (E:=bytes) spend case t Hs Ht) as [digest Hd].
  eapply y_pure_bind; [exact Hd|]. destruct (is_tapscript _); [|apply y_ecdsa].
  destruct (schnorr_ok (E:=bytes) (keypair key) digest t) as (s & Hsg & Hl). eapply y_pure; [exact Hsg|]. lia.
Qed.

Lemma push_all {E} most : forall items script, Forall (fun x => len x <= most) items -> most <= 65535 ->
  exists out, foldM (push_data (E:=E)) script items = Ok out /\ len out <= len script + len items * (most + 3).
Proof.
  induction items as [|x items IH]; intros script HF Hm; cbn [foldM]; [exists script; split; [done|unfold len at 3; cbn; lia]|].
  apply Forall_cons in HF as [Hx HF]. destruct (push_data_len (E:=E) script x) as (out & -> & Hl); [lia|]. run.
  destruct (IH out HF Hm) as (out' & -> & Hl'). eexists. split; [done|]. rewrite len_cons. lia.
Qed.

Lemma solve_ok {E} spend case items : spend_ok spend -> blank spend case -> Forall (fun x => len x <= 80) items -> len items <= 4 ->
  exists case', solve (E:=E) spend case items = Ok case' /\ sized 210 case'.
Proof.
  intros Hs Hb HF Hn. unfold solve. destruct Hb as [Hfl Ham Hspk Hsig Hwit]. rewrite Hsig, Hwit. run. cbn [len length Z.of_nat Z.eqb]. run.
  pose proof (so_inner _ Hs) as Hin. pose proof (so_script_pubkey _ Hs) as Hout. pose proof (len_nonneg items).
  assert (HF' : Forall (fun x => len x <= 210) items) by (eapply Forall_impl; [exact HF|]; cbv beta; lia).
  assert (Hsized : forall sig w, len sig <= 800 -> len w <= 6 -> Forall (fun x => len x <= 210) w -> sized 210 (with_solution case sig w)).
  { intros sig w Hg Hw HFw. constructor; cbn; try done. rewrite Hspk. lia. }
  destruct (push_all (E:=E) 80 items [] HF) as (sig & Hsg & Hl); [lia|]. change (len []) with 0 in Hl.
  destruct (p2wsh_ok (E:=E) (spend_inner spend)) as (program & Hp & Hlp).
  destruct (spend_wrapper spend) eqn:Hw.
  - rewrite Hsg. run. eexists. split; [done|]. apply Hsized; [lia|done|constructor].
  - rewrite Hsg. run. destruct (push_data_len (E:=E) sig (spend_inner spend)) as (sig' & -> & Hl'); [lia|]. run.
    eexists. split; [done|]. apply Hsized; [lia|done|constructor].
  - eexists. split; [done|]. apply Hsized; [done|rewrite len_app; change (len [spend_inner spend]) with 1; lia|].
    apply Forall_app. split; [done|]. by repeat constructor.
  - rewrite Hp. run. destruct (push_data_len (E:=E) [] program) as (sig' & -> & Hl'); [lia|]. run. change (len []) with 0 in Hl'.
    eexists. split; [done|]. apply Hsized; [lia|rewrite len_app; change (len [spend_inner spend]) with 1; lia|].
    apply Forall_app. split; [done|]. by repeat constructor.
  - eexists. split; [done|]. apply Hsized; [done|lia|done].
  - destruct (push_data_len (E:=E) [] (spend_inner spend)) as (sig' & -> & Hl'); [lia|]. run. change (len []) with 0 in Hl'.
    eexists. split; [done|]. apply Hsized; [lia|lia|done].
  - destruct (so_taproot _ Hs Hw) as (info & control & -> & Hc & Hlc). run. rewrite Hc. run. eexists. split; [done|].
    apply Hsized; [done|rewrite len_app; change (len [spend_inner spend; control]) with 2; lia|].
    apply Forall_app. split; [done|]. repeat constructor; [done|unfold len; lia].
Qed.

(** What every template ends with: a spend whose items are short. *)
Lemma y_solve spend case items : spend_ok spend -> blank spend case -> Forall (fun x => len x <= 80) items -> len items <= 4 ->
  yields no_key (pure (solve spend case items)) (sized 210).
Proof. intros Hs Hb HF Hn. destruct (solve_ok (E:=bytes) spend case items Hs Hb HF Hn) as (case' & Hc & Hz). by eapply y_pure. Qed.

Lemma not_p2wpkh wrapper : wrapper ∈ [Bare; P2sh; P2wsh; P2shP2wsh; Tapscript] -> ~ (wrapper = P2wpkh \/ wrapper = P2shP2wpkh).
Proof. intros Hw [->| ->]; set_unfold in Hw; naive_solver. Qed.

Lemma y_hash_puzzle : yields no_key hash_puzzle (sized 210).
Proof.
  unfold hash_puzzle. draw (by apply y_pick) as wrapper Hw. draw (by apply y_below) as n Hn. draw (apply y_bytes; lia) as preimage Hp.
  draw (by apply y_below) as d Hd. set (od := if d =? 0 then _ else _).
  assert (Hod : len od.2 <= 32).
  { unfold od, len. repeat case_match; cbn [snd]; rewrite ?length_ripemd160, ?length_sha1, ?length_sha256, ?length_hash160, ?length_sha256d; lia. }
  clearbody od. destruct od as [opcode digest]. cbn [snd] in Hod.
  destruct (push_data_len (E:=bytes) [opcode] digest) as (inner & Hi & Hl); [lia|]. eapply y_pure_bind; [exact Hi|]. change (len [opcode]) with 1 in Hl.
  eapply y_bind; [apply y_spend|].
  - rewrite len_app. case_match; unfold len at 2; cbn; lia.
  - intros Hbad. by destruct (not_p2wpkh _ Hw).
  - cbv beta. intros spend [Hs _]. draw (apply y_unsigned) as case Hc. apply y_solve; try done. repeat constructor. lia.
Qed.

Lemma key_len key : len (public key) <= 65 -> len (x_only_public_key (keypair key)) <= 65.
Proof. intros _. unfold len. rewrite length_x_only. lia. Qed.

Lemma y_check_sig : yields no_key check_sig (sized 210).
Proof.
  unfold check_sig. draw (by apply y_pick) as wrapper Hw. draw (apply y_key) as key Hk.
  destruct (push_data_len (E:=bytes) [] (if is_tapscript wrapper then x_only_public_key (keypair key) else public key)) as (inner & Hi & Hl).
  { pose proof (key_len key Hk). case_match; lia. }
  assert (Hl' : len inner <= 68) by (pose proof (key_len key Hk); change (len (@nil byte)) with 0 in Hl; destruct (is_tapscript wrapper); lia).
  eapply y_pure_bind; [exact Hi|]. draw (by apply y_chance) as v _. set (inner1 := inner ++ _).
  assert (Hl1 : len inner1 <= 69) by (unfold inner1; rewrite len_app; destruct v; unfold len at 2; cbn; lia).
  eapply y_bind; [apply y_spend|].
  - destruct (bool_decide _); [rewrite len_app; unfold len at 2; cbn|]; lia.
  - intros Hbad. by destruct (not_p2wpkh _ Hw).
  - cbv beta. intros spend [Hs _]. draw (apply y_unsigned) as case Hc. draw (by apply y_sign) as s Hsg.
    apply y_solve; try done. repeat constructor. lia.
Qed.

Lemma small_int_ok {E} n : 0 <= n <= 16 -> exists b, small_int (E:=E) n = Ok b.
Proof.
  intros Hn. unfold small_int, try_from. rewrite (proj2 (Z.leb_le 0 n)), (proj2 (Z.leb_le n 255)) by lia. run.
  rewrite (proj2 (Z.leb_le _ 255)) by lia. run. by eauto.
Qed.

(** A script built by appending at most [k] bytes for every key. *)
Lemma build_ok {E} {A} (f : bytes -> A -> outcome E bytes) k xs : forall script,
  (forall script x, x ∈ xs -> exists out, f script x = Ok out /\ len out <= len script + k) ->
  exists out, foldM f script xs = Ok out /\ len out <= len script + len xs * k.
Proof.
  induction xs as [|x xs IH]; intros script Hf; cbn [foldM]; [exists script; split; [done|unfold len at 3; cbn; lia]|].
  destruct (Hf script x ltac:(by left)) as (out & -> & Hl). run.
  destruct (IH out) as (out' & -> & Hl'); [intros s y Hy; apply Hf; by right|]. eexists. split; [done|]. rewrite len_cons. lia.
Qed.

Lemma multisig_script_ok {E} wrapper keys required : Forall (fun key => len (public key) <= 65) keys -> len keys <= 3 ->
  0 <= required <= 16 -> exists inner, multisig_script (E:=E) wrapper keys required = Ok inner /\ len inner <= 210.
Proof.
  intros HF Hn Hr. pose proof (len_nonneg keys). unfold multisig_script. destruct (small_int_ok (E:=E) (len keys)) as [b Hb]; [lia|].
  destruct (small_int_ok (E:=E) required Hr) as [k Hk]. destruct (is_tapscript wrapper).
  - destruct (build_ok (E:=E) (fun inner '(index, key) => inner ← push_data inner (x_only_public_key (keypair key));
        Ok (inner ++ [if (index : Z) =? 0 then xac else xba])) 36 (enumerate keys) []) as (inner & Hi & Hl).
    { intros script [i key] _. destruct (push_data_len (E:=E) script (x_only_public_key (keypair key))) as (out & -> & Ho); [unfold len; rewrite length_x_only; lia|].
      run. eexists. split; [done|]. rewrite len_app. unfold len at 2. cbn. unfold len at 3 in Ho. rewrite length_x_only in Ho. lia. }
    assert (Hi' : foldM (fun inner ik => let '(index, key) := ik in inner ← push_data inner (x_only_public_key (keypair key));
        Ok (inner ++ [if (index : Z) =? 0 then xac else xba])) [] (enumerate keys) = Ok inner) by exact Hi.
    rewrite Hi'. run. rewrite Hb. run. eexists. split; [done|]. rewrite len_app. change (len [b; x9c]) with 2. change (len []) with 0 in Hl.
    assert (len (enumerate keys) = len keys) as Hen; [|lia]. unfold len, enumerate. f_equal. generalize 0 at 1. clear. induction keys; intros z; cbn; auto.
  - rewrite Hk. run. destruct (build_ok (E:=E) (fun inner key => push_data inner (public key)) 68 keys [k]) as (inner & Hi & Hl).
    { intros script key Hkey. rewrite Forall_forall in HF. specialize (HF key Hkey).
      destruct (push_data_len (E:=E) script (public key)) as (out & -> & Ho); [lia|]. eexists. split; [done|]. lia. }
    rewrite Hi. run. rewrite Hb. run. eexists. split; [done|]. rewrite len_app. change (len [b; xae]) with 2. change (len [k]) with 1 in Hl. lia.
Qed.

Lemma y_signatures spend case keys items : spend_ok spend -> Forall (fun x => len x <= 80) items ->
  yields no_key (foldG (fun items key => signature ← sign spend case key; mret (items ++ [signature])) items keys)
    (fun out => Forall (fun x => len x <= 80) out /\ len out = len items + len keys).
Proof.
  intros Hs HF. eapply y_mono; [apply (y_fold (fun k out => Forall (fun x => len x <= 80) out /\ len out = len items + Z.of_nat k)) with (k := 0%nat)|].
  - split; [done|lia].
  - intros k out key _ [HFo Hl]. draw (by apply y_sign) as s Hsg. apply y_ret. split; [apply Forall_app; split; [done|]; repeat constructor; lia|].
    rewrite len_app, Hl. unfold len at 2. cbn. lia.
  - cbv beta. intros out [HFo Hl]. split; [done|]. unfold len at 3. lia.
Qed.

Lemma y_multisig : yields no_key multisig (sized 210).
Proof.
  unfold multisig. draw (by apply y_pick) as wrapper Hw. draw (by apply y_below) as d Hd. draw (apply y_repeat, y_key) as keys [Hn HF].
  draw (apply y_below; lia) as r Hr. assert (Hlen : len keys = d + 1) by (unfold len; lia).
  destruct (multisig_script_ok (E:=bytes) wrapper keys (r + 1) HF) as (inner & Hi & Hl); [lia|lia|]. eapply y_pure_bind; [exact Hi|].
  eapply y_bind; [apply y_spend; [done|]|].
  { intros Hbad. by destruct (not_p2wpkh _ Hw). }
  cbv beta. intros spend [Hs _]. draw (apply y_unsigned) as case Hc.
  eapply y_bind with (Q := fun items => Forall (fun x => len x <= 80) items /\ len items <= 4); [|intros items [HFi Hli]; by apply y_solve].
  destruct (is_tapscript wrapper).
  - eapply y_mono; [by apply y_signatures|]. cbv beta. intros out [HFo Hlo]. split; [done|]. rewrite Hlo. unfold len. rewrite length_reverse. cbn. lia.
  - draw (by apply y_chance) as odd _. eapply y_mono; [apply y_signatures; [done|]|].
    + destruct odd; (repeat constructor; unfold len; cbn; lia).
    + cbv beta. intros out [HFo Hlo]. split; [done|]. rewrite Hlo. unfold len. rewrite length_take. cbn. lia.
Qed.

Lemma y_pubkey_hash : yields no_key pay_to_pubkey_hash (sized 210).
Proof.
  unfold pay_to_pubkey_hash. draw (apply y_key) as key Hk. draw (by apply y_below) as d Hd.
  eapply y_bind with (Q := fun r => len r.2 <= 210 /\
    (r.1 = P2wpkh \/ r.1 = P2shP2wpkh -> exists h, r.2 = [x00; x14] ++ h /\ length h = 20%nat)).
  - destruct (p2pkh_ok (E:=bytes) (public key)) as (script & Hs & Hl). destruct (p2wpkh_ok (E:=bytes) (public key)) as (h & Hp & Hh).
    assert (Hlp : len ([x00; x14] ++ h) <= 210) by (unfold len; rewrite length_app, Hh; cbn; lia).
    repeat case_match; (eapply y_pure_bind; [eassumption|]); apply y_ret; cbn [fst snd]; (split; [lia|]); naive_solver.
  - intros [wrapper inner] [Hl Hw]. cbn [fst snd] in Hl, Hw. draw (by apply y_spend) as spend [Hs _]. draw (apply y_unsigned) as case Hc.
    draw (by apply y_sign) as s Hsg. apply y_solve; try done. repeat constructor; lia.
Qed.

Lemma y_key_path : yields no_key taproot_key_path (sized 210).
Proof.
  unfold taproot_key_path. draw (apply y_key) as key Hk. pose proof (length_key_path (x_only_public_key (keypair key))) as Hl.
  eapply y_ensure; [apply Z.eqb_eq; unfold len; by rewrite Hl|]. set (spk := key_path_script _) in *.
  eapply y_bind; [apply y_unsigned|]. intros case [Hfl Ham Hspk Hsig Hwit]. cbn in Hspk.
  draw (by apply y_chance) as annexed _.
  eapply y_bind with (Q := fun o => forall a, o = Some a -> len a <= 210 /\ is_Some (Annex_new a)).
  { destruct annexed; [|by apply y_ret]. draw (by apply y_below) as n Hn. draw (apply y_bytes; lia) as drawn Hdr. apply y_ret.
    intros a [= <-]. split; [rewrite len_cons; lia|apply annex_defined]. }
  intros annex Hann. draw (by apply y_pick) as t Ht. destruct (spending_ok (E:=bytes) case) as (input & output & Htx & _).
  eapply y_pure_bind; [exact Htx|].
  eapply y_bind with (Q := fun _ => True).
  { destruct annex as [a|]; [|by apply y_ret]. destruct (Hann a eq_refl) as [_ [a' Ha]]. eapply y_pure_bind; [by rewrite Ha|]. by apply y_ret. }
  intros committed _. destruct (schnorr_types t Ht) as [ty Hty]. eapply y_pure_bind; [unfold schnorr_type; by rewrite Hty|].
  set (tx := mkTransaction _ _ _ _). destruct (taproot_defined tx 0 [Case.prevout case] committed ty) as [digest Hdg]; [by split|done|].
  eapply y_pure_bind; [by rewrite Hdg|]. destruct (schnorr_ok (E:=bytes) (tap_tweak_keypair (keypair key)) digest t) as (s & Hs & Hls).
  eapply y_pure_bind; [exact Hs|]. apply y_ret. rewrite Hsig, Hwit.
  constructor; cbn; try done; [rewrite Hspk; unfold len; lia|destruct annex; unfold len; cbn; lia|].
  constructor; [lia|]. destruct annex as [a|]; [|constructor]. repeat constructor. by apply Hann.
Qed.

(** Damage keeps a case within its bounds. *)
Lemma flip_ok {E} data index bit : 0 <= index < len data -> exists out, flip (E:=E) data index bit = Ok out /\ len out = len data.
Proof.
  intros Hi. unfold flip. destruct (get_in_range data index Hi) as [b ->]. run. eexists. split; [done|]. unfold len. by rewrite length_insert.
Qed.

Lemma replaced_item case most item data : sized most case -> len data <= most + 1 ->
  sized (most + 1) (with_solution case (case_script_sig case) (<[item := data]> (case_witness case))).
Proof.
  intros [Hz1 Hz2 Hz3 Hz4 Hz5 Hz6] Hd. constructor; cbn; try done; [unfold len in *; by rewrite length_insert|].
  apply Forall_insert; [|done]. eapply Forall_impl; [exact Hz6|]. cbv beta. lia.
Qed.

Lemma y_mutate case : sized 210 case -> yields no_key (mutate case) (sized 211).
Proof.
  intros Hz. unfold mutate.
  assert (Hz1 : sized 211 case) by (destruct Hz; constructor; try done; eapply Forall_impl; [eassumption|]; cbv beta; lia).
  pose proof Hz1 as [Hk1 Hk2 Hk3 Hk4 Hk5 Hk6]. pose proof (len_nonneg (case_witness case)). pose proof (len_nonneg (case_script_sig case)).
  assert (Hitem : forall i, 0 <= i < len (case_witness case) -> exists data, get (case_witness case) i = Some data /\ len data <= 210).
  { intros i Hi. destruct (get_in_range _ _ Hi) as [data Hg]. exists data. split; [done|]. apply (proj1 (Forall_forall _ _) (sz_items _ _ Hz)).
    unfold get in Hg. rewrite (proj2 (Z.leb_le _ _)) in Hg by lia. by eapply list_elem_of_lookup_2. }
  destruct case as [flags spk amount sig w]. cbn [case_flags case_script_pubkey case_amount case_script_sig case_witness] in *.
  draw (by apply y_below) as d Hd.
  destruct (_ && negb (len sig =? 0)) eqn:Hc.
  { apply andb_true_iff in Hc as [_ Hc]. apply negb_true_iff, Z.eqb_neq in Hc. draw (apply y_below; lia) as i Hi. draw (by apply y_below) as b Hb.
    destruct (flip_ok (E:=bytes) sig i b Hi) as (out & Ho & Hl). eapply y_pure_bind; [exact Ho|]. apply y_ret. constructor; cbn; (done || lia). }
  clear Hc. destruct (((d =? 2) || (d =? 3)) && negb (len w =? 0)) eqn:Hc.
  { apply andb_true_iff in Hc as [_ Hc]. apply negb_true_iff, Z.eqb_neq in Hc. draw (apply y_below; lia) as i Hi.
    destruct (Hitem i Hi) as (data & Hg & Hl). eapply y_pure_bind; [by rewrite Hg|].
    eapply y_bind with (Q := fun out => len out <= 211); [|intros out Ho; apply y_ret; by apply (replaced_item _ 210 (Z.to_nat i) out Hz)].
    destruct (Z.eqb_spec (len data) 0); [draw (apply y_u8) as b _; apply y_ret; rewrite len_app; unfold len at 2; cbn; lia|].
    pose proof (len_nonneg data). draw (apply y_below; lia) as j Hj. draw (by apply y_below) as b Hb.
    destruct (flip_ok (E:=bytes) data j b Hj) as (out & Ho & Hlo). eapply y_pure; [exact Ho|]. lia. }
  clear Hc. destruct ((d =? 4) && negb (len w =? 0)) eqn:Hc.
  { apply andb_true_iff in Hc as [_ Hc]. apply negb_true_iff, Z.eqb_neq in Hc. draw (apply y_below; lia) as i Hi.
    destruct (Hitem i Hi) as (data & Hg & Hl). eapply y_pure_bind; [by rewrite Hg|]. draw (by apply y_chance) as shorter _.
    eapply y_bind with (Q := fun out => len out <= 211); [|intros out Ho; apply y_ret; by apply (replaced_item _ 210 (Z.to_nat i) out Hz)].
    destruct shorter; [apply y_ret; unfold len in *; rewrite length_take; lia|]. draw (apply y_u8) as b _. apply y_ret. rewrite len_app. unfold len at 2. cbn. lia. }
  clear Hc. destruct ((d =? 5) && negb (len w =? 0)) eqn:Hc.
  { apply andb_true_iff in Hc as [_ Hc]. apply negb_true_iff, Z.eqb_neq in Hc. draw (apply y_below; lia) as i Hi.
    eapply y_ensure; [apply Z.ltb_lt; lia|]. apply y_ret. constructor; cbn; try done.
    - destruct (Hitem i Hi) as (data & Hg & _). unfold len in *. rewrite length_delete; [lia|].
      unfold get in Hg. rewrite (proj2 (Z.leb_le _ _)) in Hg by lia. by eexists.
    - by apply Forall_delete. }
  destruct (d =? 6).
  - draw (apply y_below; unfold MAX_MONEY; lia) as v Hv. apply y_ret. constructor; cbn; (done || lia).
  - draw (apply y_flags) as f Hf. by apply y_ret.
Qed.

Lemma y_signed_case : yields no_key signed_case (sized 211).
Proof.
  unfold signed_case. draw (by apply y_below) as d Hd. eapply y_bind with (Q := sized 210).
  { repeat case_match; [apply y_hash_puzzle|apply y_check_sig|apply y_multisig|apply y_pubkey_hash|apply y_key_path]. }
  intros case Hz. draw (by apply y_chance) as damaged _. eapply y_bind with (Q := sized 211).
  { destruct damaged; [by apply y_mutate|]. apply y_ret. destruct Hz; constructor; try done. eapply Forall_impl; [eassumption|]; cbv beta; lia. }
  intros case' Hz'. eapply y_pure_bind; [by eapply assert_bounded_ok|]. by apply y_ret.
Qed.
End signed.

(** ** Verdicts and reports *)

Section judged.
Context `{HL : HashLengths} `{EL : EncodingLaws} `{XL : Secp256k1Laws} `{BitcoinCrate} `{CL : CoreLibraryLaws} `{SL : SigningLaws}.

Lemma sized_witness_ok most case : sized most case -> most <= 10001 -> witness_ok (case_flags case) (case_witness case).
Proof.
  intros Hz Hm. destruct Hz as [_ _ _ _ Hn HF]. split.
  - enough (Hw : forall w : list bytes, Forall (fun x => len x <= most) w -> foldr (fun x n => n + 9 + len x) 0 w <= len w * (10 + Z.max 0 most)).
    { specialize (Hw _ HF). unfold witness_size. pose proof (len_nonneg (case_witness case)). nia. }
    clear. induction w as [|x w IH]; intros HF; [done|]. apply Forall_cons in HF as [Hx HF]. specialize (IH HF). cbn [foldr]. rewrite len_cons. lia.
  - intros _. eapply Forall_impl; [exact HF|]. cbv beta. lia.
Qed.

Lemma bitmigo_answers {E} most case : sized most case -> most <= 10001 -> exists b, Case.bitmigo_verdict (E:=E) case = Ok b.
Proof.
  intros Hz Hm. unfold Case.bitmigo_verdict. rewrite (assert_bounded_ok most) by done. run.
  destruct (spending_ok (E:=E) case) as (input & output & -> & Hw). run. set (tx := mkTransaction _ _ _ _).
  rewrite new_precomputed_ok by done. run.
  assert (Hv : verify_input tx 0 [Case.prevout case] (precomputed_of tx [Case.prevout case]) (case_flags case) <> Panic).
  { apply (verify_input_total tx 0 _ _ _ input); try done.
    - apply (sz_flags _ _ Hz).
    - rewrite Hw. by eapply sized_witness_ok. }
  destruct (verify_input _ _ _ _ _); [by eauto..|done].
Qed.

Lemma oracle_answers_case {E} most case : sized most case -> exists b, Case.oracle_verdict (E:=E) case = Ok b.
Proof.
  intros Hz. unfold Case.oracle_verdict. rewrite (assert_bounded_ok most) by done. run.
  destruct (spending_ok (E:=E) case) as (input & output & -> & _). run. set (tx := mkTransaction _ _ _ _).
  pose proof (sz_amount _ _ Hz) as Ha. pose proof (sz_script_pubkey _ _ Hz) as Hk. pose proof (len_nonneg (case_script_pubkey case)).
  unfold oracle_verify. cbn [len length Z.of_nat]. rewrite (proj1 (sz_flags _ _ Hz)). cbn [foldM]. unfold utxo, try_from. cbn [script_pubkey txout_value Case.prevout].
  unfold MAX_MONEY in Ha. rewrite (proj2 (Z.leb_le 0 (len _))), (proj2 (Z.leb_le (len _) u32_max)), (proj2 (Z.leb_le 0 (case_amount _))),
    (proj2 (Z.leb_le (case_amount _) (2 ^ 63 - 1))) by (unfold u32_max; lia). run.
  change (get [Case.prevout case] 0) with (Some (Case.prevout case)). run.
  set (utxos := [] ++ [_]).
  destruct (oracle_answers tx (script_pubkey (Case.prevout case)) (txout_value (Case.prevout case)) utxos 0 (case_flags case)) as [Hv|Hv];
    [by split|done|apply (sz_flags _ _ Hz)|..]; change (0 <? len [Case.prevout case]) with true;
    change (len utxos =? len [Case.prevout case]) with true; run; rewrite Hv; by eauto.
Qed.

(** One case put to both interpreters. *)
Definition judge (case_seed : Z) : outcome bytes (Case * bool * bool) :=
  case ← case_for_seed case_seed;
  bitmigo ← Case.bitmigo_verdict case;
  oracle ← Case.oracle_verdict case;
  Ok (case, bitmigo, oracle).

Definition agree_on (b : bool) (case_seed : Z) : bool :=
  match judge case_seed with Ok (_, bitmigo, oracle) => Bool.eqb bitmigo b && Bool.eqb oracle b | _ => false end.

Definition disagreement (case_seed : Z) : option Mismatch :=
  match judge case_seed with
  | Ok (case, bitmigo, oracle) => if Bool.eqb bitmigo oracle then None else Some (mkMismatch case_seed case bitmigo oracle)
  | _ => None
  end.

(** What a report says of the seeds it covers. *)
Definition report_on (seeds : list Z) : Report :=
  mkReport (len seeds) (len (filter (fun s => agree_on true s = true) seeds)) (len (filter (fun s => agree_on false s = true) seeds))
    (omap (M:=list) disagreement seeds).

Definition seeds_from (seed : Z) (n : nat) : list Z := (fun i => (seed + Z.of_nat i) mod 2 ^ 64) <$> seq 0 n.

Definition answered (case_seed : Z) : Prop := exists answer, judge case_seed = Ok answer.

Lemma seeds_from_S seed n : seeds_from seed (S n) = seeds_from seed n ++ [(seed + Z.of_nat n) mod 2 ^ 64].
Proof. unfold seeds_from. by rewrite seq_S, fmap_app. Qed.

Lemma len_seeds seed n : len (seeds_from seed n) = Z.of_nat n.
Proof. unfold seeds_from, len. by rewrite length_fmap, length_seq. Qed.

Lemma judge_facts s case b o : judge s = Ok (case, b, o) -> agree_on true s = b && o /\ agree_on false s = negb b && negb o /\
  disagreement s = if Bool.eqb b o then None else Some (mkMismatch s case b o).
Proof. unfold agree_on, disagreement. intros ->. by destruct b, o. Qed.

Lemma report_sum seeds : Forall answered seeds ->
  len seeds = rp_agreed_valid (report_on seeds) + rp_agreed_invalid (report_on seeds) + len (rp_mismatches (report_on seeds)).
Proof.
  cbn. induction 1 as [|s seeds [[[case b] o] Hj] _ IH]; [done|]. rewrite !filter_cons. cbn [omap list_omap]. rewrite len_cons, IH.
  destruct (judge_facts _ _ _ _ Hj) as (-> & -> & ->). destruct b, o; cbn; repeat case_decide; rewrite ?len_cons; (done || lia).
Qed.

Lemma compare_ok seeds s : Forall answered seeds -> answered s -> len seeds < u64_max -> compare (report_on seeds) s = Ok (report_on (seeds ++ [s])).
Proof.
  intros HF [[[case b] o] Hj] Hl. pose proof (report_sum seeds HF) as Hsum. pose proof (len_nonneg seeds).
  assert (Hrep : report_on (seeds ++ [s]) = mkReport (len seeds + 1)
    (rp_agreed_valid (report_on seeds) + (if b && o then 1 else 0)) (rp_agreed_invalid (report_on seeds) + (if negb b && negb o then 1 else 0))
    (rp_mismatches (report_on seeds) ++ if Bool.eqb b o then [] else [mkMismatch s case b o])).
  { unfold report_on. rewrite !filter_app, omap_app, !len_app. cbn [omap list_omap]. rewrite !filter_cons, !filter_nil.
    destruct (judge_facts _ _ _ _ Hj) as (-> & -> & ->). by destruct b, o. }
  rewrite Hrep. unfold judge in Hj. unfold compare. destruct (case_for_seed s) as [c| |]; [|done..]. revert Hj. run.
  destruct (Case.bitmigo_verdict c) as [b'| |]; [|done..]. run. destruct (Case.oracle_verdict c) as [o'| |]; [|done..]. run. intros [= -> -> ->].
  assert (Hu : forall x, 0 <= x <= u64_max -> u64 (E:=bytes) x = Ok x) by (intros x Hx; unfold u64; by rewrite (proj2 (Z.leb_le 0 x)), (proj2 (Z.leb_le x _)) by lia).
  pose proof (len_nonneg (rp_mismatches (report_on seeds))). cbn [report_on rp_compared rp_agreed_valid rp_agreed_invalid rp_mismatches] in *.
  pose proof (len_nonneg (filter (fun s => agree_on true s = true) seeds)). pose proof (len_nonneg (filter (fun s => agree_on false s = true) seeds)).
  rewrite Hu by lia. run. destruct b, o; cbn [andb negb Bool.eqb]; rewrite ?Hu by lia; run; by rewrite ?Z.add_0_r, ?app_nil_r.
Qed.

Lemma compare_loop_ok seed room : forall k, (forall i, (i < k + room)%nat -> answered ((seed + Z.of_nat i) mod 2 ^ 64)) ->
  Z.of_nat (k + room) <= u64_max -> len (omap (M:=list) disagreement (seeds_from seed k)) < MISMATCHES_MAX ->
  exists n, (k <= n <= k + room)%nat /\ compare_loop room seed (Z.of_nat k) (report_on (seeds_from seed k)) = Ok (report_on (seeds_from seed n)) /\
    (n = (k + room)%nat /\ len (omap (M:=list) disagreement (seeds_from seed n)) <= MISMATCHES_MAX \/
     len (omap (M:=list) disagreement (seeds_from seed n)) = MISMATCHES_MAX).
Proof.
  induction room as [|room IH]; intros k Ha Hu Hm; cbn [compare_loop].
  { exists k. split; [lia|]. split; [done|]. left. split; [lia|]. lia. }
  rewrite compare_ok.
  - run. rewrite <-seeds_from_S. cbn [report_on rp_mismatches].
    assert (Hstep : len (omap (M:=list) disagreement (seeds_from seed (S k))) <= MISMATCHES_MAX).
    { rewrite seeds_from_S, omap_app, len_app. cbn [omap list_omap]. destruct (disagreement _); unfold len at 2; cbn; lia. }
    destruct (Z.leb_spec MISMATCHES_MAX (len (omap (M:=list) disagreement (seeds_from seed (S k))))).
    + exists (S k). split; [lia|]. split; [done|]. right. lia.
    + destruct (IH (S k)) as (n & Hn & Hr & Hend); [intros i Hi; apply Ha; lia|lia|lia|]. exists n. split; [lia|].
      replace (Z.of_nat k + 1) with (Z.of_nat (S k)) by lia. split; [exact Hr|].
      replace (k + S room)%nat with (S k + room)%nat by lia. exact Hend.
  - unfold seeds_from. apply Forall_fmap, Forall_forall. intros i Hi. apply Ha. apply elem_of_seq in Hi. lia.
  - apply Ha. lia.
  - rewrite len_seeds. lia.
Qed.

(**  A report is what happened.  If both interpreters answer on every seed of the run, the
    run returns, its own checks hold, and the report covers the first [n] seeds in order: it
    counts those on which the two agree, each way, and holds exactly the cases on which they do
    not, with the seeds that rebuild them; and [n] is the number of iterations asked for unless
    the sixteenth disagreement came first. *)
Theorem fuzz_report_exact seed iterations : 0 <= iterations <= u64_max ->
  (forall i, 0 <= i < iterations -> answered ((seed + i) mod 2 ^ 64)) ->
  exists n, fuzz_run seed iterations = Ok (report_on (seeds_from seed n)) /\ Z.of_nat n <= iterations /\
    (Z.of_nat n = iterations \/ len (omap (M:=list) disagreement (seeds_from seed n)) = MISMATCHES_MAX) /\
    len (omap (M:=list) disagreement (seeds_from seed n)) <= MISMATCHES_MAX.
Proof.
  intros Hi Ha. assert (Ha' : forall i, (i < 0 + Z.to_nat iterations)%nat -> answered ((seed + Z.of_nat i) mod 2 ^ 64)) by (intros i Hlt; apply Ha; lia).
  destruct (compare_loop_ok seed (Z.to_nat iterations) 0 Ha') as (n & Hn & Hrun & Hend); [lia|done|]. exists n.
  assert (HF : Forall answered (seeds_from seed n)).
  { unfold seeds_from. apply Forall_fmap, Forall_forall. intros i Hin. apply Ha'. apply elem_of_seq in Hin. lia. }
  pose proof (report_sum _ HF) as Hsum. rewrite len_seeds in Hsum. split_and!; [|lia|naive_solver lia|naive_solver lia].
  unfold fuzz_run. change (report_on (seeds_from seed 0)) with default_report in Hrun. change (Z.of_nat 0) with 0 in Hrun. rewrite Hrun. run.
  pose proof (len_nonneg (rp_mismatches (report_on (seeds_from seed n)))). cbn [report_on rp_compared rp_agreed_valid rp_agreed_invalid rp_mismatches] in *.
  rewrite len_seeds, (proj2 (Z.leb_le _ iterations)) by lia. run.
  set (valid := len (filter (fun s => agree_on true s = true) _)) in *.
  set (invalid := len (filter (fun s => agree_on false s = true) _)) in *. set (bad := len (omap _ _)) in *.
  assert (0 <= valid /\ 0 <= invalid) as [Hv1 Hv2] by (split; apply len_nonneg).
  unfold u64, try_from. rewrite (proj2 (Z.leb_le 0 (valid + invalid))), (proj2 (Z.leb_le (valid + invalid) u64_max)) by lia. run.
  rewrite (proj2 (Z.leb_le 0 bad)), (proj2 (Z.leb_le bad u64_max)) by lia. run.
  rewrite (proj2 (Z.leb_le 0 (valid + invalid + bad))), (proj2 (Z.leb_le (valid + invalid + bad) u64_max)) by lia. run.
  rewrite Hsum, Z.eqb_refl. reflexivity.
Qed.

End judged.

(** ** Concrete libraries *)

(** Keys are their bytes, every signature is the same and every digest is zero. *)
Definition toy_signing : Signing := {|
  SecretKey := bytes; Keypair := bytes; Signature := bytes; TaprootSpendInfo := bytes;
  SecretKey_from_slice k := if (0 <? be_val k) && (be_val k <? order) then Some k else None;
  keypair_of k := k;
  public_key k compressed := pad (if compressed then 33 else 65) k;
  x_only_public_key k := pad 32 k;
  tap_tweak_keypair k := k;
  sign_ecdsa _ _ := be_bytes 32 1 ++ be_bytes 32 1;
  serialize_compact s := pad 64 s;
  from_compact c := Some c;
  serialize_der s := pad 70 s;
  sign_schnorr _ _ := pad 64 [];
  EcdsaSighashType_from_consensus t := t;
  TapSighashType_from_consensus t := Some t;
  legacy_signature_hash _ _ _ _ := Some (pad 32 []);
  p2wsh_signature_hash _ _ _ _ _ := Some (pad 32 []);
  p2wpkh_signature_hash _ _ _ _ _ := Some (pad 32 []);
  taproot_script_spend_signature_hash _ _ _ _ _ := Some (pad 32 []);
  taproot_signature_hash _ _ _ _ _ := Some (pad 32 []);
  tap_leaf_of_script s := pad 32 s;
  Annex_new b := Some b;
  one_leaf_tree internal _ := Some internal;
  output_script info := pad 34 ([x51; x20] ++ info);
  key_path_script x := pad 34 ([x51; x20] ++ x);
  control_block info _ := Some (pad 33 (xc0 :: info));
|}.

Lemma toy_signing_laws : @SigningLaws toy_signing.
Proof.
  constructor; try done; try (intros; apply length_pad); try (intros; eexists; reflexivity).
  - intros s. cbn. rewrite length_pad. lia.
  - intros internal inner. eexists _, _. split_and!; [done|apply length_pad|done|apply length_pad].
Qed.

(** A library that accepts an empty script and nothing else. *)
Definition toy_core : CoreLibrary := {|
  serialize_tx _ := [];
  verify_with_flags script _ _ _ _ _ := if len script =? 0 then inr tt else inl ERR_SCRIPT;
|}.

Lemma toy_core_laws : @CoreLibraryLaws toy_core.
Proof. intros tx script amount utxos index flags _ _ _. cbn. destruct (len script =? 0); auto. Qed.

#[local] Existing Instances prefix_hashes prefix_hash_lengths simple_encoding simple_encoding_laws toy_secp toy_secp_laws
  toy_signing toy_signing_laws toy_core toy_core_laws.
#[local] Instance witness_crate : BitcoinCrate := constant_crate [].


(** Three cases from the first seed. *)
Lemma fuzz_report_exact_witness : exists n, fuzz_run 1 3 = Ok (report_on (seeds_from 1 n)) /\ Z.of_nat n <= 3 /\
  (Z.of_nat n = 3 \/ len (omap (M:=list) disagreement (seeds_from 1 n)) = MISMATCHES_MAX) /\
  len (omap (M:=list) disagreement (seeds_from 1 n)) <= MISMATCHES_MAX.
Proof.
  apply (fuzz_report_exact 1 3); [vm_compute; split; discriminate|].
  intros i Hi. assert (Hcases : i = 0 \/ i = 1 \/ i = 2) by lia.
  destruct Hcases as [->|[->| ->]]; (eexists; vm_compute; reflexivity).
Defined.

(** [parse_fuzz_args] says each option is given once; given twice, the last one counts. *)
Lemma repeated_option : parse_fuzz_args ["--seed"; "1"; "--seed"; "2"]%string = Ok (2, ITERATIONS_DEFAULT).
Proof. reflexivity. Qed.
