(* ===== verification/Corpus.v ===== *)
(** * Corpus: Core's script assets ([crates/differential])

    [differential/src/json.rs] and [differential/src/assets.rs]: the reader of JSON values and the
    replay of [script_assets_test.json], one record at a time, under every combination of the
    consensus flags.  A [String] is its bytes.  Hexadecimal and the consensus decoding of
    transactions are [rust-bitcoin]'s. *)
From Stdlib Require Import String Ascii.
From S2P Require Import Prelude Bitcoin Flags Params Sighash SighashProofs Checker Verify VerifyProofs VerifySafety Fuzz.

(** ** [json.rs] *)

(** A literal of the source as bytes. *)
Fixpoint text (s : string) : bytes :=
  match s with EmptyString => [] | String c s => Ascii.byte_of_ascii c :: text s end.

Inductive Json :=
| Str (s : bytes)
| Number (z : Z)
| Bool (b : bool)
| Null
| Array (items : list Json)
| Object (fields : list (bytes * Json)).

Inductive Frame :=
| FArray (items : list Json)
| FObject (fields : list (bytes * Json)) (key : option bytes).

(** [str::from_utf8]. *)
Definition byte_within (lo hi : Z) (b : byte) : bool := (lo <=? bz b) && (bz b <=? hi).
Fixpoint utf8 (l : bytes) : bool :=
  match l with
  | [] => true
  | b0 :: l1 =>
      if byte_within 0 0x7f b0 then utf8 l1
      else match l1 with
      | [] => false
      | b1 :: l2 =>
          if byte_within 0xc2 0xdf b0 then byte_within 0x80 0xbf b1 && utf8 l2
          else match l2 with
          | [] => false
          | b2 :: l3 =>
              if byte_within 0xe0 0xef b0 then
                (if byte_within 0xe0 0xe0 b0 then byte_within 0xa0 0xbf b1
                 else if byte_within 0xed 0xed b0 then byte_within 0x80 0x9f b1 else byte_within 0x80 0xbf b1) &&
                byte_within 0x80 0xbf b2 && utf8 l3
              else match l3 with
              | [] => false
              | b3 :: l4 =>
                  byte_within 0xf0 0xf4 b0 &&
                  (if byte_within 0xf0 0xf0 b0 then byte_within 0x90 0xbf b1
                   else if byte_within 0xf4 0xf4 b0 then byte_within 0x80 0x8f b1 else byte_within 0x80 0xbf b1) &&
                  byte_within 0x80 0xbf b2 && byte_within 0x80 0xbf b3 && utf8 l4
              end
          end
      end
  end.

(** [u8::is_ascii_whitespace] and [u8::is_ascii_digit]. *)
Definition is_space (b : byte) : bool := byte_within 32 32 b || byte_within 9 10 b || byte_within 12 13 b.
Definition is_digit (b : byte) : bool := byte_within 48 57 b.

(** [while bytes.get(position).is_some_and(p) { position += 1 }]. *)
Fixpoint skip_while (room : nat) (p : byte -> bool) (bs : bytes) (position : Z) : Z :=
  match room with
  | O => position
  | S room =>
      match get bs position with
      | Some b => if p b then skip_while room p bs (position + 1) else position
      | None => position
      end
  end.

Definition skip_whitespace (bs : bytes) (position : Z) : outcome bytes Z :=
  let position := skip_while (length bs) is_space bs position in
  assert_ (position <=? len bs);;
  Ok position.

Fixpoint string_loop (room : nat) (bs : bytes) (cursor : Z) (chars : bytes) : outcome bytes (bytes * Z) :=
  match room with
  | O => Panic
  | S room =>
      b ← expect (get bs cursor);
      let cursor := cursor + 1 in
      if bool_decide (b = x22) then assert_ (utf8 chars);; Ok (chars, cursor)
      else if bool_decide (b = x5c) then
        escaped ← expect (get bs cursor);
        assert_ (bool_decide (escaped ∈ [x22; x5c; x2f]));;
        string_loop room bs (cursor + 1) (chars ++ [escaped])
      else string_loop room bs cursor (chars ++ [b])
  end.

Definition read_string (bs : bytes) (position : Z) : outcome bytes (bytes * Z) :=
  assert_ (bool_decide (get bs position = Some x22));;
  let remaining := len bs - position in
  string_loop (Z.to_nat (remaining + 1)) bs (position + 1) [].

Definition read_literal (bs : bytes) (position : Z) (literal : bytes) (value : Json) : outcome bytes (option Json * Z) :=
  let end_ := position + len literal in
  assert_ (bool_decide (slice bs position end_ = Some literal));;
  Ok (Some value, end_).

(** [str::parse::<i64>] on bytes: the digits are accumulated towards the sign, checked. *)
Definition in_i64 (z : Z) : bool := (- 2 ^ 63 <=? z) && (z <=? 2 ^ 63 - 1).
Fixpoint digits_i64 (sign acc : Z) (ds : bytes) : option Z :=
  match ds with
  | [] => Some acc
  | d :: ds =>
      if is_digit d && in_i64 (acc * 10) && in_i64 (acc * 10 + sign * (bz d - 48))
      then digits_i64 sign (acc * 10 + sign * (bz d - 48)) ds else None
  end.
Definition parse_i64 (s : bytes) : option Z :=
  match s with
  | [] | [x2b] | [x2d] => None
  | x2d :: ds => digits_i64 (-1) 0 ds
  | x2b :: ds => digits_i64 1 0 ds
  | ds => digits_i64 1 0 ds
  end.

Definition read_number (bs : bytes) (position : Z) : outcome bytes (option Json * Z) :=
  let end_ := skip_while (length bs) is_digit bs (position + 1) in
  assert_ (match get bs end_ with Some b => negb (bool_decide (b ∈ [x2e; x65; x45])) | None => true end);;
  chars ← expect (slice bs position end_);
  assert_ (utf8 chars);;
  number ← expect (parse_i64 chars);
  Ok (Some (Number number), end_).

(** [read_token]; the top of the stack is its head. *)
Definition read_token (bs : bytes) (position : Z) (stack : list Frame) : outcome bytes (option Json * Z * list Frame) :=
  b ← expect (get bs position);
  if bool_decide (b = x5b) then Ok (None, position + 1, FArray [] :: stack)
  else if bool_decide (b = x7b) then Ok (None, position + 1, FObject [] None :: stack)
  else if bool_decide (b = x5d) then
    match stack with FArray items :: stack => Ok (Some (Array items), position + 1, stack) | _ => Panic end
  else if bool_decide (b = x7d) then
    match stack with FObject fields None :: stack => Ok (Some (Object fields), position + 1, stack) | _ => Panic end
  else if bool_decide (b ∈ [x2c; x3a]) then Ok (None, position + 1, stack)
  else if bool_decide (b = x22) then
    '(chars, next) ← read_string bs position;
    match stack with
    | FObject fields None :: stack => Ok (None, next, FObject fields (Some chars) :: stack)
    | _ => Ok (Some (Str chars), next, stack)
    end
  else
    '(value, next) ← (if bool_decide (b = x74) then read_literal bs position (text "true") (Bool true)
      else if bool_decide (b = x66) then read_literal bs position (text "false") (Bool false)
      else if bool_decide (b = x6e) then read_literal bs position (text "null") Null
      else if bool_decide (b = x2d) || is_digit b then read_number bs position
      else Panic);
    Ok (value, next, stack).

Fixpoint parse_loop (room : nat) (bs : bytes) (position : Z) (stack : list Frame) : outcome bytes (Json * Z) :=
  match room with
  | O => Panic
  | S room =>
      '(token, next, stack) ← read_token bs position stack;
      assert_ (position <? next);;
      match token with
      | None => position ← skip_whitespace bs next; parse_loop room bs position stack
      | Some value =>
          match stack with
          | [] => Ok (value, next)
          | FArray items :: stack =>
              position ← skip_whitespace bs next; parse_loop room bs position (FArray (items ++ [value]) :: stack)
          | FObject fields None :: _ => Panic
          | FObject fields (Some key) :: stack =>
              position ← skip_whitespace bs next; parse_loop room bs position (FObject (fields ++ [(key, value)]) None :: stack)
          end
      end
  end.

Definition parse_at (bs : bytes) (position : Z) : outcome bytes (Json * Z) :=
  start ← skip_whitespace bs position;
  parse_loop (Z.to_nat (len bs - start + 1)) bs start [].

Definition parse (bs : bytes) : outcome bytes Json :=
  '(value, end_) ← parse_at bs 0;
  end_ ← skip_whitespace bs end_;
  assert_ (end_ =? len bs);;
  Ok value.

Definition field (self : Json) (key : bytes) : outcome bytes (option Json) :=
  match self with
  | Object fields => Ok (snd <$> (snd <$> list_find (fun f : bytes * Json => f.1 = key) fields))
  | _ => Panic
  end.
Definition get_field (self : Json) (key : bytes) : outcome bytes Json := value ← field self key; expect value.
Definition as_array (self : Json) : outcome bytes (list Json) := match self with Array items => Ok items | _ => Panic end.
Definition as_str (self : Json) : outcome bytes bytes := match self with Str s => Ok s | _ => Panic end.
Definition as_i64 (self : Json) : outcome bytes Z := match self with Number z => Ok z | _ => Panic end.
Definition as_bool (self : Json) : outcome bytes bool := match self with Bool b => Ok b | _ => Panic end.

(** ** [assets.rs] *)

Definition RECORDS_MAX : Z := 50000000.

Record Summary := mkSummary { records : Z; success_checks : Z; failure_checks : Z }.

Record AssetRecord := mkRecord {
  rec_tx : Transaction;
  rec_prevouts : list TxOut;
  rec_index : Z;
  rec_flags : ScriptFlags.ScriptFlags;
  rec_final : bool;
  rec_comment : bytes;
}.

Record SpendPath := mkPath { path_script_sig : bytes; path_witness : list bytes }.

(** [bitcoin::hex] and [bitcoin::consensus::deserialize]. *)
Class Decoding := {
  from_hex : bytes -> option bytes;
  deserialize_tx : bytes -> option Transaction;
  deserialize_txout : bytes -> option TxOut;
}.

(** The combination of a mask. *)
Definition flags_of_mask (mask : Z) : ScriptFlags.ScriptFlags :=
  foldl (fun flags '(bit, flag) => if negb (Z.land mask (Z.shiftl 1 bit) =? 0) then ScriptFlags.union flags flag else flags)
    ScriptFlags.NONE (enumerate FLAGS).

Definition all_consensus_flags : outcome bytes (list ScriptFlags.ScriptFlags) :=
  let combinations := foldl (fun combinations mask =>
    let flags := flags_of_mask mask in
    if ScriptFlags.contains flags ScriptFlags.WITNESS && negb (ScriptFlags.contains flags ScriptFlags.P2SH) then combinations
    else if ScriptFlags.contains flags ScriptFlags.TAPROOT && negb (ScriptFlags.contains flags ScriptFlags.WITNESS) then combinations
    else combinations ++ [flags]) [] (Z.of_nat <$> seq 0 128) in
  assert_ (len combinations =? 64);;
  Ok combinations.

(** [text.split(',')]. *)
Fixpoint split_commas (s current : bytes) : list bytes :=
  match s with
  | [] => [current]
  | c :: s => if bool_decide (c = x2c) then current :: split_commas s [] else split_commas s (current ++ [c])
  end.

Definition NAMES : list (bytes * ScriptFlags.ScriptFlags) :=
  [(text "P2SH", ScriptFlags.P2SH); (text "DERSIG", ScriptFlags.DERSIG); (text "NULLDUMMY", ScriptFlags.NULLDUMMY);
   (text "CHECKLOCKTIMEVERIFY", ScriptFlags.CHECKLOCKTIMEVERIFY); (text "CHECKSEQUENCEVERIFY", ScriptFlags.CHECKSEQUENCEVERIFY);
   (text "WITNESS", ScriptFlags.WITNESS); (text "TAPROOT", ScriptFlags.TAPROOT)].

Definition parse_flags (s : bytes) : outcome bytes ScriptFlags.ScriptFlags :=
  foldM (fun flags name =>
    known ← expect (list_find (fun known : bytes * _ => known.1 = name) NAMES);
    Ok (ScriptFlags.union flags known.2.2))
    ScriptFlags.NONE (filter (fun name => name <> []) (split_commas s [])).

Section assets.
Context `{Hashes} `{BitcoinCrate} `{Encoding} `{Secp256k1} `{CoreLibrary} `{Decoding}.

Definition hex (json : Json) : outcome bytes bytes := s ← as_str json; expect (from_hex s).

(** [iter().map(f).collect()] for an [f] that may panic. *)
Definition collect {A B} (f : A -> outcome bytes B) (l : list A) : outcome bytes (list B) :=
  foldM (fun out x => y ← f x; Ok (out ++ [y])) [] l.

(** [deserialize(&hex(json)).expect(..)]. *)
Definition decode_with {A} (deserialize : bytes -> option A) (json : Json) : outcome bytes A :=
  b ← hex json; expect (deserialize b).

Definition decode_record (json : Json) : outcome bytes AssetRecord :=
  value ← get_field json (text "tx");
  tx ← decode_with deserialize_tx value;
  value ← get_field json (text "prevouts");
  items ← as_array value;
  prevouts ← collect (decode_with deserialize_txout) items;
  assert_ (len prevouts =? len (tx_input tx));;
  value ← get_field json (text "index");
  number ← as_i64 value;
  index ← expect (try_from u64_max number);
  assert_ (index <? len (tx_input tx));;
  value ← get_field json (text "flags");
  names ← as_str value;
  flags ← parse_flags names;
  final ← field json (text "final");
  is_final ← match final with Some value => as_bool value | None => Ok false end;
  value ← get_field json (text "comment");
  comment ← as_str value;
  Ok (mkRecord tx prevouts index flags is_final comment).

Definition decode_path (json : Json) : outcome bytes SpendPath :=
  value ← get_field json (text "witness");
  items ← as_array value;
  witness ← collect hex items;
  value ← get_field json (text "scriptSig");
  script_sig ← hex value;
  Ok (mkPath script_sig witness).

Definition spend_with (input : TxIn) (path : SpendPath) : TxIn :=
  mkTxIn (previous_output input) (path_script_sig path) (sequence input) (path_witness path).

Definition verdicts (record : AssetRecord) (path : SpendPath) (flags : ScriptFlags.ScriptFlags) : outcome bytes (bool * bool) :=
  let tx := rec_tx record in
  input ← expect (get (tx_input tx) (rec_index record));
  let tx := mkTransaction (tx_version tx) (tx_lock_time tx)
    (<[Z.to_nat (rec_index record) := spend_with input path]> (tx_input tx)) (tx_output tx) in
  precomputed ← new_precomputed tx (rec_prevouts record);
  bitmigo ← match verify_input tx (rec_index record) (rec_prevouts record) precomputed flags with
            | Ok _ => Ok true | Err _ => Ok false | Panic => Panic end;
  core ← oracle_verify (serialize_tx tx) (rec_index record) (rec_prevouts record) flags;
  Ok (bitmigo, core).

(** One combination: the checks made so far. *)
Definition check_flags (record : AssetRecord) (success failure : option SpendPath) (checks : Z * Z) (flags : ScriptFlags.ScriptFlags)
    : outcome bytes (Z * Z) :=
  checks ← match success with
    | Some path =>
        if rec_final record || ScriptFlags.is_subset_of flags (rec_flags record) then
          '(bitmigo, _) ← verdicts record path flags;
          assert_ bitmigo;;
          count ← u64 (checks.1 + 1);
          Ok (count, checks.2)
        else Ok checks
    | None => Ok checks
    end;
  match failure with
  | Some path =>
      if ScriptFlags.contains flags (rec_flags record) then
        '(bitmigo, _) ← verdicts record path flags;
        assert_ (negb bitmigo);;
        count ← u64 (checks.2 + 1);
        Ok (checks.1, count)
      else Ok checks
  | None => Ok checks
  end.

Definition decode_optional (json : Json) (key : bytes) : outcome bytes (option SpendPath) :=
  value ← field json key;
  match value with Some json => path ← decode_path json; Ok (Some path) | None => Ok None end.

Definition run_record (json : Json) (combinations : list ScriptFlags.ScriptFlags) : outcome bytes (Z * Z) :=
  record ← decode_record json;
  success ← decode_optional json (text "success");
  failure ← decode_optional json (text "failure");
  assert_ (bool_decide (is_Some success) || bool_decide (is_Some failure));;
  foldM (check_flags record success failure) (0, 0) combinations.

(** [skip_separators]: past whitespace and at most one comma. *)
Fixpoint separators_loop (room : nat) (bs : bytes) (position commas : Z) : outcome bytes Z :=
  match room with
  | O => Ok position
  | S room =>
      match get bs position with
      | None => Ok position
      | Some b =>
          if bool_decide (b = x2c) then assert_ (commas + 1 <=? 1);; separators_loop room bs (position + 1) (commas + 1)
          else if negb (is_space b) then Ok position
          else separators_loop room bs (position + 1) commas
      end
  end.
Definition skip_separators (bs : bytes) (position : Z) : outcome bytes Z := separators_loop (length bs) bs position 0.

Definition skip_to_first_record (bs : bytes) : outcome bytes Z :=
  let position := skip_while (length bs) is_space bs 0 in
  assert_ (bool_decide (get bs position = Some x5b));;
  skip_separators bs (position + 1).

(** The summary with one record more. *)
Definition add_record (combinations : list ScriptFlags.ScriptFlags) (summary : Summary) (record : Json) : outcome bytes Summary :=
  '(success, failure) ← run_record record combinations;
  count ← u64 (records summary + 1);
  successes ← u64 (success_checks summary + success);
  failures ← u64 (failure_checks summary + failure);
  Ok (mkSummary count successes failures).

(** [for _ in 0..RECORDS_MAX]: [count] records have been run, and [room] is more than there are
    bytes left. *)
Fixpoint corpus_loop (room : nat) (combinations : list ScriptFlags.ScriptFlags) (bs : bytes) (position count : Z) (summary : Summary)
    : outcome bytes Summary :=
  match room with
  | O => Panic
  | S room =>
      if RECORDS_MAX <=? count then Panic
      else if bool_decide (get bs position = Some x5d) then Ok summary
      else
        '(record, next) ← parse_at bs position;
        assert_ (position <? next);;
        summary ← add_record combinations summary record;
        position ← skip_separators bs next;
        corpus_loop room combinations bs position (count + 1) summary
  end.

Definition run_corpus (bs : bytes) : outcome bytes Summary :=
  combinations ← all_consensus_flags;
  position ← skip_to_first_record bs;
  corpus_loop (S (length bs)) combinations bs position 0 (mkSummary 0 0 0).
End assets.

(** ** The grammar *)

Definition spaces (w : bytes) : Prop := Forall (fun b => is_space b = true) w.

(** The characters of a string, each written plainly or, for three of them, after a backslash. *)
Inductive chars_of : bytes -> bytes -> Prop :=
| C_nil : chars_of [] []
| C_plain b s t : b <> x22 -> b <> x5c -> chars_of s t -> chars_of (b :: s) (b :: t)
| C_escape b s t : b ∈ [x22; x5c; x2f] -> chars_of s t -> chars_of (b :: s) (x5c :: b :: t).

Definition string_of (s t : bytes) : Prop := exists t', t = x22 :: t' ++ [x22] /\ chars_of s t' /\ utf8 s = true.

Definition decimal (ds : bytes) : Z := foldl (fun n d => n * 10 + (bz d - 48)) 0 ds.

Inductive numeral_of : Z -> bytes -> Prop :=
| N_plain ds : ds <> [] -> Forall (fun d => is_digit d = true) ds -> in_i64 (decimal ds) = true -> numeral_of (decimal ds) ds
| N_minus ds : ds <> [] -> Forall (fun d => is_digit d = true) ds -> in_i64 (- decimal ds) = true -> numeral_of (- decimal ds) (x2d :: ds).

(** The texts of a value, of the items of an array and of the fields of an object, with any white
    space where JSON allows it. *)
Inductive text_of : Json -> bytes -> Prop :=
| T_str s t : string_of s t -> text_of (Str s) t
| T_number z t : numeral_of z t -> text_of (Number z) t
| T_bool b : text_of (Bool b) (if b then text "true" else text "false")
| T_null : text_of Null (text "null")
| T_array items t : items_of items t -> text_of (Array items) (x5b :: t ++ [x5d])
| T_object fields t : fields_of fields t -> text_of (Object fields) (x7b :: t ++ [x7d])
with items_of : list Json -> bytes -> Prop :=
| I_none w : spaces w -> items_of [] w
| I_one w v t w' : spaces w -> text_of v t -> spaces w' -> items_of [v] (w ++ t ++ w')
| I_more w v t w' items t' : spaces w -> text_of v t -> spaces w' -> items_of items t' -> items <> [] ->
    items_of (v :: items) (w ++ t ++ w' ++ x2c :: t')
with fields_of : list (bytes * Json) -> bytes -> Prop :=
| F_none w : spaces w -> fields_of [] w
| F_one w f t w' : spaces w -> field_of f t -> spaces w' -> fields_of [f] (w ++ t ++ w')
| F_more w f t w' fields t' : spaces w -> field_of f t -> spaces w' -> fields_of fields t' -> fields <> [] ->
    fields_of (f :: fields) (w ++ t ++ w' ++ x2c :: t')
with field_of : bytes * Json -> bytes -> Prop :=
| F_field k tk w w' v t : string_of k tk -> spaces w -> spaces w' -> text_of v t ->
    field_of (k, v) (tk ++ w ++ x3a :: w' ++ t).

Scheme text_of_mut := Minimality for text_of Sort Prop
  with items_of_mut := Minimality for items_of Sort Prop
  with fields_of_mut := Minimality for fields_of Sort Prop
  with field_of_mut := Minimality for field_of Sort Prop.
Combined Scheme json_mutind from text_of_mut, items_of_mut, fields_of_mut, field_of_mut.

(** ** Reading what the grammar writes *)

Lemma get_mid {A} (pre : list A) x rest : get (pre ++ x :: rest) (len pre) = Some x.
Proof. unfold get, len. rewrite (proj2 (Z.leb_le _ _)) by lia. rewrite Nat2Z.id. by apply list_lookup_middle. Qed.

Lemma len_push {A} (l : list A) x : len (l ++ [x]) = len l + 1.
Proof. by rewrite len_app. Qed.

Lemma get_past {A} (pre : list A) : get pre (len pre) = None.
Proof. unfold get, len. rewrite (proj2 (Z.leb_le _ _)) by lia. rewrite Nat2Z.id. by apply lookup_ge_None_2. Qed.

(** [p] is false of the first byte, if there is one. *)
Definition stops (p : byte -> bool) (rest : bytes) : Prop := match rest with b :: _ => p b = false | [] => True end.

Lemma skip_while_ok p w : forall room pre rest, (length w <= room)%nat -> Forall (fun b => p b = true) w -> stops p rest ->
  skip_while room p (pre ++ w ++ rest) (len pre) = len pre + len w.
Proof.
  induction w as [|b w IH]; intros room pre rest Hr HF Hs.
  - cbn [app]. change (len (@nil byte)) with 0. rewrite Z.add_0_r. destruct room as [|room]; [done|]. cbn [skip_while].
    destruct rest as [|b rest]; [by rewrite app_nil_r, get_past|]. rewrite get_mid. cbn in Hs. by rewrite Hs.
  - apply Forall_cons in HF as [Hb HF]. destruct room as [|room]; [cbn in Hr; lia|]. cbn [skip_while app]. rewrite get_mid, Hb.
    replace (pre ++ b :: w ++ rest) with ((pre ++ [b]) ++ w ++ rest) by by rewrite <-app_assoc.
    replace (len pre + 1) with (len (pre ++ [b])) by by rewrite len_app. rewrite IH; [|cbn in Hr; lia|done..].
    rewrite len_push, len_cons. lia.
Qed.

Lemma skip_spaces_ok pre w rest : spaces w -> stops is_space rest -> skip_whitespace (pre ++ w ++ rest) (len pre) = Ok (len pre + len w).
Proof.
  intros Hw Hs. unfold skip_whitespace. rewrite skip_while_ok by (done || (rewrite !length_app; lia)).
  rewrite (proj2 (Z.leb_le _ _)); [done|]. rewrite !len_app. pose proof (len_nonneg rest). lia.
Qed.

Lemma string_loop_ok s t : chars_of s t -> forall room pre rest acc, (length t < room)%nat -> utf8 (acc ++ s) = true ->
  string_loop room (pre ++ t ++ x22 :: rest) (len pre) acc = Ok (acc ++ s, len pre + len t + 1).
Proof.
  induction 1 as [|b s t Hq He _ IH|b s t Hb _ IH]; intros [|room] pre rest acc Hr Hu; try (cbn in Hr; lia); cbn [string_loop app].
  - rewrite get_mid. run. rewrite app_nil_r in Hu |- *. rewrite bool_decide_eq_true_2, Hu by done. run. change (len (@nil byte)) with 0. by rewrite Z.add_0_r.
  - rewrite get_mid. run. rewrite !bool_decide_eq_false_2 by done.
    replace (pre ++ b :: t ++ x22 :: rest) with ((pre ++ [b]) ++ t ++ x22 :: rest) by by rewrite <-app_assoc.
    replace (len pre + 1) with (len (pre ++ [b])) by by rewrite len_app.
    rewrite IH; [|cbn in Hr; lia|by rewrite <-app_assoc]. rewrite <-app_assoc, len_push, len_cons.
    f_equal. f_equal. lia.
  - rewrite get_mid. run. rewrite bool_decide_eq_false_2, bool_decide_eq_true_2 by done.
    replace (pre ++ x5c :: b :: t ++ x22 :: rest) with ((pre ++ [x5c]) ++ b :: t ++ x22 :: rest) by by rewrite <-app_assoc.
    replace (len pre + 1) with (len (pre ++ [x5c])) by by rewrite len_app. rewrite get_mid. run. rewrite bool_decide_eq_true_2 by done. run.
    replace ((pre ++ [x5c]) ++ b :: t ++ x22 :: rest) with ((pre ++ [x5c; b]) ++ t ++ x22 :: rest) by by rewrite <-!app_assoc.
    replace (len (pre ++ [x5c]) + 1) with (len (pre ++ [x5c; b])) by (rewrite !len_app; unfold len; cbn; lia).
    rewrite IH; [|cbn in Hr; lia|by rewrite <-app_assoc]. rewrite <-app_assoc, len_app, !len_cons. change (len (@nil byte)) with 0.
    f_equal. f_equal. lia.
Qed.

Lemma read_string_ok s t pre rest : string_of s t -> read_string (pre ++ t ++ rest) (len pre) = Ok (s, len pre + len t).
Proof.
  intros (t' & -> & Hc & Hu). unfold read_string. cbn [app]. rewrite get_mid, bool_decide_eq_true_2 by done. run.
  replace (pre ++ x22 :: (t' ++ [x22]) ++ rest) with ((pre ++ [x22]) ++ t' ++ x22 :: rest) by by rewrite <-!app_assoc.
  replace (len pre + 1) with (len (pre ++ [x22])) by by rewrite len_app.
  rewrite (string_loop_ok s t' Hc); [|rewrite !len_app, len_cons; unfold len; cbn; lia|done].
  rewrite len_cons, !len_app. change (len [x22]) with 1. cbn [app]. f_equal. f_equal. lia.
Qed.

(** *** Numbers *)

Lemma digit_cases b : is_digit b = true -> 48 <= bz b <= 57.
Proof. unfold is_digit, byte_within. intros H. apply andb_true_iff in H as [H1 H2]. apply Z.leb_le in H1, H2. lia. Qed.

Definition signed_val (sign acc : Z) (ds : bytes) : Z := foldl (fun n d => n * 10 + sign * (bz d - 48)) acc ds.

Lemma signed_val_grows sign ds : forall acc, Forall (fun d => is_digit d = true) ds -> 0 <= sign * acc -> sign * sign = 1 ->
  sign * acc <= sign * signed_val sign acc ds.
Proof.
  induction ds as [|d ds IH]; intros acc HF Ha Hs; [done|]. apply Forall_cons in HF as [Hd HF]. apply digit_cases in Hd.
  cbn [signed_val foldl]. assert (0 <= sign * (acc * 10 + sign * (bz d - 48))) by nia.
  specialize (IH (acc * 10 + sign * (bz d - 48)) HF H Hs). unfold signed_val in IH. nia.
Qed.

Lemma digits_ok sign ds : forall acc, sign = 1 \/ sign = -1 -> Forall (fun d => is_digit d = true) ds -> 0 <= sign * acc ->
  in_i64 (signed_val sign acc ds) = true -> digits_i64 sign acc ds = Some (signed_val sign acc ds).
Proof.
  induction ds as [|d ds IH]; intros acc Hs HF Ha Hin; [done|]. apply Forall_cons in HF as [Hd HF]. pose proof (digit_cases _ Hd) as Hr.
  cbn [digits_i64]. rewrite Hd. cbn [andb]. assert (Ha' : 0 <= sign * (acc * 10 + sign * (bz d - 48))) by (destruct Hs as [-> | ->]; lia).
  pose proof (signed_val_grows sign ds _ HF Ha' ltac:(destruct Hs as [-> | ->]; lia)) as Hg.
  change (signed_val sign acc (d :: ds)) with (signed_val sign (acc * 10 + sign * (bz d - 48)) ds) in *.
  assert (H2 : in_i64 (acc * 10) = true /\ in_i64 (acc * 10 + sign * (bz d - 48)) = true).
  { unfold in_i64 in *. apply andb_true_iff in Hin as [Hl Hh]. apply Z.leb_le in Hl, Hh. rewrite !andb_true_iff, !Z.leb_le.
    destruct Hs as [-> | ->]; lia. }
  destruct H2 as [-> ->]. cbn [andb]. by apply IH.
Qed.

Lemma signed_val_plain ds : signed_val 1 0 ds = decimal ds.
Proof. unfold signed_val, decimal. generalize 0. induction ds as [|d ds IH]; intros z; cbn [foldl]; [done|]. rewrite Z.mul_1_l. apply IH. Qed.

Lemma signed_val_minus ds : signed_val (-1) 0 ds = - decimal ds.
Proof.
  unfold signed_val, decimal. enough (Hg : forall z, foldl (fun n d => n * 10 + -1 * (bz d - 48)) (- z) ds = - foldl (fun n d => n * 10 + (bz d - 48)) z ds) by apply (Hg 0).
  induction ds as [|d ds IH]; intros z; cbn [foldl]; [done|]. rewrite <-IH. f_equal. lia.
Qed.

Lemma utf8_ascii s : Forall (fun b => byte_within 0 0x7f b = true) s -> utf8 s = true.
Proof. induction 1 as [|b s Hb _ IH]; [done|]. cbn [utf8]. by rewrite Hb. Qed.

Lemma parse_number z t : numeral_of z t -> parse_i64 t = Some z /\ utf8 t = true /\
  exists c ds, t = c :: ds /\ (c = x2d \/ is_digit c = true) /\ Forall (fun d => is_digit d = true) ds.
Proof.
  assert (Hascii : forall ds, Forall (fun d => is_digit d = true) ds -> Forall (fun b => byte_within 0 0x7f b = true) ds).
  { intros ds HF. eapply Forall_impl; [exact HF|]. cbv beta. intros d Hd. apply digit_cases in Hd. unfold byte_within. rewrite andb_true_iff, !Z.leb_le. lia. }
  destruct 1 as [ds Hne HF Hin|ds Hne HF Hin].
  - split_and!; [|by apply utf8_ascii, Hascii|].
    + pose proof HF as HF'. rewrite <-signed_val_plain in *. destruct ds as [|d ds]; [done|]. apply Forall_cons in HF' as [Hd _].
      assert (Hp : parse_i64 (d :: ds) = digits_i64 1 0 (d :: ds)) by (destruct d; try discriminate Hd; reflexivity).
      rewrite Hp. apply digits_ok; auto. lia.
    + destruct ds as [|d ds]; [done|]. apply Forall_cons in HF as [Hd HF]. eauto 10.
  - split_and!; [|apply utf8_ascii; constructor; [done|by apply Hascii]|by eauto 10].
    destruct ds as [|d ds]; [done|]. change (parse_i64 (x2d :: d :: ds)) with (digits_i64 (-1) 0 (d :: ds)). rewrite <-signed_val_minus in *.
    apply digits_ok; auto. lia.
Qed.

(** What follows a number may not continue it. *)
Definition continues (b : byte) : bool := is_digit b || bool_decide (b ∈ [x2e; x65; x45]).

Lemma read_number_ok z t pre rest : numeral_of z t -> stops continues rest ->
  read_number (pre ++ t ++ rest) (len pre) = Ok (Some (Number z), len pre + len t).
Proof.
  intros Hz Hs. destruct (parse_number z t Hz) as (Hp & Hu & c & ds & -> & _ & HF). unfold read_number.
  assert (Hskip : skip_while (length (pre ++ (c :: ds) ++ rest)) is_digit (pre ++ (c :: ds) ++ rest) (len pre + 1) = len pre + len (c :: ds)).
  { replace (pre ++ (c :: ds) ++ rest) with ((pre ++ [c]) ++ ds ++ rest) by by rewrite <-!app_assoc.
    replace (len pre + 1) with (len (pre ++ [c])) by by rewrite len_app. rewrite skip_while_ok.
    - rewrite len_push, len_cons. lia.
    - rewrite !length_app. lia.
    - done.
    - destruct rest as [|b rest]; [done|]. cbn in *. unfold continues in Hs. by apply orb_false_iff in Hs as [? _]. }
  rewrite Hskip. rewrite (app_assoc pre), <-len_app.
  assert (Hafter : match get ((pre ++ c :: ds) ++ rest) (len (pre ++ c :: ds)) with Some b => negb (bool_decide (b ∈ [x2e; x65; x45])) | None => true end = true).
  { destruct rest as [|b rest]; [by rewrite app_nil_r, get_past|]. rewrite get_mid. cbn in Hs. unfold continues in Hs. apply orb_false_iff in Hs as [_ Hs]. by rewrite Hs. }
  rewrite Hafter. run.
  assert (Hslice : slice ((pre ++ c :: ds) ++ rest) (len pre) (len (pre ++ c :: ds)) = Some (c :: ds)).
  { unfold slice. pose proof (len_nonneg pre). rewrite (proj2 (Z.leb_le 0 _)), (proj2 (Z.leb_le (len pre) _)), (proj2 (Z.leb_le _ (len (_ ++ rest))))
      by (rewrite ?len_app; pose proof (len_nonneg rest); pose proof (len_nonneg (c :: ds)); lia). cbn [andb].
    f_equal. rewrite len_app. replace (len pre + len (c :: ds) - len pre) with (len (c :: ds)) by lia. unfold len. rewrite !Nat2Z.id, <-app_assoc.
    by rewrite drop_app_length, take_app_length. }
  rewrite Hslice. run. rewrite Hu. run. rewrite Hp. reflexivity.
Qed.

(** *** The loop *)

Definition resume (room : nat) (bs : bytes) (position : Z) (stack : list Frame) : outcome bytes (Json * Z) :=
  p ← skip_whitespace bs position; parse_loop room bs p stack.

(** Where a value goes once it is read. *)
Definition deliver (room : nat) (bs : bytes) (next : Z) (stack : list Frame) (value : Json) : outcome bytes (Json * Z) :=
  match stack with
  | [] => Ok (value, next)
  | FArray items :: stack => resume room bs next (FArray (items ++ [value]) :: stack)
  | FObject fields None :: _ => Panic
  | FObject fields (Some key) :: stack => resume room bs next (FObject (fields ++ [(key, value)]) None :: stack)
  end.

(** A string that comes next is a value, not a key. *)
Definition wants_value (stack : list Frame) : Prop := match stack with FObject _ None :: _ => False | _ => True end.

Lemma loop_value room bs position stack value next stack' :
  read_token bs position stack = Ok (Some value, next, stack') -> position < next ->
  parse_loop (S room) bs position stack = deliver room bs next stack' value.
Proof. intros Ht Hn. cbn [parse_loop]. rewrite Ht. run. by rewrite (proj2 (Z.ltb_lt _ _)) by done. Qed.

Lemma loop_silent room bs position stack next stack' :
  read_token bs position stack = Ok (None, next, stack') -> position < next ->
  parse_loop (S room) bs position stack = resume room bs next stack'.
Proof. intros Ht Hn. cbn [parse_loop]. rewrite Ht. run. by rewrite (proj2 (Z.ltb_lt _ _)) by done. Qed.


Lemma resume_spaces room pre w rest stack : spaces w -> stops is_space rest ->
  resume room (pre ++ w ++ rest) (len pre) stack = parse_loop room (pre ++ w ++ rest) (len (pre ++ w)) stack.
Proof. intros Hw Hs. unfold resume. rewrite skip_spaces_ok by done. run. by rewrite len_app. Qed.

(** What reading [t] as the value [v] means, wherever it stands. *)
Definition reads_value (v : Json) (t : bytes) : Prop :=
  stops is_space t /\ t <> [] /\ forall pre rest stack, wants_value stack -> stops continues rest ->
  exists k, (k < length t)%nat /\ forall room,
    parse_loop (S k + room) (pre ++ t ++ rest) (len pre) stack = deliver room (pre ++ t ++ rest) (len (pre ++ t)) stack v.

(** The items of an array and the fields of an object are read alike: [frame] is the frame that
    collects them and [close] the byte that ends it. *)
Section collection.
Context {A : Type} (frame : list A -> Frame) (close : byte).
Hypothesis close_ends : close = x5d \/ close = x7d.

Definition reads_element (x : A) (t : bytes) : Prop :=
  stops is_space t /\ t <> [] /\ forall pre rest acc stack, stops continues rest ->
  exists k, (k <= length t)%nat /\ forall room,
    parse_loop (k + room) (pre ++ t ++ rest) (len pre) (frame acc :: stack) =
    resume room (pre ++ t ++ rest) (len (pre ++ t)) (frame (acc ++ [x]) :: stack).

Definition reads_list (xs : list A) (t : bytes) : Prop :=
  forall pre rest acc stack, exists k, (k <= length t)%nat /\ forall room,
    resume (k + room) (pre ++ t ++ close :: rest) (len pre) (frame acc :: stack) =
    parse_loop room (pre ++ t ++ close :: rest) (len (pre ++ t)) (frame (acc ++ xs) :: stack).

Lemma close_stops rest : stops is_space (close :: rest) /\ stops continues (close :: rest).
Proof. by destruct close_ends as [-> | ->]. Qed.

Lemma space_ends w rest : spaces w -> stops continues rest -> stops continues (w ++ rest).
Proof. destruct 1 as [|b w Hb _]; intros Hr; [done|]. cbn. destruct b; try discriminate Hb; reflexivity. Qed.

Lemma stops_app (p : byte -> bool) t rest : stops p t -> t <> [] -> stops p (t ++ rest).
Proof. by destruct t. Qed.

Lemma list_none w : spaces w -> reads_list [] w.
Proof.
  intros Hw pre rest acc stack. exists 0%nat. split; [lia|]. intros room. rewrite app_nil_r. cbn [Nat.add].
  apply resume_spaces; [done|]. apply close_stops.
Qed.

(** One element between white space. *)
Lemma element_spaces w x t w' pre rest acc stack : spaces w -> reads_element x t -> spaces w' -> stops is_space rest -> stops continues rest ->
  exists k, (k <= length t)%nat /\ forall room,
    resume (k + room) (pre ++ (w ++ t ++ w') ++ rest) (len pre) (frame acc :: stack) =
    parse_loop room (pre ++ (w ++ t ++ w') ++ rest) (len (pre ++ w ++ t ++ w')) (frame (acc ++ [x]) :: stack).
Proof.
  intros Hw (Hst & Hne & Ht) Hw' Hs Hc. destruct (Ht (pre ++ w) (w' ++ rest) acc stack) as (k & Hk & Hrun); [by apply space_ends|].
  exists k. split; [done|]. intros room. rewrite <-!app_assoc. rewrite resume_spaces; [|done|by apply stops_app].
  specialize (Hrun room). rewrite <-!app_assoc in Hrun. rewrite Hrun.
  replace (pre ++ w ++ t ++ w' ++ rest) with ((pre ++ w ++ t) ++ w' ++ rest) by by rewrite <-!app_assoc. rewrite resume_spaces by done.
  by rewrite <-!app_assoc.
Qed.

Lemma list_one w x t w' : spaces w -> reads_element x t -> spaces w' -> reads_list [x] (w ++ t ++ w').
Proof.
  intros Hw Ht Hw' pre rest acc stack. destruct (close_stops rest). destruct (element_spaces w x t w' pre (close :: rest) acc stack) as (k & Hk & Hrun); try done.
  exists k. split; [rewrite !length_app; lia|]. exact Hrun.
Qed.

Lemma comma_token pre rest stack : read_token (pre ++ x2c :: rest) (len pre) stack = Ok (None, len pre + 1, stack).
Proof. unfold read_token. rewrite get_mid. reflexivity. Qed.

Lemma list_more w x t w' xs t' : spaces w -> reads_element x t -> spaces w' -> reads_list xs t' ->
  reads_list (x :: xs) (w ++ t ++ w' ++ x2c :: t').
Proof.
  intros Hw Ht Hw' Hxs pre rest acc stack.
  destruct (element_spaces w x t w' pre (x2c :: t' ++ close :: rest) acc stack) as (k & Hk & Hrun); try done.
  destruct (Hxs (pre ++ (w ++ t ++ w') ++ [x2c]) rest (acc ++ [x]) stack) as (k' & Hk' & Hrun').
  exists (k + S k')%nat. split; [rewrite !length_app; cbn; lia|]. intros room.
  replace (pre ++ (w ++ t ++ w' ++ x2c :: t') ++ close :: rest) with (pre ++ (w ++ t ++ w') ++ x2c :: t' ++ close :: rest) by by rewrite <-!app_assoc.
  rewrite <-Nat.add_assoc, Hrun. cbn [Nat.add].
  erewrite loop_silent; [|rewrite (app_assoc pre); apply comma_token|lia].
  specialize (Hrun' room).
  assert (Hbs : (pre ++ (w ++ t ++ w') ++ [x2c]) ++ t' ++ close :: rest = pre ++ (w ++ t ++ w') ++ x2c :: t' ++ close :: rest) by by rewrite <-!app_assoc.
  assert (Hpos : len (pre ++ (w ++ t ++ w') ++ [x2c]) = len (pre ++ w ++ t ++ w') + 1) by (rewrite !len_app; change (len [x2c]) with 1; lia).
  rewrite Hbs, Hpos in Hrun'. rewrite Hrun', <-!app_assoc. done.
Qed.
End collection.

(** Concatenations up to associativity. *)
Ltac assoc := repeat first [rewrite <-app_assoc | progress (cbn [app])]; reflexivity.

(** *** Tokens *)

Lemma string_token s t pre rest stack : string_of s t ->
  read_token (pre ++ t ++ rest) (len pre) stack =
  match stack with
  | FObject fields None :: stack => Ok (None, len (pre ++ t), FObject fields (Some s) :: stack)
  | _ => Ok (Some (Str s), len (pre ++ t), stack)
  end.
Proof.
  intros Ht. pose proof (read_string_ok s t pre rest Ht) as Hr. destruct Ht as (t' & -> & _). unfold read_token. cbn [app] in *. rewrite get_mid. run.
  rewrite !bool_decide_eq_false_2, bool_decide_eq_true_2 by (done || set_solver). rewrite Hr. run. by rewrite len_app.
Qed.

Lemma number_token z t pre rest stack : numeral_of z t -> stops continues rest ->
  read_token (pre ++ t ++ rest) (len pre) stack = Ok (Some (Number z), len (pre ++ t), stack).
Proof.
  intros Ht Hs. pose proof (read_number_ok z t pre rest Ht Hs) as Hr. destruct (parse_number z t Ht) as (_ & _ & c & ds & -> & Hc & _).
  assert (Htok : read_token (pre ++ (c :: ds) ++ rest) (len pre) stack =
    '(value, next) ← read_number (pre ++ (c :: ds) ++ rest) (len pre); Ok (value, next, stack)).
  { unfold read_token. cbn [app]. rewrite get_mid. destruct Hc as [->|Hc]; [reflexivity|]. destruct c; try discriminate Hc; reflexivity. }
  rewrite Htok, Hr. run. by rewrite len_app.
Qed.

Lemma slice_mid {A} (pre t rest : list A) : slice (pre ++ t ++ rest) (len pre) (len pre + len t) = Some t.
Proof.
  pose proof (len_nonneg pre). pose proof (len_nonneg t). pose proof (len_nonneg rest).
  unfold slice. rewrite (proj2 (Z.leb_le 0 _)), (proj2 (Z.leb_le (len pre) _)), (proj2 (Z.leb_le _ (len (pre ++ _)))) by (rewrite ?len_app; lia). cbn [andb].
  f_equal. replace (len pre + len t - len pre) with (len t) by lia. unfold len. rewrite !Nat2Z.id. by rewrite drop_app_length, take_app_length.
Qed.

Lemma literal_ok literal value pre rest : read_literal (pre ++ literal ++ rest) (len pre) literal value = Ok (Some value, len (pre ++ literal)).
Proof. unfold read_literal. by rewrite slice_mid, bool_decide_eq_true_2, len_app. Qed.

Lemma value_token v t : (forall pre rest stack, wants_value stack -> stops continues rest ->
    read_token (pre ++ t ++ rest) (len pre) stack = Ok (Some v, len (pre ++ t), stack)) ->
  stops is_space t -> t <> [] -> reads_value v t.
Proof.
  intros Hread Hst Hne. split_and!; [done..|]. intros pre rest stack Hs Hc. exists 0%nat. split; [destruct t; [done|cbn; lia]|]. intros room.
  cbn [Nat.add]. apply loop_value with (stack' := stack); [by apply Hread|]. rewrite len_app. destruct t; [done|]. rewrite len_cons. pose proof (len_nonneg t). lia.
Qed.

Lemma reads_literal literal v pre rest stack : (literal, v) ∈ [(text "true", Bool true); (text "false", Bool false); (text "null", Null)] ->
  read_token (pre ++ literal ++ rest) (len pre) stack = Ok (Some v, len (pre ++ literal), stack).
Proof.
  intros Hin. transitivity ('(value, next) ← read_literal (pre ++ literal ++ rest) (len pre) literal v; Ok (value, next, stack)); [|by rewrite literal_ok].
  set_unfold in Hin. unfold read_token.
  destruct Hin as [[= -> ->]|[[= -> ->]|[[= -> ->]|[]]]]; (cbn [text app Ascii.byte_of_ascii]; rewrite get_mid; reflexivity).
Qed.

(** An array or an object: its opening byte, what it collects and its closing byte. *)
Lemma reads_container {A} (frame : list A -> Frame) (close open : byte) (make : list A -> Json) xs t :
  (close = x5d \/ close = x7d) ->
  (forall pre rest stack, read_token (pre ++ open :: rest) (len pre) stack = Ok (None, len pre + 1, frame [] :: stack)) ->
  (forall pre rest acc stack, read_token (pre ++ close :: rest) (len pre) (frame acc :: stack) = Ok (Some (make acc), len pre + 1, stack)) ->
  is_space open = false -> reads_list frame close xs t -> reads_value (make xs) (open :: t ++ [close]).
Proof.
  intros Hclose Hopen Hend Hsp Hlist. split_and!; [done|done|]. intros pre rest stack Hs Hc.
  destruct (Hlist (pre ++ [open]) rest [] stack) as (k & Hk & Hrun). exists (k + 1)%nat. split; [cbn; rewrite length_app; cbn; lia|]. intros room.
  assert (Hbs : pre ++ (open :: t ++ [close]) ++ rest = pre ++ open :: t ++ close :: rest) by (cbn; by rewrite <-app_assoc).
  rewrite Hbs. replace (S (k + 1) + room)%nat with (S (k + S room)) by lia. erewrite loop_silent; [|apply Hopen|lia].
  specialize (Hrun (S room)). assert (Hbs' : (pre ++ [open]) ++ t ++ close :: rest = pre ++ open :: t ++ close :: rest) by by rewrite <-app_assoc.
  rewrite Hbs', len_push in Hrun. rewrite Hrun. cbn [app].
  assert (Hbs2 : pre ++ open :: t ++ close :: rest = ((pre ++ [open]) ++ t) ++ close :: rest) by by rewrite <-!app_assoc.
  erewrite loop_value; [|rewrite Hbs2; apply Hend|lia].
  assert (Hpos : len (pre ++ open :: t ++ [close]) = len ((pre ++ [open]) ++ t) + 1).
  { rewrite !len_app, len_cons, !len_app. change (len [open]) with 1. change (len [close]) with 1. lia. }
  by rewrite Hpos.
Qed.

Lemma field_element k tk w w' v t : string_of k tk -> spaces w -> spaces w' -> reads_value v t ->
  reads_element (fun fields => FObject fields None) (k, v) (tk ++ w ++ x3a :: w' ++ t).
Proof.
  intros Hk Hw Hw' (Hst & Hne & Hv). pose proof Hk as (tk' & Htk & _).
  split_and!; [by rewrite Htk|by rewrite Htk|]. intros pre rest acc stack Hc.
  set (bs := pre ++ (tk ++ w ++ x3a :: w' ++ t) ++ rest).
  destruct (Hv (pre ++ tk ++ w ++ x3a :: w') rest (FObject acc (Some k) :: stack)) as (n & Hn & Hrun); [done|done|].
  exists (2 + S n)%nat. split; [rewrite !length_app; cbn; rewrite length_app, Htk; cbn; lia|]. intros room.
  assert (Hb1 : bs = pre ++ tk ++ (w ++ x3a :: w' ++ t ++ rest)) by (unfold bs; assoc).
  assert (Hb2 : bs = (pre ++ tk) ++ w ++ (x3a :: w' ++ t ++ rest)) by (rewrite Hb1; assoc).
  assert (Hb3 : bs = (pre ++ tk ++ w) ++ x3a :: w' ++ t ++ rest) by (rewrite Hb1; assoc).
  assert (Hb4 : bs = (pre ++ tk ++ w ++ [x3a]) ++ w' ++ (t ++ rest)) by (rewrite Hb1; assoc).
  assert (Hb5 : bs = (pre ++ tk ++ w ++ x3a :: w') ++ t ++ rest) by (rewrite Hb1; assoc).
  clearbody bs. cbn [Nat.add]. erewrite loop_silent; [|rewrite Hb1; exact (string_token k tk pre _ (FObject acc None :: stack) Hk)|rewrite len_app, Htk, len_cons; pose proof (len_nonneg (tk' ++ [x22])); lia].
  rewrite Hb2, resume_spaces by done. rewrite <-Hb2, <-app_assoc, Hb3. erewrite loop_silent; [|unfold read_token; rewrite get_mid; reflexivity|lia].
  rewrite <-Hb3, Hb4. replace (len (pre ++ tk ++ w) + 1) with (len (pre ++ tk ++ w ++ [x3a])) by (rewrite !len_app; change (len [x3a]) with 1; lia).
  rewrite resume_spaces; [|done|by apply stops_app]. rewrite <-Hb4, Hb5.
  replace ((pre ++ tk ++ w ++ [x3a]) ++ w') with (pre ++ tk ++ w ++ x3a :: w') by assoc.
  change (S (n + room)) with (S n + room)%nat. rewrite Hrun. cbn [deliver].
  replace ((pre ++ tk ++ w ++ x3a :: w') ++ t) with (pre ++ tk ++ w ++ x3a :: w' ++ t) by assoc. by rewrite <-Hb5.
Qed.

Lemma grammar_reads :
  (forall v t, text_of v t -> reads_value v t) /\
  (forall items t, items_of items t -> reads_list FArray x5d items t) /\
  (forall fields t, fields_of fields t -> reads_list (fun fields => FObject fields None) x7d fields t) /\
  (forall f t, field_of f t -> reads_element (fun fields => FObject fields None) f t).
Proof.
  assert (Hitem : forall v t, reads_value v t -> reads_element FArray v t).
  { intros v t (Hst & Hne & Hv). split_and!; [done..|]. intros pre rest acc stack Hc. destruct (Hv pre rest (FArray acc :: stack)) as (k & Hk & Hrun); [done..|].
    exists (S k). split; [lia|]. exact Hrun. }
  apply json_mutind.
  - intros s t Hs. pose proof Hs as (t' & Ht & _). apply value_token; [|by rewrite Ht..]. intros pre rest stack Htk _. rewrite (string_token s t) by done.
    by destruct stack as [|[|fields []] stack].
  - intros z t Hz. pose proof (parse_number z t Hz) as (_ & _ & c & ds & Ht & Hc & _). apply value_token; [|rewrite Ht|by rewrite Ht].
    + intros. by apply number_token.
    + destruct Hc as [->|Hc]; [done|]. by destruct c; try discriminate Hc.
  - intros b. apply value_token; [|by destruct b..]. intros pre rest stack _ _. apply reads_literal. destruct b; set_solver.
  - apply value_token; [|done..]. intros pre rest stack _ _. apply reads_literal. set_solver.
  - intros items t _ IH. apply (reads_container FArray x5d x5b Array); auto; intros; unfold read_token; by rewrite get_mid.
  - intros fields t _ IH. apply (reads_container (fun fields => FObject fields None) x7d x7b Object); auto; intros; unfold read_token; by rewrite get_mid.
  - intros w Hw. apply list_none; auto.
  - intros w v t w' Hw _ IH Hw'. apply list_one; auto.
  - intros w v t w' items t' Hw _ IH Hw' _ IH' _. apply list_more; auto.
  - intros w Hw. apply list_none; auto.
  - intros w f t w' Hw _ IH Hw'. apply list_one; auto.
  - intros w f t w' fields t' Hw _ IH Hw' _ IH' _. apply list_more; auto.
  - intros k tk w w' v t Hk Hw Hw' _ IH. by apply field_element.
Qed.

(** ** Documents *)

Lemma parse_at_ok v t pre w rest : text_of v t -> spaces w -> stops continues rest ->
  parse_at (pre ++ w ++ t ++ rest) (len pre) = Ok (v, len (pre ++ w ++ t)).
Proof.
  intros Ht Hw Hr. destruct (proj1 grammar_reads v t Ht) as (Hst & Hne & Hread). unfold parse_at.
  rewrite skip_spaces_ok by (done || by apply stops_app). run. rewrite <-len_app.
  destruct (Hread (pre ++ w) rest []) as (k & Hk & Hrun); [done|done|].
  assert (Hroom : exists room, Z.to_nat (len (pre ++ w ++ t ++ rest) - len (pre ++ w) + 1) = (S k + room)%nat).
  { eexists (Z.to_nat (len (pre ++ w ++ t ++ rest) - len (pre ++ w) + 1) - S k)%nat. unfold len. rewrite !length_app. lia. }
  destruct Hroom as [room ->]. specialize (Hrun room). rewrite <-!app_assoc in Hrun. exact Hrun.
Qed.

(** Whatever is written in the grammar is read back: the value, whatever white space and whichever
    escapes its text has. *)
Theorem json_roundtrip v w t w' : text_of v t -> spaces w -> spaces w' -> parse (w ++ t ++ w') = Ok v.
Proof.
  intros Ht Hw Hw'. unfold parse. pose proof (parse_at_ok v t [] w w' Ht Hw) as Hp. cbn [app] in Hp. change (len (@nil byte)) with 0 in Hp.
  rewrite Hp by (rewrite <-(app_nil_r w'); by apply space_ends). run.
  pose proof (skip_spaces_ok (w ++ t) w' [] Hw' I) as Hs. rewrite app_nil_r, <-app_assoc in Hs. rewrite Hs. run.
  rewrite <-len_app, <-app_assoc, Z.eqb_refl. reflexivity.
Qed.

(** ** The flags of the corpus *)

Definition combinations : list ScriptFlags.ScriptFlags :=
  Eval vm_compute in match all_consensus_flags with Ok l => l | _ => [] end.

Lemma all_flags_ok : all_consensus_flags = Ok combinations.
Proof. vm_compute. reflexivity. Qed.

(** A set of consensus flags is the union of those it contains. *)
Lemma flags_are_union flags : ScriptFlags.is_subset_of flags ScriptFlags.MANDATORY = true ->
  flags = foldl (fun a f => if ScriptFlags.contains flags f then ScriptFlags.union a f else a) ScriptFlags.NONE FLAGS.
Proof.
  intros Hs. assert (Hbits : forall n, 0 <= n -> Z.testbit (ScriptFlags.bits flags) n = true -> n ∈ [0; 2; 4; 9; 10; 11; 17]).
  { intros n Hn Hb. unfold ScriptFlags.is_subset_of in Hs. rewrite ScriptFlags.contains_spec in Hs. specialize (Hs n Hn Hb). unfold ScriptFlags.MANDATORY in Hs.
    rewrite !ScriptFlags.testbit_union in Hs. unfold ScriptFlags.P2SH, ScriptFlags.DERSIG, ScriptFlags.NULLDUMMY, ScriptFlags.CHECKLOCKTIMEVERIFY,
      ScriptFlags.CHECKSEQUENCEVERIFY, ScriptFlags.WITNESS, ScriptFlags.TAPROOT in Hs. rewrite !ScriptFlags.testbit_flag in Hs by lia.
    rewrite !orb_true_iff, !Z.eqb_eq in Hs. set_unfold. lia. }
  assert (Hrec : forall a b : ScriptFlags.ScriptFlags, ScriptFlags.bits a = ScriptFlags.bits b -> a = b) by (intros [a] [b]; cbn; congruence).
  apply Hrec, Z.bits_inj'. intros n Hn. cbn [foldl FLAGS].
  unfold ScriptFlags.P2SH, ScriptFlags.DERSIG, ScriptFlags.NULLDUMMY, ScriptFlags.CHECKLOCKTIMEVERIFY,
    ScriptFlags.CHECKSEQUENCEVERIFY, ScriptFlags.WITNESS, ScriptFlags.TAPROOT.
  rewrite !ScriptFlags.contains_flag by lia.
  assert (Hif : forall (b : bool) a k, 0 <= k -> Z.testbit (ScriptFlags.bits (if b then ScriptFlags.union a (ScriptFlags.mk (Z.shiftl 1 k)) else a)) n =
    Z.testbit (ScriptFlags.bits a) n || (b && (k =? n))).
  { intros [] a k Hk; [by rewrite ScriptFlags.testbit_union, ScriptFlags.testbit_flag|]. by rewrite orb_false_r. }
  rewrite !Hif by lia. change (Z.testbit (ScriptFlags.bits ScriptFlags.NONE) n) with (Z.testbit 0 n). rewrite Z.testbit_0_l. cbn [orb].
  destruct (Z.testbit (ScriptFlags.bits flags) n) eqn:Hb.
  - specialize (Hbits n Hn Hb). symmetry. rewrite !orb_true_iff, !andb_true_iff, !Z.eqb_eq. set_unfold in Hbits.
    destruct Hbits as [->|[->|[->|[->|[->|[->|[->|[]]]]]]]]; rewrite Hb; tauto.
  - symmetry. rewrite !orb_false_iff, !andb_false_iff, !Z.eqb_neq.
    split_and!; (match goal with |- context [?k <> n] => destruct (decide (k = n)) as [<-|]; [by left|by right] end).
Qed.

(** The combinations that are run are exactly the consistent sets of consensus flags. *)
Lemma combinations_lattice flags : flags ∈ combinations <-> lattice flags.
Proof.
  split.
  - intros Hin. apply in_lattice_ok. assert (Hall : forallb in_lattice combinations = true) by (vm_compute; reflexivity).
    rewrite forallb_forall in Hall. apply Hall. by apply list_elem_of_In.
  - intros [Hs [Hw Ht]]. rewrite (flags_are_union flags Hs). revert Hw Ht. cbn [foldl FLAGS].
    destruct (ScriptFlags.contains flags ScriptFlags.P2SH), (ScriptFlags.contains flags ScriptFlags.DERSIG), (ScriptFlags.contains flags ScriptFlags.NULLDUMMY),
      (ScriptFlags.contains flags ScriptFlags.CHECKLOCKTIMEVERIFY), (ScriptFlags.contains flags ScriptFlags.CHECKSEQUENCEVERIFY),
      (ScriptFlags.contains flags ScriptFlags.WITNESS), (ScriptFlags.contains flags ScriptFlags.TAPROOT);
      intros Hw Ht; try (by specialize (Hw eq_refl)); try (by specialize (Ht eq_refl)); clear; apply (bool_decide_unpack _); vm_compute; exact I.
Qed.

(** ** The walk of the corpus *)

Definition separates (b : byte) : bool := is_space b || bool_decide (b = x2c).

Lemma separators_spaces w : forall room pre rest commas, spaces w ->
  separators_loop (length w + room) (pre ++ w ++ rest) (len pre) commas = separators_loop room (pre ++ w ++ rest) (len (pre ++ w)) commas.
Proof.
  induction w as [|b w IH]; intros room pre rest commas Hw; [by rewrite app_nil_r|]. apply Forall_cons in Hw as [Hb Hw].
  cbn [length Nat.add separators_loop app]. rewrite get_mid. rewrite bool_decide_eq_false_2 by (intros ->; discriminate Hb). rewrite Hb. cbn [negb].
  replace (pre ++ b :: w ++ rest) with ((pre ++ [b]) ++ w ++ rest) by assoc. rewrite <-len_push with (x := b), IH by done.
  by replace ((pre ++ [b]) ++ w) with (pre ++ b :: w) by assoc.
Qed.

Lemma separators_stop room pre rest commas : stops separates rest -> separators_loop room (pre ++ rest) (len pre) commas = Ok (len pre).
Proof.
  intros Hs. destruct room as [|room]; [done|]. cbn [separators_loop]. destruct rest as [|b rest]; [by rewrite app_nil_r, get_past|]. rewrite get_mid.
  cbn in Hs. unfold separates in Hs. apply orb_false_iff in Hs as [Hb Hc]. by rewrite Hc, Hb.
Qed.

Lemma skip_separators_spaces pre w rest : spaces w -> stops separates rest -> skip_separators (pre ++ w ++ rest) (len pre) = Ok (len (pre ++ w)).
Proof.
  intros Hw Hs. unfold skip_separators. replace (length (pre ++ w ++ rest)) with (length w + (length pre + length rest))%nat by (rewrite !length_app; lia).
  rewrite separators_spaces by done. rewrite (app_assoc pre). by apply separators_stop.
Qed.

Lemma skip_separators_comma pre w w' rest : spaces w -> spaces w' -> stops separates rest ->
  skip_separators (pre ++ w ++ x2c :: w' ++ rest) (len pre) = Ok (len (pre ++ w ++ x2c :: w')).
Proof.
  intros Hw Hw' Hs. unfold skip_separators.
  replace (length (pre ++ w ++ x2c :: w' ++ rest)) with (length w + S (length w' + (length pre + length rest)))%nat by (rewrite !length_app; cbn; rewrite length_app; lia).
  rewrite separators_spaces by done. replace (pre ++ w ++ x2c :: w' ++ rest) with ((pre ++ w) ++ x2c :: w' ++ rest) by assoc.
  cbn [separators_loop]. rewrite get_mid, bool_decide_eq_true_2 by done. cbn [Z.leb Z.add Z.compare Pos.compare Pos.compare_cont assert_]. run.
  replace ((pre ++ w) ++ x2c :: w' ++ rest) with (((pre ++ w) ++ [x2c]) ++ w' ++ rest) by assoc. rewrite <-len_push with (x := x2c).
  rewrite separators_spaces, (app_assoc _ w'), separators_stop by done. do 2 f_equal. assoc.
Qed.

Lemma text_first v t : text_of v t -> exists c r, t = c :: r /\ separates c = false /\ c <> x5d.
Proof.
  destruct 1 as [s t Hs|z t Hz|b| |items t _|fields t _].
  - destruct Hs as (t' & -> & _). by eauto.
  - destruct (parse_number z t Hz) as (_ & _ & c & ds & -> & Hc & _). exists c, ds. split; [done|]. destruct Hc as [->|Hc]; [done|]. destruct c; try discriminate Hc; done.
  - destruct b; eexists _, _; done.
  - eexists _, _; done.
  - eexists _, _; done.
  - eexists _, _; done.
Qed.

Section corpus.
Context `{Hashes} `{BitcoinCrate} `{Encoding} `{Secp256k1} `{CoreLibrary} `{Decoding}.

(** One turn of the walk at a record. *)
Lemma corpus_turn room combos pre v t rest count summary : text_of v t -> stops continues rest -> count < RECORDS_MAX ->
  corpus_loop (S room) combos (pre ++ t ++ rest) (len pre) count summary =
  (summary ← add_record combos summary v;
   position ← skip_separators (pre ++ t ++ rest) (len (pre ++ t));
   corpus_loop room combos (pre ++ t ++ rest) position (count + 1) summary).
Proof.
  intros Ht Hr Hc. destruct (text_first v t Ht) as (c & r & Heq & _ & Hne). cbn [corpus_loop]. rewrite (proj2 (Z.leb_gt _ _)) by done.
  rewrite bool_decide_eq_false_2 by (rewrite Heq; cbn [app]; rewrite get_mid; congruence).
  pose proof (parse_at_ok v t pre [] rest Ht (Forall_nil_2 _) Hr) as Hp. cbn [app] in Hp. rewrite Hp. run.
  rewrite (proj2 (Z.ltb_lt _ _)); [done|]. rewrite len_app, Heq, len_cons. pose proof (len_nonneg r). lia.
Qed.

Lemma corpus_end room combos pre rest count summary : count < RECORDS_MAX ->
  corpus_loop (S room) combos (pre ++ x5d :: rest) (len pre) count summary = Ok summary.
Proof. intros Hc. cbn [corpus_loop]. rewrite (proj2 (Z.leb_gt _ _)) by done. by rewrite get_mid, bool_decide_eq_true_2. Qed.

Lemma corpus_walk items t : items_of items t -> exists w t1, t = w ++ t1 /\ spaces w /\ stops separates (t1 ++ [x5d]) /\
  forall combos pre rest room count summary, (length t < room)%nat -> count + len items < RECORDS_MAX ->
  corpus_loop room combos (pre ++ t ++ x5d :: rest) (len (pre ++ w)) count summary = foldM (add_record combos) summary items.
Proof.
  induction 1 as [w Hw|w v t w' Hw Ht Hw'|w v t w' items t' Hw Ht Hw' _ (w2 & t2 & -> & Hw2 & Hs2 & IH) Hne].
  - exists w, []. rewrite app_nil_r. split_and!; [done..|]. intros combos pre rest room count summary Hr Hc.
    destruct room as [|room]; [lia|]. rewrite (app_assoc pre). change (len (@nil Json)) with 0 in Hc. by rewrite corpus_end by lia.
  - destruct (text_first v t Ht) as (c & r & Heq & Hsep & _). exists w, (t ++ w'). split_and!; [done|done|by rewrite Heq|].
    intros combos pre rest room count summary Hr Hc. change (len [v]) with 1 in Hc. rewrite !length_app in Hr.
    destruct room as [|[|room]]; [lia|rewrite Heq in Hr; cbn in Hr; lia|].
    replace (pre ++ (w ++ t ++ w') ++ x5d :: rest) with ((pre ++ w) ++ t ++ w' ++ x5d :: rest) by assoc.
    rewrite (corpus_turn _ _ _ v) by (done || (by apply space_ends) || lia). cbn [foldM].
    destruct (add_record combos summary v) as [summary'| |]; [|done..]. run.
    rewrite (app_assoc _ t), skip_separators_spaces by done. run. rewrite (app_assoc _ w'). by rewrite corpus_end by lia.
  - destruct (text_first v t Ht) as (c & r & Heq & Hsep & _). exists w, (t ++ w' ++ x2c :: w2 ++ t2). split_and!; [done|done|by rewrite Heq|].
    intros combos pre rest room count summary Hr Hc. rewrite len_cons in Hc. rewrite !length_app in Hr. cbn in Hr. rewrite !length_app in Hr.
    destruct room as [|room]; [lia|]. assert (0 < len items) by (destruct items; [done|rewrite len_cons; pose proof (len_nonneg items); lia]).
    replace (pre ++ (w ++ t ++ w' ++ x2c :: w2 ++ t2) ++ x5d :: rest) with ((pre ++ w) ++ t ++ w' ++ x2c :: w2 ++ t2 ++ x5d :: rest) by assoc.
    rewrite (corpus_turn _ _ _ v) by (done || (by apply space_ends) || lia). cbn [foldM].
    destruct (add_record combos summary v) as [summary'| |]; [|done..]. run.
    replace ((pre ++ w) ++ t ++ w' ++ x2c :: w2 ++ t2 ++ x5d :: rest) with (((pre ++ w) ++ t) ++ w' ++ x2c :: w2 ++ (t2 ++ x5d :: rest)) by assoc.
    rewrite skip_separators_comma; [|done|done|by destruct t2]. run.
    specialize (IH combos (((pre ++ w) ++ t) ++ w' ++ [x2c]) rest room (count + 1) summary').
    replace ((((pre ++ w) ++ t) ++ w' ++ [x2c]) ++ (w2 ++ t2) ++ x5d :: rest) with (((pre ++ w) ++ t) ++ w' ++ x2c :: w2 ++ t2 ++ x5d :: rest) in IH by assoc.
    replace ((((pre ++ w) ++ t) ++ w' ++ [x2c]) ++ w2) with (((pre ++ w) ++ t) ++ w' ++ x2c :: w2) in IH by assoc.
    apply IH; [rewrite Heq in Hr; cbn in Hr; rewrite length_app; lia|lia].
Qed.

Lemma run_corpus_walk items t w rest : items_of items t -> spaces w -> len items < RECORDS_MAX ->
  run_corpus (w ++ x5b :: t ++ x5d :: rest) = foldM (add_record combinations) (mkSummary 0 0 0) items.
Proof.
  intros Hi Hw Hl. destruct (corpus_walk items t Hi) as (w1 & t1 & -> & Hw1 & Hs1 & Hwalk). unfold run_corpus. rewrite all_flags_ok. run.
  unfold skip_to_first_record.
  pose proof (skip_while_ok is_space w (length (w ++ x5b :: (w1 ++ t1) ++ x5d :: rest)) [] (x5b :: (w1 ++ t1) ++ x5d :: rest)) as Hskip.
  cbn [app] in Hskip. change (len (@nil byte)) with 0 in Hskip. rewrite Hskip by (done || (rewrite length_app; lia)). rewrite Z.add_0_l.
  rewrite get_mid, bool_decide_eq_true_2 by done. run.
  replace (w ++ x5b :: (w1 ++ t1) ++ x5d :: rest) with ((w ++ [x5b]) ++ w1 ++ t1 ++ x5d :: rest) by assoc. rewrite <-len_push with (x := x5b).
  rewrite skip_separators_spaces; [|done|by destruct t1]. run.
  specialize (Hwalk combinations (w ++ [x5b]) rest (S (length ((w ++ [x5b]) ++ w1 ++ t1 ++ x5d :: rest))) 0 (mkSummary 0 0 0)).
  replace ((w ++ [x5b]) ++ (w1 ++ t1) ++ x5d :: rest) with ((w ++ [x5b]) ++ w1 ++ t1 ++ x5d :: rest) in Hwalk by assoc.
  apply Hwalk; [rewrite !length_app; cbn; lia|lia].
Qed.

(** ** The rule of the corpus *)

(** What Core's [AssetTest] asks of a record under one set of flags: the success path verifies if
    the record is final or the flags are among its own, the failure path fails if its flags are
    among these. *)
Definition obeys (record : AssetRecord) (success failure : option SpendPath) (flags : ScriptFlags.ScriptFlags) : Prop :=
  (forall path, success = Some path -> rec_final record = true \/ ScriptFlags.is_subset_of flags (rec_flags record) = true ->
     exists core, verdicts record path flags = Ok (true, core)) /\
  (forall path, failure = Some path -> ScriptFlags.contains flags (rec_flags record) = true ->
     exists core, verdicts record path flags = Ok (false, core)).

(** A record that decodes, has a path and obeys the rule under every consistent set of flags. *)
Definition follows_rule (json : Json) : Prop := exists record success failure,
  decode_record json = Ok record /\ decode_optional json (text "success") = Ok success /\ decode_optional json (text "failure") = Ok failure /\
  (is_Some success \/ is_Some failure) /\ forall flags, lattice flags -> obeys record success failure flags.

Lemma check_flags_spec record success failure checks flags : 0 <= checks.1 < u64_max -> 0 <= checks.2 < u64_max ->
  match check_flags record success failure checks flags with
  | Ok c => obeys record success failure flags /\ checks.1 <= c.1 <= checks.1 + 1 /\ checks.2 <= c.2 <= checks.2 + 1
  | _ => ~ obeys record success failure flags
  end.
Proof.
  intros Hk1 Hk2. unfold check_flags.
  assert (Hu : forall x, 0 <= x < u64_max -> u64 (E:=bytes) (x + 1) = Ok (x + 1)).
  { intros x Hx. unfold u64. by rewrite (proj2 (Z.leb_le 0 _)), (proj2 (Z.leb_le _ u64_max)) by lia. }
  set (first := match success with Some _ => _ | None => _ end).
  assert (Hfirst : match first with
    | Ok c => (forall path, success = Some path -> rec_final record = true \/ ScriptFlags.is_subset_of flags (rec_flags record) = true ->
        exists core, verdicts record path flags = Ok (true, core)) /\ checks.1 <= c.1 <= checks.1 + 1 /\ c.2 = checks.2
    | _ => ~ obeys record success failure flags end).
  { unfold first. clear first. destruct success as [path|]; [|split; [done|lia]].
    destruct (rec_final record || ScriptFlags.is_subset_of flags (rec_flags record)) eqn:Happ; [apply orb_true_iff in Happ|apply orb_false_iff in Happ].
    - destruct (verdicts record path flags) as [[b core]| |] eqn:Hv; run; [|intros [Ho _]; destruct (Ho path eq_refl Happ) as [? ?]; congruence..].
      destruct b; run; [rewrite Hu by done; run|intros [Ho _]; destruct (Ho path eq_refl Happ) as [? ?]; congruence].
      cbn [fst snd]. split; [intros p [= <-] _; by eauto|]. lia.
    - split; [|lia]. intros p _ [Hc|Hc]; destruct Happ; congruence. }
  destruct first as [c|e|]; [|done..]. run. destruct Hfirst as (Hs & Hc1 & Hc2). destruct failure as [path|]; [|split; [by split|lia]].
  destruct (ScriptFlags.contains flags (rec_flags record)) eqn:Happ.
  - destruct (verdicts record path flags) as [[b core]| |] eqn:Hv; run; [|intros [_ Ho]; destruct (Ho path eq_refl Happ) as [? ?]; congruence..].
    destruct b; run; [intros [_ Ho]; destruct (Ho path eq_refl Happ) as [? ?]; congruence|rewrite Hu by lia; run].
    cbn [fst snd]. split; [split; [done|intros p [= <-] _; by eauto]|]. lia.
  - split; [|lia]. split; [done|]. intros p _ Hc. congruence.
Qed.

Lemma check_all record success failure combos : forall checks, 0 <= checks.1 -> checks.1 + len combos <= u64_max -> 0 <= checks.2 -> checks.2 + len combos <= u64_max ->
  match foldM (check_flags record success failure) checks combos with
  | Ok c => Forall (obeys record success failure) combos /\ checks.1 <= c.1 <= checks.1 + len combos /\ checks.2 <= c.2 <= checks.2 + len combos
  | _ => ~ Forall (obeys record success failure) combos
  end.
Proof.
  induction combos as [|flags combos IH]; intros checks Hk1 Hk2 Hk3 Hk4; cbn [foldM]; [split; [constructor|rewrite len_nil; lia]|]. rewrite len_cons in *.
  pose proof (len_nonneg combos). pose proof (check_flags_spec record success failure checks flags ltac:(lia) ltac:(lia)) as Hc.
  destruct (check_flags record success failure checks flags) as [c|e|]; run; [|intros HF; by apply Forall_cons in HF as [? _]..].
  destruct Hc as (Ho & Hc1 & Hc2). specialize (IH c ltac:(lia) ltac:(lia) ltac:(lia) ltac:(lia)).
  destruct (foldM _ c combos) as [c'|e|]; [|intros HF; apply Forall_cons in HF as [_ HF]; by apply IH..]. destruct IH as (HF & Hi1 & Hi2). split; [by constructor|lia].
Qed.

Lemma run_record_spec json : match run_record json combinations with
  | Ok c => follows_rule json /\ 0 <= c.1 <= 64 /\ 0 <= c.2 <= 64
  | _ => ~ follows_rule json
  end.
Proof.
  unfold run_record, follows_rule.
  destruct (decode_record json) as [record|e|] eqn:Hr; run; [|by intros (? & ? & ? & ? & _)..].
  destruct (decode_optional json (text "success")) as [success|e|] eqn:Hs; run; [|by intros (? & ? & ? & ? & ? & _)..].
  destruct (decode_optional json (text "failure")) as [failure|e|] eqn:Hf; run; [|by intros (? & ? & ? & ? & ? & ? & _)..].
  destruct (bool_decide (is_Some success) || bool_decide (is_Some failure)) eqn:Hp; run.
  2: { intros (record' & s & f & [= <-] & [= <-] & [= <-] & Ho & _). apply orb_false_iff in Hp as [Hp1 Hp2].
       apply bool_decide_eq_false in Hp1, Hp2. tauto. }
  pose proof (check_all record success failure combinations (0, 0)) as Hc. change (len combinations) with 64 in Hc. unfold u64_max in Hc. cbn [fst snd] in Hc.
  specialize (Hc ltac:(lia) ltac:(lia) ltac:(lia) ltac:(lia)).
  assert (Hall : Forall (obeys record success failure) combinations <-> (forall flags, lattice flags -> obeys record success failure flags)).
  { rewrite Forall_forall. split; intros Ha flags Hin; apply Ha; by apply combinations_lattice. }
  destruct (foldM _ (0, 0) combinations) as [c|e|].
  - destruct Hc as (Ho & Hc1 & Hc2). split; [|lia]. exists record, success, failure. split_and!; try done; [|by apply Hall].
    apply orb_true_iff in Hp as [Hp|Hp]; apply bool_decide_eq_true in Hp; auto.
  - intros (record' & s & f & [= <-] & [= <-] & [= <-] & _ & Ho). by apply Hc, Hall.
  - intros (record' & s & f & [= <-] & [= <-] & [= <-] & _ & Ho). by apply Hc, Hall.
Qed.

Lemma add_all items : forall summary, 0 <= records summary -> records summary + len items <= RECORDS_MAX ->
  0 <= success_checks summary <= 64 * records summary -> 0 <= failure_checks summary <= 64 * records summary ->
  match foldM (add_record combinations) summary items with
  | Ok s => Forall follows_rule items /\ records s = records summary + len items
  | _ => ~ Forall follows_rule items
  end.
Proof.
  induction items as [|json items IH]; intros summary Hk1 Hk2 Hk3 Hk4; cbn [foldM]; [split; [constructor|rewrite len_nil; lia]|]. rewrite len_cons in *.
  pose proof (len_nonneg items). unfold RECORDS_MAX in *. pose proof (run_record_spec json) as Hr.
  assert (Hu : forall x, 0 <= x <= 2 ^ 40 -> u64 (E:=bytes) x = Ok x).
  { intros x Hx. unfold u64, u64_max. by rewrite (proj2 (Z.leb_le 0 _)), (proj2 (Z.leb_le _ (2 ^ 64 - 1))) by lia. }
  destruct (run_record json combinations) as [[s f]|e|] eqn:Hrun.
  2, 3: (assert (Hadd : forall s, add_record combinations summary json <> Ok s) by (intros s; unfold add_record; by rewrite Hrun));
    destruct (add_record combinations summary json) as [s| |]; [by destruct (Hadd s)|..]; run; intros HF; by apply Forall_cons in HF as [? _].
  destruct Hr as (Hrule & Hs & Hf). cbn [fst snd] in Hs, Hf.
  set (summary' := mkSummary (records summary + 1) (success_checks summary + s) (failure_checks summary + f)).
  assert (Hadd : add_record combinations summary json = Ok summary').
  { unfold add_record. rewrite Hrun. run. rewrite Hu by lia. run. rewrite Hu by lia. run. by rewrite Hu by lia. }
  rewrite Hadd. run. specialize (IH summary'). cbn [summary' records success_checks failure_checks] in IH.
  specialize (IH ltac:(lia) ltac:(lia) ltac:(lia) ltac:(lia)).
  destruct (foldM _ summary' items) as [s'|e|]; [|intros HF; apply Forall_cons in HF as [_ HF]; by apply IH..]. destruct IH as [HF Hn]. split; [by constructor|]. lia.
Qed.

(** C33.  The corpus is replayed exactly.  However the array of records is written - any white
    space, any escapes, whatever follows the closing bracket - the run passes exactly when every
    record obeys Core's rule: under each consistent set of consensus flags, its success path
    verifies where the record is final or the flags are a subset of its own, and its failure path
    fails where they are a superset.  A run that passes has counted every record; one that does not
    ends in a panic. *)
Theorem corpus_replayed_exactly items t w rest : items_of items t -> spaces w -> len items < RECORDS_MAX ->
  match run_corpus (w ++ x5b :: t ++ x5d :: rest) with
  | Ok summary => Forall follows_rule items /\ records summary = len items
  | _ => ~ Forall follows_rule items
  end.
Proof.
  intros Hi Hw Hl. rewrite (run_corpus_walk items t w rest Hi Hw Hl). pose proof (add_all items (mkSummary 0 0 0)) as Ha. cbn in Ha. apply Ha; lia.
Qed.
End corpus.

(** ** A concrete corpus *)

Definition quoted (s : bytes) : bytes := x22 :: s ++ [x22].

Lemma quoted_ok s : forallb (fun b => negb (bool_decide (b ∈ [x22; x5c]))) s && utf8 s = true -> string_of s (quoted s).
Proof.
  rewrite andb_true_iff. intros [Hp Hu]. exists s. split_and!; [done| |done]. clear Hu. induction s as [|b s IH]; [constructor|].
  cbn in Hp. apply andb_true_iff in Hp as [Hb Hp]. apply negb_true_iff, bool_decide_eq_false in Hb. constructor; [set_solver..|by apply IH].
Qed.

(** Texts with commas between them. *)
Fixpoint join (texts : list bytes) : bytes :=
  match texts with [] => [] | [t] => t | t :: texts => t ++ x2c :: join texts end.

Lemma items_join (l : list (Json * bytes)) : Forall (fun p => text_of p.1 p.2) l -> items_of (fst <$> l) (join (snd <$> l)).
Proof.
  assert (Hnil : spaces []) by constructor.
  induction 1 as [|[v t] l Hv HF IH]; [by apply I_none|]. destruct l as [|p l].
  - pose proof (I_one [] v t [] Hnil Hv Hnil) as Hone. by rewrite app_nil_r in Hone.
  - apply (I_more [] v t []); done.
Qed.

Lemma fields_join (l : list (bytes * Json * bytes)) : Forall (fun p => string_of p.1.1 (quoted p.1.1) /\ text_of p.1.2 p.2) l ->
  fields_of (fst <$> l) (join ((fun p => quoted p.1.1 ++ x3a :: p.2) <$> l)).
Proof.
  assert (Hnil : spaces []) by constructor.
  induction 1 as [|[[k v] t] l [Hk Hv] HF IH]; [by apply F_none|]. pose proof (F_field k (quoted k) [] [] v t Hk Hnil Hnil Hv) as Hf. destruct l as [|p l].
  - pose proof (F_one [] (k, v) _ [] Hnil Hf Hnil) as Hone. by rewrite app_nil_r in Hone.
  - apply (F_more [] (k, v) _ []); done.
Qed.

(** A record whose output anyone can spend, without witness. *)
Definition path_fields : list (bytes * Json * bytes) :=
  [(text "scriptSig", Str [], quoted []); (text "witness", Array [], [x5b; x5d])].
Definition path_text : bytes := x7b :: join ((fun p => quoted p.1.1 ++ x3a :: p.2) <$> path_fields) ++ [x7d].
Definition record_fields : list (bytes * Json * bytes) :=
  [(text "tx", Str [], quoted []); (text "prevouts", Array [Str []], x5b :: quoted [] ++ [x5d]); (text "index", Number 0, [x30]);
   (text "flags", Str (text "P2SH,WITNESS"), quoted (text "P2SH,WITNESS")); (text "comment", Str (text "anyone"), quoted (text "anyone"));
   (text "success", Object (fst <$> path_fields), path_text)].
Definition record_json : Json := Object (fst <$> record_fields).
Definition record_text : bytes := x7b :: join ((fun p => quoted p.1.1 ++ x3a :: p.2) <$> record_fields) ++ [x7d].

Lemma record_text_ok : text_of record_json record_text.
Proof.
  assert (Hnil : spaces []) by constructor.
  assert (Hempty : text_of (Str []) (quoted [])) by (apply T_str, quoted_ok; reflexivity).
  assert (Hpath : text_of (Object (fst <$> path_fields)) path_text).
  { apply T_object, fields_join. repeat apply Forall_cons_2; try (split; [apply quoted_ok; reflexivity|cbn [fst snd]]); [done| |constructor].
    apply (T_array [] []), I_none, Hnil. }
  apply T_object, fields_join. repeat apply Forall_cons_2; try (split; [apply quoted_ok; reflexivity|cbn [fst snd]]); [done| | | | |done|constructor].
  - apply (T_array [Str []] (quoted [])). by apply (items_join [(Str [], quoted [])]), list.Forall_singleton.
  - apply T_number. apply (N_plain [x30]); [done|by repeat constructor|reflexivity].
  - apply T_str, quoted_ok. reflexivity.
  - apply T_str, quoted_ok. reflexivity.
Qed.

(** Every hexadecimal text stands for the same transaction and the same output. *)
Definition toy_decoding : Decoding := {|
  from_hex s := Some s;
  deserialize_tx _ := Some (mkTransaction 1 0 [mkTxIn (mkOutPoint [] 0) [] u32_max []] [mkTxOut 1 []]);
  deserialize_txout _ := Some (mkTxOut 1 [x51]);
|}.

#[local] Existing Instances prefix_hashes simple_encoding toy_secp toy_core toy_decoding.
#[local] Instance corpus_crate : BitcoinCrate := constant_crate [].

(** The record, twice, between line breaks. *)
Lemma corpus_replayed_exactly_witness : Forall follows_rule [record_json; record_json].
Proof.
  assert (Hws : spaces [x0a]) by (constructor; [reflexivity|constructor]).
  pose proof (corpus_replayed_exactly [record_json; record_json] (record_text ++ x2c :: record_text) [x0a] [x0a]) as Hrun.
  assert (Hi : items_of [record_json; record_json] (record_text ++ x2c :: record_text)).
  { apply (items_join [(record_json, record_text); (record_json, record_text)]). constructor; [apply record_text_ok|]. constructor; [apply record_text_ok|constructor]. }
  specialize (Hrun Hi Hws ltac:(reflexivity)).
  assert (Hok : is_ok (run_corpus ([x0a] ++ x5b :: (record_text ++ x2c :: record_text) ++ x5d :: [x0a])) = true) by (vm_compute; reflexivity).
  destruct (run_corpus _) as [summary| |]; [apply Hrun|discriminate..].
Defined.
